(* ===== verification/_CoqProject ===== *)
-Q . S2P
Prelude.v
EventLog.v
Bytes.v
Base58.v
Wormhole.v
Amount.v
Allowances.v
Quote.v
Registry.v
Arbitrage.v
Research.v
Scheduling.v
RuntimeGate.v
Windows.v
Inventory.v
Allocation.v
Execution.v
Sequential.v
DynamicSlippage.v
SequentialPorts.v
SequentialEconomics.v
SequentialExecutor.v
SequentialMachine.v
SequentialRuns.v
SequentialParallel.v
SequentialRecovery.v
Saga.v
Confirmer.v
Pools.v
EvmTxManager.v
Erc20Settlement.v
OrcaWhirlpool.v
OrcaDecoder.v
OrcaSwap.v
LiveEvaluator.v
RestorationGate.v
AsyncRestoration.v
Refuel.v
LiveManager.v
LiveEngine.v
Costing.v
ConstantProduct.v
LiquidityCurve.v
MeteoraDLMM.v
MeteoraDecoder.v
MeteoraQuotes.v
UniswapV3.v
UniswapSwap.v
UniswapTraversal.v
UniswapLiquidity.v
MarketState.v
RouteMirror.v
RouteQuote.v
UniswapMirror.v
Sizing.v
QuoteCache.v
TwoMarket.v
BestBuy.v
Prefunded.v
Split.v
SplitCurves.v
SplitSearch.v
RouteBuild.v
GridSplit.v
GridSearch.v
GridSchedule.v
