(* ===== verification/Prelude.v ===== *)
(** * Vernier in Rocq

    Vernier watches the same asset on two markets of different chains, decides when
    buying on one and selling on the other pays, and carries out the operation: with
    inventory it holds on both sides, or stage by stage across a bridge.  This library
    models the part of it that decides and accounts (src/domain, src/core), the
    mathematics and the account decoders of the pools (src/adapters/market), the
    transaction manager, settlement and message decoding of the chain and bridge
    adapters (src/adapters/chain, src/adapters/crosschain), and the services of the live
    runtime that keep state of their own (src/runtime), and proves it correct.

    ** The parts and how they interact

    - Vocabulary (src/domain/market): [Amount] (token amounts and exact quantities),
      [Quote] (events, snapshots, quotes, conversions), [Registry] (the catalog).
    - Arbitrage (src/domain/arbitrage): [Arbitrage] (setups, costs, opportunities),
      [Windows] (the tracker of profitable periods), [Research] (the evaluator over
      strategies, src/core/research, and the records of simulations).
    - Pools: [Pools] (what a quote source promises), [ConstantProduct],
      [LiquidityCurve], and Uniswap V3 in [UniswapV3] (snapshot, reducer, quote) with
      its proofs in [UniswapSwap], [UniswapTraversal] and [UniswapLiquidity].  Orca:
      [OrcaWhirlpool] (state.go, swap.go, quoter.go) with its proofs in [OrcaSwap] and
      the account decoder [OrcaDecoder] (solana.go).  Meteora: [MeteoraDLMM] (state.go,
      protocol_quote.go, quoter.go) with its proofs in [MeteoraQuotes] and the account
      decoder [MeteoraDecoder] (solana.go).
    - Chains and bridges: [Bytes] and [Base58] (public keys and program addresses,
      src/adapters/chain/solana/pda.go), [EvmTxManager] (nonces, fees and broadcasts,
      src/adapters/chain/evm/txmanager.go), [Erc20Settlement] (what a receipt proves,
      erc20_settlement.go), [Wormhole] (VAAs and transfer messages,
      src/adapters/crosschain/wormholentt).
    - Market state (src/core/marketstate): [MarketState] turns the events of one
      market into snapshots through a protocol's reducer; [RouteMirror] composes
      mirrors; [UniswapMirror] is the instance for Uniswap V3; [RouteQuote] quotes along
      a route (src/adapters/quote/route, src/runtime/crosschain/routes.go).
    - Costs (src/core/costing): [Costing].
    - Strategies (src/core/strategy): [QuoteCache], [TwoMarket], [BestBuy] and
      [Prefunded] compare directions over quote sources; [LiveEvaluator] values one.
    - Sizing (src/core/sizing): [Sizing] (grids, ranges, exact outputs), [Split] with
      [SplitCurves] and [SplitSearch], [GridSplit] with [GridSearch] and
      [GridSchedule], and [RouteBuild], which turns an optimizer's result into the
      route allocation of [Allocation].
    - Live engine (src/core/live): [LiveEngine] runs discovery, validation,
      revaluation and execution; [RestorationGate] admits prefunded operations;
      [Allowances] approves spenders at the start.
    - Live runtime (src/runtime/livecanary): [LiveManager] plans an opportunity and runs
      one operation at a time (planner.go, forced.go, manager.go), [RuntimeGate] is the
      state of the process, [AsyncRestoration] returns the quote in the background under
      the restoration gate, [Refuel] buys gas under the runtime gate, [DynamicSlippage]
      computes the output floors.  [Scheduling] (src/runtime/research/trigger_gate.go,
      src/runtime/livecompare) decides when a trigger or a simulation runs.
    - Prefunded execution (src/core/saga): [Inventory] and [Execution] are the
      accounts and the durable state, [Saga] the planner, gate, executor, settlement
      coordinator and restart, [Confirmer] the confirmation of what was broadcast.
    - Dependent execution (src/core/saga, src/domain/execution/sequential.go):
      [Sequential] (plans), [SequentialPorts] (the ports), [SequentialEconomics],
      [SequentialExecutor], the abstract machine [SequentialMachine] and the proofs
      [SequentialRuns] and [SequentialParallel] that the executor implements it, and
      [SequentialRecovery], which resumes an operation after a restart.

    The calls go the way they do in the code: a strategy asks sources (or the quote
    cache) about the snapshots of mirrors, with sizes from a grid and costs from a cost
    source; the engine evaluates, plans and validates, and calls the executor, which
    reserves inventory, commits, broadcasts and leaves the rest to the settlement
    coordinator.  Components meet in type classes: [QuoteSource], [Quoting] and [Answers]
    between strategies and sources, [Reducer] between a mirror and a protocol,
    [FeedMirror] between a route and its children, [OperationalStore] and [TxManagers]
    between the saga and its ports, [OpportunityStore], [TypedErrors] and [RangeOrder].
    What a call does to the outside is a trace of events ([EventLog]): a call has [Noted] one,
    is [Silent], or [Emits] a list that a predicate describes.

    ** How code is translated

    An operation is a function with the code's name, a method carrying its type's name
    where two would clash.  [res] below is a Go result: a value, an error or a panic.
    A method that changes its receiver, or code that uses stores and networks, is a call
    of the state monad [ST]; a critical section is one step.  [*big.Int] is [Z], or
    [option Z] where the code can see nil, [*big.Rat] is [Qc]; machine integers are [Z]
    with the conversions that can wrap written out.  Strings carry the identifiers,
    digests and enumerations of the code; the zero digest is the empty string.  Maps
    are [gmap]s; a [range] over a map follows [RangeOrder], an arbitrary order of its
    entries.  Times are numbers of nanoseconds with 0 for the zero time.  Of error
    messages the format is kept, not its arguments; [errors.As] is the class
    [TypedErrors].

    Parameters stand for what is outside src/: [sha256] and the RFC 3339 printer, the
    clock, identity generators, the context's error, quote services and chains behind
    ports, and the order in which goroutines run ([spawn], [schedule], [first]).
    Theorems about the outside world state the law they need as a hypothesis, and a
    witness satisfies it with a concrete port.

    ** Loops and bounds

    Loops over data are structural.  The others take fuel, and a theorem says it is
    enough: the 257 doublings of [raise_high] and the halvings of [narrow_fuel] reach the
    smallest input ([MinimumInputForOutput_smallest]); [swap_loop] has the code's own bound
    [maxSteps], never exhausted on a valid snapshot ([quoteExactInput_terminates]); the
    binary search of [search_go] ends within the length of its list; the repeated attempts
    of the engine end with the context ([Engine_Evaluate_returns]); the stage loop of the
    sequential executor ends within [loop_bound] iterations ([Execute_refines_machine]).
    [OrcaWhirlpool.swap_fuel], the number of ticks and two more, is never exhausted
    ([swap_covers]); the verification loop of the allowances has one more pass than its
    deadline has intervals ([Ensure_grants]).  The recovery loop may retry for ever by
    design: its fuel is a number of iterations and its theorem holds of every number.

    ** What the theorems show

    - Accounts: reservations never exceed what is available and every call keeps the
      invariant of the inventory ([inventory_runs_keep_invariant], [Reserve_safe],
      [Settle_applies_once]); an execution sends nothing before the store has committed
      its operation, releases what it did not use and holds what it may have used
      ([Execute_releases_or_holds], [Observe_settles_verified],
      [Confirm_observes_bound_evidence], [restoration_gate_admits]).
    - Dependent operations: the executor refines a machine that never sends a stage
      twice that may have had an effect and ends once ([Execute_refines_machine],
      [Execute_never_resends], [Execute_ends_once], [executePrefundedParallel_phases]); a
      recovery never attempts a settled stage again and completes only settled routes
      ([resume_never_repeats]); realized economics are exact
      ([calculateParallelEconomics_exact]).
    - Decisions: the engine only executes what is profitable at its validated quotes
      ([EvaluateBatch_best], [Value_exact]); strategies try their whole grid, value each
      size exactly at its quotes and select a best one, and their cache is invisible
      ([TwoMarket_Evaluate_selects], [TwoMarket_cache_transparent],
      [BestBuy_selects_best], [Prefunded_Evaluate_selects]).
    - Sizing: optimizers conserve their input, value it at the curves, are optimal over
      their grids and do not depend on their schedule ([OptimizeTwoStageSplit_sound],
      [OptimizeTwoStageSplitGrid_optimal], [grid_schedule_irrelevant]), and lead to routes
      that can be executed ([optimized_route_executable], [Validate_iff_conserves]).
    - Live runtime: interleaved callers buy gas one at a time, within the policy and
      never after doubt ([purchases_exclusive]); the transitions of the process form one
      valid path ([transitions_path]); unfinished returns hold the gate over restarts
      ([restorations_durable]); a plan commits to the opportunity and the configuration
      ([Plan_commits]) and operations stay within their limit ([operations_limited]);
      simulations serve the newest request ([coordinator_serves_newest]); floors and
      approvals are exact ([trigger_first_floor], [Ensure_grants]).
    - Chains and bridges: no nonce is used again while a transaction with it is
      in flight, as far as the answers of the endpoints tell a timeout or a cancellation
      from a refusal ([nonces_never_reused]), the verdict of a fan-out does not depend on
      the order of its answers ([Broadcast_verdict]), a receipt settles
      what its transfers show ([DecodeReceipt_exact]), messages are parsed exactly
      ([ParseVAA_exact], [NTTMessage_exact], [TrimTransferAmount_exact]), accounts are read
      back as they are laid out ([tick_array_round_trip], [bin_array_round_trip],
      [DecodeAccountBatch_publishes]).
    - Pools: the input of an exact output yields at least that output, in Whirlpools
      ([swap_covers], [swap_sound]) and in Meteora pools that charge a fee of at most one
      half on the input of bins of 64 bits ([quoteExactOut_covered]), whose quotes are
      routes of fair fills ([quoteExactIn_route]); quotes spend the
      input, round against the trader and keep the pool whole ([quoteExactInput_sound],
      [quote_keeps_active], [Quote_keeps_product], [ExactOutputRate_covered]); reducers keep snapshots valid and undo each other
      ([Reduce_valid], [Reduce_keeps_active], [Reduce_mint_burn]).
    - Market state: mirrors publish valid snapshots under growing versions, in order
      ([mirror_versions], [monotonic_never_back], [route_composes], [mirror_quotes_answer]);
      a route is quoted by a chain of answers of its hops ([route_quotes_chain]);
      windows are those the store accepted and hold the best candidate it accepted
      ([windows_track_best]).

    ** Simplifications

    Durations and traces that are only measured are left out.  Trimming of blank
    strings knows the ASCII spaces only.  Goroutines that share nothing mutable run in
    list order; those that share a lock run as atomic steps in an arbitrary order.
    Within one call the context's error is fixed unless the code asks it repeatedly.

    ** Not modelled

    Network and storage clients (RPC of chains, bridge and quote services, feeds, SQLite,
    notifications), transaction construction, signing and ABI encoding are I/O and
    third-party encodings.  The rest of the runtimes, the canaries and the commands
    compose the components, read configuration and report.  Of the pool adapters the
    on-chain readers are RPC, and Aerodrome, Uniswap V2 and V4 feed their states into the
    pool models above. *)
From stdpp Require Export base gmap strings list pretty numbers sorting.
From Stdlib Require Import ZArith Lia.

#[global] Set Default Proof Using "Type".
#[global] Open Scope Z_scope.

(** ** Errors and results

    Go's [error] values.  [Errorf] is [fmt.Errorf] (or [errors.New]) with its
    format string; the arguments only decorate the message and are dropped.
    [Wrapf] is [fmt.Errorf] with a [%w] verb, [Joined] is [errors.Join], and
    [Sentinel] is a package-level error variable, compared by identity. *)
Inductive error : Type :=
| Sentinel (name : string)
| Errorf (format : string)
| Wrapf (format : string) (cause : error)
| Joined (causes : list error).

(** [errors.Is(err, target)] for a sentinel target. *)
Fixpoint errors_Is (err : error) (target : string) : bool :=
  match err with
  | Sentinel name => bool_decide (name = target)
  | Errorf _ => false
  | Wrapf _ cause => errors_Is cause target
  | Joined causes => existsb (fun cause => errors_Is cause target) causes
  end.

(** [errors.Join(errs...)], which drops the nil errors. *)
Definition errors_Join (errs : list (option error)) : option error :=
  match omap id errs with [] => None | causes => Some (Joined causes) end.

(** A call returns a value, returns an error, or panics. *)
Inductive res (A : Type) : Type :=
| Ok (a : A)
| Err (e : error)
| Panic (why : string).
Arguments Ok {A} a.
Arguments Err {A} e.
Arguments Panic {A} why.

#[global] Instance res_ret : MRet res := @Ok.
#[global] Instance res_bind : MBind res := fun A B f m =>
  match m with Ok a => f a | Err e => Err e | Panic why => Panic why end.

(** [fmt.Errorf(format, ..., err)] around the error of a call. *)
Definition wrap {A} (format : string) (m : res A) : res A :=
  match m with Err e => Err (Wrapf format e) | _ => m end.

Definition res_opt {A} (m : res A) : option A :=
  match m with Ok a => Some a | _ => None end.

Definition is_ok {A} (m : res A) : bool :=
  match m with Ok _ => true | _ => false end.

(** [no_panic m]: the call ends in a value or an error. *)
Definition no_panic {A} (m : res A) : Prop := forall why, m <> Panic why.

Lemma bind_Ok {A B} (m : res A) (f : A -> res B) b :
  m ≫= f = Ok b <-> exists a, m = Ok a /\ f a = Ok b.
Proof.
  destruct m as [x|e|w]; cbn; split; try naive_solver.
Qed.

Lemma wrap_Ok {A} fmt (m : res A) a : wrap fmt m = Ok a <-> m = Ok a.
Proof. destruct m; naive_solver. Qed.

Lemma no_panic_Ok {A} (a : A) : no_panic (Ok a).
Proof. done. Qed.

Lemma no_panic_Err {A} e : no_panic (@Err A e).
Proof. done. Qed.

Lemma no_panic_bind {A B} (m : res A) (f : A -> res B) :
  no_panic m -> (forall a, m = Ok a -> no_panic (f a)) -> no_panic (m ≫= f).
Proof.
  intros Hm Hf. destruct m as [a|e|w]; cbn; [by apply Hf|done|].
  exfalso. by eapply Hm.
Qed.

Lemma no_panic_wrap {A} fmt (m : res A) : no_panic m -> no_panic (wrap fmt m).
Proof. destruct m; cbn; auto. intros _. apply no_panic_Err. Qed.

(** [for _, a := range l { ... }] with an early return. *)
Fixpoint foldM {A S} (f : S -> A -> res S) (s : S) (l : list A) : res S :=
  match l with
  | [] => Ok s
  | a :: l => s' ← f s a; foldM f s' l
  end.

Lemma foldM_app {A S} (f : S -> A -> res S) s l k :
  foldM f s (l ++ k) = foldM f s l ≫= fun s' => foldM f s' k.
Proof.
  revert s. induction l as [|a l IH]; intros s; cbn; [done|].
  destruct (f s a); cbn; auto.
Qed.

(** An invariant of the loop body is an invariant of the loop. *)
Lemma foldM_inv {A S} (f : S -> A -> res S) (I : S -> Prop) s l s' :
  I s -> (forall s a s', a ∈ l -> I s -> f s a = Ok s' -> I s') ->
  foldM f s l = Ok s' -> I s'.
Proof.
  revert s. induction l as [|a l IH]; intros s Hs Hf; cbn.
  - by intros [= <-].
  - rewrite bind_Ok. intros (s1 & H1 & H2).
    eapply (IH s1); [|intros; eapply Hf; [by right|eauto..]|done].
    eapply Hf; [by left|eauto..].
Qed.

(** An invariant over the part of the list already visited. *)
Lemma foldM_inv_prefix {A S} (f : S -> A -> res S) (I : list A -> S -> Prop) s l s' :
  I [] s ->
  (forall done_ a rest s s', l = done_ ++ a :: rest -> I done_ s ->
     f s a = Ok s' -> I (done_ ++ [a]) s') ->
  foldM f s l = Ok s' -> I l s'.
Proof.
  intros H0 Hf.
  enough (forall rest done_ s, l = done_ ++ rest -> I done_ s ->
    foldM f s rest = Ok s' -> I l s') as Hall by (apply (Hall l []); auto).
  induction rest as [|a rest IH]; intros dn s1 Hl HI; cbn.
  - intros [= <-]. by rewrite Hl, app_nil_r.
  - rewrite bind_Ok. intros (s2 & H1 & H2).
    eapply (IH (dn ++ [a])); [by rewrite <- app_assoc|by eapply Hf|done].
Qed.

Lemma no_panic_foldM {A S} (f : S -> A -> res S) s l :
  (forall s a, a ∈ l -> no_panic (f s a)) -> no_panic (foldM f s l).
Proof.
  revert s. induction l as [|a l IH]; intros s Hf; cbn; [done|].
  apply no_panic_bind; [apply Hf; by left|].
  intros s' _. apply IH. intros. apply Hf. by right.
Qed.

(** A loop that collects the results of its body. *)
Lemma collect_ok {A B} (f : A -> res B) (P : A -> B -> Prop) l acc results :
  (forall a b, a ∈ l -> f a = Ok b -> P a b) ->
  foldM (fun results a => result ← f a; Ok (results ++ [result])) acc l = Ok results ->
  exists new, results = acc ++ new /\ Forall2 P l new.
Proof.
  revert acc. induction l as [|a l IH]; intros acc Hf; cbn [foldM]; [intros [= <-]; exists []; by rewrite app_nil_r|].
  intros H. apply bind_Ok in H as (acc1 & Ha & H). apply bind_Ok in Ha as (b & Hb & [= <-]).
  apply IH in H as (new & -> & Hnew); [|intros; apply Hf; [by right|done]]. exists (b :: new). rewrite <- app_assoc. split; [done|].
  constructor; [apply Hf; [by left|done]|done].
Qed.

(** The body may need the loop invariant not to panic. *)
Lemma no_panic_foldM_inv {A S} (f : S -> A -> res S) (I : S -> Prop) s l :
  I s -> (forall s a, I s -> no_panic (f s a)) ->
  (forall s a s', I s -> f s a = Ok s' -> I s') -> no_panic (foldM f s l).
Proof.
  intros Hs Hf HI. revert s Hs. induction l as [|a l IH]; intros s Hs; [done|].
  apply no_panic_bind; [by apply Hf|]. intros s' Hs'. apply IH. by eapply HI.
Qed.

(** ** Proof automation *)

(** Take a hypothesis [body = Ok v] apart along the guards and calls of the
    body; the branches that do not return a value disappear. *)
Ltac res_step :=
  match goal with
  | H : Ok _ = Ok _ |- _ => injection H as H
  | H : Err _ = Ok _ |- _ => discriminate H
  | H : Panic _ = Ok _ |- _ => discriminate H
  | H : wrap _ _ = Ok _ |- _ => apply wrap_Ok in H
  | H : mbind _ _ = Ok _ |- _ => apply bind_Ok in H as (?x & ?Hx & H)
  | H : (if decide ?P then _ else _) = Ok _ |- _ => destruct (decide P) as [?Hc|?Hc]
  | H : (if ?b then _ else _) = Ok _ |- _ => destruct b eqn:?
  | H : (match ?x with _ => _ end) = Ok _ |- _ => destruct x eqn:?
  end.
Ltac res_inv := repeat (res_step; cbn beta iota zeta in * ).

(** The same for a goal [no_panic body]. *)
Create HintDb no_panic discriminated.
#[export] Hint Resolve no_panic_Ok no_panic_Err no_panic_wrap : no_panic.
Ltac no_panic_step :=
  match goal with
  | |- no_panic (Ok _) => apply no_panic_Ok
  | |- no_panic (Err _) => apply no_panic_Err
  | |- no_panic (mbind _ _) => apply no_panic_bind; [|intros ? ?]
  | |- no_panic (wrap _ _) => apply no_panic_wrap
  | |- no_panic (foldM _ _ _) => apply no_panic_foldM; intros ? ? ?
  | |- no_panic (if decide ?P then _ else _) => destruct (decide P) as [?Hc|?Hc]
  | |- no_panic (if ?b then _ else _) => destruct b eqn:?
  | |- no_panic (match ?x with _ => _ end) => destruct x eqn:?
  end.
Ltac no_panic_auto := repeat (no_panic_step; cbn beta iota zeta);
  eauto with no_panic.

(** ** Time

    A [time.Time] is its offset in nanoseconds from Go's zero time, so
    [IsZero] is a comparison with 0 and [UTC] changes nothing that is read. *)
Abbreviation Time := Z (only parsing).
Definition Time_IsZero (t : Time) : Prop := t = 0.
Definition Time_After (t u : Time) : Prop := u < t.
Definition Time_Before (t u : Time) : Prop := t < u.
#[global] Instance Time_IsZero_dec t : Decision (Time_IsZero t) := ltac:(unfold Time_IsZero; apply _).
#[global] Instance Time_After_dec t u : Decision (Time_After t u) := ltac:(unfold Time_After; apply _).
#[global] Instance Time_Before_dec t u : Decision (Time_Before t u) := ltac:(unfold Time_Before; apply _).

(** [uint64] arithmetic. *)
Definition uint64 (x : Z) : Z := x mod 2 ^ 64.

(** ** Lists of integers *)

Create Rewrite HintDb zsum.

Definition Zsum (l : list Z) : Z := foldr Z.add 0 l.

Lemma Zsum_nil : Zsum [] = 0.
Proof. done. Qed.
Lemma Zsum_cons x l : Zsum (x :: l) = x + Zsum l.
Proof. done. Qed.
Lemma Zsum_app l k : Zsum (l ++ k) = Zsum l + Zsum k.
Proof. induction l as [|x l IH]; [done|].
  rewrite <- app_comm_cons, !Zsum_cons. lia. Qed.
#[global] Arguments Zsum : simpl never.
#[export] Hint Rewrite Zsum_nil Zsum_cons Zsum_app : zsum.

#[global] Instance Zsum_perm : Proper ((≡ₚ) ==> (=)) Zsum.
Proof.
  induction 1 as [|x l k H IH|x y l|l1 l2 l3 H1 IH1 H2 IH2]; rewrite ?Zsum_cons;
    first [done | lia].
Qed.

Lemma Zsum_nonneg l : Forall (fun x => 0 <= x) l -> 0 <= Zsum l.
Proof. induction 1; rewrite ?Zsum_nil, ?Zsum_cons; lia. Qed.

Lemma Zsum_elem_le l x : Forall (fun x => 0 <= x) l -> x ∈ l -> x <= Zsum l.
Proof.
  induction 1 as [|y l Hy Hl IH]; intros Hx; [by apply elem_of_nil in Hx|].
  rewrite Zsum_cons. apply elem_of_cons in Hx as [->|Hx].
  - pose proof (Zsum_nonneg l Hl). lia.
  - specialize (IH Hx). lia.
Qed.

Lemma Zsum_fmap_ext {A} (f g : A -> Z) l :
  (forall x, x ∈ l -> f x = g x) -> Zsum (f <$> l) = Zsum (g <$> l).
Proof.
  intros H. f_equal. apply list_fmap_ext. intros i x Hx.
  by eapply H, list_elem_of_lookup_2.
Qed.

Lemma Zsum_replicate_0 n : Zsum (replicate n 0) = 0.
Proof. induction n as [|n IH]; [done|]. cbn [replicate]. rewrite Zsum_cons. lia. Qed.

Lemma Zsum_insert l (i : nat) x y :
  l !! i = Some x -> Zsum (<[i := y]> l) = Zsum l - x + y.
Proof.
  revert i. induction l as [|z l IH]; intros [|i] H; [done..| |];
    simpl in *.
  - simplify_eq. rewrite !Zsum_cons. lia.
  - rewrite !Zsum_cons, (IH i) by done. lia.
Qed.

(** ** Integer division *)

(** [big.Int.Quo] truncates; on non-negative operands it is the floor. *)
Lemma Zquot_bounds a b : 0 <= a -> 0 < b ->
  b * Z.quot a b <= a < b * (Z.quot a b + 1).
Proof.
  intros Ha Hb. rewrite Z.quot_div_nonneg by lia.
  pose proof (Z.mul_div_le a b Hb). pose proof (Z.mul_succ_div_gt a b Hb). lia.
Qed.

Lemma Zquot_nonneg a b : 0 <= a -> 0 < b -> 0 <= Z.quot a b.
Proof. intros. by apply Z.quot_pos. Qed.

(** ** Stateful calls

    A method that mutates its receiver: the receiver is threaded through, and
    what was written before an error or a panic stays written. *)
Definition ST (S A : Type) : Type := S -> res A * S.

#[global] Instance st_ret {S} : MRet (ST S) := fun A a s => (Ok a, s).
#[global] Instance st_bind {S} : MBind (ST S) := fun A B f m s =>
  match m s with
  | (Ok a, s') => f a s'
  | (Err e, s') => (Err e, s')
  | (Panic why, s') => (Panic why, s')
  end.

Definition lift {S A} (m : res A) : ST S A := fun s => (m, s).
Definition get {S} : ST S S := fun s => (Ok s, s).
Definition put {S} (s : S) : ST S unit := fun _ => (Ok tt, s).
Definition modify {S} (f : S -> S) : ST S unit := fun s => (Ok tt, f s).
Definition fail {S A} (format : string) : ST S A := fun s => (Err (Errorf format), s).

(** [for _, a := range l { f(a) }]. *)
Fixpoint for_each {S A} (f : A -> ST S unit) (l : list A) : ST S unit :=
  match l with
  | [] => fun s => (Ok tt, s)
  | a :: l => fun s => match f a s with
                       | (Ok _, s') => for_each f l s'
                       | (Err e, s') => (Err e, s')
                       | (Panic why, s') => (Panic why, s')
                       end
  end.

Lemma st_bind_Ok {S A B} (m : ST S A) (f : A -> ST S B) s b s' :
  (m ≫= f) s = (Ok b, s') <-> exists a s1, m s = (Ok a, s1) /\ f a s1 = (Ok b, s').
Proof.
  unfold mbind, st_bind. destruct (m s) as [[x|e|w] s1] eqn:Hm; split; try naive_solver.
Qed.

Lemma st_bind_run {S A B} (m : ST S A) (f : A -> ST S B) s a s1 :
  m s = (Ok a, s1) -> (m ≫= f) s = f a s1.
Proof. intros Hm. unfold mbind, st_bind. by rewrite Hm. Qed.

(** [Post m s Q]: whatever the call [m] ends in from [s], [Q] holds of the
    outcome and the receiver it leaves behind. *)
Definition Post {S A} (m : ST S A) (s : S) (Q : res A -> S -> Prop) : Prop :=
  let '(r, s') := m s in Q r s'.

Lemma Post_bind {S A B} (m : ST S A) (f : A -> ST S B) s Q R :
  Post m s Q ->
  (forall a s', Q (Ok a) s' -> Post (f a) s' R) ->
  (forall e s', Q (Err e) s' -> R (Err e) s') ->
  (forall w s', Q (Panic w) s' -> R (Panic w) s') ->
  Post (m ≫= f) s R.
Proof.
  unfold Post, mbind, st_bind. destruct (m s) as [[a|e|w] s']; cbn; auto.
  intros HQ Hf _ _. by apply Hf.
Qed.

Lemma Post_weaken {S A} (m : ST S A) s (Q R : res A -> S -> Prop) :
  Post m s Q -> (forall r s', Q r s' -> R r s') -> Post m s R.
Proof. unfold Post. destruct (m s). auto. Qed.

(** [value, err := m()]: the error becomes a value the caller looks at. *)
Definition try {S A} (m : ST S A) : ST S (res A) := fun s =>
  let '(r, s') := m s in
  match r with Panic why => (Panic why, s') | _ => (Ok r, s') end.

(** [_ = m()]: the error is dropped. *)
Definition ignore {S A} (m : ST S A) : ST S unit := _ ← try m; mret tt.

(** [if a, err := m(); err != nil { bad(err) } else { good(a) }]. *)
Definition on_result {S A B} (m : ST S A) (good : A -> ST S B) (bad : error -> ST S B) : ST S B := fun s =>
  match m s with
  | (Ok a, s') => good a s'
  | (Err e, s') => bad e s'
  | (Panic why, s') => (Panic why, s')
  end.

Lemma Post_try {S A} (m : ST S A) s (Q : res (res A) -> S -> Prop) :
  Post m s (fun r s' => match r with Panic why => Q (Panic why) s' | _ => Q (Ok r) s' end) -> Post (try m) s Q.
Proof. unfold Post, try. by destruct (m s) as [[a|e|why] s']. Qed.

Lemma Post_bind_Ok {S A B} (m : ST S A) (f : A -> ST S B) s a s' R :
  m s = (Ok a, s') -> Post (f a) s' R -> Post (m ≫= f) s R.
Proof. intros Hm. unfold Post. by rewrite (st_bind_run m f s a s' Hm). Qed.

Lemma Post_mret {S A} (a : A) (s : S) (Q : res A -> S -> Prop) : Q (Ok a) s -> Post (mret a) s Q.
Proof. done. Qed.

Lemma try_run {S A} (m : ST S A) s r s' : no_panic r -> m s = (r, s') -> try m s = (Ok r, s').
Proof.
  intros Hr Hm. unfold try. rewrite Hm. destruct r as [a|e|why]; [done..|]. by destruct (Hr why).
Qed.

Lemma ignore_run {S A} (m : ST S A) s r s' : no_panic r -> m s = (r, s') -> ignore m s = (Ok tt, s').
Proof. intros Hr Hm. unfold ignore. by rewrite (st_bind_run _ _ s r s' (try_run m s r s' Hr Hm)). Qed.

(** ** Choosing the best of a list

    [best_index P R l best]: [best] is [-1] when no element of [l] satisfies [P], and
    otherwise the index of one that does and that [R] prefers to all others. *)
Definition best_index {A} (P : A -> Prop) (R : nat -> A -> nat -> A -> Prop) (l : list A) (best : Z) : Prop :=
  (best = -1 /\ Forall (fun a => ~ P a) l) \/
  exists i a, best = Z.of_nat i /\ l !! i = Some a /\ P a /\ forall j b, l !! j = Some b -> P b -> R i a j b.

Section best_index.
Context {A : Type} (P : A -> Prop) (R : nat -> A -> nat -> A -> Prop).

Lemma best_index_nil : best_index P R [] (-1).
Proof. left. split; [done|constructor]. Qed.

Lemma lookup_snoc_cases (l : list A) o j b : (l ++ [o]) !! j = Some b -> l !! j = Some b \/ j = length l /\ b = o.
Proof.
  intros [Hj|[Hlen Hj]]%lookup_app_Some; [by left|]. apply list_lookup_singleton_Some in Hj as [Hj <-]. right. split; [lia|done].
Qed.

(** An element that does not qualify, one that is not preferred to the best, and a new best. *)
Lemma best_index_skip l o best : ~ P o -> best_index P R l best -> best_index P R (l ++ [o]) best.
Proof.
  intros Ho [[-> Hall]|(i & a & -> & Hi & Ha & Hbest)].
  - left. split; [done|]. apply Forall_app. by split; [|constructor].
  - right. exists i, a. split; [done|]. split; [by apply lookup_app_l_Some|]. split; [done|].
    intros j b [Hj|[_ ->]]%lookup_snoc_cases Hb; [by eapply Hbest|done].
Qed.

Lemma best_index_keep l o i a :
  l !! i = Some a -> R i a (length l) o -> best_index P R l (Z.of_nat i) -> best_index P R (l ++ [o]) (Z.of_nat i).
Proof.
  intros Hi Ho [[Hneg _]|(i' & a' & Heq & Hi' & Ha & Hbest)]; [lia|]. apply Nat2Z.inj in Heq as <-. simplify_eq.
  right. exists i, a. split; [done|]. split; [by apply lookup_app_l_Some|]. split; [done|].
  intros j b [Hj|[-> ->]]%lookup_snoc_cases Hb; [by eapply Hbest|done].
Qed.

Lemma best_index_new l o :
  P o -> R (length l) o (length l) o -> (forall j b, l !! j = Some b -> P b -> R (length l) o j b) ->
  best_index P R (l ++ [o]) (Z.of_nat (length l)).
Proof.
  intros Ho Hself Hl. right. exists (length l), o. split; [done|]. split; [by apply list_lookup_middle|]. split; [done|].
  intros j b [Hj|[-> ->]]%lookup_snoc_cases Hb; [by apply Hl|done].
Qed.
End best_index.

(** ** Iteration over maps

    Go ranges over a map in an unspecified order.  The order is a parameter:
    any function that lists the entries of a map. *)
Class RangeOrder (K : Type) `{Countable K} := {
  range : forall {A}, gmap K A -> list (K * A);
  range_perm : forall A (m : gmap K A), range m ≡ₚ map_to_list m }.

Definition range_map_to_list (K : Type) `{Countable K} : RangeOrder K :=
  {| range := fun A m => map_to_list m; range_perm := fun A m => reflexivity _ |}.

Section range.
Context {K : Type} `{Countable K} {order : RangeOrder K}.

Lemma elem_of_range {A} (m : gmap K A) k a : (k, a) ∈ range m <-> m !! k = Some a.
Proof. by rewrite range_perm, elem_of_map_to_list. Qed.

Lemma range_NoDup {A} (m : gmap K A) : NoDup (range m).*1.
Proof. rewrite range_perm. apply NoDup_fst_map_to_list. Qed.
End range.

(** ** Totals by key *)

Section total_at.
Context {K : Type} `{EqDecision K}.
Implicit Types (l : list (K * Z)).

Fixpoint total_at (k : K) (l : list (K * Z)) : Z :=
  match l with
  | [] => 0
  | (k', d) :: l => (if decide (k' = k) then d else 0) + total_at k l
  end.

Lemma total_at_cons k k' d l :
  total_at k ((k', d) :: l) = (if decide (k' = k) then d else 0) + total_at k l.
Proof. done. Qed.

Lemma total_at_app k l1 l2 : total_at k (l1 ++ l2) = total_at k l1 + total_at k l2.
Proof.
  induction l1 as [|[k' d] l1 IH]; [done|].
  rewrite <- app_comm_cons, !total_at_cons. lia.
Qed.

#[global] Instance total_at_perm k : Proper ((≡ₚ) ==> (=)) (total_at k).
Proof.
  induction 1 as [|[? ?] ? ? ? ?|[? ?] [? ?] ?|]; cbn; lia.
Qed.

Lemma total_at_notin k l : k ∉ l.*1 -> total_at k l = 0.
Proof.
  induction l as [|[k' d] l IH]; [done|].
  cbn. intros Hk. rewrite IH by set_solver. rewrite decide_False by set_solver. lia.
Qed.

Lemma total_at_nonneg k l : Forall (fun p => 0 <= p.2) l -> 0 <= total_at k l.
Proof.
  induction 1 as [|[k' d] l Hd Hl IH]; [done|]. cbn in *. case_decide; lia.
Qed.

Lemma total_at_elem k l d :
  Forall (fun p => 0 <= p.2) l -> (k, d) ∈ l -> d <= total_at k l.
Proof.
  induction 1 as [|[k' d'] l Hd Hl IH]; [by intros ?%elem_of_nil|].
  pose proof (total_at_nonneg k l Hl). rewrite elem_of_cons, total_at_cons. cbn in *.
  intros [[= <- <-]|Hin]; [rewrite decide_True by done; lia|].
  specialize (IH Hin). case_decide; lia.
Qed.
End total_at.

Lemma total_at_map_to_list `{Countable K} (k : K) (m : gmap K Z) :
  total_at k (map_to_list m) = default 0 (m !! k).
Proof.
  induction m as [|k' d m Hk' Hfirst IH] using map_first_key_ind.
  - by rewrite map_to_list_empty.
  - rewrite map_to_list_insert, total_at_cons, IH by done. case_decide; subst.
    + rewrite lookup_insert_eq, Hk'. cbn. lia.
    + by rewrite lookup_insert_ne.
Qed.

(** ** Loops and specifications of stateful calls *)

(** A loop with local variables [b], in a stateful body. *)
Fixpoint foldST {S A B} (f : B -> A -> ST S B) (b : B) (l : list A) : ST S B :=
  match l with
  | [] => fun s => (Ok b, s)
  | a :: l => fun s => match f b a s with
                       | (Ok b', s') => foldST f b' l s'
                       | (Err e, s') => (Err e, s')
                       | (Panic why, s') => (Panic why, s')
                       end
  end.

(** A call that works on a part of the state. *)
Definition zoom {S T A} (view : S -> T) (update : T -> S -> S) (m : ST T A) : ST S A :=
  fun s => let '(r, t) := m (view s) in (r, update t s).

Definition wrapST {S A} (format : string) (m : ST S A) : ST S A :=
  fun s => let '(r, s') := m s in (wrap format r, s').

(** [Spec I m Q]: from a state satisfying [I] the call [m] never panics, leaves
    a state satisfying [I] whatever it returns, and a value it returns
    satisfies [Q]. *)
Definition Spec {S A} (I : S -> Prop) (m : ST S A) (Q : A -> Prop) : Prop :=
  forall s, I s -> let '(r, s') := m s in
    I s' /\ match r with Ok a => Q a | Err _ => True | Panic _ => False end.

Section spec.
Context {S : Type} (I : S -> Prop).

Lemma Spec_ret {A} (a : A) (Q : A -> Prop) : Q a -> Spec I (mret a) Q.
Proof. intros HQ s Hs. done. Qed.

Lemma Spec_fail {A} fmt (Q : A -> Prop) : Spec I (fail fmt) Q.
Proof. intros s Hs. done. Qed.

Lemma Spec_lift {A} (m : res A) (Q : A -> Prop) :
  no_panic m -> (forall a, m = Ok a -> Q a) -> Spec I (lift m) Q.
Proof.
  intros Hp HQ s Hs. cbn. split; [done|]. destruct m; [by apply HQ|done|by eapply Hp].
Qed.

Lemma Spec_bind {A B} (m : ST S A) (f : A -> ST S B) Q R :
  Spec I m Q -> (forall a, Q a -> Spec I (f a) R) -> Spec I (m ≫= f) R.
Proof.
  intros Hm Hf s Hs. specialize (Hm s Hs). unfold mbind, st_bind.
  destruct (m s) as [[a|e|w] s']; destruct Hm as [Hs' HQ]; [by apply Hf|done..].
Qed.

Lemma Spec_weaken {A} (m : ST S A) (Q R : A -> Prop) :
  Spec I m Q -> (forall a, Q a -> R a) -> Spec I m R.
Proof.
  intros Hm HR s Hs. specialize (Hm s Hs). destruct (m s) as [[a|e|w] s']; naive_solver.
Qed.

Lemma Spec_wrapST {A} fmt (m : ST S A) Q : Spec I m Q -> Spec I (wrapST fmt m) Q.
Proof.
  intros Hm s Hs. specialize (Hm s Hs). unfold wrapST. by destruct (m s) as [[a|e|w] s'].
Qed.

Lemma Spec_get (Q : S -> Prop) : (forall s, I s -> Q s) -> Spec I get Q.
Proof. intros HQ s Hs. split; [done|by apply HQ]. Qed.

Lemma Spec_modify f (Q : unit -> Prop) : (forall s, I s -> I (f s)) -> Q tt -> Spec I (modify f) Q.
Proof. intros Hf HQ s Hs. split; [by apply Hf|done]. Qed.

(** The body keeps [L] of the part of the list visited and the loop variables. *)
Lemma Spec_foldST {A B} (f : B -> A -> ST S B) (L : list A -> B -> Prop) b l :
  L [] b ->
  (forall before a after b, l = before ++ a :: after -> L before b ->
     Spec I (f b a) (L (before ++ [a]))) ->
  Spec I (foldST f b l) (L l).
Proof.
  intros H0 Hf.
  enough (forall after before b, l = before ++ after -> L before b ->
    Spec I (foldST f b after) (L l)) as Hall by by apply (Hall l []).
  induction after as [|a after IH]; intros before b' Hl Hb s Hs; cbn [foldST].
  - split; [done|]. by rewrite Hl, app_nil_r.
  - pose proof (Hf before a after b' Hl Hb s Hs) as Hstep.
    destruct (f b' a s) as [[b1|e|w] s1]; destruct Hstep as [Hs1 HQ]; [|done..].
    apply (IH (before ++ [a])); [by rewrite <- app_assoc|done..].
Qed.
End spec.

Lemma Spec_zoom {S T A} (I : T -> Prop) (J : S -> Prop) view update (m : ST T A) Q :
  Spec I m Q -> (forall s, J s -> I (view s)) ->
  (forall s t, J s -> I t -> J (update t s)) -> Spec J (zoom view update m) Q.
Proof.
  intros Hm Hview Hup s Hs. specialize (Hm (view s) (Hview s Hs)). unfold zoom.
  destruct (m (view s)) as [r t]. destruct Hm as [Ht HQ]. split; [by apply Hup|done].
Qed.

(** ** Text *)

(** [strings.TrimSpace(s) == ""] on the ASCII spaces. *)
Definition is_space (c : Ascii.ascii) : bool :=
  let n := Ascii.N_of_ascii c in
  bool_decide (n = 32%N \/ (9 <= n <= 13)%N).
Fixpoint blank (s : string) : bool :=
  match s with EmptyString => true | String c s => is_space c && blank s end.

(** ** Decimal text without separators *)

Abbreviation comma :=
  (Ascii.Ascii false false true true false true false false) (only parsing).

Fixpoint comma_free (s : string) : Prop :=
  match s with
  | EmptyString => True
  | String c s => c <> comma /\ comma_free s
  end.

Lemma string_app_assoc (s1 s2 s3 : string) : (s1 +:+ s2) +:+ s3 = s1 +:+ (s2 +:+ s3).
Proof. induction s1 as [|c s1 IH]; [done|]. exact (f_equal (String c) IH). Qed.

Lemma string_app_nil_r (s : string) : s +:+ "" = s.
Proof. induction s as [|c s IH]; [done|]. exact (f_equal (String c) IH). Qed.

Lemma comma_free_pretty_N_go x s : comma_free s -> comma_free (pretty_N_go x s).
Proof.
  revert s. induction (N.lt_wf_0 x) as [x _ IH]; intros s Hs.
  destruct (decide (x = 0%N)) as [->|Hx]; [by rewrite pretty_N_go_0|].
  rewrite pretty_N_go_step by lia. apply IH; [apply N.div_lt; lia|].
  split; [|done]. unfold pretty_N_char. by repeat case_match.
Qed.

Lemma comma_free_pretty (z : Z) : comma_free (pretty z).
Proof.
  assert (forall n : N, comma_free (pretty n)) as Hn.
  { intros n. unfold pretty, pretty_N. case_decide; [done|]. by apply comma_free_pretty_N_go. }
  destruct z; [done|apply (Hn (N.pos _))|]. split; [done|apply (Hn (N.pos _))].
Qed.

Lemma comma_free_split s1 s2 r1 r2 :
  comma_free s1 -> comma_free s2 -> s1 +:+ "," +:+ r1 = s2 +:+ "," +:+ r2 -> s1 = s2 /\ r1 = r2.
Proof.
  revert s2. induction s1 as [|c s1 IH]; intros [|c2 s2] H1 H2 H; cbn in H1, H2; simplify_eq/=.
  - done.
  - by destruct H2.
  - by destruct H1.
  - destruct (IH s2) as [-> ->]; [tauto..|done|done].
Qed.

Lemma comma_free_not_app s1 s2 r : comma_free s1 -> s1 <> s2 +:+ "," +:+ r.
Proof.
  revert s2. induction s1 as [|c s1 IH]; intros [|c2 s2] H1 H; [discriminate H..| |].
  - injection H as Hc _. destruct H1 as [H1 _]. by apply H1.
  - injection H as _ H. eapply IH; [apply H1|exact H].
Qed.

(** [Mimics I m m']: from a state satisfying [I] the stateful call [m] ends in
    the outcome of the stateless [m'], and keeps [I].  Caches and counters are
    transparent in this sense. *)
Definition Mimics {S A} (I : S -> Prop) (m : ST S A) (m' : ST unit A) : Prop :=
  forall s, I s -> let '(r, s') := m s in I s' /\ r = (m' tt).1.

Section mimics.
Context {S : Type} (I : S -> Prop).

Lemma Mimics_ret {A} (a : A) : Mimics I (mret a) (mret a).
Proof. by intros s Hs. Qed.
Lemma Mimics_fail {A} fmt : Mimics I (fail (A := A) fmt) (fail fmt).
Proof. by intros s Hs. Qed.
Lemma Mimics_lift {A} (m : res A) : Mimics I (lift m) (lift m).
Proof. by intros s Hs. Qed.

Lemma unit_state {A} (m : ST unit A) : m tt = ((m tt).1, tt).
Proof. by destruct (m tt) as [r []]. Qed.

Lemma Mimics_bind {A B} (m : ST S A) m' (f : A -> ST S B) f' :
  Mimics I m m' -> (forall a, Mimics I (f a) (f' a)) -> Mimics I (m ≫= f) (m' ≫= f').
Proof.
  intros Hm Hf s Hs. specialize (Hm s Hs). unfold mbind, st_bind. rewrite (unit_state m').
  destruct (m s) as [r s']. destruct Hm as [Hs' ->]. destruct (m' tt).1 as [a|e|w]; [|done..].
  by apply Hf.
Qed.

Lemma Mimics_foldST {A B} (f : B -> A -> ST S B) f' b l :
  (forall b a, a ∈ l -> Mimics I (f b a) (f' b a)) -> Mimics I (foldST f b l) (foldST f' b l).
Proof.
  revert b. induction l as [|a l IH]; intros b Hf s Hs; [done|]. cbn [foldST].
  pose proof (Hf b a ltac:(by left) s Hs) as Ha. rewrite (unit_state (f' b a)).
  destruct (f b a s) as [r s']. destruct Ha as [Hs' ->]. destruct (f' b a tt).1; [|done..].
  apply IH; [|done]. intros. apply Hf. by right.
Qed.

Lemma Mimics_wrapST {A} fmt (m : ST S A) m' : Mimics I m m' -> Mimics I (wrapST fmt m) (wrapST fmt m').
Proof.
  intros Hm s Hs. specialize (Hm s Hs). unfold wrapST. rewrite (unit_state m').
  destruct (m s) as [r s']. by destruct Hm as [? ->].
Qed.

Lemma Mimics_Spec {A} (m : ST S A) m' :
  Mimics I m m' -> no_panic (m' tt).1 -> Spec I m (fun a => (m' tt).1 = Ok a).
Proof.
  intros Hm Hp s Hs. specialize (Hm s Hs). destruct (m s) as [r s']. destruct Hm as [? ->].
  split; [done|]. destruct (m' tt).1 as [a|e|w] eqn:Hout; [done..|by apply (Hp w)].
Qed.
Lemma Mimics_try {A} (m : ST S A) m' : Mimics I m m' -> Mimics I (try m) (try m').
Proof.
  intros Hm s Hs. specialize (Hm s Hs). unfold try. rewrite (unit_state m').
  destruct (m s) as [r s']. destruct Hm as [? ->]. by destruct (m' tt).1.
Qed.
End mimics.

Lemma Mimics_zoom {S T A} (I : T -> Prop) (J : S -> Prop) view update (m : ST T A) m' :
  Mimics I m m' -> (forall s, J s -> I (view s)) ->
  (forall s t, J s -> I t -> J (update t s)) -> Mimics J (zoom view update m) m'.
Proof.
  intros Hm Hview Hup s Hs. specialize (Hm (view s) (Hview s Hs)). unfold zoom.
  destruct (m (view s)) as [r t]. destruct Hm as [Ht ->]. split; [by apply Hup|done].
Qed.

(** Walk through a stateful body and its stateless copy in step. *)
Create HintDb mimics discriminated.
#[export] Hint Resolve Mimics_ret Mimics_fail Mimics_lift Mimics_wrapST Mimics_try : mimics.
Ltac mimics_step :=
  match goal with
  | |- Mimics _ (mbind _ _) (mbind _ _) => apply Mimics_bind; [|intros ?]
  | |- Mimics _ (foldST _ _ _) (foldST _ _ _) => apply Mimics_foldST; intros ? ? _
  | |- Mimics _ (if decide ?P then _ else _) _ => destruct (decide P)
  | |- Mimics _ (if ?b then _ else _) _ => destruct b
  | |- Mimics _ (match ?x with _ => _ end) _ => destruct x
  | |- Mimics _ ((match ?x with _ => _ end) _) _ => destruct x
  end.
Ltac mimics := repeat (mimics_step; cbn beta iota zeta); eauto with mimics.

(** A loop whose bodies commute can visit its list in any order. *)
Lemma foldST_perm {S A B} (f : B -> A -> ST S B) (l k : list A) :
  l ≡ₚ k ->
  (forall x y b s, x ∈ l -> y ∈ l ->
     (f b x ≫= fun b' => f b' y) s = (f b y ≫= fun b' => f b' x) s) ->
  forall b s, foldST f b l s = foldST f b k s.
Proof.
  induction 1 as [|x l k H IH|x y l|l1 l2 l3 H1 IH1 H2 IH2]; intros Hc b s.
  - done.
  - cbn [foldST]. destruct (f b x s) as [[b'|e|w] s']; [|done..].
    apply IH. intros. apply Hc; by right.
  - specialize (Hc y x b s ltac:(by left) ltac:(by right; left)).
    unfold mbind, st_bind in Hc. cbn [foldST].
    destruct (f b y s) as [[b1|e|w] s1] eqn:Hy; destruct (f b x s) as [[b2|e2|w2] s2] eqn:Hx;
      rewrite ?Hc, <- ?Hc; try done; try congruence; by destruct (f _ _ _) as [[?|?|?] ?]; simplify_eq.
  - rewrite IH1 by done. apply IH2. intros. apply Hc; by rewrite H1.
Qed.
