(* ===== verification/EventLog.v ===== *)
(** * Calls that keep a log

    A log is a list of events read from the world that a stateful call works on.  A
    call may leave it as it is, append one event, or append some: [Silent], [Noted]
    and [Emits] say so of every world, and that the call does not panic.  They compose
    along the control flow of the calls. *)
From S2P Require Import Prelude.

Section log.
Context {W event : Type} (log : W -> list event).

Definition Silent {A} (m : ST W A) : Prop := forall w, no_panic (m w).1 /\ log (m w).2 = log w.
Definition Noted {A} (note : res A -> event) (m : ST W A) : Prop :=
  forall w, no_panic (m w).1 /\ log (m w).2 = log w ++ [note (m w).1].

(** [Emits m Q]: the call [m] does not panic and appends some [l] to the log, and
    [Q] holds of what it returns and of [l]. *)
Definition Emits {A} (m : ST W A) (Q : res A -> list event -> Prop) : Prop :=
  forall w, no_panic (m w).1 /\ exists l, log (m w).2 = log w ++ l /\ Q (m w).1 l.

Lemma Emits_weaken {A} (m : ST W A) (Q R : res A -> list event -> Prop) :
  Emits m Q -> (forall r l, no_panic r -> Q r l -> R r l) -> Emits m R.
Proof. intros Hm HQ w. destruct (Hm w) as (Hp & l & Hl & Hq). split; [done|]. exists l. split; [done|]. by apply HQ. Qed.

Lemma Emits_mret {A} (a : A) (Q : res A -> list event -> Prop) : Q (Ok a) [] -> Emits (mret a) Q.
Proof. intros HQ w. split; [apply no_panic_Ok|]. exists []. cbn. by rewrite app_nil_r. Qed.

Lemma Emits_lift {A} (r : res A) (Q : res A -> list event -> Prop) : no_panic r -> Q r [] -> Emits (lift r) Q.
Proof. intros Hr HQ w. split; [done|]. exists []. cbn. by rewrite app_nil_r. Qed.

Lemma Emits_silent {A} (m : ST W A) (Q : res A -> list event -> Prop) : Silent m -> (forall r, no_panic r -> Q r []) -> Emits m Q.
Proof. intros Hm HQ w. destruct (Hm w) as [Hp Hl]. split; [done|]. exists []. rewrite app_nil_r. split; [done|]. by apply HQ. Qed.

Lemma Emits_noted {A} (m : ST W A) note (Q : res A -> list event -> Prop) :
  Noted note m -> (forall r, no_panic r -> Q r [note r]) -> Emits m Q.
Proof. intros Hm HQ w. destruct (Hm w) as [Hp Hl]. split; [done|]. eexists. split; [done|]. by apply HQ. Qed.

(** After [m], which appended [l], the rest is run from the world [m] left. *)
Lemma Emits_after {A} (m : ST W A) w w' l (Q : res A -> list event -> Prop) :
  log w' = log w ++ l -> Emits m (fun r l' => Q r (l ++ l')) ->
  no_panic (m w').1 /\ exists l', log (m w').2 = log w ++ l' /\ Q (m w').1 l'.
Proof.
  intros Hl Hm. destruct (Hm w') as (Hp & l' & Hl' & HQ). split; [done|]. exists (l ++ l'). by rewrite Hl', Hl, app_assoc.
Qed.

Lemma Emits_bind {A B} (m : ST W A) (f : A -> ST W B) (Q : res A -> list event -> Prop) (R : res B -> list event -> Prop) :
  Emits m Q -> (forall e l, Q (Err e) l -> R (Err e) l) ->
  (forall a l, Q (Ok a) l -> Emits (f a) (fun r l' => R r (l ++ l'))) -> Emits (m ≫= f) R.
Proof.
  intros Hm He Hf w. destruct (Hm w) as (Hp & l & Hl & HQ). unfold mbind, st_bind. destruct (m w) as [[a|e|why] w']; cbn in *.
  - by eapply Emits_after; [|apply Hf].
  - split; [apply no_panic_Err|]. exists l. split; [done|]. by apply He.
  - by destruct (Hp why).
Qed.

Lemma Emits_on_result {A B} (m : ST W A) (good : A -> ST W B) bad (Q : res A -> list event -> Prop) (R : res B -> list event -> Prop) :
  Emits m Q -> (forall a l, Q (Ok a) l -> Emits (good a) (fun r l' => R r (l ++ l'))) ->
  (forall e l, Q (Err e) l -> Emits (bad e) (fun r l' => R r (l ++ l'))) -> Emits (on_result m good bad) R.
Proof.
  intros Hm Hg Hb w. destruct (Hm w) as (Hp & l & Hl & HQ). unfold on_result. destruct (m w) as [[a|e|why] w']; cbn in *.
  - by eapply Emits_after; [|apply Hg].
  - by eapply Emits_after; [|apply Hb].
  - by destruct (Hp why).
Qed.

Lemma Silent_bind {A B} (m : ST W A) (f : A -> ST W B) : Silent m -> (forall a, Silent (f a)) -> Silent (m ≫= f).
Proof.
  intros Hm Hf w. destruct (Hm w) as [Hp Hl]. unfold mbind, st_bind. destruct (m w) as [[a|e|why] w']; cbn in *.
  - destruct (Hf a w') as [Hp' Hl']. by rewrite Hl'.
  - done.
  - by destruct (Hp why).
Qed.
Lemma Silent_lift {A} (r : res A) : no_panic r -> Silent (lift r).
Proof. by intros Hr w. Qed.
Lemma Silent_mret {A} (a : A) : Silent (mret a).
Proof. by intros w. Qed.
Lemma Silent_fail {A} format : Silent (fail (A := A) format).
Proof. by intros w. Qed.

Lemma Emits_try {A} (m : ST W A) (Q : res A -> list event -> Prop) : Emits m Q -> Emits (try m) (fun r l => exists r', r = Ok r' /\ no_panic r' /\ Q r' l).
Proof.
  intros Hm w. destruct (Hm w) as (Hp & l & Hl & HQ). unfold try. destruct (m w) as [[a|e|why] w']; cbn in *; [..|by destruct (Hp why)];
    (split; [apply no_panic_Ok|]); exists l; (split; [done|]); by eexists.
Qed.

Lemma Emits_ignore {A} (m : ST W A) : Silent m -> Emits (ignore m) (fun r l => l = [] /\ r = Ok tt).
Proof.
  intros Hm w. destruct (Hm w) as [Hp Hl]. unfold ignore, try, mbind, st_bind. destruct (m w) as [[a|e|why] w']; cbn in *; [..|by destruct (Hp why)];
    (split; [apply no_panic_Ok|]); exists []; by rewrite app_nil_r.
Qed.

Lemma Emits_ext {A} (m m' : ST W A) (Q : res A -> list event -> Prop) : (forall w, m w = m' w) -> Emits m Q -> Emits m' Q.
Proof. intros Heq Hm w. rewrite <- Heq. apply Hm. Qed.

(** A silent call whose value is not looked at. *)
Lemma Emits_quietly {A} (m : ST W A) : Silent m -> Emits m (fun _ l => l = []).
Proof. intros Hm. by apply Emits_silent. Qed.
End log.

(** ** Calls that may panic *)

Section traces.
Context {W event : Type} (log : W -> list event).

(** [Still m]: the call leaves the log as it is, whatever becomes of it. *)
Definition Still {A} (m : ST W A) : Prop := forall w, log (m w).2 = log w.
(** [Traces m Q]: the call appends some [l], and [Q] holds of what becomes of it and [l]. *)
Definition Traces {A} (m : ST W A) (Q : res A -> list event -> Prop) : Prop :=
  forall w, exists l, log (m w).2 = log w ++ l /\ Q (m w).1 l.

Lemma Still_mret {A} (a : A) : Still (mret a).
Proof. by intros w. Qed.
Lemma Still_lift {A} (r : res A) : Still (lift r).
Proof. by intros w. Qed.
Lemma Still_fail {A} format : Still (fail (A := A) format).
Proof. by intros w. Qed.
Lemma Still_modify (f : W -> W) : (forall w, log (f w) = log w) -> Still (modify f).
Proof. intros Hf w. apply Hf. Qed.
Lemma Still_bind {A B} (m : ST W A) (f : A -> ST W B) : Still m -> (forall a, Still (f a)) -> Still (m ≫= f).
Proof.
  intros Hm Hf w. specialize (Hm w). unfold mbind, st_bind. destruct (m w) as [[a|e|why] w']; cbn in *; [|done..]. by rewrite Hf.
Qed.
Lemma Still_on_result {A B} (m : ST W A) (good : A -> ST W B) bad :
  Still m -> (forall a, Still (good a)) -> (forall e, Still (bad e)) -> Still (on_result m good bad).
Proof.
  intros Hm Hg Hb w. specialize (Hm w). unfold on_result. destruct (m w) as [[a|e|why] w']; cbn in *; [by rewrite Hg|by rewrite Hb|done].
Qed.
Lemma Still_try {A} (m : ST W A) : Still m -> Still (try m).
Proof. intros Hm w. specialize (Hm w). unfold try. by destruct (m w) as [[a|e|why] w']. Qed.
Lemma Still_ignore {A} (m : ST W A) : Still m -> Still (ignore m).
Proof. intros Hm. apply Still_bind; [by apply Still_try|]. intros. apply Still_mret. Qed.

Lemma Traces_weaken {A} (m : ST W A) (Q R : res A -> list event -> Prop) : Traces m Q -> (forall r l, Q r l -> R r l) -> Traces m R.
Proof. intros Hm HQ w. destruct (Hm w) as (l & Hl & Hq). eauto. Qed.
Lemma Traces_mret {A} (a : A) (Q : res A -> list event -> Prop) : Q (Ok a) [] -> Traces (mret a) Q.
Proof. intros HQ w. exists []. cbn. by rewrite app_nil_r. Qed.
Lemma Traces_lift {A} (r : res A) (Q : res A -> list event -> Prop) : Q r [] -> Traces (lift r) Q.
Proof. intros HQ w. exists []. cbn. by rewrite app_nil_r. Qed.
Lemma Traces_still {A} (m : ST W A) : Still m -> Traces m (fun _ l => l = []).
Proof. intros Hm w. exists []. rewrite app_nil_r. split; [apply Hm|done]. Qed.

Lemma Traces_after {A} (m : ST W A) w w' l (Q : res A -> list event -> Prop) :
  log w' = log w ++ l -> Traces m (fun r l' => Q r (l ++ l')) -> exists l', log (m w').2 = log w ++ l' /\ Q (m w').1 l'.
Proof. intros Hl Hm. destruct (Hm w') as (l' & Hl' & HQ). exists (l ++ l'). by rewrite Hl', Hl, app_assoc. Qed.

Lemma Traces_bind {A B} (m : ST W A) (f : A -> ST W B) (Q : res A -> list event -> Prop) (R : res B -> list event -> Prop) :
  Traces m Q -> (forall e l, Q (Err e) l -> R (Err e) l) -> (forall why l, Q (Panic why) l -> R (Panic why) l) ->
  (forall a l, Q (Ok a) l -> Traces (f a) (fun r l' => R r (l ++ l'))) -> Traces (m ≫= f) R.
Proof.
  intros Hm He Hp Hf w. destruct (Hm w) as (l & Hl & HQ). unfold mbind, st_bind. destruct (m w) as [[a|e|why] w']; cbn in *.
  - by eapply Traces_after; [|apply Hf].
  - exists l. split; [done|]. by apply He.
  - exists l. split; [done|]. by apply Hp.
Qed.

Lemma Traces_on_result {A B} (m : ST W A) (good : A -> ST W B) bad (Q : res A -> list event -> Prop) (R : res B -> list event -> Prop) :
  Traces m Q -> (forall a l, Q (Ok a) l -> Traces (good a) (fun r l' => R r (l ++ l'))) ->
  (forall e l, Q (Err e) l -> Traces (bad e) (fun r l' => R r (l ++ l'))) -> (forall why l, Q (Panic why) l -> R (Panic why) l) ->
  Traces (on_result m good bad) R.
Proof.
  intros Hm Hg Hb Hp w. destruct (Hm w) as (l & Hl & HQ). unfold on_result. destruct (m w) as [[a|e|why] w']; cbn in *.
  - by eapply Traces_after; [|apply Hg].
  - by eapply Traces_after; [|apply Hb].
  - exists l. split; [done|]. by apply Hp.
Qed.
End traces.

Create HintDb still discriminated.
#[export] Hint Resolve Still_mret Still_lift Still_fail : still.
Ltac still_step :=
  match goal with
  | |- Still _ (mret _) => apply Still_mret
  | |- Still _ (lift _) => apply Still_lift
  | |- Still _ (fail _) => apply Still_fail
  | |- Still _ (on_result _ _ _) => apply Still_on_result; [|intros ?..]
  | |- Still _ (mbind _ _) => apply Still_bind; [|intros ?]
  | |- Still _ (ignore _) => apply Still_ignore
  | |- Still _ (try _) => apply Still_try
  | |- Still _ (if decide ?P then _ else _) => destruct (decide P)
  | |- Still _ (if ?b then _ else _) => destruct b eqn:?
  | |- Still _ (match ?x with _ => _ end) => destruct x eqn:?
  end.
Ltac still_auto := repeat (still_step; cbn beta iota zeta); eauto with still.

(** ** Calls that leave the log, and what they return *)

Section quiet.
Context {W event : Type} (log : W -> list event).

Definition Quiet {A} (m : ST W A) (P : A -> Prop) : Prop :=
  Traces log m (fun r l => l = [] /\ match r with Ok a => P a | _ => True end).

Lemma Quiet_mret {A} (a : A) (P : A -> Prop) : P a -> Quiet (mret a) P.
Proof. intros HP. by apply Traces_mret. Qed.
Lemma Quiet_lift {A} (r : res A) (P : A -> Prop) : (forall a, r = Ok a -> P a) -> Quiet (lift r) P.
Proof. intros HP. apply Traces_lift. split; [done|]. destruct r; [by apply HP|done..]. Qed.
Lemma Quiet_still {A} (m : ST W A) : Still log m -> Quiet m (fun _ => True).
Proof. intros Hm. eapply Traces_weaken; [by apply Traces_still|]. intros [] l ->; done. Qed.
Lemma Quiet_weaken {A} (m : ST W A) (P R : A -> Prop) : Quiet m P -> (forall a, P a -> R a) -> Quiet m R.
Proof. intros Hm HP. eapply Traces_weaken; [exact Hm|]. intros [] l [-> Ha]; split; try done. by apply HP. Qed.

Lemma Quiet_bind {A B} (m : ST W A) (f : A -> ST W B) (P : A -> Prop) (R : B -> Prop) :
  Quiet m P -> (forall a, P a -> Quiet (f a) R) -> Quiet (m ≫= f) R.
Proof.
  intros Hm Hf. eapply Traces_bind; [exact Hm|by intros ? ? [-> _]|by intros ? ? [-> _]|]. intros a l [-> Ha]. cbn [app]. by apply Hf.
Qed.
Lemma Quiet_on_result {A B} (m : ST W A) (good : A -> ST W B) bad (P : A -> Prop) (R : B -> Prop) :
  Quiet m P -> (forall a, P a -> Quiet (good a) R) -> (forall e, Quiet (bad e) R) -> Quiet (on_result m good bad) R.
Proof.
  intros Hm Hg Hb. eapply Traces_on_result; [exact Hm| | |by intros ? ? [-> _]].
  - intros a l [-> Ha]. cbn [app]. by apply Hg.
  - intros e l [-> _]. cbn [app]. apply Hb.
Qed.
End quiet.
