(* ===== verification/Bytes.v ===== *)
(** * Bytes

    A byte is a [Z] below 256 and a byte slice a list of them.  Slice expressions and
    indexing panic when they are out of range of the length; Go allows a slice up to the
    capacity, which is at least the length, so a program that does not panic here
    does not panic in Go.  [encoding/binary] reads numbers of a fixed width.  The lemmas
    read the pieces of a concatenation and recover a number from its digits. *)
From S2P Require Import Prelude.
Local Open Scope Z_scope.

(** The conversion [byte(x)]. *)
Definition byte (x : Z) : Z := x mod 256.

(** ** Numbers in a base *)

Definition digits_value (b : Z) (l : list Z) : Z := foldl (fun acc d => acc * b + d) 0 l.

Definition digits (b : Z) (l : list Z) : Prop := Forall (fun d => 0 <= d < b) l.

(** No leading zero. *)
Definition leading (l : list Z) : Prop := head l <> Some 0.

Lemma digits_value_snoc b l d : digits_value b (l ++ [d]) = digits_value b l * b + d.
Proof. unfold digits_value. by rewrite foldl_app. Qed.

Lemma digits_value_app b l k : digits_value b (l ++ k) = digits_value b l * b ^ Z.of_nat (length k) + digits_value b k.
Proof.
  induction k as [|d k IH] using rev_ind; [rewrite app_nil_r; unfold digits_value at 3; cbn; lia|].
  rewrite app_assoc, !digits_value_snoc, IH, length_app. cbn [length].
  rewrite Nat2Z.inj_add, Z.pow_add_r by lia. change (b ^ Z.of_nat 1) with (b ^ 1). rewrite Z.pow_1_r. ring.
Qed.

Lemma digits_value_cons b d l : digits_value b (d :: l) = d * b ^ Z.of_nat (length l) + digits_value b l.
Proof. change (d :: l) with ([d] ++ l). rewrite digits_value_app. unfold digits_value at 1. cbn. ring. Qed.

Lemma digits_value_bounds b l : 0 < b -> digits b l -> 0 <= digits_value b l < b ^ Z.of_nat (length l).
Proof.
  intros Hb. induction l as [|d l IH] using rev_ind; [unfold digits_value; cbn; lia|].
  intros [Hl Hd]%Forall_app. apply Forall_cons_1 in Hd as [Hd _]. rewrite digits_value_snoc, length_app. cbn [length].
  rewrite Nat2Z.inj_add, Z.pow_add_r by lia. change (b ^ Z.of_nat 1) with (b ^ 1). rewrite Z.pow_1_r.
  specialize (IH Hl). nia.
Qed.

Lemma leading_app_inv l d : leading (l ++ [d]) -> leading l.
Proof. by destruct l. Qed.

(** A value has one representation without a leading zero. *)
Lemma digits_value_inj b l : forall k, 0 < b -> digits b l -> leading l -> digits b k -> leading k ->
  digits_value b l = digits_value b k -> l = k.
Proof.
  assert (Hzero : forall l, 0 < b -> digits b l -> leading l -> digits_value b l = 0 -> l = []).
  { clear l. intros l Hb. induction l as [|d l IH] using rev_ind; [done|]. intros [Hl Hd]%Forall_app Hlead.
    apply Forall_cons_1 in Hd as [Hd _]. rewrite digits_value_snoc. pose proof (digits_value_bounds b l Hb Hl) as Hv. intros Hz.
    assert (digits_value b l = 0 /\ d = 0) as [H0 ->] by nia.
    rewrite (IH Hl (leading_app_inv _ _ Hlead) H0) in Hlead. by destruct Hlead. }
  induction l as [|d l IH] using rev_ind; intros k Hb Hl Hll Hk Hlk Hv.
  - symmetry. by apply Hzero.
  - destruct k as [|e k _] using rev_ind; [by apply (Hzero (l ++ [d])) in Hv|].
    rewrite !digits_value_snoc in Hv. apply Forall_app in Hl as [Hl Hd], Hk as [Hk He].
    apply Forall_cons_1 in Hd as [Hd _]. apply Forall_cons_1 in He as [He _].
    pose proof (digits_value_bounds b l Hb Hl). pose proof (digits_value_bounds b k Hb Hk).
    destruct (Z.div_mod_unique b (digits_value b l) (digits_value b k) d e) as [Hlk' ->]; [lia..|].
    f_equal. apply IH; try done; by eapply leading_app_inv.
Qed.

Lemma digits_dec l : forallb (fun d => (0 <=? d) && (d <? 256)) l = true -> digits 256 l.
Proof.
  intros H. apply Forall_forall. intros d Hd. rewrite forallb_forall in H. apply list_elem_of_In in Hd. apply H in Hd.
  apply andb_true_iff in Hd as [H1 H2]. apply Z.leb_le in H1. apply Z.ltb_lt in H2. lia.
Qed.

(** ** Slices *)

Definition slice (l : list Z) (lo hi : nat) : res (list Z) :=
  if decide (lo <= hi /\ hi <= length l)%nat then Ok (take (hi - lo) (drop lo l)) else Panic "slice bounds out of range".

Definition byte_at (l : list Z) (i : nat) : res Z :=
  match l !! i with Some b => Ok b | None => Panic "index out of range" end.

(** [binary.BigEndian.Uint16] and its kin, of the bytes they read. *)
Definition BigEndian (l : list Z) : Z := digits_value 256 l.

(** ** Slices of concatenations *)

Lemma slice_skip (a l : list Z) lo hi : (length a <= lo <= hi)%nat ->
  slice (a ++ l) lo hi = slice l (lo - length a) (hi - length a).
Proof.
  intros [Ha Hlo]. unfold slice. rewrite length_app. destruct (decide (_ /\ _)) as [H|H].
  - rewrite decide_True by lia. rewrite drop_app_ge by lia. do 2 f_equal. lia.
  - by rewrite decide_False by lia.
Qed.

Lemma slice_here (x l : list Z) lo hi : lo = 0%nat -> hi = length x -> slice (x ++ l) lo hi = Ok x.
Proof. intros -> ->. unfold slice. rewrite length_app, decide_True by lia. by rewrite Nat.sub_0_r, drop_0, take_app_length. Qed.

Lemma slice_all (x : list Z) lo hi : lo = 0%nat -> hi = length x -> slice x lo hi = Ok x.
Proof. intros Hlo Hhi. rewrite <- (app_nil_r x) at 1. by apply slice_here. Qed.

Lemma byte_skip (a l : list Z) i : (length a <= i)%nat -> byte_at (a ++ l) i = byte_at l (i - length a).
Proof. intros Ha. unfold byte_at. by rewrite lookup_app_r. Qed.

Lemma byte_here b l i : i = 0%nat -> byte_at ([b] ++ l) i = Ok b.
Proof. by intros ->. Qed.

(** Reads the pieces of a concatenation whose lengths are known. *)
Ltac read_pieces :=
  repeat first
    [ progress cbn [mbind res_bind]
    | rewrite slice_here by (cbn [length]; lia) | rewrite slice_all by (cbn [length]; lia) | rewrite byte_here by (cbn [length]; lia)
    | rewrite slice_skip by (cbn [length]; lia) | rewrite byte_skip by (cbn [length]; lia) ].

Lemma cut (n : nat) (l : list Z) : (n <= length l)%nat -> exists a r, l = a ++ r /\ length a = n.
Proof. intros Hn. exists (take n l), (drop n l). rewrite take_drop, length_take. split; [done|lia]. Qed.

(** ** Numbers of a fixed width *)

(** [n] bytes, the most significant first. *)
Fixpoint be (n : nat) (x : Z) : list Z :=
  match n with O => [] | S n => be n (x / 256) ++ [x mod 256] end.

Lemma be_length n x : length (be n x) = n.
Proof. revert x. induction n as [|n IH]; intros x; [done|]. cbn [be]. rewrite length_app, IH. cbn. lia. Qed.

Lemma be_value n : forall x, 0 <= x < 256 ^ Z.of_nat n -> digits 256 (be n x) /\ BigEndian (be n x) = x.
Proof.
  unfold BigEndian. induction n as [|n IH]; intros x Hx; cbn [be].
  - cbn in Hx. split; [constructor|]. unfold digits_value. cbn. lia.
  - rewrite Nat2Z.inj_succ, Z.pow_succ_r in Hx by lia. destruct (IH (x / 256)) as [Hd Hv].
    { split; [apply Z.div_pos; lia|apply Z.div_lt_upper_bound; lia]. }
    pose proof (Z.mod_pos_bound x 256 ltac:(lia)). pose proof (Z.div_mod x 256 ltac:(lia)).
    split; [apply Forall_app; split; [done|repeat constructor; lia]|]. rewrite digits_value_snoc, Hv. lia.
Qed.

Lemma BigEndian_be n x : 0 <= x < 256 ^ Z.of_nat n -> BigEndian (be n x) = x.
Proof. apply be_value. Qed.

Lemma BigEndian_bounds l n : digits 256 l -> length l = n -> 0 <= BigEndian l < 256 ^ Z.of_nat n.
Proof. intros Hd <-. apply digits_value_bounds; [lia|done]. Qed.

Lemma be_BigEndian l : digits 256 l -> be (length l) (BigEndian l) = l.
Proof.
  unfold BigEndian. induction l as [|d l IH] using rev_ind; [done|]. intros [Hl Hd]%Forall_app.
  apply Forall_cons_1 in Hd as [Hd _]. rewrite length_app, Nat.add_1_r. cbn [be].
  rewrite digits_value_snoc, Z.div_add_l, Z.div_small, Z.add_0_r by lia. rewrite IH by done.
  by rewrite Z.add_comm, Z.mod_add, Z.mod_small by lia.
Qed.

(** ** The least significant byte first *)

(** [binary.LittleEndian.Uint16] and its kin, of the bytes they read. *)
Definition LittleEndian (l : list Z) : Z := BigEndian (reverse l).
Definition le (n : nat) (x : Z) : list Z := reverse (be n x).

Lemma le_length n x : length (le n x) = n.
Proof. unfold le. by rewrite length_reverse, be_length. Qed.

Lemma LittleEndian_le n x : 0 <= x < 256 ^ Z.of_nat n -> LittleEndian (le n x) = x.
Proof. intros Hx. unfold LittleEndian, le. rewrite reverse_involutive. by apply BigEndian_be. Qed.

(** A read inside the length. *)
Lemma byte_at_no_panic data i : (i < length data)%nat -> no_panic (byte_at data i).
Proof. intros Hi why. unfold byte_at. apply lookup_lt_is_Some in Hi as [b ->]. done. Qed.

Lemma slice_Ok data lo hi : (lo <= hi <= length data)%nat -> exists v, slice data lo hi = Ok v /\ length v = (hi - lo)%nat.
Proof. intros [H1 H2]. unfold slice. rewrite decide_True by lia. eexists. split; [done|]. rewrite length_take, length_drop. lia. Qed.
