(* ===== verification/Base58.v ===== *)
(** * Solana public keys (src/adapters/chain/solana/pda.go)

    Base58 texts of 32-byte keys and the derivation of program addresses.  A byte is a
    [Z] below 256, and a byte slice a list of them.  [decodeBase58] ranges over the runes
    of its argument and rejects the first one outside the alphabet; the alphabet is
    ASCII, so going over the bytes rejects the same texts.  [sha256] and the test for a
    point of the Edwards curve are parameters.

    Theorems: decoding and encoding are inverse to each other on all byte slices and
    all base58 texts, and so on keys; a program address is the digest of the greatest
    bump that is off the curve. *)
From S2P Require Import Prelude Bytes.
Local Open Scope Z_scope.

(** ** Decoding *)

Definition base58Alphabet : list Ascii.ascii :=
  String.list_ascii_of_string "123456789ABCDEFGHJKLMNPQRSTUVWXYZabcdefghijkmnopqrstuvwxyz".

Definition index_of (character : Ascii.ascii) : option nat := fst <$> list_find (fun a => a = character) base58Alphabet.

(** The loop over the bytes from the last to the first: the carry and the new bytes. *)
Definition carry_byte (b : Z) (state : Z * list Z) : Z * list Z :=
  let carry := state.1 + b * 58 in (Z.quot carry 256, byte carry :: state.2).

(** The loop that prepends the bytes of the carry, of which an [int] has eight. *)
Fixpoint push_carry (fuel : nat) (carry : Z) (result : list Z) : list Z :=
  match fuel with
  | O => result
  | S fuel => if decide (0 < carry) then push_carry fuel (Z.quot carry 256) (byte carry :: result) else result
  end.

Definition base58_digit (result : list Z) (index : Z) : list Z :=
  let '(carry, result) := foldr carry_byte (index, []) result in push_carry 8 carry result.

Definition base58_step (result : list Z) (character : Ascii.ascii) : res (list Z) :=
  match index_of character with
  | None => Err (Errorf "invalid base58 character")
  | Some index => Ok (base58_digit result (Z.of_nat index))
  end.

(** The number of leading elements that are [a]. *)
Fixpoint leading_count {A} `{EqDecision A} (a : A) (l : list A) : nat :=
  match l with [] => 0%nat | x :: l => if decide (x = a) then S (leading_count a l) else 0%nat end.

Definition first_character : Ascii.ascii := Ascii.ascii_of_nat 49.

Definition decodeBase58 (value : string) : res (list Z) :=
  if decide (value = "") then Err (Errorf "base58 value is required") else
  let characters := String.list_ascii_of_string value in
  result ← foldM base58_step [] characters;
  Ok (replicate (leading_count first_character characters) 0 ++ result).

(** ** Encoding *)

Definition alphabet_at (index : Z) : Ascii.ascii := default first_character (base58Alphabet !! Z.to_nat index).

Fixpoint base58_text (fuel : nat) (number : Z) (result : list Ascii.ascii) : list Ascii.ascii :=
  match fuel with
  | O => result
  | S fuel =>
      if decide (0 < number)
      then base58_text fuel (Z.quot number 58) (alphabet_at (Z.rem number 58) :: result) else result
  end.

(** A byte has at most two digits. *)
Definition encodeBase58 (value : list Z) : string :=
  if decide (value = []) then "" else
  let result := base58_text (2 * length value) (digits_value 256 value) [] in
  String.string_of_list_ascii (replicate (leading_count 0 value) first_character ++ result).

(** ** Public keys *)

Definition DecodePublicKey (value : string) : res (list Z) :=
  decoded ← decodeBase58 value;
  if decide (length decoded <> 32%nat) then Err (Errorf "public key must decode to 32 bytes") else Ok decoded.

Definition EncodePublicKey (value : list Z) : string := encodeBase58 value.

Section address.
Context (sha256 : list Z -> list Z) (on_curve : list Z -> bool).

Definition pdaMarker : list Z :=
  (fun a => Z.of_N (Ascii.N_of_ascii a)) <$> String.list_ascii_of_string "ProgramDerivedAddress".

Definition pda_input (seeds : list (list Z)) (programID : list Z) (bump : Z) : list Z :=
  concat seeds ++ [byte bump] ++ programID ++ pdaMarker.

(** The loop from [bump] down to 0, of [n] passes. *)
Fixpoint find_bump (seeds : list (list Z)) (programID : list Z) (n : nat) : res (list Z * Z) :=
  match n with
  | O => Err (Errorf "unable to find program address")
  | S bump =>
      if existsb (fun seed => (32 <? length seed)%nat) seeds then Err (Errorf "PDA seed exceeds 32 bytes") else
      let hash := sha256 (pda_input seeds programID (Z.of_nat bump)) in
      if on_curve hash then find_bump seeds programID bump else Ok (hash, Z.of_nat bump)
  end.

Definition FindProgramAddress (seeds : list (list Z)) (programID : list Z) : res (list Z * Z) := find_bump seeds programID 256.
End address.

(** ** A digit is a multiplication and an addition *)

Lemma carry_bytes result index : digits 256 result -> 0 <= index < 58 ->
  let '(carry, l) := foldr carry_byte (index, []) result in
  length l = length result /\ digits 256 l /\ 0 <= carry < 58 /\
  carry * 256 ^ Z.of_nat (length result) + digits_value 256 l = digits_value 256 result * 58 + index /\
  (result <> [] -> leading result -> carry = 0 -> leading l).
Proof.
  intros Hr Hi. induction result as [|b result IH]; cbn [foldr].
  - cbn. split_and!; try done; lia.
  - apply Forall_cons_1 in Hr as [Hb Hr]. specialize (IH Hr).
    destruct (foldr carry_byte (index, []) result) as [carry l] eqn:Hf. destruct IH as (Hlen & Hl & Hc & Hv & _).
    unfold carry_byte at 1. cbn [fst snd]. unfold byte. rewrite Z.quot_div_nonneg by nia.
    pose proof (Z.div_mod (carry + b * 58) 256 ltac:(lia)) as Hd. pose proof (Z.mod_pos_bound (carry + b * 58) 256 ltac:(lia)) as Hm.
    split_and!.
    + cbn. lia.
    + constructor; [lia|done].
    + apply Z.div_pos; lia.
    + apply Z.div_lt_upper_bound; lia.
    + rewrite !digits_value_cons, Hlen. cbn [length].
      rewrite Nat2Z.inj_succ, Z.pow_succ_r by lia. nia.
    + intros _ Hlead H0. unfold leading. cbn. intros [= Hz]. assert (b <> 0) by (intros ->; by apply Hlead). lia.
Qed.

Lemma base58_digit_spec result index : digits 256 result -> leading result -> 0 <= index < 58 ->
  digits 256 (base58_digit result index) /\ leading (base58_digit result index) /\
  digits_value 256 (base58_digit result index) = digits_value 256 result * 58 + index.
Proof.
  intros Hr Hlead Hi. unfold base58_digit. pose proof (carry_bytes result index Hr Hi) as Hc.
  destruct (foldr carry_byte (index, []) result) as [carry l] eqn:Hf. destruct Hc as (Hlen & Hl & Hc & Hv & Hhead).
  assert (push_carry 8 carry l = if decide (0 < carry) then carry :: l else l) as ->.
  { cbn [push_carry]. destruct (decide (0 < carry)); [|done]. unfold byte.
    rewrite (Z.quot_small carry 256) by lia. rewrite (Z.mod_small carry 256) by lia. done. }
  destruct (decide (0 < carry)) as [Hpos|Hz].
  - split_and!; [constructor; [lia|done]|unfold leading; cbn; intros [= H0]; lia|]. rewrite digits_value_cons, Hlen. lia.
  - assert (carry = 0) as -> by lia. split_and!; [done| |lia].
    destruct result as [|b result]; [|by apply Hhead]. cbn in Hf. by injection Hf as -> <-.
Qed.

(** A text over the alphabet, as the list of its indices. *)
Definition indexed (characters : list Ascii.ascii) (indices : list Z) : Prop :=
  Forall2 (fun c i => index_of c = Some (Z.to_nat i) /\ 0 <= i < 58) characters indices.

Lemma index_of_bound c i : index_of c = Some i -> (i < 58)%nat /\ base58Alphabet !! i = Some c.
Proof.
  unfold index_of. intros ([j a] & H & ->)%fmap_Some. apply list_find_Some in H as (Hl & <- & _). cbn [fst].
  split; [|done]. apply lookup_lt_Some in Hl. exact Hl.
Qed.

Lemma base58_steps characters : forall result v, digits 256 result -> leading result -> foldM base58_step result characters = Ok v <->
  exists indices, indexed characters indices /\ digits 256 v /\ leading v /\
    digits_value 256 v = foldl (fun acc i => acc * 58 + i) (digits_value 256 result) indices.
Proof.
  induction characters as [|c characters IH]; intros result v Hr Hlead; cbn [foldM].
  - split.
    + intros [= <-]. exists []. split; [constructor|]. done.
    + intros (indices & ->%Forall2_nil_inv_l & Hv & Hlv & Heq). cbn in Heq. f_equal. apply (digits_value_inj 256); try done; lia.
  - assert (base58_step result c = match index_of c with
      | None => Err (Errorf "invalid base58 character") | Some index => Ok (base58_digit result (Z.of_nat index)) end) as -> by done.
    destruct (index_of c) as [i|] eqn:Hi.
    + pose proof (index_of_bound _ _ Hi) as [Hlt _].
      destruct (base58_digit_spec result (Z.of_nat i) Hr Hlead ltac:(lia)) as (Hd & Hl & Heq).
      cbn [mbind res_bind]. rewrite (IH _ v Hd Hl). split.
      * intros (indices & Hx & Hv). exists (Z.of_nat i :: indices). split.
        -- constructor; [|done]. rewrite Nat2Z.id. split; [done|lia].
        -- cbn [foldl]. rewrite <- Heq. done.
      * intros (indices & Hx & Hv & Hlv & Hval). apply Forall2_cons_inv_l in Hx as (j & rest & [Hj Hjb] & Hx & ->).
        rewrite Hi in Hj. injection Hj as ->. exists rest. split; [done|]. cbn [foldl] in Hval. rewrite Heq, Z2Nat.id by lia. done.
    + split; [done|]. intros (indices & Hx & _). apply Forall2_cons_inv_l in Hx as (j & rest & [Hj _] & _). congruence.
Qed.

(** ** The two conversions are inverse *)

Lemma leading_count_app {A} `{EqDecision A} (a : A) k l : head l <> Some a -> leading_count a (replicate k a ++ l) = k.
Proof.
  intros Hl. induction k as [|k IH]; cbn; [|rewrite decide_True by done; by rewrite IH].
  destruct l as [|x l]; [done|]. cbn. rewrite decide_False; [done|]. intros ->. by apply Hl.
Qed.

Lemma leading_split {A} `{EqDecision A} (a : A) l : exists k l', l = replicate k a ++ l' /\ head l' <> Some a.
Proof.
  induction l as [|x l IH]; [by exists 0%nat, []|]. destruct (decide (x = a)) as [->|Hx].
  - destruct IH as (k & l' & -> & Hl). by exists (S k), l'.
  - exists 0%nat, (x :: l). split; [done|]. cbn. congruence.
Qed.

Lemma digits_value_zeros b k l : digits_value b (replicate k 0 ++ l) = digits_value b l.
Proof. unfold digits_value. rewrite foldl_app. f_equal. by induction k. Qed.

Lemma base58_text_spec fuel : forall n result, 0 <= n < 58 ^ Z.of_nat fuel -> exists indices,
  base58_text fuel n result = (alphabet_at <$> indices) ++ result /\ digits 58 indices /\ leading indices /\ digits_value 58 indices = n.
Proof.
  induction fuel as [|fuel IH]; intros n result Hn; cbn [base58_text].
  - cbn in Hn. exists []. split; [done|]. split; [constructor|]. split; [done|]. unfold digits_value. cbn. lia.
  - rewrite Nat2Z.inj_succ, Z.pow_succ_r in Hn by lia. destruct (decide (0 < n)) as [Hpos|Hz].
    + rewrite Z.quot_div_nonneg, Z.rem_mod_nonneg by lia.
      destruct (IH (n / 58) (alphabet_at (n mod 58) :: result)) as (indices & -> & Hd & Hl & Hv).
      { split; [apply Z.div_pos; lia|apply Z.div_lt_upper_bound; lia]. }
      pose proof (Z.mod_pos_bound n 58 ltac:(lia)). pose proof (Z.div_mod n 58 ltac:(lia)).
      exists (indices ++ [n mod 58]). split; [by rewrite fmap_app, <- app_assoc|]. split; [apply Forall_app; split; [done|repeat constructor; lia]|].
      split; [|rewrite digits_value_snoc; lia].
      destruct indices as [|i indices]; [|done]. unfold digits_value in Hv. cbn in Hv. unfold leading. cbn. intros [= Hnil]. lia.
    + exists []. split; [done|]. split; [constructor|]. split; [done|]. unfold digits_value. cbn. lia.
Qed.

Lemma alphabet_index i : 0 <= i < 58 -> index_of (alphabet_at i) = Some (Z.to_nat i).
Proof.
  assert (forallb (fun i => bool_decide (index_of (alphabet_at (Z.of_nat i)) = Some i)) (seq 0 58) = true) as H by (vm_compute; reflexivity).
  intros Hi. rewrite forallb_forall in H. specialize (H (Z.to_nat i)). rewrite bool_decide_eq_true, Z2Nat.id in H by lia.
  apply H. apply in_seq. lia.
Qed.

Lemma indexed_alphabet indices : digits 58 indices -> indexed (alphabet_at <$> indices) indices.
Proof. intros Hd. induction Hd as [|i indices Hi _ IH]; [constructor|]. constructor; [|done]. split; [by apply alphabet_index|done]. Qed.

Lemma indexed_inv characters indices : indexed characters indices -> characters = alphabet_at <$> indices /\ digits 58 indices.
Proof.
  induction 1 as [|c i characters indices [Hc Hi] _ [-> Hd]]; [split; [done|constructor]|]. split; [|by constructor].
  cbn. f_equal. apply index_of_bound in Hc as [_ Hc]. unfold alphabet_at. by rewrite Hc.
Qed.

Lemma alphabet_zero i : 0 <= i < 58 -> alphabet_at i = first_character <-> i = 0.
Proof.
  intros Hi. split; [|by intros ->]. intros He. pose proof (alphabet_index i Hi) as H1. rewrite He in H1.
  pose proof (alphabet_index 0 ltac:(lia)) as H2. change (alphabet_at 0) with first_character in H2. rewrite H1 in H2. injection H2 as H2. lia.
Qed.

Lemma leading_alphabet indices : digits 58 indices -> leading indices <-> head (alphabet_at <$> indices) <> Some first_character.
Proof.
  intros Hd. destruct Hd as [|i indices Hi _]; [done|]. unfold leading. cbn. pose proof (alphabet_zero i Hi) as Hz. split; intros H [= H0].
  - apply H. by rewrite (proj1 Hz H0).
  - apply H. by rewrite H0.
Qed.

Lemma fmap_replicate_zero k : alphabet_at <$> replicate k 0 = replicate k first_character.
Proof. by induction k as [|k IH]; cbn; [|rewrite IH]. Qed.

Lemma digits_zeros b k l : 0 < b -> digits b (replicate k 0 ++ l) <-> digits b l.
Proof.
  intros Hb. unfold digits. rewrite Forall_app. split; [by intros []|]. intros Hl. split; [|done]. apply Forall_replicate. lia.
Qed.

Lemma encode_text k l : digits 256 l -> leading l -> exists indices,
  base58_text (2 * length (replicate k 0 ++ l)) (digits_value 256 (replicate k 0 ++ l)) [] = alphabet_at <$> indices /\
  digits 58 indices /\ leading indices /\ digits_value 58 indices = digits_value 256 l.
Proof.
  intros Hd Hl. rewrite digits_value_zeros. pose proof (digits_value_bounds 256 l ltac:(lia) Hd) as Hb.
  destruct (base58_text_spec (2 * length (replicate k 0 ++ l)) (digits_value 256 l) []) as (indices & -> & H).
  { split; [lia|]. apply (Z.lt_le_trans _ _ _ (proj2 Hb)). rewrite length_app, length_replicate.
    transitivity ((58 ^ 2) ^ Z.of_nat (length l)); [apply Z.pow_le_mono_l; lia|]. rewrite <- Z.pow_mul_r by lia.
    apply Z.pow_le_mono_r; lia. }
  exists indices. by rewrite app_nil_r.
Qed.

Lemma decode_iff s v : decodeBase58 s = Ok v <-> s <> "" /\ exists indices r,
  indexed (String.list_ascii_of_string s) indices /\ digits 256 r /\ leading r /\ digits_value 256 r = digits_value 58 indices /\
  v = replicate (leading_count first_character (String.list_ascii_of_string s)) 0 ++ r.
Proof.
  unfold decodeBase58. destruct (decide (s = "")) as [->|Hs]; [split; [done|by intros []]|]. cbv zeta. rewrite bind_Ok. split.
  - intros (r & Hr & [= <-]). apply base58_steps in Hr as (indices & Hx & Hd & Hl & Hv); [|constructor|done]. eauto 10.
  - intros (_ & indices & r & Hx & Hd & Hl & Hv & ->). exists r. split; [|done]. apply base58_steps; [constructor|done|]. eauto 10.
Qed.

(** Decoding a text of [k] zeros and of indices without a leading zero. *)
Lemma decode_text k indices l : digits 58 indices -> leading indices -> digits 256 l -> leading l ->
  digits_value 58 indices = digits_value 256 l -> replicate k 0 ++ l <> [] ->
  decodeBase58 (String.string_of_list_ascii (replicate k first_character ++ (alphabet_at <$> indices))) = Ok (replicate k 0 ++ l).
Proof.
  intros Hdi Hli Hd Hl Hv Hne. apply decode_iff. rewrite String.list_ascii_of_string_of_list_ascii. split.
  - intros Hs. destruct k as [|k]; [|done]. destruct indices as [|i indices]; [|done]. apply Hne.
    symmetry. apply (digits_value_inj 256); try done; constructor.
  - exists (replicate k 0 ++ indices), l. split.
    + rewrite <- fmap_replicate_zero, <- fmap_app. apply indexed_alphabet. apply digits_zeros; [lia|done].
    + split; [done|]. split; [done|]. split; [by rewrite digits_value_zeros|]. rewrite leading_count_app; [done|]. by apply leading_alphabet.
Qed.

(** Every byte slice is recovered from its base58 text, leading zeros included. *)
Lemma decode_encode_base58 v : v <> [] -> digits 256 v -> decodeBase58 (encodeBase58 v) = Ok v.
Proof.
  intros Hv Hd. destruct (leading_split 0 v) as (k & l & -> & Hl). rewrite digits_zeros in Hd by lia.
  destruct (encode_text k l Hd Hl) as (indices & Ht & Hdi & Hli & Hval).
  unfold encodeBase58. rewrite decide_False by done. cbv zeta. rewrite Ht, leading_count_app by done. by apply decode_text.
Qed.

(** A text that decodes is the one its bytes are encoded to. *)
Lemma encode_decode_base58 s v : decodeBase58 s = Ok v -> encodeBase58 v = s.
Proof.
  intros (Hs & indices & l & Hx & Hd & Hl & Hv & ->)%decode_iff.
  apply indexed_inv in Hx as [Htext Hdi]. destruct (leading_split 0 indices) as (k & rest & -> & Hrest).
  apply digits_zeros in Hdi; [|lia]. rewrite digits_value_zeros in Hv. rewrite fmap_app, fmap_replicate_zero in Htext.
  rewrite Htext, leading_count_app by (by apply leading_alphabet).
  assert (replicate k 0 ++ l <> []) as Hne.
  { intros He. apply Hs. destruct k as [|k]; [|done]. cbn in He. subst l.
    assert (rest = []) as -> by (symmetry; apply (digits_value_inj 58); try done; constructor).
    cbn in Htext. by destruct s. }
  destruct (encode_text k l Hd Hl) as (indices & Ht & Hdi' & Hli & Hval).
  assert (indices = rest) as -> by (apply (digits_value_inj 58); try done; lia).
  unfold encodeBase58. rewrite decide_False by done. cbv zeta. rewrite Ht, leading_count_app by done.
  rewrite <- Htext. apply String.string_of_list_ascii_of_string.
Qed.

Lemma decode_digits s v : decodeBase58 s = Ok v -> digits 256 v.
Proof. intros (_ & _ & r & _ & Hd & _ & _ & ->)%decode_iff. apply digits_zeros; [lia|done]. Qed.

(** A key is recovered from its text, and a text that decodes is the text of its key,
    which has 32 bytes: keys and texts correspond one to one. *)
Theorem public_key_round_trip :
  (forall key, length key = 32%nat -> digits 256 key -> DecodePublicKey (EncodePublicKey key) = Ok key) /\
  (forall text key, DecodePublicKey text = Ok key -> EncodePublicKey key = text /\ length key = 32%nat /\ digits 256 key).
Proof.
  unfold DecodePublicKey, EncodePublicKey. split.
  - intros key Hlen Hd. rewrite decode_encode_base58 by (try done; by intros ->). cbn [mbind res_bind].
    rewrite decide_False by (intros H; by apply H). done.
  - intros text key (v & Hv & H)%bind_Ok. destruct (decide _) as [|Hlen%dec_stable] in H; [done|]. injection H as <-.
    split; [by apply encode_decode_base58|]. split; [done|]. by eapply decode_digits.
Qed.

(** ** Program addresses *)

Section address_facts.
Context (sha256 : list Z -> list Z) (on_curve : list Z -> bool).

(** A program address is the digest for a bump that is off the curve, while every
    greater bump is on it; there is none only if a seed is too long or all of the 256
    digests are on the curve. *)
Theorem FindProgramAddress_greatest seeds programID :
  match FindProgramAddress sha256 on_curve seeds programID with
  | Ok (hash, bump) => 0 <= bump < 256 /\ hash = sha256 (pda_input seeds programID bump) /\ on_curve hash = false /\
      Forall (fun seed => (length seed <= 32)%nat) seeds /\
      forall b, bump < b < 256 -> on_curve (sha256 (pda_input seeds programID b)) = true
  | Err _ => Exists (fun seed => (32 < length seed)%nat) seeds \/
      forall b, 0 <= b < 256 -> on_curve (sha256 (pda_input seeds programID b)) = true
  | Panic _ => False
  end.
Proof.
  unfold FindProgramAddress. change 256 with (Z.of_nat 256) at 1 2 3. generalize 256%nat as n.
  assert (Hlong : existsb (fun seed : list Z => (32 <? length seed)%nat) seeds = true <-> Exists (fun seed => (32 < length seed)%nat) seeds).
  { rewrite existsb_exists, Exists_exists. setoid_rewrite Nat.ltb_lt. setoid_rewrite <- list_elem_of_In. done. }
  induction n as [|n IH]; cbn [find_bump]; [right; lia|].
  destruct (existsb _ seeds) eqn:Hs; [left; by apply Hlong|].
  destruct (on_curve (sha256 (pda_input seeds programID (Z.of_nat n)))) eqn:Hc.
  - destruct (find_bump sha256 on_curve seeds programID n) as [[hash bump]|e|why]; [| |done].
    + destruct IH as (Hb & Hh & Hoff & Hf & Hgreater). split_and!; try done; try lia.
      intros b Hbb. destruct (decide (b = Z.of_nat n)) as [->|]; [done|]. apply Hgreater. lia.
    + destruct IH as [He|Hall]; [by left|right]. intros b Hb. destruct (decide (b = Z.of_nat n)) as [->|]; [done|]. apply Hall. lia.
  - split_and!; try done; try lia.
    apply Forall_forall. intros seed Hin. apply not_lt. intros Hl. assert (false = true); [|done].
    apply Hlong, Exists_exists. eauto.
Qed.
End address_facts.

(** The address of the system program, and a key of Wormhole. *)
Example system_program : EncodePublicKey (replicate 32 0) = "11111111111111111111111111111111".
Proof. vm_compute. reflexivity. Qed.

Example decoded_key : res_opt (DecodePublicKey "11111111111111111111111111111112") = Some (replicate 31 0 ++ [1]).
Proof. vm_compute. reflexivity. Qed.
