(* ===== verification/Wormhole.v ===== *)
(** * Wormhole messages (src/adapters/crosschain/wormholentt/vaa.go, amount.go)

    The attestation of a transfer between chains: the parser of the signed envelope
    (VAA), the parser of the native-token transfer it carries, and the trimming of an
    amount to the precision a message can carry.  [keccak] is the hash of go-ethereum.  The HTTP client is
    left out.

    Theorems: the parsers never panic and accept exactly the encodings of what they
    return, so nothing of a message is lost or invented; trimming keeps the largest
    multiple of the precision. *)
From S2P Require Import Prelude Bytes.
Local Open Scope Z_scope.

(** ** The envelope *)

Definition vaaHeaderSize : nat := 6.
Definition vaaSignatureSize : nat := 66.
Definition vaaBodyHeaderSize : nat := 51.
Definition wormholeTransferSize : nat := 4 + 32 + 32 + 2 + (32 + 32 + 2 + 79) + 2.
Definition wormholeTransferPrefix : list Z := [0x99; 0x45; 0xff; 0x10].

Record GuardianSignature := mkGuardianSignature { gs_Index : Z; gs_Signature : list Z }.

Record MessageID := mkMessageID { EmitterChain : Z; EmitterAddress : list Z; Sequence : Z }.
#[export] Instance MessageID_eq_dec : EqDecision MessageID.
Proof. solve_decision. Defined.

Record VAA := mkVAA {
  vaa_Version : Z; vaa_GuardianSetIndex : Z; vaa_Signatures : list GuardianSignature; vaa_Timestamp : Z; vaa_Nonce : Z;
  vaa_Message : MessageID; vaa_ConsistencyLevel : Z; vaa_Payload : list Z; vaa_Body : list Z; vaa_Hash : list Z; vaa_Raw : list Z }.

Definition parse_signature (raw : list Z) (state : list GuardianSignature * nat) (_ : nat) : res (list GuardianSignature * nat) :=
  let '(signatures, offset) := state in
  index ← byte_at raw offset;
  signature ← slice raw (offset + 1) (offset + vaaSignatureSize);
  Ok (signatures ++ [mkGuardianSignature index signature], offset + vaaSignatureSize)%nat.

Section parser.
Context (keccak : list Z -> list Z).

Definition ParseVAA (raw : list Z) : res VAA :=
  if decide (length raw < vaaHeaderSize)%nat then Err (Errorf "VAA is shorter than its header") else
  signatureCount ← byte_at raw 5;
  let bodyOffset := (vaaHeaderSize + Z.to_nat signatureCount * vaaSignatureSize)%nat in
  if decide (signatureCount = 0 \/ (length raw < bodyOffset + vaaBodyHeaderSize)%nat)
  then Err (Errorf "VAA has an invalid signature or body length") else
  version ← byte_at raw 0;
  guardianSet ← slice raw 1 5;
  body ← slice raw bodyOffset (length raw);
  if decide (version <> 1) then Err (Errorf "unsupported VAA version %d") else
  '(signatures, _) ← foldM (parse_signature raw) ([], vaaHeaderSize) (seq 0 (Z.to_nat signatureCount));
  timestamp ← slice body 0 4;
  nonce ← slice body 4 8;
  chain ← slice body 8 10;
  address ← slice body 10 42;
  sequence ← slice body 42 50;
  consistency ← byte_at body 50;
  payload ← slice body 51 (length body);
  Ok (mkVAA version (BigEndian guardianSet) signatures (BigEndian timestamp) (BigEndian nonce)
        (mkMessageID (BigEndian chain) address (BigEndian sequence)) consistency payload body (keccak body) raw).

Definition ValidateMessage (v : VAA) (expected : MessageID) : res unit :=
  if decide (vaa_Message v <> expected) then Err (Errorf "VAA message mismatch: received %d/%s/%d") else Ok tt.
End parser.

(** ** The transfer *)

Record NTTMessage := mkNTTMessage {
  ntt_ID : list Z; ntt_Sender : list Z; ntt_SourceManager : list Z; ntt_DestinationManager : list Z; ntt_ManagerPayload : list Z;
  ntt_SourceToken : list Z; ntt_Recipient : list Z; ntt_DestinationChain : Z; ntt_TrimmedAmount : Z; ntt_TrimmedAmountDecimals : Z }.

Definition nativePrefix : list Z := [0x99; 0x4e; 0x54; 0x54].

(** [equal4]. *)
Definition equal4 (value expected : list Z) : bool := bool_decide (4 <= length value)%nat && bool_decide (take 4 value = expected).

Definition parse_native (sourceManager destinationManager manager : list Z) : res NTTMessage :=
  id ← slice manager 0 32;
  sender ← slice manager 32 64;
  nativeBytes ← slice manager 64 66;
  let nativeLength := Z.to_nat (BigEndian nativeBytes) in
  if decide (nativeLength < 79 \/ length manager <> 66 + nativeLength)%nat
  then Err (Errorf "VAA native-token payload has an invalid length") else
  native ← slice manager 66 (length manager);
  prefix ← slice native 0 4;
  if negb (equal4 prefix nativePrefix) then Err (Errorf "VAA manager payload is not a native-token transfer") else
  decimals ← byte_at native 4;
  amount ← slice native 5 13;
  token ← slice native 13 45;
  recipient ← slice native 45 77;
  chain ← slice native 77 79;
  if decide (BigEndian amount <= 0) then Err (Errorf "VAA transfer amount is not positive") else
  Ok (mkNTTMessage id sender sourceManager destinationManager manager token recipient (BigEndian chain) (BigEndian amount) decimals).

Definition VAA_NTTMessage (v : VAA) : res NTTMessage :=
  let payload := vaa_Payload v in
  if decide (length payload < wormholeTransferSize)%nat then Err (Errorf "VAA payload is not a Wormhole NTT transfer") else
  prefix ← slice payload 0 4;
  if negb (equal4 prefix wormholeTransferPrefix) then Err (Errorf "VAA payload is not a Wormhole NTT transfer") else
  sourceManager ← slice payload 4 36;
  destinationManager ← slice payload 36 68;
  managerBytes ← slice payload 68 70;
  let managerLength := Z.to_nat (BigEndian managerBytes) in
  if decide (managerLength < 66 \/ length payload < 70 + managerLength + 2)%nat
  then Err (Errorf "VAA NTT manager payload has an invalid length") else
  manager ← slice payload 70 (70 + managerLength);
  result ← parse_native sourceManager destinationManager manager;
  transceiverBytes ← slice payload (70 + managerLength) (70 + managerLength + 2);
  if decide (length payload <> 70 + managerLength + 2 + Z.to_nat (BigEndian transceiverBytes))%nat
  then Err (Errorf "VAA transceiver payload has an invalid length") else Ok result.

(** The sixteen bits of [binary.BigEndian.PutUint16]. *)
Definition PutUint16 (x : Z) : list Z := [byte (Z.shiftr x 8); byte x].

Definition Digest (keccak : list Z -> list Z) (m : NTTMessage) (sourceChain : Z) : list Z :=
  keccak (PutUint16 sourceChain ++ ntt_ManagerPayload m).

(** ** Trimming *)

Definition MessageDecimals : Z := 8.

(** [None] is a nil amount; the result is the amount to transfer, the dust and the
    trimmed decimals. *)
Definition TrimTransferAmount (amount : option Z) (sourceDecimals destinationDecimals : Z) : res (Z * Z * Z) :=
  match amount with
  | None => Err (Errorf "NTT transfer amount must be positive")
  | Some amount =>
      if decide (Z.sgn amount <= 0) then Err (Errorf "NTT transfer amount must be positive") else
      if decide (sourceDecimals = 0 \/ destinationDecimals = 0) then Err (Errorf "NTT token decimals must be positive") else
      let trimmedDecimals := MessageDecimals in
      let trimmedDecimals := if decide (sourceDecimals < trimmedDecimals) then sourceDecimals else trimmedDecimals in
      let trimmedDecimals := if decide (destinationDecimals < trimmedDecimals) then destinationDecimals else trimmedDecimals in
      let quantum := 10 ^ (sourceDecimals - trimmedDecimals) in
      let dust := amount mod quantum in
      let transferable := amount - dust in
      if decide (Z.sgn transferable <= 0) then Err (Errorf "NTT transfer amount is below its transferable precision")
      else Ok (transferable, dust, trimmedDecimals)
  end.

(** ** The encoding of an envelope *)

Definition encode_signature (s : GuardianSignature) : list Z := gs_Index s :: gs_Signature s.

Definition encode_body (v : VAA) : list Z :=
  be 4 (vaa_Timestamp v) ++ be 4 (vaa_Nonce v) ++ be 2 (EmitterChain (vaa_Message v)) ++ EmitterAddress (vaa_Message v) ++
  be 8 (Sequence (vaa_Message v)) ++ [vaa_ConsistencyLevel v] ++ vaa_Payload v.

Definition encode_vaa (v : VAA) : list Z :=
  [vaa_Version v] ++ be 4 (vaa_GuardianSetIndex v) ++ [Z.of_nat (length (vaa_Signatures v))] ++
  concat (encode_signature <$> vaa_Signatures v) ++ encode_body v.

Definition signature_ok (s : GuardianSignature) : Prop := length (gs_Signature s) = 65%nat /\ digits 256 (encode_signature s).

Record vaa_ok (keccak : list Z -> list Z) (v : VAA) : Prop := {
  vo_version : vaa_Version v = 1;
  vo_set : 0 <= vaa_GuardianSetIndex v < 2 ^ 32;
  vo_signatures : (0 < length (vaa_Signatures v) < 256)%nat /\ Forall signature_ok (vaa_Signatures v);
  vo_numbers : 0 <= vaa_Timestamp v < 2 ^ 32 /\ 0 <= vaa_Nonce v < 2 ^ 32;
  vo_message : 0 <= EmitterChain (vaa_Message v) < 2 ^ 16 /\ 0 <= Sequence (vaa_Message v) < 2 ^ 64 /\
    length (EmitterAddress (vaa_Message v)) = 32%nat /\ digits 256 (EmitterAddress (vaa_Message v));
  vo_rest : 0 <= vaa_ConsistencyLevel v < 256 /\ digits 256 (vaa_Payload v);
  vo_body : vaa_Body v = encode_body v;
  vo_hash : vaa_Hash v = keccak (vaa_Body v);
  vo_raw : vaa_Raw v = encode_vaa v }.

Section envelope.
Context (keccak : list Z -> list Z).

Lemma parse_signatures_pieces sigs : forall pre acc post k, Forall (fun s => length (gs_Signature s) = 65%nat) sigs ->
  foldM (parse_signature (pre ++ concat (encode_signature <$> sigs) ++ post)) (acc, length pre) (seq k (length sigs)) =
  Ok (acc ++ sigs, length pre + 66 * length sigs)%nat.
Proof.
  induction sigs as [|s sigs IH]; intros pre acc post k Hs; [cbn; rewrite app_nil_r; do 2 f_equal; lia|].
  apply Forall_cons_1 in Hs as [Hlen Hs]. cbn [length seq foldM fmap list_fmap concat].
  assert (parse_signature (pre ++ (encode_signature s ++ concat (encode_signature <$> sigs)) ++ post) (acc, length pre) k =
          Ok (acc ++ [s], length pre + 66)%nat) as Hstep.
  { unfold parse_signature, vaaSignatureSize. assert (encode_signature s = [gs_Index s] ++ gs_Signature s) as -> by done.
    rewrite <- !app_assoc. read_pieces. by destruct s. }
  rewrite Hstep. cbn [mbind res_bind].
  specialize (IH (pre ++ encode_signature s) (acc ++ [s]) post (S k) Hs).
  rewrite <- !app_assoc in IH |- *. cbn [app] in IH |- *.
  assert (length (encode_signature s) = 66)%nat as He by (cbn; lia). rewrite length_app, He in IH.
  rewrite IH, <- app_assoc. do 2 f_equal. lia.
Qed.

(** What the parser makes of the pieces of a text. *)
Lemma ParseVAA_pieces version set count sigs ts nonce chain address sequence consistency payload :
  length set = 4%nat -> count = Z.of_nat (length sigs) -> sigs <> [] -> Forall (fun s => length (gs_Signature s) = 65%nat) sigs ->
  length ts = 4%nat -> length nonce = 4%nat -> length chain = 2%nat -> length address = 32%nat -> length sequence = 8%nat ->
  let body := ts ++ nonce ++ chain ++ address ++ sequence ++ [consistency] ++ payload in
  let raw := [version] ++ set ++ [count] ++ concat (encode_signature <$> sigs) ++ body in
  ParseVAA keccak raw = if decide (version <> 1) then Err (Errorf "unsupported VAA version %d") else
    Ok (mkVAA version (BigEndian set) sigs (BigEndian ts) (BigEndian nonce) (mkMessageID (BigEndian chain) address (BigEndian sequence))
          consistency payload body (keccak body) raw).
Proof.
  intros Hset -> Hne Hs Hts Hnonce Hchain Haddress Hsequence body raw.
  assert (Hsigs : length (concat (encode_signature <$> sigs)) = (66 * length sigs)%nat).
  { clear -Hs. induction Hs as [|s sigs Hlen _ IH]; [done|]. cbn [fmap list_fmap concat]. rewrite length_app, IH. unfold encode_signature. cbn [length]. lia. }
  assert (Hbody : length body = (51 + length payload)%nat) by (unfold body; rewrite !length_app; cbn [length]; lia).
  assert (Hpos : (0 < length sigs)%nat) by (destruct sigs; [done|cbn; lia]).
  unfold ParseVAA, vaaHeaderSize, vaaSignatureSize, vaaBodyHeaderSize. rewrite decide_False.
  2: { unfold raw. rewrite !length_app. cbn [length]. lia. }
  assert (byte_at raw 5 = Ok (Z.of_nat (length sigs))) as -> by (unfold raw; by read_pieces).
  cbn [mbind res_bind]. cbv zeta. rewrite Nat2Z.id. rewrite decide_False.
  2: { intros [?|Hlt]; [lia|]. revert Hlt. unfold raw. rewrite !length_app, Hbody, Hsigs. cbn [length]. lia. }
  assert (byte_at raw 0 = Ok version) as -> by (unfold raw; by read_pieces).
  assert (slice raw 1 5 = Ok set) as -> by (unfold raw; by read_pieces).
  assert (slice raw (6 + length sigs * 66) (length raw) = Ok body) as ->.
  { unfold raw. rewrite !length_app. cbn [length]. by read_pieces. }
  cbn [mbind res_bind]. destruct (decide (version <> 1)) as [|_]; [done|].
  pose proof (parse_signatures_pieces sigs ([version] ++ set ++ [Z.of_nat (length sigs)]) [] body 0 Hs) as Hp.
  rewrite <- !app_assoc in Hp. fold raw in Hp. rewrite !length_app, Hset in Hp. cbn [length Nat.add app] in Hp. rewrite Hp. cbn [mbind res_bind].
  assert (slice body 0 4 = Ok ts) as -> by (unfold body; by read_pieces).
  assert (slice body 4 8 = Ok nonce) as -> by (unfold body; by read_pieces).
  assert (slice body 8 10 = Ok chain) as -> by (unfold body; by read_pieces).
  assert (slice body 10 42 = Ok address) as -> by (unfold body; by read_pieces).
  assert (slice body 42 50 = Ok sequence) as -> by (unfold body; by read_pieces).
  assert (byte_at body 50 = Ok consistency) as -> by (unfold body; by read_pieces).
  assert (slice body 51 (length body) = Ok payload) as ->; [|done].
  rewrite Hbody. unfold body. by read_pieces.
Qed.
End envelope.

(** ** The parser accepts exactly the encodings *)

Lemma cut_signatures n : forall l, length l = (66 * n)%nat -> digits 256 l ->
  exists sigs, l = concat (encode_signature <$> sigs) /\ length sigs = n /\ Forall signature_ok sigs.
Proof.
  induction n as [|n IH]; intros l Hlen Hd; [destruct l; [|done]; by exists []|].
  destruct (cut 66 l ltac:(lia)) as (a & r & -> & Ha). rewrite length_app in Hlen. apply Forall_app in Hd as [Hda Hdr].
  destruct (IH r ltac:(lia) Hdr) as (sigs & -> & Hn & Hs). destruct a as [|index signature]; [done|].
  exists (mkGuardianSignature index signature :: sigs). split; [done|]. split; [cbn; by rewrite Hn|].
  constructor; [|done]. split; [cbn in *; lia|done].
Qed.


Section envelope_iff.
Context (keccak : list Z -> list Z).

Lemma ParseVAA_cases raw : digits 256 raw -> (exists e, ParseVAA keccak raw = Err e) \/
  exists v, ParseVAA keccak raw = Ok v /\ vaa_ok keccak v /\ vaa_Raw v = raw.
Proof.
  intros Hd. destruct (decide (length raw < 6)%nat) as [Hshort|Hlong].
  { left. eexists. unfold ParseVAA, vaaHeaderSize. by rewrite decide_True. }
  pose proof Hd as Hall. assert (Hkeep : exists whole, whole = raw) by eauto. destruct Hkeep as [whole Hwhole].
  destruct (cut 1 raw ltac:(lia)) as (v1 & r1 & -> & Hv1). apply Forall_app in Hd as [Hdv Hd]. rewrite length_app in Hlong.
  destruct (cut 4 r1 ltac:(lia)) as (set & r2 & -> & Hset). apply Forall_app in Hd as [Hdset Hd]. rewrite length_app in Hlong.
  destruct (cut 1 r2 ltac:(lia)) as (c1 & r3 & -> & Hc1). apply Forall_app in Hd as [Hdc Hd].
  destruct v1 as [|version [|]]; try done. destruct c1 as [|count [|]]; try done.
  apply Forall_cons_1 in Hdv as [Hversion _]. apply Forall_cons_1 in Hdc as [Hcount _].
  assert (Hbyte : byte_at ([version] ++ set ++ [count] ++ r3) 5 = Ok count) by by read_pieces.
  destruct (decide (count = 0 \/ (length ([version] ++ set ++ [count] ++ r3) < 6 + Z.to_nat count * 66 + 51)%nat)) as [Hbad|Hgood].
  { left. eexists. unfold ParseVAA, vaaHeaderSize, vaaBodyHeaderSize, vaaSignatureSize.
    rewrite decide_False by (rewrite !length_app; cbn [length]; lia). rewrite Hbyte. cbn [mbind res_bind]. cbv zeta.
    by rewrite decide_True. }
  rewrite !length_app in Hgood. cbn [length] in Hgood.
  destruct (cut (66 * Z.to_nat count) r3 ltac:(lia)) as (s1 & r4 & -> & Hs1). apply Forall_app in Hd as [Hds Hd]. rewrite length_app in Hgood.
  destruct (cut_signatures _ s1 Hs1 Hds) as (sigs & -> & Hn & Hsigs).
  destruct (cut 4 r4 ltac:(lia)) as (ts & r5 & -> & Hts). apply Forall_app in Hd as [Hdts Hd]. rewrite length_app in Hgood.
  destruct (cut 4 r5 ltac:(lia)) as (nonce & r6 & -> & Hnonce). apply Forall_app in Hd as [Hdnonce Hd]. rewrite length_app in Hgood.
  destruct (cut 2 r6 ltac:(lia)) as (chain & r7 & -> & Hchain). apply Forall_app in Hd as [Hdchain Hd]. rewrite length_app in Hgood.
  destruct (cut 32 r7 ltac:(lia)) as (address & r8 & -> & Haddress). apply Forall_app in Hd as [Hdaddress Hd]. rewrite length_app in Hgood.
  destruct (cut 8 r8 ltac:(lia)) as (sequence & r9 & -> & Hsequence). apply Forall_app in Hd as [Hdsequence Hd]. rewrite length_app in Hgood.
  destruct (cut 1 r9 ltac:(lia)) as (k1 & payload & -> & Hk1). apply Forall_app in Hd as [Hdk Hd].
  destruct k1 as [|consistency [|]]; try done. apply Forall_cons_1 in Hdk as [Hk _].
  rewrite ParseVAA_pieces; try done; [|lia|by intros ->; cbn in Hn; lia|by apply (Forall_impl _ _ _ Hsigs); intros ? []].
  destruct (decide (version <> 1)) as [|Hone%dec_stable]; [left; eauto|]. right. eexists. split; [done|]. split; [|done].
  subst version.
  assert (Hbe : forall l n, digits 256 l -> length l = n -> be n (BigEndian l) = l) by (intros l n Hl <-; by apply be_BigEndian).
  pose proof (BigEndian_bounds set 4 Hdset Hset). pose proof (BigEndian_bounds ts 4 Hdts Hts). pose proof (BigEndian_bounds nonce 4 Hdnonce Hnonce).
  pose proof (BigEndian_bounds chain 2 Hdchain Hchain). pose proof (BigEndian_bounds sequence 8 Hdsequence Hsequence).
  split; unfold encode_vaa, encode_body; cbn [vaa_Version vaa_GuardianSetIndex vaa_Signatures vaa_Timestamp vaa_Nonce vaa_Message
    EmitterChain EmitterAddress Sequence vaa_ConsistencyLevel vaa_Payload vaa_Body vaa_Hash vaa_Raw]; rewrite ?Hbe by done; try done.
  - split; [lia|done].
  - by rewrite Hn, Z2Nat.id by lia.
Qed.

(** C39.The parser never panics, and it accepts a byte slice exactly when it is the encoding
    of a well-formed envelope of version 1, which is then what it returns, with the
    hash of its body. *)
Theorem ParseVAA_exact raw v : digits 256 raw ->
  no_panic (ParseVAA keccak raw) /\ (ParseVAA keccak raw = Ok v <-> vaa_ok keccak v /\ vaa_Raw v = raw).
Proof.
  intros Hd. split.
  - destruct (ParseVAA_cases raw Hd) as [[e ->]|(v' & -> & _)]; [apply no_panic_Err|apply no_panic_Ok].
  - split.
    + intros Hp. destruct (ParseVAA_cases raw Hd) as [[e He]|(v' & Hv & Hok & Hraw)]; [congruence|].
      assert (v = v') as -> by congruence. done.
    + intros [[Hver Hset [[Hn Hn'] Hs] [Hts Hnonce] (Hchain & Hseq & Haddr & Hda) [Hk Hpay] Hbody Hhash Hraw] Hr].
      rewrite <- Hr, Hraw. unfold encode_vaa, encode_body.
      assert (vaa_Signatures v <> []) as Hne by (intros He; rewrite He in Hn; cbn in Hn; lia).
      assert (Forall (fun s => length (gs_Signature s) = 65%nat) (vaa_Signatures v)) as Hlen by (apply (Forall_impl _ _ _ Hs); by intros ? []).
      rewrite ParseVAA_pieces by first [done|apply be_length].
      rewrite decide_False by lia.
      rewrite !BigEndian_be by (cbn; lia). clear Hs Hlen Hne Hn Hn' Hd Hr. unfold encode_vaa, encode_body in *. f_equal.
      destruct v as [ver set sigs ts nonce [chain addr seq] k payload body hash raw'].
      cbn [vaa_Version vaa_GuardianSetIndex vaa_Signatures vaa_Timestamp vaa_Nonce vaa_Message
        EmitterChain EmitterAddress Sequence vaa_ConsistencyLevel vaa_Payload vaa_Body vaa_Hash vaa_Raw] in *. by subst.
Qed.
End envelope_iff.

(** ** The encoding of a transfer *)

(** A manager message; [extra] follows the fields the parser reads. *)
Definition encode_manager (m : NTTMessage) (extra : list Z) : list Z :=
  ntt_ID m ++ ntt_Sender m ++ be 2 (79 + Z.of_nat (length extra)) ++ nativePrefix ++ [ntt_TrimmedAmountDecimals m] ++
  be 8 (ntt_TrimmedAmount m) ++ ntt_SourceToken m ++ ntt_Recipient m ++ be 2 (ntt_DestinationChain m) ++ extra.

Definition encode_transfer (m : NTTMessage) (transceiver : list Z) : list Z :=
  wormholeTransferPrefix ++ ntt_SourceManager m ++ ntt_DestinationManager m ++ be 2 (Z.of_nat (length (ntt_ManagerPayload m))) ++
  ntt_ManagerPayload m ++ be 2 (Z.of_nat (length transceiver)) ++ transceiver.

Definition key_ok (key : list Z) : Prop := length key = 32%nat /\ digits 256 key.

(** The fields of a manager message. *)
Record manager_ok (m : NTTMessage) : Prop := {
  mo_ids : key_ok (ntt_ID m) /\ key_ok (ntt_Sender m);
  mo_token : key_ok (ntt_SourceToken m) /\ key_ok (ntt_Recipient m);
  mo_chain : 0 <= ntt_DestinationChain m < 2 ^ 16;
  mo_amount : 0 < ntt_TrimmedAmount m < 2 ^ 64 /\ 0 <= ntt_TrimmedAmountDecimals m < 256;
  mo_payload : exists extra, digits 256 extra /\ 79 + Z.of_nat (length extra) < 2 ^ 16 /\ ntt_ManagerPayload m = encode_manager m extra }.

Lemma length_2_bounds l : digits 256 l -> length l = 2%nat -> 0 <= BigEndian l < 2 ^ 16.
Proof. intros Hd Hl. by apply (BigEndian_bounds l 2). Qed.

(** What the parser of the manager message makes of its pieces. *)
Lemma parse_native_pieces src dst id sender size prefix decimals amount token recipient chain extra :
  length id = 32%nat -> length sender = 32%nat -> length size = 2%nat -> length prefix = 4%nat -> length amount = 8%nat ->
  length token = 32%nat -> length recipient = 32%nat -> length chain = 2%nat ->
  let manager := id ++ sender ++ size ++ prefix ++ [decimals] ++ amount ++ token ++ recipient ++ chain ++ extra in
  Z.to_nat (BigEndian size) = (79 + length extra)%nat ->
  parse_native src dst manager =
    if negb (bool_decide (prefix = nativePrefix)) then Err (Errorf "VAA manager payload is not a native-token transfer") else
    if decide (BigEndian amount <= 0) then Err (Errorf "VAA transfer amount is not positive") else
    Ok (mkNTTMessage id sender src dst manager token recipient (BigEndian chain) (BigEndian amount) decimals).
Proof.
  intros Hid Hsender Hsz Hprefix Hamount Htoken Hrecipient Hchain manager Hsize.
  assert (Hlen : length manager = (145 + length extra)%nat) by (unfold manager; rewrite !length_app; cbn [length]; lia).
  set (native := prefix ++ [decimals] ++ amount ++ token ++ recipient ++ chain ++ extra) in manager.
  assert (Hnative : length native = (79 + length extra)%nat) by (unfold native; rewrite !length_app; cbn [length]; lia).
  unfold parse_native.
  assert (slice manager 0 32 = Ok id) as -> by (unfold manager; by read_pieces).
  assert (slice manager 32 64 = Ok sender) as -> by (unfold manager; by read_pieces).
  assert (slice manager 64 66 = Ok size) as -> by (unfold manager; by read_pieces).
  cbn [mbind res_bind]. cbv zeta. rewrite Hsize, decide_False by lia.
  assert (slice manager 66 (length manager) = Ok native) as -> by (rewrite Hlen; unfold manager; by read_pieces).
  cbn [mbind res_bind].
  assert (slice native 0 4 = Ok prefix) as -> by (unfold native; by read_pieces).
  cbn [mbind res_bind]. unfold equal4. rewrite Hprefix, take_ge by lia. cbn [andb Nat.leb].
  rewrite (bool_decide_eq_true_2 (4 <= 4)%nat) by lia. cbn [andb]. destruct (negb _); [done|].
  assert (byte_at native 4 = Ok decimals) as -> by (unfold native; by read_pieces).
  assert (slice native 5 13 = Ok amount) as -> by (unfold native; by read_pieces).
  assert (slice native 13 45 = Ok token) as -> by (unfold native; by read_pieces).
  assert (slice native 45 77 = Ok recipient) as -> by (unfold native; by read_pieces).
  assert (slice native 77 79 = Ok chain) as -> by (unfold native; by read_pieces).
  done.
Qed.

Lemma parse_native_cases src dst manager : digits 256 manager -> (66 <= length manager)%nat ->
  (exists e, parse_native src dst manager = Err e) \/
  exists m, parse_native src dst manager = Ok m /\ manager_ok m /\ ntt_SourceManager m = src /\ ntt_DestinationManager m = dst /\
    ntt_ManagerPayload m = manager.
Proof.
  intros Hd Hlen.
  destruct (cut 32 manager ltac:(lia)) as (id & r1 & -> & Hid). apply Forall_app in Hd as [Hdid Hd]. rewrite length_app in Hlen.
  destruct (cut 32 r1 ltac:(lia)) as (sender & r2 & -> & Hsender). apply Forall_app in Hd as [Hdsender Hd]. rewrite length_app in Hlen.
  destruct (cut 2 r2 ltac:(lia)) as (size & native & -> & Hsize). apply Forall_app in Hd as [Hdsize Hd].
  set (nativeLength := Z.to_nat (BigEndian size)).
  destruct (decide (nativeLength < 79 \/ length (id ++ sender ++ size ++ native) <> 66 + nativeLength)%nat) as [Hbad|Hgood].
  { left. eexists. unfold parse_native.
    assert (slice (id ++ sender ++ size ++ native) 0 32 = Ok id) as -> by by read_pieces.
    assert (slice (id ++ sender ++ size ++ native) 32 64 = Ok sender) as -> by by read_pieces.
    assert (slice (id ++ sender ++ size ++ native) 64 66 = Ok size) as -> by by read_pieces.
    cbn [mbind res_bind]. cbv zeta. fold nativeLength. by rewrite decide_True. }
  rewrite !length_app in Hgood.
  destruct (cut 4 native ltac:(lia)) as (prefix & r4 & -> & Hprefix). apply Forall_app in Hd as [_ Hd]. rewrite length_app in Hgood.
  destruct (cut 1 r4 ltac:(lia)) as (d1 & r5 & -> & Hd1). apply Forall_app in Hd as [Hdd Hd]. rewrite length_app in Hgood.
  destruct (cut 8 r5 ltac:(lia)) as (amount & r6 & -> & Hamount). apply Forall_app in Hd as [Hdamount Hd]. rewrite length_app in Hgood.
  destruct (cut 32 r6 ltac:(lia)) as (token & r7 & -> & Htoken). apply Forall_app in Hd as [Hdtoken Hd]. rewrite length_app in Hgood.
  destruct (cut 32 r7 ltac:(lia)) as (recipient & r8 & -> & Hrecipient). apply Forall_app in Hd as [Hdrecipient Hd]. rewrite length_app in Hgood.
  destruct (cut 2 r8 ltac:(lia)) as (chain & extra & -> & Hchain). apply Forall_app in Hd as [Hdchain Hd]. rewrite length_app in Hgood.
  destruct d1 as [|decimals [|]]; try done. apply Forall_cons_1 in Hdd as [Hdecimals _].
  assert (Hnl : nativeLength = (79 + length extra)%nat) by (cbn [length] in Hgood; lia). unfold nativeLength in Hnl.
  rewrite parse_native_pieces by done. destruct (negb _) eqn:Hp; [left; eauto|].
  apply negb_false_iff, bool_decide_eq_true_1 in Hp as ->. destruct (decide (BigEndian amount <= 0)) as [|Hpos]; [left; eauto|]. right.
  eexists. split; [done|]. split; [|done].
  pose proof (BigEndian_bounds amount 8 Hdamount Hamount). pose proof (length_2_bounds size Hdsize Hsize). pose proof (length_2_bounds chain Hdchain Hchain).
  split; cbn [ntt_ID ntt_Sender ntt_SourceToken ntt_Recipient ntt_DestinationChain ntt_TrimmedAmount ntt_TrimmedAmountDecimals ntt_ManagerPayload];
    try done; try (split; [lia|done]).
  exists extra. split; [done|]. split; [lia|]. unfold encode_manager.
  cbn [ntt_ID ntt_Sender ntt_SourceToken ntt_Recipient ntt_DestinationChain ntt_TrimmedAmount ntt_TrimmedAmountDecimals ntt_ManagerPayload].
  assert (Hbe : forall l n, digits 256 l -> length l = n -> be n (BigEndian l) = l) by (intros l n Hl <-; by apply be_BigEndian).
  rewrite !Hbe by done. replace (79 + Z.of_nat (length extra)) with (BigEndian size) by lia. by rewrite Hbe.
Qed.

Lemma parse_native_complete m : manager_ok m -> parse_native (ntt_SourceManager m) (ntt_DestinationManager m) (ntt_ManagerPayload m) = Ok m.
Proof.
  intros [[[Hid _] [Hsender _]] [[Htoken _] [Hrecipient _]] Hchain [Hamount Hdecimals] (extra & _ & Hsize & Hp)].
  rewrite Hp at 1. unfold encode_manager.
  rewrite parse_native_pieces by first [done|apply be_length|rewrite BigEndian_be by (cbn; lia); lia].
  rewrite bool_decide_eq_true_2 by done. cbn [negb]. rewrite !BigEndian_be by (cbn; lia). rewrite decide_False by lia.
  fold (encode_manager m extra). rewrite <- Hp. by destruct m.
Qed.

(** A transfer a payload can carry, with the two managers of its transceiver message. *)
Definition transfer_ok (m : NTTMessage) : Prop :=
  manager_ok m /\ key_ok (ntt_SourceManager m) /\ key_ok (ntt_DestinationManager m) /\ Z.of_nat (length (ntt_ManagerPayload m)) < 2 ^ 16.

Lemma NTTMessage_pieces v prefix src dst size manager tsize transceiver :
  length prefix = 4%nat -> length src = 32%nat -> length dst = 32%nat -> length size = 2%nat -> length tsize = 2%nat ->
  vaa_Payload v = prefix ++ src ++ dst ++ size ++ manager ++ tsize ++ transceiver ->
  (145 <= length manager)%nat -> Z.to_nat (BigEndian size) = length manager ->
  VAA_NTTMessage v =
    if negb (bool_decide (prefix = wormholeTransferPrefix)) then Err (Errorf "VAA payload is not a Wormhole NTT transfer") else
    result ← parse_native src dst manager;
    if decide (length transceiver <> Z.to_nat (BigEndian tsize)) then Err (Errorf "VAA transceiver payload has an invalid length") else Ok result.
Proof.
  intros Hprefix Hsrc Hdst Hsz Htsz Hv Hman Hsize. unfold VAA_NTTMessage, wormholeTransferSize. rewrite Hv. cbv zeta.
  set (payload := prefix ++ src ++ dst ++ size ++ manager ++ tsize ++ transceiver).
  assert (Hlen : length payload = (72 + length manager + length transceiver)%nat) by (unfold payload; rewrite !length_app; lia).
  rewrite decide_False by lia.
  assert (slice payload 0 4 = Ok prefix) as -> by (unfold payload; by read_pieces).
  cbn [mbind res_bind]. unfold equal4. rewrite Hprefix, take_ge by lia. rewrite (bool_decide_eq_true_2 (4 <= 4)%nat) by lia. cbn [andb].
  destruct (negb _); [done|].
  assert (slice payload 4 36 = Ok src) as -> by (unfold payload; by read_pieces).
  assert (slice payload 36 68 = Ok dst) as -> by (unfold payload; by read_pieces).
  assert (slice payload 68 70 = Ok size) as -> by (unfold payload; by read_pieces).
  cbn [mbind res_bind]. cbv zeta. rewrite Hsize, decide_False by lia.
  assert (slice payload 70 (70 + length manager) = Ok manager) as -> by (unfold payload; by read_pieces).
  cbn [mbind res_bind]. destruct (parse_native src dst manager); cbn [mbind res_bind]; [|done..].
  assert (slice payload (70 + length manager) (70 + length manager + 2) = Ok tsize) as -> by (unfold payload; by read_pieces).
  cbn [mbind res_bind]. rewrite Hlen. destruct (decide (length transceiver <> _)) as [|Heq]; [by rewrite decide_True by lia|by rewrite decide_False by lia].
Qed.

Lemma NTTMessage_cases v : digits 256 (vaa_Payload v) -> (exists e, VAA_NTTMessage v = Err e) \/
  exists m transceiver, VAA_NTTMessage v = Ok m /\ transfer_ok m /\ Z.of_nat (length transceiver) < 2 ^ 16 /\
    vaa_Payload v = encode_transfer m transceiver.
Proof.
  intros Hd. unfold transfer_ok, encode_transfer. destruct (decide (length (vaa_Payload v) < 217)%nat) as [Hshort|Hlong].
  { left. eexists. unfold VAA_NTTMessage, wormholeTransferSize. by rewrite decide_True by (cbn; lia). }
  remember (vaa_Payload v) as payload eqn:Hpayload. symmetry in Hpayload.
  destruct (cut 4 payload ltac:(lia)) as (prefix & r1 & -> & Hprefix). apply Forall_app in Hd as [_ Hd]. rewrite length_app in Hlong.
  destruct (cut 32 r1 ltac:(lia)) as (src & r2 & -> & Hsrc). apply Forall_app in Hd as [Hdsrc Hd]. rewrite length_app in Hlong.
  destruct (cut 32 r2 ltac:(lia)) as (dst & r3 & -> & Hdst). apply Forall_app in Hd as [Hddst Hd]. rewrite length_app in Hlong.
  destruct (cut 2 r3 ltac:(lia)) as (size & r4 & -> & Hsize). apply Forall_app in Hd as [Hdsize Hd]. rewrite length_app in Hlong.
  set (payload := prefix ++ src ++ dst ++ size ++ r4) in Hpayload.
  assert (Hlen : length payload = (70 + length r4)%nat) by (unfold payload; rewrite !length_app; lia).
  destruct (decide (prefix = wormholeTransferPrefix)) as [Hp|Hp].
  2: { left. eexists. unfold VAA_NTTMessage, wormholeTransferSize. rewrite Hpayload, decide_False by lia.
    assert (slice payload 0 4 = Ok prefix) as -> by (unfold payload; by read_pieces). cbn [mbind res_bind]. unfold equal4.
    rewrite Hprefix, take_ge, (bool_decide_eq_false_2 (prefix = _)) by (done || lia). by rewrite andb_false_r. }
  set (managerLength := Z.to_nat (BigEndian size)).
  assert (Hhead : VAA_NTTMessage v = if decide (managerLength < 66 \/ length payload < 70 + managerLength + 2)%nat
    then Err (Errorf "VAA NTT manager payload has an invalid length") else
    manager ← slice payload 70 (70 + managerLength); result ← parse_native src dst manager;
    transceiverBytes ← slice payload (70 + managerLength) (70 + managerLength + 2);
    if decide (length payload <> 70 + managerLength + 2 + Z.to_nat (BigEndian transceiverBytes))%nat
    then Err (Errorf "VAA transceiver payload has an invalid length") else Ok result).
  { unfold VAA_NTTMessage, wormholeTransferSize. rewrite Hpayload, decide_False by lia.
    assert (slice payload 0 4 = Ok prefix) as -> by (unfold payload; by read_pieces). cbn [mbind res_bind]. unfold equal4.
    rewrite Hprefix, take_ge, (bool_decide_eq_true_2 (prefix = _)), (bool_decide_eq_true_2 (4 <= 4)%nat) by (done || lia). cbn [andb negb].
    assert (slice payload 4 36 = Ok src) as -> by (unfold payload; by read_pieces).
    assert (slice payload 36 68 = Ok dst) as -> by (unfold payload; by read_pieces).
    assert (slice payload 68 70 = Ok size) as -> by (unfold payload; by read_pieces). done. }
  destruct (decide (managerLength < 66 \/ length payload < 70 + managerLength + 2)%nat) as [Hbad|Hgood]; [left; eauto|].
  destruct (cut managerLength r4 ltac:(lia)) as (manager & r5 & -> & Hmanager). apply Forall_app in Hd as [Hdmanager Hd].
  rewrite !length_app in Hlen, Hlong.
  destruct (cut 2 r5 ltac:(lia)) as (tsize & transceiver & -> & Htsize). apply Forall_app in Hd as [Hdtsize Hd]. rewrite length_app in Hlen.
  assert (slice payload 70 (70 + managerLength) = Ok manager) as Hslice by (unfold payload; by read_pieces).
  assert (slice payload (70 + managerLength) (70 + managerLength + 2) = Ok tsize) as Htslice by (unfold payload; by read_pieces).
  rewrite Hhead, Hslice. cbn [mbind res_bind].
  destruct (parse_native_cases src dst manager Hdmanager ltac:(lia)) as [[e ->]|(m & -> & Hok & <- & <- & Hm)]; [left; eauto|].
  cbn [mbind res_bind]. rewrite Htslice. cbn [mbind res_bind].
  destruct (decide _) as [|Hfit%dec_stable]; [left; eauto|]. right. exists m, transceiver.
  pose proof (length_2_bounds size Hdsize Hsize). pose proof (length_2_bounds tsize Hdtsize Htsize).
  assert (Hbe : forall l n, digits 256 l -> length l = n -> be n (BigEndian l) = l) by (intros l n Hl <-; by apply be_BigEndian).
  split; [done|]. split; [split_and!; try done; rewrite Hm; unfold managerLength in Hmanager; lia|]. split; [lia|].
  unfold payload. rewrite Hm, Hp. do 3 f_equal.
  replace (Z.of_nat (length manager)) with (BigEndian size) by (unfold managerLength in Hmanager; lia).
  replace (Z.of_nat (length transceiver)) with (BigEndian tsize) by (unfold managerLength in *; lia). by rewrite !Hbe.
Qed.

(** The parser of a transfer never panics, and it returns a transfer exactly when the
    payload is an encoding of it: a positive amount, keys of 32 bytes, lengths that are
    those of the parts, and nothing after the transceiver payload. *)
Theorem NTTMessage_exact v m : digits 256 (vaa_Payload v) ->
  no_panic (VAA_NTTMessage v) /\
  (VAA_NTTMessage v = Ok m <-> transfer_ok m /\
   exists transceiver, Z.of_nat (length transceiver) < 2 ^ 16 /\ vaa_Payload v = encode_transfer m transceiver).
Proof.
  intros Hd. split; [destruct (NTTMessage_cases v Hd) as [[e ->]|(m' & t & -> & _)]; [apply no_panic_Err|apply no_panic_Ok]|]. split.
  - intros Hv. destruct (NTTMessage_cases v Hd) as [[e He]|(m' & t & Hm & Hok & Ht)]; [congruence|].
    assert (m' = m) as <- by congruence. eauto.
  - intros ((Hok & [Hsrc _] & [Hdst _] & Hsize) & transceiver & Ht & Hp). pose proof Hok as [_ _ _ _ (extra & _ & _ & Hextra)].
    assert (145 <= length (ntt_ManagerPayload m))%nat as Hlen.
    { rewrite Hextra. destruct Hok as [[[Hid _] [Hsender _]] [[Htoken _] [Hrecipient _]] _ _ _]. unfold encode_manager.
      rewrite !length_app, !be_length. cbn [length nativePrefix]. lia. }
    rewrite (NTTMessage_pieces v wormholeTransferPrefix _ _ _ _ _ _ eq_refl Hsrc Hdst (be_length _ _) (be_length _ _) Hp Hlen) by (rewrite BigEndian_be by (cbn; lia); lia).
    rewrite bool_decide_eq_true_2 by done. cbn [negb]. rewrite parse_native_complete by done. cbn [mbind res_bind].
    rewrite BigEndian_be by (cbn; lia). rewrite decide_False by lia. done.
Qed.

(** ** Trimming *)

(** C40.Trimming succeeds exactly for a positive amount of at least one unit of the smallest
    of the three precisions.  It splits the amount without losing a unit: what is
    transferred is the greatest multiple of that unit that fits, and the dust is less
    than it. *)
Theorem TrimTransferAmount_exact (amount sourceDecimals destinationDecimals transferable dust trimmed : Z) :
  0 <= sourceDecimals -> 0 <= destinationDecimals ->
  TrimTransferAmount (Some amount) sourceDecimals destinationDecimals = Ok (transferable, dust, trimmed) <->
  0 < sourceDecimals /\ 0 < destinationDecimals /\ trimmed = Z.min 8 (Z.min sourceDecimals destinationDecimals) /\
  let unit := 10 ^ (sourceDecimals - trimmed) in
  (unit | transferable) /\ 0 < transferable <= amount /\ 0 <= dust < unit /\ transferable + dust = amount.
Proof.
  intros Hs Hd. unfold TrimTransferAmount, MessageDecimals. cbv zeta.
  set (t1 := if decide (sourceDecimals < 8) then sourceDecimals else 8).
  set (t2 := if decide (destinationDecimals < t1) then destinationDecimals else t1).
  assert (Ht : t2 = Z.min 8 (Z.min sourceDecimals destinationDecimals)).
  { unfold t2, t1. repeat destruct (decide _); lia. }
  clearbody t2. clear t1. subst t2. set (t := Z.min 8 (Z.min sourceDecimals destinationDecimals)).
  assert (Hunit : 0 < 10 ^ (sourceDecimals - t)) by (apply Z.pow_pos_nonneg; lia). set (unit := 10 ^ (sourceDecimals - t)) in Hunit |- *.
  pose proof (Z.mod_pos_bound amount unit Hunit) as Hm. pose proof (Z.div_mod amount unit ltac:(lia)) as Hdm.
  destruct (decide (Z.sgn amount <= 0)) as [Hneg|Hpos].
  { split; [done|]. intros (_ & _ & -> & _ & Hx & _). lia. }
  destruct (decide (sourceDecimals = 0 \/ destinationDecimals = 0)) as [Hz|Hnz]; [split; [done|lia]|].
  destruct (decide (Z.sgn (amount - amount mod unit) <= 0)) as [Hlow|Hok].
  { split; [done|]. intros (_ & _ & -> & [q ->] & Hx & Hdust & Hsum). fold unit in Hdust, Hsum, Hx |- *.
    assert (amount mod unit = dust) by (rewrite <- Hsum, Z.add_comm, Z.mod_add by lia; apply Z.mod_small; lia). lia. }
  split.
  - intros [= <- <- <-]. fold t unit. split_and!; try lia. exists (amount / unit). lia.
  - intros (_ & _ & -> & [q ->] & Hx & Hdust & Hsum). fold t unit in Hdust, Hsum, Hx |- *.
    assert (amount mod unit = dust) as -> by (rewrite <- Hsum, Z.add_comm, Z.mod_add by lia; apply Z.mod_small; lia).
    do 3 f_equal. lia.
Qed.

(** ** Examples *)

Module WormholeWitness.
Definition key (n : Z) : list Z := be 32 n.
Definition draft : NTTMessage := mkNTTMessage (key 1) (key 2) (key 3) (key 4) [] (key 5) (key 6) 1 123456789 8.
Definition transfer : NTTMessage :=
  mkNTTMessage (key 1) (key 2) (key 3) (key 4) (encode_manager draft []) (key 5) (key 6) 1 123456789 8.
Definition signature : GuardianSignature := mkGuardianSignature 3 (replicate 65 7).
Definition unsigned (payload : list Z) : VAA := mkVAA 1 4 [signature] 10 11 (mkMessageID 2 (key 9) 77) 200 payload [] [] [].
Definition keccak (l : list Z) : list Z := be 32 (digits_value 256 l).
Definition raw : list Z := encode_vaa (unsigned (encode_transfer transfer [1; 2; 3])).
Definition envelope : VAA := default (unsigned []) (res_opt (ParseVAA keccak raw)).

Lemma parsed_witness : vaa_ok keccak envelope /\ vaa_Raw envelope = raw /\ vaa_Message envelope = mkMessageID 2 (key 9) 77.
Proof.
  assert (digits 256 raw) as Hd by (apply digits_dec; vm_compute; reflexivity).
  assert (vaa_ok keccak envelope /\ vaa_Raw envelope = raw) as [H1 H2].
  { apply (proj2 (ParseVAA_exact keccak raw envelope Hd)). vm_compute. reflexivity. }
  split; [exact H1|]. split; [exact H2|]. vm_compute. reflexivity.
Defined.

Lemma transfer_witness : transfer_ok transfer /\ VAA_NTTMessage envelope = Ok transfer.
Proof.
  assert (VAA_NTTMessage envelope = Ok transfer) as Hp by (vm_compute; reflexivity).
  split; [|exact Hp]. apply (proj2 (NTTMessage_exact envelope transfer ltac:(apply digits_dec; vm_compute; reflexivity))). exact Hp.
Defined.

Lemma trim_witness : TrimTransferAmount (Some 1234567890123456789) 18 6 = Ok (1234567000000000000, 890123456789, 6).
Proof.
  apply TrimTransferAmount_exact; [lia|lia|]. split; [lia|]. split; [lia|]. split; [reflexivity|].
  split; [exists 1234567; reflexivity|]. split; [lia|]. split; [|reflexivity]. cbn. lia.
Defined.
End WormholeWitness.
