(* ===== verification/Amount.v ===== *)
(** * Amounts (src/domain/market/amount.go, entities.go, price.go)

    [TokenAmount] is a non-negative number of raw token units, [AssetQuantity]
    an exact rational quantity of an economic asset.  [big.Int] is [Z] and
    [big.Rat], which Go keeps in lowest terms, is [Qc]; a [nil] pointer is
    [None].  The values are immutable in Go (every accessor copies), so they
    are pure values here. *)
From Stdlib Require Import Ascii QArith Qcanon.
From S2P Require Import Prelude.

Abbreviation ChainID := string (only parsing).
Abbreviation AssetID := string (only parsing).
Abbreviation TokenID := string (only parsing).
Abbreviation VenueID := string (only parsing).
Abbreviation PoolID := string (only parsing).
Abbreviation PathID := string (only parsing).
Abbreviation PairID := string (only parsing).
Abbreviation MarketID := string (only parsing).
Abbreviation SourceID := string (only parsing).

(** ** Entities *)

Record Asset := mkAsset { Asset_ID : AssetID; Asset_Symbol : string }.

Record Token := mkToken {
  Token_ID : TokenID;
  Token_Asset : AssetID;
  Token_Chain : ChainID;
  Token_Decimals : N;
  Token_Symbol : string }.

#[export] Instance Asset_eq_dec : EqDecision Asset.
Proof. solve_decision. Defined.
#[export] Instance Token_eq_dec : EqDecision Token.
Proof. solve_decision. Defined.

(** ** Token amounts *)

Record TokenAmount := mkTokenAmount {
  amount_token : TokenID;
  amount_units : option Z }.

#[export] Instance TokenAmount_eq_dec : EqDecision TokenAmount.
Proof. solve_decision. Defined.

(** The Go zero value. *)
Definition TokenAmount_zero : TokenAmount := mkTokenAmount "" None.

Definition NewTokenAmount (token : TokenID) (units : option Z) : res TokenAmount :=
  if decide (token = "") then Err (Errorf "token is required") else
  match units with
  | None => Err (Errorf "units are required")
  | Some u =>
      if decide (Z.sgn u < 0)
      then Err (Errorf "token amount cannot be negative")
      else Ok (mkTokenAmount token (Some u))
  end.

(** [new(big.Int).SetString(s, 10)]: an optional sign and decimal digits. *)
Definition digit_value (c : Ascii.ascii) : option Z :=
  let n := Z.of_N (Ascii.N_of_ascii c) in
  if decide (48 <= n <= 57) then Some (n - 48) else None.

Fixpoint parse_digits (acc : Z) (s : string) : option Z :=
  match s with
  | EmptyString => Some acc
  | String c s => d ← digit_value c; parse_digits (10 * acc + d) s
  end.

Definition SetString10 (s : string) : option Z :=
  match s with
  | EmptyString => None
  | String "-"%char EmptyString => None
  | String "+"%char EmptyString => None
  | String "-"%char digits => Z.opp <$> parse_digits 0 digits
  | String "+"%char digits => parse_digits 0 digits
  | _ => parse_digits 0 s
  end.

Definition ParseTokenAmount (token : TokenID) (units : string) : res TokenAmount :=
  match SetString10 units with
  | None => Err (Errorf "invalid integer units %q")
  | Some parsed => NewTokenAmount token (Some parsed)
  end.

Definition Units (a : TokenAmount) : Z :=
  match amount_units a with None => 0 | Some u => u end.

Definition TokenAmount_String (a : TokenAmount) : string := pretty (Units a).

Definition IsZero (a : TokenAmount) : Prop := Z.sgn (Units a) = 0.
#[export] Instance IsZero_dec a : Decision (IsZero a) := ltac:(unfold IsZero; apply _).

Definition decimalFactor (decimals : N) : Z := 10 ^ Z.of_N decimals.

(** ** Asset quantities *)

Record AssetQuantity := mkAssetQuantity {
  quantity_asset : AssetID;
  quantity_value : option Qc }.

#[export] Instance AssetQuantity_eq_dec : EqDecision AssetQuantity.
Proof. solve_decision. Defined.

Definition AssetQuantity_zero : AssetQuantity := mkAssetQuantity "" None.

Definition NewAssetQuantity (asset : AssetID) (value : option Qc) : res AssetQuantity :=
  if decide (asset = "") then Err (Errorf "asset is required") else
  match value with
  | None => Err (Errorf "value is required")
  | Some v => Ok (mkAssetQuantity asset (Some v))
  end.

Definition Rat (q : AssetQuantity) : Qc :=
  match quantity_value q with None => Q2Qc 0 | Some v => v end.

(** [Num] and [Denom] of a [big.Rat]. *)
Definition Num (v : Qc) : Z := Qnum v.
Definition Denom (v : Qc) : Z := Zpos (Qden v).

Definition AssetQuantity_String (q : AssetQuantity) : string :=
  if decide (Denom (Rat q) = 1) then pretty (Num (Rat q))
  else (pretty (Num (Rat q)) +:+ "/" +:+ pretty (Denom (Rat q))).

Definition AssetQuantity_Sign (q : AssetQuantity) : Z := Z.sgn (Num (Rat q)).

Definition AssetQuantity_Add (q other : AssetQuantity) : res AssetQuantity :=
  if decide (quantity_asset q <> quantity_asset other)
  then Err (Errorf "cannot add assets %q and %q")
  else NewAssetQuantity (quantity_asset q) (Some (Rat q + Rat other)%Qc).

Definition AssetQuantity_Sub (q other : AssetQuantity) : res AssetQuantity :=
  if decide (quantity_asset q <> quantity_asset other)
  then Err (Errorf "cannot subtract assets %q and %q")
  else NewAssetQuantity (quantity_asset q) (Some (Rat q - Rat other)%Qc).

(** [big.Rat.Cmp]: -1, 0 or 1. *)
Definition Rat_Cmp (x y : Qc) : Z :=
  match (x ?= y)%Qc with Lt => -1 | Eq => 0 | Gt => 1 end.

Definition AssetQuantity_Cmp (q other : AssetQuantity) : res Z :=
  if decide (quantity_asset q <> quantity_asset other)
  then Err (Errorf "cannot compare assets %q and %q")
  else Ok (Rat_Cmp (Rat q) (Rat other)).

(** [new(big.Rat).SetFrac(a, b)] and [new(big.Rat).SetInt(a)]. *)
Definition SetFrac (a b : Z) : Qc := (Q2Qc (inject_Z a) / Q2Qc (inject_Z b))%Qc.
Definition SetInt (a : Z) : Qc := Q2Qc (inject_Z a).

Definition ToAssetQuantity (a : TokenAmount) (token : Token) : res AssetQuantity :=
  if decide (Token_ID token <> amount_token a)
  then Err (Errorf "amount token %q does not match token %q")
  else NewAssetQuantity (Token_Asset token)
         (Some (SetFrac (Units a) (decimalFactor (Token_Decimals token)))).

Definition ToTokenAmount (q : AssetQuantity) (token : Token) : res TokenAmount :=
  if decide (Token_Asset token <> quantity_asset q)
  then Err (Errorf "quantity asset %q does not match token asset %q") else
  if decide (AssetQuantity_Sign q < 0)
  then Err (Errorf "negative quantity cannot become a token amount") else
  let scaled := (Rat q * SetInt (decimalFactor (Token_Decimals token)))%Qc in
  let units := Z.quot (Num scaled) (Denom scaled) in
  NewTokenAmount (Token_ID token) (Some units).

(** [big.Rat.Quo] and [big.Rat.Abs]. *)
Definition Rat_Quo (x y : Qc) : res Qc := if decide (y = Q2Qc 0) then Panic "division by zero" else Ok (x / y)%Qc.
Definition Rat_Abs (x : Qc) : Qc := if decide (x < 0)%Qc then (- x)%Qc else x.

(** ** External price observations (price.go) *)

Record PriceObservation := mkPriceObservation {
  po_source : SourceID; po_base : AssetID; po_quote : AssetID;
  po_value : option Qc; po_reference : string;
  po_sourceUpdatedAt : Time; po_observedAt : Time }.

Definition NewPriceObservation (source : SourceID) (base quote : AssetID)
    (value : option Qc) (reference : string) (sourceUpdatedAt observedAt : Time) :
    res PriceObservation :=
  let incomplete := Err (Errorf
    "price observation requires source, pair, positive value, reference, and times") in
  match value with
  | None => incomplete
  | Some v =>
      if decide (source = "" \/ base = "" \/ quote = "" \/ base = quote \/
                 Z.sgn (Num v) <= 0 \/ reference = "" \/
                 Time_IsZero sourceUpdatedAt \/ Time_IsZero observedAt)
      then incomplete
      else Ok (mkPriceObservation source base quote (Some v) reference
                 sourceUpdatedAt observedAt)
  end.

(** ** Lemmas *)

(** A well-formed amount: what [NewTokenAmount] builds. *)
Definition amount_wf (a : TokenAmount) : Prop :=
  amount_token a <> "" /\ exists u, amount_units a = Some u /\ 0 <= u.

Lemma NewTokenAmount_Ok token u :
  token <> "" -> 0 <= u -> NewTokenAmount token (Some u) = Ok (mkTokenAmount token (Some u)).
Proof.
  intros. unfold NewTokenAmount. rewrite !decide_False; [done| |done].
  pose proof (Z.sgn_nonneg u). lia.
Qed.

Lemma NewTokenAmount_inv token units a :
  NewTokenAmount token units = Ok a ->
  amount_wf a /\ amount_token a = token /\ amount_units a = units.
Proof.
  unfold NewTokenAmount, amount_wf. intros H. res_inv; subst; cbn.
  split_and!; eauto. eexists; split; [done|].
  pose proof (Z.sgn_nonneg z). lia.
Qed.

Lemma NewAssetQuantity_Ok asset v : asset <> "" -> NewAssetQuantity asset (Some v) = Ok (mkAssetQuantity asset (Some v)).
Proof. intros. unfold NewAssetQuantity. by rewrite decide_False. Qed.

Lemma IsZero_iff a : IsZero a <-> Units a = 0.
Proof. unfold IsZero. rewrite Z.sgn_null_iff. done. Qed.

Lemma amount_wf_Units a : amount_wf a -> 0 <= Units a.
Proof. intros (_ & u & Hu & ?). unfold Units. rewrite Hu. done. Qed.

Lemma amount_ext a b :
  amount_wf a -> amount_wf b -> amount_token a = amount_token b ->
  Units a = Units b -> a = b.
Proof.
  destruct a as [ta ua], b as [tb ub]. unfold amount_wf, Units. cbn.
  intros (_ & u & -> & _) (_ & v & -> & _) -> H. cbn in H. by subst.
Qed.

Lemma decimalFactor_pos d : 0 < decimalFactor d.
Proof. unfold decimalFactor. apply Z.pow_pos_nonneg; lia. Qed.

Lemma Q2Qc_inject_Z_this z : this (Q2Qc (inject_Z z)) = inject_Z z.
Proof.
  cbn -[Qred]. apply Qred_identity. cbn. by rewrite Z.gcd_1_r.
Qed.

Lemma SetInt_nonzero d : 0 < d -> SetInt d <> Q2Qc 0.
Proof.
  intros Hd H. apply (f_equal this) in H. unfold SetInt in H.
  rewrite Q2Qc_inject_Z_this in H. cbn in H.
  unfold inject_Z in H. injection H as H. lia.
Qed.

Lemma SetFrac_mul a d : 0 < d -> (SetFrac a d * SetInt d)%Qc = SetInt a.
Proof.
  intros Hd. unfold SetFrac, SetInt. rewrite Qcmult_comm.
  apply Qcmult_div_r. by apply SetInt_nonzero.
Qed.

Lemma Num_SetInt a : Num (SetInt a) = a.
Proof. unfold Num, SetInt. by rewrite Q2Qc_inject_Z_this. Qed.
Lemma Denom_SetInt a : Denom (SetInt a) = 1.
Proof. unfold Denom, SetInt. by rewrite Q2Qc_inject_Z_this. Qed.


Lemma Qc_nonneg_iff v : (0 <= v)%Qc <-> 0 <= Num v.
Proof.
  unfold Num, Qcle, Qle.
  change (Qnum (Q2Qc 0)) with 0. change (QDen (Q2Qc 0)) with 1. lia.
Qed.

Lemma Num_SetFrac_nonneg a d : 0 <= a -> 0 < d -> 0 <= Num (SetFrac a d).
Proof.
  intros Ha Hd. apply Qc_nonneg_iff. unfold SetFrac, Qcle, Qcdiv, Qcmult, Qcinv, Q2Qc, this.
  rewrite !Qred_correct.
  apply Qmult_le_0_compat; [|apply Qinv_le_0_compat]; unfold Qle, inject_Z, Qnum, Qden; lia.
Qed.

Lemma Qc_sign_Num v : Z.sgn (Num v) < 0 <-> Num v < 0.
Proof. destruct (Num v); cbn; lia. Qed.

(** [Quo(Num, Denom)] of a non-negative rational is its floor. *)
Lemma Quo_Num_Denom_floor v :
  0 <= Num v ->
  let n := Z.quot (Num v) (Denom v) in
  (SetInt n <= v)%Qc /\ (v < SetInt (n + 1))%Qc /\ 0 <= n.
Proof.
  intros Hv n. pose proof (Zquot_bounds (Num v) (Denom v) Hv ltac:(done)) as Hb.
  fold n in Hb.
  split_and!; [| |by apply Zquot_nonneg]; unfold Qcle, Qclt, SetInt, Qle, Qlt;
    rewrite Q2Qc_inject_Z_this; cbn [Qnum Qden inject_Z];
    unfold Num, Denom in *; lia.
Qed.

Lemma SetInt_le a b : (SetInt a <= SetInt b)%Qc <-> a <= b.
Proof.
  unfold SetInt, Qcle, Qle. rewrite !Q2Qc_inject_Z_this. cbn. lia.
Qed.

Lemma Quo_SetInt n : Z.quot (Num (SetInt n)) (Denom (SetInt n)) = n.
Proof. rewrite Num_SetInt, Denom_SetInt. apply Z.quot_1_r. Qed.

Lemma Rat_mul_factor_nonneg q d :
  0 <= Num (Rat q) -> 0 < d -> 0 <= Num (Rat q * SetInt d)%Qc.
Proof.
  intros Hq Hd. apply Qc_nonneg_iff. apply Qc_nonneg_iff in Hq.
  rewrite <- (Qcmult_0_l (SetInt d)). apply Qcmult_le_compat_r; [done|].
  apply Qc_nonneg_iff. rewrite Num_SetInt. lia.
Qed.

(** Printing digits and reading them back. *)
Lemma digit_value_pretty x :
  (x < 10)%N -> digit_value (pretty_N_char x) = Some (Z.of_N x).
Proof.
  intros Hx. assert (x = 0 \/ x = 1 \/ x = 2 \/ x = 3 \/ x = 4 \/ x = 5 \/ x = 6 \/
    x = 7 \/ x = 8 \/ x = 9)%N as Hc by lia.
  repeat destruct Hc as [->|Hc]; try reflexivity. subst. reflexivity.
Qed.

Lemma parse_digits_pretty_go x s :
  parse_digits 0 (pretty_N_go x s) = parse_digits (Z.of_N x) s.
Proof.
  revert s. induction (N.lt_wf_0 x) as [x _ IH]; intros s.
  destruct (decide (x = 0%N)) as [->|Hx]; [by rewrite pretty_N_go_0|].
  rewrite pretty_N_go_step by lia. rewrite IH by (apply N.div_lt; lia).
  cbn [parse_digits]. rewrite digit_value_pretty by (apply N.mod_lt; lia).
  cbn [mbind option_bind]. f_equal. pose proof (N.div_mod x 10 ltac:(done)). lia.
Qed.

Lemma parse_digits_pretty_N x : parse_digits 0 (pretty x) = Some (Z.of_N x).
Proof.
  unfold pretty, pretty_N. case_decide; [by subst|]. apply parse_digits_pretty_go.
Qed.

(** A string of digits starts with neither sign. *)
Lemma SetString10_digits s z : s <> "" -> parse_digits 0 s = Some z -> SetString10 s = Some z.
Proof.
  intros Hs Hp. destruct s as [|c s]; [done|].
  destruct c as [[] [] [] [] [] [] [] []]; try exact Hp; discriminate Hp.
Qed.

Lemma SetString10_pretty z : 0 <= z -> SetString10 (pretty z) = Some z.
Proof.
  intros Hz. assert (pretty z = pretty (Z.to_N z)) as -> by (destruct z; done || lia).
  apply SetString10_digits.
  - unfold pretty, pretty_N. case_decide as Hz0; [done|]. intros Hs.
    apply (f_equal (parse_digits 0)) in Hs. rewrite parse_digits_pretty_go in Hs.
    injection Hs as Hs. lia.
  - rewrite parse_digits_pretty_N. f_equal. lia.
Qed.

(** Converting a token amount to its asset quantity and back gives the
    amount unchanged: dividing by the decimal factor loses nothing. *)
Theorem ToAssetQuantity_ToTokenAmount (a : TokenAmount) (token : Token) :
  amount_wf a -> Token_ID token = amount_token a -> Token_Asset token <> "" ->
  exists q, ToAssetQuantity a token = Ok q /\ ToTokenAmount q token = Ok a.
Proof.
  intros Hwf HID Hasset. pose proof (amount_wf_Units a Hwf) as Hu.
  pose proof (decimalFactor_pos (Token_Decimals token)) as Hd.
  eexists. split.
  { unfold ToAssetQuantity, NewAssetQuantity.
    rewrite decide_False by (intros Hn; congruence). by rewrite decide_False. }
  unfold ToTokenAmount, AssetQuantity_Sign. cbn [quantity_asset Rat quantity_value].
  rewrite decide_False by naive_solver.
  rewrite decide_False
    by (rewrite Qc_sign_Num; pose proof (Num_SetFrac_nonneg _ _ Hu Hd); cbn; lia).
  unfold Rat; cbn [quantity_value]. rewrite SetFrac_mul, Quo_SetInt by done.
  rewrite NewTokenAmount_Ok by (try done; rewrite HID; apply Hwf). f_equal.
  apply amount_ext; [|done|done|done]. split; [rewrite HID; apply Hwf|]. by eexists.
Qed.

(** ToTokenAmount rounds down: the units it returns are the largest integer
    number of raw units that the quantity covers. *)
Theorem ToTokenAmount_floor (q : AssetQuantity) (token : Token) (a : TokenAmount) :
  ToTokenAmount q token = Ok a ->
  let factor := SetInt (decimalFactor (Token_Decimals token)) in
  amount_wf a /\ amount_token a = Token_ID token /\ (SetInt (Units a) <= Rat q * factor)%Qc /\
  forall n, (SetInt n <= Rat q * factor)%Qc -> n <= Units a.
Proof.
  intros H factor. unfold ToTokenAmount, AssetQuantity_Sign in H. res_inv.
  apply NewTokenAmount_inv in H as (Hwf & Ht & Hu).
  rewrite Qc_sign_Num in *.
  destruct (Quo_Num_Denom_floor (Rat q * factor)) as (Hle & Hlt & _).
  { apply Rat_mul_factor_nonneg; [lia|apply decimalFactor_pos]. }
  unfold Units. rewrite Hu. split_and!; [done..|].
  intros n Hn. assert (n < Z.quot (Num (Rat q * factor)%Qc) (Denom (Rat q * factor)%Qc) + 1)
    as ?; [|unfold factor in *; cbn in *; lia].
  apply Z.nle_gt. intros Hge. apply SetInt_le in Hge.
  eapply Qclt_not_le; [exact Hlt|]. by eapply Qcle_trans.
Qed.

(** Parsing the decimal text of an amount gives the amount back. *)
Theorem ParseTokenAmount_String (a : TokenAmount) :
  amount_wf a -> ParseTokenAmount (amount_token a) (TokenAmount_String a) = Ok a.
Proof.
  intros Hwf. unfold ParseTokenAmount, TokenAmount_String.
  pose proof (amount_wf_Units a Hwf) as Hu. rewrite SetString10_pretty by done.
  rewrite NewTokenAmount_Ok by (try done; apply Hwf). f_equal.
  apply amount_ext; [split; [apply Hwf|by eexists]|done..].
Qed.

Lemma Rat_Cmp_nonneg x y : 0 <= Rat_Cmp x y <-> (y <= x)%Qc.
Proof.
  unfold Rat_Cmp. rewrite Qcle_alt. split.
  - intros H Hgt. destruct (x ?= y)%Qc eqn:Hxy; [| lia|].
    + apply Qceq_alt in Hxy as ->. by apply Qcgt_alt, Qclt_not_eq in Hgt.
    + apply Qcgt_alt in Hxy. apply Qcgt_alt in Hgt. by apply (Qclt_not_le y x), Qclt_le_weak.
  - intros H. destruct (x ?= y)%Qc eqn:Hxy; try lia. apply Qclt_alt in Hxy. destruct H.
    by apply Qcgt_alt.
Qed.

Lemma Rat_Cmp_0 x y : Rat_Cmp x y = 0 <-> x = y.
Proof.
  unfold Rat_Cmp. rewrite Qceq_alt. destruct (x ?= y)%Qc; split; congruence.
Qed.

Lemma Rat_Cmp_lt x y : Rat_Cmp x y < 0 <-> (x < y)%Qc.
Proof. unfold Rat_Cmp. rewrite Qclt_alt. destruct (x ?= y)%Qc; split; try done; lia. Qed.

Lemma Rat_Cmp_pos x y : 0 < Rat_Cmp x y <-> (y < x)%Qc.
Proof.
  unfold Rat_Cmp. change (y < x)%Qc with (x > y)%Qc. rewrite Qcgt_alt. destruct (x ?= y)%Qc; split; try done; lia.
Qed.

Lemma Qc_pos_iff v : (0 < v)%Qc <-> 0 < Num v.
Proof.
  unfold Num, Qclt, Qlt. change (Qnum (Q2Qc 0)) with 0. change (QDen (Q2Qc 0)) with 1. lia.
Qed.

Lemma SetInt_lt a b : (SetInt a < SetInt b)%Qc <-> a < b.
Proof. rewrite Qclt_nge, SetInt_le. lia. Qed.

Lemma SetInt_pos a : 0 < a -> (0 < SetInt a)%Qc.
Proof. intros Ha. apply Qc_pos_iff. by rewrite Num_SetInt. Qed.

Lemma sgn_pos a : 0 < Z.sgn a <-> 0 < a.
Proof. destruct (Z.sgn_spec a); lia. Qed.

(** Inversion of the operations on quantities. *)

(** The value of an amount in its token's asset. *)
Definition worth (a : TokenAmount) (token : Token) : Qc :=
  SetFrac (Units a) (decimalFactor (Token_Decimals token)).

Lemma ToAssetQuantity_inv a token q :
  ToAssetQuantity a token = Ok q ->
  Token_ID token = amount_token a /\ Token_Asset token <> "" /\ q = mkAssetQuantity (Token_Asset token) (Some (worth a token)).
Proof.
  unfold ToAssetQuantity, NewAssetQuantity. destruct (decide _) as [|Hid]; [done|]. destruct (decide _) as [|Ha]; [done|].
  intros [= <-]. split; [by apply dec_stable|done].
Qed.

(** The largest integer below a rational. *)
Definition is_floor (n : Z) (v : Qc) : Prop := (SetInt n <= v)%Qc /\ forall k, (SetInt k <= v)%Qc -> k <= n.

Lemma ToTokenAmount_is_floor q token a :
  ToTokenAmount q token = Ok a ->
  0 <= Units a /\ is_floor (Units a) (Rat q * SetInt (decimalFactor (Token_Decimals token)))%Qc.
Proof. intros H. apply ToTokenAmount_floor in H as (Hwf & Ht & Hle & Hmax). split; [by apply amount_wf_Units|done]. Qed.

Lemma ToTokenAmount_no_panic q token : no_panic (ToTokenAmount q token).
Proof. unfold ToTokenAmount, NewTokenAmount. no_panic_auto. Qed.
Lemma NewTokenAmount_no_panic token units : no_panic (NewTokenAmount token units).
Proof. unfold NewTokenAmount. no_panic_auto. Qed.
#[export] Hint Resolve NewTokenAmount_no_panic : no_panic.
Lemma ToAssetQuantity_no_panic a token : no_panic (ToAssetQuantity a token).
Proof. unfold ToAssetQuantity, NewAssetQuantity. no_panic_auto. Qed.

Lemma AssetQuantity_Sub_inv q other d :
  AssetQuantity_Sub q other = Ok d ->
  quantity_asset q = quantity_asset other /\ quantity_asset q <> "" /\ d = mkAssetQuantity (quantity_asset q) (Some (Rat q - Rat other)%Qc).
Proof.
  unfold AssetQuantity_Sub, NewAssetQuantity. destruct (decide _) as [|Hid]; [done|]. destruct (decide _) as [|Ha]; [done|].
  intros [= <-]. split; [by apply dec_stable|done].
Qed.

Lemma AssetQuantity_Add_inv q other d :
  AssetQuantity_Add q other = Ok d ->
  quantity_asset q = quantity_asset other /\ quantity_asset q <> "" /\ d = mkAssetQuantity (quantity_asset q) (Some (Rat q + Rat other)%Qc).
Proof.
  unfold AssetQuantity_Add, NewAssetQuantity. destruct (decide _) as [|Hid]; [done|]. destruct (decide _) as [|Ha]; [done|].
  intros [= <-]. split; [by apply dec_stable|done].
Qed.

Lemma NewAssetQuantity_inv asset value q :
  NewAssetQuantity asset value = Ok q -> asset <> "" /\ exists v, value = Some v /\ q = mkAssetQuantity asset (Some v).
Proof.
  unfold NewAssetQuantity. destruct (decide _) as [|Ha]; [done|]. destruct value as [v|]; [|done]. intros [= <-].
  split; [done|]. by exists v.
Qed.

Lemma Rat_Quo_inv x y z : Rat_Quo x y = Ok z -> y <> Q2Qc 0 /\ z = (x / y)%Qc.
Proof. unfold Rat_Quo. destruct (decide _); [done|]. by intros [= <-]. Qed.

Lemma AssetQuantity_Sign_pos q : 0 < AssetQuantity_Sign q <-> (0 < Rat q)%Qc.
Proof. unfold AssetQuantity_Sign. by rewrite sgn_pos, Qc_pos_iff. Qed.

(** ** Witnesses *)

Module AmountWitness.
Definition usdc : Token := mkToken "usdc" "USD" "base" 6 "USDC".
Definition amount : TokenAmount := mkTokenAmount "usdc" (Some 1234567).
Definition quantity : AssetQuantity := mkAssetQuantity "USD" (Some (SetFrac 10 3)).

Lemma amount_ok : amount_wf amount.
Proof. split; [done|]. exists 1234567. done. Qed.

Lemma roundtrip_witness :
  exists q, ToAssetQuantity amount usdc = Ok q /\ ToTokenAmount q usdc = Ok amount.
Proof. apply (ToAssetQuantity_ToTokenAmount amount usdc amount_ok); done. Defined.

Lemma floor_witness :
  amount_wf (mkTokenAmount "usdc" (Some 3333333)) /\
  forall n, (SetInt n <= Rat quantity * SetInt (decimalFactor 6))%Qc -> n <= 3333333.
Proof.
  destruct (ToTokenAmount_floor quantity usdc (mkTokenAmount "usdc" (Some 3333333)))
    as (Hwf & _ & _ & Hmax); [vm_compute; reflexivity|].
  split; [exact Hwf|exact Hmax].
Defined.

Lemma parse_witness : ParseTokenAmount "usdc" (TokenAmount_String amount) = Ok amount.
Proof. apply (ParseTokenAmount_String amount amount_ok). Defined.
End AmountWitness.

(** [value, _ := call()] for a quantity or an amount. *)
Definition or_zero (q : res AssetQuantity) : AssetQuantity := default AssetQuantity_zero (res_opt q).
Definition amount_or_zero (a : res TokenAmount) : TokenAmount := default TokenAmount_zero (res_opt a).

Lemma or_zero_Sub q other :
  or_zero (AssetQuantity_Sub q other) =
  if decide (quantity_asset q = quantity_asset other /\ quantity_asset q <> "")
  then mkAssetQuantity (quantity_asset q) (Some (Rat q - Rat other)%Qc) else AssetQuantity_zero.
Proof.
  unfold AssetQuantity_Sub, NewAssetQuantity. destruct (decide (quantity_asset q <> _)) as [Hne|He]; [by rewrite decide_False by tauto|].
  apply dec_stable in He. destruct (decide (quantity_asset q = "")) as [Hz|Hz]; [by rewrite decide_False by tauto|].
  by rewrite decide_True.
Qed.

