(* ===== verification/Allowances.v ===== *)
(** * Token allowances at start-up (src/core/live/allowance_bootstrap.go)

    Before it trades, the engine makes sure that the spenders it uses may spend its
    tokens and that the ones it no longer uses may not.  Chains are reached through a
    reader and a writer, calls on a world [W]; [Elapsed] is the wait between two reads
    of a fresh allowance, which says whether the deadline has passed.  Theorem: only
    allowances of the list are touched, and only as it says, a reset follows a revert
    that is proved, and a run without an error has read every required allowance as
    nearly infinite and every revoked one as zero after its last approval. *)
From S2P Require Import Prelude EventLog Amount.
Local Open Scope Z_scope.

Definition NearInfiniteAllowance : Z := Z.shiftl 1 255.
Definition MaximumAllowance : Z := Z.shiftl 1 256 - 1.

Record AllowanceRequirement := mkAllowanceRequirement {
  rq_Chain : ChainID; rq_Token : TokenID; rq_Spender : string; rq_Purpose : string }.
#[export] Instance AllowanceRequirement_eq_dec : EqDecision AllowanceRequirement.
Proof. solve_decision. Defined.

Definition Requirement_Validate (r : AllowanceRequirement) : res unit :=
  if decide (rq_Chain r = "" \/ rq_Token r = "" \/ rq_Spender r = "" \/ rq_Purpose r = "")
  then Err (Errorf "allowance requirement is incomplete") else Ok tt.

(** [errors.As(err, &approval)]: whether the error is an [ApprovalError], and its
    [ConfirmedRevert]. *)
Class ApprovalErrors := { As_ApprovalError : error -> option bool }.

Record AllowanceResult := mkAllowanceResult {
  al_Requirement : AllowanceRequirement; al_Before : Z; al_After : Z; al_Changed : bool; al_Reset : bool; al_CheckedAt : Time }.

Record AllowanceBootstrap (W : Type) := mkAllowanceBootstrap {
  ab_Reader : option (AllowanceRequirement -> ST W (option Z)); ab_Writer : option (AllowanceRequirement -> Z -> ST W unit);
  ab_Requirements : list AllowanceRequirement; ab_Revocations : list AllowanceRequirement; ab_Clock : option (ST W Time);
  ab_VerifyTimeout : Z; ab_VerifyInterval : Z }.
Arguments ab_Reader {W} _. Arguments ab_Writer {W} _. Arguments ab_Requirements {W} _. Arguments ab_Revocations {W} _.
Arguments ab_Clock {W} _. Arguments ab_VerifyTimeout {W} _. Arguments ab_VerifyInterval {W} _.

Definition nul : string := String Ascii.zero EmptyString.
Definition requirement_key (r : AllowanceRequirement) : string := rq_Chain r +:+ nul +:+ rq_Token r +:+ nul +:+ rq_Spender r.

Section bootstrap.
Context {W : Type} {errs : ApprovalErrors} (wall_clock : ST W Time) (Elapsed : ST W bool).
Implicit Types (b : AllowanceBootstrap W) (r : AllowanceRequirement).

Definition verify_timeout b : Z := if decide (ab_VerifyTimeout b <= 0) then 5 * 10 ^ 9 else ab_VerifyTimeout b.
Definition verify_interval b : Z := if decide (ab_VerifyInterval b <= 0) then 10 ^ 8 else ab_VerifyInterval b.
(** Every wait takes an interval at least: after so many the deadline has passed. *)
Definition verify_fuel b : nat := S (Z.to_nat (verify_timeout b / verify_interval b)).

Definition deadline_exceeded : error := Sentinel "context.DeadlineExceeded".

Section steps.
Context (b : AllowanceBootstrap W) (reader : AllowanceRequirement -> ST W (option Z)) (writer : AllowanceRequirement -> Z -> ST W unit) (armed : bool).

Definition clock : ST W Time := default wall_clock (ab_Clock b).

Definition read_before r : ST W Z :=
  before ← wrapST "read %s allowance: %w" (reader r);
  match before with
  | Some before => if decide (Z.sgn before < 0) then lift (Err (Wrapf "read %s allowance: %w" (Errorf "invalid allowance value"))) else mret before
  | None => lift (Err (Wrapf "read %s allowance: %w" (Errorf "invalid allowance value")))
  end.

Fixpoint verify (fuel : nat) r : ST W Z :=
  after ← try (reader r);
  let again err :=
    expired ← (match fuel with O => mret true | S _ => Elapsed end);
    match fuel with
    | S fuel => if expired : bool then lift (Err (Wrapf "verify %s allowance: %w" err)) else verify fuel r
    | O => lift (Err (Wrapf "verify %s allowance: %w" err))
    end in
  match after with
  | Ok (Some after) =>
      if decide (NearInfiniteAllowance <= after) then mret after
      else again (Wrapf "confirmed allowance remains below near-infinite threshold: %w" deadline_exceeded)
  | Ok None => again (Wrapf "confirmed allowance remains below near-infinite threshold: %w" deadline_exceeded)
  | Err err => again err
  | Panic why => lift (Panic why)
  end.

(** Whether the allowance had to be reset. *)
Definition approve r : ST W bool :=
  on_result (writer r MaximumAllowance) (fun _ => mret false) (fun err =>
    if decide (As_ApprovalError err = Some true) then
      _ ← wrapST "reset %s allowance: %w" (writer r 0);
      _ ← wrapST "approve %s after reset: %w" (writer r MaximumAllowance);
      mret true
    else lift (Err (Wrapf "approve %s: %w" err))).

Definition ensure_required (seen : gset string) r : ST W (gset string * AllowanceResult) :=
  _ ← lift (Requirement_Validate r);
  if decide (requirement_key r ∈ seen) then fail "allowance allowlist repeats %s/%s" else
  let seen := {[requirement_key r]} ∪ seen in
  before ← read_before r;
  now ← clock;
  if decide (NearInfiniteAllowance <= before \/ armed = false) then mret (seen, mkAllowanceResult r before before false false now) else
  reset ← approve r;
  after ← verify (verify_fuel b) r;
  now ← clock;
  mret (seen, mkAllowanceResult r before after true reset now).

Definition ensure_revoked (seen : gset string) r : ST W (gset string * AllowanceResult) :=
  _ ← lift (Requirement_Validate r);
  if decide (requirement_key r ∈ seen) then fail "allowance is both required and revoked" else
  let seen := {[requirement_key r]} ∪ seen in
  before ← read_before r;
  now ← clock;
  if decide (Z.sgn before = 0 \/ armed = false) then mret (seen, mkAllowanceResult r before before false false now) else
  _ ← wrapST "revoke %s: %w" (writer r 0);
  on_result (reader r)
    (fun after =>
      match after with
      | Some after =>
          if decide (Z.sgn after <> 0) then fail "verify %s revocation: allowance remains nonzero" else
          now ← clock; mret (seen, mkAllowanceResult r before 0 true false now)
      | None => fail "verify %s revocation: allowance remains nonzero"
      end)
    (fun _ => fail "verify %s revocation: allowance remains nonzero").

(** A loop of the function: the results so far go with the error. *)
Fixpoint ensure_each (step : gset string -> AllowanceRequirement -> ST W (gset string * AllowanceResult)) (seen : gset string)
    (results : list AllowanceResult) (rs : list AllowanceRequirement) : ST W (gset string * list AllowanceResult * option error) :=
  match rs with
  | [] => mret (seen, results, None)
  | r :: rs =>
      on_result (step seen r) (fun '(seen, result) => ensure_each step seen (results ++ [result]) rs)
        (fun err => mret (seen, results, Some err))
  end.
End steps.

Definition no_writer (r : AllowanceRequirement) (v : Z) : ST W unit := lift (Panic "nil writer").

Definition Ensure b (armed : bool) : ST W (list AllowanceResult * option error) :=
  match ab_Reader b with
  | Some reader =>
      if decide (ab_Requirements b = [] /\ ab_Revocations b = [])
      then mret ([], Some (Errorf "allowance bootstrap requires a reader and allowlist")) else
      if decide (armed = true /\ ab_Writer b = None)
      then mret ([], Some (Errorf "armed allowance bootstrap requires a durable approval writer")) else
      let writer := default no_writer (ab_Writer b) in
      '(seen, results, err) ← ensure_each (ensure_required b reader writer armed) ∅ [] (ab_Requirements b);
      if decide (is_Some err) then mret (results, err) else
      '(_, results, err) ← ensure_each (ensure_revoked b reader writer armed) seen results (ab_Revocations b);
      mret (results, err)
  | None => mret ([], Some (Errorf "allowance bootstrap requires a reader and allowlist"))
  end.
End bootstrap.

(** ** What a run does to the chain *)

Inductive Event :=
| ERead (r : AllowanceRequirement) (answer : res (option Z))
| EApprove (r : AllowanceRequirement) (value : Z) (answer : res unit).

Definition about (e : Event) : AllowanceRequirement := match e with ERead r _ | EApprove r _ _ => r end.

Section trace.
Context {errs : ApprovalErrors}.

(** What may be approved after the calls [past]: the maximum or, once the maximum was
    proved to have reverted, zero for a required spender; zero for a revoked one. *)
Definition permitted (armed : bool) (required revoked : list AllowanceRequirement) (past : list Event) (e : Event) : Prop :=
  match e with
  | ERead _ _ => True
  | EApprove r value _ => armed = true /\
      ((r ∈ required /\ value = MaximumAllowance) \/
       (r ∈ required /\ value = 0 /\ exists before err, past = before ++ [EApprove r MaximumAllowance (Err err)] /\ As_ApprovalError err = Some true) \/
       (r ∈ revoked /\ value = 0))
  end.

(** [allowed past l]: each event of [l] was permitted when it happened. *)
Definition allowed (armed : bool) (required revoked : list AllowanceRequirement) (l : list Event) : Prop :=
  forall past e rest, l = past ++ e :: rest -> permitted armed required revoked past e.

(** The last thing the calls [l] show of the allowance of [result] is that it is [al_After]. *)
Definition last_read (l : list Event) (result : AllowanceResult) : Prop :=
  exists before after, l = before ++ ERead (al_Requirement result) (Ok (Some (al_After result))) :: after /\
    Forall (fun e => requirement_key (about e) <> requirement_key (al_Requirement result)) after.

Lemma permitted_more armed required revoked required' revoked' past e before : required ⊆ required' -> revoked ⊆ revoked' ->
  permitted armed required revoked past e -> permitted armed required' revoked' (before ++ past) e.
Proof.
  intros Hreq Hrev. destruct e as [|r v a]; [done|]. intros [Harm H]. split; [done|].
  destruct H as [[? ?]|[(? & ? & p & err & -> & ?)|[? ?]]]; [left; auto|right; left|right; right; auto].
  split; [auto|]. split; [done|]. exists (before ++ p), err. by rewrite <- app_assoc.
Qed.

Lemma allowed_nil armed required revoked : allowed armed required revoked [].
Proof. by intros [|e0 past] e rest. Qed.

Lemma allowed_app armed required revoked l k : allowed armed required revoked l -> allowed armed required revoked k -> allowed armed required revoked (l ++ k).
Proof.
  intros Hl Hk past e rest Heq. apply app_eq_app in Heq as (mid & [[-> Heq]|[-> Heq]]).
  - destruct mid as [|e' mid]; cbn in Heq; [|injection Heq as -> ->; by eapply Hl].
    subst k. rewrite <- (app_nil_r past).
    apply (permitted_more armed required revoked required revoked [] e past); [done..|by eapply Hk].
  - eapply permitted_more; [done..|]. by eapply Hk.
Qed.

Lemma allowed_reads armed required revoked l : Forall (fun e => match e with ERead _ _ => True | _ => False end) l -> allowed armed required revoked l.
Proof. intros Hl past e rest ->. apply Forall_app in Hl as [_ Hl]. apply Forall_cons in Hl as [He _]. by destruct e. Qed.

Lemma allowed_read armed required revoked r a : allowed armed required revoked [ERead r a].
Proof. apply allowed_reads. by constructor. Qed.

Lemma allowed_weaken armed required revoked required' revoked' l : required ⊆ required' -> revoked ⊆ revoked' ->
  allowed armed required revoked l -> allowed armed required' revoked' l.
Proof. intros Hreq Hrev Hl past e rest Heq. apply (permitted_more armed required revoked required' revoked' past e [] Hreq Hrev). by eapply Hl. Qed.

Lemma allowed_max required revoked r a : r ∈ required -> allowed true required revoked [EApprove r MaximumAllowance a].
Proof. intros Hr past e rest Heq. destruct past as [|? [|]]; [|done..]. injection Heq as <- <-. split; [done|]. by left. Qed.

Lemma allowed_revoke required revoked r a : r ∈ revoked -> allowed true required revoked [EApprove r 0 a].
Proof. intros Hr past e rest Heq. destruct past as [|? [|]]; [|done..]. injection Heq as <- <-. split; [done|]. right. by right. Qed.

Lemma allowed_reset required revoked r err a : r ∈ required -> As_ApprovalError err = Some true ->
  allowed true required revoked [EApprove r MaximumAllowance (Err err); EApprove r 0 a].
Proof.
  intros Hr Herr past e rest Heq. destruct past as [|e1 [|e2 [|]]]; [injection Heq as <- <-; split; [done|by left]| |done..].
  injection Heq as <- <- <-. split; [done|]. right. left. split; [done|]. split; [done|]. by exists [], err.
Qed.
End trace.

Section runs.
Context {W : Type} {errs : ApprovalErrors} (log : W -> list Event) (wall_clock : ST W Time) (Elapsed : ST W bool).
Context (b : AllowanceBootstrap W) (reader : AllowanceRequirement -> ST W (option Z)) (writer : AllowanceRequirement -> Z -> ST W unit) (armed : bool).
Hypothesis reader_noted : forall r, Noted log (ERead r) (reader r).
Hypothesis writer_noted : armed = true -> forall r v, Noted log (EApprove r v) (writer r v).
Hypothesis elapsed_silent : Silent log Elapsed.
Hypothesis clock_silent : Silent log (clock wall_clock b).

Lemma Emits_wrapST {A} format (m : ST W A) (Q R : res A -> list Event -> Prop) :
  Emits log m Q -> (forall r l, Q r l -> R (wrap format r) l) -> Emits log (wrapST format m) R.
Proof using Type.
  clear. intros Hm HR w. destruct (Hm w) as (Hp & l & Hl & HQ). unfold wrapST. destruct (m w) as [r w'] eqn:Hmw; cbn in *.
  split; [by apply no_panic_wrap|]. exists l. split; [done|]. by apply HR.
Qed.

Lemma read_before_spec r : Emits log (read_before reader r)
  (fun out l => exists answer, l = [ERead r answer] /\ match out with Ok v => answer = Ok (Some v) /\ 0 <= v | _ => True end).
Proof using reader_noted.
  apply (Emits_bind _ _ _ (fun out l => exists answer, l = [ERead r answer] /\ match out with Ok v => answer = Ok v | _ => True end)).
  - apply (Emits_wrapST _ _ (fun out l => l = [ERead r out])); [by apply (Emits_noted _ _ (ERead r))|].
    intros out l ->. exists out. split; [done|]. by destruct out.
  - intros e l (a & -> & _). by exists a.
  - intros v l (a & -> & ->). destruct v as [v|]; [destruct (decide _) as [|Hs]|]; [by apply Emits_lift; [apply no_panic_Err|eexists]| |by apply Emits_lift; [apply no_panic_Err|eexists]].
    apply Emits_mret. rewrite app_nil_r. eexists. split; [done|]. split; [done|]. destruct (Z.sgn_spec v); lia.
Qed.

Definition reads (r : AllowanceRequirement) (l : list Event) : Prop := Forall (fun e => exists a, e = ERead r a) l.

Lemma verify_spec fuel r : Emits log (verify Elapsed reader fuel r)
  (fun out l => reads r l /\ match out with Ok v => NearInfiniteAllowance <= v /\ exists l0, l = l0 ++ [ERead r (Ok (Some v))] | _ => True end).
Proof using reader_noted elapsed_silent.
  induction fuel as [|fuel IH]; cbn [verify].
  all: (eapply Emits_bind; [apply Emits_try, (Emits_noted _ _ (ERead r) (fun out l => l = [ERead r out])); [done|done]| |]);
    [by intros e l (out & ? & _)|]; intros out l (out' & [= <-] & Hp & ->).
  - assert (reads r [ERead r out]) as Hr by (repeat constructor; by eexists).
    destruct out as [[v|]|err|why]; [destruct (decide _) as [Hv|]|..]; cbn [mbind st_bind].
    + apply Emits_mret. rewrite app_nil_r. split; [done|]. split; [done|]. by exists [].
    + apply (Emits_lift log (Err _)); [apply no_panic_Err|]. by rewrite app_nil_r.
    + apply (Emits_lift log (Err _)); [apply no_panic_Err|]. by rewrite app_nil_r.
    + apply (Emits_lift log (Err _)); [apply no_panic_Err|]. by rewrite app_nil_r.
    + by destruct (Hp why).
  - assert (reads r [ERead r out]) as Hr by (repeat constructor; by eexists).
    assert (forall err, Emits log (expired ← Elapsed; if expired : bool then lift (Err (Wrapf "verify %s allowance: %w" err)) else verify Elapsed reader fuel r)
      (fun o l => reads r ([ERead r out] ++ l) /\ match o with Ok v => NearInfiniteAllowance <= v /\ exists l0, [ERead r out] ++ l = l0 ++ [ERead r (Ok (Some v))] | _ => True end)) as Hagain.
    { intros err. eapply Emits_bind; [by apply Emits_quietly| |].
      - intros e l ->. by rewrite app_nil_r.
      - intros expired l ->. destruct expired; [apply Emits_lift; [apply no_panic_Err|by rewrite app_nil_r]|].
        eapply Emits_weaken; [exact IH|]. intros o l _ [Hl Ho]. split; [by apply Forall_app|]. destruct o; [|done..].
        destruct Ho as (Hv & l0 & ->). split; [done|]. exists ([ERead r out] ++ l0). by rewrite app_assoc. }
    destruct out as [[v|]|err|why]; [destruct (decide _) as [Hv|]|..]; [|apply Hagain..|by destruct (Hp why)].
    apply Emits_mret. rewrite app_nil_r. split; [done|]. split; [done|]. by exists [].
Qed.

Lemma wrapped_approve format r v : armed = true -> Emits log (wrapST format (writer r v)) (fun _ l => exists a, l = [EApprove r v a]).
Proof using writer_noted.
  intros Harm. apply (Emits_wrapST _ _ (fun _ l => exists a, l = [EApprove r v a])); [|done].
  apply (Emits_noted _ _ (EApprove r v)); [by apply writer_noted|by eexists].
Qed.

Lemma approve_spec r required revoked : armed = true -> r ∈ required ->
  Emits log (approve writer r) (fun _ l => Forall (fun e => about e = r) l /\ allowed armed required revoked l).
Proof using writer_noted.
  intros Harm Hr. pose proof (wrapped_approve) as Hwrapped. rewrite Harm. eapply Emits_on_result;
    [apply (Emits_noted _ _ (EApprove r MaximumAllowance) (fun out l => l = [EApprove r MaximumAllowance out])); [by apply writer_noted|done]|..].
  - intros [] l ->. apply Emits_mret. rewrite app_nil_r. split; [by repeat constructor|by apply allowed_max].
  - intros err l ->. destruct (decide _) as [Herr|].
    2: { apply Emits_lift; [apply no_panic_Err|]. rewrite app_nil_r. split; [by repeat constructor|by apply allowed_max]. }
    eapply Emits_bind; [by apply Hwrapped| |].
    + intros e l (a & ->). cbn [app]. split; [by repeat constructor|by apply allowed_reset].
    + intros [] l (a & ->). eapply Emits_bind; [by apply Hwrapped| |].
      * intros e l (a' & ->). cbn [app]. split; [by repeat constructor|]. apply (allowed_app _ _ _ [_; _] [_]); [by apply allowed_reset|by apply allowed_max].
      * intros [] l (a' & ->). apply Emits_mret. rewrite app_nil_r. cbn [app]. split; [by repeat constructor|].
        apply (allowed_app _ _ _ [_; _] [_]); [by apply allowed_reset|by apply allowed_max].
Qed.

(** What a step of either loop does. *)
Definition step_spec (final : Z -> Prop) (required revoked : list AllowanceRequirement) (seen : gset string) (r : AllowanceRequirement)
    (out : res (gset string * AllowanceResult)) (l : list Event) : Prop :=
  Forall (fun e => about e = r /\ requirement_key r ∉ seen) l /\ allowed armed required revoked l /\
  match out with
  | Ok (seen', result) =>
      requirement_key r ∉ seen /\ seen' = {[requirement_key r]} ∪ seen /\ al_Requirement result = r /\
      (armed = true -> final (al_After result)) /\ exists l0, l = l0 ++ [ERead r (Ok (Some (al_After result)))]
  | _ => True
  end.

Lemma step_spec_Err final required revoked seen r e l : Forall (fun e => about e = r) l -> requirement_key r ∉ seen ->
  allowed armed required revoked l -> step_spec final required revoked seen r (Err e) l.
Proof using Type. clear -l. intros Hl Hk Ha. split; [|done]. eapply Forall_impl; [exact Hl|done]. Qed.

Lemma step_spec_Ok (final : Z -> Prop) required revoked seen r result l : Forall (fun e => about e = r) l -> requirement_key r ∉ seen ->
  allowed armed required revoked l -> al_Requirement result = r -> (armed = true -> final (al_After result)) ->
  (exists l0, l = l0 ++ [ERead r (Ok (Some (al_After result)))]) ->
  step_spec final required revoked seen r (Ok ({[requirement_key r]} ∪ seen, result)) l.
Proof using Type. clear -l. intros Hl Hk Ha Hr Hf Hlast. split; [eapply Forall_impl; [exact Hl|done]|done]. Qed.

Lemma reads_about r l : reads r l -> Forall (fun e => about e = r) l.
Proof using Type. clear. intros Hl. eapply Forall_impl; [exact Hl|]. by intros e [a ->]. Qed.

Lemma reads_allowed r l required revoked : reads r l -> allowed armed required revoked l.
Proof using Type. clear -l. intros Hl. apply allowed_reads. eapply Forall_impl; [exact Hl|]. by intros e [a ->]. Qed.

(** What both steps share: the checks and the first read. *)
Lemma first_read format seen r (rest : Z -> ST W (gset string * AllowanceResult)) final required revoked :
  (requirement_key r ∉ seen -> forall v, 0 <= v ->
    Emits log (rest v) (fun out l => step_spec final required revoked seen r out ([ERead r (Ok (Some v))] ++ l))) ->
  Emits log (_ ← lift (Requirement_Validate r); if decide (requirement_key r ∈ seen) then fail format else before ← read_before reader r; rest before)
    (step_spec final required revoked seen r).
Proof using reader_noted.
  intros Hrest. eapply Emits_bind; [apply (Emits_lift log _ (fun _ l => l = [])); [unfold Requirement_Validate; no_panic_auto|done]| |].
  - intros e l ->. split; [constructor|]. by split; [apply allowed_nil|].
  - intros [] l ->. destruct (decide _) as [|Hk]; [apply Emits_lift; [apply no_panic_Err|]; split; [constructor|]; by split; [apply allowed_nil|]|].
    cbn [app]. eapply Emits_bind; [apply read_before_spec| |].
    + intros e l (a & -> & _). apply step_spec_Err; [by repeat constructor|done|apply allowed_read].
    + intros v l (a & -> & -> & Hv). by apply Hrest.
Qed.

Lemma required_step seen r required revoked : r ∈ required ->
  Emits log (ensure_required wall_clock Elapsed b reader writer armed seen r) (step_spec (fun after => NearInfiniteAllowance <= after) required revoked seen r).
Proof using reader_noted writer_noted elapsed_silent clock_silent.
  intros Hr. apply first_read. intros Hk v Hv.
  eapply Emits_bind; [by apply Emits_quietly| |].
  { intros e l ->. rewrite app_nil_r. apply step_spec_Err; [by repeat constructor|done|apply allowed_read]. }
  intros now l ->. destruct (decide (NearInfiniteAllowance <= v \/ armed = false)) as [Hdone|Hmore].
  { apply Emits_mret. rewrite !app_nil_r. apply step_spec_Ok; try done; [by repeat constructor|apply allowed_read| |by exists []].
    cbn. intros Harm. destruct Hdone as [|Hf]; [done|]. by rewrite Harm in Hf. }
  assert (armed = true) as Harm by (destruct armed; tauto).
  eapply Emits_bind; [by apply (approve_spec r required revoked)| |].
  { intros e l [Hab Hal]. cbn [app]. apply step_spec_Err; [by constructor|done|]. by apply (allowed_app _ _ _ [_]); [apply allowed_read|]. }
  intros reset l [Hab Hal]. eapply Emits_bind; [apply verify_spec| |].
  { intros e l' [Hreads _]. cbn [app]. apply step_spec_Err; [constructor; [done|]; apply Forall_app; split; [done|by apply reads_about]|done|].
    apply (allowed_app _ _ _ [_]); [apply allowed_read|]. by apply allowed_app; [|eapply reads_allowed]. }
  intros after l' [Hreads (Hafter & l0 & ->)].
  assert (Forall (fun e => about e = r) ([ERead r (Ok (Some v))] ++ l ++ l0 ++ [ERead r (Ok (Some after))])) as Hall
    by (constructor; [done|]; apply Forall_app; split; [done|by apply reads_about]).
  assert (allowed armed required revoked ([ERead r (Ok (Some v))] ++ l ++ l0 ++ [ERead r (Ok (Some after))])) as Hok
    by (apply allowed_app; [apply allowed_read|]; by apply allowed_app; [|eapply reads_allowed]).
  eapply Emits_bind; [by apply Emits_quietly| |].
  { intros e l1 ->. rewrite app_nil_r. by apply step_spec_Err. }
  intros now' l1 ->. apply Emits_mret. cbn [app]. rewrite !app_nil_r. apply step_spec_Ok; try done.
  exists (ERead r (Ok (Some v)) :: l ++ l0). cbn. by rewrite app_assoc.
Qed.

Lemma revoked_step seen r required revoked : r ∈ revoked ->
  Emits log (ensure_revoked wall_clock b reader writer armed seen r) (step_spec (fun after => after = 0) required revoked seen r).
Proof using reader_noted writer_noted clock_silent.
  intros Hr. apply first_read. intros Hk v Hv.
  eapply Emits_bind; [by apply Emits_quietly| |].
  { intros e l ->. rewrite app_nil_r. apply step_spec_Err; [by repeat constructor|done|apply allowed_read]. }
  intros now l ->. destruct (decide (Z.sgn v = 0 \/ armed = false)) as [Hdone|Hmore].
  { apply Emits_mret. rewrite !app_nil_r. apply step_spec_Ok; try done; [by repeat constructor|apply allowed_read| |by exists []].
    cbn. intros Harm. destruct Hdone as [H0|Hf]; [by apply Z.sgn_null_iff|]. by rewrite Harm in Hf. }
  assert (armed = true) as Harm by (destruct armed; tauto).
  assert (forall a, Forall (fun e => about e = r) ([ERead r (Ok (Some v))] ++ [EApprove r 0 a])) as Hab by (intros a; by repeat constructor).
  assert (forall a, allowed armed required revoked ([ERead r (Ok (Some v))] ++ [EApprove r 0 a])) as Hal.
  { intros a. apply allowed_app; [apply allowed_read|]. rewrite Harm. by apply allowed_revoke. }
  eapply Emits_bind; [by apply wrapped_approve| |].
  { intros e l (a & ->). apply step_spec_Err; [exact (Hab a)|done|exact (Hal a)]. }
  intros [] l (a & ->). specialize (Hab a). specialize (Hal a). cbn [app] in Hab, Hal |- *.
  assert (forall out, Forall (fun e => about e = r) ([ERead r (Ok (Some v)); EApprove r 0 a] ++ [ERead r out]) /\
    allowed armed required revoked ([ERead r (Ok (Some v)); EApprove r 0 a] ++ [ERead r out])) as Hend.
  { intros out. split; [apply Forall_app; split; [done|by repeat constructor]|]. apply allowed_app; [done|apply allowed_read]. }
  eapply Emits_on_result; [apply (Emits_noted _ _ (ERead r) (fun out l => l = [ERead r out])); done|..].
  2: { intros e l ->. destruct (Hend (Err e)). apply Emits_lift; [apply no_panic_Err|]. rewrite app_nil_r. by apply step_spec_Err. }
  intros after l ->. destruct (Hend (Ok after)) as [Hab' Hal'].
  destruct after as [after|]; [destruct (decide _) as [|H0]|]; [by apply Emits_lift; [apply no_panic_Err|]; rewrite app_nil_r; apply step_spec_Err| |
    by apply Emits_lift; [apply no_panic_Err|]; rewrite app_nil_r; apply step_spec_Err].
  assert (after = 0) as -> by (apply Z.sgn_null_iff; lia).
  eapply Emits_bind; [by apply Emits_quietly| |].
  { intros e l ->. rewrite app_nil_r. by apply step_spec_Err. }
  intros now' l ->. apply Emits_mret. rewrite !app_nil_r. apply step_spec_Ok; try done. by exists [ERead r (Ok (Some v)); EApprove r 0 a].
Qed.

(** What a loop does, from the keys [seen] before it. *)
Definition loop_spec (final : Z -> Prop) (required revoked : list AllowanceRequirement) (seen : gset string) (results : list AllowanceResult)
    (rs : list AllowanceRequirement) (out : res (gset string * list AllowanceResult * option error)) (l : list Event) : Prop :=
  Forall (fun e => requirement_key (about e) ∉ seen) l /\ allowed armed required revoked l /\
  exists seen' new err, out = Ok (seen', results ++ new, err) /\ seen ⊆ seen' /\
    Forall (fun result => (armed = true -> final (al_After result)) /\ last_read l result /\ requirement_key (al_Requirement result) ∈ seen') new /\
    (err = None -> al_Requirement <$> new = rs).

Lemma last_read_cons l k result : last_read k result -> last_read (l ++ k) result.
Proof using Type. clear. intros (p & a & -> & Ha). exists (l ++ p), a. by rewrite <- app_assoc. Qed.

Lemma last_read_app l k result : last_read l result -> Forall (fun e => requirement_key (about e) <> requirement_key (al_Requirement result)) k ->
  last_read (l ++ k) result.
Proof using Type. clear. intros (p & a & -> & Ha) Hk. exists p, (a ++ k). rewrite <- app_assoc. cbn. split; [done|]. by apply Forall_app. Qed.

Lemma loop_runs step final required revoked rs :
  (forall seen r, r ∈ rs -> Emits log (step seen r) (step_spec final required revoked seen r)) ->
  forall seen results, Emits log (ensure_each step seen results rs) (loop_spec final required revoked seen results rs).
Proof using Type.
  clear. induction rs as [|r rs IH]; intros Hstep seen results; cbn [ensure_each].
  { apply Emits_mret. split; [constructor|]. split; [apply allowed_nil|]. exists seen, [], None. by rewrite app_nil_r. }
  eapply Emits_on_result; [apply Hstep; by left|..].
  - intros [seen1 result] l (Hl & Hal & Hk & -> & Hreq & Hfinal & l0 & Hl0). eapply Emits_weaken; [apply IH; intros; apply Hstep; by right|].
    intros out l' _ (Hl' & Hal' & seen' & new & err & -> & Hseen & Hnew & Herr).
    assert (Forall (fun e => requirement_key (about e) <> requirement_key r) l') as Hother by (eapply Forall_impl; [exact Hl'|]; set_solver).
    split. { apply Forall_app. split; [eapply Forall_impl; [exact Hl|]; by intros e [-> ?]|eapply Forall_impl; [exact Hl'|]; set_solver]. }
    split; [by apply allowed_app|]. exists seen', (result :: new), err. rewrite <- app_assoc. split; [done|]. split; [set_solver|]. split.
    + constructor.
      * split; [done|]. rewrite Hreq. split; [|set_solver]. apply last_read_app; [|by rewrite Hreq]. exists l0, []. by rewrite Hreq.
      * eapply Forall_impl; [exact Hnew|]. cbn beta. intros x (? & ? & ?). split; [done|]. split; [by apply last_read_cons|done].
    + intros ->. by rewrite fmap_cons, Hreq, Herr.
  - intros e l (Hl & Hal & _). apply Emits_mret. rewrite app_nil_r. split; [eapply Forall_impl; [exact Hl|]; by intros x [-> ?]|]. split; [done|].
    exists seen, [], (Some e). rewrite app_nil_r. split; [done|]. split; [done|]. split; [constructor|done].
Qed.
End runs.

(** C13.What the allowance bootstrap does to the chains.  Whatever the chains answer it
    returns; without being armed it approves nothing; armed, it approves the maximum to
    the required spenders only, zero to one of them only right after the maximum was
    proved to have reverted, and zero to the revoked ones.  When it reports no error it
    has a result for each requirement and revocation, and the last allowance it read of
    each, after the last approval for it, is the one reported: nearly infinite for the
    required, zero for the revoked when armed. *)
Theorem Ensure_grants {W} {errs : ApprovalErrors} (log : W -> list Event) wall_clock Elapsed (b : AllowanceBootstrap W) reader armed w :
  ab_Reader b = Some reader -> (forall r, Noted log (ERead r) (reader r)) ->
  (forall writer, ab_Writer b = Some writer -> forall r v, Noted log (EApprove r v) (writer r v)) ->
  Silent log Elapsed -> Silent log (clock wall_clock b) ->
  exists results err w' l, Ensure wall_clock Elapsed b armed w = (Ok (results, err), w') /\ log w' = log w ++ l /\
    allowed armed (ab_Requirements b) (ab_Revocations b) l /\
    Forall (fun result => last_read l result) results /\
    (err = None -> exists granted withdrawn, results = granted ++ withdrawn /\
       al_Requirement <$> granted = ab_Requirements b /\ al_Requirement <$> withdrawn = ab_Revocations b /\
       (armed = true -> Forall (fun result => NearInfiniteAllowance <= al_After result) granted /\ Forall (fun result => al_After result = 0) withdrawn)).
Proof.
  intros Hreader Hread Hwrite Helapsed Hclock. unfold Ensure. rewrite Hreader.
  assert (forall e, exists results err w' l, (mret ([], Some e) : ST W (list AllowanceResult * option error)) w = (Ok (results, err), w') /\ log w' = log w ++ l /\
    allowed armed (ab_Requirements b) (ab_Revocations b) l /\ Forall (fun result => last_read l result) results /\
    (err = None -> exists granted withdrawn, results = granted ++ withdrawn /\ al_Requirement <$> granted = ab_Requirements b /\ al_Requirement <$> withdrawn = ab_Revocations b /\
       (armed = true -> Forall (fun result => NearInfiniteAllowance <= al_After result) granted /\ Forall (fun result => al_After result = 0) withdrawn))) as Hrefused.
  { intros e. exists [], (Some e), w, []. rewrite app_nil_r. split; [done|]. split; [done|]. split; [apply allowed_nil|]. by split; [constructor|]. }
  destruct (decide (ab_Requirements b = [] /\ ab_Revocations b = [])); [apply Hrefused|].
  destruct (decide (armed = true /\ ab_Writer b = None)) as [|Hw]; [apply Hrefused|]. clear Hrefused. cbv zeta.
  set (writer := default no_writer (ab_Writer b)).
  assert (armed = true -> forall r v, Noted log (EApprove r v) (writer r v)) as Hwriter.
  { intros Harm. unfold writer. destruct (ab_Writer b) as [wr|]; [by apply Hwrite|tauto]. }
  destruct (loop_runs log armed (ensure_required wall_clock Elapsed b reader writer armed) (fun after => NearInfiniteAllowance <= after)
    (ab_Requirements b) (ab_Revocations b) (ab_Requirements b) ltac:(intros seen r Hr; by apply required_step) ∅ [] w)
    as (Hp & l1 & Hl1 & _ & Hal1 & seen & granted & err & Hout1 & Hseen & Hgranted & Herr1).
  unfold mbind at 1, st_bind at 1. destruct (ensure_each _ ∅ [] _ w) as [out1 w1]. cbn [fst snd] in *. subst out1. cbn [app].
  destruct err as [e|].
  { rewrite decide_True by done. exists granted, (Some e), w1, l1. split; [done|]. split; [done|]. split; [done|]. split; [|done].
    eapply Forall_impl; [exact Hgranted|]. by intros x (_ & ? & _). }
  rewrite decide_False by (by intros [? ?]).
  destruct (loop_runs log armed (ensure_revoked wall_clock b reader writer armed) (fun after => after = 0)
    (ab_Requirements b) (ab_Revocations b) (ab_Revocations b) ltac:(intros s r Hr; by apply revoked_step) seen granted w1)
    as (Hp2 & l2 & Hl2 & Hkeys & Hal2 & seen2 & withdrawn & err & Hout2 & _ & Hwithdrawn & Herr2).
  unfold mbind, st_bind. destruct (ensure_each _ seen granted _ w1) as [out2 w2]. cbn [fst snd] in *. subst out2.
  exists (granted ++ withdrawn), err, w2, (l1 ++ l2). split; [done|]. split; [by rewrite Hl2, Hl1, app_assoc|]. split; [by apply allowed_app|]. split.
  - apply Forall_app. split.
    + eapply Forall_impl; [exact Hgranted|]. intros x (_ & Hx & Hin). apply last_read_app; [done|]. eapply Forall_impl; [exact Hkeys|].
      intros e He Heq. apply He. by rewrite Heq.
    + eapply Forall_impl; [exact Hwithdrawn|]. intros x (_ & Hx & _). by apply last_read_cons.
  - intros ->. exists granted, withdrawn. split; [done|]. split; [by apply Herr1|]. split; [by apply Herr2|]. intros Harm.
    split; [eapply Forall_impl; [exact Hgranted|]|eapply Forall_impl; [exact Hwithdrawn|]]; cbn beta; intros x (Hx & _); by apply Hx.
Qed.

(** A chain on which one token refuses the maximum until its allowance has been reset. *)
Module AllowanceWitness.
Record chain := mkChain { ch_allowances : gmap string Z; ch_stubborn : gset string; ch_log : list Event }.
#[local] Instance errs : ApprovalErrors := {| As_ApprovalError err := if decide (errors_Is err "reverted" = true) then Some true else None |}.
Definition note (e : Event) (c : chain) : chain := mkChain (ch_allowances c) (ch_stubborn c) (ch_log c ++ [e]).
Definition reader (r : AllowanceRequirement) : ST chain (option Z) := fun c =>
  let answer := Ok (Some (default 0 (ch_allowances c !! requirement_key r))) in (answer, note (ERead r answer) c).
Definition writer (r : AllowanceRequirement) (v : Z) : ST chain unit := fun c =>
  if decide (requirement_key r ∈ ch_stubborn c /\ v <> 0) then (Err (Sentinel "reverted"), note (EApprove r v (Err (Sentinel "reverted"))) c)
  else (Ok tt, note (EApprove r v (Ok tt)) (mkChain (<[requirement_key r := v]> (ch_allowances c)) (ch_stubborn c ∖ {[requirement_key r]}) (ch_log c))).
Definition weth : AllowanceRequirement := mkAllowanceRequirement "optimism" "weth" "router" "swap".
Definition usdt : AllowanceRequirement := mkAllowanceRequirement "optimism" "usdt" "router" "swap".
Definition old : AllowanceRequirement := mkAllowanceRequirement "optimism" "usdt" "old router" "retired".
Definition b : AllowanceBootstrap chain := mkAllowanceBootstrap chain (Some reader) (Some writer) [weth; usdt] [old] None 0 0.
Definition start : chain := mkChain {[requirement_key weth := MaximumAllowance; requirement_key usdt := 7; requirement_key old := 9]} {[requirement_key usdt]} [].
Definition now : ST chain Time := mret 5.
Definition patience : ST chain bool := mret false.

Lemma grants_witness : exists granted withdrawn, (Ensure now patience b true start).1 = Ok (granted ++ withdrawn, None) /\
  Forall (fun result => NearInfiniteAllowance <= al_After result) granted /\ Forall (fun result => al_After result = 0) withdrawn /\
  (al_Reset <$> granted) = [false; true].
Proof.
  assert (forall r, Noted ch_log (ERead r) (reader r)) as Hr by (intros r c; split; [apply no_panic_Ok|reflexivity]).
  assert (forall wr, ab_Writer b = Some wr -> forall r v, Noted ch_log (EApprove r v) (wr r v)) as Hw.
  { intros wr [= <-] r v c. unfold writer. destruct (decide _); split; [apply no_panic_Err|reflexivity|apply no_panic_Ok|reflexivity]. }
  assert (exists results, (Ensure now patience b true start).1 = Ok (results, None) /\ al_Reset <$> results = [false; true; false]) as (all & Hall & Hreset)
    by (vm_compute; eexists; split; reflexivity).
  destruct (Ensure_grants ch_log now patience b reader true start eq_refl Hr Hw ltac:(by intros c) ltac:(by intros c))
    as (results & err & c & l & Hrun & _ & _ & _ & Hdone).
  rewrite Hrun in Hall. injection Hall as -> ->. destruct (Hdone eq_refl) as (granted & withdrawn & -> & Hg & _ & Hfinal).
  destruct (Hfinal eq_refl) as [Hmax Hzero]. exists granted, withdrawn. rewrite Hrun. split; [reflexivity|]. split; [exact Hmax|]. split; [exact Hzero|].
  destruct granted as [|x [|y [|z granted]]]; [discriminate Hg..| |discriminate Hg]. cbn in Hreset |- *. by injection Hreset as -> -> _.
Defined.
End AllowanceWitness.
