(* ===== verification/Quote.v ===== *)
(** * Events, snapshots and quotes
    (src/domain/market/state.go, quote.go, conversion.go)

    The envelopes every market adapter fills.  Adapter payloads
    ([EventData], [SnapshotData]) are interface values in Go: here a type with
    its kind, [None] standing for a nil interface.  SHA-256 belongs to Go's
    crypto package and is a parameter [sha256] of the constructors that hash;
    a digest and a byte slice are strings of bytes. *)
From S2P Require Import Prelude Amount.

Abbreviation Digest := string (only parsing).

Class SnapshotData (D : Type) := SnapshotKind : D -> string.
Class EventData (E : Type) := EventKind : E -> string.

(** ** Source references and positions *)

Record SourceReference := mkSourceReference {
  ref_Kind : string; ref_Value : string }.

Definition SourceReference_Known (r : SourceReference) : Prop := ref_Kind r <> "".

Definition SourceReference_Validate (r : SourceReference) : res unit :=
  if decide (bool_decide (ref_Kind r = "") <> bool_decide (ref_Value r = ""))
  then Err (Errorf "source reference kind and value must be provided together")
  else Ok tt.

Record SourcePosition := mkSourcePosition {
  pos_Kind : string; pos_Value : Z }.

#[export] Instance SourceReference_eq_dec : EqDecision SourceReference.
Proof. solve_decision. Defined.
#[export] Instance SourcePosition_eq_dec : EqDecision SourcePosition.
Proof. solve_decision. Defined.

Definition SourcePosition_Known (p : SourcePosition) : Prop := pos_Kind p <> "".

Definition SourcePosition_Validate (p : SourcePosition) : res unit :=
  if decide (pos_Kind p = "" /\ pos_Value p <> 0)
  then Err (Errorf "source position value requires a kind")
  else Ok tt.

(** The second result of Go's [Compare], "comparable", is the [Some]. *)
Definition SourcePosition_Compare (p other : SourcePosition) : option Z :=
  if decide (pos_Kind p = "" \/ pos_Kind p <> pos_Kind other) then None else
  if decide (pos_Value p < pos_Value other) then Some (-1) else
  if decide (pos_Value other < pos_Value p) then Some 1 else Some 0.

(** ** Market events *)

Record MarketEvent (E : Type) := mkMarketEvent {
  ev_Market : MarketID; ev_Source : SourceID;
  ev_Position : SourcePosition; ev_Reference : SourceReference;
  ev_Finality : string; ev_SourceTime : Time; ev_SourceTimeKnown : bool;
  ev_ReceivedAt : Time; ev_Reverts : bool; ev_Data : option E }.
Arguments mkMarketEvent {E}.
Arguments ev_Market {E}. Arguments ev_Source {E}. Arguments ev_Position {E}.
Arguments ev_Reference {E}. Arguments ev_Finality {E}. Arguments ev_SourceTime {E}.
Arguments ev_SourceTimeKnown {E}. Arguments ev_ReceivedAt {E}.
Arguments ev_Reverts {E}. Arguments ev_Data {E}.

(** [event.Data == nil || event.Data.EventKind() == ""]. *)
Definition event_data_missing {E} `{EventData E} (data : option E) : Prop :=
  match data with None => True | Some d => EventKind d = "" end.
#[export] Instance event_data_missing_dec {E} `{EventData E} (d : option E) :
  Decision (event_data_missing d).
Proof. destruct d; cbn; apply _. Defined.

Definition NewMarketEvent {E} `{EventData E} (event : MarketEvent E) : res (MarketEvent E) :=
  if decide (ev_Market event = "" \/ ev_Source event = "")
  then Err (Errorf "market and source are required") else
  _ ← SourcePosition_Validate (ev_Position event);
  _ ← SourceReference_Validate (ev_Reference event);
  if decide (Time_IsZero (ev_ReceivedAt event))
  then Err (Errorf "received timestamp is required") else
  if decide (event_data_missing (ev_Data event))
  then Err (Errorf "event data and kind are required") else
  if decide (ev_SourceTimeKnown event = true /\ Time_IsZero (ev_SourceTime event))
  then Err (Errorf "known source timestamp cannot be zero")
  else Ok event.

(** ** Snapshots *)

Definition HealthHealthy : string := "healthy".
Definition HealthDegraded : string := "degraded".

Record SnapshotMetadata := mkSnapshotMetadata {
  md_Market : MarketID; md_Source : SourceID; md_Version : Z;
  md_EventPosition : SourcePosition; md_EventReference : SourceReference;
  md_Finality : string; md_SourceTime : Time; md_SourceTimeKnown : bool;
  md_ReceivedAt : Time; md_AppliedAt : Time;
  md_Health : string; md_HealthReason : string; md_HealthChangedAt : Time;
  md_StateHash : Digest }.

Record MarketSnapshot (D : Type) := mkMarketSnapshot {
  snap_metadata : SnapshotMetadata;
  snap_data : option D }.
Arguments mkMarketSnapshot {D}.
Arguments snap_metadata {D}. Arguments snap_data {D}.

Definition snapshot_data_missing {D} `{SnapshotData D} (data : option D) : Prop :=
  match data with None => True | Some d => SnapshotKind d = "" end.
#[export] Instance snapshot_data_missing_dec {D} `{SnapshotData D} (d : option D) :
  Decision (snapshot_data_missing d).
Proof. destruct d; cbn; apply _. Defined.

Definition NewMarketSnapshot {D} `{SnapshotData D} (metadata : SnapshotMetadata)
    (data : option D) : res (MarketSnapshot D) :=
  if decide (md_Market metadata = "" \/ md_Source metadata = "")
  then Err (Errorf "market and source are required") else
  if decide (md_Version metadata = 0)
  then Err (Errorf "snapshot version must be positive") else
  _ ← SourcePosition_Validate (md_EventPosition metadata);
  _ ← SourceReference_Validate (md_EventReference metadata);
  if decide (Time_IsZero (md_ReceivedAt metadata) \/ Time_IsZero (md_AppliedAt metadata))
  then Err (Errorf "received and applied timestamps are required") else
  if decide (md_Health metadata <> HealthHealthy /\ md_Health metadata <> HealthDegraded)
  then Err (Errorf "invalid snapshot health %q") else
  if decide (Time_IsZero (md_HealthChangedAt metadata))
  then Err (Errorf "health changed timestamp is required") else
  if decide (md_Health metadata = HealthDegraded /\ md_HealthReason metadata = "")
  then Err (Errorf "degraded snapshot requires a health reason") else
  if decide (md_Health metadata = HealthHealthy /\ md_HealthReason metadata <> "")
  then Err (Errorf "healthy snapshot cannot have a health reason") else
  if decide (snapshot_data_missing data)
  then Err (Errorf "snapshot data and kind are required")
  else Ok (mkMarketSnapshot metadata data).

Definition snap_Market {D} (s : MarketSnapshot D) : MarketID := md_Market (snap_metadata s).
Definition snap_Version {D} (s : MarketSnapshot D) : Z := md_Version (snap_metadata s).

(** ** Bundles of pool snapshots along a route *)

Record SnapshotBundle (D : Type) := mkSnapshotBundle {
  bundle_route : MarketID;
  bundle_snapshots : list (MarketSnapshot D);
  bundle_version : Z;
  bundle_hash : Digest }.
Arguments mkSnapshotBundle {D}.
Arguments bundle_route {D}. Arguments bundle_snapshots {D}.
Arguments bundle_version {D}. Arguments bundle_hash {D}.

(** [binary.BigEndian.PutUint64]. *)
Definition byte_of (z : Z) : Ascii.ascii := Ascii.ascii_of_N (Z.to_N (z mod 256)).
Definition PutUint64 (v : Z) : string :=
  foldr (fun i s => String (byte_of (Z.shiftr v (8 * i))) s) "" [7; 6; 5; 4; 3; 2; 1; 0].

(** [big.Int.Bytes]: the big-endian magnitude without leading zeros. *)
Fixpoint Z_Bytes (fuel : nat) (v : Z) (acc : string) : string :=
  match fuel with
  | O => acc
  | S fuel => if decide (v = 0) then acc
              else Z_Bytes fuel (Z.shiftr v 8) (String (byte_of v) acc)
  end.
Definition Bytes (v : Z) : string :=
  Z_Bytes (S (Z.to_nat (Z.log2 (Z.abs v)))) (Z.abs v) "".

Section bundle.
Context {D : Type}.
Context (sha256 : string -> Digest).

(** The state of the loop: the markets seen, the version and what the hasher
    has been given. *)
Record bundle_scan := mkBundleScan {
  scan_seen : gset MarketID; scan_version : Z; scan_hasher : string }.

Definition bundle_step (scan : bundle_scan) (snapshot : MarketSnapshot D) : res bundle_scan :=
  let metadata := snap_metadata snapshot in
  if decide (md_Market metadata = "" \/ md_Version metadata = 0)
  then Err (Errorf "child snapshot has invalid identity") else
  if decide (md_Market metadata ∈ scan_seen scan)
  then Err (Errorf "duplicate child snapshot market %q") else
  Ok (mkBundleScan
        ({[ md_Market metadata ]} ∪ scan_seen scan)
        (if decide (scan_version scan < md_Version metadata)
         then md_Version metadata else scan_version scan)
        (scan_hasher scan +:+ md_Market metadata +:+ PutUint64 (md_Version metadata)
           +:+ md_StateHash metadata +:+ md_Health metadata)).

Definition NewSnapshotBundle (route : MarketID) (snapshots : list (MarketSnapshot D)) :
    res (SnapshotBundle D) :=
  if decide (route = "") then Err (Errorf "route market is required") else
  if decide (snapshots = []) then Err (Errorf "at least one child snapshot is required") else
  scan ← foldM bundle_step (mkBundleScan ∅ 0 route) snapshots;
  if decide (scan_version scan = 0)
  then Err (Errorf "child snapshot version must be positive") else
  Ok (mkSnapshotBundle route snapshots (scan_version scan) (sha256 (scan_hasher scan))).
End bundle.

(** ** Quotes *)

Definition ErrQuoteOutputRoundsToZero : error := Sentinel "ErrQuoteOutputRoundsToZero".

Definition QuoteModeExactInput : string := "exact_input".
Definition QuoteModeExactOutput : string := "exact_output".
Definition QuoteQualityExact : string := "exact".
Definition QuoteQualityCachedExact : string := "cached_exact".
Definition QuoteQualityProportionalEstimate : string := "proportional_estimate".
Definition QuoteFeeCost : string := "cost".
Definition QuoteFeeCredit : string := "credit".

Definition RequiresRefresh (q : string) : Prop :=
  q = QuoteQualityCachedExact \/ q = QuoteQualityProportionalEstimate.
#[export] Instance RequiresRefresh_dec q : Decision (RequiresRefresh q) :=
  ltac:(unfold RequiresRefresh; apply _).

Record QuoteFee := mkQuoteFee {
  fee_kind : string; fee_effect : string; fee_amount : TokenAmount;
  fee_includedInAmounts : bool }.

Definition NewQuoteFee (kind effect : string) (amount : TokenAmount)
    (includedInAmounts : bool) : res QuoteFee :=
  if decide (kind = "" \/ amount_token amount = "")
  then Err (Errorf "quote fee kind and amount are required") else
  if decide (effect <> QuoteFeeCost /\ effect <> QuoteFeeCredit)
  then Err (Errorf "invalid quote fee effect %q")
  else Ok (mkQuoteFee kind effect amount includedInAmounts).

Record Quote := mkQuote {
  q_Source : SourceID; q_Market : MarketID; q_SnapshotVersion : Z;
  q_SnapshotHash : Digest; q_SourcePosition : SourcePosition;
  q_ResponseHash : Digest; q_Purpose : string; q_Mode : string; q_Quality : string;
  q_AmountIn : TokenAmount; q_AmountOut : TokenAmount; q_QuotedAt : Time;
  q_fees : list QuoteFee }.

Definition quote_fee_invalid (fee : QuoteFee) : Prop :=
  fee_kind fee = "" \/ amount_token (fee_amount fee) = "" \/
  (fee_effect fee <> QuoteFeeCost /\ fee_effect fee <> QuoteFeeCredit).
#[export] Instance quote_fee_invalid_dec fee : Decision (quote_fee_invalid fee) :=
  ltac:(unfold quote_fee_invalid; apply _).

Definition with_quality (q : Quote) (quality : string) (fees : list QuoteFee) : Quote :=
  mkQuote (q_Source q) (q_Market q) (q_SnapshotVersion q) (q_SnapshotHash q)
    (q_SourcePosition q) (q_ResponseHash q) (q_Purpose q) (q_Mode q) quality
    (q_AmountIn q) (q_AmountOut q) (q_QuotedAt q) fees.

Definition NewQuote (quote : Quote) (fees : list QuoteFee) : res Quote :=
  if decide (q_Source quote = "" \/ q_Market quote = "" \/ q_SnapshotVersion quote = 0)
  then Err (Errorf "quote source, market, and snapshot version are required") else
  _ ← wrap "quote source position: %w" (SourcePosition_Validate (q_SourcePosition quote));
  if decide (q_Purpose quote = "" \/ Time_IsZero (q_QuotedAt quote) \/
             (q_Mode quote <> QuoteModeExactInput /\ q_Mode quote <> QuoteModeExactOutput))
  then Err (Errorf "quote purpose, mode, and timestamp are required") else
  let quality := if decide (q_Quality quote = "") then QuoteQualityExact
                 else q_Quality quote in
  if decide (quality <> QuoteQualityExact /\ quality <> QuoteQualityCachedExact /\
             quality <> QuoteQualityProportionalEstimate)
  then Err (Errorf "invalid quote quality %q") else
  if decide (amount_token (q_AmountIn quote) = "" \/ amount_token (q_AmountOut quote) = "")
  then Err (Errorf "quote amounts are required") else
  _ ← foldM (fun _ fee => if decide (quote_fee_invalid fee)
                          then Err (Errorf "invalid quote fee component %d")
                          else Ok tt) tt fees;
  Ok (with_quality quote quality fees).

(** ** Conversion snapshots (conversion.go) *)

Record QuoteConversionSnapshot := mkQuoteConversionSnapshot {
  qc_Provider : SourceID; qc_Input : TokenAmount; qc_Output : TokenAmount;
  qc_ReceivedAt : Time; qc_ExpiresAt : Time; qc_Signature : Digest }.

(** [t.UnixNano()] as a [uint64]; 1970 is this many nanoseconds after year 1. *)
Definition unix_epoch : Z := 62135596800 * 10 ^ 9.
Definition UnixNano (t : Time) : Z := uint64 (t - unix_epoch).

Definition NewQuoteConversionSnapshot (sha256 : string -> Digest) (provider : SourceID)
    (input output : TokenAmount) (receivedAt expiresAt : Time) :
    res QuoteConversionSnapshot :=
  if decide (provider = "" \/ IsZero input \/ IsZero output \/
             amount_token input = amount_token output \/
             Time_IsZero receivedAt \/ ~ Time_After expiresAt receivedAt)
  then Err (Errorf "quote conversion snapshot is incomplete") else
  Ok (mkQuoteConversionSnapshot provider input output receivedAt expiresAt
        (sha256 (provider +:+ amount_token input +:+ Bytes (Units input)
                 +:+ amount_token output +:+ Bytes (Units output)
                 +:+ PutUint64 (UnixNano receivedAt)))).

Definition conversion_ValidAt (s : QuoteConversionSnapshot) (at_ : Time) : Prop :=
  qc_Provider s <> "" /\ ~ IsZero (qc_Input s) /\ ~ IsZero (qc_Output s) /\
  ~ Time_After at_ (qc_ExpiresAt s).
#[export] Instance conversion_ValidAt_dec s t : Decision (conversion_ValidAt s t) :=
  ltac:(unfold conversion_ValidAt; apply _).

(** ** Lemmas *)

#[export] Hint Extern 1 (no_panic (SourcePosition_Validate _)) =>
  unfold SourcePosition_Validate; no_panic_auto : no_panic.
#[export] Hint Extern 1 (no_panic (SourceReference_Validate _)) =>
  unfold SourceReference_Validate; no_panic_auto : no_panic.

(** What a snapshot envelope guarantees to its readers. *)
Definition metadata_ok (m : SnapshotMetadata) : Prop :=
  md_Market m <> "" /\ md_Source m <> "" /\ md_Version m <> 0 /\
  (pos_Kind (md_EventPosition m) = "" -> pos_Value (md_EventPosition m) = 0) /\
  (ref_Kind (md_EventReference m) = "" <-> ref_Value (md_EventReference m) = "") /\
  md_ReceivedAt m <> 0 /\ md_AppliedAt m <> 0 /\ md_HealthChangedAt m <> 0 /\
  ((md_Health m = HealthHealthy /\ md_HealthReason m = "") \/
   (md_Health m = HealthDegraded /\ md_HealthReason m <> "")).

Lemma SourcePosition_Validate_Ok p u :
  SourcePosition_Validate p = Ok u <-> (pos_Kind p = "" -> pos_Value p = 0).
Proof.
  unfold SourcePosition_Validate. destruct u.
  destruct (decide (pos_Value p = 0)); case_decide; naive_solver.
Qed.

Lemma SourceReference_Validate_Ok r u :
  SourceReference_Validate r = Ok u <-> (ref_Kind r = "" <-> ref_Value r = "").
Proof.
  unfold SourceReference_Validate. destruct u.
  destruct (decide _) as [Hd|Hd]; split; try done;
    repeat case_bool_decide; naive_solver.
Qed.

Lemma NewMarketSnapshot_inv {D} `{SnapshotData D} m (data : option D) s :
  NewMarketSnapshot m data = Ok s ->
  s = mkMarketSnapshot m data /\ metadata_ok m /\ exists d, data = Some d /\ SnapshotKind d <> "".
Proof.
  unfold NewMarketSnapshot. intros Hs. res_inv.
  rewrite SourcePosition_Validate_Ok in Hx. rewrite SourceReference_Validate_Ok in Hx0.
  unfold Time_IsZero, metadata_ok in *. destruct data as [d|]; cbn in *; [|naive_solver].
  assert (md_Health m = HealthHealthy \/ md_Health m = HealthDegraded) as Hh.
  { destruct (decide (md_Health m = HealthHealthy)); [by left|right].
    by destruct (decide (md_Health m = HealthDegraded)); [|naive_solver]. }
  destruct (decide (md_HealthReason m = "")); naive_solver.
Qed.

Lemma NewMarketSnapshot_Ok {D} `{SnapshotData D} m (d : D) :
  metadata_ok m -> SnapshotKind d <> "" ->
  NewMarketSnapshot m (Some d) = Ok (mkMarketSnapshot m (Some d)).
Proof.
  unfold metadata_ok, NewMarketSnapshot, Time_IsZero.
  intros (? & ? & ? & Hp & Hr & ? & ? & ? & Hh) Hk.
  rewrite !decide_False by tauto.
  rewrite <- (SourcePosition_Validate_Ok _ tt) in Hp. rewrite Hp. cbn [mbind res_bind].
  rewrite <- (SourceReference_Validate_Ok _ tt) in Hr. rewrite Hr. cbn [mbind res_bind].
  assert (HealthHealthy <> HealthDegraded) by done.
  by rewrite !decide_False by (cbn; first [tauto | intuition congruence]).
Qed.

Section bundle_proofs.
Context {D : Type}.
Implicit Types (s : MarketSnapshot D) (l k : list (MarketSnapshot D)).

(** The version of a bundle: the largest child version. *)
Definition max_version (l : list (MarketSnapshot D)) : Z :=
  foldr (fun s => Z.max (snap_Version s)) 0 l.

Definition children_ok (l : list (MarketSnapshot D)) : Prop :=
  Forall (fun s => snap_Market s <> "" /\ snap_Version s <> 0) l /\
  NoDup (snap_Market <$> l).

Lemma max_version_cons s l :
  max_version (s :: l) = Z.max (snap_Version s) (max_version l).
Proof. done. Qed.

Lemma max_version_nonneg l : 0 <= max_version l.
Proof. induction l; [done|]. rewrite max_version_cons. lia. Qed.

Lemma max_version_snoc l s : max_version (l ++ [s]) = Z.max (max_version l) (snap_Version s).
Proof.
  induction l as [|t l IH]; [cbn; lia|].
  rewrite <- app_comm_cons, !max_version_cons. lia.
Qed.

Lemma max_version_ge l s : s ∈ l -> snap_Version s <= max_version l.
Proof. induction 1; rewrite max_version_cons; lia. Qed.

Definition scan_inv (route : MarketID) (l : list (MarketSnapshot D)) (scan : bundle_scan) : Prop :=
  children_ok l /\ scan_seen scan = list_to_set (snap_Market <$> l) /\
  scan_version scan = max_version l.

Lemma children_ok_snoc l s :
  children_ok (l ++ [s]) <->
  children_ok l /\ snap_Market s <> "" /\ snap_Version s <> 0 /\
  snap_Market s ∉ (snap_Market <$> l).
Proof.
  unfold children_ok. rewrite Forall_app, Forall_singleton, fmap_app.
  rewrite NoDup_app. pose proof (NoDup_singleton (snap_Market s)). set_solver.
Qed.

Lemma bundle_step_Ok route l scan s scan' :
  scan_inv route l scan -> bundle_step scan s = Ok scan' -> scan_inv route (l ++ [s]) scan'.
Proof.
  intros (Hc & Hseen & Hv). unfold bundle_step. intros H. res_inv. subst scan'.
  rewrite Hseen, elem_of_list_to_set in Hc1.
  split_and!; cbn [scan_seen scan_version].
  - apply children_ok_snoc. unfold snap_Market, snap_Version. tauto.
  - rewrite Hseen, fmap_app. unfold snap_Market at 3. set_solver.
  - rewrite max_version_snoc, Hv. unfold snap_Version. case_decide; lia.
Qed.

Lemma bundle_step_complete route l scan s :
  scan_inv route l scan -> children_ok (l ++ [s]) -> exists scan', bundle_step scan s = Ok scan'.
Proof.
  intros (Hc & Hseen & Hv). rewrite children_ok_snoc. unfold bundle_step.
  unfold snap_Market, snap_Version. intros (_ & ? & ? & Hn). rewrite decide_False by tauto.
  rewrite decide_False; [by eexists|]. by rewrite Hseen, elem_of_list_to_set.
Qed.

Lemma children_ok_app_l l k : children_ok (l ++ k) -> children_ok l.
Proof.
  unfold children_ok. rewrite Forall_app, fmap_app, NoDup_app. tauto.
Qed.

Lemma bundle_scan_complete route l k scan :
  scan_inv route l scan -> children_ok (l ++ k) -> exists scan', foldM bundle_step scan k = Ok scan'.
Proof.
  revert l scan. induction k as [|s k IH]; intros l scan Hinv Hok; [by eexists|].
  assert (l ++ s :: k = (l ++ [s]) ++ k) as Heq by by rewrite <- app_assoc.
  rewrite Heq in Hok.
  destruct (bundle_step_complete route l scan s Hinv) as [scan' Hs];
    [by eapply children_ok_app_l|].
  cbn. rewrite Hs. cbn. eapply IH; [by eapply bundle_step_Ok|done].
Qed.

Lemma bundle_scan_inv route l scan :
  foldM bundle_step (mkBundleScan ∅ 0 route) l = Ok scan -> scan_inv route l scan.
Proof.
  apply (foldM_inv_prefix _ (scan_inv route)).
  - split_and!; [|done|done]. by split; [constructor|apply NoDup_nil_2].
  - intros dn a rest s s' _ Hi Hs. by eapply bundle_step_Ok.
Qed.

Lemma max_version_pos l : children_ok l -> l <> [] ->
  Forall (fun s => 0 <= snap_Version s) l -> max_version l <> 0.
Proof.
  intros [Hc _] Hl Hp. destruct l as [|s l]; [done|].
  inversion Hc; inversion Hp; subst.
  rewrite max_version_cons. lia.
Qed.

Lemma NewSnapshotBundle_inv sha256 route l b :
  NewSnapshotBundle sha256 route l = Ok b ->
  bundle_route b = route /\ bundle_snapshots b = l /\ route <> "" /\ l <> [] /\
  children_ok l /\ bundle_version b = max_version l /\ bundle_version b <> 0.
Proof.
  unfold NewSnapshotBundle. intros H. res_inv.
  apply bundle_scan_inv in Hx as (Hok & _ & Hv). subst. cbn. rewrite Hv in *. tauto.
Qed.
End bundle_proofs.

Lemma max_version_attained {D} (l : list (MarketSnapshot D)) :
  max_version l <> 0 -> exists s, s ∈ l /\ snap_Version s = max_version l.
Proof.
  induction l as [|s l IH]; [done|]. rewrite max_version_cons. intros Hne.
  destruct (Z.max_spec (snap_Version s) (max_version l)) as [[? Hm]|[? Hm]];
    rewrite Hm in *.
  - destruct IH as (t & ? & ?); [done|]. exists t. set_solver.
  - exists s. set_solver.
Qed.

(** NewSnapshotBundle accepts exactly the non-empty lists of distinct,
    identified and versioned child snapshots; the bundle keeps the children and
    its version is the largest child version. *)
Theorem NewSnapshotBundle_iff {D} (sha256 : string -> Digest) (route : MarketID)
    (l : list (MarketSnapshot D)) :
  Forall (fun s => 0 <= snap_Version s < 2 ^ 64) l ->
  (exists b, NewSnapshotBundle sha256 route l = Ok b /\ bundle_route b = route /\
     bundle_snapshots b = l /\
     (forall s, s ∈ l -> snap_Version s <= bundle_version b) /\
     (exists s, s ∈ l /\ snap_Version s = bundle_version b)) <->
  route <> "" /\ l <> [] /\ Forall (fun s => snap_Market s <> "" /\ snap_Version s <> 0) l /\
  NoDup (snap_Market <$> l).
Proof.
  intros Hrange. split.
  - intros (b & H & _). apply NewSnapshotBundle_inv in H as (_ & _ & ? & ? & [? ?] & _). tauto.
  - intros (Hr & Hl & Hok).
    assert (max_version l <> 0) as Hpos.
    { apply max_version_pos; [done..|]. eapply Forall_impl; [done|]. cbn. lia. }
    destruct (bundle_scan_complete route [] l (mkBundleScan ∅ 0 route)) as [scan Hscan];
      [split_and!; [split; [constructor|apply NoDup_nil_2]|done|done]|done|].
    pose proof (bundle_scan_inv route l scan Hscan) as (_ & _ & Hv).
    eexists. unfold NewSnapshotBundle. rewrite !decide_False by done.
    rewrite Hscan. cbn [mbind res_bind]. rewrite decide_False by congruence.
    split_and!; [done..| |]; cbn [bundle_version]; rewrite Hv.
    + intros s Hs. by apply max_version_ge.
    + by apply max_version_attained.
Qed.

(** ** Quotes *)

Definition quote_ok (q : Quote) : Prop :=
  q_Source q <> "" /\ q_Market q <> "" /\ q_SnapshotVersion q <> 0 /\ q_Purpose q <> "" /\
  q_QuotedAt q <> 0 /\ (q_Mode q = QuoteModeExactInput \/ q_Mode q = QuoteModeExactOutput) /\
  (q_Quality q = QuoteQualityExact \/ RequiresRefresh (q_Quality q)) /\
  amount_token (q_AmountIn q) <> "" /\ amount_token (q_AmountOut q) <> "" /\
  Forall (fun f => ~ quote_fee_invalid f) (q_fees q).

Lemma fees_loop_Ok fees u :
  foldM (fun _ fee => if decide (quote_fee_invalid fee)
                      then Err (Errorf "invalid quote fee component %d")
                      else Ok tt) tt fees = Ok u ->
  Forall (fun f => ~ quote_fee_invalid f) fees.
Proof.
  apply (foldM_inv_prefix _ (fun l _ => Forall (fun f => ~ quote_fee_invalid f) l)).
  - constructor.
  - intros dn a rest s s' _ Hi Hs. res_inv. apply Forall_app. auto.
Qed.

Lemma NewQuote_inv quote fees q :
  NewQuote quote fees = Ok q ->
  quote_ok q /\ exists quality, q = with_quality quote quality fees /\
    (q_Quality quote = quality \/ q_Quality quote = "" /\ quality = QuoteQualityExact).
Proof.
  unfold NewQuote. intros H. res_inv. apply fees_loop_Ok in Hx0. subst q.
  unfold Time_IsZero in *.
  assert (forall m : string, m = QuoteModeExactInput \/ m = QuoteModeExactOutput \/
    (m <> QuoteModeExactInput /\ m <> QuoteModeExactOutput)) as Hm.
  { intros m. destruct (decide (m = QuoteModeExactInput)), (decide (m = QuoteModeExactOutput));
      tauto. }
  specialize (Hm (q_Mode quote)).
  split.
  - unfold quote_ok, RequiresRefresh. cbn.
    split_and!; try tauto.
    repeat case_decide; try tauto.
    destruct (decide (q_Quality quote = QuoteQualityExact)); [tauto|].
    destruct (decide (q_Quality quote = QuoteQualityCachedExact)); [tauto|].
    destruct (decide (q_Quality quote = QuoteQualityProportionalEstimate)); tauto.
  - eexists. split; [done|]. case_decide; tauto.
Qed.

(** ** Witnesses *)

Module QuoteWitness.
#[local] Instance bool_data : SnapshotData bool := fun _ => "bool".
Definition child (m : string) (v : Z) : MarketSnapshot bool :=
  mkMarketSnapshot (mkSnapshotMetadata m "src" v (mkSourcePosition "" 0)
    (mkSourceReference "" "") "" 0 false 1 1 HealthHealthy "" 1 "h") (Some true).

Lemma bundle_witness :
  exists b, NewSnapshotBundle (fun s => s) "route" [child "a" 3; child "b" 7] = Ok b /\
    bundle_version b = 7.
Proof.
  destruct (proj2 (NewSnapshotBundle_iff (fun s => s) "route" [child "a" 3; child "b" 7]
    ltac:(repeat constructor; cbn; lia))) as (b & Hb & _).
  - split_and!; [done|done|repeat constructor; done|].
    apply NoDup_cons. split; [|apply NoDup_singleton].
    intros H. apply list_elem_of_singleton in H. discriminate H.
  - exists b. split; [exact Hb|]. vm_compute in Hb. injection Hb as <-. reflexivity.
Defined.
End QuoteWitness.
