(* ===== verification/Registry.v ===== *)
(** * The market registry (src/domain/market/registry.go, entities.go)

    A catalog is validated entity by entity into maps; a registry that
    [NewRegistry] returns is referentially closed and its paths are
    continuous walks through pools of one chain. *)
From S2P Require Import Prelude Amount.

Record Chain := mkChain { Chain_ID : ChainID }.
Record Venue := mkVenue { Venue_ID : VenueID }.
Record Pair := mkPair {
  Pair_ID : PairID; Pair_BaseAsset : AssetID; Pair_QuoteAsset : AssetID }.
Record Pool := mkPool {
  Pool_ID : PoolID; Pool_Venue : VenueID; Pool_Chain : ChainID;
  Pool_Tokens : list TokenID; Pool_Adapter : string }.
Record Hop := mkHop { Hop_Pool : PoolID; Hop_TokenIn : TokenID; Hop_TokenOut : TokenID }.
Record Path := mkPath { Path_ID : PathID; Path_Chain : ChainID; Path_Hops : list Hop }.
Record Market := mkMarket {
  Market_ID : MarketID; Market_Pair : PairID; Market_Chain : ChainID;
  Market_Path : PathID; Market_BaseToken : TokenID; Market_QuoteToken : TokenID }.
Record Catalog := mkCatalog {
  cat_Chains : list Chain; cat_Assets : list Asset; cat_Tokens : list Token;
  cat_Venues : list Venue; cat_Pairs : list Pair; cat_Pools : list Pool;
  cat_Paths : list Path; cat_Markets : list Market }.

Record Registry := mkRegistry {
  reg_chains : gmap ChainID Chain; reg_assets : gmap AssetID Asset;
  reg_tokens : gmap TokenID Token; reg_venues : gmap VenueID Venue;
  reg_pairs : gmap PairID Pair; reg_pools : gmap PoolID Pool;
  reg_paths : gmap PathID Path; reg_markets : gmap MarketID Market }.

Definition Registry_empty : Registry := mkRegistry ∅ ∅ ∅ ∅ ∅ ∅ ∅ ∅.

Definition set_chains r m := mkRegistry m (reg_assets r) (reg_tokens r) (reg_venues r)
  (reg_pairs r) (reg_pools r) (reg_paths r) (reg_markets r).
Definition set_assets r m := mkRegistry (reg_chains r) m (reg_tokens r) (reg_venues r)
  (reg_pairs r) (reg_pools r) (reg_paths r) (reg_markets r).
Definition set_tokens r m := mkRegistry (reg_chains r) (reg_assets r) m (reg_venues r)
  (reg_pairs r) (reg_pools r) (reg_paths r) (reg_markets r).
Definition set_venues r m := mkRegistry (reg_chains r) (reg_assets r) (reg_tokens r) m
  (reg_pairs r) (reg_pools r) (reg_paths r) (reg_markets r).
Definition set_pairs r m := mkRegistry (reg_chains r) (reg_assets r) (reg_tokens r)
  (reg_venues r) m (reg_pools r) (reg_paths r) (reg_markets r).
Definition set_pools r m := mkRegistry (reg_chains r) (reg_assets r) (reg_tokens r)
  (reg_venues r) (reg_pairs r) m (reg_paths r) (reg_markets r).
Definition set_paths r m := mkRegistry (reg_chains r) (reg_assets r) (reg_tokens r)
  (reg_venues r) (reg_pairs r) (reg_pools r) m (reg_markets r).
Definition set_markets r m := mkRegistry (reg_chains r) (reg_assets r) (reg_tokens r)
  (reg_venues r) (reg_pairs r) (reg_pools r) (reg_paths r) m.

(** The loop bodies of [NewRegistry], in its order. *)
Definition addChain (r : Registry) (chain : Chain) : res Registry :=
  if decide (Chain_ID chain = "") then Err (Errorf "chain ID is required") else
  if decide (is_Some (reg_chains r !! Chain_ID chain))
  then Err (Errorf "duplicate chain %q")
  else Ok (set_chains r (<[Chain_ID chain := chain]> (reg_chains r))).

Definition addAsset (r : Registry) (asset : Asset) : res Registry :=
  if decide (Asset_ID asset = "" \/ Asset_Symbol asset = "")
  then Err (Errorf "asset ID and symbol are required") else
  if decide (is_Some (reg_assets r !! Asset_ID asset))
  then Err (Errorf "duplicate asset %q")
  else Ok (set_assets r (<[Asset_ID asset := asset]> (reg_assets r))).

Definition addToken (r : Registry) (token : Token) : res Registry :=
  if decide (Token_ID token = "" \/ Token_Symbol token = "")
  then Err (Errorf "token ID and symbol are required") else
  if decide (is_Some (reg_tokens r !! Token_ID token))
  then Err (Errorf "duplicate token %q") else
  if decide (reg_assets r !! Token_Asset token = None)
  then Err (Errorf "token %q references unknown asset %q") else
  if decide (reg_chains r !! Token_Chain token = None)
  then Err (Errorf "token %q references unknown chain %q")
  else Ok (set_tokens r (<[Token_ID token := token]> (reg_tokens r))).

Definition addVenue (r : Registry) (venue : Venue) : res Registry :=
  if decide (Venue_ID venue = "") then Err (Errorf "venue ID is required") else
  if decide (is_Some (reg_venues r !! Venue_ID venue))
  then Err (Errorf "duplicate venue %q")
  else Ok (set_venues r (<[Venue_ID venue := venue]> (reg_venues r))).

Definition addPair (r : Registry) (pair : Pair) : res Registry :=
  if decide (Pair_ID pair = "") then Err (Errorf "pair ID is required") else
  if decide (is_Some (reg_pairs r !! Pair_ID pair))
  then Err (Errorf "duplicate pair %q") else
  if decide (Pair_BaseAsset pair = Pair_QuoteAsset pair)
  then Err (Errorf "pair %q must use distinct assets") else
  if decide (reg_assets r !! Pair_BaseAsset pair = None)
  then Err (Errorf "pair %q references unknown base asset %q") else
  if decide (reg_assets r !! Pair_QuoteAsset pair = None)
  then Err (Errorf "pair %q references unknown quote asset %q")
  else Ok (set_pairs r (<[Pair_ID pair := pair]> (reg_pairs r))).

(** The token loop of [addPool]; its state is the set [seen]. *)
Definition addPool_token (r : Registry) (pool : Pool) (seen : gset TokenID)
    (tokenID : TokenID) : res (gset TokenID) :=
  match reg_tokens r !! tokenID with
  | None => Err (Errorf "pool %q references unknown token %q")
  | Some token =>
      if decide (Token_Chain token <> Pool_Chain pool)
      then Err (Errorf "pool %q token %q belongs to chain %q") else
      if decide (tokenID ∈ seen) then Err (Errorf "pool %q repeats token %q")
      else Ok ({[ tokenID ]} ∪ seen)
  end.

Definition addPool (r : Registry) (pool : Pool) : res Registry :=
  if decide (Pool_ID pool = "" \/ Pool_Adapter pool = "")
  then Err (Errorf "pool ID and adapter are required") else
  if decide (is_Some (reg_pools r !! Pool_ID pool))
  then Err (Errorf "duplicate pool %q") else
  if decide (reg_venues r !! Pool_Venue pool = None)
  then Err (Errorf "pool %q references unknown venue %q") else
  if decide (reg_chains r !! Pool_Chain pool = None)
  then Err (Errorf "pool %q references unknown chain %q") else
  if decide (length (Pool_Tokens pool) < 2)%nat
  then Err (Errorf "pool %q requires at least two tokens") else
  _ ← foldM (addPool_token r pool) ∅ (Pool_Tokens pool);
  Ok (set_pools r (<[Pool_ID pool := pool]> (reg_pools r))).

Definition poolContains (pool : Pool) (token : TokenID) : Prop :=
  token ∈ Pool_Tokens pool.
#[export] Instance poolContains_dec pool token : Decision (poolContains pool token) :=
  ltac:(unfold poolContains; apply _).

(** The loop state is the output token of the hop before, if there is one. *)
Definition addPath_hop (r : Registry) (path : Path) (previous : option TokenID) (hop : Hop) :
    res (option TokenID) :=
  match reg_pools r !! Hop_Pool hop with
  | None => Err (Errorf "path %q references unknown pool %q")
  | Some pool =>
      if decide (Pool_Chain pool <> Path_Chain path)
      then Err (Errorf "path %q pool %q belongs to chain %q") else
      if decide (Hop_TokenIn hop = Hop_TokenOut hop \/ ~ poolContains pool (Hop_TokenIn hop) \/
                 ~ poolContains pool (Hop_TokenOut hop))
      then Err (Errorf "path %q has invalid hop %d") else
      match previous with
      | Some tokenOut =>
          if decide (tokenOut <> Hop_TokenIn hop)
          then Err (Errorf "path %q is discontinuous at hop %d")
          else Ok (Some (Hop_TokenOut hop))
      | None => Ok (Some (Hop_TokenOut hop))
      end
  end.

Definition addPath (r : Registry) (path : Path) : res Registry :=
  if decide (Path_ID path = "") then Err (Errorf "path ID is required") else
  if decide (is_Some (reg_paths r !! Path_ID path))
  then Err (Errorf "duplicate path %q") else
  if decide (reg_chains r !! Path_Chain path = None)
  then Err (Errorf "path %q references unknown chain %q") else
  if decide (Path_Hops path = []) then Err (Errorf "path %q requires at least one hop") else
  _ ← foldM (addPath_hop r path) None (Path_Hops path);
  Ok (set_paths r (<[Path_ID path := path]> (reg_paths r))).

Definition addMarket (r : Registry) (candidate : Market) : res Registry :=
  if decide (Market_ID candidate = "") then Err (Errorf "market ID is required") else
  if decide (is_Some (reg_markets r !! Market_ID candidate))
  then Err (Errorf "duplicate market %q") else
  match reg_pairs r !! Market_Pair candidate with
  | None => Err (Errorf "market %q references unknown pair %q")
  | Some pair_ =>
  match reg_paths r !! Market_Path candidate with
  | None => Err (Errorf "market %q references unknown path %q")
  | Some path =>
  if decide (Market_Chain candidate <> Path_Chain path)
  then Err (Errorf "market %q and path %q use different chains") else
  match reg_tokens r !! Market_BaseToken candidate, reg_tokens r !! Market_QuoteToken candidate with
  | Some base, Some quote =>
  if decide (Token_Chain base <> Market_Chain candidate \/ Token_Chain quote <> Market_Chain candidate)
  then Err (Errorf "market %q endpoint tokens must belong to chain %q") else
  if decide (Token_Asset base <> Pair_BaseAsset pair_ \/ Token_Asset quote <> Pair_QuoteAsset pair_)
  then Err (Errorf "market %q endpoint assets do not match pair %q") else
  match Path_Hops path !! 0%nat, last (Path_Hops path) with
  | Some first, Some final =>
  if decide (Hop_TokenIn first <> Market_BaseToken candidate \/
             Hop_TokenOut final <> Market_QuoteToken candidate)
  then Err (Errorf "market %q path endpoints do not match base and quote tokens")
  else Ok (set_markets r (<[Market_ID candidate := candidate]> (reg_markets r)))
  | _, _ => Panic "index out of range"
  end
  | _, _ => Err (Errorf "market %q references unknown endpoint tokens")
  end end end.

Definition NewRegistry (catalog : Catalog) : res Registry :=
  r ← foldM addChain Registry_empty (cat_Chains catalog);
  r ← foldM addAsset r (cat_Assets catalog);
  r ← foldM addToken r (cat_Tokens catalog);
  r ← foldM addVenue r (cat_Venues catalog);
  r ← foldM addPair r (cat_Pairs catalog);
  r ← foldM addPool r (cat_Pools catalog);
  r ← foldM addPath r (cat_Paths catalog);
  foldM addMarket r (cat_Markets catalog).

(** ** Well-formed registries *)

Definition token_wf (r : Registry) (id : TokenID) (t : Token) : Prop :=
  Token_ID t = id /\ id <> "" /\ is_Some (reg_assets r !! Token_Asset t) /\
  is_Some (reg_chains r !! Token_Chain t).

Definition pair_wf (r : Registry) (id : PairID) (p : Pair) : Prop :=
  Pair_ID p = id /\ Pair_BaseAsset p <> Pair_QuoteAsset p /\
  is_Some (reg_assets r !! Pair_BaseAsset p) /\ is_Some (reg_assets r !! Pair_QuoteAsset p).

Definition pool_wf (r : Registry) (id : PoolID) (p : Pool) : Prop :=
  Pool_ID p = id /\ is_Some (reg_venues r !! Pool_Venue p) /\
  is_Some (reg_chains r !! Pool_Chain p) /\ (2 <= length (Pool_Tokens p))%nat /\
  NoDup (Pool_Tokens p) /\
  forall t, t ∈ Pool_Tokens p ->
    exists token, reg_tokens r !! t = Some token /\ Token_Chain token = Pool_Chain p.

Definition hop_wf (r : Registry) (chain : ChainID) (h : Hop) : Prop :=
  Hop_TokenIn h <> Hop_TokenOut h /\
  exists pool, reg_pools r !! Hop_Pool h = Some pool /\ Pool_Chain pool = chain /\
    Hop_TokenIn h ∈ Pool_Tokens pool /\ Hop_TokenOut h ∈ Pool_Tokens pool.

(** Consecutive hops meet at a token. *)
Definition continuous (hops : list Hop) : Prop :=
  forall i h h', hops !! i = Some h -> hops !! S i = Some h' -> Hop_TokenOut h = Hop_TokenIn h'.

Definition path_wf (r : Registry) (id : PathID) (p : Path) : Prop :=
  Path_ID p = id /\ is_Some (reg_chains r !! Path_Chain p) /\ Path_Hops p <> [] /\
  Forall (hop_wf r (Path_Chain p)) (Path_Hops p) /\ continuous (Path_Hops p).

Definition market_wf (r : Registry) (id : MarketID) (m : Market) : Prop :=
  Market_ID m = id /\
  exists pair path base quote first final,
    reg_pairs r !! Market_Pair m = Some pair /\ reg_paths r !! Market_Path m = Some path /\
    reg_tokens r !! Market_BaseToken m = Some base /\
    reg_tokens r !! Market_QuoteToken m = Some quote /\
    Path_Chain path = Market_Chain m /\ Token_Chain base = Market_Chain m /\
    Token_Chain quote = Market_Chain m /\ Token_Asset base = Pair_BaseAsset pair /\
    Token_Asset quote = Pair_QuoteAsset pair /\
    head (Path_Hops path) = Some first /\ last (Path_Hops path) = Some final /\
    Hop_TokenIn first = Market_BaseToken m /\ Hop_TokenOut final = Market_QuoteToken m.

Record registry_wf (r : Registry) : Prop := {
  wf_tokens : map_Forall (token_wf r) (reg_tokens r);
  wf_pairs : map_Forall (pair_wf r) (reg_pairs r);
  wf_pools : map_Forall (pool_wf r) (reg_pools r);
  wf_paths : map_Forall (path_wf r) (reg_paths r);
  wf_markets : map_Forall (market_wf r) (reg_markets r) }.

(** A registry only grows. *)
Record extends (r s : Registry) : Prop := {
  ext_chains : reg_chains r ⊆ reg_chains s; ext_assets : reg_assets r ⊆ reg_assets s;
  ext_tokens : reg_tokens r ⊆ reg_tokens s; ext_venues : reg_venues r ⊆ reg_venues s;
  ext_pairs : reg_pairs r ⊆ reg_pairs s; ext_pools : reg_pools r ⊆ reg_pools s;
  ext_paths : reg_paths r ⊆ reg_paths s; ext_markets : reg_markets r ⊆ reg_markets s }.

(** ** Lemmas *)

Section mono.
Context (r s : Registry) (Hext : extends r s).

Lemma is_Some_weaken {A} (m m' : gmap string A) k :
  m ⊆ m' -> is_Some (m !! k) -> is_Some (m' !! k).
Proof. intros Hsub [v Hv]. exists v. by eapply lookup_weaken. Qed.

#[local] Hint Resolve is_Some_weaken lookup_weaken ext_chains ext_assets ext_tokens
  ext_venues ext_pairs ext_pools ext_paths ext_markets Hext : core.

Lemma token_wf_mono id t : token_wf r id t -> token_wf s id t.
Proof using Hext. unfold token_wf. intros (? & ? & ? & ?). eauto 8. Qed.

Lemma pair_wf_mono id p : pair_wf r id p -> pair_wf s id p.
Proof using Hext. unfold pair_wf. intros (? & ? & ? & ?). eauto 8. Qed.

Lemma pool_wf_mono id p : pool_wf r id p -> pool_wf s id p.
Proof using Hext.
  unfold pool_wf. intros (? & ? & ? & ? & ? & Ht). split_and!; eauto.
  intros t (token & ? & ?)%Ht. eauto.
Qed.

Lemma hop_wf_mono c h : hop_wf r c h -> hop_wf s c h.
Proof using Hext. unfold hop_wf. intros (? & pool & ? & ? & ? & ?). eauto 10. Qed.

Lemma path_wf_mono id p : path_wf r id p -> path_wf s id p.
Proof using Hext.
  unfold path_wf. intros (? & ? & ? & Hh & ?). split_and!; eauto.
  eapply Forall_impl; [exact Hh|]. intros. by apply hop_wf_mono.
Qed.

Lemma market_wf_mono id m : market_wf r id m -> market_wf s id m.
Proof using Hext.
  unfold market_wf.
  intros (? & pr & path & base & quote & first & final & H). split; [done|].
  exists pr, path, base, quote, first, final. intuition eauto.
Qed.
End mono.

(** Adding a fresh entry, of whatever kind, keeps the rest well formed. *)
Lemma registry_wf_extends r s :
  extends r s -> registry_wf r ->
  (forall k v, reg_tokens s !! k = Some v -> reg_tokens r !! k = Some v \/ token_wf s k v) ->
  (forall k v, reg_pairs s !! k = Some v -> reg_pairs r !! k = Some v \/ pair_wf s k v) ->
  (forall k v, reg_pools s !! k = Some v -> reg_pools r !! k = Some v \/ pool_wf s k v) ->
  (forall k v, reg_paths s !! k = Some v -> reg_paths r !! k = Some v \/ path_wf s k v) ->
  (forall k v, reg_markets s !! k = Some v -> reg_markets r !! k = Some v \/ market_wf s k v) ->
  registry_wf s.
Proof.
  intros Hext [Ht Hp Hl Ha Hm] Ht' Hp' Hl' Ha' Hm'. split; intros k v Hv.
  - destruct (Ht' k v Hv); [eapply token_wf_mono|]; eauto.
  - destruct (Hp' k v Hv); [eapply pair_wf_mono|]; eauto.
  - destruct (Hl' k v Hv); [eapply pool_wf_mono|]; eauto.
  - destruct (Ha' k v Hv); [eapply path_wf_mono|]; eauto.
  - destruct (Hm' k v Hv); [eapply market_wf_mono|]; eauto.
Qed.

Lemma insert_lookup_or {A} (m : gmap string A) i x k v (P : string -> A -> Prop) :
  P i x -> <[i := x]> m !! k = Some v -> m !! k = Some v \/ P k v.
Proof.
  intros HP. destruct (decide (i = k)) as [->|Hne].
  - rewrite lookup_insert_eq. intros [= <-]. auto.
  - rewrite lookup_insert_ne by done. auto.
Qed.

Lemma not_is_Some_insert {A} (m : gmap string A) k x :
  ~ is_Some (m !! k) -> m ⊆ <[k := x]> m.
Proof. intros H. apply insert_subseteq. by apply eq_None_not_Some. Qed.

Lemma not_None_is_Some {A} (o : option A) : o <> None -> is_Some o.
Proof. destruct o; [by eexists|done]. Qed.

Ltac extends_tac := split; cbn; solve [done | by apply not_is_Some_insert].
Ltac registry_step r :=
  apply (registry_wf_extends r); [extends_tac|done|..]; cbn;
  [intros ? ? ?..]; try (by left); eapply insert_lookup_or; eauto.
#[local] Hint Resolve not_None_is_Some : core.

Lemma addChain_wf r c r' : registry_wf r -> addChain r c = Ok r' -> registry_wf r'.
Proof.
  intros Hr. unfold addChain. intros H. res_inv. subst r'. registry_step r.
Qed.

Lemma addAsset_wf r a r' : registry_wf r -> addAsset r a = Ok r' -> registry_wf r'.
Proof.
  intros Hr. unfold addAsset. intros H. res_inv. subst r'. registry_step r.
Qed.

Lemma addVenue_wf r v r' : registry_wf r -> addVenue r v = Ok r' -> registry_wf r'.
Proof.
  intros Hr. unfold addVenue. intros H. res_inv. subst r'. registry_step r.
Qed.

Lemma addToken_wf r t r' : registry_wf r -> addToken r t = Ok r' -> registry_wf r'.
Proof.
  intros Hr. unfold addToken. intros H. res_inv. subst r'. registry_step r.
  unfold token_wf. cbn. naive_solver.
Qed.

Lemma addPair_wf r p r' : registry_wf r -> addPair r p = Ok r' -> registry_wf r'.
Proof.
  intros Hr. unfold addPair. intros H. res_inv. subst r'. registry_step r.
  unfold pair_wf. cbn. naive_solver.
Qed.

Lemma addPool_tokens_inv r pool seen tokens seen' :
  foldM (addPool_token r pool) seen tokens = Ok seen' ->
  NoDup tokens /\ (forall t, t ∈ tokens -> t ∉ seen) /\
  forall t, t ∈ tokens ->
    exists token, reg_tokens r !! t = Some token /\ Token_Chain token = Pool_Chain pool.
Proof.
  revert seen. induction tokens as [|t tokens IH]; intros seen; cbn.
  { intros _. split_and!; [constructor| |]; intros t Ht; by apply elem_of_nil in Ht. }
  rewrite bind_Ok. intros (seen1 & H1 & H2). unfold addPool_token in H1. res_inv.
  subst. apply IH in H2 as (Hnd & Hseen & Htok). apply dec_stable in Hc.
  split_and!; [constructor; set_solver|set_solver|].
  intros t' Ht'. apply elem_of_cons in Ht' as [->|Ht']; eauto.
Qed.

Lemma addPool_wf r p r' : registry_wf r -> addPool r p = Ok r' -> registry_wf r'.
Proof.
  intros Hr. unfold addPool. intros H. res_inv. subst r'.
  apply addPool_tokens_inv in Hx as (Hnd & _ & Ht). registry_step r.
  unfold pool_wf. cbn. split_and!; eauto. lia.
Qed.

Lemma addPath_hops_inv r path hops previous final :
  foldM (addPath_hop r path) previous hops = Ok final ->
  Forall (hop_wf r (Path_Chain path)) hops /\ continuous hops /\
  (forall t h, previous = Some t -> head hops = Some h -> Hop_TokenIn h = t).
Proof.
  revert previous. induction hops as [|h hops IH]; intros previous; cbn.
  { intros _. split_and!; [constructor|by intros i ? ? ?|done]. }
  rewrite bind_Ok. intros (t1 & H1 & H2). apply IH in H2 as (Hf & Hcont & Hhead).
  assert (t1 = Some (Hop_TokenOut h)) as -> by (unfold addPath_hop in H1; res_inv; done).
  split_and!.
  - constructor; [|done]. unfold addPath_hop in H1. destruct (reg_pools r !! _) as [pool|] eqn:Hp; [|done].
    res_inv; (split; [tauto|]; exists pool; apply dec_stable in Hc; unfold poolContains in *;
      split_and!; [done..| |]; apply dec_stable; tauto).
  - intros [|i] h1 h2 Ha Hb; cbn in *.
    + simplify_eq. destruct hops as [|h3 hops]; [done|]. cbn in *. simplify_eq.
      symmetry. by apply Hhead.
    + by eapply Hcont.
  - intros t h1 -> [= <-]. unfold addPath_hop in H1. res_inv. symmetry. by apply dec_stable.
Qed.

Lemma addPath_wf r p r' : registry_wf r -> addPath r p = Ok r' -> registry_wf r'.
Proof.
  intros Hr. unfold addPath. intros H. res_inv. subst r'.
  apply addPath_hops_inv in Hx as (Hf & Hcont & _). registry_step r.
  unfold path_wf. cbn. split_and!; eauto.
Qed.

Lemma addMarket_wf r m r' : registry_wf r -> addMarket r m = Ok r' -> registry_wf r'.
Proof.
  intros Hr. unfold addMarket. intros H. res_inv. subst r'. registry_step r.
  split; [done|]. do 6 eexists. cbn.
  rewrite head_lookup. apply dec_stable in Hc1. apply Decidable.not_or in Hc2 as [Hc2 Hc2'], Hc3 as [Hc3 Hc3'], Hc4 as [Hc4 Hc4'].
  split_and!; try eassumption; try (by apply dec_stable); done.
Qed.

Lemma registry_wf_empty : registry_wf Registry_empty.
Proof. split; apply map_Forall_empty. Qed.

Lemma foldM_registry_wf {A} (f : Registry -> A -> res Registry) r l r' :
  (forall r a r', registry_wf r -> f r a = Ok r' -> registry_wf r') ->
  registry_wf r -> foldM f r l = Ok r' -> registry_wf r'.
Proof. intros Hf Hr. apply foldM_inv; [done|]. intros; eauto. Qed.

Lemma addMarket_no_panic r m : registry_wf r -> no_panic (addMarket r m).
Proof.
  intros Hr. unfold addMarket. no_panic_auto.
  all: destruct (wf_paths r Hr _ _ ltac:(eassumption)) as (_ & _ & Hne & _).
  all: destruct (Path_Hops _) as [|hp hps]; try done.
  by rewrite last_cons in *; destruct (last hps).
Qed.

#[export] Hint Extern 1 (no_panic (addChain _ _)) => unfold addChain; no_panic_auto : no_panic.
#[export] Hint Extern 1 (no_panic (addAsset _ _)) => unfold addAsset; no_panic_auto : no_panic.
#[export] Hint Extern 1 (no_panic (addToken _ _)) => unfold addToken; no_panic_auto : no_panic.
#[export] Hint Extern 1 (no_panic (addVenue _ _)) => unfold addVenue; no_panic_auto : no_panic.
#[export] Hint Extern 1 (no_panic (addPair _ _)) => unfold addPair; no_panic_auto : no_panic.
#[export] Hint Extern 1 (no_panic (addPool _ _)) =>
  unfold addPool, addPool_token; no_panic_auto : no_panic.
#[export] Hint Extern 1 (no_panic (addPath _ _)) =>
  unfold addPath, addPath_hop; no_panic_auto : no_panic.
#[export] Hint Resolve addMarket_no_panic : no_panic.

(** A stage of [NewRegistry]: it does not panic and keeps the registry well
    formed. *)
Class Stage {A} (f : Registry -> A -> res Registry) : Prop := {
  stage_wf : forall r a r', registry_wf r -> f r a = Ok r' -> registry_wf r';
  stage_no_panic : forall r a, registry_wf r -> no_panic (f r a) }.

#[export] Instance addChain_stage : Stage addChain.
Proof. split; [exact addChain_wf|intros; unfold addChain; no_panic_auto]. Qed.
#[export] Instance addAsset_stage : Stage addAsset.
Proof. split; [exact addAsset_wf|intros; unfold addAsset; no_panic_auto]. Qed.
#[export] Instance addToken_stage : Stage addToken.
Proof. split; [exact addToken_wf|intros; unfold addToken; no_panic_auto]. Qed.
#[export] Instance addVenue_stage : Stage addVenue.
Proof. split; [exact addVenue_wf|intros; unfold addVenue; no_panic_auto]. Qed.
#[export] Instance addPair_stage : Stage addPair.
Proof. split; [exact addPair_wf|intros; unfold addPair; no_panic_auto]. Qed.
#[export] Instance addPool_stage : Stage addPool.
Proof.
  split; [exact addPool_wf|intros; unfold addPool, addPool_token; no_panic_auto].
Qed.
#[export] Instance addPath_stage : Stage addPath.
Proof.
  split; [exact addPath_wf|intros; unfold addPath, addPath_hop; no_panic_auto].
Qed.
#[export] Instance addMarket_stage : Stage addMarket.
Proof. split; [exact addMarket_wf|exact addMarket_no_panic]. Qed.

(** What a run of stages promises from a well-formed registry. *)
Definition builds_wf (m : res Registry) : Prop :=
  no_panic m /\ forall r, m = Ok r -> registry_wf r.

Lemma stage_loop {A} (f : Registry -> A -> res Registry) `{!Stage f} r l :
  registry_wf r -> builds_wf (foldM f r l).
Proof.
  intros Hr. split.
  - eapply no_panic_foldM_inv; [done|apply stage_no_panic|apply stage_wf].
  - intros r'. apply foldM_registry_wf; [apply stage_wf|done].
Qed.

Lemma builds_wf_bind m (k : Registry -> res Registry) :
  builds_wf m -> (forall r, registry_wf r -> builds_wf (k r)) -> builds_wf (m ≫= k).
Proof.
  intros [Hp Hw] Hk. split.
  - apply no_panic_bind; [done|]. intros r Hr. by apply Hk, Hw.
  - intros r'. rewrite bind_Ok. intros (r & Hr & Hr'). eapply Hk; [by apply Hw|done].
Qed.

(** NewRegistry never panics, and the registry it returns is closed under its
    references: tokens, pairs, pools, paths and markets name only registered
    entities of the right chain and asset, and the hops of every path form a
    continuous walk from the market's base token to its quote token. *)
Theorem NewRegistry_wf (catalog : Catalog) :
  no_panic (NewRegistry catalog) /\
  forall r, NewRegistry catalog = Ok r -> registry_wf r.
Proof.
  change (builds_wf (NewRegistry catalog)).
  unfold NewRegistry. pose proof registry_wf_empty.
  do 7 (apply builds_wf_bind; [by apply (stage_loop _)|intros ? ?]).
  by apply (stage_loop _).
Qed.
