(* ===== verification/Arbitrage.v ===== *)
(** * Arbitrage setups, evaluations and live opportunities
    (src/domain/arbitrage/types.go, live.go, and the triggers of windows.go)

    Values are immutable: the methods that add costs, conversions or a trigger
    return a copy.  Slices and maps are copied on the way in and out, so plain
    lists and finite maps carry them. *)
From Stdlib Require Import QArith Qcanon.
From S2P Require Import Prelude Amount Quote Registry.
Local Open Scope Z_scope.

Abbreviation SetupID := string (only parsing).
Abbreviation ResearchRunID := string (only parsing).
Abbreviation StrategyID := string (only parsing).
Abbreviation EvaluationID := string (only parsing).

Record Direction := mkDirection { BuyMarket : MarketID; SellMarket : MarketID }.
#[export] Instance Direction_eq_dec : EqDecision Direction.
Proof. solve_decision. Defined.
#[export] Instance Direction_countable : Countable Direction :=
  inj_countable' (fun d => (BuyMarket d, SellMarket d)) (fun '(b, s) => mkDirection b s) ltac:(by intros []).

(** ** Setups *)

Record ArbitrageSetup := mkArbitrageSetup {
  setup_id : SetupID; setup_pair : PairID; setup_markets : list MarketID;
  setup_directions : list Direction }.

Definition setup_market (registry : Registry) (pair : PairID) (seen : gset MarketID) (marketID : MarketID) :
    res (gset MarketID) :=
  match reg_markets registry !! marketID with
  | None => Err (Errorf "setup references unknown market %q")
  | Some candidate =>
      if decide (Market_Pair candidate <> pair) then Err (Errorf "market %q does not use pair %q") else
      if decide (marketID ∈ seen) then Err (Errorf "setup repeats market %q")
      else Ok ({[ marketID ]} ∪ seen)
  end.

Definition directions_of (markets : list MarketID) : list Direction :=
  buy ← markets; sell ← markets; if decide (buy <> sell) then [mkDirection buy sell] else [].

Definition NewArbitrageSetup (id : SetupID) (pair : PairID) (markets : list MarketID)
    (registry : option Registry) : res ArbitrageSetup :=
  match registry with
  | None => Err (Errorf "setup ID, pair, and registry are required")
  | Some registry =>
      if decide (id = "" \/ pair = "") then Err (Errorf "setup ID, pair, and registry are required") else
      if decide (length markets < 2)%nat then Err (Errorf "setup requires at least two markets") else
      _ ← foldM (setup_market registry pair) ∅ markets;
      Ok (mkArbitrageSetup id pair markets (directions_of markets))
  end.

(** ** Triggers *)

Record TriggerMetadata := mkTriggerMetadata {
  tr_Market : MarketID; tr_Source : SourceID; tr_Position : SourcePosition;
  tr_Reference : SourceReference; tr_At : Time }.

Definition Trigger_Validate (t : TriggerMetadata) : res unit :=
  if decide (tr_Market t = "" \/ tr_Source t = "") then Err (Errorf "trigger market and source are required") else
  _ ← SourcePosition_Validate (tr_Position t);
  _ ← SourceReference_Validate (tr_Reference t);
  if decide (Time_IsZero (tr_At t)) then Err (Errorf "trigger timestamp is required") else Ok tt.

(** ** Evaluations *)

Record CostSnapshot := mkCostSnapshot {
  cost_ID : string; cost_Amount : AssetQuantity; cost_CapturedAt : Time }.

Definition cost_invalid (cost : CostSnapshot) : Prop :=
  cost_ID cost = "" \/ quantity_asset (cost_Amount cost) = "" \/ Time_IsZero (cost_CapturedAt cost).
#[export] Instance cost_invalid_dec c : Decision (cost_invalid c) := ltac:(unfold cost_invalid; apply _).

Section evaluation.
Context {D : Type}.

Record Evaluation := mkEvaluation {
  ev_id : EvaluationID; ev_run : ResearchRunID; ev_strategy : StrategyID; ev_configHash : string;
  ev_snapshots : list (MarketSnapshot D); ev_cost : CostSnapshot;
  ev_costs : gmap Direction CostSnapshot;
  ev_conversions : gmap (TokenID * TokenID) QuoteConversionSnapshot;
  ev_trigger : option TriggerMetadata; ev_triggeredAt : Time; ev_startedAt : Time }.

Definition evaluation_snapshot (seen : gset MarketID) (snapshot : MarketSnapshot D) : res (gset MarketID) :=
  let marketID := snap_Market snapshot in
  if decide (marketID ∈ seen) then Err (Errorf "duplicate snapshot for market %q")
  else Ok ({[ marketID ]} ∪ seen).

Definition NewEvaluation (id : EvaluationID) (run : ResearchRunID) (strategy : StrategyID)
    (configHash : string) (snapshots : list (MarketSnapshot D)) (cost : CostSnapshot)
    (triggeredAt startedAt : Time) : res Evaluation :=
  if decide (id = "" \/ run = "" \/ strategy = "" \/ configHash = "")
  then Err (Errorf "evaluation identity and config hash are required") else
  if decide (length snapshots < 2)%nat then Err (Errorf "evaluation requires at least two snapshots") else
  if decide (cost_invalid cost) then Err (Errorf "valid cost snapshot is required") else
  if decide (Time_IsZero triggeredAt \/ Time_IsZero startedAt)
  then Err (Errorf "evaluation timestamps are required") else
  _ ← foldM evaluation_snapshot ∅ snapshots;
  Ok (mkEvaluation id run strategy configHash snapshots cost ∅ ∅ None triggeredAt startedAt).

Definition CostFor (e : Evaluation) (direction : Direction) : CostSnapshot :=
  match ev_costs e !! direction with Some cost => cost | None => ev_cost e end.

(** [hasTrigger] holds exactly when a trigger was set. *)
Definition Evaluation_Trigger (e : Evaluation) : option TriggerMetadata := ev_trigger e.

Definition WithTrigger (e : Evaluation) (trigger : TriggerMetadata) : Evaluation :=
  mkEvaluation (ev_id e) (ev_run e) (ev_strategy e) (ev_configHash e) (ev_snapshots e) (ev_cost e)
    (ev_costs e) (ev_conversions e) (Some trigger) (ev_triggeredAt e) (ev_startedAt e).

Definition direction_invalid (d : Direction) : Prop :=
  BuyMarket d = "" \/ SellMarket d = "" \/ BuyMarket d = SellMarket d.
#[export] Instance direction_invalid_dec d : Decision (direction_invalid d) :=
  ltac:(unfold direction_invalid; apply _).

Definition directional_cost (e : Evaluation) (_ : unit) (entry : Direction * CostSnapshot) : res unit :=
  let '(direction, cost) := entry in
  if decide (direction_invalid direction) then Err (Errorf "directional cost has an invalid direction") else
  if decide (cost_invalid cost) then Err (Errorf "directional cost for %s -> %s is invalid") else
  if decide (quantity_asset (cost_Amount cost) <> quantity_asset (cost_Amount (ev_cost e)))
  then Err (Errorf "directional cost asset does not match common cost asset") else Ok tt.

Definition with_costs (e : Evaluation) (costs : gmap Direction CostSnapshot) : Evaluation :=
  mkEvaluation (ev_id e) (ev_run e) (ev_strategy e) (ev_configHash e) (ev_snapshots e) (ev_cost e)
    costs (ev_conversions e) (ev_trigger e) (ev_triggeredAt e) (ev_startedAt e).

Definition WithDirectionalCosts `{!RangeOrder Direction} (e : Evaluation)
    (costs : gmap Direction CostSnapshot) : res Evaluation :=
  _ ← foldM (directional_cost e) tt (range costs);
  Ok (with_costs e costs).

Definition Evaluation_Snapshot (e : Evaluation) (id : MarketID) : option (MarketSnapshot D) :=
  snd <$> list_find (fun snapshot => snap_Market snapshot = id) (ev_snapshots e).

Definition conversion_pair (s : QuoteConversionSnapshot) : TokenID * TokenID :=
  (amount_token (qc_Input s), amount_token (qc_Output s)).

Definition add_conversion (startedAt : Time) (conversions : gmap (TokenID * TokenID) QuoteConversionSnapshot)
    (snapshot : QuoteConversionSnapshot) : res (gmap (TokenID * TokenID) QuoteConversionSnapshot) :=
  if decide (~ conversion_ValidAt snapshot startedAt)
  then Err (Errorf "quote conversion snapshot is stale or invalid") else
  match conversions !! conversion_pair snapshot with
  | Some _ => Err (Errorf "duplicate quote conversion %s -> %s")
  | None => Ok (<[conversion_pair snapshot := snapshot]> conversions)
  end.

Definition WithQuoteConversions (e : Evaluation) (snapshots : list QuoteConversionSnapshot) : res Evaluation :=
  if decide (snapshots = []) then Ok e else
  conversions ← foldM (add_conversion (ev_startedAt e)) ∅ snapshots;
  Ok (mkEvaluation (ev_id e) (ev_run e) (ev_strategy e) (ev_configHash e) (ev_snapshots e) (ev_cost e)
        (ev_costs e) conversions (ev_trigger e) (ev_triggeredAt e) (ev_startedAt e)).

Definition QuoteConversion (e : Evaluation) (input output : TokenID) : option QuoteConversionSnapshot :=
  ev_conversions e !! (input, output).
End evaluation.
Arguments Evaluation : clear implicits.

(** ** Live opportunities *)

Record ValuationSnapshot := mkValuationSnapshot {
  val_version : Z; val_base : AssetID; val_quote : AssetID; val_price : option Qc;
  val_observations : Z; val_capturedAt : Time }.

Definition NewValuationSnapshot (version : Z) (base quote : AssetID) (price : option Qc)
    (observations : Z) (capturedAt : Time) : res ValuationSnapshot :=
  let incomplete := Err (Errorf "valuation requires version, distinct assets, and a positive price") in
  match price with
  | None => incomplete
  | Some p =>
      if decide (version = 0 \/ base = "" \/ quote = "" \/ base = quote \/ Z.sgn (Num p) <= 0)
      then incomplete else
      if decide (observations < 1 \/ Time_IsZero capturedAt)
      then Err (Errorf "valuation requires observations and capture time")
      else Ok (mkValuationSnapshot version base quote (Some p) observations capturedAt)
  end.

(** [new(big.Rat).Set(s.price)] panics on the zero snapshot's nil price. *)
Definition Valuation_Price (s : ValuationSnapshot) : res Qc :=
  match val_price s with Some p => Ok p | None => Panic "nil price" end.

Record LiveOpportunity := mkLiveOpportunity {
  lo_ID : string; lo_Setup : SetupID; lo_Direction : Direction; lo_Valuation : ValuationSnapshot;
  lo_BuyQuote : Quote; lo_SellQuote : Quote;
  lo_QuoteDelta : AssetQuantity; lo_BaseDelta : AssetQuantity; lo_MarkedBase : AssetQuantity;
  lo_GrossPnL : AssetQuantity; lo_Cost : AssetQuantity; lo_NetPnL : AssetQuantity;
  lo_Threshold : AssetQuantity; lo_RiskBlock : string; lo_DiscoveredAt : Time; lo_ValidatedAt : Time }.

Definition Profitable (o : LiveOpportunity) : bool :=
  match AssetQuantity_Cmp (lo_NetPnL o) (lo_Threshold o) with
  | Ok comparison =>
      bool_decide (lo_RiskBlock o = "" /\ 0 <= comparison /\ 0 < AssetQuantity_Sign (lo_NetPnL o))
  | _ => false
  end.

(** The quantities of the literal map that is ranged over; the error of a
    missing one does not depend on which is met first. *)
Definition live_quantities (o : LiveOpportunity) : list AssetQuantity :=
  [lo_QuoteDelta o; lo_BaseDelta o; lo_MarkedBase o; lo_GrossPnL o; lo_Cost o; lo_NetPnL o; lo_Threshold o].

Definition LiveOpportunity_Validate (o : LiveOpportunity) : res unit :=
  if decide (lo_ID o = "" \/ lo_Setup o = "" \/ direction_invalid (lo_Direction o))
  then Err (Errorf "live opportunity identity and direction are required") else
  if decide (IsZero (q_AmountIn (lo_BuyQuote o)) \/ IsZero (q_AmountOut (lo_BuyQuote o)) \/
             IsZero (q_AmountIn (lo_SellQuote o)) \/ IsZero (q_AmountOut (lo_SellQuote o)))
  then Err (Errorf "live opportunity requires two non-zero quotes") else
  if decide (Exists (fun quantity => quantity_asset quantity = "") (live_quantities o))
  then Err (Errorf "live opportunity %s is required") else
  if decide (AssetQuantity_Sign (lo_Cost o) < 0 \/ AssetQuantity_Sign (lo_Threshold o) < 0 \/
             Time_IsZero (lo_DiscoveredAt o))
  then Err (Errorf "live opportunity costs, threshold, and discovery time are invalid") else Ok tt.

(** ** Research candidates *)

Definition ClassificationPolicyQualified : string := "policy_qualified".
Definition ClassificationEconomic : string := "economic".
Definition ClassificationUnclassifiable : string := "unclassifiable".

Record Candidate := mkCandidate {
  cd_Size : AssetQuantity; cd_Input : AssetQuantity; cd_Output : AssetQuantity;
  cd_GrossPnL : AssetQuantity; cd_Cost : CostSnapshot; cd_NetPnL : AssetQuantity;
  cd_FixedThreshold : AssetQuantity; cd_PercentageThreshold : AssetQuantity;
  cd_EffectiveThreshold : AssetQuantity; cd_BuyQuote : Quote; cd_SellQuote : Quote;
  cd_Valuation : option ValuationSnapshot; cd_QuoteConversion : option QuoteConversionSnapshot }.

Record Opportunity := mkOpportunity {
  op_Evaluation : EvaluationID; op_Run : ResearchRunID; op_ConfigHash : string;
  op_Strategy : StrategyID; op_Direction : Direction; op_Classification : string;
  op_Snapshots : list SnapshotMetadata; op_Candidates : list Candidate; op_SelectedIndex : Z;
  op_Threshold : AssetQuantity; op_Reasons : list string; op_Trigger : TriggerMetadata;
  op_HasTrigger : bool;
  op_TriggeredAt : Time; op_StartedAt : Time; op_FinishedAt : Time }.

(** ** Setups list every direction once *)

Lemma setup_markets_Ok registry pair seen seen' markets :
  foldM (setup_market registry pair) seen markets = Ok seen' <->
  seen' = list_to_set markets ∪ seen /\ NoDup markets /\ (forall m, m ∈ markets -> m ∉ seen) /\
  forall m, m ∈ markets -> exists candidate, reg_markets registry !! m = Some candidate /\ Market_Pair candidate = pair.
Proof.
  revert seen. induction markets as [|m markets IH]; intros seen; cbn [foldM].
  - cbn. rewrite (left_id_L ∅ (∪)). split.
    + intros [= ->]. split_and!; [done|constructor|..]; by intros m ?%elem_of_nil.
    + by intros (-> & _).
  - rewrite bind_Ok. unfold setup_market at 1. split.
    + intros (s1 & H1 & H2). destruct (reg_markets registry !! m) as [c|] eqn:Hm; [|done].
      destruct (decide (Market_Pair c <> pair)) as [|Hp]; [done|]. destruct (decide (m ∈ seen)) as [|Hs]; [done|].
      injection H1 as <-. apply IH in H2 as (-> & Hnd & Hnew & Hall). apply dec_stable in Hp. split_and!.
      * cbn. set_solver.
      * constructor; [|done]. intros Hin. specialize (Hnew m Hin). set_solver.
      * intros x [->|Hx]%elem_of_cons; [done|]. specialize (Hnew x Hx). set_solver.
      * intros x [->|Hx]%elem_of_cons; [by exists c|by apply Hall].
    + intros (-> & Hnd & Hnew & Hall). apply NoDup_cons in Hnd as [Hm Hnd].
      destruct (Hall m ltac:(by left)) as (c & -> & Hp). exists ({[m]} ∪ seen).
      rewrite decide_False by tauto. rewrite decide_False by (apply Hnew; by left). split; [done|].
      apply IH. split_and!; [cbn; set_solver|done| |intros x Hx; apply Hall; by right].
      intros x Hx. assert (x <> m) by (intros ->; done). specialize (Hnew x ltac:(by right)). set_solver.
Qed.

Lemma elem_of_directions markets d :
  d ∈ directions_of markets <->
  BuyMarket d ∈ markets /\ SellMarket d ∈ markets /\ BuyMarket d <> SellMarket d.
Proof.
  unfold directions_of. rewrite list_elem_of_bind. setoid_rewrite list_elem_of_bind. split.
  - intros (b & (s & Hd & Hs) & Hb). destruct (decide (b <> s)); [|by apply elem_of_nil in Hd].
    apply list_elem_of_singleton in Hd as ->. done.
  - intros (Hb & Hs & Hne). exists (BuyMarket d). split; [|done]. exists (SellMarket d). split; [|done].
    rewrite decide_True by done. apply list_elem_of_singleton. by destruct d.
Qed.

Lemma NoDup_bind {A B} (f : A -> list B) l :
  NoDup l -> (forall x, x ∈ l -> NoDup (f x)) ->
  (forall x y b, x ∈ l -> y ∈ l -> b ∈ f x -> b ∈ f y -> x = y) -> NoDup (l ≫= f).
Proof.
  induction 1 as [|x l Hx Hl IH]; intros Hf Hd; [constructor|]. rewrite bind_cons. apply NoDup_app. split_and!.
  - apply Hf. by left.
  - intros b Hb (y & Hy & Hin)%list_elem_of_bind. apply Hx.
    rewrite (Hd x y b); [done|by left|by right|done..].
  - apply IH; [intros; apply Hf; by right|intros y z b Hy Hz; apply Hd; by right].
Qed.

(** NewArbitrageSetup succeeds exactly on an identified pair with at least two
    distinct known markets of it, and then lists every ordered pair of distinct
    markets exactly once. *)
Theorem NewArbitrageSetup_iff (id : SetupID) (pair : PairID) (markets : list MarketID)
    (registry : option Registry) (s : ArbitrageSetup) :
  NewArbitrageSetup id pair markets registry = Ok s <->
  (exists r, registry = Some r /\ id <> "" /\ pair <> "" /\ (2 <= length markets)%nat /\ NoDup markets /\
     forall m, m ∈ markets -> exists c, reg_markets r !! m = Some c /\ Market_Pair c = pair) /\
  s = mkArbitrageSetup id pair markets (directions_of markets) /\
  NoDup (setup_directions s) /\
  forall d, d ∈ setup_directions s <->
    BuyMarket d ∈ markets /\ SellMarket d ∈ markets /\ BuyMarket d <> SellMarket d.
Proof.
  assert (NoDup markets -> NoDup (directions_of markets)) as Hnodup.
  { intros Hnd. unfold directions_of. apply NoDup_bind; [done| |].
    - intros b _. apply NoDup_bind; [done| |].
      + intros x _. case_decide; [apply NoDup_singleton|constructor].
      + intros x y d _ _ Hx Hy. destruct (decide (b <> x)); [|by apply elem_of_nil in Hx].
        destruct (decide (b <> y)); [|by apply elem_of_nil in Hy].
        apply list_elem_of_singleton in Hx, Hy. congruence.
    - intros x y d _ _ (sx & Hx & _)%list_elem_of_bind (sy & Hy & _)%list_elem_of_bind.
      destruct (decide (x <> sx)); [|by apply elem_of_nil in Hx].
      destruct (decide (y <> sy)); [|by apply elem_of_nil in Hy].
      apply list_elem_of_singleton in Hx, Hy. congruence. }
  unfold NewArbitrageSetup. destruct registry as [r|]; [|split; [done|by intros [(r & ? & _) _]]].
  destruct (decide (id = "" \/ pair = "")) as [Hid|Hid].
  { split; [done|]. intros [(r' & _ & ? & ? & _) _]. tauto. }
  destruct (decide (length markets < 2)%nat) as [Hlen|Hlen].
  { split; [done|]. intros [(r' & _ & _ & _ & ? & _) _]. lia. }
  rewrite bind_Ok. split.
  - intros (seen & Hf & [= <-]). apply setup_markets_Ok in Hf as (_ & Hnd & _ & Hall).
    split_and!; [|done|by apply Hnodup|intros d; apply elem_of_directions].
    exists r. split_and!; try tauto. lia.
  - intros [(r' & [= <-] & _ & _ & _ & Hnd & Hall) (-> & _)]. exists (list_to_set markets ∪ ∅). split; [|done].
    apply setup_markets_Ok. split_and!; [done..|set_solver|done].
Qed.

(** ** Evaluations *)

Section evaluation_spec.
Context {D : Type} `{!RangeOrder Direction}.

(** Directional costs: the copy with costs is made exactly when every cost is
    complete, for a real direction and in the common asset; it then answers with
    the cost of the direction, or with the common one, and nothing else changes. *)
Theorem WithDirectionalCosts_iff (e : Evaluation D) (costs : gmap Direction CostSnapshot) (e' : Evaluation D) :
  WithDirectionalCosts e costs = Ok e' <->
  (forall d c, costs !! d = Some c -> ~ direction_invalid d /\ ~ cost_invalid c /\
     quantity_asset (cost_Amount c) = quantity_asset (cost_Amount (ev_cost e))) /\
  e' = with_costs e costs /\
  (forall d, CostFor e' d = default (ev_cost e) (costs !! d)).
Proof.
  assert (forall l u, foldM (directional_cost e) u l = Ok tt <->
    Forall (fun '(d, c) => ~ direction_invalid d /\ ~ cost_invalid c /\
      quantity_asset (cost_Amount c) = quantity_asset (cost_Amount (ev_cost e))) l) as Hfold.
  { induction l as [|[d c] l IH]; intros []; cbn [foldM]; [split; [constructor|done]|].
    rewrite bind_Ok, Forall_cons. unfold directional_cost at 1.
    destruct (decide (direction_invalid d)); [naive_solver|].
    destruct (decide (cost_invalid c)); [naive_solver|].
    destruct (decide (quantity_asset (cost_Amount c) <> quantity_asset (cost_Amount (ev_cost e)))) as [|Hq];
      [naive_solver|]. apply dec_stable in Hq. split.
    - intros ([] & _ & H%IH). done.
    - intros [_ H]. exists tt. split; [done|by apply IH]. }
  unfold WithDirectionalCosts. rewrite bind_Ok. split.
  - intros ([] & H%Hfold & [= <-]). rewrite Forall_forall in H. split_and!; [|done|].
    + intros d c Hc. apply elem_of_range in Hc. by apply (H (d, c)).
    + intros d. unfold CostFor. cbn. by destruct (costs !! d).
  - intros (H & -> & _). exists tt. split; [|done]. apply Hfold, Forall_forall.
    intros [d c] Hc%elem_of_range. by apply H.
Qed.

Lemma conversions_Ok startedAt m m' snapshots :
  foldM (add_conversion startedAt) m snapshots = Ok m' <->
  NoDup (conversion_pair <$> snapshots) /\ Forall (fun s => conversion_ValidAt s startedAt) snapshots /\
  (forall s, s ∈ snapshots -> m !! conversion_pair s = None) /\
  m' = foldl (fun m s => <[conversion_pair s := s]> m) m snapshots.
Proof.
  revert m. induction snapshots as [|s l IH]; intros m; cbn [foldM foldl fmap list_fmap].
  - split; [intros [= ->]; split_and!; [constructor|constructor|by intros s ?%elem_of_nil|done]|].
    by intros (_ & _ & _ & ->).
  - rewrite bind_Ok, NoDup_cons, Forall_cons. unfold add_conversion at 1. split.
    + intros (m1 & H1 & H2). destruct (decide (~ conversion_ValidAt s startedAt)) as [|Hv]; [done|].
      apply dec_stable in Hv. destruct (m !! conversion_pair s) eqn:Hm; [done|]. injection H1 as <-.
      apply IH in H2 as (Hnd & Hall & Hfresh & ->). split_and!; try done.
      * intros (s' & He & Hin)%list_elem_of_fmap. specialize (Hfresh s' Hin).
        by rewrite <- He, lookup_insert_eq in Hfresh.
      * intros x [->|Hx]%elem_of_cons; [done|]. specialize (Hfresh x Hx).
        by apply lookup_insert_None in Hfresh as [? _].
    + intros ([Hin Hnd] & [Hv Hall] & Hfresh & ->). exists (<[conversion_pair s := s]> m).
      rewrite decide_False by tauto. rewrite Hfresh by by left. split; [done|]. apply IH. split_and!; try done.
      intros x Hx. apply lookup_insert_None. split; [apply Hfresh; by right|].
      intros He. apply Hin. rewrite He. by apply list_elem_of_fmap_2.
Qed.
End evaluation_spec.

Lemma conversions_lookup (m : gmap (TokenID * TokenID) QuoteConversionSnapshot) (snapshots : list QuoteConversionSnapshot) k :
  NoDup (conversion_pair <$> snapshots) ->
  foldl (fun m s => <[conversion_pair s := s]> m) m snapshots !! k =
  match list_find (fun s => conversion_pair s = k) snapshots with Some (_, s) => Some s | None => m !! k end.
Proof.
  revert m. induction snapshots as [|s l IH]; intros m; [done|]. rewrite fmap_cons. intros [Hin Hnd]%NoDup_cons.
  cbn [foldl]. rewrite IH by done. cbn [list_find]. destruct (decide (conversion_pair s = k)) as [Hk|Hk].
  - destruct (list_find (fun s => conversion_pair s = k) l) as [[i x]|] eqn:Hf.
    + apply list_find_Some in Hf as (Hi & Hx & _). destruct Hin. rewrite Hk, <- Hx.
      apply list_elem_of_fmap_2. by eapply list_elem_of_lookup_2.
    + rewrite <- Hk. by rewrite lookup_insert_eq.
  - destruct (list_find (fun s => conversion_pair s = k) l) as [[i x]|] eqn:Hf; [done|]. cbn.
    by rewrite lookup_insert_ne.
Qed.

(** Quote conversions: they are fixed only when each is valid at the start
    of the evaluation and no token pair occurs twice; the copy then answers with
    the conversion of the pair it was given, and keeps its costs. *)
Theorem WithQuoteConversions_answers {D} (e : Evaluation D) (snapshots : list QuoteConversionSnapshot)
    (e' : Evaluation D) :
  snapshots <> [] ->
  WithQuoteConversions e snapshots = Ok e' ->
  NoDup (conversion_pair <$> snapshots) /\ Forall (fun s => conversion_ValidAt s (ev_startedAt e)) snapshots /\
  (forall input output s, QuoteConversion e' input output = Some s <->
     s ∈ snapshots /\ conversion_pair s = (input, output)) /\
  (forall d, CostFor e' d = CostFor e d) /\ ev_snapshots e' = ev_snapshots e.
Proof.
  intros Hne. unfold WithQuoteConversions. rewrite decide_False by done. rewrite bind_Ok.
  intros (m & Hm & [= <-]). apply conversions_Ok in Hm as (Hnd & Hall & _ & ->). split_and!; try done.
  intros input output s. unfold QuoteConversion. cbn. rewrite conversions_lookup by done.
  destruct (list_find (fun s => conversion_pair s = (input, output)) snapshots) as [[i x]|] eqn:Hf.
  - apply list_find_Some in Hf as (Hi & Hx & _). apply list_elem_of_lookup_2 in Hi as Hin. split.
    + by intros [= <-].
    + intros [Hs Hp]. f_equal. apply list_elem_of_lookup in Hs as [j Hj].
      assert (i = j) as ->; [|congruence].
      eapply (NoDup_lookup (conversion_pair <$> snapshots)); [done|..]; rewrite list_lookup_fmap.
      * by rewrite Hi.
      * rewrite Hj. cbn. congruence.
  - rewrite lookup_empty. split; [done|]. intros [Hs Hp]. apply list_find_None in Hf.
    rewrite Forall_forall in Hf. by destruct (Hf s Hs).
Qed.

Module ArbitrageWitness.
Definition at_ : Time := 1.
Definition eth (n : Z) : TokenAmount := mkTokenAmount "eth" (Some n).
Definition usd (n : Z) : TokenAmount := mkTokenAmount "usd" (Some n).
Definition conversion : QuoteConversionSnapshot := mkQuoteConversionSnapshot "p" (eth 1) (usd 3000) 1 5 "".
Definition common : CostSnapshot := mkCostSnapshot "c" (mkAssetQuantity "USD" (Some (Q2Qc 1))) 1.
Definition evaluation : Evaluation bool := mkEvaluation "e" "r" "s" "h" [] common ∅ ∅ None 1 2.
Definition converted : Evaluation bool :=
  match WithQuoteConversions evaluation [conversion] with Ok e => e | _ => evaluation end.

Lemma conversions_witness : QuoteConversion converted "eth" "usd" = Some conversion.
Proof.
  apply (WithQuoteConversions_answers evaluation [conversion] converted).
  - discriminate.
  - vm_compute. reflexivity.
  - split; [by left|reflexivity].
Defined.
End ArbitrageWitness.
