(* ===== verification/Research.v ===== *)
(** * Research evaluations (src/core/research/evaluator.go, src/core/strategy/strategy.go)

    One request is evaluated by every strategy in order.  The file also holds the
    records that research leaves of what it checked: simulations
    (src/domain/arbitrage/simulation.go) and executable validations
    (executable_validation.go).  Theorems: the opportunities of a request are those of
    its strategies, whose identities differ, in order. *)
From S2P Require Import Prelude Amount Quote Registry Arbitrage.
Local Open Scope Z_scope.

(** ** Strategies *)

Section research.
Context {D W : Type}.

Record Strategy := mkStrategy { str_ID : StrategyID; str_Evaluate : Evaluation D -> ST W (list Opportunity) }.

Record EvaluationRequest := mkEvaluationRequest {
  er_IDPrefix : string; er_Run : ResearchRunID; er_ConfigHash : string; er_Snapshots : list (MarketSnapshot D);
  er_Cost : CostSnapshot; er_TriggeredAt : Time; er_StartedAt : Time }.

(** [None] is a nil strategy. *)
Definition add_strategy (st : gset StrategyID * list Strategy) (candidate : option Strategy) : res (gset StrategyID * list Strategy) :=
  match candidate with
  | None => Err (Errorf "valid strategy is required")
  | Some s =>
      if decide (str_ID s = "") then Err (Errorf "valid strategy is required") else
      if decide (str_ID s ∈ st.1) then Err (Errorf "duplicate strategy %q") else Ok ({[str_ID s]} ∪ st.1, st.2 ++ [s])
  end.

Definition NewEvaluator (strategies : list (option Strategy)) : res (list Strategy) :=
  if decide (strategies = []) then Err (Errorf "at least one strategy is required") else
  '(_, evaluator) ← foldM add_strategy (∅, []) strategies; Ok evaluator.

Definition evaluation_for (request : EvaluationRequest) (candidate : Strategy) : res (Evaluation D) :=
  NewEvaluation (er_IDPrefix request +:+ "/" +:+ str_ID candidate) (er_Run request) (str_ID candidate) (er_ConfigHash request)
    (er_Snapshots request) (er_Cost request) (er_TriggeredAt request) (er_StartedAt request).

Definition evaluate_strategy (request : EvaluationRequest) (opportunities : list Opportunity) (candidate : Strategy) : ST W (list Opportunity) :=
  evaluation ← lift (evaluation_for request candidate);
  result ← str_Evaluate candidate evaluation;
  mret (opportunities ++ result).

Definition Research_Evaluate (evaluator : list Strategy) (request : EvaluationRequest) : ST W (list Opportunity) :=
  if decide (er_IDPrefix request = "") then fail "evaluation ID prefix is required" else
  foldST (evaluate_strategy request) [] evaluator.

Lemma NewEvaluator_distinct strategies evaluator : NewEvaluator strategies = Ok evaluator ->
  strategies = Some <$> evaluator /\ NoDup (str_ID <$> evaluator) /\ Forall (fun s => str_ID s <> "") evaluator /\ evaluator <> [].
Proof.
  unfold NewEvaluator. destruct (decide (strategies = [])) as [|Hne]; [done|]. intros H. apply bind_Ok in H as ([seen ev] & H & [= <-]).
  assert (forall rest st st', foldM add_strategy st rest = Ok st' -> (forall s, s ∈ st.2 -> str_ID s ∈ st.1) -> NoDup (str_ID <$> st.2) ->
    exists new, rest = Some <$> new /\ st'.2 = st.2 ++ new /\ NoDup (str_ID <$> st.2 ++ new) /\ Forall (fun s => str_ID s <> "") new) as Hloop.
  { induction rest as [|candidate rest IH]; intros st st' Hf Hin Hnd; cbn [foldM] in Hf.
    - injection Hf as <-. exists []. by rewrite app_nil_r.
    - apply bind_Ok in Hf as (st1 & H1 & Hf). unfold add_strategy in H1. destruct candidate as [s|]; [|done].
      destruct (decide _) as [|Hid] in H1; [done|]. destruct (decide _) as [|Hnew] in H1; [done|]. injection H1 as <-.
      apply IH in Hf as (new & -> & Heq & Hnd' & Hids); cbn [fst snd] in *.
      + exists (s :: new). rewrite <- app_assoc in Heq, Hnd'. split; [done|]. split; [done|]. split; [done|]. by constructor.
      + intros x [Hx| ->%list_elem_of_singleton]%elem_of_app; set_solver.
      + rewrite fmap_app. apply NoDup_app. split; [done|]. split; [|apply NoDup_singleton].
        intros x (y & -> & Hy)%list_elem_of_fmap Hx%list_elem_of_singleton. apply Hnew. rewrite <- Hx. by apply Hin. }
  apply Hloop in H as (new & -> & Heq & Hnd & Hids); [|by intros s ?%not_elem_of_nil|constructor]. cbn in Heq, Hnd. subst ev.
  split; [done|]. split; [done|]. split; [done|]. by intros ->.
Qed.

(** The results of a request: every strategy was run once, in order, from the world the
    ones before it left, on the evaluation of its own identity. *)
Inductive evaluated (request : EvaluationRequest) : list Strategy -> W -> list Opportunity -> W -> Prop :=
| evaluated_none w : evaluated request [] w [] w
| evaluated_more s rest w evaluation found w1 others w2 :
    evaluation_for request s = Ok evaluation -> str_Evaluate s evaluation w = (Ok found, w1) ->
    evaluated request rest w1 others w2 -> evaluated request (s :: rest) w (found ++ others) w2.

Theorem Research_Evaluate_collects evaluator request w found w' : Research_Evaluate evaluator request w = (Ok found, w') <->
  er_IDPrefix request <> "" /\ evaluated request evaluator w found w'.
Proof.
  unfold Research_Evaluate. destruct (decide _) as [Hp|Hp]; [split; [done|tauto]|].
  enough (forall acc w, foldST (evaluate_strategy request) acc evaluator w = (Ok found, w') <->
    exists new, found = acc ++ new /\ evaluated request evaluator w new w') as Hall.
  { rewrite Hall. split; [intros (new & -> & H)|intros [_ H]; by exists found]. done. }
  induction evaluator as [|s rest IH]; intros acc w0; cbn [foldST].
  - split; [intros [= <- <-]; exists []; rewrite app_nil_r; split; [done|constructor]|intros (new & -> & H)]. inversion H. by rewrite app_nil_r.
  - destruct (evaluate_strategy request acc s w0) as [r w1] eqn:Hs. unfold evaluate_strategy in Hs. unfold mbind, st_bind, lift in Hs.
    destruct (evaluation_for request s) as [evaluation|e|why] eqn:He.
    + destruct (str_Evaluate s evaluation w0) as [[result|e|why] w2] eqn:Hev; injection Hs as <- <-.
      * rewrite IH. split.
        -- intros (new & -> & H). exists (result ++ new). rewrite app_assoc. split; [done|]. by econstructor.
        -- intros (new & -> & H). inversion H as [|? ? ? ev1 found1 w3 others1 ? He1 Hev1 Hrest]; subst. rewrite He in He1. injection He1 as <-.
           rewrite Hev in Hev1. injection Hev1 as <- <-. exists others1. by split; [rewrite app_assoc|].
      * split; [done|intros (new & -> & H)]. inversion H; subst. congruence.
      * split; [done|intros (new & -> & H)]. inversion H; subst. congruence.
    + injection Hs as <- <-. split; [done|intros (new & -> & H)]. inversion H; subst. congruence.
    + injection Hs as <- <-. split; [done|intros (new & -> & H)]. inversion H; subst. congruence.
Qed.
End research.

(** ** Simulation rounds (simulation.go) *)

Definition SimulationPending : string := "pending".
Definition SimulationConfirmed : string := "confirmed".
Definition SimulationRejected : string := "rejected".
Definition SimulationUnavailable : string := "unavailable".
Definition SimulationStale : string := "stale".

Record SimulationLeg := mkSimulationLeg {
  sl_Chain : string; sl_Market : MarketID; sl_Input : TokenAmount; sl_LocalOutput : TokenAmount; sl_SimulatedOutput : TokenAmount;
  sl_Status : string; sl_FailureClass : string; sl_Error : string; sl_SnapshotVersion : Z; sl_SnapshotHash : Digest; sl_Context : string;
  sl_ContextPosition : Z; sl_GasOrComputeUnits : Z; sl_StartedAt : Time; sl_FinishedAt : Time }.

Definition leg_Duration (l : SimulationLeg) : Z :=
  if decide (Time_IsZero (sl_StartedAt l) \/ Time_IsZero (sl_FinishedAt l) \/ Time_Before (sl_FinishedAt l) (sl_StartedAt l))
  then 0 else sl_FinishedAt l - sl_StartedAt l.

Lemma leg_Duration_nonneg l : 0 <= leg_Duration l.
Proof. unfold leg_Duration, Time_Before. destruct (decide _); lia. Qed.

Record SimulationRound := mkSimulationRound {
  sr_ID : string; sr_WindowID : string; sr_PointSequence : Z; sr_RequestedAt : Time; sr_StartedAt : Time; sr_FinishedAt : Time;
  sr_Status : string; sr_FailureClass : string; sr_Error : string; sr_Buy : SimulationLeg; sr_Sell : SimulationLeg;
  sr_LocalQualified : bool; sr_LocalNetPnL : AssetQuantity; sr_LocalThreshold : AssetQuantity; sr_SimulatedNetPnL : AssetQuantity }.

Definition SimulationRound_Validate (r : SimulationRound) : res unit :=
  if decide (sr_ID r = "" \/ sr_WindowID r = "" \/ sr_PointSequence r = 0) then Err (Errorf "simulation round identity is required") else
  if decide (Time_IsZero (sr_RequestedAt r) \/ Time_IsZero (sr_StartedAt r)) then Err (Errorf "simulation round timestamps are required") else
  if decide (sr_Status r = "") then Err (Errorf "simulation round status is required") else
  if decide (sl_Market (sr_Buy r) = "" \/ sl_Market (sr_Sell r) = "") then Err (Errorf "simulation round requires buy and sell legs") else
  if decide (amount_token (sl_Input (sr_Buy r)) = "" \/ amount_token (sl_Input (sr_Sell r)) = "")
  then Err (Errorf "simulation round leg inputs are required") else Ok tt.

Record SimulationRequest := mkSimulationRequest {
  sq_WindowID : string; sq_PointSequence : Z; sq_RequestedAt : Time; sq_Buy : SimulationLeg; sq_Sell : SimulationLeg;
  sq_LocalQualified : bool; sq_LocalNetPnL : AssetQuantity; sq_LocalThreshold : AssetQuantity }.

Definition SimulationRequest_Validate (r : SimulationRequest) : res unit :=
  if decide (sq_WindowID r = "" \/ sq_PointSequence r = 0 \/ Time_IsZero (sq_RequestedAt r)) then Err (Errorf "simulation request identity is required") else
  if decide (sl_Market (sq_Buy r) = "" \/ sl_Market (sq_Sell r) = "") then Err (Errorf "simulation request requires both legs") else Ok tt.

(** ** Executable validations (executable_validation.go) *)

Record ExecutableValidationRound := mkExecutableValidationRound {
  xr_ID : string; xr_WindowID : string; xr_PointSequence : Z; xr_Direction : Direction; xr_Status : string; xr_FailureStage : string;
  xr_FailureClass : string; xr_Error : string; xr_RequestedAt : Time; xr_RouteFinishedAt : Time; xr_BuildFinishedAt : Time;
  xr_SimulationFinishedAt : Time; xr_LocalRecapturedAt : Time; xr_RecalculatedAt : Time; xr_PersistedAt : Time;
  xr_DiscoveryOutput : AssetQuantity; xr_BuildOutput : AssetQuantity; xr_DiscoveryNet : AssetQuantity; xr_FinalNet : AssetQuantity;
  xr_Threshold : AssetQuantity; xr_RemoteMarket : MarketID; xr_LocalMarket : MarketID; xr_InitialLocalSnapshot : SnapshotMetadata;
  xr_FinalLocalSnapshot : SnapshotMetadata; xr_RouteHash : string; xr_BuildHash : string; xr_RouteHTTPStatus : Z; xr_BuildHTTPStatus : Z;
  xr_RouteDuration : Z; xr_BuildDuration : Z; xr_BuildAttempts : Z }.

Definition ExecutableValidationRound_Validate (r : ExecutableValidationRound) : res unit :=
  if decide (xr_ID r = "" \/ xr_WindowID r = "" \/ xr_PointSequence r = 0 \/ BuyMarket (xr_Direction r) = "" \/ SellMarket (xr_Direction r) = "" \/
             Time_IsZero (xr_RequestedAt r) \/ xr_Status r = "")
  then Err (Errorf "executable validation round identity is incomplete") else
  if decide (quantity_asset (xr_DiscoveryNet r) = "" \/ quantity_asset (xr_Threshold r) = "")
  then Err (Errorf "executable validation economics are incomplete") else Ok tt.
