(* ===== verification/Scheduling.v ===== *)
(** * Scheduling of evaluations and simulations (src/runtime/research/trigger_gate.go,
    src/runtime/livecompare/simulation_cadence.go, simulation_coordinator.go)

    The trigger gate drops triggers of transactions that were seen and keeps the newest
    of those that wait.  The simulation coordinator runs one simulation round at a time,
    no more often than an interval, on the newest request.  A goroutine and a timer are
    parts of its state that move on in steps of their own.  Theorem: whatever the order
    of the requests, timers and rounds, rounds exclude each other and keep the interval,
    and the newest request is run, or waits behind a running round or an armed timer
    that starts it as soon as the interval has passed. *)
From S2P Require Import Prelude Amount Quote Registry Arbitrage Research.
Local Open Scope Z_scope.

(** ** The trigger gate *)

Record ScheduledTrigger := mkScheduledTrigger {
  st_Chain : string; st_Market : MarketID; st_TriggeredAt : Time; st_Metadata : TriggerMetadata; st_HasMetadata : bool }.

Record TriggerGate := mkTriggerGate { tg_limit : Z; tg_seen : gset string; tg_pending : option ScheduledTrigger }.

Definition NewTriggerGate (limit : Z) : TriggerGate := mkTriggerGate (if decide (limit <= 0) then 10000 else limit) ∅ None.

(** The key of a transaction; other triggers are never dropped. *)
Definition transaction_key (t : ScheduledTrigger) : option string :=
  let reference := tr_Reference (st_Metadata t) in
  if decide (st_HasMetadata t = false \/ blank (ref_Value reference) = true \/ ref_Value reference = "bootstrap") then None else
  if decide (ref_Kind reference = "evm_transaction_hash" \/ ref_Kind reference = "solana_signature")
  then Some (st_Chain t +:+ "|" +:+ ref_Kind reference +:+ "|" +:+ ref_Value reference) else None.

Definition Accept (t : ScheduledTrigger) (g : TriggerGate) : bool * TriggerGate :=
  match transaction_key t with
  | None => (true, g)
  | Some key =>
      if decide (key ∈ tg_seen g) then (false, g) else
      let seen := if decide (tg_limit g <= Z.of_nat (size (tg_seen g))) then ∅ else tg_seen g in
      (true, mkTriggerGate (tg_limit g) ({[key]} ∪ seen) (tg_pending g))
  end.

Definition OfferPending (t : ScheduledTrigger) (g : TriggerGate) : bool * TriggerGate :=
  let '(accepted, g) := Accept t g in
  if accepted : bool then (true, mkTriggerGate (tg_limit g) (tg_seen g) (Some t)) else (false, g).

Definition TakePending (g : TriggerGate) : option ScheduledTrigger * TriggerGate :=
  (tg_pending g, mkTriggerGate (tg_limit g) (tg_seen g) None).

Lemma Accept_bounded t g : 0 < tg_limit g -> Z.of_nat (size (tg_seen g)) <= tg_limit g -> Z.of_nat (size (tg_seen (Accept t g).2)) <= tg_limit (Accept t g).2.
Proof.
  intros Hl Hs. unfold Accept. destruct (transaction_key t) as [key|]; [|done]. destruct (decide _) as [|Hkey]; [done|]. cbn [snd tg_seen tg_limit].
  destruct (decide _); [rewrite union_empty_r_L, size_singleton; lia|]. rewrite size_union by set_solver. rewrite size_singleton. lia.
Qed.

(** A transaction is accepted once while the gate remembers it. *)
Lemma Accept_twice t t' g : transaction_key t = transaction_key t' -> transaction_key t <> None -> (Accept t g).1 = true -> (Accept t' (Accept t g).2).1 = false.
Proof.
  unfold Accept. intros <- Hk. destruct (transaction_key t) as [key|]; [|done]. destruct (decide (key ∈ tg_seen g)); [done|]. intros _. cbn [fst snd tg_seen].
  rewrite decide_True by set_solver. done.
Qed.

(** ** The cadence *)

Record SimulationCadence := mkSimulationCadence { ca_interval : Z; ca_last : Time; ca_active : bool; ca_pending : bool }.

Definition NewSimulationCadence (interval : Z) : SimulationCadence := mkSimulationCadence (if decide (interval <= 0) then 10 ^ 9 else interval) 0 false false.

(** The interval since the last start has passed. *)
Definition ready_at (now : Time) (c : SimulationCadence) : Prop := Time_IsZero (ca_last c) \/ ~ Time_Before now (ca_last c + ca_interval c).
#[export] Instance ready_at_dec now c : Decision (ready_at now c).
Proof. unfold ready_at, Time_IsZero, Time_Before. apply _. Defined.

Definition started (now : Time) (c : SimulationCadence) : SimulationCadence := mkSimulationCadence (ca_interval c) now true false.
Definition remaining (now : Time) (c : SimulationCadence) : Z := ca_last c + ca_interval c - now.

Definition Request (now : Time) (c : SimulationCadence) : (bool * Z) * SimulationCadence :=
  let c := mkSimulationCadence (ca_interval c) (ca_last c) (ca_active c) true in
  if ca_active c then ((false, 0), c) else
  if decide (ready_at now c) then ((true, 0), started now c) else ((false, remaining now c), c).

Definition Finished (now : Time) (c : SimulationCadence) : bool * SimulationCadence :=
  (false, mkSimulationCadence (ca_interval c) (ca_last c) false (ca_pending c)).

Definition PendingAt (now : Time) (c : SimulationCadence) : (bool * Z) * SimulationCadence :=
  if decide (ca_active c = true \/ ca_pending c = false) then ((false, 0), c) else
  if decide (ready_at now c) then ((true, 0), started now c) else ((false, remaining now c), c).

(** ** The coordinator *)

(** A tracking update; [U] is what the coordinator passes on as it is. *)
Record TrackingWindowUpdate (U : Type) := mkTrackingWindowUpdate {
  tw_update : U; tw_SimulationStatus : string; tw_SimulationFailure : string; tw_SimulationError : string;
  tw_SimulationBuyStatus : string; tw_SimulationSellStatus : string }.
Arguments mkTrackingWindowUpdate {U}. Arguments tw_update {U} _.

Section coordinator.
Context {W U : Type}.
Abbreviation Update := (TrackingWindowUpdate U).
Abbreviation Point := (SimulationRequest * Update)%type.

(** [sc_round]: the round of the goroutine, when it runs; [sc_timer]: a timer is armed. *)
Record Coordinator := mkCoordinator {
  sc_cadence : SimulationCadence; sc_pending : option Point; sc_round : option Point; sc_timer : bool }.

Record CoordinatorConfig := mkCoordinatorConfig {
  cc_SimulatePair : SimulationRequest -> ST W SimulationRound; cc_RecordSimulationRound : SimulationRound -> ST W unit;
  cc_onUpdate : option (Update -> ST W unit) }.

Definition newSimulationCoordinator (interval : Z) : Coordinator := mkCoordinator (NewSimulationCadence interval) None None false.

(** A positive wait arms the timer unless one is armed. *)
Definition scheduleLocked (wait : Z) (c : Coordinator) : Coordinator :=
  if decide (wait <= 0 \/ sc_timer c = true) then c else mkCoordinator (sc_cadence c) (sc_pending c) (sc_round c) true.

(** The pending point goes to a goroutine; a nil pending point would panic. *)
Definition launch (cadence : SimulationCadence) (c : Coordinator) : Coordinator :=
  mkCoordinator cadence None (sc_pending c) (sc_timer c).

Definition submit (now : Time) (request : SimulationRequest) (update : Update) (c : Coordinator) : Coordinator :=
  if negb (is_ok (SimulationRequest_Validate request)) then c else
  let c := mkCoordinator (sc_cadence c) (Some (request, update)) (sc_round c) (sc_timer c) in
  let '((start, wait), cadence) := Request now (sc_cadence c) in
  let c' := mkCoordinator cadence (sc_pending c) (sc_round c) (sc_timer c) in
  match sc_round c with
  | Some _ => c'
  | None => if start : bool then launch cadence c else scheduleLocked wait c'
  end.

(** The rest of a step that may start a round. *)
Definition start_pending (now : Time) (c : Coordinator) : Coordinator :=
  let '((start, wait), cadence) := PendingAt now (sc_cadence c) in
  if start : bool then launch cadence c else scheduleLocked wait (mkCoordinator cadence (sc_pending c) (sc_round c) (sc_timer c)).

(** The armed timer fires. *)
Definition fire (now : Time) (c : Coordinator) : Coordinator :=
  let c := mkCoordinator (sc_cadence c) (sc_pending c) (sc_round c) false in
  match sc_round c, sc_pending c with None, Some _ => start_pending now c | _, _ => c end.

(** The end of a round, under the lock. *)
Definition finish (now now' : Time) (c : Coordinator) : Coordinator :=
  let c := mkCoordinator (Finished now (sc_cadence c)).2 (sc_pending c) None (sc_timer c) in
  match sc_pending c with None => c | Some _ => start_pending now' c end.

(** A round that could not be simulated is recorded as unavailable. *)
Definition failed_round (error_text : error -> string) (request : SimulationRequest) (startedAt finishedAt : Time) (err : error) : SimulationRound :=
  mkSimulationRound ("simulation-" +:+ sq_WindowID request +:+ "-" +:+ pretty (sq_PointSequence request)) (sq_WindowID request) (sq_PointSequence request)
    (sq_RequestedAt request) startedAt finishedAt SimulationUnavailable "infrastructure" (error_text err) (sq_Buy request) (sq_Sell request)
    (sq_LocalQualified request) (sq_LocalNetPnL request) (sq_LocalThreshold request) (mkAssetQuantity "" None).

Definition with_round (round : SimulationRound) (update : Update) : Update :=
  mkTrackingWindowUpdate (tw_update update) (sr_Status round) (sr_FailureClass round) (sr_Error round) (sl_Status (sr_Buy round)) (sl_Status (sr_Sell round)).

(** What a round does outside the lock: whatever fails, an update is sent. *)
Definition execute (error_text : error -> string) (wall_clock : ST W Time) (config : CoordinatorConfig) (point : Point) : ST W unit :=
  round ← on_result (cc_SimulatePair config point.1) mret (fun err =>
    startedAt ← wall_clock; finishedAt ← wall_clock; mret (failed_round error_text point.1 startedAt finishedAt err));
  _ ← ignore (cc_RecordSimulationRound config round);
  match cc_onUpdate config with Some send => send (with_round round point.2) | None => mret tt end.

(** ** One round at a time, the newest request, and none is lost *)

Inductive coordinator_step :=
| Submit (now : Time) (request : SimulationRequest) (update : Update)
| Fire (now : Time)
| Finish (now now' : Time).

Definition perform (e : coordinator_step) (c : Coordinator) : Coordinator :=
  match e with Submit now request update => submit now request update c | Fire now => fire now c | Finish now now' => finish now now' c end.

(** A timer fires when it is armed, and a round ends when it runs. *)
Definition enabled (e : coordinator_step) (c : Coordinator) : Prop :=
  match e with Submit _ _ _ => True | Fire _ => sc_timer c = true | Finish _ _ => is_Some (sc_round c) end.

(** The time a step reads last, when it may start a round. *)
Definition step_time (e : coordinator_step) : Time := match e with Submit now _ _ | Fire now | Finish _ now => now end.

(** The round a step starts. *)
Definition start_of (e : coordinator_step) (c : Coordinator) : option (Time * Point) :=
  match e, sc_round c with
  | Finish _ _, _ | _, None => pair (step_time e) <$> sc_round (perform e c)
  | _, Some _ => None
  end.

(** The newest valid request. *)
Definition newest_after (e : coordinator_step) (newest : option Point) : option Point :=
  match e with Submit _ request update => if is_ok (SimulationRequest_Validate request) then Some (request, update) else newest | _ => newest end.

(** A history with the rounds that were started, in order, and the newest request. *)
Inductive history (interval : Z) : Coordinator -> list (Time * Point) -> option Point -> Prop :=
| history_new : history interval (newSimulationCoordinator interval) [] None
| history_step c rounds newest e : history interval c rounds newest -> enabled e c -> step_time e <> 0 ->
    history interval (perform e c) (rounds ++ option_list (start_of e c)) (newest_after e newest).

Record scheduled (interval : Z) (c : Coordinator) (rounds : list (Time * Point)) (newest : option Point) : Prop := {
  sd_interval : ca_interval (sc_cadence c) = interval /\ 0 < interval;
  sd_active : ca_active (sc_cadence c) = true <-> is_Some (sc_round c);
  sd_last : ca_last (sc_cadence c) = default 0 (fst <$> last rounds) /\ forall r, r ∈ rounds -> r.1 <> 0;
  sd_pending : is_Some (sc_pending c) -> ca_pending (sc_cadence c) = true /\ (is_Some (sc_round c) \/ sc_timer c = true);
  sd_newest : newest = match sc_pending c with Some point => Some point | None => snd <$> last rounds end;
  sd_spaced : forall i r r', rounds !! i = Some r -> rounds !! S i = Some r' -> r.1 + interval <= r'.1;
  sd_round : forall point, sc_round c = Some point -> exists now, last rounds = Some (now, point) }.
End coordinator.
Arguments Coordinator U : clear implicits.

Section fairness.
Context {U : Type}.
Implicit Types (c : Coordinator U) (rounds : list (Time * (SimulationRequest * TrackingWindowUpdate U))).

(** No round runs; the timer may or may not be armed. *)
Record at_rest (interval : Z) c rounds newest : Prop := {
  ar_interval : ca_interval (sc_cadence c) = interval /\ 0 < interval;
  ar_active : ca_active (sc_cadence c) = false /\ sc_round c = None;
  ar_last : ca_last (sc_cadence c) = default 0 (fst <$> last rounds) /\ forall r, r ∈ rounds -> r.1 <> 0;
  ar_pending : is_Some (sc_pending c) -> ca_pending (sc_cadence c) = true;
  ar_newest : newest = match sc_pending c with Some point => Some point | None => snd <$> last rounds end;
  ar_spaced : forall i r r', rounds !! i = Some r -> rounds !! S i = Some r' -> r.1 + interval <= r'.1 }.

Lemma spaced_snoc interval rounds r : (forall i r r', rounds !! i = Some r -> rounds !! S i = Some r' -> r.1 + interval <= r'.1) ->
  (forall r', last rounds = Some r' -> r'.1 + interval <= r.1) ->
  forall i r1 r2, (rounds ++ [r]) !! i = Some r1 -> (rounds ++ [r]) !! S i = Some r2 -> r1.1 + interval <= r2.1.
Proof.
  intros Hs Hl i r1 r2 H1 H2. apply lookup_lt_Some in H2 as Hlt. rewrite length_app in Hlt. cbn in Hlt.
  rewrite lookup_app_l in H1 by lia. destruct (decide (S i < length rounds)%nat) as [Hi|Hi].
  - rewrite lookup_app_l in H2 by done. by eapply Hs.
  - rewrite lookup_app_r in H2 by lia. replace (S i - length rounds)%nat with 0%nat in H2 by lia. injection H2 as <-. apply Hl.
    rewrite last_lookup. by replace (pred (length rounds)) with i by lia.
Qed.

(** Starting the pending point. *)
Lemma launched interval c rounds newest now point : at_rest interval c rounds newest -> sc_pending c = Some point -> ready_at now (sc_cadence c) -> now <> 0 ->
  scheduled interval (launch (started now (sc_cadence c)) c) (rounds ++ [(now, point)]) newest.
Proof.
  intros [[Hi Hpos] [Ha Hr] [Hl Hnz] Hp Hn Hs] Hpend Hready Hnow. rewrite Hpend in Hn. split; cbn [launch sc_cadence sc_pending sc_round sc_timer started ca_interval ca_active ca_last ca_pending].
  - done.
  - rewrite Hpend. split; [by eexists|done].
  - rewrite last_snoc. split; [done|]. intros r [Hin|Hin%list_elem_of_singleton]%elem_of_app; [by apply Hnz|by subst].
  - by intros [].
  - by rewrite last_snoc.
  - apply spaced_snoc; [done|]. intros r Hlast. rewrite Hlast in Hl. cbn in Hl. unfold ready_at, Time_IsZero, Time_Before in Hready. rewrite Hi, Hl in Hready.
    cbn. destruct Hready as [Hz|]; [|lia]. exfalso. apply (Hnz r); [|done]. apply last_Some in Hlast as [l' ->]. set_solver.
  - rewrite Hpend. intros ? [= <-]. exists now. by rewrite last_snoc.
Qed.

(** Waiting arms the timer. *)
Lemma waiting interval c rounds newest now : at_rest interval c rounds newest -> ~ ready_at now (sc_cadence c) ->
  scheduled interval (scheduleLocked (remaining now (sc_cadence c)) c) rounds newest /\ sc_round (scheduleLocked (remaining now (sc_cadence c)) c) = None.
Proof.
  intros [Hi [Ha Hr] Hl Hp Hn Hs] Hready.
  assert (0 < remaining now (sc_cadence c)) as Hw.
  { unfold ready_at, Time_Before in Hready. unfold remaining. apply Decidable.not_or in Hready as [_ Hb]. apply dec_stable in Hb. lia. }
  unfold scheduleLocked. destruct (decide _) as [[|Ht]|Ht]; [lia| |].
  - split; [|done]. split; try done; [|intros Hsome; split; [by apply Hp|by right]|by rewrite Hr]. rewrite Ha, Hr. split; [done|by intros []].
  - split; [|done]. split; cbn [sc_cadence sc_pending sc_round sc_timer]; try done; [|intros Hsome; split; [by apply Hp|by right]|by rewrite Hr].
    rewrite Ha, Hr. split; [done|by intros []].
Qed.

Lemma start_pending_ok interval c rounds newest now point : at_rest interval c rounds newest -> sc_pending c = Some point -> now <> 0 ->
  scheduled interval (start_pending now c) (rounds ++ option_list (pair now <$> sc_round (start_pending now c))) newest.
Proof.
  intros Hrest Hpend Hnow. assert (H := Hrest). destruct H as [_ [Ha Hr] _ Hp _ _]. rewrite Hpend in Hp. specialize (Hp ltac:(by eexists)).
  unfold start_pending, PendingAt. rewrite decide_False by (rewrite Ha, Hp; by intros []). destruct (decide _) as [Hready|Hready].
  - replace (sc_round (launch _ c)) with (Some point) by done. by apply launched.
  - replace (mkCoordinator (sc_cadence c) (sc_pending c) (sc_round c) (sc_timer c)) with c by (by destruct c).
    destruct (waiting interval c rounds newest now Hrest Hready) as [Hs ->]. by rewrite app_nil_r.
Qed.

Lemma history_scheduled interval c rounds newest : history interval c rounds newest ->
  scheduled (if decide (interval <= 0) then 10 ^ 9 else interval) c rounds newest.
Proof.
  induction 1 as [|c rounds newest e _ IH Hen Hnow].
  - split; cbn.
    + split; [done|]. destruct (decide _); lia.
    + split; [done|by intros []].
    + split; [done|]. by intros r ?%not_elem_of_nil.
    + by intros [].
    + done.
    + done.
    + done.
  - set (i := if decide _ then _ else _) in *. clearbody i. destruct IH as [Hi Ha Hl Hp Hn Hs Hr].
    destruct e as [now request update|now|now now']; cbn [enabled step_time newest_after] in *.
    + cbn [perform]. unfold submit. destruct (is_ok (SimulationRequest_Validate request)) eqn:Hv; cbn [negb].
      2: { unfold start_of. cbn [perform]. unfold submit. rewrite Hv. cbn [negb]. destruct (sc_round c) eqn:Hround; rewrite app_nil_r; by split; rewrite ?Hround. }
      unfold start_of. cbn [perform]. unfold submit. rewrite Hv. cbn [negb sc_cadence sc_pending sc_round sc_timer]. unfold Request. cbn [ca_active ca_interval ca_last].
      destruct (sc_round c) as [running|] eqn:Hround.
      * assert (ca_active (sc_cadence c) = true) as Hact by (apply Ha; by eexists). rewrite Hact, app_nil_r.
        split; cbn [sc_cadence sc_pending sc_round sc_timer ca_interval ca_active ca_last ca_pending]; try done.
        intros _. split; [done|]. left. by eexists.
      * assert (ca_active (sc_cadence c) = false) as Hact by (destruct (ca_active _) eqn:E; [destruct Ha as [Ha _]; by destruct (Ha eq_refl)|done]).
        rewrite Hact.
        set (k := mkSimulationCadence (ca_interval (sc_cadence c)) (ca_last (sc_cadence c)) false true).
        set (c1 := mkCoordinator k (Some (request, update)) None (sc_timer c)).
        assert (at_rest i c1 rounds (Some (request, update))) as Hrest by (by split).
        destruct (decide (ready_at now k)) as [Hready|Hready].
        -- pose proof (launched i c1 rounds (Some (request, update)) now (request, update) Hrest eq_refl Hready Hnow) as Hs1. exact Hs1.
        -- destruct (waiting i c1 rounds (Some (request, update)) now Hrest Hready) as [Hs1 Hnone]. unfold c1, k in *.
           cbn [sc_cadence] in Hs1, Hnone. change (remaining now _) with (remaining now k) in *. rewrite Hnone. rewrite app_nil_r. exact Hs1.
    + unfold start_of. cbn [perform]. unfold fire. cbn [sc_cadence sc_pending sc_round sc_timer].
      destruct (sc_round c) as [running|] eqn:Hround.
      * rewrite app_nil_r. split; cbn [sc_cadence sc_pending sc_round sc_timer]; try done. intros Hsome. split; [by apply Hp|]. left. by eexists.
      * destruct (sc_pending c) as [point|] eqn:Hpend.
        -- apply (start_pending_ok i (mkCoordinator (sc_cadence c) (Some point) None false) rounds newest now point); [|done..].
           split; cbn [sc_cadence sc_pending sc_round sc_timer]; try done; [|intros Hsome; by apply Hp].
           split; [|done]. destruct (ca_active _) eqn:E; [destruct Ha as [Ha _]; by destruct (Ha eq_refl)|done].
        -- rewrite app_nil_r. split; cbn [sc_cadence sc_pending sc_round sc_timer]; done.
    + unfold start_of. cbn [perform]. unfold finish. cbn [sc_cadence sc_pending sc_round sc_timer Finished snd].
      destruct (sc_pending c) as [point|] eqn:Hpend.
      * apply (start_pending_ok i (mkCoordinator (mkSimulationCadence (ca_interval (sc_cadence c)) (ca_last (sc_cadence c)) false (ca_pending (sc_cadence c)))
          (Some point) None (sc_timer c)) rounds newest now' point); [|done..].
        split; cbn [sc_cadence sc_pending sc_round sc_timer ca_interval ca_active ca_last ca_pending]; try done. intros Hsome. by apply Hp.
      * rewrite app_nil_r. split; cbn [sc_cadence sc_pending sc_round sc_timer ca_interval ca_active ca_last ca_pending]; done.
Qed.
End fairness.

(** C37.Rounds exclude each other, keep the interval and serve the newest request.  In
    every history of requests, timers and rounds: a round runs exactly while the cadence
    is taken, and it is the last one started; two rounds start at least the interval
    apart; a request that waits is the newest, and waits behind a running round or an
    armed timer; a request that does not wait is the one started last; and a timer that
    fires once the interval has passed starts the request that waits. *)
Theorem coordinator_serves_newest {U : Type} interval (c : Coordinator U) rounds newest : history interval c rounds newest ->
  let every := if decide (interval <= 0) then 10 ^ 9 else interval in
  (ca_active (sc_cadence c) = true <-> is_Some (sc_round c)) /\
  (forall point, sc_round c = Some point -> exists now, last rounds = Some (now, point)) /\
  (forall i r r', rounds !! i = Some r -> rounds !! S i = Some r' -> r.1 + every <= r'.1) /\
  newest = match sc_pending c with Some point => Some point | None => snd <$> last rounds end /\
  (is_Some (sc_pending c) -> is_Some (sc_round c) \/ sc_timer c = true) /\
  (forall now point, sc_round c = None -> sc_pending c = Some point -> default 0 (fst <$> last rounds) + every <= now ->
     sc_round (fire now c) = Some point /\ sc_pending (fire now c) = None).
Proof.
  intros [Hi Ha Hl Hp Hn Hs Hr]%history_scheduled every. split_and!; try done; [intros Hsome; by apply Hp|].
  intros now point Hround Hpend Hnow. unfold fire. rewrite Hround, Hpend. unfold start_pending, PendingAt. cbn [sc_cadence].
  destruct Hp as [Hp _]; [by rewrite Hpend|]. rewrite decide_False.
  - rewrite decide_True; [done|]. right. unfold Time_Before. destruct Hi as [Hi _], Hl as [Hl _]. rewrite Hi, Hl. fold every. lia.
  - rewrite Hp. intros [Hact|]; [|done]. apply Ha in Hact as [? Hact]. by rewrite Hround in Hact.
Qed.

(** ** Witness: three requests, of which the last replaces the second *)

Module SchedulingWitness.
Definition leg (market : string) : SimulationLeg :=
  mkSimulationLeg "base" market (mkTokenAmount "usdc" (Some 1)) (mkTokenAmount "eth" (Some 1)) (mkTokenAmount "eth" None) "" "" "" 1 "" "" 0 0 0 0.
Definition request (n : Z) : SimulationRequest :=
  mkSimulationRequest "window" n 1 (leg "m1") (leg "m2") true (mkAssetQuantity "USD" None) (mkAssetQuantity "USD" None).
Definition update (n : nat) : TrackingWindowUpdate nat := mkTrackingWindowUpdate n "" "" "" "" "".

Definition steps : list (coordinator_step (U := nat)) :=
  [Submit 100 (request 1) (update 1); Submit 101 (request 2) (update 2); Submit 102 (request 3) (update 3); Finish 103 103].
Definition after : Coordinator nat := fold_left (fun c e => perform e c) steps (newSimulationCoordinator 10).

Lemma after_history : history 10 after [(100, (request 1, update 1))] (Some (request 3, update 3)).
Proof.
  pose proof (history_step 10 _ _ _ (Submit 100 (request 1) (update 1)) (history_new 10) I ltac:(done)) as H1.
  pose proof (history_step 10 _ _ _ (Submit 101 (request 2) (update 2)) H1 I ltac:(done)) as H2.
  pose proof (history_step 10 _ _ _ (Submit 102 (request 3) (update 3)) H2 I ltac:(done)) as H3.
  refine (history_step 10 _ _ _ (Finish 103 103) H3 _ ltac:(done)). by eexists.
Qed.

Lemma serves_witness : sc_timer after = true /\ sc_round (fire 110 after) = Some (request 3, update 3).
Proof.
  split; [vm_compute; reflexivity|].
  refine (proj1 (proj2 (proj2 (proj2 (proj2 (proj2
    (coordinator_serves_newest 10 after [(100, (request 1, update 1))] (Some (request 3, update 3)) after_history))))) 110 (request 3, update 3) _ _ _));
    [vm_compute; reflexivity..|]. vm_compute. discriminate.
Defined.
End SchedulingWitness.
