(* ===== verification/RuntimeGate.v ===== *)
(** * The runtime gate (src/runtime/livecanary/runtime_gate.go)

    One state says what the process is doing: starting, idle, executing, recovering,
    refuelling, blocked or stopping.  A transition names the state it leaves and is
    refused when that is no longer the state.  Theorem: whatever is asked in whatever
    order, the transitions that succeed follow one another, so of the callers that
    contend for an idle process one at most gets it; a blocked recovery is only left by
    stopping, and stopping is final. *)
From S2P Require Import Prelude.
Local Open Scope Z_scope.

Definition RuntimeGateStarting : string := "starting".
Definition RuntimeGateIdle : string := "idle".
Definition RuntimeGateExecuting : string := "executing".
Definition RuntimeGateRecovering : string := "recovering".
Definition RuntimeGateRefueling : string := "refueling".
Definition RuntimeGateRecoveryBlocked : string := "recovery_blocked".
Definition RuntimeGateCapacityBlocked : string := "capacity_blocked".
Definition RuntimeGateStopping : string := "stopping".

(** [rg_changes]: the buffered signal. *)
Record RuntimeGate := mkRuntimeGate { rg_state : string; rg_changes : bool }.

Definition NewRuntimeGate : RuntimeGate := mkRuntimeGate RuntimeGateStarting false.

(** [None] is a nil gate. *)
Definition State (g : option RuntimeGate) : string := match g with None => RuntimeGateIdle | Some g => rg_state g end.
Definition EvaluationAllowed (g : option RuntimeGate) : bool := bool_decide (State g = RuntimeGateIdle).

Definition successors (from : string) : list string :=
  if decide (from = RuntimeGateStarting) then
    [RuntimeGateIdle; RuntimeGateCapacityBlocked; RuntimeGateRecovering; RuntimeGateRefueling; RuntimeGateRecoveryBlocked; RuntimeGateStopping]
  else if decide (from = RuntimeGateIdle) then
    [RuntimeGateExecuting; RuntimeGateRecovering; RuntimeGateRefueling; RuntimeGateRecoveryBlocked; RuntimeGateStopping]
  else if decide (from = RuntimeGateExecuting) then
    [RuntimeGateIdle; RuntimeGateCapacityBlocked; RuntimeGateRecovering; RuntimeGateRefueling; RuntimeGateRecoveryBlocked; RuntimeGateStopping]
  else if decide (from = RuntimeGateRecovering) then
    [RuntimeGateIdle; RuntimeGateCapacityBlocked; RuntimeGateRefueling; RuntimeGateRecoveryBlocked; RuntimeGateStopping]
  else if decide (from = RuntimeGateRefueling) then
    [RuntimeGateIdle; RuntimeGateCapacityBlocked; RuntimeGateExecuting; RuntimeGateRecovering; RuntimeGateRecoveryBlocked; RuntimeGateStopping]
  else if decide (from = RuntimeGateRecoveryBlocked) then [RuntimeGateStopping]
  else if decide (from = RuntimeGateCapacityBlocked) then [RuntimeGateIdle; RuntimeGateRecoveryBlocked; RuntimeGateStopping]
  else [].

Definition validRuntimeGateTransition (from to : string) : bool := bool_decide (from <> to /\ to ∈ successors from).

Definition Transition (from to : string) : ST RuntimeGate unit :=
  if negb (validRuntimeGateTransition from to) then fail "invalid runtime gate transition %s -> %s" else
  g ← get;
  if decide (rg_state g <> from) then fail "runtime gate is %s, expected %s" else put (mkRuntimeGate to true).

(** ** Contending callers *)

Definition attempt (ask : string * string) (g : RuntimeGate) : bool * RuntimeGate := let '(r, g') := Transition ask.1 ask.2 g in (is_ok r, g').

(** The transitions that succeed, in order, and the gate after them. *)
Fixpoint transitions (asks : list (string * string)) (g : RuntimeGate) : list (string * string) * RuntimeGate :=
  match asks with
  | [] => ([], g)
  | ask :: asks =>
      let '(ok, g') := attempt ask g in
      let '(done, g'') := transitions asks g' in
      ((if ok : bool then ask :: done else done), g'')
  end.

(** A path of valid transitions between two states. *)
Inductive path : string -> list (string * string) -> string -> Prop :=
| path_end s : path s [] s
| path_step s t rest u : validRuntimeGateTransition s t = true -> path t rest u -> path s ((s, t) :: rest) u.

Lemma attempt_cases ask g : attempt ask g = (false, g) \/
  (attempt ask g = (true, mkRuntimeGate ask.2 true) /\ rg_state g = ask.1 /\ validRuntimeGateTransition ask.1 ask.2 = true).
Proof.
  unfold attempt, Transition. destruct (validRuntimeGateTransition ask.1 ask.2) eqn:Hv; cbn [negb]; [|by left].
  unfold get, mbind, st_bind. destruct (decide (rg_state g <> ask.1)) as [|Hs]; [by left|]. right. split; [done|]. split; [by apply dec_stable|done].
Qed.

(** The transitions that succeed form one path of valid transitions from the state
    the gate starts in to the state it ends in: each leaves the state the one before it
    entered.  No path leads out of a stopping process, and only stopping leads out of a
    blocked recovery. *)
Theorem transitions_path asks g : path (rg_state g) (transitions asks g).1 (rg_state (transitions asks g).2) /\
  (rg_state g = RuntimeGateStopping -> (transitions asks g).1 = []) /\
  (rg_state g = RuntimeGateRecoveryBlocked -> (transitions asks g).1 ∈ [[]; [(RuntimeGateRecoveryBlocked, RuntimeGateStopping)]]).
Proof.
  assert (forall l s u, path s l u -> s = RuntimeGateStopping -> l = []) as Hstop.
  { intros l s u [|? ? ? ? Hv _]; [done|]. intros ->. by apply bool_decide_eq_true in Hv as [_ Hv%not_elem_of_nil]. }
  assert (path (rg_state g) (transitions asks g).1 (rg_state (transitions asks g).2)) as Hpath.
  { revert g. induction asks as [|ask asks IH]; intros g; cbn [transitions]; [constructor|].
    destruct (attempt_cases ask g) as [->|(-> & Hs & Hv)]; [specialize (IH g)|specialize (IH (mkRuntimeGate ask.2 true))];
      destruct (transitions asks _) as [l g'] in *; cbn [fst snd] in *; [done|].
    rewrite Hs. destruct ask as [from to]. by constructor. }
  split; [done|]. split; [intros Hs; by eapply Hstop|]. intros Hs. rewrite Hs in Hpath. inversion Hpath as [|? t rest ? Hv Hrest]; subst; [by left|].
  apply bool_decide_eq_true in Hv as [_ ->%list_elem_of_singleton]. apply Hstop in Hrest; [|done]. subst. right. by left.
Qed.
