(* ===== verification/Windows.v ===== *)
(** * Opportunity windows
    (src/domain/arbitrage/windows.go, src/domain/arbitrage/tracking.go,
    src/core/research/window_tracker.go)

    A window is the durable record of a profitable period of one direction of one
    strategy.  The tracker opens, extends and closes windows from the stream of
    opportunities over an [OpportunityStore].  Theorems: the tracker keeps a window
    exactly while the store has accepted its opening and not its end; each is valid,
    open, filed under its key and holds the best candidate among the opportunities
    the store accepted since it opened.  An improvement the store refuses is not
    kept: the window stays as it was. *)
From Stdlib Require Import QArith Qcanon.
From Stdlib Require String.
From S2P Require Import Prelude Amount Quote Registry Arbitrage.
Local Open Scope Z_scope.

Abbreviation WindowID := string (only parsing).

Definition WindowStatusOpen : string := "open".
Definition WindowStatusClosed : string := "closed".
Definition WindowStatusFailed : string := "failed".

Record WindowKey := mkWindowKey {
  wk_Run : ResearchRunID; wk_Strategy : StrategyID; wk_ConfigHash : string; wk_Direction : Direction }.
#[export] Instance WindowKey_eq_dec : EqDecision WindowKey.
Proof. solve_decision. Defined.
#[export] Instance WindowKey_countable : Countable WindowKey :=
  inj_countable' (fun k => (wk_Run k, wk_Strategy k, wk_ConfigHash k, wk_Direction k))
    (fun '(r, s, c, d) => mkWindowKey r s c d) ltac:(by intros []).

Record WindowCandidate := mkWindowCandidate {
  wc_Size : AssetQuantity; wc_GrossPnL : AssetQuantity; wc_NetPnL : AssetQuantity; wc_Cost : AssetQuantity }.

Definition WindowCandidate_Validate (c : WindowCandidate) : res unit :=
  if decide (quantity_asset (wc_Size c) = "" \/ quantity_asset (wc_GrossPnL c) = "" \/
             quantity_asset (wc_NetPnL c) = "" \/ quantity_asset (wc_Cost c) = "")
  then Err (Errorf "window candidate quantities are required") else
  if decide (quantity_asset (wc_Size c) <> quantity_asset (wc_GrossPnL c) \/
             quantity_asset (wc_Size c) <> quantity_asset (wc_NetPnL c) \/
             quantity_asset (wc_Size c) <> quantity_asset (wc_Cost c))
  then Err (Errorf "window candidate quantities must use one asset") else
  if decide (AssetQuantity_Sign (wc_Size c) < 0 \/ AssetQuantity_Sign (wc_Cost c) < 0)
  then Err (Errorf "window candidate size and cost cannot be negative") else Ok tt.

Record OpportunityWindow := mkOpportunityWindow {
  ow_ID : WindowID; ow_Run : ResearchRunID; ow_Strategy : StrategyID; ow_ConfigHash : string;
  ow_Direction : Direction; ow_Trigger : TriggerMetadata; ow_HasTrigger : bool;
  ow_OpenedAt : Time; ow_FirstProfitableAt : Time; ow_LastProfitableAt : Time; ow_ClosedAt : Time;
  ow_Best : WindowCandidate; ow_HasBest : bool; ow_Threshold : AssetQuantity; ow_Classification : string;
  ow_Status : string; ow_CloseReason : string; ow_Degraded : bool }.

Definition Window_Key (w : OpportunityWindow) : WindowKey :=
  mkWindowKey (ow_Run w) (ow_Strategy w) (ow_ConfigHash w) (ow_Direction w).

(** [time.Time.Sub] saturates at the bounds of an [int64] of nanoseconds. *)
Definition Time_Sub (t u : Time) : Z := Z.max (- 2 ^ 63) (Z.min (2 ^ 63 - 1) (t - u)).

Definition Window_Duration (w : OpportunityWindow) : Z :=
  let end_ := if decide (Time_IsZero (ow_ClosedAt w)) then ow_LastProfitableAt w else ow_ClosedAt w in
  if decide (Time_IsZero (ow_OpenedAt w) \/ Time_Before end_ (ow_OpenedAt w)) then 0 else Time_Sub end_ (ow_OpenedAt w).

Definition window_state (w : OpportunityWindow) : res unit :=
  if decide (ow_Status w = WindowStatusOpen) then
    if decide (~ Time_IsZero (ow_ClosedAt w) \/ ow_CloseReason w <> "" \/ ow_Degraded w = true)
    then Err (Errorf "open window cannot have close state") else Ok tt
  else if decide (ow_Status w = WindowStatusClosed \/ ow_Status w = WindowStatusFailed) then
    if decide (Time_IsZero (ow_ClosedAt w) \/ ow_CloseReason w = "")
    then Err (Errorf "closed window requires close state") else
    if decide (Time_Before (ow_ClosedAt w) (ow_LastProfitableAt w))
    then Err (Errorf "window closes before last profitable observation") else Ok tt
  else Err (Errorf "invalid window status %q").

Definition Window_Validate (w : OpportunityWindow) : res unit :=
  if decide (ow_ID w = "" \/ ow_Run w = "" \/ ow_Strategy w = "" \/ ow_ConfigHash w = "")
  then Err (Errorf "window identity is required") else
  if decide (direction_invalid (ow_Direction w)) then Err (Errorf "window direction is invalid") else
  if decide (Time_IsZero (ow_OpenedAt w) \/ Time_IsZero (ow_FirstProfitableAt w) \/ Time_IsZero (ow_LastProfitableAt w))
  then Err (Errorf "window timestamps are required") else
  if decide (Time_Before (ow_FirstProfitableAt w) (ow_OpenedAt w) \/
             Time_Before (ow_LastProfitableAt w) (ow_FirstProfitableAt w))
  then Err (Errorf "window profitable timestamps are out of order") else
  _ ← (if ow_HasTrigger w then Trigger_Validate (ow_Trigger w) else Ok tt);
  _ ← (if ow_HasBest w then WindowCandidate_Validate (ow_Best w)
       else Err (Errorf "window best candidate is required"));
  if decide (quantity_asset (ow_Threshold w) = "" \/
             quantity_asset (ow_Threshold w) <> quantity_asset (wc_NetPnL (ow_Best w)) \/
             AssetQuantity_Sign (ow_Threshold w) < 0)
  then Err (Errorf "window threshold must be non-negative and use the PnL asset") else
  if decide (ow_Classification w <> ClassificationEconomic /\ ow_Classification w <> ClassificationPolicyQualified)
  then Err (Errorf "window classification must be economic or policy_qualified") else
  window_state w.

Record WindowObservation := mkWindowObservation {
  wo_ID : string; wo_WindowID : WindowID; wo_Evaluation : EvaluationID; wo_ObservedAt : Time;
  wo_Classification : string; wo_Candidate : WindowCandidate; wo_HasCandidate : bool; wo_Best : bool }.

Definition WindowObservation_Validate (o : WindowObservation) : res unit :=
  if decide (wo_ID o = "" \/ wo_WindowID o = "" \/ wo_Evaluation o = "" \/ Time_IsZero (wo_ObservedAt o))
  then Err (Errorf "window observation identity and timestamp are required") else
  if decide (wo_Classification o <> ClassificationEconomic /\ wo_Classification o <> ClassificationPolicyQualified)
  then Err (Errorf "window observation classification must be economic or policy_qualified") else
  _ ← (if wo_HasCandidate o then WindowCandidate_Validate (wo_Candidate o) else Ok tt);
  if decide (wo_Best o = true /\ wo_HasCandidate o = false)
  then Err (Errorf "best observation requires a candidate") else Ok tt.

Record WindowClosing := mkWindowClosing {
  cl_WindowID : WindowID; cl_ClosedAt : Time; cl_LastProfitableAt : Time; cl_Classification : string;
  cl_Reason : string; cl_Degraded : bool }.
Record WindowFailure := mkWindowFailure {
  wf_WindowID : WindowID; wf_ClosedAt : Time; wf_LastProfitableAt : Time; wf_Reason : string }.

(** ** Tracking points of a fixed candidate *)

Definition elapsed (start finish : Time) : Z :=
  if decide (Time_IsZero start \/ Time_IsZero finish \/ Time_Before finish start) then 0 else Time_Sub finish start.

Record TrackingTimestamps := mkTrackingTimestamps {
  tt_TriggerReceivedAt : Time; tt_SnapshotCapturedAt : Time; tt_QueuedAt : Time; tt_EvaluationStartedAt : Time;
  tt_BuyStartedAt : Time; tt_BuyFinishedAt : Time; tt_ConversionStartedAt : Time; tt_ConversionFinishedAt : Time;
  tt_SellStartedAt : Time; tt_SellFinishedAt : Time; tt_PnLStartedAt : Time; tt_PnLFinishedAt : Time;
  tt_PersistenceStartedAt : Time; tt_PersistenceFinishedAt : Time; tt_NotificationEnqueuedAt : Time;
  tt_EvaluationFinishedAt : Time }.

Record TrackingDurations := mkTrackingDurations {
  td_SnapshotCapture : Z; td_Queue : Z; td_BuyQuote : Z; td_DecimalConversion : Z; td_SellQuote : Z;
  td_PnLCalculation : Z; td_LocalCalculation : Z; td_Persistence : Z; td_EventToEvaluation : Z;
  td_EventToPersistedPoint : Z; td_NotificationEnqueue : Z }.

Definition Durations (t : TrackingTimestamps) : TrackingDurations :=
  mkTrackingDurations
    (elapsed (tt_TriggerReceivedAt t) (tt_SnapshotCapturedAt t))
    (elapsed (tt_QueuedAt t) (tt_EvaluationStartedAt t))
    (elapsed (tt_BuyStartedAt t) (tt_BuyFinishedAt t))
    (elapsed (tt_ConversionStartedAt t) (tt_ConversionFinishedAt t))
    (elapsed (tt_SellStartedAt t) (tt_SellFinishedAt t))
    (elapsed (tt_PnLStartedAt t) (tt_PnLFinishedAt t))
    (elapsed (tt_EvaluationStartedAt t) (tt_PnLFinishedAt t))
    (elapsed (tt_PersistenceStartedAt t) (tt_PersistenceFinishedAt t))
    (elapsed (tt_TriggerReceivedAt t) (tt_EvaluationFinishedAt t))
    (elapsed (tt_TriggerReceivedAt t) (tt_PersistenceFinishedAt t))
    (elapsed (tt_PersistenceFinishedAt t) (tt_NotificationEnqueuedAt t)).

Record TrackingSnapshot := mkTrackingSnapshot { ts_Market : MarketID; ts_Version : Z; ts_StateHash : Digest }.

Record TrackingPoint := mkTrackingPoint {
  tp_ID : string; tp_WindowID : WindowID; tp_Sequence : Z; tp_Evaluation : EvaluationID;
  tp_Trigger : TriggerMetadata; tp_Timestamps : TrackingTimestamps; tp_Snapshots : list TrackingSnapshot;
  tp_Input : AssetQuantity; tp_BuyOutput : AssetQuantity; tp_SellOutput : AssetQuantity;
  tp_GrossPnL : AssetQuantity; tp_NetPnL : AssetQuantity; tp_FixedThreshold : AssetQuantity;
  tp_PercentageThreshold : AssetQuantity; tp_EffectiveThreshold : AssetQuantity;
  tp_DeltaFromOpening : AssetQuantity; tp_DeltaFromPrevious : AssetQuantity; tp_Classification : string;
  tp_Reason : string; tp_EconomicChange : bool; tp_IntervalFromPrevious : Z; tp_SinceOpening : Z }.

(** The quantities that are in the quote asset. *)
Definition point_quantities (p : TrackingPoint) : list AssetQuantity :=
  [tp_SellOutput p; tp_GrossPnL p; tp_NetPnL p; tp_FixedThreshold p; tp_PercentageThreshold p;
   tp_EffectiveThreshold p; tp_DeltaFromOpening p; tp_DeltaFromPrevious p].

Definition TrackingPoint_Validate (p : TrackingPoint) : res unit :=
  if decide (tp_ID p = "" \/ tp_WindowID p = "" \/ tp_Sequence p = 0 \/ tp_Evaluation p = "")
  then Err (Errorf "tracking point identity is required") else
  _ ← Trigger_Validate (tp_Trigger p);
  let t := tp_Timestamps p in
  if decide (Time_IsZero (tt_TriggerReceivedAt t) \/ Time_IsZero (tt_SnapshotCapturedAt t) \/
             Time_IsZero (tt_EvaluationStartedAt t) \/ Time_IsZero (tt_PersistenceStartedAt t))
  then Err (Errorf "tracking point clock boundaries are incomplete") else
  if decide (Exists (fun quantity => quantity_asset quantity <> quantity_asset (tp_Input p)) (point_quantities p))
  then Err (Errorf "tracking point quote quantities must use asset %q") else
  if decide (quantity_asset (tp_BuyOutput p) = "" \/ length (tp_Snapshots p) <> 2%nat)
  then Err (Errorf "tracking point requires base output and two snapshots") else Ok tt.

(** ** The tracker *)

(** The store port, over the state [W] of everything outside the tracker. *)
Record OpportunityStore (W : Type) := mkOpportunityStore {
  OpenWindow : OpportunityWindow -> ST W unit;
  RecordImprovement : WindowObservation -> ST W unit;
  CloseWindow : WindowClosing -> ST W unit;
  FailWindow : WindowFailure -> ST W unit;
  FinalizeDangling : Time -> ST W unit }.
Arguments OpenWindow {W}. Arguments RecordImprovement {W}. Arguments CloseWindow {W}.
Arguments FailWindow {W}. Arguments FinalizeDangling {W}.

Record WindowTracker := mkWindowTracker {
  wt_session : string; wt_active : gmap WindowKey OpportunityWindow; wt_qualification : string }.

Definition set_active (t : WindowTracker) (active : gmap WindowKey OpportunityWindow) : WindowTracker :=
  mkWindowTracker (wt_session t) active (wt_qualification t).

Definition newWindowTracker (hasStore hasClock : bool) (session qualification : string) : res WindowTracker :=
  if decide (hasStore = false \/ hasClock = false \/ blank session = true)
  then Err (Errorf "opportunity store, clock, and session are required") else
  if decide (qualification <> "economic" /\ qualification <> "policy_qualified")
  then Err (Errorf "unsupported window qualification %q") else Ok (mkWindowTracker session ∅ qualification).

Inductive WindowTransitionKind :=
| WindowTransitionNone | WindowTransitionOpened | WindowTransitionImproved | WindowTransitionClosed.

Record WindowTransition := mkWindowTransition {
  wx_Kind : WindowTransitionKind; wx_Window : option OpportunityWindow; wx_Opportunity : Opportunity }.

Definition selectedCandidate (o : Opportunity) : option WindowCandidate :=
  if decide (op_SelectedIndex o < 0 \/ Z.of_nat (length (op_Candidates o)) <= op_SelectedIndex o) then None else
  candidate ← op_Candidates o !! Z.to_nat (op_SelectedIndex o);
  Some (mkWindowCandidate (cd_Size candidate) (cd_GrossPnL candidate) (cd_NetPnL candidate)
          (cost_Amount (cd_Cost candidate))).

Definition opportunityTime (o : Opportunity) (fallback : Time) : Time :=
  if decide (~ Time_IsZero (op_FinishedAt o)) then op_FinishedAt o else
  if decide (~ Time_IsZero (op_StartedAt o)) then op_StartedAt o else fallback.

Definition isFavorable (t : WindowTracker) (classification : string) : bool :=
  if decide (wt_qualification t = "policy_qualified") then bool_decide (classification = ClassificationPolicyQualified)
  else bool_decide (classification = ClassificationEconomic \/ classification = ClassificationPolicyQualified).

(** [strings.Contains]. *)
Definition Contains_substring (s sub : string) : bool :=
  match String.index 0 sub s with Some _ => true | None => false end.

Definition isFailure (o : Opportunity) : bool :=
  if decide (op_Classification o <> ClassificationUnclassifiable) then false
  else existsb (fun reason => Contains_substring reason "degraded_market_snapshot" ||
                              Contains_substring reason "websocket_disconnected") (op_Reasons o).

Definition closeReason (o : Opportunity) : string :=
  if isFailure o then "websocket_disconnected" else
  if decide (op_Classification o = ClassificationUnclassifiable) then "unclassifiable" else "profitability_lost".

Definition greater (left right : AssetQuantity) : bool :=
  match AssetQuantity_Cmp left right with Ok comparison => bool_decide (0 < comparison) | _ => false end.

(** [hex.EncodeToString]. *)
Definition hex_digit (n : N) : Ascii.ascii := Ascii.ascii_of_N (if (n <? 10)%N then 48 + n else 87 + n)%N.
Fixpoint hex_encode (s : string) : string :=
  match s with
  | EmptyString => EmptyString
  | String c s => let n := Ascii.N_of_ascii c in String (hex_digit (n / 16)) (String (hex_digit (n mod 16)) (hex_encode s))
  end.

Section tracker.
Context {W : Type} (store : OpportunityStore W) (clock : W -> Time * W).
Context {order : RangeOrder WindowKey}.
(** Go's hash and the RFC 3339 text of a time. *)
Context (sha256 : string -> Digest) (rfc3339 : Time -> string).

Abbreviation State := (WindowTracker * W)%type (only parsing).

Definition external {A} (m : ST W A) : ST State A := zoom snd (fun w s => (s.1, w)) m.
Definition now : ST State Time := fun '(t, w) => let '(time, w') := clock w in (Ok time, (t, w')).

Definition short_hash (value : string) : string := hex_encode (String.substring 0 16 (sha256 value)).

Definition windowID (t : WindowTracker) (o : Opportunity) : string :=
  "window-" +:+ short_hash
    (wt_session t +:+ "|" +:+ op_Run o +:+ "|" +:+ op_Strategy o +:+ "|" +:+ op_ConfigHash o +:+ "|" +:+
     BuyMarket (op_Direction o) +:+ "|" +:+ SellMarket (op_Direction o) +:+ "|" +:+ op_Evaluation o +:+ "|" +:+
     rfc3339 (op_TriggeredAt o) +:+ "|" +:+ ref_Kind (tr_Reference (op_Trigger o)) +:+ "|" +:+
     ref_Value (tr_Reference (op_Trigger o))).

Definition observationID (window : WindowID) (evaluation : EvaluationID) : string :=
  "observation-" +:+ short_hash (window +:+ "|" +:+ evaluation).

(** [Start] finalizes the windows a previous process left open. *)
Definition Start : ST State unit :=
  time ← now;
  external (FinalizeDangling store time).

(** The trigger of a window: a missing trigger time is the opening. *)
Definition opening_trigger (o : Opportunity) (openedAt : Time) : TriggerMetadata :=
  let t := op_Trigger o in
  if op_HasTrigger o then
    mkTriggerMetadata (tr_Market t) (tr_Source t) (tr_Position t) (tr_Reference t)
      (if decide (Time_IsZero (tr_At t)) then openedAt else tr_At t)
  else t.

Definition opening_window (t : WindowTracker) (o : Opportunity) (fallback : Time) : res OpportunityWindow :=
  let observedAt := opportunityTime o fallback in
  let openedAt := if decide (Time_IsZero (op_TriggeredAt o)) then observedAt else op_TriggeredAt o in
  let observedAt := if decide (Time_Before observedAt openedAt) then openedAt else observedAt in
  match selectedCandidate o with
  | None => Err (Errorf "favorable opportunity has no selected candidate")
  | Some candidate =>
      let window := mkOpportunityWindow (windowID t o) (op_Run o) (op_Strategy o) (op_ConfigHash o) (op_Direction o)
        (opening_trigger o openedAt) (op_HasTrigger o) openedAt observedAt observedAt 0 candidate true
        (op_Threshold o) (op_Classification o) WindowStatusOpen "" false in
      _ ← Window_Validate window;
      Ok window
  end.

Definition opening (o : Opportunity) : ST State OpportunityWindow :=
  fallback ← now;
  s ← get;
  lift (opening_window s.1 o fallback).

(** The window after an observation, and whether its best candidate improved. *)
Definition improved_by (current : OpportunityWindow) (o : Opportunity) : option WindowCandidate :=
  candidate ← selectedCandidate o;
  if decide (ow_HasBest current = false \/ greater (wc_NetPnL candidate) (wc_NetPnL (ow_Best current)) = true)
  then Some candidate else None.

Definition improved_window (current : OpportunityWindow) (o : Opportunity) (at_ : Time) : OpportunityWindow :=
  mkOpportunityWindow (ow_ID current) (ow_Run current) (ow_Strategy current) (ow_ConfigHash current)
    (ow_Direction current) (ow_Trigger current) (ow_HasTrigger current) (ow_OpenedAt current)
    (ow_FirstProfitableAt current) at_ (ow_ClosedAt current) (default (ow_Best current) (improved_by current o))
    (match improved_by current o with Some _ => true | None => ow_HasBest current end)
    (ow_Threshold current) (op_Classification o) (ow_Status current) (ow_CloseReason current) (ow_Degraded current).

Definition update_active (f : gmap WindowKey OpportunityWindow -> gmap WindowKey OpportunityWindow) : ST State unit :=
  modify (fun s => (set_active s.1 (f (wt_active s.1)), s.2)).

Definition improve (key : WindowKey) (current : OpportunityWindow) (o : Opportunity) : ST State unit :=
  time ← now;
  let at_ := opportunityTime o time in
  let at_ := if decide (Time_Before at_ (ow_LastProfitableAt current)) then ow_LastProfitableAt current else at_ in
  let next := improved_window current o at_ in
  _ ← external (RecordImprovement store (mkWindowObservation (observationID (ow_ID current) (op_Evaluation o))
        (ow_ID current) (op_Evaluation o) at_ (op_Classification o) (ow_Best next) (ow_HasBest next)
        (match improved_by current o with Some _ => true | None => false end)));
  update_active (<[key := next]>).

(** [t.close]. *)
Definition close_window (key : WindowKey) (current : OpportunityWindow) (o : Opportunity) : ST State unit :=
  closedAt ← (if decide (Time_IsZero (op_TriggeredAt o)) then time ← now; mret (opportunityTime o time)
              else mret (op_TriggeredAt o));
  let closedAt := if decide (Time_Before closedAt (ow_LastProfitableAt current))
                  then ow_LastProfitableAt current else closedAt in
  let reason := closeReason o in
  _ ← external (if isFailure o
                then FailWindow store (mkWindowFailure (ow_ID current) closedAt (ow_LastProfitableAt current) reason)
                else CloseWindow store (mkWindowClosing (ow_ID current) closedAt (ow_LastProfitableAt current)
                       (op_Classification o) reason false));
  update_active (delete key).

Definition opportunity_key (o : Opportunity) : WindowKey :=
  mkWindowKey (op_Run o) (op_Strategy o) (op_ConfigHash o) (op_Direction o).

Definition Observe (o : Opportunity) : ST State WindowTransition :=
  let key := opportunity_key o in
  if decide (wk_Run key = "" \/ wk_Strategy key = "" \/ wk_ConfigHash key = "")
  then fail "opportunity identity is required" else
  s ← get;
  match isFavorable s.1 (op_Classification o), wt_active s.1 !! key with
  | true, None =>
      window ← opening o;
      _ ← external (OpenWindow store window);
      _ ← update_active (<[key := window]>);
      mret (mkWindowTransition WindowTransitionOpened (Some window) o)
  | true, Some active =>
      _ ← improve key active o;
      s ← get;
      mret (mkWindowTransition WindowTransitionImproved (wt_active s.1 !! key) o)
  | false, None => mret (mkWindowTransition WindowTransitionNone None o)
  | false, Some active =>
      _ ← close_window key active o;
      mret (mkWindowTransition WindowTransitionClosed (Some active) o)
  end.

(** The markets a failure concerns; no market means all windows. *)
Definition depends_on (marketID : MarketID) (key : WindowKey) : Prop :=
  marketID = "" \/ BuyMarket (wk_Direction key) = marketID \/ SellMarket (wk_Direction key) = marketID.
#[export] Instance depends_on_dec m k : Decision (depends_on m k) := ltac:(unfold depends_on; apply _).

Definition fail_one (marketID : MarketID) (reason : string) (at_ : Time) (entry : WindowKey * OpportunityWindow) :
    ST State unit :=
  let '(key, window) := entry in
  if decide (~ depends_on marketID key) then mret tt else
  let closedAt := if decide (Time_Before at_ (ow_LastProfitableAt window)) then ow_LastProfitableAt window else at_ in
  _ ← external (FailWindow store (mkWindowFailure (ow_ID window) closedAt (ow_LastProfitableAt window) reason));
  update_active (delete key).

Definition FailMarket (marketID : MarketID) (reason : string) (at_ : Time) : ST State unit :=
  if decide (blank reason = true) then fail "failure reason is required" else
  at_ ← (if decide (Time_IsZero at_) then now else mret at_);
  s ← get;
  for_each (fail_one marketID reason at_) (range (wt_active s.1)).

Definition ActiveWindows (t : WindowTracker) : list OpportunityWindow := (range (wt_active t)).*2.
End tracker.

(** ** The best candidate of a window *)

Lemma greater_iff l r : greater l r = true <-> quantity_asset l = quantity_asset r /\ (Rat r < Rat l)%Qc.
Proof.
  unfold greater, AssetQuantity_Cmp. destruct (decide _) as [Hne|Heq].
  - split; [done|]. tauto.
  - apply dec_stable in Heq. rewrite bool_decide_eq_true, Rat_Cmp_pos. tauto.
Qed.

(** A window tracks the opportunities observed since it opened. *)
Record window_tracked (qualification : string) (k : WindowKey) (seen : list Opportunity) (w : OpportunityWindow) : Prop := {
  tracked_key : Window_Key w = k;
  tracked_open : ow_Status w = WindowStatusOpen;
  tracked_valid : Window_Validate w = Ok tt;
  tracked_favorable : forall o, o ∈ seen -> opportunity_key o = k /\
    isFavorable (mkWindowTracker "" ∅ qualification) (op_Classification o) = true;
  tracked_best_seen : exists o, o ∈ seen /\ selectedCandidate o = Some (ow_Best w);
  tracked_best : forall o c, o ∈ seen -> selectedCandidate o = Some c ->
    quantity_asset (wc_NetPnL c) = quantity_asset (wc_NetPnL (ow_Best w)) ->
    (Rat (wc_NetPnL c) <= Rat (wc_NetPnL (ow_Best w)))%Qc;
  tracked_last : forall o, o ∈ seen -> op_FinishedAt o <> 0 -> op_FinishedAt o <= ow_LastProfitableAt w }.

(** The parts of a valid window that its extension reads. *)
Lemma Window_Validate_parts w :
  Window_Validate w = Ok tt ->
  ow_HasBest w = true /\ quantity_asset (ow_Threshold w) = quantity_asset (wc_NetPnL (ow_Best w)).
Proof.
  unfold Window_Validate. intros H. do 4 (destruct (decide _) in H; [done|]). apply bind_Ok in H as (? & _ & H).
  destruct (ow_HasBest w); [|done]. apply bind_Ok in H as (? & _ & H). destruct (decide _) as [|Hthr] in H; [done|].
  split; [done|]. destruct (decide (quantity_asset (ow_Threshold w) = quantity_asset (wc_NetPnL (ow_Best w)))); [done|tauto].
Qed.

Lemma isFavorable_class t c : isFavorable t c = true -> c = ClassificationEconomic \/ c = ClassificationPolicyQualified.
Proof. unfold isFavorable. case_decide; rewrite bool_decide_eq_true; tauto. Qed.

Lemma improved_by_Some current o c :
  improved_by current o = Some c -> ow_HasBest current = true ->
  selectedCandidate o = Some c /\ quantity_asset (wc_NetPnL c) = quantity_asset (wc_NetPnL (ow_Best current)) /\
  (Rat (wc_NetPnL (ow_Best current)) < Rat (wc_NetPnL c))%Qc.
Proof.
  unfold improved_by. intros H Hb. destruct (selectedCandidate o) as [c'|]; [|done]. cbn in H.
  destruct (decide _) as [Hg|] in H; [|done]. injection H as <-. rewrite Hb in Hg. destruct Hg as [|Hg]; [done|].
  by apply greater_iff in Hg.
Qed.

Lemma improved_by_None current o c :
  improved_by current o = None -> selectedCandidate o = Some c ->
  quantity_asset (wc_NetPnL c) = quantity_asset (wc_NetPnL (ow_Best current)) ->
  (Rat (wc_NetPnL c) <= Rat (wc_NetPnL (ow_Best current)))%Qc.
Proof.
  unfold improved_by. intros H Hc Ha. rewrite Hc in H. cbn in H. destruct (decide _) as [|Hg] in H; [done|].
  apply Qcnot_lt_le. intros Hlt. apply Hg. right. by apply greater_iff.
Qed.

Lemma improved_best_asset current o at_ :
  ow_HasBest current = true ->
  quantity_asset (wc_NetPnL (ow_Best (improved_window current o at_))) = quantity_asset (wc_NetPnL (ow_Best current)).
Proof.
  intros Hb. unfold improved_window. cbn [ow_Best]. destruct (improved_by current o) as [c|] eqn:Hi; [|done].
  apply (improved_by_Some current o c Hi Hb).
Qed.

(** Extending a valid open window keeps it valid. *)
Lemma improved_valid current o at_ :
  Window_Validate current = Ok tt -> ow_Status current = WindowStatusOpen ->
  (op_Classification o = ClassificationEconomic \/ op_Classification o = ClassificationPolicyQualified) ->
  ow_LastProfitableAt current <= at_ -> at_ <> 0 ->
  WindowCandidate_Validate (ow_Best (improved_window current o at_)) = Ok tt ->
  Window_Validate (improved_window current o at_) = Ok tt.
Proof.
  intros Hv Hopen Hclass Hle Hnz Hcand. pose proof (Window_Validate_parts _ Hv) as [Hb _].
  pose proof (improved_best_asset current o at_ Hb) as Hasset. unfold Window_Validate in Hv.
  destruct (decide _) as [|Hid] in Hv; [done|]. destruct (decide _) as [|Hdir] in Hv; [done|].
  destruct (decide _) as [|Htime] in Hv; [done|]. destruct (decide _) as [|Hord] in Hv; [done|].
  apply bind_Ok in Hv as ([] & Htr & Hv). apply bind_Ok in Hv as (? & _ & Hv). destruct (decide _) as [|Hthr] in Hv; [done|].
  destruct (decide _) as [|_] in Hv; [done|]. unfold Window_Validate.
  assert (ow_HasBest (improved_window current o at_) = true) as Hhas by (unfold improved_window; cbn; by destruct (improved_by _ _)).
  rewrite Hhas, Hcand. unfold improved_window, Time_IsZero, Time_Before in *. cbn -[decide window_state improved_by] in *.
  rewrite decide_False by done. rewrite decide_False by done. rewrite decide_False by tauto. rewrite decide_False by lia.
  rewrite Htr. cbn -[decide window_state improved_by]. rewrite Hasset. rewrite decide_False by done.
  rewrite decide_False by (intros [? ?]; tauto). unfold window_state in *. cbn in *. rewrite Hopen in *. done.
Qed.

Lemma isFavorable_qualification t c :
  isFavorable t c = isFavorable (mkWindowTracker "" ∅ (wt_qualification t)) c.
Proof. done. Qed.

Lemma improved_tracked t o seen current at_ :
  isFavorable t (op_Classification o) = true ->
  window_tracked (wt_qualification t) (opportunity_key o) seen current ->
  ow_LastProfitableAt current <= at_ -> (op_FinishedAt o <> 0 -> op_FinishedAt o <= at_) -> at_ <> 0 ->
  (ow_HasBest (improved_window current o at_) = true ->
     WindowCandidate_Validate (ow_Best (improved_window current o at_)) = Ok tt) ->
  window_tracked (wt_qualification t) (opportunity_key o) (seen ++ [o]) (improved_window current o at_).
Proof.
  intros Hfav [Hk Hopen Hv Hall Hbs Hbest Hlast] Hle Hfin Hnz Hcand.
  pose proof (Window_Validate_parts _ Hv) as [Hb _].
  pose proof (improved_best_asset current o at_ Hb) as Hasset.
  assert (ow_HasBest (improved_window current o at_) = true) as Hhas by (unfold improved_window; cbn; by destruct (improved_by _ _)).
  split; [done|done|apply improved_valid; auto; by eapply isFavorable_class| | | |].
  - intros o' [Ho| ->%list_elem_of_singleton]%elem_of_app; [by apply Hall|]. by rewrite <- isFavorable_qualification.
  - unfold improved_window. cbn [ow_Best]. destruct (improved_by current o) as [c|] eqn:Hi.
    + exists o. split; [set_solver|]. cbn. by apply (improved_by_Some current o c Hi Hb).
    + destruct Hbs as (o' & Ho' & Hc'). exists o'. split; [set_solver|done].
  - rewrite Hasset. intros o' c' Ho' Hc' Ha. unfold improved_window. cbn [ow_Best].
    destruct (improved_by current o) as [c|] eqn:Hi; cbn [default from_option id].
    + destruct (improved_by_Some current o c Hi Hb) as (Hc & Hca & Hlt).
      apply elem_of_app in Ho' as [Ho'| ->%list_elem_of_singleton]; [|rewrite Hc in Hc'; injection Hc' as <-; apply Qcle_refl].
      eapply Qcle_trans; [by eapply Hbest|by apply Qclt_le_weak].
    + apply elem_of_app in Ho' as [Ho'| ->%list_elem_of_singleton]; [by eapply Hbest|by eapply improved_by_None].
  - intros o' [Ho| ->%list_elem_of_singleton]%elem_of_app Hf; cbn; [|by apply Hfin]. specialize (Hlast o' Ho Hf). lia.
Qed.

(** ** The lifecycle as a step relation *)

Section lifecycle.
Context {W : Type} (store : OpportunityStore W) (clock : W -> Time * W).
Context {order : RangeOrder WindowKey} (sha256 : string -> Digest) (rfc3339 : Time -> string).
(** The store validates an observation before it records it. *)
Hypothesis Hvalidates : forall o w w', RecordImprovement store o w = (Ok tt, w') -> WindowObservation_Validate o = Ok tt.

Abbreviation observe := (Observe store clock sha256 rfc3339).
Abbreviation opening_of := (opening_window sha256 rfc3339).

(** What an observation can do to the tracker: it leaves it alone (and then
    reports no transition, or fails), opens a window, extends the one it keeps for
    the key, or drops it. *)
Inductive observed (t : WindowTracker) (o : Opportunity) : res WindowTransition -> WindowTracker -> Prop :=
| observed_kept r : (forall x, r = Ok x -> wx_Kind x = WindowTransitionNone) -> observed t o r t
| observed_opened window fallback :
    isFavorable t (op_Classification o) = true -> wt_active t !! opportunity_key o = None ->
    opening_of t o fallback = Ok window ->
    observed t o (Ok (mkWindowTransition WindowTransitionOpened (Some window) o))
      (set_active t (<[opportunity_key o := window]> (wt_active t)))
| observed_improved current at_ :
    isFavorable t (op_Classification o) = true -> wt_active t !! opportunity_key o = Some current ->
    ow_LastProfitableAt current <= at_ -> (op_FinishedAt o <> 0 -> op_FinishedAt o <= at_) -> at_ <> 0 ->
    (ow_HasBest (improved_window current o at_) = true ->
       WindowCandidate_Validate (ow_Best (improved_window current o at_)) = Ok tt) ->
    observed t o (Ok (mkWindowTransition WindowTransitionImproved (Some (improved_window current o at_)) o))
      (set_active t (<[opportunity_key o := improved_window current o at_]> (wt_active t)))
| observed_closed current :
    isFavorable t (op_Classification o) = false -> wt_active t !! opportunity_key o = Some current ->
    observed t o (Ok (mkWindowTransition WindowTransitionClosed (Some current) o))
      (set_active t (delete (opportunity_key o) (wt_active t))).

Lemma external_run {A} (m : ST W A) t w r w' : m w = (r, w') -> external m (t, w) = (r, (t, w')).
Proof using. intros H. unfold external, zoom. cbn. by rewrite H. Qed.

Lemma now_run t w : exists time w', now clock (t, w) = (Ok time, (t, w')).
Proof using. unfold now. destruct (clock w) as [time w']. by exists time, w'. Qed.

Lemma opening_run o t w : exists fallback w', opening clock sha256 rfc3339 o (t, w) = (opening_of t o fallback, (t, w')).
Proof using.
  unfold opening. destruct (now_run t w) as (time & w' & Hnow). exists time, w'.
  rewrite (st_bind_run _ _ _ _ _ Hnow). by rewrite (st_bind_run _ _ _ (t, w') (t, w')).
Qed.

Lemma improve_run key current o t w :
  let '(r, s') := improve store clock sha256 key current o (t, w) in
  (s'.1 = t /\ r <> Ok tt) \/
  exists at_, r = Ok tt /\ s'.1 = set_active t (<[key := improved_window current o at_]> (wt_active t)) /\
    ow_LastProfitableAt current <= at_ /\ (op_FinishedAt o <> 0 -> op_FinishedAt o <= at_) /\ at_ <> 0 /\
    (ow_HasBest (improved_window current o at_) = true ->
       WindowCandidate_Validate (ow_Best (improved_window current o at_)) = Ok tt).
Proof using Hvalidates rfc3339.
  unfold improve. destruct (now_run t w) as (time & w1 & Hnow). rewrite (st_bind_run _ _ _ _ _ Hnow). cbv zeta.
  set (at_ := if decide _ then _ else _). unfold mbind at 1, st_bind, external, zoom. cbn [snd].
  destruct (RecordImprovement store _ w1) as [[[]|e|why] w2] eqn:Hrec; [|by left..]. right. exists at_.
  apply Hvalidates in Hrec. unfold WindowObservation_Validate in Hrec. cbn in Hrec.
  destruct (decide _) as [|Hid] in Hrec; [done|]. destruct (decide _) as [|_] in Hrec; [done|].
  apply bind_Ok in Hrec as ([] & Hcand & _). split; [done|]. split; [done|].
  assert (ow_LastProfitableAt current <= at_ /\ (op_FinishedAt o <> 0 -> op_FinishedAt o <= at_)) as [? ?].
  { unfold at_, Time_Before, opportunityTime, Time_IsZero. repeat case_decide; lia. }
  split; [done|]. split; [done|]. split; [unfold Time_IsZero in Hid; tauto|]. intros Hb.
  change (ow_HasBest (improved_window current o at_)) with
    (match improved_by current o with Some _ => true | None => ow_HasBest current end) in Hb. by rewrite Hb in Hcand.
Qed.

Lemma close_run key current o t w :
  let '(r, s') := close_window store clock key current o (t, w) in
  (s'.1 = t /\ r <> Ok tt) \/ (r = Ok tt /\ s'.1 = set_active t (delete key (wt_active t))).
Proof using.
  unfold close_window. assert (exists time w1, (if decide (Time_IsZero (op_TriggeredAt o))
    then time ← now clock; mret (opportunityTime o time) else mret (op_TriggeredAt o)) (t, w) = (Ok time, (t, w1))) as (time & w1 & Hat).
  { case_decide; [|by exists (op_TriggeredAt o), w]. destruct (now_run t w) as (time & w' & Hnow).
    exists (opportunityTime o time), w'. by rewrite (st_bind_run _ _ _ _ _ Hnow). }
  rewrite (st_bind_run _ _ _ _ _ Hat). cbv zeta. unfold mbind at 1, st_bind, external, zoom. cbn [snd].
  match goal with |- context [(if isFailure o then ?a else ?b) w1] => destruct ((if isFailure o then a else b) w1) as [[[]|e|why] w2] end;
    [by right|by left..].
Qed.

(** The tracker refines the lifecycle. *)
Lemma Observe_observed o t w r s' : observe o (t, w) = (r, s') -> observed t o r s'.1.
Proof using Hvalidates rfc3339.
  unfold Observe. cbv zeta. case_decide; [intros [= <- <-]; by constructor|].
  rewrite (st_bind_run _ _ (t, w) (t, w) (t, w)) by done. cbn [fst].
  destruct (isFavorable t (op_Classification o)) eqn:Hfav, (wt_active t !! opportunity_key o) as [current|] eqn:Hact.
  - pose proof (improve_run (opportunity_key o) current o t w) as Himp. unfold mbind at 1, st_bind.
    destruct (improve _ _ _ _ _ _ _) as [[[]|e|why] s1]; destruct Himp as [[Ht Hr]|(at_ & Hr & Ht & Himp)]; try done.
    + destruct s1 as [t1 w1]. cbn [fst] in Ht. subst t1. intros Hret. cbn in Hret. injection Hret as <- <-. cbn [fst wt_active set_active].
      rewrite lookup_insert_eq. destruct Himp as (? & ? & ? & ?). by apply observed_improved.
    + intros [= <- <-]. rewrite Ht. by constructor.
    + intros [= <- <-]. rewrite Ht. by constructor.
  - destruct (opening_run o t w) as (fallback & w1 & Hopen). unfold mbind at 1, st_bind. rewrite Hopen.
    destruct (opening_of t o fallback) as [window|e|why] eqn:Hw; [|intros [= <- <-]; by constructor..].
    unfold mbind at 1, external, zoom. cbn [snd]. destruct (OpenWindow store window w1) as [[[]|e|why] w2];
      [|intros [= <- <-]; by constructor..]. intros [= <- <-]. by eapply observed_opened.
  - pose proof (close_run (opportunity_key o) current o t w) as Hcl. unfold mbind at 1, st_bind.
    destruct (close_window _ _ _ _ _ _) as [[[]|e|why] s1]; destruct Hcl as [[Ht Hr]|(Hr & Ht)]; try done.
    + intros Hret. cbn in Hret. injection Hret as <- <-. rewrite Ht. by apply observed_closed.
    + intros [= <- <-]. rewrite Ht. by constructor.
    + intros [= <- <-]. rewrite Ht. by constructor.
  - intros [= <- <-]. constructor. by intros x [= <-].
Qed.

(** A failed call leaves every window as it was. *)
Lemma fail_one_run marketID reason at_ key window t w :
  let '(r, s') := fail_one store marketID reason at_ (key, window) (t, w) in
  (r = Ok tt /\ ~ depends_on marketID key /\ s'.1 = t) \/
  (r = Ok tt /\ depends_on marketID key /\ s'.1 = set_active t (delete key (wt_active t))) \/
  (r <> Ok tt /\ s'.1 = t).
Proof using.
  unfold fail_one. destruct (decide (~ depends_on marketID key)) as [Hd|Hd]; [by left|]. apply dec_stable in Hd. cbv zeta.
  unfold mbind, st_bind, external, zoom. cbn [snd].
  destruct (FailWindow store _ w) as [[[]|e|why] w1]; right; [by left|by right..].
Qed.

(** A loop of [FailMarket] only drops windows that depend on the market, and all
    of its list when it succeeds. *)
Lemma fail_all_run marketID reason at_ l t w :
  let '(r, s') := for_each (fail_one store marketID reason at_) l (t, w) in
  wt_qualification s'.1 = wt_qualification t /\
  (forall k, wt_active s'.1 !! k = wt_active t !! k \/ (wt_active s'.1 !! k = None /\ depends_on marketID k)) /\
  (r = Ok tt -> forall k v, (k, v) ∈ l -> depends_on marketID k -> wt_active s'.1 !! k = None).
Proof using.
  revert t w. induction l as [|[key window] l IH]; intros t w.
  { cbn. split; [done|]. split; [by left|]. intros _ k v Hin. by apply elem_of_nil in Hin. }
  cbn [for_each]. pose proof (fail_one_run marketID reason at_ key window t w) as Hone.
  destruct (fail_one _ _ _ _ _ _) as [r1 [t1 w1]]. cbn [fst] in Hone.
  destruct Hone as [(-> & Hn & ->)|[(-> & Hd & ->)|(Hr & ->)]].
  - specialize (IH t w1). destruct (for_each _ _ _) as [r s']. destruct IH as (Hq & Hk & Hall).
    split; [done|]. split; [done|]. intros Hok k v [[= -> ->]|Hin]%elem_of_cons Hdep; [done|by eapply Hall].
  - specialize (IH (set_active t (delete key (wt_active t))) w1). destruct (for_each _ _ _) as [r s'].
    destruct IH as (Hq & Hk & Hall). split; [done|]. cbn [wt_active set_active] in Hk. split.
    + intros k. destruct (decide (k = key)) as [->|Hne].
      * right. split; [|done]. specialize (Hk key). rewrite lookup_delete_eq in Hk. by destruct Hk as [?|[? _]].
      * specialize (Hk k). by rewrite lookup_delete_ne in Hk.
    + intros Hok k v [[= -> ->]|Hin]%elem_of_cons Hdep; [|by eapply Hall].
      specialize (Hk key). rewrite lookup_delete_eq in Hk. by destruct Hk as [?|[? _]].
  - destruct r1 as [[]|e|why]; [done|split; [done|split; [by left|done]]..].
Qed.

Lemma FailMarket_run marketID reason at_ t w :
  let '(r, s') := FailMarket store clock marketID reason at_ (t, w) in
  wt_qualification s'.1 = wt_qualification t /\
  (forall k, wt_active s'.1 !! k = wt_active t !! k \/ (wt_active s'.1 !! k = None /\ depends_on marketID k)) /\
  (r = Ok tt -> forall k, depends_on marketID k -> wt_active s'.1 !! k = None).
Proof using.
  unfold FailMarket. case_decide; [cbn; split; [done|split; [by left|done]]|].
  assert (exists time w1, (if decide (Time_IsZero at_) then now clock else mret at_) (t, w) = (Ok time, (t, w1))) as (time & w1 & Hat).
  { case_decide; [apply now_run|by exists at_, w]. }
  rewrite (st_bind_run _ _ _ _ _ Hat), (st_bind_run _ _ _ (t, w1) (t, w1)) by done. cbn [fst].
  pose proof (fail_all_run marketID reason time (range (wt_active t)) t w1) as Hall.
  destruct (for_each _ _ _) as [r s']. destruct Hall as (Hq & Hk & Hall). split; [done|]. split; [done|].
  intros Hok k Hd. destruct (Hk k) as [Hsame|[? _]]; [|done]. rewrite Hsame.
  destruct (wt_active t !! k) as [v|] eqn:Hv; [|done]. rewrite <- Hsame. apply (Hall Hok k v); [by apply elem_of_range|done].
Qed.

Lemma opening_tracked t o fallback window :
  isFavorable t (op_Classification o) = true -> opening_of t o fallback = Ok window ->
  window_tracked (wt_qualification t) (opportunity_key o) [o] window.
Proof using.
  intros Hfav H. unfold opening_window in H. cbv zeta in H. destruct (selectedCandidate o) as [c|] eqn:Hc; [|done].
  apply bind_Ok in H as ([] & Hv & H). injection H as <-. split; try done.
  - intros o' ->%list_elem_of_singleton. by rewrite <- isFavorable_qualification.
  - exists o. split; [by left|done].
  - intros o' c' ->%list_elem_of_singleton Hc' _. rewrite Hc in Hc'. injection Hc' as <-. cbn. apply Qcle_refl.
  - intros o' ->%list_elem_of_singleton Hf. cbn. unfold Time_Before, opportunityTime, Time_IsZero. repeat case_decide; lia.
Qed.

(** A failed observation changes no window, and a failure of a market that the
    store accepts drops exactly the windows that trade on it. *)
Theorem failures_keep_windows t w :
  (forall o r s', observe o (t, w) = (r, s') -> (forall x, r <> Ok x) -> s'.1 = t) /\
  (forall marketID reason at_ s', FailMarket store clock marketID reason at_ (t, w) = (Ok tt, s') ->
     forall k, wt_active s'.1 !! k = if decide (depends_on marketID k) then None else wt_active t !! k).
Proof using Hvalidates.
  split.
  - intros o r s' H Hr. apply Observe_observed in H. by destruct H; try done; exfalso; eapply Hr.
  - intros m reason at_ s' H k. pose proof (FailMarket_run m reason at_ t w) as Hrun. rewrite H in Hrun.
    destruct Hrun as (_ & Hk & Hall). destruct (decide (depends_on m k)) as [Hd|Hd]; [by apply Hall|].
    by destruct (Hk k) as [?|[_ ?]].
Qed.
End lifecycle.

(** ** What the store accepted *)

(** A store that counts the calls it accepts, over any store. *)
Section counted.
Context {W : Type}.

Definition count_accepted {A} (m : ST W A) : ST (W * nat) A :=
  fun '(w, n) => let '(r, w') := m w in (r, (w', match r with Ok _ => S n | _ => n end)).
Definition counted_store (store : OpportunityStore W) : OpportunityStore (W * nat) :=
  mkOpportunityStore (W * nat) (fun w => count_accepted (OpenWindow store w)) (fun o => count_accepted (RecordImprovement store o))
    (fun c => count_accepted (CloseWindow store c)) (fun f => count_accepted (FailWindow store f))
    (fun time => count_accepted (FinalizeDangling store time)).
Definition counted_clock (clock : W -> Time * W) : W * nat -> Time * (W * nat) :=
  fun '(w, n) => let '(time, w') := clock w in (time, (w', n)).

Context (store : OpportunityStore W) (clock : W -> Time * W).
Context {order : RangeOrder WindowKey} (sha256 : string -> Digest) (rfc3339 : Time -> string).

Abbreviation cstore := (counted_store store).
Abbreviation cclock := (counted_clock clock).
Definition accepted_after {A} (n : nat) (r : res A) : nat := match r with Ok _ => S n | _ => n end.

Lemma external_counted {A B} (m : ST W A) (f : A -> ST (WindowTracker * (W * nat)) B) t w n :
  (external (count_accepted m) ≫= f) (t, (w, n)) =
  match m w with
  | (Ok a, w') => f a (t, (w', S n))
  | (Err e, w') => (Err e, (t, (w', n)))
  | (Panic why, w') => (Panic why, (t, (w', n)))
  end.
Proof using. unfold mbind, st_bind, external, zoom, count_accepted. cbn. by destruct (m w) as [[a|e|why] w']. Qed.

Lemma external_plain {A B} (m : ST W A) (f : A -> ST (WindowTracker * W) B) t w :
  (external m ≫= f) (t, w) =
  match m w with
  | (Ok a, w') => f a (t, w')
  | (Err e, w') => (Err e, (t, w'))
  | (Panic why, w') => (Panic why, (t, w'))
  end.
Proof using. unfold mbind, st_bind, external, zoom. cbn. by destruct (m w) as [[a|e|why] w']. Qed.

Lemma now_counted {B} (f : Time -> ST (WindowTracker * (W * nat)) B) t w n :
  (now cclock ≫= f) (t, (w, n)) = let '(time, w') := clock w in f time (t, (w', n)).
Proof using. unfold mbind, st_bind, now, counted_clock. by destruct (clock w). Qed.

Lemma now_plain {B} (f : Time -> ST (WindowTracker * W) B) t w :
  (now clock ≫= f) (t, w) = let '(time, w') := clock w in f time (t, w').
Proof using. unfold mbind, st_bind, now. by destruct (clock w). Qed.

Lemma improve_counted key current o t w n :
  improve cstore cclock sha256 key current o (t, (w, n)) =
  let '(r, (t', w')) := improve store clock sha256 key current o (t, w) in (r, (t', (w', accepted_after n r))).
Proof using.
  unfold improve. rewrite now_counted, now_plain. destruct (clock w) as [time w1]. cbv zeta. cbn [RecordImprovement counted_store].
  rewrite external_counted, external_plain. by destruct (RecordImprovement store _ w1) as [[[]|e|why] w2].
Qed.

Lemma close_counted key current o t w n :
  close_window cstore cclock key current o (t, (w, n)) =
  let '(r, (t', w')) := close_window store clock key current o (t, w) in (r, (t', (w', accepted_after n r))).
Proof using.
  unfold close_window.
  assert (exists time w1, (if decide (Time_IsZero (op_TriggeredAt o)) then time ← now clock; mret (opportunityTime o time)
      else mret (op_TriggeredAt o)) (t, w) = (Ok time, (t, w1)) /\
    (if decide (Time_IsZero (op_TriggeredAt o)) then time ← now cclock; mret (opportunityTime o time)
      else mret (op_TriggeredAt o)) (t, (w, n)) = (Ok time, (t, (w1, n)))) as (time & w1 & H1 & H2).
  { case_decide; [rewrite now_counted, now_plain; destruct (clock w) as [time w1]|]; by eexists _, _. }
  rewrite (st_bind_run _ _ _ _ _ H1), (st_bind_run _ _ _ _ _ H2). cbv zeta. cbn [FailWindow CloseWindow counted_store].
  destruct (isFailure o); rewrite external_counted, external_plain;
    match goal with |- context [match ?call w1 with _ => _ end] => by destruct (call w1) as [[[]|e|why] w2] end.
Qed.

Lemma opening_counted o t w n :
  opening cclock sha256 rfc3339 o (t, (w, n)) =
  let '(r, (t', w')) := opening clock sha256 rfc3339 o (t, w) in (r, (t', (w', n))).
Proof using. unfold opening. rewrite now_counted, now_plain. by destruct (clock w) as [time w1]. Qed.

(** Counting changes nothing else, and an observation that ends in a transition is
    one that the store accepted, once. *)
Lemma Observe_counted o t w n :
  Observe cstore cclock sha256 rfc3339 o (t, (w, n)) =
  let '(r, (t', w')) := Observe store clock sha256 rfc3339 o (t, w) in
  (r, (t', (w', match r with Ok x => match wx_Kind x with WindowTransitionNone => n | _ => S n end | _ => n end))).
Proof using.
  unfold Observe. cbv zeta. case_decide; [done|].
  rewrite (st_bind_run _ _ (t, w) (t, w) (t, w)), (st_bind_run _ _ (t, (w, n)) (t, (w, n)) (t, (w, n))) by done. cbn [fst].
  destruct (isFavorable t (op_Classification o)), (wt_active t !! opportunity_key o) as [current|].
  - unfold mbind at 1 3, st_bind. rewrite improve_counted. by destruct (improve _ _ _ _ _ _ _) as [[[]|e|why] [t' w']].
  - unfold mbind at 1 4, st_bind. rewrite opening_counted. destruct (opening _ _ _ _ _) as [[window|e|why] [t1 w1]]; [|done..].
    cbn [OpenWindow counted_store]. rewrite external_counted, external_plain. by destruct (OpenWindow store window w1) as [[[]|e|why] w2].
  - unfold mbind at 1 2, st_bind. rewrite close_counted. by destruct (close_window _ _ _ _ _ _) as [[[]|e|why] [t' w']].
  - done.
Qed.

(** The windows a failure of a market drops when the store accepts that many of its
    calls: the first of those that trade on it, in the order of Go's range. *)
Definition dropped (t : WindowTracker) (marketID : MarketID) (accepted : nat) : list WindowKey :=
  take accepted (filter (depends_on marketID) (range (wt_active t)).*1).
Definition without {A} (keys : list WindowKey) (m : gmap WindowKey A) : gmap WindowKey A := filter (fun p => p.1 ∉ keys) m.

Lemma lookup_without {A} keys (m : gmap WindowKey A) k : without keys m !! k = if decide (k ∈ keys) then None else m !! k.
Proof using.
  unfold without. rewrite map_lookup_filter. destruct (m !! k) as [a|]; cbn; [|by case_decide].
  destruct (decide (k ∈ keys)) as [H|H]; [by rewrite option_guard_False by tauto|by rewrite option_guard_True].
Qed.

Lemma without_delete {A} key keys (m : gmap WindowKey A) : without keys (delete key m) = without (key :: keys) m.
Proof using.
  apply map_eq. intros k. rewrite !lookup_without. destruct (decide (k = key)) as [->|Hne].
  - rewrite lookup_delete_eq, (decide_True (P := key ∈ key :: keys)) by by left. by case_decide.
  - rewrite lookup_delete_ne by done. apply decide_ext. rewrite elem_of_cons. tauto.
Qed.

Lemma without_nil {A} (m : gmap WindowKey A) : without [] m = m.
Proof using. apply map_eq. intros k. rewrite lookup_without. rewrite decide_False; [done|]. by intros ?%elem_of_nil. Qed.

Lemma set_active_same t : set_active t (wt_active t) = t.
Proof using. by destruct t. Qed.

Lemma fail_all_counted marketID reason at_ l t w n :
  let '(r, (t', w')) := for_each (fail_one store marketID reason at_) l (t, w) in
  exists accepted, for_each (fail_one cstore marketID reason at_) l (t, (w, n)) = (r, (t', (w', (n + accepted)%nat))) /\
    t' = set_active t (without (take accepted (filter (depends_on marketID) l.*1)) (wt_active t)).
Proof using.
  revert t w n. induction l as [|[key window] l IH]; intros t w n; cbn [for_each fmap list_fmap fst].
  { exists 0%nat. rewrite Nat.add_0_r. cbn [take]. by rewrite without_nil, set_active_same. }
  rewrite filter_cons. unfold fail_one at 1 3. destruct (decide (~ depends_on marketID key)) as [Hd|Hd].
  { rewrite (decide_False (P := depends_on marketID key)) by done. apply IH. }
  rewrite (decide_True (P := depends_on marketID key)) by by apply dec_stable. cbv zeta. cbn [FailWindow counted_store].
  rewrite external_counted, external_plain. destruct (FailWindow store _ w) as [[[]|e|why] w1].
  - set (t1 := set_active t (delete key (wt_active t))). specialize (IH t1 w1 (Datatypes.S n)).
    change (update_active (delete key) (t, w1)) with (@Ok unit tt, (t1, w1)).
    change (update_active (delete key) (t, (w1, Datatypes.S n))) with (@Ok unit tt, (t1, (w1, Datatypes.S n))).
    destruct (for_each (fail_one store marketID reason at_) l (t1, w1)) as [r [t' w']].
    destruct IH as (accepted & -> & ->). exists (Datatypes.S accepted). rewrite Nat.add_succ_r. split; [done|].
    cbn [take]. by rewrite <- without_delete.
  - exists 0%nat. rewrite Nat.add_0_r. cbn [take]. by rewrite without_nil, set_active_same.
  - exists 0%nat. rewrite Nat.add_0_r. cbn [take]. by rewrite without_nil, set_active_same.
Qed.

Lemma FailMarket_counted marketID reason at_ t w :
  let '(r, (t', w')) := FailMarket store clock marketID reason at_ (t, w) in
  exists accepted, FailMarket cstore cclock marketID reason at_ (t, (w, 0%nat)) = (r, (t', (w', accepted))) /\
    t' = set_active t (without (dropped t marketID accepted) (wt_active t)).
Proof using.
  unfold FailMarket. case_decide.
  { exists 0%nat. split; [done|]. unfold dropped. cbn [take]. by rewrite without_nil, set_active_same. }
  assert (exists time w1, (if decide (Time_IsZero at_) then now clock else mret at_) (t, w) = (Ok time, (t, w1)) /\
    (if decide (Time_IsZero at_) then now cclock else mret at_) (t, (w, 0%nat)) = (Ok time, (t, (w1, 0%nat)))) as (time & w1 & H1 & H2).
  { case_decide; [unfold now, counted_clock; destruct (clock w) as [time w1]|]; by eexists _, _. }
  rewrite (st_bind_run _ _ _ _ _ H1), (st_bind_run _ _ _ _ _ H2).
  rewrite (st_bind_run _ _ (t, w1) (t, w1) (t, w1)), (st_bind_run _ _ (t, (w1, 0%nat)) (t, (w1, 0%nat)) (t, (w1, 0%nat))) by done.
  cbn [fst]. apply (fail_all_counted marketID reason time (range (wt_active t)) t w1 0).
Qed.
End counted.

(** ** Windows track the stream *)

Section tracking.
Context {W : Type} (store : OpportunityStore W) (clock : W -> Time * W).
Context {order : RangeOrder WindowKey} (sha256 : string -> Digest) (rfc3339 : Time -> string).
(** The store validates an observation before it records it, as the SQLite store
    does (src/adapters/persistence/sqlite/store.go, RecordImprovement). *)
Hypothesis Hvalidates : forall o w w', RecordImprovement store o w = (Ok tt, w') -> WindowObservation_Validate o = Ok tt.

(** The opportunities the store accepted since each window opened: a favorable one
    opens or extends the window of its key, any other ends it.  What the store
    refused, and what the tracker reports, does not count. *)
Definition accept_opportunity (qualification : string) (h : gmap WindowKey (list Opportunity)) (o : Opportunity) (accepted : nat) :
    gmap WindowKey (list Opportunity) :=
  if decide (accepted = 0%nat) then h else
  if isFavorable (mkWindowTracker "" ∅ qualification) (op_Classification o)
  then <[opportunity_key o := default [] (h !! opportunity_key o) ++ [o]]> h
  else delete (opportunity_key o) h.

(** The tracker after any sequence of calls, whatever they return and whatever
    happens outside between them, with what the store accepted in each. *)
Inductive tracked : WindowTracker -> gmap WindowKey (list Opportunity) -> Prop :=
| tracked_new session qualification t :
    newWindowTracker true true session qualification = Ok t -> tracked t ∅
| tracked_observe t h o w r t' w' accepted :
    tracked t h ->
    Observe (counted_store store) (counted_clock clock) sha256 rfc3339 o (t, (w, 0%nat)) = (r, (t', (w', accepted))) ->
    tracked t' (accept_opportunity (wt_qualification t) h o accepted)
| tracked_fail t h marketID reason at_ w r t' w' accepted :
    tracked t h ->
    FailMarket (counted_store store) (counted_clock clock) marketID reason at_ (t, (w, 0%nat)) = (r, (t', (w', accepted))) ->
    tracked t' (without (dropped t marketID accepted) h).

Definition windows_ok (t : WindowTracker) (h : gmap WindowKey (list Opportunity)) : Prop :=
  forall k, match wt_active t !! k, h !! k with
            | Some w, Some seen => window_tracked (wt_qualification t) k seen w
            | None, None => True
            | _, _ => False
            end.

Lemma windows_ok_at t h k w :
  windows_ok t h -> wt_active t !! k = Some w -> exists seen, h !! k = Some seen /\ window_tracked (wt_qualification t) k seen w.
Proof using. intros H Hw. specialize (H k). rewrite Hw in H. destruct (h !! k) as [s|]; [by exists s|done]. Qed.

Lemma windows_ok_none t h k : windows_ok t h -> wt_active t !! k = None -> h !! k = None.
Proof using. intros H Hw. specialize (H k). rewrite Hw in H. by destruct (h !! k). Qed.

Lemma windows_ok_set t h k w seen :
  windows_ok t h -> window_tracked (wt_qualification t) k seen w ->
  windows_ok (set_active t (<[k := w]> (wt_active t))) (<[k := seen]> h).
Proof using.
  intros H Hw k'. cbn [wt_active set_active wt_qualification]. destruct (decide (k = k')) as [<-|Hne].
  - by rewrite !lookup_insert_eq.
  - rewrite !lookup_insert_ne by done. apply H.
Qed.

Lemma windows_ok_without t h keys : windows_ok t h -> windows_ok (set_active t (without keys (wt_active t))) (without keys h).
Proof using. intros H k. cbn [wt_active set_active wt_qualification]. rewrite !lookup_without. case_decide; [done|apply H]. Qed.

Lemma windows_ok_observe t h o w r t' w' accepted :
  windows_ok t h ->
  Observe (counted_store store) (counted_clock clock) sha256 rfc3339 o (t, (w, 0%nat)) = (r, (t', (w', accepted))) ->
  windows_ok t' (accept_opportunity (wt_qualification t) h o accepted).
Proof using Hvalidates.
  intros IH. rewrite Observe_counted. destruct (Observe store clock sha256 rfc3339 o (t, w)) as [r1 [t1 w1]] eqn:Hobs.
  apply (Observe_observed store clock sha256 rfc3339 Hvalidates) in Hobs. cbn [fst] in Hobs. intros [= -> -> _ <-]. unfold accept_opportunity.
  destruct Hobs as [r Hnone|window fallback Hfav Hact Hopen|current at_ Hfav Hact Hle Hfin Hnz Hcand|current Hfav Hact].
  - rewrite decide_True; [done|]. destruct r as [x| |]; [|done..]. by rewrite (Hnone x eq_refl).
  - cbn [wx_Kind]. rewrite decide_False, <- isFavorable_qualification, Hfav, (windows_ok_none t h _ IH Hact) by done.
    apply windows_ok_set; [done|]. by eapply opening_tracked.
  - destruct (windows_ok_at t h _ current IH Hact) as (seen & Hseen & Htr). cbn [wx_Kind].
    rewrite decide_False, <- isFavorable_qualification, Hfav, Hseen by done. apply windows_ok_set; [done|by apply improved_tracked].
  - cbn [wx_Kind]. rewrite decide_False, <- isFavorable_qualification, Hfav by done. intros k'. cbn [wt_active set_active wt_qualification].
    destruct (decide (opportunity_key o = k')) as [<-|Hne]; [by rewrite !lookup_delete_eq|]. rewrite !lookup_delete_ne by done. apply IH.
Qed.

(** C31. After any sequence of observations and market failures over a store that
    validates the observations it records, a window is active exactly when the store
    accepted its opening and has not accepted its end.  It is valid, open and filed
    under its own key; its best candidate is that of an opportunity the store
    accepted since the window opened, and no other accepted since has a greater
    result; its last profitable time is no earlier than any of them.  What the store
    refuses is not among them: a better candidate it refuses does not replace the
    best one. *)
Theorem windows_track_best t h :
  tracked t h -> forall k,
  match wt_active t !! k with
  | Some w => exists seen, h !! k = Some seen /\ window_tracked (wt_qualification t) k seen w
  | None => h !! k = None
  end.
Proof using Hvalidates.
  intros Ht k. enough (windows_ok t h) as Hok.
  { destruct (wt_active t !! k) as [w|] eqn:Hw; [by eapply windows_ok_at|by eapply windows_ok_none]. }
  induction Ht as [session q t Hnew|t h o w0 r t' w' accepted _ IH Hobs|t h m reason at_ w0 r t' w' accepted _ IH Hfail].
  - unfold newWindowTracker in Hnew. do 2 (destruct (decide _) in Hnew; [done|]). by injection Hnew as <-.
  - by eapply windows_ok_observe.
  - pose proof (FailMarket_counted store clock m reason at_ t w0) as Hrun.
    destruct (FailMarket store clock m reason at_ (t, w0)) as [r1 [t1 w1]]. destruct Hrun as (n & Hc & ->). rewrite Hc in Hfail.
    injection Hfail as _ <- _ <-. by apply windows_ok_without.
Qed.
End tracking.

Module WindowsWitness.
#[local] Existing Instance range_map_to_list.
(** A store that validates what it records and accepts everything else. *)
Definition store : OpportunityStore unit :=
  mkOpportunityStore unit (fun _ w => (Ok tt, w)) (fun o w => (WindowObservation_Validate o, w))
    (fun _ w => (Ok tt, w)) (fun _ w => (Ok tt, w)) (fun _ w => (Ok tt, w)).
Definition clock (w : unit) : Time * unit := (9, w).
Definition hash (s : string) : Digest := "0123456789abcdef0123456789abcdef".
Definition format (t : Time) : string := pretty t.

Definition usd (n : Z) : AssetQuantity := mkAssetQuantity "USD" (Some (SetInt n)).
Definition no_quote : Quote :=
  mkQuote "" "" 0 "" (mkSourcePosition "" 0) "" "" "" "" TokenAmount_zero TokenAmount_zero 0 [].
Definition candidate (pnl : Z) : Candidate :=
  mkCandidate (usd 100) (usd 100) (usd (100 + pnl)) (usd pnl) (mkCostSnapshot "c" (usd 0) 1) (usd pnl)
    (usd 0) (usd 0) (usd 0) no_quote no_quote None None.
Definition sighting (evaluation : string) (pnl at_ : Z) : Opportunity :=
  mkOpportunity evaluation "run" "hash" "strategy" (mkDirection "m1" "m2") ClassificationEconomic [] [candidate pnl] 0
    (usd 0) [] (mkTriggerMetadata "" "" (mkSourcePosition "" 0) (mkSourceReference "" "") 0) false at_ at_ (at_ + 1).
Definition key : WindowKey := mkWindowKey "run" "strategy" "hash" (mkDirection "m1" "m2").

Definition idle : WindowTracker := mkWindowTracker "s" ∅ "economic".
Definition observe (o : Opportunity) (t : WindowTracker) : res WindowTransition * (WindowTracker * unit) :=
  Observe store clock hash format o (t, tt).
Definition opened : WindowTracker := (observe (sighting "e1" 5 10) idle).2.1.
Definition extended : WindowTracker := (observe (sighting "e2" 8 20) opened).2.1.
Definition history : gmap WindowKey (list Opportunity) :=
  accept_opportunity "economic" (accept_opportunity "economic" ∅ (sighting "e1" 5 10) 1) (sighting "e2" 8 20) 1.

Lemma validates o (w w' : unit) : RecordImprovement store o w = (Ok tt, w') -> WindowObservation_Validate o = Ok tt.
Proof. cbn. by intros [= H]. Qed.

Lemma extended_tracked : tracked store clock hash format extended history.
Proof.
  apply (tracked_observe store clock hash format opened _ (sighting "e2" 8 20) tt (observe (sighting "e2" 8 20) opened).1 extended tt 1);
    [|vm_compute; reflexivity].
  apply (tracked_observe store clock hash format idle ∅ (sighting "e1" 5 10) tt (observe (sighting "e1" 5 10) idle).1 opened tt 1);
    [by apply (tracked_new store clock hash format "s" "economic")|vm_compute; reflexivity].
Qed.

Lemma track_witness :
  exists w, wt_active extended !! key = Some w /\ ow_LastProfitableAt w = 21 /\ wc_NetPnL (ow_Best w) = usd 8 /\
    exists seen, history !! key = Some seen /\ window_tracked "economic" key seen w.
Proof.
  assert (Hall := windows_track_best store clock hash format validates extended history extended_tracked key).
  destruct (wt_active extended !! key) as [w|] eqn:Hw; [|vm_compute in Hw; discriminate Hw].
  exists w. split; [reflexivity|]. assert (Hw' := Hw). vm_compute in Hw'. injection Hw' as Hw'.
  split; [rewrite <- Hw'; reflexivity|]. split; [rewrite <- Hw'; apply (f_equal (mkAssetQuantity "USD")); reflexivity|]. exact Hall.
Defined.

(** A store that accepts openings and refuses improvements: the better candidate is
    not kept, and is not among those the store accepted. *)
Definition refusing : OpportunityStore unit :=
  mkOpportunityStore unit (fun _ w => (Ok tt, w)) (fun _ w => (Err (Errorf "locked"), w))
    (fun _ w => (Ok tt, w)) (fun _ w => (Ok tt, w)) (fun _ w => (Ok tt, w)).
Example refused_improvement_not_kept :
  let '(r, (t, (_, accepted))) := Observe (counted_store refusing) (counted_clock clock) hash format (sighting "e2" 8 20) (opened, (tt, 0%nat)) in
  r = Err (Errorf "locked") /\ accepted = 0%nat /\ t = opened.
Proof. vm_compute. done. Qed.

Lemma failures_witness :
  forall k, wt_active (FailMarket store clock "m1" "down" 30 (extended, tt)).2.1 !! k =
    if decide (depends_on "m1" k) then None else wt_active extended !! k.
Proof.
  apply (proj2 (failures_keep_windows store clock hash format validates extended tt) "m1" "down" 30
    (FailMarket store clock "m1" "down" 30 (extended, tt)).2). vm_compute. reflexivity.
Defined.
End WindowsWitness.
