(* ===== verification/Inventory.v ===== *)
(** * Prefunded inventory (src/domain/inventory/inventory.go)

    The single mutable owner of the configured balances and of the in-flight
    reservations.  Every method is a call of the state monad [ST Inventory]:
    the mutex makes each one atomic, so a run of the program is a sequence of
    calls.  The [big.Int] pointers of the maps are never shared (each entry is
    a copy made by [Units] or [new]), so a map holds plain integers. *)
From S2P Require Import Prelude Amount.

Abbreviation ReservationID := string (only parsing).
Abbreviation OperationID := string (only parsing).
Abbreviation AccountID := string (only parsing).

Record Key := mkKey { Key_Chain : ChainID; Key_Account : AccountID; Key_Token : TokenID }.

#[export] Instance Key_eq_dec : EqDecision Key.
Proof. solve_decision. Defined.
#[export] Instance Key_countable : Countable Key :=
  inj_countable' (fun k => (Key_Chain k, Key_Account k, Key_Token k))
    (fun '(c, a, t) => mkKey c a t) ltac:(by intros []).

Record Requirement := mkRequirement { req_Key : Key; req_Amount : TokenAmount }.
Record Effect := mkEffect { eff_Key : Key; eff_Delta : option Z }.

Record BalancePolicy := mkBalancePolicy {
  pol_WalletBalance : TokenAmount; pol_AllocationCap : TokenAmount;
  pol_Target : TokenAmount; pol_Buffer : TokenAmount; pol_InFlightOut : TokenAmount }.

Record Reservation := mkReservation {
  res_ID : ReservationID; res_Operation : OperationID;
  res_requirements : list Requirement }.

Definition requirement_invalid (r : Requirement) : Prop :=
  Key_Chain (req_Key r) = "" \/ Key_Account (req_Key r) = "" \/ Key_Token (req_Key r) = "" \/
  amount_token (req_Amount r) <> Key_Token (req_Key r) \/ IsZero (req_Amount r).
#[export] Instance requirement_invalid_dec r : Decision (requirement_invalid r) :=
  ltac:(unfold requirement_invalid; apply _).

Definition NewReservation (id : ReservationID) (operation : OperationID)
    (requirements : list Requirement) : res Reservation :=
  if decide (id = "" \/ operation = "" \/ requirements = [])
  then Err (Errorf "reservation identity, operation, and requirements are required") else
  if decide (Exists requirement_invalid requirements)
  then Err (Errorf "reservation contains an invalid requirement")
  else Ok (mkReservation id operation requirements).

Record Inventory := mkInventory {
  balances : gmap Key Z; allocationCaps : gmap Key Z; targets : gmap Key Z;
  buffers : gmap Key Z; inFlightOut : gmap Key Z; reserved : gmap Key Z;
  reservations : gmap ReservationID Reservation;
  settled : gmap ReservationID string }.

Definition set_balances (m : gmap Key Z) (i : Inventory) : Inventory :=
  mkInventory m (allocationCaps i) (targets i) (buffers i) (inFlightOut i) (reserved i)
    (reservations i) (settled i).
Definition set_inFlightOut (m : gmap Key Z) (i : Inventory) : Inventory :=
  mkInventory (balances i) (allocationCaps i) (targets i) (buffers i) m (reserved i)
    (reservations i) (settled i).
Definition set_reserved (m : gmap Key Z) (i : Inventory) : Inventory :=
  mkInventory (balances i) (allocationCaps i) (targets i) (buffers i) (inFlightOut i) m
    (reservations i) (settled i).
Definition set_reservations (m : gmap ReservationID Reservation) (i : Inventory) : Inventory :=
  mkInventory (balances i) (allocationCaps i) (targets i) (buffers i) (inFlightOut i)
    (reserved i) m (settled i).
Definition set_settled (m : gmap ReservationID string) (i : Inventory) : Inventory :=
  mkInventory (balances i) (allocationCaps i) (targets i) (buffers i) (inFlightOut i)
    (reserved i) (reservations i) m.

Section inventory.
Context {order : RangeOrder Key}.

(** ** Construction *)

Definition policy_invalid (key : Key) (policy : BalancePolicy) : Prop :=
  Key_Chain key = "" \/ Key_Account key = "" \/ Key_Token key = "" \/
  amount_token (pol_WalletBalance policy) <> Key_Token key \/
  amount_token (pol_AllocationCap policy) <> Key_Token key \/
  amount_token (pol_Target policy) <> Key_Token key \/
  amount_token (pol_Buffer policy) <> Key_Token key \/
  amount_token (pol_InFlightOut policy) <> Key_Token key \/
  Units (pol_AllocationCap policy) < Units (pol_Target policy) \/
  Units (pol_AllocationCap policy) <= Units (pol_Buffer policy).
#[local] Instance policy_invalid_dec key policy : Decision (policy_invalid key policy) :=
  ltac:(unfold policy_invalid; apply _).

Definition Inventory_empty : Inventory := mkInventory ∅ ∅ ∅ ∅ ∅ ∅ ∅ ∅.

Definition NewWithPolicies_step (result : Inventory) (entry : Key * BalancePolicy) :
    res Inventory :=
  let '(key, policy) := entry in
  if decide (policy_invalid key policy)
  then Err (Errorf "inventory balance key and token amount do not match") else
  Ok (mkInventory
        (<[key := Units (pol_WalletBalance policy)]> (balances result))
        (<[key := Units (pol_AllocationCap policy)]> (allocationCaps result))
        (<[key := Units (pol_Target policy)]> (targets result))
        (<[key := Units (pol_Buffer policy)]> (buffers result))
        (<[key := Units (pol_InFlightOut policy)]> (inFlightOut result))
        (<[key := 0]> (reserved result))
        (reservations result) (settled result)).

Definition NewWithPolicies (policies : gmap Key BalancePolicy) : res Inventory :=
  foldM NewWithPolicies_step Inventory_empty (range policies).

Definition New_step (policies : gmap Key BalancePolicy) (entry : Key * TokenAmount) :
    res (gmap Key BalancePolicy) :=
  let '(key, amount) := entry in
  zero ← NewTokenAmount (Key_Token key) (Some 0);
  unbounded ← NewTokenAmount (Key_Token key) (Some (Z.shiftl 1 256 - 1));
  Ok (<[key := mkBalancePolicy amount unbounded amount zero zero]> policies).

Definition New (balances : gmap Key TokenAmount) : res Inventory :=
  policies ← foldM New_step ∅ (range balances);
  NewWithPolicies policies.

(** ** Reading *)

(** [effectiveAvailableLocked]; a missing buffer, reserved or in-flight entry
    is a nil [big.Int] and dereferencing it panics. *)
Definition effectiveAvailableLocked (i : Inventory) (key : Key) (wallet : Z) : res Z :=
  let effective := match allocationCaps i !! key with
                   | Some cap => if decide (cap < wallet) then cap else wallet
                   | None => wallet
                   end in
  match buffers i !! key, reserved i !! key, inFlightOut i !! key with
  | Some buffer, Some held, Some flight =>
      let effective := effective - buffer - held - flight in
      Ok (if decide (effective < 0) then 0 else effective)
  | _, _, _ => Panic "nil big.Int"
  end.

Definition Available (i : Inventory) (key : Key) : res (option Z) :=
  match balances i !! key with
  | None => Ok None
  | Some balance => available ← effectiveAvailableLocked i key balance; Ok (Some available)
  end.

Definition WalletBalance (i : Inventory) (key : Key) : option Z := balances i !! key.

(** ** Sums by key *)

(** [if m[key] == nil { m[key] = new(big.Int) }; m[key].Add(m[key], d)]. *)
Definition accumulate (m : gmap Key Z) (key : Key) (d : Z) : gmap Key Z :=
  <[key := default 0 (m !! key) + d]> m.

Definition combinedRequirements (requirements : list Requirement) : gmap Key Z :=
  foldl (fun m r => accumulate m (req_Key r) (Units (req_Amount r))) ∅ requirements.

(** [i.reserved[key].Add(i.reserved[key], d)] in place; the entry must exist. *)
Definition add_reserved (entry : Key * Z) : ST Inventory unit := fun i =>
  match reserved i !! entry.1 with
  | None => (Panic "nil big.Int", i)
  | Some held => (Ok tt, set_reserved (<[entry.1 := held + entry.2]> (reserved i)) i)
  end.

Definition sub_reserved (entry : Key * Z) : ST Inventory unit :=
  add_reserved (entry.1, - entry.2).

Definition add_balance (entry : Key * Z) : ST Inventory unit := fun i =>
  match balances i !! entry.1 with
  | None => (Panic "nil big.Int", i)
  | Some balance => (Ok tt, set_balances (<[entry.1 := balance + entry.2]> (balances i)) i)
  end.

Definition requirement_entry (r : Requirement) : Key * Z := (req_Key r, Units (req_Amount r)).

(** ** Reserve *)

Definition Reserve_combine (combined : gmap Key Z) (r : Requirement) : res (gmap Key Z) :=
  if decide (Key_Token (req_Key r) = "" \/
             amount_token (req_Amount r) <> Key_Token (req_Key r) \/ IsZero (req_Amount r))
  then Err (Errorf "reservation contains an invalid requirement")
  else Ok (accumulate combined (req_Key r) (Units (req_Amount r))).

Definition Reserve_check (i : Inventory) (_ : unit) (entry : Key * Z) : res unit :=
  match balances i !! entry.1 with
  | None => Err (Errorf "inventory has no balance for chain %q token %q")
  | Some balance =>
      available ← effectiveAvailableLocked i entry.1 balance;
      if decide (available < entry.2)
      then Err (Errorf "insufficient unreserved inventory for chain %q token %q")
      else Ok tt
  end.

Definition Reserve (id : ReservationID) (operation : OperationID)
    (requirements : list Requirement) : ST Inventory Reservation :=
  if decide (id = "" \/ operation = "" \/ requirements = [])
  then fail "reservation identity, operation, and requirements are required" else
  i ← get;
  match reservations i !! id with
  | Some existing =>
      if decide (res_Operation existing <> operation)
      then fail "reservation %q already belongs to another operation"
      else mret existing
  | None =>
      if decide (is_Some (settled i !! id)) then fail "reservation %q is already settled" else
      combined ← lift (foldM Reserve_combine ∅ requirements);
      _ ← lift (foldM (Reserve_check i) tt (range combined));
      _ ← for_each add_reserved (range combined);
      reservation ← lift (NewReservation id operation requirements);
      _ ← modify (fun i => set_reservations (<[id := reservation]> (reservations i)) i);
      mret reservation
  end.

(** ** Release *)

Definition Release (id : ReservationID) : ST Inventory unit :=
  if decide (id = "") then fail "reservation ID is required" else
  i ← get;
  match reservations i !! id with
  | None => mret tt
  | Some reservation =>
      _ ← for_each sub_reserved (requirement_entry <$> res_requirements reservation);
      modify (fun i => set_reservations (delete id (reservations i)) i)
  end.

(** ** Observations *)

Definition ObserveWalletBalance (key : Key) (amount : TokenAmount) : ST Inventory unit :=
  if decide (amount_token amount <> Key_Token key)
  then fail "wallet inventory observation is invalid" else
  i ← get;
  if decide (balances i !! key = None)
  then fail "wallet inventory observation references an unknown balance" else
  modify (fun i => set_balances (<[key := Units amount]> (balances i)) i).

Definition SetInFlightOut (key : Key) (amount : TokenAmount) : ST Inventory unit :=
  if decide (amount_token amount <> Key_Token key)
  then fail "in-flight inventory amount is invalid" else
  i ← get;
  if decide (balances i !! key = None)
  then fail "in-flight inventory references an unknown balance" else
  modify (fun i => set_inFlightOut (<[key := Units amount]> (inFlightOut i)) i).

(** ** Effects *)

Definition effect_key_invalid (e : Effect) : Prop :=
  Key_Chain (eff_Key e) = "" \/ Key_Account (eff_Key e) = "" \/ Key_Token (eff_Key e) = "".
#[local] Instance effect_key_invalid_dec e : Decision (effect_key_invalid e) :=
  ltac:(unfold effect_key_invalid; apply _).

(** The delta loop of [ApplyEffects] and [Settle], with their messages. *)
Definition collect_delta (invalid unknown : string) (i : Inventory) (deltas : gmap Key Z)
    (e : Effect) : res (gmap Key Z) :=
  match eff_Delta e with
  | None => Err (Errorf invalid)
  | Some delta =>
      if decide (effect_key_invalid e) then Err (Errorf invalid) else
      if decide (balances i !! eff_Key e = None) then Err (Errorf unknown)
      else Ok (accumulate deltas (eff_Key e) delta)
  end.

Definition check_delta (negative : string) (i : Inventory) (_ : unit) (entry : Key * Z) : res unit :=
  match balances i !! entry.1 with
  | None => Panic "nil big.Int"
  | Some balance =>
      if decide (balance + entry.2 < 0) then Err (Errorf negative) else Ok tt
  end.

Definition ApplyEffects (effects : list Effect) : ST Inventory unit :=
  if decide (effects = []) then fail "inventory effects are required" else
  i ← get;
  deltas ← lift (foldM (collect_delta "inventory effect is invalid"
                   "inventory effect references an unknown balance" i) ∅ effects);
  _ ← lift (foldM (check_delta "inventory effect would make chain %q token %q negative" i)
              tt (range deltas));
  for_each add_balance (range deltas).

(** ** AdjustReservation *)

Definition Adjust_check (i : Inventory) (old : gmap Key Z) (_ : unit) (entry : Key * Z) : res unit :=
  match balances i !! entry.1 with
  | None => Err (Errorf "reservation adjustment references unknown inventory")
  | Some wallet =>
      available ← effectiveAvailableLocked i entry.1 wallet;
      match old !! entry.1 with
      | None => Panic "nil big.Int"
      | Some previous =>
          if decide (available + previous < entry.2)
          then Err (Errorf "insufficient unreserved inventory for chain %q token %q")
          else Ok tt
      end
  end.

Definition AdjustReservation (id : ReservationID) (requirements : list Requirement) :
    ST Inventory Reservation :=
  if decide (id = "" \/ requirements = []) then fail "reservation adjustment is incomplete" else
  i ← get;
  match reservations i !! id with
  | None => fail "reservation %q does not exist"
  | Some current =>
      replacement ← lift (NewReservation id (res_Operation current) requirements);
      let old := combinedRequirements (res_requirements current) in
      let next := combinedRequirements requirements in
      _ ← lift (foldM (Adjust_check i old) tt (range next));
      _ ← for_each sub_reserved (range old);
      _ ← for_each add_reserved (range next);
      _ ← modify (fun i => set_reservations (<[id := replacement]> (reservations i)) i);
      mret replacement
  end.

(** ** Settle *)

(** [sort.Strings] and [strings.Join]. *)
Definition sort_Strings (l : list string) : list string := merge_sort String.le l.
Fixpoint strings_Join (l : list string) (sep : string) : string :=
  match l with
  | [] => ""
  | [s] => s
  | s :: l => s +:+ sep +:+ strings_Join l sep
  end.

Definition effect_part (e : Effect) : res string :=
  match eff_Delta e with
  | None => Err (Errorf "settlement contains an invalid inventory effect")
  | Some delta =>
      if decide (effect_key_invalid e)
      then Err (Errorf "settlement contains an invalid inventory effect")
      else Ok (strings_Join [Key_Chain (eff_Key e); Key_Account (eff_Key e);
                             Key_Token (eff_Key e); pretty delta] "/")
  end.

Definition effectFingerprint (effects : list Effect) : res string :=
  parts ← foldM (fun parts e => part ← effect_part e; Ok (parts ++ [part])) [] effects;
  Ok (strings_Join (sort_Strings parts) "|").

Definition Settle (id : ReservationID) (effects : list Effect) : ST Inventory unit :=
  if decide (id = "" \/ effects = [])
  then fail "settlement requires reservation and effects" else
  fingerprint ← lift (effectFingerprint effects);
  i ← get;
  match reservations i !! id with
  | None =>
      match settled i !! id with
      | Some existing =>
          if decide (existing = fingerprint) then mret tt
          else fail "reservation %q was settled with different effects"
      | None => fail "reservation %q does not exist"
      end
  | Some reservation =>
      deltas ← lift (foldM (collect_delta "settlement contains an invalid inventory effect"
                       "settlement references unknown inventory balance" i) ∅ effects);
      _ ← lift (foldM (check_delta "settlement would make inventory negative" i)
                  tt (range deltas));
      _ ← for_each add_balance (range deltas);
      _ ← for_each sub_reserved (requirement_entry <$> res_requirements reservation);
      _ ← modify (fun i => set_reservations (delete id (reservations i)) i);
      modify (fun i => set_settled (<[id := fingerprint]> (settled i)) i)
  end.
End inventory.

(** ** Totals *)

(** [m] with the totals of [l] added to its entries. *)
Definition add_totals (l : list (Key * Z)) (m : gmap Key Z) : gmap Key Z :=
  map_imap (fun k v => Some (v + total_at k l)) m.

Lemma lookup_add_totals l m k : add_totals l m !! k = (fun v => v + total_at k l) <$> m !! k.
Proof. unfold add_totals. rewrite map_lookup_imap. by destruct (m !! k). Qed.

Lemma dom_add_totals l m : dom (add_totals l m) = dom m.
Proof.
  apply set_eq. intros k. rewrite !elem_of_dom, lookup_add_totals, fmap_is_Some. done.
Qed.

Lemma add_totals_nil m : add_totals [] m = m.
Proof. apply map_eq. intros k. rewrite lookup_add_totals. cbn. destruct (m !! k); cbn; f_equal; lia. Qed.

Lemma add_totals_app l1 l2 m : add_totals l1 (add_totals l2 m) = add_totals (l2 ++ l1) m.
Proof.
  apply map_eq. intros k. rewrite !lookup_add_totals, total_at_app.
  destruct (m !! k); cbn; f_equal; lia.
Qed.

Lemma add_totals_ext l1 l2 m :
  (forall k, total_at k l1 = total_at k l2) -> add_totals l1 m = add_totals l2 m.
Proof. intros H. apply map_eq. intros k. by rewrite !lookup_add_totals, H. Qed.

Lemma insert_add_totals k d v m :
  m !! k = Some v -> <[k := v + d]> m = add_totals [(k, d)] m.
Proof.
  intros Hk. apply map_eq. intros k'. rewrite lookup_add_totals, total_at_cons. cbn.
  destruct (decide (k = k')) as [<-|Hne].
  - rewrite lookup_insert_eq, Hk. cbn. f_equal. lia.
  - rewrite lookup_insert_ne by done. destruct (m !! k'); cbn; f_equal. lia.
Qed.

Definition neg_entries (l : list (Key * Z)) : list (Key * Z) := (fun p => (p.1, - p.2)) <$> l.

Lemma total_at_neg k l : total_at k (neg_entries l) = - total_at k l.
Proof.
  induction l as [|[k' d] l IH]; [done|]. unfold neg_entries in *. cbn in *.
  rewrite IH. case_decide; lia.
Qed.

Lemma neg_entries_keys l : (neg_entries l).*1 = l.*1.
Proof. unfold neg_entries. rewrite <- list_fmap_compose. by apply list_fmap_ext. Qed.

(** The three mutating loops, when every key they touch has an entry. *)
Definition keys_in (l : list (Key * Z)) (m : gmap Key Z) : Prop :=
  forall k, k ∈ l.*1 -> is_Some (m !! k).

Lemma keys_in_cons p l m : keys_in (p :: l) m <-> is_Some (m !! p.1) /\ keys_in l m.
Proof. unfold keys_in. cbn. set_solver. Qed.

Lemma keys_in_dom l m m' : dom m = dom m' -> keys_in l m -> keys_in l m'.
Proof.
  unfold keys_in. intros Hd Hk k Hin. apply elem_of_dom. rewrite <- Hd. by apply elem_of_dom, Hk.
Qed.

Lemma for_each_add_reserved l i :
  keys_in l (reserved i) ->
  for_each add_reserved l i = (Ok tt, set_reserved (add_totals l (reserved i)) i).
Proof.
  revert i. induction l as [|[k d] l IH]; intros i.
  - intros _. rewrite add_totals_nil. by destruct i.
  - rewrite keys_in_cons. intros [[v Hv] Hl]. cbn [for_each]. unfold add_reserved at 1.
    cbn [fst snd] in *. rewrite Hv, (insert_add_totals k d v) by done. rewrite IH.
    + cbn. rewrite add_totals_app. done.
    + eapply keys_in_dom; [|done]. cbn. by rewrite dom_add_totals.
Qed.

Lemma for_each_sub_reserved l i :
  keys_in l (reserved i) ->
  for_each sub_reserved l i = (Ok tt, set_reserved (add_totals (neg_entries l) (reserved i)) i).
Proof.
  intros Hk. rewrite <- for_each_add_reserved by (unfold keys_in; by rewrite neg_entries_keys).
  clear Hk. revert i. induction l as [|p l IH]; intros i; [done|]. cbn.
  unfold sub_reserved at 1. destruct (add_reserved _ i) as [[[]|?|?] s]; [|done..]. apply IH.
Qed.

Lemma for_each_add_balance l i :
  keys_in l (balances i) ->
  for_each add_balance l i = (Ok tt, set_balances (add_totals l (balances i)) i).
Proof.
  revert i. induction l as [|[k d] l IH]; intros i.
  - intros _. rewrite add_totals_nil. by destruct i.
  - rewrite keys_in_cons. intros [[v Hv] Hl]. cbn [for_each]. unfold add_balance at 1.
    cbn [fst snd] in *. rewrite Hv, (insert_add_totals k d v) by done. rewrite IH.
    + cbn. rewrite add_totals_app. done.
    + eapply keys_in_dom; [|done]. cbn. by rewrite dom_add_totals.
Qed.

(** Sums by key, as the loops build them. *)
Definition accumulate_all (m : gmap Key Z) (l : list (Key * Z)) : gmap Key Z :=
  foldl (fun m p => accumulate m p.1 p.2) m l.

Lemma accumulate_all_total m l k :
  default 0 (accumulate_all m l !! k) = default 0 (m !! k) + total_at k l.
Proof.
  revert m. induction l as [|[k' d] l IH]; intros m; cbn; [lia|].
  unfold accumulate_all in *. cbn. rewrite IH. unfold accumulate.
  destruct (decide (k' = k)) as [<-|]; [rewrite lookup_insert_eq; cbn; lia|].
  rewrite lookup_insert_ne by done. lia.
Qed.

Lemma dom_accumulate_all m l : dom (accumulate_all m l) = dom m ∪ list_to_set l.*1.
Proof.
  revert m. induction l as [|[k d] l IH]; intros m; [set_solver|].
  change (accumulate_all m ((k, d) :: l)) with (accumulate_all (accumulate m k d) l).
  rewrite IH. unfold accumulate. rewrite dom_insert_L. set_solver.
Qed.

Section range_totals.
Context {order : RangeOrder Key}.

Lemma total_at_range k (m : gmap Key Z) : total_at k (range m) = default 0 (m !! k).
Proof. by rewrite range_perm, total_at_map_to_list. Qed.

Lemma total_at_range_accumulate k l :
  total_at k (range (accumulate_all ∅ l)) = total_at k l.
Proof. by rewrite total_at_range, accumulate_all_total, lookup_empty. Qed.

Lemma keys_in_range (m m' : gmap Key Z) : dom m ⊆ dom m' -> keys_in (range m) m'.
Proof.
  intros Hsub k Hk. apply list_elem_of_fmap in Hk as ([k' d] & -> & Hin). cbn.
  apply elem_of_range in Hin. apply elem_of_dom, Hsub, elem_of_dom. by exists d.
Qed.
End range_totals.

Lemma combinedRequirements_eq rs :
  combinedRequirements rs = accumulate_all ∅ (requirement_entry <$> rs).
Proof.
  unfold combinedRequirements, accumulate_all. generalize (∅ : gmap Key Z).
  induction rs as [|r rs IH]; intros m; cbn; [done|]. by rewrite IH.
Qed.

Lemma Reserve_combine_Ok rs m m' :
  foldM Reserve_combine m rs = Ok m' -> m' = accumulate_all m (requirement_entry <$> rs).
Proof.
  revert m. induction rs as [|r rs IH]; intros m; cbn; [by intros [= <-]|].
  rewrite bind_Ok. intros (m1 & H1 & H2). unfold Reserve_combine in H1. res_inv. subst m1.
  by apply IH in H2.
Qed.

(** The entries of a list of effects whose deltas are all present. *)
Definition effect_entry (e : Effect) : Key * Z := (eff_Key e, default 0 (eff_Delta e)).
Definition effect_entries (effects : list Effect) : list (Key * Z) := effect_entry <$> effects.

Lemma collect_delta_Ok invalid unknown i effects m m' :
  foldM (collect_delta invalid unknown i) m effects = Ok m' ->
  m' = accumulate_all m (effect_entries effects) /\
  Forall (fun e => is_Some (eff_Delta e) /\ is_Some (balances i !! eff_Key e)) effects.
Proof.
  revert m. induction effects as [|e effects IH]; intros m; cbn; [by intros [= <-]|].
  rewrite bind_Ok. intros (m1 & H1 & H2). unfold collect_delta in H1. res_inv. subst m1.
  apply IH in H2 as [-> Hf]. split.
  - unfold effect_entries, effect_entry, accumulate_all. cbn. done.
  - constructor; [|done]. split; [by rewrite Heqo|]. destruct (balances i !! eff_Key e); [by eexists|done].
Qed.

(** ** The invariant *)

Definition reservation_entries (r : Reservation) : list (Key * Z) :=
  requirement_entry <$> res_requirements r.

(** Everything the live reservations hold. *)
Definition held_entries (m : gmap ReservationID Reservation) : list (Key * Z) :=
  map_to_list m ≫= fun p => reservation_entries p.2.

Lemma held_entries_insert m id r :
  m !! id = None -> held_entries (<[id := r]> m) ≡ₚ reservation_entries r ++ held_entries m.
Proof. intros H. unfold held_entries. by rewrite map_to_list_insert. Qed.

Lemma held_entries_delete m id r :
  m !! id = Some r -> held_entries m ≡ₚ reservation_entries r ++ held_entries (delete id m).
Proof.
  intros H. rewrite <- (insert_delete_id m id r) at 1 by done.
  apply held_entries_insert, lookup_delete_eq.
Qed.

Definition requirement_ok (i : Inventory) (r : Requirement) : Prop :=
  ~ requirement_invalid r /\ 0 <= Units (req_Amount r) /\ is_Some (balances i !! req_Key r).

Definition reservation_ok (i : Inventory) (id : ReservationID) (r : Reservation) : Prop :=
  res_ID r = id /\ id <> "" /\ res_Operation r <> "" /\ res_requirements r <> [] /\
  Forall (requirement_ok i) (res_requirements r) /\ settled i !! id = None.

Definition key_ok (k : Key) : Prop := Key_Chain k <> "" /\ Key_Account k <> "" /\ Key_Token k <> "".

(** One domain for all the maps by key, no negative balance, and [reserved]
    equal to what the live reservations hold. *)
Record inv_ok (i : Inventory) : Prop := {
  inv_caps : dom (allocationCaps i) = dom (balances i);
  inv_targets : dom (targets i) = dom (balances i);
  inv_buffers : dom (buffers i) = dom (balances i);
  inv_flight : dom (inFlightOut i) = dom (balances i);
  inv_reserved : dom (reserved i) = dom (balances i);
  inv_keys : forall k, k ∈ dom (balances i) -> key_ok k;
  inv_nonneg : map_Forall (fun _ v => 0 <= v) (balances i);
  inv_held : map_Forall (fun k v => v = total_at k (held_entries (reservations i))) (reserved i);
  inv_reservations : map_Forall (reservation_ok i) (reservations i) }.

Lemma inv_ok_lookup i k :
  inv_ok i -> is_Some (balances i !! k) ->
  exists w cap buffer held flight,
    balances i !! k = Some w /\ allocationCaps i !! k = Some cap /\ buffers i !! k = Some buffer /\
    reserved i !! k = Some held /\ inFlightOut i !! k = Some flight.
Proof.
  intros Hi Hk. pose proof Hk as Hd. apply elem_of_dom in Hd.
  pose proof (inv_caps i Hi) as H1. pose proof (inv_buffers i Hi) as H2.
  pose proof (inv_reserved i Hi) as H3. pose proof (inv_flight i Hi) as H4.
  destruct Hk as [w Hw].
  assert (is_Some (allocationCaps i !! k)) as [cap ?] by (apply elem_of_dom; congruence).
  assert (is_Some (buffers i !! k)) as [buffer ?] by (apply elem_of_dom; congruence).
  assert (is_Some (reserved i !! k)) as [held ?] by (apply elem_of_dom; congruence).
  assert (is_Some (inFlightOut i !! k)) as [flight ?] by (apply elem_of_dom; congruence).
  by exists w, cap, buffer, held, flight.
Qed.

(** What is spendable at a key before clamping at zero. *)
Definition spendable (i : Inventory) (k : Key) : Z :=
  Z.min (default 0 (balances i !! k)) (default 0 (allocationCaps i !! k))
  - default 0 (buffers i !! k) - default 0 (reserved i !! k) - default 0 (inFlightOut i !! k).

Lemma effectiveAvailable_spec i k w :
  inv_ok i -> balances i !! k = Some w ->
  effectiveAvailableLocked i k w = Ok (Z.max 0 (spendable i k)).
Proof.
  intros Hi Hw.
  destruct (inv_ok_lookup i k Hi ltac:(by exists w))
    as (w' & cap & buffer & held & flight & Hb & Hc & Hbuf & Hr & Hf).
  unfold effectiveAvailableLocked, spendable. rewrite Hc, Hbuf, Hr, Hf, Hb. cbn.
  simplify_eq. f_equal. repeat case_decide; lia.
Qed.

Lemma Available_spec i k :
  inv_ok i ->
  Available i k = Ok (match balances i !! k with
                      | Some _ => Some (Z.max 0 (spendable i k)) | None => None end).
Proof.
  intros Hi. unfold Available. destruct (balances i !! k) as [w|] eqn:Hw; [|done].
  by rewrite effectiveAvailable_spec.
Qed.

Lemma NewReservation_Ok id op rs r :
  NewReservation id op rs = Ok r <->
  r = mkReservation id op rs /\ id <> "" /\ op <> "" /\ rs <> [] /\
  Forall (fun x => ~ requirement_invalid x) rs.
Proof.
  unfold NewReservation. rewrite Forall_Exists_neg.
  destruct (decide (id = "" \/ _)); [split; [done|tauto]|].
  destruct (decide (Exists _ _)); [split; [done|tauto]|].
  split; [intros [= <-]; tauto|by intros (-> & _)].
Qed.

(** Requirements in the shape a [Reserve] or [AdjustReservation] call passes
    them: token amounts are never negative. *)
Definition requirements_valid (rs : list Requirement) : Prop :=
  Forall (fun r => 0 <= Units (req_Amount r)) rs.

Lemma entries_nonneg rs :
  requirements_valid rs -> Forall (fun p => 0 <= p.2) (requirement_entry <$> rs).
Proof. intros H. apply Forall_fmap. eapply Forall_impl; [exact H|]. done. Qed.

Lemma inv_ok_reservation i id r :
  inv_ok i -> reservations i !! id = Some r ->
  keys_in (reservation_entries r) (reserved i).
Proof.
  intros Hi Hr k Hk. destruct (inv_reservations i Hi _ _ Hr) as (_ & _ & _ & _ & Hf & _).
  apply elem_of_dom. rewrite (inv_reserved i Hi). apply elem_of_dom.
  apply list_elem_of_fmap in Hk as ([k' d] & -> & Hin).
  apply list_elem_of_fmap in Hin as (x & Hx & Hin).
  rewrite Forall_forall in Hf. destruct (Hf x Hin) as (_ & _ & Hb).
  unfold requirement_entry in Hx. simplify_eq. done.
Qed.

(** Replacing the reservations and [reserved] together. *)
Lemma inv_ok_update i m res' :
  inv_ok i ->
  (forall k, total_at k (held_entries res') = total_at k (held_entries (reservations i)) + total_at k m) ->
  map_Forall (reservation_ok i) res' ->
  inv_ok (set_reservations res' (set_reserved (add_totals m (reserved i)) i)).
Proof.
  intros Hi Htot Hres. destruct Hi as [H1 H2 H3 H4 H5 H6 H7 H8 H9].
  split; cbn; try done.
  - by rewrite dom_add_totals.
  - intros k v. rewrite lookup_add_totals. intros (u & Hu & ->)%fmap_Some.
    rewrite Htot. by rewrite <- (H8 k u Hu).
Qed.

Lemma reservation_entries_mk id op rs :
  reservation_entries (mkReservation id op rs) = requirement_entry <$> rs.
Proof. done. Qed.

Section operations.
Context {order : RangeOrder Key}.
Implicit Types (i : Inventory).

(** ** Reserve *)

Lemma Reserve_check_spec i l :
  inv_ok i -> foldM (Reserve_check i) tt l = Ok tt ->
  forall k d, (k, d) ∈ l -> is_Some (balances i !! k) /\ d <= Z.max 0 (spendable i k).
Proof.
  intros Hi. apply (foldM_inv_prefix _ (fun l _ => forall k d, (k, d) ∈ l ->
    is_Some (balances i !! k) /\ d <= Z.max 0 (spendable i k))).
  - intros k d Hin. by apply elem_of_nil in Hin.
  - intros dn [k d] rest s s' _ IH Hs k' d' Hin.
    apply elem_of_app in Hin as [Hin|Hin]; [by apply IH|].
    apply list_elem_of_singleton in Hin as [= -> ->].
    unfold Reserve_check in Hs. res_inv. cbn in *.
    rewrite (effectiveAvailable_spec i k z) in Hx by done. simplify_eq.
    split; [by eexists|]. lia.
Qed.

Lemma Reserve_check_no_panic i u e : inv_ok i -> no_panic (Reserve_check i u e).
Proof.
  intros Hi. unfold Reserve_check. destruct (balances i !! e.1) as [w|] eqn:Hw; [|done].
  rewrite (effectiveAvailable_spec i e.1 w) by done. cbn. no_panic_auto.
Qed.

Lemma Reserve_combine_no_panic rs m : no_panic (foldM Reserve_combine m rs).
Proof. unfold Reserve_combine. no_panic_auto. Qed.

Lemma Reserve_combine_valid rs m m' :
  foldM Reserve_combine m rs = Ok m' ->
  Forall (fun r => Key_Token (req_Key r) <> "" /\
    amount_token (req_Amount r) = Key_Token (req_Key r) /\ ~ IsZero (req_Amount r)) rs.
Proof.
  apply (foldM_inv_prefix _ (fun l _ => Forall (fun r => Key_Token (req_Key r) <> "" /\
    amount_token (req_Amount r) = Key_Token (req_Key r) /\ ~ IsZero (req_Amount r)) l)).
  - constructor.
  - intros dn r rest s s' _ IH Hs. apply Forall_app. split; [done|].
    unfold Reserve_combine in Hs. res_inv. constructor; [|done].
    split_and!; [tauto|apply dec_stable; tauto|tauto].
Qed.

(** The state a successful [Reserve] of a fresh reservation leaves. *)
Definition reserve_state i (r : Reservation) : Inventory :=
  set_reservations (<[res_ID r := r]> (reservations i))
    (set_reserved (add_totals (reservation_entries r) (reserved i)) i).

(** How [Reserve] ends: an error without a write, the existing reservation, or
    a fresh reservation that the spendable balances cover. *)
Inductive reserve_outcome i id op rs : res Reservation -> Inventory -> Prop :=
| reserve_error e : reserve_outcome i id op rs (Err e) i
| reserve_existing r :
    reservations i !! id = Some r -> res_Operation r = op ->
    reserve_outcome i id op rs (Ok r) i
| reserve_fresh :
    let r := mkReservation id op rs in
    reservations i !! id = None -> settled i !! id = None ->
    id <> "" -> op <> "" -> rs <> [] -> Forall (requirement_ok i) rs ->
    (forall k, k ∈ (reservation_entries r).*1 ->
       total_at k (reservation_entries r) <= Z.max 0 (spendable i k)) ->
    reserve_outcome i id op rs (Ok r) (reserve_state i r).

Lemma Reserve_requirements_ok i rs m' :
  inv_ok i -> requirements_valid rs ->
  foldM Reserve_combine ∅ rs = Ok m' ->
  foldM (Reserve_check i) tt (range m') = Ok tt ->
  Forall (requirement_ok i) rs /\
  (forall k, k ∈ (requirement_entry <$> rs).*1 ->
     total_at k (requirement_entry <$> rs) <= Z.max 0 (spendable i k)).
Proof.
  intros Hi Hv Hc Hchk.
  pose proof (Reserve_combine_Ok _ _ _ Hc) as Hm'.
  pose proof (Reserve_check_spec i _ Hi Hchk) as Hcov.
  assert (forall k, k ∈ (requirement_entry <$> rs).*1 ->
    (k, total_at k (requirement_entry <$> rs)) ∈ range m') as Hin.
  { intros k Hk. apply elem_of_range.
    pose proof (accumulate_all_total ∅ (requirement_entry <$> rs) k) as Ht.
    rewrite <- Hm', lookup_empty in Ht. cbn [default] in Ht.
    assert (is_Some (m' !! k)) as [v Hv'].
    { apply elem_of_dom. rewrite Hm', dom_accumulate_all.
      by apply elem_of_union_r, elem_of_list_to_set. }
    rewrite Hv' in *. cbn in Ht. unfold id in Ht. by rewrite Ht. }
  split; [|intros k Hk; by apply (Hcov k _ (Hin k Hk))].
  apply Forall_forall. intros r Hr.
  pose proof (Reserve_combine_valid _ _ _ Hc) as Hval. rewrite Forall_forall in Hval.
  destruct (Hval r Hr) as (? & ? & ?).
  assert (req_Key r ∈ (requirement_entry <$> rs).*1) as Hk.
  { apply list_elem_of_fmap. exists (requirement_entry r). split; [done|].
    apply list_elem_of_fmap. by exists r. }
  destruct (Hcov _ _ (Hin _ Hk)) as [Hb _].
  unfold requirements_valid in Hv. rewrite Forall_forall in Hv.
  split_and!; [|by apply Hv|done].
  pose proof (inv_keys i Hi (req_Key r) ltac:(by apply elem_of_dom)) as (? & ? & ?).
  unfold requirement_invalid. tauto.
Qed.

Lemma Reserve_outcome i id op rs :
  inv_ok i -> requirements_valid rs ->
  Post (Reserve id op rs) i (reserve_outcome i id op rs).
Proof.
  intros Hi Hv. unfold Reserve, Post.
  destruct (decide _) as [?|Hargs]; [constructor|].
  unfold mbind, st_bind, get, lift, fail, mret, st_ret, modify.
  destruct (reservations i !! id) as [r|] eqn:Hr.
  { destruct (decide _) as [?|Hop]; [constructor|]. cbn.
    apply (reserve_existing _ _ _ _ r); [done|by apply dec_stable]. }
  destruct (decide _) as [?|Hsettled]; [constructor|].
  destruct (foldM Reserve_combine ∅ rs) as [m'|e|w] eqn:Hc;
    [|constructor|by destruct (Reserve_combine_no_panic _ _ _ Hc)].
  destruct (foldM (Reserve_check i) tt (range m')) as [[]|e|w] eqn:Hchk; [|constructor|].
  2:{ exfalso. revert Hchk. apply no_panic_foldM. intros. by apply Reserve_check_no_panic. }
  destruct (Reserve_requirements_ok i rs m' Hi Hv Hc Hchk) as [Hok Hcov].
  pose proof (Reserve_combine_Ok _ _ _ Hc) as Hm'.
  rewrite for_each_add_reserved.
  2:{ rewrite Hm'. apply keys_in_range. rewrite dom_accumulate_all, (inv_reserved i Hi).
      rewrite dom_empty_L, union_empty_l_L. intros k. rewrite elem_of_list_to_set.
      intros ((k', d) & -> & (x & Hx & Hin)%list_elem_of_fmap)%list_elem_of_fmap.
      rewrite Forall_forall in Hok. destruct (Hok x Hin) as (_ & _ & Hb).
      unfold requirement_entry in Hx. simplify_eq. by apply elem_of_dom. }
  assert (NewReservation id op rs = Ok (mkReservation id op rs)) as Hnew.
  { apply NewReservation_Ok. split_and!; try tauto.
    eapply Forall_impl; [exact Hok|]. intros x Hx. apply Hx. }
  rewrite Hnew. cbn [fst snd].
  rewrite (add_totals_ext _ (requirement_entry <$> rs))
    by (intros k; rewrite Hm'; apply total_at_range_accumulate).
  apply reserve_fresh; try tauto. by apply eq_None_not_Some.
Qed.

Lemma reserve_outcome_inv i id op rs r i' :
  inv_ok i -> reserve_outcome i id op rs r i' -> inv_ok i'.
Proof.
  intros Hi []; [done..|]. apply inv_ok_update; [done| |].
  - intros k. rewrite held_entries_insert, total_at_app by done. lia.
  - apply map_Forall_insert_2; [|apply (inv_reservations i Hi)].
    by split_and!.
Qed.

(** ** Release *)

Definition release_state i (r : Reservation) : Inventory :=
  set_reservations (delete (res_ID r) (reservations i))
    (set_reserved (add_totals (neg_entries (reservation_entries r)) (reserved i)) i).

Lemma Release_run i id r :
  inv_ok i -> reservations i !! id = Some r -> Release id i = (Ok tt, release_state i r).
Proof.
  intros Hi Hr. pose proof (inv_reservations i Hi _ _ Hr) as (Hid & Hne & _).
  unfold Release. rewrite decide_False by done.
  unfold mbind, st_bind, get. rewrite Hr.
  rewrite for_each_sub_reserved by (by apply (inv_ok_reservation i id)).
  unfold modify, release_state. rewrite Hid. done.
Qed.

Lemma release_state_inv i id r :
  inv_ok i -> reservations i !! id = Some r -> inv_ok (release_state i r).
Proof.
  intros Hi Hr. pose proof (inv_reservations i Hi _ _ Hr) as (Hid & _).
  apply inv_ok_update; [done| |].
  - intros k. rewrite (held_entries_delete (reservations i) id r) by done.
    rewrite total_at_neg, total_at_app, Hid. lia.
  - apply map_Forall_delete, (inv_reservations i Hi).
Qed.

Lemma Release_inv i id : inv_ok i -> Post (Release id) i (fun r i' => no_panic r /\ inv_ok i').
Proof.
  intros Hi. destruct (reservations i !! id) as [r|] eqn:Hr.
  - unfold Post. rewrite (Release_run i id r) by done. cbn.
    split; [done|by eapply release_state_inv].
  - unfold Post, Release. destruct (decide _); [done|].
    unfold mbind, st_bind, get. rewrite Hr. done.
Qed.

(** ** Observations *)

Lemma inv_ok_balances i m :
  inv_ok i -> dom m = dom (balances i) -> map_Forall (fun _ v => 0 <= v) m ->
  inv_ok (set_balances m i).
Proof.
  intros [H1 H2 H3 H4 H5 H6 H7 H8 H9] Hd Hm.
  split; cbn; rewrite ?Hd; try done.
  intros id r Hr. destruct (H9 id r Hr) as (? & ? & ? & ? & Hf & ?). split_and!; try done.
  eapply Forall_impl; [exact Hf|]. intros x (? & ? & Hx). split_and!; [done..|].
  cbn. apply elem_of_dom. rewrite Hd. by apply elem_of_dom.
Qed.

Lemma inv_ok_flight i m :
  inv_ok i -> dom m = dom (balances i) -> inv_ok (set_inFlightOut m i).
Proof. intros [H1 H2 H3 H4 H5 H6 H7 H8 H9] Hd. by split. Qed.

Lemma ObserveWalletBalance_inv i key amount :
  inv_ok i -> 0 <= Units amount ->
  Post (ObserveWalletBalance key amount) i (fun r i' => no_panic r /\ inv_ok i').
Proof.
  intros Hi Ha. unfold Post, ObserveWalletBalance. destruct (decide _); [done|].
  unfold mbind, st_bind, get. destruct (decide _) as [?|Hk]; [done|]. cbn.
  split; [done|]. apply inv_ok_balances; [done| |].
  - rewrite dom_insert_L. apply subseteq_union_1_L, singleton_subseteq_l.
    apply elem_of_dom. by destruct (balances i !! key); [eexists|].
  - apply map_Forall_insert_2; [done|apply (inv_nonneg i Hi)].
Qed.

Lemma SetInFlightOut_inv i key amount :
  inv_ok i -> Post (SetInFlightOut key amount) i (fun r i' => no_panic r /\ inv_ok i').
Proof.
  intros Hi. unfold Post, SetInFlightOut. destruct (decide _); [done|].
  unfold mbind, st_bind, get. destruct (decide _) as [?|Hk]; [done|]. cbn.
  split; [done|]. apply inv_ok_flight; [done|].
  rewrite dom_insert_L, (inv_flight i Hi). apply subseteq_union_1_L, singleton_subseteq_l.
  apply elem_of_dom. by destruct (balances i !! key); [eexists|].
Qed.

(** ** Effects *)

Lemma check_delta_spec negative i l :
  foldM (check_delta negative i) tt l = Ok tt ->
  forall k d, (k, d) ∈ l -> exists w, balances i !! k = Some w /\ 0 <= w + d.
Proof.
  apply (foldM_inv_prefix _ (fun l _ => forall k d, (k, d) ∈ l ->
    exists w, balances i !! k = Some w /\ 0 <= w + d)).
  - intros k d Hin. by apply elem_of_nil in Hin.
  - intros dn [k d] rest s s' _ IH Hs k' d' Hin.
    apply elem_of_app in Hin as [Hin|Hin]; [by apply IH|].
    apply list_elem_of_singleton in Hin as [= -> ->].
    unfold check_delta in Hs. cbn in Hs. destruct (balances i !! k) as [w|]; [|done].
    destruct (decide _); [done|]. exists w. split; [done|lia].
Qed.

Lemma collect_delta_no_panic invalid unknown i m effects :
  no_panic (foldM (collect_delta invalid unknown i) m effects).
Proof. unfold collect_delta. no_panic_auto. Qed.

(** The checks of [ApplyEffects] and [Settle]: either an error, or deltas that
    leave every balance non-negative. *)
Definition effects_checked (invalid unknown negative : string) i (effects : list Effect) : res (gmap Key Z) :=
  deltas ← foldM (collect_delta invalid unknown i) ∅ effects;
  _ ← foldM (check_delta negative i) tt (range deltas);
  Ok deltas.

(** The balances once the effects are applied. *)
Definition applied i (effects : list Effect) : gmap Key Z :=
  add_totals (effect_entries effects) (balances i).

Lemma effects_checked_spec invalid unknown negative i effects :
  inv_ok i ->
  match effects_checked invalid unknown negative i effects with
  | Ok deltas =>
      for_each add_balance (range deltas) i = (Ok tt, set_balances (applied i effects) i) /\
      inv_ok (set_balances (applied i effects) i)
  | Err _ => True
  | Panic _ => False
  end.
Proof.
  intros Hi. unfold effects_checked.
  destruct (foldM (collect_delta _ _ i) ∅ effects) as [deltas|e|w] eqn:Hc; cbn;
    [|done|by destruct (collect_delta_no_panic _ _ _ _ _ _ Hc)].
  apply collect_delta_Ok in Hc as [-> Hf].
  assert (dom (accumulate_all ∅ (effect_entries effects)) ⊆ dom (balances i)) as Hsub.
  { rewrite dom_accumulate_all, dom_empty_L, union_empty_l_L. intros k.
    rewrite elem_of_list_to_set.
    intros ((k', d) & -> & (x & Hx & Hin)%list_elem_of_fmap)%list_elem_of_fmap.
    rewrite Forall_forall in Hf. destruct (Hf x Hin) as [_ Hb].
    unfold effect_entry in Hx. simplify_eq. by apply elem_of_dom. }
  destruct (foldM (check_delta negative i) tt _) as [[]|e|w] eqn:Hchk; cbn; [|done|].
  - assert (applied i effects = add_totals (range (accumulate_all ∅ (effect_entries effects))) (balances i))
      as Happ.
    { apply add_totals_ext. intros k. by rewrite total_at_range_accumulate. }
    split; [rewrite Happ; by apply for_each_add_balance, keys_in_range|].
    apply inv_ok_balances; [done|apply dom_add_totals|].
    intros k v. unfold applied. rewrite lookup_add_totals. intros (u & Hu & ->)%fmap_Some.
    pose proof (inv_nonneg i Hi k u Hu) as Hnn. cbn in Hnn.
    rewrite <- total_at_range_accumulate, total_at_range.
    destruct (accumulate_all ∅ (effect_entries effects) !! k) as [d|] eqn:Hd; cbn; [|lia].
    destruct (check_delta_spec _ _ _ Hchk k d) as (w & Hw & ?); [by apply elem_of_range|].
    simplify_eq. done.
  - revert Hchk. apply no_panic_foldM. intros u [k d] Hin. apply elem_of_range in Hin.
    unfold check_delta. cbn.
    assert (is_Some (balances i !! k)) as [v ->]; [|no_panic_auto].
    apply elem_of_dom, Hsub, elem_of_dom. by exists d.
Qed.

(** [ApplyEffects] writes all the deltas or none. *)
Lemma ApplyEffects_outcome i effects :
  inv_ok i ->
  Post (ApplyEffects effects) i (fun r i' =>
    inv_ok i' /\
    ((exists e, r = Err e /\ i' = i) \/
     (r = Ok tt /\ i' = set_balances (applied i effects) i))).
Proof.
  intros Hi. unfold Post, ApplyEffects. destruct (decide _) as [?|_]; [cbn; eauto|].
  pose proof (effects_checked_spec "inventory effect is invalid"
    "inventory effect references an unknown balance"
    "inventory effect would make chain %q token %q negative" i effects Hi) as Hs.
  unfold effects_checked in Hs. unfold mbind, st_bind, lift, get, res_bind in *.
  destruct (foldM (collect_delta _ _ i) ∅ effects) as [deltas|e|w]; [|cbn; eauto|done].
  destruct (foldM (check_delta _ i) tt _) as [[]|e|w]; [|cbn; eauto|done].
  destruct Hs as [-> Hinv]. eauto.
Qed.

(** ** Settle *)

Lemma effect_part_no_panic effects parts :
  no_panic (foldM (fun parts e => part ← effect_part e; Ok (parts ++ [part])) parts effects).
Proof. unfold effect_part. no_panic_auto. Qed.

Lemma effectFingerprint_no_panic effects : no_panic (effectFingerprint effects).
Proof. unfold effectFingerprint. apply no_panic_bind; [apply effect_part_no_panic|done]. Qed.

(** The state a settlement leaves: balances moved by the effects, the
    reservation released, its fingerprint recorded. *)
Definition settle_state i (r : Reservation) (effects : list Effect) (fingerprint : string) : Inventory :=
  set_settled (<[res_ID r := fingerprint]> (settled i))
    (release_state (set_balances (applied i effects) i) r).

Inductive settle_outcome i id effects : res unit -> Inventory -> Prop :=
| settle_error e : settle_outcome i id effects (Err e) i
| settle_repeat fingerprint :
    effectFingerprint effects = Ok fingerprint -> reservations i !! id = None ->
    settled i !! id = Some fingerprint -> settle_outcome i id effects (Ok tt) i
| settle_fresh r fingerprint :
    effectFingerprint effects = Ok fingerprint -> reservations i !! id = Some r ->
    inv_ok (set_balances (applied i effects) i) ->
    settle_outcome i id effects (Ok tt) (settle_state i r effects fingerprint).

Lemma Settle_outcome i id effects :
  inv_ok i -> Post (Settle id effects) i (settle_outcome i id effects).
Proof.
  intros Hi. unfold Post, Settle. destruct (decide _) as [?|_]; [constructor|].
  destruct (effectFingerprint effects) as [fp|e|w] eqn:Hfp;
    [|constructor|by destruct (effectFingerprint_no_panic effects w)].
  unfold lift at 1. erewrite (st_bind_run _ _ i fp i) by reflexivity.
  unfold get. erewrite (st_bind_run _ _ i i i) by reflexivity.
  destruct (reservations i !! id) as [r|] eqn:Hr.
  2:{ destruct (settled i !! id) as [existing|] eqn:Hs; [|constructor].
      destruct (decide _) as [->|]; [|constructor]. by eapply settle_repeat. }
  pose proof (effects_checked_spec "settlement contains an invalid inventory effect"
    "settlement references unknown inventory balance"
    "settlement would make inventory negative" i effects Hi) as Hs.
  unfold effects_checked in Hs. unfold mbind, st_bind, lift, modify, res_bind in *.
  destruct (foldM (collect_delta _ _ i) ∅ effects) as [deltas|e|w]; [|constructor|done].
  destruct (foldM (check_delta _ i) tt _) as [[]|e|w]; [|constructor|done].
  destruct Hs as [-> Hinv].
  rewrite for_each_sub_reserved by (by apply (inv_ok_reservation i id)).
  pose proof (inv_reservations i Hi _ _ Hr) as (Hid & _). cbn [fst snd].
  rewrite <- Hid. by apply (settle_fresh i (res_ID r) effects r fp); [|rewrite Hid|].
Qed.

Lemma settle_outcome_inv i id effects r i' :
  inv_ok i -> settle_outcome i id effects r i' -> inv_ok i'.
Proof.
  intros Hi [| |r0 fp Hfp Hr Hb]; [done..|].
  pose proof (inv_reservations i Hi _ _ Hr) as (Hid & _).
  pose proof (release_state_inv _ id r0 Hb Hr) as [H1 H2 H3 H4 H5 H6 H7 H8 H9].
  split; cbn; try done.
  intros id' r' Hr'. pose proof (H9 id' r' Hr') as (? & ? & ? & ? & ? & Hs).
  split_and!; try done. cbn. cbn in Hr', Hs. rewrite lookup_insert_ne; [done|].
  intros <-. by rewrite lookup_delete_eq in Hr'.
Qed.

(** ** AdjustReservation *)

Definition adjust_state i (r replacement : Reservation) : Inventory :=
  set_reservations (<[res_ID r := replacement]> (reservations i))
    (set_reserved (add_totals (neg_entries (reservation_entries r) ++ reservation_entries replacement)
                     (reserved i)) i).

Inductive adjust_outcome i id rs : res Reservation -> Inventory -> Prop :=
| adjust_error e : adjust_outcome i id rs (Err e) i
| adjust_panic r why k :
    reservations i !! id = Some r -> k ∈ (requirement_entry <$> rs).*1 ->
    k ∉ (reservation_entries r).*1 -> adjust_outcome i id rs (Panic why) i
| adjust_ok r :
    let replacement := mkReservation id (res_Operation r) rs in
    reservations i !! id = Some r -> Forall (requirement_ok i) rs -> rs <> [] ->
    (forall k, k ∈ (reservation_entries replacement).*1 ->
       total_at k (reservation_entries replacement)
       <= Z.max 0 (spendable i k) + total_at k (reservation_entries r)) ->
    adjust_outcome i id rs (Ok replacement) (adjust_state i r replacement).

Lemma Adjust_check_entry i old k d :
  inv_ok i ->
  match Adjust_check i old tt (k, d) with
  | Ok _ => is_Some (balances i !! k) /\
      exists previous, old !! k = Some previous /\ d <= Z.max 0 (spendable i k) + previous
  | Err _ => True
  | Panic _ => old !! k = None
  end.
Proof.
  intros Hi. unfold Adjust_check. cbn [fst snd].
  destruct (balances i !! k) as [w|] eqn:Hw; [|exact I].
  rewrite (effectiveAvailable_spec i k w) by done. cbn.
  destruct (old !! k) as [previous|]; [|done]. destruct (decide _); [exact I|].
  split; [by eexists|]. exists previous. split; [done|lia].
Qed.

Lemma Adjust_check_spec i old l :
  inv_ok i ->
  match foldM (Adjust_check i old) tt l with
  | Ok _ => forall k d, (k, d) ∈ l -> is_Some (balances i !! k) /\
              exists previous, old !! k = Some previous /\ d <= Z.max 0 (spendable i k) + previous
  | Err _ => True
  | Panic _ => exists k, k ∈ l.*1 /\ old !! k = None
  end.
Proof.
  intros Hi. induction l as [|[k d] l IH]; cbn [foldM fmap list_fmap fst].
  { intros k d Hin. by apply elem_of_nil in Hin. }
  pose proof (Adjust_check_entry i old k d Hi) as Hkd.
  destruct (Adjust_check i old tt (k, d)) as [[]|e|w]; cbn [mbind res_bind]; [|exact I|].
  - destruct (foldM _ tt l) as [u|e|why]; [|exact I|].
    + intros k' d' Hin. apply elem_of_cons in Hin as [[= -> ->]|Hin]; [done|by apply IH].
    + destruct IH as (k' & ? & ?). exists k'. split; [by apply elem_of_cons; right|done].
  - exists k. split; [by apply elem_of_cons; left|done].
Qed.

Lemma lookup_accumulate_None l k : accumulate_all ∅ l !! k = None <-> k ∉ l.*1.
Proof.
  rewrite <- not_elem_of_dom, dom_accumulate_all, dom_empty_L, union_empty_l_L.
  by rewrite elem_of_list_to_set.
Qed.

Lemma lookup_accumulate_elem l k :
  k ∈ l.*1 -> accumulate_all ∅ l !! k = Some (total_at k l).
Proof.
  intros Hk. destruct (accumulate_all ∅ l !! k) as [v|] eqn:Hv;
    [|by apply lookup_accumulate_None in Hv].
  pose proof (accumulate_all_total ∅ l k) as Ht. rewrite Hv, lookup_empty in Ht. cbn in Ht.
  unfold id in Ht. by rewrite Ht.
Qed.

Lemma range_keys (m : gmap Key Z) k : k ∈ (range m).*1 <-> k ∈ dom m.
Proof.
  rewrite elem_of_dom, list_elem_of_fmap. split.
  - intros ([k' d] & -> & Hin). apply elem_of_range in Hin. by exists d.
  - intros [d Hd]. exists (k, d). split; [done|by apply elem_of_range].
Qed.

Lemma AdjustReservation_outcome i id rs :
  inv_ok i -> requirements_valid rs ->
  Post (AdjustReservation id rs) i (adjust_outcome i id rs).
Proof.
  intros Hi Hv. unfold Post, AdjustReservation. destruct (decide _) as [?|Hargs]; [constructor|].
  unfold mbind, st_bind, lift, get, modify, mret, st_ret, fail.
  destruct (reservations i !! id) as [r|] eqn:Hr; [|constructor].
  destruct (NewReservation id (res_Operation r) rs) as [replacement|e|w] eqn:Hnew; [|constructor|].
  2:{ unfold NewReservation in Hnew. by repeat destruct (decide _). }
  apply NewReservation_Ok in Hnew as (-> & Hid & Hop & Hrs & Hval).
  rewrite !combinedRequirements_eq.
  set (old := requirement_entry <$> res_requirements r). set (next := requirement_entry <$> rs).
  pose proof (Adjust_check_spec i (accumulate_all ∅ old) (range (accumulate_all ∅ next)) Hi) as Hchk.
  destruct (foldM _ tt (range (accumulate_all ∅ next))) as [[]|e|w]; [|constructor|].
  2:{ destruct Hchk as (k & Hk & Hnone). apply range_keys in Hk.
      rewrite lookup_accumulate_None in Hnone.
      rewrite dom_accumulate_all, dom_empty_L, union_empty_l_L, elem_of_list_to_set in Hk.
      by apply (adjust_panic _ _ _ r _ k). }
  assert (forall k, k ∈ next.*1 -> is_Some (balances i !! k) /\
    total_at k next <= Z.max 0 (spendable i k) + total_at k old) as Hcov.
  { intros k Hk. destruct (Hchk k (total_at k next)) as (Hb & previous & Hp & Hle).
    - by apply elem_of_range, lookup_accumulate_elem.
    - split; [done|]. rewrite lookup_accumulate_elem in Hp; [by simplify_eq|].
      apply dec_stable. rewrite <- lookup_accumulate_None. by rewrite Hp. }
  assert (keys_in (range (accumulate_all ∅ old)) (reserved i)) as Hkold.
  { intros k Hk%range_keys. apply (inv_ok_reservation i id r Hi Hr).
    rewrite dom_accumulate_all, dom_empty_L, union_empty_l_L, elem_of_list_to_set in Hk. done. }
  rewrite for_each_sub_reserved by done.
  rewrite for_each_add_reserved.
  2:{ intros k Hk%range_keys.
      rewrite dom_accumulate_all, dom_empty_L, union_empty_l_L, elem_of_list_to_set in Hk.
      cbn. rewrite lookup_add_totals, fmap_is_Some. apply elem_of_dom.
      rewrite (inv_reserved i Hi). by apply elem_of_dom, Hcov. }
  cbn [set_reserved reserved reservations]. rewrite add_totals_app.
  pose proof (inv_reservations i Hi _ _ Hr) as (Hrid & _).
  rewrite (add_totals_ext _ (neg_entries old ++ next)).
  2:{ intros k. by rewrite !total_at_app, !total_at_neg, !total_at_range_accumulate. }
  unfold adjust_state. pose proof (adjust_ok i id rs r Hr) as Hok. cbn zeta in Hok.
  unfold adjust_state in Hok. rewrite Hrid in Hok. apply Hok; [|done|intros k Hk; by apply Hcov].
  apply Forall_forall. intros x Hx. rewrite Forall_forall in Hval.
  unfold requirements_valid in Hv. rewrite Forall_forall in Hv.
  split_and!; [by apply Hval|by apply Hv|]. apply Hcov. apply list_elem_of_fmap.
  exists (requirement_entry x). split; [done|]. apply list_elem_of_fmap. by exists x.
Qed.

Lemma adjust_outcome_inv i id rs r i' :
  inv_ok i -> adjust_outcome i id rs r i' -> inv_ok i'.
Proof.
  intros Hi [| |r0 replacement Hr Hok Hrs Hcov]; [done..|].
  pose proof (inv_reservations i Hi _ _ Hr) as (Hid & Hne & Hop & _ & _ & Hs).
  apply inv_ok_update; [done| |].
  - intros k. rewrite (held_entries_delete (reservations i) id r0) by done.
    rewrite Hid, <- insert_delete_eq, held_entries_insert by apply lookup_delete_eq.
    rewrite !total_at_app, total_at_neg. lia.
  - rewrite Hid. apply map_Forall_insert_2; [by split_and!|apply (inv_reservations i Hi)].
Qed.

(** ** Construction *)

Lemma NewWithPolicies_step_inv i entry i' :
  reservations i = ∅ -> inv_ok i ->
  0 <= Units (pol_WalletBalance entry.2) ->
  NewWithPolicies_step i entry = Ok i' -> inv_ok i' /\ reservations i' = ∅.
Proof.
  intros Hempty [H1 H2 H3 H4 H5 H6 H7 H8 H9] Hw. destruct entry as [k p].
  unfold NewWithPolicies_step. intros H. res_inv. subst i'. split; [|done].
  split; cbn; rewrite ?dom_insert_L; try congruence.
  - intros k' [->%elem_of_singleton|Hk']%elem_of_union; [|by apply H6].
    unfold policy_invalid in Hc. unfold key_ok. tauto.
  - by apply map_Forall_insert_2.
  - apply map_Forall_insert_2; [|done]. by rewrite Hempty.
  - rewrite Hempty. apply map_Forall_empty.
Qed.

Lemma NewWithPolicies_inv policies i :
  map_Forall (fun _ p => 0 <= Units (pol_WalletBalance p)) policies ->
  NewWithPolicies policies = Ok i -> inv_ok i.
Proof.
  intros Hp H. unfold NewWithPolicies in H.
  enough (inv_ok i /\ reservations i = ∅) by tauto.
  revert H. apply (foldM_inv _ (fun i => inv_ok i /\ reservations i = ∅)).
  - split; [|done]. split; cbn; rewrite ?dom_empty_L; try done; apply map_Forall_empty.
  - intros s [k p] s' Hin [Hi He] Hs. eapply NewWithPolicies_step_inv; [done..| |done].
    apply elem_of_range in Hin. by apply (Hp k).
Qed.

(** ** Runs: sequences of calls *)

Inductive call :=
| CReserve (id : ReservationID) (operation : OperationID) (rs : list Requirement)
| CRelease (id : ReservationID)
| CObserve (key : Key) (amount : TokenAmount)
| CInFlight (key : Key) (amount : TokenAmount)
| CApply (effects : list Effect)
| CAdjust (id : ReservationID) (rs : list Requirement)
| CSettle (id : ReservationID) (effects : list Effect).

Definition void {A} (m : ST Inventory A) : ST Inventory unit := _ ← m; mret tt.

Definition run (c : call) : ST Inventory unit :=
  match c with
  | CReserve id operation rs => void (Reserve id operation rs)
  | CRelease id => Release id
  | CObserve key amount => ObserveWalletBalance key amount
  | CInFlight key amount => SetInFlightOut key amount
  | CApply effects => ApplyEffects effects
  | CAdjust id rs => void (AdjustReservation id rs)
  | CSettle id effects => Settle id effects
  end.

(** Token amounts are never negative ([NewTokenAmount]). *)
Definition call_valid (c : call) : Prop :=
  match c with
  | CReserve _ _ rs | CAdjust _ rs => requirements_valid rs
  | CObserve _ amount => 0 <= Units amount
  | _ => True
  end.

(** The inventory after a sequence of calls, each from where the one before
    left it, whatever it returned. *)
Definition run_all (cs : list call) (i : Inventory) : Inventory :=
  foldl (fun i c => (run c i).2) i cs.

Lemma void_Post {A} (m : ST Inventory A) i (P : Inventory -> Prop) :
  Post m i (fun _ i' => P i') -> Post (void m) i (fun _ i' => P i').
Proof. unfold Post, void, mbind, st_bind. by destruct (m i) as [[?|?|?] ?]. Qed.

Lemma run_inv c i : inv_ok i -> call_valid c -> Post (run c) i (fun _ i' => inv_ok i').
Proof.
  intros Hi Hv. destruct c; cbn [run].
  - apply void_Post. eapply Post_weaken; [by apply Reserve_outcome|].
    intros r i' H. by eapply reserve_outcome_inv.
  - eapply Post_weaken; [by apply Release_inv|]. by intros r i' [_ H].
  - eapply Post_weaken; [by apply ObserveWalletBalance_inv|]. by intros r i' [_ H].
  - eapply Post_weaken; [by apply SetInFlightOut_inv|]. by intros r i' [_ H].
  - eapply Post_weaken; [by apply ApplyEffects_outcome|]. by intros r i' [H _].
  - apply void_Post. eapply Post_weaken; [by apply AdjustReservation_outcome|].
    intros r i' H. by eapply adjust_outcome_inv.
  - eapply Post_weaken; [by apply Settle_outcome|].
    intros r i' H. by eapply settle_outcome_inv.
Qed.

Lemma run_all_inv cs i : inv_ok i -> Forall call_valid cs -> inv_ok (run_all cs i).
Proof.
  intros Hi Hv. revert i Hi. induction Hv as [|c cs Hc Hcs IH]; intros i Hi; [done|].
  apply IH. pose proof (run_inv c i Hi Hc) as H. unfold Post in H. by destruct (run c i).
Qed.

(** The fingerprint of a settlement does not depend on the order of its
    effects. *)
Lemma effect_parts_app effects parts :
  foldM (fun parts e => part ← effect_part e; Ok (parts ++ [part])) parts effects =
  (rest ← foldM (fun parts e => part ← effect_part e; Ok (parts ++ [part])) [] effects;
   Ok (parts ++ rest)).
Proof.
  revert parts. induction effects as [|e effects IH]; intros parts; cbn.
  - by rewrite app_nil_r.
  - destruct (effect_part e) as [part|err|w]; cbn; [|done..].
    rewrite (IH (parts ++ [part])), (IH [part]).
    destruct (foldM _ [] effects); cbn; [|done..]. by rewrite <- app_assoc.
Qed.

(** Without an invalid effect the parts are the effects' own. *)
Definition effect_string (e : Effect) : string :=
  strings_Join [Key_Chain (eff_Key e); Key_Account (eff_Key e); Key_Token (eff_Key e);
                pretty (default 0 (eff_Delta e))] "/".
Definition effect_valid (e : Effect) : Prop := is_Some (eff_Delta e) /\ ~ effect_key_invalid e.

Lemma effect_part_Ok e part :
  effect_part e = Ok part <-> effect_valid e /\ part = effect_string e.
Proof.
  unfold effect_part, effect_valid, effect_string.
  destruct (eff_Delta e) as [delta|]; cbn [default].
  - destruct (decide _) as [?|Hk]; split; try done; [tauto| |].
    + intros [= <-]. split; [split; [by eexists|done]|done].
    + by intros [_ ->].
  - split; [done|]. by intros [[[? ?] _] _].
Qed.

Lemma effect_parts_Ok effects parts :
  foldM (fun parts e => part ← effect_part e; Ok (parts ++ [part])) [] effects = Ok parts <->
  Forall effect_valid effects /\ parts = effect_string <$> effects.
Proof.
  revert parts. induction effects as [|e effects IH]; intros parts; cbn [foldM].
  - split; [by intros [= <-]|by intros [_ ->]].
  - rewrite Forall_cons, fmap_cons, bind_Ok. split.
    + intros (ps & H1 & H2). apply bind_Ok in H1 as (part & [? ->]%effect_part_Ok & [= <-]).
      rewrite effect_parts_app in H2. apply bind_Ok in H2 as (rest & [? ->]%IH & [= <-]). done.
    + intros [[? ?] ->]. exists [effect_string e]. split.
      * apply bind_Ok. exists (effect_string e). by rewrite effect_part_Ok.
      * rewrite effect_parts_app. apply bind_Ok. exists (effect_string <$> effects).
        by rewrite IH.
Qed.

Lemma effectFingerprint_Ok effects fp :
  effectFingerprint effects = Ok fp <->
  Forall effect_valid effects /\ fp = strings_Join (sort_Strings (effect_string <$> effects)) "|".
Proof.
  unfold effectFingerprint. rewrite bind_Ok. setoid_rewrite effect_parts_Ok. split.
  - intros (x & [? ->] & [= <-]). done.
  - intros [? ->]. by eexists.
Qed.

Lemma sort_Strings_perm l k : l ≡ₚ k -> sort_Strings l = sort_Strings k.
Proof.
  intros H. apply (Sorted_unique String.le).
  - apply Sorted_merge_sort, _.
  - apply Sorted_merge_sort, _.
  - unfold sort_Strings. by rewrite !merge_sort_Permutation.
Qed.

Lemma effectFingerprint_perm effects effects' fp :
  effects ≡ₚ effects' -> effectFingerprint effects = Ok fp -> effectFingerprint effects' = Ok fp.
Proof.
  rewrite !effectFingerprint_Ok. intros Hp [Hv ->]. split; [by rewrite <- Hp|].
  f_equal. apply sort_Strings_perm. by rewrite Hp.
Qed.
End operations.

(** ** What the component promises *)

Lemma spendable_reserve_state i r k :
  inv_ok i -> is_Some (balances i !! k) ->
  spendable (reserve_state i r) k = spendable i k - total_at k (reservation_entries r).
Proof.
  intros Hi Hk. destruct (inv_ok_lookup i k Hi Hk) as (w & cap & buf & held & fl & _ & _ & _ & Hr & _).
  unfold spendable. cbn. rewrite lookup_add_totals, Hr. cbn. unfold id. lia.
Qed.

Lemma add_totals_cancel l m : add_totals (neg_entries l) (add_totals l m) = m.
Proof.
  rewrite add_totals_app. rewrite <- (add_totals_nil m) at 2. apply add_totals_ext.
  intros k. rewrite total_at_app, total_at_neg. cbn. lia.
Qed.

Lemma release_reserve_state i r :
  reservations i !! res_ID r = None -> release_state (reserve_state i r) r = i.
Proof.
  intros Hr. destruct i as [b a t bu f re rs st]. cbn in Hr.
  unfold release_state, reserve_state, set_reservations, set_reserved. cbn -[add_totals].
  by rewrite add_totals_cancel, delete_insert_id.
Qed.

Section promises.
Context {order : RangeOrder Key}.

(** C1. From a fresh inventory, any sequence of Reserve, Release, Adjust,
    Settle, ApplyEffects and observation calls, whatever each returns, keeps
    the invariant: the maps share one domain, no wallet balance is negative,
    and the reserved amount of every key is exactly what the live reservations
    hold there. *)
Theorem inventory_runs_keep_invariant (policies : gmap Key BalancePolicy) (i : Inventory)
    (cs : list call) :
  map_Forall (fun _ p => 0 <= Units (pol_WalletBalance p)) policies ->
  NewWithPolicies policies = Ok i -> Forall call_valid cs -> inv_ok (run_all cs i).
Proof. intros Hp Hi Hcs. apply run_all_inv; [by eapply NewWithPolicies_inv|done]. Qed.

(** C2. Reserve is atomic and never over-reserves: it does not panic; an error
    or a repeated identity leaves the inventory as it was; a fresh reservation
    lowers what is spendable at each key by exactly the amount required there,
    and leaves it non-negative at every key with a positive requirement. *)
Theorem Reserve_safe (i : Inventory) (id : ReservationID) (op : OperationID)
    (rs : list Requirement) :
  inv_ok i -> requirements_valid rs ->
  Post (Reserve id op rs) i (fun r i' =>
    match r with
    | Panic _ => False
    | Err _ => i' = i
    | Ok reservation =>
        (reservations i !! id = Some reservation /\ i' = i) \/
        (reservations i !! id = None /\ reservations i' !! id = Some reservation /\
         reservation = mkReservation id op rs /\ balances i' = balances i /\
         forall k, is_Some (balances i !! k) ->
           spendable i' k = spendable i k - total_at k (requirement_entry <$> rs) /\
           (0 < total_at k (requirement_entry <$> rs) -> 0 <= spendable i' k))
    end).
Proof.
  intros Hi Hv. eapply Post_weaken; [by apply Reserve_outcome|].
  intros r i' [e|r0 Hr Hop|r0 Hr Hs Hid Hop Hrs Hok Hcov]; [done|by left|right].
  split_and!; [done|apply lookup_insert_eq|done..|].
  intros k Hk. rewrite spendable_reserve_state by done. unfold r0. rewrite reservation_entries_mk.
  split; [done|]. intros Hpos.
  assert (k ∈ (requirement_entry <$> rs).*1) as Hin.
  { apply dec_stable. intros Hn. rewrite total_at_notin in Hpos by done. lia. }
  specialize (Hcov k Hin). unfold r0 in Hcov. rewrite reservation_entries_mk in Hcov. lia.
Qed.

(** Release undoes a fresh Reserve: the inventory is exactly the one before
    the reservation, and releasing again changes nothing. *)
Theorem Release_undoes_Reserve (i i' : Inventory) (id : ReservationID) (op : OperationID)
    (rs : list Requirement) (r : Reservation) :
  inv_ok i -> requirements_valid rs -> reservations i !! id = None ->
  Reserve id op rs i = (Ok r, i') ->
  Release id i' = (Ok tt, i) /\ Release id i = (Ok tt, i).
Proof.
  intros Hi Hv Hfresh Hrun. pose proof (Reserve_outcome i id op rs Hi Hv) as Hout.
  unfold Post in Hout. rewrite Hrun in Hout. pose proof (reserve_outcome_inv _ _ _ _ _ _ Hi Hout) as Hi'.
  inversion Hout as [|r1 Hr1|r0 Hr Hs Hid]; subst; [congruence|].
  split.
  - rewrite (Release_run _ id r0) by (try done; apply lookup_insert_eq). f_equal.
    by apply release_reserve_state.
  - unfold Release. rewrite decide_False by done. unfold mbind, st_bind, get. by rewrite Hfresh.
Qed.

(** Settlement is all or nothing and idempotent: a first Settle that returns
    nil moves every balance by the sum of its effects there, keeps it
    non-negative, and gives back what the reservation held; settling again with
    the same effects in any order returns nil and changes nothing. *)
Theorem Settle_applies_once (i i' : Inventory) (id : ReservationID) (r : Reservation)
    (effects : list Effect) :
  inv_ok i -> reservations i !! id = Some r -> Settle id effects i = (Ok tt, i') ->
  reservations i' !! id = None /\ inv_ok i' /\
  (forall k, balances i' !! k = (fun v => v + total_at k (effect_entries effects)) <$> balances i !! k) /\
  (forall k, reserved i' !! k = (fun v => v - total_at k (reservation_entries r)) <$> reserved i !! k) /\
  (forall effects', effects' ≡ₚ effects -> Settle id effects' i' = (Ok tt, i')).
Proof.
  intros Hi Hr Hrun. pose proof (Settle_outcome i id effects Hi) as Hout.
  unfold Post in Hout. rewrite Hrun in Hout. pose proof (settle_outcome_inv _ _ _ _ _ Hi Hout) as Hi'.
  pose proof (inv_reservations i Hi _ _ Hr) as (Hid & Hne & _).
  inversion Hout as [|fp Hfp Hnone|r0 fp Hfp Hr0 Hb]; [congruence|]. simplify_eq.
  split_and!; [apply lookup_delete_eq|done|intros k; apply lookup_add_totals| |].
  - intros k. cbn. rewrite lookup_add_totals, total_at_neg. by destruct (reserved i !! k).
  - intros effects' Hp. unfold Settle.
    assert (effects <> []) as Hnil.
    { intros ->. unfold Settle in Hrun. rewrite decide_True in Hrun by auto. discriminate. }
    rewrite decide_False by (intros [?| ->]; [done|by apply Permutation_nil_l in Hp]).
    unfold lift, mbind, st_bind. rewrite (effectFingerprint_perm effects effects' fp) by done.
    cbn. rewrite lookup_delete_eq, lookup_insert_eq. by rewrite decide_True.
Qed.

(** ApplyEffects and Settle that fail write nothing. *)
Theorem failed_effects_write_nothing (i : Inventory) (id : ReservationID) (effects : list Effect) :
  inv_ok i ->
  Post (ApplyEffects effects) i (fun r i' => r <> Ok tt -> i' = i /\ no_panic r) /\
  Post (Settle id effects) i (fun r i' => r <> Ok tt -> i' = i /\ no_panic r).
Proof.
  intros Hi. split.
  - eapply Post_weaken; [by apply ApplyEffects_outcome|].
    intros r i' [_ [(e & -> & ->)|[-> _]]]; done.
  - eapply Post_weaken; [by apply Settle_outcome|]. by intros r i' [].
Qed.
End promises.

Section divergences.
Context {order : RangeOrder Key}.

(** Adjusting a reservation towards a key it did not hold before panics:
    [available.Add(available, old[key])] dereferences the nil entry of the old
    requirements, whatever the balance of the new key. *)
Theorem AdjustReservation_new_key_panics (i : Inventory) (id : ReservationID)
    (r : Reservation) (x : Requirement) :
  inv_ok i -> reservations i !! id = Some r -> requirement_ok i x ->
  req_Key x ∉ (reservation_entries r).*1 ->
  AdjustReservation id [x] i = (Panic "nil big.Int", i).
Proof.
  intros Hi Hr (Hx & _ & Hb) Hnew.
  pose proof (inv_reservations i Hi _ _ Hr) as (_ & Hid & Hop & _).
  unfold AdjustReservation. rewrite decide_False by naive_solver.
  unfold mbind, st_bind, get, lift. rewrite Hr.
  assert (NewReservation id (res_Operation r) [x] = Ok (mkReservation id (res_Operation r) [x])) as ->.
  { apply NewReservation_Ok. split_and!; try done. by constructor. }
  rewrite !combinedRequirements_eq.
  assert (range (accumulate_all ∅ (requirement_entry <$> [x])) = [(req_Key x, Units (req_Amount x))]) as ->.
  { apply Permutation_singleton_r. rewrite range_perm. cbn. unfold accumulate.
    rewrite lookup_empty. cbn. by rewrite insert_empty, map_to_list_singleton. }
  destruct Hb as [w Hw]. cbn [foldM]. unfold Adjust_check. cbn [fst snd]. rewrite Hw.
  rewrite (effectiveAvailable_spec i _ w) by done. cbn [mbind res_bind].
  apply lookup_accumulate_None in Hnew. unfold reservation_entries in Hnew. by rewrite Hnew.
Qed.

(** Two different effects with one fingerprint: the parts of a key are joined
    with a separator that they may contain. *)
Example effectFingerprint_collision :
  effectFingerprint [mkEffect (mkKey "a/b" "c" "d") (Some 5)] =
  effectFingerprint [mkEffect (mkKey "a" "b/c" "d") (Some 5)].
Proof. vm_compute. reflexivity. Qed.
End divergences.

(** ** Witnesses *)

Module InventoryWitness.
#[local] Instance listed : RangeOrder Key := range_map_to_list Key.

Definition usdc : Key := mkKey "b" "m" "u".
Definition weth : Key := mkKey "b" "m" "w".
Definition amount (t : string) (n : Z) : TokenAmount := mkTokenAmount t (Some n).
Definition policy (t : string) (n : Z) : BalancePolicy :=
  mkBalancePolicy (amount t n) (amount t 1000) (amount t 50) (amount t 10) (amount t 5).
Definition policies : gmap Key BalancePolicy :=
  <[usdc := policy "u" 100]> (<[weth := policy "w" 80]> ∅).
Definition start : Inventory := default Inventory_empty (res_opt (NewWithPolicies policies)).
Definition want : list Requirement := [mkRequirement usdc (amount "u" 40)].
Definition effects : list Effect := [mkEffect usdc (Some (-40)); mkEffect weth (Some 3)].
Definition reserved_state : Inventory := (Reserve "r" "op" want start).2.
Definition settled_state : Inventory := (Settle "r" effects reserved_state).2.

Lemma policies_nonneg : map_Forall (fun _ p => 0 <= Units (pol_WalletBalance p)) policies.
Proof.
  apply map_Forall_insert_2; [cbn; lia|]. apply map_Forall_insert_2; [cbn; lia|].
  apply map_Forall_empty.
Qed.

Lemma start_eq : NewWithPolicies policies = Ok start.
Proof. vm_compute. reflexivity. Qed.

Lemma want_valid : requirements_valid want.
Proof. repeat constructor; cbn; lia. Qed.

Lemma start_ok : inv_ok start.
Proof. apply (NewWithPolicies_inv policies); [apply policies_nonneg|apply start_eq]. Qed.

Lemma reserved_ok : inv_ok reserved_state.
Proof.
  assert (run_all [CReserve "r" "op" want] start = reserved_state) as <-
    by (vm_compute; reflexivity).
  apply run_all_inv; [apply start_ok|]. constructor; [apply want_valid|constructor].
Qed.

Lemma inventory_runs_witness :
  inv_ok (run_all [CReserve "r" "op" want; CSettle "r" effects; CRelease "r"] start).
Proof.
  apply (inventory_runs_keep_invariant policies start); [apply policies_nonneg|apply start_eq|].
  constructor; [apply want_valid|]. repeat constructor.
Defined.

Lemma Reserve_witness :
  is_ok (Reserve "r" "op" want start).1 = true /\
  Post (Reserve "r" "op" want) start (fun r i' =>
    forall x, r = Ok x -> reservations i' !! "r" = Some x /\
      spendable i' usdc = spendable start usdc - 40 /\ 0 <= spendable i' usdc).
Proof.
  split; [vm_compute; reflexivity|].
  eapply Post_weaken; [apply (Reserve_safe start "r" "op" want start_ok want_valid)|].
  intros r i' H x ->. destruct H as [[H _]|(_ & Hr & _ & _ & Hk)].
  - vm_compute in H. discriminate H.
  - split; [exact Hr|]. destruct (Hk usdc) as [-> Hpos]; [eexists; vm_compute; reflexivity|].
    split; [reflexivity|]. vm_compute. discriminate.
Defined.

Lemma Release_witness : Release "r" reserved_state = (Ok tt, start).
Proof.
  refine (proj1 (Release_undoes_Reserve start reserved_state "r" "op" want
    (mkReservation "r" "op" want) start_ok want_valid _ _)); vm_compute; reflexivity.
Defined.

Lemma Settle_witness :
  Settle "r" [mkEffect weth (Some 3); mkEffect usdc (Some (-40))] settled_state = (Ok tt, settled_state).
Proof.
  refine (proj2 (proj2 (proj2 (proj2 (Settle_applies_once reserved_state settled_state "r"
    (mkReservation "r" "op" want) effects reserved_ok _ _)))) _ _);
    [vm_compute; reflexivity..|]. apply Permutation_swap.
Defined.

Lemma failed_effects_witness :
  is_ok (ApplyEffects [mkEffect usdc (Some (-400))] start).1 = false /\
  Post (ApplyEffects [mkEffect usdc (Some (-400))]) start (fun r i' => r <> Ok tt -> i' = start).
Proof.
  split; [vm_compute; reflexivity|].
  eapply Post_weaken; [apply (failed_effects_write_nothing start "r" _ start_ok)|].
  intros r i' H Hr. exact (proj1 (H Hr)).
Defined.

Lemma AdjustReservation_panic_witness :
  AdjustReservation "r" [mkRequirement weth (amount "w" 1)] reserved_state =
  (Panic "nil big.Int", reserved_state).
Proof.
  apply (AdjustReservation_new_key_panics reserved_state "r" (mkReservation "r" "op" want)).
  - apply reserved_ok.
  - vm_compute. reflexivity.
  - split; [vm_compute; intuition discriminate|]. split; [cbn; lia|].
    eexists. vm_compute. reflexivity.
  - vm_compute. intros H. inversion H as [|? ? ? H']; inversion H'.
Defined.
End InventoryWitness.
