(* ===== verification/Allocation.v ===== *)
(** * Route allocations and exact splits
    (src/domain/execution/allocation.go, src/core/saga/amounts.go)

    A route allocation is a forest of branch groups: a root group consumes part
    of the leg input, any other group the whole quoted output of its parent.
    The splits divide an actual amount between branches without losing a unit. *)
From S2P Require Import Prelude Amount.

Record RouteBranch := mkRouteBranch {
  br_Market : MarketID; br_PlannedInput : option Z; br_ExpectedOutput : option Z }.

Record RouteGroup := mkRouteGroup {
  grp_ID : string; grp_Parent : string;
  grp_InputToken : TokenID; grp_OutputToken : TokenID;
  grp_Branches : list RouteBranch }.

Record RouteAllocation := mkRouteAllocation {
  ra_Input : TokenAmount; ra_ExpectedOutput : TokenAmount; ra_Groups : list RouteGroup }.

#[export] Instance RouteBranch_eq_dec : EqDecision RouteBranch.
Proof. solve_decision. Defined.
#[export] Instance RouteGroup_eq_dec : EqDecision RouteGroup.
Proof. solve_decision. Defined.
#[export] Instance RouteAllocation_eq_dec : EqDecision RouteAllocation.
Proof. solve_decision. Defined.

(** A nil [ExpectedOutput] is skipped. *)
Definition sumExpectedOutput (branches : list RouteBranch) : Z :=
  foldl (fun total b => match br_ExpectedOutput b with Some v => total + v | None => total end)
    0 branches.
#[global] Arguments sumExpectedOutput : simpl never.

(** ** Validation *)

(** The branch loop: markets seen, planned input, expected output. *)
Definition Validate_branch (state : gset MarketID * Z * Z) (branch : RouteBranch) :
    res (gset MarketID * Z * Z) :=
  let '(seenMarkets, plannedInput, expectedOutput) := state in
  match br_PlannedInput branch, br_ExpectedOutput branch with
  | Some planned, Some expected =>
      if decide (br_Market branch = "" \/ Z.sgn planned <= 0 \/ Z.sgn expected <= 0)
      then Err (Errorf "route allocation group %q branch %d is invalid") else
      if decide (br_Market branch ∈ seenMarkets)
      then Err (Errorf "route allocation group %q repeats market %q") else
      Ok ({[ br_Market branch ]} ∪ seenMarkets, plannedInput + planned, expectedOutput + expected)
  | _, _ => Err (Errorf "route allocation group %q branch %d is invalid")
  end.

Record alloc_scan := mkAllocScan {
  scan_groups : gmap string RouteGroup;
  scan_children : gmap string nat;
  scan_rootInput : Z }.

Definition child_count (s : alloc_scan) (id : string) : nat := default 0%nat (scan_children s !! id).

Definition Validate_group (a : RouteAllocation) (s : alloc_scan) (group : RouteGroup) :
    res alloc_scan :=
  if decide (grp_ID group = "" \/ grp_InputToken group = "" \/ grp_OutputToken group = "" \/
             grp_InputToken group = grp_OutputToken group \/ grp_Branches group = [])
  then Err (Errorf "route allocation group %d is incomplete") else
  if decide (is_Some (scan_groups s !! grp_ID group))
  then Err (Errorf "route allocation repeats group %q") else
  if decide (grp_Parent group = grp_ID group)
  then Err (Errorf "route allocation group %q is its own parent") else
  match foldM Validate_branch (∅, 0, 0) (grp_Branches group) with
  | Err e => Err e
  | Panic why => Panic why
  | Ok (_, plannedInput, _) =>
      if decide (grp_Parent group = "") then
        if decide (grp_InputToken group <> amount_token (ra_Input a))
        then Err (Errorf "route allocation root %q input token does not match leg input")
        else Ok (mkAllocScan (<[grp_ID group := group]> (scan_groups s)) (scan_children s)
                   (scan_rootInput s + plannedInput))
      else
        match scan_groups s !! grp_Parent group with
        | None => Err (Errorf "route allocation group %q parent must precede it")
        | Some parent =>
            if decide (grp_OutputToken parent <> grp_InputToken group)
            then Err (Errorf "route allocation group %q is discontinuous from parent") else
            if decide (plannedInput <> sumExpectedOutput (grp_Branches parent))
            then Err (Errorf "route allocation group %q does not consume its quoted parent output") else
            let count := S (child_count s (grp_Parent group)) in
            if decide (1 < count)%nat
            then Err (Errorf "route allocation group %q output has multiple consumers")
            else Ok (mkAllocScan (<[grp_ID group := group]> (scan_groups s))
                       (<[grp_Parent group := count]> (scan_children s)) (scan_rootInput s))
        end
  end.

Definition Validate_terminal (a : RouteAllocation) (s : alloc_scan) (terminalOutput : Z)
    (group : RouteGroup) : res Z :=
  if decide (child_count s (grp_ID group) <> 0%nat) then Ok terminalOutput else
  if decide (grp_OutputToken group <> amount_token (ra_ExpectedOutput a))
  then Err (Errorf "route allocation terminal group %q has unexpected output token")
  else Ok (terminalOutput + sumExpectedOutput (grp_Branches group)).

Definition RouteAllocation_Validate (a : RouteAllocation) : res unit :=
  if decide (amount_token (ra_Input a) = "" \/ IsZero (ra_Input a) \/
             amount_token (ra_ExpectedOutput a) = "" \/ IsZero (ra_ExpectedOutput a) \/
             ra_Groups a = [])
  then Err (Errorf "route allocation requires positive endpoints and groups") else
  match foldM (Validate_group a) (mkAllocScan ∅ ∅ 0) (ra_Groups a) with
  | Err e => Err e
  | Panic why => Panic why
  | Ok s =>
      if decide (scan_rootInput s <> Units (ra_Input a))
      then Err (Errorf "route allocation root groups do not conserve leg input") else
      terminalOutput ← foldM (Validate_terminal a s) 0 (ra_Groups a);
      if decide (terminalOutput <> Units (ra_ExpectedOutput a))
      then Err (Errorf "route allocation terminal groups do not match expected output")
      else Ok tt
  end.

(** [Clone] allocates fresh slices and integers with the same contents. *)
Definition RouteAllocation_Clone (a : RouteAllocation) : RouteAllocation :=
  mkRouteAllocation (ra_Input a) (ra_ExpectedOutput a)
    ((fun g => mkRouteGroup (grp_ID g) (grp_Parent g) (grp_InputToken g) (grp_OutputToken g)
       ((fun b => mkRouteBranch (br_Market b) (br_PlannedInput b) (br_ExpectedOutput b))
          <$> grp_Branches g)) <$> ra_Groups a).

(** ** Splitting actual amounts (src/core/saga/amounts.go) *)

Definition BalanceDelta (before after : option Z) : res Z :=
  match before, after with
  | Some b, Some a =>
      if decide (Z.sgn b < 0 \/ a < b)
      then Err (Errorf "hop balances must be non-negative and monotonic")
      else Ok (a - b)
  | _, _ => Err (Errorf "hop balances must be non-negative and monotonic")
  end.

(** The loop both splits share: every branch but the last gets the floor of its
    share, the last the remainder. *)
Fixpoint split_loop (total denominator : Z) (weights : list Z) (allocated : Z) : list Z :=
  match weights with
  | [] => []
  | [_] => [total - allocated]
  | w :: weights =>
      let part := Z.quot (total * w) denominator in
      part :: split_loop total denominator weights (allocated + part)
  end.

Definition SplitUnits (total : option Z) (weightsBPS : list Z) : res (list Z) :=
  match total with
  | None => Err (Errorf "split requires positive input and weights")
  | Some total =>
      if decide (Z.sgn total <= 0 \/ weightsBPS = [])
      then Err (Errorf "split requires positive input and weights") else
      sum ← foldM (fun sum weight =>
              if decide (weight = 0) then Err (Errorf "split weights must be positive")
              else Ok (uint64 (sum + weight))) 0 weightsBPS;
      if decide (sum <> 10000)
      then Err (Errorf "split weights must total 10000 basis points")
      else Ok (split_loop total 10000 weightsBPS 0)
  end.

Definition SplitByWeights_sum (weightTotal : Z * list Z) (weight : option Z) : res (Z * list Z) :=
  match weight with
  | None => Err (Errorf "split weights must be positive")
  | Some w =>
      if decide (Z.sgn w <= 0) then Err (Errorf "split weights must be positive")
      else Ok (weightTotal.1 + w, weightTotal.2 ++ [w])
  end.

Definition SplitByWeights (total : option Z) (weights : list (option Z)) : res (list Z) :=
  match total with
  | None => Err (Errorf "split requires positive input and weights")
  | Some total =>
      if decide (Z.sgn total <= 0 \/ weights = [])
      then Err (Errorf "split requires positive input and weights") else
      sums ← foldM SplitByWeights_sum (0, []) weights;
      Ok (split_loop total sums.1 sums.2 0)
  end.

(** ** Lemmas on splits *)

Lemma split_loop_length total d ws acc : length (split_loop total d ws acc) = length ws.
Proof.
  revert acc. induction ws as [|w [|w' ws] IH]; intros acc; [done..|].
  cbn [split_loop length] in *. by rewrite IH.
Qed.

Lemma split_loop_cons total d w w' ws acc :
  split_loop total d (w :: w' :: ws) acc =
  Z.quot (total * w) d :: split_loop total d (w' :: ws) (acc + Z.quot (total * w) d).
Proof. done. Qed.

Lemma split_loop_sum total d ws acc :
  ws <> [] -> Zsum (split_loop total d ws acc) = total - acc.
Proof.
  revert acc. induction ws as [|w [|w' ws] IH]; intros acc Hne; [done| |].
  - cbn [split_loop]. rewrite Zsum_cons, Zsum_nil. lia.
  - rewrite split_loop_cons, Zsum_cons, IH by done. lia.
Qed.

(** Each branch gets at least the floor of its share, and at most one unit per
    branch before it more than its share ([k] branches precede [ws]). *)
Lemma split_loop_share total d ws acc k (i : nat) w p :
  0 <= total -> 0 < d -> 0 <= k -> Forall (fun w => 0 <= w) ws ->
  acc * d <= total * (d - Zsum ws) <= acc * d + (d - 1) * k ->
  ws !! i = Some w -> split_loop total d ws acc !! i = Some p ->
  total * w <= p * d + (d - 1) /\ p * d <= total * w + (d - 1) * (k + Z.of_nat (length ws) - 1) /\ 0 <= p.
Proof.
  intros Ht Hd Hk Hws. revert acc k i Hk.
  induction Hws as [|w0 ws Hw0 Hws IH]; intros acc k i Hk Hacc Hi Hp; [done|].
  destruct ws as [|w1 ws].
  - destruct i as [|i]; [|done]. cbn in Hi, Hp. simplify_eq.
    rewrite Zsum_cons, Zsum_nil in Hacc. cbn [length]. split_and!; nia.
  - rewrite split_loop_cons in Hp. pose proof (Zquot_bounds (total * w0) d ltac:(nia) Hd) as Hq.
    destruct i as [|i]; cbn in Hi, Hp.
    + simplify_eq. cbn [length]. split_and!; [nia|nia|].
      apply Zquot_nonneg; [nia|done].
    + rewrite Zsum_cons in Hacc.
      destruct (IH (acc + Z.quot (total * w0) d) (k + 1) i) as (? & ? & ?); [lia|nia|done..|].
      cbn [length] in *. split_and!; [done| |done]. nia.
Qed.

(** What a split promises: as many parts as branches, no unit lost, and every
    part within rounding of its share. *)
Definition split_exact (total : Z) (weights parts : list Z) : Prop :=
  length parts = length weights /\ Zsum parts = total /\
  forall (i : nat) w p, weights !! i = Some w -> parts !! i = Some p ->
    0 <= p /\ total * w / Zsum weights <= p /\
    p * Zsum weights <= total * w + (Zsum weights - 1) * (Z.of_nat (length weights) - 1).

Lemma split_loop_exact total ws :
  0 <= total -> ws <> [] -> Forall (fun w => 0 < w) ws ->
  split_exact total ws (split_loop total (Zsum ws) ws 0).
Proof.
  intros Ht Hne Hws. split_and!.
  - apply split_loop_length.
  - rewrite split_loop_sum by done. lia.
  - assert (0 < Zsum ws) as Hd.
    { destruct Hws as [|w ws Hw Hws]; [done|]. rewrite Zsum_cons.
      pose proof (Zsum_nonneg ws). assert (0 <= Zsum ws); [|lia].
      apply Zsum_nonneg. eapply Forall_impl; [exact Hws|]. cbn. lia. }
    intros i w p Hw Hp.
    destruct (split_loop_share total (Zsum ws) ws 0 0 i w p) as (H1 & H2 & H3); try done; [|lia|].
    { eapply Forall_impl; [exact Hws|]. cbn. lia. }
    split_and!; [done| |nia].
    apply Z.lt_succ_r, Z.div_lt_upper_bound; [done|]. nia.
Qed.

Lemma SplitUnits_sum ws s sum :
  Forall (fun w => 0 <= w < 2 ^ 16) ws -> 0 <= s ->
  s + 2 ^ 16 * Z.of_nat (length ws) < 2 ^ 64 ->
  foldM (fun sum weight =>
    if decide (weight = 0) then Err (Errorf "split weights must be positive")
    else Ok (uint64 (sum + weight))) s ws = Ok sum ->
  sum = s + Zsum ws /\ Forall (fun w => 0 < w) ws.
Proof.
  intros Hws. revert s. induction Hws as [|w ws Hw Hws IH]; intros s Hs Hlen.
  - intros [= <-]. rewrite Zsum_nil. split; [lia|constructor].
  - cbn [foldM]. rewrite bind_Ok. intros (s1 & H1 & H2). res_inv. cbn [length] in Hlen.
    unfold uint64 in H1. rewrite Z.mod_small in H1 by lia. subst s1.
    apply IH in H2 as [-> Hp]; [|lia|lia]. rewrite Zsum_cons. split; [lia|].
    constructor; [lia|done].
Qed.

Lemma SplitByWeights_sums ws p q :
  foldM SplitByWeights_sum p ws = Ok q ->
  exists vs, ws = Some <$> vs /\ q = (p.1 + Zsum vs, p.2 ++ vs) /\ Forall (fun w => 0 < w) vs.
Proof.
  revert p. induction ws as [|w ws IH]; intros p; cbn [foldM].
  - intros [= <-]. exists []. rewrite Zsum_nil, app_nil_r. destruct p; cbn.
    split_and!; [done| |constructor]. f_equal. lia.
  - rewrite bind_Ok. intros (p1 & H1 & H2). unfold SplitByWeights_sum in H1. res_inv. subst p1.
    apply IH in H2 as (vs & -> & -> & Hvs). exists (z :: vs). rewrite Zsum_cons. cbn.
    split_and!; [done| |].
    + f_equal; [lia|]. by rewrite <- app_assoc.
    + constructor; [|done]. destruct z; cbn in *; lia.
Qed.

(** SplitUnits conserves the input: with basis-point weights it returns one
    part per branch, the parts sum to the total, and each is within rounding of
    its share. *)
Theorem SplitUnits_exact (total : Z) (weights parts : list Z) :
  Forall (fun w => 0 <= w < 2 ^ 16) weights -> Z.of_nat (length weights) < 2 ^ 47 ->
  SplitUnits (Some total) weights = Ok parts ->
  Zsum weights = 10000 /\ split_exact total weights parts.
Proof.
  intros Hw Hlen. unfold SplitUnits. intros H. res_inv. subst parts.
  apply SplitUnits_sum in Hx as [Hsum Hpos]; [|done|lia|lia].
  assert (Zsum weights = 10000) as Hs by lia. split; [done|].
  assert (weights <> []) by tauto. rewrite <- Hs at 1. apply split_loop_exact; try done.
  destruct total; cbn in *; lia.
Qed.

(** SplitByWeights conserves the input: it succeeds exactly on a positive
    total and positive weights, returns one part per branch, the parts sum to
    the total, and each is within rounding of its share. *)
Theorem SplitByWeights_exact (total : Z) (weights : list (option Z)) (parts : list Z) :
  SplitByWeights (Some total) weights = Ok parts ->
  0 < total /\ exists vs, weights = Some <$> vs /\ Forall (fun w => 0 < w) vs /\
    split_exact total vs parts.
Proof.
  unfold SplitByWeights. intros H. res_inv. subst parts.
  apply SplitByWeights_sums in Hx as (vs & -> & -> & Hpos). cbn.
  split; [destruct total; cbn in *; lia|]. exists vs. split_and!; try done.
  apply split_loop_exact; [destruct total; cbn in *; lia| |done].
  intros ->. cbn in *. tauto.
Qed.

Module SplitWitness.
Lemma units_witness : Zsum [3333; 6667] = 10000 /\ split_exact 100 [3333; 6667] [33; 67].
Proof.
  apply (SplitUnits_exact 100 [3333; 6667] [33; 67]);
    [repeat constructor; lia|cbn; lia|vm_compute; reflexivity].
Defined.

Lemma weights_witness :
  0 < 10 /\ exists vs, [Some 1; Some 2] = Some <$> vs /\ Forall (fun w => 0 < w) vs /\
    split_exact 10 vs [3; 7].
Proof. apply (SplitByWeights_exact 10 [Some 1; Some 2] [3; 7]). vm_compute. reflexivity. Defined.
End SplitWitness.

(** ** Lemmas on route validation *)

Definition branch_planned (b : RouteBranch) : Z := default 0 (br_PlannedInput b).
Definition planned (g : RouteGroup) : Z := Zsum (branch_planned <$> grp_Branches g).
Definition expected (g : RouteGroup) : Z := sumExpectedOutput (grp_Branches g).

(** How many groups of [l] consume the output of [id]. *)
Definition consumers (l : list RouteGroup) (id : string) : nat :=
  length (filter (fun g => grp_Parent g = id) l).

Definition branch_ok (b : RouteBranch) : Prop :=
  br_Market b <> "" /\ exists p e, br_PlannedInput b = Some p /\ br_ExpectedOutput b = Some e /\
    0 < p /\ 0 < e.

(** A group in the context of the groups before it: a root takes the leg input
    token, any other group takes the whole quoted output of an earlier group. *)
Definition group_ok (a : RouteAllocation) (before : list RouteGroup) (g : RouteGroup) : Prop :=
  grp_ID g <> "" /\ grp_InputToken g <> "" /\ grp_OutputToken g <> "" /\
  grp_InputToken g <> grp_OutputToken g /\ grp_Branches g <> [] /\
  Forall branch_ok (grp_Branches g) /\ NoDup (br_Market <$> grp_Branches g) /\
  ((grp_Parent g = "" /\ grp_InputToken g = amount_token (ra_Input a)) \/
   (grp_Parent g <> "" /\ exists p, p ∈ before /\ grp_ID p = grp_Parent g /\
      grp_OutputToken p = grp_InputToken g /\ planned g = expected p)).

Lemma Validate_branches_Ok branches seen p e seen' p' e' :
  foldM Validate_branch (seen, p, e) branches = Ok (seen', p', e') ->
  Forall branch_ok branches /\ NoDup (br_Market <$> branches) /\
  (forall m, m ∈ br_Market <$> branches -> m ∉ seen) /\ p' = p + Zsum (branch_planned <$> branches).
Proof.
  revert seen p e. induction branches as [|b bs IH]; intros seen p e; cbn [foldM].
  { intros [= -> -> ->]. cbn. rewrite Zsum_nil. split_and!; [constructor|constructor| |lia].
    intros m Hm. by apply elem_of_nil in Hm. }
  rewrite bind_Ok. intros ([[seen1 p1] e1] & H1 & H2).
  apply IH in H2 as (Hok & Hnd & Hseen & ->). unfold Validate_branch in H1.
  destruct (br_PlannedInput b) as [pl|] eqn:Hpl, (br_ExpectedOutput b) as [ex|] eqn:Hex; try done.
  res_inv. simplify_eq. rewrite !fmap_cons, Zsum_cons. unfold branch_planned at 2. rewrite Hpl.
  cbn [default]. unfold id. split_and!.
  - constructor; [|done]. split; [tauto|]. exists pl, ex. split_and!; [done..| |].
    + destruct pl; cbn in *; lia.
    + destruct ex; cbn in *; lia.
  - constructor; [|done]. intros Hin. apply (Hseen _ Hin). set_solver.
  - intros m [->|Hm]%elem_of_cons; [done|]. specialize (Hseen m Hm). set_solver.
  - lia.
Qed.

Lemma consumers_snoc l g id :
  consumers (l ++ [g]) id = (consumers l id + if decide (grp_Parent g = id) then 1 else 0)%nat.
Proof.
  unfold consumers. rewrite filter_app, length_app. f_equal.
  destruct (decide (grp_Parent g = id)) as [H|H].
  - by rewrite filter_cons_True.
  - by rewrite filter_cons_False.
Qed.

Lemma consumers_elem l g : g ∈ l -> (0 < consumers l (grp_Parent g))%nat.
Proof.
  intros Hg. unfold consumers.
  assert (g ∈ filter (fun x => grp_Parent x = grp_Parent g) l) as H
    by (apply list_elem_of_filter; auto).
  destruct (filter _ l); [by apply elem_of_nil in H|cbn; lia].
Qed.

(** The quoted output that later groups of [l] consume. *)
Definition consumed (l : list RouteGroup) (g : RouteGroup) : Z :=
  if decide (consumers l (grp_ID g) = 0%nat) then 0 else expected g.
Definition root_input (l : list RouteGroup) : Z :=
  Zsum (planned <$> filter (fun g => grp_Parent g = "") l).

Record scan_ok (a : RouteAllocation) (l : list RouteGroup) (s : alloc_scan) : Prop := {
  sc_groups : forall id g, scan_groups s !! id = Some g <-> g ∈ l /\ grp_ID g = id;
  sc_nodup : NoDup (grp_ID <$> l);
  sc_count : forall id, id <> "" -> child_count s id = consumers l id /\ (consumers l id <= 1)%nat;
  sc_root : scan_rootInput s = root_input l;
  sc_order : forall l1 g l2, l = l1 ++ g :: l2 -> group_ok a l1 g;
  sc_flow : Zsum (planned <$> l) = root_input l + Zsum (consumed l <$> l) }.

(** Changing a summand of one element of a list without repeated identities. *)
Lemma Zsum_update (l : list RouteGroup) (f f' : RouteGroup -> Z) p d :
  NoDup (grp_ID <$> l) -> p ∈ l -> f' p = f p + d ->
  (forall g, g ∈ l -> grp_ID g <> grp_ID p -> f' g = f g) ->
  Zsum (f' <$> l) = Zsum (f <$> l) + d.
Proof.
  intros Hnd Hp Hfp Hf. apply list_elem_of_split in Hp as (l1 & l2 & ->).
  rewrite !fmap_app, !fmap_cons, !Zsum_app, !Zsum_cons in *. apply NoDup_app in Hnd as (_ & Hd1 & Hnd).
  apply NoDup_cons in Hnd as [Hd2 _].
  assert (f' <$> l1 = f <$> l1) as ->.
  { apply list_fmap_ext. intros i g Hi. apply list_elem_of_lookup_2 in Hi.
    apply Hf; [set_solver|]. intros He. apply (Hd1 (grp_ID g)); [by apply list_elem_of_fmap_2|].
    rewrite He. set_solver. }
  assert (f' <$> l2 = f <$> l2) as ->; [|lia].
  apply list_fmap_ext. intros i g Hi. apply list_elem_of_lookup_2 in Hi.
  apply Hf; [set_solver|]. intros He. apply Hd2. rewrite <- He. by apply list_elem_of_fmap_2.
Qed.

Lemma group_ok_snoc a l g :
  (forall l1 x l2, l = l1 ++ x :: l2 -> group_ok a l1 x) -> group_ok a l g ->
  forall l1 x l2, l ++ [g] = l1 ++ x :: l2 -> group_ok a l1 x.
Proof.
  intros Hl Hg l1 x l2 He. destruct l2 as [|y l2 _] using rev_ind.
  - apply app_inj_tail in He as [-> ->]. done.
  - rewrite app_comm_cons, app_assoc in He. apply app_inj_tail in He as [-> ->]. by eapply Hl.
Qed.

(** A parent is consumed once, by a group that takes its whole output. *)
Lemma flow_snoc l g p :
  NoDup (grp_ID <$> l) -> (forall x, x ∈ l -> grp_Parent x <> grp_ID g) ->
  grp_Parent g <> grp_ID g -> p ∈ l -> grp_ID p = grp_Parent g ->
  consumers l (grp_ID p) = 0%nat ->
  Zsum (consumed (l ++ [g]) <$> (l ++ [g])) = Zsum (consumed l <$> l) + expected p.
Proof.
  intros Hnd Hfresh Hself Hp Hid Hcount. rewrite fmap_app, Zsum_app. cbn [fmap list_fmap].
  rewrite Zsum_cons, Zsum_nil. unfold consumed at 2.
  rewrite decide_True.
  2:{ rewrite consumers_snoc, decide_False by done. rewrite Nat.add_0_r.
      unfold consumers. destruct (filter _ l) as [|x r] eqn:Hf; [done|].
      assert (x ∈ filter (fun y => grp_Parent y = grp_ID g) l) as Hx by (rewrite Hf; by left).
      apply list_elem_of_filter in Hx as [? ?]. by destruct (Hfresh x). }
  rewrite !Z.add_0_r. apply (Zsum_update _ _ _ p); try done.
  - assert (consumers (l ++ [g]) (grp_ID p) = 1%nat) as H1.
    { by rewrite consumers_snoc, Hcount, decide_True. }
    unfold consumed. rewrite Hcount, H1. repeat case_decide; try done; lia.
  - intros x Hx Hne. unfold consumed. rewrite consumers_snoc.
    rewrite (decide_False (P := grp_Parent g = grp_ID x)) by congruence. by rewrite Nat.add_0_r.
Qed.

(** A group that no group consumes leaves the flow of the others alone. *)
Lemma flow_snoc_root l g :
  (forall x, x ∈ l -> grp_Parent x <> grp_ID g) -> grp_Parent g = "" ->
  (forall x, x ∈ l -> grp_ID x <> "") -> grp_ID g <> "" ->
  Zsum (consumed (l ++ [g]) <$> (l ++ [g])) = Zsum (consumed l <$> l).
Proof.
  intros Hfresh Hroot Hne Hg. rewrite fmap_app, Zsum_app. cbn [fmap list_fmap].
  rewrite Zsum_cons, Zsum_nil. unfold consumed at 2. rewrite decide_True.
  2:{ rewrite consumers_snoc, decide_False by congruence. rewrite Nat.add_0_r.
      unfold consumers. destruct (filter _ l) as [|x r] eqn:Hf; [done|].
      assert (x ∈ filter (fun y => grp_Parent y = grp_ID g) l) as Hx by (rewrite Hf; by left).
      apply list_elem_of_filter in Hx as [? ?]. by destruct (Hfresh x). }
  rewrite !Z.add_0_r. apply Zsum_fmap_ext. intros x Hx. unfold consumed.
  rewrite consumers_snoc, (decide_False (P := grp_Parent g = grp_ID x))
    by (rewrite Hroot; intros He; by apply (Hne x Hx)).
  by rewrite Nat.add_0_r.
Qed.

Lemma root_input_snoc l g :
  root_input (l ++ [g]) = root_input l + if decide (grp_Parent g = "") then planned g else 0.
Proof.
  unfold root_input. rewrite filter_app, fmap_app, Zsum_app. f_equal.
  destruct (decide (grp_Parent g = "")) as [H|H].
  - rewrite filter_cons_True by done. cbn. by rewrite Zsum_cons, Zsum_nil, Z.add_0_r.
  - by rewrite filter_cons_False.
Qed.

Lemma scan_ok_ids a l s x : scan_ok a l s -> x ∈ l -> grp_ID x <> "".
Proof.
  intros Hs Hx. apply list_elem_of_split in Hx as (l1 & l2 & Hl).
  by destruct (sc_order a l s Hs l1 x l2 Hl).
Qed.

Lemma scan_ok_parents a l s x id :
  scan_ok a l s -> scan_groups s !! id = None -> id <> "" -> x ∈ l -> grp_Parent x <> id.
Proof.
  intros Hs Hnone Hid Hx He. apply list_elem_of_split in Hx as (l1 & l2 & Hl).
  destruct (sc_order a l s Hs l1 x l2 Hl) as (_ & _ & _ & _ & _ & _ & _ & [[? _]|(_ & p & Hp & Hpid & _)]).
  - congruence.
  - assert (scan_groups s !! id = Some p); [|congruence].
    apply (sc_groups a l s Hs). split; [|congruence]. rewrite Hl. set_solver.
Qed.

Lemma scan_ok_insert a l s g :
  scan_ok a l s -> scan_groups s !! grp_ID g = None ->
  (forall id h, <[grp_ID g := g]> (scan_groups s) !! id = Some h <-> h ∈ l ++ [g] /\ grp_ID h = id) /\
  NoDup (grp_ID <$> (l ++ [g])).
Proof.
  intros Hs Hnone. split.
  - intros id h. rewrite elem_of_app, list_elem_of_singleton.
    destruct (decide (grp_ID g = id)) as [<-|Hne].
    + rewrite lookup_insert_eq. split; [intros [= <-]; auto|].
      intros [[Hh|Hh] Hid]; [|by rewrite Hh].
      assert (scan_groups s !! grp_ID g = Some h); [|congruence].
      by apply (sc_groups a l s Hs).
    + rewrite lookup_insert_ne by done. rewrite (sc_groups a l s Hs). naive_solver.
  - rewrite fmap_app. apply NoDup_app. split_and!; [by apply Hs| |apply NoDup_singleton].
    intros id (x & -> & Hx)%list_elem_of_fmap Hin. apply list_elem_of_singleton in Hin.
    assert (scan_groups s !! grp_ID g = Some x); [|congruence].
    by apply (sc_groups a l s Hs).
Qed.

Lemma Validate_group_root a l s g p :
  scan_ok a l s -> scan_groups s !! grp_ID g = None -> group_ok a l g -> grp_Parent g = "" ->
  p = planned g ->
  scan_ok a (l ++ [g]) (mkAllocScan (<[grp_ID g := g]> (scan_groups s)) (scan_children s)
                          (scan_rootInput s + p)).
Proof.
  intros Hs Hnone Hok Hroot ->. destruct (scan_ok_insert a l s g Hs Hnone) as [Hg Hnd].
  pose proof Hok as (Hid & _). split; cbn.
  - done.
  - done.
  - intros id Hne. rewrite consumers_snoc, decide_False by congruence. rewrite Nat.add_0_r.
    by apply (sc_count a l s Hs).
  - rewrite root_input_snoc, decide_True by done. by rewrite (sc_root a l s Hs).
  - intros l1 x l2. by apply group_ok_snoc; [apply Hs|].
  - rewrite flow_snoc_root; [|by intros; eapply scan_ok_parents|done|by intros; eapply scan_ok_ids|done].
    rewrite root_input_snoc, decide_True by done. rewrite fmap_app, Zsum_app, (sc_flow a l s Hs).
    cbn. rewrite Zsum_cons, Zsum_nil. lia.
Qed.

Lemma Validate_group_child a l s g p :
  scan_ok a l s -> scan_groups s !! grp_ID g = None -> group_ok a l g ->
  grp_Parent g <> "" -> grp_Parent g <> grp_ID g ->
  scan_groups s !! grp_Parent g = Some p -> planned g = expected p ->
  (S (child_count s (grp_Parent g)) <= 1)%nat ->
  scan_ok a (l ++ [g]) (mkAllocScan (<[grp_ID g := g]> (scan_groups s))
    (<[grp_Parent g := S (child_count s (grp_Parent g))]> (scan_children s)) (scan_rootInput s)).
Proof.
  intros Hs Hnone Hok Hchild Hself Hp Hflow Hcount.
  destruct (scan_ok_insert a l s g Hs Hnone) as [Hg Hnd]. pose proof Hok as (Hid & _).
  apply (sc_groups a l s Hs) in Hp as [Hpl Hpid].
  destruct (sc_count a l s Hs (grp_Parent g) Hchild) as [Hc _].
  assert (consumers l (grp_Parent g) = 0%nat) as Hzero by lia.
  split; cbn; [done|done| | | |].
  - intros id Hne. rewrite consumers_snoc. unfold child_count. cbn.
    destruct (decide (grp_Parent g = id)) as [<-|Hd].
    + rewrite lookup_insert_eq. cbn [from_option]. unfold Datatypes.id at 1.
      fold (child_count s (grp_Parent g)). lia.
    + rewrite lookup_insert_ne by done. rewrite Nat.add_0_r. by apply (sc_count a l s Hs).
  - rewrite root_input_snoc, decide_False by done. rewrite Z.add_0_r. by apply Hs.
  - intros l1 x l2. by apply group_ok_snoc; [apply Hs|].
  - rewrite (flow_snoc l g p); [|by apply Hs|by intros; eapply scan_ok_parents|done..|by rewrite Hpid].
    rewrite root_input_snoc, decide_False by done. rewrite fmap_app, Zsum_app, (sc_flow a l s Hs).
    cbn. rewrite Zsum_cons, Zsum_nil. lia.
Qed.

Lemma Validate_group_Ok a l s g s' :
  scan_ok a l s -> Validate_group a s g = Ok s' -> scan_ok a (l ++ [g]) s'.
Proof.
  intros Hs. unfold Validate_group. intros H. res_inv; subst s'.
  all: match goal with H : ~ is_Some _ |- _ => apply eq_None_not_Some in H as Hnone end.
  all: match goal with
       | H : foldM Validate_branch _ _ = Ok _ |- _ => apply Validate_branches_Ok in H as (Hb & Hnd & _ & Hp)
       end.
  all: assert (planned g = z0) as Hpl by (unfold planned; lia).
  - apply Validate_group_root; try done.
    split_and!; try tauto; try (by apply dec_stable). left. split; [done|by apply dec_stable].
  - apply Validate_group_child with (p := r); try done; try (by apply dec_stable; lia).
    + split_and!; try tauto. right. split; [done|]. exists r.
      match goal with H : scan_groups s !! grp_Parent g = Some r |- _ =>
        apply (sc_groups a l s Hs) in H as [? ?] end.
      split_and!; [done|done|by apply dec_stable|]. rewrite Hpl. by apply dec_stable.
    + rewrite Hpl. by apply dec_stable.
Qed.

Lemma scan_ok_empty a : scan_ok a [] (mkAllocScan ∅ ∅ 0).
Proof.
  split; cbn; try done.
  - intros id g. rewrite lookup_empty. split; [done|]. by intros [?%elem_of_nil _].
  - constructor.
  - intros id _. unfold child_count, consumers. cbn. rewrite lookup_empty. cbn. lia.
  - intros l1 g l2 H. by destruct l1.
Qed.

Definition terminal_output (all l : list RouteGroup) : Z :=
  Zsum (expected <$> filter (fun g => consumers all (grp_ID g) = 0%nat) l).

Lemma Validate_terminal_Ok a s l out :
  (forall g, g ∈ l -> child_count s (grp_ID g) = consumers (ra_Groups a) (grp_ID g)) ->
  foldM (Validate_terminal a s) 0 l = Ok out ->
  out = terminal_output (ra_Groups a) l /\
  (forall g, g ∈ l -> consumers (ra_Groups a) (grp_ID g) = 0%nat ->
     grp_OutputToken g = amount_token (ra_ExpectedOutput a)).
Proof.
  assert (forall n out, (forall g, g ∈ l -> child_count s (grp_ID g) = consumers (ra_Groups a) (grp_ID g)) ->
    foldM (Validate_terminal a s) n l = Ok out ->
    out = n + terminal_output (ra_Groups a) l /\
    (forall g, g ∈ l -> consumers (ra_Groups a) (grp_ID g) = 0%nat ->
       grp_OutputToken g = amount_token (ra_ExpectedOutput a))) as Hgen; [|intros H1 H2; exact (Hgen 0 out H1 H2)].
  clear out. induction l as [|g l IH]; intros n out Hc; cbn [foldM].
  { intros [= <-]. unfold terminal_output. cbn. rewrite Zsum_nil. split; [lia|].
    intros g Hg. by apply elem_of_nil in Hg. }
  rewrite bind_Ok. intros (n1 & H1 & H2). unfold Validate_terminal in H1.
  rewrite Hc in H1 by by left. apply IH in H2 as [-> Htok]; [|intros; apply Hc; by right].
  unfold terminal_output. destruct (decide (consumers (ra_Groups a) (grp_ID g) = 0%nat)) as [Hz|Hz].
  - rewrite filter_cons_True by done. rewrite decide_False in H1 by lia. res_inv. subst n1.
    rewrite fmap_cons, Zsum_cons. unfold expected at 2. split; [lia|].
    intros x [->|Hx]%elem_of_cons Hx0; [by apply dec_stable|by apply Htok].
  - rewrite filter_cons_False by done. rewrite decide_True in H1 by done. simplify_eq.
    split; [done|]. intros x [->|Hx]%elem_of_cons Hx0; [done|by apply Htok].
Qed.

Lemma consumed_terminal (all l : list RouteGroup) :
  Zsum (expected <$> l) = Zsum (consumed all <$> l) + terminal_output all l.
Proof.
  unfold terminal_output. induction l as [|g l IH]; [done|]. rewrite !fmap_cons, !Zsum_cons.
  unfold consumed at 1. destruct (decide (consumers all (grp_ID g) = 0%nat)) as [Hz|Hz].
  - rewrite filter_cons_True by done. rewrite fmap_cons, Zsum_cons. lia.
  - rewrite filter_cons_False by done. lia.
Qed.

(** What a valid allocation guarantees to the code that executes it. *)
Record allocation_conserves (a : RouteAllocation) : Prop := {
  ac_distinct : NoDup (grp_ID <$> ra_Groups a);
  ac_groups : forall before g after, ra_Groups a = before ++ g :: after -> group_ok a before g;
  ac_one_consumer : forall id, id <> "" -> (consumers (ra_Groups a) id <= 1)%nat;
  ac_terminal : forall g, g ∈ ra_Groups a -> consumers (ra_Groups a) (grp_ID g) = 0%nat ->
    grp_OutputToken g = amount_token (ra_ExpectedOutput a);
  ac_input : root_input (ra_Groups a) = Units (ra_Input a);
  ac_output : terminal_output (ra_Groups a) (ra_Groups a) = Units (ra_ExpectedOutput a);
  ac_flow : Zsum (planned <$> ra_Groups a) + Units (ra_ExpectedOutput a) =
            Units (ra_Input a) + Zsum (expected <$> ra_Groups a) }.

(** *** Completeness of the scan *)

(** The branch loop accepts branches that are positive and distinct. *)
Lemma Validate_branches_complete branches seen p e :
  Forall branch_ok branches -> NoDup (br_Market <$> branches) ->
  (forall m, m ∈ br_Market <$> branches -> m ∉ seen) ->
  exists seen' e', foldM Validate_branch (seen, p, e) branches =
    Ok (seen', p + Zsum (branch_planned <$> branches), e').
Proof.
  revert seen p e. induction branches as [|b bs IH]; intros seen p e Hok Hnd Hseen.
  { exists seen, e. cbn. rewrite Zsum_nil. by rewrite Z.add_0_r. }
  apply Forall_cons in Hok as [(Hm & pl & ex & Hpl & Hex & Hp & He) Hok].
  rewrite fmap_cons in Hnd, Hseen. apply NoDup_cons in Hnd as [Hb Hnd].
  assert (Validate_branch (seen, p, e) b = Ok ({[br_Market b]} ∪ seen, p + pl, e + ex)) as Hb1.
  { unfold Validate_branch. rewrite Hpl, Hex, !decide_False; [done|apply Hseen; by left|].
    destruct (Z.sgn_spec pl), (Z.sgn_spec ex); intros [?|[?|?]]; try done; lia. }
  cbn [foldM]. rewrite Hb1. cbn [mbind res_bind].
  destruct (IH ({[br_Market b]} ∪ seen) (p + pl) (e + ex)) as (seen' & e' & ->); [done..| |].
  { intros m Hm'. assert (m <> br_Market b) by congruence. specialize (Hseen m ltac:(by right)). set_solver. }
  exists seen', e'. rewrite fmap_cons, Zsum_cons. unfold branch_planned at 2. rewrite Hpl. cbn. unfold id.
  by rewrite Z.add_assoc.
Qed.

Lemma Validate_group_complete a l s g :
  scan_ok a l s -> group_ok a l g -> NoDup (grp_ID <$> (l ++ [g])) ->
  (consumers (l ++ [g]) (grp_Parent g) <= 1 \/ grp_Parent g = "")%nat ->
  exists s', Validate_group a s g = Ok s'.
Proof.
  intros Hs (Hid & Hi & Ho & Hio & Hne & Hb & Hm & Hpar) Hnd Hone.
  rewrite fmap_app in Hnd. apply NoDup_app in Hnd as (_ & Hfresh & _).
  assert (scan_groups s !! grp_ID g = None) as Hnone.
  { destruct (scan_groups s !! grp_ID g) as [h|] eqn:Hh; [|done]. apply (sc_groups a l s Hs) in Hh as [Hh He].
    destruct (Hfresh (grp_ID h)); [by apply list_elem_of_fmap_2|]. rewrite He. by left. }
  assert (grp_Parent g <> grp_ID g) as Hself.
  { destruct Hpar as [[-> _]|(_ & p & Hp & <- & _)]; [done|]. intros He.
    apply (Hfresh (grp_ID p)); [by apply list_elem_of_fmap_2|]. rewrite He. by left. }
  unfold Validate_group. rewrite decide_False by tauto. rewrite decide_False by (intros [? ?]; congruence).
  rewrite decide_False by done.
  destruct (Validate_branches_complete (grp_Branches g) ∅ 0 0 Hb Hm) as (seen & e & ->); [set_solver|].
  destruct Hpar as [[Hroot Hin]|(Hchild & p & Hp & Hpid & Hptok & Hflow)].
  - rewrite decide_True, decide_False by tauto. eauto.
  - rewrite decide_False by done.
    assert (scan_groups s !! grp_Parent g = Some p) as -> by by apply (sc_groups a l s Hs).
    rewrite decide_False by tauto. rewrite decide_False by (rewrite Z.add_0_l; unfold planned, expected in Hflow; lia).
    destruct (sc_count a l s Hs (grp_Parent g) Hchild) as [-> _].
    destruct Hone as [Hone|?]; [|done]. rewrite consumers_snoc, decide_True in Hone by done.
    rewrite decide_False by lia. eauto.
Qed.

Lemma consumers_app_le l k id : (consumers l id <= consumers (l ++ k) id)%nat.
Proof. unfold consumers. rewrite filter_app, length_app. lia. Qed.

Lemma Validate_groups_complete a l k s :
  scan_ok a l s -> NoDup (grp_ID <$> (l ++ k)) ->
  (forall before g after, l ++ k = before ++ g :: after -> group_ok a before g) ->
  (forall id, id <> "" -> (consumers (l ++ k) id <= 1)%nat) ->
  exists s', foldM (Validate_group a) s k = Ok s' /\ scan_ok a (l ++ k) s'.
Proof.
  revert l s. induction k as [|g k IH]; intros l s Hs Hnd Hok Hone.
  - exists s. by rewrite app_nil_r.
  - rewrite cons_middle, (assoc_L (++)) in Hnd, Hok, Hone |- *.
    destruct (Validate_group_complete a l s g) as [s1 H1].
    + done.
    + apply (Hok l g k). by rewrite <- (assoc_L (++)).
    + rewrite fmap_app in Hnd. by apply NoDup_app in Hnd as (? & _ & _).
    + destruct (decide (grp_Parent g = "")); [by right|left].
      etrans; [apply (consumers_app_le (l ++ [g]) k)|by apply Hone].
    + cbn [foldM]. rewrite H1. cbn [mbind res_bind]. apply IH; try done. by eapply Validate_group_Ok.
Qed.

Lemma Validate_terminal_complete a s l n :
  (forall g, g ∈ l -> child_count s (grp_ID g) = consumers (ra_Groups a) (grp_ID g)) ->
  (forall g, g ∈ l -> consumers (ra_Groups a) (grp_ID g) = 0%nat ->
     grp_OutputToken g = amount_token (ra_ExpectedOutput a)) ->
  foldM (Validate_terminal a s) n l = Ok (n + terminal_output (ra_Groups a) l).
Proof.
  revert n. induction l as [|g l IH]; intros n Hc Htok; cbn [foldM].
  { unfold terminal_output. cbn. rewrite Zsum_nil. by rewrite Z.add_0_r. }
  assert (Validate_terminal a s n g =
    Ok (n + if decide (consumers (ra_Groups a) (grp_ID g) = 0%nat) then expected g else 0)) as ->.
  { unfold Validate_terminal. rewrite Hc by by left.
    destruct (decide (consumers (ra_Groups a) (grp_ID g) = 0%nat)) as [Hz|Hz].
    - rewrite decide_False by lia. rewrite decide_False; [done|]. rewrite Htok; [tauto|by left|done].
    - rewrite decide_True by done. by rewrite Z.add_0_r. }
  cbn [mbind res_bind]. rewrite IH; [|intros; apply Hc; by right|intros; apply Htok; [by right|done]].
  f_equal. unfold terminal_output. rewrite filter_cons.
  destruct (decide _); rewrite ?fmap_cons, ?Zsum_cons; lia.
Qed.

(** The end points a route allocation needs. *)
Definition endpoints_ok (a : RouteAllocation) : Prop :=
  amount_token (ra_Input a) <> "" /\ Units (ra_Input a) <> 0 /\
  amount_token (ra_ExpectedOutput a) <> "" /\ Units (ra_ExpectedOutput a) <> 0 /\ ra_Groups a <> [].

Lemma Validate_sound a :
  RouteAllocation_Validate a = Ok tt -> endpoints_ok a /\ allocation_conserves a.
Proof.
  unfold RouteAllocation_Validate. intros H. res_inv.
  match goal with H : foldM (Validate_group a) _ _ = Ok ?s |- _ =>
    rename H into Hscan; rename s into sc end.
  assert (scan_ok a (ra_Groups a) sc) as Hs.
  { revert Hscan. apply (foldM_inv_prefix _ (scan_ok a)); [apply scan_ok_empty|].
    intros. by eapply Validate_group_Ok. }
  apply Validate_terminal_Ok in Hx as [-> Htok].
  2:{ intros g Hg. eapply (sc_count a _ sc Hs). by eapply scan_ok_ids. }
  apply dec_stable in Hc0, Hc1. rewrite (sc_root a _ sc Hs) in Hc0.
  split.
  { unfold endpoints_ok, IsZero in *. rewrite !Z.sgn_null_iff in Hc. tauto. }
  split; try done.
  - apply Hs.
  - apply Hs.
  - intros id Hid. by apply (sc_count a _ sc Hs).
  - rewrite (consumed_terminal (ra_Groups a)), (sc_flow a _ sc Hs). lia.
Qed.

Lemma Validate_complete a :
  endpoints_ok a -> allocation_conserves a -> RouteAllocation_Validate a = Ok tt.
Proof.
  intros Hend Ha. unfold RouteAllocation_Validate, endpoints_ok in *. rewrite decide_False.
  2:{ unfold IsZero. rewrite !Z.sgn_null_iff. tauto. }
  destruct (Validate_groups_complete a [] (ra_Groups a) _ (scan_ok_empty a)) as (s & -> & Hs);
    [by apply Ha|by apply Ha|by apply Ha|]. cbn [app] in Hs.
  rewrite (sc_root a _ s Hs), (ac_input a Ha), decide_False by tauto.
  rewrite Validate_terminal_complete.
  - cbn [mbind res_bind]. rewrite Z.add_0_l, (ac_output a Ha). by rewrite decide_False by tauto.
  - intros g Hg. eapply (sc_count a _ s Hs). by eapply scan_ok_ids.
  - apply Ha.
Qed.

(** Validate accepts exactly the forests that conserve value: with positive
    end points, group identities are distinct, every group has positive branches
    at distinct markets, follows its parent, takes the parent's whole quoted
    output and is its only consumer; root groups consume exactly the leg input,
    terminal groups produce exactly the expected output, and over all groups
    inputs plus output balance input plus outputs. *)
Theorem Validate_iff_conserves (a : RouteAllocation) :
  RouteAllocation_Validate a = Ok tt <-> endpoints_ok a /\ allocation_conserves a.
Proof.
  split; [apply Validate_sound|]. intros [? ?]. by apply Validate_complete.
Qed.

Lemma Validate_group_no_panic a s g : no_panic (Validate_group a s g).
Proof.
  unfold Validate_group. do 3 (destruct (decide _); [apply no_panic_Err|]).
  assert (no_panic (foldM Validate_branch (∅, 0, 0) (grp_Branches g))) as Hb.
  { apply no_panic_foldM. intros [[seen p] e] b _. unfold Validate_branch. no_panic_auto. }
  destruct (foldM _ _ _) as [[[seen p] e]|e|why]; [|apply no_panic_Err|by destruct (Hb why)].
  no_panic_auto.
Qed.

Lemma RouteAllocation_Validate_no_panic a : no_panic (RouteAllocation_Validate a).
Proof.
  unfold RouteAllocation_Validate. destruct (decide _); [apply no_panic_Err|].
  assert (no_panic (foldM (Validate_group a) (mkAllocScan ∅ ∅ 0) (ra_Groups a))) as Hg.
  { apply no_panic_foldM. intros. apply Validate_group_no_panic. }
  destruct (foldM _ _ _) as [s|e|why]; [|apply no_panic_Err|by destruct (Hg why)].
  unfold Validate_terminal. no_panic_auto.
Qed.

(** Cloning an allocation changes nothing an executor reads from it. *)
Lemma Clone_eq (a : RouteAllocation) : RouteAllocation_Clone a = a.
Proof.
  destruct a as [i o gs]. unfold RouteAllocation_Clone. cbn. f_equal.
  rewrite <- (list_fmap_id gs) at 2. apply list_fmap_ext. intros n g _. destruct g as [a b c d bs].
  cbn. f_equal. rewrite <- (list_fmap_id bs) at 2. apply list_fmap_ext. by intros ? [] _.
Qed.
