(* ===== verification/Execution.v ===== *)
(** * Durable execution state
    (src/domain/execution/types.go, state.go, cost.go, event.go)

    Legs, saga plans, prepared operations with their economics, and the
    transition tables of the technical and the economic state. *)
From Stdlib Require Import QArith Qcanon.
From S2P Require Import Prelude Amount Quote Registry Arbitrage Allocation Inventory.
Local Open Scope Z_scope.

Abbreviation PlanID := string (only parsing).
Abbreviation StepID := string (only parsing).
Abbreviation TechnicalState := string (only parsing).
Abbreviation EconomicState := string (only parsing).

(** ** Legs and plans *)

Definition LegBuy : string := "buy".
Definition LegSell : string := "sell".

Record Leg := mkLeg {
  leg_ID : StepID; leg_Side : string; leg_Chain : ChainID; leg_Account : AccountID;
  leg_Market : MarketID; leg_Input : TokenAmount; leg_ExpectedOutput : TokenAmount }.

Definition Leg_Validate (l : Leg) : res unit :=
  if decide (leg_ID l = "" \/ leg_Chain l = "" \/ leg_Account l = "" \/ leg_Market l = "")
  then Err (Errorf "execution leg identity is incomplete") else
  if decide (leg_Side l <> LegBuy /\ leg_Side l <> LegSell)
  then Err (Errorf "execution leg %q has invalid side %q") else
  if decide (amount_token (leg_Input l) = "" \/ IsZero (leg_Input l) \/
             amount_token (leg_ExpectedOutput l) = "" \/ IsZero (leg_ExpectedOutput l))
  then Err (Errorf "execution leg %q requires positive input and output") else Ok tt.

Record SagaPlan := mkSagaPlan {
  plan_id : PlanID; plan_opportunity : LiveOpportunity; plan_legs : list Leg; plan_createdAt : Time }.

(** [seen] holds the sides mapped to true. *)
Definition saga_leg (seen : gset string) (leg : Leg) : res (gset string) :=
  _ ← Leg_Validate leg;
  if decide (leg_Side leg ∈ seen) then Err (Errorf "parallel saga repeats %s leg")
  else Ok ({[ leg_Side leg ]} ∪ seen).

Definition NewSagaPlan (id : PlanID) (opportunity : LiveOpportunity) (legs : list Leg) (createdAt : Time) :
    res SagaPlan :=
  if decide (id = "" \/ Time_IsZero createdAt \/ length legs <> 2%nat)
  then Err (Errorf "parallel prefunded saga requires identity, timestamp, and two legs") else
  _ ← LiveOpportunity_Validate opportunity;
  seen ← foldM saga_leg ∅ legs;
  if decide (LegBuy ∉ seen \/ LegSell ∉ seen)
  then Err (Errorf "parallel saga requires buy and sell legs")
  else Ok (mkSagaPlan id opportunity legs createdAt).

(** ** States *)

Definition StatePrepared : TechnicalState := "prepared".
Definition StateCommitted : TechnicalState := "committed".
Definition StateBroadcastRejected : TechnicalState := "broadcast_rejected".
Definition StateBroadcastPossible : TechnicalState := "broadcast_possible".
Definition StateConfirmedSuccess : TechnicalState := "confirmed_success".
Definition StateConfirmedRevert : TechnicalState := "confirmed_revert".
Definition StateOutcomeUnknown : TechnicalState := "outcome_unknown".
Definition StateManualIntervention : TechnicalState := "manual_intervention_required".
Definition StateNoExecution : TechnicalState := "no_execution_proven".

Definition EconomicReserved : EconomicState := "reserved".
Definition EconomicEffectVerified : EconomicState := "effect_verified".
Definition EconomicEffectMismatch : EconomicState := "effect_mismatch".
Definition EconomicExposureOpen : EconomicState := "exposure_open".
Definition EconomicSettled : EconomicState := "settled".
Definition EconomicReleased : EconomicState := "released".

(** The map [allowed]; a missing row is empty. *)
Definition technical_allowed (from : TechnicalState) : list TechnicalState :=
  if decide (from = StatePrepared \/ from = StateCommitted) then
    [StateBroadcastRejected; StateBroadcastPossible; StateOutcomeUnknown; StateConfirmedSuccess;
     StateConfirmedRevert; StateNoExecution; StateManualIntervention]
  else if decide (from = StateBroadcastPossible) then
    [StateConfirmedSuccess; StateConfirmedRevert; StateOutcomeUnknown; StateNoExecution;
     StateManualIntervention]
  else if decide (from = StateOutcomeUnknown) then
    [StateConfirmedSuccess; StateConfirmedRevert; StateNoExecution; StateManualIntervention]
  else if decide (from = StateBroadcastRejected) then [StateNoExecution; StateManualIntervention]
  else [].

Definition ValidateTechnicalTransition (from to : TechnicalState) : res unit :=
  if decide (from = to) then Ok tt else
  if decide (to ∉ technical_allowed from) then Err (Errorf "invalid technical transition %q -> %q")
  else Ok tt.

Definition economic_allowed (from : EconomicState) : list EconomicState :=
  if decide (from = EconomicReserved) then
    [EconomicEffectVerified; EconomicEffectMismatch; EconomicExposureOpen; EconomicReleased]
  else if decide (from = EconomicEffectVerified) then [EconomicSettled; EconomicExposureOpen]
  else if decide (from = EconomicEffectMismatch) then [EconomicExposureOpen]
  else [].

Definition ValidateEconomicTransition (from to : EconomicState) : res unit :=
  if decide (from = to) then Ok tt else
  if decide (to ∉ economic_allowed from) then Err (Errorf "invalid economic transition %q -> %q")
  else Ok tt.

(** ** Operations *)

Record TransactionIdentity := mkTransactionIdentity {
  ti_Chain : ChainID; ti_Account : AccountID; ti_Hash : string; ti_Nonce : option Z;
  ti_Blockhash : string; ti_LastValidBlockHeight : Z }.

Definition TransactionIdentity_Validate (i : TransactionIdentity) : res unit :=
  if decide (ti_Chain i = "" \/ ti_Account i = "" \/ ti_Hash i = "")
  then Err (Errorf "transaction chain, account, and hash/signature are required") else Ok tt.

Record OperationStep := mkOperationStep {
  step_Operation : OperationID; step_Leg : Leg; step_Identity : TransactionIdentity;
  step_Allocation : option RouteAllocation; step_Technical : TechnicalState;
  step_Economic : EconomicState }.

Record OperationEconomics := mkOperationEconomics {
  ec_Valuation : ValuationSnapshot; ec_QuoteDelta : AssetQuantity; ec_BaseDelta : AssetQuantity;
  ec_MarkedBase : AssetQuantity; ec_GrossPnL : AssetQuantity; ec_Cost : AssetQuantity;
  ec_NetPnL : AssetQuantity; ec_Threshold : AssetQuantity; ec_DiscoveredAt : Time; ec_ValidatedAt : Time }.

Definition EconomicsFromOpportunity (o : LiveOpportunity) : OperationEconomics :=
  mkOperationEconomics (lo_Valuation o) (lo_QuoteDelta o) (lo_BaseDelta o) (lo_MarkedBase o)
    (lo_GrossPnL o) (lo_Cost o) (lo_NetPnL o) (lo_Threshold o) (lo_DiscoveredAt o) (lo_ValidatedAt o).

(** [err != nil || value.Rat().Cmp(expected.Rat()) != 0]. *)
Definition consistent (value : res AssetQuantity) (expected : AssetQuantity) (format : string) : res unit :=
  match value with
  | Panic why => Panic why
  | Err _ => Err (Errorf format)
  | Ok v => if decide (Rat_Cmp (Rat v) (Rat expected) <> 0) then Err (Errorf format) else Ok tt
  end.

Definition OperationEconomics_Validate (e : OperationEconomics) : res unit :=
  let base := val_base (ec_Valuation e) in
  let quote := val_quote (ec_Valuation e) in
  if decide (val_version (ec_Valuation e) = 0 \/ base = "" \/ quote = "" \/
             Time_IsZero (ec_DiscoveredAt e) \/ Time_IsZero (ec_ValidatedAt e))
  then Err (Errorf "operation economics requires valuation and discovery/validation timestamps") else
  if decide (quantity_asset (ec_BaseDelta e) <> base \/ quantity_asset (ec_QuoteDelta e) <> quote \/
             quantity_asset (ec_MarkedBase e) <> quote \/ quantity_asset (ec_GrossPnL e) <> quote \/
             quantity_asset (ec_Cost e) <> quote \/ quantity_asset (ec_NetPnL e) <> quote \/
             quantity_asset (ec_Threshold e) <> quote)
  then Err (Errorf "operation economics assets are inconsistent") else
  if decide (AssetQuantity_Sign (ec_Cost e) < 0 \/ AssetQuantity_Sign (ec_Threshold e) < 0)
  then Err (Errorf "operation costs and threshold cannot be negative") else
  price ← Valuation_Price (ec_Valuation e);
  _ ← consistent (NewAssetQuantity quote (Some (Rat (ec_BaseDelta e) * price)%Qc)) (ec_MarkedBase e)
        "operation marked base value is inconsistent";
  _ ← consistent (AssetQuantity_Add (ec_QuoteDelta e) (ec_MarkedBase e)) (ec_GrossPnL e)
        "operation gross PnL is inconsistent";
  consistent (AssetQuantity_Sub (ec_GrossPnL e) (ec_Cost e)) (ec_NetPnL e)
    "operation net PnL is inconsistent".

Record Operation := mkOperation {
  o_ID : OperationID; o_Plan : PlanID; o_OpportunityID : string; o_ConfigHash : string;
  o_Steps : list OperationStep; o_Economics : OperationEconomics;
  o_Technical : TechnicalState; o_Economic : EconomicState; o_CreatedAt : Time; o_CommittedAt : Time }.

Definition prepared_allocation (step : OperationStep) : res unit :=
  match step_Allocation step with
  | None => Ok tt
  | Some a =>
      _ ← wrap "operation step %q allocation: %w" (RouteAllocation_Validate a);
      if decide (amount_token (ra_Input a) <> amount_token (leg_Input (step_Leg step)) \/
                 Units (ra_Input a) <> Units (leg_Input (step_Leg step)) \/
                 amount_token (ra_ExpectedOutput a) <> amount_token (leg_ExpectedOutput (step_Leg step)) \/
                 Units (ra_ExpectedOutput a) <> Units (leg_ExpectedOutput (step_Leg step)))
      then Err (Errorf "operation step %q allocation does not match leg amounts") else Ok tt
  end.

Definition prepared_step (o : Operation) (_ : unit) (step : OperationStep) : res unit :=
  if decide (step_Operation step <> "" /\ step_Operation step <> o_ID o)
  then Err (Errorf "operation step %q belongs to another operation") else
  _ ← Leg_Validate (step_Leg step);
  _ ← TransactionIdentity_Validate (step_Identity step);
  prepared_allocation step.

Definition ValidatePrepared (o : Operation) : res unit :=
  if decide (o_ID o = "" \/ o_Plan o = "" \/ o_OpportunityID o = "" \/ o_ConfigHash o = "" \/
             length (o_Steps o) <> 2%nat \/ Time_IsZero (o_CreatedAt o))
  then Err (Errorf "prepared operation is incomplete") else
  _ ← OperationEconomics_Validate (o_Economics o);
  foldM (prepared_step o) tt (o_Steps o).

(** ** Costs and settlements *)

Record CostComponent := mkCostComponent {
  cc_Kind : string; cc_Chain : ChainID; cc_Amount : AssetQuantity; cc_QuoteValue : AssetQuantity;
  cc_IncludedInOutput : bool; cc_Evidence : string }.

Definition CostComponent_Validate (c : CostComponent) : res unit :=
  if decide (blank (cc_Kind c) = true \/ cc_Chain c = "" \/ quantity_asset (cc_Amount c) = "" \/
             AssetQuantity_Sign (cc_Amount c) < 0 \/ blank (cc_Evidence c) = true)
  then Err (Errorf "execution cost component is incomplete") else
  if decide (quantity_asset (cc_QuoteValue c) <> "" /\ AssetQuantity_Sign (cc_QuoteValue c) < 0)
  then Err (Errorf "execution cost quote value cannot be negative") else Ok tt.

Definition WithQuoteValue (c : CostComponent) (value : AssetQuantity) : res CostComponent :=
  if decide (quantity_asset value = "" \/ AssetQuantity_Sign value < 0)
  then Err (Errorf "execution cost quote value is invalid") else
  let c := mkCostComponent (cc_Kind c) (cc_Chain c) (cc_Amount c) value (cc_IncludedInOutput c)
             (cc_Evidence c) in
  _ ← CostComponent_Validate c; Ok c.

Record Settlement := mkSettlement {
  se_Operation : OperationID; se_Step : StepID; se_Identity : TransactionIdentity;
  se_Technical : TechnicalState; se_Economic : EconomicState; se_ActualIn : TokenAmount;
  se_ActualOut : TokenAmount; se_Costs : list CostComponent; se_ObservedAt : Time; se_Evidence : string }.

(** ** The state machines

    A change of state is a transition the validators accept, between different
    states.  Both machines run downhill in a rank. *)

Definition technical_step (from to : TechnicalState) : Prop :=
  from <> to /\ ValidateTechnicalTransition from to = Ok tt.
Definition economic_step (from to : EconomicState) : Prop :=
  from <> to /\ ValidateEconomicTransition from to = Ok tt.

Definition technical_rank (s : TechnicalState) : nat :=
  if decide (s = StatePrepared \/ s = StateCommitted) then 3
  else if decide (s = StateBroadcastPossible) then 2
  else if decide (s = StateOutcomeUnknown \/ s = StateBroadcastRejected) then 1 else 0.
Definition economic_rank (s : EconomicState) : nat :=
  if decide (s = EconomicReserved) then 2
  else if decide (s = EconomicEffectVerified \/ s = EconomicEffectMismatch) then 1 else 0.

Lemma guarded_step (allowed : string -> list string) (from to : string) format :
  from <> to /\ (if decide (from = to) then Ok tt else
                 if decide (to ∉ allowed from) then Err (Errorf format) else Ok tt) = Ok tt <->
  from <> to /\ to ∈ allowed from.
Proof.
  destruct (decide (from = to)); [naive_solver|]. destruct (decide (to ∉ allowed from)) as [H|H].
  - naive_solver.
  - apply dec_stable in H. naive_solver.
Qed.

Lemma technical_step_iff from to : technical_step from to <-> from <> to /\ to ∈ technical_allowed from.
Proof. apply guarded_step. Qed.
Lemma economic_step_iff from to : economic_step from to <-> from <> to /\ to ∈ economic_allowed from.
Proof. apply guarded_step. Qed.

(** Walk through the rows of a transition table. *)
Ltac table H :=
  repeat case_decide; destruct_or?; subst; set_unfold in H; destruct_or?; subst; try tauto.

Lemma technical_step_rank from to : technical_step from to -> (technical_rank to < technical_rank from)%nat.
Proof. rewrite technical_step_iff. intros [_ H]. unfold technical_allowed in H. table H; vm_compute; lia. Qed.

Lemma economic_step_rank from to : economic_step from to -> (economic_rank to < economic_rank from)%nat.
Proof. rewrite economic_step_iff. intros [_ H]. unfold economic_allowed in H. table H; vm_compute; lia. Qed.

Lemma nsteps_rank {A} (R : A -> A -> Prop) (rank : A -> nat) n x y :
  (forall x y, R x y -> (rank y < rank x)%nat) -> nsteps R n x y -> (n + rank y <= rank x)%nat.
Proof. intros HR. induction 1 as [|n x y z Hxy Hyz IH]; [lia|]. apply HR in Hxy. lia. Qed.

Lemma rtc_rank_0 {A} (R : A -> A -> Prop) (rank : A -> nat) x y :
  (forall x y, R x y -> (rank y < rank x)%nat) -> rank x = 0%nat -> rtc R x y -> y = x.
Proof. intros HR H0 H. inversion H as [|? z ? Hxz]; subst; [done|]. apply HR in Hxz. lia. Qed.

(** The states from which broadcast evidence is excluded. *)
Definition unsent (s : TechnicalState) : Prop :=
  s ∈ [StateBroadcastRejected; StateNoExecution; StateManualIntervention].

Lemma unsent_step x y : technical_step x y -> unsent x -> unsent y.
Proof.
  rewrite technical_step_iff. unfold unsent. intros [_ H] Hx. set_unfold in Hx.
  destruct_or?; subst; vm_compute in H |- *; set_unfold; tauto.
Qed.

Lemma rejected_source x : technical_step x StateBroadcastRejected -> technical_rank x = 3%nat.
Proof.
  rewrite technical_step_iff. intros [_ H]. unfold technical_allowed in H. table H; by vm_compute.
Qed.

(** The technical state of an operation changes at most three times; the
    confirmed, proven-not-executed and manual states are final; once a broadcast
    is rejected no later evidence can confirm a transaction; and an operation
    that may have been broadcast never counts as rejected again. *)
Theorem technical_runs_terminate (n : nat) (from to : TechnicalState) :
  nsteps technical_step n from to ->
  (n <= technical_rank from <= 3)%nat /\
  (technical_rank from = 0%nat -> n = 0%nat /\ to = from) /\
  (from = StateBroadcastRejected -> to <> StateConfirmedSuccess /\ to <> StateConfirmedRevert) /\
  ((technical_rank from <= 2)%nat -> (0 < n)%nat -> to <> StateBroadcastRejected).
Proof.
  intros H. pose proof (nsteps_rank _ _ _ _ _ technical_step_rank H) as Hr. split_and!.
  - lia.
  - unfold technical_rank. repeat case_decide; lia.
  - intros H0. split; [lia|]. eapply rtc_rank_0; [apply technical_step_rank|done|by eapply rtc_nsteps_2].
  - intros ->. assert (unsent to) as Hto.
    { clear Hr. assert (unsent StateBroadcastRejected) as Hs by (vm_compute; set_unfold; tauto).
      revert H Hs. generalize StateBroadcastRejected. induction 1; [done|]. eauto using unsent_step. }
    split; intros ->; vm_compute in Hto; set_unfold in Hto; destruct_or?; discriminate.
  - intros H2 Hn ->. destruct n as [|n]; [lia|]. apply nsteps_inv_r in H as (x & Hx & Hlast).
    pose proof (nsteps_rank _ _ _ _ _ technical_step_rank Hx). apply rejected_source in Hlast. lia.
Qed.

Lemma economic_run_inv (P : EconomicState -> Prop) from to :
  (forall x y, P x -> economic_step x y -> P y) -> P from -> rtc economic_step from to -> P to.
Proof. intros HP Hf. induction 1; eauto. Qed.

Lemma mismatch_step x y :
  (x = EconomicEffectMismatch \/ x = EconomicExposureOpen) -> economic_step x y ->
  y = EconomicEffectMismatch \/ y = EconomicExposureOpen.
Proof.
  rewrite economic_step_iff. intros Hx [_ H]. destruct Hx as [-> | ->]; vm_compute in H; set_unfold in H; tauto.
Qed.

(** The economic state: settling needs a verified effect immediately before
    it and releasing an untouched reservation; a mismatched effect or an open
    exposure never settles or releases; and at most two changes happen. *)
Theorem economic_runs_guarded (n : nat) (from to : EconomicState) :
  nsteps economic_step n from to ->
  (n <= economic_rank from <= 2)%nat /\
  (forall x, economic_step x EconomicSettled <-> x = EconomicEffectVerified) /\
  (forall x, economic_step x EconomicReleased <-> x = EconomicReserved) /\
  (from = EconomicEffectMismatch \/ from = EconomicExposureOpen ->
     to = EconomicEffectMismatch \/ to = EconomicExposureOpen) /\
  (from = EconomicSettled \/ from = EconomicReleased -> n = 0%nat /\ to = from).
Proof.
  intros H. pose proof (nsteps_rank _ _ _ _ _ economic_step_rank H) as Hr. split_and!.
  - lia.
  - unfold economic_rank. repeat case_decide; lia.
  - intros x. rewrite economic_step_iff. split.
    + intros [_ Hx]. unfold economic_allowed in Hx. table Hx; discriminate.
    + intros ->. split; [discriminate|]. vm_compute. set_unfold. tauto.
  - intros x. rewrite economic_step_iff. split.
    + intros [_ Hx]. unfold economic_allowed in Hx. table Hx; discriminate.
    + intros ->. split; [discriminate|]. vm_compute. set_unfold. tauto.
  - intros Hf. apply (economic_run_inv (fun s => s = EconomicEffectMismatch \/ s = EconomicExposureOpen) from);
      [apply mismatch_step|done|by eapply rtc_nsteps_2].
  - intros Hf. assert (economic_rank from = 0%nat) as H0 by (by destruct Hf as [-> | ->]).
    split; [lia|]. eapply rtc_rank_0; [apply economic_step_rank|done|by eapply rtc_nsteps_2].
Qed.

(** ** Legs and plans *)

Definition leg_ok (l : Leg) : Prop :=
  leg_ID l <> "" /\ leg_Chain l <> "" /\ leg_Account l <> "" /\ leg_Market l <> "" /\
  (leg_Side l = LegBuy \/ leg_Side l = LegSell) /\
  amount_token (leg_Input l) <> "" /\ Units (leg_Input l) <> 0 /\
  amount_token (leg_ExpectedOutput l) <> "" /\ Units (leg_ExpectedOutput l) <> 0.

Lemma Leg_Validate_iff l : Leg_Validate l = Ok tt <-> leg_ok l.
Proof.
  unfold Leg_Validate, leg_ok.
  pose proof (IsZero_iff (leg_Input l)) as Hi. pose proof (IsZero_iff (leg_ExpectedOutput l)) as Ho.
  destruct (decide (leg_Side l = LegBuy)), (decide (leg_Side l = LegSell));
    repeat case_decide; split; try done; tauto.
Qed.

Lemma saga_leg_Ok seen leg seen' :
  saga_leg seen leg = Ok seen' <-> leg_ok leg /\ leg_Side leg ∉ seen /\ seen' = {[ leg_Side leg ]} ∪ seen.
Proof.
  unfold saga_leg. rewrite bind_Ok. setoid_rewrite <- Leg_Validate_iff. split.
  - intros ([] & Hl & H). case_decide; [done|]. by injection H as <-.
  - intros (Hl & Hs & ->). exists tt. split; [done|]. by rewrite decide_False.
Qed.

Lemma saga_leg_run seen leg :
  leg_ok leg -> leg_Side leg ∉ seen -> saga_leg seen leg = Ok ({[ leg_Side leg ]} ∪ seen).
Proof. intros. by apply saga_leg_Ok. Qed.

Lemma sides_differ : LegBuy <> LegSell.
Proof. discriminate. Qed.

(** A saga plan is built exactly from a complete opportunity and two complete
    legs, one of which buys and one of which sells, in either order; the plan
    keeps them as given. *)
Theorem NewSagaPlan_iff (id : PlanID) (opportunity : LiveOpportunity) (legs : list Leg) (createdAt : Time)
    (plan : SagaPlan) :
  NewSagaPlan id opportunity legs createdAt = Ok plan <->
  plan = mkSagaPlan id opportunity legs createdAt /\ id <> "" /\ createdAt <> 0 /\
  LiveOpportunity_Validate opportunity = Ok tt /\
  exists buy sell, legs ≡ₚ [buy; sell] /\ leg_ok buy /\ leg_ok sell /\
    leg_Side buy = LegBuy /\ leg_Side sell = LegSell.
Proof.
  unfold NewSagaPlan. split.
  - intros H. res_inv. destruct x. assert (id <> "" /\ createdAt <> 0 /\ length legs = 2%nat) as (Hid & Ht & Hlen).
    { unfold Time_IsZero in Hc. destruct (decide (length legs = 2%nat)); tauto. }
    destruct legs as [|l1 [|l2 [|]]]; try done. cbn [foldM] in Hx0.
    apply bind_Ok in Hx0 as (s1 & H1%saga_leg_Ok & Hx0). apply bind_Ok in Hx0 as (s2 & H2%saga_leg_Ok & [= <-]).
    destruct H1 as (Hl1 & _ & ->), H2 as (Hl2 & Hne & ->). split_and!; try done.
    assert (leg_Side l2 <> leg_Side l1) as Hne' by set_solver.
    pose proof Hl1 as (_ & _ & _ & _ & [Hs1|Hs1] & _); pose proof Hl2 as (_ & _ & _ & _ & [Hs2|Hs2] & _);
      try congruence.
    + exists l1, l2. by split_and!.
    + exists l2, l1. split_and!; try done. constructor.
  - intros (-> & Hid & Ht & Hop & buy & sell & Hperm & Hb & Hs & Hbs & Hss).
    pose proof (Permutation_length Hperm) as Hlen. cbn in Hlen.
    rewrite decide_False by (unfold Time_IsZero; rewrite Hlen; tauto). rewrite Hop. cbn [mbind res_bind].
    assert (exists seen, foldM saga_leg ∅ legs = Ok seen /\ LegBuy ∈ seen /\ LegSell ∈ seen) as (seen & -> & ? & ?).
    { symmetry in Hperm. apply Permutation_length_2_inv in Hperm as [-> | ->]; cbn [foldM];
        (rewrite saga_leg_run; [|done|set_solver]); cbn [mbind res_bind];
        (rewrite saga_leg_run; [|done|rewrite Hbs, Hss; pose proof sides_differ; set_solver]); rewrite Hbs, Hss;
        (eexists; split; [done|]); set_solver. }
    cbn [mbind res_bind]. rewrite decide_False by tauto. done.
Qed.

(** ** Economics and prepared operations *)

Lemma consistent_Ok v expected format :
  consistent v expected format = Ok tt <-> exists q, v = Ok q /\ Rat q = Rat expected.
Proof.
  unfold consistent. destruct v as [q|e|w]; [|split; [done|by intros (? & ? & _)]..].
  pose proof (Rat_Cmp_0 (Rat q) (Rat expected)). case_decide; naive_solver.
Qed.

(** What the record must name for its figures to be compared at all. *)
Definition economics_complete (e : OperationEconomics) : Prop :=
  let quote := val_quote (ec_Valuation e) in
  val_version (ec_Valuation e) <> 0 /\ val_base (ec_Valuation e) <> "" /\ quote <> "" /\
  ec_DiscoveredAt e <> 0 /\ ec_ValidatedAt e <> 0 /\
  quantity_asset (ec_BaseDelta e) = val_base (ec_Valuation e) /\
  Forall (fun q => quantity_asset q = quote)
    [ec_QuoteDelta e; ec_MarkedBase e; ec_GrossPnL e; ec_Cost e; ec_NetPnL e; ec_Threshold e] /\
  0 <= AssetQuantity_Sign (ec_Cost e) /\ 0 <= AssetQuantity_Sign (ec_Threshold e).

Lemma economics_guards_Ok (e : OperationEconomics) {A} (k : res A) (a : A) :
  let base := val_base (ec_Valuation e) in
  let quote := val_quote (ec_Valuation e) in
  (if decide (val_version (ec_Valuation e) = 0 \/ base = "" \/ quote = "" \/
              Time_IsZero (ec_DiscoveredAt e) \/ Time_IsZero (ec_ValidatedAt e))
   then Err (Errorf "operation economics requires valuation and discovery/validation timestamps") else
   if decide (quantity_asset (ec_BaseDelta e) <> base \/ quantity_asset (ec_QuoteDelta e) <> quote \/
              quantity_asset (ec_MarkedBase e) <> quote \/ quantity_asset (ec_GrossPnL e) <> quote \/
              quantity_asset (ec_Cost e) <> quote \/ quantity_asset (ec_NetPnL e) <> quote \/
              quantity_asset (ec_Threshold e) <> quote)
   then Err (Errorf "operation economics assets are inconsistent") else
   if decide (AssetQuantity_Sign (ec_Cost e) < 0 \/ AssetQuantity_Sign (ec_Threshold e) < 0)
   then Err (Errorf "operation costs and threshold cannot be negative") else k) = Ok a <->
  economics_complete e /\ k = Ok a.
Proof.
  cbv zeta. unfold economics_complete, Time_IsZero. rewrite !Forall_cons, Forall_nil. split.
  - intros H. do 3 (destruct (decide _) as [|?] in H; [done|]).
    repeat match goal with H : ~ (_ \/ _) |- _ => apply Decidable.not_or in H as [? ?] end.
    split_and!; try done; try lia; by apply dec_stable.
  - intros [Hc Hk]. rewrite !decide_False; [done| | |]; try tauto. lia.
Qed.

(** The economics of an operation validate exactly when they are complete and
    exact: the marked base is the base delta at the valuation price, the gross
    result is quote delta plus marked base, and the net result is gross minus
    cost, as rational numbers; so the net result is the whole trade valued once. *)
Theorem OperationEconomics_Validate_iff (e : OperationEconomics) :
  OperationEconomics_Validate e = Ok tt <->
  economics_complete e /\ exists price, val_price (ec_Valuation e) = Some price /\
    Rat (ec_MarkedBase e) = (Rat (ec_BaseDelta e) * price)%Qc /\
    Rat (ec_GrossPnL e) = (Rat (ec_QuoteDelta e) + Rat (ec_BaseDelta e) * price)%Qc /\
    Rat (ec_NetPnL e) = (Rat (ec_QuoteDelta e) + Rat (ec_BaseDelta e) * price - Rat (ec_Cost e))%Qc.
Proof.
  unfold OperationEconomics_Validate. cbv zeta. rewrite economics_guards_Ok.
  unfold Valuation_Price.
  destruct (val_price (ec_Valuation e)) as [price|] eqn:Hp; [|split; [by intros [_ ?]|by intros (_ & ? & ? & _)]].
  cbn [mbind res_bind].
  split.
  - intros (Hc & H). split; [done|]. exists price. split; [done|].
    pose proof Hc as (_ & _ & Hq & _ & _ & _ & Has & _). rewrite !Forall_cons, Forall_nil in Has.
    apply bind_Ok in H as ([] & H1 & H). apply bind_Ok in H as ([] & H2 & H3).
    apply consistent_Ok in H1 as (m & Hm & Hm'), H2 as (g & Hg & Hg'), H3 as (n & Hn & Hn').
    rewrite NewAssetQuantity_Ok in Hm by done. injection Hm as <-. cbn in Hm'.
    unfold AssetQuantity_Add in Hg. res_inv. rewrite NewAssetQuantity_Ok in Hg by (destruct Has as [-> _]; done).
    injection Hg as <-. unfold AssetQuantity_Sub in Hn. res_inv.
    rewrite NewAssetQuantity_Ok in Hn by (destruct Has as (_ & _ & -> & _); done).
    injection Hn as <-. cbn in Hg', Hn'. rewrite <- Hm', <- Hn', <- Hg', <- Hm'. done.
  - intros (Hc & p & [= <-] & Hm & Hg & Hn). split; [done|].
    pose proof Hc as (_ & _ & Hq & _ & _ & _ & Has & _). rewrite !Forall_cons, Forall_nil in Has.
    destruct Has as (Hqd & Hmb & Hgp & Hco & Hnp & Hth & _).
    apply bind_Ok. exists tt. split.
    { apply consistent_Ok. eexists. split; [by apply NewAssetQuantity_Ok|]. by rewrite Hm. }
    apply bind_Ok. exists tt. split.
    + apply consistent_Ok. unfold AssetQuantity_Add. rewrite decide_False by congruence.
      eexists. split; [apply NewAssetQuantity_Ok; congruence|]. cbn. by rewrite Hm, Hg.
    + apply consistent_Ok. unfold AssetQuantity_Sub. rewrite decide_False by congruence.
      eexists. split; [apply NewAssetQuantity_Ok; congruence|]. cbn. by rewrite Hg, Hn.
Qed.

(** The step's leg is complete, its transaction is identified, and its route,
    when it has one, conserves value from the leg's input to its output. *)
Definition step_prepared (o : Operation) (step : OperationStep) : Prop :=
  (step_Operation step = "" \/ step_Operation step = o_ID o) /\
  leg_ok (step_Leg step) /\
  ti_Chain (step_Identity step) <> "" /\ ti_Account (step_Identity step) <> "" /\
  ti_Hash (step_Identity step) <> "" /\
  forall a, step_Allocation step = Some a ->
    endpoints_ok a /\ allocation_conserves a /\
    amount_token (ra_Input a) = amount_token (leg_Input (step_Leg step)) /\
    Units (ra_Input a) = Units (leg_Input (step_Leg step)) /\
    amount_token (ra_ExpectedOutput a) = amount_token (leg_ExpectedOutput (step_Leg step)) /\
    Units (ra_ExpectedOutput a) = Units (leg_ExpectedOutput (step_Leg step)).

Lemma prepared_step_iff o u step : prepared_step o u step = Ok tt <-> step_prepared o step.
Proof.
  unfold prepared_step, step_prepared, TransactionIdentity_Validate, prepared_allocation.
  rewrite <- Leg_Validate_iff. split.
  - intros H. res_step; [done|]. apply bind_Ok in H as ([] & Hl & H).
    apply bind_Ok in H as ([] & Ht & Ha).
    destruct (decide _) as [|Hti] in Ht; [done|]. split_and!; try tauto.
    { destruct (decide (step_Operation step = "")), (decide (step_Operation step = o_ID o)); tauto. }
    intros a Hal. rewrite Hal, bind_Ok in Ha. destruct Ha as ([] & Hv & Ha).
    apply wrap_Ok, Validate_sound in Hv as [? ?]. destruct (decide _) as [|Hra] in Ha; [done|].
    repeat match goal with H : ~ (_ \/ _) |- _ => apply Decidable.not_or in H as [? ?] end.
    split_and!; try done; try lia; by apply dec_stable.
  - intros (Hop & Hl & Hc & Hac & Hh & Ha). rewrite decide_False by tauto. rewrite Hl. cbn [mbind res_bind].
    rewrite decide_False by tauto. destruct (step_Allocation step) as [a|]; [|done].
    destruct (Ha a eq_refl) as (He & Hcons & H1 & H2 & H3 & H4).
    rewrite (Validate_complete a He Hcons). cbn [mbind res_bind wrap]. rewrite decide_False; [done|].
    rewrite H1, H2, H3, H4. tauto.
Qed.

(** An operation is accepted as prepared exactly when it names its plan,
    opportunity and configuration, its economics are exact, and it has two steps
    that belong to it, each with a complete leg, an identified transaction and
    only a route allocation that conserves value between the leg's amounts. *)
Theorem ValidatePrepared_iff (o : Operation) :
  ValidatePrepared o = Ok tt <->
  o_ID o <> "" /\ o_Plan o <> "" /\ o_OpportunityID o <> "" /\ o_ConfigHash o <> "" /\
  o_CreatedAt o <> 0 /\ OperationEconomics_Validate (o_Economics o) = Ok tt /\
  exists first second, o_Steps o = [first; second] /\ step_prepared o first /\ step_prepared o second.
Proof.
  unfold ValidatePrepared, Time_IsZero. split.
  - intros H. res_step; [done|]. rewrite bind_Ok in H. destruct H as ([] & He & H).
    repeat match goal with H : ~ (_ \/ _) |- _ => apply Decidable.not_or in H as [? ?] end.
    destruct (o_Steps o) as [|s1 [|s2 [|]]]; cbn in *; try lia.
    apply bind_Ok in H as ([] & Hp1%prepared_step_iff & H). apply bind_Ok in H as ([] & Hp2%prepared_step_iff & _).
    split_and!; try done. exists s1, s2. split; [done|]. by split.
  - intros (H1 & H2 & H3 & H4 & H5 & -> & f & s & -> & Hf & Hs). cbn [length].
    rewrite decide_False by (intuition lia). cbn [mbind res_bind foldM].
    rewrite (proj2 (prepared_step_iff o tt f) Hf). cbn [mbind res_bind].
    by rewrite (proj2 (prepared_step_iff o tt s) Hs).
Qed.

Module ExecutionWitness.
Lemma technical_edge from to : bool_decide (from <> to /\ to ∈ technical_allowed from) = true -> technical_step from to.
Proof. intros H%bool_decide_eq_true. by apply technical_step_iff. Qed.
Lemma economic_edge from to : bool_decide (from <> to /\ to ∈ economic_allowed from) = true -> economic_step from to.
Proof. intros H%bool_decide_eq_true. by apply economic_step_iff. Qed.

Lemma technical_witness :
  (3 <= technical_rank StatePrepared <= 3)%nat /\ ~ technical_step StateConfirmedSuccess StateConfirmedRevert.
Proof.
  split.
  - apply (technical_runs_terminate 3 StatePrepared StateConfirmedSuccess).
    apply (nsteps_l _ 2 _ StateBroadcastPossible); [apply technical_edge; reflexivity|].
    apply (nsteps_l _ 1 _ StateOutcomeUnknown); [apply technical_edge; reflexivity|].
    apply (nsteps_l _ 0 _ StateConfirmedSuccess); [apply technical_edge; reflexivity|apply nsteps_O].
  - intros H. pose proof (technical_runs_terminate 1 StateConfirmedSuccess StateConfirmedRevert
      (nsteps_l _ 0 _ _ _ H (nsteps_O _ _))) as (_ & Hf & _). destruct (Hf eq_refl). discriminate.
Defined.

Lemma economic_witness :
  (2 <= economic_rank EconomicReserved <= 2)%nat /\ economic_step EconomicEffectVerified EconomicSettled.
Proof.
  destruct (economic_runs_guarded 2 EconomicReserved EconomicSettled) as (H & Hs & _).
  - apply (nsteps_l _ 1 _ EconomicEffectVerified); [apply economic_edge; reflexivity|].
    apply (nsteps_l _ 0 _ EconomicSettled); [apply economic_edge; reflexivity|apply nsteps_O].
  - split; [exact H|]. by apply Hs.
Defined.

(** An operation that buys 10 ETH-units for 3000 and sells them for 3050. *)
Definition amount (token : string) (n : Z) : TokenAmount := mkTokenAmount token (Some n).
Definition money (asset : string) (n : Z) : AssetQuantity := mkAssetQuantity asset (Some (SetInt n)).
Definition buy : Leg := mkLeg "b" LegBuy "base" "acc" "m1" (amount "usdc" 3000) (amount "eth" 10).
Definition sell : Leg := mkLeg "s" LegSell "base" "acc" "m2" (amount "eth" 10) (amount "usdc" 3050).
Definition economics : OperationEconomics :=
  mkOperationEconomics (mkValuationSnapshot 1 "ETH" "USD" (Some (SetInt 300)) 1 1)
    (money "USD" 50) (money "ETH" 0) (money "USD" 0) (money "USD" 50) (money "USD" 8) (money "USD" 42)
    (money "USD" 5) 1 2.
Definition identity (hash : string) : TransactionIdentity := mkTransactionIdentity "base" "acc" hash None "" 0.
Definition operation : Operation :=
  mkOperation "o" "p" "opp" "cfg"
    [mkOperationStep "o" buy (identity "h1") None StatePrepared EconomicReserved;
     mkOperationStep "o" sell (identity "h2") None StatePrepared EconomicReserved]
    economics StatePrepared EconomicReserved 3 0.
Example prepared_ok : ValidatePrepared operation = Ok tt.
Proof. vm_compute. reflexivity. Qed.
End ExecutionWitness.
