(* ===== verification/Sequential.v ===== *)
(** * Dependent execution plans (src/domain/execution/sequential.go)

    Stages, the transported and the prefunded plans, the resolution of a
    stage's input from durable settlements, the return exit and the checks on
    exit decisions, stage requests and stage settlements.  [int] ordinals are
    [Z] and the map of settled outputs is a [gmap]. *)
From S2P Require Import Prelude Amount Quote Registry Arbitrage Allocation Inventory Execution.
Local Open Scope Z_scope.

Abbreviation ExecutionPolicyKind := string (only parsing).
Abbreviation SequentialStage := string (only parsing).
Abbreviation SequentialBranch := string (only parsing).

Definition PolicyTransportedSequential : ExecutionPolicyKind := "transported_sequential".
Definition PolicyPrefundedSequential : ExecutionPolicyKind := "prefunded_sequential".
Definition PolicyPrefundedParallel : ExecutionPolicyKind := "prefunded_parallel".
Definition PolicyPrefundedTriggerFirst : ExecutionPolicyKind := "prefunded_trigger_first".

Definition StageBuy : SequentialStage := "buy".
Definition StageBridgeBase : SequentialStage := "bridge_base".
Definition StageSell : SequentialStage := "sell".
Definition StageBridgeQuoteReturn : SequentialStage := "bridge_quote_return".

Definition BranchMain : SequentialBranch := "main".
Definition BranchCircuitBreaker : SequentialBranch := "circuit_breaker".

Definition ExitSellAtDestination : string := "sell_at_destination".
Definition ExitReturnToOrigin : string := "return_to_origin".
Definition ExitSellAtOrigin : string := "sell_at_origin".

(** ** Stages *)

Record SequentialStagePlan := mkStage {
  Ordinal : Z; Stage : SequentialStage; Branch : SequentialBranch; DependsOn : list Z;
  InputFromOrdinal : Z; SourceChain : ChainID; DestinationChain : ChainID;
  InputToken : TokenID; OutputToken : TokenID; Market : MarketID }.

Definition stage_dependency (s : SequentialStagePlan) (seen : gset Z) (dependency : Z) : res (gset Z) :=
  if decide (dependency < 1 \/ Ordinal s <= dependency)
  then Err (Errorf "sequential stage %d has an invalid dependency") else
  if decide (dependency ∈ seen) then Err (Errorf "sequential stage %d repeats dependency %d")
  else Ok ({[ dependency ]} ∪ seen).

Definition stage_route (s : SequentialStagePlan) : res unit :=
  if decide (Stage s = StageBuy \/ Stage s = StageSell) then
    if decide (Market s = "") then Err (Errorf "swap stage %d requires a market") else
    if decide (DestinationChain s <> "")
    then Err (Errorf "swap stage %d cannot have a destination chain") else Ok tt
  else if decide (Stage s = StageBridgeBase \/ Stage s = StageBridgeQuoteReturn) then
    if decide (DestinationChain s = "" \/ DestinationChain s = SourceChain s)
    then Err (Errorf "bridge stage %d requires different source and destination chains") else
    if decide (Market s <> "") then Err (Errorf "bridge stage %d cannot have a market") else Ok tt
  else Err (Errorf "unsupported sequential stage %q").

Definition Stage_Validate (s : SequentialStagePlan) : res unit :=
  if decide (Ordinal s < 1 \/ Stage s = "" \/ SourceChain s = "" \/ InputToken s = "" \/ OutputToken s = "")
  then Err (Errorf "sequential stage %d is incomplete") else
  let branch := if decide (Branch s = "") then BranchMain else Branch s in
  if decide (branch <> BranchMain /\ branch <> BranchCircuitBreaker)
  then Err (Errorf "sequential stage %d has unsupported branch %q") else
  if decide (InputFromOrdinal s < 0 \/ Ordinal s <= InputFromOrdinal s)
  then Err (Errorf "sequential stage %d has an invalid input reference") else
  _ ← foldM (stage_dependency s) ∅ (DependsOn s);
  stage_route s.

(** ** Plans *)

Record SequentialPlan := mkSequentialPlan {
  p_ID : PlanID; p_Policy : ExecutionPolicyKind; p_Opportunity : Opportunity;
  p_InitialInput : TokenAmount; p_Stages : list SequentialStagePlan;
  p_CircuitBreaker : list SequentialStagePlan; p_DiscoveryAmount : TokenAmount;
  p_BaseAsset : AssetID; p_QuoteAsset : AssetID; p_TokenDecimals : gmap TokenID N; p_CreatedAt : Time }.

Definition EffectivePolicy (p : SequentialPlan) : ExecutionPolicyKind :=
  if decide (p_Policy p = "") then PolicyTransportedSequential else p_Policy p.

Definition IsPrefundedDualInventory (p : SequentialPlan) : Prop :=
  EffectivePolicy p = PolicyPrefundedParallel \/ EffectivePolicy p = PolicyPrefundedTriggerFirst.
#[export] Instance IsPrefundedDualInventory_dec p : Decision (IsPrefundedDualInventory p) :=
  ltac:(unfold IsPrefundedDualInventory; apply _).

Fixpoint sameOrdinals (xs ys : list Z) : bool :=
  match xs, ys with
  | [], [] => true
  | x :: xs, y :: ys => bool_decide (x = y) && sameOrdinals xs ys
  | _, _ => false
  end.

Definition expectedStages : list SequentialStage := [StageBuy; StageSell; StageBridgeBase; StageBridgeQuoteReturn].
Definition expectedInputs : list Z := [0; 0; 1; 2].
Definition expectedDependencies : list (list Z) := [[]; []; [1]; [2]].

(** The loop indexes the expected tables, so a fifth stage would panic. *)
Definition parallel_stage (index : nat) (stage : SequentialStagePlan) : res nat :=
  if decide (Ordinal stage <> Z.of_nat index + 1)
  then Err (Errorf "prefunded parallel stage %d has sequential or invalid dependencies") else
  match expectedStages !! index, expectedInputs !! index, expectedDependencies !! index with
  | Some kind, Some input, Some dependencies =>
      if decide (Stage stage <> kind \/ InputFromOrdinal stage <> input \/
                 sameOrdinals (DependsOn stage) dependencies = false)
      then Err (Errorf "prefunded parallel stage %d has sequential or invalid dependencies")
      else Ok (S index)
  | _, _, _ => Panic "index out of range"
  end.

Definition validateParallelDependencies (p : SequentialPlan) : res unit :=
  _ ← foldM parallel_stage 0%nat (p_Stages p); Ok tt.

Definition plan_ordinal (ordinals : gset Z) (stage : SequentialStagePlan) : res (gset Z) :=
  _ ← Stage_Validate stage;
  if decide (Ordinal stage ∈ ordinals) then Err (Errorf "dependent execution plan repeats ordinal %d")
  else Ok ({[ Ordinal stage ]} ∪ ordinals).

Definition plan_policy (p : SequentialPlan) : res unit :=
  if decide (EffectivePolicy p = PolicyTransportedSequential) then
    if decide (length (p_Stages p) <> 4%nat)
    then Err (Errorf "transported sequential plan requires four main stages") else Ok tt
  else if decide (EffectivePolicy p = PolicyPrefundedSequential \/
                  EffectivePolicy p = PolicyPrefundedParallel \/
                  EffectivePolicy p = PolicyPrefundedTriggerFirst) then
    if decide (length (p_Stages p) <> 4%nat \/ length (p_CircuitBreaker p) <> 1%nat)
    then Err (Errorf "prefunded plan requires four main stages and one circuit-breaker stage") else
    if decide (IsPrefundedDualInventory p /\
               (p_BaseAsset p = "" \/ p_QuoteAsset p = "" \/ p_TokenDecimals p = ∅))
    then Err (Errorf "prefunded parallel plan requires durable valuation metadata") else Ok tt
  else Err (Errorf "unsupported dependent execution policy %q").

Definition SequentialPlan_Validate (p : SequentialPlan) : res unit :=
  if decide (p_ID p = "" \/ IsZero (p_InitialInput p) \/ Time_IsZero (p_CreatedAt p) \/ p_Stages p = [])
  then Err (Errorf "dependent execution plan is incomplete") else
  _ ← plan_policy p;
  _ ← foldM plan_ordinal ∅ (p_Stages p ++ p_CircuitBreaker p);
  if decide (IsPrefundedDualInventory p) then validateParallelDependencies p else Ok tt.

(** ** Stage inputs *)

(** [Candidates[SelectedIndex]] within the bounds the callers test. *)
Definition selected_candidate (o : Opportunity) : option Candidate :=
  if decide (op_SelectedIndex o < 0) then None
  else op_Candidates o !! Z.to_nat (op_SelectedIndex o).

Definition ParallelSellInput (p : SequentialPlan) : res TokenAmount :=
  if decide (~ IsPrefundedDualInventory p) then Err (Errorf "parallel sell intent is unavailable") else
  match selected_candidate (p_Opportunity p) with
  | None => Err (Errorf "parallel sell intent is unavailable")
  | Some candidate =>
      let sold := q_AmountIn (cd_SellQuote candidate) in
      let bought := q_AmountIn (cd_BuyQuote candidate) in
      if decide (IsZero bought \/ IsZero sold \/ IsZero (p_InitialInput p))
      then Err (Errorf "parallel discovery amounts are incomplete") else
      let units := Z.quot (Units sold * Units (p_InitialInput p)) (Units bought) in
      if decide (Z.sgn units <= 0) then Err (Errorf "parallel sell input rounds to zero")
      else NewTokenAmount (amount_token sold) (Some units)
  end.

Definition InputFor (p : SequentialPlan) (stage : SequentialStagePlan) (outputs : gmap Z TokenAmount) :
    res TokenAmount :=
  if decide (IsPrefundedDualInventory p /\ Ordinal stage = 2 /\ Stage stage = StageSell)
  then ParallelSellInput p else
  if decide (InputFromOrdinal stage = 0) then
    if decide (Ordinal stage <> 1) then Err (Errorf "stage %d has no settlement input reference") else
    if decide (amount_token (p_InitialInput p) <> InputToken stage)
    then Err (Errorf "initial input token does not match stage 1") else Ok (p_InitialInput p)
  else
    match outputs !! InputFromOrdinal stage with
    | None => Err (Errorf "stage %d awaits settlement %d")
    | Some source => if decide (IsZero source) then Err (Errorf "stage %d awaits settlement %d") else Ok source
    end.

(** ** The return exit *)

Definition return_stages (buy firstBridge : SequentialStagePlan) : list SequentialStagePlan :=
  [mkStage 3 StageBridgeBase "" [] 0 (DestinationChain firstBridge) (SourceChain firstBridge)
     (OutputToken firstBridge) (InputToken firstBridge) "";
   mkStage 4 StageSell "" [] 0 (SourceChain buy) "" (OutputToken buy) (InputToken buy) (Market buy)].

Definition validate_stages (stages : list SequentialStagePlan) : res unit :=
  foldM (fun _ stage => Stage_Validate stage) tt stages.

Definition ReturnExitStages (p : SequentialPlan) : res (list SequentialStagePlan) :=
  match p_Stages p with
  | [buy; firstBridge; sell; back] =>
      if decide (Stage buy <> StageBuy \/ Stage firstBridge <> StageBridgeBase \/
                 Stage sell <> StageSell \/ Stage back <> StageBridgeQuoteReturn)
      then Err (Errorf "sequential plan cannot derive a return exit") else
      let result := return_stages buy firstBridge in
      _ ← validate_stages result; Ok result
  | _ => Err (Errorf "sequential plan cannot derive a return exit")
  end.

Record SequentialExitDecision := mkExitDecision {
  xd_Operation : OperationID; xd_Route : string; xd_DestinationOutput : TokenAmount;
  xd_ReturnOutput : TokenAmount; xd_DestinationRecovery : AssetQuantity;
  xd_ReturnRecovery : AssetQuantity; xd_SafetyMargin : AssetQuantity;
  xd_DestinationQualified : bool; xd_CostEvidenceAvailable : bool; xd_DecidedAt : Time;
  xd_Evidence : string }.

Definition ExitDecision_Validate (d : SequentialExitDecision) : res unit :=
  if decide (xd_Operation d = "" \/ Time_IsZero (xd_DecidedAt d) \/ xd_Evidence d = "" \/
             quantity_asset (xd_DestinationRecovery d) = "" \/
             quantity_asset (xd_SafetyMargin d) <> quantity_asset (xd_DestinationRecovery d) \/
             AssetQuantity_Sign (xd_SafetyMargin d) < 0)
  then Err (Errorf "sequential exit decision is incomplete") else
  if decide (xd_Route d = ExitSellAtDestination) then
    if decide (IsZero (xd_DestinationOutput d))
    then Err (Errorf "destination exit decision has no executable output") else Ok tt
  else if decide (xd_Route d = ExitReturnToOrigin \/ xd_Route d = ExitSellAtOrigin) then
    if decide (IsZero (xd_ReturnOutput d) \/
               quantity_asset (xd_ReturnRecovery d) <> quantity_asset (xd_DestinationRecovery d))
    then Err (Errorf "return exit decision has no comparable recovery") else Ok tt
  else Err (Errorf "unsupported sequential exit route %q").

(** ** Constructors *)

Section plans.
Context (id : PlanID) (opportunity : Opportunity) (initialInput : TokenAmount)
  (buyChain sellChain : ChainID) (createdAt : Time).

Definition transported_stages (candidate : Candidate) : list SequentialStagePlan :=
  let buy := cd_BuyQuote candidate in
  let sell := cd_SellQuote candidate in
  [mkStage 1 StageBuy "" [] 0 buyChain "" (amount_token (q_AmountIn buy)) (amount_token (q_AmountOut buy))
     (BuyMarket (op_Direction opportunity));
   mkStage 2 StageBridgeBase "" [] 0 buyChain sellChain (amount_token (q_AmountOut buy))
     (amount_token (q_AmountIn sell)) "";
   mkStage 3 StageSell "" [] 0 sellChain "" (amount_token (q_AmountIn sell)) (amount_token (q_AmountOut sell))
     (SellMarket (op_Direction opportunity));
   mkStage 4 StageBridgeQuoteReturn "" [] 0 sellChain buyChain (amount_token (q_AmountOut sell))
     (amount_token (q_AmountIn buy)) ""].

Definition NewSequentialPlan : res SequentialPlan :=
  if decide (id = "" \/ Time_IsZero createdAt)
  then Err (Errorf "sequential plan identity and timestamp are required") else
  if decide (op_Classification opportunity <> ClassificationPolicyQualified)
  then Err (Errorf "sequential plan requires a policy-qualified opportunity") else
  match selected_candidate opportunity with
  | None => Err (Errorf "sequential plan requires a policy-qualified opportunity")
  | Some candidate =>
      if decide (buyChain = "" \/ sellChain = "" \/ buyChain = sellChain)
      then Err (Errorf "sequential plan requires two different chains") else
      if decide (IsZero initialInput \/
                 amount_token initialInput <> amount_token (q_AmountIn (cd_BuyQuote candidate)))
      then Err (Errorf "execution input must use the buy quote input token") else
      let stages := transported_stages candidate in
      _ ← validate_stages stages;
      let plan := mkSequentialPlan id PolicyTransportedSequential opportunity initialInput stages []
                    (q_AmountIn (cd_BuyQuote candidate)) "" "" ∅ createdAt in
      _ ← SequentialPlan_Validate plan; Ok plan
  end.

Definition prefunded_main (candidate : Candidate) : list SequentialStagePlan :=
  let buy := cd_BuyQuote candidate in
  let sell := cd_SellQuote candidate in
  [mkStage 1 StageBuy BranchMain [] 0 buyChain "" (amount_token (q_AmountIn buy))
     (amount_token (q_AmountOut buy)) (BuyMarket (op_Direction opportunity));
   mkStage 2 StageSell BranchMain [1] 1 sellChain "" (amount_token (q_AmountIn sell))
     (amount_token (q_AmountOut sell)) (SellMarket (op_Direction opportunity));
   mkStage 3 StageBridgeBase BranchMain [1; 2] 1 buyChain sellChain (amount_token (q_AmountOut buy))
     (amount_token (q_AmountIn sell)) "";
   mkStage 4 StageBridgeQuoteReturn BranchMain [2; 3] 2 sellChain buyChain
     (amount_token (q_AmountOut sell)) (amount_token (q_AmountIn buy)) ""].

Definition prefunded_circuit (candidate : Candidate) : list SequentialStagePlan :=
  let buy := cd_BuyQuote candidate in
  [mkStage 5 StageSell BranchCircuitBreaker [1] 1 buyChain "" (amount_token (q_AmountOut buy))
     (amount_token (q_AmountIn buy)) (BuyMarket (op_Direction opportunity))].

Definition NewPrefundedSequentialPlan : res SequentialPlan :=
  transported ← NewSequentialPlan;
  match selected_candidate opportunity with
  | None => Panic "index out of range"
  | Some candidate =>
      let plan := mkSequentialPlan (p_ID transported) PolicyPrefundedSequential (p_Opportunity transported)
        (p_InitialInput transported) (prefunded_main candidate) (prefunded_circuit candidate)
        (p_DiscoveryAmount transported) (p_BaseAsset transported) (p_QuoteAsset transported)
        (p_TokenDecimals transported) (p_CreatedAt transported) in
      _ ← SequentialPlan_Validate plan; Ok plan
  end.

Definition set_dependencies (dependencies : list Z) (s : SequentialStagePlan) : SequentialStagePlan :=
  mkStage (Ordinal s) (Stage s) (Branch s) dependencies (InputFromOrdinal s) (SourceChain s)
    (DestinationChain s) (InputToken s) (OutputToken s) (Market s).
Definition set_input (input : Z) (s : SequentialStagePlan) : SequentialStagePlan :=
  mkStage (Ordinal s) (Stage s) (Branch s) (DependsOn s) input (SourceChain s)
    (DestinationChain s) (InputToken s) (OutputToken s) (Market s).

(** The assignments write to the constructor's own slice, which holds four
    stages. *)
Definition NewPrefundedParallelPlan : res SequentialPlan :=
  plan ← NewPrefundedSequentialPlan;
  let stages := alter (set_dependencies [2]) 3%nat (alter (set_dependencies [1]) 2%nat
    (alter (set_input 0) 1%nat (alter (set_dependencies []) 1%nat (p_Stages plan)))) in
  Ok (mkSequentialPlan (p_ID plan) PolicyPrefundedParallel (p_Opportunity plan) (p_InitialInput plan)
        stages (p_CircuitBreaker plan) (p_DiscoveryAmount plan) (p_BaseAsset plan) (p_QuoteAsset plan)
        (p_TokenDecimals plan) (p_CreatedAt plan)).
End plans.

(** ** Requests and settlements *)

Record SequentialStageRequest := mkStageRequest {
  sr_Operation : OperationID; sr_Plan : PlanID; sr_Stage : SequentialStagePlan; sr_Input : TokenAmount }.

Definition StageRequest_Validate (r : SequentialStageRequest) : res unit :=
  if decide (sr_Operation r = "" \/ sr_Plan r = "")
  then Err (Errorf "sequential stage request identity is incomplete") else
  _ ← Stage_Validate (sr_Stage r);
  if decide (IsZero (sr_Input r) \/ amount_token (sr_Input r) <> InputToken (sr_Stage r))
  then Err (Errorf "stage %d input does not match the confirmed predecessor output") else Ok tt.

Record SequentialStageSettlement := mkStageSettlement {
  ss_Request : SequentialStageRequest; ss_ActualInput : TokenAmount; ss_ActualOutput : TokenAmount;
  ss_Costs : list CostComponent; ss_SourceIdentity : TransactionIdentity;
  ss_DestinationIdentity : option TransactionIdentity; ss_DestinationBalanceBefore : option Z;
  ss_DestinationBalanceAfter : option Z; ss_ObservedAt : Time; ss_Evidence : string }.

Definition settlement_balances (before after : option Z) : res unit :=
  match before, after with
  | Some _, None | None, Some _ => Err (Errorf "bridge stage %d has incomplete destination balance evidence")
  | Some before, Some after =>
      if decide (Z.sgn before < 0 \/ after < before)
      then Err (Errorf "bridge stage %d has invalid destination balance evidence") else Ok tt
  | None, None => Ok tt
  end.

Definition settlement_destination (s : SequentialStageSettlement) : res unit :=
  if decide (DestinationChain (sr_Stage (ss_Request s)) <> "") then
    match ss_DestinationIdentity s with
    | None => Err (Errorf "bridge stage %d requires destination identity")
    | Some identity =>
        _ ← settlement_balances (ss_DestinationBalanceBefore s) (ss_DestinationBalanceAfter s);
        wrap "stage %d destination identity: %w" (TransactionIdentity_Validate identity)
    end
  else Ok tt.

Definition StageSettlement_Validate (s : SequentialStageSettlement) : res unit :=
  let stage := sr_Stage (ss_Request s) in
  _ ← StageRequest_Validate (ss_Request s);
  if decide (IsZero (ss_ActualInput s) \/ amount_token (ss_ActualInput s) <> InputToken stage)
  then Err (Errorf "stage %d settlement has invalid actual input") else
  if decide (IsZero (ss_ActualOutput s) \/ amount_token (ss_ActualOutput s) <> OutputToken stage)
  then Err (Errorf "stage %d settlement has invalid actual output") else
  _ ← wrap "stage %d source identity: %w" (TransactionIdentity_Validate (ss_SourceIdentity s));
  _ ← settlement_destination s;
  if decide (Time_IsZero (ss_ObservedAt s) \/ ss_Evidence s = "")
  then Err (Errorf "stage %d settlement requires observation evidence") else
  foldM (fun _ cost => wrap "stage %d cost %d: %w" (CostComponent_Validate cost)) tt (ss_Costs s).

(** ** What the checks accept *)

Definition stage_ok (s : SequentialStagePlan) : Prop :=
  1 <= Ordinal s /\ SourceChain s <> "" /\ InputToken s <> "" /\ OutputToken s <> "" /\
  (Branch s = "" \/ Branch s = BranchMain \/ Branch s = BranchCircuitBreaker) /\
  0 <= InputFromOrdinal s < Ordinal s /\
  NoDup (DependsOn s) /\ Forall (fun d => 1 <= d < Ordinal s) (DependsOn s) /\
  ((Stage s = StageBuy \/ Stage s = StageSell) /\ Market s <> "" /\ DestinationChain s = "" \/
   (Stage s = StageBridgeBase \/ Stage s = StageBridgeQuoteReturn) /\ Market s = "" /\
   DestinationChain s <> "" /\ DestinationChain s <> SourceChain s).

Lemma stage_dependencies_iff s l : forall seen,
  (exists seen', foldM (stage_dependency s) seen l = Ok seen') <->
  NoDup l /\ Forall (fun d => 1 <= d < Ordinal s) l /\ (forall d, d ∈ l -> d ∉ seen).
Proof.
  induction l as [|d l IH]; intros seen; cbn [foldM].
  { split; [|by eexists]. intros _. split_and!; [constructor|constructor|set_solver]. }
  setoid_rewrite bind_Ok. unfold stage_dependency at 1. rewrite NoDup_cons, Forall_cons. split.
  - intros (s2 & s1 & H1 & H2). res_inv. subst s1.
    destruct (proj1 (IH ({[d]} ∪ seen))) as (Hnd & Hall & Hs); [by eexists|].
    split_and!; try done; try lia; [intros Hd; specialize (Hs d Hd); set_solver|set_solver].
  - intros ([Hd Hnd] & [Hr Hall] & Hs). destruct (proj2 (IH ({[d]} ∪ seen))) as [s2 H2].
    { split_and!; [done|done|]. intros x Hx. specialize (Hs x ltac:(by right)). set_solver. }
    exists s2, ({[d]} ∪ seen). rewrite !decide_False; [done|apply Hs; by left|lia].
Qed.

Lemma stage_route_iff s :
  stage_route s = Ok tt <->
  (Stage s = StageBuy \/ Stage s = StageSell) /\ Market s <> "" /\ DestinationChain s = "" \/
  (Stage s = StageBridgeBase \/ Stage s = StageBridgeQuoteReturn) /\ Market s = "" /\
  DestinationChain s <> "" /\ DestinationChain s <> SourceChain s.
Proof.
  unfold stage_route. destruct (decide (Market s = "")), (decide (DestinationChain s = ""));
    repeat case_decide; split; try done; try tauto; try congruence;
    unfold StageBuy, StageSell, StageBridgeBase, StageBridgeQuoteReturn in *; intuition congruence.
Qed.

Lemma Stage_Validate_iff s : Stage_Validate s = Ok tt <-> stage_ok s.
Proof.
  unfold Stage_Validate, stage_ok. rewrite <- stage_route_iff. cbv zeta. split.
  - intros H. do 3 (destruct (decide _) as [|?] in H; [done|]).
    apply bind_Ok in H as (seen & Hd & Hr).
    destruct (proj1 (stage_dependencies_iff s (DependsOn s) ∅)) as (Hnd & Hall & _); [by eexists|].
    split_and!; try done; try lia; try tauto.
    destruct (decide (Branch s = "")); [by left|right].
    destruct (decide (Branch s = BranchMain)), (decide (Branch s = BranchCircuitBreaker)); tauto.
  - intros (Ho & Hs & Hi & Hout & Hb & Hin & Hnd & Hall & Hr).
    rewrite decide_False. 2:{ intros [?|[Hst|?]]; [lia| |tauto]. unfold stage_route in Hr. by rewrite Hst in Hr. }
    rewrite decide_False by (case_decide; intros [? ?]; destruct_or?; congruence).
    rewrite decide_False by lia.
    destruct (proj2 (stage_dependencies_iff s (DependsOn s) ∅)) as [seen ->]; [split_and!; [done..|set_solver]|].
    done.
Qed.

Lemma plan_ordinals_iff l : forall seen,
  (exists seen', foldM plan_ordinal seen l = Ok seen') <->
  Forall stage_ok l /\ NoDup (Ordinal <$> l) /\ (forall s, s ∈ l -> Ordinal s ∉ seen).
Proof.
  induction l as [|s l IH]; intros seen; cbn [foldM].
  { split; [|by eexists]. intros _. split_and!; [constructor|constructor|by intros s ?%elem_of_nil]. }
  setoid_rewrite bind_Ok. rewrite Forall_cons, fmap_cons, NoDup_cons. split.
  - intros (s2 & s1 & H1 & H2). unfold plan_ordinal in H1. apply bind_Ok in H1 as ([] & Hs%Stage_Validate_iff & H1).
    case_decide; [done|]. injection H1 as <-.
    destruct (proj1 (IH ({[Ordinal s]} ∪ seen))) as (Hall & Hnd & Hd); [by eexists|].
    split_and!; try done.
    + intros (t & He & Ht)%list_elem_of_fmap. specialize (Hd t Ht). set_solver.
    + intros t [->|Ht]%elem_of_cons; [done|]. specialize (Hd t Ht). set_solver.
  - intros ([Hs Hall] & [Hd Hnd] & Hseen). destruct (proj2 (IH ({[Ordinal s]} ∪ seen))) as [s2 H2].
    { split_and!; [done|done|]. intros t Ht. specialize (Hseen t ltac:(by right)).
      assert (Ordinal t <> Ordinal s); [|set_solver]. intros He. apply Hd. rewrite <- He. by apply list_elem_of_fmap_2. }
    exists s2, ({[Ordinal s]} ∪ seen). split; [|done]. unfold plan_ordinal.
    rewrite (proj2 (Stage_Validate_iff s) Hs). cbn. rewrite decide_False; [done|apply Hseen; by left].
Qed.

Lemma sameOrdinals_iff xs ys : sameOrdinals xs ys = true <-> xs = ys.
Proof.
  revert ys. induction xs as [|x xs IH]; intros [|y ys]; cbn; split; try done.
  - rewrite andb_true_iff, bool_decide_eq_true, IH. by intros [-> ->].
  - intros [= -> ->]. rewrite andb_true_iff, bool_decide_eq_true, IH. done.
Qed.

Lemma validate_stages_iff l : validate_stages l = Ok tt <-> Forall stage_ok l.
Proof.
  unfold validate_stages. induction l as [|s l IH]; cbn [foldM]; [split; [constructor|done]|].
  rewrite bind_Ok, Forall_cons, <- IH, <- Stage_Validate_iff. split.
  - by intros ([] & ? & ?).
  - intros [? ?]. by exists tt.
Qed.

(** ** Routes

    A route is connected when each stage spends what the one before it
    produced, on the chain where that one left it. *)
Definition end_chain (s : SequentialStagePlan) : ChainID :=
  if decide (DestinationChain s = "") then SourceChain s else DestinationChain s.

Fixpoint connected (l : list SequentialStagePlan) : Prop :=
  match l with
  | s :: ((t :: _) as rest) => OutputToken s = InputToken t /\ end_chain s = SourceChain t /\ connected rest
  | _ => True
  end.

(** A connected route that ends with its first token on its first chain. *)
Definition round_trip (l : list SequentialStagePlan) : Prop :=
  connected l /\ exists s t, head l = Some s /\ last l = Some t /\
    OutputToken t = InputToken s /\ end_chain t = SourceChain s.

Section plan_spec.
Context (id : PlanID) (opportunity : Opportunity) (initialInput : TokenAmount)
  (buyChain sellChain : ChainID) (createdAt : Time).
Abbreviation transported := (NewSequentialPlan id opportunity initialInput buyChain sellChain createdAt).

(** What a plan is built from. *)
Record plan_inputs (c : Candidate) : Prop := {
  pi_id : id <> ""; pi_time : createdAt <> 0;
  pi_qualified : op_Classification opportunity = ClassificationPolicyQualified;
  pi_selected : selected_candidate opportunity = Some c;
  pi_buy_chain : buyChain <> ""; pi_sell_chain : sellChain <> ""; pi_chains : buyChain <> sellChain;
  pi_amount : Units initialInput <> 0;
  pi_token : amount_token initialInput = amount_token (q_AmountIn (cd_BuyQuote c));
  pi_quote_tokens : Forall (fun a => amount_token a <> "")
    [q_AmountIn (cd_BuyQuote c); q_AmountOut (cd_BuyQuote c); q_AmountIn (cd_SellQuote c);
     q_AmountOut (cd_SellQuote c)];
  pi_buy_market : BuyMarket (op_Direction opportunity) <> "";
  pi_sell_market : SellMarket (op_Direction opportunity) <> "" }.

(** A swap stage and a bridge stage of a plan. *)
Lemma swap_ok o kind branch deps input chain inToken outToken market :
  1 <= o -> kind = StageBuy \/ kind = StageSell -> branch = "" \/ branch = BranchMain \/ branch = BranchCircuitBreaker ->
  NoDup deps -> Forall (fun d => 1 <= d < o) deps -> 0 <= input < o ->
  chain <> "" -> inToken <> "" -> outToken <> "" -> market <> "" ->
  stage_ok (mkStage o kind branch deps input chain "" inToken outToken market).
Proof. intros. unfold stage_ok. cbn. split_and!; try done; try lia. left. by split_and!. Qed.

Lemma bridge_ok o kind branch deps input chain dest inToken outToken :
  1 <= o -> kind = StageBridgeBase \/ kind = StageBridgeQuoteReturn ->
  branch = "" \/ branch = BranchMain \/ branch = BranchCircuitBreaker ->
  NoDup deps -> Forall (fun d => 1 <= d < o) deps -> 0 <= input < o ->
  chain <> "" -> inToken <> "" -> outToken <> "" -> dest <> "" -> dest <> chain ->
  stage_ok (mkStage o kind branch deps input chain dest inToken outToken "").
Proof. intros. unfold stage_ok. cbn. split_and!; try done; try lia. right. by split_and!. Qed.

(** Discharge the stages of a plan built from [plan_inputs]. *)
Ltac stages_ok :=
  repeat apply List.Forall_cons; try apply List.Forall_nil;
  first [apply swap_ok | apply bridge_ok];
  first [done | lia | by left | by right | by right; left | by right; right | by apply not_eq_sym
        | repeat constructor; first [lia | set_solver] | idtac].

Lemma transported_stages_ok c : plan_inputs c -> Forall stage_ok (transported_stages opportunity buyChain sellChain c).
Proof.
  intros [? ? ? ? ? ? Hne ? ? Ht ? ?]. rewrite !Forall_cons in Ht. destruct Ht as (? & ? & ? & ? & _).
  unfold transported_stages. cbv zeta. stages_ok.
Qed.

(** Decide a closed goal by evaluation. *)
Ltac decide_goal := match goal with |- ?P => refine (bool_decide_eq_true_1 P _); vm_compute; reflexivity end.

Lemma NoDup_12 : NoDup [1; 2].
Proof. decide_goal. Qed.
Lemma NoDup_23 : NoDup [2; 3].
Proof. decide_goal. Qed.
#[local] Hint Resolve NoDup_12 NoDup_23 NoDup_singleton : core.

Lemma prefunded_stages_ok c :
  plan_inputs c ->
  Forall stage_ok (prefunded_main opportunity buyChain sellChain c ++ prefunded_circuit opportunity buyChain c).
Proof.
  intros [? ? ? ? ? ? Hne ? ? Ht ? ?]. rewrite !Forall_cons in Ht. destruct Ht as (? & ? & ? & ? & _).
  unfold prefunded_main, prefunded_circuit. cbv zeta. cbn [app]. stages_ok.
Qed.

Definition transported_plan (c : Candidate) : SequentialPlan :=
  mkSequentialPlan id PolicyTransportedSequential opportunity initialInput
    (transported_stages opportunity buyChain sellChain c) [] (q_AmountIn (cd_BuyQuote c)) "" "" ∅ createdAt.

(** A plan whose stages are fine and whose policy is met validates. *)
Lemma Validate_plan (p : SequentialPlan) :
  p_ID p <> "" -> Units (p_InitialInput p) <> 0 -> p_CreatedAt p <> 0 -> p_Stages p <> [] ->
  plan_policy p = Ok tt -> Forall stage_ok (p_Stages p ++ p_CircuitBreaker p) ->
  NoDup (Ordinal <$> (p_Stages p ++ p_CircuitBreaker p)) ->
  (IsPrefundedDualInventory p -> validateParallelDependencies p = Ok tt) ->
  SequentialPlan_Validate p = Ok tt.
Proof.
  intros Hid Hin Ht Hs Hp Hok Hnd Hpar. unfold SequentialPlan_Validate.
  rewrite decide_False by (rewrite IsZero_iff; unfold Time_IsZero; tauto). rewrite Hp. cbn [mbind res_bind].
  destruct (proj2 (plan_ordinals_iff (p_Stages p ++ p_CircuitBreaker p) ∅)) as [seen ->];
    [split_and!; [done..|set_solver]|]. cbn [mbind res_bind]. case_decide; [by apply Hpar|done].
Qed.

Lemma transported_plan_valid c : plan_inputs c -> SequentialPlan_Validate (transported_plan c) = Ok tt.
Proof.
  intros Hc. apply Validate_plan; try apply Hc; try done.
  - exact (transported_stages_ok c Hc).
  - decide_goal.
  - by intros [?|?].
Qed.

Lemma transported_market c : Forall stage_ok (transported_stages opportunity buyChain sellChain c) ->
  Forall (fun a => amount_token a <> "")
    [q_AmountIn (cd_BuyQuote c); q_AmountOut (cd_BuyQuote c); q_AmountIn (cd_SellQuote c);
     q_AmountOut (cd_SellQuote c)] /\
  BuyMarket (op_Direction opportunity) <> "" /\ SellMarket (op_Direction opportunity) <> "".
Proof.
  unfold transported_stages. cbv zeta. rewrite !Forall_cons. intros (H1 & _ & H3 & _).
  destruct H1 as (_ & _ & Hi & Ho & _ & _ & _ & _ & H1), H3 as (_ & _ & Hi' & Ho' & _ & _ & _ & _ & H3).
  cbn in *. split; [by repeat constructor|].
  split; [destruct H1 as [(_ & ? & _)|([?|?] & _)]|destruct H3 as [(_ & ? & _)|([?|?] & _)]]; done.
Qed.

Lemma end_chain_swap o kind branch deps input chain i out market :
  end_chain (mkStage o kind branch deps input chain "" i out market) = chain.
Proof. done. Qed.
Lemma end_chain_bridge o kind branch deps input chain dest i out market :
  dest <> "" -> end_chain (mkStage o kind branch deps input chain dest i out market) = dest.
Proof. intros. unfold end_chain. cbn. by rewrite decide_False. Qed.

(** The route of a plan and its return exit are round trips. *)
Lemma transported_round_trip c : plan_inputs c -> round_trip (transported_stages opportunity buyChain sellChain c).
Proof.
  intros [_ _ _ _ Hb Hs _ _ _ _ _ _]. unfold round_trip, transported_stages. cbv zeta. cbn [connected InputToken OutputToken SourceChain].
  rewrite !end_chain_swap, !end_chain_bridge by done. split; [done|].
  eexists _, _. split; [done|]. split; [done|]. by rewrite end_chain_bridge.
Qed.

Definition return_exit (c : Candidate) : list SequentialStagePlan :=
  let stages := transported_stages opportunity buyChain sellChain c in
  match stages with buy :: firstBridge :: _ => return_stages buy firstBridge | _ => [] end.

Lemma return_exit_stages c : plan_inputs c -> Forall stage_ok (return_exit c).
Proof.
  intros [? ? ? ? ? ? Hne ? ? Ht ? ?]. rewrite !Forall_cons in Ht. destruct Ht as (? & ? & ? & ? & _).
  unfold return_exit, transported_stages, return_stages. cbv zeta. cbn. stages_ok.
Qed.

Lemma return_exit_Ok c : plan_inputs c -> ReturnExitStages (transported_plan c) = Ok (return_exit c).
Proof.
  intros Hc. unfold ReturnExitStages, transported_plan. cbn [p_Stages transported_stages].
  rewrite decide_False by (cbn; intuition congruence). cbv zeta.
  pose proof (return_exit_stages c Hc) as Hok. apply validate_stages_iff in Hok. unfold return_exit in Hok.
  cbn [transported_stages] in Hok. rewrite Hok. done.
Qed.

Lemma return_round_trip c :
  plan_inputs c -> round_trip (take 2 (transported_stages opportunity buyChain sellChain c) ++ return_exit c).
Proof.
  intros [_ _ _ _ Hb Hs _ _ _ _ _ _]. unfold return_exit, transported_stages, return_stages. cbv zeta.
  cbn [take app InputToken OutputToken SourceChain DestinationChain Market]. unfold round_trip.
  cbn [connected InputToken OutputToken SourceChain].
  rewrite !end_chain_swap, !end_chain_bridge by done. split; [done|].
  eexists _, _. split; [done|]. done.
Qed.

Lemma transported_Ok c : plan_inputs c -> transported = Ok (transported_plan c).
Proof.
  intros Hin. pose proof (transported_plan_valid c Hin) as Hv. pose proof (transported_stages_ok c Hin) as Hst.
  destruct Hin as [? ? Hq Hsel ? ? ? Ham Htok _ _ _].
  unfold NewSequentialPlan, Time_IsZero. rewrite decide_False by tauto. rewrite decide_False by tauto.
  rewrite Hsel. rewrite decide_False by tauto. rewrite decide_False by (rewrite IsZero_iff; tauto).
  cbv zeta. rewrite (proj2 (validate_stages_iff _) Hst). cbn [mbind res_bind].
  unfold transported_plan in Hv. by rewrite Hv.
Qed.

Lemma transported_inv plan : transported = Ok plan -> exists c, plan_inputs c /\ plan = transported_plan c.
Proof.
  unfold NewSequentialPlan, Time_IsZero. intros H.
  destruct (decide _) as [|Hid] in H; [done|]. destruct (decide _) as [|Hq] in H; [done|].
  destruct (selected_candidate opportunity) as [c|] eqn:Hc; [|done].
  destruct (decide _) as [|Hch] in H; [done|]. destruct (decide _) as [|Htok] in H; [done|]. cbv zeta in H.
  apply bind_Ok in H as ([] & Hst%validate_stages_iff & H). apply bind_Ok in H as ([] & Hv & [= <-]).
  destruct (transported_market c Hst) as (Ht & Hbm & Hsm). rewrite IsZero_iff in Htok.
  exists c. split; [|done]. apply Decidable.not_or in Htok as [Ham Htok].
  constructor; try tauto; by apply dec_stable.
Qed.

(** A transported plan is built exactly from a qualified opportunity with a
    selected candidate, two different chains, a positive input of the token the
    candidate buys with and complete quotes and markets: the plan validates, it
    spends the initial input on a connected route that ends with the same token
    on the purchase chain, and it can be cut after the bridge by a return exit
    that is again a connected round trip. *)
Theorem NewSequentialPlan_iff (plan : SequentialPlan) :
  transported = Ok plan <->
  exists c, plan_inputs c /\ plan = transported_plan c /\ SequentialPlan_Validate plan = Ok tt /\
    round_trip (p_Stages plan) /\
    (exists first, head (p_Stages plan) = Some first /\ InputToken first = amount_token initialInput) /\
    exists exit, ReturnExitStages plan = Ok exit /\ round_trip (take 2 (p_Stages plan) ++ exit) /\
      Ordinal <$> exit = Ordinal <$> drop 2 (p_Stages plan).
Proof.
  split.
  - intros (c & Hc & ->)%transported_inv. exists c. split; [done|]. split; [done|].
    split; [by apply transported_plan_valid|]. split; [by apply transported_round_trip|]. split.
    + eexists. split; [done|]. by rewrite (pi_token c Hc).
    + exists (return_exit c). split; [by apply return_exit_Ok|]. split; [by apply return_round_trip|done].
  - intros (c & Hc & -> & _). by apply transported_Ok.
Qed.

(** ** Prefunded plans *)

(** Every dependency and input reference of a stage names an earlier stage. *)
Definition references_closed (l : list SequentialStagePlan) : Prop :=
  forall before s after, l = before ++ s :: after ->
    Forall (fun d => d ∈ Ordinal <$> before) (DependsOn s) /\
    (InputFromOrdinal s = 0 \/ InputFromOrdinal s ∈ Ordinal <$> before).

Fixpoint references_closedb (seen : list Z) (l : list (Z * list Z * Z)) : bool :=
  match l with
  | [] => true
  | (ordinal, dependencies, input) :: l =>
      forallb (fun d => bool_decide (d ∈ seen)) dependencies && (bool_decide (input = 0 \/ input ∈ seen)) &&
      references_closedb (seen ++ [ordinal]) l
  end.

Definition references (s : SequentialStagePlan) : Z * list Z * Z := (Ordinal s, DependsOn s, InputFromOrdinal s).

Lemma references_closedb_sound l : references_closedb [] (references <$> l) = true -> references_closed l.
Proof.
  enough (forall rest dn, references_closedb (Ordinal <$> dn) (references <$> rest) = true ->
    forall before s after, rest = before ++ s :: after ->
    Forall (fun d => d ∈ Ordinal <$> (dn ++ before)) (DependsOn s) /\
    (InputFromOrdinal s = 0 \/ InputFromOrdinal s ∈ Ordinal <$> (dn ++ before))) as Hgen.
  { intros H before s after Hl. by apply (Hgen l [] H before s after). }
  induction rest as [|t rest IH]; intros dn Hb before s after Hl; [by destruct before|].
  rewrite fmap_cons in Hb. unfold references at 1 in Hb. cbn [references_closedb] in Hb.
  apply andb_true_iff in Hb as [[Hd Hi]%andb_true_iff Hrest]. destruct before as [|u before]; cbn in Hl.
  - injection Hl as -> ->. rewrite app_nil_r. split; [|by apply bool_decide_eq_true in Hi].
    apply Forall_forall. intros d Hin. rewrite forallb_forall in Hd.
    eapply bool_decide_eq_true, Hd. by apply list_elem_of_In.
  - injection Hl as -> ->. replace (dn ++ u :: before) with ((dn ++ [u]) ++ before) by by rewrite <- (assoc_L (++)).
    eapply IH; [|done]. by rewrite fmap_app.
Qed.

Definition with_valuation (p : SequentialPlan) (base quote : AssetID) (decimals : gmap TokenID N) : SequentialPlan :=
  mkSequentialPlan (p_ID p) (p_Policy p) (p_Opportunity p) (p_InitialInput p) (p_Stages p) (p_CircuitBreaker p)
    (p_DiscoveryAmount p) base quote decimals (p_CreatedAt p).

Definition prefunded_plan (c : Candidate) : SequentialPlan :=
  mkSequentialPlan id PolicyPrefundedSequential opportunity initialInput
    (prefunded_main opportunity buyChain sellChain c) (prefunded_circuit opportunity buyChain c)
    (q_AmountIn (cd_BuyQuote c)) "" "" ∅ createdAt.

Definition parallel_plan (c : Candidate) : SequentialPlan :=
  mkSequentialPlan id PolicyPrefundedParallel opportunity initialInput
    (alter (set_dependencies [2]) 3%nat (alter (set_dependencies [1]) 2%nat
      (alter (set_input 0) 1%nat (alter (set_dependencies []) 1%nat
        (prefunded_main opportunity buyChain sellChain c)))))
    (prefunded_circuit opportunity buyChain c) (q_AmountIn (cd_BuyQuote c)) "" "" ∅ createdAt.

Lemma prefunded_plan_valid c : plan_inputs c -> SequentialPlan_Validate (prefunded_plan c) = Ok tt.
Proof.
  intros Hc. apply Validate_plan; try apply Hc; try done.
  - by apply prefunded_stages_ok.
  - decide_goal.
  - by intros [?|?].
Qed.

Lemma prefunded_Ok c :
  plan_inputs c ->
  NewPrefundedSequentialPlan id opportunity initialInput buyChain sellChain createdAt = Ok (prefunded_plan c).
Proof.
  intros Hc. unfold NewPrefundedSequentialPlan. rewrite (transported_Ok c Hc). cbn [mbind res_bind].
  rewrite (pi_selected c Hc). cbv zeta. pose proof (prefunded_plan_valid c Hc) as Hv.
  unfold prefunded_plan in Hv. cbn [transported_plan p_ID p_Opportunity p_InitialInput p_DiscoveryAmount
    p_BaseAsset p_QuoteAsset p_TokenDecimals p_CreatedAt]. by rewrite Hv.
Qed.

Lemma parallel_Ok c :
  plan_inputs c ->
  NewPrefundedParallelPlan id opportunity initialInput buyChain sellChain createdAt = Ok (parallel_plan c).
Proof. intros Hc. unfold NewPrefundedParallelPlan. by rewrite (prefunded_Ok c Hc). Qed.

Lemma parallel_stages_ok c :
  plan_inputs c -> Forall stage_ok (p_Stages (parallel_plan c) ++ p_CircuitBreaker (parallel_plan c)).
Proof.
  intros [? ? ? ? ? ? Hne ? ? Ht ? ?]. rewrite !Forall_cons in Ht. destruct Ht as (? & ? & ? & ? & _).
  unfold parallel_plan, prefunded_main, prefunded_circuit. cbv zeta.
  cbn [p_Stages p_CircuitBreaker alter list_alter app set_dependencies set_input Ordinal Stage Branch DependsOn
    InputFromOrdinal SourceChain DestinationChain InputToken OutputToken Market]. stages_ok.
Qed.

Lemma parallel_plan_valid c base quote decimals :
  plan_inputs c -> base <> "" -> quote <> "" -> decimals <> ∅ ->
  SequentialPlan_Validate (with_valuation (parallel_plan c) base quote decimals) = Ok tt.
Proof.
  intros Hc Hb Hq Hd. apply Validate_plan; try apply Hc; try done.
  - unfold plan_policy. rewrite decide_False by done. rewrite decide_True by (right; by left).
    rewrite decide_False by (cbn; intros [?|?]; done). rewrite decide_False; [done|]. cbn. tauto.
  - by apply parallel_stages_ok.
  - decide_goal.
Qed.

(** Whenever a transported plan can be built, so can the prefunded ones, and
    they never panic: the sequential one validates; the parallel one is
    refused until valuation assets and token decimals are supplied and
    validates with any; and in both every dependency and input reference,
    the circuit breaker's too, names an earlier stage. *)
Theorem prefunded_plans_valid (plan : SequentialPlan) :
  transported = Ok plan ->
  exists sequential parallel,
    NewPrefundedSequentialPlan id opportunity initialInput buyChain sellChain createdAt = Ok sequential /\
    NewPrefundedParallelPlan id opportunity initialInput buyChain sellChain createdAt = Ok parallel /\
    SequentialPlan_Validate sequential = Ok tt /\
    SequentialPlan_Validate parallel <> Ok tt /\
    (forall base quote decimals, base <> "" -> quote <> "" -> decimals <> ∅ ->
       SequentialPlan_Validate (with_valuation parallel base quote decimals) = Ok tt) /\
    references_closed (p_Stages sequential ++ p_CircuitBreaker sequential) /\
    references_closed (p_Stages parallel ++ p_CircuitBreaker parallel).
Proof.
  intros (c & Hc & _)%transported_inv. exists (prefunded_plan c), (parallel_plan c). split_and!.
  - by apply prefunded_Ok.
  - by apply parallel_Ok.
  - by apply prefunded_plan_valid.
  - unfold SequentialPlan_Validate. intros H. destruct (decide _) as [|_] in H; [done|].
    apply bind_Ok in H as ([] & H & _). unfold plan_policy in H. rewrite decide_False in H by done.
    rewrite decide_True in H by (right; by left). rewrite decide_False in H by (cbn; intros [?|?]; done).
    rewrite decide_True in H; [done|]. split; [by left|by left].
  - intros. by apply parallel_plan_valid.
  - by apply references_closedb_sound.
  - by apply references_closedb_sound.
Qed.
End plan_spec.

(** ** Stage inputs *)

(** A valid stage takes its input only from what is settled before it: the
    answer does not change when the settlements of its own and later ordinals
    are withheld, and an input it gets is the plan's initial input (first stage
    only), the fixed parallel sale, or the non-zero output of an earlier
    ordinal. *)
Theorem InputFor_earlier_settlements (p : SequentialPlan) (s : SequentialStagePlan) (outputs : gmap Z TokenAmount) :
  Stage_Validate s = Ok tt ->
  InputFor p s outputs = InputFor p s (filter (fun kv => kv.1 < Ordinal s) outputs) /\
  forall a, InputFor p s outputs = Ok a ->
    (Ordinal s = 1 /\ a = p_InitialInput p /\ amount_token a = InputToken s) \/
    (IsPrefundedDualInventory p /\ Ordinal s = 2 /\ ParallelSellInput p = Ok a) \/
    (exists k, 1 <= k < Ordinal s /\ outputs !! k = Some a /\ Units a <> 0).
Proof.
  intros Hs%Stage_Validate_iff. destruct Hs as (Ho & _ & _ & _ & _ & Hin & _). unfold InputFor.
  destruct (decide (IsPrefundedDualInventory p /\ _)) as [Hpar|_]; [naive_solver|].
  destruct (decide (InputFromOrdinal s = 0)) as [_|Hne].
  { destruct (decide (Ordinal s <> 1)) as [|H1]; [done|]. apply dec_stable in H1.
    destruct (decide (amount_token _ <> _)) as [|Ht]; [done|]. apply dec_stable in Ht.
    split; [done|]. intros a [= <-]. by left. }
  split.
  - rewrite map_lookup_filter. destruct (outputs !! InputFromOrdinal s) as [a|]; [|done]. cbn.
    rewrite option_guard_True by (cbn; lia). done.
  - intros a H. destruct (outputs !! InputFromOrdinal s) as [b|] eqn:Hb; [|done]. case_decide as Hz; [done|].
    injection H as <-. rewrite IsZero_iff in Hz. right; right. exists (InputFromOrdinal s). split; [lia|done].
Qed.

(** The parallel sale is fixed at discovery: from positive discovered amounts
    and initial input it is the discovered sale scaled by initial input over
    discovered purchase, rounded down, so never more than the discovered sale
    for an input up to the discovered one and exactly it at that input; it fails
    exactly when that share is below one unit. *)
Theorem ParallelSellInput_scaled (p : SequentialPlan) (c : Candidate) (sold bought initial : Z) :
  IsPrefundedDualInventory p -> selected_candidate (p_Opportunity p) = Some c ->
  Units (q_AmountIn (cd_SellQuote c)) = sold -> Units (q_AmountIn (cd_BuyQuote c)) = bought ->
  Units (p_InitialInput p) = initial -> amount_token (q_AmountIn (cd_SellQuote c)) <> "" ->
  0 < sold -> 0 < bought -> 0 < initial ->
  (sold * initial < bought -> exists e, ParallelSellInput p = Err e) /\
  (bought <= sold * initial -> exists a, ParallelSellInput p = Ok a /\
     amount_token a = amount_token (q_AmountIn (cd_SellQuote c)) /\ 1 <= Units a /\
     Units a * bought <= sold * initial < (Units a + 1) * bought /\
     (initial <= bought -> Units a <= sold) /\ (initial = bought -> Units a = sold)).
Proof.
  intros Hdual Hsel Hsold Hbought Hinit Htok H1 H2 H3. unfold ParallelSellInput.
  rewrite decide_False by tauto. rewrite Hsel, Hsold, Hbought, Hinit.
  rewrite (decide_False (P := IsZero _ \/ _)) by (rewrite !IsZero_iff, Hsold, Hbought, Hinit; lia).
  cbv zeta. pose proof (Zquot_bounds (sold * initial) bought ltac:(lia) H2) as [Hlo Hhi].
  set (units := Z.quot (sold * initial) bought) in *. split.
  - intros Hsmall. assert (units <= 0) by nia. rewrite decide_True by (destruct (Z.sgn_spec units); lia). by eexists.
  - intros Hbig. assert (1 <= units) by nia.
    rewrite decide_False by (destruct (Z.sgn_spec units); lia).
    exists (mkTokenAmount (amount_token (q_AmountIn (cd_SellQuote c))) (Some units)).
    rewrite NewTokenAmount_Ok by (done || lia). split; [done|]. split; [done|]. cbn. split_and!; nia.
Qed.

Module SequentialWitness.
Definition amount (token : string) (n : Z) : TokenAmount := mkTokenAmount token (Some n).
Definition money (n : Z) : AssetQuantity := mkAssetQuantity "USD" (Some (SetInt n)).
Definition quote (market : string) (input output : TokenAmount) : Quote :=
  mkQuote "q" market 1 "h" (mkSourcePosition "" 0) "r" "trade" "exact" "final" input output 1 [].
(** Buy 100 base units for 1000 on one chain, sell them for 1100 on the other. *)
Definition candidate : Candidate :=
  mkCandidate (money 1) (money 1) (money 1) (money 1) (mkCostSnapshot "c" (money 1) 1) (money 1) (money 1)
    (money 1) (money 1) (quote "m1" (amount "usdc" 1000) (amount "eth" 100))
    (quote "m2" (amount "eth2" 100) (amount "usdt" 1100)) None None.
Definition opportunity : Opportunity :=
  mkOpportunity "e" "r" "h" "s" (mkDirection "m1" "m2") ClassificationPolicyQualified [] [candidate] 0
    (money 0) []
    (mkTriggerMetadata "" "" (mkSourcePosition "" 0) (mkSourceReference "" "") 0) false 1 1 1.
Definition initial : TokenAmount := amount "usdc" 500.

Lemma inputs : plan_inputs "p" opportunity initial "base" "solana" 7 candidate.
Proof. constructor; try done. repeat constructor; done. Defined.

Definition transported : SequentialPlan := transported_plan "p" opportunity initial "base" "solana" 7 candidate.
Definition dual : SequentialPlan :=
  with_valuation (parallel_plan "p" opportunity initial "base" "solana" 7 candidate) "ETH" "USD" {[ "usdc" := 6%N ]}.

Lemma prefunded_witness :
  exists parallel, NewPrefundedParallelPlan "p" opportunity initial "base" "solana" 7 = Ok parallel /\
    SequentialPlan_Validate (with_valuation parallel "ETH" "USD" {[ "usdc" := 6%N ]}) = Ok tt.
Proof.
  destruct (prefunded_plans_valid "p" opportunity initial "base" "solana" 7 transported) as
    (sequential & parallel & _ & Hp & _ & _ & Hv & _).
  - vm_compute. reflexivity.
  - exists parallel. split; [exact Hp|]. apply Hv; discriminate.
Defined.

Definition last_stage : SequentialStagePlan :=
  mkStage 4 StageBridgeQuoteReturn BranchMain [2] 2 "solana" "base" "usdt" "usdc" "".

Lemma input_witness :
  InputFor dual last_stage {[ 2 := amount "usdt" 550; 4 := amount "usdt" 1 ]} =
  InputFor dual last_stage (filter (fun kv => kv.1 < 4) {[ 2 := amount "usdt" 550; 4 := amount "usdt" 1 ]}).
Proof.
  apply (InputFor_earlier_settlements dual last_stage {[ 2 := amount "usdt" 550; 4 := amount "usdt" 1 ]}).
  vm_compute. reflexivity.
Defined.

Lemma sell_witness : exists a, ParallelSellInput dual = Ok a /\ Units a * 1000 <= 50000 < (Units a + 1) * 1000.
Proof.
  destruct (proj2 (ParallelSellInput_scaled dual candidate 100 1000 500 (or_introl eq_refl) eq_refl eq_refl eq_refl
    eq_refl ltac:(discriminate) eq_refl eq_refl eq_refl)) as (a & Ha & _ & _ & Hb & _).
  - discriminate.
  - exists a. split; [exact Ha|exact Hb].
Defined.
End SequentialWitness.
