(* ===== verification/DynamicSlippage.v ===== *)
(** * Dynamic slippage (src/runtime/livecanary/dynamic_slippage.go)

    How much worse than its quote a swap may come out.  From the economics of the
    selected candidate the driver derives the least output that still leaves what the
    plan must earn, and the basis points that enforce it.  Theorems: the floor is the
    least output that keeps the economics and the cap, and the basis points never let
    less than the floor through.  [SwapDriver] has the fields of the driver
    (swap_driver.go) that are used here. *)
From S2P Require Import Prelude Amount Quote Registry Arbitrage Allocation Inventory Execution Sequential.
From Stdlib Require Import QArith Qcanon Lqa.
Local Open Scope Z_scope.

Record DynamicSlippagePolicy := mkDynamicSlippagePolicy { ds_Enabled : bool; ds_MaxBPS : Z; ds_HeadroomBPS : Z }.

Record SwapDriver := mkSwapDriver {
  sd_TokenDecimals : gmap TokenID N; sd_QuoteAsset : AssetID; sd_BaseAsset : AssetID;
  sd_MinimumNet : option Qc; sd_DirectionalMinimumNet : gmap Direction (option Qc); sd_DynamicSlippage : DynamicSlippagePolicy }.

Record SlippageConstraint := mkSlippageConstraint {
  sc_BPS : Z; sc_MinimumOutput : TokenAmount; sc_Reason : string; sc_Evidence : gmap string string }.

(** ** Arithmetic *)

Definition cloneRatOrZero (value : option Qc) : Qc := default (Q2Qc 0) value.

Definition minimumNetFor (d : SwapDriver) (direction : Direction) : Qc :=
  cloneRatOrZero (default (sd_MinimumNet d) (sd_DirectionalMinimumNet d !! direction)).

Definition decimalScale (decimals : N) : Z := 10 ^ Z.of_N decimals.

(** [QuoRem], and one more when there is a remainder. *)
Definition quo_up (numerator divisor : Z) : Z :=
  let quotient := Z.quot numerator divisor in if decide (Z.sgn (Z.rem numerator divisor) <> 0) then quotient + 1 else quotient.

Definition ceilMulDiv (left right divisor : Z) : res Z :=
  if decide (divisor = 0) then Panic "division by zero" else Ok (quo_up (left * right) divisor).

Definition ratUnitsCeil (value : Qc) (decimals : N) : Z :=
  if decide (Z.sgn (Num value) <= 0) then 0 else
  let scaled := (value * SetInt (decimalScale decimals))%Qc in quo_up (Num scaled) (Denom scaled).

Definition maximumSlippageBPS (expected minimum capBPS : Z) : res Z :=
  if decide (Z.sgn expected <= 0 \/ expected <= minimum) then Ok 0 else
  ratio ← ceilMulDiv minimum 10000 expected;
  if decide (10000 <= ratio) then Ok 0 else
  let allowed := uint64 (10000 - ratio) in
  Ok (if decide (capBPS < allowed) then capBPS else allowed).

(** [RatString]. *)
Definition RatString (v : Qc) : string := AssetQuantity_String (mkAssetQuantity "" (Some v)).

(** ** What the plan must return *)

Definition forcedCanaryReason : string := "forced_canary_direction".
Definition isForcedCanaryOpportunity (o : Opportunity) : bool := existsb (fun reason => bool_decide (reason = forcedCanaryReason)) (op_Reasons o).

Definition selectedCandidate (o : Opportunity) : res Candidate :=
  match selected_candidate o with Some c => Ok c | None => Err (Errorf "dynamic slippage has no selected candidate") end.

Definition convertAmount (d : SwapDriver) (source : TokenAmount) (destinationToken : TokenID) : res TokenAmount :=
  match sd_TokenDecimals d !! amount_token source, sd_TokenDecimals d !! destinationToken with
  | Some sourceDecimals, Some destinationDecimals =>
      let units := Units source in
      NewTokenAmount destinationToken (Some
        (if decide (destinationDecimals < sourceDecimals)%N then Z.quot units (decimalScale (sourceDecimals - destinationDecimals))
         else if decide (sourceDecimals < destinationDecimals)%N then units * decimalScale (destinationDecimals - sourceDecimals)
         else units))
  | _, _ => Err (Errorf "preflight comparison token decimals are unavailable")
  end.

Definition add_incurred (d : SwapDriver) (decimals : N) (required : Z) (component : CostComponent) : res Z :=
  if cc_IncludedInOutput component then Ok required else
  if decide (quantity_asset (cc_QuoteValue component) <> sd_QuoteAsset d) then Err (Errorf "dynamic slippage incurred cost is not valued in %s") else
  Ok (required + ratUnitsCeil (Rat (cc_QuoteValue component)) decimals).

Definition requiredFinalUnits (d : SwapDriver) (plan : SequentialPlan) (pending : AssetQuantity) (incurred : list CostComponent) : res Z :=
  match sd_TokenDecimals d !! amount_token (p_InitialInput plan) with
  | None => Err (Errorf "dynamic slippage quote-token decimals are unavailable")
  | Some decimals =>
      let required := Units (p_InitialInput plan) in
      required ← (if decide (quantity_asset pending = "") then Ok required else
        if decide (quantity_asset pending <> sd_QuoteAsset d) then Err (Errorf "dynamic slippage pending costs are not valued in %s")
        else Ok (required + ratUnitsCeil (Rat pending) decimals));
      required ← foldM (add_incurred d decimals) required incurred;
      Ok (required + ratUnitsCeil (minimumNetFor d (op_Direction (p_Opportunity plan))) decimals)
  end.

(** ** The floor of a buy *)

(** Prefunded on both sides: what the base that is bought may fall short is valued at
    the mark price. *)
Definition dynamicPrefundedBuySlippage (d : SwapDriver) (plan : SequentialPlan) (candidate : Candidate) (valuation : ValuationSnapshot) :
    res (option SlippageConstraint) :=
  if decide (quantity_asset (cd_NetPnL candidate) <> sd_QuoteAsset d \/ val_base valuation <> sd_BaseAsset d \/ val_quote valuation <> sd_QuoteAsset d)
  then Err (Errorf "prefunded dynamic buy slippage valuation is incompatible") else
  minimumNet ← wrap "prefunded dynamic buy slippage threshold is incompatible: %w"
    (NewAssetQuantity (sd_QuoteAsset d) (Some (minimumNetFor d (op_Direction (p_Opportunity plan)))));
  headroom ← AssetQuantity_Sub (cd_NetPnL candidate) minimumNet;
  if decide (AssetQuantity_Sign headroom < 0) then Err (Errorf "prefunded dynamic buy slippage has no economic budget: net=%s minimum=%s") else
  let expected := q_AmountOut (cd_BuyQuote candidate) in
  match sd_TokenDecimals d !! amount_token expected with
  | None => Err (Errorf "prefunded dynamic buy slippage base-token decimals are unavailable")
  | Some decimals =>
      price ← Valuation_Price valuation;
      if decide (Z.sgn (Num price) <= 0) then Err (Errorf "prefunded dynamic buy slippage mark price is invalid") else
      let expectedHuman := SetFrac (Units expected) (decimalScale decimals) in
      baseHeadroom ← Rat_Quo (Rat headroom) price;
      let minimumHuman := (expectedHuman - baseHeadroom)%Qc in
      let minimumUnits := if decide (0 < Z.sgn (Num minimumHuman)) then ratUnitsCeil minimumHuman decimals else 1 in
      if decide (Units expected < minimumUnits)
      then Err (Errorf "prefunded dynamic buy slippage floor exceeds expected output: expected=%s minimum_units=%s") else
      minimum ← NewTokenAmount (amount_token expected) (Some minimumUnits);
      bps ← maximumSlippageBPS (Units expected) minimumUnits (ds_MaxBPS (sd_DynamicSlippage d));
      Ok (Some (mkSlippageConstraint bps minimum "dynamic_prefunded_buy_budget" {[
        "expected_buy_output_units" := TokenAmount_String expected; "minimum_buy_output_units" := TokenAmount_String minimum;
        "net_headroom" := AssetQuantity_String headroom; "mark_price" := RatString price; "max_bps" := pretty (ds_MaxBPS (sd_DynamicSlippage d))]}))
  end.

(** Transported: the sale scales with what was bought. *)
Definition dynamicBuySlippage (d : SwapDriver) (plan : SequentialPlan) : res (option SlippageConstraint) :=
  if decide (ds_Enabled (sd_DynamicSlippage d) = false \/ isForcedCanaryOpportunity (p_Opportunity plan) = true) then Ok None else
  candidate ← selectedCandidate (p_Opportunity plan);
  match (if decide (IsPrefundedDualInventory plan) then cd_Valuation candidate else None) with
  | Some valuation => dynamicPrefundedBuySlippage d plan candidate valuation
  | None =>
      if decide (amount_token (q_AmountIn (cd_BuyQuote candidate)) <> amount_token (p_InitialInput plan) \/
                 Units (q_AmountIn (cd_BuyQuote candidate)) <> Units (p_InitialInput plan))
      then Err (Errorf "dynamic buy slippage requires discovery and execution inputs to match") else
      sellOutput ← convertAmount d (q_AmountOut (cd_SellQuote candidate)) (amount_token (p_InitialInput plan));
      required ← requiredFinalUnits d plan (cost_Amount (cd_Cost candidate)) [];
      if decide (Units sellOutput <= required) then Err (Errorf "dynamic buy slippage has no economic budget: expected=%s required=%s") else
      let buyOutput := q_AmountOut (cd_BuyQuote candidate) in
      minimumUnits ← ceilMulDiv (Units buyOutput) required (Units sellOutput);
      minimum ← NewTokenAmount (amount_token buyOutput) (Some minimumUnits);
      bps ← maximumSlippageBPS (Units buyOutput) minimumUnits (ds_MaxBPS (sd_DynamicSlippage d));
      Ok (Some (mkSlippageConstraint bps minimum "dynamic_buy_budget" {[
        "expected_buy_output_units" := TokenAmount_String buyOutput; "expected_sell_output_units" := TokenAmount_String sellOutput;
        "required_final_units" := pretty required; "dynamic_budget_units" := pretty (Units sellOutput - required);
        "max_bps" := pretty (ds_MaxBPS (sd_DynamicSlippage d))]}))
  end.

(** ** The floor of the first leg of a trigger-first operation *)

(** The budget in units of the output, and the asset of the output. *)
Definition unit_loss (d : SwapDriver) (now : Time) (candidate : Candidate) (valuation : ValuationSnapshot) (output : TokenID) (budget : Qc) :
    res (Qc * AssetID) :=
  if decide (output = amount_token (q_AmountOut (cd_BuyQuote candidate))) then
    price ← Valuation_Price valuation;
    if decide (Z.sgn (Num price) <= 0) then Err (Errorf "trigger-first mark price is invalid") else
    unitLoss ← Rat_Quo budget price; Ok (unitLoss, sd_BaseAsset d)
  else
  match cd_QuoteConversion candidate with
  | Some conversion =>
      if decide (output = amount_token (qc_Input conversion)) then
        match sd_TokenDecimals d !! amount_token (qc_Input conversion), sd_TokenDecimals d !! amount_token (qc_Output conversion) with
        | Some inputDecimals, Some outputDecimals =>
            if decide (~ conversion_ValidAt conversion now) then Err (Errorf "trigger-first quote conversion is stale or incomplete") else
            let inputHuman := SetFrac (Units (qc_Input conversion)) (decimalScale inputDecimals) in
            let outputHuman := SetFrac (Units (qc_Output conversion)) (decimalScale outputDecimals) in
            if decide (Z.sgn (Num inputHuman) <= 0 \/ Z.sgn (Num outputHuman) <= 0) then Err (Errorf "trigger-first quote conversion rate is invalid") else
            rate ← Rat_Quo outputHuman inputHuman;
            unitLoss ← Rat_Quo budget rate; Ok (unitLoss, sd_QuoteAsset d)
        | _, _ => Err (Errorf "trigger-first quote conversion is stale or incomplete")
        end
      else Ok (budget, sd_QuoteAsset d)
  | None => Ok (budget, sd_QuoteAsset d)
  end.

Definition headroom_bps (d : SwapDriver) : Z :=
  if decide (ds_HeadroomBPS (sd_DynamicSlippage d) = 0) then 2500 else ds_HeadroomBPS (sd_DynamicSlippage d).
Definition cap_bps (d : SwapDriver) : Z := if decide (ds_MaxBPS (sd_DynamicSlippage d) = 0) then 500 else ds_MaxBPS (sd_DynamicSlippage d).

Definition dynamicTriggerFirstSlippage (d : SwapDriver) (now : Time) (plan : SequentialPlan) (expected : Quote) : res (option SlippageConstraint) :=
  if isForcedCanaryOpportunity (p_Opportunity plan) then Ok None else
  if decide (EffectivePolicy plan <> PolicyPrefundedTriggerFirst) then dynamicBuySlippage d plan else
  candidate ← selectedCandidate (p_Opportunity plan);
  let headroomBPS := headroom_bps d in
  let net := cd_NetPnL candidate in
  match cd_Valuation candidate with
  | None => Err (Errorf "trigger-first dynamic slippage economics are incomplete")
  | Some valuation =>
      if decide (10000 <= headroomBPS \/ AssetQuantity_Sign net <= 0 \/ quantity_asset net <> sd_QuoteAsset d)
      then Err (Errorf "trigger-first dynamic slippage economics are incomplete") else
      let budget := (Rat net * SetFrac (10000 - headroomBPS) 10000)%Qc in
      let reserved := (Rat net - budget)%Qc in
      let output := q_AmountOut expected in
      match sd_TokenDecimals d !! amount_token output with
      | None => Err (Errorf "trigger-first output decimals are unavailable")
      | Some decimals =>
          '(unitLoss, outputAsset) ← unit_loss d now candidate valuation (amount_token output) budget;
          let minimumHuman := (SetFrac (Units output) (decimalScale decimals) - unitLoss)%Qc in
          if decide (Z.sgn (Num minimumHuman) <= 0) then Err (Errorf "trigger-first minimum output is not positive") else
          let economicMinimumUnits := ratUnitsCeil minimumHuman decimals in
          if decide (Units output < economicMinimumUnits) then Err (Errorf "trigger-first minimum output exceeds expected output") else
          let capBPS := cap_bps d in
          if decide (500 < capBPS) then Err (Errorf "trigger-first percentage cap exceeds 500 basis points") else
          capMinimumUnits ← ceilMulDiv (Units output) (10000 - capBPS) 10000;
          let '(minimumUnits, limitingBound) :=
            if decide (economicMinimumUnits < capMinimumUnits) then (capMinimumUnits, "percentage_cap") else (economicMinimumUnits, "economic_budget") in
          minimum ← NewTokenAmount (amount_token output) (Some minimumUnits);
          bps ← maximumSlippageBPS (Units output) minimumUnits capBPS;
          Ok (Some (mkSlippageConstraint bps minimum "dynamic_trigger_first_75_25_capped" {[
            "expected_net" := AssetQuantity_String net; "reserved_headroom" := RatString reserved; "consumable_budget" := RatString budget;
            "headroom_bps" := pretty headroomBPS; "equivalent_slippage_bps" := pretty bps; "max_bps" := pretty capBPS;
            "limiting_bound" := limitingBound; "economic_minimum_output_units" := pretty economicMinimumUnits;
            "cap_minimum_output_units" := pretty capMinimumUnits; "output_asset" := outputAsset; "minimum_output_units" := TokenAmount_String minimum]}))
      end
  end.

(** ** Rounding *)

Lemma quo_up_le n d k : 0 <= n -> 0 < d -> quo_up n d <= k <-> n <= k * d.
Proof.
  intros Hn Hd. unfold quo_up. cbv zeta. pose proof (Z.quot_rem' n d) as Hq. pose proof (Z.rem_bound_pos n d Hn Hd) as Hr.
  destruct (decide _) as [Hs|Hs]; [assert (Z.rem n d <> 0) by (intros Hz; rewrite Hz in Hs; done)|assert (Z.rem n d = 0) by (destruct (Z.rem n d); cbn in Hs; lia)]; nia.
Qed.

Lemma quo_up_nonneg n d : 0 <= n -> 0 < d -> 0 <= quo_up n d.
Proof. intros Hn Hd. destruct (Z_le_gt_dec 0 (quo_up n d)); [done|]. exfalso. assert (quo_up n d <= -1) as H by lia. apply quo_up_le in H; lia. Qed.

Lemma decimalScale_pos decimals : 0 < decimalScale decimals.
Proof. apply Z.pow_pos_nonneg; lia. Qed.

(** The basis points are the greatest up to the cap that keep the minimum. *)
Lemma maximumSlippageBPS_greatest e m cap b : 0 <= m <= e -> 0 < e -> 0 <= cap <= 10000 -> maximumSlippageBPS e m cap = Ok b ->
  0 <= b <= cap /\ 10000 * m <= e * (10000 - b) /\ forall b', 0 <= b' <= cap -> 10000 * m <= e * (10000 - b') -> b' <= b.
Proof.
  intros Hm He Hcap. unfold maximumSlippageBPS, ceilMulDiv. destruct (decide (Z.sgn e <= 0 \/ e <= m)) as [H0|H0].
  { intros [= <-]. assert (m = e) as -> by (destruct H0; [destruct (Z.sgn_spec e); lia|lia]). split; [lia|]. split; [lia|]. intros b' Hb' H. nia. }
  rewrite decide_False by lia. cbn [mbind res_bind]. pose proof (quo_up_le (m * 10000) e) as Hle. pose proof (quo_up_nonneg (m * 10000) e ltac:(lia) He) as Hnn.
  set (ratio := quo_up (m * 10000) e) in *. destruct (decide (10000 <= ratio)) as [Hbig|Hbig].
  - intros [= <-]. split; [lia|]. split; [lia|]. intros b' Hb' H. destruct (Z_le_gt_dec b' 0); [done|]. exfalso.
    assert (ratio <= 9999) by (apply Hle; [lia|done|nia]). lia.
  - unfold uint64. rewrite Z.mod_small by lia. pose proof (proj1 (Hle ratio ltac:(lia) He) ltac:(lia)) as Hr.
    assert (forall b', 10000 * m <= e * (10000 - b') -> b' <= 10000 - ratio) as Hmax.
    { intros b' H. enough (ratio <= 10000 - b') by lia. apply Hle; [lia|done|nia]. }
    intros [= <-]. destruct (decide _); (split; [lia|]; split; [nia|]; intros b' Hb' H; specialize (Hmax b' H); lia).
Qed.

(** ** Rationals *)

Lemma SetInt_sub a b : SetInt (a - b) = (SetInt a - SetInt b)%Qc.
Proof.
  apply Qc_is_canon. unfold SetInt, Qcminus, Qcplus, Qcopp, Q2Qc, this. rewrite !Qred_correct. unfold inject_Z, Qeq, Qplus, Qopp, Qnum, Qden. lia.
Qed.

Lemma SetFrac_sub a b s : SetFrac (a - b) s = (SetFrac a s - SetFrac b s)%Qc.
Proof.
  unfold SetFrac. change (Q2Qc (inject_Z (a - b))) with (SetInt (a - b)). rewrite SetInt_sub. unfold SetInt, Qcdiv. ring.
Qed.

Lemma Qc_sub_le x u y : (x - u <= y)%Qc <-> (x - y <= u)%Qc.
Proof.
  split; intros H; apply Qcle_minus_iff; apply Qcle_minus_iff in H;
    [replace (u + - (x - y))%Qc with (y + - (x - u))%Qc by ring|replace (y + - (x - u))%Qc with (u + - (x - y))%Qc by ring]; exact H.
Qed.



Lemma le_SetFrac v k s : 0 < s -> (v <= SetFrac k s)%Qc <-> (v * SetInt s <= SetInt k)%Qc.
Proof.
  intros Hs. rewrite <- (SetFrac_mul k s Hs). assert (0 < SetInt s)%Qc as Hp by (apply Qc_pos_iff; by rewrite Num_SetInt).
  split; intros H; [apply Qcmult_le_compat_r; [exact H|by apply Qclt_le_weak]|by apply (Qcmult_lt_0_le_reg_r v (SetFrac k s) (SetInt s))].
Qed.

Lemma le_SetInt v k : (v <= SetInt k)%Qc <-> Num v <= k * Denom v.
Proof. unfold Qcle, Qle, SetInt, Num, Denom. rewrite Q2Qc_inject_Z_this. cbn [Qnum Qden inject_Z]. lia. Qed.

(** The ceiling in token units is the least amount of units worth as much. *)
Lemma ratUnitsCeil_le v decimals k : 0 <= k -> ratUnitsCeil v decimals <= k <-> (v <= SetFrac k (decimalScale decimals))%Qc.
Proof.
  intros Hk. pose proof (decimalScale_pos decimals) as Hs. rewrite le_SetFrac, le_SetInt by done. unfold ratUnitsCeil.
  assert (0 < SetInt (decimalScale decimals))%Qc as Hp by (apply Qc_pos_iff; by rewrite Num_SetInt).
  assert (0 <= Num v -> 0 <= Num (v * SetInt (decimalScale decimals))) as Hnn.
  { intros H. apply Qc_nonneg_iff. apply Qc_nonneg_iff in H. rewrite <- (Qcmult_0_l (SetInt (decimalScale decimals))).
    apply Qcmult_le_compat_r; [exact H|by apply Qclt_le_weak]. }
  destruct (decide (Z.sgn (Num v) <= 0)) as [H0|H0].
  - split; [intros _|done]. assert (v * SetInt (decimalScale decimals) <= SetInt 0)%Qc as Hneg.
    { replace (SetInt 0) with (0 * SetInt (decimalScale decimals))%Qc by (rewrite Qcmult_0_l; done).
      apply Qcmult_le_compat_r; [|by apply Qclt_le_weak]. apply Qcnot_lt_le. intros H%Qc_pos_iff%sgn_pos. lia. }
    apply le_SetInt in Hneg. assert (0 < Denom (v * SetInt (decimalScale decimals))) by done. nia.
  - cbv zeta. apply quo_up_le; [apply Hnn; destruct (Z.sgn_spec (Num v)); lia|done].
Qed.

Lemma ratUnitsCeil_pos v decimals : 0 < Z.sgn (Num v) -> 0 < ratUnitsCeil v decimals.
Proof.
  intros Hv. destruct (Z_le_gt_dec (ratUnitsCeil v decimals) 0) as [H|]; [|lia]. exfalso.
  apply (ratUnitsCeil_le v decimals 0 ltac:(lia)) in H. apply sgn_pos, Qc_pos_iff in Hv.
  assert (SetFrac 0 (decimalScale decimals) = Q2Qc 0) as H0 by (unfold SetFrac, Qcdiv; change (Q2Qc (inject_Z 0)) with (Q2Qc 0); apply Qcmult_0_l).
  rewrite H0 in H. by apply Qclt_not_le in Hv.
Qed.

Lemma Rat_Quo_le budget rate loss x : (0 < rate)%Qc -> Rat_Quo budget rate = Ok loss -> (x <= loss)%Qc <-> (rate * x <= budget)%Qc.
Proof.
  intros Hr. unfold Rat_Quo. destruct (decide _) as [|Hne]; [done|]. intros [= <-].
  replace budget with (budget / rate * rate)%Qc at 2 by (rewrite Qcmult_comm; by apply Qcmult_div_r). rewrite (Qcmult_comm rate x).
  split; intros H; [apply Qcmult_le_compat_r; [exact H|by apply Qclt_le_weak]|by apply (Qcmult_lt_0_le_reg_r x (budget / rate)%Qc rate)].
Qed.

(** ** The floor of a trigger-first leg *)

(** What one unit of the output is worth in the quote asset. *)
Definition output_rate (d : SwapDriver) (candidate : Candidate) (valuation : ValuationSnapshot) (output : TokenID) : option Qc :=
  if decide (output = amount_token (q_AmountOut (cd_BuyQuote candidate))) then val_price valuation else
  match cd_QuoteConversion candidate with
  | Some conversion =>
      if decide (output = amount_token (qc_Input conversion)) then
        inputDecimals ← sd_TokenDecimals d !! amount_token (qc_Input conversion);
        outputDecimals ← sd_TokenDecimals d !! amount_token (qc_Output conversion);
        Some (SetFrac (Units (qc_Output conversion)) (decimalScale outputDecimals) /
              SetFrac (Units (qc_Input conversion)) (decimalScale inputDecimals))%Qc
      else Some (Q2Qc 1)
  | None => Some (Q2Qc 1)
  end.

Lemma Qc_div_pos x y : (0 < x)%Qc -> (0 < y)%Qc -> (0 < x / y)%Qc.
Proof.
  intros Hx Hy. apply Qcnot_le_lt. intros H.
  apply (Qcmult_le_compat_r _ _ y) in H; [|by apply Qclt_le_weak]. rewrite Qcmult_0_l, Qcmult_comm, Qcmult_div_r in H.
  - by apply Qclt_not_le in Hx.
  - intros ->. by apply Qclt_not_eq in Hy.
Qed.

Lemma unit_loss_le d now candidate valuation output budget loss asset :
  unit_loss d now candidate valuation output budget = Ok (loss, asset) ->
  exists rate, output_rate d candidate valuation output = Some rate /\ (0 < rate)%Qc /\ forall x, (x <= loss)%Qc <-> (rate * x <= budget)%Qc.
Proof.
  unfold unit_loss, output_rate, Valuation_Price. intros H. destruct (decide (output = _)) as [|_].
  - destruct (val_price valuation) as [price|]; [|done]. cbn [mbind res_bind] in H. destruct (decide _) as [|Hp]; [done|].
    apply bind_Ok in H as (l & Hl & [= <- <-]). assert (0 < price)%Qc as Hpos by (apply Qc_pos_iff; destruct (Z.sgn_spec (Num price)); lia).
    exists price. split; [done|]. split; [done|]. intros x. by apply Rat_Quo_le.
  - assert (forall x, (x <= budget)%Qc <-> (Q2Qc 1 * x <= budget)%Qc) as Hone by (intros x; by rewrite Qcmult_1_l).
    destruct (cd_QuoteConversion candidate) as [conversion|]; [|injection H as <- <-; by exists (Q2Qc 1)].
    destruct (decide (output = _)); [|injection H as <- <-; by exists (Q2Qc 1)].
    destruct (sd_TokenDecimals d !! _) as [din|]; [|done]. destruct (sd_TokenDecimals d !! _) as [dout|]; [|done]. cbn [mbind option_bind].
    destruct (decide _) as [|_]; [done|]. destruct (decide _) as [|Hpos]; [done|].
    apply bind_Ok in H as (rate & Hrate & (l & Hl & [= <- <-])%bind_Ok).
    unfold Rat_Quo in Hrate. destruct (decide _) as [|Hne] in Hrate; [done|]. injection Hrate as <-. eexists. split; [done|].
    assert (0 < SetFrac (Units (qc_Output conversion)) (decimalScale dout) / SetFrac (Units (qc_Input conversion)) (decimalScale din))%Qc as Hr.
    { apply Qc_div_pos; apply Qc_pos_iff; [destruct (Z.sgn_spec (Num (SetFrac (Units (qc_Output conversion)) (decimalScale dout))))
      |destruct (Z.sgn_spec (Num (SetFrac (Units (qc_Input conversion)) (decimalScale din))))]; lia. }
    split; [done|]. intros x. by apply Rat_Quo_le.
Qed.

(** An output of [k] units loses at most the part of the net result that may be
    consumed, and at most the percentage cap. *)
Record trigger_floor (d : SwapDriver) (decimals : N) (rate net : Qc) (expected k : Z) : Prop := {
  tf_economic : (rate * SetFrac (expected - k) (decimalScale decimals) <= net * SetFrac (10000 - headroom_bps d) 10000)%Qc;
  tf_capped : expected * (10000 - cap_bps d) <= 10000 * k }.

(** C12.The floor of a trigger-first leg is exact.  The least output that may be accepted
    is the least one whose shortfall, valued at the mark price or at the rate of the
    quote conversion, leaves the configured share of the net result for the second
    leg and stays under the percentage cap; and the basis points are the greatest
    under the cap that never accept less than it. *)
Theorem trigger_first_floor d now plan expected s :
  0 <= ds_MaxBPS (sd_DynamicSlippage d) -> EffectivePolicy plan = PolicyPrefundedTriggerFirst ->
  dynamicTriggerFirstSlippage d now plan expected = Ok (Some s) ->
  let E := Units (q_AmountOut expected) in let m := Units (sc_MinimumOutput s) in
  exists candidate valuation decimals rate,
    selectedCandidate (p_Opportunity plan) = Ok candidate /\ cd_Valuation candidate = Some valuation /\
    sd_TokenDecimals d !! amount_token (q_AmountOut expected) = Some decimals /\
    output_rate d candidate valuation (amount_token (q_AmountOut expected)) = Some rate /\ (0 < rate)%Qc /\
    amount_token (sc_MinimumOutput s) = amount_token (q_AmountOut expected) /\ 0 < m <= E /\
    trigger_floor d decimals rate (Rat (cd_NetPnL candidate)) E m /\
    (forall k, 0 <= k -> trigger_floor d decimals rate (Rat (cd_NetPnL candidate)) E k -> m <= k) /\
    0 <= sc_BPS s <= cap_bps d /\ 10000 * m <= E * (10000 - sc_BPS s) /\
    forall b, 0 <= b <= cap_bps d -> 10000 * m <= E * (10000 - b) -> b <= sc_BPS s.
Proof.
  intros Hmax Hpolicy H E m. unfold dynamicTriggerFirstSlippage in H. destruct (isForcedCanaryOpportunity _); [done|].
  rewrite decide_False in H by tauto. apply bind_Ok in H as (candidate & Hc & H). destruct (cd_Valuation candidate) as [valuation|] eqn:Hv; [|done].
  destruct (decide _) as [|Hnet] in H; [done|]. destruct (sd_TokenDecimals d !! _) as [decimals|] eqn:Hd; [|done].
  apply bind_Ok in H as ([loss asset] & Hloss & H). apply unit_loss_le in Hloss as (rate & Hrate & Hpos & Hloss).
  fold E in H. set (floor := (SetFrac E (decimalScale decimals) - loss)%Qc) in *.
  destruct (decide _) as [|Hfloor] in H; [done|]. destruct (decide _) as [|Heco] in H; [done|]. destruct (decide _) as [|Hcap] in H; [done|].
  assert (0 < ratUnitsCeil floor decimals) as Hceil by (apply ratUnitsCeil_pos; destruct (Z.sgn_spec (Num floor)); lia).
  assert (0 <= cap_bps d) as Hc0 by (unfold cap_bps; destruct (decide _); lia).
  set (low := ratUnitsCeil floor decimals) in *. unfold ceilMulDiv in H. rewrite decide_False in H by done. cbn [mbind res_bind] in H.
  assert (forall k, quo_up (E * (10000 - cap_bps d)) 10000 <= k <-> E * (10000 - cap_bps d) <= 10000 * k) as Hcapk
    by (intros k; rewrite quo_up_le by nia; lia).
  set (capped := quo_up (E * (10000 - cap_bps d)) 10000) in *.
  assert (forall k, 0 <= k -> trigger_floor d decimals rate (Rat (cd_NetPnL candidate)) E k <-> low <= k /\ capped <= k) as Hspec.
  { intros k Hk. unfold low. rewrite ratUnitsCeil_le, Hcapk by done. unfold floor. rewrite Qc_sub_le, <- SetFrac_sub, Hloss.
    split; [by intros [? ?]|by intros [? ?]; constructor]. }
  assert (capped <= E) as HcE by (apply Hcapk; nia).
  assert (exists limit, (if decide (low < capped) then (capped, "percentage_cap") else (low, "economic_budget")) = (Z.max low capped, limit)) as [limit Hlimit]
    by (destruct (decide _); [exists "percentage_cap"|exists "economic_budget"]; f_equal; lia).
  rewrite Hlimit in H. apply bind_Ok in H as (minimum & Hmin & (bps & Hbps & [= <-])%bind_Ok). cbn [sc_MinimumOutput sc_BPS] in *.
  apply NewTokenAmount_inv in Hmin as (_ & Htoken & Hunits). assert (m = Z.max low capped) as Hm by (unfold m, Units; by rewrite Hunits).
  rewrite <- Hm in Hbps. apply maximumSlippageBPS_greatest in Hbps; [|lia..].
  exists candidate, valuation, decimals, rate. split_and!; try done; try lia; [apply Hspec; lia|intros k Hk Hf%Hspec; lia|tauto..].
Qed.

(** ** The floor of a prefunded buy *)

(** With an output of [k] units the net result, valued at the mark price, still reaches
    the minimum. *)
Definition keeps_minimum (d : SwapDriver) (decimals : N) (price net minimumNet : Qc) (expected k : Z) : Prop :=
  (minimumNet <= net - price * SetFrac (expected - k) (decimalScale decimals))%Qc.

(** The floor of a prefunded buy is exact: the least positive output that leaves the
    net result, with the shortfall of the base valued at the mark price, at the
    minimum or above; the basis points never accept less. *)
Theorem prefunded_floor d plan candidate valuation s :
  0 <= ds_MaxBPS (sd_DynamicSlippage d) <= 10000 -> dynamicPrefundedBuySlippage d plan candidate valuation = Ok (Some s) ->
  let E := Units (q_AmountOut (cd_BuyQuote candidate)) in let m := Units (sc_MinimumOutput s) in
  exists decimals price, sd_TokenDecimals d !! amount_token (q_AmountOut (cd_BuyQuote candidate)) = Some decimals /\
    val_price valuation = Some price /\ (0 < price)%Qc /\ 0 < m <= E /\
    (forall k, 0 < k -> keeps_minimum d decimals price (Rat (cd_NetPnL candidate)) (minimumNetFor d (op_Direction (p_Opportunity plan))) E k <-> m <= k) /\
    0 <= sc_BPS s <= ds_MaxBPS (sd_DynamicSlippage d) /\ 10000 * m <= E * (10000 - sc_BPS s).
Proof.
  intros Hmax H E m. unfold dynamicPrefundedBuySlippage in H. destruct (decide _) as [|Hok] in H; [done|].
  apply bind_Ok in H as (least & Hleast & H). apply wrap_Ok in Hleast. set (minimumNet := minimumNetFor d _) in *.
  assert (Rat least = minimumNet) as Hl by (unfold NewAssetQuantity in Hleast; destruct (decide _); [done|]; by injection Hleast as <-).
  apply bind_Ok in H as (headroom & Hh & H).
  assert (Rat headroom = Rat (cd_NetPnL candidate) - minimumNet)%Qc as Hhead.
  { unfold AssetQuantity_Sub, NewAssetQuantity in Hh. destruct (decide _); [done|]. destruct (decide _); [done|]. injection Hh as <-. by rewrite Hl. }
  destruct (decide _) as [|Hsign] in H; [done|]. fold E in H. destruct (sd_TokenDecimals d !! _) as [decimals|] eqn:Hd; [|done].
  unfold Valuation_Price in H. destruct (val_price valuation) as [price|] eqn:Hprice; [|done]. cbn [mbind res_bind] in H.
  destruct (decide _) as [|Hp] in H; [done|]. assert (0 < price)%Qc as Hpos by (apply Qc_pos_iff; destruct (Z.sgn_spec (Num price)); lia).
  apply bind_Ok in H as (room & Hroom & H). set (floor := (SetFrac E (decimalScale decimals) - room)%Qc) in *.
  assert (forall k, 0 <= k -> keeps_minimum d decimals price (Rat (cd_NetPnL candidate)) minimumNet E k <-> (floor <= SetFrac k (decimalScale decimals))%Qc) as Hkeeps.
  { intros k Hk. unfold floor, keeps_minimum. rewrite Qc_sub_le, <- SetFrac_sub, (Rat_Quo_le _ _ _ _ Hpos Hroom), Hhead.
    set (lost := (price * _)%Qc). split; intros Hle; apply Qcle_minus_iff; apply Qcle_minus_iff in Hle;
      [replace (Rat (cd_NetPnL candidate) - minimumNet + - lost)%Qc with (Rat (cd_NetPnL candidate) - lost + - minimumNet)%Qc by ring
      |replace (Rat (cd_NetPnL candidate) - lost + - minimumNet)%Qc with (Rat (cd_NetPnL candidate) - minimumNet + - lost)%Qc by ring]; exact Hle. }
  set (low := if decide _ then _ else 1) in *.
  assert (0 < low /\ forall k, 0 < k -> (floor <= SetFrac k (decimalScale decimals))%Qc <-> low <= k) as [Hlow Hspec].
  { unfold low. destruct (decide (0 < Z.sgn (Num floor))) as [Hf|Hf].
    - split; [by apply ratUnitsCeil_pos|]. intros k Hk. symmetry. apply ratUnitsCeil_le. lia.
    - split; [done|]. intros k Hk. split; [lia|]. intros _. apply ratUnitsCeil_le; [lia|]. unfold ratUnitsCeil. rewrite decide_True by lia. lia. }
  destruct (decide _) as [|HE] in H; [done|]. apply bind_Ok in H as (minimum & Hmin & (bps & Hbps & [= <-])%bind_Ok). cbn [sc_MinimumOutput sc_BPS] in *.
  apply NewTokenAmount_inv in Hmin as (_ & _ & Hunits). assert (m = low) as Hm by (unfold m, Units; by rewrite Hunits).
  apply maximumSlippageBPS_greatest in Hbps; [|lia..]. exists decimals, price. rewrite Hm. split_and!; try done; try lia.
  intros k Hk. rewrite Hkeeps by lia. by apply Hspec.
Qed.

(** ** The floor of a transported buy *)

(** The floor of a transported buy is the least output whose proportional sale still
    returns what the plan requires: its input, its costs and its minimum net. *)
Theorem transported_floor d plan candidate s :
  0 <= ds_MaxBPS (sd_DynamicSlippage d) <= 10000 -> selectedCandidate (p_Opportunity plan) = Ok candidate -> cd_Valuation candidate = None ->
  0 <= Units (q_AmountOut (cd_BuyQuote candidate)) -> 0 <= Units (p_InitialInput plan) -> dynamicBuySlippage d plan = Ok (Some s) ->
  let E := Units (q_AmountOut (cd_BuyQuote candidate)) in let m := Units (sc_MinimumOutput s) in
  exists sellOutput required, convertAmount d (q_AmountOut (cd_SellQuote candidate)) (amount_token (p_InitialInput plan)) = Ok sellOutput /\
    requiredFinalUnits d plan (cost_Amount (cd_Cost candidate)) [] = Ok required /\ 0 <= required < Units sellOutput /\
    0 <= m <= E /\ (forall k, m <= k <-> required * E <= k * Units sellOutput) /\
    0 <= sc_BPS s <= ds_MaxBPS (sd_DynamicSlippage d) /\ 10000 * m <= E * (10000 - sc_BPS s).
Proof.
  intros Hmax Hc Hv HE0 Hin H E m. unfold dynamicBuySlippage in H. destruct (decide _) as [|_] in H; [done|]. rewrite Hc in H. cbn [mbind res_bind] in H.
  rewrite Hv in H. replace (if decide (IsPrefundedDualInventory plan) then None else None) with (@None ValuationSnapshot) in H by (by destruct (decide _)).
  destruct (decide _) as [|_] in H; [done|]. apply bind_Ok in H as (sold & Hsold & (required & Hreq & H)%bind_Ok).
  destruct (decide _) as [|Hbudget] in H; [done|].
  assert (forall v decimals, 0 <= ratUnitsCeil v decimals) as Hceil.
  { intros v decimals. unfold ratUnitsCeil. destruct (decide _); [done|]. apply quo_up_nonneg; [|done]. apply Qc_nonneg_iff.
    assert (0 < v)%Qc as Hv0 by (apply Qc_pos_iff; destruct (Z.sgn_spec (Num v)); lia).
    assert (0 < SetInt (decimalScale decimals))%Qc as Hs by (apply Qc_pos_iff; rewrite Num_SetInt; apply decimalScale_pos).
    rewrite <- (Qcmult_0_l (SetInt (decimalScale decimals))). apply Qcmult_le_compat_r; by apply Qclt_le_weak. }
  assert (0 <= required) as Hr0.
  { clear H Hbudget. unfold requiredFinalUnits in Hreq. destruct (sd_TokenDecimals d !! _) as [decimals|]; [|done].
    apply bind_Ok in Hreq as (base & Hbase & Hreq). cbn [foldM mbind res_bind] in Hreq. injection Hreq as <-.
    assert (0 <= base); [|pose proof (Hceil (minimumNetFor d (op_Direction (p_Opportunity plan))) decimals); lia].
    destruct (decide _); [by injection Hbase as <-|]. destruct (decide _); [done|]. injection Hbase as <-.
    pose proof (Hceil (Rat (cost_Amount (cd_Cost candidate))) decimals). lia. }
  unfold ceilMulDiv in H. rewrite decide_False in H by lia. cbn [mbind res_bind] in H. fold E in H.
  assert (forall k, quo_up (E * required) (Units sold) <= k <-> required * E <= k * Units sold) as Hle by (intros k; rewrite quo_up_le by nia; nia).
  pose proof (quo_up_nonneg (E * required) (Units sold) ltac:(nia) ltac:(lia)) as Hnn. set (low := quo_up _ _) in *.
  apply bind_Ok in H as (minimum & Hmin & (bps & Hbps & [= <-])%bind_Ok). cbn [sc_MinimumOutput sc_BPS] in *.
  apply NewTokenAmount_inv in Hmin as (_ & _ & Hunits). assert (m = low) as Hm by (unfold m, Units; by rewrite Hunits).
  assert (low <= E) as HlowE by (apply Hle; nia). exists sold, required. rewrite Hm. split_and!; try done; try lia.
  all: destruct (decide (0 < E)) as [HE|HE];
    [apply maximumSlippageBPS_greatest in Hbps; lia
    |unfold maximumSlippageBPS in Hbps; rewrite decide_True in Hbps by lia; injection Hbps as <-; lia].
Qed.

(** A buy that is expected to give 100 base tokens of 6 decimals at a mark price of 2,
    with a net result of 8, of which 6 may be consumed: 3 tokens. *)
Module SlippageWitness.
Definition quoted (token_in token_out : string) (units_in units_out : Z) : Quote :=
  mkQuote "source" "m" 1 "" (mkSourcePosition "" 0) "" "" "" "" (mkTokenAmount token_in (Some units_in)) (mkTokenAmount token_out (Some units_out)) 5 [].
Definition usd (v : Z) : AssetQuantity := mkAssetQuantity "usd" (Some (SetInt v)).
Definition candidate : Candidate := mkCandidate (usd 0) (usd 0) (usd 0) (usd 8) (mkCostSnapshot "cost" (usd 1) 1) (usd 8) (usd 0) (usd 0) (usd 0)
  (quoted "usdc" "base" (192 * 10 ^ 6) (100 * 10 ^ 6)) (quoted "base" "usdt" (100 * 10 ^ 6) (200 * 10 ^ 6))
  (Some (mkValuationSnapshot 1 "asset" "usd" (Some (SetInt 2)) 3 4)) None.
Definition opportunity : Opportunity := mkOpportunity "e" "run" "" "strategy" (mkDirection "m1" "m2") "" [] [candidate] 0 (usd 0) []
  (mkTriggerMetadata "m" "s" (mkSourcePosition "" 0) (mkSourceReference "" "") 0) false 0 0 0.
Definition plan : SequentialPlan := mkSequentialPlan "plan" PolicyPrefundedTriggerFirst opportunity (mkTokenAmount "usdc" (Some (192 * 10 ^ 6))) [] []
  (mkTokenAmount "usdc" None) "asset" "usd" ∅ 5.
Definition driver : SwapDriver := mkSwapDriver {["usdc" := 6%N; "base" := 6%N; "usdt" := 6%N]} "usd" "asset" (Some (SetInt 2)) ∅
  (mkDynamicSlippagePolicy true 0 0).

(** The cap of five hundred basis points is wider here: three per cent may be lost. *)
Lemma trigger_floor_witness : exists s m, dynamicTriggerFirstSlippage driver 9 plan (cd_BuyQuote candidate) = Ok (Some s) /\
  m = 97 * 10 ^ 6 /\ (forall k, 0 <= k -> trigger_floor driver 6 (SetInt 2) (SetInt 8) (100 * 10 ^ 6) k -> m <= k) /\ sc_BPS s = 300.
Proof.
  set (s := dynamicTriggerFirstSlippage driver 9 plan (cd_BuyQuote candidate)).
  assert (exists s', s = Ok (Some s') /\ sc_BPS s' = 300 /\ Units (sc_MinimumOutput s') = 97 * 10 ^ 6) as (s' & Hs & Hbps & Hm)
    by (vm_compute; eexists; repeat split).
  destruct (trigger_first_floor driver 9 plan (cd_BuyQuote candidate) s' ltac:(vm_compute; discriminate) eq_refl Hs)
    as (c & v & decimals & rate & Hc & Hv & Hd & Hr & _ & _ & _ & _ & Hleast & _).
  exists s', (97 * 10 ^ 6). split; [exact Hs|]. split; [reflexivity|]. split; [|exact Hbps]. rewrite <- Hm.
  injection Hc as <-. injection Hv as <-. vm_compute in Hd. injection Hd as <-. injection Hr as <-. exact Hleast.
Defined.
End SlippageWitness.
