(* ===== verification/SequentialPorts.v ===== *)
(** * The ports of dependent execution (src/ports/execution/sequential.go)

    What the executor and the recovery of dependent plans use of the world: a
    durable journal, one driver per kind of stage with its optional capabilities, an
    exit selector, a clock and an observer.  Their calls are stateful operations on an
    arbitrary world [W]; an optional interface is an optional field.  The journal a
    driver is handed is part of its world.  Of the typed errors only what
    [errors.As] finds in an error is used. *)
From Stdlib Require Import QArith Qcanon.
From S2P Require Import Prelude Amount Quote Registry Arbitrage Allocation Inventory Execution Sequential.
Local Open Scope Z_scope.

(** ** Typed errors *)

Definition DispositionRejected : string := "rejected".
Definition DispositionPossible : string := "possible".
Definition DispositionConfirmedFailure : string := "confirmed_failure".

Record StageError := mkStageError { sge_Disposition : string; sge_Costs : list CostComponent }.

Definition RecoveryFailureUncertain : string := "uncertain".
Definition RecoveryFailureTemporary : string := "temporary".
Definition RecoveryFailureStaleArtifact : string := "stale_artifact".
Definition RecoveryFailureBalanceMismatch : string := "balance_mismatch".
Definition RecoveryFailureAllowance : string := "allowance".
Definition RecoveryFailureSigner : string := "signer".
Definition RecoveryFailureConfiguration : string := "configuration".
Definition RecoveryFailureFeeCap : string := "fee_cap".
Definition RecoveryFailureInsufficientNative : string := "insufficient_native".

Record RecoveryError := mkRecoveryError { rve_Kind : string; rve_Chain : ChainID }.

(** [errors.As] for the typed errors: it finds a stage error that was wrapped. *)
Class TypedErrors := {
  NewStageError : string -> error -> error;
  As_StageError : error -> option StageError;
  As_RecoveryError : error -> option RecoveryError;
  As_SimulationInvariant : error -> option error;
  As_NewStageError : forall disposition e, As_StageError (NewStageError disposition e) = Some (mkStageError disposition []);
  As_Wrapf : forall format e, As_StageError (Wrapf format e) = As_StageError e }.

Section errors.
Context {typed : TypedErrors}.

Definition ErrorDisposition (e : error) : string :=
  match As_StageError e with Some stage => sge_Disposition stage | None => DispositionPossible end.

Definition IsDefinitiveFailure (e : error) : bool :=
  bool_decide (ErrorDisposition e = DispositionRejected \/ ErrorDisposition e = DispositionConfirmedFailure).

Definition ErrorCosts (e : error) : list CostComponent :=
  match As_StageError e with Some stage => sge_Costs stage | None => [] end.

(** [None] is the nil error. *)
Definition RecoveryKind (e : option error) : string :=
  match e with
  | None => ""
  | Some e =>
      match As_RecoveryError e with
      | Some recovery => rve_Kind recovery
      | None => if decide (ErrorDisposition e = DispositionPossible) then RecoveryFailureUncertain else RecoveryFailureTemporary
      end
  end.

Definition RecoveryChain (e : option error) : option ChainID :=
  match e with
  | None => None
  | Some e =>
      match As_RecoveryError e with
      | Some recovery => if decide (rve_Chain recovery = "") then None else Some (rve_Chain recovery)
      | None => None
      end
  end.
End errors.

(** ** Records *)

Record PreparedTransaction := mkPreparedTransaction {
  ptx_Operation : OperationID; ptx_Ordinal : Z; ptx_Phase : string; ptx_Identity : TransactionIdentity; ptx_PreparedAt : Time;
  ptx_SimulatedInput : TokenAmount; ptx_SimulatedOutput : TokenAmount; ptx_SimulationEvidence : string;
  ptx_SimulationContextVersion : Z; ptx_SimulationUnitsConsumed : Z }.

Definition PreparedTransaction_Validate (t : PreparedTransaction) : res unit :=
  if decide (ptx_Operation t = "" \/ ptx_Ordinal t < 1 \/ ptx_Phase t = "" \/ Time_IsZero (ptx_PreparedAt t))
  then Err (Errorf "prepared sequential transaction is incomplete") else
  if decide (~ (IsZero (ptx_SimulatedInput t) <-> IsZero (ptx_SimulatedOutput t)))
  then Err (Errorf "prepared transaction simulation evidence is incomplete") else
  if decide (~ IsZero (ptx_SimulatedInput t) /\ ptx_SimulationEvidence t = "")
  then Err (Errorf "prepared transaction simulation evidence is incomplete") else
  TransactionIdentity_Validate (ptx_Identity t).

Definition TriggerFirstDecisionEconomic75_25 : string := "economic_75_25".
Definition TriggerFirstDecisionForcedFixed : string := "forced_canary_fixed".

Record TriggerFirstDecision := mkTriggerFirstDecision {
  tfd_Operation : OperationID; tfd_Ordinal : Z; tfd_Kind : string; tfd_ExpectedNet : string; tfd_ReservedHeadroom : string;
  tfd_ConsumableBudget : string; tfd_MinimumOutputToken : TokenID; tfd_MinimumOutputUnits : string; tfd_EquivalentBPS : Z;
  tfd_AllocationHash : string; tfd_DecidedAt : Time }.

Definition TriggerFirstDecision_Validate (d : TriggerFirstDecision) : res unit :=
  let kind := if decide (tfd_Kind d = "") then TriggerFirstDecisionEconomic75_25 else tfd_Kind d in
  if decide (tfd_Operation d = "" \/ tfd_Ordinal d < 1 \/ tfd_MinimumOutputToken d = "" \/ tfd_MinimumOutputUnits d = "" \/
             10000 < tfd_EquivalentBPS d \/ tfd_AllocationHash d = "" \/ Time_IsZero (tfd_DecidedAt d))
  then Err (Errorf "trigger-first decision evidence is incomplete") else
  if decide (kind = TriggerFirstDecisionEconomic75_25) then
    if decide (tfd_ExpectedNet d = "" \/ tfd_ReservedHeadroom d = "" \/ tfd_ConsumableBudget d = "")
    then Err (Errorf "trigger-first decision evidence is incomplete") else Ok tt
  else if decide (kind = TriggerFirstDecisionForcedFixed) then
    if decide (tfd_ReservedHeadroom d <> "" \/ tfd_ConsumableBudget d <> "")
    then Err (Errorf "forced canary decision must not claim an economic slippage budget") else Ok tt
  else Err (Errorf "trigger-first decision kind %q is unsupported").

(** *** Operations (src/domain/execution/sequential.go) and their results *)

Definition SequentialRunning : string := "running".
Definition SequentialRecovering : string := "recovering".
Definition SequentialRecoveryBlocked : string := "recovery_blocked".
Definition SequentialCompleted : string := "completed".
Definition SequentialAborted : string := "aborted".
Definition SequentialManualIntervention : string := "manual_intervention_required".
Definition SequentialReconciledManually : string := "reconciled_manually".

Record SequentialOperation := mkSequentialOperation {
  so_ID : OperationID; so_Plan : PlanID; so_OpportunityID : string; so_ConfigHash : string; so_State : string; so_CurrentStage : Z;
  so_CurrentAmount : TokenAmount; so_StartedAt : Time; so_UpdatedAt : Time; so_LastError : string }.

Record SequentialResult := mkSequentialResult {
  sq_Operation : OperationID; sq_FinalAmount : TokenAmount; sq_ExitDecision : option SequentialExitDecision;
  sq_Settlements : list SequentialStageSettlement; sq_Costs : list CostComponent; sq_ExecutionCost : AssetQuantity;
  sq_ExternalCost : AssetQuantity; sq_RealizedGross : AssetQuantity; sq_RealizedNetPnL : AssetQuantity; sq_QuoteDelta : AssetQuantity;
  sq_BaseDelta : AssetQuantity; sq_MarkedBase : AssetQuantity; sq_MarkPrice : option Qc; sq_TerminalState : string;
  sq_TerminalError : string }.

Record SequentialTransactionRecord := mkTransactionRecord {
  tr_Operation : OperationID; tr_Ordinal : Z; tr_Phase : string; tr_Identity : TransactionIdentity; tr_Status : string;
  tr_LastError : string; tr_PreparedAt : Time; tr_UpdatedAt : Time; tr_FirstUncertainAt : Time; tr_RecoveryReason : string;
  tr_RecoveryAttempts : Z; tr_NextRecoveryAttempt : Time; tr_SimulatedInput : TokenAmount; tr_SimulatedOutput : TokenAmount;
  tr_SimulationEvidence : string; tr_SimulationVersion : Z; tr_SimulationUnits : Z }.

Record SequentialRecoverySnapshot := mkRecoverySnapshot {
  rs_Operation : SequentialOperation; rs_Plan : SequentialPlan; rs_Transactions : list SequentialTransactionRecord;
  rs_Settlements : list SequentialStageSettlement; rs_Costs : list CostComponent; rs_ExitDecision : option SequentialExitDecision }.

Record SequentialRecoveryAttempt := mkRecoveryAttempt {
  ra_Operation : OperationID; ra_Ordinal : Z; ra_Action : string; ra_Reason : string; ra_Detail : string; ra_Attempt : Z;
  ra_CreatedAt : Time; ra_RetryAt : Time }.

(** ** Ports *)

Section ports.
Context {W : Type}.

Record SequentialRecoveryJournal := mkRecoveryJournal {
  CreateRecoverableSequentialOperation : SequentialOperation -> SequentialPlan -> ST W unit;
  LoadSequentialRecovery : OperationID -> ST W SequentialRecoverySnapshot;
  SetSequentialRecoveryState : OperationID -> string -> option error -> ST W unit;
  RecordSequentialRecoveryAttempt : SequentialRecoveryAttempt -> ST W unit }.

(** The journal with the optional interfaces it may implement. *)
Record SequentialJournal := mkJournal {
  CreateSequentialOperation : SequentialOperation -> ST W unit;
  RecordStageSettlement : SequentialStageSettlement -> ST W unit;
  FinishSequentialOperation : OperationID -> string -> option error -> ST W unit;
  ActiveSequentialOperation : ST W (option SequentialOperation);
  RecoveryJournal : option SequentialRecoveryJournal;
  RecordSequentialResult : option (SequentialResult -> ST W unit);
  RecordSequentialExitDecision : option (SequentialExitDecision -> ST W unit);
  RecordStageFailureCosts : option (OperationID -> Z -> list CostComponent -> ST W unit) }.

Record SequentialPreflight := mkPreflight {
  Preflight : OperationID -> SequentialPlan -> ST W unit; DiscardPreflight : OperationID -> W -> W }.

(** Swaps may have settled some stages although they failed. *)
Abbreviation swaps := (OperationID -> SequentialPlan -> ST W (list SequentialStageSettlement * option error)).

Record SequentialStageDriver := mkDriver {
  ExecuteStage : SequentialStageRequest -> ST W SequentialStageSettlement;
  RecoverStage : option (SequentialStageRequest -> list SequentialTransactionRecord -> ST W SequentialStageSettlement);
  ConvertStageInput : option (SequentialStagePlan -> TokenAmount -> res TokenAmount);
  driver_Preflight : option SequentialPreflight;
  ExecuteParallelSwaps : option swaps;
  TriggeredSwaps : option ((SequentialPlan -> bool) * swaps);
  RecoverParallelBuy : option (OperationID -> SequentialPlan -> list SequentialTransactionRecord -> ST W SequentialStageSettlement) }.

Abbreviation selection :=
  (OperationID -> SequentialPlan -> TokenAmount -> list CostComponent -> ST W SequentialExitDecision) (only parsing).

Record SequentialPrefundedExitSelector := mkPrefundedSelector {
  SelectPrefundedExit : selection;
  SelectPrefundedRecoveryExit :
    OperationID -> SequentialPlan -> TokenAmount -> list CostComponent -> error -> ST W SequentialExitDecision }.

Record SequentialExitSelector := mkExitSelector {
  SelectExit : selection; SelectRecoveryExit : option selection; PrefundedExitSelector : option SequentialPrefundedExitSelector }.

Record DriverSet := mkDriverSet {
  ds_Buy : option SequentialStageDriver; ds_BridgeBase : option SequentialStageDriver; ds_Sell : option SequentialStageDriver;
  ds_BridgeQuoteReturn : option SequentialStageDriver; ds_ExitSelector : option SequentialExitSelector }.

Definition Driver (d : DriverSet) (stage : SequentialStage) : res SequentialStageDriver :=
  let driver :=
    if decide (stage = StageBuy) then ds_Buy d else
    if decide (stage = StageBridgeBase) then ds_BridgeBase d else
    if decide (stage = StageSell) then ds_Sell d else
    if decide (stage = StageBridgeQuoteReturn) then ds_BridgeQuoteReturn d else None in
  match driver with Some driver => Ok driver | None => Err (Errorf "driver for stage %q is unavailable") end.

Record SequentialAsyncQuoteRestorer := mkAsyncQuote {
  async_Start : SequentialStageRequest -> SequentialStageDriver -> ST W unit;
  async_BeginBase : OperationID -> ST W unit;
  async_CompleteBase : OperationID -> option error -> ST W unit }.

(** What an observer is told; a panic of an observer is recovered. *)
Inductive ObserverEvent :=
| OperationStarted (operation : SequentialOperation) (plan : SequentialPlan)
| StageStarted (request : SequentialStageRequest)
| StageSettled (settlement : SequentialStageSettlement)
| OperationFinished (operation : SequentialOperation) (state : string) (result : SequentialResult) (cause : option error)
| ExitSelected (decision : SequentialExitDecision).

Record Ports := mkPorts {
  journal : SequentialJournal; drivers : DriverSet; clock : W -> Time; observer : ObserverEvent -> W -> W;
  asyncQuote : option SequentialAsyncQuoteRestorer }.
End ports.

Arguments SequentialRecoveryJournal : clear implicits. Arguments SequentialJournal : clear implicits.
Arguments SequentialPreflight : clear implicits. Arguments SequentialStageDriver : clear implicits.
Arguments SequentialPrefundedExitSelector : clear implicits. Arguments SequentialExitSelector : clear implicits.
Arguments DriverSet : clear implicits. Arguments SequentialAsyncQuoteRestorer : clear implicits. Arguments Ports : clear implicits.
