(* ===== verification/SequentialEconomics.v ===== *)
(** * Realized economics of dependent operations
    (calculateSequentialEconomics in src/core/saga/sequential_executor.go,
    calculateParallelEconomics in src/core/saga/sequential_parallel.go)

    What an operation earned, from its settlements and costs.  A transported
    operation ends in the token it started with and is valued at the discovery's
    price of it; a prefunded one is the quote difference plus the base difference at
    the mean of the two execution prices.  Theorems: both are exact rational
    arithmetic, costs included in an output are not charged twice, and the parallel
    computation never divides by zero on validated settlements. *)
From Stdlib Require Import QArith Qcanon.
From S2P Require Import Prelude Amount Quote Registry Arbitrage Allocation Inventory Execution Sequential SequentialPorts.
Local Open Scope Z_scope.

Definition set_economics (r : SequentialResult) (total external gross net : AssetQuantity) : SequentialResult :=
  mkSequentialResult (sq_Operation r) (sq_FinalAmount r) (sq_ExitDecision r) (sq_Settlements r) (sq_Costs r) total external gross net
    (sq_QuoteDelta r) (sq_BaseDelta r) (sq_MarkedBase r) (sq_MarkPrice r) (sq_TerminalState r) (sq_TerminalError r).

Definition zero_of (asset : AssetID) : AssetQuantity := or_zero (NewAssetQuantity asset (Some (Q2Qc 0))).

(** ** Transported operations *)

Definition add_cost (asset : AssetID) (totals : AssetQuantity * AssetQuantity) (cost : CostComponent) : res (AssetQuantity * AssetQuantity) :=
  let '(total, external) := totals in
  if decide (quantity_asset (cc_QuoteValue cost) <> asset) then Err (Errorf "sequential cost %d is not valued in %s") else
  total ← AssetQuantity_Add total (cc_QuoteValue cost);
  external ← (if cc_IncludedInOutput cost then Ok external else AssetQuantity_Add external (cc_QuoteValue cost));
  Ok (total, external).

(** Plans whose discovery has no economic quantities are left as they are. *)
Definition calculateSequentialEconomics (plan : SequentialPlan) (result : SequentialResult) : res SequentialResult :=
  if decide (IsZero (sq_FinalAmount result)) then Err (Errorf "sequential realized economics input is incomplete") else
  match selected_candidate (p_Opportunity plan) with
  | None => Err (Errorf "sequential realized economics input is incomplete")
  | Some candidate =>
      let asset := quantity_asset (cd_Input candidate) in
      if decide (asset = "" \/ AssetQuantity_Sign (cd_Input candidate) <= 0 \/ IsZero (q_AmountIn (cd_BuyQuote candidate)))
      then Ok result else
      unitValue ← Rat_Quo (Rat (cd_Input candidate)) (SetInt (Units (q_AmountIn (cd_BuyQuote candidate))));
      initial ← NewAssetQuantity asset (Some (SetInt (Units (p_InitialInput plan)) * unitValue)%Qc);
      final ← NewAssetQuantity asset (Some (SetInt (Units (sq_FinalAmount result)) * unitValue)%Qc);
      '(total, external) ← foldM (add_cost asset) (zero_of asset, zero_of asset) (sq_Costs result);
      gross ← AssetQuantity_Sub final initial;
      net ← AssetQuantity_Sub gross external;
      Ok (set_economics result total external gross net)
  end.

(** ** Prefunded operations *)

Definition parallelHumanAmount (plan : SequentialPlan) (amount : TokenAmount) : res Qc :=
  match p_TokenDecimals plan !! amount_token amount with
  | None => Err (Errorf "parallel token decimals are unavailable for %s")
  | Some decimals => Ok (SetFrac (Units amount) (decimalFactor decimals))
  end.

Definition Stage_zero : SequentialStagePlan := mkStage 0 "" "" [] 0 "" "" "" "" "".
Definition Identity_zero : TransactionIdentity := mkTransactionIdentity "" "" "" None "" 0.
Definition Settlement_zero : SequentialStageSettlement :=
  mkStageSettlement (mkStageRequest "" "" Stage_zero TokenAmount_zero) TokenAmount_zero TokenAmount_zero [] Identity_zero None None None 0 "".

(** The last purchase, and the sales in order. *)
Definition classify_settlement (legs : SequentialStageSettlement * list SequentialStageSettlement) (settlement : SequentialStageSettlement) :
    SequentialStageSettlement * list SequentialStageSettlement :=
  let stage := sr_Stage (ss_Request settlement) in
  if decide (Ordinal stage = 1) then (settlement, legs.2) else
  if decide (Ordinal stage = 2 \/ (Stage stage = StageSell /\ Branch stage = BranchCircuitBreaker)) then (legs.1, legs.2 ++ [settlement])
  else legs.

Definition economic_legs (settlements : list SequentialStageSettlement) : SequentialStageSettlement * list SequentialStageSettlement :=
  foldl classify_settlement (Settlement_zero, []) settlements.

Definition add_sale (plan : SequentialPlan) (totals : Qc * Qc) (sale : SequentialStageSettlement) : res (Qc * Qc) :=
  saleQuote ← parallelHumanAmount plan (ss_ActualOutput sale);
  saleBase ← parallelHumanAmount plan (ss_ActualInput sale);
  Ok (totals.1 + saleQuote, totals.2 + saleBase)%Qc.

Definition add_parallel_cost (asset : AssetID) (totals : AssetQuantity * AssetQuantity) (cost : CostComponent) : res (AssetQuantity * AssetQuantity) :=
  let '(total, external) := totals in
  if decide (quantity_asset (cc_QuoteValue cost) <> asset) then Err (Errorf "parallel cost is not valued in %s") else
  Ok (or_zero (AssetQuantity_Add total (cc_QuoteValue cost)),
      if cc_IncludedInOutput cost then external else or_zero (AssetQuantity_Add external (cc_QuoteValue cost))).

Definition set_parallel (r : SequentialResult) (final : TokenAmount) (quoteDelta baseDelta marked : AssetQuantity) (mark : Qc)
    (total external gross net : AssetQuantity) : SequentialResult :=
  mkSequentialResult (sq_Operation r) final (sq_ExitDecision r) (sq_Settlements r) (sq_Costs r) total external gross net
    quoteDelta baseDelta marked (Some mark) (sq_TerminalState r) (sq_TerminalError r).

Definition calculateParallelEconomics (plan : SequentialPlan) (result : SequentialResult) : res SequentialResult :=
  if decide ((length (sq_Settlements result) < 2)%nat \/ p_BaseAsset plan = "" \/ p_QuoteAsset plan = "")
  then Err (Errorf "parallel realized economics input is incomplete") else
  let '(buy, sales) := economic_legs (sq_Settlements result) in
  match last sales with
  | None => Err (Errorf "parallel swap settlements are incomplete")
  | Some lastSale =>
      if decide (IsZero (ss_ActualOutput buy)) then Err (Errorf "parallel swap settlements are incomplete") else
      qIn ← parallelHumanAmount plan (ss_ActualInput buy);
      bBuy ← parallelHumanAmount plan (ss_ActualOutput buy);
      '(qOut, bSell) ← foldM (add_sale plan) (Q2Qc 0, Q2Qc 0) sales;
      buyPrice ← Rat_Quo qIn bBuy;
      sellPrice ← Rat_Quo qOut bSell;
      mark ← Rat_Quo (buyPrice + sellPrice)%Qc (SetInt 2);
      let quoteDelta := or_zero (NewAssetQuantity (p_QuoteAsset plan) (Some (qOut - qIn)%Qc)) in
      let baseDelta := or_zero (NewAssetQuantity (p_BaseAsset plan) (Some (bBuy - bSell)%Qc)) in
      let marked := or_zero (NewAssetQuantity (p_QuoteAsset plan) (Some ((bBuy - bSell) * mark)%Qc)) in
      let gross := or_zero (AssetQuantity_Add quoteDelta marked) in
      '(total, external) ← foldM (add_parallel_cost (p_QuoteAsset plan)) (zero_of (p_QuoteAsset plan), zero_of (p_QuoteAsset plan))
                             (sq_Costs result);
      let net := or_zero (AssetQuantity_Sub gross external) in
      Ok (set_parallel result (ss_ActualOutput lastSale) quoteDelta baseDelta marked mark total external gross net)
  end.

(** ** Sums of costs *)

Definition cost_total (costs : list CostComponent) : Qc := foldr (fun cost total => Rat (cc_QuoteValue cost) + total)%Qc (Q2Qc 0) costs.
Definition cost_external (costs : list CostComponent) : Qc :=
  foldr (fun cost total => (if cc_IncludedInOutput cost then Q2Qc 0 else Rat (cc_QuoteValue cost)) + total)%Qc (Q2Qc 0) costs.
Definition valued_in (asset : AssetID) (cost : CostComponent) : Prop := quantity_asset (cc_QuoteValue cost) = asset.
#[export] Instance valued_in_dec asset cost : Decision (valued_in asset cost).
Proof. unfold valued_in. apply _. Defined.

Abbreviation quantity_of asset v := (mkAssetQuantity asset (Some v)).

Lemma zero_of_Ok asset : asset <> "" -> zero_of asset = quantity_of asset (Q2Qc 0).
Proof. intros. unfold zero_of. by rewrite NewAssetQuantity_Ok. Qed.

Lemma Add_Ok asset v q : asset <> "" -> quantity_asset q = asset -> AssetQuantity_Add (quantity_of asset v) q = Ok (quantity_of asset (v + Rat q)%Qc).
Proof. intros Ha Hq. unfold AssetQuantity_Add. rewrite decide_False by (by rewrite Hq; intros []). by apply NewAssetQuantity_Ok. Qed.
Lemma Sub_Ok asset v w : asset <> "" -> AssetQuantity_Sub (quantity_of asset v) (quantity_of asset w) = Ok (quantity_of asset (v - w)%Qc).
Proof. intros Ha. unfold AssetQuantity_Sub. rewrite decide_False by (by intros []). by apply NewAssetQuantity_Ok. Qed.

(** Both loops over the costs. *)
Section cost_loop.
Context (asset : AssetID) (step : AssetQuantity * AssetQuantity -> CostComponent -> res (AssetQuantity * AssetQuantity)).
Hypothesis (Hasset : asset <> "") (step_Ok : forall t x cost, valued_in asset cost ->
    step (quantity_of asset t, quantity_of asset x) cost =
    Ok (quantity_of asset (t + Rat (cc_QuoteValue cost))%Qc,
        quantity_of asset (x + if cc_IncludedInOutput cost then Q2Qc 0 else Rat (cc_QuoteValue cost))%Qc))
  (step_Err : forall totals cost, ~ valued_in asset cost -> exists e, step totals cost = Err e).

Lemma cost_loop_Ok costs : forall t x, Forall (valued_in asset) costs ->
  foldM step (quantity_of asset t, quantity_of asset x) costs =
  Ok (quantity_of asset (t + cost_total costs)%Qc, quantity_of asset (x + cost_external costs)%Qc).
Proof using step_Ok.
  induction costs as [|cost costs IH]; intros t x Hc; cbn; [by rewrite !Qcplus_0_r|].
  apply Forall_cons in Hc as [H1 H2]. rewrite step_Ok by done. cbn. rewrite IH by done. by rewrite !Qcplus_assoc.
Qed.

Lemma cost_loop_Err costs : forall t x, ~ Forall (valued_in asset) costs -> exists e, foldM step (quantity_of asset t, quantity_of asset x) costs = Err e.
Proof using step_Ok step_Err.
  induction costs as [|cost costs IH]; intros t x Hc; [by destruct Hc; constructor|]. cbn. destruct (decide (valued_in asset cost)) as [H1|H1].
  - rewrite step_Ok by done. cbn. apply IH. intros H2. apply Hc. by constructor.
  - destruct (step_Err (quantity_of asset t, quantity_of asset x) cost H1) as [e ->]. by exists e.
Qed.
End cost_loop.

Lemma add_cost_Ok asset t x cost : asset <> "" -> valued_in asset cost ->
  add_cost asset (quantity_of asset t, quantity_of asset x) cost =
  Ok (quantity_of asset (t + Rat (cc_QuoteValue cost))%Qc,
      quantity_of asset (x + if cc_IncludedInOutput cost then Q2Qc 0 else Rat (cc_QuoteValue cost))%Qc).
Proof.
  intros Ha Hc. unfold add_cost. rewrite decide_False by (intros Hn; by apply Hn). destruct (cc_IncludedInOutput cost); rewrite !Add_Ok by done; cbn [mbind res_bind]; [by rewrite Qcplus_0_r|done].
Qed.
Lemma add_cost_Err asset totals cost : ~ valued_in asset cost -> exists e, add_cost asset totals cost = Err e.
Proof. intros Hc. unfold add_cost. destruct totals. rewrite decide_True by done. by eexists. Qed.

Lemma add_parallel_cost_Ok asset t x cost : asset <> "" -> valued_in asset cost ->
  add_parallel_cost asset (quantity_of asset t, quantity_of asset x) cost =
  Ok (quantity_of asset (t + Rat (cc_QuoteValue cost))%Qc,
      quantity_of asset (x + if cc_IncludedInOutput cost then Q2Qc 0 else Rat (cc_QuoteValue cost))%Qc).
Proof.
  intros Ha Hc. unfold add_parallel_cost. rewrite decide_False by (intros Hn; by apply Hn). rewrite !Add_Ok by done.
  destruct (cc_IncludedInOutput cost); [by rewrite Qcplus_0_r|done].
Qed.
Lemma add_parallel_cost_Err asset totals cost : ~ valued_in asset cost -> exists e, add_parallel_cost asset totals cost = Err e.
Proof. intros Hc. unfold add_parallel_cost. destruct totals. rewrite decide_True by done. by eexists. Qed.

(** ** Transported operations *)

Section transported.
Context (plan : SequentialPlan) (candidate : Candidate).
Hypothesis (Hselected : selected_candidate (p_Opportunity plan) = Some candidate) (Hasset : quantity_asset (cd_Input candidate) <> "")
  (Hinput : 0 < AssetQuantity_Sign (cd_Input candidate)) (Hamount : 0 < Units (q_AmountIn (cd_BuyQuote candidate))).

(** The discovery's price of one unit of the initial token. *)
Definition unit_price : Qc := (Rat (cd_Input candidate) / SetInt (Units (q_AmountIn (cd_BuyQuote candidate))))%Qc.
Definition realized_gross (result : SequentialResult) : Qc :=
  (SetInt (Units (sq_FinalAmount result)) * unit_price - SetInt (Units (p_InitialInput plan)) * unit_price)%Qc.

Lemma transported_economics result :
  calculateSequentialEconomics plan result =
  if decide (IsZero (sq_FinalAmount result)) then Err (Errorf "sequential realized economics input is incomplete") else
  '(total, external) ← foldM (add_cost (quantity_asset (cd_Input candidate)))
     (quantity_of (quantity_asset (cd_Input candidate)) (Q2Qc 0), quantity_of (quantity_asset (cd_Input candidate)) (Q2Qc 0)) (sq_Costs result);
  gross ← Ok (quantity_of (quantity_asset (cd_Input candidate)) (realized_gross result));
  net ← AssetQuantity_Sub gross external;
  Ok (set_economics result total external gross net).
Proof using All.
  unfold calculateSequentialEconomics. destruct (decide _); [done|]. rewrite Hselected. cbv zeta. rewrite decide_False by (rewrite IsZero_iff; intros [?|[?|?]]; [done|lia|lia]).
  unfold Rat_Quo. rewrite decide_False by by apply SetInt_nonzero.
  cbn [mbind res_bind]. rewrite !NewAssetQuantity_Ok by done. cbn [mbind res_bind]. rewrite zero_of_Ok by done.
  destruct (foldM _ _ _) as [[total external]| |]; [|done..]. cbn [mbind res_bind]. by rewrite Sub_Ok.
Qed.

(** The economics of a transported operation that ended in some amount succeed
    exactly when every cost is valued in the asset of the discovery's input, and
    then they are exact: gross is the difference of the final and the initial amount
    at the discovery's price of a unit, the costs are summed, and the net result
    charges those only that the outputs do not already include.  Nothing else of the
    result changes. *)
Theorem calculateSequentialEconomics_exact (result result' : SequentialResult) :
  ~ IsZero (sq_FinalAmount result) ->
  let value v := quantity_of (quantity_asset (cd_Input candidate)) v in
  (calculateSequentialEconomics plan result = Ok result' <->
   Forall (valued_in (quantity_asset (cd_Input candidate))) (sq_Costs result) /\
   result' = set_economics result (value (cost_total (sq_Costs result))) (value (cost_external (sq_Costs result)))
     (value (realized_gross result)) (value (realized_gross result - cost_external (sq_Costs result))%Qc)).
Proof using All.
  intros Hfinal value. rewrite transported_economics, decide_False by done.
  destruct (decide (Forall (valued_in (quantity_asset (cd_Input candidate))) (sq_Costs result))) as [Hc|Hc].
  - rewrite (cost_loop_Ok _ _ (fun t x cost => add_cost_Ok _ t x cost Hasset) _ _ _ Hc). cbn [mbind res_bind].
    rewrite Sub_Ok by done. cbn [mbind res_bind]. rewrite !Qcplus_0_l. split; [by intros [= <-]|by intros [_ ->]].
  - destruct (cost_loop_Err _ (add_cost (quantity_asset (cd_Input candidate))) (fun t x cost => add_cost_Ok _ t x cost Hasset)
      (fun totals cost => add_cost_Err _ totals cost) _ (Q2Qc 0) (Q2Qc 0) Hc) as [e ->].
    split; [done|by intros [? _]].
Qed.
End transported.

(** ** Prefunded operations *)

Section prefunded.
Context (plan : SequentialPlan).

Definition priced (a : TokenAmount) : Prop := is_Some (p_TokenDecimals plan !! amount_token a).
Definition human (a : TokenAmount) : Qc := SetFrac (Units a) (decimalFactor (default 0%N (p_TokenDecimals plan !! amount_token a))).
Definition sold_quote (sales : list SequentialStageSettlement) : Qc := foldr (fun s total => human (ss_ActualOutput s) + total)%Qc (Q2Qc 0) sales.
Definition sold_base (sales : list SequentialStageSettlement) : Qc := foldr (fun s total => human (ss_ActualInput s) + total)%Qc (Q2Qc 0) sales.

(** A swap that moved something, in tokens whose decimals the plan knows. *)
Definition swapped (s : SequentialStageSettlement) : Prop :=
  priced (ss_ActualInput s) /\ priced (ss_ActualOutput s) /\ 0 < Units (ss_ActualInput s) /\ 0 < Units (ss_ActualOutput s).

Lemma parallelHumanAmount_Ok a : priced a -> parallelHumanAmount plan a = Ok (human a).
Proof. unfold parallelHumanAmount, human. by intros [d ->]. Qed.

Lemma or_zero_Ok q : or_zero (Ok q) = q.
Proof. done. Qed.
Lemma Rat_Quo_Ok x y : y <> Q2Qc 0 -> Rat_Quo x y = Ok (x / y)%Qc.
Proof. intros. unfold Rat_Quo. by rewrite decide_False. Qed.

Lemma SetFrac_pos a d : 0 < a -> 0 < d -> (0 < SetFrac a d)%Qc.
Proof.
  intros Ha Hd. pose proof (Num_SetFrac_nonneg a d ltac:(lia) Hd) as Hn%Qc_nonneg_iff. apply Qcle_lt_or_eq in Hn as [Hn|Hz]; [done|].
  pose proof (SetFrac_mul a d Hd) as Hm. rewrite <- Hz, Qcmult_0_l in Hm. by destruct (SetInt_nonzero a Ha).
Qed.
Lemma human_pos a : 0 < Units a -> (0 < human a)%Qc.
Proof. intros. apply SetFrac_pos; [done|apply decimalFactor_pos]. Qed.

Lemma add_sale_Ok q b s : priced (ss_ActualInput s) -> priced (ss_ActualOutput s) ->
  add_sale plan (q, b) s = Ok (q + human (ss_ActualOutput s), b + human (ss_ActualInput s))%Qc.
Proof. intros Hi Ho. unfold add_sale. by rewrite !parallelHumanAmount_Ok. Qed.

Lemma sales_loop sales : forall q b, Forall swapped sales ->
  foldM (add_sale plan) (q, b) sales = Ok (q + sold_quote sales, b + sold_base sales)%Qc.
Proof.
  induction sales as [|s sales IH]; intros q b Hs; cbn [foldM sold_quote sold_base foldr]; [by rewrite !Qcplus_0_r|].
  apply Forall_cons in Hs as [(Hi & Ho & _) Hs]. rewrite add_sale_Ok by done. cbn [mbind res_bind].
  rewrite IH by done. by rewrite !Qcplus_assoc.
Qed.

Lemma sold_base_pos s sales : Forall swapped (s :: sales) -> (0 < sold_base (s :: sales))%Qc.
Proof.
  revert s. induction sales as [|s' sales IH]; intros s [(_ & _ & Hs & _) Hr]%Forall_cons; cbn [sold_base foldr].
  - rewrite Qcplus_0_r. by apply human_pos.
  - pose proof (IH s' Hr) as Hp. pose proof (human_pos _ Hs) as Hh. apply Qclt_trans with (human (ss_ActualInput s)); [done|].
    rewrite <- (Qcplus_0_r (human (ss_ActualInput s))) at 1. by apply Qcplus_lt_mono_l.
Qed.

Context (result : SequentialResult) (buy : SequentialStageSettlement) (sales : list SequentialStageSettlement).
Hypothesis (Hbase : p_BaseAsset plan <> "") (Hquote : p_QuoteAsset plan <> "") (Hlength : (2 <= length (sq_Settlements result))%nat)
  (Hlegs : economic_legs (sq_Settlements result) = (buy, sales)) (Hbuy : swapped buy) (Hsales : Forall swapped sales).

Definition quote_delta : Qc := (sold_quote sales - human (ss_ActualInput buy))%Qc.
Definition base_delta : Qc := (human (ss_ActualOutput buy) - sold_base sales)%Qc.
(** The mean of the two execution prices. *)
Definition mark_price : Qc :=
  ((human (ss_ActualInput buy) / human (ss_ActualOutput buy) + sold_quote sales / sold_base sales) / SetInt 2)%Qc.
Definition parallel_gross : Qc := (quote_delta + base_delta * mark_price)%Qc.

(** C18.The economics of a prefunded operation whose purchase and sales moved something
    succeed exactly when a sale has settled and every cost is valued in the quote
    asset; no division fails.  They are exact: what the sales returned less what the
    purchase cost, plus the base that is left or missing at the mean of the two
    execution prices, less the costs the outputs do not already include. *)
Theorem calculateParallelEconomics_exact (result' : SequentialResult) :
  let quote v := quantity_of (p_QuoteAsset plan) v in
  no_panic (calculateParallelEconomics plan result) /\
  (calculateParallelEconomics plan result = Ok result' <->
   Forall (valued_in (p_QuoteAsset plan)) (sq_Costs result) /\
   exists lastSale, last sales = Some lastSale /\
   result' = set_parallel result (ss_ActualOutput lastSale) (quote quote_delta) (quantity_of (p_BaseAsset plan) base_delta)
     (quote (base_delta * mark_price)%Qc) mark_price (quote (cost_total (sq_Costs result))) (quote (cost_external (sq_Costs result)))
     (quote parallel_gross) (quote (parallel_gross - cost_external (sq_Costs result))%Qc)).
Proof using Hbase Hquote Hlength Hlegs Hbuy Hsales.
  intros quote. unfold calculateParallelEconomics. rewrite decide_False by (intros [?|[?|?]]; [lia|done..]). rewrite Hlegs.
  destruct (last sales) as [lastSale|] eqn:Hlast; [|by split; [apply no_panic_Err|split; [done|intros (_ & ? & ? & _)]]].
  destruct Hbuy as (Hi & Ho & Hin & Hout). rewrite decide_False by (rewrite IsZero_iff; lia). rewrite !parallelHumanAmount_Ok by done.
  cbn [mbind res_bind]. rewrite sales_loop by done. cbn [mbind res_bind]. rewrite !Qcplus_0_l.
  assert (sold_base sales <> Q2Qc 0) as Hsold.
  { intros Hz. destruct sales as [|s rest]; [done|]. exact (Qclt_not_eq _ _ (sold_base_pos _ _ Hsales) (eq_sym Hz)). }
  rewrite (Rat_Quo_Ok _ _ (not_eq_sym (Qclt_not_eq _ _ (human_pos _ Hout)))). cbn [mbind res_bind].
  rewrite (Rat_Quo_Ok _ _ Hsold). cbn [mbind res_bind]. rewrite (Rat_Quo_Ok _ _ (SetInt_nonzero 2 ltac:(lia))). cbn [mbind res_bind].
  rewrite !NewAssetQuantity_Ok by done. rewrite !or_zero_Ok, !Add_Ok by done. rewrite !or_zero_Ok. cbn [Rat quantity_value].
  rewrite zero_of_Ok by done. destruct (decide (Forall (valued_in (p_QuoteAsset plan)) (sq_Costs result))) as [Hc|Hc].
  - rewrite (cost_loop_Ok _ _ (fun t x cost => add_parallel_cost_Ok _ t x cost Hquote) _ _ _ Hc). cbn [mbind res_bind].
    rewrite Sub_Ok, or_zero_Ok by done. rewrite !Qcplus_0_l. split; [apply no_panic_Ok|].
    split; [intros [= <-]; split; [done|by exists lastSale]|]. by intros (_ & l & [= <-] & ->).
  - destruct (cost_loop_Err _ (add_parallel_cost (p_QuoteAsset plan)) (fun t x cost => add_parallel_cost_Ok _ t x cost Hquote)
      (fun totals cost => add_parallel_cost_Err _ totals cost) _ (Q2Qc 0) (Q2Qc 0) Hc) as [e ->].
    split; [apply no_panic_Err|]. split; [done|by intros (? & _)].
Qed.
End prefunded.

(** ** What the computations leave as it is *)

Lemma economics_settlements plan result result' :
  calculateSequentialEconomics plan result = Ok result' -> sq_Settlements result' = sq_Settlements result.
Proof.
  unfold calculateSequentialEconomics. intros H. destruct (decide _) in H; [done|]. destruct (selected_candidate _); [|done]. cbv zeta in H.
  destruct (decide _) in H; [by injection H as <-|]. apply bind_Ok in H as (unit & _ & H). apply bind_Ok in H as (initial & _ & H).
  apply bind_Ok in H as (final & _ & H). apply bind_Ok in H as ([total external] & _ & H). apply bind_Ok in H as (gross & _ & H).
  apply bind_Ok in H as (net & _ & [= <-]). done.
Qed.

Lemma parallel_settlements plan result result' :
  calculateParallelEconomics plan result = Ok result' -> sq_Settlements result' = sq_Settlements result.
Proof.
  unfold calculateParallelEconomics. intros H. destruct (decide _) in H; [done|]. destruct (economic_legs _) as [buy sales].
  destruct (last sales); [|done]. destruct (decide _) in H; [done|]. apply bind_Ok in H as (qIn & _ & H). apply bind_Ok in H as (bBuy & _ & H).
  apply bind_Ok in H as ([qOut bSell] & _ & H). apply bind_Ok in H as (p1 & _ & H). apply bind_Ok in H as (p2 & _ & H).
  apply bind_Ok in H as (mark & _ & H). cbv zeta in H. apply bind_Ok in H as ([total external] & _ & [= <-]). done.
Qed.

Module SequentialEconomicsWitness.
Import SequentialWitness.
Definition blank_result (final : TokenAmount) (settlements : list SequentialStageSettlement) (costs : list CostComponent) : SequentialResult :=
  mkSequentialResult "op" final None settlements costs AssetQuantity_zero AssetQuantity_zero AssetQuantity_zero AssetQuantity_zero
    AssetQuantity_zero AssetQuantity_zero AssetQuantity_zero None "" "".
(** A fee that is charged and one that the output already includes. *)
Definition fees : list CostComponent :=
  [mkCostComponent "gas" "base" (money 2) (money 2) false "receipt"; mkCostComponent "lp" "base" (money 5) (money 5) true "pool"].

(** 500 went in and 560 came out, at the discovery's price of 1/1000. *)
Lemma sequential_witness : exists result',
  calculateSequentialEconomics transported (blank_result (amount "usdc" 560) [] fees) = Ok result' /\
  Rat (sq_RealizedGross result') = SetFrac 60 1000 /\ Rat (sq_ExternalCost result') = SetInt 2 /\ Rat (sq_ExecutionCost result') = SetInt 7.
Proof.
  eexists. split.
  - apply (calculateSequentialEconomics_exact transported candidate eq_refl ltac:(discriminate) eq_refl eq_refl).
    + vm_compute. discriminate.
    + split; [repeat constructor|reflexivity].
  - split_and!; apply Qc_is_canon; vm_compute; reflexivity.
Defined.

Definition plan : SequentialPlan := with_valuation dual "ETH" "USD" {[ "usdc" := 0%N; "eth" := 0%N; "eth2" := 0%N; "usdt" := 0%N ]}.
Definition leg (n : nat) (input output : Z) : SequentialStageSettlement :=
  let stage := default Stage_zero (p_Stages plan !! n) in
  mkStageSettlement (mkStageRequest "op" "p" stage (amount (InputToken stage) input)) (amount (InputToken stage) input)
    (amount (OutputToken stage) output) [] Identity_zero None None None 9 "seen".

(** 500 bought 50, 40 were sold for 440: 10 are left, at a mark of 10.5. *)
Lemma parallel_witness : exists result',
  calculateParallelEconomics plan (blank_result TokenAmount_zero [leg 0 500 50; leg 1 40 440] fees) = Ok result' /\
  Rat (sq_BaseDelta result') = SetInt 10 /\ Rat (sq_RealizedNetPnL result') = SetInt 43.
Proof.
  eexists. split.
  - apply (calculateParallelEconomics_exact plan (blank_result TokenAmount_zero [leg 0 500 50; leg 1 40 440] fees) (leg 0 500 50) [leg 1 40 440]).
    + discriminate.
    + discriminate.
    + vm_compute. auto.
    + vm_compute. reflexivity.
    + split_and!; [vm_compute; eexists; reflexivity|vm_compute; eexists; reflexivity|reflexivity|reflexivity].
    + constructor; [|constructor]. split_and!; [vm_compute; eexists; reflexivity|vm_compute; eexists; reflexivity|reflexivity|reflexivity].
    + split; [repeat constructor|]. eexists. split; reflexivity.
  - split; apply Qc_is_canon; vm_compute; reflexivity.
Defined.
End SequentialEconomicsWitness.
