(* ===== verification/SequentialExecutor.v ===== *)
(** * The executor of dependent plans
    (src/core/saga/sequential_executor.go, src/core/saga/sequential_parallel.go)

    One operation at a time: preflight, durable creation, the stages of a transported
    or prefunded plan one after the other with the exit decisions and the single
    automatic recovery of a sale, or the two swaps and the two bridges of a dual
    inventory plan.  The world is that of the ports; the executor's own state is
    whether an operation is running.

    A body returns a result together with an error, and several of its parts may
    return early: these are calls whose value is [inl] what to go on with or [inr] the
    pair returned.  A loop iteration is a function of the loop variables; the loop
    takes its bound as fuel, which [SequentialRuns] shows to be enough.  Each driver
    call is one step; [first] says which of two concurrent bridges runs first. *)
From S2P Require Import Prelude Amount Quote Registry Arbitrage Allocation Inventory Execution Sequential SequentialPorts SequentialEconomics.
Local Open Scope Z_scope.

Section executor.
Context {W : Type} {typed : TypedErrors} (error_text : error -> string) (ports : Ports W).

Abbreviation outcome := (SequentialResult * option error)%type.

(** ** Results and events *)

Definition result_zero : SequentialResult :=
  mkSequentialResult "" TokenAmount_zero None [] [] AssetQuantity_zero AssetQuantity_zero AssetQuantity_zero AssetQuantity_zero
    AssetQuantity_zero AssetQuantity_zero AssetQuantity_zero None "" "".

Definition with_exit (r : SequentialResult) (exit : option SequentialExitDecision) : SequentialResult :=
  mkSequentialResult (sq_Operation r) (sq_FinalAmount r) exit (sq_Settlements r) (sq_Costs r) (sq_ExecutionCost r) (sq_ExternalCost r)
    (sq_RealizedGross r) (sq_RealizedNetPnL r) (sq_QuoteDelta r) (sq_BaseDelta r) (sq_MarkedBase r) (sq_MarkPrice r)
    (sq_TerminalState r) (sq_TerminalError r).
Definition with_progress (r : SequentialResult) (settlements : list SequentialStageSettlement) (costs : list CostComponent) : SequentialResult :=
  mkSequentialResult (sq_Operation r) (sq_FinalAmount r) (sq_ExitDecision r) settlements costs (sq_ExecutionCost r) (sq_ExternalCost r)
    (sq_RealizedGross r) (sq_RealizedNetPnL r) (sq_QuoteDelta r) (sq_BaseDelta r) (sq_MarkedBase r) (sq_MarkPrice r)
    (sq_TerminalState r) (sq_TerminalError r).
Definition with_final (r : SequentialResult) (final : TokenAmount) : SequentialResult :=
  mkSequentialResult (sq_Operation r) final (sq_ExitDecision r) (sq_Settlements r) (sq_Costs r) (sq_ExecutionCost r) (sq_ExternalCost r)
    (sq_RealizedGross r) (sq_RealizedNetPnL r) (sq_QuoteDelta r) (sq_BaseDelta r) (sq_MarkedBase r) (sq_MarkPrice r)
    (sq_TerminalState r) (sq_TerminalError r).
Definition add_costs (r : SequentialResult) (costs : list CostComponent) : SequentialResult :=
  with_progress r (sq_Settlements r) (sq_Costs r ++ costs).
Definition add_settlement (r : SequentialResult) (settlement : SequentialStageSettlement) : SequentialResult :=
  with_progress r (sq_Settlements r ++ [settlement]) (sq_Costs r ++ ss_Costs settlement).

Definition observe (event : ObserverEvent) : ST W unit := modify (observer ports event).
Definition now : ST W Time := fun w => (Ok (clock ports w), w).

(** A part of a body that may return from it. *)
Definition and_then {A B} (m : ST W (A + outcome)) (f : A -> ST W (B + outcome)) : ST W (B + outcome) :=
  x ← m; match x with inl a => f a | inr o => mret (inr o) end.
Definition returning {A} (m : ST W outcome) : ST W (A + outcome) := o ← m; mret (inr o).

(** ** Finishing *)

Definition set_operation (operation : SequentialOperation) (stage : Z) (amount : TokenAmount) (updatedAt : Time) : SequentialOperation :=
  mkSequentialOperation (so_ID operation) (so_Plan operation) (so_OpportunityID operation) (so_ConfigHash operation) (so_State operation)
    stage amount (so_StartedAt operation) updatedAt (so_LastError operation).
Definition closed_operation (operation : SequentialOperation) (state : string) (cause : option error) (updatedAt : Time) : SequentialOperation :=
  mkSequentialOperation (so_ID operation) (so_Plan operation) (so_OpportunityID operation) (so_ConfigHash operation) state
    (so_CurrentStage operation) (so_CurrentAmount operation) (so_StartedAt operation) updatedAt
    (match cause with Some e => error_text e | None => "" end).

Definition finish (operation : SequentialOperation) (state : string) (result : SequentialResult) (cause : option error) : ST W unit :=
  _ ← FinishSequentialOperation (journal ports) (so_ID operation) state cause;
  at_ ← now;
  observe (OperationFinished (closed_operation operation state cause at_) state result cause).

(** [return result, errors.Join(returned, e.finish(...))]. *)
Definition stop (operation : SequentialOperation) (state : string) (result : SequentialResult) (cause returned : error) : ST W outcome :=
  on_result (finish operation state result (Some cause))
    (fun _ => mret (result, errors_Join [Some returned; None]))
    (fun finishErr => mret (result, errors_Join [Some returned; Some finishErr])).

Definition complete (operation : SequentialOperation) (result : SequentialResult) : ST W outcome :=
  on_result (finish operation SequentialCompleted result None)
    (fun _ => mret (result, None)) (fun e => mret (result, Some e)).

(** ** Stage inputs *)

Definition awaits (outputs : gmap Z TokenAmount) (_ : unit) (dependency : Z) : res unit :=
  match outputs !! dependency with Some _ => Ok tt | None => Err (Errorf "stage %d awaits dependency %d") end.

Definition resolveInput (plan : SequentialPlan) (stage : SequentialStagePlan) (legacyCurrent : TokenAmount) (outputs : gmap Z TokenAmount) :
    res TokenAmount :=
  _ ← foldM (awaits outputs) tt (DependsOn stage);
  input ← (if decide (InputFromOrdinal stage = 0 /\ 1 < Ordinal stage) then Ok legacyCurrent else InputFor plan stage outputs);
  if decide (amount_token input = InputToken stage) then Ok input else
  driver ← Driver (drivers ports) (Stage stage);
  match ConvertStageInput driver with
  | None => Err (Errorf "stage %d requires a chain-local input converter")
  | Some convert => convert stage input
  end.

(** ** Exit decisions *)

Definition persistExitDecision (decision : SequentialExitDecision) : ST W unit :=
  _ ← lift (ExitDecision_Validate decision);
  match RecordSequentialExitDecision (journal ports) with
  | None => fail "sequential journal cannot persist the exit decision"
  | Some record => record decision
  end.

Definition prefunded_selector : option (SequentialPrefundedExitSelector W) :=
  selector ← ds_ExitSelector (drivers ports); PrefundedExitSelector selector.

Definition selectPrefundedRecoveryExit (operationID : OperationID) (plan : SequentialPlan) (bought : TokenAmount)
    (costs : list CostComponent) (cause : error) : ST W (list SequentialStagePlan * SequentialExitDecision) :=
  match prefunded_selector with
  | None => fail "prefunded recovery selector is unavailable"
  | Some selector =>
      decision ← SelectPrefundedRecoveryExit selector operationID plan bought costs cause;
      _ ← persistExitDecision decision;
      if decide (xd_Route decision = ExitSellAtDestination) then mret (drop 1 (p_Stages plan), decision) else
      if decide (xd_Route decision = ExitSellAtOrigin) then mret (p_CircuitBreaker plan, decision)
      else fail "prefunded recovery selected invalid route %q"
  end.

Definition with_evidence (d : SequentialExitDecision) (evidence : string) : SequentialExitDecision :=
  mkExitDecision (xd_Operation d) (xd_Route d) (xd_DestinationOutput d) (xd_ReturnOutput d) (xd_DestinationRecovery d)
    (xd_ReturnRecovery d) (xd_SafetyMargin d) (xd_DestinationQualified d) (xd_CostEvidenceAvailable d) (xd_DecidedAt d) evidence.

Definition reselectPostBridgeExit (operationID : OperationID) (plan : SequentialPlan) (current : TokenAmount)
    (costs : list CostComponent) (cause : error) : ST W (list SequentialStagePlan * SequentialExitDecision) :=
  match selector ← ds_ExitSelector (drivers ports); SelectRecoveryExit selector with
  | None => fail "automatic recovery comparison selector is unavailable"
  | Some select =>
      decision ← select operationID plan current costs;
      let decision := with_evidence decision (xd_Evidence decision +:+ "+automatic_recovery_after_" +:+ ErrorDisposition cause) in
      _ ← lift (ExitDecision_Validate decision);
      _ ← (match RecordSequentialExitDecision (journal ports) with
           | None => fail "sequential journal cannot persist the recovery exit decision"
           | Some record => record decision
           end);
      if decide (xd_Route decision = ExitReturnToOrigin)
      then stages ← lift (ReturnExitStages plan); mret (stages, decision)
      else mret (drop 2 (p_Stages plan), decision)
  end.

Definition canAutomaticallyRecoverSwap (plan : SequentialPlan) (stage : SequentialStagePlan) (e : error) (attempts : nat) : bool :=
  if decide (1 <= attempts)%nat then false else
  if decide (Stage stage <> StageSell) then false else
  if decide (EffectivePolicy plan = PolicyPrefundedSequential /\ Ordinal stage <> 2) then false
  else bool_decide (ErrorDisposition e = DispositionRejected \/ ErrorDisposition e = DispositionConfirmedFailure).

(** ** The stage loop *)

(** The loop variables; [pg_index] is the index of the next stage. *)
Record Progress := mkProgress {
  pg_stages : list SequentialStagePlan; pg_index : nat; pg_current : TokenAmount; pg_outputs : gmap Z TokenAmount;
  pg_attempts : gmap Z nat; pg_result : SequentialResult; pg_operation : SequentialOperation }.

Context (plan : SequentialPlan).

(** The costs of a failed stage are made durable before anything else. *)
Definition failure_costs (pg : Progress) (stage : SequentialStagePlan) (e : error) : ST W (SequentialResult + outcome) :=
  let costs := ErrorCosts e in
  if decide (costs = []) then mret (inl (pg_result pg)) else
  match RecordStageFailureCosts (journal ports) with
  | None =>
      let stageErr := Wrapf "stage %d (%s) failure costs cannot be persisted: %w" e in
      returning (stop (pg_operation pg) SequentialManualIntervention (pg_result pg) stageErr stageErr)
  | Some record =>
      on_result (record (so_ID (pg_operation pg)) (Ordinal stage) costs)
        (fun _ => mret (inl (add_costs (pg_result pg) costs)))
        (fun persistErr =>
           let stageErr := Wrapf "persist stage %d (%s) failure costs: %w" persistErr in
           returning (stop (pg_operation pg) SequentialManualIntervention (pg_result pg) stageErr stageErr))
  end.

(** The sale that failed is tried again, on the exit chosen anew. *)
Definition recover_sale (pg : Progress) (stage : SequentialStagePlan) (e : error) : ST W (Progress + outcome) :=
  let pg := mkProgress (pg_stages pg) (pg_index pg) (pg_current pg) (pg_outputs pg)
              (<[Ordinal stage := S (default 0%nat (pg_attempts pg !! Ordinal stage))]> (pg_attempts pg)) (pg_result pg) (pg_operation pg) in
  let chosen stages index (decision : SequentialExitDecision) :=
    _ ← observe (ExitSelected decision);
    mret (inl (mkProgress stages index (pg_current pg) (pg_outputs pg) (pg_attempts pg) (with_exit (pg_result pg) (Some decision)) (pg_operation pg))) in
  let failed format recoveryErr :=
    let stageErr := Wrapf format (Joined [e; recoveryErr]) in
    returning (stop (pg_operation pg) SequentialManualIntervention (pg_result pg) stageErr stageErr) in
  if decide (EffectivePolicy plan = PolicyPrefundedSequential /\ Ordinal stage = 2) then
    on_result (selectPrefundedRecoveryExit (so_ID (pg_operation pg)) plan (default TokenAmount_zero (pg_outputs pg !! 1)) (sq_Costs (pg_result pg)) e)
      (fun '(stages, decision) => chosen stages 0%nat decision)
      (failed "destination sale failed and no prefunded recovery exit could be prepared: %w")
  else if decide (Ordinal stage = 3) then
    on_result (reselectPostBridgeExit (so_ID (pg_operation pg)) plan (pg_current pg) (sq_Costs (pg_result pg)) e)
      (fun '(recovered, decision) => chosen (take 2 (pg_stages pg) ++ recovered) (pg_index pg) decision)
      (failed "stage %d (%s) failed and automatic recovery could not be selected: %w")
  else mret (inl pg).

Definition with_result (pg : Progress) (result : SequentialResult) : Progress :=
  mkProgress (pg_stages pg) (pg_index pg) (pg_current pg) (pg_outputs pg) (pg_attempts pg) result (pg_operation pg).

Definition stage_failed (pg : Progress) (stage : SequentialStagePlan) (e : error) : ST W (Progress + outcome) :=
  and_then (failure_costs pg stage e) (fun result =>
    let pg := with_result pg result in
    if canAutomaticallyRecoverSwap plan stage e (default 0%nat (pg_attempts pg !! Ordinal stage)) then recover_sale pg stage e else
    let state := if decide (Ordinal stage = 1 /\ IsDefinitiveFailure e = true) then SequentialAborted else SequentialManualIntervention in
    let stageErr := Wrapf "stage %d (%s): %w" e in
    returning (stop (pg_operation pg) state (pg_result pg) stageErr stageErr)).

(** The exit of a prefunded operation is chosen when the purchase has settled. *)
Definition prefunded_exit (pg : Progress) : ST W (Progress + outcome) :=
  let operation := pg_operation pg in
  let result := pg_result pg in
  match prefunded_selector with
  | None =>
      let e := Errorf "prefunded destination-first selector is unavailable" in
      returning (stop operation SequentialManualIntervention result e e)
  | Some selector =>
      on_result (SelectPrefundedExit selector (so_ID operation) plan (pg_current pg) (sq_Costs result))
        (fun decision =>
           on_result (persistExitDecision decision)
             (fun _ =>
                let stages := if decide (xd_Route decision = ExitSellAtOrigin)
                              then take (S (pg_index pg)) (pg_stages pg) ++ p_CircuitBreaker plan else pg_stages pg in
                _ ← observe (ExitSelected decision);
                mret (inl (mkProgress stages (pg_index pg) (pg_current pg) (pg_outputs pg) (pg_attempts pg)
                             (with_exit result (Some decision)) operation)))
             (fun e => returning (stop operation SequentialManualIntervention result e e)))
        (fun selectErr => returning (stop operation SequentialManualIntervention result (Wrapf "prepare prefunded exit: %w" selectErr) selectErr))
  end.

(** The exit of a transported operation is chosen when the first bridge has settled. *)
Definition transported_exit (selector : SequentialExitSelector W) (pg : Progress) : ST W (Progress + outcome) :=
  let operation := pg_operation pg in
  let result := pg_result pg in
  on_result (SelectExit selector (so_ID operation) plan (pg_current pg) (sq_Costs result))
    (fun decision =>
       on_result (_ ← lift (ExitDecision_Validate decision); persistExitDecision decision)
         (fun _ =>
            let result := with_exit result (Some decision) in
            on_result (if decide (xd_Route decision = ExitReturnToOrigin)
                       then returnStages ← lift (ReturnExitStages plan); mret (take 2 (pg_stages pg) ++ returnStages)
                       else mret (pg_stages pg))
              (fun stages =>
                 _ ← observe (ExitSelected decision);
                 mret (inl (mkProgress stages (pg_index pg) (pg_current pg) (pg_outputs pg) (pg_attempts pg) result operation)))
              (fun e => returning (stop operation SequentialManualIntervention result e e)))
         (fun e => returning (stop operation SequentialManualIntervention result e e)))
    (fun selectErr => returning (stop operation SequentialManualIntervention result (Wrapf "select post-bridge exit: %w" selectErr) selectErr)).

Definition choose_exit (pg : Progress) (stage : SequentialStagePlan) : ST W (Progress + outcome) :=
  if decide (EffectivePolicy plan = PolicyPrefundedSequential /\ Ordinal stage = 1) then prefunded_exit pg else
  match ds_ExitSelector (drivers ports) with
  | Some selector =>
      if decide (EffectivePolicy plan = PolicyTransportedSequential /\ Ordinal stage = 2) then transported_exit selector pg else mret (inl pg)
  | None => mret (inl pg)
  end.

Definition next_index (pg : Progress) : Progress :=
  mkProgress (pg_stages pg) (S (pg_index pg)) (pg_current pg) (pg_outputs pg) (pg_attempts pg) (pg_result pg) (pg_operation pg).

Definition settle_progress (pg : Progress) (stage : SequentialStagePlan) (settlement : SequentialStageSettlement) : Progress :=
  mkProgress (pg_stages pg) (pg_index pg) (ss_ActualOutput settlement) (<[Ordinal stage := ss_ActualOutput settlement]> (pg_outputs pg))
    (pg_attempts pg) (add_settlement (pg_result pg) settlement)
    (set_operation (pg_operation pg) (Ordinal stage) (ss_ActualOutput settlement) (ss_ObservedAt settlement)).

Definition stage_settled (pg : Progress) (stage : SequentialStagePlan) (settlement : SequentialStageSettlement) : ST W (Progress + outcome) :=
  on_result (_ ← lift (StageSettlement_Validate settlement); RecordStageSettlement (journal ports) settlement)
    (fun _ =>
       let pg := settle_progress pg stage settlement in
       _ ← observe (StageSettled settlement);
       and_then (choose_exit pg stage) (fun pg => mret (inl (next_index pg))))
    (fun e => returning (stop (pg_operation pg) SequentialManualIntervention (pg_result pg) e e)).

(** The driver and the request of a stage. *)
Definition stage_request (pg : Progress) (stage : SequentialStagePlan) : res (SequentialStageRequest * SequentialStageDriver W) :=
  input ← resolveInput plan stage (pg_current pg) (pg_outputs pg);
  let request := mkStageRequest (so_ID (pg_operation pg)) (p_ID plan) stage input in
  _ ← StageRequest_Validate request;
  driver ← Driver (drivers ports) (Stage stage);
  Ok (request, driver).

Definition iterate (pg : Progress) (stage : SequentialStagePlan) : ST W (Progress + outcome) :=
  on_result (lift (stage_request pg stage))
    (fun '(request, driver) =>
       _ ← observe (StageStarted request);
       on_result (ExecuteStage driver request) (stage_settled pg stage) (stage_failed pg stage))
    (fun e => returning (stop (pg_operation pg) SequentialManualIntervention (pg_result pg) e e)).

(** After the last stage. *)
Definition record_result (result : SequentialResult) : ST W unit :=
  match RecordSequentialResult (journal ports) with None => mret tt | Some record => record result end.

Definition all_settled (pg : Progress) : ST W outcome :=
  let result := with_final (pg_result pg) (pg_current pg) in
  on_result (lift (calculateSequentialEconomics plan result))
    (fun result =>
       on_result (record_result result)
         (fun _ => complete (pg_operation pg) result)
         (fun e => stop (pg_operation pg) SequentialManualIntervention result e e))
    (fun e => stop (pg_operation pg) SequentialManualIntervention result e e).

Fixpoint run_stages (fuel : nat) (pg : Progress) : ST W outcome :=
  match pg_stages pg !! pg_index pg, fuel with
  | None, _ => all_settled pg
  | Some _, O => lift (Panic "out of fuel")
  | Some stage, Datatypes.S fuel =>
      x ← iterate pg stage;
      match x with inl pg => run_stages fuel pg | inr o => mret o end
  end.

(** ** Two swaps and two bridges (sequential_parallel.go) *)

Definition recordParallelSettlement (state : SequentialOperation * SequentialResult) (settlement : SequentialStageSettlement) :
    ST W (SequentialOperation * SequentialResult) :=
  let '(operation, result) := state in
  _ ← lift (StageSettlement_Validate settlement);
  _ ← RecordStageSettlement (journal ports) settlement;
  let stage := Ordinal (sr_Stage (ss_Request settlement)) in
  let operation := if decide (so_CurrentStage operation <= stage)
                   then set_operation operation stage (ss_ActualOutput settlement) (ss_ObservedAt settlement)
                   else set_operation operation (so_CurrentStage operation) (so_CurrentAmount operation) (ss_ObservedAt settlement) in
  _ ← observe (StageSettled settlement);
  mret (operation, add_settlement result settlement).

(** The settlements are recorded one by one; what was recorded stays in the result. *)
Fixpoint record_settlements (operation : SequentialOperation) (result : SequentialResult) (settlements : list SequentialStageSettlement) :
    ST W (SequentialOperation * SequentialResult + outcome) :=
  match settlements with
  | [] => mret (inl (operation, result))
  | settlement :: settlements =>
      on_result (recordParallelSettlement (operation, result) settlement)
        (fun '(operation, result) => record_settlements operation result settlements)
        (fun e => returning (stop operation SequentialManualIntervention result e e))
  end.

Definition parallel_request (operationID : OperationID) (index : nat) (input : TokenAmount) : res SequentialStageRequest :=
  match p_Stages plan !! index with
  | None => Panic "index out of range"
  | Some stage =>
      let request := mkStageRequest operationID (p_ID plan) stage input in
      _ ← StageRequest_Validate request; Ok request
  end.

(** The swaps of the staged or of the simultaneous driver. *)
Definition execute_swaps (driver : SequentialStageDriver W)
    (parallel : OperationID -> SequentialPlan -> ST W (list SequentialStageSettlement * option error)) (operationID : OperationID) :
    ST W (list SequentialStageSettlement * option error) :=
  match TriggeredSwaps driver with
  | Some (stagedFor, triggered) => if stagedFor plan then triggered operationID plan else parallel operationID plan
  | None => parallel operationID plan
  end.

Definition start_swaps (operationID : OperationID) : ST W unit :=
  sellInput ← lift (ParallelSellInput plan);
  buy ← lift (parallel_request operationID 0 (p_InitialInput plan));
  _ ← observe (StageStarted buy);
  sell ← lift (parallel_request operationID 1 sellInput);
  observe (StageStarted sell).

Definition prepare_bridge (operationID : OperationID) (outputs : gmap Z TokenAmount) (index : nat) :
    res (SequentialStageRequest * SequentialStageDriver W) :=
  match p_Stages plan !! index with
  | None => Panic "index out of range"
  | Some stage =>
      input ← wrap "prepare parallel %s: %w" (resolveInput plan stage (p_InitialInput plan) outputs);
      driver ← wrap "prepare parallel %s: %w" (Driver (drivers ports) (Stage stage));
      Ok (mkStageRequest operationID (p_ID plan) stage input, driver)
  end.

(** Economics, the durable result and the end of a dual inventory operation. *)
Definition finish_parallel (operation : SequentialOperation) (result : SequentialResult) : ST W outcome :=
  on_result (lift (calculateParallelEconomics plan result))
    (fun result => on_result (record_result result) (fun _ => complete operation result) (fun e => mret (result, Some e)))
    (fun e => stop operation SequentialManualIntervention result e e).

(** The quote bridge is handed to the restorer; the base bridge runs here. *)
Definition bridge_async (restorer : SequentialAsyncQuoteRestorer W) (operation : SequentialOperation) (result : SequentialResult)
    (base quote : SequentialStageRequest * SequentialStageDriver W) : ST W outcome :=
  on_result (async_BeginBase restorer (so_ID operation))
    (fun _ =>
       on_result (async_Start restorer quote.1 quote.2)
         (fun _ =>
            _ ← observe (StageStarted base.1);
            settled ← try (ExecuteStage base.2 base.1);
            let baseErr := match settled with Err e => Some e | _ => None end in
            completed ← try (async_CompleteBase restorer (so_ID operation) baseErr);
            let baseErr := match completed with Err completeErr => errors_Join [baseErr; Some completeErr] | _ => baseErr end in
            match baseErr, settled with
            | Some e, _ => stop operation SequentialManualIntervention result e e
            | None, Ok settlement =>
                on_result (recordParallelSettlement (operation, result) settlement)
                  (fun '(operation, result) => finish_parallel operation result)
                  (fun e => stop operation SequentialManualIntervention result e e)
            | None, _ => lift (Panic "unreachable")
            end)
         (fun e =>
            _ ← ignore (async_CompleteBase restorer (so_ID operation) (Some e));
            mret (result, Some (Wrapf "start asynchronous quote restoration: %w" e))))
    (fun e => mret (result, Some (Wrapf "reserve asynchronous restoration capacity: %w" e))).

Definition run_bridge (bridge : SequentialStageRequest * SequentialStageDriver W) : ST W (res SequentialStageSettlement) :=
  _ ← observe (StageStarted bridge.1);
  try (ExecuteStage bridge.2 bridge.1).

(** Two goroutines; [first]: the base bridge runs first. *)
Definition run_bridges (first : bool) (base quote : SequentialStageRequest * SequentialStageDriver W) :
    ST W (res SequentialStageSettlement * res SequentialStageSettlement) :=
  if first then b ← run_bridge base; q ← run_bridge quote; mret (b, q) else q ← run_bridge quote; b ← run_bridge base; mret (b, q).

(** One bridge's result is recorded, or its error kept. *)
Definition record_bridge (state : SequentialOperation * SequentialResult * list error) (bridge : res SequentialStageSettlement) :
    ST W (SequentialOperation * SequentialResult * list error) :=
  let '(operation, result, errors) := state in
  match bridge with
  | Err e => mret (operation, result, errors ++ [Wrapf "parallel %s: %w" e])
  | Panic why => lift (Panic why)
  | Ok settlement =>
      on_result (recordParallelSettlement (operation, result) settlement)
        (fun '(operation, result) => mret (operation, result, errors))
        (fun e => mret (operation, result, errors ++ [e]))
  end.

Definition bridge_both (first : bool) (operation : SequentialOperation) (result : SequentialResult)
    (base quote : SequentialStageRequest * SequentialStageDriver W) : ST W outcome :=
  '(b, q) ← run_bridges first base quote;
  '(operation, result, errors) ← foldST record_bridge (operation, result, []) [b; q];
  if decide (errors = []) then finish_parallel operation result
  else stop operation SequentialManualIntervention result (Joined errors) (Joined errors).

Definition settled_outputs (settlements : list SequentialStageSettlement) : gmap Z TokenAmount :=
  foldl (fun outputs settlement => <[Ordinal (sr_Stage (ss_Request settlement)) := ss_ActualOutput settlement]> outputs) ∅ settlements.

Definition bridge_phase (first : bool) (operation : SequentialOperation) (result : SequentialResult)
    (settlements : list SequentialStageSettlement) : ST W outcome :=
  if decide (length settlements <> 2%nat) then mret (result, Some (Errorf "parallel swap settlements are incomplete")) else
  let outputs := settled_outputs settlements in
  on_result (lift (base ← prepare_bridge (so_ID operation) outputs 2; quote ← prepare_bridge (so_ID operation) outputs 3; Ok (base, quote)))
    (fun '(base, quote) =>
       match asyncQuote ports with
       | Some restorer => bridge_async restorer operation result base quote
       | None => bridge_both first operation result base quote
       end)
    (fun e => mret (result, Some e)).

Definition executePrefundedParallel (first : bool) (operation : SequentialOperation) (result : SequentialResult) : ST W outcome :=
  match buy ← ds_Buy (drivers ports); parallel ← ExecuteParallelSwaps buy; Some (buy, parallel) with
  | None => mret (result, Some (Errorf "prefunded_parallel swap driver is unavailable"))
  | Some (buy, parallel) =>
      on_result (start_swaps (so_ID operation))
        (fun _ =>
           '(settlements, swapErr) ← execute_swaps buy parallel (so_ID operation);
           recorded ← record_settlements operation result settlements;
           match recorded with
           | inr o => mret o
           | inl (operation, result) =>
               match swapErr with
               | Some e =>
                   let state := if decide (settlements = [] /\ IsDefinitiveFailure e = true) then SequentialAborted else SequentialManualIntervention in
                   stop operation state result e e
               | None => bridge_phase first operation result settlements
               end
           end)
        (fun e => mret (result, Some e))
  end.
End executor.

(** ** One operation at a time *)

Section execute.
Context {W : Type} {typed : TypedErrors} (error_text : error -> string) (ports : Ports W).
Abbreviation outcome := (SequentialResult * option error)%type.

Definition new_operation (operationID : OperationID) (plan : SequentialPlan) (at_ : Time) : SequentialOperation :=
  mkSequentialOperation operationID (p_ID plan) (op_Evaluation (p_Opportunity plan)) (op_ConfigHash (p_Opportunity plan)) SequentialRunning
    0 (p_InitialInput plan) at_ at_ "".

Definition new_result (operationID : OperationID) : SequentialResult :=
  mkSequentialResult operationID TokenAmount_zero None [] [] AssetQuantity_zero AssetQuantity_zero AssetQuantity_zero AssetQuantity_zero
    AssetQuantity_zero AssetQuantity_zero AssetQuantity_zero None "" "".

(** A successful simulation whose output cannot be proved is made durable as blocked. *)
Definition block_preflight (operationID : OperationID) (plan : SequentialPlan) (result : SequentialResult) (e : error) :
    ST W (unit + outcome) :=
  match As_SimulationInvariant e with
  | None => mret (inl tt)
  | Some invariant =>
      blockedAt ← now ports;
      match RecoveryJournal (journal ports) with
      | None => mret (inl tt)
      | Some recovery =>
          on_result (CreateRecoverableSequentialOperation recovery (new_operation operationID plan blockedAt) plan)
            (fun _ =>
               on_result (SetSequentialRecoveryState recovery operationID SequentialRecoveryBlocked (Some (Wrapf "validation_blocked: %w" invariant)))
                 (fun _ => mret (inl tt))
                 (fun persistErr => mret (inr (result, errors_Join [Some e; Some persistErr]))))
            (fun persistErr => mret (inr (result, errors_Join [Some e; Some persistErr])))
      end
  end.

Definition preflight_failed (operationID : OperationID) (plan : SequentialPlan) (result : SequentialResult) (e : error) : ST W outcome :=
  blocked ← block_preflight operationID plan result e;
  match blocked with
  | inr o => mret o
  | inl _ => mret (result, Some (Wrapf "swap preflight: %w" (NewStageError DispositionRejected e)))
  end.

(** [defer preflight.DiscardPreflight(operationID)]. *)
Definition deferring {A} (cleanup : W -> W) (m : ST W A) : ST W A := fun w => let '(r, w') := m w in (r, cleanup w').

Definition create_operation (operation : SequentialOperation) (plan : SequentialPlan) : ST W unit :=
  match RecoveryJournal (journal ports) with
  | Some recovery => CreateRecoverableSequentialOperation recovery operation plan
  | None => CreateSequentialOperation (journal ports) operation
  end.

(** The bound of the stage loop. *)
Definition loop_bound : nat := 64.

Definition first_progress (operation : SequentialOperation) (plan : SequentialPlan) (result : SequentialResult) : Progress :=
  mkProgress (p_Stages plan) 0 (p_InitialInput plan) ∅ ∅ result operation.

Definition execute_created (first : bool) (operation : SequentialOperation) (plan : SequentialPlan) (result : SequentialResult) : ST W outcome :=
  _ ← observe ports (OperationStarted operation plan);
  if decide (IsPrefundedDualInventory plan) then executePrefundedParallel error_text ports plan first operation result
  else run_stages error_text ports plan loop_bound (first_progress operation plan result).

Definition execute_operation (first : bool) (operationID : OperationID) (plan : SequentialPlan) (result : SequentialResult) : ST W outcome :=
  at_ ← now ports;
  let operation := new_operation operationID plan at_ in
  on_result (create_operation operation plan)
    (fun _ => execute_created first operation plan result)
    (fun e => mret (result_zero, Some e)).

Definition preflight_and_execute (first : bool) (operationID : OperationID) (plan : SequentialPlan) : ST W outcome :=
  let result := new_result operationID in
  match buy ← ds_Buy (drivers ports); driver_Preflight buy with
  | None => execute_operation first operationID plan result
  | Some preflight =>
      on_result (Preflight preflight operationID plan)
        (fun _ => deferring (DiscardPreflight preflight operationID) (execute_operation first operationID plan result))
        (preflight_failed operationID plan result)
  end.

Definition execute_idle (first : bool) (operationID : OperationID) (plan : SequentialPlan) : ST W outcome :=
  if decide (operationID = "") then mret (result_zero, Some (Errorf "sequential execution plan is incomplete")) else
  match SequentialPlan_Validate plan with
  | Panic why => lift (Panic why)
  | Err e => mret (result_zero, Some e)
  | Ok _ =>
      on_result (ActiveSequentialOperation (journal ports))
        (fun active =>
           match active with
           | Some _ => mret (result_zero, Some (Errorf "operation %s requires reconciliation before a new operation can start"))
           | None => preflight_and_execute first operationID plan
           end)
        (fun e => mret (result_zero, Some e))
  end.

(** The running flag is cleared however the body ends. *)
Definition Execute (first : bool) (operationID : OperationID) (plan : SequentialPlan) : ST (bool * W) outcome := fun '(running, w) =>
  if running : bool then (Ok (result_zero, Some (Errorf "a sequential operation is already active")), (true, w))
  else let '(r, w') := execute_idle first operationID plan w in (r, (false, w')).

(** [given]: the journal is not nil.  The executor is idle at first. *)
Definition NewSequentialExecutor (given : bool) : res bool :=
  if given then
    _ ← foldM (fun _ stage => _ ← Driver (drivers ports) stage; Ok tt) tt [StageBuy; StageBridgeBase; StageSell; StageBridgeQuoteReturn];
    Ok false
  else Err (Errorf "sequential executor journal is required").
End execute.

