(* ===== verification/SequentialMachine.v ===== *)
(** * The abstract machine of dependent operations

    What the stage loop of [SequentialExecutor] does, without its results and its
    journal: from what has settled, the pending stages of a plan are executed one by
    one; an exit decision may replace those that are left; a sale is tried again once
    after a failure that is known to have had no effect; everything else ends the
    operation.  A run of the machine is the log of it.

    Theorems: along a run a stage is executed again only right after such a failure
    of it, and never a third time, and nothing is executed after a failure that may
    have had an effect; the operation is finished exactly once, at the end.
    [SequentialRuns] shows that the executor's runs are runs of the machine. *)
From S2P Require Import Prelude Amount Quote Registry Arbitrage Allocation Inventory Execution Sequential SequentialPorts SequentialEconomics SequentialExecutor.
Local Open Scope Z_scope.

(** The calls of an operation that change the world. *)
Inductive event :=
| Executed (request : SequentialStageRequest) (outcome : res SequentialStageSettlement)
| Recorded (settlement : SequentialStageSettlement) (outcome : res unit)
| Finished (state : string) (cause : option error) (outcome : res unit)
| Swapped (outcome : res (list SequentialStageSettlement * option error))
| Restoring (request : SequentialStageRequest) (outcome : res unit).

(** ** The abstract machine *)

(** What is left to do and what has settled. *)
Record Saga := mkSaga {
  sg_pending : list SequentialStagePlan; sg_current : TokenAmount; sg_outputs : gmap Z TokenAmount; sg_retried : gset Z;
  sg_settled : list SequentialStageSettlement }.

Section machine.
Context {W : Type} {typed : TypedErrors} (ports : Ports W) (plan : SequentialPlan) (id : OperationID).

(** The stages that may follow a settled stage and a failed sale. *)
Definition after_settled (stage : SequentialStagePlan) (rest pending : list SequentialStagePlan) : Prop :=
  pending = rest \/
  (EffectivePolicy plan = PolicyPrefundedSequential /\ Ordinal stage = 1 /\ pending = p_CircuitBreaker plan) \/
  (EffectivePolicy plan = PolicyTransportedSequential /\ Ordinal stage = 2 /\ ReturnExitStages plan = Ok pending).

Definition after_failed (stage : SequentialStagePlan) (rest pending : list SequentialStagePlan) : Prop :=
  (EffectivePolicy plan = PolicyPrefundedSequential /\ Ordinal stage = 2 /\
   (pending = drop 1 (p_Stages plan) \/ pending = p_CircuitBreaker plan)) \/
  (EffectivePolicy plan <> PolicyPrefundedSequential /\ Ordinal stage = 3 /\
   (ReturnExitStages plan = Ok pending \/ pending = drop 2 (p_Stages plan))) \/
  (EffectivePolicy plan <> PolicyPrefundedSequential /\ Ordinal stage <> 3 /\ pending = stage :: rest).

(** The request of the stage at the head takes its input from what has settled. *)
Definition requests (s : Saga) (stage : SequentialStagePlan) (request : SequentialStageRequest) : Prop :=
  exists input, resolveInput ports plan stage (sg_current s) (sg_outputs s) = Ok input /\
    request = mkStageRequest id (p_ID plan) stage input /\ StageRequest_Validate request = Ok tt.

Definition settle (s : Saga) (stage : SequentialStagePlan) (settlement : SequentialStageSettlement) (pending : list SequentialStagePlan) : Saga :=
  mkSaga pending (ss_ActualOutput settlement) (<[Ordinal stage := ss_ActualOutput settlement]> (sg_outputs s)) (sg_retried s)
    (sg_settled s ++ [settlement]).
Definition retry (s : Saga) (stage : SequentialStagePlan) (pending : list SequentialStagePlan) : Saga :=
  mkSaga pending (sg_current s) (sg_outputs s) ({[Ordinal stage]} ∪ sg_retried s) (sg_settled s).

(** One stage, and the events of it. *)
Inductive Next (s : Saga) : list event -> Saga -> Prop :=
| next_settled stage rest request settlement pending :
    sg_pending s = stage :: rest -> requests s stage request -> StageSettlement_Validate settlement = Ok tt ->
    after_settled stage rest pending ->
    Next s [Executed request (Ok settlement); Recorded settlement (Ok tt)] (settle s stage settlement pending)
| next_retried stage rest request e pending :
    sg_pending s = stage :: rest -> requests s stage request -> Stage stage = StageSell -> IsDefinitiveFailure e = true ->
    Ordinal stage ∉ sg_retried s -> after_failed stage rest pending ->
    Next s [Executed request (Err e)] (retry s stage pending).

(** The last events of an operation, how it ends and what has settled then. *)
Inductive Ending (s : Saga) : list event -> list SequentialStageSettlement -> option error -> Prop :=
| ending_completed :
    sg_pending s = [] -> Ending s [Finished SequentialCompleted None (Ok tt)] (sg_settled s) None
| ending_uncertain_completion e :
    sg_pending s = [] -> Ending s [Finished SequentialCompleted None (Err e)] (sg_settled s) (Some e)
| ending_refused cause outcome e : Ending s [Finished SequentialManualIntervention (Some cause) outcome] (sg_settled s) (Some e)
| ending_aborted stage rest request failure cause outcome e :
    sg_pending s = stage :: rest -> requests s stage request -> Ordinal stage = 1 -> IsDefinitiveFailure failure = true ->
    Ending s [Executed request (Err failure); Finished SequentialAborted (Some cause) outcome] (sg_settled s) (Some e)
| ending_failed stage rest request failure cause outcome e :
    sg_pending s = stage :: rest -> requests s stage request ->
    Ending s [Executed request (Err failure); Finished SequentialManualIntervention (Some cause) outcome] (sg_settled s) (Some e)
| ending_invalid stage rest request settlement cause outcome e :
    sg_pending s = stage :: rest -> requests s stage request ->
    Ending s [Executed request (Ok settlement); Finished SequentialManualIntervention (Some cause) outcome] (sg_settled s) (Some e)
| ending_unrecorded stage rest request settlement failure cause outcome e :
    sg_pending s = stage :: rest -> requests s stage request ->
    Ending s [Executed request (Ok settlement); Recorded settlement (Err failure); Finished SequentialManualIntervention (Some cause) outcome]
      (sg_settled s) (Some e)
| ending_undecided stage rest request settlement cause outcome e :
    sg_pending s = stage :: rest -> requests s stage request ->
    Ending s [Executed request (Ok settlement); Recorded settlement (Ok tt); Finished SequentialManualIntervention (Some cause) outcome]
      (sg_settled s ++ [settlement]) (Some e).

Inductive Runs (s : Saga) : list event -> list SequentialStageSettlement -> option error -> Prop :=
| runs_end l settled e : Ending s l settled e -> Runs s l settled e
| runs_next l s' l' settled e : Next s l s' -> Runs s' l' settled e -> Runs s (l ++ l') settled e.
End machine.

(** ** The stage loop runs the machine *)

(** The plans that are executed stage by stage. *)
Definition ordered_plan (plan : SequentialPlan) : Prop :=
  Ordinal <$> p_Stages plan = [1; 2; 3; 4] /\
  (EffectivePolicy plan = PolicyTransportedSequential \/
   (EffectivePolicy plan = PolicyPrefundedSequential /\ Ordinal <$> p_CircuitBreaker plan = [5])).

Lemma return_ordinals plan pending : ReturnExitStages plan = Ok pending -> Ordinal <$> pending = [3; 4].
Proof.
  unfold ReturnExitStages. destruct (p_Stages plan) as [|buy [|first [|sell [|back [|]]]]]; try done. destruct (decide _); [done|].
  intros (_ & _ & [= <-])%bind_Ok. done.
Qed.

(** ** What a run of the machine does *)

Definition executed (e : event) : option (Z * res SequentialStageSettlement) :=
  match e with Executed request outcome => Some (Ordinal (sr_Stage request), outcome) | _ => None end.
(** The stages executed, in order, and what came of each. *)
Definition executions (l : list event) : list (Z * res SequentialStageSettlement) := omap executed l.
Definition is_finished (e : event) : bool := match e with Finished _ _ _ => true | _ => false end.
Definition recorded (e : event) : option SequentialStageSettlement :=
  match e with Recorded settlement (Ok _) => Some settlement | _ => None end.

Section machine_runs.
Context {W : Type} {typed : TypedErrors} (ports : Ports W) (plan : SequentialPlan) (id : OperationID) (ordered : ordered_plan plan).
Abbreviation Next := (Next ports plan id).
Abbreviation Ending := (Ending ports plan id).
Abbreviation Runs := (Runs ports plan id).

(** The pending ordinals increase, above what has settled. *)
Definition tidy (lo : Z) (s : Saga) : Prop :=
  StronglySorted Z.lt (Ordinal <$> sg_pending s) /\ Forall (fun o => lo < o <= 5) (Ordinal <$> sg_pending s).

Lemma ordered_drop n : StronglySorted Z.lt (drop n [1; 2; 3; 4]) /\ Forall (fun o => Z.of_nat n < o <= 5) (drop n [1; 2; 3; 4]).
Proof. clear. destruct n as [|[|[|[|n]]]]; cbn; repeat constructor; try lia. all: destruct n; repeat constructor. Qed.

Lemma tidy_head lo s stage rest : tidy lo s -> sg_pending s = stage :: rest -> lo < Ordinal stage <= 5 /\
  StronglySorted Z.lt (Ordinal <$> rest) /\ Forall (fun o => Ordinal stage < o <= 5) (Ordinal <$> rest).
Proof.
  intros [Hs Hf] Hp. rewrite Hp in *. cbn in *. apply StronglySorted_inv in Hs as [Hs Hlt]. apply Forall_cons in Hf as [Ho Hf].
  split; [done|]. split; [done|]. apply Forall_forall. intros o Hin. rewrite Forall_forall in Hlt. rewrite Forall_forall in Hf.
  specialize (Hlt o Hin). specialize (Hf o Hin). lia.
Qed.

Lemma one_ordinal lo o : lo < o <= 5 -> StronglySorted Z.lt [o] /\ Forall (fun o => lo < o <= 5) [o].
Proof. intros. split; repeat constructor; lia. Qed.

Lemma return_tidy lo pending : lo < 3 -> ReturnExitStages plan = Ok pending ->
  StronglySorted Z.lt (Ordinal <$> pending) /\ Forall (fun o => lo < o <= 5) (Ordinal <$> pending).
Proof. intros Hlo Hret. rewrite (return_ordinals _ _ Hret). split; repeat constructor; lia. Qed.

Lemma next_tidy lo s l s' : tidy lo s -> Next s l s' ->
  exists stage rest, sg_pending s = stage :: rest /\ executions l <> [] /\
   ((exists settlement, executions l = [(Ordinal stage, Ok settlement)] /\ tidy (Ordinal stage) s') \/
    (exists e, executions l = [(Ordinal stage, Err e)] /\ IsDefinitiveFailure e = true /\ tidy (Ordinal stage - 1) s' /\
       Ordinal stage ∉ sg_retried s /\ Ordinal stage ∈ sg_retried s' /\ sg_retried s' = {[Ordinal stage]} ∪ sg_retried s)).
Proof using ordered.
  intros Htidy Hnext. destruct ordered as [Hplan Hpolicy].
  destruct Hnext as [stage rest request settlement pending Hp (input & _ & -> & _) _ Hafter
                    |stage rest request e pending Hp (input & _ & -> & _) Hsell Hdef Hnew Hafter];
    exists stage, rest; destruct (tidy_head lo s stage rest Htidy Hp) as (Hlo & Hsorted & Hbound); (split; [done|]); (split; [done|]).
  - left. exists settlement. split; [done|]. unfold tidy, settle. cbn. destruct Hafter as [->|[(Hpol & Ho & ->)|(Hpol & Ho & Hret)]]; [done|..].
    + destruct Hpolicy as [Ht|[_ ->]]; [by rewrite Ht in Hpol|]. rewrite Ho. by apply one_ordinal.
    + rewrite Ho. by apply return_tidy.
  - right. exists e. split; [done|]. split; [done|]. split; [|cbn; set_solver]. unfold tidy, retry. cbn.
    destruct Hafter as [(Hpol & Ho & Hpend)|[(Hpol & Ho & Hpend)|(Hpol & Ho & ->)]].
    + destruct Hpolicy as [Ht|[_ Hcb]]; [by rewrite Ht in Hpol|]. rewrite Ho.
      destruct Hpend as [->| ->]; [rewrite fmap_drop, Hplan; apply (ordered_drop 1)|rewrite Hcb; by apply one_ordinal].
    + rewrite Ho. destruct Hpend as [Hret| ->]; [by apply return_tidy|rewrite fmap_drop, Hplan; apply (ordered_drop 2)].
    + cbn. split; [constructor; [done|]|constructor; [lia|]].
      * eapply Forall_impl; [exact Hbound|]. intros o Hlt. cbn in Hlt. lia.
      * eapply Forall_impl; [exact Hbound|]. intros o Hlt. cbn in Hlt. lia.
Qed.

Lemma executions_app l l' : executions (l ++ l') = executions l ++ executions l'.
Proof. apply omap_app. Qed.

Lemma ending_executions s l settled e : Ending s l settled e ->
  executions l = [] \/ exists stage rest r, sg_pending s = stage :: rest /\ executions l = [(Ordinal stage, r)].
Proof.
  clear. intros H. destruct H; [by left|by left|by left|right..]; destruct H0 as (input & _ & -> & _); eexists _, _, _; (split; [eassumption|reflexivity]).
Qed.

Lemma runs_above lo s l settled e : tidy lo s -> Runs s l settled e -> Forall (fun x => lo < x.1) (executions l).
Proof using ordered.
  intros Htidy Hruns. revert lo Htidy. induction Hruns as [s l settled e Hend|s l s' l' settled e Hnext _ IH]; intros lo Htidy.
  - destruct (ending_executions _ _ _ _ Hend) as [->|(stage & rest & r & Hp & ->)]; [done|]. destruct (tidy_head _ _ _ _ Htidy Hp) as [? _].
    constructor; [cbn; lia|done].
  - destruct (next_tidy _ _ _ _ Htidy Hnext) as (stage & rest & Hp & _ & Hcase). destruct (tidy_head _ _ _ _ Htidy Hp) as [Hlo _].
    rewrite executions_app. destruct Hcase as [(settlement & -> & Ht)|(e' & -> & _ & Ht & _)]; (constructor; [cbn; lia|]);
      (eapply Forall_impl; [by apply IH|]); cbn; intros [o r] Ho; cbn in *; lia.
Qed.

(** A stage that was tried again is executed first, or not any more. *)
Lemma runs_retried o s l settled e : tidy (o - 1) s -> Runs s l settled e -> o ∈ sg_retried s ->
  forall j r, executions l !! j = Some (o, r) -> j = 0%nat.
Proof using ordered.
  intros Htidy Hruns Hin j r Hj. destruct Hruns as [l settled e Hend|l s' l' settled e Hnext Hruns].
  - destruct (ending_executions _ _ _ _ Hend) as [Hl|(stage & rest & r' & Hp & Hl)]; rewrite Hl in Hj; [done|]. by destruct j.
  - destruct (next_tidy _ _ _ _ Htidy Hnext) as (stage & rest & Hp & _ & Hcase). destruct (tidy_head _ _ _ _ Htidy Hp) as [Hlo _].
    rewrite executions_app in Hj. destruct j as [|j]; [done|]. exfalso.
    assert (exists o', o <= o' /\ Forall (fun x => o' < x.1) (executions l') /\ executions l' !! j = Some (o, r)) as (o' & Ho' & Hab & Hj').
    { destruct Hcase as [(settlement & He & Ht)|(e' & He & _ & Ht & Hnew & _)]; rewrite He in Hj; cbn in Hj;
        (eexists; split; [|split; [by eapply runs_above|done]]); [lia|].
      destruct (decide (Ordinal stage = o)) as [Heq|]; [rewrite Heq in Hnew; done|lia]. }
    rewrite Forall_lookup in Hab. specialize (Hab _ _ Hj'). cbn in Hab. lia.
Qed.

(** Of two executions in order, the first settled its stage and the second is of a
    later one, or the first is known to have failed without effect; only right
    after such a failure may the second be of the same stage. *)
Definition never_resends (xs : list (Z * res SequentialStageSettlement)) : Prop :=
  forall i j o1 r1 o2 r2, (i < j)%nat -> xs !! i = Some (o1, r1) -> xs !! j = Some (o2, r2) ->
  ((exists s, r1 = Ok s) /\ o1 < o2) \/
  (exists e, r1 = Err e /\ IsDefinitiveFailure e = true /\ o1 <= o2 /\ (o1 = o2 -> j = S i)).

Lemma runs_never_resends lo s l settled e : tidy lo s -> Runs s l settled e -> never_resends (executions l).
Proof using ordered.
  intros Htidy Hruns. revert lo Htidy. induction Hruns as [s l settled e Hend|s l s' l' settled e Hnext Hruns IH]; intros lo Htidy i j o1 r1 o2 r2 Hij Hi Hj.
  - destruct (ending_executions _ _ _ _ Hend) as [Hl|(stage & rest & r & _ & Hl)]; rewrite Hl in *; [done|].
    destruct j as [|[|]]; [lia|done..].
  - destruct (next_tidy _ _ _ _ Htidy Hnext) as (stage & rest & Hp & _ & Hcase). rewrite executions_app in *.
    destruct Hcase as [(settlement & He & Ht)|(e' & He & Hdef & Ht & _ & Hret & _)]; rewrite He in *; destruct j as [|j]; [lia| |lia|];
      cbn in Hi, Hj; pose proof (runs_above _ _ _ _ _ Ht Hruns) as Hab; rewrite Forall_lookup in Hab; pose proof (Hab _ _ Hj) as Ho; cbn in Ho;
      (destruct i as [|i]; cbn in Hi; [|specialize (IH _ Ht i j o1 r1 o2 r2 ltac:(lia) Hi Hj) as [?|(? & ? & ? & ? & Hn)]; [by left|];
        right; eexists; split; [done|]; split; [done|]; split; [done|]; intros Heq; by rewrite (Hn Heq)]).
    + injection Hi as <- <-. left. split; [by eexists|done].
    + injection Hi as <- <-. right. exists e'. split; [done|]. split; [done|]. split; [lia|]. intros Heq.
      rewrite <- Heq in Hj. by rewrite (runs_retried (Ordinal stage) _ _ _ _ Ht Hruns Hret _ _ Hj).
Qed.

(** *** How a run ends *)

Definition settled_in (l : list event) : list SequentialStageSettlement := omap recorded l.

Lemma next_settled_in s l s' : Next s l s' -> sg_settled s' = sg_settled s ++ settled_in l /\ Forall (fun e => is_finished e = false) l.
Proof. clear. destruct 1; cbn; rewrite ?app_nil_r; (split; [done|]); repeat constructor. Qed.

(** The last event, and only it, ends the operation; it says completed exactly when
    no error is returned, unless the journal fails then, and aborted only when
    nothing settled.  What has settled is what was recorded. *)
Definition ends_once (before : list SequentialStageSettlement) (l : list event) (settled : list SequentialStageSettlement) (e : option error) : Prop :=
  settled = before ++ settled_in l /\
  exists l' state cause f, l = l' ++ [Finished state cause f] /\ Forall (fun e => is_finished e = false) l' /\
    (e = None <-> state = SequentialCompleted /\ f = Ok tt) /\ (state = SequentialCompleted <-> cause = None) /\
    (state = SequentialAborted -> exists request failure, last l' = Some (Executed request (Err failure)) /\
       Ordinal (sr_Stage request) = 1 /\ IsDefinitiveFailure failure = true).

Lemma ending_ends_once s l settled e : Ending s l settled e -> ends_once (sg_settled s) l settled e.
Proof.
  clear. intros H. split.
  - destruct H; cbn; by rewrite ?app_nil_r.
  - destruct H.
    + exists [], SequentialCompleted, None, (Ok tt). split_and!; try done.
    + exists [], SequentialCompleted, None, (Err e). split_and!; try done. split; [done|by intros [_ ?]].
    + exists [], SequentialManualIntervention, (Some cause), outcome. split_and!; try done. split; [done|by intros [? _]].
    + exists [Executed request (Err failure)], SequentialAborted, (Some cause), outcome. split_and!; try done; [by repeat constructor|split; [done|by intros [? _]]|].
      intros _. destruct H0 as (input & _ & -> & _). by exists (mkStageRequest id (p_ID plan) stage input), failure.
    + exists [Executed request (Err failure)], SequentialManualIntervention, (Some cause), outcome.
      split_and!; try done; [by repeat constructor|split; [done|by intros [? _]]].
    + exists [Executed request (Ok settlement)], SequentialManualIntervention, (Some cause), outcome.
      split_and!; try done; [by repeat constructor|split; [done|by intros [? _]]].
    + exists [Executed request (Ok settlement); Recorded settlement (Err failure)], SequentialManualIntervention, (Some cause), outcome.
      split_and!; try done; [by repeat constructor|split; [done|by intros [? _]]].
    + exists [Executed request (Ok settlement); Recorded settlement (Ok tt)], SequentialManualIntervention, (Some cause), outcome.
      split_and!; try done; [by repeat constructor|split; [done|by intros [? _]]].
Qed.

Lemma runs_ends_once s l settled e : Runs s l settled e -> ends_once (sg_settled s) l settled e.
Proof.
  clear. induction 1 as [s l settled e Hend|s l s' l' settled e Hnext _ (Hset & l2 & state & cause & f & -> & Hnone & Hok & Hcause & Hab)];
    [by apply ending_ends_once|].
  destruct (next_settled_in _ _ _ Hnext) as [Hs Hl]. split.
  - rewrite Hset, Hs, <- app_assoc. unfold settled_in. by rewrite (omap_app _ l).
  - exists (l ++ l2), state, cause, f. rewrite app_assoc. split; [done|]. split; [by apply Forall_app|]. split; [done|]. split; [done|].
    intros Hst. destruct (Hab Hst) as (request & failure & Hlast & Ho). exists request, failure. rewrite last_app, Hlast. done.
Qed.

(** An aborted operation had executed the purchase only. *)
Lemma runs_aborted lo s l settled e cause f : tidy lo s -> 0 <= lo -> Runs s (l ++ [Finished SequentialAborted cause f]) settled e ->
  settled = sg_settled s.
Proof using ordered.
  intros Htidy Hlo Hruns. remember (l ++ [Finished SequentialAborted cause f]) as events eqn:He. revert lo l Htidy Hlo He.
  induction Hruns as [s events settled e Hend|s l1 s' l2 settled e Hnext Hruns IH]; intros lo l Htidy Hlo He.
  - destruct Hend; try done. all: apply (f_equal last) in He; rewrite last_snoc in He; cbn in He; done.
  - pose proof (runs_ends_once _ _ _ _ Hruns) as (_ & l3 & state & cause' & f' & Hl2 & _ & _ & _ & Hab).
    rewrite Hl2, app_assoc in He. apply app_inj_tail in He as [Hl He]. injection He as -> -> ->.
    destruct (Hab eq_refl) as (request & failure & Hlast & Hone & _).
    assert ((1, Err failure) ∈ executions l2) as Hin.
    { apply last_Some in Hlast as [l4 ->]. rewrite Hl2, !executions_app. apply elem_of_app. left. apply elem_of_app. right.
      unfold executions. cbn. rewrite Hone. by left. }
    destruct (next_tidy _ _ _ _ Htidy Hnext) as (stage & rest & Hp & _ & Hcase). destruct (tidy_head _ _ _ _ Htidy Hp) as [Hhead _].
    destruct Hcase as [(settlement & _ & Ht)|(e' & Hexec & _ & Ht & _)].
    + pose proof (runs_above _ _ _ _ _ Ht Hruns) as Habove. rewrite Forall_forall in Habove. specialize (Habove _ Hin). cbn in Habove. lia.
    + rewrite (IH (Ordinal stage - 1) l3 Ht ltac:(lia) Hl2). by destruct Hnext.
Qed.

(** *** A run has a bound *)

Definition work (s : Saga) : nat :=
  match sg_pending s with
  | [] => 0
  | stage :: _ => Z.to_nat (2 * (6 - Ordinal stage) - (if decide (Ordinal stage ∈ sg_retried s) then 1 else 0))
  end.

Lemma work_bound lo s : tidy lo s -> 0 <= lo -> (work s <= Z.to_nat (2 * (5 - lo)))%nat.
Proof.
  intros Ht Hlo. unfold work. destruct (sg_pending s) as [|stage rest] eqn:Hp; [lia|]. destruct (tidy_head _ _ _ _ Ht Hp) as [? _].
  destruct (decide _); lia.
Qed.

Lemma next_work lo s l s' : tidy lo s -> 0 <= lo -> Next s l s' -> (work s' < work s)%nat.
Proof using ordered.
  intros Ht Hlo Hnext. destruct (next_tidy _ _ _ _ Ht Hnext) as (stage & rest & Hp & _ & Hcase). destruct (tidy_head _ _ _ _ Ht Hp) as [Hhead _].
  assert (work s = Z.to_nat (2 * (6 - Ordinal stage) - (if decide (Ordinal stage ∈ sg_retried s) then 1 else 0))) as -> by (unfold work; by rewrite Hp).
  destruct Hcase as [(settlement & _ & Ht')|(e & _ & _ & Ht' & Hnew & Hret & _)].
  - pose proof (work_bound _ _ Ht' ltac:(lia)). destruct (decide _); lia.
  - rewrite decide_False by done. unfold work. destruct (sg_pending s') as [|stage' rest'] eqn:Hp'; [lia|].
    destruct (tidy_head _ _ _ _ Ht' Hp') as [Hhead' _]. destruct (decide (Ordinal stage' = Ordinal stage)) as [->|]; [rewrite decide_True by done; lia|].
    destruct (decide _); lia.
Qed.
End machine_runs.
