(* ===== verification/SequentialRuns.v ===== *)
(** * Runs of the executor of dependent plans

    The executor of [SequentialExecutor] against the machine of [SequentialMachine].  A
    log is a view of the world that grows by one event with every stage executed,
    settlement recorded and operation finished, and that no other port touches
    ([Logs]).

    Theorems: every run of the stage loop is a run of the machine and ends within the
    loop's bound; an execution sends no transaction twice that may have had an
    effect, and finishes what it created exactly once. *)
From S2P Require Import Prelude Amount Quote Registry Arbitrage Allocation Inventory Execution Sequential SequentialPorts SequentialEconomics SequentialExecutor SequentialMachine EventLog.
Local Open Scope Z_scope.

(** ** No check panics *)

Lemma Stage_Validate_no_panic s : no_panic (Stage_Validate s).
Proof. unfold Stage_Validate, stage_route, stage_dependency. no_panic_auto; try (apply no_panic_foldM; intros; no_panic_auto). Qed.
#[export] Hint Resolve Stage_Validate_no_panic : no_panic.

Lemma StageRequest_no_panic r : no_panic (StageRequest_Validate r).
Proof. unfold StageRequest_Validate. no_panic_auto. Qed.
Lemma Identity_no_panic i : no_panic (TransactionIdentity_Validate i).
Proof. unfold TransactionIdentity_Validate. no_panic_auto. Qed.
Lemma Cost_no_panic c : no_panic (CostComponent_Validate c).
Proof. unfold CostComponent_Validate. no_panic_auto. Qed.
#[export] Hint Resolve StageRequest_no_panic Identity_no_panic Cost_no_panic no_panic_wrap no_panic_foldM : no_panic.

Lemma StageSettlement_no_panic s : no_panic (StageSettlement_Validate s).
Proof. unfold StageSettlement_Validate, settlement_destination, settlement_balances. no_panic_auto. Qed.
Lemma ExitDecision_no_panic decision : no_panic (ExitDecision_Validate decision).
Proof. unfold ExitDecision_Validate. no_panic_auto. Qed.
Lemma return_no_panic plan : no_panic (ReturnExitStages plan).
Proof. unfold ReturnExitStages, validate_stages. no_panic_auto. Qed.

Lemma InputFor_no_panic plan stage outputs : no_panic (InputFor plan stage outputs).
Proof. unfold InputFor, ParallelSellInput. no_panic_auto. Qed.

Lemma economics_no_panic plan result : no_panic (calculateSequentialEconomics plan result).
Proof.
  unfold calculateSequentialEconomics. destruct (decide _); [apply no_panic_Err|]. destruct (selected_candidate _) as [c|]; [|apply no_panic_Err]. cbv zeta.
  destruct (decide _) as [|Hc]; [apply no_panic_Ok|]. unfold Rat_Quo. rewrite decide_False.
  2:{ intros Hz%(f_equal Num). rewrite Num_SetInt in Hz. apply Hc. rewrite IsZero_iff. tauto. }
  assert (forall a v, no_panic (NewAssetQuantity a v)) as Hn by (intros; unfold NewAssetQuantity; no_panic_auto).
  cbn [mbind res_bind]. unfold AssetQuantity_Sub. no_panic_auto. all: try apply Hn.
  unfold add_cost, AssetQuantity_Add. no_panic_auto.
Qed.

(** ** Logs *)

Section logs.
Context {W : Type} (log : W -> list event).
Abbreviation Silent := (Silent log).
Abbreviation Noted := (Noted log).

(** The ports keep the log and do not panic: a call is the event of its port or silent. *)
Record Logs (ports : Ports W) : Prop := {
  l_execute : forall stage driver request, Driver (drivers ports) stage = Ok driver ->
    Noted (Executed request) (ExecuteStage driver request);
  l_record : forall settlement, Noted (Recorded settlement) (RecordStageSettlement (journal ports) settlement);
  l_finish : forall id state cause, Noted (Finished state cause) (FinishSequentialOperation (journal ports) id state cause);
  l_observer : forall e w, log (observer ports e w) = log w;
  l_active : Silent (ActiveSequentialOperation (journal ports));
  l_create : forall operation, Silent (CreateSequentialOperation (journal ports) operation);
  l_recovery : forall recovery, RecoveryJournal (journal ports) = Some recovery ->
    (forall operation plan, Silent (CreateRecoverableSequentialOperation recovery operation plan)) /\
    (forall id state cause, Silent (SetSequentialRecoveryState recovery id state cause));
  l_result : forall record, RecordSequentialResult (journal ports) = Some record -> forall result, Silent (record result);
  l_exit : forall record, RecordSequentialExitDecision (journal ports) = Some record -> forall decision, Silent (record decision);
  l_costs : forall record, RecordStageFailureCosts (journal ports) = Some record -> forall id ordinal costs, Silent (record id ordinal costs);
  l_select : forall selector, ds_ExitSelector (drivers ports) = Some selector ->
    (forall id plan amount costs, Silent (SelectExit selector id plan amount costs)) /\
    (forall select, SelectRecoveryExit selector = Some select -> forall id plan amount costs, Silent (select id plan amount costs)) /\
    (forall prefunded, PrefundedExitSelector selector = Some prefunded ->
       (forall id plan amount costs, Silent (SelectPrefundedExit prefunded id plan amount costs)) /\
       (forall id plan amount costs cause, Silent (SelectPrefundedRecoveryExit prefunded id plan amount costs cause)));
  l_preflight : forall driver preflight, ds_Buy (drivers ports) = Some driver -> driver_Preflight driver = Some preflight ->
    (forall id plan, Silent (Preflight preflight id plan)) /\ (forall id w, log (DiscardPreflight preflight id w) = log w);
  l_swaps : forall driver, ds_Buy (drivers ports) = Some driver ->
    (forall swaps, ExecuteParallelSwaps driver = Some swaps -> forall id plan, Noted Swapped (swaps id plan)) /\
    (forall staged swaps, TriggeredSwaps driver = Some (staged, swaps) -> forall id plan, Noted Swapped (swaps id plan));
  l_async : forall restorer, asyncQuote ports = Some restorer ->
    (forall request driver, Noted (Restoring request) (async_Start restorer request driver)) /\
    (forall id, Silent (async_BeginBase restorer id)) /\ (forall id e, Silent (async_CompleteBase restorer id e));
  l_convert : forall stage driver convert, Driver (drivers ports) stage = Ok driver -> ConvertStageInput driver = Some convert ->
    forall stage amount, no_panic (convert stage amount) }.
End logs.

(** ** The stage loop runs the machine *)

Definition saga_of (pg : Progress) : Saga :=
  mkSaga (drop (pg_index pg) (pg_stages pg)) (pg_current pg) (pg_outputs pg) (dom (pg_attempts pg)) (sq_Settlements (pg_result pg)).

Section refinement.
Context {W : Type} {typed : TypedErrors} (error_text : error -> string) (ports : Ports W) (plan : SequentialPlan) (id : OperationID).
Context (log : W -> list event) (logs : Logs log ports) (ordered : ordered_plan plan).

Abbreviation Emits := (Emits log).
Abbreviation Next := (Next ports plan id).
Abbreviation Ending := (Ending ports plan id).
Abbreviation Runs := (Runs ports plan id).

Lemma Emits_observe {A} e (m : unit -> ST W A) (Q : res A -> list event -> Prop) : Emits (m tt) Q -> Emits (observe ports e ≫= m) Q.
Proof using logs.
  intros Hm w. specialize (Hm (observer ports e w)). unfold observe, modify, mbind, st_bind. cbn. by rewrite (l_observer _ _ logs) in Hm.
Qed.

Lemma Emits_now {A} (m : Time -> ST W A) (Q : res A -> list event -> Prop) : (forall t, Emits (m t) Q) -> Emits (now ports ≫= m) Q.
Proof. intros Hm w. apply (Hm (clock ports w) w). Qed.

Lemma Emits_deferring {A} (cleanup : W -> W) (m : ST W A) (Q : res A -> list event -> Prop) :
  (forall w, log (cleanup w) = log w) -> Emits m Q -> Emits (deferring cleanup m) Q.
Proof.
  intros Hc Hm w. destruct (Hm w) as (Hp & l & Hl & HQ). unfold deferring. destruct (m w) as [r w']. cbn in *. rewrite Hc. eauto.
Qed.

Lemma persist_silent decision : Silent log (persistExitDecision ports decision).
Proof using logs.
  apply Silent_bind; [apply Silent_lift, ExitDecision_no_panic|]. intros _. destruct (RecordSequentialExitDecision (journal ports)) as [record|] eqn:Hr.
  - by apply (l_exit _ _ logs).
  - apply Silent_fail.
Qed.

Lemma record_result_silent result : Silent log (record_result ports result).
Proof using logs.
  unfold record_result. destruct (RecordSequentialResult (journal ports)) as [record|] eqn:Hr.
  - by apply (l_result _ _ logs).
  - apply Silent_mret.
Qed.

Lemma finish_emits operation state result cause :
  Emits (finish error_text ports operation state result cause)
    (fun r l => exists f, l = [Finished state cause f] /\ match r with Ok _ => f = Ok tt | Err e => f = Err e | Panic _ => False end).
Proof using logs.
  unfold finish. apply (Emits_bind _ _ _ (fun r l => l = [Finished state cause r])).
  - apply (Emits_noted _ _ _ _ (l_finish _ _ logs _ _ _)). by intros.
  - intros e l ->. by exists (Err e).
  - intros [] l ->. intros w. split; [apply no_panic_Ok|]. exists []. unfold now, observe, modify, mbind, st_bind. cbn. rewrite (l_observer _ _ logs), app_nil_r. split; [done|]. by exists (Ok tt).
Qed.

(** What an early return leaves. *)
Lemma stop_emits operation state result cause returned (Q : res (SequentialResult * option error) -> list event -> Prop) :
  (forall f e, Q (Ok (result, Some e)) [Finished state (Some cause) f]) ->
  Emits (stop error_text ports operation state result cause returned) Q.
Proof using logs.
  intros HQ. unfold stop. eapply Emits_on_result; [apply finish_emits|..].
  - intros [] l (f & -> & ->). by apply Emits_mret, HQ.
  - intros e l (f & -> & ->). by apply Emits_mret, HQ.
Qed.

Lemma returning_stop_emits {A} operation state result cause returned (Q : res (A + (SequentialResult * option error)) -> list event -> Prop) :
  (forall f e, Q (Ok (inr (result, Some e))) [Finished state (Some cause) f]) ->
  Emits (returning (stop error_text ports operation state result cause returned)) Q.
Proof using logs.
  intros HQ. unfold returning.
  apply (Emits_bind _ _ _ (fun r l => exists f e, r = Ok (result, Some e) /\ l = [Finished state (Some cause) f])).
  - apply stop_emits. intros f e. by exists f, e.
  - intros e l (f & e' & [=] & _).
  - intros o l (f & e & [= ->] & ->). apply Emits_mret, HQ.
Qed.

Lemma complete_emits operation result :
  Emits (complete error_text ports operation result) (fun r l => exists f, l = [Finished SequentialCompleted None f] /\
    r = Ok (result, match f with Err e => Some e | _ => None end) /\ no_panic f).
Proof using logs.
  unfold complete. eapply Emits_on_result; [apply finish_emits|..]; intros ? l (f & -> & ->); apply Emits_mret; by eexists.
Qed.

(** *** The positions of the loop *)

Definition positions : list (list Z) := [[1; 2; 3; 4]; [1; 5]; [2; 3; 4]; [5]].

Definition position (pg : Progress) : Prop :=
  (EffectivePolicy plan = PolicyTransportedSequential /\ Ordinal <$> pg_stages pg = [1; 2; 3; 4]) \/
  (EffectivePolicy plan = PolicyPrefundedSequential /\ Ordinal <$> pg_stages pg ∈ positions).

(** What an exit decision and a recovery leave as it is. *)
Definition kept (pg pg' : Progress) : Prop :=
  pg_current pg' = pg_current pg /\ pg_outputs pg' = pg_outputs pg /\ sq_Settlements (pg_result pg') = sq_Settlements (pg_result pg) /\
  so_ID (pg_operation pg') = so_ID (pg_operation pg).

(** A part of an iteration goes on without an event, or ends in manual intervention. *)
Definition goes {A} (settled : list SequentialStageSettlement) (Good : A -> Prop) (r : res (A + (SequentialResult * option error)))
    (l : list event) : Prop :=
  match r with
  | Ok (inl a) => Good a /\ l = []
  | Ok (inr (result, e)) => sq_Settlements result = settled /\
      exists cause f e', e = Some e' /\ l = [Finished SequentialManualIntervention (Some cause) f]
  | _ => False
  end.

Lemma goes_stop {A} operation result cause returned (Good : A -> Prop) settled :
  sq_Settlements result = settled ->
  Emits (returning (stop error_text ports operation SequentialManualIntervention result cause returned)) (goes settled Good).
Proof using logs. intros Hs. apply returning_stop_emits. intros f e. split; [done|]. by exists cause, f, e. Qed.

Lemma goes_mret {A} (a : A) (Good : A -> Prop) settled : Good a -> Emits (mret (inl a)) (goes settled Good).
Proof. intros. by apply Emits_mret. Qed.

Lemma goes_on_result {A B} (m : ST W A) (good : A -> ST W (B + (SequentialResult * option error))) bad (P : A -> Prop) (Good : B -> Prop) settled :
  Emits m (fun r l => l = [] /\ match r with Ok a => P a | _ => True end) ->
  (forall a, P a -> Emits (good a) (goes settled Good)) -> (forall e, Emits (bad e) (goes settled Good)) ->
  Emits (on_result m good bad) (goes settled Good).
Proof. intros Hm Hg Hb. eapply Emits_on_result; [apply Hm|..]; intros ? l [-> Hp]; cbn; auto. Qed.

Lemma silently_true {A} (m : ST W A) : Silent log m -> Emits m (fun r l => l = [] /\ match r with Ok a => True | _ => True end).
Proof. intros Hm. apply Emits_silent; [done|]. by intros []. Qed.

Lemma and_then_emits {A B} (m : ST W (A + (SequentialResult * option error))) (f : A -> ST W (B + (SequentialResult * option error)))
    settled (Good : A -> Prop) (R : res (B + (SequentialResult * option error)) -> list event -> Prop) :
  Emits m (goes settled Good) -> (forall a, Good a -> Emits (f a) R) ->
  (forall result cause f e, sq_Settlements result = settled ->
     R (Ok (inr (result, Some e))) [Finished SequentialManualIntervention (Some cause) f]) ->
  Emits (and_then m f) R.
Proof.
  intros Hm Hf Hs. unfold and_then. eapply Emits_bind; [apply Hm|done|].
  intros [a|[result e]] l; [intros [Ha ->]|intros (Hset & cause & g & e' & -> & ->)]; cbn; [by apply Hf|]. apply Emits_mret, Hs, Hset.
Qed.

Lemma plan_ordinals n : Ordinal <$> drop n (p_Stages plan) = drop n [1; 2; 3; 4].
Proof using ordered. destruct ordered as [H _]. by rewrite fmap_drop, H. Qed.

Lemma take_ordinals n (l : list SequentialStagePlan) ordinals : Ordinal <$> l = ordinals -> Ordinal <$> take n l = take n ordinals.
Proof. intros <-. by rewrite fmap_take. Qed.

(** *** Exits *)

Lemma prefunded_selection selector : prefunded_selector ports = Some selector ->
  (forall i amount costs, Silent log (SelectPrefundedExit selector i plan amount costs)) /\
  (forall i amount costs cause, Silent log (SelectPrefundedRecoveryExit selector i plan amount costs cause)).
Proof using logs.
  unfold prefunded_selector. destruct (ds_ExitSelector (drivers ports)) as [s|] eqn:Hs; [|done]. cbn. intros Hp.
  destruct (l_select _ _ logs s Hs) as (_ & _ & H). destruct (H _ Hp) as [H1 H2]. split; intros; [apply H1|apply H2].
Qed.

Lemma prefunded_recovery i bought costs cause :
  Emits (selectPrefundedRecoveryExit ports i plan bought costs cause)
    (fun r l => l = [] /\ match r with Ok (stages, _) => stages = drop 1 (p_Stages plan) \/ stages = p_CircuitBreaker plan | _ => True end).
Proof using logs.
  unfold selectPrefundedRecoveryExit. destruct (prefunded_selector ports) as [selector|] eqn:Hs; [|by apply Emits_lift; [apply no_panic_Err|]].
  eapply Emits_bind; [apply silently_true, (proj2 (prefunded_selection _ Hs))|done|]. intros decision l [-> _]. cbn.
  eapply Emits_bind; [apply silently_true, persist_silent|done|]. intros [] l [-> _]. cbn.
  destruct (decide _); [apply Emits_mret; auto|]. destruct (decide _); [apply Emits_mret; auto|by apply Emits_lift; [apply no_panic_Err|]].
Qed.

Lemma bridge_recovery i amount costs cause :
  Emits (reselectPostBridgeExit ports i plan amount costs cause)
    (fun r l => l = [] /\ match r with Ok (stages, _) => ReturnExitStages plan = Ok stages \/ stages = drop 2 (p_Stages plan) | _ => True end).
Proof using logs.
  unfold reselectPostBridgeExit. destruct (ds_ExitSelector (drivers ports)) as [s|] eqn:Hs; cbn; [|by apply Emits_lift; [apply no_panic_Err|]].
  destruct (SelectRecoveryExit s) as [select|] eqn:Hr; [|by apply Emits_lift; [apply no_panic_Err|]]. destruct (l_select _ _ logs s Hs) as (_ & Hsel & _).
  eapply Emits_bind; [apply silently_true, (Hsel _ Hr)|done|]. intros decision l [-> _]. cbn.
  eapply Emits_bind; [apply silently_true, Silent_lift, ExitDecision_no_panic|done|]. intros [] l [-> _]. cbn.
  eapply (Emits_bind _ _ _ (fun _ l => l = [])); [|by intros ? ? ->|].
  { destruct (RecordSequentialExitDecision (journal ports)) as [record|] eqn:Hrec; [|by apply Emits_lift; [apply no_panic_Err|]].
    apply Emits_silent; [by apply (l_exit _ _ logs)|done]. }
  intros [] l ->. cbn. destruct (decide _); [|apply Emits_mret; auto].
  eapply (Emits_bind _ _ _ (fun r l => r = ReturnExitStages plan /\ l = [])); [by apply Emits_lift; [apply return_no_panic|]|by intros ? ? [_ ->]|].
  intros st l [Hst ->]. apply Emits_mret. split; [done|]. by left.
Qed.

(** *** One iteration *)

Lemma choose_exit_emits pg stage :
  position pg -> pg_stages pg !! pg_index pg = Some stage -> so_ID (pg_operation pg) = id ->
  Emits (choose_exit error_text ports plan pg stage) (goes (sq_Settlements (pg_result pg)) (fun pg' =>
    kept pg pg' /\ pg_attempts pg' = pg_attempts pg /\ position (next_index pg') /\
    after_settled plan stage (drop (S (pg_index pg)) (pg_stages pg)) (drop (S (pg_index pg')) (pg_stages pg')))).
Proof using logs ordered.
  intros Hpos Hstage Hid. unfold choose_exit. destruct (decide _) as [[Hpol Hord]|Hpre].
  - unfold prefunded_exit. destruct (prefunded_selector ports) as [selector|] eqn:Hs; [|by apply goes_stop].
    eapply goes_on_result; [apply silently_true, (proj1 (prefunded_selection _ Hs))| |intros; by apply goes_stop]. intros decision _. cbn.
    eapply goes_on_result; [apply silently_true, persist_silent| |intros; by apply goes_stop]. intros [] _. apply Emits_observe, goes_mret.
    split; [done|]. split; [done|]. cbn. destruct Hpos as [[Ht _]|[_ Hpos]]; [by rewrite Ht in Hpol|]. destruct (decide _); [|by split; [right|left]].
    assert (pg_index pg = 0%nat /\ take 1 (pg_stages pg) = [stage]) as [-> Htake].
    { apply (f_equal (fmap Ordinal)) in Hstage as Ho. rewrite <- list_lookup_fmap in Ho. cbn in Ho. rewrite Hord in Ho.
      unfold positions in Hpos. rewrite !elem_of_cons in Hpos.
      assert (pg_index pg = 0%nat) as Hi; [|split; [done|]].
      { destruct Hpos as [H|[H|[H|[H|H%elem_of_nil]]]]; [..|done]; rewrite H in Ho; destruct (pg_index pg) as [|[|[|[|n]]]]; done. }
      rewrite Hi in Hstage. destruct (pg_stages pg); [done|]. cbn in *. by simplify_eq. }
    rewrite Htake. destruct ordered as [_ [Ht|[_ Hcb]]]; [by rewrite Ht in Hpol|]. split.
    + right. split; [done|]. cbn. rewrite Hcb, Hord. unfold positions. rewrite !elem_of_cons. auto.
    + right. left. done.
  - destruct (ds_ExitSelector (drivers ports)) as [selector|] eqn:Hs; [|by apply goes_mret; split_and!; try done; left].
    destruct (decide _) as [[Hpol Hord]|]; [|by apply goes_mret; split_and!; try done; left].
    destruct Hpos as [[_ Hpos]|[Hp _]]; [|by rewrite Hp in Hpol]. destruct (l_select _ _ logs selector Hs) as (Hsel & _).
    unfold transported_exit. eapply goes_on_result; [apply silently_true, Hsel| |intros; by apply goes_stop]. intros decision _.
    eapply goes_on_result; [| |intros; by apply goes_stop].
    { apply silently_true, Silent_bind; [apply Silent_lift, ExitDecision_no_panic|]. intros _. apply persist_silent. }
    intros [] _. eapply (goes_on_result _ _ _ (fun stages => stages = pg_stages pg \/
      exists ret, ReturnExitStages plan = Ok ret /\ stages = take 2 (pg_stages pg) ++ ret)); [| |intros; by apply goes_stop].
    { destruct (decide _); [|apply Emits_mret; auto].
      eapply (Emits_bind _ _ _ (fun r l => r = ReturnExitStages plan /\ l = [])); [by apply Emits_lift; [apply return_no_panic|]|by intros ? ? [_ ->]|].
      intros ret l [Hret ->]. apply Emits_mret. split; [done|]. right. by exists ret. }
    intros stages Hst. apply Emits_observe, goes_mret. split; [done|]. split; [done|]. cbn.
    destruct Hst as [->|(ret & Hret & ->)]; [by split; left|].
    assert (pg_index pg = 1%nat) as ->.
    { apply (f_equal (fmap Ordinal)) in Hstage. rewrite <- list_lookup_fmap, Hpos in Hstage. cbn in Hstage. rewrite Hord in Hstage.
      destruct (pg_index pg) as [|[|[|[|n]]]]; done. }
    split.
    + left. split; [done|]. cbn. rewrite fmap_app, (take_ordinals _ _ _ Hpos), (return_ordinals _ _ Hret). done.
    + right. right. split; [done|]. split; [done|]. rewrite drop_app_length'; [done|].
      apply (f_equal length) in Hpos. rewrite length_fmap in Hpos. cbn in Hpos. rewrite length_take. lia.
Qed.

Lemma failure_costs_emits pg stage e :
  Emits (failure_costs error_text ports pg stage e)
    (goes (sq_Settlements (pg_result pg)) (fun result => sq_Settlements result = sq_Settlements (pg_result pg))).
Proof using logs.
  unfold failure_costs. destruct (decide _); [by apply goes_mret|].
  destruct (RecordStageFailureCosts (journal ports)) as [record|] eqn:Hr; [|by apply goes_stop].
  eapply goes_on_result; [apply silently_true; by apply (l_costs _ _ logs)| |intros; by apply goes_stop]. intros [] _. by apply goes_mret.
Qed.

Lemma recover_sale_emits pg stage e :
  position pg -> pg_stages pg !! pg_index pg = Some stage -> ~ (EffectivePolicy plan = PolicyPrefundedSequential /\ Ordinal stage <> 2) ->
  Emits (recover_sale error_text ports plan pg stage e) (goes (sq_Settlements (pg_result pg)) (fun pg' =>
    kept pg pg' /\ pg_attempts pg' = <[Ordinal stage := S (default 0%nat (pg_attempts pg !! Ordinal stage))]> (pg_attempts pg) /\ position pg' /\
    after_failed plan stage (drop (S (pg_index pg)) (pg_stages pg)) (drop (pg_index pg') (pg_stages pg')))).
Proof using logs ordered.
  intros Hpos Hstage Hcan. unfold recover_sale.
  set (pg1 := mkProgress _ _ _ _ (<[Ordinal stage := _]> _) _ _).
  destruct (decide _) as [[Hpol Hord]|Hpre].
  - eapply goes_on_result; [apply prefunded_recovery| |intros; by apply goes_stop]. intros [stages decision] Hst.
    apply Emits_observe, goes_mret. split; [done|]. split; [done|].
    destruct Hpos as [[Ht _]|[_ Hpos]]; [by rewrite Ht in Hpol|]. destruct ordered as [Hplan [Ht|[_ Hcb]]]; [by rewrite Ht in Hpol|].
    split; [|left; by destruct Hst as [->| ->]; auto]. right. split; [done|]. cbn. unfold positions. rewrite !elem_of_cons.
    destruct Hst as [->| ->]; [rewrite plan_ordinals|rewrite Hcb]; auto.
  - assert (Hne : EffectivePolicy plan <> PolicyPrefundedSequential) by (destruct (decide (Ordinal stage = 2)); tauto).
    destruct Hpos as [[Hpol Hpos]|[Hp _]]; [|done]. destruct (decide _) as [Hord|Hord].
    + eapply goes_on_result; [apply bridge_recovery| |intros; by apply goes_stop]. intros [stages decision] Hst.
      apply Emits_observe, goes_mret. split; [done|]. split; [done|]. cbn.
      assert (pg_index pg = 2%nat) as Hi.
      { apply (f_equal (fmap Ordinal)) in Hstage. rewrite <- list_lookup_fmap, Hpos in Hstage. cbn in Hstage. rewrite Hord in Hstage.
        destruct (pg_index pg) as [|[|[|[|n]]]]; done. }
      rewrite Hi, drop_app_length'; [|apply (f_equal length) in Hpos; rewrite length_fmap in Hpos; cbn in Hpos; rewrite length_take; lia].
      split; [left; split; [done|]|right; left; tauto]. cbn. rewrite fmap_app, (take_ordinals _ _ _ Hpos).
      destruct Hst as [Hret| ->]; [by rewrite (return_ordinals _ _ Hret)|by rewrite plan_ordinals].
    + apply goes_mret. split; [done|]. split; [done|]. split; [by left|]. right. right. split; [done|]. split; [done|]. by apply drop_S.
Qed.

(** The loop's invariant: no attempt is counted as none. *)
Definition well_placed (pg : Progress) : Prop :=
  position pg /\ so_ID (pg_operation pg) = id /\ map_Forall (fun _ n => n <> 0%nat) (pg_attempts pg).

(** An iteration is a step of the machine, or an end of it. *)
Definition iterates (s : Saga) (r : res (Progress + (SequentialResult * option error))) (l : list event) : Prop :=
  match r with
  | Ok (inl pg) => Next s l (saga_of pg) /\ well_placed pg
  | Ok (inr (result, e)) => Ending s l (sq_Settlements result) e
  | _ => False
  end.

Section stage.
Context (pg : Progress) (stage : SequentialStagePlan) (request : SequentialStageRequest).
Hypothesis (Hplaced : well_placed pg) (Hstage : pg_stages pg !! pg_index pg = Some stage)
  (Hrequest : requests ports plan id (saga_of pg) stage request).

Lemma pending_head : sg_pending (saga_of pg) = stage :: drop (S (pg_index pg)) (pg_stages pg).
Proof using Hstage. cbn. by apply drop_S. Qed.
Tactic Notation "ending" uconstr(c) := eapply c; [apply pending_head|done..].

Lemma stage_settled_emits settlement :
  Emits (stage_settled error_text ports plan pg stage settlement)
    (fun r l => iterates (saga_of pg) r (Executed request (Ok settlement) :: l)).
Proof using All.
  destruct Hplaced as (Hpos & Hid & Hcount). unfold stage_settled. eapply (Emits_on_result _ _ _ _ (fun r l => match r with
    | Ok _ => StageSettlement_Validate settlement = Ok tt /\ l = [Recorded settlement (Ok tt)]
    | Err e => l = [] \/ exists e, l = [Recorded settlement (Err e)] | _ => False end)).
  - apply (Emits_bind _ _ _ (fun r l => r = StageSettlement_Validate settlement /\ l = [])).
    + by apply Emits_lift; [apply StageSettlement_no_panic|].
    + intros e l [_ ->]. by left.
    + intros [] l [Hv ->]. eapply Emits_noted; [apply (l_record _ _ logs)|]. intros [[]|e|why] Hr; cbn; [done|eauto|by destruct (Hr why)].
  - intros [] l [Hv ->]. apply Emits_observe. eapply and_then_emits.
    + apply (choose_exit_emits (settle_progress pg stage settlement)); done.
    + intros pg' ((Hcur & Hout & Hset & Hid') & Hatt & Hpos' & Hafter). apply Emits_mret. cbn in *. split; [|split; [done|split; [exact (eq_trans Hid' Hid)|cbn; by rewrite Hatt]]].
      unfold saga_of. cbn. rewrite Hcur, Hout, Hatt, Hset. cbn.
      by apply (next_settled ports plan id (saga_of pg) stage _ request settlement _ pending_head).
    + intros result cause f e Hset. cbn in *. rewrite Hset. ending ending_undecided.
  - intros e l Hl. apply returning_stop_emits. intros f e'. destruct Hl as [->|[e'' ->]]; cbn; [ending ending_invalid|ending ending_unrecorded].
Qed.

Lemma recoverable e attempts : canAutomaticallyRecoverSwap plan stage e attempts = true ->
  attempts = 0%nat /\ Stage stage = StageSell /\ ~ (EffectivePolicy plan = PolicyPrefundedSequential /\ Ordinal stage <> 2) /\
  IsDefinitiveFailure e = true.
Proof.
  clear. unfold canAutomaticallyRecoverSwap. intros H. destruct (decide _) as [|H1] in H; [done|]. destruct (decide _) as [|H2] in H; [done|].
  destruct (decide _) as [|H3] in H; [done|]. split; [lia|]. split; [by apply dec_stable|]. done.
Qed.

Lemma stage_failed_emits e :
  Emits (stage_failed error_text ports plan pg stage e) (fun r l => iterates (saga_of pg) r (Executed request (Err e) :: l)).
Proof using All.
  destruct Hplaced as (Hpos & Hid & Hcount). unfold stage_failed. eapply and_then_emits; [apply failure_costs_emits| |].
  - intros result Hres. cbn. destruct (canAutomaticallyRecoverSwap _ _ _ _) eqn:Hcan.
    + apply recoverable in Hcan as (Hatt & Hsell & Hpol & Hdef).
      eapply Emits_weaken; [apply (recover_sale_emits (with_result pg result)); done|].
      intros r l _ Hgo. destruct r as [[pg1|[result1 e1]]|e1|why]; [..|done|done].
      * destruct Hgo as (((Hcur & Hout & Hset & Hid') & Hins & Hpos' & Hafter) & ->). cbn in *.
        split; [|split; [done|split; [exact (eq_trans Hid' Hid)|cbn; rewrite Hins; by apply map_Forall_insert_2]]].
        unfold saga_of. rewrite Hcur, Hout, Hins, dom_insert_L, Hset, Hres.
        apply (next_retried ports plan id (saga_of pg) stage _ request e _ pending_head); try done.
        cbn. intros Hin. apply elem_of_dom in Hin as [n Hn]. rewrite Hn in Hatt. by apply (Hcount _ _ Hn).
      * destruct Hgo as (Hset & cause & f & e2 & -> & ->). cbn in *. rewrite Hset, Hres. ending ending_failed.
    + apply returning_stop_emits. intros f e'. cbn. rewrite Hres. destruct (decide _) as [[Ho Hd]|]; [ending ending_aborted|ending ending_failed].
  - intros result cause f e' Hset. cbn. rewrite Hset. ending ending_failed.
Qed.
End stage.

Lemma Driver_no_panic kind : no_panic (Driver (drivers ports) kind).
Proof. unfold Driver. no_panic_auto. Qed.

Lemma resolveInput_no_panic stage current outputs : no_panic (resolveInput ports plan stage current outputs).
Proof using logs.
  pose proof Driver_no_panic. pose proof (InputFor_no_panic plan). unfold resolveInput, awaits. no_panic_auto. by eapply (l_convert _ _ logs).
Qed.

Lemma stage_request_no_panic pg stage : no_panic (stage_request ports plan pg stage).
Proof using logs. pose proof Driver_no_panic. pose proof resolveInput_no_panic. unfold stage_request. no_panic_auto. Qed.

Lemma iterate_emits pg stage : well_placed pg -> pg_stages pg !! pg_index pg = Some stage ->
  Emits (iterate error_text ports plan pg stage) (iterates (saga_of pg)).
Proof using logs ordered.
  intros Hplaced Hstage. pose proof Hplaced as (Hpos & Hid & Hcount). unfold iterate.
  apply (Emits_on_result _ _ _ _ (fun r l => r = stage_request ports plan pg stage /\ l = [])); [by apply Emits_lift; [apply stage_request_no_panic|]|..].
  - intros [request driver] l [Hreq ->]. cbn. unfold stage_request in Hreq.
    symmetry in Hreq. apply bind_Ok in Hreq as (input & Hin & ([] & Hval & (drv & Hdrv & [= Hr ->])%bind_Ok)%bind_Ok).
    assert (requests ports plan id (saga_of pg) stage request) as Hrequest by (exists input; rewrite <- Hr, Hid in *; done).
    apply Emits_observe. eapply (Emits_on_result _ _ _ _ (fun r l => l = [Executed request r])).
    + rewrite Hr in *. eapply Emits_noted; [by eapply (l_execute _ _ logs)|done].
    + intros settlement l ->. by apply stage_settled_emits.
    + intros e l ->. by apply stage_failed_emits.
  - intros e l [_ ->]. apply returning_stop_emits. intros f e'. apply ending_refused.
Qed.

Lemma all_settled_emits pg : pg_stages pg !! pg_index pg = None ->
  Emits (all_settled error_text ports plan pg)
    (fun r l => exists result e, r = Ok (result, e) /\ Ending (saga_of pg) l (sq_Settlements result) e).
Proof using logs.
  intros Hnone. unfold all_settled.
  apply (Emits_on_result _ _ _ _ (fun r l => r = calculateSequentialEconomics plan (with_final (pg_result pg) (pg_current pg)) /\ l = []));
    [by apply Emits_lift; [apply economics_no_panic|]|..].
  - intros result l [Heco ->]. cbn. symmetry in Heco. apply economics_settlements in Heco.
    eapply Emits_on_result; [apply silently_true, record_result_silent|..].
    + intros [] l [-> _]. cbn. eapply Emits_weaken; [apply complete_emits|]. intros r l _ (f & -> & -> & Hf).
      eexists _, _. split; [done|]. rewrite Heco. destruct f as [[]|e|why]; [| |by destruct (Hf why)].
      * apply ending_completed. by apply drop_ge, lookup_ge_None.
      * apply ending_uncertain_completion. by apply drop_ge, lookup_ge_None.
    + intros e l [-> _]. apply stop_emits. intros f e'. eexists _, _. split; [done|]. rewrite Heco. apply ending_refused.
  - intros e l [_ ->]. apply stop_emits. intros f e'. eexists _, _. split; [done|]. apply ending_refused.
Qed.

Lemma run_stages_emits fuel : forall pg lo, well_placed pg -> tidy lo (saga_of pg) -> 0 <= lo -> (work (saga_of pg) <= fuel)%nat ->
  Emits (run_stages error_text ports plan fuel pg) (fun r l => exists result e, r = Ok (result, e) /\ Runs (saga_of pg) l (sq_Settlements result) e).
Proof using logs ordered.
  induction fuel as [|fuel IH]; intros pg lo Hplaced Htidy Hlo Hwork; cbn; destruct (pg_stages pg !! pg_index pg) as [stage|] eqn:Hstage.
  - exfalso. pose proof (pending_head _ _ Hstage) as Hp. destruct (tidy_head _ _ _ _ Htidy Hp) as [Ho _].
    unfold work in Hwork. rewrite Hp in Hwork. destruct (decide _) in Hwork; lia.
  - eapply Emits_weaken; [by apply all_settled_emits|]. intros r l _ (result & e & -> & Hend). eexists _, _. split; [done|]. by apply runs_end.
  - eapply Emits_bind; [by apply iterate_emits|done|]. intros [pg'|[result e]] l; cbn.
    + intros [Hnext Hplaced']. destruct (next_tidy ports plan id ordered _ _ _ _ Htidy Hnext) as (stage' & rest & Hp & _ & Hcase).
      destruct (tidy_head _ _ _ _ Htidy Hp) as [Ho _]. pose proof (next_work ports plan id ordered _ _ _ _ Htidy Hlo Hnext) as Hless.
      assert (exists lo', tidy lo' (saga_of pg') /\ 0 <= lo') as (lo' & Htidy' & Hlo')
        by (destruct Hcase as [(? & _ & Ht)|(? & _ & _ & Ht & _)]; eexists; (split; [done|lia])).
      eapply Emits_weaken; [apply (IH pg' lo'); [done..|lia]|]. intros r l' _ (result & e & -> & Hruns).
      eexists _, _. split; [done|]. by eapply runs_next.
    + intros Hend. apply Emits_mret. eexists _, _. split; [done|]. rewrite app_nil_r. by apply runs_end.
  - eapply Emits_weaken; [by apply all_settled_emits|]. intros r l _ (result & e & -> & Hend). eexists _, _. split; [done|]. by apply runs_end.
Qed.
End refinement.

(** ** One execution *)

Section execution.
Context {W : Type} {typed : TypedErrors} (error_text : error -> string) (ports : Ports W) (plan : SequentialPlan) (id : OperationID).
Context (log : W -> list event) (logs : Logs log ports) (ordered : ordered_plan plan).
Abbreviation Emits := (Emits log).
Abbreviation Runs := (Runs ports plan id).

Definition first_saga : Saga := mkSaga (p_Stages plan) (p_InitialInput plan) ∅ ∅ [].

Lemma not_dual : ~ IsPrefundedDualInventory plan.
Proof using ordered. destruct ordered as [_ [Hp|[Hp _]]]; unfold IsPrefundedDualInventory; rewrite Hp; intros [?|?]; done. Qed.

Lemma plan_no_panic : no_panic (SequentialPlan_Validate plan).
Proof using ordered. unfold SequentialPlan_Validate, plan_policy, plan_ordinal. pose proof not_dual. no_panic_auto. all: done. Qed.

Lemma first_tidy : tidy 0 first_saga.
Proof using ordered. destruct ordered as [Hplan _]. unfold tidy, first_saga. cbn. rewrite Hplan. apply (ordered_drop 0). Qed.

(** Nothing was executed and an error is returned, or the machine ran. *)
Definition executes (r : res (SequentialResult * option error)) (l : list event) : Prop :=
  exists result e, r = Ok (result, e) /\
    ((l = [] /\ is_Some e /\ sq_Settlements result = []) \/ Runs first_saga l (sq_Settlements result) e).

Lemma executes_refused result e : sq_Settlements result = [] -> Emits (mret (result, Some e)) executes.
Proof. intros Hs. apply Emits_mret. eexists _, _. split; [done|]. left. by split_and!. Qed.

Lemma execute_created_emits first operation result :
  so_ID operation = id -> sq_Settlements result = [] -> Emits (execute_created error_text ports first operation plan result) executes.
Proof using logs ordered.
  intros Hid Hresult. unfold execute_created. apply Emits_observe; [done|]. rewrite decide_False by apply not_dual.
  assert (saga_of (first_progress operation plan result) = first_saga) as Hsaga.
  { unfold saga_of, first_saga. cbn. by rewrite dom_empty_L, Hresult. }
  eapply Emits_weaken; [apply (run_stages_emits _ _ _ id log logs ordered loop_bound (first_progress operation plan result) 0)|].
  - split; [|split; [done|apply map_Forall_empty]]. destruct ordered as [Hplan [Hp|[Hp _]]]; [left|right]; (split; [done|]); cbn; rewrite Hplan; [done|].
    by left.
  - rewrite Hsaga. apply first_tidy.
  - done.
  - rewrite Hsaga. pose proof (work_bound 0 first_saga first_tidy ltac:(lia)). unfold loop_bound. lia.
  - intros r l _ (res & e & -> & Hruns). rewrite Hsaga in Hruns. exists res, e. split; [done|]. by right.
Qed.

Lemma execute_operation_emits first result : sq_Settlements result = [] -> Emits (execute_operation error_text ports first id plan result) executes.
Proof using logs ordered.
  intros Hresult. unfold execute_operation. apply Emits_now. intros at_.
  eapply (Emits_on_result _ _ _ _ (fun _ l => l = [])).
  - apply Emits_silent; [|done]. unfold create_operation. destruct (RecoveryJournal (journal ports)) as [recovery|] eqn:Hr.
    + by apply (l_recovery _ _ logs).
    + by apply (l_create _ _ logs).
  - intros [] l ->. by apply execute_created_emits.
  - intros e l ->. by apply executes_refused.
Qed.

Lemma preflight_failed_emits result e : sq_Settlements result = [] -> Emits (preflight_failed ports id plan result e) executes.
Proof using logs.
  intros Hresult. unfold preflight_failed.
  eapply (Emits_bind _ _ _ (fun r l => l = [] /\ match r with Ok (inl _) => True | Ok (inr (res, e)) => is_Some e /\ sq_Settlements res = [] | _ => False end)).
  - unfold block_preflight. destruct (As_SimulationInvariant e) as [invariant|]; [|by apply Emits_mret]. apply Emits_now. intros blockedAt.
    destruct (RecoveryJournal (journal ports)) as [recovery|] eqn:Hr; [|by apply Emits_mret]. destruct (l_recovery _ _ logs _ Hr) as [Hcreate Hset].
    eapply Emits_on_result; [apply silently_true, Hcreate|..]; intros ? l [-> _]; [|apply Emits_mret; split; [done|]; split; [by eexists|done]].
    eapply Emits_on_result; [apply silently_true, Hset|..]; intros ? l [-> _]; apply Emits_mret; [done|split; [done|]; split; [by eexists|done]].
  - intros ? l [_ []].
  - intros [u|[res e']] l [-> Hx]; cbn; [by apply executes_refused|]. apply Emits_mret. eexists _, _. split; [done|]. left. by destruct Hx.
Qed.

Lemma execute_idle_emits first : Emits (execute_idle error_text ports first id plan) executes.
Proof using logs ordered.
  unfold execute_idle. destruct (decide _); [by apply executes_refused|].
  destruct (SequentialPlan_Validate plan) as [u|e|why] eqn:Hv; [|by apply executes_refused|by destruct (plan_no_panic why)].
  eapply Emits_on_result; [apply silently_true, (l_active _ _ logs)|..]; [|intros e l [-> _]; by apply executes_refused].
  intros [active|] l [-> _]; cbn; [by apply executes_refused|]. unfold preflight_and_execute.
  destruct (ds_Buy (drivers ports)) as [buy|] eqn:Hbuy; cbn; [|by apply execute_operation_emits].
  destruct (driver_Preflight buy) as [preflight|] eqn:Hpre; cbn; [|by apply execute_operation_emits].
  destruct (l_preflight _ _ logs buy preflight Hbuy Hpre) as [Hpf Hdiscard].
  eapply Emits_on_result; [apply silently_true, Hpf|..]; intros ? l [-> _]; [|by apply preflight_failed_emits].
  apply Emits_deferring; [apply Hdiscard|]. by apply execute_operation_emits.
Qed.

Lemma Execute_emits first w : exists result e l,
  (Execute error_text ports first id plan (false, w)).1 = Ok (result, e) /\
  (Execute error_text ports first id plan (false, w)).2.1 = false /\
  log (Execute error_text ports first id plan (false, w)).2.2 = log w ++ l /\ executes (Ok (result, e)) l.
Proof using logs ordered.
  destruct (execute_idle_emits first w) as (_ & l & Hl & (result & e & Hr & Hx)). unfold Execute. destruct (execute_idle _ _ _ _ _ w) as [r w']. cbn in *.
  exists result, e, l. split_and!; try done. by exists result, e.
Qed.

Lemma executes_cases result e l : executes (Ok (result, e)) l ->
  (l = [] /\ is_Some e /\ sq_Settlements result = []) \/ Runs first_saga l (sq_Settlements result) e.
Proof. clear. by intros (result' & e' & [= -> ->] & H). Qed.

(** C5.An idle executor given a plan executed stage by stage always answers and is idle
    again: it refused the operation without executing anything, or what it did is a
    run of the machine from the plan's stages, with the settlements and the error of
    the answer. *)
Theorem Execute_refines_machine (first : bool) (w : W) : exists result e l,
  (Execute error_text ports first id plan (false, w)).1 = Ok (result, e) /\
  (Execute error_text ports first id plan (false, w)).2.1 = false /\
  log (Execute error_text ports first id plan (false, w)).2.2 = log w ++ l /\
  ((l = [] /\ is_Some e /\ sq_Settlements result = []) \/ Runs first_saga l (sq_Settlements result) e).
Proof using logs ordered.
  destruct (Execute_emits first w) as (result & e & l & Hr & Hrun & Hl & Hx). exists result, e, l. split_and!; try done. by apply executes_cases.
Qed.

(** No stage is sent again that may have had an effect: of two stages an execution
    sends in order, the first has settled and the second has a higher ordinal, or
    the first is known to have failed without effect; and only right after such a
    failure may the second be the same stage, so that none is sent a third time. *)
Theorem Execute_never_resends (first : bool) (w : W) : exists l,
  log (Execute error_text ports first id plan (false, w)).2.2 = log w ++ l /\ never_resends (executions l).
Proof using logs ordered.
  destruct (Execute_emits first w) as (result & e & l & _ & _ & Hl & Hx). exists l. split; [done|].
  apply executes_cases in Hx as [(-> & _)|Hruns]; [by intros i j o1 r1 o2 r2 _ Hi|]. by eapply runs_never_resends; [|apply first_tidy|].
Qed.

End execution.

(** The plans the constructors build are executed stage by stage. *)
Lemma transported_ordered id opportunity initial buyChain sellChain createdAt plan :
  NewSequentialPlan id opportunity initial buyChain sellChain createdAt = Ok plan -> ordered_plan plan.
Proof. intros (c & _ & ->)%transported_inv. split; [done|by left]. Qed.
Lemma prefunded_ordered id opportunity initial buyChain sellChain createdAt plan :
  NewPrefundedSequentialPlan id opportunity initial buyChain sellChain createdAt = Ok plan -> ordered_plan plan.
Proof.
  unfold NewPrefundedSequentialPlan. intros (transported & _ & H)%bind_Ok. destruct (selected_candidate _); [|done]. cbv zeta in H.
  apply bind_Ok in H as ([] & _ & [= <-]). split; [done|by right].
Qed.

(** ** A world that records what is done in it *)

Module SequentialRunsWitness.
Fixpoint as_stage (e : error) : option StageError :=
  match e with
  | Wrapf _ e => as_stage e
  | Joined [Sentinel disposition; _] => Some (mkStageError disposition [])
  | _ => None
  end.
#[export] Instance typed : TypedErrors :=
  {| NewStageError disposition e := Joined [Sentinel disposition; e]; As_StageError := as_stage; As_RecoveryError _ := None;
     As_SimulationInvariant _ := None; As_NewStageError _ _ := eq_refl; As_Wrapf _ _ := eq_refl |}.

Definition world := list event.
Definition note {A} (event : res A -> event) (r : res A) : ST world A := fun w => (r, w ++ [event r]).

Definition identity : TransactionIdentity := mkTransactionIdentity "base" "account" "hash" None "" 0.
(** Everything settles as the route expects, one for one, except that the first sale
    fails without effect. *)
Definition settlement (request : SequentialStageRequest) : SequentialStageSettlement :=
  mkStageSettlement request (sr_Input request) (mkTokenAmount (OutputToken (sr_Stage request)) (Some (Units (sr_Input request)))) []
    identity (Some identity) None None 9 "seen".
Definition refused : error := NewStageError DispositionRejected (Errorf "simulation failed").
Definition execute (request : SequentialStageRequest) : ST world SequentialStageSettlement := fun w =>
  let failed := existsb (fun e => match e with Executed _ (Err _) => true | _ => false end) w in
  let r := if decide (Stage (sr_Stage request) = StageSell /\ failed = false) then Err refused else Ok (settlement request) in
  note (Executed request) r w.
Definition driver : SequentialStageDriver world := mkDriver execute None None None None None None.
Definition decision (id : OperationID) (input : TokenAmount) : SequentialExitDecision :=
  mkExitDecision id ExitSellAtDestination input TokenAmount_zero (SequentialWitness.money 1) AssetQuantity_zero (SequentialWitness.money 0) true false
    9 "quoted".
Definition selector : SequentialExitSelector world :=
  mkExitSelector (fun id _ input _ => mret (decision id input)) (Some (fun id _ input _ => mret (decision id input))) None.
Definition quiet_journal : SequentialJournal world :=
  mkJournal (fun _ => mret tt) (fun s => note (Recorded s) (Ok tt)) (fun _ state cause => note (Finished state cause) (Ok tt)) (mret None) None None
    (Some (fun _ => mret tt)) None.
Definition quiet : Ports world :=
  mkPorts quiet_journal (mkDriverSet (Some driver) (Some driver) (Some driver) (Some driver) (Some selector)) (fun w => 1 + Z.of_nat (length w)) (fun _ w => w) None.

Lemma driver_Ok stage d : Driver (drivers quiet) stage = Ok d -> d = driver.
Proof. unfold Driver. repeat (destruct (decide _); [by intros [= <-]|]). done. Qed.

Lemma quiet_logs : Logs (fun w => w) quiet.
Proof.
  constructor; try done.
  - intros stage d request ->%driver_Ok w. cbn. unfold execute, note. by destruct (decide _).
  - intros record [= <-]. by intros decision w.
  - intros s [= <-]. split; [|split]; [by intros ????? |intros select [= <-]; by intros ????? |done].
  - intros d preflight [= <-] [=].
  - intros d [= <-]. by split.
  - intros stage d convert ->%driver_Ok [=].
Qed.

Abbreviation run := (Execute (fun _ => "") quiet true "op" SequentialWitness.transported (false, [])).

(** The sale is sent twice, the second time after its definitive failure. *)
Example retried_sale :
  (executions run.2.2).*1 = [1; 2; 3; 3; 4] /\ last run.2.2 = Some (Finished SequentialCompleted None (Ok tt)) /\
  exists result, run.1 = Ok (result, None).
Proof. split; [vm_compute; reflexivity|]. split; [vm_compute; reflexivity|]. eexists. vm_compute. reflexivity. Qed.

Lemma transported_plan_ordered : ordered_plan SequentialWitness.transported.
Proof. split; [reflexivity|left; reflexivity]. Defined.

Lemma refines_witness : exists result e l,
  run.1 = Ok (result, e) /\ run.2.1 = false /\ run.2.2 = [] ++ l /\
  ((l = [] /\ is_Some e /\ sq_Settlements result = []) \/
   Runs quiet SequentialWitness.transported "op" (first_saga SequentialWitness.transported) l (sq_Settlements result) e).
Proof.
  apply (Execute_refines_machine (fun _ => "") quiet SequentialWitness.transported "op" (fun w => w) quiet_logs transported_plan_ordered).
Defined.

Lemma resends_witness : exists l, run.2.2 = [] ++ l /\ never_resends (executions l).
Proof.
  apply (Execute_never_resends (fun _ => "") quiet SequentialWitness.transported "op" (fun w => w) quiet_logs transported_plan_ordered).
Defined.

End SequentialRunsWitness.
