(* ===== verification/SequentialParallel.v ===== *)
(** * Runs of dual inventory operations

    The two swaps and the two bridges of a dual inventory plan
    ([executePrefundedParallel] of [SequentialExecutor]), as the log of them.  The
    theorem says what a log can be: the swaps are sent once, their settlements are
    recorded one after the other, and only when both were are the bridges sent, each
    once; the operation is completed only when all four stages settled and were
    recorded. *)
From Stdlib Require Import QArith Qcanon.
From S2P Require Import Prelude Amount Quote Registry Arbitrage Allocation Inventory Execution Sequential SequentialPorts SequentialEconomics SequentialExecutor SequentialMachine SequentialRuns EventLog.
Local Open Scope Z_scope.

Definition recordings (settlements : list SequentialStageSettlement) : list event := (fun s => Recorded s (Ok tt)) <$> settlements.

(** A settlement that could not be recorded: it is invalid, or the journal failed. *)
Inductive unrecorded (s : SequentialStageSettlement) : list event -> Prop :=
| unrecorded_invalid : unrecorded s []
| unrecorded_failed e : unrecorded s [Recorded s (Err e)].

(** What became of a bridge that was sent. *)
Inductive bridged : res SequentialStageSettlement -> list event -> list SequentialStageSettlement -> bool -> Prop :=
| bridged_recorded s : StageSettlement_Validate s = Ok tt -> bridged (Ok s) [Recorded s (Ok tt)] [s] true
| bridged_unrecorded s l : unrecorded s l -> bridged (Ok s) l [] false
| bridged_failed e : bridged (Err e) [] [] false.

(** The end of an operation whose bridges all settled or not. *)
Inductive closing : bool -> list event -> option error -> Prop :=
| closing_completed : closing true [Finished SequentialCompleted None (Ok tt)] None
| closing_uncertain e : closing true [Finished SequentialCompleted None (Err e)] (Some e)
| closing_unresolved ok cause f e : closing ok [Finished SequentialManualIntervention (Some cause) f] (Some e)
| closing_unstored e : closing true [] (Some e).

(** The bridges of stages three and four. *)
Inductive Bridges : list event -> list SequentialStageSettlement -> option error -> Prop :=
| bridges_unprepared e : Bridges [] [] (Some e)
| bridges_unhanded quote x e : Bridges [Restoring quote (Err x)] [] (Some e)
| bridges_async quote base r recorded settled ok last e :
    Ordinal (sr_Stage quote) = 4 -> Ordinal (sr_Stage base) = 3 -> bridged r recorded settled ok -> closing ok last e ->
    Bridges (Restoring quote (Ok tt) :: Executed base r :: recorded ++ last) settled e
| bridges_async_uncertain quote base s x cause f :
    Ordinal (sr_Stage quote) = 4 -> Ordinal (sr_Stage base) = 3 ->
    Bridges [Restoring quote (Ok tt); Executed base (Ok s); Finished SequentialManualIntervention (Some cause) f] [] (Some x)
| bridges_both (first : bool) base quote rb rq lb lq sb sq okb okq last e :
    Ordinal (sr_Stage base) = 3 -> Ordinal (sr_Stage quote) = 4 -> bridged rb lb sb okb -> bridged rq lq sq okq -> closing (okb && okq) last e ->
    Bridges ((if first then [Executed base rb; Executed quote rq] else [Executed quote rq; Executed base rb]) ++ lb ++ lq ++ last) (sb ++ sq) e.

(** A dual inventory operation: its log, what was recorded, its error. *)
Inductive Dual {typed : TypedErrors} : list event -> list SequentialStageSettlement -> option error -> Prop :=
| dual_refused e : Dual [] [] (Some e)
| dual_unrecorded settlements failure before s after l cause f e :
    settlements = before ++ s :: after -> unrecorded s l ->
    Dual (Swapped (Ok (settlements, failure)) :: recordings before ++ l ++ [Finished SequentialManualIntervention (Some cause) f]) before (Some e)
| dual_failed settlements failure state cause f e :
    state = (if decide (settlements = [] /\ IsDefinitiveFailure failure = true) then SequentialAborted else SequentialManualIntervention) ->
    Dual (Swapped (Ok (settlements, Some failure)) :: recordings settlements ++ [Finished state (Some cause) f]) settlements (Some e)
| dual_incomplete settlements e : length settlements <> 2%nat -> Dual (Swapped (Ok (settlements, None)) :: recordings settlements) settlements (Some e)
| dual_bridges settlements l settled e :
    length settlements = 2%nat -> Forall (fun s => StageSettlement_Validate s = Ok tt) settlements -> Bridges l settled e ->
    Dual (Swapped (Ok (settlements, None)) :: recordings settlements ++ l) (settlements ++ settled) e.

Section dual.
Context {W : Type} {typed : TypedErrors} (error_text : error -> string) (ports : Ports W) (plan : SequentialPlan).
Context (log : W -> list event) (logs : Logs log ports).
Abbreviation Emits := (Emits log).

Lemma record_emits operation result settlement :
  Emits (recordParallelSettlement ports (operation, result) settlement) (fun r l => match r with
    | Ok (_, result') => l = [Recorded settlement (Ok tt)] /\ StageSettlement_Validate settlement = Ok tt /\
        sq_Settlements result' = sq_Settlements result ++ [settlement]
    | Err _ => unrecorded settlement l
    | Panic _ => False end).
Proof using logs.
  unfold recordParallelSettlement.
  apply (Emits_bind _ _ _ (fun r l => r = StageSettlement_Validate settlement /\ l = [])).
  - by apply Emits_lift; [apply StageSettlement_no_panic|].
  - intros e l [_ ->]. constructor.
  - intros [] l [Hv ->]. apply (Emits_bind _ _ _ (fun r l => l = [Recorded settlement r])).
    + by eapply Emits_noted; [apply (l_record _ _ logs)|].
    + intros e l ->. constructor.
    + intros [] l ->. apply Emits_observe; [done|]. apply Emits_mret. by split_and!.
Qed.

(** The settlements that were recorded before one that could not be. *)
Lemma record_settlements_emits settlements : forall operation result,
  Emits (record_settlements error_text ports operation result settlements) (fun r l => match r with
    | Ok (inl (_, result')) => l = recordings settlements /\ Forall (fun s => StageSettlement_Validate s = Ok tt) settlements /\
        sq_Settlements result' = sq_Settlements result ++ settlements
    | Ok (inr (result', e)) => exists before s after l' cause f e', settlements = before ++ s :: after /\ unrecorded s l' /\
        l = recordings before ++ l' ++ [Finished SequentialManualIntervention (Some cause) f] /\ e = Some e' /\
        sq_Settlements result' = sq_Settlements result ++ before
    | _ => False end).
Proof using logs.
  induction settlements as [|s settlements IH]; intros operation result; cbn [record_settlements].
  - apply Emits_mret. split_and!; [done|constructor|by rewrite app_nil_r].
  - eapply Emits_on_result; [apply record_emits|..].
    + intros [operation' result'] l (-> & Hv & Hs). eapply Emits_weaken; [apply IH|]. intros r l' _ Hr.
      destruct r as [[[operation'' result'']|[result'' e]]|e|why]; [..|done|done].
      * destruct Hr as (-> & Hall & Hset). split_and!; [done|by constructor|]. rewrite Hset, Hs. by rewrite <- app_assoc.
      * destruct Hr as (before & s' & after & l2 & cause & f & e' & -> & Hun & -> & -> & Hset).
        exists (s :: before), s', after, l2, cause, f, e'. split_and!; try done. rewrite Hset, Hs. by rewrite <- app_assoc.
    + intros e l Hun. apply returning_stop_emits; [done|]. intros f e'. exists [], s, settlements, l, e, f, e'. split_and!; try done. by rewrite app_nil_r.
Qed.

(** *** The economics do not divide by zero *)

Definition moved (s : SequentialStageSettlement) : Prop := 0 < Units (ss_ActualInput s).

Lemma classify_moved settlements : forall legs, Forall moved settlements -> Forall moved legs.2 -> Forall moved (foldl classify_settlement legs settlements).2.
Proof.
  clear. induction settlements as [|s settlements IH]; intros legs Hall Hlegs; [done|]. apply Forall_cons in Hall as [Hs Hall]. cbn. apply IH; [done|].
  unfold classify_settlement. destruct (decide _); [done|]. destruct (decide _); [|done]. cbn. apply Forall_app. by split; [|constructor].
Qed.

Lemma sales_sum sales : forall q b q' b', Forall moved sales -> (0 <= b)%Qc -> foldM (add_sale plan) (q, b) sales = Ok (q', b') ->
  (0 <= b')%Qc /\ (sales <> [] -> (0 < b')%Qc).
Proof.
  clear. induction sales as [|s sales IH]; intros q b q' b' Hall Hb; cbn [foldM]; [by intros [= <- <-]|].
  apply Forall_cons in Hall as [Hs Hall]. intros H. apply bind_Ok in H as ([q1 b1] & H1 & H). unfold add_sale in H1.
  apply bind_Ok in H1 as (sq & _ & H1). apply bind_Ok in H1 as (sb & Hsb & [= _ <-]). unfold parallelHumanAmount in Hsb.
  destruct (p_TokenDecimals plan !! _) as [d|]; [|done]. injection Hsb as <-.
  pose proof (SetFrac_pos _ _ Hs (decimalFactor_pos d)) as Hpos. set (h := SetFrac _ _) in *.
  assert (0 < b + h)%Qc as Hsum.
  { apply Qclt_le_trans with h; [done|]. rewrite <- (Qcplus_0_l h) at 1. apply Qcplus_le_compat; [done|apply Qcle_refl]. }
  destruct (IH _ _ _ _ Hall (Qclt_le_weak _ _ Hsum) H) as [Hb' Hpos']. split; [done|]. intros _.
  destruct sales; [cbn in H; by injection H as _ <-|by apply Hpos'].
Qed.

Lemma parallel_no_panic result : Forall moved (sq_Settlements result) -> no_panic (calculateParallelEconomics plan result).
Proof.
  clear. intros Hall. unfold calculateParallelEconomics. destruct (decide _); [apply no_panic_Err|].
  pose proof (classify_moved (sq_Settlements result) (Settlement_zero, []) Hall (Forall_nil_2 _)) as Hsales. fold (economic_legs (sq_Settlements result)) in Hsales.
  destruct (economic_legs _) as [buy sales]. cbn in Hsales. destruct (last sales) as [lastSale|] eqn:Hlast; [|apply no_panic_Err].
  destruct (decide _) as [|Hbuy]; [apply no_panic_Err|].
  assert (forall a, no_panic (parallelHumanAmount plan a)) as Hh by (intros; unfold parallelHumanAmount; no_panic_auto).
  apply no_panic_bind; [apply Hh|]. intros qIn _. apply no_panic_bind; [apply Hh|]. intros bBuy Hb.
  apply no_panic_bind; [apply no_panic_foldM; intros; unfold add_sale; no_panic_auto|]. intros [qOut bSell] Hsold.
  assert (bBuy <> Q2Qc 0) as Hb0.
  { unfold parallelHumanAmount in Hb. destruct (p_TokenDecimals plan !! _) as [d|]; [|done]. injection Hb as <-. intros Hz.
    pose proof (SetFrac_mul (Units (ss_ActualOutput buy)) _ (decimalFactor_pos d)) as Hm. rewrite Hz, Qcmult_0_l in Hm.
    apply (f_equal Num) in Hm. rewrite Num_SetInt in Hm. apply Hbuy, IsZero_iff. done. }
  assert (bSell <> Q2Qc 0) as Hs0.
  { destruct (sales_sum _ _ _ _ _ Hsales (Qcle_refl _) Hsold) as [_ Hp]. apply not_eq_sym, Qclt_not_eq, Hp. by destruct sales. }
  rewrite (Rat_Quo_Ok _ _ Hb0). cbn [mbind res_bind]. rewrite (Rat_Quo_Ok _ _ Hs0). cbn [mbind res_bind].
  rewrite (Rat_Quo_Ok _ _ (SetInt_nonzero 2 ltac:(lia))). cbn [mbind res_bind]. cbv zeta.
  apply no_panic_bind; [|intros [] _; apply no_panic_Ok]. apply no_panic_foldM. intros [] cost _. unfold add_parallel_cost. no_panic_auto.
Qed.

(** *** The bridges *)

Context (id : OperationID) (ordinals : Ordinal <$> p_Stages plan = [1; 2; 3; 4]).
(** A token amount is never negative. *)
Hypothesis (executed_amounts : forall kind driver request w s, Driver (drivers ports) kind = Ok driver ->
  (ExecuteStage driver request w).1 = Ok s -> 0 <= Units (ss_ActualInput s)).

Lemma validated_moved s : StageSettlement_Validate s = Ok tt -> 0 <= Units (ss_ActualInput s) -> moved s.
Proof.
  clear. unfold StageSettlement_Validate, moved. intros H Hu. apply bind_Ok in H as ([] & _ & H). destruct (decide _) as [|Hz] in H; [done|].
  rewrite IsZero_iff in Hz. lia.
Qed.

Lemma finish_parallel_emits operation result : Forall moved (sq_Settlements result) ->
  Emits (finish_parallel error_text ports plan operation result) (fun r l => exists result' e, r = Ok (result', e) /\ closing true l e /\
    sq_Settlements result' = sq_Settlements result).
Proof using logs.
  intros Hmoved. unfold finish_parallel.
  apply (Emits_on_result _ _ _ _ (fun r l => r = calculateParallelEconomics plan result /\ l = [])).
  - by apply Emits_lift; [apply parallel_no_panic|].
  - intros result' l [Heco ->]. cbn. symmetry in Heco. apply parallel_settlements in Heco.
    eapply Emits_on_result; [apply silently_true, record_result_silent; done|..]; intros ? l [-> _]; cbn.
    + eapply Emits_weaken; [by apply complete_emits|]. intros r l _ (f & -> & -> & Hf). eexists _, _. split; [done|]. split; [|done].
      destruct f as [[]|e|why]; [constructor|constructor|by destruct (Hf why)].
    + apply Emits_mret. eexists _, _. split; [done|]. split; [constructor|done].
  - intros e l [_ ->]. apply stop_emits; [done|]. intros f e'. eexists _, _. split; [done|]. split; [constructor|done].
Qed.

Lemma prepared_bridge operationID outputs index request driver o : Ordinal <$> p_Stages plan !! index = Some o ->
  prepare_bridge ports plan operationID outputs index = Ok (request, driver) ->
  Ordinal (sr_Stage request) = o /\ exists kind, Driver (drivers ports) kind = Ok driver.
Proof.
  clear. unfold prepare_bridge. intros Ho H. destruct (p_Stages plan !! index) as [stage|]; [|done]. cbn in Ho. injection Ho as <-.
  apply bind_Ok in H as (input & _ & (d & Hd%wrap_Ok & [= <- <-])%bind_Ok). split; [done|]. by eexists.
Qed.

Lemma prepare_no_panic operationID outputs index : is_Some (p_Stages plan !! index) -> no_panic (prepare_bridge ports plan operationID outputs index).
Proof using logs.
  intros [stage Hs]. unfold prepare_bridge. rewrite Hs. pose proof (Driver_no_panic ports).
  pose proof (resolveInput_no_panic ports plan log logs). no_panic_auto.
Qed.

(** The settlement of a bridge is recorded, and what was recorded stays. *)
Lemma execute_bridge_emits kind driver request : Driver (drivers ports) kind = Ok driver ->
  Emits (ExecuteStage driver request) (fun r l => l = [Executed request r] /\ match r with Ok s => 0 <= Units (ss_ActualInput s) | _ => True end).
Proof using logs executed_amounts.
  intros Hd w. destruct (l_execute _ _ logs kind driver request Hd w) as [Hp Hl]. split; [done|]. eexists. split; [done|]. split; [done|].
  destruct (ExecuteStage driver request w).1 as [s|e|why] eqn:Hr; [by eapply executed_amounts|done..].
Qed.

Section bridging.
Context (base quote : SequentialStageRequest * SequentialStageDriver W).
Context (Hbase : Ordinal (sr_Stage base.1) = 3) (Hquote : Ordinal (sr_Stage quote.1) = 4)
  (Hbased : exists kind, Driver (drivers ports) kind = Ok base.2) (Hquoted : exists kind, Driver (drivers ports) kind = Ok quote.2).

Definition bridges (before : list SequentialStageSettlement) (r : res (SequentialResult * option error)) (l : list event) : Prop :=
  exists result settled e, r = Ok (result, e) /\ sq_Settlements result = before ++ settled /\ Bridges l settled e.

Lemma bridge_async_emits restorer operation result : asyncQuote ports = Some restorer -> Forall moved (sq_Settlements result) ->
  Emits (bridge_async error_text ports plan restorer operation result base quote) (bridges (sq_Settlements result)).
Proof using logs executed_amounts Hbase Hquote Hbased.
  intros Hres Hmoved. destruct (l_async _ _ logs _ Hres) as (Hstart & Hbegin & Hcomplete). destruct Hbased as [kind Hkind]. unfold bridge_async.
  assert (forall e : error, bridges (sq_Settlements result) (Ok (result, Some e)) []) as Hnone.
  { intros e. exists result, [], (Some e). split; [done|]. split; [by rewrite app_nil_r|constructor]. }
  eapply Emits_on_result; [apply silently_true, Hbegin|..]; intros ? l [-> _]; cbn [app]; [|by apply Emits_mret].
  eapply (Emits_on_result _ _ _ _ (fun r l => l = [Restoring quote.1 r])); [by eapply Emits_noted; [apply Hstart|]|..]; intros x l ->; cbn [app].
  2:{ eapply Emits_bind; [apply Emits_ignore, Hcomplete|by intros ? ? [_ ?]|]. intros ? l [-> _]. cbn [app].
      apply Emits_mret. exists result, [], (Some (Wrapf "start asynchronous quote restoration: %w" x)). split; [done|]. split; [by rewrite app_nil_r|constructor]. }
  destruct x. apply Emits_observe; [done|].
  eapply Emits_bind; [by eapply Emits_try, execute_bridge_emits|by intros ? ? (? & ? & _)|]. intros settled l (r & [= ->] & Hr & -> & Hamount). cbn [app].
  eapply Emits_bind; [apply Emits_try, silently_true, Hcomplete|by intros ? ? (? & ? & _)|]. intros completed l (c & [= ->] & Hc & -> & _). cbn [app].
  assert (forall result' e cause f lb sb ok, bridged r lb sb ok -> sq_Settlements result' = sq_Settlements result ++ sb ->
    bridges (sq_Settlements result) (Ok (result', Some e)) (Restoring quote.1 (Ok tt) :: Executed base.1 r :: lb ++ [Finished SequentialManualIntervention (Some cause) f]))
    as Hstop by (intros; eexists _, _, _; split; [done|]; split; [done|]; by econstructor; [..|constructor]).
  destruct r as [s|e|why]; [..|by destruct (Hr why)].
  - destruct c as [u|e|why]; cbn; [| |by destruct (Hc why)].
    + eapply Emits_on_result; [apply record_emits|..].
      * intros [operation' result'] l (-> & Hv & Hs). cbn [app].
        eapply Emits_weaken; [apply finish_parallel_emits; rewrite Hs; apply Forall_app; split; [done|]; constructor; [by apply validated_moved|done]|].
        intros r l _ (result'' & e & -> & Hclose & Hs''). eexists _, [s], e. split; [done|]. split; [by rewrite Hs'', Hs|].
        apply (bridges_async quote.1 base.1 (Ok s) [Recorded s (Ok tt)] [s] true l e); [done..|by constructor|done].
      * intros e l Hun. apply stop_emits; [done|]. intros f e'. cbn [app]. eapply (Hstop _ _ _ _ l [] false); [by constructor|by rewrite app_nil_r].
    + apply stop_emits; [done|]. intros f e'. eexists _, [], _. split; [done|]. split; [by rewrite app_nil_r|]. by constructor.
  - destruct c as [u|e2|why]; cbn; [..|by destruct (Hc why)]; apply stop_emits; try done; intros f e'; eapply (Hstop _ _ _ _ [] [] false); (constructor || by rewrite app_nil_r).
Qed.

(** The two bridges, in either order. *)
Lemma foldST_two {A B} (f : B -> A -> ST W B) b x y w : foldST f b [x; y] w = (f b x ≫= fun b => f b y) w.
Proof. clear. cbn. unfold mbind, st_bind. destruct (f b x w) as [[b'|e|why] w']; [|done..]. by destruct (f b' y w') as [[]]. Qed.
Lemma run_bridges_emits first :
  Emits (run_bridges ports first base quote) (fun r l => exists rb rq, r = Ok (rb, rq) /\ no_panic rb /\ no_panic rq /\
    l = (if first then [Executed base.1 rb; Executed quote.1 rq] else [Executed quote.1 rq; Executed base.1 rb]) /\
    (forall s, rb = Ok s -> 0 <= Units (ss_ActualInput s)) /\ (forall s, rq = Ok s -> 0 <= Units (ss_ActualInput s))).
Proof using logs executed_amounts Hbased Hquoted.
  destruct Hbased as [kb Hkb], Hquoted as [kq Hkq].
  assert (forall kind (bridge : SequentialStageRequest * SequentialStageDriver W), Driver (drivers ports) kind = Ok bridge.2 ->
    Emits (run_bridge ports bridge) (fun r l => exists r', r = Ok r' /\ no_panic r' /\ l = [Executed bridge.1 r'] /\
      forall s, r' = Ok s -> 0 <= Units (ss_ActualInput s))) as Hrun.
  { intros kind bridge Hd. apply Emits_observe; [done|]. eapply Emits_weaken; [by eapply Emits_try, execute_bridge_emits|].
    intros r l _ (r' & -> & Hr & -> & Ha). exists r'. split_and!; try done. by intros s ->. }
  unfold run_bridges. destruct first.
  - eapply Emits_bind; [by eapply Hrun|by intros ? ? (? & ? & _)|]. intros b l (rb & [= ->] & Hb & -> & Hba). cbn [app].
    eapply Emits_bind; [by eapply Hrun|by intros ? ? (? & ? & _)|]. intros q l (rq & [= ->] & Hq & -> & Hqa). apply Emits_mret. by exists rb, rq.
  - eapply Emits_bind; [by eapply Hrun|by intros ? ? (? & ? & _)|]. intros q l (rq & [= ->] & Hq & -> & Hqa). cbn [app].
    eapply Emits_bind; [by eapply Hrun|by intros ? ? (? & ? & _)|]. intros b l (rb & [= ->] & Hb & -> & Hba). apply Emits_mret. by exists rb, rq.
Qed.

Lemma record_bridge_emits operation result errors r : no_panic r -> (forall s, r = Ok s -> 0 <= Units (ss_ActualInput s)) ->
  Forall moved (sq_Settlements result) ->
  Emits (record_bridge ports (operation, result, errors) r) (fun x l => exists operation' result' errors' settled ok,
    x = Ok (operation', result', errors') /\ bridged r l settled ok /\ sq_Settlements result' = sq_Settlements result ++ settled /\
    Forall moved (sq_Settlements result') /\ (errors' = [] <-> errors = [] /\ ok = true)).
Proof using logs.
  intros Hr Ha Hmoved. unfold record_bridge. destruct r as [s|e|why]; [..|by destruct (Hr why)].
  - eapply Emits_on_result; [apply record_emits|..].
    + intros [operation' result'] l (-> & Hv & Hs). apply Emits_mret. eexists _, _, _, [s], true. split; [done|]. split; [by constructor|].
      split; [done|]. split; [rewrite Hs; apply Forall_app; split; [done|]; constructor; [by apply validated_moved; [|apply Ha]|done]|]. split; [by intros ->|by intros [-> _]].
    + intros e l Hun. apply Emits_mret. rewrite (app_nil_r l). eexists _, _, _, [], false. split; [done|]. split; [by constructor|]. split; [by rewrite app_nil_r|]. split; [done|].
      split; [by destruct errors|by intros [_ ?]].
  - apply Emits_mret. eexists _, _, _, [], false. split; [done|]. split; [by constructor|]. split; [by rewrite app_nil_r|]. split; [done|].
    split; [by destruct errors|by intros [_ ?]].
Qed.

Lemma record_both_emits operation result rb rq : no_panic rb -> no_panic rq ->
  (forall s, rb = Ok s -> 0 <= Units (ss_ActualInput s)) -> (forall s, rq = Ok s -> 0 <= Units (ss_ActualInput s)) ->
  Forall moved (sq_Settlements result) ->
  Emits (foldST (record_bridge ports) (operation, result, []) [rb; rq]) (fun x l => exists operation' result' errors lb lq sb sq okb okq,
    x = Ok (operation', result', errors) /\ l = lb ++ lq /\ bridged rb lb sb okb /\ bridged rq lq sq okq /\
    sq_Settlements result' = sq_Settlements result ++ sb ++ sq /\ Forall moved (sq_Settlements result') /\ (errors = [] <-> okb && okq = true)).
Proof using logs.
  intros Hb Hq Hba Hqa Hmoved. eapply Emits_ext; [intros w; symmetry; apply foldST_two|].
  eapply Emits_bind; [by apply record_bridge_emits|by intros ? ? (? & ? & ? & ? & ? & ? & _)|].
  intros [[op1 r1] e1] lb (? & ? & ? & sb & okb & [= <- <- <-] & Hbb & Hs1 & Hm1 & He1).
  eapply Emits_weaken; [by apply record_bridge_emits|]. intros x lq _ (op2 & r2 & e2 & sq & okq & -> & Hbq & Hs2 & Hm2 & He2).
  exists op2, r2, e2, lb, lq, sb, sq, okb, okq. split_and!; try done.
  - by rewrite Hs2, Hs1, app_assoc.
  - rewrite He2, He1, andb_true_iff. tauto.
Qed.

Lemma bridge_both_emits first operation result : Forall moved (sq_Settlements result) ->
  Emits (bridge_both error_text ports plan first operation result base quote) (bridges (sq_Settlements result)).
Proof using logs executed_amounts Hbase Hquote Hbased Hquoted.
  intros Hmoved. unfold bridge_both. eapply Emits_bind; [apply run_bridges_emits|by intros ? ? (? & ? & ? & _)|].
  intros [b q] l (rb & rq & [= -> ->] & Hb & Hq & -> & Hba & Hqa).
  eapply Emits_bind; [by apply record_both_emits|by intros ? ? (? & ? & ? & ? & ? & ? & ? & ? & ? & ? & _)|].
  intros [[op1 r1] errors] l (? & ? & ? & lb & lq & sb & sq & okb & okq & [= <- <- <-] & -> & Hbb & Hbq & Hset & Hmoved' & Herr). destruct (decide (errors = [])) as [He|He].
  - eapply Emits_weaken; [by apply finish_parallel_emits|]. intros r l _ (result' & e & -> & Hclose & Hs). eexists _, (sb ++ sq), e.
    split; [done|]. split; [by rewrite Hs|]. rewrite app_assoc, <- (app_assoc _ _ l), <- app_assoc. apply Herr in He. rewrite <- He in Hclose.
    by apply (bridges_both first base.1 quote.1 rb rq lb lq sb sq okb okq).
  - apply stop_emits; [done|]. intros f e. eexists _, (sb ++ sq), _. split; [done|]. split; [done|]. rewrite app_assoc, <- (app_assoc _ _ [_]), <- app_assoc.
    eapply (bridges_both first base.1 quote.1 rb rq lb lq sb sq okb okq); try done. constructor.
Qed.
End bridging.

(** *** The whole *)

Lemma bridge_phase_emits first operation result settlements : length settlements = 2%nat -> Forall moved (sq_Settlements result) ->
  Emits (bridge_phase error_text ports plan first operation result settlements) (bridges (sq_Settlements result)).
Proof using logs executed_amounts ordinals.
  intros Hlen Hmoved. unfold bridge_phase. rewrite decide_False by (intros Hne; by apply Hne). cbv zeta. set (outputs := settled_outputs settlements).
  assert (forall n, (n < 4)%nat -> is_Some (p_Stages plan !! n)) as Hstages.
  { intros n Hn. apply lookup_lt_is_Some. apply (f_equal length) in ordinals. rewrite length_fmap in ordinals. cbn in ordinals. lia. }
  assert (forall n, Ordinal <$> p_Stages plan !! n = [1; 2; 3; 4] !! n) as Hord by (intros n; by rewrite <- ordinals, list_lookup_fmap).
  apply (Emits_on_result _ _ _ _ (fun r l => l = [] /\ match r with
    | Ok (base, quote) => Ordinal (sr_Stage base.1) = 3 /\ Ordinal (sr_Stage quote.1) = 4 /\
        (exists kind, Driver (drivers ports) kind = Ok base.2) /\ (exists kind, Driver (drivers ports) kind = Ok quote.2)
    | _ => True end)).
  - pose proof (prepare_no_panic (so_ID operation) outputs 2 (Hstages 2%nat ltac:(lia))) as Hnb.
    pose proof (prepare_no_panic (so_ID operation) outputs 3 (Hstages 3%nat ltac:(lia))) as Hnq.
    apply Emits_lift; [no_panic_auto|]. split; [done|]. destruct (prepare_bridge _ _ _ _ 2) as [[b db]|e|why] eqn:Hb; [..|done|done]. cbn.
    destruct (prepare_bridge _ _ _ _ 3) as [[q dq]|e|why] eqn:Hq; [..|done|done]. cbn.
    apply (prepared_bridge _ _ _ _ _ 3) in Hb as [Hb1 Hb2]; [|apply Hord]. apply (prepared_bridge _ _ _ _ _ 4) in Hq as [Hq1 Hq2]; [|apply Hord]. done.
  - intros [base quote] l (-> & Hb & Hq & Hbd & Hqd). cbn [app]. destruct (asyncQuote ports) as [restorer|] eqn:Hasync.
    + by apply bridge_async_emits.
    + by apply bridge_both_emits.
  - intros e l [-> _]. apply Emits_mret. eexists _, [], _. split; [done|]. split; [by rewrite app_nil_r|constructor].
Qed.

(** The swap driver answers with what settled, whatever failed. *)
Hypothesis (swaps_answer : forall driver parallel w, ds_Buy (drivers ports) = Some driver -> ExecuteParallelSwaps driver = Some parallel ->
  exists settlements failure, (execute_swaps plan driver parallel id w).1 = Ok (settlements, failure) /\
    Forall (fun s => 0 <= Units (ss_ActualInput s)) settlements).

Lemma Silent_observe e : Silent log (observe ports e).
Proof using logs. intros w. split; [apply no_panic_Ok|apply (l_observer _ _ logs)]. Qed.

Lemma start_swaps_silent : Silent log (start_swaps ports plan id).
Proof using logs ordinals.
  assert (forall n input, (n < 4)%nat -> no_panic (parallel_request plan id n input)) as Hreq.
  { intros n input Hn. unfold parallel_request. destruct (p_Stages plan !! n) as [stage|] eqn:Hs; [no_panic_auto|].
    apply lookup_ge_None in Hs. apply (f_equal length) in ordinals. rewrite length_fmap in ordinals. cbn in ordinals. lia. }
  unfold start_swaps. apply Silent_bind; [apply Silent_lift; unfold ParallelSellInput; no_panic_auto|]. intros sellInput.
  apply Silent_bind; [apply Silent_lift, Hreq; lia|]. intros buy. apply Silent_bind; [apply Silent_observe|]. intros _.
  apply Silent_bind; [apply Silent_lift, Hreq; lia|]. intros sell. apply Silent_observe.
Qed.

Lemma execute_swaps_emits driver parallel : ds_Buy (drivers ports) = Some driver -> ExecuteParallelSwaps driver = Some parallel ->
  Emits (execute_swaps plan driver parallel id) (fun r l => exists settlements failure, r = Ok (settlements, failure) /\
    Forall (fun s => 0 <= Units (ss_ActualInput s)) settlements /\ l = [Swapped (Ok (settlements, failure))]).
Proof using logs swaps_answer.
  intros Hd Hp w. destruct (swaps_answer driver parallel w Hd Hp) as (settlements & failure & Hr & Ha).
  destruct (l_swaps _ _ logs driver Hd) as [Hpar Htrig].
  assert (Noted log Swapped (execute_swaps plan driver parallel id)) as Hnoted.
  { unfold execute_swaps. destruct (TriggeredSwaps driver) as [[staged triggered]|] eqn:Ht; [|by apply Hpar].
    destruct (staged plan); [by eapply Htrig|by apply Hpar]. }
  destruct (Hnoted w) as [Hnp Hl]. split; [done|]. eexists. split; [exact Hl|]. rewrite Hr. by exists settlements, failure.
Qed.

Lemma parallel_emits first operation result : so_ID operation = id -> sq_Settlements result = [] ->
  Emits (executePrefundedParallel error_text ports plan first operation result)
    (fun r l => exists result' e, r = Ok (result', e) /\ Dual l (sq_Settlements result') e).
Proof using logs executed_amounts ordinals swaps_answer.
  intros Hid Hresult. unfold executePrefundedParallel. rewrite Hid.
  assert (forall e, exists result' e', Ok (result, Some e) = Ok (result', e') /\ Dual [] (sq_Settlements result') e') as Hrefused.
  { intros e. exists result, (Some e). rewrite Hresult. split; [done|constructor]. }
  pose proof execute_swaps_emits as Hswaps. destruct (ds_Buy (drivers ports)) as [driver|] eqn:Hd; cbn; [|by apply Emits_mret].
  destruct (ExecuteParallelSwaps driver) as [parallel|] eqn:Hp; cbn; [|by apply Emits_mret].
  eapply Emits_on_result; [apply silently_true, start_swaps_silent|..]; intros ? l [-> _]; cbn [app]; [|by apply Emits_mret].
  eapply Emits_bind; [by apply Hswaps|by intros ? ? (? & ? & ? & _)|]. intros [settlements failure] l (? & ? & [= <- <-] & Ha & ->).
  cbn [app]. eapply Emits_bind; [apply record_settlements_emits|by intros ? ? []|]. rewrite Hresult.
  intros [[operation' result']|[result' e]] l; cbn [app].
  - intros (-> & Hall & Hs). destruct failure as [failure|].
    + apply stop_emits; [done|]. intros f e. eexists _, _. split; [done|]. rewrite Hs. by apply dual_failed.
    + destruct (decide (length settlements = 2%nat)) as [Hlen|Hlen].
      * eapply Emits_weaken; [apply bridge_phase_emits; [done|]|].
        { rewrite Hs. rewrite Forall_forall in Ha, Hall |- *. intros s Hin. apply validated_moved; [by apply Hall|by apply Ha]. }
        intros r l _ (result'' & settled & e & -> & Hset & Hb). eexists _, _. split; [done|]. rewrite Hset, Hs. by apply dual_bridges.
      * unfold bridge_phase. rewrite decide_True by done. apply Emits_mret. eexists _, _. split; [done|]. rewrite Hs, app_nil_r. by apply dual_incomplete.
  - intros (before & s & after & l' & cause & f & e' & Hset & Hun & -> & -> & Hs). apply Emits_mret. eexists _, _. split; [done|].
    rewrite Hs, app_nil_r. by eapply dual_unrecorded.
Qed.
End dual.

(** ** What a dual run never does *)

Lemma recordings_executions settlements : executions (recordings settlements) = [].
Proof. by induction settlements. Qed.
Lemma recordings_settled settlements : settled_in (recordings settlements) = settlements.
Proof. induction settlements as [|s settlements IH]; cbn; [done|]. by f_equal. Qed.

Lemma bridged_executions r l settled ok : bridged r l settled ok -> executions l = [].
Proof. destruct 1 as [|? ? []|]; done. Qed.
Lemma closing_executions ok l e : closing ok l e -> executions l = [].
Proof. by destruct 1. Qed.

Lemma bridges_executions l settled e : Bridges l settled e -> (executions l).*1 ∈ ([[]; [3]; [3; 4]; [4; 3]] : list (list Z)).
Proof.
  rewrite !elem_of_cons. destruct 1 as [| |quote base r lr sr ok last e Hq Hb Hr Hc|quote base s x cause f Hq Hb|first base quote rb rq lb lq sb sq okb okq last e Hb Hq Hrb Hrq Hc]; [by left|by left|..].
  - right. left. unfold executions. cbn. rewrite omap_app. fold (executions lr) (executions last).
    rewrite (bridged_executions _ _ _ _ Hr), (closing_executions _ _ _ Hc). cbn. by rewrite Hb.
  - right. left. cbn. by rewrite Hb.
  - right. right. unfold executions. rewrite !omap_app. fold (executions lb) (executions lq) (executions last).
    rewrite (bridged_executions _ _ _ _ Hrb), (bridged_executions _ _ _ _ Hrq), (closing_executions _ _ _ Hc).
    destruct first; cbn; rewrite Hb, Hq; auto.
Qed.

(** The bridges of a run come after two settlements were recorded. *)
Lemma dual_splits {typed : TypedErrors} l settled e : Dual l settled e ->
  exists swaps rest, l = swaps ++ rest /\ executions swaps = [] /\ (executions rest).*1 ∈ ([[]; [3]; [3; 4]; [4; 3]] : list (list Z)) /\
    (executions rest <> [] -> length (settled_in swaps) = 2%nat).
Proof.
  intros H. assert (forall l : list event, executions l = [] -> exists swaps rest, l = swaps ++ rest /\ executions swaps = [] /\
    (executions rest).*1 ∈ ([[]; [3]; [3; 4]; [4; 3]] : list (list Z)) /\ (executions rest <> [] -> length (settled_in swaps) = 2%nat)) as Hnone.
  { intros k Hk. exists k, []. rewrite app_nil_r. split_and!; try done. by left. }
  destruct H as [e|settlements failure before s after l cause f e _ Hun|settlements failure state cause f e _|settlements e _
    |settlements l settled e Hlen _ Hb].
  - by apply Hnone.
  - apply Hnone. unfold executions. cbn. rewrite !omap_app. fold (executions (recordings before)) (executions l).
    rewrite recordings_executions. by destruct Hun.
  - apply Hnone. unfold executions. cbn. rewrite omap_app. fold (executions (recordings settlements)). by rewrite recordings_executions.
  - apply Hnone. unfold executions. cbn. fold (executions (recordings settlements)). by rewrite recordings_executions.
  - exists (Swapped (Ok (settlements, None)) :: recordings settlements), l. split; [done|]. split.
    + unfold executions. cbn. fold (executions (recordings settlements)). by rewrite recordings_executions.
    + split; [by eapply bridges_executions|]. intros _. unfold settled_in. cbn. fold (settled_in (recordings settlements)). by rewrite recordings_settled.
Qed.

(** C8.A dual inventory operation always answers; its log is that of the two phases,
    and its settlements are those recorded.  So the bridges are sent once each at
    most, none before the settlements of both swaps were recorded. *)
Theorem executePrefundedParallel_phases {W} {typed : TypedErrors} (error_text : error -> string) (ports : Ports W) (plan : SequentialPlan)
    (log : W -> list event) (first : bool) (operation : SequentialOperation) (result : SequentialResult) (w : W) :
  Logs log ports -> Ordinal <$> p_Stages plan = [1; 2; 3; 4] ->
  (forall kind driver request w s, Driver (drivers ports) kind = Ok driver ->
     (ExecuteStage driver request w).1 = Ok s -> 0 <= Units (ss_ActualInput s)) ->
  (forall driver parallel w, ds_Buy (drivers ports) = Some driver -> ExecuteParallelSwaps driver = Some parallel ->
     exists settlements failure, (execute_swaps plan driver parallel (so_ID operation) w).1 = Ok (settlements, failure) /\
       Forall (fun s => 0 <= Units (ss_ActualInput s)) settlements) ->
  sq_Settlements result = [] ->
  exists result' e l,
    (executePrefundedParallel error_text ports plan first operation result w).1 = Ok (result', e) /\
    log (executePrefundedParallel error_text ports plan first operation result w).2 = log w ++ l /\
    Dual l (sq_Settlements result') e /\
    exists swaps rest, l = swaps ++ rest /\ executions swaps = [] /\
      (executions rest).*1 ∈ ([[]; [3]; [3; 4]; [4; 3]] : list (list Z)) /\
      (executions rest <> [] -> length (settled_in swaps) = 2%nat).
Proof.
  intros logs ordinals Hamounts Hswaps Hresult.
  destruct (parallel_emits error_text ports plan log logs (so_ID operation) ordinals Hamounts Hswaps first operation result eq_refl Hresult w)
    as (_ & l & Hl & result' & e & Hr & Hd).
  exists result', e, l. split; [done|]. split; [done|]. split; [done|]. by eapply dual_splits.
Qed.

(** ** A dual run *)

Module SequentialParallelWitness.
Import SequentialRunsWitness.

Definition swap (n : nat) (bought sold : Z) (id : OperationID) : SequentialStageSettlement :=
  match p_Stages SequentialWitness.dual !! n with
  | Some stage =>
      mkStageSettlement (mkStageRequest id (p_ID SequentialWitness.dual) stage (mkTokenAmount (InputToken stage) (Some bought)))
        (mkTokenAmount (InputToken stage) (Some bought)) (mkTokenAmount (OutputToken stage) (Some sold)) [] identity None None None 9 "seen"
  | None => Settlement_zero
  end.
(** The two swaps settle: 500 for 50 and 50 for 550. *)
Definition swaps (id : OperationID) (_ : SequentialPlan) : ST world (list SequentialStageSettlement * option error) :=
  note Swapped (Ok ([swap 0 500 50 id; swap 1 50 550 id], None)).
Definition settled (request : SequentialStageRequest) : SequentialStageSettlement :=
  let units := Some (Z.abs (Units (sr_Input request))) in
  mkStageSettlement request (mkTokenAmount (InputToken (sr_Stage request)) units) (mkTokenAmount (OutputToken (sr_Stage request)) units) []
    identity (Some identity) None None 9 "seen".
Definition bridge : SequentialStageDriver world := mkDriver (fun request => note (Executed request) (Ok (settled request))) None None None None None None.
Definition swapper : SequentialStageDriver world := mkDriver (fun request => note (Executed request) (Ok (settled request))) None None None (Some swaps) None None.
Definition ports : Ports world :=
  mkPorts quiet_journal (mkDriverSet (Some swapper) (Some bridge) (Some bridge) (Some bridge) None) (fun w => 1 + Z.of_nat (length w)) (fun _ w => w) None.

Lemma bridge_Ok kind d : Driver (drivers ports) kind = Ok d -> ExecuteStage d = (fun request => note (Executed request) (Ok (settled request))) /\
  ConvertStageInput d = None.
Proof. unfold Driver. repeat (destruct (decide _); [by intros [= <-]|]). done. Qed.

Lemma ports_logs : Logs (fun w : world => w) ports.
Proof.
  constructor; try done.
  - intros stage d request [-> _]%bridge_Ok w. done.
  - intros record [= <-]. by intros decision w.
  - intros d preflight [= <-] [=].
  - intros d [= <-]. split; [|done]. by intros swaps [= <-] id plan w.
  - intros stage d convert [_ ->]%bridge_Ok [=].
Qed.

Definition plan : SequentialPlan := with_valuation SequentialWitness.dual "ETH" "USD"
  {[ "usdc" := 6%N; "eth" := 18%N; "eth2" := 18%N; "usdt" := 6%N ]}.
Definition operation : SequentialOperation := new_operation "op" plan 1.
Abbreviation run := (executePrefundedParallel (fun _ => "") ports plan true operation (new_result "op") []).

(** Both bridges are sent, and the operation completes. *)
Example completed_dual :
  (executions run.2).*1 = [3; 4] /\ last run.2 = Some (Finished SequentialCompleted None (Ok tt)).
Proof. split; vm_compute; reflexivity. Qed.

Lemma phases_witness : exists result' e l, run.1 = Ok (result', e) /\ run.2 = [] ++ l /\ Dual l (sq_Settlements result') e.
Proof.
  destruct (executePrefundedParallel_phases (fun _ => "") ports plan (fun w : world => w) true operation (new_result "op") [] ports_logs eq_refl)
    as (result' & e & l & Hr & Hl & Hd & _).
  - intros kind d request w s [Hd _]%bridge_Ok Hs. rewrite Hd in Hs. cbn in Hs. injection Hs as <-. apply Z.abs_nonneg.
  - intros d parallel w [= <-] [= <-]. eexists _, _. split; [reflexivity|]. repeat constructor; vm_compute; discriminate.
  - reflexivity.
  - exists result', e, l. split; [exact Hr|]. split; [exact Hl|exact Hd].
Defined.
End SequentialParallelWitness.
