(* ===== verification/SequentialRecovery.v ===== *)
(** * Recovery of dependent operations (src/core/saga/sequential_recovery.go)

    The startup path that resumes a durable operation: it loads the snapshot of it,
    works out the stages that are left, and recovers them one by one through drivers
    that reconcile the persisted transactions first.  A failure is retried with a
    growing delay, changes the exit, or blocks the operation.  The loop of [resume] may
    retry for ever: [resume_steps] runs a number of its iterations and returns where it
    stands.

    Theorems: however long it runs, a stage that has settled is never recovered again;
    a recovery that ends without an error and did not abort has settled every stage of
    a route of the plan; the delays grow and are bounded. *)
From S2P Require Import Prelude EventLog Amount Quote Registry Arbitrage Allocation Inventory Execution Sequential SequentialPorts SequentialEconomics SequentialExecutor.
Local Open Scope Z_scope.

(** [var ErrSequentialRecoveryBlocked], and [context.Canceled]. *)
Definition ErrSequentialRecoveryBlocked : string := "sequential recovery is blocked".
Definition Canceled : string := "context canceled".

(** ** Reading a snapshot *)

Definition definitive_status (record : SequentialTransactionRecord) : bool :=
  bool_decide (tr_Status record = "rejected" \/ tr_Status record = "confirmed_revert").
Definition definitiveTransactionCount (records : list SequentialTransactionRecord) : Z :=
  Z.of_nat (length (filter (fun r => definitive_status r = true) records)).

Definition parallelEconomicLegsSettled (plan : SequentialPlan) (settled : gset Z) : bool :=
  bool_decide (IsPrefundedDualInventory plan /\ 1 ∈ settled /\ 2 ∈ settled).

Definition shouldSelectInitialPrefundedExit (plan : SequentialPlan) (settled : gset Z) (decision : option SequentialExitDecision) : bool :=
  bool_decide ((EffectivePolicy plan = PolicyPrefundedSequential \/ EffectivePolicy plan = PolicyPrefundedTriggerFirst) /\
    1 ∈ settled /\ 2 ∉ settled) && match decision with None => true | Some _ => false end.

(** The last settlement of the purchase counts. *)
Definition restored_step (sellChain : ChainID) (seen : bool * bool) (settlement : SequentialStageSettlement) : bool * bool :=
  let stage := sr_Stage (ss_Request settlement) in
  if decide (Ordinal stage = 1) then (bool_decide (SourceChain stage = sellChain), seen.2) else
  if decide (Ordinal stage = 2) then (seen.1, true) else seen.

Definition parallelBuyRestoredOnSellChain (plan : SequentialPlan) (settlements : list SequentialStageSettlement) : bool :=
  match p_Stages plan with
  | _ :: sell :: _ => let '(buySettled, sellSettled) := foldl (restored_step (SourceChain sell)) (false, false) settlements in buySettled && sellSettled
  | _ => false
  end.

Definition recoveryStages (plan : SequentialPlan) (decision : option SequentialExitDecision) : res (list SequentialStagePlan) :=
  match decision with
  | None => Ok (p_Stages plan)
  | Some decision =>
      if decide (xd_Route decision = ExitSellAtOrigin) then
        match p_Stages plan with
        | first :: _ => Ok (first :: p_CircuitBreaker plan)
        | [] => Panic "index out of range"
        end
      else if decide (xd_Route decision = ExitReturnToOrigin) then
        returnStages ← ReturnExitStages plan; Ok (take 2 (p_Stages plan) ++ returnStages)
      else Ok (p_Stages plan)
  end.

Definition nextUnsettledRecoveryStage (stages : list SequentialStagePlan) (settled : gset Z) : option SequentialStagePlan :=
  head (filter (fun stage => Ordinal stage ∉ settled) stages).

Definition transactionsForOrdinal (transactions : list SequentialTransactionRecord) (ordinal : Z) : list SequentialTransactionRecord :=
  filter (fun t => tr_Ordinal t = ordinal) transactions.

Definition allTransactionsDefinitiveOrAbsent (transactions : list SequentialTransactionRecord) : bool := forallb definitive_status transactions.

Definition uncertain_since (t : SequentialTransactionRecord) : Time :=
  if decide (Time_IsZero (tr_FirstUncertainAt t) /\ (tr_Status t = "prepared" \/ tr_Status t = "broadcast" \/ tr_Status t = "outcome_unknown"))
  then tr_PreparedAt t else tr_FirstUncertainAt t.
Definition earlier (first candidate : Time) : Time :=
  if decide (~ Time_IsZero candidate /\ (Time_IsZero first \/ Time_Before candidate first)) then candidate else first.
Definition firstUncertain (transactions : list SequentialTransactionRecord) : Time :=
  foldl (fun first t => earlier first (uncertain_since t)) 0 transactions.

Definition transactionRecoveryAttempts (transactions : list SequentialTransactionRecord) (ordinal : Z) : Z :=
  foldl (fun attempts t => if decide (tr_Ordinal t = ordinal /\ attempts < tr_RecoveryAttempts t) then tr_RecoveryAttempts t else attempts) 0 transactions.

Definition latestRecoveryAttempt (transactions : list SequentialTransactionRecord) : Time :=
  foldl (fun latest t => if decide (Time_After (tr_NextRecoveryAttempt t) latest) then tr_NextRecoveryAttempt t else latest) 0 transactions.

Definition blocksRecovery (kind : string) : bool :=
  bool_decide (kind = RecoveryFailureAllowance \/ kind = RecoveryFailureSigner \/ kind = RecoveryFailureConfiguration).

Definition recoveryAction (stage : SequentialStage) (kind : string) : string :=
  if decide (kind = RecoveryFailureUncertain) then "reconcile_without_resend" else
  if decide (stage = StageSell) then "requote_rebuild_simulate_best_exit" else "resume_stage".

(** The delays, in nanoseconds. *)
Definition millisecond : Z := 1000000.
Definition schedule : list Z := (fun n => n * millisecond) <$> [250; 500; 1000; 2000; 4000; 8000; 15000; 30000].
Definition recoveryBackoff (attempt : Z) : Z :=
  if decide (attempt <= 0) then nth 0 schedule 0 else
  if decide (Z.of_nat (length schedule) < attempt) then nth (length schedule - 1) schedule 0 else nth (Z.to_nat (attempt - 1)) schedule 0.

Definition activeError (operation : SequentialOperation) : option error :=
  if decide (so_LastError operation = "") then None else Some (Errorf (so_LastError operation)).

(** ** The coordinator *)

(** What an observer is told. *)
Inductive RecoveryEvent :=
| RecoveryStarted (snapshot : SequentialRecoverySnapshot)
| RecoveryAttempted (attempt : SequentialRecoveryAttempt)
| RecoveryCompleted (result : SequentialResult)
| RecoveryBlocked (operation : SequentialOperation) (cause : error)
| RecoveryAborted (operation : SequentialOperation) (result : SequentialResult) (cause : error).

Section coordinator.
Context {W : Type} {typed : TypedErrors} (error_text : error -> string).

(** The coordinator with its ports: the journal, the drivers and the clock of [ports];
    the recovery journal; the observer; the delays; the cost valuator and the
    emergency refuel, which it may lack. *)
Record SequentialRecoveryConfig := mkRecoveryConfig {
  rcf_Ports : Ports W; rcf_RecoveryJournal : SequentialRecoveryJournal W; rcf_Observer : RecoveryEvent -> W -> W; rcf_Sleep : Z -> ST W unit;
  rcf_UncertainTimeout : Z; rcf_CostValuator : option (CostComponent -> res CostComponent); rcf_Refuel : option (ChainID -> ST W unit) }.

(** A duration that is not positive gives the default of ten minutes. *)
Definition recovery_timeout (configured : Z) : Z := if decide (configured <= 0) then 600000 * millisecond else configured.

Definition recovery_driver (ports : Ports W) (_ : unit) (stage : SequentialStage) : res unit :=
  driver ← Driver (drivers ports) stage;
  match RecoverStage driver with
  | None => Err (Errorf "driver for stage %q does not support durable recovery")
  | Some _ => Ok tt
  end.

(** [given]: neither journal is nil. *)
Definition NewSequentialRecoveryCoordinator (given : bool) (config : SequentialRecoveryConfig) : res SequentialRecoveryConfig :=
  if given then
    _ ← foldM (recovery_driver (rcf_Ports config)) tt [StageBuy; StageBridgeBase; StageSell; StageBridgeQuoteReturn];
    Ok (mkRecoveryConfig (rcf_Ports config) (rcf_RecoveryJournal config) (rcf_Observer config) (rcf_Sleep config)
          (recovery_timeout (rcf_UncertainTimeout config)) (rcf_CostValuator config) (rcf_Refuel config))
  else Err (Errorf "sequential recovery journals are required").

Context (config : SequentialRecoveryConfig).
Abbreviation ports := (rcf_Ports config).
Abbreviation outcome := (SequentialResult * option error)%type.

Definition tell (event : RecoveryEvent) : ST W unit := modify (rcf_Observer config event).

(** Cancellation is not recorded.  Whether the state could be set is not looked at. *)
Definition block (operation : SequentialOperation) (cause : error) : ST W unit :=
  if errors_Is cause Canceled then mret tt else
  _ ← ignore (SetSequentialRecoveryState (rcf_RecoveryJournal config) (so_ID operation) SequentialRecoveryBlocked (Some cause));
  tell (RecoveryBlocked operation cause).

Definition blocked {A} (operation : SequentialOperation) (result : SequentialResult) (cause : error) : ST W (A + outcome) :=
  _ ← block operation cause; mret (inr (result, Some cause)).

(** *** Exits *)

Record recoveryExit := mkRecoveryExit { rx_stages : list SequentialStagePlan; rx_decision : SequentialExitDecision }.

Definition record_exit (decision : SequentialExitDecision) : ST W unit :=
  _ ← lift (ExitDecision_Validate decision);
  match RecordSequentialExitDecision (journal ports) with
  | None => fail "recovery journal cannot persist an exit decision"
  | Some record => record decision
  end.

Definition reselectExit (plan : SequentialPlan) (operation : OperationID) (current : TokenAmount) (costs : list CostComponent) : ST W recoveryExit :=
  match selector ← ds_ExitSelector (drivers ports); SelectRecoveryExit selector with
  | None => fail "recovery exit selector is unavailable"
  | Some select =>
      decision ← select operation plan current costs;
      _ ← record_exit decision;
      if decide (xd_Route decision = ExitReturnToOrigin)
      then returnStages ← lift (ReturnExitStages plan); mret (mkRecoveryExit (take 2 (p_Stages plan) ++ returnStages) decision)
      else mret (mkRecoveryExit (p_Stages plan) decision)
  end.

Definition selectPrefundedRecovery (plan : SequentialPlan) (operation : OperationID) (bought : TokenAmount) (costs : list CostComponent)
    (cause : option error) : ST W recoveryExit :=
  match selector ← ds_ExitSelector (drivers ports); PrefundedExitSelector selector with
  | None => fail "prefunded recovery selector is unavailable"
  | Some selector =>
      decision ← match cause with
                 | None => SelectPrefundedExit selector operation plan bought costs
                 | Some cause => SelectPrefundedRecoveryExit selector operation plan bought costs cause
                 end;
      _ ← record_exit decision;
      if decide (xd_Route decision = ExitSellAtOrigin) then
        match p_Stages plan with
        | first :: _ => mret (mkRecoveryExit (first :: p_CircuitBreaker plan) decision)
        | [] => lift (Panic "index out of range")
        end
      else mret (mkRecoveryExit (p_Stages plan) decision)
  end.

(** *** Stage inputs *)

Definition recovery_awaits (outputs : gmap Z TokenAmount) (_ : unit) (dependency : Z) : res unit :=
  match outputs !! dependency with Some _ => Ok tt | None => Err (Errorf "recovery stage %d awaits dependency %d") end.

Definition resolveRecoveryInput (plan : SequentialPlan) (stage : SequentialStagePlan) (legacyCurrent : TokenAmount)
    (outputs : gmap Z TokenAmount) : res TokenAmount :=
  _ ← foldM (recovery_awaits outputs) tt (DependsOn stage);
  input ← (if decide (IsPrefundedDualInventory plan /\ Ordinal stage = 2 /\ Stage stage = StageSell) then InputFor plan stage outputs else
           if decide (InputFromOrdinal stage = 0 /\ 1 < Ordinal stage) then Ok legacyCurrent else InputFor plan stage outputs);
  if decide (amount_token input = InputToken stage) then Ok input else
  driver ← Driver (drivers ports) (Stage stage);
  match ConvertStageInput driver with
  | None => Err (Errorf "recovery stage %d requires a chain-local input converter")
  | Some convert => convert stage input
  end.

(** *** The loop *)

(** The variables of the loop of [resume]; [rc_transactions] are those of the snapshot
    as it was last loaded. *)
Record Recovery := mkRecovery {
  rc_stages : list SequentialStagePlan; rc_current : TokenAmount; rc_outputs : gmap Z TokenAmount; rc_settled : gset Z;
  rc_attempts : Z; rc_refreshed : bool; rc_result : SequentialResult; rc_operation : SequentialOperation;
  rc_transactions : list SequentialTransactionRecord }.

Definition rc_with (r : Recovery) (attempts : Z) : Recovery :=
  mkRecovery (rc_stages r) (rc_current r) (rc_outputs r) (rc_settled r) attempts (rc_refreshed r) (rc_result r) (rc_operation r) (rc_transactions r).
(** The exit is the one selected. *)
Definition rc_exit (r : Recovery) (selected : recoveryExit) (attempts : Z) (refreshed : bool) : Recovery :=
  mkRecovery (rx_stages selected) (rc_current r) (rc_outputs r) (rc_settled r) attempts refreshed
    (with_exit (rc_result r) (Some (rx_decision selected))) (rc_operation r) (rc_transactions r).
Definition rc_costs (r : Recovery) (costs : list CostComponent) : Recovery :=
  mkRecovery (rc_stages r) (rc_current r) (rc_outputs r) (rc_settled r) (rc_attempts r) (rc_refreshed r) (add_costs (rc_result r) costs)
    (rc_operation r) (rc_transactions r).
Definition rc_loaded (r : Recovery) (transactions : list SequentialTransactionRecord) : Recovery :=
  mkRecovery (rc_stages r) (rc_current r) (rc_outputs r) (rc_settled r) (rc_attempts r) (rc_refreshed r) (rc_result r) (rc_operation r) transactions.

Context (plan : SequentialPlan).

Definition attempt_record (r : Recovery) (ordinal : Z) (action reason : string) (cause : error) (attempts : Z) (at_ : Time) : SequentialRecoveryAttempt :=
  mkRecoveryAttempt (so_ID (rc_operation r)) ordinal action reason (error_text cause) attempts at_ (at_ + recoveryBackoff attempts).

(** The attempt is recorded, told, and waited for. *)
Definition failed_attempt (r : Recovery) (ordinal : Z) (action reason : string) (cause : error) : ST W (SequentialRecoveryAttempt + outcome) :=
  at_ ← now ports;
  let attempt := attempt_record r ordinal action reason cause (rc_attempts r + 1) at_ in
  on_result (RecordSequentialRecoveryAttempt (rcf_RecoveryJournal config) attempt)
    (fun _ => _ ← tell (RecoveryAttempted attempt); mret (inl attempt)) (fun e => mret (inr (rc_result r, Some e))).

Definition sleep {A} (r : Recovery) (delay : Z) (k : ST W (A + outcome)) : ST W (A + outcome) :=
  on_result (rcf_Sleep config delay) (fun _ => k) (fun e => mret (inr (rc_result r, Some e))).

Definition refresh_exit (r : Recovery) : ST W (Recovery + outcome) :=
  on_result (reselectExit plan (so_ID (rc_operation r)) (rc_current r) (sq_Costs (rc_result r)))
    (fun selected => mret (inl (rc_exit r selected 0 true)))
    (fun selectErr =>
       and_then (failed_attempt r 3 "select_best_recovery_exit" RecoveryFailureTemporary selectErr)
         (fun attempt => let r := rc_with r (rc_attempts r + 1) in sleep r (recoveryBackoff (rc_attempts r)) (mret (inl r)))).

(** A pending retry is waited for. *)
Definition wait_retry (r : Recovery) (transactions : list SequentialTransactionRecord) : ST W (unit + outcome) :=
  at_ ← now ports;
  if decide (Time_After (latestRecoveryAttempt transactions) at_)
  then sleep r (latestRecoveryAttempt transactions - at_) (mret (inl tt)) else mret (inl tt).

(** The purchase of a dual inventory operation whose sale has settled. *)
Definition settle_buy (r : Recovery) (settlement : SequentialStageSettlement) : res Recovery :=
  match p_Stages plan !! 1%nat with
  | None => Panic "index out of range"
  | Some sell =>
      let settled := {[1]} ∪ rc_settled r in
      let settled := if decide (SourceChain (sr_Stage (ss_Request settlement)) = SourceChain sell) then {[3; 4]} ∪ settled else settled in
      Ok (mkRecovery (rc_stages r) (rc_current r) (<[1 := ss_ActualOutput settlement]> (rc_outputs r)) settled 0 (rc_refreshed r)
            (add_settlement (rc_result r) settlement) (rc_operation r) (rc_transactions r))
  end.

Definition recover_buy (r : Recovery) (transactions : list SequentialTransactionRecord) : ST W (Recovery + outcome) :=
  if decide (EffectivePolicy plan = PolicyPrefundedTriggerFirst /\ 2 <= definitiveTransactionCount transactions)
  then blocked (rc_operation r) (rc_result r) (Wrapf "%w: selected trigger-first buy recovery reverted; manual intervention is required" (Sentinel ErrSequentialRecoveryBlocked))
  else
  match driver ← ds_Buy (drivers ports); RecoverParallelBuy driver with
  | None => blocked (rc_operation r) (rc_result r) (Errorf "parallel buy recovery selector is unavailable")
  | Some recover =>
      on_result (recover (so_ID (rc_operation r)) plan transactions)
        (fun settlement =>
           on_result (RecordStageSettlement (journal ports) settlement)
             (fun _ => r ← lift (settle_buy r settlement); mret (inl r)) (fun e => mret (inr (rc_result r, Some e))))
        (fun recoveryErr =>
           at_ ← now ports;
           let attempt := attempt_record r 1 "buy_same_quote_input_best_chain" RecoveryFailureTemporary recoveryErr (rc_attempts r + 1) at_ in
           _ ← ignore (RecordSequentialRecoveryAttempt (rcf_RecoveryJournal config) attempt);
           _ ← tell (RecoveryAttempted attempt);
           let r := rc_with r (rc_attempts r + 1) in sleep r (recoveryBackoff (rc_attempts r)) (mret (inl r)))
  end.

Definition terminal (result : SequentialResult) (state : string) (text : string) : SequentialResult :=
  mkSequentialResult (sq_Operation result) (sq_FinalAmount result) (sq_ExitDecision result) (sq_Settlements result) (sq_Costs result)
    (sq_ExecutionCost result) (sq_ExternalCost result) (sq_RealizedGross result) (sq_RealizedNetPnL result) (sq_QuoteDelta result)
    (sq_BaseDelta result) (sq_MarkedBase result) (sq_MarkPrice result) state text.

Definition abort_recovery (r : Recovery) : ST W (Recovery + outcome) :=
  let abortErr := Errorf "initial purchase had no confirmed economic effect" in
  on_result (FinishSequentialOperation (journal ports) (so_ID (rc_operation r)) SequentialAborted (Some abortErr))
    (fun _ => mret (inr (terminal (rc_result r) SequentialAborted (error_text abortErr), None)))
    (fun e => mret (inr (rc_result r, Some e))).

(** *** A stage that failed *)

Definition recovery_costs (r : Recovery) (stage : SequentialStagePlan) (stageErr : error) : ST W (Recovery + outcome) :=
  let costs := ErrorCosts stageErr in
  if decide (costs = []) then mret (inl r) else
  match RecordStageFailureCosts (journal ports) with
  | None => blocked (rc_operation r) (rc_result r) (Wrapf "cannot persist recovery failure costs: %w" stageErr)
  | Some record =>
      on_result (record (so_ID (rc_operation r)) (Ordinal stage) costs) (fun _ => mret (inl (rc_costs r costs)))
        (fun e => blocked (rc_operation r) (rc_result r) e)
  end.

Definition refuel (stage : SequentialStagePlan) (kind : string) (stageErr : error) : ST W error :=
  match rcf_Refuel config with
  | None => mret stageErr
  | Some refuel =>
      if decide (kind = RecoveryFailureInsufficientNative) then
        on_result (refuel (default (SourceChain stage) (RecoveryChain (Some stageErr)))) (fun _ => mret stageErr)
          (fun _ => mret (Wrapf "%w; emergency refuel: %v" stageErr))
      else mret stageErr
  end.

(** Since when the outcome is uncertain. *)
Definition uncertain_from (r : Recovery) (transactions : list SequentialTransactionRecord) : Time :=
  let first := firstUncertain transactions in
  let first := if decide (Time_IsZero first) then so_UpdatedAt (rc_operation r) else first in
  if decide (Time_IsZero first) then so_StartedAt (rc_operation r) else first.

Definition still_uncertain (r : Recovery) (transactions : list SequentialTransactionRecord) (kind : string) : ST W (unit + outcome) :=
  if decide (kind = RecoveryFailureUncertain) then
    at_ ← now ports;
    if decide (rcf_UncertainTimeout config <= at_ - uncertain_from r transactions)
    then blocked (rc_operation r) (rc_result r) (Wrapf "%w: stage %d remained uncertain for %s: %v" (Sentinel ErrSequentialRecoveryBlocked))
    else mret (inl tt)
  else mret (inl tt).

(** A prefunded sale that failed is recovered on the exit chosen anew. *)
Definition recover_prefunded_sale (r : Recovery) (stageErr : error) : ST W (Recovery + outcome) :=
  if decide (IsPrefundedDualInventory plan /\ 2 ∈ rc_settled r)
  then blocked (rc_operation r) (rc_result r) (Wrapf "%w: refusing duplicate parallel sale after its durable settlement" (Sentinel ErrSequentialRecoveryBlocked))
  else
    on_result (selectPrefundedRecovery plan (so_ID (rc_operation r)) (default TokenAmount_zero (rc_outputs r !! 1)) (sq_Costs (rc_result r)) (Some stageErr))
      (fun selected => mret (inl (rc_exit r selected 0 (rc_refreshed r))))
      (fun _ => blocked (rc_operation r) (rc_result r) (Wrapf "%w: prefunded recovery selection: %v" (Sentinel ErrSequentialRecoveryBlocked))).

(** A temporary failure is recorded and retried after a delay; a sale of a transported
    plan on the exit chosen anew, if one can be. *)
Definition retry_stage (r : Recovery) (stage : SequentialStagePlan) (kind : string) (stageErr : error) : ST W (Recovery + outcome) :=
  and_then (failed_attempt r (Ordinal stage) (recoveryAction (Stage stage) kind) kind stageErr) (fun _ =>
    let r := rc_with r (rc_attempts r + 1) in
    r ← (if decide (EffectivePolicy plan = PolicyTransportedSequential /\ Stage stage = StageSell) then
           on_result (reselectExit plan (so_ID (rc_operation r)) (rc_current r) (sq_Costs (rc_result r)))
             (fun selected => mret (rc_exit r selected (rc_attempts r) true)) (fun _ => mret r)
         else mret r);
    sleep r (recoveryBackoff (rc_attempts r))
      (on_result (LoadSequentialRecovery (rcf_RecoveryJournal config) (so_ID (rc_operation r)))
         (fun refreshed => mret (inl (rc_loaded r (rs_Transactions refreshed)))) (fun e => mret (inr (rc_result r, Some e))))).

Definition recovery_failed (r : Recovery) (stage : SequentialStagePlan) (transactions : list SequentialTransactionRecord) (stageErr : error) :
    ST W (Recovery + outcome) :=
  if errors_Is stageErr Canceled then mret (inr (rc_result r, Some stageErr)) else
  and_then (recovery_costs r stage stageErr) (fun r =>
    let kind := RecoveryKind (Some stageErr) in
    if decide (EffectivePolicy plan = PolicyPrefundedTriggerFirst /\ is_Some (sq_ExitDecision (rc_result r)) /\ IsDefinitiveFailure stageErr = true)
    then blocked (rc_operation r) (rc_result r)
           (Wrapf "%w: selected trigger-first recovery exit reverted; manual intervention is required: %v" (Sentinel ErrSequentialRecoveryBlocked))
    else
      stageErr ← refuel stage kind stageErr;
      and_then (still_uncertain r transactions kind) (fun _ =>
        if blocksRecovery kind
        then blocked (rc_operation r) (rc_result r) (Wrapf "%w: stage %d: %v" (Sentinel ErrSequentialRecoveryBlocked))
        else if decide ((EffectivePolicy plan = PolicyPrefundedSequential \/ IsPrefundedDualInventory plan) /\ Ordinal stage = 2 /\
                        IsDefinitiveFailure stageErr = true)
        then recover_prefunded_sale r stageErr
        else retry_stage r stage kind stageErr)).

(** *** A stage that settled *)

Definition settle_recovery (r : Recovery) (stage : SequentialStagePlan) (settlement : SequentialStageSettlement) : Recovery :=
  mkRecovery (rc_stages r) (ss_ActualOutput settlement) (<[Ordinal stage := ss_ActualOutput settlement]> (rc_outputs r))
    ({[Ordinal stage]} ∪ rc_settled r) 0 (rc_refreshed r) (add_settlement (rc_result r) settlement)
    (set_operation (rc_operation r) (Ordinal stage) (ss_ActualOutput settlement) (ss_ObservedAt settlement)) (rc_transactions r).

Definition rc_stale (r : Recovery) : Recovery :=
  mkRecovery (rc_stages r) (rc_current r) (rc_outputs r) (rc_settled r) (rc_attempts r + 1) false (rc_result r) (rc_operation r) (rc_transactions r).

Definition recovery_settled (r : Recovery) (stage : SequentialStagePlan) (settlement : SequentialStageSettlement) : ST W (Recovery + outcome) :=
  on_result (_ ← lift (StageSettlement_Validate settlement); RecordStageSettlement (journal ports) settlement)
    (fun _ =>
       let r := settle_recovery r stage settlement in
       if decide (EffectivePolicy plan = PolicyTransportedSequential /\ Ordinal stage = 2) then
         on_result (reselectExit plan (so_ID (rc_operation r)) (rc_current r) (sq_Costs (rc_result r)))
           (fun selected => mret (inl (rc_exit r selected (rc_attempts r) true)))
           (fun _ => sleep r (recoveryBackoff (rc_attempts r + 1)) (mret (inl (rc_stale r))))
       else mret (inl r))
    (fun e => blocked (rc_operation r) (rc_result r) e).

(** *** The iteration *)

Definition recover_stage (r : Recovery) (stage : SequentialStagePlan) (request : SequentialStageRequest)
    (transactions : list SequentialTransactionRecord) : ST W (Recovery + outcome) :=
  match driver ← res_opt (Driver (drivers ports) (Stage stage)); RecoverStage driver with
  | None => lift (Panic "interface conversion: stage driver cannot recover")
  | Some recover => on_result (recover request transactions) (recovery_settled r stage) (recovery_failed r stage transactions)
  end.

Definition resume_stage (r : Recovery) (stage : SequentialStagePlan) : ST W (Recovery + outcome) :=
  if decide (EffectivePolicy plan = PolicyTransportedSequential /\ so_CurrentStage (rc_operation r) = 2 /\ rc_refreshed r = false) then refresh_exit r else
  on_result (lift (resolveRecoveryInput plan stage (rc_current r) (rc_outputs r)))
    (fun input =>
       let request := mkStageRequest (so_ID (rc_operation r)) (p_ID plan) stage input in
       let transactions := transactionsForOrdinal (rc_transactions r) (Ordinal stage) in
       let r := rc_with r (Z.max (rc_attempts r) (transactionRecoveryAttempts transactions (Ordinal stage))) in
       and_then (wait_retry r transactions) (fun _ =>
         if decide (Ordinal stage = 1 /\ IsPrefundedDualInventory plan /\ 2 ∈ rc_settled r /\ allTransactionsDefinitiveOrAbsent transactions = true)
         then recover_buy r transactions
         else if decide (Ordinal stage = 1 /\ allTransactionsDefinitiveOrAbsent transactions = true) then abort_recovery r
         else recover_stage r stage request transactions))
    (fun e => blocked (rc_operation r) (rc_result r) e).

(** Every stage has settled. *)
Definition finish_recovery (r : Recovery) : ST W outcome :=
  let result := with_final (rc_result r) (rc_current r) in
  on_result (lift (if decide (IsPrefundedDualInventory plan) then calculateParallelEconomics plan result else calculateSequentialEconomics plan result))
    (fun result =>
       on_result (record_result ports result)
         (fun _ => on_result (FinishSequentialOperation (journal ports) (so_ID (rc_operation r)) SequentialCompleted None)
                     (fun _ => mret (result, None)) (fun e => mret (result, Some e)))
         (fun e => mret (result, Some e)))
    (fun e => _ ← block (rc_operation r) e; mret (result, Some e)).

(** Some iterations of the loop: where it stands, or what it returned. *)
Fixpoint resume_steps (fuel : nat) (r : Recovery) : ST W (Recovery + outcome) :=
  match fuel with
  | O => mret (inl r)
  | S fuel =>
      match nextUnsettledRecoveryStage (rc_stages r) (rc_settled r) with
      | None => o ← finish_recovery r; mret (inr o)
      | Some stage =>
          x ← resume_stage r stage;
          match x with inl r => resume_steps fuel r | inr o => mret (inr o) end
      end
  end.

(** *** From the snapshot *)

Definition snapshot_settled (settlements : list SequentialStageSettlement) : gset Z :=
  list_to_set ((fun s => Ordinal (sr_Stage (ss_Request s))) <$> settlements).

Definition snapshot_result (snapshot : SequentialRecoverySnapshot) : SequentialResult :=
  with_exit (with_progress (new_result (so_ID (rs_Operation snapshot))) (rs_Settlements snapshot) (rs_Costs snapshot)) (rs_ExitDecision snapshot).

Definition recovering (operation : SequentialOperation) : SequentialOperation :=
  mkSequentialOperation (so_ID operation) (so_Plan operation) (so_OpportunityID operation) (so_ConfigHash operation) SequentialRecovering
    (so_CurrentStage operation) (so_CurrentAmount operation) (so_StartedAt operation) (so_UpdatedAt operation) (so_LastError operation).

(** What has settled, counting the bridges a purchase on the sale's chain makes needless. *)
Definition restored_settled (snapshot : SequentialRecoverySnapshot) : gset Z :=
  let settled := snapshot_settled (rs_Settlements snapshot) in
  if decide (IsPrefundedDualInventory plan /\ parallelBuyRestoredOnSellChain plan (rs_Settlements snapshot) = true) then {[3; 4]} ∪ settled else settled.

Definition initial_recovery (snapshot : SequentialRecoverySnapshot) (stages : list SequentialStagePlan) (result : SequentialResult) : Recovery :=
  let operation := recovering (rs_Operation snapshot) in
  mkRecovery stages (so_CurrentAmount operation) (settled_outputs (rs_Settlements snapshot)) (restored_settled snapshot) 0
    (bool_decide (so_CurrentStage operation < 2)) result operation (rs_Transactions snapshot).

(** Both legs are durable: a stale exit must not replace the two bridges. *)
Definition drop_stale_exit (snapshot : SequentialRecoverySnapshot) (stages : list SequentialStagePlan) : Recovery :=
  if parallelEconomicLegsSettled plan (snapshot_settled (rs_Settlements snapshot))
  then initial_recovery snapshot (p_Stages plan) (with_exit (snapshot_result snapshot) None)
  else initial_recovery snapshot stages (snapshot_result snapshot).

Definition initial_cause : option error :=
  if decide (EffectivePolicy plan = PolicyPrefundedTriggerFirst) then Some (Errorf "trigger-first second leg failed before recovery selection") else None.

Definition start_recovery (snapshot : SequentialRecoverySnapshot) : ST W (Recovery + outcome) :=
  on_result (lift (recoveryStages plan (rs_ExitDecision snapshot)))
    (fun stages =>
       let r := drop_stale_exit snapshot stages in
       if shouldSelectInitialPrefundedExit plan (rc_settled r) (rs_ExitDecision snapshot) then
         on_result (selectPrefundedRecovery plan (so_ID (rc_operation r)) (default TokenAmount_zero (rc_outputs r !! 1)) (sq_Costs (rc_result r)) initial_cause)
           (fun selected => mret (inl (rc_exit r selected 0 (rc_refreshed r))))
           (fun selectErr => blocked (rc_operation r) (rc_result r) selectErr)
       else mret (inl r))
    (fun e => blocked (recovering (rs_Operation snapshot)) (snapshot_result snapshot) e).
End coordinator.

(** ** The active operation *)

Section active.
Context {W : Type} {typed : TypedErrors} (error_text : error -> string) (config : SequentialRecoveryConfig (W := W)).

(** Costs that were recorded without a value are valued. *)
Definition value_cost (cost : CostComponent) : res CostComponent :=
  if decide (quantity_asset (cc_QuoteValue cost) <> "") then Ok cost else
  match rcf_CostValuator config with
  | None => Err (Errorf "value durable recovery cost %d: execution cost valuator is unavailable")
  | Some value => wrap "value durable recovery cost %d: %w" (value cost)
  end.
Definition value_costs (costs : list CostComponent) : res (list CostComponent) :=
  foldM (fun valued cost => cost ← value_cost cost; Ok (valued ++ [cost])) [] costs.

Definition with_valued (snapshot : SequentialRecoverySnapshot) (costs : list CostComponent) : SequentialRecoverySnapshot :=
  mkRecoverySnapshot (rs_Operation snapshot) (rs_Plan snapshot) (rs_Transactions snapshot) (rs_Settlements snapshot) costs (rs_ExitDecision snapshot).

(** What [RecoverActive] returns: a result, whether an operation was active, an
    error; or the loop, still running. *)
Abbreviation recovered := (SequentialResult * bool * option error)%type.
Definition failing (operation : SequentialOperation) (cause : error) : ST W (Recovery + recovered) :=
  _ ← block config operation cause; mret (inr (result_zero, true, Some cause)).

Definition resume (fuel : nat) (snapshot : SequentialRecoverySnapshot) : ST W (Recovery + (SequentialResult * option error)) :=
  and_then (start_recovery config (rs_Plan snapshot) snapshot) (resume_steps error_text config (rs_Plan snapshot) fuel).

Definition announce (active : SequentialOperation) (result : SequentialResult) : ST W (Recovery + recovered) :=
  _ ← tell config (if decide (sq_TerminalState result = SequentialAborted)
                   then RecoveryAborted active result (Errorf (sq_TerminalError result)) else RecoveryCompleted result);
  mret (inr (result, true, None)).

Definition recover_snapshot (fuel : nat) (active : SequentialOperation) (snapshot : SequentialRecoverySnapshot) : ST W (Recovery + recovered) :=
  match value_costs (rs_Costs snapshot) with
  | Panic why => lift (Panic why)
  | Err e => failing active e
  | Ok costs =>
      let snapshot := with_valued snapshot costs in
      _ ← tell config (RecoveryStarted snapshot);
      on_result (SetSequentialRecoveryState (rcf_RecoveryJournal config) (so_ID active) SequentialRecovering (activeError active))
        (fun _ =>
           x ← resume fuel snapshot;
           match x with
           | inl r => mret (inl r)
           | inr (result, Some e) => mret (inr (result, true, Some e))
           | inr (result, None) => announce active result
           end)
        (fun e => mret (inr (result_zero, true, Some e)))
  end.

Definition RecoverActive (fuel : nat) : ST W (Recovery + recovered) :=
  on_result (ActiveSequentialOperation (journal (rcf_Ports config)))
    (fun active =>
       match active with
       | None => mret (inr (result_zero, false, None))
       | Some active =>
           if decide (so_State active = SequentialRecoveryBlocked) then
             let cause := Wrapf "%w: operation %s" (Sentinel ErrSequentialRecoveryBlocked) in
             _ ← tell config (RecoveryBlocked active cause); mret (inr (result_zero, true, Some cause))
           else
             on_result (LoadSequentialRecovery (rcf_RecoveryJournal config) (so_ID active)) (recover_snapshot fuel active)
               (fun e => failing active (Wrapf "load durable recovery snapshot for %s: %w" e))
       end)
    (fun e => mret (inr (result_zero, false, Some e))).
End active.

(** ** Logs *)

Inductive recovery_event :=
| Resumed (request : SequentialStageRequest) (outcome : res SequentialStageSettlement)
| Rebought (outcome : res SequentialStageSettlement)
| Stored (settlement : SequentialStageSettlement) (outcome : res unit)
| Closed (state : string) (cause : option error) (outcome : res unit).

(** Each of the calls that change the world appends its event; no other does. *)
Record RecoveryLogs {W} (config : SequentialRecoveryConfig (W := W)) (log : W -> list recovery_event) : Prop := {
  rl_recover : forall kind driver recover, Driver (drivers (rcf_Ports config)) kind = Ok driver -> RecoverStage driver = Some recover ->
    forall request transactions w, log (recover request transactions w).2 = log w ++ [Resumed request (recover request transactions w).1];
  rl_buy : forall driver recover, ds_Buy (drivers (rcf_Ports config)) = Some driver -> RecoverParallelBuy driver = Some recover ->
    forall id plan transactions w, log (recover id plan transactions w).2 = log w ++ [Rebought (recover id plan transactions w).1];
  rl_store : forall settlement w, log (RecordStageSettlement (journal (rcf_Ports config)) settlement w).2 =
    log w ++ [Stored settlement (RecordStageSettlement (journal (rcf_Ports config)) settlement w).1];
  rl_close : forall id state cause w, log (FinishSequentialOperation (journal (rcf_Ports config)) id state cause w).2 =
    log w ++ [Closed state cause (FinishSequentialOperation (journal (rcf_Ports config)) id state cause w).1];
  rl_observer : forall e w, log (rcf_Observer config e w) = log w;
  rl_sleep : forall delay, Still log (rcf_Sleep config delay);
  rl_refuel : forall refuel, rcf_Refuel config = Some refuel -> forall chain, Still log (refuel chain);
  rl_journal : let j := rcf_RecoveryJournal config in
    (forall id, Still log (LoadSequentialRecovery j id)) /\ (forall id state cause, Still log (SetSequentialRecoveryState j id state cause)) /\
    (forall attempt, Still log (RecordSequentialRecoveryAttempt j attempt));
  rl_active : Still log (ActiveSequentialOperation (journal (rcf_Ports config)));
  rl_result : forall record, RecordSequentialResult (journal (rcf_Ports config)) = Some record -> forall result, Still log (record result);
  rl_exit : forall record, RecordSequentialExitDecision (journal (rcf_Ports config)) = Some record -> forall decision, Still log (record decision);
  rl_costs : forall record, RecordStageFailureCosts (journal (rcf_Ports config)) = Some record -> forall id ordinal costs, Still log (record id ordinal costs);
  rl_select : forall selector, ds_ExitSelector (drivers (rcf_Ports config)) = Some selector ->
    (forall select, SelectRecoveryExit selector = Some select -> forall id plan amount costs, Still log (select id plan amount costs)) /\
    (forall prefunded, PrefundedExitSelector selector = Some prefunded ->
       (forall id plan amount costs, Still log (SelectPrefundedExit prefunded id plan amount costs)) /\
       (forall id plan amount costs cause, Still log (SelectPrefundedRecoveryExit prefunded id plan amount costs cause))) }.

(** The attempts at a stage, in order, and what came of each: recoveries, and purchases
    again, which are attempts at the first stage. *)
Definition attempt (e : recovery_event) : option (Z * res SequentialStageSettlement) :=
  match e with
  | Resumed request outcome => Some (Ordinal (sr_Stage request), outcome)
  | Rebought outcome => Some (1, outcome)
  | _ => None
  end.
Definition attempts (l : list recovery_event) : list (Z * res SequentialStageSettlement) := omap attempt l.

(** Two events of a log, one right after the other. *)
Definition adjacent (l : list recovery_event) (a b : recovery_event) : Prop := exists pre post, l = pre ++ a :: b :: post.

(** The ordinals that a log settles: a stage whose recovery succeeded and was stored; the
    first one by a purchase that succeeded and was stored; and the two bridges by such a
    purchase on the chain of the sale, which restores both tokens where they were. *)
Inductive settles (plan : SequentialPlan) (l : list recovery_event) : Z -> Prop :=
| settles_stage request s :
    adjacent l (Resumed request (Ok s)) (Stored s (Ok tt)) -> settles plan l (Ordinal (sr_Stage request))
| settles_purchase s :
    adjacent l (Rebought (Ok s)) (Stored s (Ok tt)) -> settles plan l 1
| settles_bridges s sell o :
    adjacent l (Rebought (Ok s)) (Stored s (Ok tt)) -> p_Stages plan !! 1%nat = Some sell ->
    SourceChain (sr_Stage (ss_Request s)) = SourceChain sell -> o = 3 \/ o = 4 -> settles plan l o.

(** A log that does not end in a success that has not been stored yet. *)
Definition closed_log (l : list recovery_event) : Prop :=
  match last l with Some (Resumed _ (Ok _)) | Some (Rebought (Ok _)) => False | _ => True end.

Lemma adjacent_app_l l k a b : adjacent l a b -> adjacent (l ++ k) a b.
Proof. intros (pre & post & ->). exists pre, (post ++ k). by rewrite <- app_assoc. Qed.
Lemma adjacent_app_r l k a b : adjacent k a b -> adjacent (l ++ k) a b.
Proof. intros (pre & post & ->). exists (l ++ pre), post. by rewrite <- app_assoc. Qed.

Lemma adjacent_app l k a b : adjacent (l ++ k) a b -> adjacent l a b \/ adjacent k a b \/ last l = Some a.
Proof.
  intros (pre & post & H). apply app_eq_inv in H as [(m & -> & Hk)|(m & -> & Hk)].
  - destruct m as [|x [|y m]]; cbn in Hk.
    + right. left. by exists [], post.
    + injection Hk as <- _. right. right. by rewrite last_snoc.
    + injection Hk as <- <- _. left. by exists pre, m.
  - right. left. rewrite Hk. by exists m, post.
Qed.

Lemma settles_app_l plan l k o : settles plan l o -> settles plan (l ++ k) o.
Proof. destruct 1; [eapply settles_stage|eapply settles_purchase|eapply settles_bridges]; try done; by apply adjacent_app_l. Qed.
Lemma settles_app_r plan l k o : settles plan k o -> settles plan (l ++ k) o.
Proof. destruct 1; [eapply settles_stage|eapply settles_purchase|eapply settles_bridges]; try done; by apply adjacent_app_r. Qed.

Lemma settles_app plan l k o : closed_log l -> settles plan (l ++ k) o -> settles plan l o \/ settles plan k o.
Proof.
  unfold closed_log. intros Hc [request s H|s H|s sell o' H Hs Hch Ho]; apply adjacent_app in H as [H|[H|H]]; try (rewrite H in Hc; done).
  - left. by eapply settles_stage.
  - right. by eapply settles_stage.
  - left. by eapply settles_purchase.
  - right. by eapply settles_purchase.
  - left. by eapply settles_bridges.
  - right. by eapply settles_bridges.
Qed.

(** A log of fewer than two events has no two of them. *)
Lemma adjacent_short l a b : adjacent l a b -> (2 <= length l)%nat.
Proof. intros (pre & post & ->). rewrite length_app. cbn. lia. Qed.

Lemma settles_short plan l o : (length l <= 1)%nat -> ~ settles plan l o.
Proof. intros Hl [request s H|s H|s sell o' H _ _ _]; apply adjacent_short in H; lia. Qed.

Lemma adjacent_pair x y a b : adjacent [x; y] a b -> a = x /\ b = y.
Proof.
  intros ([|z pre] & post & H); cbn in H; [by injection H as <- <- _|]. injection H as _ H.
  apply (f_equal length) in H. rewrite length_app in H. cbn in H. lia.
Qed.

Section safety.
Context {W : Type} {typed : TypedErrors} (error_text : error -> string) (config : SequentialRecoveryConfig (W := W)) (plan : SequentialPlan).
Context (log : W -> list recovery_event) (logs : RecoveryLogs config log).
Abbreviation Still := (Still log).
Abbreviation Quiet := (Quiet log).
Abbreviation Traces := (Traces log).
Abbreviation outcome := (SequentialResult * option error)%type.

(** The routes a plan can be recovered on. *)
Definition route (stages : list SequentialStagePlan) : Prop :=
  stages = p_Stages plan \/
  (exists first, head (p_Stages plan) = Some first /\ stages = first :: p_CircuitBreaker plan) \/
  (exists returnStages, ReturnExitStages plan = Ok returnStages /\ stages = take 2 (p_Stages plan) ++ returnStages).

(** Where the loop stands after a part of an iteration that settled nothing; the part
    may have returned, and then with an error. *)
Definition stays (r : Recovery) (x : Recovery + outcome) : Prop :=
  match x with
  | inl r' => rc_settled r' = rc_settled r /\ (route (rc_stages r) -> route (rc_stages r'))
  | inr (_, e) => is_Some e
  end.
Definition errs {A} (x : A + outcome) : Prop := match x with inl _ => True | inr (_, e) => is_Some e end.

Lemma tell_still e : Still (tell config e).
Proof using logs. apply Still_modify, (rl_observer _ _ logs). Qed.
Lemma now_still : Still (now (rcf_Ports config)).
Proof. by intros w. Qed.
Lemma load_still id : Still (LoadSequentialRecovery (rcf_RecoveryJournal config) id).
Proof using logs. apply (rl_journal _ _ logs). Qed.
Lemma state_still id state cause : Still (SetSequentialRecoveryState (rcf_RecoveryJournal config) id state cause).
Proof using logs. apply (rl_journal _ _ logs). Qed.
Lemma attempt_still attempt : Still (RecordSequentialRecoveryAttempt (rcf_RecoveryJournal config) attempt).
Proof using logs. apply (rl_journal _ _ logs). Qed.
Hint Resolve tell_still now_still load_still state_still attempt_still : still.

Lemma block_still operation cause : Still (block config operation cause).
Proof using logs. unfold block. still_auto. Qed.
Lemma record_exit_still decision : Still (record_exit config decision).
Proof using logs. unfold record_exit. still_auto. by apply (rl_exit _ _ logs). Qed.
Hint Resolve block_still record_exit_still : still.

Lemma blocked_quiet {A} operation result cause : Quiet (blocked (A := A) config operation result cause) errs.
Proof using logs. eapply Quiet_bind; [apply Quiet_still, block_still|]. intros _ _. apply Quiet_mret. by eexists. Qed.

Lemma sleep_quiet {A} r delay (k : ST W (A + outcome)) (P : A + outcome -> Prop) :
  Quiet k P -> (forall result e, P (inr (result, Some e))) -> Quiet (sleep config r delay k) P.
Proof using logs.
  intros Hk HP. eapply Quiet_on_result; [apply Quiet_still, (rl_sleep _ _ logs)|done|]. intros e. apply Quiet_mret, HP.
Qed.

Lemma failed_attempt_quiet r ordinal action reason cause : Quiet (failed_attempt error_text config r ordinal action reason cause) errs.
Proof using logs.
  unfold failed_attempt. eapply Quiet_bind; [apply Quiet_still, now_still|]. intros at_ _.
  eapply Quiet_on_result; [apply Quiet_still, attempt_still|..].
  - intros _ _. eapply Quiet_bind; [apply Quiet_still, tell_still|]. intros _ _. by apply Quiet_mret.
  - intros e. apply Quiet_mret. by eexists.
Qed.

Lemma and_then_quiet {A B} (m : ST W (A + outcome)) (f : A -> ST W (B + outcome)) (P : A -> Prop) (R : B + outcome -> Prop) :
  Quiet m (fun x => match x with inl a => P a | inr (_, e) => is_Some e end) -> (forall a, P a -> Quiet (f a) R) ->
  (forall result e, is_Some e -> R (inr (result, e))) -> Quiet (and_then m f) R.
Proof. intros Hm Hf HR. eapply Quiet_bind; [exact Hm|]. intros [a|[result e]] Hx; [by apply Hf|]. by apply Quiet_mret, HR. Qed.

Lemma and_then_errs {A B} (m : ST W (A + outcome)) (f : A -> ST W (B + outcome)) (R : B + outcome -> Prop) :
  Quiet m errs -> (forall a, Quiet (f a) R) -> (forall result e, is_Some e -> R (inr (result, e))) -> Quiet (and_then m f) R.
Proof. intros Hm Hf HR. by apply (and_then_quiet m f (fun _ => True)); [|intros a _; apply Hf|]. Qed.

(** *** Selections *)

Lemma reselect_quiet id current costs : Quiet (reselectExit config plan id current costs) (fun selected => route (rx_stages selected)).
Proof using logs.
  unfold reselectExit. destruct (ds_ExitSelector _) as [selector|] eqn:Hs; cbn; [|by apply Quiet_lift].
  destruct (SelectRecoveryExit selector) as [select|] eqn:Hr; cbn; [|by apply Quiet_lift]. destruct (rl_select _ _ logs _ Hs) as [Hsel _].
  eapply Quiet_bind; [by apply Quiet_still, Hsel|]. intros decision _. eapply Quiet_bind; [apply Quiet_still, record_exit_still|]. intros _ _.
  destruct (decide _); [|apply Quiet_mret; by left].
  eapply (Quiet_bind _ _ _ (fun ret => ReturnExitStages plan = Ok ret)); [by apply Quiet_lift|]. intros ret Hret. apply Quiet_mret. right. right. by exists ret.
Qed.

Lemma prefunded_quiet id bought costs cause : Quiet (selectPrefundedRecovery config plan id bought costs cause) (fun selected => route (rx_stages selected)).
Proof using logs.
  unfold selectPrefundedRecovery. destruct (ds_ExitSelector _) as [s|] eqn:Hs; cbn; [|by apply Quiet_lift].
  destruct (PrefundedExitSelector s) as [selector|] eqn:Hr; cbn; [|by apply Quiet_lift]. destruct (rl_select _ _ logs _ Hs) as [_ Hsel].
  destruct (Hsel _ Hr) as [H1 H2]. eapply (Quiet_bind _ _ _ (fun _ => True)); [destruct cause; by apply Quiet_still|]. intros decision _.
  eapply Quiet_bind; [apply Quiet_still, record_exit_still|]. intros _ _. destruct (decide _); [|apply Quiet_mret; by left].
  destruct (p_Stages plan) as [|first rest] eqn:Hp; [by apply Quiet_lift|]. apply Quiet_mret. right. left. exists first. by rewrite Hp.
Qed.

Lemma refresh_quiet r : Quiet (refresh_exit error_text config plan r) (stays r).
Proof using logs.
  unfold refresh_exit. eapply Quiet_on_result; [apply reselect_quiet|..].
  - intros selected Hroute. by apply Quiet_mret.
  - intros e. apply and_then_errs; [apply failed_attempt_quiet| |done]. intros attempt. apply sleep_quiet; [by apply Quiet_mret|]. by eexists.
Qed.

Lemma wait_quiet r transactions : Quiet (wait_retry config r transactions) errs.
Proof using logs.
  unfold wait_retry. eapply Quiet_bind; [apply Quiet_still, now_still|]. intros at_ _. destruct (decide _); [|by apply Quiet_mret].
  apply sleep_quiet; [by apply Quiet_mret|]. by eexists.
Qed.

(** *** A stage that failed *)

Lemma stays_inr r result e : is_Some e -> stays r (inr (result, e)).
Proof. done. Qed.
Lemma blocked_to {A} operation result cause (P : A + outcome -> Prop) : (forall e, P (inr (result, Some e))) ->
  Quiet (blocked config operation result cause) P.
Proof using logs.
  intros HP. eapply Quiet_bind; [apply Quiet_still, block_still|]. intros _ _. apply Quiet_mret, HP.
Qed.

Lemma blocked_stays r operation result cause : Quiet (blocked config operation result cause) (stays r).
Proof using logs. apply blocked_to. intros e. by eexists. Qed.

Lemma costs_quiet r stage e : Quiet (recovery_costs config r stage e) (stays r).
Proof using logs.
  unfold recovery_costs. destruct (decide _); [by apply Quiet_mret|].
  destruct (RecordStageFailureCosts _) as [record|] eqn:Hr; [|by apply blocked_stays].
  eapply Quiet_on_result; [apply Quiet_still; by apply (rl_costs _ _ logs)|..]; [intros _ _; by apply Quiet_mret|intros; by apply blocked_stays].
Qed.

Lemma refuel_still stage kind e : Still (refuel config stage kind e).
Proof using logs. unfold refuel. destruct (rcf_Refuel config) as [f|] eqn:Hf; [|apply Still_mret]. still_auto. by apply (rl_refuel _ _ logs). Qed.

Lemma uncertain_quiet r transactions kind : Quiet (still_uncertain config r transactions kind) errs.
Proof using logs.
  unfold still_uncertain. destruct (decide _); [|by apply Quiet_mret]. eapply Quiet_bind; [apply Quiet_still, now_still|]. intros at_ _.
  destruct (decide _); [apply blocked_quiet|by apply Quiet_mret].
Qed.

Lemma prefunded_sale_quiet r e : Quiet (recover_prefunded_sale config plan r e) (stays r).
Proof using logs.
  unfold recover_prefunded_sale. destruct (decide _); [by apply blocked_stays|].
  eapply Quiet_on_result; [apply prefunded_quiet|..]; [intros selected Hroute; by apply Quiet_mret|intros; by apply blocked_stays].
Qed.

Lemma retry_quiet r stage kind e : Quiet (retry_stage error_text config plan r stage kind e) (stays r).
Proof using logs.
  unfold retry_stage. apply and_then_errs; [apply failed_attempt_quiet| |done]. intros attempt.
  eapply (Quiet_bind _ _ _ (fun r' => rc_settled r' = rc_settled r /\ (route (rc_stages r) -> route (rc_stages r')))).
  - destruct (decide _); [|by apply Quiet_mret]. eapply Quiet_on_result; [apply reselect_quiet|..]; [intros selected Hroute|intros ?]; by apply Quiet_mret.
  - intros r' Hr'. apply sleep_quiet; [|by eexists]. eapply Quiet_on_result; [apply Quiet_still, load_still|..]; [intros loaded _; by apply Quiet_mret|intros ?; apply Quiet_mret; by eexists].
Qed.

Lemma stays_trans r r' x : stays r (inl r') -> stays r' x -> stays r x.
Proof. intros [H1 H2]. destruct x as [r''|[]]; [|done]. intros [H3 H4]. split; [congruence|auto]. Qed.

Lemma failed_quiet r stage transactions e : Quiet (recovery_failed error_text config plan r stage transactions e) (stays r).
Proof using logs.
  unfold recovery_failed. destruct (errors_Is e Canceled); [apply Quiet_mret; by eexists|].
  apply (and_then_quiet _ _ (fun r' => stays r (inl r'))); [|intros r' Hr'|done].
  { eapply Quiet_weaken; [apply costs_quiet|]. by intros [r'|[]]. }
  eapply (Quiet_weaken _ _ (stays r')); [|intros x; by apply stays_trans]. destruct (decide _); [by apply blocked_stays|].
  eapply Quiet_bind; [apply Quiet_still, refuel_still|]. intros e' _. apply and_then_errs; [apply uncertain_quiet| |done]. intros _.
  destruct (blocksRecovery _); [by apply blocked_stays|]. destruct (decide _); [apply prefunded_sale_quiet|apply retry_quiet].
Qed.

(** *** One iteration *)

(** What an iteration does: it attempts at most one stage, first of all, which has not
    settled; what has settled grows by exactly what the log settles; an iteration that
    returns without an error aborts the operation. *)
Definition iterates (r : Recovery) (x : res (Recovery + outcome)) (l : list recovery_event) : Prop :=
  Forall (fun e => attempt e = None) (tail l) /\
  (forall e o out, head l = Some e -> attempt e = Some (o, out) -> o ∉ rc_settled r) /\
  match x with
  | Ok (inl r') =>
      (route (rc_stages r) -> route (rc_stages r')) /\ closed_log l /\
      (forall o, o ∈ rc_settled r' <-> o ∈ rc_settled r \/ settles plan l o) /\
      (forall e o s, head l = Some e -> attempt e = Some (o, Ok s) -> o ∈ rc_settled r')
  | Ok (inr (result, None)) => sq_TerminalState result = SequentialAborted /\ exists cause, l = [Closed SequentialAborted (Some cause) (Ok tt)]
  | _ => True
  end.

(** A log that attempts nothing, and settles nothing. *)
Lemma nothing_attempted r (x : res (Recovery + outcome)) l : attempts l = [] -> (length l <= 1)%nat ->
  match x with Ok (inl r') => rc_settled r' = rc_settled r /\ (route (rc_stages r) -> route (rc_stages r')) | Ok (inr (_, None)) => False | _ => True end ->
  iterates r x l.
Proof using Type.
  intros Hl Hlen Hx. destruct l as [|e [|e' l]]; [..|cbn in Hlen; lia].
  - split; [constructor|]. split; [done|]. destruct x as [[r'|[result [e|]]]|e|why]; try done. destruct Hx as [Hset Hroute]. split; [done|]. split; [done|]. rewrite Hset.
    split; [|done]. intros o. split; [by left|]. intros [?|H]; [done|]. by apply settles_short in H.
  - assert (attempt e = None) as He by (destruct e; done).
    split; [constructor|]. split; [intros ? ? ? [= <-]; by rewrite He|]. destruct x as [[r'|[result [e'|]]]|e'|why]; try done. destruct Hx as [Hset Hroute].
    split; [done|]. split; [by destruct e|]. rewrite Hset. split; [|intros ? ? ? [= <-]; by rewrite He].
    intros o. split; [by left|]. intros [?|H]; [done|]. by apply settles_short in H.
Qed.

(** An attempt that fails, at a stage that has not settled. *)
Lemma attempted_in_vain r (x : res (Recovery + outcome)) e o out : attempt e = Some (o, out) -> (forall s, out <> Ok s) -> o ∉ rc_settled r ->
  match x with Ok (inl r') => rc_settled r' = rc_settled r /\ (route (rc_stages r) -> route (rc_stages r')) | Ok (inr (_, None)) => False | _ => True end ->
  iterates r x [e].
Proof using Type.
  intros He Hout Ho Hx. split; [constructor|]. split; [intros ? ? ? [= <-]; rewrite He; by intros [= <- _]|].
  destruct x as [[r'|[result [e'|]]]|e'|why]; try done. destruct Hx as [Hset Hroute].
  split; [done|]. split; [|split].
  - unfold closed_log. cbn. destruct e as [request [s| |]|[s| |]| |]; try done; injection He as _ <-; by destruct (Hout s).
  - intros k. rewrite Hset. split; [by left|]. intros [?|H]; [done|]. by apply settles_short in H.
  - intros ? ? s [= <-]. rewrite He. intros [= _ ->]. by destruct (Hout s).
Qed.

(** An attempt after which the recovery returns with an error or panics. *)
Lemma attempted_last r (x : res (Recovery + outcome)) e o out l : attempt e = Some (o, out) -> attempts l = [] -> o ∉ rc_settled r ->
  match x with Ok (inl _) | Ok (inr (_, None)) => False | _ => True end -> iterates r x (e :: l).
Proof using Type.
  intros He Hl Ho Hx. split.
  - cbn. clear -Hl. induction l as [|e l IH]; constructor.
    + unfold attempts in Hl. cbn in Hl. by destruct (attempt e).
    + apply IH. unfold attempts in *. cbn in Hl. by destruct (attempt e).
  - split; [intros ? ? ? [= <-]; rewrite He; by intros [= <- _]|]. by destruct x as [[|[? []]]| |].
Qed.

(** An attempt that succeeds and is stored. *)
Lemma attempted_stored r r' e o s : attempt e = Some (o, Ok s) -> o ∉ rc_settled r -> (route (rc_stages r) -> route (rc_stages r')) ->
  (forall k, k ∈ rc_settled r' <-> k ∈ rc_settled r \/ settles plan [e; Stored s (Ok tt)] k) -> o ∈ rc_settled r' ->
  iterates r (Ok (inl r')) [e; Stored s (Ok tt)].
Proof using Type.
  intros He Ho Hroute Hset Hin. split; [by constructor; [|constructor]|]. split; [intros ? ? ? [= <-]; rewrite He; by intros [= <- _]|].
  split; [done|]. split; [done|]. split; [done|]. intros ? ? ? [= <-]. rewrite He. by intros [= <- _].
Qed.

Lemma stays_iterates r (m : ST W (Recovery + outcome)) : Quiet m (stays r) -> Traces m (iterates r).
Proof using Type.
  intros Hm. eapply Traces_weaken; [exact Hm|]. intros x l [-> Hx]. apply nothing_attempted; [done|cbn; lia|].
  by destruct x as [[r'|[result e]]|e|why]; [..|destruct Hx as [? ->]| |].
Qed.

Lemma iterates_ext r r' x l : rc_settled r' = rc_settled r -> rc_stages r' = rc_stages r -> iterates r' x l -> iterates r x l.
Proof using Type. unfold iterates. by intros -> ->. Qed.

Lemma settled_traces r stage request settlement : Ordinal stage ∉ rc_settled r -> sr_Stage request = stage ->
  Traces (recovery_settled config plan r stage settlement) (fun x l => iterates r x (Resumed request (Ok settlement) :: l)).
Proof using logs.
  intros Hnew Hreq. unfold recovery_settled.
  assert (attempt (Resumed request (Ok settlement)) = Some (Ordinal stage, Ok settlement)) as He by (cbn; by rewrite Hreq).
  assert (forall r', (route (rc_stages r) -> route (rc_stages r')) -> rc_settled r' = {[Ordinal stage]} ∪ rc_settled r ->
    iterates r (Ok (inl r')) [Resumed request (Ok settlement); Stored settlement (Ok tt)]) as Hgo.
  { intros r' Hroute Hset. eapply attempted_stored; [exact He|done|done| |set_solver]. intros k. rewrite Hset, elem_of_union, elem_of_singleton. split.
    - intros [->|Hk]; [right|by left]. rewrite <- Hreq. apply (settles_stage _ _ _ settlement). by exists [], [].
    - intros [Hk|Hk]; [by right|]. destruct Hk as [request' s' H|s' H|s' sell k H _ _ _]; apply adjacent_pair in H as [H1 H2]; try done. injection H1 as -> _. by left; rewrite Hreq. }
  assert (forall (x : res (Recovery + outcome)) l, attempts l = [] -> match x with Ok (inl _) | Ok (inr (_, None)) => False | _ => True end ->
    iterates r x (Resumed request (Ok settlement) :: l)) as Hstop by (intros; by eapply attempted_last).
  eapply (Traces_on_result _ _ _ _ (fun x l => attempts l = [] /\ match x with Ok tt => l = [Stored settlement (Ok tt)] | _ => True end)).
  - eapply (Traces_bind _ _ _ (fun _ l => l = [])).
    + by apply Traces_lift.
    + by intros e l ->.
    + by intros why l ->.
    + intros [] l ->. intros w. eexists. split; [apply (rl_store _ _ logs)|]. cbn. split; [done|]. by destruct (RecordStageSettlement _ _ w).1 as [[]| |].
  - intros [] l [_ ->]. destruct (decide _) as [Ho|Ho].
    + eapply Traces_on_result; [apply reselect_quiet| | |intros ? ? [-> _]; by apply Hstop].
      * intros selected l [-> Hroute]. apply Traces_mret. by apply Hgo.
      * intros e l [-> _]. eapply Traces_on_result; [by eapply Traces_still, (rl_sleep _ _ logs)| | |].
        -- intros ? l ->. apply Traces_mret. by apply Hgo.
        -- intros e' l ->. apply Traces_mret. by apply Hstop.
        -- intros why l ->. by apply Hstop.
    + apply Traces_mret. by apply Hgo.
  - intros e l [Hl _]. eapply Traces_weaken; [apply (blocked_to _ _ _ (fun x => match x with inr (_, Some _) => True | _ => False end)); done|].
    intros x l' [-> Hx]. rewrite app_nil_r. apply Hstop; [done|]. by destruct x as [[r'|[result [e'|]]]|e'|why].
  - intros why l [Hl _]. by apply Hstop.
Qed.

Lemma buy_traces r transactions : 1 ∉ rc_settled r -> Traces (recover_buy error_text config plan r transactions) (iterates r).
Proof using logs.
  intros Hnew. unfold recover_buy. destruct (decide _); [apply stays_iterates, blocked_stays|].
  destruct (ds_Buy _) as [driver|] eqn:Hd; cbn [mbind option_bind]; [|apply stays_iterates, blocked_stays].
  destruct (RecoverParallelBuy driver) as [recover|] eqn:Hr; [|apply stays_iterates, blocked_stays].
  eapply (Traces_on_result _ _ _ _ (fun x l => l = [Rebought x])).
  - intros w. eexists. split; [by eapply (rl_buy _ _ logs)|done].
  - intros settlement l ->. assert (attempt (Rebought (Ok settlement)) = Some (1, Ok settlement)) as He by done.
    eapply (Traces_on_result _ _ _ _ (fun x l => l = [Stored settlement x])).
    + intros w. eexists. split; [apply (rl_store _ _ logs)|done].
    + intros [] l ->. eapply (Traces_bind _ _ _ (fun x l => x = settle_buy plan r settlement /\ l = [])); [by apply Traces_lift|..].
      * intros e l [_ ->]. by eapply attempted_last.
      * intros why l [_ ->]. by eapply attempted_last.
      * intros r' l [Hset ->]. apply Traces_mret. unfold settle_buy in Hset. destruct (p_Stages plan !! 1%nat) as [sell|] eqn:Hsell; [|done].
        cbv zeta in Hset. injection Hset as ->. cbn [app]. eapply attempted_stored; [exact He|done|done| |].
        -- intros k. cbn [rc_settled]. assert (adjacent [Rebought (Ok settlement); Stored settlement (Ok tt)] (Rebought (Ok settlement)) (Stored settlement (Ok tt))) as Ha
             by (by exists [], []). split.
           ++ destruct (decide _) as [Hch|Hch]; rewrite ?elem_of_union, ?elem_of_singleton; [intros [[Hk|Hk]|[->|Hk]]|intros [->|Hk]]; try (by left); right;
                [..|by eapply settles_purchase|by eapply settles_purchase]; eapply settles_bridges; eauto.
           ++ intros [Hk|Hk]; [destruct (decide _); set_solver|].
              destruct Hk as [request' s' H|s' H|s' sell' k H Hsell' Hch Hk]; apply adjacent_pair in H as [H1 H2]; [done|destruct (decide _); set_solver|].
              injection H1 as ->. rewrite Hsell in Hsell'. injection Hsell' as <-. rewrite decide_True by done. set_solver.
        -- cbn [rc_settled]. destruct (decide _); set_solver.
    + intros e l ->. apply Traces_mret. by eapply attempted_last.
    + intros why l ->. by eapply attempted_last.
  - intros e l ->. eapply Traces_weaken; [apply (Quiet_bind log _ _ (fun _ => True) (stays r))|].
    + apply Quiet_still, now_still.
    + intros at_ _. eapply Quiet_bind; [apply Quiet_still, Still_ignore, attempt_still|]. intros _ _. eapply Quiet_bind; [apply Quiet_still, tell_still|].
      intros _ _. apply sleep_quiet; [by apply Quiet_mret|by eexists].
    + intros x l [-> Hx]. eapply attempted_in_vain; [done|done|done|]. by destruct x as [[r'|[result [e'|]]]|e'|why]; [..|destruct Hx| |].
  - intros why l ->. by eapply attempted_last.
Qed.

Lemma abort_traces r : Traces (abort_recovery error_text config r) (iterates r).
Proof using logs.
  unfold abort_recovery. eapply (Traces_on_result _ _ _ _ (fun x l => exists cause, l = [Closed SequentialAborted (Some cause) x])).
  - intros w. eexists. split; [apply (rl_close _ _ logs)|by eexists].
  - intros [] l [cause ->]. apply Traces_mret. split; [constructor|]. split; [by intros ? ? ? [= <-]|]. split; [done|]. by exists cause.
  - intros e l [cause ->]. apply Traces_mret. by apply nothing_attempted.
  - intros why l [cause ->]. by apply nothing_attempted.
Qed.

Lemma recover_traces r stage request transactions : Ordinal stage ∉ rc_settled r -> sr_Stage request = stage ->
  Traces (recover_stage error_text config plan r stage request transactions) (iterates r).
Proof using logs.
  intros Hnew Hreq. unfold recover_stage. destruct (Driver _ _) as [driver|e|why] eqn:Hd; cbn; [|by apply Traces_lift, nothing_attempted; [|cbn; lia|]..].
  destruct (RecoverStage driver) as [recover|] eqn:Hr; [|by apply Traces_lift, nothing_attempted; [|cbn; lia|]].
  assert (forall out, attempt (Resumed request out) = Some (Ordinal stage, out)) as He by (intros; cbn; by rewrite Hreq).
  eapply (Traces_on_result _ _ _ _ (fun x l => l = [Resumed request x])).
  - intros w. eexists. split; [by eapply (rl_recover _ _ logs)|done].
  - intros settlement l ->. by apply settled_traces.
  - intros e l ->. eapply Traces_weaken; [apply failed_quiet|]. intros x l [-> Hx]. eapply attempted_in_vain; [apply He|done|done|].
    by destruct x as [[r'|[result [e'|]]]|e'|why]; [..|destruct Hx| |].
  - intros why l ->. by eapply attempted_last; [apply He|..].
Qed.

Lemma resume_stage_traces r stage : Ordinal stage ∉ rc_settled r -> Traces (resume_stage error_text config plan r stage) (iterates r).
Proof using logs.
  intros Hnew. unfold resume_stage. destruct (decide _); [apply stays_iterates, refresh_quiet|].
  eapply (Traces_on_result _ _ _ _ (fun _ l => l = [])); [by apply Traces_lift|..].
  - intros input l ->. cbn [app]. set (r' := rc_with r _). unfold and_then.
    eapply Traces_bind; [apply wait_quiet|by intros e l [-> _]; apply nothing_attempted; [|cbn; lia|]|by intros why l [-> _]; apply nothing_attempted; [|cbn; lia|]|].
    intros [u|[result e]] l [-> Hx]; cbn [app].
    + eapply Traces_weaken; [|intros x l; by apply (iterates_ext r r')]. destruct (decide _) as [[Ho _]|]; [apply buy_traces; cbn; by rewrite <- Ho|].
      destruct (decide _); [apply abort_traces|]. by apply recover_traces.
    + apply Traces_mret. destruct Hx as [e' ->]. by apply nothing_attempted; [|cbn; lia|].
  - intros e l ->. apply stays_iterates, blocked_stays.
  - intros why l ->. by apply nothing_attempted; [|cbn; lia|].
Qed.

(** *** The loop *)

(** What a number of iterations does. *)
Definition recovers (r : Recovery) (x : res (Recovery + outcome)) (l : list recovery_event) : Prop :=
  (forall pre e post o out, l = pre ++ e :: post -> attempt e = Some (o, out) ->
     o ∉ rc_settled r /\ ~ settles plan pre o /\ forall s, (o, Ok s) ∉ attempts pre) /\
  match x with
  | Ok (inr (result, None)) =>
      (sq_TerminalState result = SequentialAborted /\ exists cause, last l = Some (Closed SequentialAborted (Some cause) (Ok tt))) \/
      (last l = Some (Closed SequentialCompleted None (Ok tt)) /\
       exists stages, route stages /\ Forall (fun stage => Ordinal stage ∈ rc_settled r \/ settles plan l (Ordinal stage)) stages)
  | _ => True
  end.

(** An attempt of an iteration comes first. *)
Lemma iterates_first r x l pre e post o out : iterates r x l -> l = pre ++ e :: post -> attempt e = Some (o, out) -> pre = [] /\ o ∉ rc_settled r.
Proof using Type.
  intros (Htail & Hhead & _) -> He. destruct pre as [|a pre]; [split; [done|by eapply Hhead]|].
  cbn in Htail. rewrite Forall_forall in Htail. rewrite (Htail e) in He; [done|]. apply elem_of_app. right. by left.
Qed.

Lemma attempts_head l o s : Forall (fun e => attempt e = None) (tail l) -> (o, Ok s) ∈ attempts l -> exists e, head l = Some e /\ attempt e = Some (o, Ok s).
Proof using Type.
  clear. destruct l as [|e l]; [by intros _ ?%elem_of_nil|]. cbn [tail head]. intros Hall Hin. exists e. split; [done|].
  unfold attempts in Hin. apply list_elem_of_omap in Hin as (e' & Hin & He). apply elem_of_cons in Hin as [->|Hin]; [done|].
  rewrite Forall_forall in Hall. by rewrite (Hall e' Hin) in He.
Qed.

Lemma recovers_app r r' x l k : iterates r (Ok (inl r')) l -> recovers r' x k -> recovers r x (l ++ k).
Proof using Type.
  intros Hit [Honce Hend]. pose proof Hit as (Htail & _ & _ & Hclosed & Hset & Hin). split.
  - intros pre e post o out Hl He. apply app_eq_inv in Hl as [(m & -> & Hk)|(m & -> & Hk)].
    + destruct m as [|e' m]; cbn in Hk.
      * destruct (Honce [] e post o out (eq_sym Hk) He) as (Ho & _ & _). rewrite app_nil_r in Hit, Htail, Hset, Hin. rewrite Hset in Ho.
        split; [tauto|]. split; [tauto|]. intros s (a & Ha1 & Ha2)%attempts_head; [|done]. apply Ho, Hset. by eapply Hin.
      * injection Hk as <- _. destruct (iterates_first _ _ _ pre e m o out Hit eq_refl He) as [-> Ho].
        split; [done|]. split; [by apply settles_short; cbn; lia|]. intros s ?%elem_of_nil. done.
    + destruct (Honce m e post o out Hk He) as (Ho & Hpre & Hatt). rewrite Hset in Ho. split; [tauto|]. split.
      * intros [?|?]%settles_app; [tauto|done|done].
      * intros s. unfold attempts. rewrite omap_app. intros [Hl|Hm]%elem_of_app; [|by apply (Hatt s)].
        apply (attempts_head l) in Hl as (a & Ha1 & Ha2); [|done]. apply Ho, Hset. by eapply Hin.
  - destruct x as [[r''|[result [e|]]]|e|why]; try done. destruct Hend as [[Hst [cause Hlast]]|(Hlast & stages & Hroute & Hall)].
    + left. split; [done|]. exists cause. rewrite last_app, Hlast. done.
    + right. split; [rewrite last_app, Hlast; done|]. exists stages. split; [done|]. eapply Forall_impl; [exact Hall|].
      intros stage [Ho|Ho]; [apply Hset in Ho as [Ho|Ho]; [by left|right; by apply settles_app_l]|right; by apply settles_app_r].
Qed.

Lemma recovers_last r (x : res (Recovery + outcome)) l : iterates r x l -> match x with Ok (inl _) => False | _ => True end -> recovers r x l.
Proof using Type.
  intros Hit Hno. split.
  - intros pre e post o out Hl He. destruct (iterates_first _ _ _ _ _ _ _ _ Hit Hl He) as [-> Ho].
    split; [done|]. split; [by apply settles_short; cbn; lia|]. by intros s ?%elem_of_nil.
  - destruct Hit as (_ & _ & Hx). destruct x as [[r''|[result [e|]]]|e|why]; try done. left. destruct Hx as [Hst [cause ->]]. split; [done|]. by exists cause.
Qed.

(** A log without attempts. *)
Lemma recovers_quiet r (x : res (Recovery + outcome)) l : attempts l = [] -> match x with Ok (inr (_, None)) => False | _ => True end -> recovers r x l.
Proof using Type.
  intros Hl Hx. split; [|by destruct x as [[|[? []]]| |]]. intros pre e post o out -> He. unfold attempts in Hl. rewrite omap_app in Hl.
  apply app_eq_nil in Hl as [_ Hl]. cbn in Hl. by rewrite He in Hl.
Qed.

Lemma unsettled_stage stages settled stage : nextUnsettledRecoveryStage stages settled = Some stage -> Ordinal stage ∉ settled.
Proof.
  clear. unfold nextUnsettledRecoveryStage. intros H. apply head_Some_elem_of in H. by apply list_elem_of_filter in H as [H _].
Qed.
Lemma all_settled_stages stages settled : nextUnsettledRecoveryStage stages settled = None -> Forall (fun stage => Ordinal stage ∈ settled) stages.
Proof.
  clear. unfold nextUnsettledRecoveryStage. intros H. apply head_None in H. apply Forall_forall. intros stage Hin. apply dec_stable. intros Hno.
  assert (stage ∈ filter (fun stage => Ordinal stage ∉ settled) stages) as Hf by by apply list_elem_of_filter. rewrite H in Hf. by apply elem_of_nil in Hf.
Qed.

Lemma finish_traces r : route (rc_stages r) -> nextUnsettledRecoveryStage (rc_stages r) (rc_settled r) = None ->
  Traces (finish_recovery config plan r) (fun x l => recovers r (x ≫= fun o => Ok (inr o)) l).
Proof using logs.
  intros Hroute Hnext%all_settled_stages. unfold finish_recovery.
  pose proof (recovers_quiet r) as Hno.
  eapply (Traces_on_result _ _ _ _ (fun _ l => l = [])); [by apply Traces_lift|..].
  - intros result l ->. cbn [app].
    eapply (Traces_on_result _ _ _ _ (fun _ l => l = [])).
    + apply Traces_still. unfold record_result. destruct (RecordSequentialResult _) as [record|] eqn:Hr; [by apply (rl_result _ _ logs)|apply Still_mret].
    + intros [] l ->. cbn [app]. eapply (Traces_on_result _ _ _ _ (fun x l => l = [Closed SequentialCompleted None x])).
      * intros w. eexists. split; [apply (rl_close _ _ logs)|done].
      * intros [] l ->. apply Traces_mret. split; [by apply (recovers_quiet r (Ok (inr (result, Some (Errorf "")))))|].
        right. split; [done|]. exists (rc_stages r). split; [done|]. eapply Forall_impl; [exact Hnext|]. by left.
      * intros e l ->. apply Traces_mret. by apply Hno.
      * intros why l ->. by apply Hno.
    + intros e l ->. apply Traces_mret. by apply Hno.
    + intros why l ->. by apply Hno.
  - intros e l ->. cbn [app]. eapply Traces_bind; [apply Traces_still, block_still|..].
    + intros ? l ->. by apply Hno.
    + intros ? l ->. by apply Hno.
    + intros [] l ->. apply Traces_mret. by apply Hno.
  - intros why l ->. by apply Hno.
Qed.

Lemma resume_steps_traces fuel : forall r, route (rc_stages r) -> Traces (resume_steps error_text config plan fuel r) (recovers r).
Proof using logs.
  induction fuel as [|fuel IH]; intros r Hroute; cbn [resume_steps]; [by apply Traces_mret, recovers_quiet|].
  destruct (nextUnsettledRecoveryStage _ _) as [stage|] eqn:Hnext.
  - eapply Traces_bind; [by eapply resume_stage_traces, unsettled_stage|intros; by apply recovers_last|intros; by apply recovers_last|].
    intros [r'|o] l Hit.
    + eapply Traces_weaken; [apply IH|]. { by apply Hit. } intros x k Hx. by eapply recovers_app.
    + apply Traces_mret. rewrite app_nil_r. by apply recovers_last.
  - eapply Traces_bind; [by apply finish_traces|done|done|]. intros o l Ho. apply Traces_mret. by rewrite app_nil_r.
Qed.

Lemma recovery_stages_route decision stages : recoveryStages plan decision = Ok stages -> route stages.
Proof.
  clear. unfold recoveryStages, route. destruct decision as [decision|]; [|intros [= <-]; by left].
  destruct (decide _); [destruct (p_Stages plan) as [|first rest]; [done|]; intros [= <-]; right; left; by exists first|].
  destruct (decide _); [|intros [= <-]; by left]. intros (ret & Hret & [= <-])%bind_Ok. right. right. by exists ret.
Qed.

Lemma start_quiet snapshot : Quiet (start_recovery config plan snapshot) (fun x => match x with
  | inl r => rc_settled r = restored_settled plan snapshot /\ route (rc_stages r) | inr (_, e) => is_Some e end).
Proof using logs.
  unfold start_recovery. eapply (Quiet_on_result _ _ _ _ route).
  - apply Quiet_lift. by apply recovery_stages_route.
  - intros stages Hroute.
    assert (rc_settled (drop_stale_exit plan snapshot stages) = restored_settled plan snapshot /\ route (rc_stages (drop_stale_exit plan snapshot stages))) as Hr.
    { unfold drop_stale_exit. destruct (parallelEconomicLegsSettled _ _); (split; [done|]); [by left|done]. }
    destruct (shouldSelectInitialPrefundedExit _ _ _); [|by apply Quiet_mret].
    eapply Quiet_on_result; [apply prefunded_quiet|..]; [intros selected Hsel; apply Quiet_mret; split; [apply Hr|done]|].
    intros e. eapply Quiet_weaken; [apply (blocked_to _ _ _ (fun x : Recovery + outcome => match x with inr (_, e) => is_Some e | _ => False end)); by eexists|].
    by intros [r|[result e']].
  - intros e. eapply Quiet_weaken; [apply (blocked_to _ _ _ (fun x : Recovery + outcome => match x with inr (_, e) => is_Some e | _ => False end)); by eexists|].
    by intros [r|[result e']].
Qed.
End safety.

(** C7. However long the recovery of a snapshot runs, it never attempts a stage that has
    settled, be it by a recovery or, for the purchase of a dual inventory operation, by
    buying again: neither one the snapshot counts as settled, nor one it has attempted
    with success itself, nor a bridge that a purchase on the chain of the sale made
    needless.  If it returns without an error it aborted an operation, as its last call,
    or it completed one, as its last call, and then every stage of a route of the plan
    had settled: in the snapshot, or by an attempt that succeeded and was stored. *)
Theorem resume_never_repeats {W} {typed : TypedErrors} (error_text : error -> string) (config : SequentialRecoveryConfig)
    (log : W -> list recovery_event) (logs : RecoveryLogs config log) (fuel : nat) (snapshot : SequentialRecoverySnapshot) (w : W) :
  exists l, log (resume error_text config fuel snapshot w).2 = log w ++ l /\
  (forall before e after o outcome, l = before ++ e :: after -> attempt e = Some (o, outcome) ->
     o ∉ restored_settled (rs_Plan snapshot) snapshot /\ ~ settles (rs_Plan snapshot) before o /\
     forall s, (o, Ok s) ∉ attempts before) /\
  (forall result, (resume error_text config fuel snapshot w).1 = Ok (inr (result, None)) ->
    (sq_TerminalState result = SequentialAborted /\ exists cause, last l = Some (Closed SequentialAborted (Some cause) (Ok tt))) \/
    (last l = Some (Closed SequentialCompleted None (Ok tt)) /\
     exists stages, route (rs_Plan snapshot) stages /\
       Forall (fun stage => Ordinal stage ∈ restored_settled (rs_Plan snapshot) snapshot \/ settles (rs_Plan snapshot) l (Ordinal stage)) stages)).
Proof.
  assert (Traces log (resume error_text config fuel snapshot) (fun x l => exists r, rc_settled r = restored_settled (rs_Plan snapshot) snapshot /\
    recovers (rs_Plan snapshot) r x l)) as H.
  { set (r0 := initial_recovery (rs_Plan snapshot) snapshot [] (snapshot_result snapshot)).
    eapply Traces_bind; [by apply start_quiet|intros ? ? [-> _]; exists r0; split; [done|by apply recovers_quiet]..|].
    intros [r|[result e]] l [-> Hr]; cbn [app].
    - destruct Hr as [Hset Hroute]. eapply Traces_weaken; [by apply resume_steps_traces|]. intros x l Hx. by exists r.
    - apply Traces_mret. destruct Hr as [e' ->]. exists r0. split; [done|]. by apply recovers_quiet. }
  destruct (H w) as (l & Hl & r & Hset & Honce & Hend). exists l. rewrite Hset in *. split; [done|]. split; [done|]. intros result Hres.
  by rewrite Hres in Hend.
Qed.

(** ** Delays *)

(** The delay before an attempt grows with its number, from a quarter of a second to
    half a minute. *)
Theorem recoveryBackoff_bounds (m n : Z) :
  250 * millisecond <= recoveryBackoff m <= 30000 * millisecond /\ (m <= n -> recoveryBackoff m <= recoveryBackoff n).
Proof.
  assert (forall k, recoveryBackoff k = match Z.to_nat k with 0%nat | 1%nat => 250 | 2%nat => 500 | 3%nat => 1000 | 4%nat => 2000 | 5%nat => 4000 | 6%nat => 8000
    | 7%nat => 15000 | _ => 30000 end * millisecond) as Hb.
  { intros k. unfold recoveryBackoff. destruct (decide _) as [|Hpos]; [by replace (Z.to_nat k) with 0%nat by lia|].
    destruct (decide _) as [Hbig|Hsmall].
    - change (Z.of_nat (length schedule)) with 8 in Hbig. destruct (Z.to_nat k) as [|[|[|[|[|[|[|[|n']]]]]]]] eqn:Hk; try lia. done.
    - change (Z.of_nat (length schedule)) with 8 in Hsmall. rewrite Z2Nat.inj_sub by lia.
      destruct (Z.to_nat k) as [|[|[|[|[|[|[|[|[|n']]]]]]]]] eqn:Hk; try lia; done. }
  rewrite !Hb. unfold millisecond. split; [destruct (Z.to_nat m) as [|[|[|[|[|[|[|[|]]]]]]]]; lia|]. intros Hle.
  assert (Z.to_nat m <= Z.to_nat n)%nat as Hn by lia. revert Hn. generalize (Z.to_nat m), (Z.to_nat n). clear. intros a b Hn.
  destruct a as [|[|[|[|[|[|[|[|a]]]]]]]]; destruct b as [|[|[|[|[|[|[|[|b]]]]]]]]; lia.
Qed.

(** ** A recovery *)

Module SequentialRecoveryWitness.
Import SequentialWitness.

Fixpoint as_stage (e : error) : option StageError :=
  match e with
  | Wrapf _ e => as_stage e
  | Joined [Sentinel disposition; _] => Some (mkStageError disposition [])
  | _ => None
  end.
#[export] Instance typed : TypedErrors :=
  {| NewStageError disposition e := Joined [Sentinel disposition; e]; As_StageError := as_stage; As_RecoveryError _ := None;
     As_SimulationInvariant _ := None; As_NewStageError _ _ := eq_refl; As_Wrapf _ _ := eq_refl |}.

Definition world := list recovery_event.
Definition note {A} (event : res A -> recovery_event) (r : res A) : ST world A := fun w => (r, w ++ [event r]).

Definition identity : TransactionIdentity := mkTransactionIdentity "base" "account" "hash" None "" 0.
Definition settlement (request : SequentialStageRequest) : SequentialStageSettlement :=
  mkStageSettlement request (sr_Input request) (amount (OutputToken (sr_Stage request)) (Units (sr_Input request))) []
    identity (Some identity) None None 9 "seen".
(** The first attempt at the sale fails without effect. *)
Definition recover (request : SequentialStageRequest) (_ : list SequentialTransactionRecord) : ST world SequentialStageSettlement := fun w =>
  let failed := existsb (fun e => match e with Resumed _ (Err _) => true | _ => false end) w in
  note (Resumed request) (if decide (Stage (sr_Stage request) = StageSell /\ failed = false)
                          then Err (NewStageError DispositionRejected (Errorf "simulation failed")) else Ok (settlement request)) w.
Definition driver : SequentialStageDriver world := mkDriver (fun _ => fail "not used") (Some recover) None None None None None.
Definition decision (id : OperationID) (input : TokenAmount) : SequentialExitDecision :=
  mkExitDecision id ExitSellAtDestination input TokenAmount_zero (money 1) AssetQuantity_zero (money 0) true false 9 "quoted".
Definition selector : SequentialExitSelector world :=
  mkExitSelector (fun id _ input _ => mret (decision id input)) (Some (fun id _ input _ => mret (decision id input))) None.

(** The operation has bought, and nothing else. *)
Definition bought : SequentialStageSettlement :=
  match p_Stages transported with
  | buy :: _ => settlement (mkStageRequest "op" "p" buy initial)
  | [] => Settlement_zero
  end.
Definition snapshot : SequentialRecoverySnapshot :=
  mkRecoverySnapshot (mkSequentialOperation "op" "p" "e" "h" SequentialRunning 1 (ss_ActualOutput bought) 1 1 "") transported [] [bought] [] None.

Definition stores : SequentialJournal world :=
  mkJournal (fun _ => mret tt) (fun s => note (Stored s) (Ok tt)) (fun _ state cause => note (Closed state cause) (Ok tt)) (mret None) None None
    (Some (fun _ => mret tt)) None.
Definition ports : Ports world :=
  mkPorts stores (mkDriverSet (Some driver) (Some driver) (Some driver) (Some driver) (Some selector)) (fun w => 1 + Z.of_nat (length w)) (fun _ w => w) None.
Definition config : SequentialRecoveryConfig :=
  mkRecoveryConfig ports (mkRecoveryJournal (fun _ _ => mret tt) (fun _ => mret snapshot) (fun _ _ _ => mret tt) (fun _ => mret tt)) (fun _ w => w)
    (fun _ => mret tt) (600000 * millisecond) None None.

Lemma recovery_driver_Ok kind d : Driver (drivers ports) kind = Ok d -> d = driver.
Proof. unfold Driver. repeat (destruct (decide _); [by intros [= <-]|]). done. Qed.

Lemma config_logs : RecoveryLogs config (fun w : world => w).
Proof.
  constructor; try done.
  - intros kind d recover' ->%recovery_driver_Ok [= <-]. by intros request transactions w.
  - intros d recover' [= <-] [=].
  - intros record [= <-]. by intros decision w.
  - intros s [= <-]. split; [|done]. intros select [= <-]. by intros ????? .
Qed.

Abbreviation recovery := (resume (fun _ => "") config 10 snapshot []).

(** The sale is recovered twice, and the operation completes. *)
Example recovered_sale :
  NewSequentialRecoveryCoordinator true config = Ok config /\ (attempts recovery.2).*1 = [2; 3; 3; 4] /\
  last recovery.2 = Some (Closed SequentialCompleted None (Ok tt)).
Proof. split_and!; vm_compute; reflexivity. Qed.

Lemma repeats_witness : exists l, recovery.2 = [] ++ l /\
  (forall before e after o outcome, l = before ++ e :: after -> attempt e = Some (o, outcome) ->
     o ∉ restored_settled transported snapshot /\ ~ settles transported before o /\ forall s, (o, Ok s) ∉ attempts before).
Proof.
  destruct (resume_never_repeats (fun _ => "") config (fun w : world => w) config_logs 10 snapshot []) as (l & Hl & Hold & _).
  exists l. split; [exact Hl|exact Hold].
Defined.
End SequentialRecoveryWitness.
