(* ===== verification/Saga.v ===== *)
(** * The prefunded saga
    (src/core/saga/planner.go, gate.go, executor.go, settlement.go, recovery.go)

    Planning, execution, settlement and startup recovery of one live operation
    over the inventory, the operation gate and the durable store.

    The store, the per-account transaction managers and the confirmer are
    ports: type classes of operations whose answers are arbitrary.  A manager
    is called once per leg, in concurrent goroutines; its answers for a run are
    functions of the account and the argument, and [spawn] is the order the
    goroutines happen to run in.  Each locked section is one atomic call.
    [ExecutionTiming] only measures durations and is left out; the two clock
    readings that are compared or stored are arguments. *)
From S2P Require Import Prelude Amount Quote Registry Arbitrage Allocation Inventory Execution.
Local Open Scope Z_scope.

(** ** Ports *)

Class OperationalStore (St : Type) := {
  CommitPrepared : Operation -> Reservation -> ST St unit;
  RecordBroadcast : OperationID -> StepID -> TechnicalState -> string -> ST St unit;
  RecordSettlement : Settlement -> ST St unit;
  MarkSettled : OperationID -> ST St unit;
  MarkManualIntervention : OperationID -> string -> ST St unit;
  MarkNoExecution : OperationID -> string -> ST St unit;
  Pending : ST St (list Operation);
  Store_Reservation : OperationID -> ST St Reservation }.

Record Artifact := mkArtifact {
  art_Leg : Leg; art_ValidatedQuote : Quote; art_Allocation : option RouteAllocation; art_BuiltAt : Time }.

Record PreparedTransaction := mkPreparedTransaction {
  pt_Leg : Leg; pt_Identity : TransactionIdentity; pt_SignedPayload : string; pt_PreparedAt : Time }.

Definition BroadcastAccepted : string := "accepted".
Definition BroadcastRejected : string := "rejected".
Definition BroadcastPossible : string := "possible".

Record BroadcastResult := mkBroadcastResult {
  br_Identity : TransactionIdentity; br_Disposition : string; br_Accepted : bool;
  br_Endpoint : string; br_Attempts : Z; br_AcceptedAt : Time }.

Class TxManagers := {
  managed : AccountID -> bool;
  Prepare : AccountID -> Artifact -> res PreparedTransaction;
  Broadcast : AccountID -> PreparedTransaction -> BroadcastResult * option error;
  error_text : error -> string;
  spawn : forall A, list A -> list A;
  spawn_perm : forall A (l : list A), spawn A l ≡ₚ l }.

(** ** Gate *)

(** An [OperationGate] is the active operation, [""] when there is none. *)
Definition TryBegin (operation : OperationID) : ST OperationID bool := fun active =>
  if decide (operation = "") then (Ok false, active) else
  if decide (active <> "") then (Ok false, active) else (Ok true, operation).

Definition Gate_Restore (operation : OperationID) : ST OperationID bool := TryBegin operation.

Definition Complete (operation : OperationID) : ST OperationID bool := fun active =>
  if decide (operation = "") then (Ok false, active) else
  if decide (active <> operation) then (Ok false, active) else (Ok true, "").

Definition Active : ST OperationID (OperationID * bool) := fun active =>
  (Ok (active, bool_decide (active <> "")), active).

(** ** Planner *)

Record LegBinding := mkLegBinding { bind_Chain : ChainID; bind_Account : AccountID }.

Definition binding_incomplete (entry : MarketID * LegBinding) : Prop :=
  entry.1 = "" \/ bind_Chain entry.2 = "" \/ bind_Account entry.2 = "".
#[export] Instance binding_incomplete_dec entry : Decision (binding_incomplete entry) :=
  ltac:(unfold binding_incomplete; apply _).

(** The clock is an argument of [Plan]. *)
Definition NewPlanner (bindings : gmap MarketID LegBinding) : res (gmap MarketID LegBinding) :=
  if decide (size bindings < 2)%nat then Err (Errorf "saga planner requires market bindings and clock") else
  if decide (Exists binding_incomplete (map_to_list bindings))
  then Err (Errorf "saga planner contains an incomplete market binding") else Ok bindings.

Definition Plan (bindings : gmap MarketID LegBinding) (id : PlanID) (opportunity : LiveOpportunity) (now : Time) :
    res SagaPlan :=
  _ ← LiveOpportunity_Validate opportunity;
  match bindings !! BuyMarket (lo_Direction opportunity), bindings !! SellMarket (lo_Direction opportunity) with
  | Some buy, Some sell =>
      let legs :=
        [mkLeg "buy" LegBuy (bind_Chain buy) (bind_Account buy) (BuyMarket (lo_Direction opportunity))
           (q_AmountIn (lo_BuyQuote opportunity)) (q_AmountOut (lo_BuyQuote opportunity));
         mkLeg "sell" LegSell (bind_Chain sell) (bind_Account sell) (SellMarket (lo_Direction opportunity))
           (q_AmountIn (lo_SellQuote opportunity)) (q_AmountOut (lo_SellQuote opportunity))] in
      NewSagaPlan id opportunity legs now
  | _, _ => Err (Errorf "opportunity markets do not have execution bindings")
  end.

(** ** The running program *)

Record World (St : Type) := mkWorld {
  w_inventory : Inventory; w_gate : OperationID; w_store : St;
  w_broadcasts : list PreparedTransaction;
  w_operations : gmap OperationID Operation;
  w_observed : gmap OperationID (gmap StepID Settlement) }.
Arguments mkWorld {St}.
Arguments w_inventory {St}. Arguments w_gate {St}. Arguments w_store {St}.
Arguments w_broadcasts {St}. Arguments w_operations {St}. Arguments w_observed {St}.

Section saga.
Context {St : Type} {store : OperationalStore St} {managers : TxManagers} {order : RangeOrder Key}.
Abbreviation World := (World St).

Definition set_inventory (i : Inventory) (w : World) : World :=
  mkWorld i (w_gate w) (w_store w) (w_broadcasts w) (w_operations w) (w_observed w).
Definition set_gate (g : OperationID) (w : World) : World :=
  mkWorld (w_inventory w) g (w_store w) (w_broadcasts w) (w_operations w) (w_observed w).
Definition set_store (s : St) (w : World) : World :=
  mkWorld (w_inventory w) (w_gate w) s (w_broadcasts w) (w_operations w) (w_observed w).
Definition set_broadcasts (b : list PreparedTransaction) (w : World) : World :=
  mkWorld (w_inventory w) (w_gate w) (w_store w) b (w_operations w) (w_observed w).
Definition set_operations (o : gmap OperationID Operation) (w : World) : World :=
  mkWorld (w_inventory w) (w_gate w) (w_store w) (w_broadcasts w) o (w_observed w).
Definition set_observed (o : gmap OperationID (gmap StepID Settlement)) (w : World) : World :=
  mkWorld (w_inventory w) (w_gate w) (w_store w) (w_broadcasts w) (w_operations w) o.

Definition on_inventory {A} (m : ST Inventory A) : ST World A := zoom w_inventory set_inventory m.
Definition on_gate {A} (m : ST OperationID A) : ST World A := zoom w_gate set_gate m.
Definition on_store {A} (m : ST St A) : ST World A := zoom w_store set_store m.

Definition ErrOperationInFlight : error := Sentinel "ErrOperationInFlight".
Definition ErrArtifactTooOld : error := Sentinel "ErrArtifactTooOld".
Definition ErrNoExecution : error := Sentinel "ErrNoExecution".
Definition ErrReconciliationRequired : error := Sentinel "ErrReconciliationRequired".
Definition ErrManualInterventionRequired : error := Sentinel "ErrManualInterventionRequired".
Definition ErrRecoveryRequired : error := Sentinel "ErrRecoveryRequired".

(** ** Executor *)

Record ExecutionResult := mkExecutionResult {
  er_Operation : option Operation; er_Broadcasts : list BroadcastResult;
  er_ReconciliationRequired : bool }.
Definition no_result : ExecutionResult := mkExecutionResult None [] false.

Definition leg_key (leg : Leg) : Key := mkKey (leg_Chain leg) (leg_Account leg) (amount_token (leg_Input leg)).

Definition leg_requirement (artifacts : gmap StepID Artifact) (requirements : list Requirement) (leg : Leg) :
    res (list Requirement) :=
  match artifacts !! leg_ID leg with
  | Some artifact =>
      if decide (leg_ID (art_Leg artifact) <> leg_ID leg)
      then Err (Errorf "execution artifact for leg %q is missing")
      else Ok (requirements ++ [mkRequirement (leg_key leg) (leg_Input leg)])
  | None => Err (Errorf "execution artifact for leg %q is missing")
  end.

Definition execution_requirements (plan : SagaPlan) (artifacts : gmap StepID Artifact) : res (list Requirement) :=
  foldM (leg_requirement artifacts) [] (plan_legs plan).

Definition Leg_zero : Leg := mkLeg "" "" "" "" "" TokenAmount_zero TokenAmount_zero.
Definition Quote_zero : Quote :=
  mkQuote "" "" 0 "" (mkSourcePosition "" 0) "" "" "" "" TokenAmount_zero TokenAmount_zero 0 [].
Definition Artifact_zero : Artifact := mkArtifact Leg_zero Quote_zero None 0.

(** One goroutine: a missing manager is a nil interface. *)
Definition prepare_leg (artifacts : gmap StepID Artifact) (leg : Leg) : res PreparedTransaction :=
  if managed (leg_Account leg) then
    Prepare (leg_Account leg) (default Artifact_zero (artifacts !! leg_ID leg))
  else Panic "nil TxManager".

Definition prepared_step_of (operationID : OperationID) (artifacts : gmap StepID Artifact)
    (leg : Leg) (prepared : PreparedTransaction) : OperationStep :=
  mkOperationStep operationID leg (pt_Identity prepared)
    (RouteAllocation_Clone <$> art_Allocation (default Artifact_zero (artifacts !! leg_ID leg)))
    StatePrepared EconomicReserved.

(** Wait for every goroutine: a panic in one of them ends the program, and the
    errors are looked at in leg order afterwards. *)
Definition is_panic {A} (r : res A) : bool := match r with Panic _ => true | _ => false end.
Definition wait_all {A} (outcomes : list (res A)) : res (list A) :=
  if existsb is_panic outcomes then Panic "panic in goroutine"
  else foldM (fun values outcome => value ← outcome; Ok (values ++ [value])) [] outcomes.

Definition artifact_too_old (now maxAge : Time) (artifact : Artifact) : Prop :=
  Time_IsZero (art_BuiltAt artifact) \/ now - art_BuiltAt artifact < 0 \/ maxAge < now - art_BuiltAt artifact.
#[export] Instance artifact_too_old_dec now maxAge artifact : Decision (artifact_too_old now maxAge artifact) :=
  ltac:(unfold artifact_too_old; apply _).

Record ExecutorConfig := mkExecutorConfig { ConfigHash : string; ArtifactMaxAge : Time }.

(** From the reservation to the durable commit nothing is shared. *)
Definition prepare_operation (config : ExecutorConfig) (operationID : OperationID) (plan : SagaPlan)
    (artifacts : gmap StepID Artifact) (now committedAt : Time) : res (list PreparedTransaction * Operation) :=
  prepared ← wait_all (prepare_leg artifacts <$> plan_legs plan);
  if decide (Exists (fun entry => artifact_too_old now (ArtifactMaxAge config) entry.2) (map_to_list artifacts))
  then Err ErrArtifactTooOld else
  let operation := mkOperation operationID (plan_id plan) (lo_ID (plan_opportunity plan)) (ConfigHash config)
    (zip_with (prepared_step_of operationID artifacts) (plan_legs plan) prepared)
    (EconomicsFromOpportunity (plan_opportunity plan)) StateCommitted EconomicReserved
    (plan_createdAt plan) committedAt in
  _ ← ValidatePrepared operation;
  Ok (prepared, operation).

Definition broadcast_leg (transaction : PreparedTransaction) : res (BroadcastResult * option error) :=
  if managed (leg_Account (pt_Leg transaction))
  then Ok (Broadcast (leg_Account (pt_Leg transaction)) transaction) else Panic "nil TxManager".

(** The goroutines hand the transactions out in the order they run; the results
    are read in leg order after all have ended. *)
Definition broadcast_all (prepared : list PreparedTransaction) : ST World (list (BroadcastResult * option error)) :=
  _ ← modify (fun w => set_broadcasts (w_broadcasts w ++ spawn _ prepared) w);
  lift (wait_all (broadcast_leg <$> prepared)).

Definition disposition_of (outcome : BroadcastResult * option error) : string :=
  let '(result, broadcastErr) := outcome in
  if decide (br_Disposition result = "") then
    match broadcastErr with
    | None => if br_Accepted result then BroadcastAccepted else ""
    | Some _ => BroadcastPossible
    end
  else br_Disposition result.

Definition error_detail (broadcastErr : option error) : string :=
  match broadcastErr with None => "" | Some e => error_text e end.

Record Counts := mkCounts { accepted : nat; rejected : nat; unknown : nat }.

Definition record_broadcast (operationID : OperationID) (counts : Counts)
    (entry : Leg * (BroadcastResult * option error)) : ST World Counts :=
  let '(leg, outcome) := entry in
  let disposition := disposition_of outcome in
  let '(counts, state, detail) :=
    if decide (disposition = BroadcastAccepted) then
      (mkCounts (S (accepted counts)) (rejected counts) (unknown counts), StateBroadcastPossible,
       br_Endpoint outcome.1)
    else if decide (disposition = BroadcastRejected) then
      (mkCounts (accepted counts) (S (rejected counts)) (unknown counts), StateBroadcastRejected,
       error_detail outcome.2)
    else
      (mkCounts (accepted counts) (rejected counts) (S (unknown counts)), StateOutcomeUnknown,
       error_detail outcome.2) in
  _ ← on_store (RecordBroadcast operationID (leg_ID leg) state detail);
  mret counts.

(** After the commit: broadcast, record, and classify.  The calls that follow
    return their first error together with the result. *)
Definition conclude (operationID : OperationID) (legs : nat) (counts : Counts) (result : ExecutionResult) :
    ST World (ExecutionResult * option error) :=
  if decide (rejected counts = legs) then
    let result := mkExecutionResult (er_Operation result) (er_Broadcasts result) false in
    marked ← try (on_store (MarkNoExecution operationID "both broadcasts were conclusively rejected"));
    match marked with
    | Err e => mret (result, Some e)
    | _ =>
        released ← try (on_inventory (Release operationID));
        match released with
        | Err e => mret (result, Some e)
        | _ =>
            _ ← on_gate (Complete operationID);
            mret (result, Some (Wrapf "%w: %s" ErrNoExecution))
        end
    end
  else if decide (0 < rejected counts \/ 0 < unknown counts)%nat then
    marked ← try (on_store (MarkManualIntervention operationID
      "broadcast requires reconciliation: accepted=%d rejected=%d unknown=%d"));
    match marked with
    | Err e => mret (result, Some e)
    | _ => mret (result, Some (Wrapf "%w: %s" ErrReconciliationRequired))
    end
  else mret (result, None).

Definition after_commit (operationID : OperationID) (plan : SagaPlan) (prepared : list PreparedTransaction)
    (operation : Operation) : ST World (ExecutionResult * option error) :=
  outcomes ← broadcast_all prepared;
  let result := mkExecutionResult (Some operation) (fst <$> outcomes) true in
  counted ← try (foldST (record_broadcast operationID) (mkCounts 0 0 0) (zip (plan_legs plan) outcomes));
  match counted with
  | Ok counts => conclude operationID (length (plan_legs plan)) counts result
  | Err e => mret (result, Some e)
  | Panic why => lift (Panic why)
  end.

(** The body under the two [defer]s: its result, whether the commit happened. *)
Definition execute_reserved (config : ExecutorConfig) (operationID : OperationID) (plan : SagaPlan)
    (artifacts : gmap StepID Artifact) (now committedAt : Time) (reservation : Reservation) :
    ST World (ExecutionResult * option error * bool) :=
  prepared ← try (lift (prepare_operation config operationID plan artifacts now committedAt));
  match prepared with
  | Ok (prepared, operation) =>
      committed ← try (on_store (CommitPrepared operation reservation));
      match committed with
      | Err e => mret (no_result, Some e, false)
      | _ =>
          outcome ← after_commit operationID plan prepared operation;
          mret (outcome, true)
      end
  | Err e => mret (no_result, Some e, false)
  | Panic why => lift (Panic why)
  end.

Definition execute_begun (config : ExecutorConfig) (operationID : OperationID) (plan : SagaPlan)
    (artifacts : gmap StepID Artifact) (now committedAt : Time) :
    ST World (ExecutionResult * option error * bool) :=
  if decide (operationID = "" \/ size artifacts <> 2%nat)
  then mret (no_result, Some (Errorf "execution requires operation identity and two artifacts"), false) else
  match execution_requirements plan artifacts with
  | Ok requirements =>
      reserved ← try (on_inventory (Reserve operationID operationID requirements));
      match reserved with
      | Ok reservation =>
          outcome ← execute_reserved config operationID plan artifacts now committedAt reservation;
          _ ← (if outcome.2 : bool then mret tt else ignore (on_inventory (Release operationID)));
          mret outcome
      | Err e => mret (no_result, Some e, false)
      | Panic why => lift (Panic why)
      end
  | Err e => mret (no_result, Some e, false)
  | Panic why => lift (Panic why)
  end.

Definition Execute (config : ExecutorConfig) (operationID : OperationID) (plan : SagaPlan)
    (artifacts : gmap StepID Artifact) (now committedAt : Time) : ST World (ExecutionResult * option error) :=
  begun ← on_gate (TryBegin operationID);
  if begun : bool then
    outcome ← execute_begun config operationID plan artifacts now committedAt;
    _ ← (if outcome.2 : bool then mret tt else _ ← on_gate (Complete operationID); mret tt);
    mret outcome.1
  else mret (no_result, Some ErrOperationInFlight).

(** ** Settlement coordinator *)

Definition Register (operation : Operation) : ST World unit :=
  _ ← lift (ValidatePrepared operation);
  modify (fun w => set_operations (<[o_ID operation := operation]> (w_operations w)) w).

(** A leg whose settlement cannot be applied. *)
Definition settlement_unusable (step : OperationStep) (observed : option Settlement) : Prop :=
  match observed with
  | None => True
  | Some s =>
      se_Technical s <> StateConfirmedSuccess \/ se_Economic s <> EconomicEffectVerified \/
      amount_token (se_ActualIn s) <> amount_token (leg_Input (step_Leg step)) \/
      amount_token (se_ActualOut s) <> amount_token (leg_ExpectedOutput (step_Leg step))
  end.
#[export] Instance settlement_unusable_dec step observed : Decision (settlement_unusable step observed).
Proof. destruct observed; cbn; apply _. Defined.

Definition settlement_effects (step : OperationStep) (s : Settlement) : list Effect :=
  let leg := step_Leg step in
  [mkEffect (mkKey (leg_Chain leg) (leg_Account leg) (amount_token (se_ActualIn s))) (Some (- Units (se_ActualIn s)));
   mkEffect (mkKey (leg_Chain leg) (leg_Account leg) (amount_token (se_ActualOut s))) (Some (Units (se_ActualOut s)))].

(** The loop over the steps: [None] when it meets an unusable leg. *)
Fixpoint collect_effects (observed : gmap StepID Settlement) (steps : list OperationStep) : option (list Effect) :=
  match steps with
  | [] => Some []
  | step :: steps =>
      if decide (settlement_unusable step (observed !! leg_ID (step_Leg step))) then None else
      s ← observed !! leg_ID (step_Leg step);
      rest ← collect_effects observed steps;
      Some (settlement_effects step s ++ rest)
  end.

Definition settle_operation (operation : Operation) (effects : list Effect) : ST World unit :=
  let id := o_ID operation in
  settled ← try (on_inventory (Settle id effects));
  match settled with
  | Err e =>
      _ ← ignore (on_store (MarkManualIntervention id "inventory settlement failed"));
      lift (Err (Joined [ErrManualInterventionRequired; e]))
  | _ =>
      marked ← try (on_store (MarkSettled id));
      match marked with
      | Err e =>
          _ ← ignore (on_store (MarkManualIntervention id "durable inventory settlement failed"));
          lift (Err (Joined [ErrManualInterventionRequired; e]))
      | _ =>
          _ ← modify (fun w => set_operations (delete id (w_operations w)) w);
          _ ← modify (fun w => set_observed (delete id (w_observed w)) w);
          ignore (on_gate (Complete id))
      end
  end.

(** What [Observe] does under its lock. *)
Definition observe_locked (settlement : Settlement) : ST World unit :=
  w ← get;
  match w_operations w !! se_Operation settlement with
  | None => fail "settlement operation %q is not registered"
  | Some operation =>
      let observed := <[se_Step settlement := settlement]> (default ∅ (w_observed w !! se_Operation settlement)) in
      _ ← modify (fun w => set_observed (<[se_Operation settlement := observed]> (w_observed w)) w);
      if decide (size observed < length (o_Steps operation))%nat then mret tt else
      match collect_effects observed (o_Steps operation) with
      | None =>
          _ ← on_store (MarkManualIntervention (o_ID operation) "settlement mismatch or failed leg");
          lift (Err (Wrapf "%w: %s" ErrManualInterventionRequired))
      | Some effects => settle_operation operation effects
      end
  end.

Definition Observe (settlement : Settlement) : ST World unit :=
  if decide (se_Operation settlement = "" \/ se_Step settlement = "" \/ Time_IsZero (se_ObservedAt settlement))
  then fail "settlement observation is incomplete" else
  _ ← on_store (RecordSettlement settlement);
  observe_locked settlement.

(** ** Recovery *)

Definition restore_gate (operation : OperationID) : ST World unit :=
  active ← on_gate Active;
  let '(active, exists_) := active in
  if exists_ : bool then
    if decide (active <> operation)
    then lift (Err (Wrapf "%w: operation gate belongs to %q" ErrRecoveryRequired)) else mret tt
  else
    restored ← on_gate (Gate_Restore operation);
    if restored : bool then mret tt else lift (Err ErrRecoveryRequired).

Definition ReconcilePending (Confirm : Operation -> ST World unit) : ST World unit :=
  pending ← on_store Pending;
  match pending with
  | [] => mret tt
  | [operation] =>
      reservation ← on_store (Store_Reservation (o_ID operation));
      _ ← on_inventory (Reserve (res_ID reservation) (o_ID operation) (res_requirements reservation));
      _ ← restore_gate (o_ID operation);
      _ ← Confirm operation;
      remaining ← on_store Pending;
      if decide (remaining <> []) then lift (Err ErrRecoveryRequired) else mret tt
  | _ => lift (Err (Wrapf "%w: found %d operations under one-active-operation policy" ErrRecoveryRequired))
  end.

(** ** Calls on a part of the world *)

Definition total {S A} (m : ST S A) : Prop := forall s why s', m s <> (Panic why, s').

Lemma Post_total {S A} (m : ST S A) s (Q : res A -> S -> Prop) :
  total m -> (forall r s', no_panic r -> m s = (r, s') -> Q r s') -> Post m s Q.
Proof.
  intros Ht HQ. unfold Post. destruct (m s) as [r s'] eqn:Hm. apply HQ; [|done].
  intros why ->. by apply (Ht s why s').
Qed.

Lemma Post_on_store {A} (m : ST St A) w Q :
  total m -> (forall r st, no_panic r -> m (w_store w) = (r, st) -> Q r (set_store st w)) -> Post (on_store m) w Q.
Proof.
  intros Ht HQ. unfold Post, on_store, zoom. destruct (m (w_store w)) as [r st] eqn:Hm.
  apply HQ; [|done]. intros why ->. by apply (Ht _ _ _ Hm).
Qed.

Lemma Post_try_store {A} (m : ST St A) w Q :
  total m -> (forall r st, no_panic r -> m (w_store w) = (r, st) -> Q (Ok r) (set_store st w)) ->
  Post (try (on_store m)) w Q.
Proof.
  intros Ht HQ. apply Post_try, Post_on_store; [done|]. intros r st Hr Hm. specialize (HQ r st Hr Hm).
  destruct r as [a|e|why]; [done..|]. by destruct (Hr why).
Qed.

Lemma set_store_same (w : World) : set_store (w_store w) w = w.
Proof. by destruct w. Qed.

Lemma on_inventory_run {A} (m : ST Inventory A) w r i :
  m (w_inventory w) = (r, i) -> on_inventory m w = (r, set_inventory i w).
Proof. intros Hm. unfold on_inventory, zoom. by rewrite Hm. Qed.

Lemma on_gate_run {A} (m : ST OperationID A) w r g :
  m (w_gate w) = (r, g) -> on_gate m w = (r, set_gate g w).
Proof. intros Hm. unfold on_gate, zoom. by rewrite Hm. Qed.

Lemma Complete_run id (w : World) : id <> "" -> w_gate w = id -> on_gate (Complete id) w = (Ok true, set_gate "" w).
Proof.
  intros Hid Hg. apply on_gate_run. unfold Complete. rewrite decide_False by done. by rewrite decide_False by tauto.
Qed.

(** ** The gate admits one operation *)

Inductive gate_call := GBegin (op : OperationID) | GComplete (op : OperationID).
Definition gate_run (c : gate_call) : ST OperationID bool :=
  match c with GBegin op => TryBegin op | GComplete op => Complete op end.

(** The calls with what each returned, from a gate to a gate. *)
Inductive gate_trace : OperationID -> list (gate_call * bool) -> OperationID -> Prop :=
| gate_nil g : gate_trace g [] g
| gate_cons g c b g1 l g2 :
    gate_run c g = (Ok b, g1) -> gate_trace g1 l g2 -> gate_trace g ((c, b) :: l) g2.

Lemma gate_held g l g' op :
  gate_trace g l g' -> g = op -> op <> "" -> (GComplete op, true) ∉ l -> g' = op /\ forall op', (GBegin op', true) ∉ l.
Proof.
  induction 1 as [g|g c b g1 l g2 Hrun Htr IH]; intros -> Hop Hin.
  - split; [done|]. by intros op' ?%elem_of_nil.
  - apply not_elem_of_cons in Hin as [Hc Hin]. destruct c as [o|o]; cbn in Hrun.
    + unfold TryBegin in Hrun. rewrite (decide_True (P := op <> "")) in Hrun by done.
      assert (b = false /\ g1 = op) as [-> ->] by (case_decide; by injection Hrun as <- <-).
      destruct (IH eq_refl Hop Hin) as [-> Hl]. split; [done|]. intros op'.
      by apply not_elem_of_cons.
    + unfold Complete in Hrun. assert (b = false /\ g1 = op) as [-> ->].
      { destruct (decide (o = "")); [by injection Hrun as <- <-|].
        destruct (decide (op <> o)) as [|He]; [by injection Hrun as <- <-|]. apply dec_stable in He as <-.
        injection Hrun as <- <-. done. }
      destruct (IH eq_refl Hop Hin) as [-> Hl]. split; [done|]. intros op'. by apply not_elem_of_cons.
Qed.

(** The gate is exclusive over every interleaving of its calls: once an
    operation has begun, no other begins until the same operation completes,
    and the gate names the operation all that time. *)
Theorem gate_exclusive (g g' : OperationID) (op : OperationID) (before after : list (gate_call * bool)) :
  gate_trace g (before ++ (GBegin op, true) :: after) g' -> (GComplete op, true) ∉ after ->
  g' = op /\ op <> "" /\ forall op', (GBegin op', true) ∉ after.
Proof.
  intros Htr Hin. revert g Htr. induction before as [|[c b] before IH]; intros g Htr; cbn [app] in Htr.
  - inversion Htr as [|? ? ? g1 ? ? Hrun Hrest]; subst. cbn in Hrun. unfold TryBegin in Hrun.
    do 2 (destruct (decide _) as [|?] in Hrun; [done|]). injection Hrun as <-.
    destruct (gate_held op after g' op Hrest eq_refl ltac:(done) Hin). done.
  - inversion Htr; subst. by eapply IH.
Qed.

(** ** Execution *)

(** The ports answer: the store and the managers of the legs do not panic. *)
Record ports_total (plan : SagaPlan) : Prop := {
  pt_commit : forall o r, total (CommitPrepared o r);
  pt_record : forall o s t d, total (RecordBroadcast o s t d);
  pt_none : forall o d, total (MarkNoExecution o d);
  pt_manual : forall o d, total (MarkManualIntervention o d);
  pt_managed : forall leg, leg ∈ plan_legs plan -> managed (leg_Account leg) = true;
  pt_prepare : forall leg artifact, leg ∈ plan_legs plan -> no_panic (Prepare (leg_Account leg) artifact);
  pt_sender : forall leg artifact prepared, leg ∈ plan_legs plan ->
    Prepare (leg_Account leg) artifact = Ok prepared -> managed (leg_Account (pt_Leg prepared)) = true }.

Lemma wait_all_inv {A} (l : list (res A)) :
  Forall no_panic l ->
  match wait_all l with Ok values => l = Ok <$> values | Err _ => True | Panic _ => False end.
Proof.
  intros Hl. unfold wait_all. assert (existsb is_panic l = false) as ->.
  { induction Hl as [|[a|e|why] l Hr _ IH]; [done..|by apply IH|by apply IH|by destruct (Hr why)]. }
  enough (forall values, match foldM (fun values outcome => value ← outcome; Ok (values ++ [value])) values l with
    | Ok values' => Ok <$> values' = (Ok <$> values) ++ l | Err _ => True | Panic _ => False end) as Hgen.
  { specialize (Hgen []). by destruct (foldM _ _ _). }
  induction Hl as [|r l Hr Hl IH]; intros values; cbn [foldM]; [by rewrite app_nil_r|].
  destruct r as [a|e|why]; [|done|by destruct (Hr why)]. cbn [mbind res_bind].
  specialize (IH (values ++ [a])). destruct (foldM _ _ _); [|done..].
  rewrite IH, fmap_app. cbn. by rewrite <- (assoc_L (++)).
Qed.

Lemma wait_all_Ok {A} (values : list A) : wait_all (Ok <$> values) = Ok values.
Proof.
  unfold wait_all. assert (existsb is_panic (Ok <$> values) = false) as -> by (by induction values).
  enough (forall acc, foldM (fun values outcome => value ← outcome; Ok (values ++ [value])) acc (Ok <$> values) =
    Ok (acc ++ values)) as Hgen by apply Hgen.
  induction values as [|v l IH]; intros acc; cbn; [by rewrite app_nil_r|].
  by rewrite IH, <- (assoc_L (++)).
Qed.

Lemma leg_requirements_Ok artifacts legs acc rs :
  foldM (leg_requirement artifacts) acc legs = Ok rs ->
  rs = acc ++ ((fun leg => mkRequirement (leg_key leg) (leg_Input leg)) <$> legs).
Proof.
  revert acc. induction legs as [|leg legs IH]; intros acc; cbn [foldM]; [intros [= ->]; by rewrite app_nil_r|].
  rewrite bind_Ok. unfold leg_requirement at 1. intros (acc1 & H1 & H2). res_inv. subst acc1.
  rewrite (IH _ H2). by rewrite <- (assoc_L (++)).
Qed.

Lemma leg_requirements_no_panic artifacts legs acc : no_panic (foldM (leg_requirement artifacts) acc legs).
Proof. apply no_panic_foldM. intros. unfold leg_requirement. no_panic_auto. Qed.

Definition plan_requirements (plan : SagaPlan) : list Requirement :=
  (fun leg => mkRequirement (leg_key leg) (leg_Input leg)) <$> plan_legs plan.

(** What each leg's manager answered to the transaction it prepared. *)
Definition answers (prepared : list PreparedTransaction) : list (BroadcastResult * option error) :=
  (fun t => Broadcast (leg_Account (pt_Leg t)) t) <$> prepared.

Definition tally (outcomes : list (BroadcastResult * option error)) (d : string) : nat :=
  length (filter (fun o => disposition_of o = d) outcomes).

(** The errors an execution can end in once its operation is committed. *)
Inductive after_commit_error : error -> Prop :=
| error_reconcile : after_commit_error (Wrapf "%w: %s" ErrReconciliationRequired)
| error_record o s t d st e st' : RecordBroadcast o s t d st = (Err e, st') -> after_commit_error e
| error_none o d st e st' : MarkNoExecution o d st = (Err e, st') -> after_commit_error e
| error_manual o d st e st' : MarkManualIntervention o d st = (Err e, st') -> after_commit_error e.

(** What the answer to a leg's broadcast is recorded as. *)
Definition recorded_state (outcome : BroadcastResult * option error) : TechnicalState :=
  if decide (disposition_of outcome = BroadcastAccepted) then StateBroadcastPossible
  else if decide (disposition_of outcome = BroadcastRejected) then StateBroadcastRejected else StateOutcomeUnknown.
Definition recorded_detail (outcome : BroadcastResult * option error) : string :=
  if decide (disposition_of outcome = BroadcastAccepted) then br_Endpoint outcome.1 else error_detail outcome.2.

(** The answers are written to the store one after the other, up to the first that
    cannot be written. *)
Inductive recorded (id : OperationID) : list (Leg * (BroadcastResult * option error)) -> St -> option error -> St -> Prop :=
| recorded_nil st : recorded id [] st None st
| recorded_cons leg outcome rest st st1 err st2 :
    RecordBroadcast id (leg_ID leg) (recorded_state outcome) (recorded_detail outcome) st = (Ok tt, st1) ->
    recorded id rest st1 err st2 -> recorded id ((leg, outcome) :: rest) st err st2
| recorded_stop leg outcome rest st e st1 :
    RecordBroadcast id (leg_ID leg) (recorded_state outcome) (recorded_detail outcome) st = (Err e, st1) ->
    recorded id ((leg, outcome) :: rest) st (Some e) st1.

(** The transactions are what the managers of the legs prepared for their artifacts,
    and the operation is theirs, valid, and reserves the inputs of the legs. *)
Record assembled (id : OperationID) (plan : SagaPlan) (artifacts : gmap StepID Artifact) (operation : Operation)
    (prepared : list PreparedTransaction) : Prop := {
  as_id : o_ID operation = id;
  as_plan : o_Plan operation = plan_id plan;
  as_valid : ValidatePrepared operation = Ok tt;
  as_prepared : Forall2 (fun leg t => Prepare (leg_Account leg) (default Artifact_zero (artifacts !! leg_ID leg)) = Ok t) (plan_legs plan) prepared;
  as_legs : step_Leg <$> o_Steps operation = plan_legs plan;
  as_identities : step_Identity <$> o_Steps operation = pt_Identity <$> prepared }.

Definition reserved_for (id : OperationID) (plan : SagaPlan) : Reservation := mkReservation id id (plan_requirements plan).

(** The store durably commits the operation and its reservation. *)
Definition committed (id : OperationID) (plan : SagaPlan) (operation : Operation) (st st' : St) : Prop :=
  CommitPrepared operation (reserved_for id plan) st = (Ok tt, st').

(** How a committed execution ends that holds its reservation: an answer could not be
    recorded; or all were recorded, and they were all accepted, or the operation was
    left to a person, or that, or its rejection, could not be written. *)
Inductive held_end (id : OperationID) (plan : SagaPlan) (outcomes : list (BroadcastResult * option error)) (st : St) :
    bool -> option error -> St -> Prop :=
| held_unrecorded e st1 :
    recorded id (zip (plan_legs plan) outcomes) st (Some e) st1 -> held_end id plan outcomes st true (Some e) st1
| held_accepted st1 :
    recorded id (zip (plan_legs plan) outcomes) st None st1 -> Forall (fun o => disposition_of o = BroadcastAccepted) outcomes ->
    held_end id plan outcomes st true None st1
| held_manual st1 st2 :
    recorded id (zip (plan_legs plan) outcomes) st None st1 ->
    ~ Forall (fun o => disposition_of o = BroadcastAccepted) outcomes -> tally outcomes BroadcastRejected <> length (plan_legs plan) ->
    MarkManualIntervention id "broadcast requires reconciliation: accepted=%d rejected=%d unknown=%d" st1 = (Ok tt, st2) ->
    held_end id plan outcomes st true (Some (Wrapf "%w: %s" ErrReconciliationRequired)) st2
| held_manual_unmarked st1 st2 e :
    recorded id (zip (plan_legs plan) outcomes) st None st1 ->
    ~ Forall (fun o => disposition_of o = BroadcastAccepted) outcomes -> tally outcomes BroadcastRejected <> length (plan_legs plan) ->
    MarkManualIntervention id "broadcast requires reconciliation: accepted=%d rejected=%d unknown=%d" st1 = (Err e, st2) ->
    held_end id plan outcomes st true (Some e) st2
| held_unmarked st1 st2 e :
    recorded id (zip (plan_legs plan) outcomes) st None st1 -> tally outcomes BroadcastRejected = length (plan_legs plan) ->
    MarkNoExecution id "both broadcasts were conclusively rejected" st1 = (Err e, st2) ->
    held_end id plan outcomes st false (Some e) st2.

(** How an execution can end, from the world before to the one after: every call on the
    store is there, in its order. *)
Inductive execute_outcome (id : OperationID) (plan : SagaPlan) (artifacts : gmap StepID Artifact) (w : World) :
    ExecutionResult -> option error -> World -> Prop :=
| outcome_busy :
    id = "" \/ w_gate w <> "" ->
    execute_outcome id plan artifacts w no_result (Some ErrOperationInFlight) w
| outcome_abandoned e :
    w_gate w = "" -> execute_outcome id plan artifacts w no_result (Some e) w
| outcome_uncommitted operation prepared e st :
    w_gate w = "" -> assembled id plan artifacts operation prepared ->
    CommitPrepared operation (reserved_for id plan) (w_store w) = (Err e, st) ->
    execute_outcome id plan artifacts w no_result (Some e) (set_store st w)
| outcome_rejected operation prepared sent st1 st2 st3 :
    w_gate w = "" -> assembled id plan artifacts operation prepared -> committed id plan operation (w_store w) st1 ->
    sent ≡ₚ prepared ->
    recorded id (zip (plan_legs plan) (answers prepared)) st1 None st2 ->
    tally (answers prepared) BroadcastRejected = length (plan_legs plan) ->
    MarkNoExecution id "both broadcasts were conclusively rejected" st2 = (Ok tt, st3) ->
    execute_outcome id plan artifacts w (mkExecutionResult (Some operation) (fst <$> answers prepared) false)
      (Some (Wrapf "%w: %s" ErrNoExecution)) (set_store st3 (set_broadcasts (w_broadcasts w ++ sent) w))
| outcome_held operation prepared sent st1 st2 requires err :
    w_gate w = "" -> assembled id plan artifacts operation prepared -> committed id plan operation (w_store w) st1 ->
    sent ≡ₚ prepared ->
    held_end id plan (answers prepared) st1 requires err st2 ->
    execute_outcome id plan artifacts w (mkExecutionResult (Some operation) (fst <$> answers prepared) requires) err
      (set_store st2 (set_broadcasts (w_broadcasts w ++ sent) (set_gate id
        (set_inventory (reserve_state (w_inventory w) (reserved_for id plan)) w)))).

Definition step_counts (counts : Counts) (outcome : BroadcastResult * option error) : Counts :=
  let disposition := disposition_of outcome in
  if decide (disposition = BroadcastAccepted) then mkCounts (S (accepted counts)) (rejected counts) (unknown counts)
  else if decide (disposition = BroadcastRejected) then mkCounts (accepted counts) (S (rejected counts)) (unknown counts)
  else mkCounts (accepted counts) (rejected counts) (S (unknown counts)).

Lemma step_counts_all counts outcomes :
  let counts' := foldl step_counts counts outcomes in
  rejected counts' = (rejected counts + tally outcomes BroadcastRejected)%nat /\
  (rejected counts' = 0%nat -> unknown counts' = 0%nat ->
     Forall (fun o => disposition_of o = BroadcastAccepted) outcomes).
Proof.
  revert counts. induction outcomes as [|o l IH]; intros counts; cbn [foldl].
  { split; [unfold tally; cbn; lia|]. by constructor. }
  assert (forall c, rejected c <= rejected (foldl step_counts c l) /\ unknown c <= unknown (foldl step_counts c l))%nat as Hmono.
  { clear. induction l as [|o l IH]; intros c; [done|]. cbn [foldl]. specialize (IH (step_counts c o)).
    unfold step_counts in *. repeat case_decide; cbn in *; lia. }
  assert (rejected (step_counts counts o) =
    (rejected counts + if decide (disposition_of o = BroadcastRejected) then 1 else 0)%nat /\
    (rejected (step_counts counts o) = 0%nat -> unknown (step_counts counts o) = 0%nat ->
     disposition_of o = BroadcastAccepted)) as [Hr1 Ha1].
  { unfold step_counts. destruct (decide (disposition_of o = BroadcastAccepted)) as [->|].
    - split; [rewrite decide_False by done; cbn; lia|done].
    - destruct (decide (disposition_of o = BroadcastRejected)); cbn; split; lia. }
  destruct (IH (step_counts counts o)) as [Hr Ha]. specialize (Hmono (step_counts counts o)). cbv zeta.
  split.
  - rewrite Hr, Hr1. unfold tally. rewrite filter_cons. case_decide; cbn; lia.
  - intros H0 H1. constructor; [apply Ha1; lia|by apply Ha].
Qed.

Lemma recorded_error id entries st e st' : recorded id entries st (Some e) st' -> after_commit_error e.
Proof.
  intros H. remember (Some e) as err. revert Heqerr. induction H as [|leg o rest st st1 err st2 _ _ IH|leg o rest st e' st1 Hr]; [done|done|].
  intros [= ->]. by eapply error_record.
Qed.

Lemma held_end_error id plan outcomes st requires e st' : held_end id plan outcomes st requires (Some e) st' -> after_commit_error e.
Proof.
  intros H. remember (Some e) as err. revert Heqerr. destruct H as [e' st1 Hr|st1 _ _|st1 st2 _ _ _ _|st1 st2 e' _ _ _ Hm|st1 st2 e' _ _ Hm]; try done; intros [= <-].
  - by eapply recorded_error.
  - apply error_reconcile.
  - by eapply error_manual.
  - by eapply error_none.
Qed.

Lemma record_broadcasts_run id plan w counts (entries : list (Leg * (BroadcastResult * option error))) :
  ports_total plan ->
  Post (foldST (record_broadcast id) counts entries) w (fun r w' =>
    exists st, w' = set_store st w /\
    match r with
    | Ok counts' => counts' = foldl step_counts counts (snd <$> entries) /\ recorded id entries (w_store w) None st
    | Err e => recorded id entries (w_store w) (Some e) st
    | Panic _ => False
    end).
Proof.
  intros Hp. revert counts w. induction entries as [|[leg o] l IH]; intros counts w.
  { exists (w_store w). split; [by destruct w|]. split; [done|constructor]. }
  unfold Post. cbn [foldST].
  assert (record_broadcast id counts (leg, o) =
    (_ ← on_store (RecordBroadcast id (leg_ID leg) (recorded_state o) (recorded_detail o)); mret (step_counts counts o))) as ->.
  { unfold record_broadcast, step_counts, recorded_state, recorded_detail. by repeat case_decide. }
  unfold mbind, st_bind, on_store, zoom.
  destruct (RecordBroadcast id (leg_ID leg) (recorded_state o) (recorded_detail o) (w_store w)) as [r st] eqn:Hr.
  destruct r as [[]|e|why]; cbn.
  - specialize (IH (step_counts counts o) (set_store st w)). unfold Post in IH.
    destruct (foldST _ _ _ _) as [r w']. destruct IH as (st' & -> & Hc). exists st'. split; [done|].
    destruct r as [c|e|why]; [destruct Hc as [-> Hc]; split; [done|]|..|done]; by eapply recorded_cons.
  - exists st. split; [done|]. by apply recorded_stop.
  - by apply (pt_record plan Hp) in Hr.
Qed.

Lemma step_counts_accepted counts outcomes : Forall (fun o => disposition_of o = BroadcastAccepted) outcomes ->
  rejected (foldl step_counts counts outcomes) = rejected counts /\ unknown (foldl step_counts counts outcomes) = unknown counts.
Proof.
  intros H. revert counts. induction H as [|o l Ho _ IH]; intros counts; [done|]. cbn [foldl]. destruct (IH (step_counts counts o)) as [-> ->].
  unfold step_counts. by rewrite decide_True.
Qed.

Lemma conclude_run id plan outcomes operation sent w r st0 :
  ports_total plan -> inv_ok (w_inventory w) -> w_gate w = id -> id <> "" ->
  reservations (w_inventory w) !! id = Some r ->
  recorded id (zip (plan_legs plan) outcomes) st0 None (w_store w) ->
  Post (conclude id (length (plan_legs plan)) (foldl step_counts (mkCounts 0 0 0) outcomes) (mkExecutionResult (Some operation) sent true)) w
    (fun out w' => match out with
     | Ok (result, err) =>
         (exists st requires, result = mkExecutionResult (Some operation) sent requires /\ w' = set_store st w /\
            held_end id plan outcomes st0 requires err st) \/
         (exists st, tally outcomes BroadcastRejected = length (plan_legs plan) /\
            MarkNoExecution id "both broadcasts were conclusively rejected" (w_store w) = (Ok tt, st) /\
            result = mkExecutionResult (Some operation) sent false /\ err = Some (Wrapf "%w: %s" ErrNoExecution) /\
            w' = set_store st (set_gate "" (set_inventory (release_state (w_inventory w) r) w)))
     | _ => False
     end).
Proof.
  intros Hp Hi Hg Hid Hr Hrec. destruct (step_counts_all (mkCounts 0 0 0) outcomes) as [Hrej Hacc].
  pose proof (step_counts_accepted (mkCounts 0 0 0) outcomes) as Hall. cbn [rejected unknown] in Hrej, Hall.
  set (counts := foldl _ _ _) in *. rewrite Nat.add_0_l in Hrej. unfold conclude. destruct (decide _) as [Hr1|Hnot].
  - cbv zeta. eapply Post_bind; [apply Post_try_store with
      (Q := fun out w' => exists r st, out = Ok r /\ no_panic r /\ w' = set_store st w /\ MarkNoExecution id "both broadcasts were conclusively rejected" (w_store w) = (r, st));
      [apply (pt_none plan Hp)|]| |by naive_solver|by naive_solver].
    { intros r0 st Hr0 Hm. by exists r0, st. }
    intros marked w1 (m & st & [= ->] & Hm & -> & He). destruct m as [[]|e|why]; [| |by destruct (Hm why)].
    2: { apply Post_mret. left. exists st, false. split_and!; [done|done|]. eapply held_unmarked; [done|lia|done]. }
    eapply Post_bind_Ok.
    { apply (try_run _ _ (Ok tt)); [done|]. apply on_inventory_run. apply Release_run; [done|]. exact Hr. }
    eapply Post_bind_Ok; [by apply Complete_run|].
    apply Post_mret. right. exists st. split_and!; try done. lia.
  - destruct (decide _) as [Hsome|Hnone].
    + assert (~ Forall (fun o => disposition_of o = BroadcastAccepted) outcomes) as Hna by (intros Ha; specialize (Hall Ha); lia).
      eapply Post_bind; [apply Post_try_store with
        (Q := fun out w' => exists r st, out = Ok r /\ no_panic r /\ w' = set_store st w /\
           MarkManualIntervention id "broadcast requires reconciliation: accepted=%d rejected=%d unknown=%d" (w_store w) = (r, st));
        [apply (pt_manual plan Hp)|]| |by naive_solver|by naive_solver].
      { intros r0 st Hr0 Hm. by exists r0, st. }
      intros marked w1 (m & st & [= ->] & Hm & -> & He). destruct m as [[]|e|why]; [| |by destruct (Hm why)];
        apply Post_mret; left; exists st, true; (split; [done|split; [done|]]);
        [eapply held_manual|eapply held_manual_unmarked]; try done; lia.
    + apply Post_mret. left. exists (w_store w), true. split; [done|]. split; [by destruct w|]. apply held_accepted; [done|]. apply Hacc; lia.
Qed.

(** A valuation built by its constructor: a version comes with a price. *)
Definition valuation_built (v : ValuationSnapshot) : Prop := val_price v = None -> val_version v = 0.

Lemma consistent_no_panic v expected format : no_panic v -> no_panic (consistent v expected format).
Proof. intros Hv. unfold consistent. destruct v as [q|e|why]; no_panic_auto. by destruct (Hv why). Qed.

Lemma ValidatePrepared_no_panic o : valuation_built (ec_Valuation (o_Economics o)) -> no_panic (ValidatePrepared o).
Proof.
  intros Hv. unfold ValidatePrepared. destruct (decide _); [apply no_panic_Err|].
  apply no_panic_bind.
  - unfold OperationEconomics_Validate. cbv zeta. destruct (decide _) as [|Hc]; [apply no_panic_Err|].
    do 2 (destruct (decide _); [apply no_panic_Err|]). unfold Valuation_Price.
    destruct (val_price _) as [p|] eqn:Hp; [|specialize (Hv Hp); tauto]. cbn [mbind res_bind].
    unfold AssetQuantity_Add, AssetQuantity_Sub, NewAssetQuantity.
    repeat (apply no_panic_bind; [|intros _ _]); apply consistent_no_panic; no_panic_auto.
  - intros _ _. apply no_panic_foldM. intros u s _. unfold prepared_step. destruct (decide _); [apply no_panic_Err|].
    unfold Leg_Validate, TransactionIdentity_Validate, prepared_allocation.
    no_panic_auto. apply RouteAllocation_Validate_no_panic.
Qed.

Lemma prepare_operation_spec config id plan artifacts now committedAt :
  ports_total plan -> valuation_built (lo_Valuation (plan_opportunity plan)) ->
  match prepare_operation config id plan artifacts now committedAt with
  | Ok (prepared, operation) =>
      assembled id plan artifacts operation prepared /\
      Forall (fun t => managed (leg_Account (pt_Leg t)) = true) prepared
  | Err _ => True
  | Panic _ => False
  end.
Proof.
  intros Hp Hv. unfold prepare_operation.
  assert (Forall no_panic (prepare_leg artifacts <$> plan_legs plan)) as Hall.
  { apply Forall_fmap, Forall_forall. intros leg Hleg. unfold compose, prepare_leg.
    rewrite (pt_managed plan Hp leg Hleg). by apply (pt_prepare plan Hp). }
  pose proof (wait_all_inv _ Hall) as Hw. destruct (wait_all _) as [prepared|e|why]; [|done..].
  cbn [mbind res_bind]. destruct (decide _); [done|]. cbv zeta.
  assert (length prepared = length (plan_legs plan)) as Hlen.
  { rewrite <- (length_fmap (prepare_leg artifacts)), Hw. by rewrite length_fmap. }
  assert (Forall (fun t => managed (leg_Account (pt_Leg t)) = true) prepared) as Hm.
  { apply Forall_lookup. intros i t Ht. destruct (lookup_lt_is_Some_2 (plan_legs plan) i) as [leg Hleg].
    { rewrite <- Hlen. by eapply lookup_lt_Some. }
    assert (prepare_leg artifacts leg = Ok t) as Hprep.
    { assert ((prepare_leg artifacts <$> plan_legs plan) !! i = (Ok <$> prepared) !! i) as H by (by rewrite Hw).
      rewrite !list_lookup_fmap, Hleg, Ht in H. cbn in H. congruence. }
    apply list_elem_of_lookup_2 in Hleg. unfold prepare_leg in Hprep. rewrite (pt_managed plan Hp leg Hleg) in Hprep.
    by eapply (pt_sender plan Hp). }
  match goal with |- context [ValidatePrepared ?o] => set (operation := o);
    pose proof (ValidatePrepared_no_panic operation Hv) as Hn;
    destruct (ValidatePrepared operation) as [[]|e|why] eqn:Hval end; [|done|by destruct (Hn why)].
  cbn [mbind res_bind]. split; [|done].
  assert (forall legs (k : list PreparedTransaction), length k = length legs ->
    step_Leg <$> zip_with (prepared_step_of id artifacts) legs k = legs /\
    step_Identity <$> zip_with (prepared_step_of id artifacts) legs k = pt_Identity <$> k) as Hzip.
  { clear. induction legs as [|leg legs IH]; intros [|t k] Hk; try done. cbn. destruct (IH k) as [-> ->]; [by injection Hk|done]. }
  destruct (Hzip (plan_legs plan) prepared Hlen) as [Hz1 Hz2]. split; try done.
  apply Forall2_same_length_lookup. split; [done|]. intros i leg t Hleg Ht.
  assert ((prepare_leg artifacts <$> plan_legs plan) !! i = (Ok <$> prepared) !! i) as Hi by (by rewrite Hw).
  rewrite !list_lookup_fmap, Hleg, Ht in Hi. cbn in Hi. injection Hi as Hi. unfold prepare_leg in Hi.
  by rewrite (pt_managed plan Hp leg (list_elem_of_lookup_2 _ _ _ Hleg)) in Hi.
Qed.

Lemma broadcast_all_run prepared w :
  Forall (fun t => managed (leg_Account (pt_Leg t)) = true) prepared ->
  broadcast_all prepared w = (Ok (answers prepared), set_broadcasts (w_broadcasts w ++ spawn _ prepared) w).
Proof.
  intros Hm. unfold broadcast_all.
  replace (broadcast_leg <$> prepared) with (Ok <$> answers prepared); [by rewrite wait_all_Ok|].
  unfold answers. rewrite <- list_fmap_compose. apply list_fmap_ext. intros i t Ht. unfold broadcast_leg, compose.
  apply list_elem_of_lookup_2 in Ht. rewrite Forall_forall in Hm. by rewrite (Hm t Ht).
Qed.

(** After the commit the world is either given back or held for recovery. *)
Lemma after_commit_run id plan artifacts prepared operation w st :
  let wr := set_gate id (set_inventory (reserve_state (w_inventory w) (reserved_for id plan)) w) in
  ports_total plan -> inv_ok (w_inventory wr) -> id <> "" -> w_gate w = "" ->
  reservations (w_inventory w) !! id = None ->
  assembled id plan artifacts operation prepared -> committed id plan operation (w_store w) st ->
  Forall (fun t => managed (leg_Account (pt_Leg t)) = true) prepared ->
  Post (after_commit id plan prepared operation) (set_store st wr) (fun out w' =>
    match out with Ok (result, err) => execute_outcome id plan artifacts w result err w' | _ => False end).
Proof.
  intros wr Hp Hi Hid Hg Hfresh Has Hcommit Hm. unfold after_commit.
  assert (length prepared = length (plan_legs plan)) as Hlen by (symmetry; apply (Forall2_length _ _ _ (as_prepared _ _ _ _ _ Has))).
  eapply Post_bind_Ok; [by apply broadcast_all_run|]. cbv zeta.
  set (w1 := set_broadcasts _ _). eapply Post_bind.
  { apply Post_try. eapply Post_weaken; [by apply (record_broadcasts_run id plan)|].
    intros out w' H. apply (fun x => x) in H.
    instantiate (1 := fun out w' => exists st', w' = set_store st' w1 /\
      match out with
      | Ok (Ok counts) => counts = foldl step_counts (mkCounts 0 0 0) (answers prepared) /\ recorded id (zip (plan_legs plan) (answers prepared)) st None st'
      | Ok (Err e) => recorded id (zip (plan_legs plan) (answers prepared)) st (Some e) st' | _ => False end).
    destruct H as (st' & -> & H).
    assert (snd <$> zip (plan_legs plan) (answers prepared) = answers prepared) as Hzip.
    { apply snd_zip. unfold answers. rewrite length_fmap. lia. }
    rewrite Hzip in H. destruct out as [c|e|why]; [|by exists st'|done]. by exists st'. }
  2: by intros e w' (st' & _ & []).
  2: by intros e w' (st' & _ & []).
  intros counted w' (st' & -> & H). destruct counted as [counts|e|why]; [| |done].
  - destruct H as [-> Hrec].
    eapply Post_weaken; [apply (conclude_run id plan (answers prepared) operation _ _ (reserved_for id plan) st Hp); try done|].
    { cbn. apply lookup_insert_eq. }
    intros [[result err]|e|why] w2; [|done..].
    intros [(st2 & requires & -> & -> & Hend)|(st2 & Hall & Hmark & -> & -> & ->)].
    + by apply (outcome_held id plan artifacts w operation prepared (spawn _ prepared) st st2 requires err Hg Has Hcommit (spawn_perm _ prepared)).
    + pose proof (outcome_rejected id plan artifacts w operation prepared (spawn _ prepared) st st' st2 Hg Has Hcommit
        (spawn_perm _ prepared) Hrec Hall Hmark) as Hout.
      cbn. rewrite release_reserve_state by done. revert Hout. rewrite <- Hg. by destruct w.
  - apply Post_mret. apply (outcome_held id plan artifacts w operation prepared (spawn _ prepared) st st' true (Some e) Hg Has Hcommit (spawn_perm _ prepared)).
    by apply held_unrecorded.
Qed.

(** An execution that ends before the commit, from the world [held] it was in: no call
    on the store, or a commit that failed. *)
Definition uncommitted (id : OperationID) (plan : SagaPlan) (artifacts : gmap StepID Artifact) (held : World) (e : error) (w' : World) : Prop :=
  w' = held \/
  exists operation prepared st, assembled id plan artifacts operation prepared /\
    CommitPrepared operation (reserved_for id plan) (w_store held) = (Err e, st) /\ w' = set_store st held.

(** What the guarded bodies leave to the two [defer]s. *)
Definition deferred (id : OperationID) (plan : SagaPlan) (artifacts : gmap StepID Artifact) (w held : World)
    (out : res (ExecutionResult * option error * bool)) (w' : World) : Prop :=
  match out with
  | Ok (result, err, true) => execute_outcome id plan artifacts w result err w'
  | Ok (result, err, false) => result = no_result /\ exists e, err = Some e /\ uncommitted id plan artifacts held e w'
  | _ => False
  end.

Lemma execute_reserved_run config id plan artifacts now committedAt w :
  let held := set_gate id (set_inventory (reserve_state (w_inventory w) (reserved_for id plan)) w) in
  ports_total plan -> valuation_built (lo_Valuation (plan_opportunity plan)) ->
  inv_ok (w_inventory held) -> id <> "" -> w_gate w = "" -> reservations (w_inventory w) !! id = None ->
  Post (execute_reserved config id plan artifacts now committedAt (reserved_for id plan)) held (deferred id plan artifacts w held).
Proof.
  intros held Hp Hv Hi Hid Hg Hfresh. unfold execute_reserved.
  pose proof (prepare_operation_spec config id plan artifacts now committedAt Hp Hv) as Hprep.
  eapply Post_bind_Ok; [apply try_run with (r := prepare_operation config id plan artifacts now committedAt);
    [intros why Hwhy; by rewrite Hwhy in Hprep|done]|].
  destruct (prepare_operation _ _ _ _ _ _) as [[prepared operation]|e|why]; [| |done].
  2: { apply Post_mret. split; [done|]. eexists. split; [done|]. by left. }
  destruct Hprep as (Has & Hm).
  eapply Post_bind; [apply Post_try_store with
    (Q := fun out w' => exists r st, out = Ok r /\ no_panic r /\ w' = set_store st held /\ CommitPrepared operation (reserved_for id plan) (w_store held) = (r, st));
    [apply (pt_commit plan Hp)|]| |by naive_solver|by naive_solver].
  { intros r0 st Hr0 Hc. by exists r0, st. }
  intros c w1 (c' & st & [= ->] & Hc & -> & Hrun). destruct c' as [[]|e|why]; [| |by destruct (Hc why)].
  - eapply Post_bind; [by apply (after_commit_run id plan artifacts)| |by intros ? ? []|by intros ? ? []].
    intros [result err] w2 H. by apply Post_mret.
  - apply Post_mret. split; [done|]. exists e. split; [done|]. right. by exists operation, prepared, st.
Qed.

Lemma execute_begun_run config id plan artifacts now committedAt w :
  ports_total plan -> valuation_built (lo_Valuation (plan_opportunity plan)) ->
  inv_ok (w_inventory w) -> requirements_valid (plan_requirements plan) ->
  id <> "" -> w_gate w = "" -> reservations (w_inventory w) !! id = None ->
  Post (execute_begun config id plan artifacts now committedAt) (set_gate id w) (deferred id plan artifacts w (set_gate id w)).
Proof.
  intros Hp Hv Hi Hreq Hid Hg Hfresh. unfold execute_begun.
  assert (forall e, Post (mret (no_result, Some e, false)) (set_gate id w) (deferred id plan artifacts w (set_gate id w))) as Hfail.
  { intros e. apply Post_mret. split; [done|]. eexists. split; [done|]. by left. }
  destruct (decide _); [apply Hfail|].
  destruct (execution_requirements plan artifacts) as [requirements|e|why] eqn:Hr; [|apply Hfail|].
  2: by apply leg_requirements_no_panic in Hr.
  apply leg_requirements_Ok in Hr. cbn [app] in Hr. fold (plan_requirements plan) in Hr. subst requirements.
  pose proof (Reserve_outcome (w_inventory w) id id (plan_requirements plan) Hi Hreq) as Hout. unfold Post in Hout.
  destruct (Reserve id id (plan_requirements plan) (w_inventory w)) as [r i'] eqn:Hrun.
  pose proof (reserve_outcome_inv _ _ _ _ _ _ Hi Hout) as Hi'.
  inversion Hout as [e|r0 Hr0|r0 Hr0 Hs _ _ _ _ _]; subst; [|congruence|].
  - eapply Post_bind_Ok; [apply try_run with (r := Err e); [done|]; by apply on_inventory_run|].
    apply Post_mret. split; [done|]. eexists. split; [done|]. by left.
  - eapply Post_bind_Ok; [apply try_run with (r := Ok r0); [done|]; by apply on_inventory_run|].
    eapply Post_bind; [apply (execute_reserved_run config id plan artifacts now committedAt w); done| |by intros ? ? []|by intros ? ? []].
    intros [[result err] [|]] w2 H; cbn [snd].
    + eapply Post_bind_Ok; [done|]. by apply Post_mret.
    + destruct H as (-> & e & -> & H).
      assert (exists st, w2 = set_store st (set_gate id (set_inventory (reserve_state (w_inventory w) (reserved_for id plan)) w)) /\
        uncommitted id plan artifacts (set_gate id w) e (set_store st (set_gate id w))) as (st & -> & Hun).
      { destruct H as [->|(operation & prepared & st & Has & Hc & ->)]; [exists (w_store w); split; [done|left; by destruct w]|].
        exists st. split; [done|]. right. by exists operation, prepared, st. }
      eapply Post_bind_Ok.
      { apply (ignore_run _ _ (Ok tt)); [done|].
        apply on_inventory_run, (Release_run _ id (reserved_for id plan)); [done|apply lookup_insert_eq]. }
      apply Post_mret. split; [done|]. exists e. split; [done|]. cbn. rewrite release_reserve_state by done. destruct w. exact Hun.
Qed.

Lemma Execute_run (config : ExecutorConfig) (id : OperationID) (plan : SagaPlan)
    (artifacts : gmap StepID Artifact) (now committedAt : Time) (w : World) :
  ports_total plan -> valuation_built (lo_Valuation (plan_opportunity plan)) ->
  inv_ok (w_inventory w) -> requirements_valid (plan_requirements plan) ->
  reservations (w_inventory w) !! id = None ->
  Post (Execute config id plan artifacts now committedAt) w (fun out w' =>
    match out with Ok (result, err) => execute_outcome id plan artifacts w result err w' | _ => False end).
Proof.
  intros Hp Hv Hi Hreq Hfresh. unfold Execute.
  assert (forall g, w_gate w = g -> w = set_gate g w) as Hsame by (intros g <-; by destruct w).
  destruct (decide (id = "" \/ w_gate w <> "")) as [Hbusy|Hfree].
  - eapply Post_bind_Ok.
    { apply (on_gate_run _ w (Ok false) (w_gate w)). unfold TryBegin.
      destruct (decide (id = "")); [done|]. rewrite decide_True by tauto. done. }
    apply Post_mret. rewrite <- Hsame by done. by apply outcome_busy.
  - assert (id <> "" /\ w_gate w = "") as [Hid Hg] by (destruct (decide (w_gate w = "")); tauto).
    eapply Post_bind_Ok.
    { apply (on_gate_run _ w (Ok true) id). unfold TryBegin.
      rewrite Hg, !decide_False by tauto. done. }
    eapply Post_bind; [by apply execute_begun_run| |by intros ? ? []|by intros ? ? []].
    intros [[result err] [|]] w2 H; cbn [snd fst].
    + eapply Post_bind_Ok; [done|]. by apply Post_mret.
    + destruct H as (-> & e & -> & H).
      assert (exists st, w2 = set_store st (set_gate id w) /\ execute_outcome id plan artifacts w no_result (Some e) (set_store st w)) as (st & -> & Hout).
      { destruct H as [->|(operation & prepared & st & Has & Hc & ->)].
        - exists (w_store w). split; [done|]. rewrite <- (set_store_same w) at 1. by apply outcome_abandoned.
        - exists st. split; [done|]. by eapply outcome_uncommitted. }
      eapply Post_bind_Ok.
      { rewrite (st_bind_run _ _ _ _ _ (Complete_run id (set_store st (set_gate id w)) Hid eq_refl)). done. }
      apply Post_mret. revert Hout. rewrite <- Hg. by destruct w.
Qed.

(** C3. An execution either never starts, or ends with nothing sent and the
    inventory and the gate exactly as before, where the store was not called or was
    asked once, in vain, to commit; or the store has durably committed, once and first of
    all, a valid operation of what the managers prepared, with the reservation of its
    inputs, both transactions were handed out once, and the answers were recorded in the
    order of the legs.  Then either every leg was conclusively rejected, the store
    closed the operation, and the reservation and the gate are given back; or the gate
    names the operation and the inventory holds the reservation.  Success is reported
    only when every answer is recorded and every leg was accepted; otherwise the
    operation is left to a person, or the first call of the store that failed is the
    error. *)
Theorem Execute_releases_or_holds (config : ExecutorConfig) (id : OperationID) (plan : SagaPlan)
    (artifacts : gmap StepID Artifact) (now committedAt : Time) (w : World) :
  ports_total plan -> valuation_built (lo_Valuation (plan_opportunity plan)) ->
  inv_ok (w_inventory w) -> requirements_valid (plan_requirements plan) ->
  reservations (w_inventory w) !! id = None ->
  Post (Execute config id plan artifacts now committedAt) w (fun out w' =>
    match out with Ok (result, err) => execute_outcome id plan artifacts w result err w' | _ => False end).
Proof. apply Execute_run. Qed.

(** ** Settlement *)

Lemma collect_effects_spec observed steps :
  match collect_effects observed steps with
  | None => Exists (fun step => settlement_unusable step (observed !! leg_ID (step_Leg step))) steps
  | Some effects =>
      Forall (fun step => ~ settlement_unusable step (observed !! leg_ID (step_Leg step))) steps /\
      exists settlements, Forall2 (fun step s => observed !! leg_ID (step_Leg step) = Some s) steps settlements /\
        effects = concat (zip_with settlement_effects steps settlements)
  end.
Proof.
  induction steps as [|step steps IH]; cbn [collect_effects].
  { split; [constructor|]. exists []. by split; [constructor|]. }
  destruct (decide _) as [Hbad|Hok]; [by constructor|].
  destruct (observed !! leg_ID (step_Leg step)) as [s|] eqn:Hs; [|by destruct Hok]. cbn [mbind option_bind].
  destruct (collect_effects observed steps) as [rest|]; [|by apply Exists_cons_tl].
  destruct IH as [Hall (settlements & Hset & ->)]. split; [constructor; [by rewrite Hs|done]|].
  exists (s :: settlements). split; [by constructor|done].
Qed.

Definition observed_with (w : World) (s : Settlement) : gmap StepID Settlement :=
  <[se_Step s := s]> (default ∅ (w_observed w !! se_Operation s)).

(** The world after the observation is noted, with the store at [st]. *)
Definition noted (w : World) (s : Settlement) (st : St) : World :=
  set_store st (set_observed (<[se_Operation s := observed_with w s]> (w_observed w)) w).

(** The inventory once the operation's effects are applied. *)
Record applied_to (id : OperationID) (r : Reservation) (effects : list Effect) (i i' : Inventory) : Prop := {
  ap_inv : inv_ok i';
  ap_reservation : reservations i' !! id = None;
  ap_balances : forall k, balances i' !! k = (fun v => v + total_at k (effect_entries effects)) <$> balances i !! k;
  ap_reserved : forall k, reserved i' !! k = (fun v => v - total_at k (reservation_entries r)) <$> reserved i !! k }.

Lemma settle_applied_to i id r effects i' :
  inv_ok i -> reservations i !! id = Some r -> settle_outcome i id effects (Ok tt) i' -> applied_to id r effects i i'.
Proof.
  intros Hi Hr Hout. pose proof (settle_outcome_inv _ _ _ _ _ Hi Hout) as Hi'.
  pose proof (inv_reservations i Hi _ _ Hr) as (Hid & _).
  inversion Hout as [|fp Hfp Hnone|r0 fp Hfp Hr0 Hb]; [congruence|]. simplify_eq.
  split; [done|apply lookup_delete_eq|intros k; apply lookup_add_totals|].
  intros k. cbn. rewrite lookup_add_totals, total_at_neg. by destruct (reserved i !! k).
Qed.

Inductive observe_outcome (w : World) (s : Settlement) (o : Operation) (r : Reservation) : res unit -> World -> Prop :=
| observe_unrecorded e st :
    observe_outcome w s o r (Err e) (set_store st w)
| observe_waiting st :
    (size (observed_with w s) < length (o_Steps o))%nat ->
    observe_outcome w s o r (Ok tt) (noted w s st)
| observe_mismatch e st :
    (length (o_Steps o) <= size (observed_with w s))%nat ->
    Exists (fun step => settlement_unusable step (observed_with w s !! leg_ID (step_Leg step))) (o_Steps o) ->
    observe_outcome w s o r (Err e) (noted w s st)
| observe_refused e st :
    errors_Is e "ErrManualInterventionRequired" = true ->
    observe_outcome w s o r (Err e) (noted w s st)
| observe_applied settlements effects i' st out w' :
    Forall2 (fun step s' => observed_with w s !! leg_ID (step_Leg step) = Some s') (o_Steps o) settlements ->
    Forall (fun step => ~ settlement_unusable step (observed_with w s !! leg_ID (step_Leg step))) (o_Steps o) ->
    effects = concat (zip_with settlement_effects (o_Steps o) settlements) ->
    applied_to (o_ID o) r effects (w_inventory w) i' ->
    (out = Ok tt /\ (exists before, MarkSettled (o_ID o) before = (Ok tt, st)) /\
     w' = mkWorld i' (if decide (w_gate w = o_ID o) then "" else w_gate w) st (w_broadcasts w)
            (delete (o_ID o) (w_operations w)) (delete (o_ID o) (w_observed w)) \/
     (exists e, out = Err e /\ errors_Is e "ErrManualInterventionRequired" = true) /\
     w' = set_inventory i' (noted w s st)) ->
    observe_outcome w s o r out w'.

Record settlement_store_total : Prop := {
  st_record : forall s, total (RecordSettlement s);
  st_settled : forall o, total (MarkSettled o);
  st_manual : forall o d, total (MarkManualIntervention o d) }.

Lemma ignore_store_run {A} (m : ST St A) w :
  total m -> exists st, ignore (on_store m) w = (Ok tt, set_store st w).
Proof.
  intros Ht. destruct (m (w_store w)) as [r st] eqn:Hm. exists st.
  apply (ignore_run _ _ r); [intros why ->; by apply Ht in Hm|]. unfold on_store, zoom. by rewrite Hm.
Qed.

Lemma ignore_Complete_run id w :
  id <> "" -> ignore (on_gate (Complete id)) w = (Ok tt, set_gate (if decide (w_gate w = id) then "" else w_gate w) w).
Proof.
  intros Hid. destruct (decide (w_gate w = id)) as [Hg|Hg].
  - apply (ignore_run _ _ (Ok true)); [done|by apply Complete_run].
  - apply (ignore_run _ _ (Ok false)); [done|]. apply on_gate_run. unfold Complete.
    rewrite decide_False by done. by rewrite decide_True.
Qed.

Lemma settle_operation_run (w : World) s o r st settlements effects :
  settlement_store_total -> inv_ok (w_inventory w) -> reservations (w_inventory w) !! o_ID o = Some r ->
  o_ID o <> "" ->
  Forall2 (fun step s' => observed_with w s !! leg_ID (step_Leg step) = Some s') (o_Steps o) settlements ->
  Forall (fun step => ~ settlement_unusable step (observed_with w s !! leg_ID (step_Leg step))) (o_Steps o) ->
  effects = concat (zip_with settlement_effects (o_Steps o) settlements) ->
  o_ID o = se_Operation s ->
  Post (settle_operation o effects) (noted w s st) (observe_outcome w s o r).
Proof.
  intros Ht Hi Hr Hid Hset Hall Heff Ho. unfold settle_operation.
  pose proof (Settle_outcome (w_inventory w) (o_ID o) effects Hi) as Hout. unfold Post in Hout.
  destruct (Settle (o_ID o) effects (w_inventory w)) as [out i'] eqn:Hrun.
  assert (no_panic out) as Hnp by (intros why ->; inversion Hout).
  eapply Post_bind_Ok; [apply try_run; [done|]; apply on_inventory_run; exact Hrun|].
  destruct out as [[]|e|why]; [|inversion Hout; subst i'|by destruct (Hnp why)].
  - pose proof (settle_applied_to _ _ _ _ _ Hi Hr Hout) as Happ.
    eapply Post_bind; [apply Post_try_store with (Q := fun out w' => exists c st', out = Ok c /\ no_panic c /\
        MarkSettled (o_ID o) st = (c, st') /\ w' = set_store st' (set_inventory i' (noted w s st)));
        [apply (st_settled Ht)|intros c st' Hc Hm; by exists c, st']| |by naive_solver|by naive_solver].
    intros marked w1 (c & st' & [= ->] & Hc & Hm & ->). destruct c as [[]|e|why]; [| |by destruct (Hc why)].
    + eapply Post_bind_Ok; [done|]. eapply Post_bind_Ok; [done|]. unfold Post.
      rewrite ignore_Complete_run by done. cbn.
      eapply observe_applied; try done. left. split; [done|]. split; [by exists st|].
      unfold noted. cbn. rewrite Ho, delete_insert_eq. done.
    + destruct (ignore_store_run (MarkManualIntervention (o_ID o) "durable inventory settlement failed")
        (set_store st' (set_inventory i' (noted w s st)))) as [st2 Hig]; [apply (st_manual Ht)|].
      eapply Post_bind_Ok; [exact Hig|]. unfold Post. cbn.
      eapply (observe_applied w s o r settlements effects i' st2); try done. right.
      split; [by eexists|done].
  - destruct (ignore_store_run (MarkManualIntervention (o_ID o) "inventory settlement failed")
      (set_inventory (w_inventory w) (noted w s st))) as [st2 Hig]; [apply (st_manual Ht)|].
    eapply Post_bind_Ok; [exact Hig|]. unfold Post. cbn.
    apply (observe_refused w s o r (Joined [ErrManualInterventionRequired; e]) st2). done.
Qed.

(** C4. Observing a settlement of a registered operation changes the inventory
    only when every leg is confirmed, verified and in the expected tokens: then
    every balance moves by exactly the actual inputs and outputs of the legs and
    the reservation is consumed.  Until all legs are observed nothing changes; a
    failed or mismatched leg, a refused settlement and an unwritten one are
    errors; and the gate is freed only after the store has durably settled. *)
Theorem Observe_settles_verified (w : World) (s : Settlement) (o : Operation) (r : Reservation) :
  settlement_store_total -> inv_ok (w_inventory w) ->
  se_Operation s <> "" -> se_Step s <> "" -> se_ObservedAt s <> 0 ->
  w_operations w !! se_Operation s = Some o -> o_ID o = se_Operation s ->
  reservations (w_inventory w) !! o_ID o = Some r ->
  Post (Observe s) w (observe_outcome w s o r).
Proof.
  intros Ht Hi Hop Hst Hat Hreg Ho Hr. unfold Observe, Time_IsZero. rewrite decide_False by tauto.
  eapply Post_bind; [apply Post_on_store with (Q := fun out w' => exists st, w' = set_store st w /\ no_panic out);
    [apply (st_record Ht)|by eauto]| |by intros e w' (st & -> & _); apply observe_unrecorded
    |by intros why w' (st & _ & Hp); destruct (Hp why)].
  intros [] w1 (st & -> & _). unfold observe_locked. eapply Post_bind_Ok; [done|].
  change (w_operations (set_store st w)) with (w_operations w). rewrite Hreg. cbv zeta.
  eapply Post_bind_Ok; [done|]. change (Post ?m _ ?Q) with (Post m (noted w s st) Q).
  change (<[se_Step s := s]> (default ∅ (w_observed (set_store st w) !! se_Operation s))) with (observed_with w s).
  destruct (decide _) as [Hlt|Hge]; [by apply Post_mret, observe_waiting|].
  pose proof (collect_effects_spec (observed_with w s) (o_Steps o)) as Hc.
  destruct (collect_effects _ _) as [effects|].
  - destruct Hc as [Hall (settlements & Hset & Heff)]. eapply settle_operation_run; try done. by rewrite Ho.
  - eapply Post_bind; [apply Post_on_store with (Q := fun out w' => exists st', w' = noted w s st' /\ no_panic out);
      [apply (st_manual Ht)|by eauto]| | |by intros why w' (st' & _ & Hp); destruct (Hp why)].
    + intros [] w2 (st' & -> & _). unfold Post. cbn. apply observe_mismatch; [lia|done].
    + intros e w2 (st' & -> & _). apply observe_mismatch; [lia|done].
Qed.

(** ** Recovery *)

Lemma restore_gate_Ok operation (w w' : World) :
  restore_gate operation w = (Ok tt, w') -> w' = set_gate operation w /\ operation <> "".
Proof.
  unfold restore_gate. rewrite st_bind_Ok. intros ([active e] & w1 & Ha & H).
  unfold on_gate, zoom, Active in Ha. injection Ha as <- <- <-.
  destruct (bool_decide (w_gate w <> "")) eqn:Hb.
  - apply bool_decide_eq_true in Hb. destruct (decide (w_gate w <> operation)) as [|He]; [done|].
    apply dec_stable in He. injection H as <-. subst operation. split; [by destruct w|done].
  - apply bool_decide_eq_false, dec_stable in Hb. apply st_bind_Ok in H as ([] & w2 & Hr & H); [|done].
    injection H as <-. unfold on_gate, zoom, Gate_Restore, TryBegin in Hr. cbn in Hr.
    repeat (destruct (decide _) in Hr; [done|]). injection Hr as <-. split; [by destruct w|done].
Qed.

(** Startup recovery succeeds only with nothing pending, or after confirming
    the one pending operation while the gate names it and the inventory holds
    its durable reservation, and after the store no longer lists anything as
    pending. *)
Theorem ReconcilePending_resolves (Confirm : Operation -> ST World unit) (w w' : World) :
  inv_ok (w_inventory w) ->
  (forall o st st' r, Store_Reservation o st = (Ok r, st') -> requirements_valid (res_requirements r)) ->
  ReconcilePending Confirm w = (Ok tt, w') ->
  exists pending st, Pending (w_store w) = (Ok pending, st) /\
    (pending = [] /\ w' = set_store st w \/
     exists o reservation w1 w2 st2, pending = [o] /\ o_ID o <> "" /\
       inv_ok (w_inventory w1) /\ w_gate w1 = o_ID o /\
       (exists held, reservations (w_inventory w1) !! res_ID reservation = Some held /\
          res_Operation held = o_ID o) /\
       (exists st1, Store_Reservation (o_ID o) st = (Ok reservation, st1)) /\
       Confirm o w1 = (Ok tt, w2) /\ Pending (w_store w2) = (Ok [], st2) /\ w' = set_store st2 w2).
Proof.
  intros Hi Hvalid. unfold ReconcilePending. rewrite st_bind_Ok. intros (pending & wa & Hpend & H).
  unfold on_store, zoom in Hpend. destruct (Pending (w_store w)) as [rp st] eqn:Hp. injection Hpend as -> <-.
  exists pending, st. split; [done|]. destruct pending as [|o [|]]; [left; by injection H as <-| |done].
  right. apply st_bind_Ok in H as (reservation & wb & Hres & H).
  unfold on_store, zoom in Hres. cbn in Hres. destruct (Store_Reservation (o_ID o) st) as [rr st1] eqn:Hsr.
  injection Hres as -> <-. apply st_bind_Ok in H as (held & wc & Hrsv & H).
  unfold on_inventory, zoom in Hrsv. cbn in Hrsv.
  pose proof (Reserve_outcome (w_inventory w) (res_ID reservation) (o_ID o) (res_requirements reservation) Hi
    (Hvalid _ _ _ _ Hsr)) as Hout. unfold Post in Hout.
  destruct (Reserve _ _ _ _) as [ro i'] eqn:Hrun. injection Hrsv as -> <-.
  pose proof (reserve_outcome_inv _ _ _ _ _ _ Hi Hout) as Hi'.
  apply st_bind_Ok in H as ([] & w1 & Hg & H). apply restore_gate_Ok in Hg as [-> Hid].
  apply st_bind_Ok in H as ([] & w2 & Hconf & H). apply st_bind_Ok in H as (remaining & wd & Hrem & H).
  unfold on_store, zoom in Hrem. destruct (Pending (w_store w2)) as [rm st2] eqn:Hp2. injection Hrem as -> <-.
  destruct (decide (remaining <> [])) as [|Hnil]; [done|]. apply dec_stable in Hnil as ->. injection H as <-.
  exists o, reservation, (set_gate (o_ID o) (set_inventory i' (set_store st1 (set_store st w)))), w2, st2.
  split_and!; try done; [|by exists st1].
  cbn. inversion Hout as [|r0 Hr0 Hop|r0 Hr0 Hs]; subst.
  - by exists held.
  - exists r0. split; [apply lookup_insert_eq|done].
Qed.
End saga.

(** ** Examples *)

Module SagaWitness.
#[local] Instance listed : RangeOrder Key := range_map_to_list Key.

Definition amount (token : string) (n : Z) : TokenAmount := mkTokenAmount token (Some n).
Definition money (asset : string) (n : Z) : AssetQuantity := mkAssetQuantity asset (Some (SetInt n)).
Definition usdc : Key := mkKey "base" "acc" "usdc".
Definition eth : Key := mkKey "base" "acc" "eth".
Definition policy (t : string) (n : Z) : BalancePolicy :=
  mkBalancePolicy (amount t n) (amount t 9000) (amount t 50) (amount t 10) (amount t 5).
Definition policies : gmap Key BalancePolicy := <[usdc := policy "usdc" 5000]> (<[eth := policy "eth" 80]> ∅).
Definition owner : Inventory := default Inventory_empty (res_opt (NewWithPolicies policies)).

Lemma owner_ok : inv_ok owner.
Proof.
  apply (NewWithPolicies_inv policies); [|vm_compute; reflexivity].
  apply map_Forall_insert_2; [cbn; lia|]. apply map_Forall_insert_2; [cbn; lia|]. apply map_Forall_empty.
Qed.

(** A store that remembers the pending operations. *)
#[local] Instance memory : OperationalStore (list Operation) := {|
  CommitPrepared o _ := fun st => (Ok tt, st ++ [o]);
  RecordBroadcast _ _ _ _ := fun st => (Ok tt, st);
  RecordSettlement _ := fun st => (Ok tt, st);
  MarkSettled id := fun st => (Ok tt, filter (fun o => o_ID o <> id) st);
  MarkManualIntervention _ _ := fun st => (Ok tt, st);
  MarkNoExecution id _ := fun st => (Ok tt, filter (fun o => o_ID o <> id) st);
  Pending := fun st => (Ok st, st);
  Store_Reservation id := fun st => (Ok (mkReservation id id [mkRequirement usdc (amount "usdc" 3000)]), st) |}.

Definition identity (hash : string) : TransactionIdentity := mkTransactionIdentity "base" "acc" hash None "" 0.

(** Managers that sign with the leg's name and are always accepted. *)
#[local] Program Instance wallets : TxManagers := {|
  managed _ := true;
  Prepare _ artifact := Ok (mkPreparedTransaction (art_Leg artifact) (identity (leg_ID (art_Leg artifact))) "" 1);
  Broadcast _ t := (mkBroadcastResult (pt_Identity t) BroadcastAccepted true "rpc" 1 2, None);
  error_text _ := "";
  spawn _ l := l |}.
Next Obligation. done. Qed.

Definition buy : Leg := mkLeg "b" LegBuy "base" "acc" "m1" (amount "usdc" 3000) (amount "eth" 10).
Definition sell : Leg := mkLeg "s" LegSell "base" "acc" "m2" (amount "eth" 10) (amount "usdc" 3050).
Definition quote (market : string) (input output : TokenAmount) : Quote :=
  mkQuote "q" market 1 "h" (mkSourcePosition "" 0) "r" "trade" "exact" "final" input output 1 [].
Definition opportunity : LiveOpportunity :=
  mkLiveOpportunity "opp" "setup" (mkDirection "m1" "m2") (mkValuationSnapshot 1 "ETH" "USD" (Some (SetInt 300)) 1 1)
    (quote "m1" (amount "usdc" 3000) (amount "eth" 10)) (quote "m2" (amount "eth" 10) (amount "usdc" 3050))
    (money "USD" 50) (money "ETH" 0) (money "USD" 0) (money "USD" 50) (money "USD" 8) (money "USD" 42)
    (money "USD" 5) "" 1 2.
Definition plan : SagaPlan := mkSagaPlan "p" opportunity [buy; sell] 1.
Definition artifacts : gmap StepID Artifact := <["b" := mkArtifact buy Quote_zero None 5]> {[ "s" := mkArtifact sell Quote_zero None 5 ]}.
Definition config : ExecutorConfig := mkExecutorConfig "cfg" 100.
Definition start : World (list Operation) := mkWorld owner "" [] [] ∅ ∅.
Definition executed : World (list Operation) := (Execute config "op" plan artifacts 10 11 start).2.

Lemma total_const {S A} (f : S -> res A * S) : (forall s, no_panic (f s).1) -> total f.
Proof. intros Hf s why s' H. by apply (Hf s why); rewrite H. Qed.

Lemma ports_ok : ports_total plan.
Proof. split; try (intros; by apply total_const); done. Qed.

Lemma plan_valid : requirements_valid (plan_requirements plan).
Proof. repeat constructor; cbn; lia. Qed.

Lemma Execute_witness :
  Post (Execute config "op" plan artifacts 10 11) start (fun out w' =>
    match out with Ok (result, err) => execute_outcome "op" plan artifacts start result err w' | _ => False end) /\
  w_gate executed = "op" /\ length (w_broadcasts executed) = 2%nat /\
  is_Some (reservations (w_inventory executed) !! "op").
Proof.
  split; [|split_and!; vm_compute; [reflexivity|reflexivity|eexists; reflexivity]].
  apply Execute_releases_or_holds; [apply ports_ok|done|apply owner_ok|apply plan_valid|vm_compute; reflexivity].
Defined.

Lemma gate_witness :
  (GBegin "b", true) ∉ [(GBegin "b", false); (GComplete "b", false)] /\ TryBegin "a" "" = (Ok true, "a").
Proof.
  split; [|reflexivity].
  apply (gate_exclusive "" "a" "a" [] [(GBegin "b", false); (GComplete "b", false)]).
  - cbn [app]. apply (gate_cons _ _ _ "a"); [reflexivity|]. apply (gate_cons _ _ _ "a"); [reflexivity|].
    apply (gate_cons _ _ _ "a"); [reflexivity|]. apply gate_nil.
  - rewrite !not_elem_of_cons. split; [discriminate|]. split; [discriminate|]. apply not_elem_of_nil.
Defined.

(** The committed operation is registered and its buy leg has been observed. *)
Definition committed : Operation := default (mkOperation "" "" "" "" []
  (EconomicsFromOpportunity opportunity) "" "" 0 0) (head (w_store executed)).
Definition settlement (step : StepID) (input output : TokenAmount) : Settlement :=
  mkSettlement "op" step (identity step) StateConfirmedSuccess EconomicEffectVerified input output [] 20 "e".
Definition registered : World (list Operation) := (Register committed executed).2.
Definition halfway : World (list Operation) :=
  (Observe (settlement "b" (amount "usdc" 3000) (amount "eth" 10)) registered).2.
Definition sold : Settlement := settlement "s" (amount "eth" 10) (amount "usdc" 3049).
Definition finished : World (list Operation) := (Observe sold halfway).2.
Definition reservation : Reservation := mkReservation "op" "op" (plan_requirements plan).

Lemma halfway_ok : inv_ok (w_inventory halfway).
Proof.
  assert (run_all [CReserve "op" "op" (plan_requirements plan)] owner = w_inventory halfway) as <-
    by (vm_compute; reflexivity).
  apply run_all_inv; [apply owner_ok|]. constructor; [apply plan_valid|constructor].
Qed.

Lemma Observe_witness :
  Post (Observe sold) halfway (observe_outcome halfway sold committed reservation) /\
  w_gate finished = "" /\ balances (w_inventory finished) !! usdc = Some 5049 /\ w_store finished = [].
Proof.
  split; [|split_and!; vm_compute; reflexivity].
  apply Observe_settles_verified; [split; intros; by apply total_const|apply halfway_ok|discriminate|discriminate|
    discriminate|vm_compute; reflexivity..].
Defined.

(** A restart with the operation pending, and a confirmer that settles it. *)
Definition restarted : World (list Operation) := mkWorld owner "" [committed] [] ∅ ∅.
Definition confirm (o : Operation) : ST (World (list Operation)) unit := on_store (MarkSettled (o_ID o)).
Definition recovered : World (list Operation) := (ReconcilePending confirm restarted).2.

Lemma recovery_witness :
  exists pending st, Pending (w_store restarted) = (Ok pending, st) /\ pending = [committed] /\ w_store recovered = [].
Proof.
  destruct (ReconcilePending_resolves confirm restarted recovered) as (pending & st & Hp & _).
  - apply owner_ok.
  - intros o st st' r H. injection H as <- _. repeat constructor; cbn; lia.
  - vm_compute. reflexivity.
  - exists pending, st. split; [exact Hp|]. split; [|vm_compute; reflexivity].
    injection Hp as <- _. reflexivity.
Defined.
End SagaWitness.
