(* ===== verification/Confirmer.v ===== *)
(** * Confirmation of an operation (src/core/saga/confirmer.go)

    Every leg of a broadcast operation is confirmed by the evidence of a WebSocket
    bound to its transaction, or else by the read-only reconciliation of the account's
    transaction manager, and the settlement is handed to the settlement coordinator
    ([Register] and [Observe] of [Saga]).  The goroutines share the coordinator only;
    [spawn] is the order they reach it in.  Sources and managers answer a step with
    fixed values; the timeout of the WebSocket is part of its answer.

    Theorems: what is observed is bound to the step it confirms, and WebSocket evidence
    is used only when it is complete; the whole is a registration and one observation
    per confirmed step, and it succeeds exactly when every step was confirmed and every
    observation accepted. *)
From S2P Require Import Prelude Amount Quote Registry Arbitrage Allocation Inventory Execution Saga.
Local Open Scope Z_scope.

Record ConfirmationSource := mkConfirmationSource { cs_Warm : option error; cs_Await : OperationStep -> res Settlement }.

(** [None] is a nil source or manager. *)
Record ConfirmerConfig := mkConfirmerConfig {
  cfc_WebSockets : gmap AccountID (option ConfirmationSource); cfc_Managers : gmap AccountID (option (OperationStep -> res Settlement));
  cfc_FallbackAfter : Z }.

Definition source_of (config : ConfirmerConfig) (account : AccountID) : option ConfirmationSource := mjoin (cfc_WebSockets config !! account).
Definition manager_of (config : ConfirmerConfig) (account : AccountID) : option (OperationStep -> res Settlement) := mjoin (cfc_Managers config !! account).

Definition unbound (config : ConfirmerConfig) (entry : AccountID * option ConfirmationSource) : bool :=
  bool_decide (entry.1 = "") || bool_decide (is_Some entry.2 -> False) || match manager_of config entry.1 with None => true | Some _ => false end.

(** [given]: the settlement coordinator is not nil. *)
Definition NewConfirmer (given : bool) (config : ConfirmerConfig) : res ConfirmerConfig :=
  if decide (given = false \/ (size (cfc_WebSockets config) < 2)%nat \/ (size (cfc_Managers config) < 2)%nat \/ cfc_FallbackAfter config <= 0)
  then Err (Errorf "confirmer requires settlement, WebSockets, managers, and fallback timeout") else
  if existsb (unbound config) (map_to_list (cfc_WebSockets config)) then Err (Errorf "confirmer account binding is incomplete") else Ok config.

Definition same_transaction (i j : TransactionIdentity) : Prop :=
  ti_Hash i = ti_Hash j /\ ti_Chain i = ti_Chain j /\ ti_Account i = ti_Account j.
#[export] Instance same_transaction_dec i j : Decision (same_transaction i j) := ltac:(unfold same_transaction; apply _).

Definition websocketSettlementComplete (step : OperationStep) (s : Settlement) : bool :=
  if decide (~ same_transaction (se_Identity s) (step_Identity step) \/ Time_IsZero (se_ObservedAt s)) then false else
  if decide (se_Technical s = StateConfirmedSuccess) then
    bool_decide (se_Economic s = EconomicEffectVerified /\ amount_token (se_ActualIn s) = amount_token (leg_Input (step_Leg step)) /\
      amount_token (se_ActualOut s) = amount_token (leg_ExpectedOutput (step_Leg step)))
  else bool_decide (se_Technical s = StateConfirmedRevert).

Definition awaitOrReconcile (config : ConfirmerConfig) (step : OperationStep) : res Settlement :=
  match source_of config (leg_Account (step_Leg step)), manager_of config (leg_Account (step_Leg step)) with
  | Some source, Some reconcile =>
      match cs_Await source step with
      | Panic why => Panic why
      | Ok settlement => if websocketSettlementComplete step settlement then Ok settlement else reconcile step
      | Err _ => reconcile step
      end
  | _, _ => Err (Errorf "confirmation binding for account %q is missing")
  end.


(** ** Confirming *)

(** The step a goroutine awaits: a copy that names its operation. *)
Definition awaited (operation : Operation) (step : OperationStep) : OperationStep :=
  mkOperationStep (o_ID operation) (step_Leg step) (step_Identity step) (step_Allocation step) (step_Technical step) (step_Economic step).

Definition attributed (operation : Operation) (step : OperationStep) (s : Settlement) : Settlement :=
  mkSettlement (o_ID operation) (leg_ID (step_Leg step))
    (if decide (ti_Hash (se_Identity s) = "") then step_Identity step else se_Identity s)
    (se_Technical s) (se_Economic s) (se_ActualIn s) (se_ActualOut s) (se_Costs s) (se_ObservedAt s) (se_Evidence s).

Definition confirmed (config : ConfirmerConfig) (operation : Operation) (step : OperationStep) : res Settlement :=
  settlement ← awaitOrReconcile config (awaited operation step);
  let settlement := attributed operation step settlement in
  if decide (~ same_transaction (se_Identity settlement) (step_Identity step))
  then Err (Errorf "confirmation identity does not match durable operation step %q") else Ok settlement.

Section confirmer.
Context {St : Type} {store : OperationalStore St} {managers : TxManagers} {order : RangeOrder Key}.

(** The sources are warmed together; every one of them answers. *)
Definition Confirmer_Warm (config : ConfirmerConfig) : option error :=
  errors_Join (cs_Warm <$> spawn _ (omap (fun entry : AccountID * option ConfirmationSource => entry.2) (map_to_list (cfc_WebSockets config)))).

Definition confirm_step (config : ConfirmerConfig) (operation : Operation) (errs : list error) (step : OperationStep) :
    ST (World St) (list error) :=
  on_result (settlement ← lift (confirmed config operation step); Observe settlement)
    (fun _ => mret errs) (fun e => mret (errs ++ [e])).

Definition Confirm (config : ConfirmerConfig) (operation : Operation) : ST (World St) unit :=
  _ ← Register operation;
  errs ← foldST (confirm_step config operation) [] (spawn _ (o_Steps operation));
  match errors_Join (Some <$> errs) with None => mret tt | Some joined => lift (Err joined) end.

(** ** What is observed *)

(** [s] says of [step] what its sources say: a WebSocket's evidence of the very
    transaction, complete, or else what the manager reconciled; and it names the
    operation, the leg and the transaction the operation recorded. *)
Record confirms (config : ConfirmerConfig) (operation : Operation) (step : OperationStep) (s : Settlement) : Prop := {
  c_operation : se_Operation s = o_ID operation;
  c_step : se_Step s = leg_ID (step_Leg step);
  c_identity : same_transaction (se_Identity s) (step_Identity step);
  c_evidence : exists source reconcile evidence,
    source_of config (leg_Account (step_Leg step)) = Some source /\ manager_of config (leg_Account (step_Leg step)) = Some reconcile /\
    s = attributed operation step evidence /\
    (cs_Await source (awaited operation step) = Ok evidence /\ websocketSettlementComplete (awaited operation step) evidence = true \/
     reconcile (awaited operation step) = Ok evidence /\
     (forall early, cs_Await source (awaited operation step) = Ok early -> websocketSettlementComplete (awaited operation step) early = false)) }.

Lemma confirmed_confirms config operation step s :
  confirmed config operation step = Ok s -> confirms config operation step s.
Proof.
  clear. unfold confirmed, mbind, res_bind. destruct (awaitOrReconcile config (awaited operation step)) as [evidence|e|why] eqn:Ha; [|done..].
  destruct (decide (~ _)) as [|Hid%dec_stable]; [done|]. intros [= <-]. split; [done..|].
  unfold awaitOrReconcile in Ha. cbn [awaited step_Leg] in Ha.
  destruct (source_of config _) as [source|] eqn:Hs; [|done]. destruct (manager_of config _) as [reconcile|] eqn:Hm; [|done].
  exists source, reconcile, evidence. split; [done|]. split; [done|]. split; [done|].
  destruct (cs_Await source (awaited operation step)) as [early|e|why] eqn:He; [|right; split; [done|intros ? [=]]|done].
  destruct (websocketSettlementComplete (awaited operation step) early) eqn:Hc.
  - injection Ha as ->. left. done.
  - right. split; [done|]. intros early' [= <-]. exact Hc.
Qed.

Lemma confirm_step_Ok config operation errs step (w w' : World St) errs' :
  confirm_step config operation errs step w = (Ok errs', w') ->
  (errs' = errs /\ exists s, confirmed config operation step = Ok s /\ Observe s w = (Ok tt, w')) \/ (exists e, errs' = errs ++ [e]).
Proof.
  clear. unfold confirm_step, on_result, lift, mbind, st_bind. destruct (confirmed config operation step) as [s|e|why] eqn:Hc; [| |done].
  - destruct (Observe s w) as [[[]|e|why] w1] eqn:Ho; intros [= <- <-]; [left|right]; eauto.
  - intros [= <- <-]. right. eauto.
Qed.

(** The collected errors only grow, so an empty list means that nothing went wrong. *)
Lemma confirm_steps_Ok config operation steps errs (w w' : World St) :
  foldST (confirm_step config operation) errs steps w = (Ok [], w') <->
  errs = [] /\ exists settlements, Forall2 (fun step s => confirmed config operation step = Ok s) steps settlements /\
    for_each Observe settlements w = (Ok tt, w').
Proof.
  clear. revert errs w. induction steps as [|step steps IH]; intros errs w; cbn [foldST].
  - split.
    + intros [= -> ->]. split; [done|]. exists []. done.
    + intros (-> & settlements & ->%Forall2_nil_inv_l & H). injection H as <-. done.
  - split.
    + destruct (confirm_step config operation errs step w) as [[errs'|e|why] w1] eqn:H1; [|done..].
      intros (-> & settlements & HF & HO)%IH.
      apply confirm_step_Ok in H1 as [(<- & s & Hc & Hs)|(e & He)]; [|by destruct errs].
      split; [done|]. exists (s :: settlements). split; [by constructor|]. cbn [for_each]. by rewrite Hs.
    + intros (-> & settlements & HF & HO). apply Forall2_cons_inv_l in HF as (s & rest & Hc & HF & ->).
      cbn [for_each] in HO. destruct (Observe s w) as [[[]|e|why] w1] eqn:Ho; [|done..].
      assert (confirm_step config operation [] step w = (Ok [], w1)) as ->; [|apply IH; eauto].
      unfold confirm_step, on_result, lift, mbind, st_bind. rewrite Hc. by rewrite Ho.
Qed.

(** C17.An operation is confirmed, without an error, exactly when it can be registered and
    every one of its steps, in the order the goroutines reach the coordinator, has a
    settlement the coordinator accepts; and each settlement observed is bound to the
    operation, the leg and the recorded transaction, and is either the complete evidence
    of the account's WebSocket or, only when there is none, what its manager reconciled. *)
Theorem Confirm_observes_bound_evidence config operation (w w' : World St) :
  Confirm config operation w = (Ok tt, w') <->
  exists w1 settlements, Register operation w = (Ok tt, w1) /\
    Forall2 (fun step s => confirmed config operation step = Ok s /\ confirms config operation step s) (spawn _ (o_Steps operation)) settlements /\
    for_each Observe settlements w1 = (Ok tt, w').
Proof.
  unfold Confirm. rewrite st_bind_Ok. split.
  - intros ([] & w1 & HR & (errs & w2 & Hf & Hj)%st_bind_Ok). destruct errs as [|e errs]; [|done].
    injection Hj as <-. apply confirm_steps_Ok in Hf as (_ & settlements & HF & HO). exists w1, settlements. split; [done|]. split; [|done].
    apply (Forall2_impl _ _ _ _ HF). intros step s Hc. split; [done|]. by apply confirmed_confirms.
  - intros (w1 & settlements & HR & HF & HO). exists tt, w1. split; [done|]. apply st_bind_Ok. exists [], w'. split; [|done].
    apply confirm_steps_Ok. split; [done|]. exists settlements. split; [|done]. apply (Forall2_impl _ _ _ _ HF). by intros ?? [].
Qed.

(** [Warm] fails exactly when a source fails to warm up. *)
Lemma Confirmer_Warm_None config :
  Confirmer_Warm config = None <->
  forall account source, cfc_WebSockets config !! account = Some (Some source) -> cs_Warm source = None.
Proof.
  clear. unfold Confirmer_Warm, errors_Join.
  set (sources := omap (fun entry : AccountID * option ConfirmationSource => entry.2) (map_to_list (cfc_WebSockets config))).
  transitivity (forall source, source ∈ sources -> cs_Warm source = None).
  - transitivity (forall source, source ∈ spawn _ sources -> cs_Warm source = None);
      [|split; intros H s Hs; apply H; [rewrite spawn_perm|rewrite spawn_perm in Hs]; done].
    induction (spawn _ sources) as [|s l IH]; [split; [intros _ s Hs; by apply not_elem_of_nil in Hs|done]|].
    cbn. destruct (cs_Warm s) eqn:Hs.
    + split; [done|]. intros H. specialize (H s (list_elem_of_here _ _)). congruence.
    + destruct (omap id (cs_Warm <$> l)) eqn:Ho; split.
      * intros _ s' [->|Hin]%elem_of_cons; [done|]. by apply IH.
      * done.
      * done.
      * intros H. exfalso.
        assert (Hl : forall source, source ∈ l -> cs_Warm source = None) by (intros s' Hs'; apply H; by right).
        apply IH in Hl. done.
  - unfold sources. split.
    + intros H account source Hl. apply H. apply list_elem_of_omap. exists (account, Some source). split; [by apply elem_of_map_to_list|done].
    + intros H source ((account & entry) & Hin & He)%list_elem_of_omap. cbn in He. subst entry. apply elem_of_map_to_list in Hin. by eapply H.
Qed.
End confirmer.

Module ConfirmerExample.
#[local] Existing Instance SagaWitness.listed.
#[local] Existing Instance SagaWitness.memory.
#[local] Existing Instance SagaWitness.wallets.

(** The WebSocket of the account sees the purchase but
    only a pending sale; the manager reconciles that one. *)
Definition source : ConfirmationSource := mkConfirmationSource None (fun step =>
  if decide (leg_ID (step_Leg step) = "b")
  then Ok (SagaWitness.settlement "b" (SagaWitness.amount "usdc" 3000) (SagaWitness.amount "eth" 10))
  else Ok (mkSettlement "" "" (step_Identity step) StateOutcomeUnknown EconomicReserved TokenAmount_zero TokenAmount_zero [] 20 "")).
Definition reconcile (step : OperationStep) : res Settlement :=
  Ok (mkSettlement "" "" (mkTransactionIdentity "" "" "" None "" 0) StateConfirmedSuccess EconomicEffectVerified (leg_Input (step_Leg step))
    (leg_ExpectedOutput (step_Leg step)) [] 21 "rpc").
Definition config : ConfirmerConfig := mkConfirmerConfig {["acc" := Some source]} {["acc" := Some reconcile]} 5.
Definition confirmed_world := Confirm config SagaWitness.committed SagaWitness.executed.

Example confirmed_operation :
  confirmed_world.1 = Ok tt /\ w_gate confirmed_world.2 = "" /\ w_store confirmed_world.2 = [] /\
  balances (w_inventory confirmed_world.2) !! SagaWitness.usdc = Some 5050.
Proof. split_and!; vm_compute; reflexivity. Qed.
End ConfirmerExample.
