(* ===== verification/Pools.v ===== *)
(** * What liquidity pools share
    (src/ports/quote/quote.go, integer helpers of the pool adapters)

    The inputs of a quote source, the contract every source keeps, and the
    integer divisions of the pool formulas, rounded down and up. *)
From S2P Require Import Prelude Amount Quote Registry.
Local Open Scope Z_scope.

(** ** The quote port *)

Record QuoteInput (D : Type) := mkQuoteInput {
  in_Snapshot : MarketSnapshot D; in_TokenIn : TokenID; in_TokenOut : TokenID;
  in_AmountIn : TokenAmount; in_Purpose : string; in_QuotedAt : Time }.
Arguments mkQuoteInput {D}. Arguments in_Snapshot {D}. Arguments in_TokenIn {D}.
Arguments in_TokenOut {D}. Arguments in_AmountIn {D}. Arguments in_Purpose {D}.
Arguments in_QuotedAt {D}.

Record ExactOutputInput (D : Type) := mkExactOutputInput {
  out_Snapshot : MarketSnapshot D; out_TokenIn : TokenID; out_TokenOut : TokenID;
  out_AmountOut : TokenAmount; out_Purpose : string; out_QuotedAt : Time }.
Arguments mkExactOutputInput {D}. Arguments out_Snapshot {D}. Arguments out_TokenIn {D}.
Arguments out_TokenOut {D}. Arguments out_AmountOut {D}. Arguments out_Purpose {D}.
Arguments out_QuotedAt {D}.

(** The contract of a source for exact input: it never panics on a well-formed
    request, and a quote it returns spends the input it was given and offers a
    positive amount of the token asked for, from the snapshot it was given. *)
Definition answers_request {D} (input : QuoteInput D) (quote : Quote) : Prop :=
  q_AmountIn quote = in_AmountIn input /\ amount_token (q_AmountOut quote) = in_TokenOut input /\
  0 < Units (q_AmountOut quote) /\ q_SnapshotVersion quote = md_Version (snap_metadata (in_Snapshot input)) /\
  q_Market quote = md_Market (snap_metadata (in_Snapshot input)).

Class SoundSource (D : Type) (source : QuoteInput D -> res Quote) (wf : QuoteInput D -> Prop) : Prop := {
  source_answers : forall input quote, source input = Ok quote -> answers_request input quote;
  source_no_panic : forall input, wf input -> no_panic (source input) }.

(** The end of a pool quote: the fee stays in the amounts and is reported. *)
Definition pool_quote (id : SourceID) (marketID : MarketID) (metadata : SnapshotMetadata)
    (purpose mode : string) (quotedAt : Time) (tokenIn : TokenID) (amountIn amountOut : TokenAmount)
    (feeUnits : Z) : res Quote :=
  fee ← NewTokenAmount tokenIn (Some feeUnits);
  feeComponent ← NewQuoteFee "liquidity_provider" QuoteFeeCost fee true;
  NewQuote (mkQuote id marketID (md_Version metadata) (md_StateHash metadata) (mkSourcePosition "" 0) ""
    purpose mode "" amountIn amountOut quotedAt []) [feeComponent].

(** The conditions under which it succeeds, and what it returns. *)
Definition quotable (id : SourceID) (marketID : MarketID) (metadata : SnapshotMetadata) (purpose : string)
    (quotedAt : Time) : Prop :=
  id <> "" /\ marketID <> "" /\ md_Version metadata <> 0 /\ purpose <> "" /\ quotedAt <> 0.

Lemma pool_quote_iff id marketID metadata purpose mode quotedAt tokenIn amountIn amountOut feeUnits q :
  mode = QuoteModeExactInput \/ mode = QuoteModeExactOutput ->
  pool_quote id marketID metadata purpose mode quotedAt tokenIn amountIn amountOut feeUnits = Ok q <->
  quotable id marketID metadata purpose quotedAt /\ tokenIn <> "" /\ 0 <= feeUnits /\
  amount_token amountIn <> "" /\ amount_token amountOut <> "" /\
  q = mkQuote id marketID (md_Version metadata) (md_StateHash metadata) (mkSourcePosition "" 0) ""
        purpose mode QuoteQualityExact amountIn amountOut quotedAt
        [mkQuoteFee "liquidity_provider" QuoteFeeCost (mkTokenAmount tokenIn (Some feeUnits)) true].
Proof.
  intros Hmode. unfold pool_quote, quotable. split.
  - intros H. apply bind_Ok in H as (fee & Hfee & H). apply bind_Ok in H as (fc & Hfc & H).
    apply NewTokenAmount_inv in Hfee as (Hwf & Ht & Hu). destruct fee as [t u]. cbn in Ht, Hu. subst t u.
    unfold NewQuoteFee in Hfc. destruct (decide _) in Hfc; [done|]. rewrite decide_False in Hfc by (cbn; tauto).
    injection Hfc as <-. unfold NewQuote, Time_IsZero in H. cbn in H. res_inv. subst q.
    split_and!; try tauto. by destruct Hwf as (_ & u & [= <-] & ?).
  - intros ((Hid & Hm & Hv & Hp & Hq) & Hin & Hfee & Hai & Hao & ->).
    rewrite NewTokenAmount_Ok by done. cbn [mbind res_bind]. unfold NewQuoteFee.
    unfold NewQuote, Time_IsZero, quote_fee_invalid. cbn -[decide].
    repeat (case_decide; cbn -[decide]); try done; exfalso; intuition congruence.
Qed.

Lemma pool_quote_no_panic id marketID metadata purpose mode quotedAt tokenIn amountIn amountOut feeUnits :
  no_panic (pool_quote id marketID metadata purpose mode quotedAt tokenIn amountIn amountOut feeUnits).
Proof.
  unfold pool_quote, NewQuoteFee, NewQuote, SourcePosition_Validate.
  apply no_panic_bind; [apply NewTokenAmount_no_panic|intros ? _]. no_panic_auto.
Qed.
#[export] Hint Resolve pool_quote_no_panic : no_panic.

(** ** Pointers and machine integers *)

(** A [*big.Int] that may be nil is an [option Z]; its methods panic on nil, and it is
    printed as [fmt] does. *)
Definition deref (v : option Z) : res Z :=
  match v with Some x => Ok x | None => Panic "nil pointer dereference" end.

Definition pretty_int (v : option Z) : string := match v with Some x => pretty x | None => "<nil>" end.

(** [int32] arithmetic wraps around. *)
Definition int32 (x : Z) : Z := (x + 2 ^ 31) mod 2 ^ 32 - 2 ^ 31.

Lemma int32_id x : - 2 ^ 31 <= x < 2 ^ 31 -> int32 x = x.
Proof. intros Hx. unfold int32. rewrite Z.mod_small by lia. lia. Qed.

(** ** Rounded division *)

(** [big.Int.Quo] panics on a zero divisor; the callers divide by positive
    numbers, which their lemmas show. *)
Definition mulDiv (a b denominator : Z) : Z := Z.quot (a * b) denominator.

Definition divRoundingUp (numerator denominator : Z) : Z :=
  let quotient := Z.quot numerator denominator in
  if decide (Z.sgn (Z.rem numerator denominator) <> 0) then quotient + 1 else quotient.

Definition mulDivRoundingUp (a b denominator : Z) : Z := divRoundingUp (a * b) denominator.

Lemma divRoundingUp_bounds n d :
  0 <= n -> 0 < d -> n <= divRoundingUp n d * d < n + d.
Proof.
  intros Hn Hd. unfold divRoundingUp. cbv zeta. rewrite Z.quot_div_nonneg, Z.rem_mod_nonneg by lia.
  pose proof (Z.div_mod n d ltac:(lia)) as Heq. pose proof (Z.mod_pos_bound n d Hd) as Hb.
  case_decide as Hs.
  - assert (n mod d <> 0) by (intros H0; by rewrite H0 in Hs). nia.
  - apply Z.sgn_null_iff in Hs. nia.
Qed.

Lemma divRoundingUp_nonneg n d : 0 <= n -> 0 < d -> 0 <= divRoundingUp n d.
Proof. intros Hn Hd. pose proof (divRoundingUp_bounds n d Hn Hd). nia. Qed.

(** It is the least integer whose product covers the numerator. *)
Lemma divRoundingUp_le n d k : 0 <= n -> 0 < d -> divRoundingUp n d <= k <-> n <= k * d.
Proof. intros Hn Hd. pose proof (divRoundingUp_bounds n d Hn Hd). split; nia. Qed.

Lemma divRoundingUp_mono n m d : 0 <= n <= m -> 0 < d -> divRoundingUp n d <= divRoundingUp m d.
Proof.
  intros Hn Hd. apply divRoundingUp_le; [lia..|]. pose proof (divRoundingUp_bounds m d ltac:(lia) Hd). lia.
Qed.

Lemma mulDiv_bounds a b d : 0 <= a -> 0 <= b -> 0 < d -> mulDiv a b d * d <= a * b < (mulDiv a b d + 1) * d.
Proof. intros. unfold mulDiv. pose proof (Zquot_bounds (a * b) d ltac:(nia) ltac:(lia)). lia. Qed.

Lemma mulDiv_nonneg a b d : 0 <= a -> 0 <= b -> 0 < d -> 0 <= mulDiv a b d.
Proof. intros. apply Zquot_nonneg; nia. Qed.

Lemma mulDiv_le a b d k : 0 <= a -> 0 <= b -> 0 < d -> k <= mulDiv a b d <-> k * d <= a * b.
Proof. intros Ha Hb Hd. pose proof (mulDiv_bounds a b d Ha Hb Hd). split; nia. Qed.

Lemma mulDivRoundingUp_bounds a b d :
  0 <= a -> 0 <= b -> 0 < d -> a * b <= mulDivRoundingUp a b d * d < a * b + d.
Proof. intros. apply divRoundingUp_bounds; nia. Qed.
