(* ===== verification/EvmTxManager.v ===== *)
(** * The EVM transaction manager (src/adapters/chain/evm/txmanager.go)

    One manager signs and broadcasts for one account.  It hands out nonces and fees it
    keeps in memory, sends a signed transaction to all endpoints at once, and finds
    out afterwards what became of it.

    The endpoints answer arbitrarily: what they answer is an argument of each call, for
    a fan-out the list of the answers in the order they arrive.  A locked section is one
    atomic call on the [Coordinator].  go-ethereum is the class [Geth]: its addresses are
    integers, its signed transactions strings, and [Error] and [Timeout] are what the
    code asks of an error beside [errors.Is].  The background refresh of the fees is the
    call [refresh_fees]; latencies are measured only and left out.

    Theorems: a nonce is never handed out again once an endpoint took a transaction with
    it, knew it, or did not answer in time, the verdict on a broadcast does not depend on the order of the answers, and a
    reconciliation only reports what a receipt or the absence of all receipts shows. *)
From S2P Require Import Prelude Bytes Amount Quote Registry Arbitrage Allocation Inventory Execution Saga Pools.
From S2P Require Windows.
Local Open Scope Z_scope.

(** ** go-ethereum *)

Record DynamicFeeTx := mkDynamicFeeTx {
  tx_ChainID : Z; tx_Nonce : Z; tx_GasTipCap : Z; tx_GasFeeCap : Z; tx_Gas : Z; tx_To : option Z; tx_Value : Z; tx_Data : string;
  tx_AccessList : string }.

Record CallMsg := mkCallMsg {
  cm_From : Z; cm_To : option Z; cm_Gas : Z; cm_GasFeeCap : Z; cm_GasTipCap : Z; cm_Value : Z; cm_Data : string; cm_AccessList : string }.

(** An event; topics are 256-bit integers. *)
Record Log := mkLog { log_Address : Z; log_Topics : list Z; log_Data : list Z }.

Record Receipt := mkReceipt {
  rc_Status : Z; rc_GasUsed : Z; rc_EffectiveGasPrice : option Z; rc_Logs : list (option Log) }.

Definition ReceiptStatusSuccessful : Z := 1.

Definition DeadlineExceeded : string := "context.DeadlineExceeded".
Definition Canceled : string := "context.Canceled".
Definition NotFound : string := "ethereum.NotFound".

Class Geth := {
  IsHexAddress : string -> bool; HexToAddress : string -> Z; IsHexHash : string -> bool;
  SignTx : DynamicFeeTx -> res (string * string);  (* the signed bytes and the hash *)
  UnmarshalBinary : string -> res DynamicFeeTx;
  Error : error -> string; Timeout : error -> bool }.

(** ** Text *)

(** [strings.ToLower] on ASCII. *)
Definition lower (c : Ascii.ascii) : Ascii.ascii :=
  let n := Ascii.N_of_ascii c in if decide (65 <= n <= 90)%N then Ascii.ascii_of_N (n + 32) else c.
Fixpoint ToLower (s : string) : string :=
  match s with EmptyString => EmptyString | String c s => String (lower c) (ToLower s) end.

(** [strings.TrimSpace] on the ASCII spaces. *)
Fixpoint trim_left (s : string) : string :=
  match s with EmptyString => EmptyString | String c rest => if is_space c then trim_left rest else s end.
Fixpoint trim_right (s : string) : string :=
  match s with EmptyString => EmptyString | String c rest => if blank s then EmptyString else String c (trim_right rest) end.
Definition TrimSpace (s : string) : string := trim_right (trim_left s).

(** [strconv.ParseUint(s, 10, 64)] *)
Definition ParseUint (s : string) : option Z :=
  if decide (s = "") then None else
  match parse_digits 0 s with Some n => if decide (n < 2 ^ 64) then Some n else None | None => None end.

(** ** Errors of endpoints *)

Definition classes : list (string * string) := [
  ("nonce too low", "nonce_too_low"); ("insufficient funds", "insufficient_funds"); ("underpriced", "underpriced");
  ("rate limit", "rate_limited"); ("too many requests", "rate_limited"); ("status 429", "rate_limited");
  ("unauthorized", "unauthorized"); ("status 401", "unauthorized"); ("forbidden", "forbidden"); ("status 403", "forbidden");
  ("method not found", "method_unavailable"); ("invalid request", "invalid_request"); ("unknown transaction", "unknown_transaction")].

(** ** Configuration *)

(** The clients that are not nil are [true]. *)
Record TxManagerConfig := mkTxManagerConfig {
  cf_Chain : ChainID; cf_Account : AccountID; cf_ChainID : option Z; cf_PrivateKey : bool; cf_Primary : bool; cf_Clock : bool;
  cf_Fanout : gmap string bool; cf_DefaultGasLimit : Z; cf_FeeRefreshInterval : Z; cf_FanoutRequestTimeout : Z }.

Record TxManager := mkTxManager {
  tm_chain : ChainID; tm_account : AccountID; tm_chainID : Z; tm_fanout : gset string; tm_gasLimit : Z; tm_feeRefreshInterval : Z;
  tm_fanoutRequestTimeout : Z }.

Definition second : Z := 10 ^ 9.

Definition invalid_endpoint (entry : string * bool) : bool := blank entry.1 || negb entry.2.

Definition NewTxManager (config : TxManagerConfig) : res TxManager :=
  match cf_ChainID config with
  | Some chainID =>
      if decide (cf_Chain config = "" \/ cf_Account config = "" \/ Z.sgn chainID <= 0 \/ cf_PrivateKey config = false \/
                 cf_Primary config = false \/ cf_Fanout config = ∅ \/ cf_Clock config = false)
      then Err (Errorf "EVM TxManager requires chain, account, signer, primary client, fanout, and clock") else
      if existsb invalid_endpoint (map_to_list (cf_Fanout config)) then Err (Errorf "EVM TxManager fanout contains an invalid endpoint") else
      let gasLimit := if decide (cf_DefaultGasLimit config = 0) then 1500000 else cf_DefaultGasLimit config in
      let interval := if decide (cf_FeeRefreshInterval config = 0) then 5 * second else cf_FeeRefreshInterval config in
      if decide (interval < second) then Err (Errorf "EVM fee refresh interval must be at least one second") else
      let timeout := if decide (cf_FanoutRequestTimeout config = 0) then second else cf_FanoutRequestTimeout config in
      if decide (timeout < 100 * 10 ^ 6) then Err (Errorf "EVM fanout request timeout must be at least 100ms") else
      Ok (mkTxManager (cf_Chain config) (cf_Account config) chainID (dom (cf_Fanout config)) gasLimit interval timeout)
  | None => Err (Errorf "EVM TxManager requires chain, account, signer, primary client, fanout, and clock")
  end.

(** ** The nonce and the fees *)

(** The fields under the lock. *)
Record Coordinator := mkCoordinator {
  co_warmed : bool; co_nonce : Z; co_baseFee : option Z; co_tipCap : option Z; co_feeCap : option Z; co_feesAt : Time }.

Definition cold : Coordinator := mkCoordinator false 0 None None None 0.

Definition set_nonce (nonce : Z) (c : Coordinator) : Coordinator :=
  mkCoordinator (co_warmed c) nonce (co_baseFee c) (co_tipCap c) (co_feeCap c) (co_feesAt c).

Definition NextNonce : ST Coordinator Z := fun c =>
  if negb (co_warmed c) then (Err (Errorf "EVM nonce coordinator is not warmed"), c) else (Ok (co_nonce c), c).

Definition MarkNonceUsed (nonce : Z) : ST Coordinator unit := fun c =>
  if decide (co_warmed c = false \/ nonce < co_nonce c) then (Ok tt, c) else (Ok tt, set_nonce (uint64 (nonce + 1)) c).

(** [pending] is the answer of the endpoint. *)
Definition ResyncNonce (pending : res Z) (rejectedNonce : Z) : ST Coordinator Z :=
  pending ← lift (wrap "refresh EVM pending nonce: %w" pending);
  if decide (pending <= rejectedNonce)
  then fail "refreshed EVM pending nonce %d has not advanced beyond rejected nonce %d" else
  fun c =>
    if negb (co_warmed c) then (Err (Errorf "EVM nonce coordinator is not warmed"), c) else
    let c := if decide (co_nonce c < pending) then set_nonce pending c else c in
    (Ok (co_nonce c), c).

(** The suggested tip, and the latest header with its base fee; nil pointers are [None]. *)
Definition readFees (tip : res (option Z)) (header : res (option (option Z))) : res (Z * Z * Z) :=
  tip ← wrap "preload EVM priority fee: %w" tip;
  match tip with
  | Some tip =>
      if decide (Z.sgn tip <= 0) then Err (Errorf "preload EVM priority fee: endpoint returned a non-positive fee") else
      header ← wrap "preload EVM base fee: %w" header;
      match header with
      | Some (Some baseFee) =>
          if decide (Z.sgn baseFee < 0) then Err (Errorf "preload EVM base fee: endpoint returned no EIP-1559 base fee")
          else Ok (baseFee, tip, baseFee * 2 + tip)
      | _ => Err (Errorf "preload EVM base fee: endpoint returned no EIP-1559 base fee")
      end
  | None => Err (Errorf "preload EVM priority fee: endpoint returned a non-positive fee")
  end.

(** One endpoint of the fan-out. *)
Definition check_chain (chainID : Z) (_ : unit) (candidate : string * res (option Z)) : res unit :=
  match candidate.2 with
  | Panic why => Panic why
  | Err _ => Err (Errorf "validate EVM fanout endpoint %q chain ID: unavailable")
  | Ok None => Err (Errorf "validate EVM fanout endpoint %q chain ID: mismatch")
  | Ok (Some id) => if decide (id <> chainID) then Err (Errorf "validate EVM fanout endpoint %q chain ID: mismatch") else Ok tt
  end.

(** [fanout] holds the answers in the order the map is ranged over. *)
Definition Warm (m : TxManager) (primary : res (option Z)) (fanout : list (string * res (option Z))) (pending : res Z)
    (tip : res (option Z)) (header : res (option (option Z))) (now : Time) : ST Coordinator unit :=
  chainID ← lift (wrap "validate EVM TxManager chain ID: %w" primary);
  if decide (chainID <> Some (tm_chainID m)) then fail "validate EVM TxManager chain ID: configured chain does not match endpoint" else
  _ ← lift (foldM (check_chain (tm_chainID m)) tt fanout);
  nonce ← lift (wrap "preload EVM nonce: %w" pending);
  '(baseFee, tip, feeCap) ← lift (readFees tip header);
  put (mkCoordinator true nonce (Some baseFee) (Some tip) (Some feeCap) now).

(** A tick of the background refresh. *)
Definition refresh_fees (tip : res (option Z)) (header : res (option (option Z))) (now : Time) : ST Coordinator unit := fun c =>
  match readFees tip header with
  | Ok (baseFee, tip, feeCap) => (Ok tt, mkCoordinator (co_warmed c) (co_nonce c) (Some baseFee) (Some tip) (Some feeCap) now)
  | Err _ => (Ok tt, c)
  | Panic why => (Panic why, c)
  end.

Record FeeSnapshot := mkFeeSnapshot { fs_BaseFee : Z; fs_TipCap : Z; fs_FeeCap : Z; fs_CapturedAt : Time }.

Definition FeeSnapshot_of (c : Coordinator) : option FeeSnapshot :=
  match co_baseFee c, co_tipCap c, co_feeCap c with
  | Some baseFee, Some tipCap, Some feeCap =>
      if decide (co_warmed c = false \/ Time_IsZero (co_feesAt c)) then None
      else Some (mkFeeSnapshot baseFee tipCap feeCap (co_feesAt c))
  | _, _, _ => None
  end.

(** The fields of an artifact that the manager reads. *)
Record EvmArtifact := mkEvmArtifact { ea_Leg : Leg; ea_Payload : string; ea_Metadata : gmap string string }.
Definition metadata (artifact : EvmArtifact) (key : string) : string := TrimSpace (default "" (ea_Metadata artifact !! key)).

Definition EstimateArtifactNetworkCost (artifact : EvmArtifact) (c : Coordinator) : res (Z * Time) :=
  match ParseUint (metadata artifact "expected_gas_used") with
  | Some gas =>
      if decide (gas = 0) then Err (Errorf "EVM artifact has no expected gas usage evidence") else
      match FeeSnapshot_of c with
      | None => Err (Errorf "EVM fee cache is unavailable")
      | Some fees => Ok (gas * (fs_BaseFee fees + fs_TipCap fees), fs_CapturedAt fees)
      end
  | None => Err (Errorf "EVM artifact has no expected gas usage evidence")
  end.

Definition ConfirmedGasUsed (identity : string) (receipt : res (option Receipt)) : res Z :=
  if decide (String.length identity <> 66%nat \/ String.prefix "0x" identity = false) then Err (Errorf "EVM transaction identity is invalid") else
  receipt ← receipt;
  match receipt with
  | Some r =>
      if decide (rc_Status r <> ReceiptStatusSuccessful \/ rc_GasUsed r = 0)
      then Err (Errorf "EVM calibration receipt is not a successful transaction") else Ok (rc_GasUsed r)
  | None => Err (Errorf "EVM calibration receipt is not a successful transaction")
  end.

(** ** Signing and simulation *)

Definition no_identity : TransactionIdentity := mkTransactionIdentity "" "" "" None "" 0.
Definition no_leg : Leg := mkLeg "" "" "" "" "" (mkTokenAmount "" None) (mkTokenAmount "" None).
Definition no_broadcast : BroadcastResult := mkBroadcastResult no_identity "" false "" 0 0.

Record EconomicSimulationRequest := mkEconomicSimulationRequest { es_Prepared : PreparedTransaction; es_BalanceVersion : Z }.
Record EconomicSimulationResult := mkEconomicSimulationResult {
  er_Input : TokenAmount; er_Output : TokenAmount; er_UnitsConsumed : Z; er_ContextVersion : Z; er_Evidence : string }.

(** [&EconomicOutputError{Err: err}] *)
Definition EconomicOutputError (err : error) : error := Wrapf "EconomicOutputError" err.

(** [&AllFanoutNonceTooLowError{Nonce: nonce, Attempts: attempts, Err: err}] *)
Definition AllFanoutNonceTooLowError (err : error) : error := Wrapf "all %d EVM fanout endpoints rejected nonce %d as too low" err.

Section manager.
Context {geth : Geth} (m : TxManager) (address : Z).

Definition artifact_value (artifact : EvmArtifact) : res Z :=
  let text := metadata artifact "value" in
  if decide (text = "") then Ok 0 else
  match SetString10 text with
  | Some value => if decide (Z.sgn value < 0) then Err (Errorf "EVM artifact value is invalid") else Ok value
  | None => Err (Errorf "EVM artifact value is invalid")
  end.

Definition artifact_gas (artifact : EvmArtifact) : res Z :=
  let text := metadata artifact "gas_limit" in
  if decide (text = "") then Ok (tm_gasLimit m) else
  match ParseUint text with
  | Some parsed => if decide (parsed = 0) then Err (Errorf "EVM artifact gas limit is invalid") else Ok parsed
  | None => Err (Errorf "EVM artifact gas limit is invalid")
  end.

Definition Prepare (artifact : EvmArtifact) (now : Time) : ST Coordinator PreparedTransaction :=
  if decide (leg_Account (ea_Leg artifact) <> tm_account m \/ leg_Chain (ea_Leg artifact) <> tm_chain m)
  then fail "EVM artifact targets another TxManager" else
  let toText := metadata artifact "to" in
  if decide (IsHexAddress toText = false \/ HexToAddress toText = 0) then fail "EVM artifact requires non-zero destination metadata" else
  value ← lift (artifact_value artifact);
  gasLimit ← lift (artifact_gas artifact);
  nonce ← NextNonce;
  c ← get;
  tipCap ← lift (deref (co_tipCap c));
  feeCap ← lift (deref (co_feeCap c));
  '(raw, hash) ← lift (SignTx (mkDynamicFeeTx (tm_chainID m) nonce tipCap feeCap gasLimit (Some (HexToAddress toText)) value (ea_Payload artifact) ""));
  mret (mkPreparedTransaction (ea_Leg artifact) (mkTransactionIdentity (tm_chain m) (tm_account m) hash (Some nonce) "" 0) raw now).

(** [eth_call]; [None] is a nil simulator. *)
Context (simulator : option (CallMsg -> res (list Z))).

Definition call_of (t : DynamicFeeTx) : CallMsg :=
  mkCallMsg address (tx_To t) (tx_Gas t) (tx_GasFeeCap t) (tx_GasTipCap t) (tx_Value t) (tx_Data t) (tx_AccessList t).

Definition SimulatePrepared (prepared : PreparedTransaction) : res unit :=
  match simulator with
  | None => Err (Errorf "EVM transaction simulator is unavailable")
  | Some CallContract =>
      if decide (leg_Account (pt_Leg prepared) <> tm_account m \/ pt_SignedPayload prepared = "")
      then Err (Errorf "EVM prepared transaction is invalid") else
      transaction ← wrap "decode EVM transaction for simulation: %w" (UnmarshalBinary (pt_SignedPayload prepared));
      if decide (tx_To transaction = None) then Err (Errorf "simulate EVM contract creation is unsupported") else
      _ ← wrap "simulate EVM prepared transaction: %w" (CallContract (call_of transaction));
      Ok tt
  end.

Definition SimulatePreparedEconomic (request : EconomicSimulationRequest) : res EconomicSimulationResult :=
  let prepared := es_Prepared request in
  match simulator with
  | None => Err (Errorf "EVM economic simulation input is invalid")
  | Some CallContract =>
      if decide (leg_Account (pt_Leg prepared) <> tm_account m \/ pt_SignedPayload prepared = "")
      then Err (Errorf "EVM economic simulation input is invalid") else
      transaction ← wrap "decode EVM transaction for economic simulation: %w" (UnmarshalBinary (pt_SignedPayload prepared));
      if decide (tx_To transaction = None) then Err (Errorf "simulate EVM contract creation is unsupported") else
      raw ← wrap "simulate EVM prepared transaction: %w" (CallContract (call_of transaction));
      if decide (length raw < 32)%nat then Err (EconomicOutputError (Errorf "EVM simulation returned no decodable swap output")) else
      match NewTokenAmount (amount_token (leg_ExpectedOutput (pt_Leg prepared))) (Some (BigEndian (take 32 raw))) with
      | Panic why => Panic why
      | Err _ => Err (EconomicOutputError (Errorf "EVM simulation returned an invalid swap output"))
      | Ok output =>
          if decide (IsZero output) then Err (EconomicOutputError (Errorf "EVM simulation returned an invalid swap output"))
          else Ok (mkEconomicSimulationResult (leg_Input (pt_Leg prepared)) output 0 (es_BalanceVersion request) "evm_eth_call_router_return")
      end
  end.

(** ** Broadcast *)

Definition isKnownTransaction (err : error) : bool :=
  let text := ToLower (Error err) in
  if Windows.Contains_substring text "unknown transaction" then false else
  Windows.Contains_substring text "already known" || Windows.Contains_substring text "already imported" ||
  Windows.Contains_substring text "known transaction".

Fixpoint classify (text : string) (candidates : list (string * string)) : string :=
  match candidates with
  | [] => "rejected_or_transport_error"
  | (fragment, class) :: candidates => if Windows.Contains_substring text fragment then class else classify text candidates
  end.

Definition fanoutErrorClass (err : option error) : string :=
  match err with
  | None => "accepted"
  | Some err =>
      if isKnownTransaction err then "already_known" else
      if errors_Is err DeadlineExceeded then "timeout" else classify (ToLower (Error err)) classes
  end.

Definition broadcastMayHaveSucceeded (err : error) : bool :=
  errors_Is err DeadlineExceeded || errors_Is err Canceled || Timeout err.

(** An answer the code takes for an acceptance. *)
Definition accepts (err : option error) : bool := match err with None => true | Some err => isKnownTransaction err end.

(** [fanoutFailure]; the class is part of its text, and [errors.Is] and [errors.As] go
    through to the cause. *)
Definition fanoutFailure (cause : error) : error := Wrapf "EVM fanout endpoint %q: %s" cause.

(** The loop over the answers: the endpoint that accepted and the attempt, or the causes
    of all failures and whether all of them are low nonces. *)
Fixpoint await_fanout (attempt : Z) (failures : list error) (allNonceTooLow : bool) (answers : list (string * option error)) :
    (string * Z) + (list error * bool) :=
  match answers with
  | [] => inr (failures, allNonceTooLow)
  | (name, err) :: answers =>
      match err with
      | None => inl (name, attempt)
      | Some err =>
          if isKnownTransaction err then inl (name, attempt) else
          await_fanout (attempt + 1) (failures ++ [err]) (allNonceTooLow && bool_decide (fanoutErrorClass (Some err) = "nonce_too_low")) answers
      end
  end.

(** The result and the error that goes with it. *)
Definition Broadcast (prepared : PreparedTransaction) (answers : list (string * option error)) (now : Time) :
    ST Coordinator (BroadcastResult * option error) :=
  if decide (leg_Account (pt_Leg prepared) <> tm_account m \/ pt_SignedPayload prepared = "")
  then mret (no_broadcast, Some (Errorf "EVM prepared transaction is invalid")) else
  decoded ← try (lift (UnmarshalBinary (pt_SignedPayload prepared)));
  match decoded with
  | Ok transaction =>
      let attempts := Z.of_nat (length answers) in
      match await_fanout 1 [] true answers with
      | inl (name, attempt) =>
          _ ← MarkNonceUsed (tx_Nonce transaction);
          mret (mkBroadcastResult (pt_Identity prepared) BroadcastAccepted true name attempt now, None)
      | inr (failures, allNonceTooLow) =>
          let joined := Joined (fanoutFailure <$> failures) in
          if allNonceTooLow : bool
          then mret (mkBroadcastResult (pt_Identity prepared) BroadcastRejected false "" attempts 0, Some (AllFanoutNonceTooLowError joined)) else
          let disposition := if existsb broadcastMayHaveSucceeded failures then BroadcastPossible else BroadcastRejected in
          _ ← (if decide (disposition = BroadcastPossible) then MarkNonceUsed (tx_Nonce transaction) else mret tt);
          mret (mkBroadcastResult (pt_Identity prepared) disposition false "" attempts 0, Some joined)
      end
  | Err e => mret (no_broadcast, Some e)
  | Panic why => lift (Panic why)
  end.

Definition BroadcastPrimary (prepared : PreparedTransaction) (sendErr : option error) (now : Time) :
    ST Coordinator (BroadcastResult * option error) :=
  if decide (leg_Account (pt_Leg prepared) <> tm_account m \/ pt_SignedPayload prepared = "")
  then mret (no_broadcast, Some (Errorf "EVM prepared transaction is invalid")) else
  decoded ← try (lift (UnmarshalBinary (pt_SignedPayload prepared)));
  match decoded with
  | Ok transaction =>
      if accepts sendErr then
        _ ← MarkNonceUsed (tx_Nonce transaction);
        mret (mkBroadcastResult (pt_Identity prepared) BroadcastAccepted true "primary" 1 now, None)
      else
        let possible := match sendErr with Some err => broadcastMayHaveSucceeded err | None => false end in
        _ ← (if possible : bool then MarkNonceUsed (tx_Nonce transaction) else mret tt);
        mret (mkBroadcastResult (pt_Identity prepared) (if possible then BroadcastPossible else BroadcastRejected) false "primary" 1 0, sendErr)
  | Err e => mret (no_broadcast, Some e)
  | Panic why => lift (Panic why)
  end.

(** ** Reconciliation *)

(** The loop over the answers: the first receipt, or the failures and the number of
    endpoints that do not know the transaction. *)
Fixpoint await_receipt (unavailable : list error) (notFound : nat) (answers : list (string * res (option Receipt))) :
    res (Receipt + (list error * nat)) :=
  match answers with
  | [] => Ok (inr (unavailable, notFound))
  | (_, answer) :: answers =>
      match answer with
      | Panic why => Panic why
      | Err err =>
          if errors_Is err NotFound then await_receipt unavailable (S notFound) answers
          else await_receipt (unavailable ++ [err]) notFound answers
      | Ok None => await_receipt unavailable (S notFound) answers
      | Ok (Some receipt) => Ok (inl receipt)
      end
  end.

(** No endpoint could be asked, or none says that it does not know the transaction. *)
Definition undecided (answers : nat) (unavailable : list error) (notFound : nat) : bool :=
  bool_decide (length unavailable = answers \/ (notFound = 0%nat /\ (0 < length unavailable)%nat)).

Definition evidence_or (evidence default : string) : string := if decide (evidence = "") then default else evidence.

Definition Reconcile (receiptDecoder : option (OperationStep -> Receipt -> res Settlement)) (step : OperationStep)
    (answers : list (string * res (option Receipt))) (now : Time) : res Settlement :=
  let identity := step_Identity step in
  if decide (ti_Chain identity <> tm_chain m \/ ti_Account identity <> tm_account m \/ IsHexHash (ti_Hash identity) = false)
  then Err (Errorf "EVM reconciliation identity is invalid") else
  found ← await_receipt [] 0 answers;
  match found with
  | inl receipt =>
      let state := if decide (rc_Status receipt <> ReceiptStatusSuccessful) then StateConfirmedRevert else StateConfirmedSuccess in
      match receiptDecoder with
      | Some DecodeReceipt =>
          if decide (state = StateConfirmedSuccess) then
            s ← wrap "decode EVM settlement receipt: %w" (DecodeReceipt step receipt);
            Ok (mkSettlement (se_Operation s) (se_Step s) identity (se_Technical s) (se_Economic s) (se_ActualIn s) (se_ActualOut s) (se_Costs s)
                  (if decide (Time_IsZero (se_ObservedAt s)) then now else se_ObservedAt s) (evidence_or (se_Evidence s) "evm_receipt_event"))
          else Ok (mkSettlement "" "" identity state EconomicReserved (mkTokenAmount "" None) (mkTokenAmount "" None) [] now "evm_receipt")
      | None => Ok (mkSettlement "" "" identity state EconomicReserved (mkTokenAmount "" None) (mkTokenAmount "" None) [] now "evm_receipt")
      end
  | inr (unavailable, notFound) =>
      if undecided (length answers) unavailable notFound then Err (Joined (fanoutFailure <$> unavailable)) else
      Ok (mkSettlement "" "" identity StateOutcomeUnknown EconomicReserved (mkTokenAmount "" None) (mkTokenAmount "" None) [] now "receipt_not_found")
  end.

(** The state goes with the error. *)
Definition ReconcileReceiptStatus (identity : TransactionIdentity) (answers : list (string * res (option Receipt))) :
    res (TechnicalState * option error) :=
  if decide (ti_Chain identity <> tm_chain m \/ ti_Account identity <> tm_account m \/ IsHexHash (ti_Hash identity) = false)
  then Ok (StateOutcomeUnknown, Some (Errorf "EVM receipt identity is invalid")) else
  found ← await_receipt [] 0 answers;
  match found with
  | inl receipt =>
      Ok (if decide (rc_Status receipt = ReceiptStatusSuccessful) then StateConfirmedSuccess else StateConfirmedRevert, None)
  | inr (unavailable, notFound) =>
      Ok (StateOutcomeUnknown, if undecided (length answers) unavailable notFound then Some (Joined (fanoutFailure <$> unavailable)) else None)
  end.
End manager.

(** ** Theorems *)

Section theorems.
Context {geth : Geth} (m : TxManager).

(** What the answers of all endpoints say together. *)
Definition nonce_low (err : option error) : bool := bool_decide (fanoutErrorClass err = "nonce_too_low").
Definition may_have_succeeded (err : option error) : bool := match err with Some err => broadcastMayHaveSucceeded err | None => false end.

Definition verdict (answers : list (option error)) : string :=
  if existsb accepts answers then BroadcastAccepted else
  if forallb nonce_low answers then BroadcastRejected else
  if existsb may_have_succeeded answers then BroadcastPossible else BroadcastRejected.

Lemma existsb_perm {A} (f : A -> bool) l k : l ≡ₚ k -> existsb f l = existsb f k.
Proof using Type. clear. induction 1 as [|x l k _ IH|x y l|l k j _ IH1 _ IH2]; cbn; [done|by rewrite IH|by rewrite !orb_assoc, (orb_comm (f y))|by rewrite IH1]. Qed.

Lemma forallb_perm {A} (f : A -> bool) l k : l ≡ₚ k -> forallb f l = forallb f k.
Proof using Type. clear. induction 1 as [|x l k _ IH|x y l|l k j _ IH1 _ IH2]; cbn; [done|by rewrite IH|by rewrite !andb_assoc, (andb_comm (f y))|by rewrite IH1]. Qed.

Lemma verdict_perm answers answers' : answers ≡ₚ answers' -> verdict answers = verdict answers'.
Proof using Type. clear m. intros H. unfold verdict. by rewrite (existsb_perm _ _ _ H), (forallb_perm _ _ _ H), (existsb_perm may_have_succeeded _ _ H). Qed.

Lemma await_fanout_spec answers : forall attempt failures low,
  (existsb accepts answers.*2 = true -> exists name k, await_fanout attempt failures low answers = inl (name, k) /\ name ∈ answers.*1) /\
  (existsb accepts answers.*2 = false -> exists causes, answers.*2 = Some <$> causes /\
     await_fanout attempt failures low answers = inr (failures ++ causes, low && forallb nonce_low answers.*2)).
Proof using Type.
  clear m. induction answers as [|[name err] answers IH]; intros attempt failures low.
  { split; [done|]. intros _. exists []. cbn. by rewrite app_nil_r, andb_true_r. }
  cbn [fmap list_fmap existsb forallb snd await_fanout]. destruct err as [err|].
  2: { split; [intros _; exists name, attempt; split; [done|by left]|done]. }
  cbn [accepts]. destruct (isKnownTransaction err) eqn:Hk; cbn [orb].
  { split; [intros _; exists name, attempt; split; [done|by left]|done]. }
  destruct (IH (attempt + 1) (failures ++ [err]) (low && nonce_low (Some err))) as [IH1 IH2]. split.
  - intros H. destruct (IH1 H) as (n & k & Ha & Hin). exists n, k. split; [exact Ha|by right].
  - intros H. destruct (IH2 H) as (causes & Hc & Ha). exists (err :: causes). split; [by rewrite fmap_cons, <- Hc|].
    rewrite andb_assoc. rewrite <- app_assoc in Ha. exact Ha.
Qed.

Lemma mark_used nonce c : co_warmed c = true -> 0 <= nonce < 2 ^ 64 - 1 ->
  exists c', MarkNonceUsed nonce c = (Ok tt, c') /\ co_warmed c' = true /\ co_nonce c <= co_nonce c' /\ nonce < co_nonce c'.
Proof using Type.
  clear. intros Hw Hn. unfold MarkNonceUsed. destruct (decide _) as [Hd|Hd].
  - exists c. split; [done|]. split; [done|]. destruct Hd as [Hd|Hd]; [congruence|lia].
  - eexists. split; [done|]. cbn. unfold uint64. rewrite Z.mod_small by lia. split; [done|]. lia.
Qed.

Lemma mark_state nonce c : MarkNonceUsed nonce c = (Ok tt, (MarkNonceUsed nonce c).2).
Proof using Type. clear. unfold MarkNonceUsed. by destruct (decide _). Qed.

Definition usable (prepared : PreparedTransaction) (transaction : DynamicFeeTx) : Prop :=
  leg_Account (pt_Leg prepared) = tm_account m /\ pt_SignedPayload prepared <> "" /\ UnmarshalBinary (pt_SignedPayload prepared) = Ok transaction.

(** C33.The verdict on a broadcast.  The transaction is accepted exactly when some endpoint
    took it or knew it already; otherwise it may have been sent exactly when some
    endpoint did not answer in time, unless all of them refuse its nonce as too low,
    which is reported by an error of its own; otherwise it is rejected.  Only a
    rejection leaves the nonce free, and neither the verdict nor the nonce depends on
    the order in which the answers arrive. *)
Theorem Broadcast_verdict prepared transaction answers now c : usable prepared transaction ->
  let v := verdict answers.*2 in
  (exists r e, Broadcast m prepared answers now c =
     (Ok (r, e), if decide (v = BroadcastRejected) then c else (MarkNonceUsed (tx_Nonce transaction) c).2) /\
     br_Identity r = pt_Identity prepared /\ br_Disposition r = v /\ (br_Accepted r = true <-> v = BroadcastAccepted) /\
     (e = None <-> v = BroadcastAccepted) /\
     ((exists cause, e = Some (AllFanoutNonceTooLowError cause)) <-> v <> BroadcastAccepted /\ forallb nonce_low answers.*2 = true) /\
     (v = BroadcastAccepted -> br_Endpoint r ∈ answers.*1)) /\
  forall answers', answers' ≡ₚ answers -> verdict answers'.*2 = v.
Proof using Type.
  intros (Hacc & Hpay & Hdec) v. split; [|intros answers' H; apply verdict_perm, fmap_Permutation, H].
  unfold Broadcast. rewrite decide_False by (intros [H|H]; [by apply H|by apply Hpay]). unfold lift, try. cbn -[await_fanout]. rewrite Hdec. cbn -[await_fanout].
  destruct (await_fanout_spec answers 1 [] true) as [H1 H2].
  assert (Hv : v = if existsb accepts answers.*2 then BroadcastAccepted else if forallb nonce_low answers.*2 then BroadcastRejected else
    if existsb may_have_succeeded answers.*2 then BroadcastPossible else BroadcastRejected) by done.
  clearbody v. destruct (existsb accepts answers.*2) eqn:Hex.
  - destruct (H1 eq_refl) as (name & k & -> & Hin). subst v. rewrite decide_False by done. unfold mbind, st_bind. rewrite mark_state.
    eexists _, None. split; [done|]. cbn. split_and!; first [done|naive_solver].
  - destruct (H2 eq_refl) as (causes & Hc & ->). cbn [app andb]. rewrite Hc in *. destruct (forallb nonce_low (Some <$> causes)) eqn:Hlow.
    + subst v. rewrite decide_True by done. eexists _, _. split; [done|]. cbn. split_and!; first [done|naive_solver].
    + assert (existsb may_have_succeeded (Some <$> causes) = existsb broadcastMayHaveSucceeded causes) as Hmay
        by (clear; induction causes as [|e causes IH]; [done|]; cbn; by rewrite IH).
      rewrite Hmay in Hv. destruct (existsb broadcastMayHaveSucceeded causes); subst v.
      * rewrite (decide_False (P := BroadcastPossible = BroadcastRejected)) by done. unfold mbind, st_bind. cbv beta iota zeta. rewrite decide_True by done. rewrite mark_state.
        eexists _, _. split; [done|]. cbn. split_and!; first [done|naive_solver].
      * rewrite (decide_True (P := BroadcastRejected = BroadcastRejected)) by done. unfold mbind, st_bind. cbv beta iota zeta. rewrite decide_False by done.
        eexists _, _. split; [done|]. cbn. split_and!; first [done|naive_solver].
Qed.

(** ** Histories of the coordinator *)

(** What its users and the background refresh do with it once it is warm. *)
Inductive call :=
| CMark (nonce : Z)
| CResync (pending : res Z) (rejectedNonce : Z)
| CRefresh (tip : res (option Z)) (header : res (option (option Z))) (now : Time)
| CPrepare (artifact : EvmArtifact) (now : Time)
| CBroadcast (prepared : PreparedTransaction) (answers : list (string * option error)) (now : Time)
| CBroadcastPrimary (prepared : PreparedTransaction) (sendErr : option error) (now : Time).

(** An endpoint took the transaction, or says that it has it. *)
Definition took_or_knows (answer : option error) : Prop :=
  match answer with
  | None => True
  | Some err =>
      let text := ToLower (Error err) in
      Windows.Contains_substring text "unknown transaction" = false /\
      (Windows.Contains_substring text "already known" = true \/ Windows.Contains_substring text "already imported" = true \/
       Windows.Contains_substring text "known transaction" = true)
  end.
#[export] Instance took_or_knows_dec answer : Decision (took_or_knows answer).
Proof using Type. destruct answer; cbn; apply _. Defined.

(** The request ended without an answer: it ran out of time or was cancelled. *)
Definition unanswered (answer : option error) : Prop :=
  match answer with
  | None => False
  | Some err => (errors_Is err DeadlineExceeded = true \/ errors_Is err Canceled = true \/ Timeout err = true) /\
      Windows.Contains_substring (ToLower (Error err)) "nonce too low" = false
  end.
#[export] Instance unanswered_dec answer : Decision (unanswered answer).
Proof using Type. destruct answer; cbn; apply _. Defined.

(** The nonce of a transaction that was sent, when the answers of the endpoints leave
    it in flight.  Any other error counts as a refusal. *)
Definition spends (prepared : PreparedTransaction) (answers : list (option error)) : list Z :=
  match UnmarshalBinary (pt_SignedPayload prepared) with
  | Ok transaction =>
      if decide (leg_Account (pt_Leg prepared) = tm_account m /\ pt_SignedPayload prepared <> "" /\
                 Exists (fun answer => took_or_knows answer \/ unanswered answer) answers)
      then [tx_Nonce transaction] else []
  | _ => []
  end.

(** A call on the coordinator and the nonces it spends. *)
Definition perform (k : call) (c : Coordinator) : list Z * Coordinator :=
  match k with
  | CMark nonce => ([nonce], (MarkNonceUsed nonce c).2)
  | CResync pending rejectedNonce => ([], (ResyncNonce pending rejectedNonce c).2)
  | CRefresh tip header now => ([], (refresh_fees tip header now c).2)
  | CPrepare artifact now => ([], (Prepare m artifact now c).2)
  | CBroadcast prepared answers now => (spends prepared answers.*2, (Broadcast m prepared answers now c).2)
  | CBroadcastPrimary prepared sendErr now => (spends prepared [sendErr], (BroadcastPrimary m prepared sendErr now c).2)
  end.

Fixpoint history (calls : list call) (c : Coordinator) : list Z * Coordinator :=
  match calls with
  | [] => ([], c)
  | k :: calls => let '(spent, c) := perform k c in let '(later, c) := history calls c in (spent ++ later, c)
  end.

(** Nonces are below the limit of EIP-2681. *)
Definition nonce_ok (nonce : Z) : Prop := 0 <= nonce < 2 ^ 64 - 1.
Definition payload_ok (prepared : PreparedTransaction) : Prop :=
  forall transaction, UnmarshalBinary (pt_SignedPayload prepared) = Ok transaction -> nonce_ok (tx_Nonce transaction).
Definition call_ok (k : call) : Prop :=
  match k with
  | CMark nonce => nonce_ok nonce
  | CBroadcast prepared _ _ | CBroadcastPrimary prepared _ _ => payload_ok prepared
  | _ => True
  end.

(** A step of a history: the nonce does not go back, and it passes what was spent. *)
Definition advances (c : Coordinator) (spent : list Z) (c' : Coordinator) : Prop :=
  co_warmed c' = true /\ co_nonce c <= co_nonce c' /\ Forall (fun n => n < co_nonce c') spent.

Lemma advances_refl c : co_warmed c = true -> advances c [] c.
Proof using Type. clear. intros Hw. by split; [|split]. Qed.

Lemma advances_trans c spent c' later c'' : advances c spent c' -> advances c' later c'' -> advances c (spent ++ later) c''.
Proof using Type.
  clear. intros (_ & H1 & H2) (Hw & H3 & H4). split; [done|]. split; [lia|]. apply Forall_app. split; [|done].
  eapply Forall_impl; [exact H2|]. cbn. lia.
Qed.

Lemma mark_advances nonce c : co_warmed c = true -> nonce_ok nonce -> advances c [nonce] (MarkNonceUsed nonce c).2.
Proof using Type.
  clear. intros Hw Hn. destruct (mark_used nonce c Hw Hn) as (c' & -> & Hw' & Hle & Hlt). split; [done|]. split; [done|by repeat constructor].
Qed.

Lemma Prepare_state artifact now c : (Prepare m artifact now c).2 = c.
Proof using Type.
  unfold Prepare. destruct (decide _); [done|]. destruct (decide _); [done|]. unfold mbind, st_bind, lift, NextNonce, get.
  destruct (artifact_value artifact); [|done..]. destruct (artifact_gas m artifact); [|done..]. destruct (co_warmed c); [|done].
  cbn -[SignTx]. destruct (co_tipCap c); [|done]. cbn -[SignTx]. destruct (co_feeCap c); [|done]. cbn -[SignTx]. by destruct (SignTx _) as [[? ?]| |].
Qed.

Lemma accepts_iff answer : accepts answer = true <-> took_or_knows answer.
Proof using Type.
  clear m. destruct answer as [err|]; cbn; [|done]. unfold isKnownTransaction. destruct (Windows.Contains_substring _ "unknown transaction").
  - split; [done|]. by intros [? _].
  - rewrite !orb_true_iff. tauto.
Qed.

Lemma unanswered_possible err : unanswered (Some err) -> broadcastMayHaveSucceeded err = true /\ nonce_low (Some err) = false.
Proof using Type.
  clear m. intros [H Htext]. split; [unfold broadcastMayHaveSucceeded; rewrite !orb_true_iff; tauto|].
  apply bool_decide_eq_false. unfold fanoutErrorClass. destruct (isKnownTransaction err); [done|]. destruct (errors_Is err DeadlineExceeded); [done|].
  unfold classes. cbn [classify]. rewrite Htext. repeat (case_match; [done|]). done.
Qed.

(** A broadcast marks the nonce of its transaction whenever it may be in flight. *)
Lemma broadcast_marks (prepared : PreparedTransaction) (answers : list (option error)) (b : ST Coordinator (BroadcastResult * option error)) c :
  (exists named now, answers = named.*2 /\ b = Broadcast m prepared named now) \/
  (exists sendErr now, answers = [sendErr] /\ b = BroadcastPrimary m prepared sendErr now) ->
  (b c).2 = c /\ spends prepared answers = [] \/
  exists transaction, UnmarshalBinary (pt_SignedPayload prepared) = Ok transaction /\ (b c).2 = (MarkNonceUsed (tx_Nonce transaction) c).2 /\
    (spends prepared answers = [] \/ spends prepared answers = [tx_Nonce transaction]).
Proof using Type.
  intros Hb.
  destruct (decide (leg_Account (pt_Leg prepared) <> tm_account m \/ pt_SignedPayload prepared = "")) as [Hinvalid|Hvalid].
  { left. split; [destruct Hb as [(? & ? & _ & ->)|(? & ? & _ & ->)]; [unfold Broadcast|unfold BroadcastPrimary]; by rewrite decide_True|].
    unfold spends. destruct (UnmarshalBinary _); [|done..]. rewrite decide_False; [done|]. intros (? & ? & _). tauto. }
  destruct (UnmarshalBinary (pt_SignedPayload prepared)) as [transaction|e|why] eqn:Hdec.
  2,3: left; unfold spends; rewrite Hdec; split; [|done]; destruct Hb as [(? & ? & _ & ->)|(? & ? & _ & ->)];
    [unfold Broadcast|unfold BroadcastPrimary]; rewrite decide_False by done; unfold mbind, st_bind, try, lift; by rewrite Hdec.
  assert (spends prepared answers = [] \/ spends prepared answers = [tx_Nonce transaction]) as Hsp
    by (unfold spends; rewrite Hdec; destruct (decide _); [by right|by left]).
  assert (Forall (fun answer => ~ took_or_knows answer /\ ~ unanswered answer) answers -> spends prepared answers = []) as Hnone.
  { intros Hall. unfold spends. rewrite Hdec, decide_False; [done|]. intros (_ & _ & Hex). apply Exists_exists in Hex as (a & Ha & Hor).
    rewrite Forall_forall in Hall. destruct (Hall a Ha). tauto. }
  destruct Hb as [(named & now & -> & ->)|(sendErr & now & -> & ->)].
  - unfold Broadcast. rewrite decide_False by done. unfold mbind, st_bind, try, lift. rewrite Hdec. cbn -[MarkNonceUsed await_fanout].
    destruct (await_fanout_spec named 1 [] true) as [H1 H2]. destruct (existsb accepts named.*2) eqn:Hex.
    { destruct (H1 eq_refl) as (name & k & -> & _). right. exists transaction. by rewrite mark_state. }
    destruct (H2 eq_refl) as (causes & Hc & ->). cbn [app andb].
    assert (Forall (fun answer => ~ took_or_knows answer) named.*2) as Hnot.
    { apply Forall_forall. intros a Ha Htook%accepts_iff. apply not_true_iff_false in Hex. apply Hex, existsb_exists. exists a. by rewrite <- list_elem_of_In. }
    destruct (forallb nonce_low named.*2) eqn:Hlow; [|destruct (existsb broadcastMayHaveSucceeded causes) eqn:Hmay].
    + left. split; [done|]. apply Hnone, Forall_forall. intros a Ha. rewrite Forall_forall in Hnot. split; [by apply Hnot|]. intros Hun.
      destruct a as [err|]; [|done]. destruct (unanswered_possible err Hun) as [_ Hl]. rewrite forallb_forall in Hlow.
      rewrite (Hlow (Some err)) in Hl; [done|by apply list_elem_of_In].
    + right. exists transaction. by rewrite decide_True, mark_state.
    + left. rewrite decide_False by done. split; [done|]. apply Hnone, Forall_forall. intros a Ha. rewrite Forall_forall in Hnot. split; [by apply Hnot|].
      intros Hun. rewrite Hc in Ha. apply list_elem_of_fmap in Ha as (err & -> & Hin). destruct (unanswered_possible err Hun) as [Hp _].
      apply not_true_iff_false in Hmay. apply Hmay, existsb_exists. exists err. by rewrite <- list_elem_of_In.
  - unfold BroadcastPrimary. rewrite decide_False by done. unfold mbind, st_bind, try, lift. rewrite Hdec. cbn -[MarkNonceUsed accepts].
    destruct (accepts sendErr) eqn:Hacc; [right; exists transaction; by rewrite mark_state|].
    destruct (match sendErr with Some err => broadcastMayHaveSucceeded err | None => false end) eqn:Hmay; [right; exists transaction; by rewrite mark_state|].
    left. split; [done|]. apply Hnone, Forall_singleton. split; [rewrite <- accepts_iff; by rewrite Hacc|]. intros Hun.
    destruct sendErr as [err|]; [|done]. destruct (unanswered_possible err Hun) as [Hp _]. congruence.
Qed.

Lemma marked_advances prepared transaction spent c :
  UnmarshalBinary (pt_SignedPayload prepared) = Ok transaction -> co_warmed c = true -> payload_ok prepared ->
  spent = [] \/ spent = [tx_Nonce transaction] -> advances c spent (MarkNonceUsed (tx_Nonce transaction) c).2.
Proof using Type.
  clear m. intros Hdec Hw Hok Hsp. destruct (mark_advances (tx_Nonce transaction) c Hw (Hok _ Hdec)) as (H1 & H2 & H3).
  split; [done|]. split; [done|]. by destruct Hsp as [->| ->].
Qed.

Lemma perform_advances k c : co_warmed c = true -> call_ok k -> advances c (perform k c).1 (perform k c).2.
Proof using Type.
  intros Hw Hk. destruct k as [nonce|pending rejected|tip header now|artifact now|prepared answers now|prepared sendErr now]; cbn [perform fst snd].
  - by apply mark_advances.
  - unfold ResyncNonce, mbind, st_bind, lift, wrap. destruct pending as [pending|e|why]; [|by apply advances_refl..].
    destruct (decide _); [by apply advances_refl|]. rewrite Hw. cbn [negb]. destruct (decide _) as [Hlt|]; [|by apply advances_refl].
    split; [done|]. split; [cbn; lia|done].
  - unfold refresh_fees. destruct (readFees tip header) as [[[? ?] ?]|e|why]; cbn; [|by apply advances_refl..]. split; [done|]. split; [done|done].
  - rewrite Prepare_state. by apply advances_refl.
  - destruct (broadcast_marks prepared answers.*2 (Broadcast m prepared answers now) c) as [[-> ->]|(t & Hdec & -> & Hsp)];
      [left; by eexists _, _|by apply advances_refl|by apply (marked_advances prepared)].
  - destruct (broadcast_marks prepared [sendErr] (BroadcastPrimary m prepared sendErr now) c) as [[-> ->]|(t & Hdec & -> & Hsp)];
      [right; by eexists _, _|by apply advances_refl|by apply (marked_advances prepared)].
Qed.

Lemma history_advances calls : forall c, co_warmed c = true -> Forall call_ok calls -> advances c (history calls c).1 (history calls c).2.
Proof using Type.
  induction calls as [|k calls IH]; intros c Hw Hok; cbn [history]; [by apply advances_refl|]. apply Forall_cons in Hok as [Hk Hok].
  pose proof (perform_advances k c Hw Hk) as Hadv. destruct (perform k c) as [spent c'].
  pose proof (IH c' (proj1 Hadv) Hok) as Hadv'. destruct (history calls c') as [later c'']. by eapply advances_trans.
Qed.

(** C32.A nonce is not signed again once a transaction with it is in flight.  After any
    history of broadcasts, resynchronisations, refreshes and preparations on a warm
    manager, a transaction prepared next carries a nonce above that of every
    transaction that some endpoint took or says it has, or whose request to some
    endpoint timed out or was cancelled, above every nonce marked as used, and not
    below the one the history started with.  Every other error counts as a refusal
    and leaves the nonce free, a connection that broke after the request was written
    among them ([EvmWitness.broken_connection]). *)
Theorem nonces_never_reused calls c artifact now prepared c' :
  co_warmed c = true -> Forall call_ok calls -> Prepare m artifact now (history calls c).2 = (Ok prepared, c') ->
  exists nonce, ti_Nonce (pt_Identity prepared) = Some nonce /\ co_nonce c <= nonce /\ Forall (fun spent => spent < nonce) (history calls c).1 /\
    exists transaction hash, tx_Nonce transaction = nonce /\ SignTx transaction = Ok (pt_SignedPayload prepared, hash).
Proof using Type.
  intros Hw Hok Hprep. destruct (history_advances calls c Hw Hok) as (Hw' & Hle & Hspent). set (c1 := (history calls c).2) in *.
  unfold Prepare in Hprep. destruct (decide _) in Hprep; [done|]. destruct (decide _) in Hprep; [done|].
  unfold mbind, st_bind, lift, NextNonce, get in Hprep. rewrite Hw' in Hprep.
  destruct (artifact_value artifact) as [value| |]; [|done..]. destruct (artifact_gas m artifact) as [gas| |]; [|done..]. cbn -[SignTx] in Hprep.
  destruct (co_tipCap c1) as [tip|]; [|done]. cbn -[SignTx] in Hprep. destruct (co_feeCap c1) as [cap|]; [|done]. cbn -[SignTx] in Hprep.
  destruct (SignTx _) as [[raw hash]| |] eqn:Hs in Hprep; [|done..]. injection Hprep as <- _. exists (co_nonce c1).
  split; [done|]. split; [done|]. split; [done|]. eexists _, hash. split; [|exact Hs]. done.
Qed.

(** ** Reconciliation *)

Definition receipts (answers : list (string * res (option Receipt))) : list Receipt :=
  omap (fun a => match a.2 with Ok (Some r) => Some r | _ => None end) answers.

Definition says_unknown (answer : res (option Receipt)) : bool :=
  match answer with Ok None => true | Err err => errors_Is err NotFound | _ => false end.

Definition answered (answers : list (string * res (option Receipt))) : Prop := Forall (fun a => no_panic a.2) answers.

Lemma await_receipt_spec answers : forall unavailable notFound, answered answers ->
  match receipts answers with
  | r :: _ => await_receipt unavailable notFound answers = Ok (inl r)
  | [] => exists causes, await_receipt unavailable notFound answers =
        Ok (inr (unavailable ++ causes, (notFound + length (filter (fun a => says_unknown a.2 = true) answers))%nat)) /\
      (length causes + length (filter (fun a => says_unknown a.2 = true) answers) = length answers)%nat
  end.
Proof using Type.
  clear. induction answers as [|[name answer] answers IH]; intros unavailable notFound Hans; [exists []; cbn; rewrite app_nil_r, Nat.add_0_r; done|].
  apply Forall_cons in Hans as [Hp Hans]. cbn [receipts omap list_omap snd] in *. destruct answer as [[r|]|err|why]; cbn [await_receipt]; [done| | |by destruct (Hp why)].
  - specialize (IH unavailable (S notFound) Hans). unfold receipts in IH. destruct (omap _ answers) as [|r rs]; [|exact IH].
    destruct IH as (causes & Ha & Hl). exists causes. rewrite filter_cons_True by done. cbn [length]. rewrite Ha. split; [do 3 f_equal; lia|lia].
  - destruct (errors_Is err NotFound) eqn:Hnf.
    + specialize (IH unavailable (S notFound) Hans). unfold receipts in IH. destruct (omap _ answers) as [|r rs]; [|exact IH].
      destruct IH as (causes & Ha & Hl). exists causes. rewrite filter_cons_True by (cbn; by rewrite Hnf). cbn [length]. rewrite Ha. split; [do 3 f_equal; lia|lia].
    + specialize (IH (unavailable ++ [err]) notFound Hans). unfold receipts in IH. destruct (omap _ answers) as [|r rs]; [|exact IH].
      destruct IH as (causes & Ha & Hl). exists (err :: causes). rewrite filter_cons_False by (cbn; by rewrite Hnf). cbn [length].
      rewrite Ha, <- app_assoc. split; [done|lia].
Qed.

(** The status of a transaction is that of the first receipt to arrive; without a
    receipt it is unknown, and that is an error only when no endpoint says that it does
    not know the transaction. *)
Theorem ReconcileReceiptStatus_evidence identity answers :
  ti_Chain identity = tm_chain m -> ti_Account identity = tm_account m -> IsHexHash (ti_Hash identity) = true -> answered answers -> answers <> [] ->
  match receipts answers with
  | r :: _ => ReconcileReceiptStatus m identity answers =
      Ok (if decide (rc_Status r = ReceiptStatusSuccessful) then StateConfirmedSuccess else StateConfirmedRevert, None)
  | [] => exists err, ReconcileReceiptStatus m identity answers = Ok (StateOutcomeUnknown, err) /\
      (err = None <-> existsb (fun a => says_unknown a.2) answers = true)
  end.
Proof using Type.
  intros Hc Ha Hh Hans Hne. unfold ReconcileReceiptStatus. rewrite decide_False by (rewrite Hh; intros [|[|]]; done).
  pose proof (await_receipt_spec answers [] 0 Hans) as Hspec. destruct (receipts answers) as [|r rs]; [|by rewrite Hspec].
  destruct Hspec as (causes & -> & Hlen). cbn [mbind res_bind app Nat.add]. eexists. split; [done|].
  set (n := length (filter _ _)) in *. assert (existsb (fun a => says_unknown a.2) answers = true <-> n <> 0%nat) as ->.
  { unfold n. rewrite existsb_exists. split.
    - intros (a & Hin & Hsay) H0. apply nil_length_inv in H0. assert (a ∈ filter (fun a => says_unknown a.2 = true) answers) as Hf
        by (apply list_elem_of_filter; split; [done|by apply list_elem_of_In]). rewrite H0 in Hf. by apply not_elem_of_nil in Hf.
    - intros Hn. destruct (filter _ _) as [|a l] eqn:Hf; [done|]. exists a. assert (a ∈ a :: l) as Hin by by left.
      rewrite <- Hf in Hin. apply list_elem_of_filter in Hin as [? ?]. split; [by apply list_elem_of_In|done]. }
  unfold undecided. destruct (bool_decide_reflect (length causes = length answers \/ n = 0%nat /\ (0 < length causes)%nat)) as [Hd|Hd].
  - split; [done|]. intros Hn. lia.
  - split; [|done]. intros _ H0. apply Hd. left. lia.
Qed.
End theorems.

(** A signer that writes the nonce of the transaction. *)
Module EvmWitness.
#[local] Instance geth : Geth := {|
  IsHexAddress text := bool_decide (text = "0xb0b"); HexToAddress _ := 2827; IsHexHash hash := bool_decide (hash = "0xfeed");
  SignTx t := Ok (pretty (tx_Nonce t), "0xfeed");
  UnmarshalBinary raw := match ParseUint raw with
                         | Some nonce => Ok (mkDynamicFeeTx 10 nonce 1 3 21000 (Some 2827) 0 "" "")
                         | None => Err (Errorf "rlp: invalid transaction") end;
  Error err := match err with Errorf text => text | _ => "" end; Timeout err := match err with Errorf text => bool_decide (text = "i/o timeout") | _ => false end |}.

Definition manager : TxManager := mkTxManager "optimism" "wallet" 10 {["a"; "b"]} 1500000 (5 * second) second.
Definition warm : Coordinator := mkCoordinator true 7 (Some 100) (Some 5) (Some 205) 1000.
Definition leg : Leg := mkLeg "buy" LegBuy "optimism" "wallet" "pool" (mkTokenAmount "usdc" (Some 10)) (mkTokenAmount "weth" (Some 20)).
Definition artifact : EvmArtifact := mkEvmArtifact leg "swap" {["to" := " 0xb0b "; "gas_limit" := "90000"]}.
Definition seventh : PreparedTransaction := mkPreparedTransaction leg (mkTransactionIdentity "optimism" "wallet" "0xfeed" (Some 7) "" 0) "7" 2000.

(** One endpoint refuses the transaction and the other does not answer in time. *)
Definition answers : list (string * option error) := [("b", Some (Errorf "rate limit exceeded")); ("a", Some (Errorf "i/o timeout"))].

Lemma verdict_witness : usable manager seventh (mkDynamicFeeTx 10 7 1 3 21000 (Some 2827) 0 "" "") /\
  exists r e, Broadcast manager seventh answers 3000 warm = (Ok (r, e), set_nonce 8 warm) /\ br_Disposition r = BroadcastPossible.
Proof.
  assert (usable manager seventh (mkDynamicFeeTx 10 7 1 3 21000 (Some 2827) 0 "" "")) as Hu by (split; [done|split; [done|vm_compute; reflexivity]]).
  split; [exact Hu|]. destruct (Broadcast_verdict manager seventh _ answers 3000 warm Hu) as [(r & e & Hb & _ & Hd & _) _].
  exists r, e. split; [exact Hb|]. rewrite Hd. vm_compute. reflexivity.
Defined.

Definition day : list call := [CPrepare artifact 1500; CBroadcast seventh answers 2000; CRefresh (Ok (Some 6)) (Ok (Some (Some 90))) 2500;
  CResync (Ok 6) 5; CBroadcastPrimary seventh None 2600].

Lemma reuse_witness : (history manager day warm).1 = [7; 7] /\
  exists nonce, Some 8 = Some nonce /\ 7 <= nonce /\ Forall (fun spent => spent < nonce) (history manager day warm).1.
Proof.
  assert (Forall call_ok day) as Hok by
    (unfold day; rewrite !Forall_cons, Forall_nil; split_and!; try exact I; intros t Ht; vm_compute in Ht; injection Ht as <-; by split).
  assert (Prepare manager artifact 3000 (history manager day warm).2 =
    (Ok (mkPreparedTransaction leg (mkTransactionIdentity "optimism" "wallet" "0xfeed" (Some 8) "" 0) "8" 3000), (history manager day warm).2))
    as Hprep by (vm_compute; reflexivity).
  split; [vm_compute; reflexivity|].
  destruct (nonces_never_reused manager day warm artifact 3000 _ _ eq_refl Hok Hprep) as (nonce & H1 & H2 & H3 & _). exists nonce. split; [exact H1|]. split; [exact H2|exact H3].
Defined.

(** A broken connection is a rejection and leaves the nonce free, although the
    transaction may have been delivered: only timeouts and cancellations count. *)
Example broken_connection : BroadcastPrimary manager seventh (Some (Errorf "read tcp: connection reset by peer")) 3000 warm =
  (Ok (mkBroadcastResult (pt_Identity seventh) BroadcastRejected false "primary" 1 0, Some (Errorf "read tcp: connection reset by peer")), warm).
Proof. vm_compute. reflexivity. Qed.

(** A second [Warm] takes the nonce of the endpoint as it is, even a smaller one. *)
Example warm_again : (Warm manager (Ok (Some 10)) [("a", Ok (Some 10)); ("b", Ok (Some 10))] (Ok 3) (Ok (Some 5)) (Ok (Some (Some 100))) 4000 warm).2 =
  mkCoordinator true 3 (Some 100) (Some 5) (Some 205) 4000.
Proof. vm_compute. reflexivity. Qed.
End EvmWitness.
