(* ===== verification/Erc20Settlement.v ===== *)
(** * Settlement from a receipt (src/adapters/chain/evm/erc20_settlement.go and the filter
    of capabilities.go)

    What a confirmed transaction did to the wallet, read off the transfer events of the
    two tokens of its leg, and what it cost.  Addresses are integers; a topic is a
    256-bit integer whose low 160 bits are an address.  [erc20TransferTopic] is the hash
    of the signature of the event, a parameter. *)
From S2P Require Import Prelude Bytes Amount Quote Registry Arbitrage Allocation Inventory Execution EvmTxManager.
From Stdlib Require Import QArith Qcanon.
Local Open Scope Z_scope.

Record ERC20TransferReceiptDecoder := mkDecoder { de_owner : Z; de_tokens : gmap TokenID Z; de_nativeAsset : AssetID }.

Section decoder.
Context {geth : Geth} (erc20TransferTopic : Z).

Definition resolve_token (resolved : gmap TokenID Z) (entry : TokenID * string) : res (gmap TokenID Z) :=
  let '(token, raw) := entry in
  if decide (token = "" \/ IsHexAddress raw = false) then Err (Errorf "ERC-20 settlement token mapping is invalid") else
  let address := HexToAddress raw in
  if decide (address = 0) then Err (Errorf "ERC-20 settlement token mapping contains zero address") else Ok (<[token := address]> resolved).

Definition NewERC20TransferReceiptDecoder {order : RangeOrder TokenID} (owner : Z) (tokens : gmap TokenID string) (nativeAsset : list AssetID) :
    res ERC20TransferReceiptDecoder :=
  if decide (owner = 0 \/ (size tokens < 2)%nat) then Err (Errorf "ERC-20 settlement decoder requires owner and token mappings") else
  resolved ← foldM resolve_token ∅ (range tokens);
  let asset := match nativeAsset with asset :: _ => if decide (asset <> "") then asset else "evm_native" | [] => "evm_native" end in
  Ok (mkDecoder owner resolved asset).

(** [common.BytesToAddress(topic.Bytes()[12:])] *)
Definition topic_address (topic : Z) : Z := topic mod 2 ^ 160.

Definition receiptCosts (d : ERC20TransferReceiptDecoder) (chain : ChainID) (receipt : Receipt) : res (list CostComponent) :=
  match rc_EffectiveGasPrice receipt with
  | Some price =>
      if decide (0 < rc_GasUsed receipt /\ 0 < Z.sgn price) then
        amount ← NewAssetQuantity (de_nativeAsset d) (Some (Q2Qc (inject_Z (rc_GasUsed receipt * price)) / Q2Qc (inject_Z (10 ^ 18)))%Qc);
        Ok [mkCostComponent "network_fee" chain amount AssetQuantity_zero false "evm_receipt_gas"]
      else Ok []
  | None => Ok []
  end.

(** The transfer an event records: sender, receiver and amount. *)
Definition transfer_of (observed : option Log) : option (Z * Z * Z * Z) :=
  match observed with
  | Some (mkLog address [topic; from; to] data) =>
      if decide (topic = erc20TransferTopic /\ length data = 32%nat) then
        Some (address, topic_address from, topic_address to, BigEndian data)
      else None
  | _ => None
  end.

(** A pass of the loop over the events: the net input and the net output so far. *)
Definition apply_log (owner inputAddress outputAddress : Z) (nets : Z * Z) (observed : option Log) : Z * Z :=
  let '(inputNet, outputNet) := nets in
  match transfer_of observed with
  | None => nets
  | Some (token, from, to, value) =>
      if decide (token <> inputAddress /\ token <> outputAddress) then nets else
      if decide (Z.sgn value <= 0 \/ from = to) then nets else
      let delta := (if decide (to = owner) then value else 0) - (if decide (from = owner) then value else 0) in
      if decide (token = outputAddress) then (inputNet, outputNet + delta) else (inputNet + delta, outputNet)
  end.

Definition DecodeReceipt (d : ERC20TransferReceiptDecoder) (now : Time) (step : OperationStep) (receipt : option Receipt) : res Settlement :=
  match receipt with
  | None => Err (Errorf "EVM settlement receipt is required")
  | Some receipt =>
      costs ← receiptCosts d (leg_Chain (step_Leg step)) receipt;
      if decide (rc_Status receipt <> ReceiptStatusSuccessful) then
        Ok (mkSettlement "" "" (step_Identity step) StateConfirmedRevert EconomicReserved (mkTokenAmount "" None) (mkTokenAmount "" None) costs now
              "evm_receipt_revert")
      else
      let input := amount_token (leg_Input (step_Leg step)) in
      let output := amount_token (leg_ExpectedOutput (step_Leg step)) in
      match de_tokens d !! input, de_tokens d !! output with
      | Some inputAddress, Some outputAddress =>
          let '(inputNet, outputNet) := foldl (apply_log (de_owner d) inputAddress outputAddress) (0, 0) (rc_Logs receipt) in
          if decide (Z.sgn (- inputNet) <= 0 \/ Z.sgn outputNet <= 0)
          then Err (Errorf "EVM receipt does not prove positive wallet input and output deltas") else
          actualInput ← NewTokenAmount input (Some (- inputNet));
          actualOutput ← NewTokenAmount output (Some outputNet);
          Ok (mkSettlement "" "" (step_Identity step) StateConfirmedSuccess EconomicEffectVerified actualInput actualOutput costs now
                "evm_erc20_transfer_receipt")
      | _, _ => Err (Errorf "EVM settlement token mapping is missing")
      end
  end.

(** capabilities.go; [FilterQuery] is go-ethereum's. *)
Record LogFilter := mkLogFilter { lf_Address : Z; lf_Addresses : list Z; lf_Topics : list Z; lf_IndexedTopics : list (list Z) }.
Record FilterQuery := mkFilterQuery { fq_BlockHash : option Z; fq_Addresses : list Z; fq_Topics : list (list Z) }.

Definition Query (f : LogFilter) (blockHash : option Z) : FilterQuery :=
  mkFilterQuery blockHash
    (if decide (lf_Addresses f = [] /\ lf_Address f <> 0) then [lf_Address f] else lf_Addresses f)
    ((if decide (lf_Topics f = []) then [] else [lf_Topics f]) ++ lf_IndexedTopics f).

Definition Filter {order : RangeOrder TokenID} (d : ERC20TransferReceiptDecoder) : LogFilter :=
  mkLogFilter 0 (snd <$> range (de_tokens d)) [erc20TransferTopic] [[]; [de_owner d]].

(** [None]: the event is another one. *)
Definition DecodeLog (d : ERC20TransferReceiptDecoder) (now : Time) (step : OperationStep) (observed : Log) : res (option Settlement) :=
  let output := amount_token (leg_ExpectedOutput (step_Leg step)) in
  match de_tokens d !! output, transfer_of (Some observed) with
  | Some outputAddress, Some (token, _, to, units) =>
      if decide (token <> outputAddress \/ to <> de_owner d) then Ok None else
      if decide (Z.sgn units <= 0) then Ok None else
      amount ← NewTokenAmount output (Some units);
      Ok (Some (mkSettlement "" "" (step_Identity step) StateConfirmedSuccess EconomicReserved (mkTokenAmount "" None) amount [] now
                  "evm_erc20_transfer_log"))
  | _, _ => Ok None
  end.

(** ** What the wallet sent and received *)

Definition flow (owner token : Z) (incoming : bool) (observed : option Log) : Z :=
  match transfer_of observed with
  | Some (address, from, to, value) =>
      if decide (address = token /\ from <> to /\ (if incoming then to else from) = owner) then value else 0
  | None => 0
  end.

Definition received (owner token : Z) (receipt : Receipt) : Z := Zsum (flow owner token true <$> rc_Logs receipt).
Definition paid_out (owner token : Z) (receipt : Receipt) : Z := Zsum (flow owner token false <$> rc_Logs receipt).

(** The data of events are bytes. *)
Definition log_bytes (observed : option Log) : Prop := match observed with Some l => digits 256 (log_Data l) | None => True end.

Lemma transfer_value observed token from to value : log_bytes observed -> transfer_of observed = Some (token, from, to, value) -> 0 <= value.
Proof.
  destruct observed as [[address topics data]|]; [|done]. cbn. intros Hb H. destruct topics as [|topic [|f [|t [|]]]]; try done.
  destruct (decide _) as [[_ Hl]|]; [|done]. injection H as <- <- <- <-. pose proof (BigEndian_bounds data 32 Hb Hl). lia.
Qed.

Lemma apply_log_flow owner a b nets l : a <> b -> log_bytes l -> apply_log owner a b nets l =
  (nets.1 + flow owner a true l - flow owner a false l, nets.2 + flow owner b true l - flow owner b false l).
Proof.
  intros Hab Hl. destruct nets as [inputNet outputNet]. unfold apply_log, flow.
  destruct (transfer_of l) as [[[[token from] to] value]|] eqn:Ht; [|cbn; f_equal; lia]. pose proof (transfer_value _ _ _ _ _ Hl Ht) as Hv.
  destruct (decide (Z.sgn value <= 0 \/ from = to)) as [Hskip|Hgo].
  - assert (forall x y : Z, (if decide (token = x /\ from <> to /\ y = owner) then value else 0) = 0) as Hz.
    { intros x y. destruct (decide _) as [(_ & Hne & _)|]; [|done]. destruct Hskip; [destruct (Z.sgn_spec value); lia|done]. }
    rewrite !Hz. cbn [fst snd]. destruct (decide _); f_equal; lia.
  - assert (from <> to) as Hne by tauto. cbn [fst snd].
    assert (forall x y : Z, (if decide (token = x /\ from <> to /\ y = owner) then value else 0) =
      if decide (token = x) then (if decide (y = owner) then value else 0) else 0) as Hz
      by (intros x y; repeat case_decide; tauto).
    rewrite !Hz. destruct (decide (token = a)) as [->|Ha].
    + rewrite decide_False by tauto. rewrite !(decide_False (P := a = b)) by done. f_equal; lia.
    + destruct (decide (token = b)) as [->|Hb]; [rewrite decide_False by tauto|rewrite decide_True by tauto]; f_equal; lia.
Qed.

Lemma nets_spec owner a b logs : a <> b -> Forall log_bytes logs -> forall nets,
  foldl (apply_log owner a b) nets logs =
    (nets.1 + Zsum (flow owner a true <$> logs) - Zsum (flow owner a false <$> logs),
     nets.2 + Zsum (flow owner b true <$> logs) - Zsum (flow owner b false <$> logs)).
Proof.
  intros Hab. induction 1 as [|l logs Hl _ IH]; intros nets; [destruct nets; cbn; f_equal; lia|].
  cbn [foldl]. rewrite IH, (apply_log_flow _ _ _ _ _ Hab Hl), !fmap_cons, !Zsum_cons. cbn [fst snd]. f_equal; lia.
Qed.

(** C34.A confirmed swap is settled at exactly what its receipt shows.  With two different
    tokens, the input is what the wallet sent of the one less what it got back, the
    output what it received of the other less what it passed on, counting every transfer
    event of the receipt and nothing else; if either is not positive the receipt proves
    no settlement. *)
Theorem DecodeReceipt_exact d now step receipt a b :
  de_tokens d !! amount_token (leg_Input (step_Leg step)) = Some a -> de_tokens d !! amount_token (leg_ExpectedOutput (step_Leg step)) = Some b ->
  a <> b -> amount_token (leg_Input (step_Leg step)) <> "" -> amount_token (leg_ExpectedOutput (step_Leg step)) <> "" -> de_nativeAsset d <> "" ->
  Forall log_bytes (rc_Logs receipt) -> rc_Status receipt = ReceiptStatusSuccessful ->
  let spent := paid_out (de_owner d) a receipt - received (de_owner d) a receipt in
  let gained := received (de_owner d) b receipt - paid_out (de_owner d) b receipt in
  if decide (0 < spent /\ 0 < gained) then
    exists costs, receiptCosts d (leg_Chain (step_Leg step)) receipt = Ok costs /\
      DecodeReceipt d now step (Some receipt) =
        Ok (mkSettlement "" "" (step_Identity step) StateConfirmedSuccess EconomicEffectVerified
              (mkTokenAmount (amount_token (leg_Input (step_Leg step))) (Some spent))
              (mkTokenAmount (amount_token (leg_ExpectedOutput (step_Leg step))) (Some gained)) costs now "evm_erc20_transfer_receipt")
  else exists e, DecodeReceipt d now step (Some receipt) = Err e.
Proof.
  intros Ha Hb Hab Hin Hout Hnative Hlogs Hstatus spent gained.
  assert (exists costs, receiptCosts d (leg_Chain (step_Leg step)) receipt = Ok costs) as [costs Hcosts].
  { unfold receiptCosts. destruct (rc_EffectiveGasPrice receipt); [|by eexists]. destruct (decide _); [|by eexists].
    unfold NewAssetQuantity. rewrite decide_False by done. by eexists. }
  unfold DecodeReceipt. rewrite Hcosts. cbn [mbind res_bind]. rewrite (decide_False (P := rc_Status receipt <> ReceiptStatusSuccessful)) by (intros Hn; by apply Hn). rewrite Ha, Hb, nets_spec by done. cbn [fst snd].
  fold (received (de_owner d) a receipt) (paid_out (de_owner d) a receipt) (received (de_owner d) b receipt) (paid_out (de_owner d) b receipt).
  replace (- (0 + received (de_owner d) a receipt - paid_out (de_owner d) a receipt)) with spent by (unfold spent; lia).
  replace (0 + received (de_owner d) b receipt - paid_out (de_owner d) b receipt) with gained by (unfold gained; lia).
  destruct (decide (0 < spent /\ 0 < gained)) as [[Hs Hg]|Hno].
  - rewrite decide_False by (destruct (Z.sgn_spec spent), (Z.sgn_spec gained); lia). exists costs. split; [done|].
    rewrite !NewTokenAmount_Ok by (done || lia). done.
  - rewrite decide_True by (destruct (Z.sgn_spec spent), (Z.sgn_spec gained); lia). by eexists.
Qed.
End decoder.

(** A receipt with a swap, a fee taken on the way and an unrelated transfer. *)
Module Erc20Witness.
#[local] Instance geth : Geth := {|
  IsHexAddress _ := true; HexToAddress _ := 1; IsHexHash _ := true; SignTx _ := Ok ("", ""); UnmarshalBinary _ := Err (Errorf "");
  Error _ := ""; Timeout _ := false |}.
Definition decoder : ERC20TransferReceiptDecoder := mkDecoder 1000 {["usdc" := 1; "weth" := 2]} "eth".
Definition word (value : Z) : list Z := be 32 value.
Definition event (token from to value : Z) : option Log := Some (mkLog token [77; from; to] (word value)).
Definition receipt : Receipt := mkReceipt 1 21000 (Some (10 ^ 9))
  [event 1 1000 2000 500; event 2 2000 1000 90; event 2 1000 3000 2; None; event 3 2000 1000 4; event 1 2000 1000 20].
Definition step : OperationStep := mkOperationStep "op"
  (mkLeg "buy" LegBuy "optimism" "wallet" "pool" (mkTokenAmount "usdc" (Some 500)) (mkTokenAmount "weth" (Some 88)))
  (mkTransactionIdentity "optimism" "wallet" "0xfeed" (Some 7) "" 0) None StateBroadcastPossible EconomicReserved.

Lemma receipt_witness : exists costs, receiptCosts decoder "optimism" receipt = Ok costs /\
  DecodeReceipt 77 decoder 9000 step (Some receipt) = Ok (mkSettlement "" "" (step_Identity step) StateConfirmedSuccess EconomicEffectVerified
    (mkTokenAmount "usdc" (Some 480)) (mkTokenAmount "weth" (Some 88)) costs 9000 "evm_erc20_transfer_receipt").
Proof.
  assert (Forall log_bytes (rc_Logs receipt)) as Hlogs
    by (unfold receipt; cbn [rc_Logs]; rewrite !Forall_cons, Forall_nil; split_and!; try exact I; apply digits_dec; vm_compute; reflexivity).
  pose proof (DecodeReceipt_exact 77 decoder 9000 step receipt 1 2 eq_refl eq_refl ltac:(done) ltac:(done) ltac:(done) ltac:(done) Hlogs eq_refl) as H.
  vm_compute paid_out in H. vm_compute received in H. exact H.
Defined.
End Erc20Witness.
