(* ===== verification/OrcaWhirlpool.v ===== *)
(** * Orca Whirlpools
    (src/adapters/market/orcawhirlpool/state.go, swap.go, quoter.go)

    A concentrated-liquidity pool of Solana: its snapshot and reducer, the swap over
    its initialized ticks for an exact input or an exact output, and the quoter.
    Prices are Q64.64 numbers.  The loop of [swap] has no bound of its own; it takes
    fuel here, and [OrcaSwap] shows that a pass for every tick and two more are enough. *)
From S2P Require Import Prelude Amount Quote Registry Pools Bytes Base58.
Local Open Scope Z_scope.

Definition snapshotSchemaVersion : Z := 1.
Definition feeRatePrecision : Z := 1000000.
Definition whirlpoolMinTick : Z := -443636.
Definition whirlpoolMaxTick : Z := 443636.
Definition whirlpoolMinPrice : Z := 4295048016.
Definition whirlpoolMaxPrice : Z := 79226673515401279992447579055.
Definition fixedTickArraySize : Z := 88.

(** ** State *)

Record Tick := mkTick { tick_index : Z; tick_net : option Z }.

Definition NewTick (index : Z) (liquidityNet : option Z) : res Tick :=
  match liquidityNet with
  | None => Err (Errorf "tick liquidity net is required")
  | Some _ => Ok (mkTick index liquidityNet)
  end.

Record Snapshot := mkSnapshot {
  wp_schemaVersion : Z; wp_sqrtPriceX64 : option Z; wp_tick : Z; wp_liquidity : option Z; wp_feeRate : Z; wp_tickSpacing : Z;
  wp_ticks : list Tick; wp_fullCoverage : bool; wp_minTick : Z; wp_maxTick : Z }.

(** One pass of the loop over the ticks; the loop variable is the previous index. *)
Definition validate_tick (s : Snapshot) (previous : Z) (tick : Tick) : res Z :=
  if decide (tick_net tick = None \/ tick_index tick <= previous \/ Z.rem (tick_index tick) (wp_tickSpacing s) <> 0 \/
             wp_fullCoverage s = false /\ (tick_index tick < wp_minTick s \/ wp_maxTick s < tick_index tick))
  then Err (Errorf "invalid Whirlpool tick %d") else Ok (tick_index tick).

Definition validate (s : Snapshot) : res unit :=
  match wp_sqrtPriceX64 s, wp_liquidity s with
  | Some price, Some liquidity =>
      if decide (wp_schemaVersion s <> snapshotSchemaVersion \/ Z.sgn price <= 0 \/ Z.sgn liquidity < 0 \/
                 feeRatePrecision <= wp_feeRate s \/ wp_tickSpacing s <= 0)
      then Err (Errorf "invalid Orca Whirlpool state") else
      if decide (wp_fullCoverage s = false /\ wp_maxTick s < wp_minTick s) then Err (Errorf "invalid Whirlpool tick coverage") else
      if decide (wp_fullCoverage s = false /\ (wp_tick s < wp_minTick s \/ wp_maxTick s < wp_tick s))
      then Err (Errorf "current Whirlpool tick is outside declared coverage") else
      _ ← foldM (validate_tick s) (- 2 ^ 31) (wp_ticks s);
      Ok tt
  | _, _ => Err (Errorf "invalid Orca Whirlpool state")
  end.

(** The fee in basis points, rounded up. *)
Definition FeeBPS (s : Snapshot) : Z := (Z.quot (wp_feeRate s * 10000 + feeRatePrecision - 1) feeRatePrecision) mod 2 ^ 16.

(** ** Updates *)

Record StateUpdate := mkStateUpdate {
  su_sqrtPriceX64 : option Z; su_tick : Z; su_liquidity : option Z; su_feeRate : Z; su_tickSpacing : Z; su_ticks : list Tick;
  su_fullCoverage : bool; su_minTick : Z; su_maxTick : Z }.

Definition snapshot_of (u : StateUpdate) : Snapshot :=
  mkSnapshot snapshotSchemaVersion (su_sqrtPriceX64 u) (su_tick u) (su_liquidity u) (su_feeRate u) (su_tickSpacing u) (su_ticks u)
    (su_fullCoverage u) (su_minTick u) (su_maxTick u).

Definition NewCoveredStateUpdateWithFeeRate (sqrtPriceX64 : option Z) (tick : Z) (liquidity : option Z) (feeRate tickSpacing : Z)
    (ticks : list Tick) (full : bool) (minTick maxTick : Z) : res StateUpdate :=
  let update := mkStateUpdate sqrtPriceX64 tick liquidity feeRate tickSpacing ticks full minTick maxTick in
  _ ← validate (snapshot_of update);
  Ok update.

Definition NewCoveredStateUpdate (sqrtPriceX64 : option Z) (tick : Z) (liquidity : option Z) (feeBPS tickSpacing : Z)
    (ticks : list Tick) (full : bool) (minTick maxTick : Z) : res StateUpdate :=
  NewCoveredStateUpdateWithFeeRate sqrtPriceX64 tick liquidity (feeBPS * 100) tickSpacing ticks full minTick maxTick.

Definition NewStateUpdate (sqrtPriceX64 : option Z) (tick : Z) (liquidity : option Z) (feeBPS tickSpacing : Z) (ticks : list Tick) :
    res StateUpdate :=
  NewCoveredStateUpdateWithFeeRate sqrtPriceX64 tick liquidity (feeBPS * 100) tickSpacing ticks true 0 0.

(** The payloads of the package. *)
Inductive WhirlpoolEvent :=
| StateEvent (update : StateUpdate)
| PoolUpdate (sqrtPriceX64 : option Z) (tick : Z) (liquidity : option Z) (feeRate : Z)
| TickArrayUpdate (startTick spacing : Z) (ticks : list Tick)
| SwapUpdate (sqrtPriceX64 : option Z) (tick : Z) (liquidity : option Z)
| LiquidityUpdate (delta : option Z)
| TickUpdate (tick : Tick).

Definition newPoolUpdate (sqrtPriceX64 : option Z) (tick : Z) (liquidity : option Z) (feeRate : Z) : res WhirlpoolEvent :=
  match sqrtPriceX64, liquidity with
  | Some price, Some l =>
      if decide (Z.sgn price <= 0 \/ Z.sgn l < 0 \/ feeRatePrecision <= feeRate) then Err (Errorf "invalid Whirlpool pool update")
      else Ok (PoolUpdate sqrtPriceX64 tick liquidity feeRate)
  | _, _ => Err (Errorf "invalid Whirlpool pool update")
  end.

Definition newTickArrayUpdate (startTick spacing : Z) (ticks : list Tick) : res WhirlpoolEvent :=
  if decide (spacing <= 0) then Err (Errorf "invalid Whirlpool tick array spacing") else Ok (TickArrayUpdate startTick spacing ticks).

Definition NewSwapUpdate (sqrtPriceX64 : option Z) (tick : Z) (liquidity : option Z) : res WhirlpoolEvent :=
  match sqrtPriceX64, liquidity with
  | Some price, Some l =>
      if decide (Z.sgn price <= 0 \/ Z.sgn l < 0) then Err (Errorf "invalid Whirlpool swap state")
      else Ok (SwapUpdate sqrtPriceX64 tick liquidity)
  | _, _ => Err (Errorf "invalid Whirlpool swap state")
  end.

Definition NewLiquidityUpdate (delta : option Z) : res WhirlpoolEvent :=
  match delta with None => Err (Errorf "liquidity delta is required") | Some _ => Ok (LiquidityUpdate delta) end.

(** ** Reducer *)

(** [sort.Slice] by index.  It is not stable, but a list with two ticks of the same
    index is rejected in whatever order they end up. *)
Definition tick_le (t u : Tick) : Prop := tick_index t <= tick_index u.
#[global] Instance tick_le_dec : RelDecision tick_le := ltac:(unfold tick_le, RelDecision; intros; apply _).
Definition sort_ticks (ticks : list Tick) : list Tick := merge_sort tick_le ticks.

Definition with_pool (s : Snapshot) (sqrtPriceX64 : option Z) (tick : Z) (liquidity : option Z) (feeRate : Z) : Snapshot :=
  mkSnapshot (wp_schemaVersion s) sqrtPriceX64 tick liquidity feeRate (wp_tickSpacing s) (wp_ticks s) (wp_fullCoverage s)
    (wp_minTick s) (wp_maxTick s).

Definition with_ticks (s : Snapshot) (ticks : list Tick) : Snapshot :=
  mkSnapshot (wp_schemaVersion s) (wp_sqrtPriceX64 s) (wp_tick s) (wp_liquidity s) (wp_feeRate s) (wp_tickSpacing s) ticks
    (wp_fullCoverage s) (wp_minTick s) (wp_maxTick s).

(** The ticks outside the array, which the ticks of the update replace. *)
Definition replace_array (ticks : list Tick) (startTick spacing : Z) (updated : list Tick) : list Tick :=
  let arrayMax := int32 (startTick + int32 ((fixedTickArraySize - 1) * spacing)) in
  sort_ticks (filter (fun t => tick_index t < startTick \/ arrayMax < tick_index t) ticks ++ updated).

Definition replace_tick (ticks : list Tick) (tick : Tick) : list Tick :=
  let replaced := (fun t => if decide (tick_index t = tick_index tick) then tick else t) <$> ticks in
  sort_ticks (if decide (Exists (fun t => tick_index t = tick_index tick) ticks) then replaced else replaced ++ [tick]).

Definition canonical_tick (t : Tick) : string := "|" +:+ pretty (tick_index t) +:+ ":" +:+ pretty_int (tick_net t).

(** The text [hashState] hashes. *)
Definition canonical (s : Snapshot) : string :=
  pretty (wp_schemaVersion s) +:+ "|" +:+ pretty_int (wp_sqrtPriceX64 s) +:+ "|" +:+ pretty (wp_tick s) +:+ "|" +:+
  pretty_int (wp_liquidity s) +:+ "|" +:+ pretty (wp_feeRate s) +:+ "|" +:+ pretty (wp_tickSpacing s) +:+ "|" +:+
  (if wp_fullCoverage s then "true" else "false") +:+ "|" +:+ pretty (wp_minTick s) +:+ "|" +:+ pretty (wp_maxTick s) +:+
  foldr (fun t text => canonical_tick t +:+ text) "" (wp_ticks s).

(** [as_snapshot] and [as_event] are the type assertions on the payload interfaces and
    [inject] the conversion of a [Snapshot] to its interface. *)
Section reducer.
Context {D E : Type} (as_snapshot : D -> option Snapshot) (inject : Snapshot -> D).
Context (as_event : E -> option WhirlpoolEvent) (sha256 : string -> Digest) (ctx_Err : option error).

Definition hashState (s : Snapshot) : Digest := sha256 (canonical s).

Definition require (previous : option D) : res Snapshot :=
  match previous ≫= as_snapshot with
  | Some state =>
      if decide (wp_schemaVersion state <> snapshotSchemaVersion)
      then Err (Errorf "whirlpool update requires a compatible snapshot") else Ok state
  | None => Err (Errorf "whirlpool update requires a compatible snapshot")
  end.

Definition reduced (previous : option D) (event : WhirlpoolEvent) : res Snapshot :=
  match event with
  | StateEvent update => Ok (snapshot_of update)
  | PoolUpdate price tick liquidity feeRate => s ← require previous; Ok (with_pool s price tick liquidity feeRate)
  | TickArrayUpdate start spacing ticks => s ← require previous; Ok (with_ticks s (replace_array (wp_ticks s) start spacing ticks))
  | SwapUpdate price tick liquidity => s ← require previous; Ok (with_pool s price tick liquidity (wp_feeRate s))
  | LiquidityUpdate delta =>
      s ← require previous;
      liquidity ← deref (wp_liquidity s);
      delta ← deref delta;
      Ok (with_pool s (wp_sqrtPriceX64 s) (wp_tick s) (Some (liquidity + delta)) (wp_feeRate s))
  | TickUpdate tick => s ← require previous; Ok (with_ticks s (replace_tick (wp_ticks s) tick))
  end.

Definition Reduce (previous : option D) (event : E) : res (option D * Digest) :=
  match ctx_Err with
  | Some e => Err e
  | None =>
      match as_event event with
      | None => Err (Errorf "unsupported Orca Whirlpool event %T")
      | Some update =>
          next ← reduced previous update;
          _ ← validate next;
          Ok (Some (inject next), hashState next)
      end
  end.
End reducer.

(** ** Tick prices *)

Definition positiveFactors : list Z := [
  79232123823359799118286999567; 79236085330515764027303304731; 79244008939048815603706035061;
  79259858533276714757314932305; 79291567232598584799939703904; 79355022692464371645785046466;
  79482085999252804386437311141; 79736823300114093921829183326; 80248749790819932309965073892;
  81282483887344747381513967011; 83390072131320151908154831281; 87770609709833776024991924138;
  97234110755111693312479820773; 119332217159966728226237229890; 179736315981702064433883588727;
  407748233172238350107850275304; 2098478828474011932436660412517; 55581415166113811149459800483533;
  38992368544603139932233054999993551].

Definition negativeFactors : list Z := [
  18445821805675392311; 18444899583751176498; 18443055278223354162; 18439367220385604838;
  18431993317065449817; 18417254355718160513; 18387811781193591352; 18329067761203520168;
  18212142134806087854; 17980523815641551639; 17526086738831147013; 16651378430235024244;
  15030750278693429944; 12247334978882834399; 8131365268884726200; 3584323654723342297;
  696457651847595233; 26294789957452057; 37481735321082].

Definition q64Int : Z := Z.shiftl 1 64.

(** One pass of the loop over the bits. *)
Definition tick_factor (shift value ratio : Z) (bit_factor : nat * Z) : Z :=
  let '(bit, factor) := bit_factor in
  if decide (Z.land value (Z.shiftl 1 (Z.of_nat bit)) <> 0) then Z.shiftr (ratio * factor) shift else ratio.

(** The product of the factors of the bits of [value]: the first is not multiplied. *)
Definition tick_ratio (shift unit : Z) (factors : list Z) (value : Z) : Z :=
  let ratio := if decide (Z.land value 1 <> 0) then nth 0 factors 0 else unit in
  foldl (tick_factor shift value) ratio (zip (seq 1 18) (tail factors)).

Definition sqrtPriceFromTick (tick : Z) : res Z :=
  if decide (tick < whirlpoolMinTick \/ whirlpoolMaxTick < tick) then Err (Errorf "tick %d outside Whirlpool bounds") else
  if decide (tick = 0) then Ok q64Int else
  let value := if decide (tick < 0) then - tick else tick in
  if decide (0 < tick) then Ok (Z.shiftr (tick_ratio 96 79228162514264337593543950336 positiveFactors value) 32)
  else Ok (tick_ratio 64 q64Int negativeFactors value).

(** ** Swap steps *)

(** [big.Int.QuoRem] panics on a zero divisor; [OrcaSwap] shows that the divisors of a
    step are positive. *)
Definition divRound (numerator denominator : Z) (roundUp : bool) : Z :=
  if roundUp then divRoundingUp numerator denominator else Z.quot numerator denominator.

Definition amountDeltaA (lower upper liquidity : Z) (roundUp : bool) : Z :=
  divRound (Z.shiftl (liquidity * (upper - lower)) 64) (upper * lower) roundUp.

Definition amountDeltaB (lower upper liquidity : Z) (roundUp : bool) : Z :=
  divRound (liquidity * (upper - lower)) q64Int roundUp.

Definition ordered (left right : Z) : Z * Z := if decide (left <= right) then (left, right) else (right, left).

Definition fixedDelta (current target liquidity : Z) (exactInput aToB : bool) : Z :=
  let '(lower, upper) := ordered current target in
  if bool_decide (aToB = exactInput) then amountDeltaA lower upper liquidity exactInput
  else amountDeltaB lower upper liquidity exactInput.

Definition unfixedDelta (current target liquidity : Z) (exactInput aToB : bool) : Z :=
  let '(lower, upper) := ordered current target in
  if bool_decide (aToB = exactInput) then amountDeltaB lower upper liquidity (negb exactInput)
  else amountDeltaA lower upper liquidity (negb exactInput).

Definition nextSqrtPrice (price liquidity amount : Z) (exactInput aToB : bool) : res Z :=
  if decide (Z.sgn amount = 0) then Ok price else
  if bool_decide (exactInput = aToB) then
    let numerator := Z.shiftl (liquidity * price) 64 in
    let product := price * amount in
    let denominator := Z.shiftl liquidity 64 in
    if exactInput then Ok (divRound numerator (denominator + product) true) else
    if decide (Z.sgn (denominator - product) <= 0) then Err (Errorf "whirlpool output exceeds liquidity")
    else Ok (divRound numerator (denominator - product) true)
  else
    let delta := divRound (amount * q64Int) liquidity (negb exactInput) in
    if exactInput then Ok (price + delta) else
    if decide (price < delta) then Err (Errorf "whirlpool price underflow") else Ok (price - delta).

Record swapStep := mkSwapStep { st_in : Z; st_out : Z; st_fee : Z; st_next : Z }.

Definition computeStep (remaining feeRate liquidity current target : Z) (exactInput aToB : bool) : res swapStep :=
  if decide (Z.sgn remaining <= 0 \/ Z.sgn liquidity <= 0 \/ Z.sgn current <= 0 \/ Z.sgn target <= 0 \/ feeRatePrecision <= feeRate)
  then Err (Errorf "invalid Whirlpool swap step") else
  if decide ((aToB = true /\ current < target) \/ (aToB = false /\ target < current))
  then Err (Errorf "whirlpool target moves in the wrong direction") else
  let netFactor := feeRatePrecision - feeRate in
  let amountCalc := if exactInput then Z.quot (remaining * netFactor) feeRatePrecision else remaining in
  let initialFixed := fixedDelta current target liquidity exactInput aToB in
  next ← (if decide (amountCalc < initialFixed) then nextSqrtPrice current liquidity amountCalc exactInput aToB else Ok target);
  let isMax := bool_decide (next = target) in
  let unfixed := unfixedDelta current next liquidity exactInput aToB in
  let fixed := if isMax then initialFixed else fixedDelta current next liquidity exactInput aToB in
  let '(inp, out) := if exactInput then (fixed, unfixed)
                     else (unfixed, if decide (remaining < fixed) then remaining else fixed) in
  let fee := if exactInput && negb isMax then remaining - inp else Z.quot (inp * feeRate + (netFactor - 1)) netFactor in
  Ok (mkSwapStep inp out fee next).

(** ** The traversal *)

(** The candidates below or above the current tick; the nearest one is kept. *)
Definition nearer_tick (current : Z) (aToB : bool) (candidate : option Tick) (tick : Tick) : option Tick :=
  if decide ((aToB = true /\ tick_index tick <= current) \/ (aToB = false /\ current < tick_index tick)) then
    match candidate with
    | None => Some tick
    | Some c =>
        if decide ((aToB = true /\ tick_index c < tick_index tick) \/ (aToB = false /\ tick_index tick < tick_index c))
        then Some tick else candidate
    end
  else candidate.

Definition nextInitializedTick (ticks : list Tick) (current : Z) (aToB : bool) : option (Z * Z) :=
  match foldl (nearer_tick current aToB) None ticks with
  | None => None
  | Some candidate =>
      match sqrtPriceFromTick (tick_index candidate) with Ok price => Some (tick_index candidate, price) | _ => None end
  end.

Fixpoint crossLiquidity (liquidity : Z) (ticks : list Tick) (index : Z) (aToB : bool) : res Z :=
  match ticks with
  | [] => Ok liquidity
  | tick :: ticks =>
      if decide (tick_index tick <> index) then crossLiquidity liquidity ticks index aToB else
      net ← deref (tick_net tick);
      let next := if aToB then liquidity - net else liquidity + net in
      if decide (Z.sgn next < 0) then Err (Errorf "whirlpool liquidity underflow at tick %d") else Ok next
  end.

(** The loop variables. *)
Record SwapLoop := mkSwapLoop {
  lo_remaining : Z; lo_calculated : Z; lo_fees : Z; lo_price : option Z; lo_liquidity : Z; lo_tick : Z }.

Section swap.
Context (state : Snapshot) (aToB exactInput : bool).

(** The initialized tick ahead, if there is one, and the price to go to; [None] is a nil
    price. *)
Definition swap_target (tick : Z) : option Z * option Z :=
  match nextInitializedTick (wp_ticks state) tick aToB with
  | Some (nextTick, price) => (Some nextTick, Some price)
  | None =>
      (None,
       if wp_fullCoverage state then Some (if aToB then whirlpoolMinPrice else whirlpoolMaxPrice) else
       if aToB then res_opt (sqrtPriceFromTick (wp_minTick state))
       else res_opt (sqrtPriceFromTick (int32 (wp_maxTick state + wp_tickSpacing state))))
  end.

Definition cross (s : SwapLoop) (nextTick : Z) : res SwapLoop :=
  nextLiquidity ← crossLiquidity (lo_liquidity s) (wp_ticks state) nextTick aToB;
  Ok (mkSwapLoop (lo_remaining s) (lo_calculated s) (lo_fees s) (lo_price s) nextLiquidity
        (if aToB then int32 (nextTick - 1) else nextTick)).

(** The target cannot be moved to. *)
Definition at_target (s : SwapLoop) (hasTick : option Z) : res SwapLoop :=
  match hasTick with
  | Some nextTick => cross s nextTick
  | None => Err (Errorf "whirlpool has insufficient tick coverage")
  end.

Definition spend (s : SwapLoop) (step : swapStep) : SwapLoop :=
  mkSwapLoop (if exactInput then lo_remaining s - (st_in step + st_fee step) else lo_remaining s - st_out step)
    (if exactInput then lo_calculated s + st_out step else lo_calculated s + st_in step + st_fee step)
    (lo_fees s + st_fee step) (Some (st_next step)) (lo_liquidity s) (lo_tick s).

Definition swap_iteration (s : SwapLoop) : res SwapLoop :=
  let '(hasTick, target) := swap_target (lo_tick s) in
  match target with
  | None => at_target s hasTick
  | Some target =>
      if decide (Z.sgn target <= 0) then at_target s hasTick else
      price ← deref (lo_price s);
      if decide (target = price) then at_target s hasTick else
      step ← computeStep (lo_remaining s) (wp_feeRate state) (lo_liquidity s) price target exactInput aToB;
      let s := spend s step in
      match hasTick with
      | Some nextTick =>
          if decide (st_next step = target) then cross s nextTick else
          if decide (0 < Z.sgn (lo_remaining s)) then Err (Errorf "whirlpool has insufficient tick coverage") else Ok s
      | None => if decide (0 < Z.sgn (lo_remaining s)) then Err (Errorf "whirlpool has insufficient tick coverage") else Ok s
      end
  end.

Fixpoint swap_loop (fuel : nat) (s : SwapLoop) : res SwapLoop :=
  if decide (0 < Z.sgn (lo_remaining s)) then
    match fuel with
    | O => Panic "out of fuel"
    | S fuel => s' ← swap_iteration s; swap_loop fuel s'
    end
  else Ok s.

(** A pass for every tick, one for the boundary and one to spare. *)
Definition swap_fuel : nat := length (wp_ticks state) + 2.

Definition ErrRoundsToZero : error := Wrapf "whirlpool: %w" ErrQuoteOutputRoundsToZero.

Definition swap (amount : option Z) : res (Z * Z) :=
  match amount with
  | None => Err (Errorf "invalid whirlpool swap request")
  | Some amount =>
      if decide (Z.sgn amount <= 0) then Err (Errorf "invalid whirlpool swap request") else
      liquidity ← deref (wp_liquidity state);
      if decide (Z.sgn liquidity <= 0 \/ feeRatePrecision <= wp_feeRate state) then Err (Errorf "invalid whirlpool swap request") else
      s ← swap_loop swap_fuel (mkSwapLoop amount 0 0 (wp_sqrtPriceX64 state) liquidity (wp_tick state));
      if decide (exactInput = false /\ Z.sgn (lo_calculated s) = 0) then Err ErrRoundsToZero
      else Ok (lo_calculated s, lo_fees s)
  end.
End swap.

(** ** Quoter *)

Record Quoter := mkQuoter { qt_id : SourceID; qt_market : Market; qt_tokenA : TokenID; qt_tokenB : TokenID }.

Definition matches (candidate : Market) (first second : TokenID) : Prop :=
  (Market_BaseToken candidate = first /\ Market_QuoteToken candidate = second) \/
  (Market_BaseToken candidate = second /\ Market_QuoteToken candidate = first).
#[global] Instance matches_dec c t0 t1 : Decision (matches c t0 t1) := ltac:(unfold matches; apply _).

Definition NewQuoter (id : SourceID) (candidate : Market) (tokenA tokenB : TokenID) : res Quoter :=
  if decide (id = "" \/ Market_ID candidate = "" \/ tokenA = "" \/ tokenB = "" \/ tokenA = tokenB \/ ~ matches candidate tokenA tokenB)
  then Err (Errorf "source, market, and Whirlpool token endpoints are required") else Ok (mkQuoter id candidate tokenA tokenB).

(** [bytes.Compare(a, b) < 0]. *)
Fixpoint bytes_less (a b : list Z) : bool :=
  match a, b with
  | [], [] => false
  | [], _ :: _ => true
  | _ :: _, [] => false
  | x :: a, y :: b => if decide (x = y) then bytes_less a b else bool_decide (x < y)
  end.

Definition NewQuoterWithAddresses (id : SourceID) (candidate : Market) (first : TokenID) (firstAddress : string) (second : TokenID)
    (secondAddress : string) : res Quoter :=
  if decide (firstAddress = "" \/ secondAddress = "") then Err (Errorf "whirlpool token addresses are required") else
  firstKey ← wrap "decode first Whirlpool token address: %w" (DecodePublicKey firstAddress);
  secondKey ← wrap "decode second Whirlpool token address: %w" (DecodePublicKey secondAddress);
  if bytes_less firstKey secondKey then NewQuoter id candidate first second else NewQuoter id candidate second first.

Section quoter.
Context {D : Type} (as_snapshot : D -> option Snapshot) (q : Quoter) (ctx_Err : option error).

Definition pool_state (snapshot : MarketSnapshot D) : res Snapshot :=
  if decide (md_Market (snap_metadata snapshot) <> Market_ID (qt_market q))
  then Err (Errorf "snapshot belongs to market %q, expected %q") else
  match snap_data snapshot ≫= as_snapshot with
  | Some state =>
      if decide (wp_schemaVersion state <> snapshotSchemaVersion) then Err (Errorf "incompatible Orca Whirlpool snapshot %T") else Ok state
  | None => Err (Errorf "incompatible Orca Whirlpool snapshot %T")
  end.

Definition supportsDirection (tokenIn tokenOut : TokenID) : bool :=
  bool_decide (~ ((tokenIn <> qt_tokenA q /\ tokenIn <> qt_tokenB q) \/ (tokenOut <> qt_tokenA q /\ tokenOut <> qt_tokenB q) \/
                  tokenIn = tokenOut)).

Definition result (snapshot : MarketSnapshot D) (tokenIn : TokenID) (purpose mode : string) (quotedAt : Time) (amountIn : TokenAmount)
    (outputToken : TokenID) (outputUnits feeUnits : Z) : res Quote :=
  out ← NewTokenAmount outputToken (Some outputUnits);
  pool_quote (qt_id q) (Market_ID (qt_market q)) (snap_metadata snapshot) purpose mode quotedAt tokenIn amountIn out feeUnits.

Definition Quote (input : QuoteInput D) : res Quote :=
  match ctx_Err with
  | Some e => Err e
  | None =>
      state ← pool_state (in_Snapshot input);
      if negb (supportsDirection (in_TokenIn input) (in_TokenOut input)) then Err (Errorf "unsupported Whirlpool token direction") else
      '(out, fee) ← swap state (bool_decide (in_TokenIn input = qt_tokenA q)) true (Some (Units (in_AmountIn input)));
      result (in_Snapshot input) (in_TokenIn input) (in_Purpose input) QuoteModeExactInput (in_QuotedAt input) (in_AmountIn input)
        (in_TokenOut input) out fee
  end.

Definition QuoteExactOutput (input : ExactOutputInput D) : res Quote.Quote :=
  match ctx_Err with
  | Some e => Err e
  | None =>
      state ← pool_state (out_Snapshot input);
      if negb (supportsDirection (out_TokenIn input) (out_TokenOut input)) then Err (Errorf "unsupported Whirlpool token direction") else
      '(inp, fee) ← swap state (bool_decide (out_TokenIn input = qt_tokenA q)) false (Some (Units (out_AmountOut input)));
      amount ← NewTokenAmount (out_TokenIn input) (Some inp);
      result (out_Snapshot input) (out_TokenIn input) (out_Purpose input) QuoteModeExactOutput (out_QuotedAt input) amount
        (out_TokenOut input) (Units (out_AmountOut input)) fee
  end.
End quoter.

(** Prices of the canonical tables of the protocol. *)
Example tick_prices : sqrtPriceFromTick 1 = Ok 18447666387855959850 /\ sqrtPriceFromTick whirlpoolMinTick = Ok whirlpoolMinPrice /\
  sqrtPriceFromTick whirlpoolMaxTick = Ok whirlpoolMaxPrice.
Proof. split_and!; vm_compute; reflexivity. Qed.
