(* ===== verification/OrcaDecoder.v ===== *)
(** * Accounts of an Orca Whirlpool (src/adapters/market/orcawhirlpool/solana.go)

    The decoder reads the state of a pool from the bytes of its accounts: the pool
    itself and its tick arrays, of a fixed and of a dynamic layout.  The reads of the
    network are stateful operations on an arbitrary world.  Theorem: the tick arrays
    are read back exactly as they are laid out, an account of another pool or another
    kind is passed over, and no account makes the parser panic. *)
From S2P Require Import Prelude Pools Bytes Base58 OrcaWhirlpool.
Local Open Scope Z_scope.

(** ** Numbers, least significant byte first *)

Definition littleEndianInt (value : list Z) : Z := LittleEndian value.

(** Two's complement; an empty slice has no sign byte. *)
Definition signedLittleEndian (value : list Z) : res Z :=
  match last value with
  | None => Panic "index out of range"
  | Some top => Ok (if decide (Z.land top 128 <> 0) then littleEndianInt value - Z.shiftl 1 (Z.of_nat (length value) * 8) else littleEndianInt value)
  end.

Definition floorDiv (value divisor : Z) : Z := if decide (Z.rem value divisor < 0) then Z.quot value divisor - 1 else Z.quot value divisor.

(** ** Layout *)

Definition whirlpoolDiscriminator : list Z := [63; 149; 209; 12; 225; 128; 99; 9].
Definition whirlpoolProgram : string := "whirLbMiicVdio4qvUfM5KAg6Ct8VwpYzGff3uctyCc".
Definition tickArraySize : nat := 88.
Definition fixedTickSize : nat := 113.
Definition fixedTickArrayAccountSize : nat := 9988.
Definition dynamicTickArrayAccountSize : nat := 10004.
Definition fixedTickArrayDiscriminator : list Z := [69; 97; 189; 190; 110; 7; 66; 187].
Definition dynamicTickArrayDiscriminator : list Z := [17; 216; 246; 142; 225; 199; 218; 56].

(** The ticks of an array and its start; [None] is an account of another kind. *)
Definition parsed_array : Type := option (list Tick * Z).

(** [data[:8]], read once the length is known. *)
Definition has_discriminator (data discriminator : list Z) : bool := bool_decide (take 8 data = discriminator).

(** The tick in slot [i], whose bytes start at [offset]. *)
Definition read_tick (data : list Z) (start spacing : Z) (offset i : nat) : res Tick :=
  net ← (value ← slice data (offset + 1) (offset + 17); signedLittleEndian value);
  NewTick (int32 (start + int32 (Z.of_nat i * spacing))) (Some net).

Definition fixed_slot (data : list Z) (start spacing : Z) (ticks : list Tick) (i : nat) : res (list Tick) :=
  let offset := (12 + i * fixedTickSize)%nat in
  initialized ← byte_at data offset;
  if decide (initialized = 0) then Ok ticks else
  tick ← read_tick data start spacing offset i;
  Ok (ticks ++ [tick]).

Definition parseFixedTickArray (data : list Z) (spacing : Z) : res parsed_array :=
  if decide (length data = 0%nat) then Ok None else
  if decide (length data < 8 + 36 + fixedTickSize * tickArraySize)%nat then Ok None else
  if negb (has_discriminator data fixedTickArrayDiscriminator) then Ok None else
  start ← (word ← slice data 8 12; Ok (int32 (littleEndianInt word)));
  ticks ← foldM (fixed_slot data start spacing) [] (seq 0 tickArraySize);
  Ok (Some (ticks, start)).

Definition dynamic_slot (data : list Z) (start spacing : Z) (ticks : list Tick) (i : nat) : res (list Tick) :=
  let offset := (60 + i * fixedTickSize)%nat in
  tag ← byte_at data offset;
  if decide (tag = 0) then Ok ticks else
  if decide (tag <> 1) then Err (Errorf "invalid dynamic whirlpool tick state") else
  tick ← read_tick data start spacing offset i;
  Ok (ticks ++ [tick]).

Definition parseDynamicTickArray (data : list Z) (spacing : Z) : res parsed_array :=
  if decide (spacing <= 0) then Ok None else
  if decide (length data < dynamicTickArrayAccountSize)%nat then Ok None else
  if negb (has_discriminator data dynamicTickArrayDiscriminator) then Ok None else
  start ← (word ← slice data 8 12; Ok (int32 (littleEndianInt word)));
  ticks ← foldM (dynamic_slot data start spacing) [] (seq 0 tickArraySize);
  Ok (Some (ticks, start)).

Definition parseTickArray (data : list Z) (spacing : Z) (pool : list Z) : res parsed_array :=
  if bool_decide (fixedTickArrayAccountSize <= length data)%nat && has_discriminator data fixedTickArrayDiscriminator then
    owner ← slice data (fixedTickArrayAccountSize - 32) fixedTickArrayAccountSize;
    if decide (owner <> pool) then Ok None else parseFixedTickArray data spacing
  else if bool_decide (dynamicTickArrayAccountSize <= length data)%nat && has_discriminator data dynamicTickArrayDiscriminator then
    owner ← slice data 12 44;
    if decide (owner <> pool) then Ok None else parseDynamicTickArray data spacing
  else Ok None.

Definition read_number (data : list Z) (lo hi : nat) : res Z := value ← slice data lo hi; Ok (littleEndianInt value).

Definition is_pool (data : list Z) : bool := bool_decide (653 <= length data)%nat && has_discriminator data whirlpoolDiscriminator.

Definition decodePool (data : list Z) : res WhirlpoolEvent :=
  if negb (is_pool data) then Err (Errorf "invalid whirlpool account data") else
  feeRate ← read_number data 45 47;
  tick ← read_number data 81 85;
  price ← read_number data 65 81;
  liquidity ← read_number data 49 65;
  newPoolUpdate (Some price) (int32 tick) (Some liquidity) feeRate.

(** ** The decoder *)

Record Account := mkAccount { ac_Owner : string; ac_Data : list Z }.
Record ProgramAccount := mkProgramAccount { pa_Account : string; pa_Value : Account }.
(** A filter by data size or by the bytes at an offset. *)
Inductive ProgramFilter := DataSize (size : Z) | Memcmp (offset : Z) (bytes : string).

Record Decoder := mkDecoder { de_Pool : string; de_tickSpacing : Z; de_subscriptions : list string }.

Definition NewDecoder (pool : string) : res Decoder :=
  if decide (pool = "") then Err (Errorf "whirlpool pool account is required") else Ok (mkDecoder pool 0 []).

Definition AccountSubscriptions (d : Decoder) : list string := de_subscriptions d.

(** The capabilities of a network, which are optional interfaces. *)
Record Network (W : Type) := mkNetwork {
  nw_ReadAccount : option (string -> ST W Account); nw_ReadMultipleAccounts : option (list string -> ST W (list Account));
  nw_ReadProgramAccounts : option (string -> list ProgramFilter -> ST W (list ProgramAccount)) }.
Arguments mkNetwork {W}. Arguments nw_ReadAccount {W} _. Arguments nw_ReadMultipleAccounts {W} _. Arguments nw_ReadProgramAccounts {W} _.

Definition tick_filters (pool : string) : list (list ProgramFilter) :=
  [[DataSize (Z.of_nat fixedTickArrayAccountSize); Memcmp (Z.of_nat fixedTickArrayAccountSize - 32) pool];
   [DataSize (Z.of_nat dynamicTickArrayAccountSize); Memcmp 12 pool]].

Definition ProgramSubscriptions (d : Decoder) : list (string * list ProgramFilter) :=
  match DecodePublicKey (de_Pool d) with
  | Ok pool => pair whirlpoolProgram <$> tick_filters (EncodePublicKey pool)
  | _ => []
  end.

(** The update of one tick array account. *)
Definition array_update (spacing : Z) (parsed : parsed_array) : res WhirlpoolEvent :=
  match parsed with
  | None => Err (Errorf "unsupported whirlpool tick array account")
  | Some (ticks, start) => newTickArrayUpdate start spacing ticks
  end.

Definition DecodeProgram (data : list Z) (d : Decoder) : res (list WhirlpoolEvent) :=
  if decide (de_tickSpacing d <= 0) then Err (Errorf "whirlpool tick spacing is unavailable") else
  pool ← DecodePublicKey (de_Pool d);
  parsed ← parseTickArray data (de_tickSpacing d) pool;
  update ← array_update (de_tickSpacing d) parsed;
  Ok [update].

Definition DecodeAccount (account : string) (data : list Z) (d : Decoder) : res (list WhirlpoolEvent) :=
  if decide (account = de_Pool d) then update ← decodePool data; Ok [update] else
  if decide (de_tickSpacing d <= 0) then Err (Errorf "whirlpool tick spacing is unavailable") else
  parsed ← match parseFixedTickArray data (de_tickSpacing d) with
           | Ok (Some parsed) => Ok (Some parsed)
           | Panic why => Panic why
           | _ => pool ← DecodePublicKey (de_Pool d); parseTickArray data (de_tickSpacing d) pool
           end;
  update ← array_update (de_tickSpacing d) parsed;
  Ok [update].

(** What has been read of the tick arrays, and the range it covers. *)
Record Coverage := mkCoverage { cv_ticks : list Tick; cv_addresses : list string; cv_min : Z; cv_max : Z }.
Definition no_coverage : Coverage := mkCoverage [] [] (2 ^ 31 - 1) (- 2 ^ 31).

Definition cover (spacing : Z) (addresses : list string) (c : Coverage) (parsed : parsed_array) : Coverage :=
  match parsed with
  | None => c
  | Some (ticks, start) =>
      let arrayMax := int32 (start + int32 ((Z.of_nat tickArraySize - 1) * spacing)) in
      mkCoverage (cv_ticks c ++ ticks) (cv_addresses c ++ addresses) (Z.min (cv_min c) start) (Z.max (cv_max c) arrayMax)
  end.

(** The answer of a read: ticks, the range they cover, subscriptions, full coverage. *)
Record TickAnswer := mkTickAnswer { ta_ticks : list Tick; ta_min : Z; ta_max : Z; ta_subscriptions : list string; ta_full : bool }.

Definition covered (currentTick : Z) (c : Coverage) (subscriptions : list string) (full : bool) : TickAnswer :=
  if decide (cv_max c < cv_min c \/ currentTick < cv_min c \/ cv_max c < currentTick) then mkTickAnswer [] currentTick currentTick subscriptions false
  else mkTickAnswer (sort_ticks (cv_ticks c)) (cv_min c) (cv_max c) subscriptions full.

Section reads.
Context {W : Type} (sha256 : list Z -> list Z) (on_curve : list Z -> bool) (network : Network W) (d : Decoder).

Definition cover_program (spacing : Z) (pool : list Z) (c : Coverage) (account : ProgramAccount) : res Coverage :=
  parsed ← parseTickArray (ac_Data (pa_Value account)) spacing pool;
  Ok (cover spacing [pa_Account account] c parsed).

Definition cover_query (read : string -> list ProgramFilter -> ST W (list ProgramAccount)) (spacing : Z) (pool : list Z) (c : Coverage)
    (filters : list ProgramFilter) : ST W Coverage :=
  accounts ← read whirlpoolProgram filters;
  lift (foldM (cover_program spacing pool) c accounts).

Definition readProgramTicks (read : string -> list ProgramFilter -> ST W (list ProgramAccount)) (currentTick spacing : Z) : ST W TickAnswer :=
  if decide (spacing <= 0) then fail "invalid whirlpool tick spacing" else
  pool ← lift (DecodePublicKey (de_Pool d));
  c ← foldST (cover_query read spacing pool) no_coverage (tick_filters (EncodePublicKey pool));
  mret (covered currentTick c (cv_addresses c) true).

(** [strconv.FormatInt] and the seed of a tick array. *)
Definition text_bytes (s : string) : list Z := (fun a => Z.of_N (Ascii.N_of_ascii a)) <$> String.list_ascii_of_string s.

Definition array_address (pool program : list Z) (start : Z) : res string :=
  '(address, _) ← FindProgramAddress sha256 on_curve [text_bytes "tick_array"; pool; text_bytes (pretty start)] program;
  Ok (EncodePublicKey address).

Definition array_addresses (pool program : list Z) (starts : list Z) : res (list string) :=
  foldM (fun addresses start => address ← array_address pool program start; Ok (addresses ++ [address])) [] starts.

Definition cover_fixed (spacing : Z) (c : Coverage) (account : Account) : res Coverage :=
  parsed ← parseFixedTickArray (ac_Data account) spacing;
  Ok (cover spacing [] c parsed).

(** The array of the current tick and two on either side. *)
Definition array_starts (currentTick spacing : Z) : list Z :=
  let arrayWidth := Z.of_nat tickArraySize * spacing in
  let start := int32 (floorDiv currentTick arrayWidth * arrayWidth) in
  let width := int32 arrayWidth in
  [int32 (start - width); start; int32 (start + width); int32 (start - int32 (2 * width)); int32 (start + int32 (2 * width))].

Definition readTicks (currentTick spacing : Z) : ST W TickAnswer :=
  match nw_ReadProgramAccounts network, nw_ReadMultipleAccounts network with
  | Some read, _ => readProgramTicks read currentTick spacing
  | None, None => mret (mkTickAnswer [] currentTick currentTick [] false)
  | None, Some read =>
      if decide (spacing <= 0) then fail "invalid whirlpool tick spacing" else
      pool ← lift (DecodePublicKey (de_Pool d));
      program ← lift (DecodePublicKey whirlpoolProgram);
      addresses ← lift (array_addresses pool program (array_starts currentTick spacing));
      accounts ← read addresses;
      c ← lift (foldM (cover_fixed spacing) no_coverage accounts);
      mret (covered currentTick c addresses false)
  end.
End reads.

Section decoder.
Context {W : Type} (sha256 : list Z -> list Z) (on_curve : list Z -> bool) (network : Network W).

(** The decoder keeps what it learns even when the state is refused. *)
Definition decode (data : list Z) : ST (W * Decoder) StateUpdate := fun '(w, d) =>
  if negb (is_pool data) then (Err (Errorf "invalid whirlpool account data"), (w, d)) else
  match (feeRate ← read_number data 45 47; spacing ← read_number data 41 43; tick ← read_number data 81 85;
         price ← read_number data 65 81; liquidity ← read_number data 49 65; Ok (feeRate, spacing, int32 tick, price, liquidity)) with
  | Ok (feeRate, spacing, currentTick, price, liquidity) =>
      match readTicks sha256 on_curve network d currentTick spacing w with
      | (Ok answer, w') =>
          let subscriptions := match nw_ReadProgramAccounts network with Some _ => [] | None => ta_subscriptions answer end in
          (NewCoveredStateUpdateWithFeeRate (Some price) currentTick (Some liquidity) feeRate spacing (ta_ticks answer) (ta_full answer) (ta_min answer) (ta_max answer),
           (w', mkDecoder (de_Pool d) spacing (de_Pool d :: subscriptions)))
      | (Err e, w') => (Err e, (w', d))
      | (Panic why, w') => (Panic why, (w', d))
      end
  | Err e => (Err e, (w, d))
  | Panic why => (Panic why, (w, d))
  end.

Definition Bootstrap : ST (W * Decoder) StateUpdate := fun '(w, d) =>
  match nw_ReadAccount network with
  | None => (Err (Errorf "solana network does not expose account reads"), (w, d))
  | Some read =>
      match read (de_Pool d) w with
      | (Ok account, w') => decode (ac_Data account) (w', d)
      | (Err e, w') => (Err e, (w', d))
      | (Panic why, w') => (Panic why, (w', d))
      end
  end.
End decoder.

(** ** The layout of a tick array *)

(** A slot holds a tick, or is unused; what follows the liquidity net is not read. *)
Record Slot := mkSlot { sl_net : option Z; sl_rest : list Z }.
Definition slot_ok (s : Slot) : Prop :=
  match sl_net s with Some net => - 2 ^ 127 <= net < 2 ^ 127 /\ length (sl_rest s) = 96%nat | None => length (sl_rest s) = 112%nat end.
Definition slot_bytes (s : Slot) : list Z :=
  match sl_net s with Some net => [1] ++ le 16 (net mod 2 ^ 128) ++ sl_rest s | None => [0] ++ sl_rest s end.

Definition fixed_account (start : Z) (slots : list Slot) (pool : list Z) : list Z :=
  fixedTickArrayDiscriminator ++ le 4 (start mod 2 ^ 32) ++ concat (slot_bytes <$> slots) ++ pool.
Definition dynamic_account (start : Z) (slots : list Slot) (pool bitmap : list Z) : list Z :=
  dynamicTickArrayDiscriminator ++ le 4 (start mod 2 ^ 32) ++ pool ++ bitmap ++ concat (slot_bytes <$> slots).

(** The ticks of the slots from the [i]th on. *)
Fixpoint laid_ticks (start spacing : Z) (i : nat) (slots : list Slot) : list Tick :=
  match slots with
  | [] => []
  | s :: slots =>
      match sl_net s with Some net => [mkTick (int32 (start + int32 (Z.of_nat i * spacing))) (Some net)] | None => [] end ++
      laid_ticks start spacing (S i) slots
  end.

Lemma last_le n x : last (le (S n) x) = Some ((x / 256 ^ Z.of_nat n) mod 256).
Proof.
  unfold le. rewrite last_reverse. revert x. induction n as [|n IH]; intros x; [cbn; by rewrite Z.div_1_r|].
  change (be (S (S n)) x) with (be (S n) (x / 256) ++ [x mod 256]). specialize (IH (x / 256)).
  destruct (be (S n) (x / 256)) as [|b l]; [done|]. cbn [head app] in *. rewrite IH. do 2 f_equal.
  rewrite Nat2Z.inj_succ, Z.pow_succ_r by lia. apply Zdiv_Zdiv; lia.
Qed.

(** The sign bit of a byte. *)
Lemma sign_bit top : 0 <= top < 256 -> Z.land top 128 = if decide (128 <= top) then 128 else 0.
Proof.
  intros Htop. assert (forallb (fun n => Z.eqb (Z.land (Z.of_nat n) 128) (if decide (128 <= Z.of_nat n) then 128 else 0)) (seq 0 256) = true) as H by (vm_compute; reflexivity).
  rewrite forallb_forall in H. specialize (H (Z.to_nat top)). rewrite Z2Nat.id in H by lia. apply Z.eqb_eq, H. apply in_seq. lia.
Qed.

Lemma signed_le net : - 2 ^ 127 <= net < 2 ^ 127 -> signedLittleEndian (le 16 (net mod 2 ^ 128)) = Ok net.
Proof.
  intros Hnet. unfold signedLittleEndian. unfold littleEndianInt. rewrite last_le, le_length, (LittleEndian_le _ _) by (apply Z.mod_pos_bound; lia).
  set (u := net mod 2 ^ 128). assert (0 <= u < 2 ^ 128) as Hu by (apply Z.mod_pos_bound; lia).
  change (256 ^ Z.of_nat 15) with (2 ^ 120). change (Z.shiftl 1 (Z.of_nat 16 * 8)) with (2 ^ 128).
  assert (0 <= u / 2 ^ 120 < 256) as Htop by (split; [apply Z.div_pos; lia|apply Z.div_lt_upper_bound; lia]).
  rewrite Z.mod_small, sign_bit by done.
  pose proof (Z.div_mod u (2 ^ 120) ltac:(lia)) as Hdm. pose proof (Z.mod_pos_bound u (2 ^ 120) ltac:(lia)).
  assert (u = net \/ u = net + 2 ^ 128) as Hwrap.
  { unfold u. destruct (decide (0 <= net)); [left; apply Z.mod_small; lia|right].
    rewrite <- (Z.mod_add net 1 (2 ^ 128)), Z.mod_small by lia. lia. }
  destruct (decide (128 <= u / 2 ^ 120)) as [Hs|Hs].
  - rewrite decide_True by done. f_equal. lia.
  - rewrite decide_False by (intros Hc; by apply Hc). f_equal. lia.
Qed.

Lemma slot_length s : slot_ok s -> length (slot_bytes s) = fixedTickSize.
Proof.
  unfold slot_ok, slot_bytes. destruct (sl_net s) as [net|]; [intros [_ Hr]|intros Hr]; rewrite !length_app, ?le_length, Hr; done.
Qed.

(** The first bytes of a slot, wherever it lies. *)
Lemma slot_read pre s post : slot_ok s -> let data := pre ++ slot_bytes s ++ post in let offset := length pre in
  byte_at data offset = Ok (match sl_net s with Some _ => 1 | None => 0 end) /\
  forall net, sl_net s = Some net -> slice data (offset + 1) (offset + 17) = Ok (le 16 (net mod 2 ^ 128)).
Proof.
  intros Hs data offset. unfold data, offset, slot_bytes. destruct (sl_net s) as [net|]; rewrite <- !app_assoc.
  - rewrite byte_skip, byte_here by lia. split; [done|]. intros ? [= <-]. rewrite slice_skip by lia.
    replace (length pre + 1 - length pre)%nat with 1%nat by lia. replace (length pre + 17 - length pre)%nat with 17%nat by lia.
    rewrite slice_skip by (cbn; lia). cbn [length]. apply slice_here; [done|]. by rewrite le_length.
  - rewrite byte_skip, byte_here by lia. done.
Qed.

(** A loop over the slots reads the ticks they hold. *)
Lemma slots_read (step : list Tick -> nat -> res (list Tick)) data base start spacing post :
  (forall ticks i s, slot_ok s -> byte_at data (base + i * fixedTickSize) = Ok (match sl_net s with Some _ => 1 | None => 0 end) ->
     (forall net, sl_net s = Some net -> slice data (base + i * fixedTickSize + 1) (base + i * fixedTickSize + 17) = Ok (le 16 (net mod 2 ^ 128))) ->
     step ticks i = Ok (ticks ++ laid_ticks start spacing i [s])) ->
  forall slots pre ticks i, Forall slot_ok slots -> data = pre ++ concat (slot_bytes <$> slots) ++ post -> length pre = (base + i * fixedTickSize)%nat ->
    foldM step ticks (seq i (length slots)) = Ok (ticks ++ laid_ticks start spacing i slots).
Proof.
  intros Hstep slots. induction slots as [|s slots IH]; intros pre ticks i Hall Hdata Hpre; cbn [length seq foldM laid_ticks]; [by rewrite app_nil_r|].
  apply Forall_cons in Hall as [Hs Hall]. cbn [fmap list_fmap concat] in Hdata. rewrite <- app_assoc in Hdata.
  destruct (slot_read pre s (concat (slot_bytes <$> slots) ++ post) Hs) as [Hb Hv]. cbv zeta in Hb, Hv. rewrite <- Hdata, Hpre in Hb, Hv.
  rewrite (Hstep ticks i s Hs Hb Hv). cbn [laid_ticks mbind res_bind]. rewrite app_nil_r. rewrite (IH (pre ++ slot_bytes s)).
  - by rewrite app_assoc.
  - done.
  - rewrite Hdata. by rewrite <- app_assoc.
  - rewrite length_app, (slot_length s Hs), Hpre. unfold fixedTickSize. lia.
Qed.

Lemma tick_read data start spacing offset i net : - 2 ^ 127 <= net < 2 ^ 127 -> slice data (offset + 1) (offset + 17) = Ok (le 16 (net mod 2 ^ 128)) ->
  read_tick data start spacing offset i = Ok (mkTick (int32 (start + int32 (Z.of_nat i * spacing))) (Some net)).
Proof. intros Hn Hs. unfold read_tick. rewrite Hs. cbn [mbind res_bind]. by rewrite signed_le. Qed.

Lemma fixed_step data start spacing ticks i s : slot_ok s -> byte_at data (12 + i * fixedTickSize) = Ok (match sl_net s with Some _ => 1 | None => 0 end) ->
  (forall net, sl_net s = Some net -> slice data (12 + i * fixedTickSize + 1) (12 + i * fixedTickSize + 17) = Ok (le 16 (net mod 2 ^ 128))) ->
  fixed_slot data start spacing ticks i = Ok (ticks ++ laid_ticks start spacing i [s]).
Proof.
  intros Hs Hb Hv. unfold fixed_slot. cbv zeta. rewrite Hb. cbn [mbind res_bind laid_ticks]. unfold slot_ok in Hs.
  destruct (sl_net s) as [net|]; [|by rewrite decide_True, app_nil_r]. rewrite decide_False by done.
  rewrite (tick_read _ _ _ _ _ net); [|apply Hs|by apply Hv]. done.
Qed.

Lemma dynamic_step data start spacing ticks i s : slot_ok s -> byte_at data (60 + i * fixedTickSize) = Ok (match sl_net s with Some _ => 1 | None => 0 end) ->
  (forall net, sl_net s = Some net -> slice data (60 + i * fixedTickSize + 1) (60 + i * fixedTickSize + 17) = Ok (le 16 (net mod 2 ^ 128))) ->
  dynamic_slot data start spacing ticks i = Ok (ticks ++ laid_ticks start spacing i [s]).
Proof.
  intros Hs Hb Hv. unfold dynamic_slot. cbv zeta. rewrite Hb. cbn [mbind res_bind laid_ticks]. unfold slot_ok in Hs.
  destruct (sl_net s) as [net|]; [|by rewrite decide_True, app_nil_r]. rewrite decide_False by done. rewrite decide_False by (intros H; by apply H).
  rewrite (tick_read _ _ _ _ _ net); [|apply Hs|by apply Hv]. done.
Qed.

Lemma start_read disc start rest : length disc = 8%nat -> - 2 ^ 31 <= start < 2 ^ 31 ->
  (word ← slice (disc ++ le 4 (start mod 2 ^ 32) ++ rest) 8 12; Ok (int32 (littleEndianInt word))) = Ok start.
Proof.
  intros Hd Hs. rewrite slice_skip by lia. rewrite Hd. rewrite slice_here by (rewrite ?le_length; done). cbn [mbind res_bind].
  unfold littleEndianInt. rewrite (LittleEndian_le _ _) by (change (256 ^ Z.of_nat 4) with (2 ^ 32); apply Z.mod_pos_bound; lia). f_equal. unfold int32.
  rewrite Zplus_mod_idemp_l, Z.mod_small by lia. lia.
Qed.

Lemma slots_length slots : Forall slot_ok slots -> length (concat (slot_bytes <$> slots)) = (length slots * fixedTickSize)%nat.
Proof. induction 1 as [|s slots Hs _ IH]; [done|]. cbn [fmap list_fmap concat length]. rewrite length_app, IH, (slot_length s Hs). done. Qed.

Section layout.
Context (start spacing : Z) (slots : list Slot) (pool : list Z).
Context (Hstart : - 2 ^ 31 <= start < 2 ^ 31) (Hslots : Forall slot_ok slots) (Hcount : length slots = tickArraySize) (Hpool : length pool = 32%nat).

Lemma fixed_length : length (fixed_account start slots pool) = fixedTickArrayAccountSize.
Proof using Hslots Hcount Hpool. unfold fixed_account. by rewrite !length_app, le_length, (slots_length slots Hslots), Hcount, Hpool. Qed.

Lemma minimum_length : (8 + 36 + fixedTickSize * tickArraySize)%nat = fixedTickArrayAccountSize.
Proof using Type. vm_compute. reflexivity. Qed.

Lemma fixed_reads : parseFixedTickArray (fixed_account start slots pool) spacing = Ok (Some (laid_ticks start spacing 0 slots, start)).
Proof using Hstart Hslots Hcount Hpool.
  unfold parseFixedTickArray. rewrite fixed_length. rewrite decide_False by done. rewrite minimum_length. rewrite decide_False by lia.
  assert (has_discriminator (fixed_account start slots pool) fixedTickArrayDiscriminator = true) as -> by (by apply bool_decide_eq_true). cbn [negb].
  assert ((word ← slice (fixed_account start slots pool) 8 12; Ok (int32 (littleEndianInt word))) = Ok start) as -> by (by apply start_read). cbn [mbind res_bind]. rewrite <- Hcount.
  rewrite (slots_read _ (fixed_account start slots pool) 12 start spacing pool (fixed_step _ start spacing) slots (fixedTickArrayDiscriminator ++ le 4 (start mod 2 ^ 32)));
    [done|done|by rewrite <- app_assoc|by rewrite length_app, le_length].
Qed.

Lemma dynamic_length bitmap : length bitmap = 16%nat -> length (dynamic_account start slots pool bitmap) = dynamicTickArrayAccountSize.
Proof using Hslots Hcount Hpool. intros Hb. unfold dynamic_account. by rewrite !length_app, le_length, (slots_length slots Hslots), Hcount, Hpool, Hb. Qed.

Lemma dynamic_reads bitmap : length bitmap = 16%nat -> 0 < spacing ->
  parseDynamicTickArray (dynamic_account start slots pool bitmap) spacing = Ok (Some (laid_ticks start spacing 0 slots, start)).
Proof using Hstart Hslots Hcount Hpool.
  intros Hb Hsp. unfold parseDynamicTickArray. rewrite (dynamic_length bitmap Hb). rewrite decide_False by lia. rewrite decide_False by lia.
  assert (has_discriminator (dynamic_account start slots pool bitmap) dynamicTickArrayDiscriminator = true) as -> by (by apply bool_decide_eq_true). cbn [negb].
  assert ((word ← slice (dynamic_account start slots pool bitmap) 8 12; Ok (int32 (littleEndianInt word))) = Ok start) as -> by (by apply start_read). cbn [mbind res_bind]. rewrite <- Hcount.
  rewrite (slots_read _ (dynamic_account start slots pool bitmap) 60 start spacing [] (dynamic_step _ start spacing) slots
    (dynamicTickArrayDiscriminator ++ le 4 (start mod 2 ^ 32) ++ pool ++ bitmap));
    [done|done|by rewrite app_nil_r, <- !app_assoc|by rewrite !length_app, le_length, Hpool, Hb].
Qed.
End layout.

(** ** No account makes the parser panic *)

Lemma read_tick_no_panic data start spacing offset i : (offset + 17 <= length data)%nat -> no_panic (read_tick data start spacing offset i).
Proof.
  intros Hl. unfold read_tick. destruct (slice_Ok data (offset + 1) (offset + 17) ltac:(lia)) as (v & -> & Hv). cbn [mbind res_bind].
  unfold signedLittleEndian. destruct (last v) eqn:Hlast; [|apply last_None in Hlast; subst; cbn in Hv; lia]. cbn [mbind res_bind]. by intros why.
Qed.

Lemma slot_bound i : i ∈ seq 0 tickArraySize -> (60 + i * fixedTickSize + fixedTickSize <= dynamicTickArrayAccountSize)%nat /\
  (12 + i * fixedTickSize + fixedTickSize <= fixedTickArrayAccountSize)%nat.
Proof.
  intros Hi%list_elem_of_In%in_seq.
  assert (Hd : dynamicTickArrayAccountSize = (60 + tickArraySize * fixedTickSize)%nat) by (vm_compute; reflexivity).
  assert (Hf : fixedTickArrayAccountSize = (44 + tickArraySize * fixedTickSize)%nat) by (vm_compute; reflexivity).
  rewrite Hd, Hf. unfold tickArraySize, fixedTickSize in *. lia.
Qed.

Lemma fixed_no_panic data spacing : no_panic (parseFixedTickArray data spacing).
Proof.
  unfold parseFixedTickArray. destruct (decide _); [by intros why|]. rewrite minimum_length. destruct (decide _) as [|Hl]; [by intros why|].
  destruct (negb _); [by intros why|]. destruct (slice_Ok data 8 12) as (v & -> & _); [pose proof (slot_bound 0 ltac:(by left)); unfold fixedTickSize in *; lia|].
  cbn [mbind res_bind]. apply no_panic_bind; [|by intros ? _ why]. apply no_panic_foldM. intros ticks i Hi. apply slot_bound in Hi as [_ Hi].
  unfold fixed_slot. cbv zeta. apply no_panic_bind; [apply byte_at_no_panic; unfold fixedTickSize in *; lia|]. intros tag _. destruct (decide _); [by intros why|].
  apply no_panic_bind; [apply read_tick_no_panic; unfold fixedTickSize in *; lia|by intros ? _ why].
Qed.

Lemma dynamic_no_panic data spacing : no_panic (parseDynamicTickArray data spacing).
Proof.
  unfold parseDynamicTickArray. destruct (decide _); [by intros why|]. destruct (decide _) as [|Hl]; [by intros why|].
  destruct (negb _); [by intros why|]. destruct (slice_Ok data 8 12) as (v & -> & _); [pose proof (slot_bound 0 ltac:(by left)); unfold fixedTickSize in *; lia|].
  cbn [mbind res_bind]. apply no_panic_bind; [|by intros ? _ why]. apply no_panic_foldM. intros ticks i Hi. apply slot_bound in Hi as [Hi _].
  unfold dynamic_slot. cbv zeta. apply no_panic_bind; [apply byte_at_no_panic; unfold fixedTickSize in *; lia|]. intros tag _.
  destruct (decide _); [by intros why|]. destruct (decide _); [by intros why|].
  apply no_panic_bind; [apply read_tick_no_panic; unfold fixedTickSize in *; lia|by intros ? _ why].
Qed.

Lemma parse_no_panic data spacing pool : no_panic (parseTickArray data spacing pool).
Proof.
  unfold parseTickArray. destruct (_ && _) eqn:Hf.
  - apply andb_true_iff in Hf as [Hl%bool_decide_eq_true _].
    destruct (slice_Ok data (fixedTickArrayAccountSize - 32) fixedTickArrayAccountSize) as (v & -> & _); [lia|]. cbn [mbind res_bind].
    destruct (decide _); [by intros why|]. apply fixed_no_panic.
  - destruct (_ && _) eqn:Hd in |- *; [|by intros why]. apply andb_true_iff in Hd as [Hl%bool_decide_eq_true _].
    destruct (slice_Ok data 12 44) as (v & -> & _); [pose proof (slot_bound 0 ltac:(by left)); unfold fixedTickSize in *; lia|]. cbn [mbind res_bind].
    destruct (decide _); [by intros why|]. apply dynamic_no_panic.
Qed.

(** C38.The tick arrays of a pool are read back as they are laid out.  From an account of
    either layout, whatever its unused bytes hold, the parser reads the start of the
    array and exactly the ticks in use, each at its index and with its signed liquidity;
    an array of another pool is passed over; and no bytes at all make it panic. *)
Theorem tick_array_round_trip start spacing slots pool :
  - 2 ^ 31 <= start < 2 ^ 31 -> 0 < spacing -> Forall slot_ok slots -> length slots = tickArraySize -> length pool = 32%nat ->
  (forall owner, length owner = 32%nat ->
     parseTickArray (fixed_account start slots owner) spacing pool =
       Ok (if decide (owner = pool) then Some (laid_ticks start spacing 0 slots, start) else None)) /\
  (forall owner bitmap, length owner = 32%nat -> length bitmap = 16%nat ->
     parseTickArray (dynamic_account start slots owner bitmap) spacing pool =
       Ok (if decide (owner = pool) then Some (laid_ticks start spacing 0 slots, start) else None)) /\
  (forall data spacing' pool', no_panic (parseTickArray data spacing' pool')).
Proof.
  intros Hstart Hsp Hslots Hcount Hpool. split_and!; [| |apply parse_no_panic].
  - intros owner Ho. unfold parseTickArray.
    rewrite (fixed_length start slots owner Hslots Hcount Ho), bool_decide_true by done.
    assert (has_discriminator (fixed_account start slots owner) fixedTickArrayDiscriminator = true) as -> by (by apply bool_decide_eq_true). cbn [andb].
    assert (slice (fixed_account start slots owner) (fixedTickArrayAccountSize - 32) fixedTickArrayAccountSize = Ok owner) as ->.
    { pose proof (fixed_length start slots owner Hslots Hcount Ho) as Hlen. unfold fixed_account in *. rewrite !app_assoc in *. rewrite length_app, Ho in Hlen.
      rewrite slice_skip by lia. apply slice_all; lia. }
    cbn [mbind res_bind]. destruct (decide (owner <> pool)) as [Hne|He]; [by rewrite decide_False|].
    rewrite decide_True by (by apply dec_stable). by apply fixed_reads.
  - intros owner bitmap Ho Hb. unfold parseTickArray. rewrite (dynamic_length start slots owner Hslots Hcount Ho bitmap Hb).
    assert (has_discriminator (dynamic_account start slots owner bitmap) fixedTickArrayDiscriminator = false) as -> by (by apply bool_decide_eq_false).
    rewrite andb_false_r, bool_decide_true by done.
    assert (has_discriminator (dynamic_account start slots owner bitmap) dynamicTickArrayDiscriminator = true) as -> by (by apply bool_decide_eq_true). cbn [andb].
    assert (slice (dynamic_account start slots owner bitmap) 12 44 = Ok owner) as ->.
    { unfold dynamic_account. rewrite app_assoc. rewrite slice_skip by (rewrite length_app, le_length; cbn; lia). rewrite length_app, le_length.
      apply slice_here; [done|]. by rewrite Ho. }
    cbn [mbind res_bind]. destruct (decide (owner <> pool)) as [Hne|He]; [by rewrite decide_False|].
    rewrite decide_True by (by apply dec_stable). by apply dynamic_reads.
Qed.

(** ** Witness: an array with two ticks in use *)

Module OrcaDecoderWitness.
Definition pool : list Z := replicate 32 7.
Definition unused : Slot := mkSlot None (replicate 112 5).
Definition slots : list Slot := [mkSlot (Some (-3)) (replicate 96 0); unused; mkSlot (Some 8) (replicate 96 9)] ++ replicate 85 unused.

Lemma round_trip_witness :
  parseTickArray (fixed_account (-704) slots pool) 8 pool = Ok (Some ([mkTick (-704) (Some (-3)); mkTick (-688) (Some 8)], -704)).
Proof.
  assert (Forall slot_ok slots) as Hslots.
  { apply Forall_app. split; [repeat constructor; cbn; lia|]. apply Forall_replicate. done. }
  assert (length slots = tickArraySize) as Hcount by (vm_compute; reflexivity).
  assert (- 2 ^ 31 <= -704 < 2 ^ 31) as Hstart by lia. assert (0 < 8) as Hsp by lia.
  rewrite (proj1 (tick_array_round_trip (-704) 8 slots pool Hstart Hsp Hslots Hcount eq_refl) pool eq_refl).
  vm_compute. reflexivity.
Defined.
End OrcaDecoderWitness.
