(* ===== verification/OrcaSwap.v ===== *)
(** * Orca Whirlpool swaps are sound (src/adapters/market/orcawhirlpool/swap.go)

    A step of a swap never passes its target, never takes more than is offered nor pays
    more than is asked for, rounds every amount against the trader and charges at least
    the fee.  The loop of a swap on a valid snapshot ends and never panics.  What an
    exact-output swap asks for buys at least that output in an exact-input swap, at
    the same fee rate: the two computations cover each other across all their ticks. *)
From S2P Require Import Prelude Amount Quote Registry Pools OrcaWhirlpool.
Local Open Scope Z_scope.

Definition Q64 : Z := 2 ^ 64.

Lemma q64Int_eq : q64Int = Q64.
Proof. reflexivity. Qed.

(** ** Amounts between two prices *)

Section deltas.
Context (aToB : bool) (p L : Z) (Hp : 0 < p) (HL : 0 < L).

(** [x] lies between the current price and [t], in the direction of the swap. *)
Definition between (x t : Z) : Prop := if aToB then t <= x /\ x <= p else p <= x /\ x <= t.

(** What moving the price to [x] costs, and what it pays. *)
Definition cost (x : Z) : Z := fixedDelta p x L true aToB.
Definition gain (x : Z) : Z := fixedDelta p x L false aToB.

Lemma unfixed_gain x : unfixedDelta p x L true aToB = gain x.
Proof. unfold gain, unfixedDelta, fixedDelta. destruct (ordered p x). by destruct aToB. Qed.

Lemma unfixed_cost x : unfixedDelta p x L false aToB = cost x.
Proof. unfold cost, unfixedDelta, fixedDelta. destruct (ordered p x). by destruct aToB. Qed.

Lemma between_self : between p p.
Proof using Type. clear. unfold between. destruct aToB; lia. Qed.

Lemma divRound_up_le n d k : 0 <= n -> 0 < d -> divRound n d true <= k <-> n <= k * d.
Proof. intros. by apply divRoundingUp_le. Qed.

Lemma divRound_down_le n d k : 0 <= n -> 0 < d -> k <= divRound n d false <-> k * d <= n.
Proof.
  intros Hn Hd. unfold divRound. rewrite Z.quot_div_nonneg by lia. split; intros H.
  - pose proof (Z.mul_div_le n d Hd). nia.
  - apply Z.div_le_lower_bound; lia.
Qed.

Lemma ordered_down x : x <= p -> ordered p x = (x, p).
Proof using Type. clear Hp HL. intros Hx. unfold ordered. destruct (decide _); [|done]. by assert (p = x) as -> by lia. Qed.

Lemma ordered_up x : p <= x -> ordered p x = (p, x).
Proof using Type. clear Hp HL. intros Hx. unfold ordered. by rewrite decide_True. Qed.

(** The two characterisations everything else is derived from. *)
Lemma cost_le x t k : between x t -> 0 < t -> cost x <= k <->
  if aToB then L * Q64 * p <= x * (L * Q64 + k * p) else L * (x - p) <= k * Q64.
Proof using Hp HL.
  unfold between, cost, fixedDelta, amountDeltaA, amountDeltaB. intros Hx Ht. destruct aToB.
  - rewrite ordered_down by lia. cbn [bool_decide]. rewrite bool_decide_eq_true_2 by done.
    rewrite Z.shiftl_mul_pow2 by lia. fold Q64. rewrite divRound_up_le by (unfold Q64; nia). split; intros; nia.
  - rewrite ordered_up by lia. rewrite bool_decide_eq_false_2 by done.
    rewrite q64Int_eq, divRound_up_le by (unfold Q64; nia). done.
Qed.

Lemma le_gain x t k : between x t -> 0 < t -> k <= gain x <->
  if aToB then k * Q64 <= L * (p - x) else L * Q64 * p <= x * (L * Q64 - k * p).
Proof using Hp HL.
  unfold between, gain, fixedDelta, amountDeltaA, amountDeltaB. intros Hx Ht. destruct aToB.
  - rewrite ordered_down by lia. rewrite bool_decide_eq_false_2 by done.
    rewrite q64Int_eq, divRound_down_le by (unfold Q64; nia). done.
  - rewrite ordered_up by lia. rewrite bool_decide_eq_true_2 by done.
    rewrite Z.shiftl_mul_pow2 by lia. fold Q64. rewrite divRound_down_le by (unfold Q64; nia). split; intros; nia.
Qed.

Lemma between_trans x y t : between x y -> between y t -> between x t.
Proof. clear. unfold between. destruct aToB; lia. Qed.

Lemma between_pos x t : between x t -> 0 < t -> 0 < x.
Proof using Hp. unfold between. destruct aToB; lia. Qed.

Lemma Q64_pos : 0 < Q64.
Proof. done. Qed.

Lemma cost_nonneg x t : between x t -> 0 < t -> 0 <= cost x.
Proof using Hp HL.
  intros Hx Ht. pose proof (between_pos x t Hx Ht) as Hxp. unfold between, cost, fixedDelta, amountDeltaA, amountDeltaB in *. destruct aToB.
  - rewrite ordered_down, bool_decide_eq_true_2 by (done || lia). rewrite Z.shiftl_mul_pow2 by lia. apply divRoundingUp_nonneg; nia.
  - rewrite ordered_up, bool_decide_eq_false_2 by (done || lia). apply divRoundingUp_nonneg; [nia|done].
Qed.

Lemma gain_nonneg x t : between x t -> 0 < t -> 0 <= gain x.
Proof using Hp HL.
  intros Hx Ht. apply (le_gain x t 0 Hx Ht). pose proof (between_pos x t Hx Ht). pose proof Q64_pos. unfold between in Hx.
  destruct aToB; [nia|]. rewrite Z.mul_0_l, Z.sub_0_r. rewrite (Z.mul_comm x). apply Z.mul_le_mono_nonneg_l; nia.
Qed.

(** Farther costs more and pays more. *)
Lemma cost_mono x t : between x t -> 0 < t -> cost x <= cost t.
Proof using Hp HL.
  intros Hx Ht. pose proof (between_pos x t Hx Ht) as Hxp.
  assert (between t t) as Htt by (unfold between in *; destruct aToB; lia).
  apply (cost_le x t (cost t) Hx Ht). pose proof (proj1 (cost_le t t (cost t) Htt Ht) ltac:(lia)) as H.
  pose proof (cost_nonneg t t Htt Ht) as H0. unfold between in Hx. destruct aToB; [|nia].
  assert (0 <= L * Q64 + cost t * p) by (unfold Q64; nia). nia.
Qed.

Lemma gain_mono x t : between x t -> 0 < t -> gain x <= gain t.
Proof using Hp HL.
  intros Hx Ht. pose proof (between_pos x t Hx Ht) as Hxp.
  assert (between t t) as Htt by (unfold between in *; destruct aToB; lia).
  apply (le_gain t t (gain x) Htt Ht). pose proof (proj1 (le_gain x t (gain x) Hx Ht) ltac:(lia)) as H.
  unfold between in Hx. destruct aToB; [nia|].
  assert (0 < L * Q64 * p) by (unfold Q64; nia). assert (0 < L * Q64 - gain x * p) by nia. nia.
Qed.
End deltas.
Arguments between : clear implicits.
Arguments cost : clear implicits.
Arguments gain : clear implicits.

(** ** The next price *)

(** Reads the direction of a swap off the hypotheses. *)
Ltac direct := unfold between in *; cbn iota in *.

(** What an input buys: the price stops short of the target, the input pays for the
    move, and it goes as far as any price the input pays for. *)
Lemma next_input aToB p L t a : 0 < p -> 0 < L -> between aToB p p t -> 0 < t -> 0 <= a < cost aToB p L t ->
  exists next, nextSqrtPrice p L a true aToB = Ok next /\ between aToB p next t /\ next <> t /\ cost aToB p L next <= a /\
    forall x, between aToB p x t -> cost aToB p L x <= a -> between aToB p x next.
Proof.
  intros Hp HL Ht Htp Ha. unfold nextSqrtPrice. pose proof Q64_pos as HQ.
  destruct (decide (Z.sgn a = 0)) as [H0|_].
  - assert (a = 0) as -> by (destruct (Z.sgn_spec a); lia). exists p. split; [done|]. split; [done|].
    assert (cost aToB p L p <= 0) as Hc by (apply (cost_le aToB p L Hp HL p t 0 Ht Htp); destruct aToB; nia).
    split; [intros ->; lia|]. split; [done|]. intros x Hx Hcx. apply (cost_le aToB p L Hp HL x t 0 Hx Htp) in Hcx.
    destruct aToB; direct; [|nia]. split; [|lia]. nia.
  - assert (HLp : 0 < L * p * Q64) by (repeat apply Z.mul_pos_pos; done). destruct aToB.
    + rewrite bool_decide_eq_true_2 by done. rewrite !Z.shiftl_mul_pow2 by lia. fold Q64.
      set (d := L * Q64 + p * a). assert (Hd : 0 < d) by (unfold d; nia).
      set (next := divRound (L * p * Q64) d true). exists next. split; [done|].
      assert (Hnext : forall k, next <= k <-> L * p * Q64 <= k * d) by (intros k; apply divRound_up_le; lia).
      assert (Hself : L * p * Q64 <= next * d) by (apply Hnext; lia).
      assert (Hle : next <= p) by (apply Hnext; unfold d; nia). clearbody next.
      assert (Hpos : 0 < next) by (apply (Z.mul_pos_cancel_r next d Hd), (Z.lt_le_trans _ _ _ HLp Hself)).
      assert (Hbn : between true p next next) by (direct; lia).
      assert (Hcost : cost true p L next <= a) by (apply (cost_le true p L Hp HL next next a Hbn Hpos); cbn iota; unfold d in Hself; lia).
      assert (Hgt : t < next).
      { destruct (Z_lt_le_dec t next) as [|Hge]; [done|]. exfalso. assert (between true p t next) as Hbt by (direct; lia).
        pose proof (cost_mono true p L Hp HL t next Hbt Hpos). lia. }
      split; [direct; lia|]. split; [lia|]. split; [done|]. intros x Hx Hcx.
      apply (cost_le true p L Hp HL x t a Hx Htp) in Hcx. direct. split; [|lia]. apply Hnext. unfold d. lia.
    + rewrite bool_decide_eq_false_2 by done. rewrite q64Int_eq. cbn [negb].
      set (delta := divRound (a * Q64) L false). exists (p + delta). split; [done|].
      assert (Hdelta : forall k, k <= delta <-> k * L <= a * Q64) by (intros k; apply divRound_down_le; [nia|done]).
      assert (Hself : delta * L <= a * Q64) by (apply Hdelta; lia).
      assert (Hpos : 0 <= delta) by (apply Hdelta; nia). clearbody delta.
      assert (Hbn : between false p (p + delta) (p + delta)) by (direct; lia).
      assert (Hcost : cost false p L (p + delta) <= a) by (apply (cost_le false p L Hp HL (p + delta) (p + delta) a Hbn ltac:(lia)); cbn iota; lia).
      assert (Hlt : p + delta < t).
      { destruct (Z_lt_le_dec (p + delta) t) as [|Hge]; [done|]. exfalso. assert (between false p t (p + delta)) as Hbt by (direct; lia).
        pose proof (cost_mono false p L Hp HL t (p + delta) Hbt ltac:(lia)). lia. }
      split; [direct; lia|]. split; [lia|]. split; [done|]. intros x Hx Hcx.
      apply (cost_le false p L Hp HL x t a Hx Htp) in Hcx. direct. split; [lia|]. assert (x - p <= delta) by (apply Hdelta; lia). lia.
Qed.

(** What an output takes: the price does not pass the target, and the move pays it. *)
Lemma next_output aToB p L t a : 0 < p -> 0 < L -> between aToB p p t -> 0 < t -> 0 < a < gain aToB p L t ->
  exists next, nextSqrtPrice p L a false aToB = Ok next /\ between aToB p next t /\ a <= gain aToB p L next.
Proof.
  intros Hp HL Ht Htp Ha. unfold nextSqrtPrice. pose proof Q64_pos as HQ.
  assert (between aToB p t t) as Htt by (destruct aToB; direct; lia).
  pose proof (proj1 (le_gain aToB p L Hp HL t t (a + 1) Htt Htp) ltac:(lia)) as Hg.
  rewrite decide_False by (destruct (Z.sgn_spec a); lia). destruct aToB.
  - rewrite bool_decide_eq_false_2 by done. rewrite q64Int_eq. cbn [negb].
    set (delta := divRound (a * Q64) L true).
    assert (Hdelta : forall k, delta <= k <-> a * Q64 <= k * L) by (intros k; apply divRound_up_le; [nia|done]).
    assert (Hself : a * Q64 <= delta * L) by (apply Hdelta; lia).
    assert (Hle : delta <= p - t) by (apply Hdelta; nia).
    assert (Hpos : 0 <= delta) by (unfold delta; apply divRoundingUp_nonneg; nia). clearbody delta.
    direct. rewrite decide_False by lia. exists (p - delta). split; [done|].
    assert (Hb : between true p (p - delta) t) by (direct; lia). split; [direct; lia|]. apply (le_gain true p L Hp HL _ t a Hb Htp). cbn iota. lia.
  - rewrite bool_decide_eq_true_2 by done. rewrite !Z.shiftl_mul_pow2 by lia. fold Q64.
    assert (HLp : 0 < L * p * Q64) by (repeat apply Z.mul_pos_pos; done).
    set (d := L * Q64 - p * a). assert (Hd : 0 < d).
    { cbn iota in Hg. unfold d. apply (Z.mul_pos_cancel_l t _ Htp). lia. }
    rewrite decide_False by (destruct (Z.sgn_spec d); lia).
    set (next := divRound (L * p * Q64) d true). exists next. split; [done|].
    assert (Hnext : forall k, next <= k <-> L * p * Q64 <= k * d) by (intros k; apply divRound_up_le; lia).
    assert (Hself : L * p * Q64 <= next * d) by (apply Hnext; lia).
    assert (Hle : next <= t) by (apply Hnext; unfold d; direct; nia). clearbody next.
    assert (Hge : p <= next). { destruct (Z_lt_le_dec next p) as [Hlt|]; [|done]. exfalso. unfold d in Hself, Hd. nia. }
    assert (Hb : between false p next t) by (direct; lia). split; [done|]. apply (le_gain false p L Hp HL _ t a Hb Htp). cbn iota. unfold d in Hself. lia.
Qed.

(** ** A step *)

Section step.
Context (aToB : bool) (feeRate p L t : Z).
Context (Hfee : 0 <= feeRate < feeRatePrecision) (Hp : 0 < p) (HL : 0 < L) (Ht : 0 < t) (Hdir : between aToB p p t).

(** The fee of a step that does not spend everything. *)
Definition fee_of (inp : Z) : Z := Z.quot (inp * feeRate + (feeRatePrecision - feeRate - 1)) (feeRatePrecision - feeRate).

(** What is left of an input for the pool. *)
Definition net_of (remaining : Z) : Z := Z.quot (remaining * (feeRatePrecision - feeRate)) feeRatePrecision.

Lemma fee_of_bounds x : 0 <= x ->
  0 <= fee_of x /\ x * feeRate <= fee_of x * (feeRatePrecision - feeRate) < x * feeRate + (feeRatePrecision - feeRate).
Proof using Hfee.
  clear -Hfee. intros Hx. unfold fee_of. set (N := feeRatePrecision - feeRate). assert (0 < N) by (unfold N; lia).
  assert (0 <= x * feeRate + (N - 1)) as Hn by nia.
  pose proof (Zquot_bounds (x * feeRate + (N - 1)) N Hn ltac:(lia)). pose proof (Zquot_nonneg (x * feeRate + (N - 1)) N Hn ltac:(lia)). lia.
Qed.

Lemma net_of_bounds r : 0 <= r ->
  0 <= net_of r /\ net_of r * feeRatePrecision <= r * (feeRatePrecision - feeRate) < (net_of r + 1) * feeRatePrecision.
Proof using Hfee.
  clear -Hfee. intros Hr. unfold net_of. assert (0 <= r * (feeRatePrecision - feeRate)) as Hn by nia.
  pose proof (Zquot_bounds _ feeRatePrecision Hn ltac:(unfold feeRatePrecision; lia)).
  pose proof (Zquot_nonneg _ feeRatePrecision Hn ltac:(unfold feeRatePrecision; lia)). lia.
Qed.

(** An amount and its fee fit an input exactly when the amount fits its net part. *)
Lemma affords x r : 0 <= x -> 0 <= r -> x + fee_of x <= r <-> x <= net_of r.
Proof using Hfee.
  clear -Hfee. intros Hx Hr. pose proof (fee_of_bounds x Hx) as [Hf0 Hf]. pose proof (net_of_bounds r Hr) as [Hn0 Hn].
  set (F := feeRatePrecision) in *. assert (0 < F) by (unfold F, feeRatePrecision; lia). split; intros H1.
  - destruct (Z_le_gt_dec x (net_of r)) as [|Hgt]; [done|]. exfalso. nia.
  - destruct (Z_le_gt_dec (x + fee_of x) r) as [|Hgt]; [done|]. exfalso. nia.
Qed.

(** An amount is the net part of itself with its fee. *)
Lemma net_of_affordable x : 0 <= x -> net_of (x + fee_of x) = x.
Proof using Hfee.
  clear -Hfee. intros Hx. pose proof (fee_of_bounds x Hx) as [Hf0 Hf].
  pose proof (proj1 (affords x (x + fee_of x) Hx ltac:(lia)) ltac:(lia)). pose proof (net_of_bounds (x + fee_of x) ltac:(lia)) as [Hn0 Hn].
  set (F := feeRatePrecision) in *. assert (0 < F) by (unfold F, feeRatePrecision; lia). nia.
Qed.

(** The guards of a step hold for a positive request. *)
Lemma computeStep_guards remaining exactInput : 0 < remaining ->
  computeStep remaining feeRate L p t exactInput aToB =
    let amountCalc := if exactInput then net_of remaining else remaining in
    let initialFixed := fixedDelta p t L exactInput aToB in
    next ← (if decide (amountCalc < initialFixed) then nextSqrtPrice p L amountCalc exactInput aToB else Ok t);
    let isMax := bool_decide (next = t) in
    let fixed := if isMax then initialFixed else fixedDelta p next L exactInput aToB in
    let '(inp, out) := if exactInput then (fixed, unfixedDelta p next L exactInput aToB)
                       else (unfixedDelta p next L exactInput aToB, if decide (remaining < fixed) then remaining else fixed) in
    Ok (mkSwapStep inp out (if exactInput && negb isMax then remaining - inp else fee_of inp) next).
Proof using Hfee Hp HL Ht Hdir.
  intros Hr. unfold computeStep.
  rewrite decide_False by (destruct (Z.sgn_spec remaining), (Z.sgn_spec L), (Z.sgn_spec p), (Z.sgn_spec t); lia).
  rewrite decide_False by (destruct aToB; direct; intuition (try done; lia)). done.
Qed.

(** A step for an exact input reaches its target or spends everything that remains. *)
Lemma exact_input_step remaining : 0 < remaining -> exists st, computeStep remaining feeRate L p t true aToB = Ok st /\
  ((cost aToB p L t <= net_of remaining /\ st = mkSwapStep (cost aToB p L t) (gain aToB p L t) (fee_of (cost aToB p L t)) t) \/
   (net_of remaining < cost aToB p L t /\ exists next, between aToB p next t /\ next <> t /\ cost aToB p L next <= net_of remaining /\
      (forall x, between aToB p x t -> cost aToB p L x <= net_of remaining -> between aToB p x next) /\
      st = mkSwapStep (cost aToB p L next) (gain aToB p L next) (remaining - cost aToB p L next) next)).
Proof using Hfee Hp HL Ht Hdir.
  intros Hr. rewrite computeStep_guards by done. cbv zeta. fold (cost aToB p L t).
  destruct (net_of_bounds remaining ltac:(lia)) as [Hn _]. destruct (decide (net_of remaining < cost aToB p L t)) as [Hlt|Hge].
  - destruct (next_input aToB p L t (net_of remaining) Hp HL Hdir Ht ltac:(lia)) as (next & -> & Hb & Hne & Hc & Hfar).
    cbn [mbind res_bind]. rewrite bool_decide_eq_false_2 by done. cbn [andb negb]. rewrite unfixed_gain. fold (cost aToB p L next).
    eexists. split; [done|]. right. split; [done|]. exists next. done.
  - cbn [mbind res_bind]. rewrite bool_decide_eq_true_2 by done. cbn [andb negb]. rewrite unfixed_gain. eexists. split; [done|]. left. split; [lia|done].
Qed.

(** A step for an exact output reaches its target or pays everything that remains. *)
Lemma exact_output_step remaining : 0 < remaining -> exists st, computeStep remaining feeRate L p t false aToB = Ok st /\
  ((gain aToB p L t <= remaining /\ st = mkSwapStep (cost aToB p L t) (gain aToB p L t) (fee_of (cost aToB p L t)) t) \/
   (remaining < gain aToB p L t /\ exists next, between aToB p next t /\ remaining <= gain aToB p L next /\
      st = mkSwapStep (cost aToB p L next) remaining (fee_of (cost aToB p L next)) next)).
Proof using Hfee Hp HL Ht Hdir.
  intros Hr. rewrite computeStep_guards by done. cbv zeta. fold (gain aToB p L t).
  destruct (decide (remaining < gain aToB p L t)) as [Hlt|Hge].
  - destruct (next_output aToB p L t remaining Hp HL Hdir Ht ltac:(lia)) as (next & -> & Hb & Hg).
    cbn [mbind res_bind]. rewrite unfixed_cost. fold (gain aToB p L next). cbn [andb].
    set (fixed := if bool_decide (next = t) then gain aToB p L t else gain aToB p L next).
    assert (fixed = gain aToB p L next) as -> by (unfold fixed; destruct (bool_decide_reflect (next = t)) as [->|]; done).
    eexists. split; [done|]. right. split; [done|]. exists next. split; [done|]. split; [done|].
    destruct (decide (remaining < gain aToB p L next)) as [|Heq]; [done|]. by assert (gain aToB p L next = remaining) as -> by lia.
  - cbn [mbind res_bind]. rewrite bool_decide_eq_true_2, unfixed_cost by done. cbn [andb]. rewrite decide_False by done.
    eexists. split; [done|]. left. split; [lia|done].
Qed.
End step.

(** What a step promises to both sides. *)
Record fair_step (aToB : bool) (feeRate p L t : Z) (step : swapStep) : Prop := {
  fs_price : between aToB p (st_next step) t;
  fs_amounts : 0 <= st_in step /\ 0 <= st_out step /\ 0 <= st_fee step;
  fs_in : cost aToB p L (st_next step) <= st_in step;
  fs_out : st_out step <= gain aToB p L (st_next step);
  fs_fee : st_in step * feeRate <= st_fee step * (feeRatePrecision - feeRate) }.

(** What it takes of the request. *)
Definition used (exactInput : bool) (step : swapStep) : Z := if exactInput then st_in step + st_fee step else st_out step.

(** Every step the swap can ask for succeeds, moves the price towards its target without
    passing it, takes no more than what remains, and all of it unless it reaches the
    target; its amounts are rounded against the trader and its fee is at least the
    rate. *)
Lemma computeStep_fair (exactInput aToB : bool) (remaining feeRate L p t : Z) :
  0 < remaining -> 0 <= feeRate < feeRatePrecision -> 0 < L -> 0 < p -> 0 < t -> between aToB p p t ->
  exists step, computeStep remaining feeRate L p t exactInput aToB = Ok step /\ fair_step aToB feeRate p L t step /\
    0 <= used exactInput step <= remaining /\ (st_next step <> t -> used exactInput step = remaining).
Proof.
  intros Hr Hfee HL Hp Ht Hdir. assert (Htt : between aToB p t t) by (destruct aToB; direct; lia).
  pose proof (cost_nonneg aToB p L Hp HL t t Htt Ht) as Hct. pose proof (gain_nonneg aToB p L Hp HL t t Htt Ht) as Hgt.
  destruct exactInput.
  - destruct (exact_input_step aToB feeRate p L t Hfee Hp HL Ht Hdir remaining Hr) as (st & Hst & [[Hc ->]|(Hc & next & Hb & Hne & Hcn & _ & ->)]);
      (eexists; split; [exact Hst|]); cbn [used st_in st_out st_fee st_next].
    + pose proof (fee_of_bounds feeRate Hfee _ Hct) as [Hf Hfb]. pose proof (proj2 (affords feeRate Hfee _ remaining Hct ltac:(lia)) Hc).
      split; [split; cbn; try done; lia|]. split; [lia|done].
    + pose proof (between_pos aToB p Hp next t Hb Ht) as Hnp.
      pose proof (cost_nonneg aToB p L Hp HL next t Hb Ht) as Hc0. pose proof (gain_nonneg aToB p L Hp HL next t Hb Ht) as Hg0.
      pose proof (fee_of_bounds feeRate Hfee _ Hc0) as [Hf Hfb]. pose proof (proj2 (affords feeRate Hfee _ remaining Hc0 ltac:(lia)) Hcn).
      split; [split; cbn; try done; [lia|nia]|]. split; [lia|lia].
  - destruct (exact_output_step aToB feeRate p L t Hfee Hp HL Ht Hdir remaining Hr) as (st & Hst & [[Hc ->]|(Hc & next & Hb & Hg & ->)]);
      (eexists; split; [exact Hst|]); cbn [used st_in st_out st_fee st_next].
    + pose proof (fee_of_bounds feeRate Hfee _ Hct) as [Hf Hfb]. split; [split; cbn; try done; lia|]. split; [lia|done].
    + pose proof (cost_nonneg aToB p L Hp HL next t Hb Ht) as Hc0. pose proof (fee_of_bounds feeRate Hfee _ Hc0) as [Hf Hfb].
      split; [split; cbn; try done; lia|]. split; [lia|done].
Qed.

(** ** The traversal *)

Lemma nearer_tick_inv current aToB ticks candidate c :
  foldl (nearer_tick current aToB) candidate ticks = Some c ->
  candidate = Some c \/ c ∈ ticks /\ (if aToB then tick_index c <= current else current < tick_index c).
Proof.
  revert candidate. induction ticks as [|t ticks IH]; intros candidate H; [by left|]. cbn [foldl] in H.
  destruct (IH _ H) as [Hc|[Hin Hc]]; [|right; split; [by right|done]].
  unfold nearer_tick in Hc. destruct (decide (_ \/ _)) as [Hd|_]; [|by left].
  assert (if aToB then tick_index t <= current else current < tick_index t) as Ht.
  { destruct aToB; destruct Hd as [[? ?]|[? ?]]; done. }
  destruct candidate as [c0|].
  - destruct (decide _) as [_|_]; [|by left]. injection Hc as <-. right. split; [by left|done].
  - injection Hc as <-. right. split; [by left|done].
Qed.

Lemma nextInitializedTick_inv ticks current aToB index price :
  nextInitializedTick ticks current aToB = Some (index, price) ->
  sqrtPriceFromTick index = Ok price /\ whirlpoolMinTick <= index <= whirlpoolMaxTick /\
  exists tick, tick ∈ ticks /\ tick_index tick = index /\ (if aToB then index <= current else current < index).
Proof.
  unfold nextInitializedTick. destruct (foldl _ None ticks) as [c|] eqn:Hf; [|done].
  apply nearer_tick_inv in Hf as [|[Hin Hc]]; [done|]. destruct (sqrtPriceFromTick (tick_index c)) as [v|e|why] eqn:Hs; [|done..].
  intros [= <- <-]. split; [done|]. split.
  - unfold sqrtPriceFromTick in Hs. destruct (decide _) in Hs; [done|]. lia.
  - by exists c.
Qed.

(** The ticks that are still ahead. *)
Definition ahead (aToB : bool) (tick : Z) (t : Tick) : Prop := if aToB then tick_index t <= tick else tick < tick_index t.
#[export] Instance ahead_dec aToB tick t : Decision (ahead aToB tick t).
Proof. unfold ahead. destruct aToB; apply _. Defined.

Definition ticks_ahead (state : Snapshot) (aToB : bool) (tick : Z) : nat := length (filter (ahead aToB tick) (wp_ticks state)).

(** The tick after a crossing. *)
Definition crossed (aToB : bool) (nextTick : Z) : Z := if aToB then int32 (nextTick - 1) else nextTick.

Lemma filter_length_lt {A} (P Q : A -> Prop) `{forall x, Decision (P x)} `{forall x, Decision (Q x)} (l : list A) a :
  (forall x, P x -> Q x) -> a ∈ l -> Q a -> ~ P a -> (length (filter P l) < length (filter Q l))%nat.
Proof.
  intros HPQ Hin Ha Hna.
  assert (Hle : forall l : list A, (length (filter P l) <= length (filter Q l))%nat).
  { clear -HPQ. induction l as [|x l IH]; [done|]. rewrite !filter_cons. destruct (decide (P x)) as [Hx|Hx], (decide (Q x)) as [Hq|Hq]; cbn; try lia.
    by apply HPQ in Hx. }
  induction l as [|x l IH]; [by apply not_elem_of_nil in Hin|]. rewrite !filter_cons. apply elem_of_cons in Hin as [->|Hin].
  - rewrite decide_False, decide_True by done. cbn. specialize (Hle l). lia.
  - specialize (IH Hin). destruct (decide (P x)) as [Hx|Hx], (decide (Q x)) as [Hq|Hq]; cbn; try lia. by apply HPQ in Hx.
Qed.

Lemma crossing_fewer state aToB tick nextTick price :
  nextInitializedTick (wp_ticks state) tick aToB = Some (nextTick, price) ->
  (ticks_ahead state aToB (crossed aToB nextTick) < ticks_ahead state aToB tick)%nat.
Proof.
  intros (_ & Hb & c & Hin & Hi & Hc)%nextInitializedTick_inv. unfold whirlpoolMinTick, whirlpoolMaxTick in Hb.
  unfold ticks_ahead. apply (filter_length_lt _ _ _ c); unfold ahead, crossed; destruct aToB; try done; try lia;
    rewrite int32_id by lia; try (intros; lia).
Qed.

(** ** Valid snapshots *)

Record whirlpool_ok (state : Snapshot) : Prop := {
  wo_price : exists price, wp_sqrtPriceX64 state = Some price /\ 0 < price;
  wo_liquidity : exists liquidity, wp_liquidity state = Some liquidity /\ 0 <= liquidity;
  wo_fee : wp_feeRate state < feeRatePrecision;
  wo_ticks : Forall (fun t => is_Some (tick_net t)) (wp_ticks state) }.

Lemma validate_ticks_net state previous last ticks :
  foldM (validate_tick state) previous ticks = Ok last -> Forall (fun t => is_Some (tick_net t)) ticks.
Proof.
  revert previous. induction ticks as [|t ticks IH]; intros previous H; [constructor|]. cbn [foldM] in H.
  apply bind_Ok in H as (index & Ht & H). unfold validate_tick in Ht. destruct (decide _) as [|Hd] in Ht; [done|].
  constructor; [|by eapply IH]. destruct (tick_net t); [done|]. destruct Hd. by left.
Qed.

Lemma validate_whirlpool state : validate state = Ok tt -> whirlpool_ok state.
Proof.
  unfold validate. destruct (wp_sqrtPriceX64 state) as [price|] eqn:Hp; [|done]. destruct (wp_liquidity state) as [l|] eqn:Hl; [|done].
  intros H. destruct (decide _) as [|H1] in H; [done|]. destruct (decide _) in H; [done|]. destruct (decide _) in H; [done|].
  apply bind_Ok in H as (last & Ht & _). destruct (Z.sgn_spec price), (Z.sgn_spec l); split; try (eexists; split; [done|lia]); try lia.
  all: by eapply validate_ticks_net.
Qed.

Section loop.
Context (state : Snapshot) (aToB exactInput : bool) (Hok : whirlpool_ok state) (Hfee : 0 <= wp_feeRate state).

Lemma crossLiquidity_no_panic liquidity index : no_panic (crossLiquidity liquidity (wp_ticks state) index aToB).
Proof using Hok.
  destruct Hok as [_ _ _ Hnet]. clear Hok Hfee. revert Hnet. generalize (wp_ticks state) as ticks. induction ticks as [|t ticks IH]; intros Hnet; [apply no_panic_Ok|].
  apply Forall_cons_1 in Hnet as [[net Hn] Hnet]. cbn [crossLiquidity]. destruct (decide _); [by apply IH|].
  rewrite Hn. cbn [deref mbind res_bind]. destruct (decide _); [apply no_panic_Err|apply no_panic_Ok].
Qed.

Lemma crossLiquidity_nonneg liquidity index l : 0 <= liquidity -> crossLiquidity liquidity (wp_ticks state) index aToB = Ok l -> 0 <= l.
Proof using Type.
  clear Hok Hfee. intros Hl. generalize (wp_ticks state) as ticks. induction ticks as [|t ticks IH]; cbn [crossLiquidity]; [by intros [= <-]|].
  destruct (decide _); [done|]. intros (net & _ & H)%bind_Ok. destruct (decide _) as [|Hs] in H; [done|]. injection H as <-.
  match goal with Hs : ~ Z.sgn ?x < 0 |- _ => destruct (Z.sgn_spec x); lia end.
Qed.

(** The loop variables stay well formed. *)
Definition loop_ok (s : SwapLoop) : Prop := (exists price, lo_price s = Some price /\ 0 < price) /\ 0 <= lo_liquidity s.

(** A step of the loop, from the current price to a target ahead. *)
Definition moved (s s1 : SwapLoop) : Prop := exists t step price,
  lo_price s = Some price /\ 0 < t /\ between aToB price price t /\ 0 < lo_liquidity s /\
  computeStep (lo_remaining s) (wp_feeRate state) (lo_liquidity s) price t exactInput aToB = Ok step /\ s1 = spend exactInput s step.

(** A pass fails, crosses a tick, after a step or without one, or ends the swap. *)
Inductive passes (s : SwapLoop) : res SwapLoop -> Prop :=
| pass_error e : passes s (Err e)
| pass_cross s1 nextTick price :
    nextInitializedTick (wp_ticks state) (lo_tick s) aToB = Some (nextTick, price) -> s1 = s \/ moved s s1 ->
    passes s (cross state aToB s1 nextTick)
| pass_end s1 : moved s s1 -> lo_remaining s1 <= 0 -> passes s (Ok s1).

(** The guards of a step that succeeds. *)
Lemma computeStep_Ok remaining L price t step :
  computeStep remaining (wp_feeRate state) L price t exactInput aToB = Ok step -> 0 < L /\ between aToB price price t.
Proof using Type.
  clear. unfold computeStep. destruct (decide _) as [|H1]; [done|]. destruct (decide _) as [|H2]; [done|]. intros _.
  split; [destruct (Z.sgn_spec L); lia|]. destruct aToB; direct; lia.
Qed.

Lemma computeStep_no_panic remaining L price t :
  no_panic (computeStep remaining (wp_feeRate state) L price t exactInput aToB).
Proof using Type.
  clear. unfold computeStep, nextSqrtPrice. destruct (decide _); [apply no_panic_Err|]. destruct (decide _); [apply no_panic_Err|].
  cbv zeta. apply no_panic_bind; [|intros next _; destruct exactInput; apply no_panic_Ok].
  destruct (decide _); [|apply no_panic_Ok]. destruct (decide _); [apply no_panic_Ok|].
  destruct (bool_decide _), exactInput; try apply no_panic_Ok; destruct (decide _); first [apply no_panic_Err|apply no_panic_Ok].
Qed.

Lemma swap_iteration_passes s : loop_ok s -> passes s (swap_iteration state aToB exactInput s).
Proof using Type.
  clear Hok Hfee. intros [(price & Hprice & Hpos) HL].
  unfold swap_iteration, swap_target.
  destruct (nextInitializedTick (wp_ticks state) (lo_tick s) aToB) as [[nextTick target]|] eqn:Hnext.
  - assert (Hat : passes s (at_target state aToB s (Some nextTick))) by (eapply pass_cross; [done|by left]).
    destruct (decide (Z.sgn target <= 0)) as [|Htp]; [done|]. rewrite Hprice. cbn [deref mbind res_bind].
    destruct (decide (target = price)); [done|].
    assert (0 < target) as Ht by (destruct (Z.sgn_spec target); lia).
    destruct (computeStep _ _ _ _ _ _ _) as [step|e|why] eqn:Hc; cbn [mbind res_bind].
    2: apply pass_error. 2: by destruct (computeStep_no_panic (lo_remaining s) (lo_liquidity s) price target why).
    assert (moved s (spend exactInput s step)) as Hm by (destruct (computeStep_Ok _ _ _ _ _ Hc); by exists target, step, price).
    destruct (decide _); [eapply pass_cross; [done|by right]|]. destruct (decide _) as [|Hr]; [apply pass_error|].
    apply pass_end; [done|]. destruct (Z.sgn_spec (lo_remaining (spend exactInput s step))); lia.
  - destruct (if wp_fullCoverage state then _ else _) as [target|]; [|apply pass_error].
    destruct (decide (Z.sgn target <= 0)) as [|Htp]; [apply pass_error|]. rewrite Hprice. cbn [deref mbind res_bind].
    destruct (decide (target = price)); [apply pass_error|].
    assert (0 < target) as Ht by (destruct (Z.sgn_spec target); lia).
    destruct (computeStep _ _ _ _ _ _ _) as [step|e|why] eqn:Hc; cbn [mbind res_bind].
    2: apply pass_error. 2: by destruct (computeStep_no_panic (lo_remaining s) (lo_liquidity s) price target why).
    assert (moved s (spend exactInput s step)) as Hm by (destruct (computeStep_Ok _ _ _ _ _ Hc); by exists target, step, price).
    destruct (decide _) as [|Hr]; [apply pass_error|].
    apply pass_end; [done|]. destruct (Z.sgn_spec (lo_remaining (spend exactInput s step))); lia.
Qed.

(** What a step does to the loop variables. *)
Lemma moved_inv s s1 : loop_ok s -> 0 < lo_remaining s -> moved s s1 -> loop_ok s1 /\ exists t price step,
  lo_price s = Some price /\ 0 < t /\ 0 < lo_liquidity s /\ fair_step aToB (wp_feeRate state) price (lo_liquidity s) t step /\
  s1 = spend exactInput s step /\ 0 <= used exactInput step <= lo_remaining s.
Proof using Hok Hfee.
  intros [(price & Hprice & Hpos) HL] Hr (t & step & price' & Hp & Ht & Hdir & HLp & Hc & ->). rewrite Hprice in Hp. injection Hp as <-.
  destruct (computeStep_fair exactInput aToB (lo_remaining s) (wp_feeRate state) (lo_liquidity s) price t Hr) as (step' & Hstep & Hf & Hu & _);
    [destruct Hok; lia|done..|].
  rewrite Hc in Hstep. injection Hstep as <-. split.
  - split; [|done]. exists (st_next step). split; [done|]. destruct Hf as [Hb _ _ _ _]. exact (between_pos aToB price Hpos _ t Hb Ht).
  - by exists t, price, step.
Qed.

Lemma cross_inv s nextTick s' : loop_ok s -> cross state aToB s nextTick = Ok s' ->
  loop_ok s' /\ lo_tick s' = crossed aToB nextTick /\ lo_remaining s' = lo_remaining s /\ lo_calculated s' = lo_calculated s /\
  lo_fees s' = lo_fees s /\ lo_price s' = lo_price s.
Proof using Type.
  clear Hok Hfee. intros [Hp HL] (l & Hl & [= <-])%bind_Ok. split; [|done]. split; [done|]. by eapply crossLiquidity_nonneg.
Qed.

(** The loop never panics, so a pass for every tick ahead and one more are enough. *)
Lemma swap_loop_no_panic fuel : forall s, loop_ok s -> (ticks_ahead state aToB (lo_tick s) < fuel)%nat -> no_panic (swap_loop state aToB exactInput fuel s).
Proof using Hok Hfee.
  induction fuel as [|fuel IH]; intros s Hs Hfuel; [lia|]. cbn [swap_loop]. destruct (decide _) as [Hr|]; [|apply no_panic_Ok].
  assert (0 < lo_remaining s) as Hr' by (destruct (Z.sgn_spec (lo_remaining s)); lia).
  destruct (swap_iteration_passes s Hs) as [e|s1 nextTick price Hnext Hs1|s1 Hm Hend].
  - apply no_panic_Err.
  - assert (loop_ok s1) as Hs1' by (destruct Hs1 as [->|Hm]; [done|by eapply moved_inv]).
    pose proof (crossing_fewer state aToB (lo_tick s) nextTick price Hnext) as Hfew.
    destruct (cross state aToB s1 nextTick) as [s2|e|why] eqn:Hc; cbn [mbind res_bind].
    + destruct (cross_inv _ _ _ Hs1' Hc) as (Hs2 & Ht & _). apply IH; [done|]. rewrite Ht. lia.
    + apply no_panic_Err.
    + exfalso. unfold cross in Hc. destruct (crossLiquidity _ _ _ _) as [l|e|why'] eqn:Hl; [done..|].
      by apply (crossLiquidity_no_panic (lo_liquidity s1) nextTick) in Hl.
  - cbn [mbind res_bind]. destruct fuel; cbn [swap_loop]; (rewrite decide_False by (destruct (Z.sgn_spec (lo_remaining s1)); lia)); apply no_panic_Ok.
Qed.

(** ** The path of a swap *)

(** Fair steps, each from the price the previous one left, with the liquidity and the
    target of each. *)
Fixpoint fair_path (price : Z) (steps : list (Z * Z * swapStep)) : Prop :=
  match steps with
  | [] => True
  | (L, t, step) :: steps => 0 < L /\ 0 < t /\ fair_step aToB (wp_feeRate state) price L t step /\ fair_path (st_next step) steps
  end.

Definition spent (steps : list (Z * Z * swapStep)) : Z := Zsum ((fun x => st_in x.2) <$> steps).
Definition paid (steps : list (Z * Z * swapStep)) : Z := Zsum ((fun x => st_out x.2) <$> steps).
Definition charged (steps : list (Z * Z * swapStep)) : Z := Zsum ((fun x => st_fee x.2) <$> steps).

(** What the loop has done when it went from one state to another. *)
Definition accounts (s s' : SwapLoop) (steps : list (Z * Z * swapStep)) : Prop :=
  lo_fees s' = lo_fees s + charged steps /\
  if exactInput then lo_remaining s' = lo_remaining s - (spent steps + charged steps) /\ lo_calculated s' = lo_calculated s + paid steps
  else lo_remaining s' = lo_remaining s - paid steps /\ lo_calculated s' = lo_calculated s + (spent steps + charged steps).

Lemma accounts_refl s : accounts s s [].
Proof using Type. clear. unfold accounts, spent, paid, charged. cbn. rewrite Zsum_nil. destruct exactInput; lia. Qed.

Lemma accounts_cons s step s' L t steps : accounts (spend exactInput s step) s' steps -> accounts s s' ((L, t, step) :: steps).
Proof using Type.
  clear. unfold accounts, spent, paid, charged, spend. rewrite !fmap_cons, !Zsum_cons. cbn [snd lo_fees lo_remaining lo_calculated].
  destruct exactInput; intros (H1 & H2 & H3); split; try split; lia.
Qed.

Lemma accounts_ext s0 s s' steps : lo_fees s = lo_fees s0 -> lo_remaining s = lo_remaining s0 -> lo_calculated s = lo_calculated s0 ->
  accounts s s' steps -> accounts s0 s' steps.
Proof using Type. clear. unfold accounts. by intros -> -> ->. Qed.

Lemma swap_loop_fair fuel : forall s price s', loop_ok s -> lo_price s = Some price -> 0 <= lo_remaining s ->
  swap_loop state aToB exactInput fuel s = Ok s' ->
  exists steps, fair_path price steps /\ accounts s s' steps /\ lo_remaining s' = 0.
Proof using Hok Hfee.
  induction fuel as [|fuel IH]; intros s price s' Hs Hprice Hr Hloop; cbn [swap_loop] in Hloop; destruct (decide _) as [Hgo|Hstop] in Hloop; try done.
  1, 3: injection Hloop as <-; exists []; split; [done|]; split; [apply accounts_refl|]; destruct (Z.sgn_spec (lo_remaining s)); lia.
  assert (0 < lo_remaining s) as Hpos by (destruct (Z.sgn_spec (lo_remaining s)); lia).
  apply bind_Ok in Hloop as (s2 & Hiter & Hloop). pose proof (swap_iteration_passes s Hs) as Hpass. rewrite Hiter in Hpass.
  assert (Hfair : forall s1, moved s s1 -> forall s3, lo_price s3 = lo_price s1 -> loop_ok s3 -> lo_remaining s3 = lo_remaining s1 ->
    lo_fees s3 = lo_fees s1 -> lo_calculated s3 = lo_calculated s1 -> swap_loop state aToB exactInput fuel s3 = Ok s' ->
    exists steps, fair_path price steps /\ accounts s s' steps /\ lo_remaining s' = 0).
  { intros s1 Hm s3 Hp3 Hs3 Hr3 Hf3 Hc3 Hl3. destruct (moved_inv s s1 Hs Hpos Hm) as [_ (t & price' & step & Hp' & Ht & HL & Hf & -> & Hu)].
    rewrite Hprice in Hp'. injection Hp' as <-.
    destruct (IH s3 (st_next step) s' Hs3) as (steps & Hpath & Hacc & Hend); [by rewrite Hp3| |done|].
    { rewrite Hr3. unfold spend, used in *. cbn. destruct exactInput; lia. }
    exists ((lo_liquidity s, t, step) :: steps). split; [done|]. split; [|done]. apply accounts_cons. by apply (accounts_ext _ s3). }
  inversion Hpass as [|s1 nextTick price' Hnext Hs1 Hcross|s1 Hm Hend Heq].
  - symmetry in Hcross. destruct Hs1 as [->|Hm].
    + destruct (cross_inv s nextTick s2 Hs) as (Hs2 & _ & Hr2 & Hc2 & Hf2 & Hp2); [congruence|].
      destruct (IH s2 price s' Hs2) as (steps & Hpath & Hacc & Hend); [by rewrite Hp2|lia|done|].
      exists steps. split; [done|]. split; [|done]. by apply (accounts_ext _ s2).
    + pose proof (proj1 (moved_inv s s1 Hs Hpos Hm)) as Hs1. destruct (cross_inv s1 nextTick s2 Hs1) as (Hs2 & _ & Hr2 & Hc2 & Hf2 & Hp2); [congruence|].
      by apply (Hfair s1 Hm s2).
  - subst s1. apply (Hfair s2 Hm s2); try done. by eapply moved_inv.
Qed.
End loop.

(** ** Exact outputs are covered by exact inputs *)

Section covering_step.
Context (aToB : bool) (feeRate p L t : Z).
Context (Hfee : 0 <= feeRate < feeRatePrecision) (Hp : 0 < p) (HL : 0 < L) (Ht : 0 < t) (Hdir : between aToB p p t).

(** A step for an output: it reaches its target and pays at most what the move is
    worth, or stops before it and pays everything asked for. *)
Lemma output_cases remaining st : 0 < remaining -> computeStep remaining feeRate L p t false aToB = Ok st ->
  st_fee st = fee_of feeRate (st_in st) /\ st_in st = cost aToB p L (st_next st) /\ st_out st <= remaining /\
  ((st_next st = t /\ st_out st <= gain aToB p L t) \/
   (st_next st <> t /\ between aToB p (st_next st) t /\ st_out st = remaining /\ remaining <= gain aToB p L (st_next st))).
Proof using Hfee Hp HL Ht Hdir.
  intros Hr Hc. destruct (exact_output_step aToB feeRate p L t Hfee Hp HL Ht Hdir remaining Hr) as (st' & Hst & Hcases).
  rewrite Hc in Hst. injection Hst as <-. destruct Hcases as [[Hg ->]|(Hg & next & Hb & Hgn & ->)]; cbn.
  - split; [done|]. split; [done|]. split; [done|]. left. split; [done|lia].
  - split; [done|]. split; [done|]. split; [lia|]. destruct (decide (next = t)) as [->|Hne]; [left; split; [done|lia]|right; done].
Qed.

(** An input that affords the target reaches it. *)
Lemma input_reaches remaining : cost aToB p L t + fee_of feeRate (cost aToB p L t) <= remaining -> 0 < remaining ->
  computeStep remaining feeRate L p t true aToB = Ok (mkSwapStep (cost aToB p L t) (gain aToB p L t) (fee_of feeRate (cost aToB p L t)) t).
Proof using Hfee Hp HL Ht Hdir.
  intros Hr Hpos. assert (Htt : between aToB p t t) by (destruct aToB; direct; lia).
  pose proof (cost_nonneg aToB p L Hp HL t t Htt Ht) as Hc. apply (affords feeRate Hfee) in Hr; [|lia..].
  destruct (exact_input_step aToB feeRate p L t Hfee Hp HL Ht Hdir remaining Hpos) as (st & Hst & [[_ ->]|[Hlt _]]); [done|lia].
Qed.

(** An input of exactly what a move costs is spent completely and buys at least what the
    move pays. *)
Lemma input_buys next : between aToB p next t -> 0 < cost aToB p L next ->
  let remaining := cost aToB p L next + fee_of feeRate (cost aToB p L next) in
  exists st, computeStep remaining feeRate L p t true aToB = Ok st /\ st_in st + st_fee st = remaining /\ gain aToB p L next <= st_out st.
Proof using Hfee Hp HL Ht Hdir.
  intros Hb Hc remaining. pose proof (fee_of_bounds feeRate Hfee _ (Z.lt_le_incl _ _ Hc)) as [Hf _].
  assert (Htt : between aToB p t t) by (destruct aToB; direct; lia).
  assert (Hnet : net_of feeRate remaining = cost aToB p L next) by (apply net_of_affordable; [done|lia]).
  destruct (exact_input_step aToB feeRate p L t Hfee Hp HL Ht Hdir remaining ltac:(unfold remaining; lia)) as (st & Hst & [[Hle ->]|(Hlt & x & Hx & Hne & Hcx & Hfar & ->)]).
  - eexists. split; [exact Hst|]. cbn. pose proof (cost_mono aToB p L Hp HL next t Hb Ht).
    assert (cost aToB p L t = cost aToB p L next) as -> by lia. split; [done|]. by apply gain_mono.
  - eexists. split; [exact Hst|]. cbn. split; [lia|]. assert (between aToB p next x) as Hnx by (apply Hfar; [done|lia]).
    apply gain_mono; [done..|]. exact (between_pos aToB p Hp _ t Hx Ht).
Qed.
End covering_step.

(** A move that pays something costs something. *)
Lemma gain_cost aToB p L x : 0 < p -> 0 < L -> 0 < x -> between aToB p x x -> 0 < gain aToB p L x -> 0 < cost aToB p L x.
Proof.
  intros Hp HL Hx Hb Hg. destruct (Z_lt_le_dec 0 (cost aToB p L x)) as [|Hle]; [done|]. exfalso. pose proof Q64_pos.
  apply (cost_le aToB p L Hp HL x x 0 Hb Hx) in Hle. assert (1 <= gain aToB p L x) as Hg1 by lia.
  apply (le_gain aToB p L Hp HL x x 1 Hb Hx) in Hg1. destruct aToB; direct.
  - assert (L * Q64 * p <= x * (L * Q64)) by lia. assert (0 < L * Q64) by nia. assert (p <= x) by nia. nia.
  - assert (L * (x - p) <= 0) by lia. assert (x <= p) by nia. assert (x = p) as -> by lia. nia.
Qed.

Section covering.
Context (state : Snapshot) (aToB : bool) (Hok : whirlpool_ok state) (Hfee : 0 <= wp_feeRate state).

Lemma path_spends steps : forall price, 0 < price -> fair_path state aToB price steps ->
  0 <= spent steps /\ 0 <= charged steps /\ 0 <= paid steps /\ (0 < paid steps -> 0 < spent steps).
Proof using Type.
  clear Hok Hfee. unfold spent, charged, paid. induction steps as [|[[L t] step] steps IH]; intros price Hp Hpath; [cbn; rewrite Zsum_nil; lia|].
  destruct Hpath as (HL & Ht & [Hb (Hi & Ho & Hf) Hin Hout _] & Hrest). pose proof (between_pos aToB price Hp _ t Hb Ht) as Hnp.
  destruct (IH _ Hnp Hrest) as (H1 & H2 & H3 & H4). rewrite !fmap_cons, !Zsum_cons. cbn [snd].
  split; [lia|]. split; [lia|]. split; [lia|]. intros Hpaid. destruct (decide (0 < st_out step)) as [Hpos|]; [|lia].
  assert (between aToB price (st_next step) (st_next step)) as Hbb by (destruct aToB; direct; lia).
  pose proof (gain_cost aToB price L (st_next step) Hp HL Hnp Hbb). lia.
Qed.

(** Whatever is asked for costs something. *)
Lemma output_costs fuel s s' : loop_ok s -> 0 <= lo_remaining s -> swap_loop state aToB false fuel s = Ok s' ->
  0 <= lo_calculated s' - lo_calculated s /\ (0 < lo_remaining s -> 0 < lo_calculated s' - lo_calculated s).
Proof using Hok Hfee.
  intros Hs Hr Hloop. pose proof Hs as [(price & Hprice & Hpos) _].
  destruct (swap_loop_fair state aToB false Hok Hfee fuel s price s' Hs Hprice Hr Hloop) as (steps & Hpath & [_ [Hrem Hcalc]] & Hend).
  destruct (path_spends steps price Hpos Hpath) as (H1 & H2 & H3 & H4). lia.
Qed.

(** The same place of the two swaps. *)
Definition twin (so si : SwapLoop) : Prop := lo_price so = lo_price si /\ lo_liquidity so = lo_liquidity si /\ lo_tick so = lo_tick si.

Definition ErrUnderflow : error := Errorf "whirlpool liquidity underflow at tick %d".

Lemma crossLiquidity_error liquidity index e : crossLiquidity liquidity (wp_ticks state) index aToB = Err e -> e = ErrUnderflow.
Proof using Hok.
  destruct Hok as [_ _ _ Hnet]. clear Hok Hfee. revert Hnet. generalize (wp_ticks state) as ticks. induction ticks as [|t ticks IH]; intros Hnet; [done|].
  apply Forall_cons_1 in Hnet as [[net Hn] Hnet]. cbn [crossLiquidity]. destruct (decide _); [by apply IH|].
  rewrite Hn. cbn [deref mbind res_bind]. destruct (decide _); [|done]. by intros [= <-].
Qed.

Lemma cross_twin so si nextTick so2 : twin so si -> cross state aToB so nextTick = Ok so2 ->
  exists si2, cross state aToB si nextTick = Ok si2 /\ twin so2 si2 /\ lo_remaining si2 = lo_remaining si /\ lo_calculated si2 = lo_calculated si.
Proof using Type.
  clear. intros (Hp & HL & Ht) (l & Hl & [= <-])%bind_Ok. eexists. unfold cross. rewrite <- HL, Hl. done.
Qed.

(** The swap for the input ends with [amount] or more than it had, or finds a tick
    that takes more liquidity than there is. *)
Definition buys (r : res SwapLoop) (si : SwapLoop) (amount : Z) : Prop :=
  (exists si', r = Ok si' /\ lo_calculated si + amount <= lo_calculated si') \/ r = Err ErrUnderflow.

Lemma buys_weaken r s si a amount : buys r s a -> lo_calculated si + amount <= lo_calculated s + a -> buys r si amount.
Proof using Type. clear. intros [(si' & -> & H)| ->] Hle; [left; exists si'; split; [done|lia]|by right]. Qed.

Lemma swap_loop_ended exactInput fuel s : lo_remaining s <= 0 -> swap_loop state aToB exactInput fuel s = Ok s.
Proof using Type. clear. intros Hr. destruct fuel; cbn [swap_loop]; by rewrite decide_False by (destruct (Z.sgn_spec (lo_remaining s)); lia). Qed.

Lemma buys_done fuel s si amount : lo_remaining s <= 0 -> lo_calculated si + amount <= lo_calculated s ->
  buys (swap_loop state aToB true fuel s) si amount.
Proof using Type. clear. intros Hr Ha. left. exists s. by rewrite swap_loop_ended. Qed.

Lemma swap_loop_stops exactInput fuel s s' : lo_remaining s <= 0 -> swap_loop state aToB exactInput fuel s = Ok s' -> s' = s.
Proof using Type. clear. intros Hr. rewrite swap_loop_ended by done. by intros [= ->]. Qed.

(** The induction hypothesis of the simulation, for [fuel] passes. *)
Definition covers fuel : Prop := forall so si so', loop_ok so -> twin so si -> 0 <= lo_remaining so ->
  swap_loop state aToB false fuel so = Ok so' -> lo_remaining si = lo_calculated so' - lo_calculated so ->
  buys (swap_loop state aToB true fuel si) si (lo_remaining so).

Lemma cross_covers fuel so si nextTick so2 so' : covers fuel -> loop_ok so -> twin so si -> 0 <= lo_remaining so ->
  cross state aToB so nextTick = Ok so2 -> swap_loop state aToB false fuel so2 = Ok so' ->
  lo_remaining si = lo_calculated so' - lo_calculated so ->
  buys (si2 ← cross state aToB si nextTick; swap_loop state aToB true fuel si2) si (lo_remaining so).
Proof using Type.
  clear Hok Hfee. intros IH Hso Htwin Hr Hc Hloop Hsi. destruct (cross_inv state aToB so nextTick so2 Hso Hc) as (Hso2 & _ & Hr2 & Hc2 & _).
  destruct (cross_twin so si nextTick so2 Htwin Hc) as (si2 & -> & Htwin2 & Hri & Hci). cbn [mbind res_bind].
  eapply buys_weaken; [eapply (IH so2 si2 so'); [done..|lia|done|lia]|lia].
Qed.

(** A step of the exact-output swap, and where its loop goes from there. *)
Lemma step_covers fuel so si hasTick t price so2 so' : covers fuel -> loop_ok so -> twin so si -> 0 < lo_remaining so -> 0 < lo_remaining si ->
  lo_price so = Some price -> 0 < t ->
  (step ← computeStep (lo_remaining so) (wp_feeRate state) (lo_liquidity so) price t false aToB;
   let s := spend false so step in
   match hasTick with
   | Some nextTick => if decide (st_next step = t) then cross state aToB s nextTick else
       if decide (0 < Z.sgn (lo_remaining s)) then Err (Errorf "whirlpool has insufficient tick coverage") else Ok s
   | None => if decide (0 < Z.sgn (lo_remaining s)) then Err (Errorf "whirlpool has insufficient tick coverage") else Ok s
   end) = Ok so2 ->
  swap_loop state aToB false fuel so2 = Ok so' -> lo_remaining si = lo_calculated so' - lo_calculated so ->
  buys (si2 ← (step ← computeStep (lo_remaining si) (wp_feeRate state) (lo_liquidity si) price t true aToB;
        let s := spend true si step in
        match hasTick with
        | Some nextTick => if decide (st_next step = t) then cross state aToB s nextTick else
            if decide (0 < Z.sgn (lo_remaining s)) then Err (Errorf "whirlpool has insufficient tick coverage") else Ok s
        | None => if decide (0 < Z.sgn (lo_remaining s)) then Err (Errorf "whirlpool has insufficient tick coverage") else Ok s
        end);
        swap_loop state aToB true fuel si2) si (lo_remaining so).
Proof using Hok Hfee.
  intros IH Hso Htwin Hr Hri0 Hprice Ht Hiter Hloop Hsi. apply bind_Ok in Hiter as (st & Hst & Hiter). cbv zeta in Hiter.
  destruct (computeStep_Ok state aToB false _ _ _ _ _ Hst) as [HL Hdir].
  assert (Hpos : 0 < price) by (destruct Hso as [(price' & Hp' & ?) _]; congruence).
  assert (Hrate : 0 <= wp_feeRate state < feeRatePrecision) by (destruct Hok; lia).
  pose proof Htwin as (_ & HLi & Hti). rewrite <- HLi.
  assert (Hm : moved state aToB false so (spend false so st)) by (exists t, st, price; done).
  pose proof (proj1 (moved_inv state aToB false Hok Hfee so _ Hso Hr Hm)) as Hso1.
  assert (Htt : between aToB price t t) by (destruct aToB; direct; lia).
  pose proof (cost_nonneg aToB price (lo_liquidity so) Hpos HL t t Htt Ht) as Hct. pose proof (fee_of_bounds _ Hrate _ Hct) as [Hft _].
  destruct (output_cases aToB _ price _ t Hrate Hpos HL Ht Hdir _ _ Hr Hst) as (Hfe & Hin & Hout & [[Hnext Hg]|(Hne & Hb & Hall & Hg)]).
  - (* the target is reached: the input affords it too *)
    rewrite Hnext in Hin. rewrite Hin in Hfe. assert (Hrest : 0 <= lo_calculated so' - lo_calculated (spend false so st)).
    { destruct hasTick as [nextTick|]; [rewrite decide_True in Hiter by done|destruct (decide _) in Hiter; [done|injection Hiter as <-]].
      - destruct (cross_inv state aToB _ _ _ Hso1 Hiter) as (Hso2 & _ & Hr2 & Hc2 & _). rewrite <- Hc2.
        apply (output_costs fuel so2 so' Hso2); [rewrite Hr2; cbn; lia|done].
      - eapply output_costs; [done|cbn; lia|done]. }
    set (so1 := spend false so st) in *. assert (lo_remaining so1 = lo_remaining so - st_out st) as Hr1 by done.
    assert (lo_calculated so1 = lo_calculated so + st_in st + st_fee st) as Hc1 by done.
    rewrite (input_reaches aToB _ price _ t Hrate Hpos HL Ht Hdir) by lia. cbn [mbind res_bind].
    match goal with |- context [spend true si ?x] => set (step := x) end. set (si1 := spend true si step).
    assert (lo_remaining si1 = lo_remaining si - (st_in st + st_fee st)) as Hri by (rewrite Hin, Hfe; reflexivity).
    assert (lo_calculated si1 = lo_calculated si + gain aToB price (lo_liquidity so) t) as Hci by done.
    assert (Htwin1 : twin so1 si1) by (split; [cbn; by rewrite Hnext|done]).
    destruct hasTick as [nextTick|].
    + rewrite decide_True in Hiter by done. rewrite decide_True by done.
      eapply buys_weaken; [eapply (cross_covers fuel so1 si1); [done..|lia|done|done|lia]|lia].
    + destruct (decide _) as [|Hend] in Hiter; [done|]. injection Hiter as <-.
      assert (lo_remaining so1 <= 0) as Hend' by (destruct (Z.sgn_spec (lo_remaining so1)); lia).
      apply swap_loop_stops in Hloop as ->; [|done].
      rewrite decide_False by (destruct (Z.sgn_spec (lo_remaining si1)); lia). cbn [mbind res_bind]. apply buys_done; lia.
  - (* everything is paid before the target: the input is spent completely *)
    assert (Hiter' : so2 = spend false so st).
    { destruct hasTick; [rewrite decide_False in Hiter by done|]; destruct (decide _) in Hiter; try done; by injection Hiter as <-. }
    subst so2. apply swap_loop_stops in Hloop as ->; [|cbn; lia]. cbn [spend lo_calculated] in Hsi.
    pose proof (between_pos aToB price Hpos _ t Hb Ht) as Hnp.
    assert (Hbb : between aToB price (st_next st) (st_next st)) by (destruct aToB; direct; lia).
    pose proof (gain_cost aToB price _ (st_next st) Hpos HL Hnp Hbb ltac:(lia)) as Hc.
    destruct (input_buys aToB _ price _ t Hrate Hpos HL Ht Hdir (st_next st) Hb Hc) as (st' & Hst' & Hspent & Hbuys).
    rewrite Hin in Hfe. rewrite <- Hfe, <- Hin in Hst', Hspent. replace (st_in st + st_fee st) with (lo_remaining si) in Hst' by lia.
    rewrite Hst'. cbn [mbind res_bind]. set (si1 := spend true si st').
    assert (lo_remaining si1 = 0) as Hri by (unfold si1, spend; cbn [lo_remaining]; lia).
    assert (lo_calculated si + lo_remaining so <= lo_calculated si1) as Hci by (unfold si1, spend; cbn [lo_calculated]; lia).
    rewrite Hri. cbn [Z.sgn]. destruct hasTick as [nextTick|]; [destruct (decide (st_next st' = t))|]; try (cbn [mbind res_bind]; apply buys_done; lia).
    unfold cross. destruct (crossLiquidity (lo_liquidity si1) _ _ _) as [l|err|why] eqn:Hl; cbn [mbind res_bind].
    + apply buys_done; cbn [lo_remaining lo_calculated]; lia.
    + right. by rewrite (crossLiquidity_error _ _ _ Hl).
    + by apply (crossLiquidity_no_panic state aToB Hok (lo_liquidity si1) nextTick) in Hl.
Qed.

Lemma swap_loop_covers fuel : covers fuel.
Proof using Hok Hfee.
  induction fuel as [|fuel IH]; intros so si so' Hso Htwin Hr Hloop Hsi.
  { cbn [swap_loop] in Hloop. destruct (decide _) as [|Hstop] in Hloop; [done|]. injection Hloop as <-.
    apply buys_done; [lia|]. destruct (Z.sgn_spec (lo_remaining so)); lia. }
  destruct (decide (lo_remaining so = 0)) as [Hzero|Hnz].
  { apply swap_loop_stops in Hloop as ->; [|lia]. apply buys_done; lia. }
  pose proof (output_costs _ _ _ Hso Hr Hloop) as [_ Hcosts]. specialize (Hcosts ltac:(lia)).
  cbn [swap_loop] in Hloop |- *. rewrite decide_True in Hloop by (destruct (Z.sgn_spec (lo_remaining so)); lia).
  rewrite decide_True by (destruct (Z.sgn_spec (lo_remaining si)); lia).
  apply bind_Ok in Hloop as (so2 & Hiter & Hloop). pose proof Hso as [(price & Hprice & Hpos) _]. pose proof Htwin as (Hpp & _ & Htt).
  unfold swap_iteration in *. rewrite <- Htt, <- Hpp, Hprice. rewrite Hprice in Hiter.
  destruct (swap_target state aToB (lo_tick so)) as [hasTick target].
  assert (Hat : at_target state aToB so hasTick = Ok so2 ->
    buys (si2 ← at_target state aToB si hasTick; swap_loop state aToB true fuel si2) si (lo_remaining so)).
  { destruct hasTick as [nextTick|]; [|done]. cbn [at_target]. intros Hc. by eapply cross_covers. }
  destruct target as [t|]; [|by apply Hat]. destruct (decide (Z.sgn t <= 0)) as [|Ht]; [by apply Hat|].
  cbn [deref mbind res_bind] in Hiter |- *. destruct (decide (t = price)); [by apply Hat|].
  eapply step_covers; [done..|lia|lia|done|destruct (Z.sgn_spec t); lia|exact Hiter|done|done].
Qed.
End covering.

(** ** The swap *)

(** The loop starts well formed. *)
Lemma swap_start state aToB exactInput amount : whirlpool_ok state -> 0 < amount ->
  exists price liquidity, wp_sqrtPriceX64 state = Some price /\ 0 < price /\ wp_liquidity state = Some liquidity /\ 0 <= liquidity /\
    let start := mkSwapLoop amount 0 0 (Some price) liquidity (wp_tick state) in loop_ok start /\
    swap state aToB exactInput (Some amount) =
      if decide (Z.sgn liquidity <= 0 \/ feeRatePrecision <= wp_feeRate state) then Err (Errorf "invalid whirlpool swap request") else
      s ← swap_loop state aToB exactInput (swap_fuel state) start;
      if decide (exactInput = false /\ Z.sgn (lo_calculated s) = 0) then Err ErrRoundsToZero else Ok (lo_calculated s, lo_fees s).
Proof.
  intros [(price & Hp & Hpos) (l & Hl & Hnn) _ _] Ha. exists price, l. cbv zeta. do 4 (split; [done|]).
  split; [split; [exists price; done|done]|]. unfold swap. rewrite decide_False by (destruct (Z.sgn_spec amount); lia).
  by rewrite Hl, Hp.
Qed.

Lemma ticks_ahead_fuel state aToB tick : (ticks_ahead state aToB tick < swap_fuel state)%nat.
Proof.
  unfold ticks_ahead, swap_fuel. pose proof (length_filter (ahead aToB tick) (wp_ticks state)). lia.
Qed.

(** The swap of a valid Whirlpool snapshot always returns: no request makes its loop
    run out of its passes (a tick is crossed at most once) and none panics, by a zero
    divisor, a nil price or a nil tick. *)
Theorem swap_returns state aToB exactInput amount :
  validate state = Ok tt -> 0 <= wp_feeRate state -> no_panic (swap state aToB exactInput amount).
Proof.
  intros Hok%validate_whirlpool Hfee. destruct amount as [amount|]; [|apply no_panic_Err].
  destruct (decide (0 < amount)) as [Ha|Ha].
  2: { unfold swap. rewrite decide_True by (destruct (Z.sgn_spec amount); lia). apply no_panic_Err. }
  destruct (swap_start state aToB exactInput amount Hok Ha) as (price & l & _ & _ & _ & _ & Hstart & ->).
  destruct (decide _); [apply no_panic_Err|]. apply no_panic_bind; [|intros s _; destruct (decide _); [apply no_panic_Err|apply no_panic_Ok]].
  apply swap_loop_no_panic; [done..|]. apply ticks_ahead_fuel.
Qed.

(** A Whirlpool swap that returns is a path of fair steps from the price of the pool:
    each starts where the previous one ended and does not pass its target, takes at
    least what the move costs, pays at most what it is worth and charges at least the
    fee rate.  An exact input is exactly what the steps take and their fees and the
    result exactly what they pay; for an exact output it is the other way round. *)
Theorem swap_sound state aToB exactInput amount result fees :
  validate state = Ok tt -> 0 <= wp_feeRate state -> swap state aToB exactInput (Some amount) = Ok (result, fees) ->
  exists price steps, wp_sqrtPriceX64 state = Some price /\ fair_path state aToB price steps /\ fees = charged steps /\
    if exactInput then spent steps + charged steps = amount /\ result = paid steps
    else paid steps = amount /\ result = spent steps + charged steps.
Proof.
  intros Hok%validate_whirlpool Hfee Hswap. destruct (decide (0 < amount)) as [Ha|Ha].
  2: { unfold swap in Hswap. by rewrite decide_True in Hswap by (destruct (Z.sgn_spec amount); lia). }
  destruct (swap_start state aToB exactInput amount Hok Ha) as (price & l & Hp & _ & _ & _ & Hstart & Heq). rewrite Heq in Hswap. clear Heq.
  destruct (decide _) in Hswap; [done|]. apply bind_Ok in Hswap as (s & Hloop & Hend). destruct (decide _) in Hend; [done|]. injection Hend as <- <-.
  destruct (swap_loop_fair state aToB exactInput Hok Hfee _ _ price _ Hstart eq_refl ltac:(cbn; lia) Hloop) as (steps & Hpath & [Hf Hacc] & Hr).
  exists price, steps. split; [done|]. split; [done|]. cbn [lo_fees lo_remaining lo_calculated] in *. split; [lia|].
  destruct exactInput; destruct Hacc; lia.
Qed.

(** C36.  The two modes of the Whirlpool swap agree: the input computed for an exact output,
    swapped as an exact input on the same snapshot, buys at least that output, through
    every tick and with every fee and rounding of the two; the only alternative is the
    reported underflow of a tick whose net liquidity exceeds the pool's. *)
Theorem swap_covers state aToB amount inp fees :
  validate state = Ok tt -> 0 <= wp_feeRate state -> swap state aToB false (Some amount) = Ok (inp, fees) ->
  (exists out fees', swap state aToB true (Some inp) = Ok (out, fees') /\ amount <= out) \/ swap state aToB true (Some inp) = Err ErrUnderflow.
Proof.
  intros Hok%validate_whirlpool Hfee Hswap. destruct (decide (0 < amount)) as [Ha|Ha].
  2: { unfold swap in Hswap. by rewrite decide_True in Hswap by (destruct (Z.sgn_spec amount); lia). }
  destruct (swap_start state aToB false amount Hok Ha) as (price & l & Hp & _ & Hl & _ & Hstart & Heq). rewrite Heq in Hswap. clear Heq.
  destruct (decide _) as [|Hguard] in Hswap; [done|]. apply bind_Ok in Hswap as (s & Hloop & Hend). destruct (decide _) in Hend; [done|]. injection Hend as <- _.
  pose proof (output_costs state aToB Hok Hfee _ _ _ Hstart ltac:(cbn; lia) Hloop) as [_ Hpos]. cbn [lo_remaining lo_calculated] in Hpos.
  destruct (swap_start state aToB true (lo_calculated s) Hok ltac:(lia)) as (price' & l' & Hp' & _ & Hl' & _ & _ & ->).
  rewrite Hp in Hp'. injection Hp' as <-. rewrite Hl in Hl'. injection Hl' as <-. rewrite decide_False by done.
  destruct (swap_loop_covers state aToB Hok Hfee _ _ (mkSwapLoop (lo_calculated s) 0 0 (Some price) l (wp_tick state)) _ Hstart
    ltac:(done) ltac:(cbn; lia) Hloop ltac:(cbn; lia)) as [(s' & -> & Hbuys)| ->]; [left|by right].
  eexists _, _. split; [done|]. cbn in Hbuys. lia.
Qed.

(** A pool of two positions, the inner one half of the liquidity. *)
Module OrcaWitness.
Definition pool : Snapshot := mkSnapshot 1 (Some (2 ^ 64)) 0 (Some 2000000000) 3000 64
  [mkTick (-128) (Some 1000000000); mkTick (-64) (Some 1000000000); mkTick 64 (Some (-1000000000)); mkTick 128 (Some (-1000000000))] true 0 0.

Lemma orca_returns_witness : no_panic (swap pool true true (Some 20000000)).
Proof. apply (swap_returns pool true true (Some 20000000)); [vm_compute; reflexivity|done]. Defined.

(** An exact output that crosses a tick. *)
Lemma orca_sound_witness : exists price steps, wp_sqrtPriceX64 pool = Some price /\ fair_path pool true price steps /\ 24174 = charged steps /\
  paid steps = 8000000 /\ 8057617 = spent steps + charged steps.
Proof. apply (swap_sound pool true false 8000000 8057617 24174); [vm_compute; reflexivity|done|vm_compute; reflexivity]. Defined.

Lemma orca_covers_witness : (exists out fees, swap pool true true (Some 8057617) = Ok (out, fees) /\ 8000000 <= out) \/
  swap pool true true (Some 8057617) = Err ErrUnderflow.
Proof. apply (swap_covers pool true 8000000 8057617 24174); [vm_compute; reflexivity|done|vm_compute; reflexivity]. Defined.
End OrcaWitness.
