(* ===== verification/LiveEvaluator.v ===== *)
(** * Live evaluation
    (src/core/strategy/live.go, src/core/strategy/valuation_cache.go)

    The valuation cache keeps the latest base price of every source and direction
    and averages them.  The evaluator fixes the input of both legs from a notional
    and that price, asks both markets, and values the answers.  Theorems: the
    average is that of the latest observations and lies between them; a valued
    opportunity is exact rational arithmetic on the two quotes, passes the
    validation of a durable operation, and is profitable exactly within its
    threshold and limits; the legs are asked for the amounts the request fixes. *)
From Stdlib Require Import QArith Qcanon.
From S2P Require Import Prelude Amount Quote Registry Pools Arbitrage Execution.
Local Open Scope Z_scope.

(** ** The valuation cache *)

Record valuationObservation := mkValuationObservation { vo_price : Qc; vo_at : Time }.

Record BaseValuationCache := mkBaseValuationCache {
  vc_base : AssetID; vc_quote : AssetID; vc_version : Z; vc_observations : gmap string valuationObservation }.

Definition NewBaseValuationCache (base quote : AssetID) : res BaseValuationCache :=
  if decide (base = "" \/ quote = "" \/ base = quote)
  then Err (Errorf "valuation cache requires distinct base and quote assets")
  else Ok (mkBaseValuationCache base quote 0 ∅).

Definition implied_price (c : BaseValuationCache) (tokenIn tokenOut : Token) (input output : AssetQuantity) : res Qc :=
  if decide (Token_Asset tokenIn = vc_quote c /\ Token_Asset tokenOut = vc_base c) then Rat_Quo (Rat input) (Rat output) else
  if decide (Token_Asset tokenIn = vc_base c /\ Token_Asset tokenOut = vc_quote c) then Rat_Quo (Rat output) (Rat input)
  else Err (Errorf "valuation quote must exchange configured base and quote assets").

Definition observed_price (c : BaseValuationCache) (key : string) (quote : Quote) (tokenIn tokenOut : Token) (observedAt : Time) :
    res Qc :=
  if decide (key = "" \/ Time_IsZero observedAt \/ q_Quality quote <> QuoteQualityExact)
  then Err (Errorf "valuation observation requires cache, key, exact quote, and timestamp") else
  if decide (Token_ID tokenIn <> amount_token (q_AmountIn quote) \/ Token_ID tokenOut <> amount_token (q_AmountOut quote) \/
             IsZero (q_AmountIn quote) \/ IsZero (q_AmountOut quote))
  then Err (Errorf "valuation quote does not match its token definitions") else
  input ← ToAssetQuantity (q_AmountIn quote) tokenIn;
  output ← ToAssetQuantity (q_AmountOut quote) tokenOut;
  price ← implied_price c tokenIn tokenOut input output;
  if decide (Z.sgn (Num price) <= 0) then Err (Errorf "valuation observation produced a non-positive price") else Ok price.

(** The receiver of [Observe], [Snapshot] and [Reset] is not nil. *)
Definition Valuation_Observe (key : string) (quote : Quote) (tokenIn tokenOut : Token) (observedAt : Time) :
    ST BaseValuationCache unit :=
  c ← get;
  price ← lift (observed_price c key quote tokenIn tokenOut observedAt);
  put (mkBaseValuationCache (vc_base c) (vc_quote c) (uint64 (vc_version c + 1))
         (<[key := mkValuationObservation price observedAt]> (vc_observations c))).

Definition Valuation_Reset : ST BaseValuationCache unit :=
  modify (fun c => mkBaseValuationCache (vc_base c) (vc_quote c) (uint64 (vc_version c + 1)) ∅).

Definition total_price (prices : list (string * valuationObservation)) : Qc :=
  foldl (fun total entry => (total + vo_price entry.2)%Qc) (Q2Qc 0) prices.

Definition Valuation_Snapshot `{!RangeOrder string} (c : BaseValuationCache) (capturedAt : Time) : res ValuationSnapshot :=
  if decide (Time_IsZero capturedAt) then Err (Errorf "valuation cache and capture time are required") else
  if decide (vc_observations c = ∅) then Err (Errorf "valuation cache is not initialized") else
  let count := Z.of_nat (size (vc_observations c)) in
  mean ← Rat_Quo (total_price (range (vc_observations c))) (SetInt count);
  NewValuationSnapshot (vc_version c) (vc_base c) (vc_quote c) (Some mean) count capturedAt.

(** ** The evaluator *)

Record LiveEvaluator (D : Type) := mkLiveEvaluator {
  le_setup : ArbitrageSetup; le_registry : Registry; le_sources : gmap MarketID (QuoteInput D -> res Quote) }.
Arguments mkLiveEvaluator {D}.
Arguments le_setup {D}. Arguments le_registry {D}. Arguments le_sources {D}.

Record LiveEvaluationRequest (D : Type) := mkLiveEvaluationRequest {
  lr_ID : string; lr_Direction : Direction; lr_Snapshots : gmap MarketID (MarketSnapshot D);
  lr_Notional : AssetQuantity; lr_Valuation : ValuationSnapshot; lr_Cost : AssetQuantity;
  lr_Threshold : AssetQuantity; lr_MaximumCost : AssetQuantity; lr_MaximumBaseExposure : AssetQuantity;
  lr_TriggeredAt : Time; lr_QuoteConversion : option QuoteConversionSnapshot }.
Arguments mkLiveEvaluationRequest {D}.
Arguments lr_ID {D}. Arguments lr_Direction {D}. Arguments lr_Snapshots {D}. Arguments lr_Notional {D}.
Arguments lr_Valuation {D}. Arguments lr_Cost {D}. Arguments lr_Threshold {D}. Arguments lr_MaximumCost {D}.
Arguments lr_MaximumBaseExposure {D}. Arguments lr_TriggeredAt {D}. Arguments lr_QuoteConversion {D}.

Record liveTokens := mkLiveTokens {
  lt_buyBase : Token; lt_buyQuote : Token; lt_sellBase : Token; lt_sellQuote : Token }.

Definition QuotePurposeLiveDiscovery : string := "live_discovery".

Section evaluator.
Context {D : Type}.

Definition add_source (sources : gmap MarketID (QuoteInput D -> res Quote))
    (acc : gmap MarketID (QuoteInput D -> res Quote)) (marketID : MarketID) : res (gmap MarketID (QuoteInput D -> res Quote)) :=
  match sources !! marketID with
  | None => Err (Errorf "live evaluator requires source for market %q")
  | Some source => Ok (<[marketID := source]> acc)
  end.

(** [given]: the configuration has a clock. *)
Definition NewLiveEvaluator (setup : ArbitrageSetup) (registry : option Registry)
    (sources : gmap MarketID (QuoteInput D -> res Quote)) (given : bool) : res (LiveEvaluator D) :=
  match registry with
  | Some registry =>
      if decide (setup_id setup = "" \/ given = false)
      then Err (Errorf "live evaluator requires setup, registry, and clock") else
      sources ← foldM (add_source sources) ∅ (setup_markets setup);
      Ok (mkLiveEvaluator setup registry sources)
  | None => Err (Errorf "live evaluator requires setup, registry, and clock")
  end.

Definition live_tokens (e : LiveEvaluator D) (direction : Direction) : res liveTokens :=
  match reg_markets (le_registry e) !! BuyMarket direction, reg_markets (le_registry e) !! SellMarket direction with
  | Some buyMarket, Some sellMarket =>
      match reg_tokens (le_registry e) !! Market_BaseToken buyMarket,
            reg_tokens (le_registry e) !! Market_QuoteToken buyMarket with
      | Some buyBase, Some buyQuote =>
          match reg_tokens (le_registry e) !! Market_BaseToken sellMarket,
                reg_tokens (le_registry e) !! Market_QuoteToken sellMarket with
          | Some sellBase, Some sellQuote => Ok (mkLiveTokens buyBase buyQuote sellBase sellQuote)
          | _, _ => Err (Errorf "sell market tokens are unavailable")
          end
      | _, _ => Err (Errorf "buy market tokens are unavailable")
      end
  | _, _ => Err (Errorf "live evaluation references unknown market")
  end.

Definition assets_inconsistent (request : LiveEvaluationRequest D) (tokens : liveTokens) : Prop :=
  quantity_asset (lr_Notional request) <> Token_Asset (lt_buyQuote tokens) \/
  quantity_asset (lr_Cost request) <> Token_Asset (lt_buyQuote tokens) \/
  quantity_asset (lr_Threshold request) <> Token_Asset (lt_buyQuote tokens) \/
  val_base (lr_Valuation request) <> Token_Asset (lt_buyBase tokens) \/
  val_quote (lr_Valuation request) <> Token_Asset (lt_buyQuote tokens) \/
  quantity_asset (lr_MaximumCost request) <> Token_Asset (lt_buyQuote tokens) \/
  quantity_asset (lr_MaximumBaseExposure request) <> Token_Asset (lt_buyBase tokens) \/
  AssetQuantity_Sign (lr_MaximumCost request) <= 0 \/ AssetQuantity_Sign (lr_MaximumBaseExposure request) <= 0.
#[export] Instance assets_inconsistent_dec request tokens : Decision (assets_inconsistent request tokens) :=
  ltac:(unfold assets_inconsistent; apply _).

(** [x, err := ...; err != nil || x.IsZero()]. *)
Definition positive_amount (amount : res TokenAmount) (format : string) : res TokenAmount :=
  match amount with
  | Ok a => if decide (IsZero a) then Err (Errorf format) else Ok a
  | Err _ => Err (Errorf format)
  | Panic why => Panic why
  end.

(** A missing entry of the map is the zero snapshot. *)
Definition fixed_snapshot (snapshot : option (MarketSnapshot D)) : res (MarketSnapshot D) :=
  match snapshot with
  | Some s =>
      if decide (md_Market (snap_metadata s) = "" \/ md_Health (snap_metadata s) <> HealthHealthy)
      then Err (Errorf "live evaluation requires healthy fixed snapshots") else Ok s
  | None => Err (Errorf "live evaluation requires healthy fixed snapshots")
  end.

Record liveInputs := mkLiveInputs {
  li_buyInput : TokenAmount; li_sellInput : TokenAmount; li_tokens : liveTokens;
  li_buySnapshot : MarketSnapshot D; li_sellSnapshot : MarketSnapshot D }.

Definition inputs (e : LiveEvaluator D) (request : LiveEvaluationRequest D) : res liveInputs :=
  let direction := lr_Direction request in
  if decide (lr_ID request = "" \/ BuyMarket direction = "" \/ SellMarket direction = "" \/
             BuyMarket direction = SellMarket direction \/ Time_IsZero (lr_TriggeredAt request))
  then Err (Errorf "live evaluation identity, direction, and trigger are required") else
  tokens ← live_tokens e direction;
  if decide (assets_inconsistent request tokens)
  then Err (Errorf "live evaluation economic assets are inconsistent") else
  buyInput ← positive_amount (ToTokenAmount (lr_Notional request) (lt_buyQuote tokens)) "live buy input is invalid";
  price ← Valuation_Price (lr_Valuation request);
  quotient ← Rat_Quo (Rat (lr_Notional request)) price;
  sellQuantity ← NewAssetQuantity (Token_Asset (lt_sellBase tokens)) (Some quotient);
  sellInput ← positive_amount (ToTokenAmount sellQuantity (lt_sellBase tokens)) "live sell input is invalid";
  buySnapshot ← fixed_snapshot (lr_Snapshots request !! BuyMarket direction);
  sellSnapshot ← fixed_snapshot (lr_Snapshots request !! SellMarket direction);
  Ok (mkLiveInputs buyInput sellInput tokens buySnapshot sellSnapshot).

(** The proceeds in the buying market's quote asset; [now] is the clock. *)
Definition converted (now : Time) (conversion : option QuoteConversionSnapshot) (tokens : liveTokens)
    (sellQuoteOutput : AssetQuantity) : res AssetQuantity :=
  match conversion with
  | None => Ok sellQuoteOutput
  | Some conversion =>
      if decide (~ conversion_ValidAt conversion now \/
                 amount_token (qc_Input conversion) <> Token_ID (lt_sellQuote tokens) \/
                 amount_token (qc_Output conversion) <> Token_ID (lt_buyQuote tokens))
      then Err (Errorf "live quote conversion is unavailable") else
      conversionInput ← ToAssetQuantity (qc_Input conversion) (lt_sellQuote tokens);
      conversionOutput ← ToAssetQuantity (qc_Output conversion) (lt_buyQuote tokens);
      rate ← Rat_Quo (Rat conversionOutput) (Rat conversionInput);
      NewAssetQuantity (Token_Asset (lt_buyQuote tokens)) (Some (Rat sellQuoteOutput * rate)%Qc)
  end.

Definition risk_block (request : LiveEvaluationRequest D) (comparison : Z) (baseDelta : AssetQuantity) : string :=
  if decide (0 < Rat_Cmp (Rat_Abs (Rat baseDelta)) (Rat (lr_MaximumBaseExposure request))) then "base_exposure_limit"
  else if decide (0 < comparison) then "execution_cost_limit" else "".

Definition Value (e : LiveEvaluator D) (now : Time) (request : LiveEvaluationRequest D) (buy sell : Quote)
    (validatedAt : Time) : res LiveOpportunity :=
  fixed ← inputs e request;
  let tokens := li_tokens fixed in
  if decide (amount_token (q_AmountIn buy) <> amount_token (li_buyInput fixed) \/
             Units (q_AmountIn buy) <> Units (li_buyInput fixed) \/
             amount_token (q_AmountIn sell) <> amount_token (li_sellInput fixed) \/
             Units (q_AmountIn sell) <> Units (li_sellInput fixed))
  then Err (Errorf "validated quotes changed independently fixed inputs") else
  buyQuoteInput ← ToAssetQuantity (q_AmountIn buy) (lt_buyQuote tokens);
  buyBaseOutput ← ToAssetQuantity (q_AmountOut buy) (lt_buyBase tokens);
  sellBaseInput ← ToAssetQuantity (q_AmountIn sell) (lt_sellBase tokens);
  sellQuoteOutput ← ToAssetQuantity (q_AmountOut sell) (lt_sellQuote tokens);
  sellQuoteOutput ← converted now (lr_QuoteConversion request) tokens sellQuoteOutput;
  quoteDelta ← AssetQuantity_Sub sellQuoteOutput buyQuoteInput;
  baseDelta ← AssetQuantity_Sub buyBaseOutput sellBaseInput;
  price ← Valuation_Price (lr_Valuation request);
  markedBase ← NewAssetQuantity (val_quote (lr_Valuation request)) (Some (Rat baseDelta * price)%Qc);
  gross ← AssetQuantity_Add quoteDelta markedBase;
  net ← AssetQuantity_Sub gross (lr_Cost request);
  comparison ← AssetQuantity_Cmp (lr_Cost request) (lr_MaximumCost request);
  let opportunity := mkLiveOpportunity (lr_ID request) (setup_id (le_setup e)) (lr_Direction request) (lr_Valuation request)
    buy sell quoteDelta baseDelta markedBase gross (lr_Cost request) net (lr_Threshold request)
    (risk_block request comparison baseDelta) (lr_TriggeredAt request) validatedAt in
  _ ← LiveOpportunity_Validate opportunity;
  Ok opportunity.

(** One quoting goroutine; a market without a source is a nil interface. *)
Definition ask (e : LiveEvaluator D) (marketID : MarketID) (input : QuoteInput D) : res Quote :=
  match le_sources e !! marketID with
  | Some source => source input
  | None => Panic "nil quote source"
  end.

Definition buy_request (request : LiveEvaluationRequest D) (fixed : liveInputs) (quotedAt : Time) : QuoteInput D :=
  mkQuoteInput (li_buySnapshot fixed) (Token_ID (lt_buyQuote (li_tokens fixed))) (Token_ID (lt_buyBase (li_tokens fixed)))
    (li_buyInput fixed) QuotePurposeLiveDiscovery quotedAt.
Definition sell_request (request : LiveEvaluationRequest D) (fixed : liveInputs) (quotedAt : Time) : QuoteInput D :=
  mkQuoteInput (li_sellSnapshot fixed) (Token_ID (lt_sellBase (li_tokens fixed))) (Token_ID (lt_sellQuote (li_tokens fixed)))
    (li_sellInput fixed) QuotePurposeLiveDiscovery quotedAt.

(** [Evaluate]: both goroutines end before the errors are looked at, the buying
    one first; a panic in either ends the program. *)
Definition Live_Evaluate (e : LiveEvaluator D) (quotedAt now : Time) (request : LiveEvaluationRequest D) : res LiveOpportunity :=
  fixed ← inputs e request;
  let buy := ask e (BuyMarket (lr_Direction request)) (buy_request request fixed quotedAt) in
  let sell := ask e (SellMarket (lr_Direction request)) (sell_request request fixed quotedAt) in
  match buy, sell with
  | Panic why, _ => Panic why
  | _, Panic why => Panic why
  | _, _ =>
      buy ← wrap "live buy discovery: %w" buy;
      sell ← wrap "live sell discovery: %w" sell;
      Value e now request buy sell 0
  end.
End evaluator.

(** ** Value *)

Section value.
Context {D : Type} (e : LiveEvaluator D) (request : LiveEvaluationRequest D).

(** Quote asset of the buying market per quote asset of the selling one. *)
Definition conversion_rate (tokens : liveTokens) : Qc :=
  match lr_QuoteConversion request with
  | None => Q2Qc 1
  | Some c => (worth (qc_Output c) (lt_buyQuote tokens) / worth (qc_Input c) (lt_sellQuote tokens))%Qc
  end.

Definition quote_delta (tokens : liveTokens) (buy sell : Quote) : Qc :=
  (worth (q_AmountOut sell) (lt_sellQuote tokens) * conversion_rate tokens - worth (q_AmountIn buy) (lt_buyQuote tokens))%Qc.
Definition base_delta (tokens : liveTokens) (buy sell : Quote) : Qc :=
  (worth (q_AmountOut buy) (lt_buyBase tokens) - worth (q_AmountIn sell) (lt_sellBase tokens))%Qc.

Lemma converted_inv now tokens q q' :
  converted now (lr_QuoteConversion request) tokens q = Ok q' -> Rat q' = (Rat q * conversion_rate tokens)%Qc.
Proof.
  unfold converted, conversion_rate. destruct (lr_QuoteConversion request) as [c|]; [|intros [= <-]; by rewrite Qcmult_1_r].
  destruct (decide _); [done|]. intros H. apply bind_Ok in H as (ci & Hci & H). apply bind_Ok in H as (co & Hco & H).
  apply bind_Ok in H as (rate & Hr & H). apply ToAssetQuantity_inv in Hci as (_ & _ & ->), Hco as (_ & _ & ->).
  apply Rat_Quo_inv in Hr as [_ ->]. apply NewAssetQuantity_inv in H as (_ & v & [= <-] & ->). done.
Qed.

Lemma risk_block_clear comparison baseDelta :
  risk_block request comparison baseDelta = "" <->
  comparison <= 0 /\ (Rat_Abs (Rat baseDelta) <= Rat (lr_MaximumBaseExposure request))%Qc.
Proof.
  unfold risk_block. rewrite <- Rat_Cmp_nonneg. pose proof (Rat_Cmp_pos (Rat_Abs (Rat baseDelta)) (Rat (lr_MaximumBaseExposure request))) as Hp.
  pose proof (Rat_Cmp_nonneg (Rat (lr_MaximumBaseExposure request)) (Rat_Abs (Rat baseDelta))) as Hn.
  destruct (decide _) as [Hd|Hd].
  - split; [done|]. intros [_ Hle]. apply Hp in Hd. apply Hn in Hle. by apply Qclt_not_le in Hd.
  - destruct (decide _) as [Hc|Hc]; [split; [done|]; intros [? _]; lia|]. split; [|done]. intros _. split; [lia|].
    apply Hn. apply Qcnot_lt_le. by rewrite <- Hp.
Qed.

Lemma assets_consistent tokens :
  ~ assets_inconsistent request tokens ->
  quantity_asset (lr_Threshold request) = val_quote (lr_Valuation request) /\
  quantity_asset (lr_Cost request) = val_quote (lr_Valuation request) /\
  Token_Asset (lt_buyBase tokens) = val_base (lr_Valuation request).
Proof.
  unfold assets_inconsistent. intros H. repeat (apply Decidable.not_or in H as [? H]).
  repeat match goal with H : ~ (_ <> _) |- _ => apply dec_stable in H end. repeat split; congruence.
Qed.

(** What the fields of a valued opportunity are. *)
Record valued (buy sell : Quote) (validatedAt : Time) (o : LiveOpportunity) (tokens : liveTokens) (price : Qc) : Prop := {
  vd_fixed : exists fixed, inputs e request = Ok fixed /\ li_tokens fixed = tokens /\
    amount_token (q_AmountIn buy) = amount_token (li_buyInput fixed) /\ Units (q_AmountIn buy) = Units (li_buyInput fixed) /\
    amount_token (q_AmountIn sell) = amount_token (li_sellInput fixed) /\ Units (q_AmountIn sell) = Units (li_sellInput fixed);
  vd_price : val_price (lr_Valuation request) = Some price;
  vd_assets : ~ assets_inconsistent request tokens;
  vd_base : val_base (lr_Valuation request) <> "";
  vd_valid : LiveOpportunity_Validate o = Ok tt;
  vd_opportunity : exists block gross,
    o = mkLiveOpportunity (lr_ID request) (setup_id (le_setup e)) (lr_Direction request) (lr_Valuation request) buy sell
      (mkAssetQuantity (val_quote (lr_Valuation request)) (Some (quote_delta tokens buy sell)))
      (mkAssetQuantity (val_base (lr_Valuation request)) (Some (base_delta tokens buy sell)))
      (mkAssetQuantity (val_quote (lr_Valuation request)) (Some (base_delta tokens buy sell * price)%Qc))
      (mkAssetQuantity (val_quote (lr_Valuation request)) (Some gross)) (lr_Cost request)
      (mkAssetQuantity (val_quote (lr_Valuation request)) (Some (gross - Rat (lr_Cost request))%Qc))
      (lr_Threshold request) block (lr_TriggeredAt request) validatedAt /\
    gross = (quote_delta tokens buy sell + base_delta tokens buy sell * price)%Qc /\
    (block = "" <-> (Rat (lr_Cost request) <= Rat (lr_MaximumCost request))%Qc /\
       (Rat_Abs (base_delta tokens buy sell) <= Rat (lr_MaximumBaseExposure request))%Qc) }.

Lemma inputs_assets fixed : inputs e request = Ok fixed ->
  live_tokens e (lr_Direction request) = Ok (li_tokens fixed) /\ ~ assets_inconsistent request (li_tokens fixed).
Proof.
  unfold inputs. cbv zeta. destruct (decide _); [done|]. intros H. apply bind_Ok in H as (tokens & Ht & H).
  destruct (decide _) as [|Ha] in H; [done|].
  repeat (apply bind_Ok in H as (? & _ & H)). injection H as <-. done.
Qed.

Lemma Value_valued now buy sell validatedAt o :
  Value e now request buy sell validatedAt = Ok o ->
  exists tokens price, live_tokens e (lr_Direction request) = Ok tokens /\ valued buy sell validatedAt o tokens price.
Proof.
  unfold Value. intros H. apply bind_Ok in H as (fixed & Hf & H). pose proof (inputs_assets fixed Hf) as [Ht Ha].
  cbv zeta in H. destruct (decide _) as [|Hin] in H; [done|].
  apply bind_Ok in H as (bq & Hbq & H). apply bind_Ok in H as (bb & Hbb & H). apply bind_Ok in H as (sb & Hsb & H).
  apply bind_Ok in H as (sq0 & Hsq0 & H). apply bind_Ok in H as (sq & Hsq & H). apply bind_Ok in H as (qd & Hqd & H).
  apply bind_Ok in H as (bd & Hbd & H). apply bind_Ok in H as (price & Hp & H). apply bind_Ok in H as (mb & Hmb & H).
  apply bind_Ok in H as (gross & Hg & H). apply bind_Ok in H as (net & Hnet & H). apply bind_Ok in H as (cmp & Hcmp & H).
  apply bind_Ok in H as ([] & Hv & H). injection H as <-.
  exists (li_tokens fixed), price. split; [done|]. unfold Valuation_Price in Hp.
  destruct (val_price (lr_Valuation request)) as [p|] eqn:Hprice; [|done]. injection Hp as ->.
  apply ToAssetQuantity_inv in Hbq as (_ & _ & ->), Hbb as (_ & _ & ->), Hsb as (_ & _ & ->), Hsq0 as (_ & _ & ->).
  apply converted_inv in Hsq. apply AssetQuantity_Sub_inv in Hqd as (Hqa & _ & ->), Hbd as (Hba & Hbn & ->).
  apply NewAssetQuantity_inv in Hmb as (Hqn & v & [= <-] & ->). apply AssetQuantity_Add_inv in Hg as (Hga & _ & ->).
  apply AssetQuantity_Sub_inv in Hnet as (_ & _ & ->). cbn [quantity_asset] in *.
  assert (Token_Asset (lt_buyBase (li_tokens fixed)) = val_base (lr_Valuation request)) as Hbase.
  { by apply (assets_consistent _ Ha). }
  rewrite Hbase in *. rewrite Hga in *. apply Decidable.not_or in Hin as [H1 Hin]. apply Decidable.not_or in Hin as [H2 Hin].
  apply Decidable.not_or in Hin as [H3 H4]. apply dec_stable in H1, H2, H3, H4.
  assert (quote_delta (li_tokens fixed) buy sell = (Rat sq - worth (q_AmountIn buy) (lt_buyQuote (li_tokens fixed)))%Qc) as Hdelta
    by (unfold quote_delta; rewrite Hsq; reflexivity).
  split; [by exists fixed|done|done|done|done|]. eexists _, _.
  split; [rewrite Hdelta; reflexivity|]. split; [rewrite Hdelta; reflexivity|].
  rewrite risk_block_clear. unfold AssetQuantity_Cmp in Hcmp. destruct (decide _) in Hcmp; [done|]. injection Hcmp as <-.
  pose proof (Rat_Cmp_pos (Rat (lr_Cost request)) (Rat (lr_MaximumCost request))) as Hc.
  unfold base_delta. cbn [Rat quantity_value]. split; intros [Hle ?]; (split; [|done]).
  - apply Qcnot_lt_le. rewrite <- Hc. lia.
  - apply Z.nlt_ge. rewrite Hc. by apply Qcle_not_lt.
Qed.
End value.

(** C16. A valued opportunity is exact: its quote and base deltas are the rational
    differences of what the two quotes pay and cost, its net result is the quote
    delta plus the base delta at the valuation price minus the cost, it is
    profitable exactly when the net result is positive and reaches the threshold
    within the cost and exposure limits, and once it carries a validation time the
    economics written with a durable operation validate. *)
Theorem Value_exact {D} (e : LiveEvaluator D) now request buy sell validatedAt o :
  Value e now request buy sell validatedAt = Ok o ->
  exists tokens price, live_tokens e (lr_Direction request) = Ok tokens /\ val_price (lr_Valuation request) = Some price /\
    let quote := quote_delta request tokens buy sell in
    let base := base_delta tokens buy sell in
    let net := (quote + base * price - Rat (lr_Cost request))%Qc in
    Rat (lo_QuoteDelta o) = quote /\ Rat (lo_BaseDelta o) = base /\ Rat (lo_NetPnL o) = net /\
    (Profitable o = true <->
       (0 < net)%Qc /\ (Rat (lr_Threshold request) <= net)%Qc /\ (Rat (lr_Cost request) <= Rat (lr_MaximumCost request))%Qc /\
       (Rat_Abs base <= Rat (lr_MaximumBaseExposure request))%Qc) /\
    (val_version (lr_Valuation request) <> 0 -> validatedAt <> 0 ->
       OperationEconomics_Validate (EconomicsFromOpportunity o) = Ok tt).
Proof.
  intros H. apply Value_valued in H as (tokens & price & Ht & [_ Hp Ha Hb Hv (block & gross & Ho & Hg & Hblock)]).
  exists tokens, price. split; [done|]. split; [done|]. cbv zeta. subst o gross. cbn [lo_QuoteDelta lo_BaseDelta lo_NetPnL Rat quantity_value].
  assert (quantity_asset (lr_Threshold request) = val_quote (lr_Valuation request) /\
          quantity_asset (lr_Cost request) = val_quote (lr_Valuation request) /\ val_quote (lr_Valuation request) <> "") as (Hth & Hco & Hq).
  { destruct (assets_consistent request tokens Ha) as (? & ? & _). split; [done|]. split; [done|].
    unfold LiveOpportunity_Validate in Hv. do 2 (destruct (decide _) in Hv; [done|]). destruct (decide _) as [|Hex] in Hv; [done|].
    unfold live_quantities in Hex. rewrite Exists_cons in Hex. cbn in Hex. by apply Decidable.not_or in Hex as [? _]. }
  split; [done|]. split; [done|]. split; [done|]. split.
  - unfold Profitable, AssetQuantity_Cmp. cbn [lo_NetPnL lo_Threshold lo_RiskBlock quantity_asset].
    rewrite decide_False by congruence. rewrite bool_decide_eq_true, Hblock, AssetQuantity_Sign_pos, Rat_Cmp_nonneg.
    cbn [Rat quantity_value]. tauto.
  - intros Hver Hat. unfold LiveOpportunity_Validate in Hv. do 3 (destruct (decide _) in Hv; [done|]).
    destruct (decide _) as [|Hsigns] in Hv; [done|]. cbn in Hsigns. unfold Time_IsZero in Hsigns.
    apply OperationEconomics_Validate_iff. split.
    + unfold economics_complete. cbn. rewrite !Forall_cons, Forall_nil. cbn. repeat split; try done; try tauto; lia.
    + exists price. cbn. done.
Qed.

(** ** Fixed inputs *)

Lemma positive_amount_inv amount format a :
  positive_amount amount format = Ok a -> amount = Ok a /\ ~ IsZero a.
Proof. unfold positive_amount. destruct amount as [x|x|x]; [|done..]. destruct (decide _); [done|]. by intros [= ->]. Qed.

(** The amounts and snapshots the request fixes. *)
Lemma inputs_amounts {D} (e : LiveEvaluator D) request fixed price :
  inputs e request = Ok fixed -> val_price (lr_Valuation request) = Some price ->
  lr_Snapshots request !! BuyMarket (lr_Direction request) = Some (li_buySnapshot fixed) /\
  lr_Snapshots request !! SellMarket (lr_Direction request) = Some (li_sellSnapshot fixed) /\
  md_Health (snap_metadata (li_buySnapshot fixed)) = HealthHealthy /\
  md_Health (snap_metadata (li_sellSnapshot fixed)) = HealthHealthy /\
  is_floor (Units (li_buyInput fixed))
    (Rat (lr_Notional request) * SetInt (decimalFactor (Token_Decimals (lt_buyQuote (li_tokens fixed)))))%Qc /\
  is_floor (Units (li_sellInput fixed))
    (Rat (lr_Notional request) / price * SetInt (decimalFactor (Token_Decimals (lt_sellBase (li_tokens fixed)))))%Qc /\
  0 < Units (li_buyInput fixed) /\ 0 < Units (li_sellInput fixed).
Proof.
  intros Hf Hp. unfold inputs in Hf. cbv zeta in Hf. destruct (decide _); [done|].
  apply bind_Ok in Hf as (tokens & _ & H). destruct (decide _) in H; [done|].
  apply bind_Ok in H as (buyInput & Hbi & H). apply bind_Ok in H as (p & Hp' & H). apply bind_Ok in H as (quotient & Hq & H).
  apply bind_Ok in H as (sellQuantity & Hsq & H). apply bind_Ok in H as (sellInput & Hsi & H).
  apply bind_Ok in H as (bs & Hbs & H). apply bind_Ok in H as (ss & Hss & H). injection H as <-. cbn.
  unfold Valuation_Price in Hp'. rewrite Hp in Hp'. injection Hp' as <-.
  apply positive_amount_inv in Hbi as [Hbi Hbz], Hsi as [Hsi Hsz].
  apply Rat_Quo_inv in Hq as [_ ->]. apply NewAssetQuantity_inv in Hsq as (_ & v & [= <-] & ->).
  apply ToTokenAmount_is_floor in Hbi as [Hb0 Hbf], Hsi as [Hs0 Hsf].
  unfold fixed_snapshot in Hbs, Hss. destruct (lr_Snapshots request !! BuyMarket _) as [b|]; [|done].
  destruct (decide _) as [|Hhb] in Hbs; [done|]. destruct (lr_Snapshots request !! SellMarket _) as [s|]; [|done].
  destruct (decide _) as [|Hhs] in Hss; [done|]. injection Hbs as ->. injection Hss as ->. rewrite IsZero_iff in Hbz, Hsz.
  apply Decidable.not_or in Hhb as [_ Hhb], Hhs as [_ Hhs]. apply dec_stable in Hhb, Hhs.
  do 4 (split; [done|]). split; [done|]. split; [exact Hsf|]. lia.
Qed.

(** A discovery is the value of the two answers. *)
Lemma Live_Evaluate_Value {D} (e : LiveEvaluator D) quotedAt now request o :
  Live_Evaluate e quotedAt now request = Ok o ->
  exists fixed buy sell, inputs e request = Ok fixed /\
    ask e (BuyMarket (lr_Direction request)) (buy_request request fixed quotedAt) = Ok buy /\
    ask e (SellMarket (lr_Direction request)) (sell_request request fixed quotedAt) = Ok sell /\
    Value e now request buy sell 0 = Ok o.
Proof.
  unfold Live_Evaluate. intros H. apply bind_Ok in H as (fixed & Hf & H). cbv zeta in H.
  destruct (ask e (BuyMarket (lr_Direction request)) _) as [buy|err|why] eqn:Hb,
    (ask e (SellMarket (lr_Direction request)) (sell_request request fixed quotedAt)) as [sell|err'|why'] eqn:Hs; try done.
  by exists fixed, buy, sell.
Qed.

(** A discovered opportunity carries the two answers of the markets of its
    direction, asked at the same time on the request's healthy snapshots for amounts
    fixed beforehand: the notional, and the notional at the valuation price, in whole
    units of the token and rounded down. *)
Theorem Live_Evaluate_fixed_inputs {D} (e : LiveEvaluator D) quotedAt now request o :
  Live_Evaluate e quotedAt now request = Ok o ->
  exists fixed price, inputs e request = Ok fixed /\ val_price (lr_Valuation request) = Some price /\
    ask e (BuyMarket (lr_Direction request)) (buy_request request fixed quotedAt) = Ok (lo_BuyQuote o) /\
    ask e (SellMarket (lr_Direction request)) (sell_request request fixed quotedAt) = Ok (lo_SellQuote o) /\
    lr_Snapshots request !! BuyMarket (lr_Direction request) = Some (li_buySnapshot fixed) /\
    lr_Snapshots request !! SellMarket (lr_Direction request) = Some (li_sellSnapshot fixed) /\
    md_Health (snap_metadata (li_buySnapshot fixed)) = HealthHealthy /\
    md_Health (snap_metadata (li_sellSnapshot fixed)) = HealthHealthy /\
    is_floor (Units (q_AmountIn (lo_BuyQuote o)))
      (Rat (lr_Notional request) * SetInt (decimalFactor (Token_Decimals (lt_buyQuote (li_tokens fixed)))))%Qc /\
    is_floor (Units (q_AmountIn (lo_SellQuote o)))
      (Rat (lr_Notional request) / price * SetInt (decimalFactor (Token_Decimals (lt_sellBase (li_tokens fixed)))))%Qc /\
    0 < Units (q_AmountIn (lo_BuyQuote o)) /\ 0 < Units (q_AmountIn (lo_SellQuote o)).
Proof.
  intros H. apply Live_Evaluate_Value in H as (fixed & buy & sell & Hf & Hb & Hs & Hv).
  apply Value_valued in Hv as (tokens & price & _ & [(fixed' & Hf' & _ & _ & Hbu & _ & Hsu) Hp _ _ _ (block & gross & Ho & _)]).
  rewrite Hf in Hf'. injection Hf' as <-. exists fixed, price. subst o. cbn [lo_BuyQuote lo_SellQuote]. rewrite Hbu, Hsu.
  do 4 (split; [done|]). by apply inputs_amounts with (e := e).
Qed.

(** ** The valuation is a mean *)

Lemma SetInt_succ n : SetInt (n + 1) = (SetInt n + SetInt 1)%Qc.
Proof.
  unfold SetInt. apply Qc_is_canon. unfold Qcplus. cbn [this Q2Qc]. rewrite !Qred_correct. rewrite <- inject_Z_plus. reflexivity.
Qed.

Lemma total_price_cons entry prices :
  total_price (entry :: prices) = (vo_price entry.2 + total_price prices)%Qc.
Proof.
  unfold total_price. cbn [foldl]. generalize (Q2Qc 0). induction prices as [|x l IH]; intros acc; cbn [foldl]; [ring|].
  rewrite <- (IH (acc + vo_price x.2)%Qc). f_equal. ring.
Qed.

#[export] Instance total_price_perm : Proper ((≡ₚ) ==> (=)) total_price.
Proof.
  induction 1 as [|x l k _ IH|x y l|l1 l2 l3 _ IH1 _ IH2]; rewrite ?total_price_cons; [done|by rewrite IH|ring|congruence].
Qed.

Lemma total_price_bounds lo hi prices :
  Forall (fun entry => (lo <= vo_price entry.2)%Qc /\ (vo_price entry.2 <= hi)%Qc) prices ->
  (lo * SetInt (Z.of_nat (length prices)) <= total_price prices)%Qc /\
  (total_price prices <= hi * SetInt (Z.of_nat (length prices)))%Qc.
Proof.
  assert (SetInt 1 = Q2Qc 1) as H1 by done.
  induction 1 as [|x l [Hlo Hhi] _ [IHlo IHhi]].
  { cbn. change (SetInt 0) with (Q2Qc 0). rewrite !Qcmult_0_r. split; apply Qcle_refl. }
  rewrite total_price_cons. cbn [length]. rewrite Nat2Z.inj_succ. unfold Z.succ. rewrite SetInt_succ, H1.
  rewrite !Qcmult_plus_distr_r, !Qcmult_1_r, (Qcplus_comm (lo * _)), (Qcplus_comm (hi * _)).
  split; by apply Qcplus_le_compat.
Qed.

Lemma total_price_pos prices :
  prices <> [] -> Forall (fun entry => (0 < vo_price entry.2)%Qc) prices -> (0 < total_price prices)%Qc.
Proof.
  intros Hne Hall. assert (forall l, Forall (fun entry => (0 < vo_price entry.2)%Qc) l -> (0 <= total_price l)%Qc) as Hnn.
  { induction 1 as [|x l Hx _ IH]; [done|]. rewrite total_price_cons. by apply Qclt_le_weak, Qcplus_pos_nonneg. }
  destruct Hall as [|x l Hx Hl]; [done|]. rewrite total_price_cons. apply Qcplus_pos_nonneg; auto.
Qed.

Section cache.
Context `{!RangeOrder string}.

(** The cache after [n] observations and resets, accepted or not. *)
Inductive valued_cache (base quote : AssetID) : nat -> BaseValuationCache -> Prop :=
| valued_new c : NewBaseValuationCache base quote = Ok c -> valued_cache base quote 0 c
| valued_observe n c key q tokenIn tokenOut at_ r c' :
    valued_cache base quote n c -> Valuation_Observe key q tokenIn tokenOut at_ c = (r, c') -> valued_cache base quote (S n) c'
| valued_reset n c r c' :
    valued_cache base quote n c -> Valuation_Reset c = (r, c') -> valued_cache base quote (S n) c'.

Record cache_ok (base quote : AssetID) (n : nat) (c : BaseValuationCache) : Prop := {
  ca_assets : vc_base c = base /\ vc_quote c = quote /\ base <> "" /\ quote <> "" /\ base <> quote;
  ca_version : 0 <= vc_version c <= Z.of_nat n;
  ca_counted : vc_observations c <> ∅ -> vc_version c <> 0;
  ca_prices : forall key o, vc_observations c !! key = Some o -> (0 < vo_price o)%Qc }.

Lemma valued_cache_ok base quote n c : valued_cache base quote n c -> Z.of_nat n < 2 ^ 64 -> cache_ok base quote n c.
Proof using.
  induction 1 as [c Hnew|n c key q ti to at_ r c' _ IH Hobs|n c r c' _ IH Hreset]; intros Hn.
  - unfold NewBaseValuationCache in Hnew. destruct (decide _) as [|Hd] in Hnew; [done|]. injection Hnew as <-.
    apply Decidable.not_or in Hd as [Hb Hd]. apply Decidable.not_or in Hd as [Hq Hne].
    split; cbn; [done|lia|done|]. intros key o. by rewrite lookup_empty.
  - destruct (IH ltac:(lia)) as [Ha Hv Hc Hp]. unfold Valuation_Observe in Hobs.
    rewrite (st_bind_run get _ c c c eq_refl) in Hobs. unfold mbind, st_bind, lift in Hobs.
    destruct (observed_price _ _ _ _ _ _) as [price|err|why] eqn:Hprice; injection Hobs as <- <-; [|by split; [|lia|..]..].
    assert (uint64 (vc_version c + 1) = vc_version c + 1) as Hu by (apply Z.mod_small; lia).
    split; cbn; rewrite ?Hu; [done|lia|lia|]. intros key' o. rewrite lookup_insert_Some. intros [[_ <-]|[_ Ho]]; [|by eapply Hp].
    cbn. unfold observed_price in Hprice. do 2 (destruct (decide _) in Hprice; [done|]).
    apply bind_Ok in Hprice as (? & _ & Hprice). apply bind_Ok in Hprice as (? & _ & Hprice). apply bind_Ok in Hprice as (p & _ & Hprice).
    destruct (decide _) as [|Hs] in Hprice; [done|]. injection Hprice as <-. apply Qc_pos_iff, sgn_pos. lia.
  - destruct (IH ltac:(lia)) as [Ha Hv Hc Hp]. injection Hreset as _ <-.
    assert (uint64 (vc_version c + 1) = vc_version c + 1) as Hu by (apply Z.mod_small; lia).
    split; cbn; rewrite ?Hu; [done|lia|done|]. intros key o. by rewrite lookup_empty.
Qed.

Lemma SetInt_count (m : gmap string valuationObservation) : m <> ∅ -> (0 < SetInt (Z.of_nat (size m)))%Qc.
Proof using.
  intros Hm. apply Qc_pos_iff. rewrite Num_SetInt. assert (size m <> 0)%nat; [|lia]. by intros ?%map_size_empty_iff.
Qed.

Lemma Qcle_mul_div lo x y : (0 < y)%Qc -> (lo * y <= x)%Qc -> (lo <= x / y)%Qc.
Proof using.
  intros Hy H. apply Qcmult_lt_0_le_reg_r with y; [done|]. rewrite (Qcmult_comm (x / y)), Qcmult_div_r; [done|].
  intros ->. by apply Qclt_not_eq in Hy.
Qed.
Lemma Qcdiv_le_mul hi x y : (0 < y)%Qc -> (x <= hi * y)%Qc -> (x / y <= hi)%Qc.
Proof using.
  intros Hy H. apply Qcmult_lt_0_le_reg_r with y; [done|]. rewrite (Qcmult_comm (x / y)), Qcmult_div_r; [done|].
  intros ->. by apply Qclt_not_eq in Hy.
Qed.

(** Whatever was observed and reset, a cache that holds observations values the
    base asset at any capture time, under its version, at the mean of the latest
    observation of every source: a price whose product with their number is their
    sum in any order, and which lies between any bounds they all respect; an empty
    cache gives no valuation. *)
Theorem Valuation_Snapshot_mean base quote n c capturedAt :
  valued_cache base quote n c -> Z.of_nat n < 2 ^ 64 -> capturedAt <> 0 ->
  (vc_observations c = ∅ -> exists e, Valuation_Snapshot c capturedAt = Err e) /\
  (vc_observations c <> ∅ -> exists price,
     Valuation_Snapshot c capturedAt =
       Ok (mkValuationSnapshot (vc_version c) base quote (Some price) (Z.of_nat (size (vc_observations c))) capturedAt) /\
     (price * SetInt (Z.of_nat (size (vc_observations c))) = total_price (map_to_list (vc_observations c)))%Qc /\
     forall lo hi, (forall key o, vc_observations c !! key = Some o -> (lo <= vo_price o)%Qc /\ (vo_price o <= hi)%Qc) ->
       (lo <= price)%Qc /\ (price <= hi)%Qc).
Proof using.
  intros Hc Hn Ht. pose proof (valued_cache_ok _ _ _ _ Hc Hn) as [(<- & <- & Hb & Hq & Hne) Hv Hcount Hp].
  unfold Valuation_Snapshot, Time_IsZero. rewrite decide_False by done. split; intros Hobs.
  { rewrite decide_True by done. by eexists. }
  rewrite decide_False by done. cbv zeta. pose proof (SetInt_count _ Hobs) as Hpos.
  assert (SetInt (Z.of_nat (size (vc_observations c))) <> Q2Qc 0) as Hnz by (intros H0; rewrite H0 in Hpos; by apply Qclt_not_eq in Hpos).
  unfold Rat_Quo. rewrite decide_False by done. cbn [mbind res_bind].
  assert (total_price (range (vc_observations c)) = total_price (map_to_list (vc_observations c))) as -> by (by rewrite range_perm).
  set (total := total_price _). set (count := SetInt _) in *.
  assert (forall lo hi, (forall key o, vc_observations c !! key = Some o -> (lo <= vo_price o)%Qc /\ (vo_price o <= hi)%Qc) ->
    (lo <= total / count)%Qc /\ (total / count <= hi)%Qc) as Hbounds.
  { intros lo hi Hall. destruct (total_price_bounds lo hi (map_to_list (vc_observations c))) as [Hl Hh].
    - apply Forall_forall. intros [key o] Hin%elem_of_map_to_list. by apply (Hall key).
    - rewrite length_map_to_list in Hl, Hh. split; [by apply Qcle_mul_div|by apply Qcdiv_le_mul]. }
  assert (0 < total / count)%Qc as Hmean.
  { apply Qcmult_pos_pos; [|by apply Qcinv_pos]. apply total_price_pos; [by rewrite map_to_list_empty_iff|].
    apply Forall_forall. intros [key o] Hin%elem_of_map_to_list. by apply (Hp key). }
  exists (total / count)%Qc. split; [|split; [|exact Hbounds]].
  - unfold NewValuationSnapshot. rewrite decide_False; [rewrite decide_False; [done|]|].
    + unfold Time_IsZero. assert (size (vc_observations c) <> 0%nat) by (by intros ?%map_size_empty_iff). lia.
    + specialize (Hcount Hobs). apply Qc_pos_iff, sgn_pos in Hmean. intros [?|[?|[?|[?|?]]]]; (done || lia).
  - rewrite Qcmult_comm. by apply Qcmult_div_r.
Qed.
End cache.

Module LiveWitness.
#[local] Existing Instance range_map_to_list.
Definition usdc : Token := mkToken "usdc" "USD" "base" 6 "USDC".
Definition weth : Token := mkToken "weth" "ETH" "base" 18 "WETH".
Definition pool (id : MarketID) : Market := mkMarket id "ETH/USD" "base" "path" "weth" "usdc".
Definition registry : Registry :=
  set_markets (set_tokens Registry_empty (<["usdc" := usdc]> {[ "weth" := weth ]}))
    (<["m1" := pool "m1"]> (<["m2" := pool "m2"]> {[ "m3" := pool "m3" ]})).
Definition usd (n : Z) : AssetQuantity := mkAssetQuantity "USD" (Some (SetInt n)).
Definition amount (token : TokenID) (n : Z) : TokenAmount := mkTokenAmount token (Some n).
Definition answer (market : MarketID) (input output : TokenAmount) : Quote :=
  mkQuote market market 1 "" (mkSourcePosition "" 0) "" QuotePurposeLiveDiscovery QuoteModeExactInput QuoteQualityExact
    input output 5 [].
(** Buy one ether for 2000, sell it for 2040. *)
Definition bought : Quote := answer "m1" (amount "usdc" (2000 * 10 ^ 6)) (amount "weth" (10 ^ 18)).
Definition sold : Quote := answer "m2" (amount "weth" (10 ^ 18)) (amount "usdc" (2040 * 10 ^ 6)).
Definition evaluator : LiveEvaluator bool :=
  mkLiveEvaluator (mkArbitrageSetup "setup" "ETH/USD" ["m1"; "m2"] (directions_of ["m1"; "m2"])) registry
    (<["m1" := fun _ => Ok bought]> {[ "m2" := fun _ => Ok sold ]}).
Definition snapshot (id : MarketID) : MarketSnapshot bool :=
  mkMarketSnapshot (mkSnapshotMetadata id "rpc" 1 (mkSourcePosition "" 0) (mkSourceReference "" "") "" 0 false 1 1
    HealthHealthy "" 1 "") (Some true).
Definition valuation : ValuationSnapshot := mkValuationSnapshot 1 "ETH" "USD" (Some (SetInt 2000)) 1 1.
Definition request (sell : MarketID) : LiveEvaluationRequest bool :=
  mkLiveEvaluationRequest "live" (mkDirection "m1" sell)
    (<["m1" := snapshot "m1"]> (<["m2" := snapshot "m2"]> {[ "m3" := snapshot "m3" ]}))
    (usd 2000) valuation (usd 3) (usd 10) (usd 5) (mkAssetQuantity "ETH" (Some (SetInt 1))) 4 None.
Definition discovered : res LiveOpportunity := Live_Evaluate evaluator 5 6 (request "m2").

Lemma value_witness :
  exists o, Value evaluator 6 (request "m2") bought sold 9 = Ok o /\
    OperationEconomics_Validate (EconomicsFromOpportunity o) = Ok tt /\ Profitable o = true.
Proof.
  destruct (Value evaluator 6 (request "m2") bought sold 9) as [o|err|why] eqn:Ho; [|vm_compute in Ho; discriminate Ho..].
  exists o. split; [reflexivity|].
  destruct (Value_exact evaluator 6 (request "m2") bought sold 9 o Ho) as (tokens & price & _ & _ & _ & _ & _ & _ & Hvalid).
  split; [apply Hvalid; discriminate|]. vm_compute in Ho. injection Ho as <-. vm_compute. reflexivity.
Defined.

Lemma inputs_witness : exists o, discovered = Ok o /\ 0 < Units (q_AmountIn (lo_BuyQuote o)).
Proof.
  destruct discovered as [o|err|why] eqn:Ho; [|vm_compute in Ho; discriminate Ho..]. exists o. split; [reflexivity|].
  destruct (Live_Evaluate_fixed_inputs evaluator 5 6 (request "m2") o Ho) as
    (fixed & price & _ & _ & _ & _ & _ & _ & _ & _ & _ & _ & Hb & _). exact Hb.
Defined.

(** Two observations of one ether: at 2000 and at 2040. *)
Definition empty : BaseValuationCache := default (mkBaseValuationCache "" "" 0 ∅) (res_opt (NewBaseValuationCache "ETH" "USD")).
Definition cache : BaseValuationCache :=
  (Valuation_Observe "m2/sell" sold weth usdc 3 (Valuation_Observe "m1/buy" bought usdc weth 2 empty).2).2.

Lemma mean_witness :
  exists price, Valuation_Snapshot cache 9 = Ok (mkValuationSnapshot 2 "ETH" "USD" (Some price) 2 9) /\
    (SetInt 2000 <= price)%Qc /\ (price <= SetInt 2040)%Qc.
Proof.
  assert (valued_cache "ETH" "USD" 2 cache) as Hc.
  { eapply (valued_observe "ETH" "USD" 1 _ "m2/sell" sold weth usdc 3); [|apply surjective_pairing].
    eapply (valued_observe "ETH" "USD" 0 empty "m1/buy" bought usdc weth 2); [|apply surjective_pairing].
    apply valued_new. reflexivity. }
  destruct (Valuation_Snapshot_mean "ETH" "USD" 2 cache 9 Hc ltac:(reflexivity) ltac:(lia)) as [_ Hm].
  destruct Hm as (price & Hs & _ & Hb); [intros H; apply (f_equal size) in H; vm_compute in H; discriminate H|].
  exists price. split; [exact Hs|]. apply Hb.
  change (map_Forall (fun _ o => (SetInt 2000 <= vo_price o)%Qc /\ (vo_price o <= SetInt 2040)%Qc) (vc_observations cache)).
  apply (bool_decide_unpack _). vm_compute. exact I.
Defined.

(** A direction of the registry outside the setup has no source to call. *)
Example direction_outside_setup_panics : Live_Evaluate evaluator 5 6 (request "m3") = Panic "nil quote source".
Proof. vm_compute. reflexivity. Qed.
End LiveWitness.
