(* ===== verification/RestorationGate.v ===== *)
(** * The restoration gate (src/core/live/restoration_gate.go)

    After a prefunded operation its base token must be restored before the next
    one, while the return of the quote token runs in the background, bounded.  The
    gate is the state machine of that admission.  Theorems: over every interleaving
    of its calls one operation at most is open until its base return completes, the
    background returns never exceed their capacity, and a coalesced trigger is
    handed out at most once, the latest one, and only when the gate would admit. *)
From S2P Require Import Prelude Amount Quote Registry Arbitrage.
Local Open Scope Z_scope.

Definition MaximumPendingQuoteReturns : nat := 2.

Record RestorationGate := mkRestorationGate {
  rg_basePending : bool; rg_quotePending : gmap string unit; rg_coalesced : option TriggerMetadata }.

Record RestorationSnapshot := mkRestorationSnapshot { rs_BasePending : bool; rs_QuoteJobs : list string }.

Definition add_quote_job (pending : gmap string unit) (id : string) : res (gmap string unit) :=
  if decide (id = "") then Err (Errorf "pending quote restoration identity is empty") else
  if decide (is_Some (pending !! id)) then Err (Errorf "pending quote restoration identity is duplicated")
  else Ok (<[id := tt]> pending).

Definition NewRestorationGate (snapshot : RestorationSnapshot) : res RestorationGate :=
  if decide (MaximumPendingQuoteReturns < length (rs_QuoteJobs snapshot))%nat
  then Err (Errorf "pending quote restoration exceeds capacity") else
  pending ← foldM add_quote_job ∅ (rs_QuoteJobs snapshot);
  Ok (mkRestorationGate (rs_BasePending snapshot) pending None).

Definition gate_full (g : RestorationGate) : Prop := (MaximumPendingQuoteReturns <= size (rg_quotePending g))%nat.
#[export] Instance gate_full_dec g : Decision (gate_full g) := ltac:(unfold gate_full; apply _).

Definition CanEvaluate (quoteInventoryAvailable : bool) (g : RestorationGate) : bool :=
  negb (rg_basePending g) && quoteInventoryAvailable && bool_decide (size (rg_quotePending g) < MaximumPendingQuoteReturns)%nat.

Definition BeginOperation : ST RestorationGate unit :=
  g ← get;
  if rg_basePending g then fail "base-token restoration is still pending" else
  if decide (gate_full g) then fail "quote-token restoration capacity is exhausted" else
  put (mkRestorationGate true (rg_quotePending g) (rg_coalesced g)).

Definition StartQuoteReturn (id : string) : ST RestorationGate unit :=
  g ← get;
  if decide (id = "") then fail "quote restoration identity is required" else
  if decide (is_Some (rg_quotePending g !! id)) then mret tt else
  if decide (gate_full g) then fail "quote-token restoration capacity is exhausted" else
  put (mkRestorationGate (rg_basePending g) (<[id := tt]> (rg_quotePending g)) (rg_coalesced g)).

Definition CompleteBaseReturn : ST RestorationGate unit :=
  modify (fun g => mkRestorationGate false (rg_quotePending g) (rg_coalesced g)).

Definition CompleteQuoteReturn (id : string) : ST RestorationGate bool :=
  g ← get;
  if decide (is_Some (rg_quotePending g !! id)) then
    _ ← put (mkRestorationGate (rg_basePending g) (delete id (rg_quotePending g)) (rg_coalesced g));
    mret true
  else mret false.

Definition Coalesce (trigger : TriggerMetadata) : ST RestorationGate unit :=
  _ ← lift (Trigger_Validate trigger);
  modify (fun g => mkRestorationGate (rg_basePending g) (rg_quotePending g) (Some trigger)).

Definition TakeFreshEvaluationRequest (quoteInventoryAvailable : bool) (now : Time) :
    ST RestorationGate (option TriggerMetadata) :=
  g ← get;
  match rg_coalesced g with
  | None => mret None
  | Some trigger =>
      if decide (rg_basePending g = true \/ quoteInventoryAvailable = false \/ gate_full g \/ Time_IsZero now)
      then mret None else
      _ ← put (mkRestorationGate (rg_basePending g) (rg_quotePending g) None);
      mret (Some trigger)
  end.

Definition Gate_Snapshot `{!RangeOrder string} (g : RestorationGate) : RestorationSnapshot :=
  mkRestorationSnapshot (rg_basePending g) (range (rg_quotePending g)).*1.

(** ** The gate as a state machine *)

Inductive gate_action :=
| ABegin | AStart (id : string) | ACompleteBase | ACompleteQuote (id : string) | ACoalesce (trigger : TriggerMetadata)
| ATake (available : bool) (now : Time).

(** What a call answers. *)
Inductive gate_answer := Done | Refused | Trigger (trigger : TriggerMetadata).

Definition answer_of {A} (r : res A) : gate_answer := match r with Ok _ => Done | _ => Refused end.

Definition gate_act (a : gate_action) (g : RestorationGate) : gate_answer * RestorationGate :=
  match a with
  | ABegin => let '(r, g') := BeginOperation g in (answer_of r, g')
  | AStart id => let '(r, g') := StartQuoteReturn id g in (answer_of r, g')
  | ACompleteBase => let '(r, g') := CompleteBaseReturn g in (answer_of r, g')
  | ACompleteQuote id => let '(r, g') := CompleteQuoteReturn id g in (answer_of r, g')
  | ACoalesce trigger => let '(r, g') := Coalesce trigger g in (answer_of r, g')
  | ATake available now =>
      let '(r, g') := TakeFreshEvaluationRequest available now g in
      (match r with Ok (Some trigger) => Trigger trigger | Ok None => Refused | _ => Refused end, g')
  end.

(** The calls made, with their answers, the latest last. *)
Inductive gate_history : list (gate_action * gate_answer) -> RestorationGate -> Prop :=
| history_new snapshot g : NewRestorationGate snapshot = Ok g -> gate_history [] g
| history_act l g a : gate_history l g -> gate_history (l ++ [(a, (gate_act a g).1)]) (gate_act a g).2.

(** *** One step *)

Inductive acted (g : RestorationGate) : gate_action -> gate_answer -> RestorationGate -> Prop :=
| acted_refused a : a <> ACompleteBase -> acted g a Refused g
| acted_begin :
    rg_basePending g = false -> ~ gate_full g -> acted g ABegin Done (mkRestorationGate true (rg_quotePending g) (rg_coalesced g))
| acted_repeat id : is_Some (rg_quotePending g !! id) -> acted g (AStart id) Done g
| acted_start id :
    id <> "" -> ~ gate_full g ->
    acted g (AStart id) Done (mkRestorationGate (rg_basePending g) (<[id := tt]> (rg_quotePending g)) (rg_coalesced g))
| acted_base : acted g ACompleteBase Done (mkRestorationGate false (rg_quotePending g) (rg_coalesced g))
| acted_quote id b :
    acted g (ACompleteQuote id) Done (mkRestorationGate (rg_basePending g) (if b : bool then delete id (rg_quotePending g) else rg_quotePending g) (rg_coalesced g))
| acted_coalesce trigger :
    Trigger_Validate trigger = Ok tt ->
    acted g (ACoalesce trigger) Done (mkRestorationGate (rg_basePending g) (rg_quotePending g) (Some trigger))
| acted_take available now trigger :
    rg_coalesced g = Some trigger -> CanEvaluate available g = true ->
    acted g (ATake available now) (Trigger trigger) (mkRestorationGate (rg_basePending g) (rg_quotePending g) None).

Lemma gate_act_acted a g : let '(r, g') := gate_act a g in acted g a r g'.
Proof.
  destruct a as [|id| |id|trigger|available now]; unfold gate_act.
  - unfold BeginOperation. rewrite (st_bind_run get _ g g g) by done.
    destruct (rg_basePending g) eqn:Hb; [by constructor|]. destruct (decide (gate_full g)); by constructor.
  - unfold StartQuoteReturn. rewrite (st_bind_run get _ g g g) by done. destruct (decide (id = "")); [by constructor|].
    destruct (decide (is_Some _)); [by constructor|]. destruct (decide (gate_full g)); by constructor.
  - apply acted_base.
  - unfold CompleteQuoteReturn. rewrite (st_bind_run get _ g g g) by done.
    destruct (decide (is_Some _)); [apply (acted_quote _ id true)|].
    destruct g as [b q c]. apply (acted_quote (mkRestorationGate b q c) id false).
  - unfold Coalesce, mbind, st_bind, lift. destruct (Trigger_Validate trigger) as [[]|e|why] eqn:Ht; by constructor.
  - unfold TakeFreshEvaluationRequest. rewrite (st_bind_run get _ g g g) by done.
    destruct (rg_coalesced g) as [trigger|] eqn:Hg; [|by constructor].
    destruct (decide _) as [|Hd]; [by constructor|]. apply Decidable.not_or in Hd as [Hb Hd].
    apply Decidable.not_or in Hd as [Ha Hd]. apply Decidable.not_or in Hd as [Hf _].
    apply acted_take; [done|]. unfold CanEvaluate, gate_full in *. destruct (rg_basePending g); [done|]. destruct available; [|done].
    apply bool_decide_eq_true. lia.
Qed.

(** *** Admission *)

Definition gate_bounded (g : RestorationGate) : Prop := (size (rg_quotePending g) <= MaximumPendingQuoteReturns)%nat.

Lemma add_quote_jobs_size jobs pending pending' :
  foldM add_quote_job pending jobs = Ok pending' -> size pending' = (size pending + length jobs)%nat.
Proof.
  revert pending. induction jobs as [|id jobs IH]; intros pending; cbn [foldM length]; [intros [= <-]; lia|].
  rewrite bind_Ok. intros (p1 & H1 & H2). unfold add_quote_job in H1. destruct (decide _); [done|].
  destruct (decide _) as [|Hn] in H1; [done|]. injection H1 as <-. rewrite (IH _ H2), map_size_insert_None; [lia|].
  by apply eq_None_not_Some.
Qed.

Lemma acted_bounded g a r g' : acted g a r g' -> gate_bounded g -> gate_bounded g'.
Proof.
  unfold gate_bounded, gate_full, MaximumPendingQuoteReturns.
  intros [a' _|_ _|id _|id _ Hf| |id b|t _|v now t _ _] Hb; cbn; try done.
  - destruct (rg_quotePending g !! id) as [u|] eqn:Hl.
    + rewrite map_size_insert_Some; [done|]. by eexists.
    + rewrite map_size_insert_None by done. unfold gate_full, MaximumPendingQuoteReturns in Hf. lia.
  - destruct b; [|done]. rewrite map_size_delete. destruct (rg_quotePending g !! id); cbn; lia.
Qed.

Lemma gate_history_bounded l g : gate_history l g -> gate_bounded g.
Proof.
  induction 1 as [snapshot g Hnew|l g a _ IH].
  - unfold NewRestorationGate in Hnew. destruct (decide _) as [|Hd] in Hnew; [done|]. apply bind_Ok in Hnew as (p & Hp & [= <-]).
    unfold gate_bounded. cbn. rewrite (add_quote_jobs_size _ _ _ Hp), map_size_empty. lia.
  - pose proof (gate_act_acted a g) as Ha. destruct (gate_act a g) as [r g']. by eapply acted_bounded.
Qed.

(** An operation is open: begun, its base return not complete. *)
Definition open_since (l : list (gate_action * gate_answer)) : Prop :=
  exists before after, l = before ++ (ABegin, Done) :: after /\ (forall r, (ACompleteBase, r) ∉ after).

Lemma open_base l g : gate_history l g -> open_since l -> rg_basePending g = true.
Proof.
  induction 1 as [snapshot g _|l g a _ IH]; intros (before & after & Heq & Hnone).
  - by destruct before.
  - pose proof (gate_act_acted a g) as Ha. destruct (gate_act a g) as [r g'] eqn:Hact. cbn [fst snd] in *.
    destruct after as [|x after _] using rev_ind.
    + apply app_inj_tail in Heq as [_ [= -> ->]]. by inversion Ha.
    + rewrite app_comm_cons, app_assoc in Heq. apply app_inj_tail in Heq as [-> <-].
      assert (rg_basePending g = true) as Hb.
      { apply IH. exists before, after. split; [done|]. intros r'. specialize (Hnone r'). set_solver. }
      inversion Ha as [| | | | | | |]; subst; cbn; try done. exfalso. apply (Hnone Done). set_solver.
Qed.

Definition latest_trigger (l : list (gate_action * gate_answer)) (trigger : TriggerMetadata) : Prop :=
  exists before after, l = before ++ (ACoalesce trigger, Done) :: after /\
    (forall t, (ACoalesce t, Done) ∉ after) /\ (forall v now t, (ATake v now, Trigger t) ∉ after).

Lemma latest_snoc l trigger x :
  latest_trigger l trigger -> (forall t, x <> (ACoalesce t, Done)) -> (forall v now t, x <> (ATake v now, Trigger t)) ->
  latest_trigger (l ++ [x]) trigger.
Proof.
  intros (before & after & -> & Hc & Ht) Hxc Hxt. exists before, (after ++ [x]). split; [by rewrite <- app_assoc|].
  split; [intros t; specialize (Hc t); specialize (Hxc t)|intros v now t; specialize (Ht v now t); specialize (Hxt v now t)]; set_solver.
Qed.

Lemma coalesced_latest l g trigger : gate_history l g -> rg_coalesced g = Some trigger -> latest_trigger l trigger.
Proof.
  intros Hl. revert trigger. induction Hl as [snapshot g Hnew|l g a _ IH]; intros trigger Hg.
  - unfold NewRestorationGate in Hnew. destruct (decide _) in Hnew; [done|]. apply bind_Ok in Hnew as (p & _ & [= <-]). done.
  - pose proof (gate_act_acted a g) as Ha. destruct (gate_act a g) as [r g']. cbn [fst snd] in *.
    inversion Ha; subst; cbn in Hg; try (apply latest_snoc; [by apply IH|intros; congruence..]).
    injection Hg as <-. exists l, []. split; [done|]. split; [intros t|intros v now t]; set_solver.
Qed.

(** Over every interleaving of the calls of a restoration gate, its background
    returns stay within capacity; an operation is admitted only after the base
    return of every earlier one; and a trigger handed out is the latest one
    coalesced, handed out once, at a moment the gate would admit an evaluation. *)
Theorem restoration_gate_admits l g :
  gate_history l g ->
  (size (rg_quotePending g) <= MaximumPendingQuoteReturns)%nat /\
  (forall g', gate_act ABegin g = (Done, g') -> ~ open_since l /\ (size (rg_quotePending g) < MaximumPendingQuoteReturns)%nat) /\
  (forall available now trigger g', gate_act (ATake available now) g = (Trigger trigger, g') ->
     latest_trigger l trigger /\ CanEvaluate available g = true /\ rg_coalesced g' = None).
Proof.
  intros Hl. split; [by eapply gate_history_bounded|]. split.
  - intros g' Hb. pose proof (gate_act_acted ABegin g) as Ha. rewrite Hb in Ha. inversion Ha as [|Hbase Hfull| | | | | |]; subst.
    split; [|unfold gate_full in Hfull; lia]. intros Ho. by rewrite (open_base l g Hl Ho) in Hbase.
  - intros available now trigger g' Ht. pose proof (gate_act_acted (ATake available now) g) as Ha. rewrite Ht in Ha.
    inversion Ha as [| | | | | | |v n t Hg Hcan]; subst. split; [by eapply coalesced_latest|done].
Qed.

(** The snapshot of a gate restores it, without its coalesced trigger. *)
Lemma add_quote_jobs_Ok jobs pending :
  "" ∉ jobs -> NoDup jobs -> (forall id, id ∈ jobs -> pending !! id = None) ->
  foldM add_quote_job pending jobs = Ok (foldl (fun m id => <[id := tt]> m) pending jobs).
Proof.
  revert pending. induction jobs as [|id jobs IH]; intros pending He HN Hfresh; [done|]. cbn [foldM foldl].
  apply NoDup_cons in HN as [Hid HN]. assert (add_quote_job pending id = Ok (<[id := tt]> pending)) as ->.
  { unfold add_quote_job. rewrite decide_False by set_solver. rewrite decide_False; [done|].
    rewrite Hfresh by set_solver. by intros [? ?]. }
  cbn [mbind res_bind]. apply IH; [set_solver|done|]. intros id' Hin. rewrite lookup_insert_ne by set_solver. apply Hfresh. set_solver.
Qed.

Lemma foldl_insert_lookup (jobs : list string) pending id :
  foldl (fun (m : gmap string unit) id => <[id := tt]> m) pending jobs !! id =
  if decide (id ∈ jobs) then Some tt else pending !! id.
Proof.
  revert pending. induction jobs as [|j jobs IH]; intros pending; cbn [foldl]; [done|].
  rewrite IH. destruct (decide (id ∈ jobs)), (decide (id ∈ j :: jobs)); [done|set_solver| |].
  - assert (id = j) as -> by set_solver. by rewrite lookup_insert_eq.
  - by rewrite lookup_insert_ne by set_solver.
Qed.

Theorem Gate_Snapshot_restores `{!RangeOrder string} l g :
  gate_history l g -> "" ∉ dom (rg_quotePending g) ->
  NewRestorationGate (Gate_Snapshot g) = Ok (mkRestorationGate (rg_basePending g) (rg_quotePending g) None).
Proof.
  intros Hl He. pose proof (gate_history_bounded l g Hl) as Hb. unfold gate_bounded in Hb.
  assert (forall id, id ∈ (range (rg_quotePending g)).*1 <-> is_Some (rg_quotePending g !! id)) as Hin.
  { intros id. rewrite list_elem_of_fmap. split.
    - intros ([k u] & -> & Hk). apply elem_of_range in Hk. by eexists.
    - intros [u Hu]. exists (id, u). split; [done|by apply elem_of_range]. }
  unfold NewRestorationGate, Gate_Snapshot. cbn [rs_QuoteJobs rs_BasePending].
  rewrite decide_False by (rewrite length_fmap, range_perm, length_map_to_list; lia).
  rewrite add_quote_jobs_Ok; [|intros Hx; apply He, elem_of_dom, Hin, Hx|apply range_NoDup|done].
  cbn [mbind res_bind]. do 2 f_equal. apply map_eq. intros id. rewrite foldl_insert_lookup.
  destruct (decide _) as [Hd|Hd]; rewrite Hin in Hd.
  - destruct Hd as [[] Hd]. by rewrite Hd.
  - rewrite lookup_empty. symmetry. by apply eq_None_not_Some.
Qed.

Module RestorationWitness.
#[local] Existing Instance range_map_to_list.
Definition trigger : TriggerMetadata := mkTriggerMetadata "m1" "rpc" (mkSourcePosition "block" 7) (mkSourceReference "" "") 3.
Definition resumed : RestorationSnapshot := mkRestorationSnapshot true ["job"].
Definition start : RestorationGate := mkRestorationGate true {[ "job" := tt ]} None.
Definition waiting : RestorationGate := (gate_act (ACoalesce trigger) start).2.
Definition restored : RestorationGate := (gate_act ACompleteBase waiting).2.

Lemma restored_history : gate_history ([] ++ [(ACoalesce trigger, Done)] ++ [(ACompleteBase, Done)]) restored.
Proof.
  rewrite app_assoc. apply (history_act _ waiting ACompleteBase).
  apply (history_act [] start (ACoalesce trigger)). apply (history_new resumed). vm_compute. reflexivity.
Qed.

Lemma admits_witness :
  latest_trigger [(ACoalesce trigger, Done); (ACompleteBase, Done)] trigger /\ CanEvaluate true restored = true.
Proof.
  destruct (restoration_gate_admits _ restored restored_history) as (_ & _ & Htake).
  destruct (Htake true 9 trigger (gate_act (ATake true 9) restored).2) as (Hl & Hc & _); [vm_compute; reflexivity|].
  split; [exact Hl|exact Hc].
Defined.

Lemma snapshot_witness : NewRestorationGate (Gate_Snapshot restored) = Ok (mkRestorationGate false {[ "job" := tt ]} None).
Proof.
  apply (Gate_Snapshot_restores _ restored restored_history). intros Hin. apply elem_of_dom in Hin as [u Hu].
  vm_compute in Hu. discriminate Hu.
Defined.
End RestorationWitness.
