(* ===== verification/AsyncRestoration.v ===== *)
(** * Background return of the quote token (src/runtime/livecanary/async_restoration.go)

    After the two swaps of a prefunded operation the base token is returned at once and
    the quote token in the background.  The restorer keeps the restoration gate in
    step with a durable journal (src/ports/persistence/restoration.go), refuses
    operations while an outcome is unknown, and takes up unfinished returns after a
    restart.  A goroutine is a worker that moves on in steps of its own, in any order
    with the others and with the calls.  Theorem: whatever fails and however the steps
    interleave, everything the journal holds as unfinished is held by the gate. *)
From S2P Require Import Prelude Amount Quote Registry Arbitrage Allocation Inventory Execution Sequential SequentialPorts RestorationGate.
Local Open Scope Z_scope.

Record QuoteRestorationJob := mkQuoteRestorationJob {
  jb_ID : string; jb_Operation : OperationID; jb_State : string; jb_SourceChain : ChainID; jb_DestinationChain : ChainID;
  jb_InputToken : TokenID; jb_OutputToken : TokenID; jb_InputUnits : option Z; jb_CreatedAt : Time; jb_UpdatedAt : Time }.

Record RestorationState := mkRestorationState {
  rt_BaseOperation : OperationID; rt_BasePending : bool; rt_QuoteJobs : list QuoteRestorationJob; rt_Reevaluation : option TriggerMetadata }.

Record RestorationJournal (W : Type) := mkRestorationJournal {
  LoadRestoration : ST W RestorationState;
  SetBaseRestoration : OperationID -> bool -> ST W unit;
  StartQuoteRestoration : QuoteRestorationJob -> ST W unit;
  FinishQuoteRestoration : string -> string -> Time -> ST W unit;
  CoalesceReevaluation : TriggerMetadata -> ST W unit;
  ClearReevaluation : ST W unit }.
Arguments LoadRestoration {W} _. Arguments SetBaseRestoration {W} _. Arguments StartQuoteRestoration {W} _. Arguments FinishQuoteRestoration {W} _.

(** What a worker has still to do. *)
Inductive Phase := Launched | Driven (state : string) | Finishing (state : string) (finished : bool).

Record Worker := mkWorker {
  wk_job : QuoteRestorationJob; wk_request : SequentialStageRequest; wk_records : list SequentialTransactionRecord; wk_phase : Phase }.

(** The restorer and the world outside it; [sy_changes] is the buffered signal. *)
Record System (W : Type) := mkSystem {
  sy_world : W; sy_gate : RestorationGate; sy_uncertain : gset string; sy_workers : list Worker; sy_changes : bool }.
Arguments mkSystem {W}. Arguments sy_world {W} _. Arguments sy_gate {W} _. Arguments sy_uncertain {W} _. Arguments sy_workers {W} _. Arguments sy_changes {W} _.

Record AsyncQuoteRestorerConfig (W : Type) := mkAsyncConfig {
  ac_Sequential : SequentialJournal W; ac_Recovery : SequentialRecoveryJournal W; ac_Journal : RestorationJournal W;
  ac_Driver : SequentialStageDriver W; ac_Observer : option (ObserverEvent -> W -> W); ac_OnCapacity : option (W -> W);
  ac_Clock : W -> Time }.
Arguments ac_Sequential {W} _. Arguments ac_Recovery {W} _. Arguments ac_Journal {W} _. Arguments ac_Driver {W} _.
Arguments ac_Observer {W} _. Arguments ac_OnCapacity {W} _. Arguments ac_Clock {W} _.

Section restorer.
Context {W : Type} (r : AsyncQuoteRestorerConfig W).
Abbreviation Sys := (System W).

(** ** Access to the parts *)

Definition with_world (w : W) (s : Sys) : Sys := mkSystem w (sy_gate s) (sy_uncertain s) (sy_workers s) (sy_changes s).
Definition with_gate (g : RestorationGate) (s : Sys) : Sys := mkSystem (sy_world s) g (sy_uncertain s) (sy_workers s) (sy_changes s).
Definition with_uncertain (u : gset string) (s : Sys) : Sys := mkSystem (sy_world s) (sy_gate s) u (sy_workers s) (sy_changes s).
Definition with_workers (ws : list Worker) (s : Sys) : Sys := mkSystem (sy_world s) (sy_gate s) (sy_uncertain s) ws (sy_changes s).
Definition outside {A} : ST W A -> ST Sys A := zoom sy_world with_world.
Definition at_gate {A} : ST RestorationGate A -> ST Sys A := zoom sy_gate with_gate.
Definition certain (id : string) : ST Sys unit := modify (fun s => with_uncertain (sy_uncertain s ∖ {[id]}) s).
Definition doubt (id : string) : ST Sys unit := modify (fun s => with_uncertain ({[id]} ∪ sy_uncertain s) s).

Definition capacityChanged : ST Sys unit := modify (fun s =>
  mkSystem (match ac_OnCapacity r with Some f => f (sy_world s) | None => sy_world s end) (sy_gate s) (sy_uncertain s) (sy_workers s) true).

(** ** Construction and admission *)

Definition NewAsyncQuoteRestorer : ST W Sys :=
  state ← LoadRestoration (ac_Journal r);
  gate ← lift (NewRestorationGate (mkRestorationSnapshot (rt_BasePending state) (jb_ID <$> rt_QuoteJobs state)));
  w ← get;
  mret (mkSystem w gate (list_to_set (jb_ID <$> filter (fun job => jb_State job = "outcome_unknown") (rt_QuoteJobs state))) [] false).

Definition Admit (s : Sys) : res unit :=
  if decide (sy_uncertain s <> ∅) then Err (Errorf "quote restoration has an unknown outcome") else
  if negb (CanEvaluate true (sy_gate s)) then Err (Errorf "restoration capacity is unavailable") else Ok tt.

Definition CapacityAvailable (s : Sys) : bool := bool_decide (sy_uncertain s = ∅) && CanEvaluate true (sy_gate s).

Definition BeginBase (operation : OperationID) : ST Sys unit :=
  _ ← at_gate BeginOperation;
  on_result (outside (SetBaseRestoration (ac_Journal r) operation true)) mret (fun err => _ ← at_gate CompleteBaseReturn; lift (Err err)).

Definition CompleteBase (operation : OperationID) (stageErr : option error) : ST Sys unit :=
  match stageErr with
  | Some _ => outside (SetBaseRestoration (ac_Journal r) operation true)
  | None =>
      _ ← outside (SetBaseRestoration (ac_Journal r) "" false);
      _ ← at_gate CompleteBaseReturn;
      capacityChanged
  end.

(** ** Returns *)

Definition launch (job : QuoteRestorationJob) (request : SequentialStageRequest) (records : list SequentialTransactionRecord) : ST Sys unit :=
  modify (fun s => with_workers (sy_workers s ++ [mkWorker job request records Launched]) s).

(** [given]: the call has a driver and a journal. *)
Definition Start (request : SequentialStageRequest) (given : bool) : ST Sys unit :=
  if negb given then fail "asynchronous quote restoration driver or journal changed" else
  s ← get;
  let now := ac_Clock r (sy_world s) in
  let job := mkQuoteRestorationJob (sr_Operation request +:+ "/quote-return") (sr_Operation request) "pending"
    (SourceChain (sr_Stage request)) (DestinationChain (sr_Stage request)) (amount_token (sr_Input request)) (OutputToken (sr_Stage request))
    (Some (Units (sr_Input request))) now now in
  _ ← at_gate (StartQuoteReturn (jb_ID job));
  on_result (outside (StartQuoteRestoration (ac_Journal r) job)) (fun _ => launch job request [])
    (fun err => _ ← at_gate (CompleteQuoteReturn (jb_ID job)); lift (Err err)).

Definition resume_request (job : QuoteRestorationJob) (input : TokenAmount) : SequentialStageRequest :=
  mkStageRequest (jb_Operation job) ("restored/" +:+ jb_Operation job)
    (mkStage 4 StageBridgeQuoteReturn BranchMain [2] 2 (jb_SourceChain job) (jb_DestinationChain job) (jb_InputToken job) (jb_OutputToken job) "") input.

(** Its errors are dropped. *)
Definition resume (job : QuoteRestorationJob) : ST Sys unit :=
  match NewTokenAmount (jb_InputToken job) (jb_InputUnits job) with
  | Ok input =>
      on_result (outside (LoadSequentialRecovery (ac_Recovery r) (jb_Operation job)))
        (fun snapshot => launch job (resume_request job input) (rs_Transactions snapshot)) (fun _ => mret tt)
  | Err _ => mret tt
  | Panic why => lift (Panic why)
  end.

Definition returned (settlement : SequentialStageSettlement) : bool :=
  bool_decide (Ordinal (sr_Stage (ss_Request settlement)) = 4 /\ Stage (sr_Stage (ss_Request settlement)) = StageBridgeQuoteReturn).

Definition resume_job (job : QuoteRestorationJob) : ST Sys unit :=
  snapshot ← outside (LoadSequentialRecovery (ac_Recovery r) (jb_Operation job));
  if existsb returned (rs_Settlements snapshot) then
    s ← get;
    _ ← outside (FinishQuoteRestoration (ac_Journal r) (jb_ID job) "delivered" (ac_Clock r (sy_world s)));
    _ ← certain (jb_ID job);
    _ ← at_gate (CompleteQuoteReturn (jb_ID job));
    mret tt
  else resume job.

Definition resume_base (state : RestorationState) : ST Sys unit :=
  if rt_BasePending state then
    snapshot ← outside (LoadSequentialRecovery (ac_Recovery r) (rt_BaseOperation state));
    if decide (so_State (rs_Operation snapshot) = SequentialCompleted) then
      _ ← outside (SetBaseRestoration (ac_Journal r) "" false); at_gate CompleteBaseReturn
    else mret tt
  else mret tt.

Definition ResumePending : ST Sys unit :=
  state ← outside (LoadRestoration (ac_Journal r));
  _ ← resume_base state;
  _ ← for_each resume_job (rt_QuoteJobs state);
  capacityChanged.

(** ** Workers *)

Definition observe (e : ObserverEvent) (w : W) : W := match ac_Observer r with Some f => f e w | None => w end.

(** What the driver makes of the return, and whether it is recorded. *)
Definition drive (worker : Worker) : ST W string :=
  _ ← modify (observe (StageStarted (wk_request worker)));
  on_result
    (if decide (wk_records worker = []) then ExecuteStage (ac_Driver r) (wk_request worker) else
     match RecoverStage (ac_Driver r) with
     | Some recover => recover (wk_request worker) (wk_records worker)
     | None => fail "quote restoration driver has no recovery capability"
     end)
    (fun settlement => on_result (RecordStageSettlement (ac_Sequential r) settlement)
       (fun _ => _ ← modify (observe (StageSettled settlement)); mret "delivered") (fun _ => mret "outcome_unknown"))
    (fun _ => mret "outcome_unknown").

(** Five attempts, with a growing wait between them. *)
Fixpoint finishQuoteRestoration (attempts : nat) (id state : string) : ST W bool :=
  match attempts with
  | O => mret false
  | S attempts =>
      w ← get;
      on_result (FinishQuoteRestoration (ac_Journal r) id state (ac_Clock r w)) (fun _ => mret true)
        (fun _ => finishQuoteRestoration attempts id state)
  end.

Definition settle_worker (job : QuoteRestorationJob) (state : string) (finished : bool) : ST Sys unit :=
  if decide (state = "delivered" /\ finished = true) then
    _ ← certain (jb_ID job);
    _ ← at_gate (CompleteQuoteReturn (jb_ID job));
    capacityChanged
  else doubt (jb_ID job).

Definition set_phase (i : nat) (worker : Worker) (phase : Phase) : ST Sys unit :=
  modify (fun s => with_workers (<[i := mkWorker (wk_job worker) (wk_request worker) (wk_records worker) phase]> (sy_workers s)) s).

Definition worker_step (i : nat) : ST Sys unit :=
  s ← get;
  match sy_workers s !! i with
  | None => mret tt
  | Some worker =>
      match wk_phase worker with
      | Launched => state ← outside (drive worker); set_phase i worker (Driven state)
      | Driven state => finished ← outside (finishQuoteRestoration 5 (jb_ID (wk_job worker)) state); set_phase i worker (Finishing state finished)
      | Finishing state finished =>
          _ ← settle_worker (wk_job worker) state finished;
          modify (fun s => with_workers (base.delete i (sy_workers s)) s)
      end
  end.

(** [None]: still waiting.  [ended] is the error of a context that ended first. *)
Definition WaitForPending (ended : option error) : ST Sys (option unit) :=
  match ended with
  | Some err => lift (Err err)
  | None =>
      s ← get;
      if decide (sy_workers s <> []) then mret None else
      state ← wrapST "load restoration completion: %w" (outside (LoadRestoration (ac_Journal r)));
      if rt_BasePending state then fail "critical base-token restoration remains pending" else
      if decide (rt_QuoteJobs state <> []) then fail "%d quote-token restoration(s) remain pending or unknown" else mret (Some tt)
  end.
End restorer.

(** ** What is unfinished is held *)

Section durable.
Context {W : Type} (r : AsyncQuoteRestorerConfig W).

(** What the journal holds as unfinished: the base return, and the quote returns. *)
Context (base_pending : W -> bool) (unfinished : W -> gset string).

Definition Keeps {A} (m : ST W A) : Prop := forall w, base_pending (m w).2 = base_pending w /\ unfinished (m w).2 = unfinished w.

(** The journal is durable and atomic: a call that fails changes nothing.  The rest of
    the world does not write the restorations. *)
Record journal_laws : Prop := {
  jl_load : Keeps (LoadRestoration (ac_Journal r));
  jl_loaded : forall w state w', LoadRestoration (ac_Journal r) w = (Ok state, w') ->
    rt_BasePending state = base_pending w /\ NoDup (jb_ID <$> rt_QuoteJobs state) /\ list_to_set (jb_ID <$> rt_QuoteJobs state) = unfinished w;
  jl_base : forall operation pending w, let '(out, w') := SetBaseRestoration (ac_Journal r) operation pending w in
    unfinished w' = unfinished w /\ base_pending w' = match out with Ok _ => pending | _ => base_pending w end;
  jl_start : forall job w, let '(out, w') := StartQuoteRestoration (ac_Journal r) job w in
    base_pending w' = base_pending w /\ unfinished w' = match out with Ok _ => {[jb_ID job]} ∪ unfinished w | _ => unfinished w end;
  jl_finish : forall id state now w, let '(out, w') := FinishQuoteRestoration (ac_Journal r) id state now w in
    base_pending w' = base_pending w /\
    match out with
    | Ok _ => if decide (state = "delivered") then unfinished w' = unfinished w ∖ {[id]} else unfinished w' ⊆ {[id]} ∪ unfinished w
    | _ => unfinished w' = unfinished w
    end;
  jl_recovery : forall operation, Keeps (LoadSequentialRecovery (ac_Recovery r) operation);
  jl_settlement : forall settlement, Keeps (RecordStageSettlement (ac_Sequential r) settlement);
  jl_execute : forall request, Keeps (ExecuteStage (ac_Driver r) request);
  jl_recover : forall recover request records, RecoverStage (ac_Driver r) = Some recover -> Keeps (recover request records);
  jl_observer : forall f e, ac_Observer r = Some f -> Keeps (modify (f e));
  jl_capacity : forall f, ac_OnCapacity r = Some f -> Keeps (modify f) }.
Context (laws : journal_laws).

Implicit Types s : System W.

(** The workers have jobs of their own, which the gate holds; one that has delivered and
    recorded it no longer finds its job unfinished. *)
Definition worker_ok s (worker : Worker) : Prop :=
  is_Some (rg_quotePending (sy_gate s) !! jb_ID (wk_job worker)) /\
  (wk_phase worker = Finishing "delivered" true -> jb_ID (wk_job worker) ∉ unfinished (sy_world s)).

Record held s : Prop := {
  hd_base : base_pending (sy_world s) = true -> rg_basePending (sy_gate s) = true;
  hd_quote : forall id, id ∈ unfinished (sy_world s) -> is_Some (rg_quotePending (sy_gate s) !! id);
  hd_bounded : gate_bounded (sy_gate s);
  hd_distinct : NoDup ((fun worker => jb_ID (wk_job worker)) <$> sy_workers s);
  hd_workers : Forall (worker_ok s) (sy_workers s) }.

(** Only the views of the world matter. *)
Lemma held_world s w : base_pending w = base_pending (sy_world s) -> unfinished w = unfinished (sy_world s) -> held s -> held (with_world w s).
Proof using Type.
  clear laws. intros Hb Hu [H1 H2 H3 H4 H5]. split; cbn; rewrite ?Hb, ?Hu; try done.
  eapply Forall_impl; [exact H5|]. intros worker [Hw Hd]. split; [done|]. cbn. by rewrite Hu.
Qed.

Lemma held_kept {A} (m : ST W A) s : Keeps m -> held s -> held (outside m s).2.
Proof using Type.
  clear laws. intros Hm Hs. unfold outside, zoom. destruct (Hm (sy_world s)) as [Hb Hu]. destruct (m (sy_world s)) as [out w]. by apply held_world.
Qed.

Lemma held_bind {A B} (m : ST (System W) A) (f : A -> ST (System W) B) s :
  held (m s).2 -> (forall a s', m s = (Ok a, s') -> held s' -> held (f a s').2) -> held ((m ≫= f) s).2.
Proof using Type. clear laws. intros Hm Hf. unfold mbind, st_bind. destruct (m s) as [[a|e|why] s'] eqn:Hs; [by apply Hf|done..]. Qed.

Lemma held_capacity s : held s -> held (capacityChanged r s).2.
Proof using laws.
  intros Hs. unfold capacityChanged, modify. cbn [snd].
  assert (base_pending (match ac_OnCapacity r with Some f => f (sy_world s) | None => sy_world s end) = base_pending (sy_world s) /\
    unfinished (match ac_OnCapacity r with Some f => f (sy_world s) | None => sy_world s end) = unfinished (sy_world s)) as [Hb Hu]
    by (destruct (ac_OnCapacity r) as [f|] eqn:Hf; [exact (jl_capacity laws f Hf (sy_world s))|done]).
  destruct (held_world s _ Hb Hu Hs) as [H1 H2 H3 H4 H5]. by split.
Qed.

Lemma held_uncertain s u : held s -> held (with_uncertain u s).
Proof using Type. clear laws. by intros [H1 H2 H3 H4 H5]. Qed.

(** The base return is over: the gate opens only once the journal says so. *)
Lemma held_base_done s : base_pending (sy_world s) = false -> held s -> held (at_gate CompleteBaseReturn s).2.
Proof using Type. clear laws. intros Hb [H1 H2 H3 H4 H5]. split; cbn; try done. by rewrite Hb. Qed.

(** A slot is freed only for a job that the journal no longer has and no worker works on. *)
Lemma held_quote_done s id : id ∉ unfinished (sy_world s) -> id ∉ ((fun worker => jb_ID (wk_job worker)) <$> sy_workers s) ->
  held s -> held (at_gate (CompleteQuoteReturn id) s).2.
Proof using Type.
  clear laws. intros Hu Hw [H1 H2 H3 H4 H5]. unfold at_gate, zoom, CompleteQuoteReturn, get, put, mbind, st_bind, mret, st_ret.
  destruct (decide _) as [Hin|]; cbn; [|by destruct s].
  split; cbn; try done.
  - intros x Hx. rewrite lookup_delete_ne by (intros ->; done). by apply H2.
  - unfold gate_bounded in *. cbn. rewrite map_size_delete. destruct Hin as [v ->]. cbn. lia.
  - apply Forall_forall. intros worker Hworker. destruct (proj1 (Forall_forall _ _) H5 worker Hworker) as [Hg Hd]. split; [|done]. cbn.
    rewrite lookup_delete_ne; [done|]. intros ->. apply Hw. apply list_elem_of_fmap. by exists worker.
Qed.

Lemma held_launch s job request records : jb_ID job ∉ ((fun worker => jb_ID (wk_job worker)) <$> sy_workers s) ->
  is_Some (rg_quotePending (sy_gate s) !! jb_ID job) -> held s -> held (launch job request records s).2.
Proof using Type.
  clear laws. intros Hnew Hgate [H1 H2 H3 H4 H5]. split; cbn; try done.
  - rewrite fmap_app. apply NoDup_app. split; [done|]. split; [|apply NoDup_singleton]. intros x Hx ->%list_elem_of_singleton. done.
  - apply Forall_app. split; [done|]. by repeat constructor.
Qed.

(** *** The calls *)

Lemma held_BeginBase operation s : held s -> held (BeginBase r operation s).2 /\
  forall s', BeginBase r operation s = (Ok tt, s') ->
    base_pending (sy_world s) = false /\ (size (unfinished (sy_world s)) < MaximumPendingQuoteReturns)%nat /\ base_pending (sy_world s') = true.
Proof using laws.
  intros Hs. unfold BeginBase, at_gate, zoom, BeginOperation, get, put, fail, mbind, st_bind. destruct (rg_basePending (sy_gate s)) eqn:Hg; [by destruct s|].
  destruct (decide (gate_full _)) as [|Hroom]; [by destruct s|].
  assert (base_pending (sy_world s) = false) as Hb by (apply not_true_is_false; intros H%(hd_base _ Hs); congruence).
  assert (size (unfinished (sy_world s)) < MaximumPendingQuoteReturns)%nat as Hsize.
  { unfold gate_full in Hroom. enough (size (unfinished (sy_world s)) <= size (rg_quotePending (sy_gate s)))%nat by lia.
    rewrite <- size_dom. apply subseteq_size. intros id Hid. apply elem_of_dom. by apply (hd_quote _ Hs). }
  unfold on_result, outside, zoom, lift, mret, st_ret. cbn [sy_world with_gate].
  pose proof (jl_base laws operation true (sy_world s)) as Hset. destruct (SetBaseRestoration _ _ _ _) as [[[]|e|why] w']; destruct Hset as [Hu Hp]; cbn.
  - split; [|by intros s' [= <-]]. destruct Hs as [H1 H2 H3 H4 H5]. split; cbn; rewrite ?Hu; try done.
    eapply Forall_impl; [exact H5|]. intros worker [Hw Hd]. split; [done|]. cbn. by rewrite Hu.
  - split; [|done]. destruct Hs as [H1 H2 H3 H4 H5]. split; cbn; rewrite ?Hu, ?Hp, ?Hb; try done.
    eapply Forall_impl; [exact H5|]. intros worker [Hw Hd]. split; [done|]. cbn. by rewrite Hu.
  - split; [|done]. destruct Hs as [H1 H2 H3 H4 H5]. split; cbn; rewrite ?Hu, ?Hp; try done.
    eapply Forall_impl; [exact H5|]. intros worker [Hw Hd]. split; [done|]. cbn. by rewrite Hu.
Qed.

Lemma held_set_base operation pending s : (pending = true -> rg_basePending (sy_gate s) = true) -> held s ->
  held (outside (SetBaseRestoration (ac_Journal r) operation pending) s).2 /\
  forall s', outside (SetBaseRestoration (ac_Journal r) operation pending) s = (Ok tt, s') -> base_pending (sy_world s') = pending /\ sy_gate s' = sy_gate s.
Proof using laws.
  intros Hpend [H1 H2 H3 H4 H5]. unfold outside, zoom. pose proof (jl_base laws operation pending (sy_world s)) as Hset.
  destruct (SetBaseRestoration _ _ _ _) as [out w']. destruct Hset as [Hu Hp]. split; [|by intros s' [= -> <-]].
  split; cbn; rewrite ?Hu; try done; [|eapply Forall_impl; [exact H5|]; intros worker [Hw Hd]; split; [done|]; cbn; by rewrite Hu].
  rewrite Hp. destruct out; [|exact H1..]. exact Hpend.
Qed.

Lemma held_CompleteBase operation stageErr s : rg_basePending (sy_gate s) = true -> held s -> held (CompleteBase r operation stageErr s).2.
Proof using laws.
  intros Hg Hs. unfold CompleteBase. destruct stageErr as [e|]; [by apply held_set_base|].
  destruct (held_set_base "" false s ltac:(done) Hs) as [Hs1 Hb1]. apply held_bind; [exact Hs1|]. intros [] s1 Hrun Hheld.
  destruct (Hb1 s1 Hrun) as [Hb _]. apply held_bind; [by apply held_base_done|]. intros [] s2 _ Hs2. by apply held_capacity.
Qed.

Lemma start_gate id s : rg_quotePending (sy_gate s) !! id = None ->
  (exists e, at_gate (StartQuoteReturn id) s = (Err e, s)) \/
  (~ gate_full (sy_gate s) /\ at_gate (StartQuoteReturn id) s =
     (Ok tt, with_gate (mkRestorationGate (rg_basePending (sy_gate s)) (<[id := tt]> (rg_quotePending (sy_gate s))) (rg_coalesced (sy_gate s))) s)).
Proof using Type.
  clear laws. intros Hid. unfold at_gate, zoom, StartQuoteReturn, get, put, fail, mret, st_ret, mbind, st_bind.
  destruct (decide (id = "")); [left; eexists; by destruct s|]. rewrite decide_False by (rewrite Hid; by intros []).
  destruct (decide (gate_full _)) as [|Hroom]; [left; eexists; by destruct s|]. by right.
Qed.

Lemma held_Start request given s : rg_quotePending (sy_gate s) !! (sr_Operation request +:+ "/quote-return") = None -> held s ->
  held (Start r request given s).2.
Proof using laws.
  intros Hfresh Hs. unfold Start. destruct given; [|done]. cbn [negb]. unfold get at 1. unfold mbind at 1, st_bind at 1.
  cbv zeta. set (job := mkQuoteRestorationJob _ _ _ _ _ _ _ _ _ _). set (id := jb_ID job).
  assert (rg_quotePending (sy_gate s) !! id = None) as Hid by done.
  destruct (start_gate id s Hid) as [[e He]|[Hroom Hrun]]; [unfold mbind, st_bind; by rewrite He|].
  unfold mbind at 1, st_bind at 1. rewrite Hrun.
  destruct Hs as [H1 H2 H3 H4 H5].
  assert (id ∉ unfinished (sy_world s)) as Hnot by (intros Hin%H2; rewrite Hid in Hin; by destruct Hin).
  assert (id ∉ ((fun worker => jb_ID (wk_job worker)) <$> sy_workers s)) as Hnew.
  { intros (worker & -> & Hw)%list_elem_of_fmap. destruct (proj1 (Forall_forall _ _) H5 worker Hw) as [Hin _]. rewrite Hid in Hin. by destruct Hin. }
  unfold on_result. set (s1 := with_gate _ s). unfold outside, zoom. pose proof (jl_start laws job (sy_world s)) as Hstart. fold id in Hstart.
  change (sy_world s1) with (sy_world s). destruct (StartQuoteRestoration _ _ _) as [[[]|e|why] w']; destruct Hstart as [Hb Hu].
  - apply held_launch; [done|change (is_Some (<[id := tt]> (rg_quotePending (sy_gate s)) !! id)); by rewrite lookup_insert_eq|]. split; cbn; rewrite ?Hu, ?Hb; try done.
    + intros x [->%elem_of_singleton|Hx]%elem_of_union; [by rewrite lookup_insert_eq|]. rewrite lookup_insert_is_Some'. right. by apply H2.
    + unfold gate_bounded, gate_full in *. cbn. rewrite map_size_insert_None by done. lia.
    + apply Forall_forall. intros worker Hw. destruct (proj1 (Forall_forall _ _) H5 worker Hw) as [Hin Hd].
      assert (jb_ID (wk_job worker) <> id) as Hne by (intros Heq; apply Hnew; rewrite <- Heq; apply list_elem_of_fmap; by exists worker).
      split; cbn; [by rewrite lookup_insert_ne|]. rewrite Hu. set_solver.
  - apply held_bind; [|done]. apply held_quote_done; cbn; [by rewrite Hu|done|]. split; cbn; rewrite ?Hu, ?Hb; try done.
    + intros x Hx. rewrite lookup_insert_is_Some'. right. by apply H2.
    + unfold gate_bounded, gate_full in *. cbn. rewrite map_size_insert_None by done. lia.
    + eapply Forall_impl; [exact H5|]. intros worker [Hin Hd]. split; cbn; [rewrite lookup_insert_is_Some'; by right|by rewrite Hu].
  - split; cbn; rewrite ?Hu, ?Hb; try done.
    + intros x Hx. rewrite lookup_insert_is_Some'. right. by apply H2.
    + unfold gate_bounded, gate_full in *. cbn. rewrite map_size_insert_None by done. lia.
    + eapply Forall_impl; [exact H5|]. intros worker [Hin Hd]. split; cbn; [rewrite lookup_insert_is_Some'; by right|by rewrite Hu].
Qed.

(** *** Taking up unfinished returns *)

Definition worker_ids s : list string := (fun worker => jb_ID (wk_job worker)) <$> sy_workers s.

(** The jobs still to take up are held by the gate and worked on by nobody. *)
Record ready (ids : list string) s : Prop := {
  rd_held : held s; rd_gate : forall id, id ∈ ids -> is_Some (rg_quotePending (sy_gate s) !! id) /\ id ∉ worker_ids s }.

Lemma ready_world ids s w : base_pending w = base_pending (sy_world s) -> unfinished w = unfinished (sy_world s) -> ready ids s -> ready ids (with_world w s).
Proof using Type. clear laws. intros Hb Hu [H1 H2]. split; [by apply held_world|exact H2]. Qed.

Lemma ready_less ids ids' s : ids' ⊆ ids -> ready ids s -> ready ids' s.
Proof using Type. clear laws. intros Hsub [H1 H2]. split; [done|]. intros id Hid. apply H2. by apply Hsub. Qed.

Lemma resume_ready job ids s : jb_ID job ∉ ids -> ready (jb_ID job :: ids) s -> ready ids (resume r job s).2.
Proof using laws.
  intros Hnew Hs. unfold resume. destruct (NewTokenAmount _ _) as [input|e|why]; [|eapply ready_less; [|exact Hs]; set_solver..].
  unfold on_result, outside, zoom, mret, st_ret. destruct (jl_recovery laws (jb_Operation job) (sy_world s)) as [Hb Hu].
  destruct (LoadSequentialRecovery _ _ _) as [[snapshot|e|why] w']; cbn in Hb, Hu; apply (ready_world _ _ _ Hb Hu) in Hs;
    [|eapply ready_less; [|exact Hs]; set_solver..].
  destruct Hs as [Hheld Hgate]. destruct (Hgate (jb_ID job) ltac:(by left)) as [Hin Hnot]. split.
  - by apply held_launch.
  - intros id Hid. destruct (Hgate id ltac:(by right)) as [Hg Hw]. split; [done|]. unfold worker_ids, launch, modify in *. cbn [snd sy_workers with_workers].
    rewrite fmap_app, elem_of_app. intros [?|Heq%list_elem_of_singleton]; [done|]. cbn in Heq. by subst.
Qed.

Lemma resume_job_ready job ids s : jb_ID job ∉ ids -> ready (jb_ID job :: ids) s -> ready ids (resume_job r job s).2.
Proof using laws.
  intros Hnew Hs. unfold resume_job. unfold mbind at 1, st_bind at 1, outside at 1, zoom at 1. destruct (jl_recovery laws (jb_Operation job) (sy_world s)) as [Hb Hu].
  destruct (LoadSequentialRecovery _ _ _) as [[snapshot|e|why] w']; cbn in Hb, Hu; apply (ready_world _ _ _ Hb Hu) in Hs;
    [|eapply ready_less; [|exact Hs]; set_solver..].
  set (s1 := with_world w' s) in *. destruct (existsb returned (rs_Settlements snapshot)); [|by apply resume_ready].
  unfold get, mbind, st_bind, outside, zoom. set (now := ac_Clock r (sy_world s1)).
  pose proof (jl_finish laws (jb_ID job) "delivered" now (sy_world s1)) as Hfin. destruct (FinishQuoteRestoration _ _ _ _ _) as [[[]|e|why] w2]; destruct Hfin as [Hb2 Hu2];
    [|eapply ready_less; [|by apply (ready_world _ _ w2) in Hs]; set_solver..].
  rewrite decide_True in Hu2 by done. destruct Hs as [[H1 H2 H3 H4 H5] Hgate]. destruct (Hgate (jb_ID job) ltac:(by left)) as [Hin Hnot].
  set (s2 := with_uncertain (sy_uncertain s1 ∖ {[jb_ID job]}) (with_world w2 s1)).
  assert (held s2) as Hs2.
  { split; cbn; rewrite ?Hu2, ?Hb2; try done; [set_solver|]. eapply Forall_impl; [exact H5|]. intros worker [Hw Hd]. split; [done|]. cbn. rewrite Hu2. set_solver. }
  pose proof (held_quote_done s2 (jb_ID job) ltac:(cbn; rewrite Hu2; set_solver) Hnot Hs2) as Hdone.
  unfold certain, modify. change (with_uncertain _ (with_world w2 s1)) with s2.
  assert (rg_quotePending (sy_gate (at_gate (CompleteQuoteReturn (jb_ID job)) s2).2) = delete (jb_ID job) (rg_quotePending (sy_gate s)) /\
    sy_workers (at_gate (CompleteQuoteReturn (jb_ID job)) s2).2 = sy_workers s /\ exists b, (at_gate (CompleteQuoteReturn (jb_ID job)) s2).1 = Ok b) as (Hq & Hw & b & Hb').
  { unfold at_gate, zoom, CompleteQuoteReturn, get, put, mbind, st_bind, mret, st_ret. rewrite decide_True by exact Hin. split; [done|]. split; [done|]. by eexists. }
  destruct (at_gate _ s2) as [out s3]. cbn in Hq, Hw, Hb', Hdone. subst out. cbn. split; [done|].
  intros id Hid. destruct (Hgate id ltac:(by right)) as [Hg Hwk]. split; [|unfold worker_ids in *; by rewrite Hw]. rewrite Hq, lookup_delete_ne; [done|]. intros Heq. apply Hnew. by rewrite Heq.
Qed.

Lemma resume_jobs_held jobs s : NoDup (jb_ID <$> jobs) -> ready (jb_ID <$> jobs) s -> held (for_each (resume_job r) jobs s).2.
Proof using laws.
  revert s. induction jobs as [|job jobs IH]; intros s Hnd Hs; cbn [for_each]; [apply Hs|].
  rewrite fmap_cons in Hnd, Hs. apply NoDup_cons in Hnd as [Hnew Hnd]. pose proof (resume_job_ready job _ s Hnew Hs) as Hs'.
  destruct (resume_job r job s) as [[a|e|why] s']; cbn in Hs'; [by apply IH|apply Hs'..].
Qed.

Lemma resume_base_ready state ids s : ready ids s -> ready ids (resume_base r state s).2.
Proof using laws.
  intros Hs. unfold resume_base. destruct (rt_BasePending state); [|done]. unfold mbind at 1, st_bind at 1, outside at 1, zoom at 1.
  destruct (jl_recovery laws (rt_BaseOperation state) (sy_world s)) as [Hb Hu].
  destruct (LoadSequentialRecovery _ _ _) as [[snapshot|e|why] w']; cbn in Hb, Hu; apply (ready_world _ _ _ Hb Hu) in Hs; [|done..].
  destruct (decide _); [|done]. set (s1 := with_world w' s) in *. destruct Hs as [Hheld Hgate].
  destruct (held_set_base "" false s1 ltac:(done) Hheld) as [Hset Hok]. unfold mbind, st_bind.
  assert (sy_gate (outside (SetBaseRestoration (ac_Journal r) "" false) s1).2 = sy_gate s1 /\ sy_workers (outside (SetBaseRestoration (ac_Journal r) "" false) s1).2 = sy_workers s1) as [Hg Hw]
    by (unfold outside, zoom; by destruct (SetBaseRestoration _ _ _ _)).
  destruct (outside _ s1) as [[[]|err|why] s2]; cbn [snd] in Hset, Hg, Hw.
  - destruct (Hok s2 eq_refl) as [Hbp _]. split; [by apply held_base_done|]. intros id Hid. destruct (Hgate id Hid) as [Hin Hnot].
    unfold worker_ids in *. cbn. by rewrite Hg, Hw.
  - split; [done|]. intros id Hid. destruct (Hgate id Hid). unfold worker_ids in *. cbn [snd]. by rewrite Hg, Hw.
  - split; [done|]. intros id Hid. destruct (Hgate id Hid). unfold worker_ids in *. cbn [snd]. by rewrite Hg, Hw.
Qed.

Lemma held_ResumePending s : sy_workers s = [] -> held s -> held (ResumePending r s).2.
Proof using laws.
  intros Hnone Hs. unfold ResumePending. unfold mbind at 1, st_bind at 1, outside at 1, zoom at 1.
  destruct (jl_load laws (sy_world s)) as [Hb Hu]. destruct (LoadRestoration _ _) as [[state|e|why] w'] eqn:Hload; cbn in Hb, Hu; [|by apply held_world..].
  apply (jl_loaded laws) in Hload as (_ & Hnd & Hids).
  assert (ready (jb_ID <$> rt_QuoteJobs state) (with_world w' s)) as Hready.
  { split; [by apply held_world|]. intros id Hid. split; [apply (hd_quote _ Hs); rewrite <- Hids; by apply elem_of_list_to_set|].
    unfold worker_ids. cbn. rewrite Hnone. apply not_elem_of_nil. }
  pose proof (resume_base_ready state _ _ Hready) as Hbase. unfold mbind, st_bind. destruct (resume_base r state _) as [[[]|e|why] s1]; cbn in Hbase; [|apply Hbase..].
  pose proof (resume_jobs_held _ s1 Hnd Hbase) as Hjobs. destruct (for_each _ _ s1) as [[[]|e|why] s2]; cbn in Hjobs; [by apply held_capacity|done..].
Qed.

(** *** The workers *)

Lemma Keeps_bind {A B} (m : ST W A) (f : A -> ST W B) : Keeps m -> (forall a, Keeps (f a)) -> Keeps (m ≫= f).
Proof using Type.
  clear laws. intros Hm Hf w. destruct (Hm w) as [Hb Hu]. unfold mbind, st_bind. destruct (m w) as [[a|e|why] w']; cbn in *; [|done..].
  destruct (Hf a w') as [Hb' Hu']. by rewrite Hb', Hu'.
Qed.

Lemma Keeps_on_result {A B} (m : ST W A) (good : A -> ST W B) bad : Keeps m -> (forall a, Keeps (good a)) -> (forall e, Keeps (bad e)) ->
  Keeps (on_result m good bad).
Proof using Type.
  clear laws. intros Hm Hg Hb w. destruct (Hm w) as [H1 H2]. unfold on_result. destruct (m w) as [[a|e|why] w']; cbn in *; [|..|done].
  - destruct (Hg a w') as [H3 H4]. by rewrite H3, H4.
  - destruct (Hb e w') as [H3 H4]. by rewrite H3, H4.
Qed.

Lemma Keeps_drive worker : Keeps (drive r worker).
Proof using laws.
  assert (forall e, Keeps (modify (observe r e))) as Hobserve.
  { intros e w. unfold observe, modify. cbn. destruct (ac_Observer r) as [f|] eqn:Hf; [exact (jl_observer laws f e Hf w)|done]. }
  unfold drive. apply Keeps_bind; [apply Hobserve|]. intros _. apply Keeps_on_result.
  - destruct (decide _); [apply laws|]. destruct (RecoverStage (ac_Driver r)) as [recover|] eqn:Hrec; [by apply (jl_recover laws)|by intros w].
  - intros settlement. apply Keeps_on_result; [apply laws| |by intros e w]. intros _. apply Keeps_bind; [apply Hobserve|by intros [] w].
  - by intros e w.
Qed.

Lemma finish_spec attempts id state w : let '(out, w') := finishQuoteRestoration r attempts id state w in
  base_pending w' = base_pending w /\
  match out with
  | Ok true => if decide (state = "delivered") then unfinished w' = unfinished w ∖ {[id]} else unfinished w' ⊆ {[id]} ∪ unfinished w
  | _ => unfinished w' = unfinished w
  end.
Proof using laws.
  revert w. induction attempts as [|attempts IH]; intros w; [done|]. cbn [finishQuoteRestoration]. unfold get, mbind, st_bind, on_result.
  pose proof (jl_finish laws id state (ac_Clock r w) w) as Hfin. destruct (FinishQuoteRestoration _ _ _ _ _) as [[[]|e|why] w1]; [exact Hfin| |exact Hfin].
  destruct Hfin as [Hb Hu]. specialize (IH w1). destruct (finishQuoteRestoration r attempts id state w1) as [out w']. by rewrite Hb, Hu in IH.
Qed.

Lemma held_set_phase s i worker phase : sy_workers s !! i = Some worker ->
  (phase = Finishing "delivered" true -> jb_ID (wk_job worker) ∉ unfinished (sy_world s)) -> held s -> held (set_phase i worker phase s).2.
Proof using Type.
  clear laws. intros Hi Hphase [H1 H2 H3 H4 H5]. split; cbn; try done.
  - rewrite list_fmap_insert. cbn. rewrite list_insert_id; [done|]. by rewrite list_lookup_fmap, Hi.
  - apply Forall_insert; [done|]. split; [|exact Hphase]. apply (Forall_lookup_1 _ _ _ _ H5) in Hi as [Hg _]. exact Hg.
Qed.

(** What a worker may do to the journal: to its own job only. *)
Lemma held_finish s i worker state : sy_workers s !! i = Some worker -> held s ->
  held (outside (finishQuoteRestoration r 5 (jb_ID (wk_job worker)) state) s).2 \/
  exists finished, (outside (finishQuoteRestoration r 5 (jb_ID (wk_job worker)) state) s).1 = Ok finished /\
    held (set_phase i worker (Finishing state finished) (outside (finishQuoteRestoration r 5 (jb_ID (wk_job worker)) state) s).2).2.
Proof using laws.
  intros Hi Hs. set (id := jb_ID (wk_job worker)). unfold outside, zoom. pose proof (finish_spec 5 id state (sy_world s)) as Hspec.
  destruct (finishQuoteRestoration r 5 id state (sy_world s)) as [out w']. destruct Hspec as [Hb Hu].
  destruct out as [[]|e|why]; [|left; by apply held_world..].
  right. exists true. split; [done|]. cbn [snd]. destruct Hs as [H1 H2 H3 H4 H5]. pose proof (Forall_lookup_1 _ _ _ _ H5 Hi) as [Hgate _].
  assert (unfinished w' ⊆ {[id]} ∪ unfinished (sy_world s) /\ (state = "delivered" -> id ∉ unfinished w')) as [Hsub Hdel]
    by (destruct (decide (state = "delivered")); [rewrite Hu; split; set_solver|done]).
  pose proof (delete_Permutation _ _ _ Hi) as Hperm.
  assert (forall other, other ∈ base.delete i (sy_workers s) -> jb_ID (wk_job other) <> id) as Hothers.
  { intros other Hin Heq. rewrite Hperm, fmap_cons in H4. apply NoDup_cons in H4 as [Hnot _]. apply Hnot.
    unfold id in Heq. rewrite <- Heq. apply list_elem_of_fmap. by exists other. }
  split; cbn; rewrite ?Hb; try done.
  - intros x [->%elem_of_singleton|Hx]%Hsub%elem_of_union; [done|by apply H2].
  - rewrite list_fmap_insert. cbn. rewrite list_insert_id; [done|]. by rewrite list_lookup_fmap, Hi.
  - assert (forall other, other ∈ <[i:=mkWorker (wk_job worker) (wk_request worker) (wk_records worker) (Finishing state true)]> (sy_workers s) ->
      other = mkWorker (wk_job worker) (wk_request worker) (wk_records worker) (Finishing state true) \/ other ∈ base.delete i (sy_workers s)) as Hcases.
    { intros other (j & Hj)%list_elem_of_lookup_1. destruct (decide (i = j)) as [<-|Hne].
      - rewrite list_lookup_insert_eq in Hj by (by eapply lookup_lt_Some). left. congruence.
      - rewrite list_lookup_insert_ne in Hj by done. right. apply list_elem_of_lookup. destruct (decide (j < i)%nat).
        + exists j. by rewrite list_lookup_delete_lt.
        + exists (pred j). rewrite list_lookup_delete_ge by lia. by replace (S (pred j)) with j by lia. }
    apply Forall_forall. intros other [->|Hin]%Hcases.
    + split; [exact Hgate|]. cbn. intros [= ->]. by apply Hdel.
    + assert (other ∈ sy_workers s) as Hin' by (rewrite Hperm; by right). destruct (proj1 (Forall_forall _ _) H5 other Hin') as [Hg Hd]. split; [exact Hg|].
      cbn. intros Hph Hx. apply Hsub in Hx. apply elem_of_union in Hx as [Hx%elem_of_singleton|Hx]; [by apply (Hothers other Hin)|by apply Hd].
Qed.

Lemma held_settle s i worker state finished : sy_workers s !! i = Some worker -> wk_phase worker = Finishing state finished -> held s ->
  held (settle_worker r (wk_job worker) state finished (with_workers (base.delete i (sy_workers s)) s)).2.
Proof using laws.
  intros Hi Hphase [H1 H2 H3 H4 H5]. pose proof (Forall_lookup_1 _ _ _ _ H5 Hi) as [_ Hd]. set (s1 := with_workers _ s).
  pose proof (delete_Permutation _ _ _ Hi) as Hperm. rewrite Hperm, fmap_cons in H4. apply NoDup_cons in H4 as [Hnot Hnd].
  assert (held s1) as Hs1 by (split; try done; rewrite Hperm in H5; by apply Forall_cons in H5 as [_ ?]).
  unfold settle_worker. destruct (decide (state = "delivered" /\ finished = true)) as [[-> ->]|]; [|by apply held_uncertain].
  apply held_bind; [by apply held_uncertain|]. intros [] s2 [= <-] Hs2.
  apply held_bind; [by apply held_quote_done; [apply Hd|exact Hnot|]|]. intros [] s3 _ Hs3; by apply held_capacity.
Qed.

Lemma settle_runs i job state finished s : exists s', settle_worker r job state finished s = (Ok tt, s') /\
  settle_worker r job state finished (with_workers (base.delete i (sy_workers s)) s) = (Ok tt, with_workers (base.delete i (sy_workers s)) s') /\
  sy_workers s' = sy_workers s.
Proof using Type.
  clear laws. assert (exists b g, CompleteQuoteReturn (jb_ID job) (sy_gate s) = (Ok b, g)) as (b & g & Hg).
  { unfold CompleteQuoteReturn, get, put, mret, st_ret. unfold mbind, st_bind. destruct (decide _); by eexists _, _. }
  unfold settle_worker. destruct (decide _); [|by eexists]. unfold certain, modify, at_gate, zoom. unfold mbind, st_bind. cbn. rewrite Hg. by eexists.
Qed.

Lemma held_worker_step i s : held s -> held (worker_step r i s).2.
Proof using laws.
  intros Hs. unfold worker_step, get. unfold mbind at 1, st_bind at 1. destruct (sy_workers s !! i) as [worker|] eqn:Hi; [|done].
  destruct (wk_phase worker) as [|state|state finished] eqn:Hphase.
  - apply held_bind; [by apply held_kept; [apply Keeps_drive|]|]. intros state s1 Hrun Hs1. apply held_set_phase; [|done..].
    unfold outside, zoom in Hrun. destruct (drive r worker (sy_world s)) as [out w']. injection Hrun as _ <-. exact Hi.
  - unfold mbind, st_bind. pose proof (held_finish s i worker state Hi Hs) as Hfin.
    assert (sy_workers (outside (finishQuoteRestoration r 5 (jb_ID (wk_job worker)) state) s).2 !! i = Some worker) as Hi'
      by (unfold outside, zoom; by destruct (finishQuoteRestoration _ _ _ _ _)).
    pose proof (finish_spec 5 (jb_ID (wk_job worker)) state (sy_world s)) as Hspec.
    destruct (outside _ s) as [[finished|err|why] s1] eqn:Hrun; cbn [fst snd] in *.
    + destruct Hfin as [Hheld|(f & [= <-] & Hheld)]; [|exact Hheld]. apply held_set_phase; [done| |done]. intros [= -> ->].
      unfold outside, zoom in Hrun. destruct (finishQuoteRestoration _ _ _ _ _) as [out w']. destruct Hspec as [_ Hu]. injection Hrun as -> <-. cbn. set_solver.
    + by destruct Hfin as [|(f & ? & _)].
    + by destruct Hfin as [|(f & ? & _)].
  - destruct (settle_runs i (wk_job worker) state finished s) as (s1 & Hrun & Hrun' & Hw). pose proof (held_settle s i worker state finished Hi Hphase Hs) as Hheld.
    rewrite Hrun' in Hheld. unfold mbind, st_bind. rewrite Hrun. unfold modify. cbn [snd] in *. by rewrite Hw.
Qed.

(** *** Histories *)

Inductive restorer_call :=
| CBegin (operation : OperationID) | CComplete (operation : OperationID) (stageErr : option error)
| CStart (request : SequentialStageRequest) (given : bool) | CResume | CWorker (i : nat).

Definition perform (c : restorer_call) s : System W :=
  match c with
  | CBegin operation => (BeginBase r operation s).2
  | CComplete operation stageErr => (CompleteBase r operation stageErr s).2
  | CStart request given => (Start r request given s).2
  | CResume => (ResumePending r s).2
  | CWorker i => (worker_step r i s).2
  end.

(** How the engine uses the restorer: a base return is completed after it has begun, a
    quote return is started once for an operation, and what was unfinished is taken up
    before anything is started. *)
Definition protocol (c : restorer_call) s : Prop :=
  match c with
  | CComplete _ _ => rg_basePending (sy_gate s) = true
  | CStart request _ => rg_quotePending (sy_gate s) !! (sr_Operation request +:+ "/quote-return") = None
  | CResume => sy_workers s = []
  | _ => True
  end.

Inductive restorer_history : System W -> Prop :=
| restorer_new w s w' : NewAsyncQuoteRestorer r w = (Ok s, w') -> restorer_history s
| restorer_call_made s c : restorer_history s -> protocol c s -> restorer_history (perform c s).

Lemma add_quote_jobs_in jobs : forall pending pending', foldM add_quote_job pending jobs = Ok pending' ->
  forall id, id ∈ jobs \/ is_Some (pending !! id) -> is_Some (pending' !! id).
Proof using Type.
  clear. induction jobs as [|job jobs IH]; intros pending pending' H id Hid; cbn [foldM] in H; [injection H as <-; set_solver|].
  apply bind_Ok in H as (p1 & H1 & H2). apply (IH _ _ H2). unfold add_quote_job in H1. destruct (decide _); [done|]. destruct (decide _); [done|]. injection H1 as <-.
  rewrite lookup_insert_is_Some'. destruct Hid as [[->|?]%elem_of_cons|?]; auto.
Qed.

Lemma history_held s : restorer_history s -> held s.
Proof using laws.
  induction 1 as [w s w' Hnew|s c _ IH Hprot].
  - unfold NewAsyncQuoteRestorer, get, lift, mret, st_ret in Hnew. unfold mbind, st_bind in Hnew.
    destruct (jl_load laws w) as [Hb Hu]. destruct (LoadRestoration _ w) as [[state|e|why] w1] eqn:Hload; [|done..]. cbn in Hb, Hu.
    apply (jl_loaded laws) in Hload as (Hbase & _ & Hids).
    destruct (NewRestorationGate _) as [gate|e|why] eqn:Hgate; [|done..]. injection Hnew as <- <-.
    unfold NewRestorationGate in Hgate. cbn [rs_BasePending rs_QuoteJobs] in Hgate. destruct (decide _) as [|Hlen] in Hgate; [done|].
    apply bind_Ok in Hgate as (pending & Hp & [= <-]). split; cbn; try done.
    + by rewrite Hb, Hbase.
    + intros id Hid. rewrite Hu, <- Hids in Hid. apply elem_of_list_to_set in Hid. apply (add_quote_jobs_in _ _ _ Hp). by left.
    + unfold gate_bounded. cbn. rewrite (add_quote_jobs_size _ _ _ Hp), map_size_empty. lia.
    + constructor.
  - destruct c; cbn in *; [by apply held_BeginBase|by apply held_CompleteBase|by apply held_Start|by apply held_ResumePending|by apply held_worker_step].
Qed.

(** C10.What the journal holds as unfinished is held by the gate.  Over every history of
    operations, background returns and resumptions, with their workers interleaved in
    any order and with any failures of the journal, the driver and the bridges: a base
    return that the journal still has closes the gate, the quote returns that it still
    has occupy its slots and are at most two.  So an operation is admitted only when the
    journal has no base return left and a slot is free, and is in the journal before it
    is admitted. *)
Theorem restorations_durable s : restorer_history s ->
  (base_pending (sy_world s) = true -> rg_basePending (sy_gate s) = true) /\
  (forall id, id ∈ unfinished (sy_world s) -> is_Some (rg_quotePending (sy_gate s) !! id)) /\
  (size (unfinished (sy_world s)) <= MaximumPendingQuoteReturns)%nat /\
  forall operation s', BeginBase r operation s = (Ok tt, s') ->
    base_pending (sy_world s) = false /\ (size (unfinished (sy_world s)) < MaximumPendingQuoteReturns)%nat /\ base_pending (sy_world s') = true.
Proof using laws.
  intros Hs%history_held. split; [apply Hs|]. split; [apply Hs|]. split.
  - pose proof (hd_bounded _ Hs) as Hb. unfold gate_bounded in Hb. etransitivity; [|exact Hb]. rewrite <- size_dom. apply subseteq_size.
    intros id Hid. apply elem_of_dom. by apply (hd_quote _ Hs).
  - intros operation s' Hrun. by apply (held_BeginBase operation s Hs).
Qed.
End durable.

(** A journal with one unfinished return; its bridge does not answer after the restart. *)
Module AsyncWitness.
Record world := mkWorld { wo_base : bool; wo_jobs : gset string }.
Definition job (id : string) : QuoteRestorationJob := mkQuoteRestorationJob id "op" "pending" "optimism" "solana" "usdc" "usdt" (Some 5) 1 1.
Definition journal : RestorationJournal world := mkRestorationJournal world
  (fun w => (Ok (mkRestorationState "" (wo_base w) (job <$> elements (wo_jobs w)) None), w))
  (fun _ pending w => (Ok tt, mkWorld pending (wo_jobs w)))
  (fun job w => (Ok tt, mkWorld (wo_base w) ({[jb_ID job]} ∪ wo_jobs w)))
  (fun id state _ w => (Ok tt, if decide (state = "delivered") then mkWorld (wo_base w) (wo_jobs w ∖ {[id]}) else w))
  (fun _ => mret tt) (mret tt).
Definition sequential : SequentialJournal world := mkJournal (fun _ => mret tt) (fun _ => mret tt) (fun _ _ _ => mret tt) (mret None) None None None None.
Definition snapshot : SequentialRecoverySnapshot := mkRecoverySnapshot
  (mkSequentialOperation "op" "plan" "" "" SequentialRunning 2 (mkTokenAmount "" None) 0 0 "")
  (mkSequentialPlan "plan" "" (mkOpportunity "" "" "" "" (mkDirection "" "") "" [] [] 0 AssetQuantity_zero [] (mkTriggerMetadata "" "" (mkSourcePosition "" 0) (mkSourceReference "" "") 0) false 0 0 0)
     (mkTokenAmount "" None) [] [] (mkTokenAmount "" None) "" "" ∅ 0) [] [] [] None.
Definition recovery : SequentialRecoveryJournal world := mkRecoveryJournal (fun _ _ => mret tt) (fun _ => mret snapshot) (fun _ _ _ => mret tt) (fun _ => mret tt).
Definition driver : SequentialStageDriver world := mkDriver (fun _ => fail "bridge unavailable") None None None None None None.
Definition config : AsyncQuoteRestorerConfig world := mkAsyncConfig world sequential recovery journal driver None None (fun _ => 7).
Definition start : world := mkWorld false {["op/quote-return"]}.
Definition created : System world := mkSystem start (mkRestorationGate false {["op/quote-return" := tt]} None) ∅ [] false.
Definition after : System world := perform config (CWorker 0) (perform config (CWorker 0) (perform config (CWorker 0) (perform config CResume created))).

Lemma laws : journal_laws config wo_base wo_jobs.
Proof.
  split; try done.
  - intros w state w' [= <- <-]. cbn. split; [done|]. rewrite <- list_fmap_compose. cbn. rewrite list_fmap_id.
    split; [apply NoDup_elements|apply list_to_set_elements_L].
  - intros id state now w. cbn. destruct (decide _); cbn; [done|]. split; [done|set_solver].
Qed.

Lemma durable_witness : (exists s', BeginBase config "next" after = (Ok tt, s') /\ wo_base (sy_world s') = true) /\
  wo_base (sy_world after) = false /\ Admit after = Err (Errorf "quote restoration has an unknown outcome") /\ wo_jobs (sy_world after) = {["op/quote-return"]}.
Proof.
  assert (restorer_history config after) as Hafter.
  { do 4 (apply restorer_call_made; [|vm_compute; reflexivity || exact I]). apply (restorer_new config start created start). vm_compute. reflexivity. }
  destruct (restorations_durable config wo_base wo_jobs laws after Hafter) as (_ & _ & _ & Hbegin).
  assert (exists s', BeginBase config "next" after = (Ok tt, s')) as [s' Hrun] by (eexists; vm_compute; reflexivity).
  destruct (Hbegin "next" s' Hrun) as (Hbase & _ & Hbase'). split; [exists s'; split; [exact Hrun|exact Hbase']|].
  split; [exact Hbase|]. split; vm_compute; reflexivity.
Defined.
End AsyncWitness.
