(* ===== verification/Refuel.v ===== *)
(** * Gas maintenance (src/runtime/livecanary/refuel_service.go, src/ports/execution/refuel.go)

    The refuel service buys native gas when a balance falls below a threshold: while the
    process is idle, after an operation, for a recovery that ran short, or on request.
    Each purchase owns the runtime gate, and one whose outcome is unknown leaves it
    blocked.  Executors, journal, notifier and gate are stateful operations on an
    arbitrary world, since other goroutines use them too.  Theorem: however the calls of
    the service interleave with each other and with the other users of the gate, one
    purchase at most runs at a time, each is bounded by the policy and the last balance
    read, and none follows one whose outcome is unknown. *)
From Stdlib Require Import QArith Qcanon.
From S2P Require Import Prelude EventLog Amount Quote Registry Arbitrage RuntimeGate Allocation Inventory Execution Sequential SequentialPorts SequentialEconomics.
Local Open Scope Z_scope.

(** ** Records and ports *)

Definition RefuelPrepared : string := "prepared".
Definition RefuelBroadcast : string := "broadcast".
Definition RefuelCompleted : string := "completed".
Definition RefuelFailed : string := "failed".
Definition RefuelOutcomeUnknown : string := "outcome_unknown".

Record RefuelRecord := mkRefuelRecord {
  rl_ID : string; rl_Chain : ChainID; rl_State : string; rl_Input : TokenAmount; rl_NativeAsset : AssetID;
  rl_BalanceBefore : AssetQuantity; rl_BalanceAfter : AssetQuantity; rl_NativeReceived : AssetQuantity; rl_Fee : AssetQuantity;
  rl_Identity : TransactionIdentity; rl_LastError : string; rl_CreatedAt : Time; rl_UpdatedAt : Time }.

Definition no_quantity : AssetQuantity := mkAssetQuantity "" None.
(** [RefuelRecord{}] *)
Definition Record_zero : RefuelRecord :=
  mkRefuelRecord "" "" "" (mkTokenAmount "" None) "" no_quantity no_quantity no_quantity no_quantity Identity_zero "" 0 0.

Record RefuelBalance := mkRefuelBalance { rb_Chain : ChainID; rb_Native : AssetQuantity; rb_QuoteValue : AssetQuantity; rb_ObservedAt : Time }.

(** What the service uses of the journal. *)
Record RefuelJournal (W : Type) := mkRefuelJournal {
  ActiveRefuel : ST W (RefuelRecord * bool);
  LastCompletedRefuel : ChainID -> ST W (RefuelRecord * bool) }.
Arguments mkRefuelJournal {W}. Arguments ActiveRefuel {W} _. Arguments LastCompletedRefuel {W} _ _.

(** A call that returns a record next to its error. *)
Definition Call (W : Type) : Type := W -> (RefuelRecord * option error) * W.
Definition call {W} (m : Call W) : ST W (RefuelRecord * option error) := fun w => let '(a, w') := m w in (Ok a, w').

(** The journal an executor is handed is part of its world. *)
Record RefuelExecutor (W : Type) := mkRefuelExecutor {
  re_Chain : ChainID; re_Balance : ST W RefuelBalance; re_Preview : AssetQuantity -> Call W;
  re_Execute : AssetQuantity -> Call W; re_Reconcile : RefuelRecord -> Call W }.
Arguments mkRefuelExecutor {W}. Arguments re_Chain {W} _. Arguments re_Balance {W} _. Arguments re_Preview {W} _ _.
Arguments re_Execute {W} _ _ _. Arguments re_Reconcile {W} _ _ _.

(** The shared gate. *)
Record GateAccess (W : Type) := mkGateAccess { ga_State : ST W string; ga_Transition : string -> string -> ST W unit }.
Arguments mkGateAccess {W}. Arguments ga_State {W} _. Arguments ga_Transition {W} _ _ _.

(** The refuel policy of the configuration; [None] is a nil amount. *)
Record ResolvedGasRefuel := mkResolvedGasRefuel {
  gr_Enabled : bool; gr_ThresholdUSD : option Qc; gr_TargetUSD : option Qc; gr_PollInterval : Z; gr_Cooldown : Z; gr_MaxUSDC : option Qc }.

Definition LiveExecutionRefuelCompleted : string := "refuel_completed".
Definition LiveExecutionRefuelFailed : string := "refuel_failed".
Definition LiveExecutionRefuelUncertain : string := "refuel_uncertain".
(** A notification, before its values are rendered. *)
Record RefuelNotice := mkRefuelNotice { rn_Kind : string; rn_Record : RefuelRecord; rn_Error : option error; rn_OccurredAt : Time }.

Record RefuelService (W : Type) := mkRefuelService {
  rf_policy : ResolvedGasRefuel; rf_gate : GateAccess W; rf_journal : RefuelJournal W; rf_executors : gmap ChainID (RefuelExecutor W);
  rf_notifier : option (RefuelNotice -> ST W unit); rf_clock : ST W Time; rf_after : option (ST W unit) }.
Arguments mkRefuelService {W}. Arguments rf_policy {W} _. Arguments rf_gate {W} _. Arguments rf_journal {W} _. Arguments rf_executors {W} _.
Arguments rf_notifier {W} _. Arguments rf_clock {W} _. Arguments rf_after {W} _.

(** [NewRecoveryError] makes an error in which [errors.As] finds its kind. *)
Class RecoveryErrors `{TypedErrors} := {
  NewRecoveryError : string -> error -> error;
  As_NewRecoveryError : forall kind e, As_RecoveryError (NewRecoveryError kind e) = Some (mkRecoveryError kind "") }.

Section service.
Context {W : Type} {typed : TypedErrors} {recovery : RecoveryErrors} {order : RangeOrder ChainID} (wall_clock : ST W Time).

(** ** Construction *)

Definition add_executor (byChain : gmap ChainID (RefuelExecutor W)) (executor : option (RefuelExecutor W)) : res (gmap ChainID (RefuelExecutor W)) :=
  match executor with
  | Some executor =>
      if decide (re_Chain executor = "" \/ is_Some (byChain !! re_Chain executor)) then Err (Errorf "refuel executors are invalid")
      else Ok (<[re_Chain executor := executor]> byChain)
  | None => Err (Errorf "refuel executors are invalid")
  end.

(** A disabled policy has no service. *)
Definition NewRefuelService (policy : ResolvedGasRefuel) (gate : option (GateAccess W)) (journal : option (RefuelJournal W))
    (executors : list (option (RefuelExecutor W))) (notifier : option (RefuelNotice -> ST W unit)) (clock : option (ST W Time)) :
    res (option (RefuelService W)) :=
  if negb (gr_Enabled policy) then Ok None else
  match gate, journal with
  | Some gate, Some journal =>
      if decide (length executors <> 2%nat \/ gr_ThresholdUSD policy = None \/ gr_TargetUSD policy = None \/ gr_MaxUSDC policy = None \/
                 gr_PollInterval policy <= 0 \/ gr_Cooldown policy <= 0)
      then Err (Errorf "refuel service configuration is incomplete") else
      byChain ← foldM add_executor ∅ executors;
      Ok (Some (mkRefuelService policy gate journal byChain notifier (default wall_clock clock) None))
  | _, _ => Err (Errorf "refuel service configuration is incomplete")
  end.

Definition SetAfter (callback : ST W unit) (s : option (RefuelService W)) : option (RefuelService W) :=
  (fun s => mkRefuelService (rf_policy s) (rf_gate s) (rf_journal s) (rf_executors s) (rf_notifier s) (rf_clock s) (Some callback)) <$> s.

(** ** The purchase *)

Implicit Types (s : RefuelService W) (executor : RefuelExecutor W).

(** A nil [*big.Rat] is dereferenced. *)
Definition policy_rat (v : option Qc) : ST W Qc :=
  match v with Some v => mret v | None => lift (Panic "nil pointer dereference") end.

Definition return_error (err : option error) : ST W unit :=
  match err with Some err => lift (Err err) | None => mret tt end.

Definition notify s (kind : string) (record : RefuelRecord) (err : option error) : ST W unit :=
  match rf_notifier s with
  | None => mret tt
  | Some send => now ← rf_clock s; send (mkRefuelNotice kind record err now)
  end.

Definition refuelDue s (chain : ChainID) : ST W bool :=
  on_result (LastCompletedRefuel (rf_journal s) chain)
    (fun '(record, found) =>
      if negb found : bool then mret true else
      now ← rf_clock s; mret (bool_decide (gr_Cooldown (rf_policy s) <= now - rl_UpdatedAt record)))
    (fun _ => mret false).

(** The zero quantity is nothing to spend. *)
Definition refuelSpend s executor (force : bool) : ST W AssetQuantity :=
  balance ← re_Balance executor;
  threshold ← (if force then mret (Q2Qc 0) else policy_rat (gr_ThresholdUSD (rf_policy s)));
  if decide (force = false /\ 0 <= Rat_Cmp (Rat (rb_QuoteValue balance)) threshold) then mret no_quantity else
  target ← policy_rat (gr_TargetUSD (rf_policy s));
  let spend := (target - Rat (rb_QuoteValue balance))%Qc in
  if decide (Z.sgn (Num spend) <= 0) then mret no_quantity else
  maximum ← policy_rat (gr_MaxUSDC (rf_policy s));
  let spend := if decide (0 < Rat_Cmp spend maximum) then maximum else spend in
  lift (NewAssetQuantity (quantity_asset (rb_QuoteValue balance)) (Some spend)).

Definition identified (now : Time) (record : RefuelRecord) (chain : ChainID) : RefuelRecord :=
  mkRefuelRecord
    (if decide (rl_ID record = "") then "refuel-attempt-" +:+ chain +:+ "-" +:+ pretty (UnixNano now) else rl_ID record)
    (if decide (rl_Chain record = "") then chain else rl_Chain record)
    (if decide (rl_State record = "") then RefuelFailed else rl_State record)
    (rl_Input record) (rl_NativeAsset record) (rl_BalanceBefore record) (rl_BalanceAfter record) (rl_NativeReceived record) (rl_Fee record)
    (rl_Identity record) (rl_LastError record)
    (if decide (Time_IsZero (rl_CreatedAt record)) then now else rl_CreatedAt record)
    (if decide (Time_IsZero (rl_UpdatedAt record)) then now else rl_UpdatedAt record).

Definition identifyAttempt s (record : RefuelRecord) (chain : ChainID) : ST W RefuelRecord :=
  now ← rf_clock s; mret (identified now record chain).

(** An error of an unknown kind is only uncertain when a transaction is named. *)
Definition known_failure (record : RefuelRecord) (err : option error) : option error :=
  match err with
  | Some e =>
      if decide (RecoveryKind err = RecoveryFailureUncertain /\ rl_State record <> RefuelOutcomeUnknown /\
                 is_ok (TransactionIdentity_Validate (rl_Identity record)) = false)
      then Some (NewRecoveryError RecoveryFailureTemporary e) else err
  | None => None
  end.

Definition execute s executor (force : bool) : ST W (RefuelRecord * option error) :=
  on_result (refuelSpend s executor force)
    (fun spend =>
      if decide (quantity_asset spend = "") then record ← identifyAttempt s Record_zero (re_Chain executor); mret (record, None) else
      '(record, err) ← call (re_Execute executor spend);
      record ← identifyAttempt s record (re_Chain executor);
      mret (record, known_failure record err))
    (fun err => record ← identifyAttempt s Record_zero (re_Chain executor); mret (record, Some err)).

(** ** The calls *)

Definition reconcile_active s : ST W unit :=
  '(record, found) ← ActiveRefuel (rf_journal s);
  if negb found : bool then mret tt else
  match rf_executors s !! rl_Chain record with
  | None => fail "active refuel on %s has no executor"
  | Some executor =>
      '(reconciled, err) ← call (re_Reconcile executor record);
      match err with
      | Some e =>
          if decide (RecoveryKind err = RecoveryFailureUncertain) then
            _ ← notify s LiveExecutionRefuelUncertain reconciled err;
            lift (Err (Wrapf "refuel %s remains uncertain: %w" e))
          else notify s LiveExecutionRefuelFailed reconciled err
      | None => notify s LiveExecutionRefuelCompleted reconciled None
      end
  end.

Definition ReconcileActive (so : option (RefuelService W)) : ST W unit :=
  match so with None => mret tt | Some s => reconcile_active s end.

(** [next]: the state of the gate after a purchase whose outcome is known. *)
Definition release s (err : option error) (next : string) : ST W bool :=
  if decide (RecoveryKind err = RecoveryFailureUncertain)
  then _ ← ignore (ga_Transition (rf_gate s) RuntimeGateRefueling RuntimeGateRecoveryBlocked); mret true
  else _ ← ignore (ga_Transition (rf_gate s) RuntimeGateRefueling next); mret false.

Definition refuel_once s (chain : ChainID) (armed : bool) : ST W (RefuelRecord * option error) :=
  match rf_executors s !! chain with
  | None => mret (Record_zero, Some (Errorf "refuel chain %q is unavailable"))
  | Some executor =>
      on_result (ga_Transition (rf_gate s) RuntimeGateIdle RuntimeGateRefueling)
        (fun _ =>
          '(record, err) ← on_result (refuelSpend s executor true)
            (fun spend => if armed then call (re_Execute executor spend) else call (re_Preview executor spend))
            (fun err => mret (Record_zero, Some err));
          _ ← release s err RuntimeGateIdle;
          mret (record, err))
        (fun err => mret (Record_zero, Some err))
  end.

Definition RefuelOnce (so : option (RefuelService W)) (chain : ChainID) (armed : bool) : ST W (RefuelRecord * option error) :=
  match so with None => mret (Record_zero, Some (Errorf "gas refuel is disabled")) | Some s => refuel_once s chain armed end.

Definition emergency_refuel s (chain : ChainID) : ST W unit :=
  match rf_executors s !! chain with
  | None => fail "refuel chain %q is unavailable"
  | Some executor =>
      due ← refuelDue s chain;
      if negb due : bool then mret tt else
      _ ← ga_Transition (rf_gate s) RuntimeGateRecovering RuntimeGateRefueling;
      '(record, err) ← execute s executor true;
      uncertain ← release s err RuntimeGateRecovering;
      if uncertain : bool then _ ← notify s LiveExecutionRefuelUncertain record err; return_error err else
      match err with
      | Some _ => _ ← notify s LiveExecutionRefuelFailed record err; return_error err
      | None => if decide (amount_token (rl_Input record) = "") then mret tt else notify s LiveExecutionRefuelCompleted record None
      end
  end.

Definition EmergencyRefuel (so : option (RefuelService W)) (chain : ChainID) : ST W unit :=
  match so with None => fail "gas refuel is disabled" | Some s => emergency_refuel s chain end.

(** A balance that could not be read. *)
Definition failed_check s (chain : ChainID) : ST W RefuelRecord :=
  now ← rf_clock s;
  mret (mkRefuelRecord ("refuel-check-" +:+ chain +:+ "-" +:+ pretty ((now - unix_epoch) / 10 ^ 9)) chain RefuelFailed (mkTokenAmount "" None) ""
    no_quantity no_quantity no_quantity no_quantity Identity_zero "" 0 0).

Definition check_low s (format : string) executor : ST W bool :=
  due ← refuelDue s (re_Chain executor);
  if negb due : bool then mret false else
  on_result (re_Balance executor)
    (fun balance =>
      threshold ← policy_rat (gr_ThresholdUSD (rf_policy s));
      mret (bool_decide (Rat_Cmp (Rat (rb_QuoteValue balance)) threshold < 0)))
    (fun err =>
      record ← failed_check s (re_Chain executor);
      _ ← notify s LiveExecutionRefuelFailed record (Some (if decide (format = "") then err else Wrapf format err));
      mret false).

Definition collect_due s (due : list (RefuelExecutor W)) executor : ST W (list (RefuelExecutor W)) :=
  low ← check_low s "" executor;
  mret (if low : bool then due ++ [executor] else due).

Definition maintain s executor : ST W unit :=
  '(record, err) ← execute s executor false;
  if decide (RecoveryKind err = RecoveryFailureUncertain) then
    _ ← ignore (ga_Transition (rf_gate s) RuntimeGateRefueling RuntimeGateRecoveryBlocked);
    _ ← notify s LiveExecutionRefuelUncertain record err;
    return_error err
  else match err with
  | Some _ => notify s LiveExecutionRefuelFailed record err
  | None => notify s LiveExecutionRefuelCompleted record None
  end.

Definition maintain_after s (owner : string) : ST W unit :=
  due ← foldST (collect_due s) [] (range (rf_executors s)).*2;
  if decide (length due = 0%nat) then mret tt else
  _ ← ga_Transition (rf_gate s) owner RuntimeGateRefueling;
  _ ← for_each (maintain s) due;
  ga_Transition (rf_gate s) RuntimeGateRefueling owner.

Definition MaintainAfterOperation (so : option (RefuelService W)) (owner : string) : ST W unit :=
  match so with None => mret tt | Some s => maintain_after s owner end.

(** The rest of a poll; a gate that is taken ends it. *)
Fixpoint poll_each s (executors : list (RefuelExecutor W)) : ST W unit :=
  match executors with
  | [] => mret tt
  | executor :: executors =>
      low ← check_low s "read gas balance: %w" executor;
      if negb low : bool then poll_each s executors else
      on_result (ga_Transition (rf_gate s) RuntimeGateIdle RuntimeGateRefueling)
        (fun _ =>
          '(record, err) ← execute s executor false;
          uncertain ← release s err RuntimeGateIdle;
          if uncertain : bool then _ ← notify s LiveExecutionRefuelUncertain record err; return_error err else
          _ ← match err with
              | Some _ => notify s LiveExecutionRefuelFailed record err
              | None => _ ← notify s LiveExecutionRefuelCompleted record None; default (mret tt) (rf_after s)
              end;
          poll_each s executors)
        (fun _ => mret tt)
  end.

Definition poll s : ST W unit :=
  state ← ga_State (rf_gate s);
  if decide (state <> RuntimeGateIdle) then mret tt else poll_each s (range (rf_executors s)).*2.

(** The service runs until its context ends: [ticks] polls before that. *)
Fixpoint run_ticks s (ticks : nat) (ended : error) : ST W unit :=
  match ticks with
  | O => lift (Err ended)
  | S ticks => _ ← poll s; run_ticks s ticks ended
  end.

Definition Run (so : option (RefuelService W)) (ticks : nat) (ended : error) : ST W unit :=
  match so with None => lift (Err ended) | Some s => run_ticks s ticks ended end.
End service.

(** ** What a caller does to the gate

    The events of a caller are the transitions it asks for, the balances it reads and
    the purchases it orders. *)

Inductive RefuelEvent :=
| EGate (from to : string) (granted : bool)
| EBalance (chain : ChainID) (answer : res RefuelBalance)
| EPurchase (chain : ChainID) (spend : AssetQuantity) (answer : RefuelRecord * option error).

Inductive GatePhase := Outside | Inside | Doubtful.
(** Where a caller stands, and the last balance it read. *)
Record Standing := mkStanding { sg_phase : GatePhase; sg_balance : option (ChainID * AssetQuantity) }.
Definition outside : Standing := mkStanding Outside None.

Section discipline.
Context {typed : TypedErrors} (policy : ResolvedGasRefuel).

(** The purchase may have been sent, and what became of it is not known. *)
Definition doubtful (answer : RefuelRecord * option error) : bool :=
  bool_decide (RecoveryKind answer.2 = RecoveryFailureUncertain /\
    (rl_State answer.1 = RefuelOutcomeUnknown \/ is_ok (TransactionIdentity_Validate (rl_Identity answer.1)) = true)).

(** A purchase is of nothing, or fills the balance up to the target, under the maximum. *)
Definition within_policy (balance : option (ChainID * AssetQuantity)) (chain : ChainID) (spend : AssetQuantity) : Prop :=
  spend = no_quantity \/
  exists held target maximum, balance = Some (chain, held) /\ gr_TargetUSD policy = Some target /\ gr_MaxUSDC policy = Some maximum /\
    quantity_asset spend = quantity_asset held /\ (Rat spend <= maximum)%Qc /\ (Rat held + Rat spend <= target)%Qc /\
    (Rat spend = maximum \/ Rat held + Rat spend = target)%Qc.

(** One event of a disciplined caller. *)
Inductive disciplined : Standing -> RefuelEvent -> Standing -> Prop :=
| read_balance st chain answer :
    disciplined st (EBalance chain answer)
      (mkStanding (sg_phase st) (match answer with Ok balance => Some (chain, rb_QuoteValue balance) | _ => sg_balance st end))
| refused balance from to : from <> RuntimeGateRefueling -> disciplined (mkStanding Outside balance) (EGate from to false) (mkStanding Outside balance)
| moved balance from to : from <> RuntimeGateRefueling -> to <> RuntimeGateRefueling ->
    disciplined (mkStanding Outside balance) (EGate from to true) (mkStanding Outside balance)
| entered balance from : from <> RuntimeGateRefueling ->
    disciplined (mkStanding Outside balance) (EGate from RuntimeGateRefueling true) (mkStanding Inside balance)
| purchased balance chain spend answer : within_policy balance chain spend ->
    disciplined (mkStanding Inside balance) (EPurchase chain spend answer) (mkStanding (if doubtful answer then Doubtful else Inside) balance)
| left_gate balance to granted : to ∈ successors RuntimeGateRefueling ->
    disciplined (mkStanding Inside balance) (EGate RuntimeGateRefueling to granted) (mkStanding Outside balance)
| blocked balance granted :
    disciplined (mkStanding Doubtful balance) (EGate RuntimeGateRefueling RuntimeGateRecoveryBlocked granted) (mkStanding Outside balance).

Inductive follows : Standing -> list RefuelEvent -> Standing -> Prop :=
| follows_nil st : follows st [] st
| follows_cons st e st' l st'' : disciplined st e st' -> follows st' l st'' -> follows st (e :: l) st''.

Lemma follows_app st l k st'' : follows st (l ++ k) st'' <-> exists st', follows st l st' /\ follows st' k st''.
Proof.
  revert st. induction l as [|e l IH]; intros st; cbn.
  - split; [intros H; exists st; split; [constructor|done]|]. intros (st' & H & Hk). by inversion H; subst.
  - split.
    + inversion 1 as [|? ? st1 ? ? He Hl]; subst. apply IH in Hl as (st' & Hl & Hk). exists st'. split; [by econstructor|done].
    + intros (st' & H & Hk). inversion H as [|? ? st1 ? ? He Hl]; subst. econstructor; [done|]. apply IH. eauto.
Qed.

Lemma follows_one st e st' : disciplined st e st' -> follows st [e] st'.
Proof. intros He. econstructor; [done|constructor]. Qed.
End discipline.

(** ** The service is disciplined *)

Section runs.
Context {W : Type} {typed : TypedErrors} {recovery : RecoveryErrors} {order : RangeOrder ChainID} (log : W -> list RefuelEvent) (s : RefuelService W).
Notation policy := (rf_policy s).

(** A silent call that has no error to return. *)
Definition Steady {A} (m : ST W A) : Prop := forall w, is_ok (m w).1 = true /\ log (m w).2 = log w.

(** What is assumed of the world: every call notes its event, and the rest is silent. *)
Record world_laws : Prop := {
  wl_gate : forall from to, Noted log (fun r => EGate from to (is_ok r)) (ga_Transition (rf_gate s) from to);
  wl_state : Steady (ga_State (rf_gate s));
  wl_active : Silent log (ActiveRefuel (rf_journal s));
  wl_last : forall chain, Silent log (LastCompletedRefuel (rf_journal s) chain);
  wl_clock : Steady (rf_clock s);
  wl_notifier : forall send notice, rf_notifier s = Some send -> Steady (send notice);
  wl_after : forall callback, rf_after s = Some callback -> Steady callback;
  wl_balance : forall id e, rf_executors s !! id = Some e -> Noted log (EBalance (re_Chain e)) (re_Balance e);
  wl_preview : forall id e spend w, rf_executors s !! id = Some e -> log (re_Preview e spend w).2 = log w;
  wl_reconcile : forall id e record w, rf_executors s !! id = Some e -> log (re_Reconcile e record w).2 = log w;
  wl_execute : forall id e spend w, rf_executors s !! id = Some e ->
    log (re_Execute e spend w).2 = log w ++ [EPurchase (re_Chain e) spend (re_Execute e spend w).1];
  wl_policy : exists threshold target maximum,
    gr_ThresholdUSD policy = Some threshold /\ gr_TargetUSD policy = Some target /\ gr_MaxUSDC policy = Some maximum }.
Context (laws : world_laws).

(** [Runs st m Q]: from the standing [st] the call [m] is disciplined, and [Q] holds of
    what it returns and where it ends. *)
Definition Runs {A} (st : Standing) (m : ST W A) (Q : res A -> Standing -> Prop) : Prop :=
  Emits log m (fun r l => exists st', follows policy st l st' /\ Q r st').

Lemma Runs_weaken {A} st (m : ST W A) (Q R : res A -> Standing -> Prop) : Runs st m Q -> (forall r st', no_panic r -> Q r st' -> R r st') -> Runs st m R.
Proof using Type. intros Hm HQ. eapply Emits_weaken; [exact Hm|]. intros r l Hr (st' & Hl & Hq). eauto. Qed.

Lemma Runs_bind {A B} st (m : ST W A) (f : A -> ST W B) (Q : res A -> Standing -> Prop) (R : res B -> Standing -> Prop) :
  Runs st m Q -> (forall e st', Q (Err e) st' -> R (Err e) st') -> (forall a st', Q (Ok a) st' -> Runs st' (f a) R) -> Runs st (m ≫= f) R.
Proof using Type.
  intros Hm He Hf. eapply Emits_bind; [exact Hm| |].
  - intros e l (st' & Hl & Hq). exists st'. split; [done|]. by apply He.
  - intros a l (st' & Hl & Hq). eapply Emits_weaken; [by apply Hf|]. intros r k _ (st'' & Hk & Hr). exists st''. split; [apply follows_app; eauto|done].
Qed.

Lemma Runs_on_result {A B} st (m : ST W A) (good : A -> ST W B) bad (Q : res A -> Standing -> Prop) (R : res B -> Standing -> Prop) :
  Runs st m Q -> (forall a st', Q (Ok a) st' -> Runs st' (good a) R) -> (forall e st', Q (Err e) st' -> Runs st' (bad e) R) -> Runs st (on_result m good bad) R.
Proof using Type.
  intros Hm Hg Hb. eapply Emits_on_result; [exact Hm| |];
    (intros x l (st' & Hl & Hq); eapply Emits_weaken; [by first [apply Hg|apply Hb]|]; intros r k _ (st'' & Hk & Hr);
     exists st''; split; [apply follows_app; eauto|done]).
Qed.

Lemma Runs_silent {A} st (m : ST W A) (Q : res A -> Standing -> Prop) : Silent log m -> (forall r, no_panic r -> Q r st) -> Runs st m Q.
Proof using Type. intros Hm HQ. apply Emits_silent; [done|]. intros r Hr. exists st. split; [constructor|by apply HQ]. Qed.

Lemma Runs_mret {A} st (a : A) (Q : res A -> Standing -> Prop) : Q (Ok a) st -> Runs st (mret a) Q.
Proof using Type. intros HQ. apply Emits_mret. exists st. split; [constructor|done]. Qed.

Lemma Runs_lift {A} st (r : res A) (Q : res A -> Standing -> Prop) : no_panic r -> Q r st -> Runs st (lift r) Q.
Proof using Type. intros Hr HQ. apply Emits_lift; [done|]. exists st. split; [constructor|done]. Qed.

Lemma Runs_ignore {A} st (m : ST W A) (Q : Standing -> Prop) : Runs st m (fun _ st' => Q st') -> Runs st (ignore m) (fun r st' => r = Ok tt /\ Q st').
Proof using Type.
  intros Hm w. destruct (Hm w) as (Hp & l & Hl & st' & Hf & Hq). unfold ignore, try, mbind, st_bind.
  destruct (m w) as [[a|e|why] w']; cbn in *; [..|by destruct (Hp why)]; (split; [apply no_panic_Ok|]); exists l; (split; [done|]); eauto.
Qed.

Lemma Runs_event {A} st (m : ST W A) note (Q : res A -> Standing -> Prop) :
  Noted log note m -> (forall r, no_panic r -> exists st', disciplined policy st (note r) st' /\ Q r st') -> Runs st m Q.
Proof using Type. intros Hm HQ. eapply Emits_noted; [exact Hm|]. intros r Hr. destruct (HQ r Hr) as (st' & He & Hq). exists st'. split; [by apply follows_one|done]. Qed.

Lemma Runs_enter {B} balance from (good : unit -> ST W B) (bad : error -> ST W B) (R : res B -> Standing -> Prop) : from <> RuntimeGateRefueling ->
  Runs (mkStanding Inside balance) (good tt) R -> (forall e, Runs (mkStanding Outside balance) (bad e) R) ->
  Runs (mkStanding Outside balance) (on_result (ga_Transition (rf_gate s) from RuntimeGateRefueling) good bad) R.
Proof using laws.
  intros Hfrom Hg Hb. eapply (Runs_on_result _ _ _ _ (fun r st' => st' = mkStanding (if is_ok r then Inside else Outside) balance)).
  - eapply Runs_event; [apply (wl_gate laws)|]. intros [[]|e|why] Hr; [..|by destruct (Hr why)]; (eexists; split; [|done]); by constructor.
  - by intros [] st' ->.
  - intros e st' ->. apply Hb.
Qed.

Lemma Runs_enter_bind {B} balance from (rest : unit -> ST W B) (R : res B -> Standing -> Prop) : from <> RuntimeGateRefueling ->
  Runs (mkStanding Inside balance) (rest tt) R -> (forall e, R (Err e) (mkStanding Outside balance)) ->
  Runs (mkStanding Outside balance) (ga_Transition (rf_gate s) from RuntimeGateRefueling ≫= rest) R.
Proof using laws.
  intros Hfrom Hr He. eapply Emits_ext; [|apply (Runs_enter balance from rest (fun e => lift (Err e))); [done|done|]].
  - intros w. unfold on_result, mbind, st_bind, lift. by destruct (ga_Transition _ _ _ w) as [[[]|e|why] w'].
  - intros e. apply Runs_lift; [apply no_panic_Err|apply He].
Qed.

Lemma Runs_leave balance to : to ∈ successors RuntimeGateRefueling ->
  Runs (mkStanding Inside balance) (ga_Transition (rf_gate s) RuntimeGateRefueling to) (fun _ st' => st' = mkStanding Outside balance).
Proof using laws. intros Hto. eapply Runs_event; [apply (wl_gate laws)|]. intros r _. eexists. split; [by constructor|done]. Qed.

Lemma Runs_block balance phase : phase <> Outside ->
  Runs (mkStanding phase balance) (ga_Transition (rf_gate s) RuntimeGateRefueling RuntimeGateRecoveryBlocked) (fun _ st' => st' = mkStanding Outside balance).
Proof using laws.
  intros Hp. eapply Runs_event; [apply (wl_gate laws)|]. intros r _. eexists. split; [|done]. destruct phase; [done|constructor; set_solver|constructor].
Qed.

(** *** The silent parts *)

Lemma Runs_steady {A} st (m : ST W A) (Q : res A -> Standing -> Prop) : Steady m -> (forall a, Q (Ok a) st) -> Runs st m Q.
Proof using Type.
  intros Hm HQ w. destruct (Hm w) as [Hok Hl]. destruct (m w) as [[a|e|why] w']; cbn in *; [|done..]. split; [apply no_panic_Ok|].
  exists []. rewrite app_nil_r. split; [done|]. exists st. split; [constructor|apply HQ].
Qed.

Lemma Steady_mret {A} (a : A) : Steady (mret a).
Proof using Type. by intros w. Qed.
Lemma Steady_bind {A B} (m : ST W A) (f : A -> ST W B) : Steady m -> (forall a, Steady (f a)) -> Steady (m ≫= f).
Proof using Type.
  intros Hm Hf w. destruct (Hm w) as [Hok Hl]. unfold mbind, st_bind. destruct (m w) as [[a|e|why] w']; cbn in *; [|done..].
  destruct (Hf a w') as [Hok' Hl']. by rewrite Hl'.
Qed.

Lemma notify_steady kind record err : Steady (notify s kind record err).
Proof using laws.
  unfold notify. destruct (rf_notifier s) as [send|] eqn:Hn; [|apply Steady_mret]. apply Steady_bind; [apply (wl_clock laws)|].
  intros now. by apply (wl_notifier laws).
Qed.

Lemma refuelDue_steady chain : Steady (refuelDue s chain).
Proof using laws.
  intros w. unfold refuelDue, on_result. destruct (wl_last laws chain w) as [Hp Hl].
  destruct (LastCompletedRefuel (rf_journal s) chain w) as [[[record found]|e|why] w']; cbn in *; [|done|by destruct (Hp why)].
  destruct found; cbn; [|done]. unfold mbind, st_bind. destruct (wl_clock laws w') as [Hp' Hl'].
  destruct (rf_clock s w') as [[now|e|why] w'']; cbn in *; [split; [done|congruence]|done..].
Qed.

Lemma failed_check_steady chain : Steady (failed_check s chain).
Proof using laws. apply Steady_bind; [apply (wl_clock laws)|]. intros now. apply Steady_mret. Qed.

Lemma Runs_return st err : Runs st (return_error err) (fun _ st' => st' = st).
Proof using Type. destruct err; [apply Runs_lift; [apply no_panic_Err|done]|by apply Runs_mret]. Qed.

Lemma Runs_notify {B} st kind record err (rest : unit -> ST W B) (Q : res B -> Standing -> Prop) :
  Runs st (rest tt) Q -> Runs st (notify s kind record err ≫= rest) Q.
Proof using laws.
  intros Hr. eapply (Runs_bind _ _ _ (fun r st' => r = Ok tt /\ st' = st)); [apply Runs_steady; [apply notify_steady|by intros []]|by intros e ? []|].
  by intros [] ? [_ ->].
Qed.

Definition ours (executor : RefuelExecutor W) : Prop := exists id, rf_executors s !! id = Some executor.

(** *** The purchase *)

Definition same_phase (st st' : Standing) : Prop := sg_phase st' = sg_phase st.

Lemma balance_runs executor st : ours executor ->
  Runs st (re_Balance executor) (fun r st' => same_phase st st' /\ forall b, r = Ok b -> sg_balance st' = Some (re_Chain executor, rb_QuoteValue b)).
Proof using laws.
  intros [id He]. eapply Runs_event; [by apply (wl_balance laws id)|]. intros r Hr. eexists. split; [constructor|]. split; [done|]. by intros b ->.
Qed.

Lemma capped_within (held target maximum : Qc) :
  let room := (target - held)%Qc in let spend := if decide (0 < Rat_Cmp room maximum) then maximum else room in
  (spend <= maximum)%Qc /\ (held + spend <= target)%Qc /\ (spend = maximum \/ held + spend = target)%Qc.
Proof using Type.
  clear. intros room. assert (held + room = target)%Qc as Hroom by (unfold room; ring). unfold Rat_Cmp. cbv zeta.
  destruct (decide _) as [Hgt|Hle].
  - split; [apply Qcle_refl|]. split; [|by left]. rewrite <- Hroom. apply Qcplus_le_compat; [apply Qcle_refl|].
    apply Qclt_le_weak, Qcgt_alt. by destruct (Qccompare _ _).
  - split; [apply Qcle_alt; by destruct (Qccompare _ _)|]. rewrite Hroom. split; [apply Qcle_refl|by right].
Qed.

Lemma spend_runs executor force st : ours executor ->
  Runs st (refuelSpend s executor force) (fun r st' => same_phase st st' /\ forall spend, r = Ok spend -> within_policy policy (sg_balance st') (re_Chain executor) spend).
Proof using laws.
  intros He. destruct (wl_policy laws) as (threshold & target & maximum & Hth & Hta & Hma). unfold refuelSpend. rewrite Hth, Hta, Hma.
  eapply Runs_bind; [by apply balance_runs|by intros e st' [? _]|]. intros balance st' [Hst Hb]. specialize (Hb balance eq_refl).
  assert (forall spend, within_policy policy (sg_balance st') (re_Chain executor) spend ->
    Runs st' (mret spend) (fun r st'' => same_phase st st'' /\ forall spend, r = Ok spend -> within_policy policy (sg_balance st'') (re_Chain executor) spend)) as Hret.
  { intros spend Hs. apply Runs_mret. split; [done|]. by intros ? [= <-]. }
  assert (Runs st' (if force then mret (Q2Qc 0) else policy_rat (Some threshold)) (fun r st'' => st'' = st')) as Hthreshold by (destruct force; by apply Runs_mret).
  eapply Runs_bind; [exact Hthreshold|by intros e st'' ->|]. intros floor st'' ->. destruct (decide _) as [_|_]; [apply Hret; by left|].
  eapply (Runs_bind _ _ _ (fun r st'' => r = Ok target /\ st'' = st')); [by apply Runs_mret|by intros e ? []|]. intros t ? [[= ->] ->].
  destruct (decide _) as [_|Hpos]; [apply Hret; by left|].
  eapply (Runs_bind _ _ _ (fun r st'' => r = Ok maximum /\ st'' = st')); [by apply Runs_mret|by intros e ? []|]. intros m ? [[= ->] ->].
  apply Runs_lift; [unfold NewAssetQuantity; no_panic_auto|]. split; [done|]. intros spend Hspend.
  unfold NewAssetQuantity in Hspend. destruct (decide _) in Hspend; [done|]. injection Hspend as <-. right.
  exists (rb_QuoteValue balance), target, maximum. split_and!; try done; apply (capped_within (Rat (rb_QuoteValue balance)) target maximum).
Qed.

(** Naming an attempt does not hide a doubt. *)
Lemma identified_doubtful now record chain err : doubtful (record, err) = true ->
  RecoveryKind (known_failure (identified now record chain) err) = RecoveryFailureUncertain.
Proof using Type.
  clear. intros [Hk Hd]%bool_decide_eq_true; cbn in *. unfold known_failure. destruct err as [e|]; [|done]. rewrite decide_False; [done|].
  unfold identified. cbn [rl_State rl_Identity]. intros (_ & H1 & H2). destruct Hd as [Hd|Hd]; [rewrite Hd in H1; done|]. congruence.
Qed.

Lemma purchase_runs executor spend balance : ours executor -> within_policy policy balance (re_Chain executor) spend ->
  Runs (mkStanding Inside balance) (call (re_Execute executor spend))
    (fun r st' => exists a, r = Ok a /\ st' = mkStanding (if doubtful a then Doubtful else Inside) balance).
Proof using laws.
  intros [id He] Hs w. unfold call. pose proof (wl_execute laws id executor spend w He) as Hl.
  destruct (re_Execute executor spend w) as [a w']; cbn in *. split; [apply no_panic_Ok|]. eexists. split; [exact Hl|].
  eexists. split; [apply follows_one; by constructor|]. by exists a.
Qed.

(** A purchase leaves doubt only with an error that says so. *)
Definition attempted (r : res (RefuelRecord * option error)) (st' : Standing) : Prop :=
  exists a, r = Ok a /\ sg_phase st' <> Outside /\ (sg_phase st' = Doubtful -> RecoveryKind a.2 = RecoveryFailureUncertain).

Lemma attempted_inside a balance : attempted (Ok a) (mkStanding Inside balance).
Proof using Type. by exists a. Qed.

Lemma identify_runs st record chain :
  Runs st (identifyAttempt s record chain) (fun r st' => st' = st /\ exists now, r = Ok (identified now record chain)).
Proof using laws.
  eapply (Runs_bind _ _ _ (fun r st' => is_ok r = true /\ st' = st)); [by apply Runs_steady; [apply (wl_clock laws)|]|by intros e ? []|].
  intros now ? [_ ->]. apply Runs_mret. eauto.
Qed.

Lemma execute_runs executor force balance : ours executor -> Runs (mkStanding Inside balance) (execute s executor force) attempted.
Proof using laws.
  intros He. unfold execute. eapply Runs_on_result; [by apply spend_runs| |].
  - intros spend [phase b] [Hst Hs]. unfold same_phase in Hst. cbn in Hst. subst phase. specialize (Hs spend eq_refl). cbn in Hs.
    destruct (decide _) as [_|_].
    + eapply Runs_bind; [apply identify_runs|by intros e ? [? []]|]. intros record ? [-> _]. apply Runs_mret, attempted_inside.
    + eapply Runs_bind; [by apply purchase_runs|by intros e ? (? & ? & _)|]. intros [record err] ? (? & [= <-] & ->).
      eapply Runs_bind; [apply identify_runs|by intros e ? [? []]|]. intros record' ? [-> [now [= ->]]]. apply Runs_mret.
      eexists. split; [done|]. cbn [sg_phase snd]. destruct (doubtful _) eqn:Hd; split; [done| |done..]. intros _. by apply identified_doubtful.
  - intros e [phase b] [Hst _]. unfold same_phase in Hst. cbn in Hst. subst phase.
    eapply Runs_bind; [apply identify_runs|by intros ? ? [? []]|]. intros record ? [-> _]. apply Runs_mret, attempted_inside.
Qed.

(** *** The calls *)

(** Every call starts and ends outside the gate. *)
Definition ends_outside {A} (r : res A) (st' : Standing) : Prop := sg_phase st' = Outside.
Definition Yields {A} (m : ST W A) : Prop := forall balance, Runs (mkStanding Outside balance) m ends_outside.

Lemma release_runs st err next : next ∈ successors RuntimeGateRefueling -> sg_phase st <> Outside ->
  (sg_phase st = Doubtful -> RecoveryKind err = RecoveryFailureUncertain) -> Runs st (release s err next) (fun r st' => exists b, r = Ok b /\ sg_phase st' = Outside).
Proof using laws.
  intros Hnext Hout Hdoubt. destruct st as [phase balance]; cbn in *. unfold release. destruct (decide _) as [Hk|Hk].
  - eapply Runs_bind; [apply (Runs_ignore _ _ (fun st' => st' = mkStanding Outside balance)); by apply Runs_block|by intros e ? []|].
    intros [] ? [_ ->]. apply Runs_mret. by eexists.
  - destruct phase; [done| |by destruct (Hk (Hdoubt eq_refl))].
    eapply Runs_bind; [apply (Runs_ignore _ _ (fun st' => st' = mkStanding Outside balance)); by apply Runs_leave|by intros e ? []|].
    intros [] ? [_ ->]. apply Runs_mret. by eexists.
Qed.

Lemma idle_next : RuntimeGateIdle ∈ successors RuntimeGateRefueling /\ RuntimeGateRecovering ∈ successors RuntimeGateRefueling.
Proof using Type. clear. split; apply (bool_decide_unpack _); vm_compute; done. Qed.

Lemma Yields_steady {A} (m : ST W A) : Steady m -> Yields m.
Proof using Type. intros Hm balance. by apply Runs_steady. Qed.
Lemma Yields_silent {A} (m : ST W A) : Silent log m -> Yields m.
Proof using Type. intros Hm balance. by apply Runs_silent. Qed.
Lemma Yields_mret {A} (a : A) : Yields (mret a).
Proof using Type. apply Yields_steady, Steady_mret. Qed.
Lemma Yields_fail {A} format : Yields (fail (A := A) format).
Proof using Type. intros balance. by apply Runs_lift; [apply no_panic_Err|]. Qed.
Lemma Yields_bind {A B} (m : ST W A) (f : A -> ST W B) : Yields m -> (forall a, Yields (f a)) -> Yields (m ≫= f).
Proof using Type.
  intros Hm Hf balance. eapply Runs_bind; [apply Hm|done|]. intros a [phase b] Hp. unfold ends_outside in Hp. cbn in Hp. subst phase. apply Hf.
Qed.
Lemma Yields_on_result {A B} (m : ST W A) (good : A -> ST W B) bad : Yields m -> (forall a, Yields (good a)) -> (forall e, Yields (bad e)) -> Yields (on_result m good bad).
Proof using Type.
  intros Hm Hg Hb balance. eapply Runs_on_result; [apply Hm| |]; intros x [phase b] Hp; unfold ends_outside in Hp; cbn in Hp; subst phase; [apply Hg|apply Hb].
Qed.
Lemma Yields_notify kind record err : Yields (notify s kind record err).
Proof using laws. apply Yields_steady, notify_steady. Qed.
Lemma Yields_return err : Yields (return_error err).
Proof using Type. intros balance. eapply Runs_weaken; [apply Runs_return|]. by intros r st' _ ->. Qed.

(** A purchase, the release of the gate, and what is done about the outcome. *)
Lemma Yields_owned {B} executor force next (good : RefuelRecord -> option error -> bool -> ST W B) balance :
  ours executor -> next ∈ successors RuntimeGateRefueling -> (forall record err b, Yields (good record err b)) ->
  Runs (mkStanding Inside balance)
    ('(record, err) ← execute s executor force; uncertain ← release s err next; good record err uncertain) ends_outside.
Proof using laws.
  intros He Hnext Hgood. eapply Runs_bind; [by apply execute_runs|by intros e ? (? & ? & _)|].
  intros [record err] st (? & [= <-] & Hout & Hdoubt). cbn [snd] in Hdoubt.
  eapply Runs_bind; [by apply release_runs|by intros e ? (? & ? & _)|]. intros b [phase b'] (? & _ & Hp). cbn in Hp. subst phase. apply Hgood.
Qed.

Lemma reconcile_keeps : Yields (reconcile_active s).
Proof using laws.
  apply Yields_bind; [apply Yields_silent, (wl_active laws)|]. intros [record found]. destruct found; cbn [negb]; [|apply Yields_mret].
  destruct (rf_executors s !! rl_Chain record) as [executor|] eqn:He; [|apply Yields_fail]. apply Yields_bind.
  - apply Yields_steady. intros w. unfold call. pose proof (wl_reconcile laws _ _ record w He). by destruct (re_Reconcile executor record w).
  - intros [reconciled [e|]]; [destruct (decide _)|]; try apply Yields_notify.
    apply Yields_bind; [apply Yields_notify|]. intros _. apply (Yields_return (Some _)).
Qed.

Lemma once_keeps chain armed : Yields (refuel_once s chain armed).
Proof using laws.
  intros balance. unfold refuel_once. destruct (rf_executors s !! chain) as [executor|] eqn:He; [|apply Yields_mret]. assert (ours executor) as Hours by by exists chain.
  apply Runs_enter; [done| |intros e; apply Yields_mret].
  eapply (Runs_bind _ _ _ attempted); [| |].
  - eapply Runs_on_result; [by apply spend_runs| |]; intros x [phase b] [Hst Hs]; unfold same_phase in Hst; cbn in Hst; subst phase.
    + specialize (Hs x eq_refl). cbn in Hs. destruct armed.
      * eapply Runs_weaken; [by apply purchase_runs|]. intros r st' _ (a & -> & ->). exists a. split; [done|]. cbn [sg_phase].
        destruct (doubtful a) eqn:Hd; [|done]. split; [done|]. intros _. by apply bool_decide_eq_true in Hd as [Hk _].
      * apply Runs_steady; [|intros a; apply attempted_inside]. intros w. unfold call. pose proof (wl_preview laws _ _ x w He). by destruct (re_Preview executor x w).
    + apply Runs_mret, attempted_inside.
  - by intros e ? (? & ? & _).
  - intros [record err] st (? & [= <-] & Hout & Hdoubt). cbn [snd] in Hdoubt.
    eapply Runs_bind; [apply release_runs; [apply idle_next|done..]|by intros e ? (? & ? & _)|].
    intros b [phase b'] (? & _ & Hp). cbn in Hp. subst phase. apply Yields_mret.
Qed.

Lemma emergency_keeps chain : Yields (emergency_refuel s chain).
Proof using laws.
  unfold emergency_refuel. destruct (rf_executors s !! chain) as [executor|] eqn:He; [|apply Yields_fail].
  apply Yields_bind; [apply Yields_steady, refuelDue_steady|]. intros due. destruct due; cbn [negb]; [|apply Yields_mret]. intros balance.
  apply Runs_enter_bind; [done| |done].
  apply (Yields_owned executor true RuntimeGateRecovering (fun record err uncertain =>
      if uncertain : bool then _ ← notify s LiveExecutionRefuelUncertain record err; return_error err else
      match err with
      | Some _ => _ ← notify s LiveExecutionRefuelFailed record err; return_error err
      | None => if decide (amount_token (rl_Input record) = "") then mret tt else notify s LiveExecutionRefuelCompleted record None
      end)); [by exists chain|apply idle_next|].
  intros record err b. destruct b; [apply Yields_bind; [apply Yields_notify|intros; apply Yields_return]|].
  destruct err; [apply Yields_bind; [apply Yields_notify|intros; apply Yields_return]|]. destruct (decide _); [apply Yields_mret|apply Yields_notify].
Qed.

Lemma check_keeps st format executor : ours executor ->
  Runs st (check_low s format executor) (fun r st' => same_phase st st' /\ is_ok r = true).
Proof using laws.
  intros He. destruct (wl_policy laws) as (threshold & _ & _ & Hth & _). unfold check_low.
  eapply (Runs_bind _ _ _ (fun r st' => is_ok r = true /\ st' = st)); [by apply Runs_steady; [apply refuelDue_steady|]|by intros e ? []|].
  intros due ? [_ ->]. destruct due; cbn [negb]; [|by apply Runs_mret].
  eapply Runs_on_result; [by apply balance_runs| |].
  - intros b st' [Hst _]. rewrite Hth. eapply (Runs_bind _ _ _ (fun r st'' => is_ok r = true /\ st'' = st')); [by apply Runs_mret|by intros e ? []|].
    intros ? ? [_ ->]. by apply Runs_mret.
  - intros e st' [Hst _]. eapply (Runs_bind _ _ _ (fun r st'' => is_ok r = true /\ st'' = st')); [by apply Runs_steady; [apply failed_check_steady|]|by intros ? ? []|].
    intros record ? [_ ->]. apply Runs_notify. by apply Runs_mret.
Qed.

Lemma collect_runs due : forall executors st, Forall ours due -> Forall ours executors ->
  Runs st (foldST (collect_due s) due executors) (fun r st' => same_phase st st' /\ forall due', r = Ok due' -> Forall ours due').
Proof using laws.
  intros executors. revert due. induction executors as [|executor executors IH]; intros due st Hdue Hall; cbn [foldST].
  - apply Runs_mret. split; [done|]. by intros ? [= <-].
  - apply Forall_cons in Hall as [He Hall].
    change (Runs st (collect_due s due executor ≫= fun due => foldST (collect_due s) due executors)
      (fun r st' => same_phase st st' /\ forall due', r = Ok due' -> Forall ours due')).
    eapply (Runs_bind _ _ _ (fun r st' => same_phase st st' /\ is_ok r = true /\ forall due', r = Ok due' -> Forall ours due')).
    + unfold collect_due. eapply Runs_bind; [by apply check_keeps|by intros e ? []|]. intros low st' [Hst _]. apply Runs_mret. split; [done|]. split; [done|].
      intros ? [= <-]. destruct low; [|done]. apply Forall_app. split; [done|]. by constructor.
    + by intros e ? (? & ? & _).
    + intros due' st' (Hst & _ & Hd). eapply Runs_weaken; [apply IH; [by apply Hd|done]|]. intros r st'' _ [Hst' Hr]. unfold same_phase in *. split; [congruence|done].
Qed.

Lemma maintain_runs executor balance : ours executor ->
  Runs (mkStanding Inside balance) (maintain s executor) (fun r st' => match r with Ok _ => sg_phase st' = Inside | _ => sg_phase st' = Outside end).
Proof using laws.
  intros He. unfold maintain. eapply Runs_bind; [by apply execute_runs|by intros e ? (? & ? & _)|].
  intros [record err] [phase b] (? & [= <-] & Hout & Hdoubt). cbn [snd sg_phase] in *. destruct (decide _) as [Hk|Hk].
  - eapply Runs_bind; [apply (Runs_ignore _ _ (fun st' => st' = mkStanding Outside b)); by apply Runs_block|by intros e ? []|].
    intros [] ? [_ ->]. apply Runs_notify. destruct err as [e|]; [|done]. by apply Runs_lift; [apply no_panic_Err|].
  - destruct phase; [done| |by destruct (Hk (Hdoubt eq_refl))].
    destruct err; (eapply Runs_steady; [apply notify_steady|done]).
Qed.

Lemma maintain_all_runs executors : forall st, sg_phase st = Inside -> Forall ours executors ->
  Runs st (for_each (maintain s) executors) (fun r st' => match r with Ok _ => sg_phase st' = Inside | _ => sg_phase st' = Outside end).
Proof using laws.
  induction executors as [|executor executors IH]; intros [phase balance] Hp Hall; cbn in Hp; subst phase; cbn [for_each]; [by apply (Runs_mret _ tt)|].
  apply Forall_cons in Hall as [He Hall].
  eapply Emits_ext; [|eapply (Runs_bind _ (maintain s executor) (fun _ => for_each (maintain s) executors)); [by apply maintain_runs|done|]].
  - intros w. unfold mbind, st_bind. by destruct (maintain s executor w) as [[[]|e|why] w'].
  - intros [] st' Hst. by apply IH.
Qed.

Lemma executors_ours : Forall ours (range (rf_executors s)).*2.
Proof using Type.
  apply Forall_forall. intros executor ([id e] & -> & Hin)%list_elem_of_fmap. exists id. by apply elem_of_range in Hin.
Qed.

Lemma maintain_after_keeps owner : owner <> RuntimeGateRefueling -> owner ∈ successors RuntimeGateRefueling -> Yields (maintain_after s owner).
Proof using laws.
  intros Hne Hnext balance. unfold maintain_after. eapply Runs_bind; [apply (collect_runs []); [constructor|apply executors_ours]|by intros e ? []|].
  intros due [phase b] [Hst Hdue]. unfold same_phase in Hst. cbn in Hst. subst phase. destruct (decide _); [apply Yields_mret|].
  apply Runs_enter_bind; [done| |done]. eapply Runs_bind; [by apply maintain_all_runs; [|apply Hdue]|done|].
  intros _ [phase b'] Hp. cbn in Hp. subst phase. eapply Runs_weaken; [by apply Runs_leave|]. by intros r ? _ ->.
Qed.

Lemma poll_each_keeps executors : Forall ours executors -> Yields (poll_each s executors).
Proof using laws.
  induction 1 as [|executor executors He Hall IH]; intros balance; [apply Yields_mret|]. cbn [poll_each].
  eapply Runs_bind; [by apply check_keeps|by intros e ? []|]. intros low [phase b] [Hst _]. unfold same_phase in Hst. cbn in Hst. subst phase.
  destruct low; cbn [negb]; [|apply IH]. apply Runs_enter; [done| |intros; apply Yields_mret].
  apply (Yields_owned executor false RuntimeGateIdle (fun record err uncertain =>
    if uncertain : bool then _ ← notify s LiveExecutionRefuelUncertain record err; return_error err else
    _ ← match err with
        | Some _ => notify s LiveExecutionRefuelFailed record err
        | None => _ ← notify s LiveExecutionRefuelCompleted record None; default (mret tt) (rf_after s)
        end;
    poll_each s executors)); [done|apply idle_next|].
  intros record err uncertain. destruct uncertain; [apply Yields_bind; [apply Yields_notify|intros; apply Yields_return]|].
  apply Yields_bind; [|intros; apply IH]. destruct err; [apply Yields_notify|]. apply Yields_bind; [apply Yields_notify|]. intros _.
  destruct (rf_after s) as [callback|] eqn:Ha; [|apply Yields_mret]. by apply Yields_steady, (wl_after laws).
Qed.

Lemma poll_keeps : Yields (poll s).
Proof using laws.
  apply Yields_bind; [apply Yields_steady, (wl_state laws)|]. intros state. destruct (decide _); [apply Yields_mret|apply poll_each_keeps, executors_ours].
Qed.

Lemma run_keeps ticks ended : Yields (run_ticks s ticks ended).
Proof using laws.
  induction ticks as [|ticks IH]; [intros balance; by apply Runs_lift; [apply no_panic_Err|]|]. apply Yields_bind; [apply poll_keeps|by intros _].
Qed.

(** Whatever is called, the caller is disciplined and outside the gate in the end. *)
Inductive refuel_call :=
| CReconcile | COnce (chain : ChainID) (armed : bool) | CEmergency (chain : ChainID) | CMaintain (owner : string) | CRun (ticks : nat) (ended : error).

Definition perform (c : refuel_call) : ST W unit :=
  match c with
  | CReconcile => ReconcileActive (Some s)
  | COnce chain armed => _ ← RefuelOnce (Some s) chain armed; mret tt
  | CEmergency chain => EmergencyRefuel (Some s) chain
  | CMaintain owner => MaintainAfterOperation (Some s) owner
  | CRun ticks ended => Run (Some s) ticks ended
  end.

(** Maintenance is asked for by an owner of the gate that may have it back. *)
Definition proper (c : refuel_call) : Prop :=
  match c with CMaintain owner => owner <> RuntimeGateRefueling /\ owner ∈ successors RuntimeGateRefueling | _ => True end.

Lemma call_keeps c : proper c -> Yields (perform c).
Proof using laws.
  destruct c; cbn; intros Hc.
  - apply reconcile_keeps.
  - apply Yields_bind; [apply once_keeps|intros; apply Yields_mret].
  - apply emergency_keeps.
  - destruct Hc. by apply maintain_after_keeps.
  - apply run_keeps.
Qed.

(** The events of one caller: those of its calls, one after the other. *)
Inductive session : list RefuelEvent -> Prop :=
| session_nil : session []
| session_call l c w k : session l -> proper c -> log (perform c w).2 = log w ++ k -> session (l ++ k).

Lemma session_follows l : session l -> exists balance, follows policy outside l (mkStanding Outside balance).
Proof using laws.
  induction 1 as [|l c w k _ (balance & IH) Hc Hk]; [exists None; constructor|].
  destruct (call_keeps c Hc balance w) as (_ & k' & Hk' & [phase b] & Hf & Hp). cbn in Hp. unfold ends_outside in Hp. cbn in Hp. subst phase.
  rewrite Hk in Hk'. apply app_inv_head in Hk' as <-. exists b. apply follows_app. eauto.
Qed.
End runs.

(** ** Callers that share the gate *)

Section schedules.
Context {typed : TypedErrors} (policy : ResolvedGasRefuel).

(** A schedule interleaves the events of the callers; the gate answers each transition. *)
Inductive replays : RuntimeGate -> list (nat * RefuelEvent) -> RuntimeGate -> Prop :=
| replays_nil g : replays g [] g
| replays_gate g i from to granted g' l g'' : attempt (from, to) g = (granted, g') -> replays g' l g'' -> replays g ((i, EGate from to granted) :: l) g''
| replays_balance g i chain answer l g' : replays g l g' -> replays g ((i, EBalance chain answer) :: l) g'
| replays_purchase g i chain spend answer l g' : replays g l g' -> replays g ((i, EPurchase chain spend answer) :: l) g'.

Definition events_of (i : nat) (schedule : list (nat * RefuelEvent)) : list RefuelEvent :=
  (filter (fun p => p.1 = i) schedule).*2.

Lemma events_of_cons i p l : events_of i (p :: l) = if decide (p.1 = i) then p.2 :: events_of i l else events_of i l.
Proof. unfold events_of. rewrite filter_cons. by destruct (decide _). Qed.

(** Where the callers stand: at most one is inside, and then the gate is refuelling. *)
Record exclusive (standing : nat -> Standing) (g : RuntimeGate) : Prop := {
  ex_gate : forall i, sg_phase (standing i) <> Outside -> rg_state g = RuntimeGateRefueling;
  ex_one : forall i j, sg_phase (standing i) <> Outside -> sg_phase (standing j) <> Outside -> i = j;
  ex_held : rg_state g = RuntimeGateRefueling -> exists i, sg_phase (standing i) <> Outside }.

Definition update (standing : nat -> Standing) (i : nat) (st : Standing) : nat -> Standing := fun j => if decide (i = j) then st else standing j.

Definition stopped (g : RuntimeGate) : Prop := rg_state g = RuntimeGateRecoveryBlocked \/ rg_state g = RuntimeGateStopping.

Lemma attempt_refused from to g g' : attempt (from, to) g = (false, g') -> g' = g.
Proof. intros H. destruct (attempt_cases (from, to) g) as [Heq|(Heq & _)]; congruence. Qed.
Lemma attempt_granted from to g g' : attempt (from, to) g = (true, g') ->
  rg_state g = from /\ rg_state g' = to /\ from <> to /\ to ∈ successors from.
Proof.
  intros H. destruct (attempt_cases (from, to) g) as [Heq|(Heq & Hs & Hv)]; rewrite H in Heq; [done|]. injection Heq as ->.
  apply bool_decide_eq_true in Hv as [? ?]. cbn in *. done.
Qed.

Lemma replays_one g i e l g'' : replays g ((i, e) :: l) g'' -> exists g', replays g [(i, e)] g' /\ replays g' l g''.
Proof. inversion 1; subst; eexists; (split; [by repeat econstructor|done]). Qed.

Lemma exclusive_none standing g : (forall i, sg_phase (standing i) = Outside) -> rg_state g <> RuntimeGateRefueling -> exclusive standing g.
Proof. intros Hall Hg. split; [intros i Hi; by destruct (Hi (Hall i))|intros i j Hi; by destruct (Hi (Hall i))|done]. Qed.

Lemma exclusive_keep standing standing' g : (forall i, sg_phase (standing' i) = Outside <-> sg_phase (standing i) = Outside) ->
  exclusive standing g -> exclusive standing' g.
Proof.
  intros Heq [Hg H1 Hh]. split.
  - intros i Hi. apply (Hg i). by rewrite <- Heq.
  - intros i j Hi Hj. apply H1; by rewrite <- Heq.
  - intros Hr. destruct (Hh Hr) as [i Hi]. exists i. by rewrite Heq.
Qed.

Lemma update_phase standing i st' : (sg_phase st' = Outside <-> sg_phase (standing i) = Outside) ->
  forall j, sg_phase (update standing i st' j) = Outside <-> sg_phase (standing j) = Outside.
Proof. intros Heq j. unfold update. destruct (decide _) as [<-|]; done. Qed.

Lemma exclusive_alone standing g i : exclusive standing g -> sg_phase (standing i) <> Outside -> forall j, j <> i -> sg_phase (standing j) = Outside.
Proof.
  intros Hex Hi j Hj. destruct (sg_phase (standing j)) eqn:Hp; [done|..]; (destruct Hj; apply (ex_one _ _ Hex); [by rewrite Hp|done]).
Qed.

(** A caller that leaves the gate frees it, since it was refuelling. *)
Lemma leave_exclusive standing g g' i balance to granted : exclusive standing g -> sg_phase (standing i) <> Outside -> to ∈ successors RuntimeGateRefueling ->
  attempt (RuntimeGateRefueling, to) g = (granted, g') -> rg_state g' = to /\ exclusive (update standing i (mkStanding Outside balance)) g'.
Proof.
  intros Hex Hi Hto Hg. pose proof (ex_gate _ _ Hex i Hi) as Hs.
  assert (to <> RuntimeGateRefueling) as Hne by (intros ->; by apply (bool_decide_pack _) in Hto; vm_compute in Hto).
  destruct granted.
  - apply attempt_granted in Hg as (_ & Hto' & _ & _). split; [done|]. apply exclusive_none; [|by rewrite Hto'].
    intros j. unfold update. destruct (decide _); [done|]. by apply (exclusive_alone standing g i).
  - exfalso. destruct (attempt_cases (RuntimeGateRefueling, to) g) as [Heq|(Heq & _)]; [|congruence].
    unfold attempt, Transition in Heq. cbn [fst snd] in Heq.
    assert (validRuntimeGateTransition RuntimeGateRefueling to = true) as Hv by (by apply bool_decide_eq_true).
    rewrite Hv in Heq. cbn [negb] in Heq. unfold get, mbind, st_bind in Heq. rewrite decide_False in Heq by tauto. done.
Qed.

Lemma exclusive_step standing g i e st' g' : exclusive standing g -> disciplined policy (standing i) e st' -> replays g [(i, e)] g' ->
  exclusive (update standing i st') g'.
Proof.
  intros Hex He Hr. inversion He as [st chain answer Hst|balance from to Hf Hst|balance from to Hf Ht Hst|balance from Hf Hst|balance chain spend answer Hw Hst|balance to granted Hto Hst|balance granted Hst];
    subst; inversion Hr as [|? ? ? ? ? ? ? ? Hg Hn| |]; subst; try (inversion Hn; subst); try match goal with H : replays _ [] _ |- _ => inversion H; subst; clear H end.
  - by apply (exclusive_keep standing); [apply update_phase|].
  - apply attempt_refused in Hg as ->. apply (exclusive_keep standing); [|done]. apply update_phase. by rewrite <- Hst.
  - apply attempt_granted in Hg as (Hs & Hs' & _). apply exclusive_none; [|by rewrite Hs'].
    intros j. unfold update. destruct (decide _); [done|]. destruct (sg_phase (standing j)) eqn:Hp; [done|..];
      (destruct Hf; rewrite <- Hs; apply (ex_gate _ _ Hex j); by rewrite Hp).
  - apply attempt_granted in Hg as (Hs & Hs' & _).
    assert (forall j, sg_phase (standing j) = Outside) as Hall.
    { intros j. destruct (sg_phase (standing j)) eqn:Hp; [done|..]; (destruct Hf; rewrite <- Hs; apply (ex_gate _ _ Hex j); by rewrite Hp). }
    split; [done| |intros _; exists i; unfold update; by rewrite decide_True].
    intros j k. unfold update. destruct (decide (i = j)) as [<-|], (decide (i = k)) as [<-|]; try done; rewrite ?Hall; done.
  - apply (exclusive_keep standing); [|done]. apply update_phase. rewrite <- Hst. cbn [sg_phase]. by destruct (doubtful answer).
  - eapply leave_exclusive; [done|by rewrite <- Hst|done|done].
  - eapply leave_exclusive; [done|by rewrite <- Hst| |done]. apply (bool_decide_unpack _). by vm_compute.
Qed.

(** A purchase is in doubt, or has left the gate blocked. *)
Definition in_doubt (standing : nat -> Standing) (g : RuntimeGate) : Prop := stopped g \/ exists i, sg_phase (standing i) = Doubtful.

Lemma stopped_step standing g i e st' g' : disciplined policy (standing i) e st' -> replays g [(i, e)] g' -> stopped g -> stopped g'.
Proof.
  intros _ Hr Hs. inversion Hr as [|? ? from to granted ? ? ? Hg Hn| |]; subst; try match goal with H : replays _ [] _ |- _ => inversion H; subst; clear H end; [|done..].
  destruct granted; [|by apply attempt_refused in Hg as ->]. apply attempt_granted in Hg as (Hf & Ht & _ & Hsucc). rewrite <- Hf in Hsucc.
  destruct Hs as [Hs|Hs]; rewrite Hs in Hsucc; [|by apply not_elem_of_nil in Hsucc]. apply list_elem_of_singleton in Hsucc. right. congruence.
Qed.

Lemma in_doubt_step standing g i e st' g' : exclusive standing g -> disciplined policy (standing i) e st' -> replays g [(i, e)] g' -> in_doubt standing g ->
  in_doubt (update standing i st') g' /\ (forall chain spend answer, e <> EPurchase chain spend answer).
Proof.
  intros Hex He Hr Hd.
  assert (forall chain spend answer, e <> EPurchase chain spend answer) as Hno.
  { intros chain spend answer ->. inversion He as [| | | |balance ? ? ? Hw Hst| |]; subst.
    assert (rg_state g = RuntimeGateRefueling) as Hg by (apply (ex_gate _ _ Hex i); by rewrite <- Hst).
    destruct Hd as [[Hs|Hs]|[j Hj]]; [by rewrite Hg in Hs..|]. assert (j = i) as -> by (apply (ex_one _ _ Hex); [by rewrite Hj|by rewrite <- Hst]).
    rewrite <- Hst in Hj. done. }
  split; [|done]. destruct Hd as [Hs|[j Hj]]; [left; by eapply stopped_step|]. destruct (decide (i = j)) as [<-|Hij].
  - inversion He as [st chain answer Hst|balance from to Hf Hst|balance from to Hf Ht Hst|balance from Hf Hst|balance chain spend answer Hw Hst|balance to granted Hto Hst|balance granted Hst];
      subst; try (by rewrite <- Hst in Hj); [|].
    + right. exists i. unfold update. by rewrite decide_True.
    + left. inversion Hr as [|? ? ? ? ? ? ? ? Hg Hn| |]; subst. inversion Hn; subst.
      eapply (leave_exclusive standing g g' i None) in Hg as [Hs _]; [by left|done|by rewrite Hj|]. apply (bool_decide_unpack _). by vm_compute.
  - right. exists j. unfold update. by rewrite decide_False.
Qed.

Definition followed (standing : nat -> Standing) (l : list (nat * RefuelEvent)) : Prop := forall i, exists st, follows policy (standing i) (events_of i l) st.

Lemma followed_cons standing i e l : followed standing ((i, e) :: l) ->
  exists st', disciplined policy (standing i) e st' /\ followed (update standing i st') l /\
    forall j k st, follows policy (update standing i st' j) (events_of j k) st -> follows policy (standing j) (events_of j ((i, e) :: k)) st.
Proof.
  intros H. destruct (H i) as [st Hst]. rewrite events_of_cons in Hst. cbn [fst snd] in Hst. rewrite decide_True in Hst by done.
  inversion Hst as [|? ? st' ? ? He Hl]; subst. exists st'. split; [done|]. split.
  - intros j. unfold update. destruct (decide _) as [<-|Hij]; [by eexists|]. destruct (H j) as [stj Hj]. rewrite events_of_cons in Hj. cbn [fst] in Hj.
    rewrite decide_False in Hj by done. by exists stj.
  - intros j k st1. unfold update. rewrite events_of_cons. cbn [fst snd]. destruct (decide _) as [<-|]; [|done]. intros Hk. by econstructor.
Qed.

Lemma schedule_run before : forall standing g rest g', followed standing (before ++ rest) -> replays g (before ++ rest) g' -> exclusive standing g ->
  exists standing' gb, exclusive standing' gb /\ replays g before gb /\ replays gb rest g' /\ followed standing' rest /\
    forall i, follows policy (standing i) (events_of i before) (standing' i).
Proof.
  induction before as [|[i e] before IH]; intros standing g rest g' Hf Hr Hex; cbn [app] in *.
  - exists standing, g. split_and!; try done; [constructor|]. intros i. constructor.
  - apply replays_one in Hr as (g1 & H1 & Hr). apply followed_cons in Hf as (st' & He & Hf & Hlift).
    destruct (IH (update standing i st') g1 rest g' Hf Hr) as (standing' & gb & Hex' & Hb & Hrest & Hf' & Hall); [by eapply exclusive_step|].
    exists standing', gb. split_and!; try done; [|intros j; by apply Hlift].
    inversion H1; subst; try match goal with H : replays _ [] _ |- _ => inversion H; subst; clear H end; by econstructor.
Qed.

Lemma doubt_forever l : forall standing g g', followed standing l -> replays g l g' -> exclusive standing g -> in_doubt standing g ->
  forall j chain spend answer, (j, EPurchase chain spend answer) ∉ l.
Proof.
  induction l as [|[i e] l IH]; intros standing g g' Hf Hr Hex Hd j chain spend answer; [apply not_elem_of_nil|].
  apply replays_one in Hr as (g1 & H1 & Hr). apply followed_cons in Hf as (st' & He & Hf & _).
  destruct (in_doubt_step standing g i e st' g1 Hex He H1 Hd) as [Hd' Hno]. apply not_elem_of_cons. split; [intros [= -> <-]; by eapply Hno|].
  eapply IH; [done|done| |done]. by eapply exclusive_step.
Qed.
End schedules.

Section theorem.
Context {W : Type} {typed : TypedErrors} {recovery : RecoveryErrors} {order : RangeOrder ChainID} (log : W -> list RefuelEvent) (s : RefuelService W).

(** The gate is used by the service's own calls, cut off at any point, and by others
    that order no purchase or are as disciplined. *)
Definition gate_user (l : list RefuelEvent) : Prop :=
  (exists rest, session log s (l ++ rest)) \/ exists st, follows (rf_policy s) outside l st.

Lemma gate_user_follows l : world_laws log s -> gate_user l -> exists st, follows (rf_policy s) outside l st.
Proof.
  intros laws [[rest Hs]|]; [|done]. apply session_follows in Hs as [balance Hf]; [|done]. apply follows_app in Hf as (st & Hf & _). eauto.
Qed.

(** C9.Purchases exclude each other and stop after doubt.  However the callers interleave,
    when a purchase is ordered the gate is refuelling, its caller alone is inside, and
    the amount fills the balance it read last up to the target within the maximum, or is
    nothing; and after a purchase whose outcome is unknown no caller orders another. *)
Theorem purchases_exclusive schedule g g' :
  world_laws log s -> (forall i, gate_user (events_of i schedule)) -> replays g schedule g' -> rg_state g <> RuntimeGateRefueling ->
  forall before i chain spend answer after, schedule = before ++ (i, EPurchase chain spend answer) :: after ->
    (exists gb, replays g before gb /\ rg_state gb = RuntimeGateRefueling) /\
    (exists balance, follows (rf_policy s) outside (events_of i before) (mkStanding Inside balance) /\ within_policy (rf_policy s) balance chain spend) /\
    (forall j, j <> i -> exists balance, follows (rf_policy s) outside (events_of j before) (mkStanding Outside balance)) /\
    (doubtful answer = true -> forall j chain' spend' answer', (j, EPurchase chain' spend' answer') ∉ after).
Proof.
  intros laws Husers Hr Hg before i chain spend answer after ->.
  destruct (schedule_run (rf_policy s) before (fun _ => outside) g ((i, EPurchase chain spend answer) :: after) g') as
    (standing & gb & Hex & Hb & Hrest & Hf & Hall); [intros j; by apply gate_user_follows|done|by apply exclusive_none|].
  apply replays_one in Hrest as (g1 & H1 & Hrest). apply followed_cons in Hf as (st' & He & Hf & _).
  inversion He as [| | | |balance ? ? ? Hw Hst| |]; subst.
  assert (sg_phase (standing i) <> Outside) as Hi by (by rewrite <- Hst). split_and!.
  - exists gb. split; [done|]. by apply (ex_gate _ _ Hex i).
  - exists balance. split; [|done]. rewrite Hst. apply Hall.
  - intros j Hj. pose proof (exclusive_alone _ _ _ Hex Hi j Hj) as Hout. specialize (Hall j). destruct (standing j) as [phase b]. cbn in Hout. subst phase. by exists b.
  - intros Hd j chain' spend' answer'. eapply doubt_forever; [done|done|by eapply exclusive_step|].
    right. exists i. unfold update. rewrite decide_True by done. cbn [sg_phase]. by rewrite Hd.
Qed.
End theorem.

(** ** Witness: a poll buys gas with an unknown outcome while a request is refused *)

Module RefuelWitness.
(** Stage errors are joined to their disposition, recovery errors to their kind. *)
Fixpoint as_stage (e : error) : option StageError :=
  match e with Wrapf _ e => as_stage e | Joined [Sentinel disposition; _] => Some (mkStageError disposition []) | _ => None end.
Definition as_recovery (e : error) : option RecoveryError :=
  match e with Joined [Sentinel kind; _; _] => Some (mkRecoveryError kind "") | _ => None end.

#[local] Instance typed : TypedErrors :=
  {| NewStageError disposition e := Joined [Sentinel disposition; e]; As_StageError := as_stage; As_RecoveryError := as_recovery;
     As_SimulationInvariant _ := None; As_NewStageError _ _ := eq_refl; As_Wrapf _ _ := eq_refl |}.
#[local] Instance recovery : RecoveryErrors :=
  {| NewRecoveryError kind e := Joined [Sentinel kind; e; e]; As_NewRecoveryError _ _ := eq_refl |}.
#[local] Instance order : RangeOrder ChainID := range_map_to_list ChainID.

Definition world : Type := RuntimeGate * list RefuelEvent.
Definition log (w : world) : list RefuelEvent := w.2.

Definition usd (v : Z) : AssetQuantity := mkAssetQuantity "usd" (Some (SetInt v)).
Definition dollar : RefuelBalance := mkRefuelBalance "optimism" (mkAssetQuantity "eth" None) (usd 1) 7.
Definition unknown : RefuelRecord * option error :=
  (mkRefuelRecord "refuel" "optimism" RefuelOutcomeUnknown (mkTokenAmount "usdc" (Some 5)) "eth" no_quantity no_quantity no_quantity no_quantity Identity_zero "" 7 7,
   Some (Errorf "timeout")).

Definition transition (from to : string) : ST world unit := fun w =>
  let '(r, g) := Transition from to w.1 in (r, (g, w.2 ++ [EGate from to (is_ok r)])).
Definition executor : RefuelExecutor world := mkRefuelExecutor "optimism"
  (fun w => (Ok dollar, (w.1, w.2 ++ [EBalance "optimism" (Ok dollar)])))
  (fun _ w => ((Record_zero, None), w))
  (fun spend w => (unknown, (w.1, w.2 ++ [EPurchase "optimism" spend unknown])))
  (fun _ w => ((Record_zero, None), w)).
Definition policy : ResolvedGasRefuel := mkResolvedGasRefuel true (Some (SetInt 2)) (Some (SetInt 10)) 1 1 (Some (SetInt 5)).
Definition service : RefuelService world := mkRefuelService policy
  (mkGateAccess (fun w => (Ok (rg_state w.1), w)) transition)
  (mkRefuelJournal (mret (Record_zero, false)) (fun _ => mret (Record_zero, false)))
  {["optimism" := executor]} None (mret 9) None.

Definition idle : RuntimeGate := mkRuntimeGate RuntimeGateIdle false.
Definition refueling : RuntimeGate := mkRuntimeGate RuntimeGateRefueling true.
Definition before : list (nat * RefuelEvent) :=
  [(0%nat, EBalance "optimism" (Ok dollar)); (0%nat, EGate RuntimeGateIdle RuntimeGateRefueling true);
   (1%nat, EGate RuntimeGateIdle RuntimeGateRefueling false); (0%nat, EBalance "optimism" (Ok dollar))].
Definition after : list (nat * RefuelEvent) := [(0%nat, EGate RuntimeGateRefueling RuntimeGateRecoveryBlocked true)].
Definition schedule : list (nat * RefuelEvent) := before ++ (0%nat, EPurchase "optimism" (usd 5) unknown) :: after.

Lemma service_laws : world_laws log service.
Proof.
  split; try (intros; by split); try (intros; done).
  - intros from to w. cbn. unfold transition, Transition. destruct (negb _); [by split; [apply no_panic_Err|]|].
    unfold get, put, mbind, st_bind. destruct (decide _); by split; [first [apply no_panic_Err|apply no_panic_Ok]|].
  - intros id e He. cbn in He. apply lookup_singleton_Some in He as [_ <-]. intros w. by split; [apply no_panic_Ok|].
  - intros id e spend w He. cbn in He. by apply lookup_singleton_Some in He as [_ <-].
  - intros id e record w He. cbn in He. by apply lookup_singleton_Some in He as [_ <-].
  - intros id e spend w He. cbn in He. by apply lookup_singleton_Some in He as [_ <-].
  - by do 3 eexists.
Qed.

Lemma callers i : gate_user log service (events_of i schedule).
Proof.
  destruct i as [|[|i]].
  - left. exists []. rewrite app_nil_r. change (events_of 0 schedule) with ([] ++ events_of 0 schedule).
    apply (session_call log service [] (CRun 1 (Errorf "cancelled")) (idle, [])); [constructor|done|by vm_compute].
  - left. exists []. rewrite app_nil_r. change (events_of 1 schedule) with ([] ++ events_of 1 schedule).
    apply (session_call log service [] (COnce "optimism" true) (refueling, [])); [constructor|done|by vm_compute].
  - right. exists outside. constructor.
Qed.

Lemma exclusive_witness :
  replays idle schedule (mkRuntimeGate RuntimeGateRecoveryBlocked true) /\
  forall j chain spend answer, (j, EPurchase chain spend answer) ∉ after.
Proof.
  assert (replays idle schedule (mkRuntimeGate RuntimeGateRecoveryBlocked true)) as Hr by (repeat econstructor).
  split; [exact Hr|]. assert (rg_state idle <> RuntimeGateRefueling) as Hidle by done.
  refine (proj2 (proj2 (proj2 (purchases_exclusive log service schedule idle _ service_laws callers Hr Hidle before 0 "optimism" (usd 5) unknown after eq_refl))) _).
  vm_compute. reflexivity.
Defined.
End RefuelWitness.
