(* ===== verification/LiveManager.v ===== *)
(** * Planning and running live operations (src/runtime/livecanary/planner.go, manager.go, forced.go)

    The planner turns a qualified opportunity into a dependent execution plan of the
    configured size and policy.  The manager executes at most one plan at a time, off
    the evaluation loop, and may be limited to a number of operations; a failure known
    to have had no effect is given back.  A goroutine is a worker that moves on in
    steps of its own, in any order with the calls.  Theorems: what a plan commits to,
    and that whatever the order of the calls the operations that may have had an effect
    never exceed the limit. *)
From Stdlib Require Import QArith Qcanon.
From S2P Require Import Prelude EventLog Amount Quote Registry Arbitrage Allocation Inventory Execution Sequential SequentialPorts.
Local Open Scope Z_scope.

(** ** The planner *)

Record Planner := mkPlanner {
  pn_MarketChains : gmap MarketID ChainID; pn_ExecutionUnits : option Z; pn_ExecutionAmount : option Qc;
  pn_AllowedExecutionAmounts : list (option Qc); pn_ExecutionPolicy : ExecutionPolicyKind; pn_BaseAsset : AssetID; pn_QuoteAsset : AssetID;
  pn_TokenDecimals : gmap TokenID N }.

(** No positive size is configured. *)
Definition unsized (p : Planner) : Prop :=
  match pn_ExecutionUnits p with Some units => Z.sgn units <= 0 | None => True end /\
  match pn_ExecutionAmount p with Some amount => Z.sgn (Num amount) <= 0 | None => True end /\
  pn_AllowedExecutionAmounts p = [].
#[export] Instance unsized_dec p : Decision (unsized p).
Proof. unfold unsized. destruct (pn_ExecutionUnits p), (pn_ExecutionAmount p); apply _. Defined.

Definition allowed_amount (input : Qc) (amount : option Qc) : bool :=
  match amount with Some amount => bool_decide (Rat_Cmp input amount = 0) | None => false end.

(** The units an operation spends on the candidate. *)
Definition planned_units (p : Planner) (candidate : Candidate) : res (option Z) :=
  if decide (pn_AllowedExecutionAmounts p <> []) then
    if negb (existsb (allowed_amount (Rat (cd_Input candidate))) (pn_AllowedExecutionAmounts p))
    then Err (Errorf "selected Live input is not in the configured execution grid")
    else Ok (Some (Units (q_AmountIn (cd_BuyQuote candidate))))
  else
  match pn_ExecutionAmount p with
  | Some amount =>
      match pn_TokenDecimals p !! amount_token (q_AmountIn (cd_BuyQuote candidate)) with
      | None => Err (Errorf "live execution token decimals are unavailable")
      | Some decimals =>
          let scaled := (amount * SetInt (10 ^ Z.of_N decimals))%Qc in
          if decide (Denom scaled <> 1) then Err (Errorf "live execution amount exceeds token precision") else Ok (Some (Num scaled))
      end
  | None => Ok (pn_ExecutionUnits p)
  end.

(** The plan of the configured policy. *)
Definition policy_plan (p : Planner) (id : PlanID) (opportunity : Opportunity) (initial : TokenAmount) (buyChain sellChain : ChainID) (now : Time) : res SequentialPlan :=
  if decide (pn_ExecutionPolicy p = "" \/ pn_ExecutionPolicy p = PolicyTransportedSequential) then
    NewSequentialPlan id opportunity initial buyChain sellChain now
  else if decide (pn_ExecutionPolicy p = PolicyPrefundedSequential) then
    NewPrefundedSequentialPlan id opportunity initial buyChain sellChain now
  else if decide (pn_ExecutionPolicy p = PolicyPrefundedParallel \/ pn_ExecutionPolicy p = PolicyPrefundedTriggerFirst) then
    plan ← NewPrefundedParallelPlan id opportunity initial buyChain sellChain now;
    let plan := mkSequentialPlan (p_ID plan) (pn_ExecutionPolicy p) (p_Opportunity plan) (p_InitialInput plan) (p_Stages plan) (p_CircuitBreaker plan)
                  (p_DiscoveryAmount plan) (pn_BaseAsset p) (pn_QuoteAsset p) (pn_TokenDecimals p) (p_CreatedAt plan) in
    if decide (p_BaseAsset plan = "" \/ p_QuoteAsset plan = "") then Err (Errorf "parallel plan valuation assets are unavailable") else
    _ ← SequentialPlan_Validate plan; Ok plan
  else Err (Errorf "unsupported dependent execution policy %q").

Section planning.
Context {W : Type} (entropy : ST W string) (clock : ST W Time).

(** [entropy] is sixteen random bytes in hexadecimal. *)
Definition randomIdentity (prefix : string) : ST W string := hex ← entropy; mret (prefix +:+ hex).
Definition newOperationID : ST W OperationID := randomIdentity "sequential-operation-".

Definition Plan (p : Planner) (opportunity : Opportunity) : ST W SequentialPlan :=
  if decide (unsized p) then fail "positive Live execution units are required" else
  match selected_candidate opportunity with
  | None => fail "opening has no selected candidate"
  | Some candidate =>
      let buyChain := default "" (pn_MarketChains p !! BuyMarket (op_Direction opportunity)) in
      let sellChain := default "" (pn_MarketChains p !! SellMarket (op_Direction opportunity)) in
      units ← lift (planned_units p candidate);
      initial ← lift (NewTokenAmount (amount_token (q_AmountIn (cd_BuyQuote candidate))) units);
      id ← randomIdentity "sequential-plan-";
      now ← clock;
      lift (policy_plan p id opportunity initial buyChain sellChain now)
  end.
End planning.

(** ** Forced canaries *)

Definition ForceCanarySolanaToEVM : string := "solana-to-evm".
Definition ForceCanaryEVMToSolana : string := "evm-to-solana".
Definition forced_reason : string := "forced_canary_direction".

(** [strings.Split(value, ":")]: the parts before and after each colon. *)
Fixpoint split_colon (value : string) : list string :=
  match value with
  | EmptyString => [EmptyString]
  | String c rest =>
      if decide (c = Ascii.ascii_of_nat 58) then EmptyString :: split_colon rest
      else match split_colon rest with part :: parts => String c part :: parts | [] => [String c EmptyString] end
  end.

Definition Resolve (d : string) (firstMarket secondMarket : MarketID) : res Direction :=
  if decide (firstMarket = "" \/ secondMarket = "" \/ firstMarket = secondMarket) then Err (Errorf "forced canary requires two distinct markets") else
  if decide (d = ForceCanarySolanaToEVM) then Ok (mkDirection firstMarket secondMarket) else
  if decide (d = ForceCanaryEVMToSolana) then Ok (mkDirection secondMarket firstMarket) else
  match split_colon d with
  | [buy; sell] =>
      if decide ((buy = firstMarket /\ sell = secondMarket) \/ (buy = secondMarket /\ sell = firstMarket)) then Ok (mkDirection buy sell)
      else Err (Errorf "forced canary direction %q does not match the active setup")
  | _ => Err (Errorf "forced canary direction %q does not match the active setup")
  end.

Definition with_forced (o : Opportunity) : Opportunity :=
  mkOpportunity (op_Evaluation o) (op_Run o) (op_ConfigHash o) (op_Strategy o) (op_Direction o) ClassificationPolicyQualified (op_Snapshots o)
    (op_Candidates o) 0 (op_Threshold o) [forced_reason] (op_Trigger o) (op_HasTrigger o) (op_TriggeredAt o) (op_StartedAt o) (op_FinishedAt o).

(** The first opportunity of the direction. *)
Fixpoint ForceOpportunity (opportunities : list Opportunity) (direction : Direction) : res Opportunity :=
  match opportunities with
  | [] => Err (Errorf "forced canary direction %s -> %s was not evaluated")
  | o :: opportunities =>
      if decide (op_Direction o <> direction) then ForceOpportunity opportunities direction else
      if decide (op_Candidates o = []) then Err (Errorf "forced canary direction %s -> %s has no complete fresh round trip") else Ok (with_forced o)
  end.

Definition with_candidates (o : Opportunity) (candidates : list Candidate) : Opportunity :=
  mkOpportunity (op_Evaluation o) (op_Run o) (op_ConfigHash o) (op_Strategy o) (op_Direction o) (op_Classification o) (op_Snapshots o)
    candidates (op_SelectedIndex o) (op_Threshold o) (op_Reasons o) (op_Trigger o) (op_HasTrigger o) (op_TriggeredAt o) (op_StartedAt o) (op_FinishedAt o).

Definition ForceExecutableOpportunity (opportunities : list Opportunity) (direction : Direction) (executable : option Candidate) : res Opportunity :=
  match executable with
  | None => Err (Errorf "forced canary has no exact executable candidate")
  | Some executable =>
      if decide (q_Market (cd_BuyQuote executable) <> BuyMarket direction \/ q_Market (cd_SellQuote executable) <> SellMarket direction \/
                 IsZero (q_AmountIn (cd_BuyQuote executable)) \/ IsZero (q_AmountIn (cd_SellQuote executable)))
      then Err (Errorf "forced canary has no exact executable candidate") else
      opportunity ← ForceOpportunity opportunities direction;
      Ok (with_candidates opportunity (<[Z.to_nat (op_SelectedIndex opportunity) := executable]> (op_Candidates opportunity)))
  end.

(** ** The manager *)

Record Event := mkEvent {
  ev_Operation : OperationID; ev_Result : SequentialResult; ev_Err : option error; ev_RetryEvaluation : bool; ev_FromRetryEvaluation : bool }.

(** The goroutine of an operation: it executes, and then reports an event. *)
Inductive ManagerWorker :=
| Running (operation : OperationID) (plan : SequentialPlan)
| Reporting (event : Event)
| Finished.

(** [mg_events]: the buffered channel, which holds one event. *)
Record Manager (W : Type) := mkManager {
  mg_world : W; mg_active : bool; mg_closed : bool; mg_accepted : Z; mg_admission : option (SequentialPlan -> ST W unit);
  mg_events : list Event; mg_workers : list ManagerWorker }.
Arguments mkManager {W}. Arguments mg_world {W} _. Arguments mg_active {W} _. Arguments mg_closed {W} _. Arguments mg_accepted {W} _.
Arguments mg_admission {W} _. Arguments mg_events {W} _. Arguments mg_workers {W} _.

Record ManagerConfig (W : Type) := mkManagerConfig {
  mc_planner : Planner; mc_entropy : ST W string; mc_clock : ST W Time;
  mc_Execute : OperationID -> SequentialPlan -> W -> (SequentialResult * option error) * W; mc_maxOperations : Z }.
Arguments mkManagerConfig {W}. Arguments mc_planner {W} _. Arguments mc_entropy {W} _. Arguments mc_clock {W} _.
Arguments mc_Execute {W} _ _ _ _. Arguments mc_maxOperations {W} _.

Section manager.
Context {W : Type} {typed : TypedErrors} (m : ManagerConfig W).
Abbreviation Sys := (Manager W).

Definition NewManagerWithLimit (w : W) : res Sys :=
  if decide (unsized (mc_planner m)) then Err (Errorf "live manager requires positive execution units") else
  if decide (mc_maxOperations m < 0) then Err (Errorf "live manager operation limit cannot be negative") else
  Ok (mkManager w false false 0 None [] []).

Definition SetAdmission (admission : option (SequentialPlan -> ST W unit)) (s : Sys) : Sys :=
  mkManager (mg_world s) (mg_active s) (mg_closed s) (mg_accepted s) admission (mg_events s) (mg_workers s).

Definition set_world (w : W) (s : Sys) : Sys :=
  mkManager w (mg_active s) (mg_closed s) (mg_accepted s) (mg_admission s) (mg_events s) (mg_workers s).

(** The part of an offer under the lock, and the launch of the goroutine. *)
Definition admit_operation (operation : OperationID) (plan : SequentialPlan) : ST Sys bool := fun s =>
  if decide (mg_closed s = true \/ mg_active s = true \/ (0 < mc_maxOperations m /\ mc_maxOperations m <= mg_accepted s)) then (Ok false, s) else
  (Ok true, mkManager (mg_world s) true (mg_closed s) (if decide (0 < mc_maxOperations m) then mg_accepted s + 1 else mg_accepted s)
              (mg_admission s) (mg_events s) (mg_workers s ++ [Running operation plan])).

Definition Offer (opportunity : Opportunity) : ST Sys bool :=
  plan ← zoom mg_world set_world (Plan (mc_entropy m) (mc_clock m) (mc_planner m) opportunity);
  s ← get;
  _ ← match mg_admission s with Some admission => zoom mg_world set_world (admission plan) | None => mret tt end;
  operation ← zoom mg_world set_world (newOperationID (mc_entropy m));
  admit_operation operation plan.

(** No stage settled, and the failure is known not to have had its effect. *)
Definition retry_evaluation (outcome : SequentialResult * option error) : bool :=
  match outcome.2 with
  | Some err => bool_decide (sq_Settlements outcome.1 = []) && IsDefinitiveFailure err
  | None => false
  end.

Definition outcome_event (operation : OperationID) (plan : SequentialPlan) (outcome : SequentialResult * option error) : Event :=
  mkEvent operation outcome.1 outcome.2 (retry_evaluation outcome)
    (op_HasTrigger (p_Opportunity plan) && bool_decide (tr_Source (op_Trigger (p_Opportunity plan)) = "live/retry")).

(** One step of the [i]th goroutine; [done] says that the context has ended, for a
    report that is not received. *)
Definition worker_step (i : nat) (done : bool) (s : Sys) : Sys :=
  match mg_workers s !! i with
  | Some (Running operation plan) =>
      let '(outcome, w) := mc_Execute m operation plan (mg_world s) in
      let accepted := if decide (retry_evaluation outcome = true /\ 0 < mc_maxOperations m /\ 0 < mg_accepted s) then mg_accepted s - 1 else mg_accepted s in
      mkManager w false (mg_closed s) accepted (mg_admission s) (mg_events s)
        (<[i := if mg_closed s then Finished else Reporting (outcome_event operation plan outcome)]> (mg_workers s))
  | Some (Reporting event) =>
      if done then mkManager (mg_world s) (mg_active s) (mg_closed s) (mg_accepted s) (mg_admission s) (mg_events s) (<[i := Finished]> (mg_workers s)) else
      match mg_events s with
      | [] => mkManager (mg_world s) (mg_active s) (mg_closed s) (mg_accepted s) (mg_admission s) [event] (<[i := Finished]> (mg_workers s))
      | _ => s
      end
  | _ => s
  end.

Definition receive (s : Sys) : option Event * Sys :=
  (head (mg_events s), mkManager (mg_world s) (mg_active s) (mg_closed s) (mg_accepted s) (mg_admission s) (tail (mg_events s)) (mg_workers s)).

(** The manager is closed to offers; the wait for its goroutines is the caller's. *)
Definition Close (s : Sys) : Sys :=
  mkManager (mg_world s) (mg_active s) true (mg_accepted s) (mg_admission s) (mg_events s) (mg_workers s).
End manager.

(** ** What a plan commits to *)

Lemma Num_integer v : Denom v = 1 -> v = SetInt (Num v).
Proof.
  intros Hd. apply Qc_is_canon. unfold SetInt. cbn. rewrite Qred_correct. unfold Num, Denom in *. destruct v as [[n d] c]; cbn in *.
  unfold Qeq. cbn. lia.
Qed.

Lemma policy_plan_spec p id opportunity initial buyChain sellChain now plan :
  policy_plan p id opportunity initial buyChain sellChain now = Ok plan ->
  SequentialPlan_Validate plan = Ok tt /\ p_ID plan = id /\ p_Opportunity plan = opportunity /\ p_InitialInput plan = initial /\
  p_Policy plan = (if decide (pn_ExecutionPolicy p = "") then PolicyTransportedSequential else pn_ExecutionPolicy p) /\
  buyChain <> "" /\ sellChain <> "" /\ buyChain <> sellChain /\
  op_Classification opportunity = ClassificationPolicyQualified /\ Units initial <> 0.
Proof.
  unfold policy_plan. intros H.
  assert (exists t, NewSequentialPlan id opportunity initial buyChain sellChain now = Ok t) as [t Ht].
  { destruct (decide _) in H; [by eexists|]. destruct (decide _) in H.
    - unfold NewPrefundedSequentialPlan in H. apply bind_Ok in H as (t & Ht & _). by exists t.
    - destruct (decide _) in H; [|done]. apply bind_Ok in H as (q & Hq & _). unfold NewPrefundedParallelPlan in Hq.
      apply bind_Ok in Hq as (q' & Hq' & _). unfold NewPrefundedSequentialPlan in Hq'. apply bind_Ok in Hq' as (t & Ht & _). by exists t. }
  pose proof (transported_inv id opportunity initial buyChain sellChain now t Ht) as (c & Hc & ->).
  assert (Hin := Hc). destruct Hin as [_ _ Hq _ Hb Hs Hne Ham _ _ _ _].
  destruct (decide (pn_ExecutionPolicy p = "" \/ pn_ExecutionPolicy p = PolicyTransportedSequential)) as [Hp|Hp].
  - rewrite Ht in H. injection H as <-. split_and!; try done; [by apply transported_plan_valid|]. destruct (decide _); [done|]. by destruct Hp.
  - destruct (decide (pn_ExecutionPolicy p = PolicyPrefundedSequential)) as [Hp'|Hp'].
    + rewrite (prefunded_Ok _ _ _ _ _ _ c Hc) in H. injection H as <-. split_and!; try done; [by apply prefunded_plan_valid|].
      destruct (decide _) as [He|_]; [rewrite He in Hp'; done|done].
    + destruct (decide _) in H; [|done]. rewrite (parallel_Ok _ _ _ _ _ _ c Hc) in H. cbn [mbind res_bind] in H.
      destruct (decide _) in H; [done|]. apply bind_Ok in H as ([] & Hv & [= <-]). split_and!; try done. cbn [p_Policy]. destruct (decide _); tauto.
Qed.

(** A live plan commits to the selected candidate of a qualified opportunity and to
    the configured size and policy.  It validates; it spends, in the token of the
    candidate's purchase, the candidate's own input when that is in the grid of allowed
    amounts, or else exactly the configured amount, or else the configured units, and
    never nothing; and it runs between two different chains. *)
Theorem Plan_commits {W} (entropy : ST W string) (clock : ST W Time) p opportunity w plan w' :
  Plan entropy clock p opportunity w = (Ok plan, w') ->
  exists candidate, selected_candidate opportunity = Some candidate /\
    SequentialPlan_Validate plan = Ok tt /\ p_Opportunity plan = opportunity /\ op_Classification opportunity = ClassificationPolicyQualified /\
    p_Policy plan = (if decide (pn_ExecutionPolicy p = "") then PolicyTransportedSequential else pn_ExecutionPolicy p) /\
    pn_MarketChains p !! BuyMarket (op_Direction opportunity) <> pn_MarketChains p !! SellMarket (op_Direction opportunity) /\
    amount_token (p_InitialInput plan) = amount_token (q_AmountIn (cd_BuyQuote candidate)) /\ 0 < Units (p_InitialInput plan) /\
    (pn_AllowedExecutionAmounts p <> [] ->
       Units (p_InitialInput plan) = Units (q_AmountIn (cd_BuyQuote candidate)) /\ Some (Rat (cd_Input candidate)) ∈ pn_AllowedExecutionAmounts p) /\
    (pn_AllowedExecutionAmounts p = [] -> forall amount, pn_ExecutionAmount p = Some amount ->
       exists decimals, pn_TokenDecimals p !! amount_token (p_InitialInput plan) = Some decimals /\
         SetInt (Units (p_InitialInput plan)) = (amount * SetInt (10 ^ Z.of_N decimals))%Qc) /\
    (pn_AllowedExecutionAmounts p = [] -> pn_ExecutionAmount p = None -> pn_ExecutionUnits p = Some (Units (p_InitialInput plan))).
Proof.
  unfold Plan. destruct (decide (unsized p)); [done|]. destruct (selected_candidate opportunity) as [candidate|]; [|done].
  intros (units & w1 & Hunits & H)%st_bind_Ok. apply st_bind_Ok in H as (initial & w2 & Hinitial & H).
  apply st_bind_Ok in H as (id & w3 & _ & H). apply st_bind_Ok in H as (now & w4 & _ & H).
  injection Hunits as Hunits _. injection Hinitial as Hinitial _. injection H as H _.
  apply policy_plan_spec in H as (Hv & _ & Ho & Hi & Hp & Hb & Hs & Hne & Hq & Hnz). apply NewTokenAmount_inv in Hinitial as (Hwf & Ht & Hu).
  exists candidate. rewrite Hi, Ht. split_and!; try done.
  - intros Heq. by rewrite Heq in Hne.
  - apply amount_wf_Units in Hwf. lia.
  - intros Hall. unfold planned_units in Hunits. rewrite decide_True in Hunits by done. destruct (negb _) eqn:Hin in Hunits; [done|]. injection Hunits as <-.
    split; [unfold Units at 1; by rewrite Hu|]. apply negb_false_iff, existsb_exists in Hin as ([amount|] & Hin & Heq); [|done].
    apply list_elem_of_In in Hin. apply bool_decide_eq_true in Heq. unfold Rat_Cmp in Heq. destruct (Qccompare _ _) eqn:Hc; [|done..].
    apply Qceq_alt in Hc. by rewrite Hc.
  - intros Hall amount Ham. unfold planned_units in Hunits. rewrite decide_False in Hunits by tauto. rewrite Ham in Hunits.
    destruct (pn_TokenDecimals p !! _) as [decimals|]; [|done]. exists decimals. split; [done|]. cbv zeta in Hunits.
    destruct (decide _) as [|Hd] in Hunits; [done|]. injection Hunits as <-. unfold Units. rewrite Hu. cbn. symmetry. apply Num_integer. by apply dec_stable.
  - intros Hall Ham. unfold planned_units in Hunits. rewrite decide_False in Hunits by tauto. rewrite Ham in Hunits. injection Hunits as <-.
    destruct Hwf as (_ & u & Hsome & _). unfold Units. by rewrite <- Hu, Hsome.
Qed.

(** ** One operation at a time *)

Record Execution := mkExecution { xc_operation : OperationID; xc_plan : SequentialPlan; xc_outcome : SequentialResult * option error }.

Section limits.
Context {W : Type} {typed : TypedErrors} (log : W -> list Execution) (m : ManagerConfig W).
Implicit Types s : Manager W.

(** What is assumed of the world: an execution is noted, and planning notes nothing. *)
Record executor_laws : Prop := {
  el_execute : forall operation plan w, let '(outcome, w') := mc_Execute m operation plan w in log w' = log w ++ [mkExecution operation plan outcome];
  el_entropy : Still log (mc_entropy m);
  el_clock : Still log (mc_clock m) }.
Context (laws : executor_laws).

Inductive manager_call :=
| MOffer (opportunity : Opportunity) | MWorker (i : nat) (done : bool) | MReceive | MClose
| MSetAdmission (admission : option (SequentialPlan -> ST W unit)) | MWorld (f : W -> W).

Definition perform (c : manager_call) s : Manager W :=
  match c with
  | MOffer opportunity => (Offer m opportunity s).2
  | MWorker i done => worker_step m i done s
  | MReceive => (receive s).2
  | MClose => Close s
  | MSetAdmission admission => SetAdmission admission s
  | MWorld f => set_world (f (mg_world s)) s
  end.

(** Neither the admission nor the rest of the world executes operations. *)
Definition aside (c : manager_call) : Prop :=
  match c with
  | MSetAdmission (Some admission) => forall plan, Still log (admission plan)
  | MWorld f => forall w, log (f w) = log w
  | _ => True
  end.

Inductive manager_history : Manager W -> Prop :=
| manager_new w s : log w = [] -> NewManagerWithLimit m w = Ok s -> manager_history s
| manager_called s c : manager_history s -> aside c -> manager_history (perform c s).

Definition is_running (worker : ManagerWorker) : Prop := match worker with Running _ _ => True | _ => False end.
#[local] Instance is_running_dec worker : Decision (is_running worker).
Proof using Type. destruct worker; apply _. Defined.
Definition running s : list ManagerWorker := filter is_running (mg_workers s).

(** An execution that counts against the limit: it may have had an effect. *)
Definition retained (x : Execution) : Prop := retry_evaluation (xc_outcome x) = false.

Definition plans_valid (workers : list ManagerWorker) : Prop :=
  Forall (fun worker => match worker with Running _ plan => SequentialPlan_Validate plan = Ok tt | _ => True end) workers.

Record managed s : Prop := {
  md_running : length (running s) = if mg_active s then 1%nat else 0%nat;
  md_accepted : 0 < mc_maxOperations m ->
    mg_accepted s = Z.of_nat (length (filter retained (log (mg_world s)))) + (if mg_active s then 1 else 0) /\ mg_accepted s <= mc_maxOperations m;
  md_workers : plans_valid (mg_workers s);
  md_executed : Forall (fun x => SequentialPlan_Validate (xc_plan x) = Ok tt) (log (mg_world s));
  md_admission : forall admission, mg_admission s = Some admission -> forall plan, Still log (admission plan) }.

(** A step that leaves the log and the counters alone keeps the invariant. *)
Lemma managed_same s s' : managed s -> mg_active s' = mg_active s -> mg_accepted s' = mg_accepted s -> log (mg_world s') = log (mg_world s) ->
  running s' = running s -> plans_valid (mg_workers s') -> (forall admission, mg_admission s' = Some admission -> forall plan, Still log (admission plan)) -> managed s'.
Proof using Type. intros [Hr Ha Hw Hx _] E1 E2 E3 E4 Hw' Ham. split; rewrite ?E1, ?E2, ?E3, ?E4; done. Qed.

Lemma running_finished s i worker : mg_workers s !! i = Some worker -> ~ is_running worker -> forall worker', ~ is_running worker' ->
  filter is_running (<[i := worker']> (mg_workers s)) = running s.
Proof using Type.
  intros Hi Hn worker' Hn'. unfold running. revert i Hi. induction (mg_workers s) as [|w l IH]; intros [|i] Hi; [done..| |]; cbn [lookup list_lookup] in Hi.
  - injection Hi as ->. change (<[0%nat := worker']> (worker :: l)) with (worker' :: l). by rewrite !filter_cons_False.
  - change (<[S i := worker']> (w :: l)) with (w :: <[i := worker']> l). rewrite !filter_cons, IH by done. done.
Qed.

Lemma running_removed (l : list ManagerWorker) i worker worker' : l !! i = Some worker -> is_running worker -> ~ is_running worker' ->
  length (filter is_running l) = S (length (filter is_running (<[i := worker']> l))).
Proof using Type.
  intros Hi Hr Hn. revert i Hi. induction l as [|w l IH]; intros [|i] Hi; [done..| |]; cbn [lookup list_lookup] in Hi.
  - injection Hi as ->. change (<[0%nat := worker']> (worker :: l)) with (worker' :: l). by rewrite filter_cons_True, filter_cons_False.
  - change (<[S i := worker']> (w :: l)) with (w :: <[i := worker']> l). rewrite !filter_cons. destruct (decide _); rewrite ?length_cons; by rewrite (IH i).
Qed.

Lemma zoom_world_spec {A} (call : ST W A) s : Still log call ->
  exists w', (zoom mg_world set_world call s).2 = set_world w' s /\ log w' = log (mg_world s).
Proof using Type. intros Hc. unfold zoom. specialize (Hc (mg_world s)). destruct (call (mg_world s)) as [r w']. by exists w'. Qed.

Lemma Plan_still opportunity : Still log (Plan (mc_entropy m) (mc_clock m) (mc_planner m) opportunity).
Proof using laws.
  unfold Plan. destruct (decide _); [apply Still_fail|]. destruct (selected_candidate opportunity) as [candidate|]; [|apply Still_fail]. cbv zeta.
  repeat (apply Still_bind; [first [apply Still_lift|apply (el_clock laws)|unfold randomIdentity; apply Still_bind; [apply (el_entropy laws)|intros; apply Still_mret]]|intros]).
  apply Still_lift.
Qed.

Lemma managed_world s w : managed s -> log w = log (mg_world s) -> managed (set_world w s).
Proof using Type. intros Hs Hl. apply (managed_same s); try done; apply Hs. Qed.

Lemma managed_admit operation plan s : managed s -> SequentialPlan_Validate plan = Ok tt -> managed (admit_operation m operation plan s).2.
Proof using Type.
  intros Hs Hv. unfold admit_operation. destruct (decide _) as [|Hn]; [done|]. cbn [snd]. destruct Hs as [Hr Ha Hw Hx Ham].
  assert (mg_active s = false) as Hact by (destruct (mg_active s); tauto). rewrite Hact in Hr, Ha. split; cbn [mg_active mg_accepted mg_world mg_workers mg_admission]; try done.
  - unfold running in *. cbn [mg_workers]. rewrite filter_app, length_app, Hr. done.
  - intros Hmax. destruct (Ha Hmax) as [Heq Hle]. rewrite decide_True by done. lia.
  - apply Forall_app. split; [done|]. by constructor.
Qed.

Lemma Plan_valid opportunity w plan w' : Plan (mc_entropy m) (mc_clock m) (mc_planner m) opportunity w = (Ok plan, w') -> SequentialPlan_Validate plan = Ok tt.
Proof using Type.
  unfold Plan. destruct (decide (unsized _)); [done|]. destruct (selected_candidate opportunity) as [candidate|]; [|done].
  intros (units & w1 & _ & H)%st_bind_Ok. apply st_bind_Ok in H as (initial & w2 & _ & H).
  apply st_bind_Ok in H as (id & w3 & _ & H). apply st_bind_Ok in H as (now & w4 & _ & H). injection H as H _. by apply policy_plan_spec in H as (Hv & _).
Qed.

(** [Safe c Q]: the call [c] keeps the invariant, and [Q] holds of what it returns. *)
Definition Safe {A} (c : ST (Manager W) A) (Q : A -> Prop) : Prop :=
  forall s, managed s -> managed (c s).2 /\ forall a, (c s).1 = Ok a -> Q a.

Lemma Safe_bind {A B} (c : ST (Manager W) A) (f : A -> ST (Manager W) B) (Q : A -> Prop) (R : B -> Prop) :
  Safe c Q -> (forall a, Q a -> Safe (f a) R) -> Safe (c ≫= f) R.
Proof using Type.
  intros Hc Hf s Hs. destruct (Hc s Hs) as [H1 H2]. unfold mbind, st_bind. destruct (c s) as [[a|e|why] s']; cbn in *; [|done..].
  by apply Hf; [apply H2|].
Qed.

Lemma Safe_world {A} (call : ST W A) (Q : A -> Prop) : Still log call -> (forall w a, (call w).1 = Ok a -> Q a) -> Safe (zoom mg_world set_world call) Q.
Proof using Type.
  intros Hc HQ s Hs. unfold zoom. specialize (Hc (mg_world s)). specialize (HQ (mg_world s)). destruct (call (mg_world s)) as [r w']; cbn in *.
  split; [by apply managed_world|done].
Qed.

Lemma managed_offer opportunity s : managed s -> managed (Offer m opportunity s).2.
Proof using laws.
  intros Hs. assert (Safe (Offer m opportunity) (fun _ => True)) as H; [|by apply H].
  eapply Safe_bind; [apply (Safe_world _ (fun plan => SequentialPlan_Validate plan = Ok tt)); [apply Plan_still|]|].
  { intros w plan Hp. destruct (Plan _ _ _ opportunity w) as [r w'] eqn:He. cbn in Hp. subst r. by eapply Plan_valid. }
  intros plan Hv. eapply (Safe_bind _ _ (fun s => forall admission, mg_admission s = Some admission -> forall plan, Still log (admission plan))).
  { intros s1 H1. split; [done|]. intros ? [= <-]. apply H1. }
  intros s1 Ham. eapply (Safe_bind _ _ (fun _ => True)).
  { destruct (mg_admission s1) as [admission|]; [apply Safe_world; [by apply Ham|done]|]. intros s2 H2. done. }
  intros _ _. eapply (Safe_bind _ _ (fun _ => True)).
  { apply Safe_world; [|done]. apply Still_bind; [apply (el_entropy laws)|intros; apply Still_mret]. }
  intros operation _ s2 H2. split; [by apply managed_admit|done].
Qed.

Lemma plans_valid_insert workers i worker : plans_valid workers -> ~ is_running worker -> plans_valid (<[i := worker]> workers).
Proof using Type. intros Hw Hn. apply Forall_insert; [done|]. by destruct worker. Qed.

Lemma managed_worker i done s : managed s -> managed (worker_step m i done s).
Proof using laws.
  intros Hs. unfold worker_step. destruct (mg_workers s !! i) as [[operation plan|event|]|] eqn:Hi; [| |done..].
  - pose proof (el_execute laws operation plan (mg_world s)) as Hl. destruct (mc_Execute m operation plan (mg_world s)) as [outcome w].
    destruct Hs as [Hr Ha Hw Hx Ham]. set (after := if mg_closed s then _ else _). assert (~ is_running after) as Hafter by (unfold after; destruct (mg_closed s); by intros []).
    pose proof (running_removed (mg_workers s) i _ after Hi I Hafter) as Hlen. fold (running s) in Hlen. rewrite Hr in Hlen.
    destruct (mg_active s); [|done]. injection Hlen as Hlen. split; cbn [mg_active mg_accepted mg_world mg_workers mg_admission]; try done.
    + intros Hmax. destruct (Ha Hmax) as [Heq Hle]. rewrite Hl, filter_app, length_app. rewrite filter_cons, filter_nil.
      destruct (decide (retained _)) as [Hre|Hre]; unfold retained in Hre; cbn [xc_outcome] in Hre.
      * rewrite decide_False by (rewrite Hre; by intros [? _]). cbn [length]. lia.
      * rewrite decide_True by (destruct (retry_evaluation outcome); [lia|done]). cbn [length]. lia.
    + by apply plans_valid_insert.
    + rewrite Hl. apply Forall_app. split; [done|]. constructor; [|constructor]. unfold plans_valid in Hw. rewrite Forall_lookup in Hw. by apply (Hw i _ Hi).
  - assert (forall worker events, ~ is_running worker ->
      managed (mkManager (mg_world s) (mg_active s) (mg_closed s) (mg_accepted s) (mg_admission s) events (<[i := worker]> (mg_workers s)))) as Hend.
    { intros worker events Hn. apply (managed_same s); try done; cbn [mg_workers mg_admission].
      - unfold running at 1. cbn [mg_workers]. by apply (running_finished s i (Reporting event)); [|intros []|].
      - apply plans_valid_insert; [apply Hs|done].
      - apply Hs. }
    destruct done; [apply Hend; by intros []|]. destruct (mg_events s); [apply Hend; by intros []|done].
Qed.

Lemma history_managed s : manager_history s -> managed s.
Proof using laws.
  induction 1 as [w s Hw Hnew|s c _ IH Hc].
  - unfold NewManagerWithLimit in Hnew. destruct (decide _) in Hnew; [done|]. destruct (decide _) in Hnew; [done|]. injection Hnew as <-.
    split; cbn [mg_active mg_accepted mg_world mg_workers mg_admission]; try done; [|constructor|rewrite Hw; constructor].
    intros Hmax. rewrite Hw. cbn. lia.
  - destruct c as [opportunity|i done| | |admission|f]; cbn [perform] in *.
    + by apply managed_offer.
    + by apply managed_worker.
    + apply (managed_same s); try done; apply IH.
    + apply (managed_same s); try done; apply IH.
    + apply (managed_same s); try done; [apply IH|]. cbn [mg_admission SetAdmission]. by intros ? ->.
    + by apply managed_world.
Qed.

(** C11.One operation at a time, and no more than the limit.  Whatever the order of the
    offers, the steps of the goroutines and the other calls: at most one goroutine
    executes, and exactly while the manager is active; under a limit the executions that
    may have had an effect, together with the one that is running, never exceed it;
    every plan that was executed validates; and an offer is accepted only by a manager
    that is neither closed nor active. *)
Theorem operations_limited s : manager_history s ->
  (length (running s) <= 1)%nat /\ (mg_active s = true <-> running s <> []) /\
  (0 < mc_maxOperations m -> Z.of_nat (length (filter retained (log (mg_world s))) + length (running s)) <= mc_maxOperations m) /\
  Forall (fun x => SequentialPlan_Validate (xc_plan x) = Ok tt) (log (mg_world s)) /\
  (forall opportunity s', Offer m opportunity s = (Ok true, s') -> mg_closed s = false /\ running s = [] /\ length (running s') = 1%nat).
Proof using laws.
  intros H. pose proof (history_managed s H) as Hs. destruct Hs as [Hr Ha _ Hx _]. split_and!; try done.
  - destruct (mg_active s); lia.
  - destruct (mg_active s), (running s); try done; split; done.
  - intros Hmax. destruct (Ha Hmax) as [Heq Hle]. rewrite Hr. destruct (mg_active s); lia.
  - intros opportunity s' Ho. pose proof (managed_offer opportunity s (history_managed s H)) as Hs'. rewrite Ho in Hs'. cbn [snd] in Hs'.
    unfold Offer in Ho. apply st_bind_Ok in Ho as (plan & s1 & H1 & Ho). apply st_bind_Ok in Ho as (s1' & s2 & [= <- <-] & Ho).
    apply st_bind_Ok in Ho as ([] & s3 & H3 & Ho). apply st_bind_Ok in Ho as (operation & s4 & H4 & Ho).
    assert (forall A (call : ST W A) r t t', zoom mg_world set_world call t = (r, t') -> mg_active t' = mg_active t /\ mg_closed t' = mg_closed t /\ mg_workers t' = mg_workers t) as Hz.
    { intros A call r t t' Hc. unfold zoom in Hc. destruct (call _) as [? ?]. by injection Hc as _ <-. }
    apply Hz in H1 as (Ha1 & Hc1 & Hw1). apply Hz in H4 as (Ha4 & Hc4 & Hw4).
    assert (mg_active s3 = mg_active s1 /\ mg_closed s3 = mg_closed s1 /\ mg_workers s3 = mg_workers s1) as (Ha3 & Hc3 & Hw3).
    { destruct (mg_admission s1); [by apply Hz in H3|]. by injection H3 as <-. }
    unfold admit_operation in Ho. destruct (decide _) as [|Hn] in Ho; [done|]. injection Ho as <-.
    destruct Hs' as [Hr' _ _ _ _]. cbn [mg_active] in Hr'. split_and!; [destruct (mg_closed s4) eqn:?; [tauto|congruence]| |done].
    destruct (running s) eqn:Hrun; [done|]. exfalso. apply Hn. right. left. destruct (mg_active s) eqn:?; [congruence|]. cbn in Hr. lia.
Qed.
End limits.

(** ** Witnesses: an operation of the configured grid, under a limit of one *)

Module ManagerWitness.
Import SequentialWitness.

#[local] Instance typed : TypedErrors :=
  {| NewStageError disposition e := Joined [Sentinel disposition; e];
     As_StageError := fix as_stage e := match e with Wrapf _ e => as_stage e | Joined [Sentinel disposition; _] => Some (mkStageError disposition []) | _ => None end;
     As_RecoveryError _ := None; As_SimulationInvariant _ := None; As_NewStageError _ _ := eq_refl; As_Wrapf _ _ := eq_refl |}.

Definition planner : Planner :=
  mkPlanner {["m1" := "base"; "m2" := "solana"]} None None [Some (SetInt 3); Some (SetInt 1)] PolicyPrefundedSequential "ETH" "USD" ∅.
Definition world : Type := list Execution.
Definition entropy : ST world string := mret "00ff".
Definition clock : ST world Time := mret 7.
Definition nothing : AssetQuantity := mkAssetQuantity "" None.
Definition done_result (operation : OperationID) : SequentialResult :=
  mkSequentialResult operation (amount "usdc" 9) None [] [] nothing nothing nothing nothing nothing nothing nothing None "" "".
(** The executor reports a timeout, which may have had an effect. *)
Definition outcome (operation : OperationID) : SequentialResult * option error := (done_result operation, Some (Errorf "timeout")).
Definition config : ManagerConfig world := mkManagerConfig planner entropy clock
  (fun operation plan w => (outcome operation, w ++ [mkExecution operation plan (outcome operation)])) 1.

Definition planned : res SequentialPlan := (Plan entropy clock planner opportunity []).1.

Lemma plan_witness : exists plan, planned = Ok plan /\ SequentialPlan_Validate plan = Ok tt /\ Units (p_InitialInput plan) = 1000.
Proof.
  assert (exists plan, Plan entropy clock planner opportunity [] = (Ok plan, [])) as [plan Hplan] by (eexists; vm_compute; reflexivity).
  exists plan. split; [unfold planned; by rewrite Hplan|].
  destruct (Plan_commits entropy clock planner opportunity [] plan [] Hplan) as (c & Hc & Hv & _ & _ & _ & _ & _ & _ & Hgrid & _).
  split; [exact Hv|]. destruct Hgrid as [Hu _]; [discriminate|]. rewrite Hu. vm_compute in Hc. injection Hc as <-. reflexivity.
Defined.

Definition created : Manager world := mkManager [] false false 0 None [] [].
Definition after : Manager world := perform config (MWorker 0 false) (perform config (MOffer opportunity) created).

Lemma config_laws : executor_laws id config.
Proof. split; [done|by intros w..]. Qed.

Lemma history_reached : manager_history id config after.
Proof.
  apply manager_called; [|done]. apply manager_called; [|done]. apply (manager_new _ _ []); [done|]. vm_compute. reflexivity.
Qed.

Lemma limited_witness : length (mg_world after) = 1%nat /\
  Z.of_nat (length (filter (fun x => retry_evaluation (xc_outcome x) = false) (mg_world after : list Execution)) + length (running after)) <= 1.
Proof.
  split; [vm_compute; reflexivity|].
  exact (proj1 (proj2 (proj2 (operations_limited id config config_laws after history_reached))) eq_refl).
Defined.
End ManagerWitness.
