(* ===== verification/LiveEngine.v ===== *)
(** * The live engine (src/core/live/engine.go)

    Discovery, executable validation, revaluation and execution of one live
    opportunity, composed from the evaluator (LiveEvaluator), the planner and the
    executor (Saga).  Validators and the cost estimator are ports: functions of
    their request, whose answers are arbitrary.  Theorem: the engine sends
    transactions only for an opportunity that is profitable when valued at the
    validated quotes and the final cost, and leaves the inventory, the gate and the
    network untouched in every other case; the best opportunity of a batch is the one
    with the greatest net result.  [ValidationTiming] only measures durations and is
    left out; the two clock readings the executor makes are taken before its call. *)
From Stdlib Require Import QArith Qcanon.
From S2P Require Import Prelude Amount Quote Registry Pools Arbitrage Allocation Inventory Execution LiveEvaluator Saga.
Local Open Scope Z_scope.

Record ValidationRequest (D : Type) := mkValidationRequest {
  vr_Operation : OperationID; vr_Leg : Leg; vr_Discovery : Quote; vr_Snapshot : option (MarketSnapshot D);
  vr_RequestedAt : Time }.
Arguments mkValidationRequest {D}.
Arguments vr_Operation {D}. Arguments vr_Leg {D}. Arguments vr_Discovery {D}. Arguments vr_Snapshot {D}.
Arguments vr_RequestedAt {D}.

Record CostRequest := mkCostRequest {
  cr_Opportunity : LiveOpportunity; cr_Artifacts : gmap StepID Artifact; cr_RequestedAt : Time }.

Record Result := mkResult {
  re_Discovery : LiveOpportunity; re_Validated : option LiveOpportunity; re_Artifacts : gmap StepID Artifact;
  re_Execution : option ExecutionResult; re_ValidationAbort : bool }.

Record BatchResult := mkBatchResult {
  ba_Discoveries : list LiveOpportunity; ba_Selected : Z; ba_Result : option Result }.

Section engine.
Context {D St W : Type} {store : OperationalStore St} {managers : TxManagers} {order : RangeOrder Key}.

(** [EngineConfig]; the configuration of its executor comes with it. *)
Record EngineConfig := mkEngineConfig {
  en_Evaluator : LiveEvaluator D; en_Planner : gmap MarketID LegBinding; en_Executor : ExecutorConfig;
  en_Validators : gmap MarketID (ValidationRequest D -> res Artifact); en_Costs : CostRequest -> res AssetQuantity;
  en_DryRun : bool }.

(** The clock, the identifier source and the context outside the program. *)
Context (config : EngineConfig) (clock : W -> Time * W) (newID : string -> W -> string * W) (ctx_Err : W -> option error).

Abbreviation State := (World St * W)%type (only parsing).

Definition read_clock : ST State Time := fun '(s, w) => let '(time, w') := clock w in (Ok time, (s, w')).
Definition fresh_id (prefix : string) : ST State string := fun '(s, w) => let '(id, w') := newID prefix w in (Ok id, (s, w')).
Definition on_world {A} (m : ST (World St) A) : ST State A := zoom fst (fun s t => (s, t.2)) m.
Definition cancelled : ST State (option error) := fun t => (Ok (ctx_Err t.2), t).

(** [New]: what must be given, the armed executor included. *)
Definition New (evaluator planner costs clock_given ids executor : bool) : res unit :=
  if decide (evaluator = false \/ planner = false \/ (size (en_Validators config) < 2)%nat \/ costs = false \/
             clock_given = false \/ ids = false)
  then Err (Errorf "live engine requires evaluator, planner, executor, validators, clock, and ID source") else
  if decide (en_DryRun config = false /\ executor = false)
  then Err (Errorf "armed live engine requires a saga executor") else Ok tt.

(** *** Validation *)

Definition leg_quote (opportunity : LiveOpportunity) (leg : Leg) : Quote :=
  if decide (leg_Side leg = LegSell) then lo_SellQuote opportunity else lo_BuyQuote opportunity.

(** One goroutine. *)
Definition validate_leg (operationID : OperationID) (opportunity : LiveOpportunity) (request : LiveEvaluationRequest D)
    (validator : ValidationRequest D -> res Artifact) (leg : Leg) : ST State (StepID * res Artifact) :=
  requestedAt ← read_clock;
  mret (leg_ID leg, validator (mkValidationRequest operationID leg (leg_quote opportunity leg)
                                 (lr_Snapshots request !! leg_Market leg) requestedAt)).

Definition start_leg (operationID : OperationID) (opportunity : LiveOpportunity) (request : LiveEvaluationRequest D)
    (outcomes : list (StepID * res Artifact)) (leg : Leg) : ST State (list (StepID * res Artifact)) :=
  match en_Validators config !! leg_Market leg with
  | None => fail "no validator for market %q"
  | Some validator =>
      outcome ← validate_leg operationID opportunity request validator leg;
      mret (outcomes ++ [outcome])
  end.

(** The artifacts of the goroutines that succeeded; the first failure wins. *)
Definition collect_artifact (artifacts : gmap StepID Artifact) (outcome : StepID * res Artifact) : res (gmap StepID Artifact) :=
  artifact ← outcome.2;
  Ok (<[outcome.1 := artifact]> artifacts).

Definition validate (operationID : OperationID) (plan : SagaPlan) (opportunity : LiveOpportunity)
    (request : LiveEvaluationRequest D) : ST State (gmap StepID Artifact) :=
  outcomes ← foldST (start_leg operationID opportunity request) [] (plan_legs plan);
  if existsb (fun outcome => is_panic outcome.2) outcomes then lift (Panic "panic in goroutine")
  else lift (foldM collect_artifact ∅ outcomes).

(** *** Execution of a discovery *)

Definition with_cost (request : LiveEvaluationRequest D) (cost : AssetQuantity) : LiveEvaluationRequest D :=
  mkLiveEvaluationRequest (lr_ID request) (lr_Direction request) (lr_Snapshots request) (lr_Notional request)
    (lr_Valuation request) cost (lr_Threshold request) (lr_MaximumCost request) (lr_MaximumBaseExposure request)
    (lr_TriggeredAt request) (lr_QuoteConversion request).

Definition set_abort (r : Result) : Result :=
  mkResult (re_Discovery r) (re_Validated r) (re_Artifacts r) (re_Execution r) true.
Definition set_validated (r : Result) (validated : LiveOpportunity) (artifacts : gmap StepID Artifact) : Result :=
  mkResult (re_Discovery r) (Some validated) artifacts (re_Execution r) (re_ValidationAbort r).
Definition set_execution (r : Result) (executed : ExecutionResult) : Result :=
  mkResult (re_Discovery r) (re_Validated r) (re_Artifacts r) (Some executed) (re_ValidationAbort r).

(** The body of the loop: it returns, or goes round again. *)
Inductive attempt_end := Return (result : Result) (err : option error) | Again (result : Result).

(** A missing entry of the artifacts is the zero artifact. *)
Definition validated_quote (artifacts : gmap StepID Artifact) (id : StepID) : Quote :=
  art_ValidatedQuote (default Artifact_zero (artifacts !! id)).

Definition execute_validated (planID : PlanID) (operationID : OperationID) (validated : LiveOpportunity)
    (artifacts : gmap StepID Artifact) (result : Result) : ST State attempt_end :=
  plannedAt ← read_clock;
  match Plan (en_Planner config) planID validated plannedAt with
  | Err e => mret (Return result (Some e))
  | Panic why => lift (Panic why)
  | Ok plan =>
      now ← read_clock;
      committedAt ← read_clock;
      '(executed, executionErr) ← on_world (Execute (en_Executor config) operationID plan artifacts now committedAt);
      if (match executionErr with Some e => errors_Is e "ErrArtifactTooOld" | None => false end) then
        cause ← cancelled;
        match cause with
        | Some e => mret (Return result (Some e))
        | None => mret (Again result)
        end
      else mret (Return (set_execution result executed) executionErr)
  end.

Definition attempt (request : LiveEvaluationRequest D) (discovery : LiveOpportunity) (result : Result) : ST State attempt_end :=
  planID ← fresh_id "plan";
  operationID ← fresh_id "operation";
  plannedAt ← read_clock;
  match Plan (en_Planner config) planID discovery plannedAt with
  | Err e => mret (Return result (Some e))
  | Panic why => lift (Panic why)
  | Ok discoveryPlan =>
      artifacts ← try (validate operationID discoveryPlan discovery request);
      match artifacts with
      | Err _ => mret (Return (set_abort result) None)
      | Panic why => lift (Panic why)
      | Ok artifacts =>
          requestedAt ← read_clock;
          match en_Costs config (mkCostRequest discovery artifacts requestedAt) with
          | Err _ => mret (Return (set_abort result) None)
          | Panic why => lift (Panic why)
          | Ok finalCost =>
              validatedAt ← read_clock;
              now ← read_clock;
              match Value (en_Evaluator config) now (with_cost request finalCost) (validated_quote artifacts "buy")
                      (validated_quote artifacts "sell") validatedAt with
              | Err e => mret (Return result (Some e))
              | Panic why => lift (Panic why)
              | Ok validated =>
                  let result := set_validated result validated artifacts in
                  if negb (Profitable validated) then mret (Return result None) else
                  if en_DryRun config then mret (Return result None) else
                  execute_validated planID operationID validated artifacts result
              end
          end
      end
  end.

(** The loop ends when an attempt returns; [None] stands for a run of more than
    [fuel] attempts, each refused because its artifacts were too old. *)
Fixpoint attempts (fuel : nat) (request : LiveEvaluationRequest D) (discovery : LiveOpportunity) (result : Result) :
    ST State (option (Result * option error)) :=
  match fuel with
  | O => mret None
  | S fuel =>
      ended ← attempt request discovery result;
      match ended with
      | Return result err => mret (Some (result, err))
      | Again result => attempts fuel request discovery result
      end
  end.

Definition executeDiscovered (fuel : nat) (request : LiveEvaluationRequest D) (discovery : LiveOpportunity) :
    ST State (option (Result * option error)) :=
  let result := mkResult discovery None ∅ None false in
  if Profitable discovery then attempts fuel request discovery result else mret (Some (result, None)).

Definition Engine_Evaluate (fuel : nat) (request : LiveEvaluationRequest D) : ST State (option (Result * option error)) :=
  quotedAt ← read_clock;
  now ← read_clock;
  match Live_Evaluate (en_Evaluator config) quotedAt now request with
  | Ok discovery => executeDiscovered fuel request discovery
  | Err e => lift (Err e)
  | Panic why => lift (Panic why)
  end.

(** *** Batches *)

(** The loop that selects the best profitable discovery; [-1] for none. *)
Definition select_step (discoveries : list LiveOpportunity) (selected : Z) (entry : nat * LiveOpportunity) : res Z :=
  if negb (Profitable entry.2) then Ok selected else
  if decide (selected < 0) then Ok (Z.of_nat entry.1) else
  match discoveries !! Z.to_nat selected with
  | None => Panic "index out of range"
  | Some best =>
      comparison ← AssetQuantity_Cmp (lo_NetPnL entry.2) (lo_NetPnL best);
      if decide (0 < comparison) then Ok (Z.of_nat entry.1) else Ok selected
  end.

Definition select_best (discoveries : list LiveOpportunity) : res Z :=
  foldM (select_step discoveries) (-1) (imap pair discoveries).

(** One goroutine per request, each with its two clock readings. *)
Definition discover (request : LiveEvaluationRequest D) : ST State (res LiveOpportunity) :=
  quotedAt ← read_clock;
  now ← read_clock;
  mret (Live_Evaluate (en_Evaluator config) quotedAt now request).

Definition discover_into (outcomes : list (res LiveOpportunity)) (request : LiveEvaluationRequest D) :
    ST State (list (res LiveOpportunity)) :=
  outcome ← discover request; mret (outcomes ++ [outcome]).

Definition EvaluateBatch (fuel : nat) (requests : list (LiveEvaluationRequest D)) :
    ST State (option (BatchResult * option error)) :=
  if decide (requests = []) then fail "live batch requires evaluation requests" else
  outcomes ← foldST discover_into [] requests;
  discoveries ← lift (wait_all outcomes);
  selected ← lift (select_best discoveries);
  match (if decide (selected < 0) then None else
         request ← requests !! Z.to_nat selected; discovery ← discoveries !! Z.to_nat selected; Some (request, discovery)) with
  | None => mret (Some (mkBatchResult discoveries selected None, None))
  | Some (request, discovery) =>
      executed ← executeDiscovered fuel request discovery;
      mret (match executed with
            | Some (result, err) => Some (mkBatchResult discoveries selected (Some result), err)
            | None => None
            end)
  end.
End engine.

(** ** What the engine does *)

Section engine_facts.
Context {D St W : Type} {store : OperationalStore St} {managers : TxManagers} {order : RangeOrder Key}.
Context (config : EngineConfig (D := D)) (clock : W -> Time * W) (newID : string -> W -> string * W) (ctx_Err : W -> option error).
Abbreviation State := (World St * W)%type (only parsing).

(** The transaction managers of the planner's accounts and the store answer, and
    the errors of the store are its own. *)
Hypothesis Hports : forall id o now plan, Plan (en_Planner config) id o now = Ok plan -> ports_total plan.
Hypothesis Hforeign : forall e, after_commit_error e -> errors_Is e "ErrArtifactTooOld" = false.

(** The inventory, the gate and what was broadcast are as before. *)
Definition untouched (w w' : World St) : Prop := exists st, w' = set_store st w.

Lemma untouched_refl w : untouched w w.
Proof using. exists (w_store w). by destruct w. Qed.
Lemma untouched_trans w1 w2 w3 : untouched w1 w2 -> untouched w2 w3 -> untouched w1 w3.
Proof using. intros [s1 ->] [s2 ->]. by exists s2. Qed.

(** How a run for a discovery ends. *)
Inductive engine_ends (request : LiveEvaluationRequest D) (w : World St) : Result -> option error -> World St -> Prop :=
| ends_quiet result err w' :
    re_Execution result = None -> untouched w w' -> engine_ends request w result err w'
| ends_executed result err w0 w' cost validated now validatedAt planID operationID plannedAt plan executed :
    en_DryRun config = false -> re_Validated result = Some validated -> re_Execution result = Some executed ->
    Value (en_Evaluator config) now (with_cost request cost) (validated_quote (re_Artifacts result) "buy")
      (validated_quote (re_Artifacts result) "sell") validatedAt = Ok validated ->
    Profitable validated = true -> Plan (en_Planner config) planID validated plannedAt = Ok plan ->
    untouched w w0 -> execute_outcome operationID plan (re_Artifacts result) w0 executed err w' ->
    engine_ends request w result err w'.

(** Calls outside the program leave it as it is. *)
Definition outside {A} (m : ST State A) : Prop := forall s, (m s).2.1 = s.1.

Lemma outside_clock : outside (read_clock clock).
Proof using. intros [w t]. unfold read_clock. by destruct (clock t). Qed.
Lemma outside_fresh prefix : outside (fresh_id newID prefix).
Proof using. intros [w t]. unfold fresh_id. by destruct (newID prefix t). Qed.
Lemma outside_ret {A} (a : A) : outside (mret a).
Proof using. by intros s. Qed.
Lemma outside_lift {A} (m : res A) : outside (lift m).
Proof using. by intros s. Qed.
Lemma outside_bind {A B} (m : ST State A) (f : A -> ST State B) : outside m -> (forall a, outside (f a)) -> outside (m ≫= f).
Proof using.
  intros Hm Hf s. specialize (Hm s). unfold mbind, st_bind. destruct (m s) as [[a|e|why] s']; cbn in *; [|done..].
  by rewrite Hf.
Qed.
Lemma outside_foldST {A B} (f : B -> A -> ST State B) b l : (forall b a, outside (f b a)) -> outside (foldST f b l).
Proof using.
  intros Hf. revert b. induction l as [|a l IH]; intros b s; cbn; [done|]. specialize (Hf b a s).
  destruct (f b a s) as [[b'|e|why] s']; cbn in *; [|done..]. by rewrite IH.
Qed.
Lemma outside_try {A} (m : ST State A) : outside m -> outside (try m).
Proof using. intros Hm s. specialize (Hm s). unfold try. by destruct (m s) as [[a|e|why] s']. Qed.

Lemma validate_outside operationID plan opportunity request : outside (validate config clock operationID plan opportunity request).
Proof using.
  unfold validate. apply outside_bind.
  - apply outside_foldST. intros outcomes leg. unfold start_leg. destruct (en_Validators config !! leg_Market leg); [|by intros s].
    apply outside_bind; [|intros; apply outside_ret]. apply outside_bind; [apply outside_clock|intros; apply outside_ret].
  - intros outcomes. destruct (existsb _ _); apply outside_lift.
Qed.

(** An outside call at the head of a body. *)
Lemma Post_outside {A B} (m : ST State A) (f : A -> ST State B) s (Q : res B -> State -> Prop) :
  outside m ->
  (forall a s', s'.1 = s.1 -> m s = (Ok a, s') -> Post (f a) s' Q) ->
  (forall r s', s'.1 = s.1 -> (forall b, r <> Ok b) -> Q r s') ->
  Post (m ≫= f) s Q.
Proof using.
  intros Hm Hf Hfail. specialize (Hm s). unfold Post, mbind, st_bind.
  destruct (m s) as [[a|e|why] s'] eqn:Hrun; cbn in Hm; [by apply (Hf a s')|by apply Hfail..].
Qed.

Lemma Plan_inv bindings id o now plan :
  Plan bindings id o now = Ok plan ->
  plan_opportunity plan = o /\
  req_Amount <$> plan_requirements plan = [q_AmountIn (lo_BuyQuote o); q_AmountIn (lo_SellQuote o)].
Proof using.
  unfold Plan. intros H. apply bind_Ok in H as ([] & _ & H).
  destruct (bindings !! BuyMarket _) as [b|]; [|done]. destruct (bindings !! SellMarket _) as [s|]; [|done].
  unfold NewSagaPlan in H. destruct (decide _); [done|]. apply bind_Ok in H as ([] & _ & H). apply bind_Ok in H as (seen & _ & H).
  destruct (decide _); [done|]. injection H as <-. done.
Qed.

(** What a validated opportunity gives to its execution. *)
Lemma valued_executable now request buy sell validatedAt validated id plannedAt plan :
  Value (en_Evaluator config) now request buy sell validatedAt = Ok validated ->
  Plan (en_Planner config) id validated plannedAt = Ok plan ->
  valuation_built (lo_Valuation (plan_opportunity plan)) /\ requirements_valid (plan_requirements plan).
Proof using.
  intros Hv Hp. apply Plan_inv in Hp as [-> Hreq].
  apply Value_valued in Hv as (tokens & price & _ & [(fixed & Hf & _ & _ & Hbu & _ & Hsu) Hprice _ _ _ (block & gross & -> & _)]).
  cbn [lo_Valuation lo_BuyQuote lo_SellQuote] in *. split; [intros Hn; congruence|].
  destruct (inputs_amounts _ _ _ _ Hf Hprice) as (_ & _ & _ & _ & _ & _ & Hb & Hs).
  assert (Forall (fun a => 0 <= Units a) (req_Amount <$> plan_requirements plan)) as Hall.
  { rewrite Hreq, !Forall_cons, Forall_nil. lia. }
  rewrite Forall_fmap in Hall. exact Hall.
Qed.

(** What an attempt from the world [w] leaves. *)
Definition attempt_leaves (request : LiveEvaluationRequest D) (w : World St) (out : res attempt_end) (s' : State) : Prop :=
  match out with
  | Ok (Return result err) => engine_ends request w result err s'.1
  | Ok (Again result) => re_Execution result = None /\ untouched w s'.1
  | _ => untouched w s'.1
  end.

(** An outside call at the head of an attempt that has not touched the program. *)
Lemma leaves_outside {A} (m : ST State A) (f : A -> ST State attempt_end) request w t :
  outside m -> (forall a t', Post (f a) (w, t') (attempt_leaves request w)) ->
  Post (m ≫= f) (w, t) (attempt_leaves request w).
Proof using.
  intros Hm Hf. apply Post_outside; [done|..].
  - intros a [w' t'] Hs _. cbn in Hs. subst w'. apply Hf.
  - intros [a|e|why] s' Hs Hr; [by destruct (Hr a)|..]; cbn in *; rewrite Hs; apply untouched_refl.
Qed.

(** A return, an error or a panic without a call to the executor. *)
Lemma leaves_return request w t result err :
  re_Execution result = None -> Post (mret (Return result err)) (w, t) (attempt_leaves request w).
Proof using. intros Hr. apply Post_mret. by apply ends_quiet; [|apply untouched_refl]. Qed.
Lemma leaves_panic request w t why : Post (lift (Panic why)) (w, t) (attempt_leaves request w).
Proof using. apply untouched_refl. Qed.

Lemma execute_validated_run request cost now validatedAt planID operationID validated artifacts result w t :
  inv_ok (w_inventory w) -> reservations (w_inventory w) !! operationID = None -> en_DryRun config = false ->
  Value (en_Evaluator config) now (with_cost request cost) (validated_quote artifacts "buy") (validated_quote artifacts "sell")
    validatedAt = Ok validated ->
  Profitable validated = true ->
  re_Validated result = Some validated -> re_Artifacts result = artifacts -> re_Execution result = None ->
  Post (execute_validated config clock ctx_Err planID operationID validated artifacts result) (w, t) (attempt_leaves request w).
Proof using Hports Hforeign.
  intros Hi Hfresh Hdry Hvalue Hprofit Hvalidated Hart Hexe. unfold execute_validated.
  apply leaves_outside; [apply outside_clock|]. intros plannedAt t1.
  destruct (Plan _ planID validated plannedAt) as [plan|e|why] eqn:Hplan; [|by apply leaves_return|apply leaves_panic].
  apply leaves_outside; [apply outside_clock|]. intros now' t2.
  apply leaves_outside; [apply outside_clock|]. intros committedAt t3.
  destruct (valued_executable _ _ _ _ _ _ _ _ _ Hvalue Hplan) as [Hval Hreq].
  pose proof (Execute_run (en_Executor config) operationID plan artifacts now' committedAt w
    (Hports _ _ _ _ Hplan) Hval Hi Hreq Hfresh) as Hexec.
  eapply Post_bind with (Q := fun out s' => match out with
    | Ok (executed, err) => execute_outcome operationID plan artifacts w executed err s'.1 | _ => False end).
  { unfold Post, on_world, zoom in *. cbn [fst]. destruct (Execute _ _ _ _ _ _ w) as [out w']. exact Hexec. }
  2-3: by intros.
  intros [executed err] s4 Hout. cbn in Hout. destruct (match err with Some e => errors_Is e _ | None => false end) eqn:Hold.
  - assert (untouched w s4.1) as Hun.
    { clear -Hforeign Hout Hold. destruct s4 as [w4 t4]. cbn in *. destruct Hout as [| | |operation prepared sent st1 st2 st3|operation prepared sent st1 st2 requires err _ _ _ _ Hend];
        try by (first [done | apply untouched_refl | eexists]).
      destruct err as [e|]; [|done]. rewrite (Hforeign e) in Hold by (by eapply held_end_error). done. }
    unfold cancelled. eapply Post_bind_Ok; [done|]. destruct (ctx_Err s4.2) as [e|]; apply Post_mret; [by apply ends_quiet|done].
  - apply Post_mret. subst artifacts.
    by eapply (ends_executed request w (set_execution result executed) err w s4.1 cost validated now validatedAt planID operationID
      plannedAt plan executed); try apply untouched_refl.
Qed.

Lemma attempt_run request discovery result w t :
  inv_ok (w_inventory w) -> (forall t', reservations (w_inventory w) !! (newID "operation" t').1 = None) ->
  re_Execution result = None ->
  Post (attempt config clock newID ctx_Err request discovery result) (w, t) (attempt_leaves request w).
Proof using Hports Hforeign.
  intros Hi Hfresh Hexe. unfold attempt. apply leaves_outside; [apply outside_fresh|]. intros planID t1.
  assert (fresh_id newID "operation" (w, t1) = (Ok (newID "operation" t1).1, (w, (newID "operation" t1).2))) as Hop
    by (unfold fresh_id; by destruct (newID "operation" t1)).
  eapply Post_bind_Ok; [exact Hop|]. specialize (Hfresh t1). clear Hop.
  apply leaves_outside; [apply outside_clock|]. intros plannedAt t2.
  destruct (Plan _ planID discovery plannedAt) as [plan|e|why]; [|by apply leaves_return|apply leaves_panic].
  apply leaves_outside; [apply outside_try, validate_outside|]. intros [artifacts|e|why] t3;
    [|by apply leaves_return|apply leaves_panic].
  apply leaves_outside; [apply outside_clock|]. intros requestedAt t4.
  destruct (en_Costs config _) as [cost|e|why]; [|by apply leaves_return|apply leaves_panic].
  apply leaves_outside; [apply outside_clock|]. intros validatedAt t5.
  apply leaves_outside; [apply outside_clock|]. intros now t6.
  destruct (Value _ now _ _ _ validatedAt) as [validated|e|why] eqn:Hvalue; [|by apply leaves_return|apply leaves_panic].
  cbv zeta. destruct (Profitable validated) eqn:Hprofit; [|by apply leaves_return].
  cbn [negb]. destruct (en_DryRun config) eqn:Hdry; [by apply leaves_return|].
  by eapply execute_validated_run.
Qed.

Lemma ends_from request w w1 result err w' : untouched w w1 -> engine_ends request w1 result err w' -> engine_ends request w result err w'.
Proof using.
  intros Hun. destruct 1; [apply ends_quiet; [done|by eapply untouched_trans]|].
  by eapply ends_executed; try by eapply untouched_trans.
Qed.

Lemma attempts_run fuel request discovery result w t :
  inv_ok (w_inventory w) -> (forall t', reservations (w_inventory w) !! (newID "operation" t').1 = None) ->
  re_Execution result = None ->
  Post (attempts config clock newID ctx_Err fuel request discovery result) (w, t) (fun out s' =>
    match out with Ok (Some (result, err)) => engine_ends request w result err s'.1 | _ => untouched w s'.1 end).
Proof using Hports Hforeign.
  revert w t result. induction fuel as [|fuel IH]; intros w t result Hi Hfresh Hexe; cbn [attempts]; [apply Post_mret, untouched_refl|].
  eapply Post_bind; [by apply attempt_run| |by intros..].
  intros [r err|r] [w1 t1] Hleft; cbn in Hleft; [by apply Post_mret|]. destruct Hleft as [Hr [st ->]].
  eapply Post_weaken; [by apply IH|]. intros out s' Hout.
  assert (untouched w (set_store st w)) as Hun by by eexists.
  destruct out as [[[r' err]|]|e|why]; [by eapply ends_from|by eapply untouched_trans..].
Qed.

Lemma executeDiscovered_run fuel request discovery w t :
  inv_ok (w_inventory w) -> (forall t', reservations (w_inventory w) !! (newID "operation" t').1 = None) ->
  Post (executeDiscovered config clock newID ctx_Err fuel request discovery) (w, t) (fun out s' =>
    match out with Ok (Some (result, err)) => engine_ends request w result err s'.1 | _ => untouched w s'.1 end).
Proof using Hports Hforeign.
  intros Hi Hfresh. unfold executeDiscovered. cbv zeta. destruct (Profitable discovery); [by apply attempts_run|].
  apply Post_mret. by apply ends_quiet; [|apply untouched_refl].
Qed.

(** *** The best discovery *)

Definition net (o : LiveOpportunity) : Qc := Rat (lo_NetPnL o).

(** [selected] points at the first of the profitable opportunities with the
    greatest net result, in the one asset they are all valued in; [-1] for none. *)
Definition best_of : list LiveOpportunity -> Z -> Prop :=
  best_index (fun o => Profitable o = true) (fun i best j o =>
    quantity_asset (lo_NetPnL o) = quantity_asset (lo_NetPnL best) /\ (net o <= net best)%Qc /\ (net o = net best -> (i <= j)%nat)).

(** Two opportunities of [l] are valued in different assets. *)
Definition assets_differ (l : list LiveOpportunity) : Prop :=
  exists o1 o2, o1 ∈ l /\ o2 ∈ l /\ quantity_asset (lo_NetPnL o1) <> quantity_asset (lo_NetPnL o2).

Lemma select_step_run pre o post selected :
  best_of pre selected ->
  match select_step (pre ++ o :: post) selected (length pre, o) with
  | Ok selected' => best_of (pre ++ [o]) selected'
  | Err _ => assets_differ (pre ++ o :: post)
  | Panic _ => False
  end.
Proof using.
  clear. intros Hbest. unfold select_step. cbn [fst snd]. destruct (Profitable o) eqn:Ho; cbn [negb].
  2: { apply best_index_skip; [congruence|done]. }
  destruct (decide (selected < 0)) as [Hneg|Hneg].
  - destruct Hbest as [[_ Hall]|(i & ? & -> & _)]; [|lia]. apply best_index_new; [done|split; [done|split; [apply Qcle_refl|lia]]|].
    intros j o' Hj Hp. rewrite Forall_lookup in Hall. by destruct (Hall _ _ Hj).
  - pose proof Hbest as [[-> _]|(i & best & -> & Hi & _ & Hmax)]; [lia|].
    rewrite Nat2Z.id, (lookup_app_l_Some pre _ i best) by done.
    unfold AssetQuantity_Cmp. destruct (decide _) as [Hn|Ha].
    { exists o, best. split; [set_solver|]. split; [|done]. apply list_elem_of_lookup_2 in Hi. set_solver. }
    apply dec_stable in Ha. cbn. destruct (decide (0 < _)) as [Hc|Hc].
    + apply Rat_Cmp_pos in Hc. apply best_index_new; [done|split; [done|split; [apply Qcle_refl|lia]]|].
      intros j o' Hj Hp. destruct (Hmax j o' Hj Hp) as (? & Hle & _). split; [congruence|].
      split; [by apply Qclt_le_weak, Qcle_lt_trans with (net best)|].
      intros He. rewrite He in Hle. by apply Qcle_not_lt in Hle.
    + apply best_index_keep with best; [done| |done]. split; [done|]. apply lookup_lt_Some in Hi.
      split; [|lia]. apply Qcnot_lt_le. intros Hlt. by apply Hc, Rat_Cmp_pos.
Qed.

Lemma select_from pre post selected :
  best_of pre selected ->
  match foldM (select_step (pre ++ post)) selected (imap (fun n o => ((length pre + n)%nat, o)) post) with
  | Ok selected' => best_of (pre ++ post) selected'
  | Err _ => assets_differ (pre ++ post)
  | Panic _ => False
  end.
Proof using.
  revert pre selected. induction post as [|o post IH]; intros pre selected Hbest; cbn [imap]; [by rewrite app_nil_r|].
  apply (select_step_run pre o post) in Hbest. rewrite Nat.add_0_r. change (foldM ?f ?s (?x :: ?l)) with (f s x ≫= fun s => foldM f s l).
  destruct (select_step _ _ _) as [s|e|why]; cbn [mbind res_bind]; [|done..].
  specialize (IH (pre ++ [o]) s Hbest). rewrite length_app, <- app_assoc in IH. cbn [length app] in IH.
  rewrite (imap_ext (_ ∘ S) (fun n o0 => ((length pre + 1 + n)%nat, o0))); [exact IH|]. intros. cbn. f_equal. lia.
Qed.

Lemma select_best_spec l :
  match select_best l with
  | Ok selected => best_of l selected
  | Err _ => assets_differ l
  | Panic _ => False
  end.
Proof using. apply (select_from [] l (-1)), best_index_nil. Qed.
Lemma discover_all requests outcomes w t :
  Post (foldST (discover_into (St := St) config clock) outcomes requests) (w, t)
    (fun out s' => s'.1 = w /\ exists all, out = Ok all /\ length all = (length outcomes + length requests)%nat).
Proof using.
  revert outcomes t. induction requests as [|request requests IH]; intros outcomes t; cbn [foldST length].
  { split; [done|]. exists outcomes. split; [done|lia]. }
  assert (exists outcome t', discover_into config clock outcomes request (w, t) = (Ok (outcomes ++ [outcome]), (w, t')))
    as (outcome & t' & Hstep).
  { unfold discover_into, discover, read_clock, mbind, st_bind. destruct (clock t) as [q t1].
    destruct (clock t1) as [n t2]. by eexists _, _. }
  eapply Post_bind_Ok; [exact Hstep|]. eapply Post_weaken; [apply IH|]. intros out s' (Hs & all & -> & Hl). split; [done|].
  exists all. split; [done|]. rewrite Hl, length_app. cbn. lia.
Qed.

Lemma wait_all_length {A} (l : list (res A)) values : wait_all l = Ok values -> length values = length l.
Proof using.
  intros H. destruct (existsb is_panic l) eqn:He; unfold wait_all in H; rewrite He in H; [done|].
  assert (forall acc, foldM (fun values outcome => value ← outcome; Ok (values ++ [value])) acc l = Ok values ->
    length values = (length acc + length l)%nat) as Hfold; [|by apply (Hfold [])].
  clear H He. induction l as [|[a|e|why] l IH]; intros acc H; cbn in *; [injection H as ->; lia| |done|done].
  rewrite (IH _ H), length_app. cbn. lia.
Qed.

(** C14. A batch of discoveries is settled by one of them at most: the first one
    with the greatest net result among the profitable ones, none if no discovery
    is profitable.  A transaction leaves the engine only when that opportunity is
    still profitable at the quotes validated for it and at the final cost of the
    attempt, as one execution of the plan of the revalued opportunity; every other
    ending (a failed discovery, validation or cost, a dry run, attempts refused as
    too old) leaves the inventory, the gate and the network as they were. *)
Theorem EvaluateBatch_best fuel requests w t :
  inv_ok (w_inventory w) -> (forall t', reservations (w_inventory w) !! (newID "operation" t').1 = None) ->
  let '(out, s') := EvaluateBatch config clock newID ctx_Err fuel requests (w, t) in
  match out with
  | Ok (Some (batch, err)) =>
      length (ba_Discoveries batch) = length requests /\ best_of (ba_Discoveries batch) (ba_Selected batch) /\
      match ba_Result batch with
      | None => ba_Selected batch = -1 /\ err = None /\ untouched w s'.1
      | Some result => exists i request,
          ba_Selected batch = Z.of_nat i /\ requests !! i = Some request /\ engine_ends request w result err s'.1
      end
  | _ => untouched w s'.1
  end.
Proof using Hports Hforeign.
  intros Hi Hfresh. match goal with |- let '(out, s') := ?run in @?Q out s' => change (Post (EvaluateBatch config clock newID ctx_Err fuel requests) (w, t) Q) end.
  unfold EvaluateBatch. destruct (decide (requests = [])) as [|Hne]; [apply untouched_refl|].
  eapply Post_bind; [apply discover_all| |by intros e s' (_ & ? & ? & _)..].
  intros outcomes [w' t'] (Hw & all & [= <-] & Hlen). cbn in Hw, Hlen. subst w'.
  destruct (wait_all outcomes) as [discoveries|e|why] eqn:Hwait; [|apply untouched_refl..]. apply wait_all_length in Hwait.
  eapply Post_bind_Ok; [done|]. pose proof (select_best_spec discoveries) as Hbest.
  destruct (select_best discoveries) as [selected|e|why]; [|apply untouched_refl|done]. eapply Post_bind_Ok; [done|].
  destruct (decide (selected < 0)) as [Hneg|Hpos].
  { apply Post_mret. cbn. split; [congruence|]. split; [done|]. split; [|split; [done|apply untouched_refl]].
    destruct Hbest as [[-> _]|(i & best & -> & _)]; [done|lia]. }
  pose proof Hbest as [[-> _]|(i & best & -> & Hbi & _)]; [lia|]. rewrite Nat2Z.id.
  destruct (lookup_lt_is_Some_2 requests i) as [request Hreq]; [apply lookup_lt_Some in Hbi; lia|].
  rewrite Hreq, Hbi. cbn [mbind option_bind].
  eapply Post_bind; [by apply (executeDiscovered_run fuel request best)| |by intros..].
  intros [[result err]|] s' Hend; apply Post_mret; [|done]. cbn. split; [congruence|]. split; [done|].
  by exists i, request.
Qed.
End engine_facts.

(** ** The engine returns

    An attempt refused because its artifacts were too old is repeated until the
    context ends.  [left] bounds the clock readings before it does. *)
Section engine_returns.
Context {D St W : Type} {store : OperationalStore St} {managers : TxManagers} {order : RangeOrder Key}.
Context (config : EngineConfig (D := D)) (clock : W -> Time * W) (newID : string -> W -> string * W) (ctx_Err : W -> option error).
Abbreviation State := (World St * W)%type (only parsing).

Variable left : W -> nat.
Hypothesis Hexpired : forall t, left t = 0%nat -> ctx_Err t <> None.
Hypothesis Hclock : forall t, (left (clock t).2 <= pred (left t))%nat.
Hypothesis Hids : forall prefix t, (left (newID prefix t).2 <= left t)%nat.

(** The calls of [m] never give time back. *)
Definition spends {A} (m : ST State A) : Prop := forall s, (left (m s).2.2 <= left s.2)%nat.

Lemma spends_clock : spends (read_clock (St := St) clock).
Proof using Hclock. intros [w t]. unfold read_clock. specialize (Hclock t). destruct (clock t). cbn in *. lia. Qed.
Lemma spends_fresh prefix : spends (fresh_id (St := St) newID prefix).
Proof using Hids. intros [w t]. unfold fresh_id. specialize (Hids prefix t). by destruct (newID prefix t). Qed.
Lemma spends_still {A} (m : ST State A) : (forall s, (m s).2.2 = s.2) -> spends m.
Proof using. intros Hm s. by rewrite Hm. Qed.
Lemma spends_bind {A B} (m : ST State A) (f : A -> ST State B) : spends m -> (forall a, spends (f a)) -> spends (m ≫= f).
Proof using.
  intros Hm Hf s. specialize (Hm s). unfold mbind, st_bind. destruct (m s) as [[a|e|why] s']; cbn in *; [|done..].
  specialize (Hf a s'). lia.
Qed.
Lemma spends_foldST {A B} (f : B -> A -> ST State B) b l : (forall b a, spends (f b a)) -> spends (foldST f b l).
Proof using.
  intros Hf. revert b. induction l as [|a l IH]; intros b; [by apply spends_still|].
  change (foldST f b (a :: l)) with (f b a ≫= fun b => foldST f b l). by apply spends_bind.
Qed.

Lemma spends_try_validate operationID plan opportunity request :
  spends (try (validate (St := St) config clock operationID plan opportunity request)).
Proof using Hclock.
  assert (spends (validate (St := St) config clock operationID plan opportunity request)) as Hv.
  { unfold validate. apply spends_bind.
    - apply spends_foldST. intros outcomes leg. unfold start_leg. destruct (en_Validators config !! leg_Market leg); [|by apply spends_still].
      apply spends_bind; [|intros; by apply spends_still]. apply spends_bind; [apply spends_clock|intros; by apply spends_still].
    - intros outcomes. destruct (existsb _ _); by apply spends_still. }
  intros s. specialize (Hv s). unfold try. by destruct (validate _ _ _ _ _ _ s) as [[a|e|why] s'].
Qed.

(** What is left of [n] readings after a call, and that a repetition was not cancelled. *)
Definition goes_on (n : nat) (out : res attempt_end) (s' : State) : Prop :=
  (left s'.2 <= n)%nat /\ match out with Ok (Again _) => ctx_Err s'.2 = None | _ => True end.

Lemma goes_bind {A} (m : ST State A) (f : A -> ST State attempt_end) n s :
  spends m -> (left s.2 <= n)%nat -> (forall a s', (left s'.2 <= n)%nat -> Post (f a) s' (goes_on n)) ->
  Post (m ≫= f) s (goes_on n).
Proof using.
  intros Hm Hn Hf. specialize (Hm s). unfold Post, mbind, st_bind. destruct (m s) as [[a|e|why] s']; cbn in Hm.
  - apply Hf. lia.
  - split; [cbn; lia|done].
  - split; [cbn; lia|done].
Qed.

Lemma goes_return n s result err : (left s.2 <= n)%nat -> Post (mret (Return result err)) s (goes_on n).
Proof using. by intros Hn. Qed.
Lemma goes_panic n s why : (left s.2 <= n)%nat -> Post (lift (Panic why)) s (goes_on n).
Proof using. by intros Hn. Qed.

Lemma execute_validated_goes planID operationID validated artifacts result n s :
  (left s.2 <= n)%nat -> Post (execute_validated config clock ctx_Err planID operationID validated artifacts result) s (goes_on n).
Proof using Hclock.
  intros Hn. unfold execute_validated. apply goes_bind; [apply spends_clock|done|]. intros plannedAt s1 H1.
  destruct (Plan _ _ _ _); [|by apply goes_return|by apply goes_panic].
  apply goes_bind; [apply spends_clock|done|]. intros now s2 H2. apply goes_bind; [apply spends_clock|done|]. intros committedAt s3 H3.
  apply goes_bind; [|done|].
  { apply spends_still. intros [w t]. unfold on_world, zoom. cbn. by destruct (Execute _ _ _ _ _ _ w) as [[]]. }
  intros [executed err] s4 H4. destruct (match err with Some e => _ | None => false end); [|by apply goes_return].
  unfold cancelled. eapply Post_bind_Ok; [done|]. destruct (ctx_Err s4.2) eqn:Hc; [by apply goes_return|by split].
Qed.

Lemma attempt_goes request discovery result s :
  Post (attempt config clock newID ctx_Err request discovery result) s (goes_on (pred (left s.2))).
Proof using Hclock Hids.
  assert (forall p (f : string -> ST State attempt_end) (s : State) n,
    (left s.2 <= n)%nat -> (forall a s', (left s'.2 <= n)%nat -> Post (f a) s' (goes_on (pred n))) ->
    Post (fresh_id newID p ≫= f) s (goes_on (pred n))) as Hfresh.
  { intros p f [w t] n Hn Hf. unfold Post, mbind, st_bind, fresh_id. specialize (Hids p t). destruct (newID p t) as [id t'].
    apply Hf. cbn in *. lia. }
  unfold attempt. apply Hfresh; [done|]. intros planID s1 H1. apply Hfresh; [done|]. intros operationID s2 H2.
  unfold Post, mbind at 1, st_bind at 1, read_clock at 1. destruct s2 as [w t2]. pose proof (Hclock t2) as Ht. destruct (clock t2) as [plannedAt t3].
  cbn in Ht, H2. match goal with |- let '(r, s') := ?m (w, t3) in _ => change (Post m (w, t3) (goes_on (pred (left s.2)))) end.
  assert (left (w, t3).2 <= pred (left s.2))%nat as H3 by (cbn; lia). revert H3. generalize (w, t3), (pred (left s.2)).
  clear s s1 H1 w t2 t3 H2 Ht. intros s n H3.
  destruct (Plan _ _ _ _); [|by apply goes_return|by apply goes_panic].
  apply goes_bind; [apply spends_try_validate|done|]. intros [artifacts|e|why] s4 H4; [|by apply goes_return|by apply goes_panic].
  apply goes_bind; [apply spends_clock|done|]. intros requestedAt s5 H5.
  destruct (en_Costs config _); [|by apply goes_return|by apply goes_panic].
  apply goes_bind; [apply spends_clock|done|]. intros validatedAt s6 H6. apply goes_bind; [apply spends_clock|done|]. intros now s7 H7.
  destruct (Value _ _ _ _ _ _); [|by apply goes_return|by apply goes_panic]. cbv zeta.
  destruct (negb _); [by apply goes_return|]. destruct (en_DryRun config); [by apply goes_return|]. by apply execute_validated_goes.
Qed.

(** C15. The engine returns: with a context that ends within [left] clock readings
    it gives up after [left + 1] attempts at the latest, so that many are enough
    fuel for any request. *)
Theorem Engine_Evaluate_returns fuel request w t :
  (left t < fuel)%nat -> (Engine_Evaluate config clock newID ctx_Err fuel request (w, t)).1 <> Ok None.
Proof using Hexpired Hclock Hids.
  assert (forall fuel discovery result (s : State), (left s.2 < fuel)%nat ->
    Post (attempts config clock newID ctx_Err fuel request discovery result) s (fun out _ => out <> Ok None)) as Hloop.
  { clear fuel w t. intros fuel. induction fuel as [|fuel IH]; intros discovery result s Hs; [lia|]. cbn [attempts].
    eapply Post_bind; [apply attempt_goes| |by intros..]. intros [r err|r] s' [Hle Hctx]; [by apply Post_mret|].
    apply IH. destruct (left s'.2) eqn:Hz; [by destruct (Hexpired _ Hz)|]. lia. }
  intros Hfuel. unfold Engine_Evaluate, mbind, st_bind, read_clock.
  pose proof (Hclock t) as H1. destruct (clock t) as [quotedAt t1]. pose proof (Hclock t1) as H2. destruct (clock t1) as [now t2].
  cbn in H1, H2. destruct (Live_Evaluate _ _ _ _) as [discovery|e|why]; [|done..].
  unfold executeDiscovered. cbv zeta. destruct (Profitable discovery); [|done].
  specialize (Hloop fuel discovery (mkResult discovery None ∅ None false) (w, t2)). unfold Post in Hloop.
  destruct (attempts _ _ _ _ _ _ _ _ _) as [out s']. apply Hloop. cbn. lia.
Qed.
End engine_returns.

(** ** Witnesses *)

Module EngineWitness.
Import LiveWitness.
#[local] Existing Instance SagaWitness.listed.
#[local] Existing Instance SagaWitness.memory.
#[local] Existing Instance SagaWitness.wallets.

Definition policy (t : string) (n : Z) : BalancePolicy :=
  mkBalancePolicy (amount t n) (amount t (n + 1)) (amount t 50) (amount t 10) (amount t 5).
Definition policies : gmap Key BalancePolicy :=
  <[mkKey "base" "acc" "usdc" := policy "usdc" (5000 * 10 ^ 6)]> {[ mkKey "base" "acc" "weth" := policy "weth" (3 * 10 ^ 18) ]}.
Definition owner : Inventory := default Inventory_empty (res_opt (NewWithPolicies policies)).

Lemma funded_ok : inv_ok owner.
Proof.
  apply (NewWithPolicies_inv policies); [|vm_compute; reflexivity].
  apply map_Forall_insert_2; [cbn; lia|]. apply map_Forall_singleton. cbn; lia.
Qed.

Definition binding : LegBinding := mkLegBinding "base" "acc".
Definition answer_with (quote : Quote) (r : ValidationRequest bool) : res Artifact :=
  Ok (mkArtifact (vr_Leg r) quote None (vr_RequestedAt r)).
Definition config : EngineConfig :=
  mkEngineConfig evaluator (<["m1" := binding]> {[ "m2" := binding ]}) SagaWitness.config
    (<["m1" := answer_with bought]> {[ "m2" := answer_with sold ]}) (fun _ => Ok (usd 4)) false.
(** A clock that ticks, identifiers by prefix, and a context that ends at reading 50. *)
Definition clock (n : nat) : Time * nat := (Z.of_nat (100 + n), S n).
Definition newID (prefix : string) (n : nat) : string * nat := (prefix, n).
Definition ctx_Err (n : nat) : option error := if decide (50 <= n)%nat then Some (Sentinel "canceled") else None.
Definition start : World (list Operation) * nat := (mkWorld owner "" [] [] ∅ ∅, 0%nat).
Definition run := EvaluateBatch config clock newID ctx_Err 3 [request "m2"; request "m2"] start.

Lemma ports (plan : SagaPlan) : ports_total plan.
Proof. split; try (intros; by apply SagaWitness.total_const); done. Qed.

Lemma foreign e : after_commit_error e -> errors_Is e "ErrArtifactTooOld" = false.
Proof. by destruct 1 as [|o s t d st e st' H|o d st e st' H|o d st e st' H]. Qed.

Lemma batch_witness :
  (exists batch err s', run = (Ok (Some (batch, err)), s') /\ best_of (ba_Discoveries batch) (ba_Selected batch)) /\
  length (w_broadcasts run.2.1) = 2%nat /\ w_gate run.2.1 = "operation".
Proof.
  split; [|split; vm_compute; reflexivity].
  pose proof (EvaluateBatch_best config clock newID ctx_Err (fun _ _ _ plan _ => ports plan) foreign 3
    [request "m2"; request "m2"] start.1 start.2 funded_ok ltac:(intros t'; vm_compute; reflexivity)) as H.
  change (EvaluateBatch _ _ _ _ _ _ _) with run in H.
  assert (match run.1 with Ok (Some _) => true | _ => false end = true) as Hok by (vm_compute; reflexivity).
  destruct run as [[[[batch err]|]|e|why] s'] eqn:Hrun; [|discriminate Hok..].
  exists batch, err, s'. destruct H as (_ & Hb & _). exact (conj eq_refl Hb).
Defined.

Lemma returns_witness :
  (Engine_Evaluate config clock newID ctx_Err 51 (request "m2") start).1 <> Ok None.
Proof.
  apply (Engine_Evaluate_returns config clock newID ctx_Err (fun n => (50 - n)%nat)).
  - intros t Ht. unfold ctx_Err. rewrite decide_True by lia. discriminate.
  - intros t. cbn. lia.
  - intros prefix t. cbn. lia.
  - cbn. lia.
Defined.
End EngineWitness.
