(* ===== verification/Costing.v ===== *)
(** * Cost sources (src/core/costing)

    Fixed costs, price sources with a fallback, and the quote conversions the
    evaluations read: one worker per direction keeps the latest answer of its
    provider, and the book reads them all, projecting aliases through the shared
    assets.  The workers of a book change under it, so the book carries their
    current states; a refresh is one atomic step, given the provider's answer and
    the clock.  The timers of [Run] are left out.

    Theorems: a worker answers with its last refresh only, as long as it is valid;
    the book never panics, and what it projects is the canonical conversion rounded
    down to the alias's units. *)
From Stdlib Require Import QArith Qcanon.
From S2P Require Import Prelude Amount Quote Registry Arbitrage.
Local Open Scope Z_scope.

(** ** Fixed costs (fixed.go) *)

Record Fixed := mkFixed { fx_id : string; fx_amount : AssetQuantity }.

Definition NewFixed (id : string) (amount : AssetQuantity) : res Fixed :=
  if decide (id = "" \/ quantity_asset amount = "" \/ AssetQuantity_Sign amount < 0)
  then Err (Errorf "fixed cost requires an ID and non-negative amount") else Ok (mkFixed id amount).

Definition Fixed_Snapshot (f : Fixed) (at_ : Time) : res CostSnapshot :=
  if decide (Time_IsZero at_) then Err (Errorf "cost timestamp is required")
  else Ok (mkCostSnapshot (fx_id f) (fx_amount f) at_).

(** ** A price source with a fallback (price.go) *)

Record PriceRequest := mkPriceRequest { pr_Base : AssetID; pr_Quote : AssetID }.
Record PriceSource := mkPriceSource { ps_ID : SourceID; ps_Observe : PriceRequest -> res PriceObservation }.

Definition NewFallbackPriceSource (id : SourceID) (primary fallback : option PriceSource) : res (SourceID * PriceSource * PriceSource) :=
  match primary, fallback with
  | Some p, Some f =>
      if decide (id = "" \/ ps_ID p = ps_ID f)
      then Err (Errorf "fallback price source requires an ID and distinct providers") else Ok (id, p, f)
  | _, _ => Err (Errorf "fallback price source requires an ID and distinct providers")
  end.

Definition Fallback_Observe (ctx_Err : option error) (primary fallback : PriceSource) (request : PriceRequest) : res PriceObservation :=
  match ps_Observe primary request with
  | Ok observation => Ok observation
  | Panic why => Panic why
  | Err _ =>
      match ctx_Err with
      | Some e => Err e
      | None => wrap "primary price source %q failed: %v; fallback %q failed: %w" (ps_Observe fallback request)
      end
  end.

(** ** Conversion workers (conversion_cache.go) *)

Record WorkerConfig := mkWorkerConfig {
  wc_Provider : option SourceID; wc_Input : TokenAmount; wc_OutputToken : TokenID;
  wc_RefreshInterval : Time; wc_InitialDelay : Time; wc_TTL : Time;
  wc_OnUpdate : bool; wc_OnError : bool; wc_OnSuccess : bool }.

Definition conversion_zero : QuoteConversionSnapshot :=
  mkQuoteConversionSnapshot "" TokenAmount_zero TokenAmount_zero 0 0 "".

Record QuoteConversionWorker := mkWorker {
  wk_config : WorkerConfig; wk_current : QuoteConversionSnapshot; wk_err : option error }.

Definition NewQuoteConversionWorker (config : WorkerConfig) : res QuoteConversionWorker :=
  if decide (wc_Provider config = None \/ IsZero (wc_Input config) \/ wc_OutputToken config = "" \/
             wc_OutputToken config = amount_token (wc_Input config) \/ wc_RefreshInterval config <= 0 \/
             wc_TTL config < wc_RefreshInterval config \/ wc_InitialDelay config < 0)
  then Err (Errorf "quote conversion worker configuration is incomplete")
  else Ok (mkWorker config conversion_zero None).

(** The callbacks a refresh makes, in order. *)
Inductive callback := OnError (e : error) | OnSuccess (s : QuoteConversionSnapshot) | OnUpdate.

Section conversions.
Context (sha256 : string -> Digest) (error_text : error -> string).

Definition provider_id (config : WorkerConfig) : SourceID := default "" (wc_Provider config).

Definition refreshed_snapshot (config : WorkerConfig) (output : TokenAmount) (now : Time) : res QuoteConversionSnapshot :=
  NewQuoteConversionSnapshot sha256 (provider_id config) (wc_Input config) output now (now + wc_TTL config).

Definition reports (w : QuoteConversionWorker) (e : error) : Prop :=
  wc_OnError (wk_config w) = true /\
  match wk_err w with None => True | Some previous => error_text previous <> error_text e end.
#[export] Instance reports_dec w e : Decision (reports w e).
Proof using Type. unfold reports. destruct (wk_err w); apply _. Defined.

Definition when (given : bool) (c : callback) : list callback := if given then [c] else [].

(** [Refresh], given the provider's answer and the clock after it; the error
    returned, the callbacks, and the worker afterwards.  A failed construction
    returns the zero snapshot. *)
Definition Refresh (answer : res TokenAmount) (now : Time) (w : QuoteConversionWorker) :
    res (option error * list callback) * QuoteConversionWorker :=
  let config := wk_config w in
  match answer with
  | Panic why => (Panic why, w)
  | Err e =>
      (Ok (Some e, (if decide (reports w e) then [OnError e] else []) ++ when (wc_OnUpdate config) OnUpdate),
       mkWorker config conversion_zero (Some e))
  | Ok output =>
      match refreshed_snapshot config output now with
      | Panic why => (Panic why, w)
      | Err e => (Ok (Some e, when (wc_OnUpdate config) OnUpdate), mkWorker config conversion_zero (Some e))
      | Ok snapshot =>
          (Ok (None, when (wc_OnSuccess config) (OnSuccess snapshot) ++ when (wc_OnUpdate config) OnUpdate),
           mkWorker config snapshot None)
      end
  end.

Definition CurrentAt (at_ : Time) (w : QuoteConversionWorker) : res QuoteConversionSnapshot :=
  match wk_err w with
  | Some e => Err e
  | None =>
      if decide (conversion_ValidAt (wk_current w) at_) then Ok (wk_current w)
      else Err (Errorf "quote conversion cache is stale")
  end.

(** ** The book *)

Abbreviation quoteConversionPair := (TokenID * TokenID)%type (only parsing).

Record QuoteConversionAlias := mkQuoteConversionAlias {
  al_Input : Token; al_Output : Token; al_CanonicalInput : Token; al_CanonicalOutput : Token }.

Definition alias_pair (a : QuoteConversionAlias) : quoteConversionPair := (Token_ID (al_Input a), Token_ID (al_Output a)).
Definition alias_canonical (a : QuoteConversionAlias) : quoteConversionPair :=
  (Token_ID (al_CanonicalInput a), Token_ID (al_CanonicalOutput a)).

(** A projection carries its alias, whose canonical pair is determined by it. *)
Record QuoteConversionBook := mkBook {
  bk_workers : gmap quoteConversionPair QuoteConversionWorker;
  bk_projections : gmap quoteConversionPair QuoteConversionAlias }.

Definition worker_pair (w : QuoteConversionWorker) : quoteConversionPair :=
  (amount_token (wc_Input (wk_config w)), wc_OutputToken (wk_config w)).

Definition add_worker (workers : gmap quoteConversionPair QuoteConversionWorker) (worker : option QuoteConversionWorker) :
    res (gmap quoteConversionPair QuoteConversionWorker) :=
  match worker with
  | None => Err (Errorf "quote conversion worker is nil")
  | Some w =>
      match workers !! worker_pair w with
      | Some _ => Err (Errorf "duplicate quote conversion worker")
      | None => Ok (<[worker_pair w := w]> workers)
      end
  end.

Definition alias_incomplete (workers : gmap quoteConversionPair QuoteConversionWorker) (a : QuoteConversionAlias) : Prop :=
  Token_ID (al_Input a) = "" \/ Token_ID (al_Output a) = "" \/ Token_ID (al_Input a) = Token_ID (al_Output a) \/
  Token_Asset (al_Input a) = "" \/ Token_Asset (al_Input a) <> Token_Asset (al_Output a) \/
  Token_ID (al_CanonicalInput a) = "" \/ Token_ID (al_CanonicalOutput a) = "" \/
  Token_Asset (al_CanonicalInput a) <> Token_Asset (al_Input a) \/
  Token_Asset (al_CanonicalOutput a) <> Token_Asset (al_Output a) \/
  workers !! alias_canonical a = None \/ workers !! alias_pair a <> None.
#[export] Instance lookup_None_dec (workers : gmap quoteConversionPair QuoteConversionWorker) k : Decision (workers !! k = None).
Proof using Type. destruct (workers !! k); [right; discriminate|left; reflexivity]. Defined.
#[export] Instance alias_incomplete_dec workers a : Decision (alias_incomplete workers a) :=
  ltac:(unfold alias_incomplete; apply _).

Definition add_alias (workers : gmap quoteConversionPair QuoteConversionWorker)
    (projections : gmap quoteConversionPair QuoteConversionAlias) (a : QuoteConversionAlias) :
    res (gmap quoteConversionPair QuoteConversionAlias) :=
  if decide (alias_incomplete workers a) then Err (Errorf "quote conversion alias is incomplete") else
  match projections !! alias_pair a with
  | Some _ => Err (Errorf "duplicate quote conversion alias")
  | None => Ok (<[alias_pair a := a]> projections)
  end.

Definition NewQuoteConversionBookWithAliases (workers : list (option QuoteConversionWorker))
    (aliases : list QuoteConversionAlias) : res QuoteConversionBook :=
  known ← foldM add_worker ∅ workers;
  projections ← foldM (add_alias known) ∅ aliases;
  Ok (mkBook known projections).

(** A worker of the book is refreshed by its own goroutine. *)
Definition Book_Refresh (pair : quoteConversionPair) (answer : res TokenAmount) (now : Time) (b : QuoteConversionBook) :
    QuoteConversionBook :=
  mkBook (alter (fun w => (Refresh answer now w).2) pair (bk_workers b)) (bk_projections b).

(** The amounts of the alias; every error of a conversion answers [false]. *)
Definition project (a : QuoteConversionAlias) (canonicalInput : TokenAmount) (snapshot : QuoteConversionSnapshot) :
    res QuoteConversionSnapshot :=
  inputQuantity ← ToAssetQuantity canonicalInput (al_CanonicalInput a);
  projectedInput ← ToTokenAmount inputQuantity (al_Input a);
  outputQuantity ← ToAssetQuantity (qc_Output snapshot) (al_CanonicalOutput a);
  projectedOutput ← ToTokenAmount outputQuantity (al_Output a);
  if decide (IsZero projectedOutput) then Err (Errorf "projected output is zero") else
  NewQuoteConversionSnapshot sha256 (qc_Provider snapshot) projectedInput projectedOutput
    (qc_ReceivedAt snapshot) (qc_ExpiresAt snapshot).

(** [value, err == nil]. *)
Definition available {A} (r : res A) : res (option A) :=
  match r with Ok a => Ok (Some a) | Err _ => Ok None | Panic why => Panic why end.

Definition Book_Snapshot (b : QuoteConversionBook) (input output : TokenID) (at_ : Time) : res (option QuoteConversionSnapshot) :=
  match bk_workers b !! (input, output) with
  | Some worker => available (CurrentAt at_ worker)
  | None =>
      match bk_projections b !! (input, output) with
      | None => Ok None
      | Some alias =>
          match bk_workers b !! alias_canonical alias with
          | None => Panic "nil worker"
          | Some worker => available (snapshot ← CurrentAt at_ worker; project alias (wc_Input (wk_config worker)) snapshot)
          end
      end
  end.

(** ** Workers answer with their last refresh *)

(** A worker after the refreshes of a history, the last one at the end. *)
Inductive refreshed (config : WorkerConfig) : list (res TokenAmount * Time) -> QuoteConversionWorker -> Prop :=
| refreshed_new w : NewQuoteConversionWorker config = Ok w -> refreshed config [] w
| refreshed_step h w answer now :
    refreshed config h w -> no_panic answer -> refreshed config (h ++ [(answer, now)]) (Refresh answer now w).2.

Lemma refreshed_snapshot_no_panic config output now : no_panic (refreshed_snapshot config output now).
Proof using Type. unfold refreshed_snapshot, NewQuoteConversionSnapshot. no_panic_auto. Qed.

Lemma NewQuoteConversionSnapshot_inv provider input output receivedAt expiresAt s :
  NewQuoteConversionSnapshot sha256 provider input output receivedAt expiresAt = Ok s ->
  provider <> "" /\ ~ IsZero input /\ ~ IsZero output /\ qc_Provider s = provider /\ qc_Input s = input /\ qc_Output s = output /\
  qc_ReceivedAt s = receivedAt /\ qc_ExpiresAt s = expiresAt.
Proof using Type.
  unfold NewQuoteConversionSnapshot. destruct (decide _) as [|Hok]; [done|]. intros [= <-]. cbn. naive_solver.
Qed.

(** What the last refresh answered. *)
Definition last_refresh (config : WorkerConfig) (h : list (res TokenAmount * Time)) : option (res QuoteConversionSnapshot) :=
  (fun '(answer, now) => output ← answer; refreshed_snapshot config output now) <$> last h.

Lemma refreshed_state config h w :
  refreshed config h w ->
  wk_config w = config /\
  match last_refresh config h with
  | None => wk_err w = None /\ wk_current w = conversion_zero
  | Some (Ok s) => wk_err w = None /\ wk_current w = s
  | Some (Err e) => wk_err w = Some e
  | Some (Panic _) => False
  end.
Proof using Type.
  destruct 1 as [w Hnew|h w answer now Hw Hpanic].
  - unfold NewQuoteConversionWorker in Hnew. destruct (decide _); [done|]. by injection Hnew as <-.
  - assert (wk_config w = config) as Hc.
    { clear Hpanic. induction Hw as [w Hnew|h w answer' now' Hw IH Hp].
      - unfold NewQuoteConversionWorker in Hnew. destruct (decide _); [done|]. by injection Hnew as <-.
      - unfold Refresh. destruct answer' as [output|e|why]; cbn; [|done..]. by destruct (refreshed_snapshot _ _ _). }
    unfold last_refresh. rewrite last_snoc. cbn. unfold Refresh. rewrite Hc.
    destruct answer as [output|e|why]; cbn; [|done|by destruct (Hpanic why)].
    pose proof (refreshed_snapshot_no_panic config output now) as Hn.
    destruct (refreshed_snapshot config output now) as [s|e|why]; cbn; [done..|by destruct (Hn why)].
Qed.

(** A worker answers exactly with the snapshot of its last refresh, as long as
    that refresh succeeded and has not expired: an earlier conversion is never
    served, and a failed refresh takes the conversion away. *)
Theorem CurrentAt_latest config h w at_ s :
  refreshed config h w ->
  CurrentAt at_ w = Ok s <-> last_refresh config h = Some (Ok s) /\ at_ <= qc_ExpiresAt s.
Proof using Type.
  intros Hw. apply refreshed_state in Hw as [_ Hlast]. unfold CurrentAt.
  destruct (last_refresh config h) as [[c|e|why]|] eqn:Hl; [|rewrite Hlast; split; [done|by intros [[=] _]]|done|].
  - destruct Hlast as [-> ->].
    assert (conversion_ValidAt c at_ <-> at_ <= qc_ExpiresAt c) as Hvalid.
    { unfold last_refresh in Hl. destruct (last h) as [[answer now]|]; [|done]. injection Hl as Hl.
      apply bind_Ok in Hl as (output & _ & Hc). apply NewQuoteConversionSnapshot_inv in Hc as (? & ? & ? & Hp & Hi & Ho & _).
      unfold conversion_ValidAt, Time_After. rewrite Hp, Hi, Ho, <- Z.le_ngt. tauto. }
    destruct (decide _) as [Hv|Hv]; rewrite Hvalid in Hv; split; [by intros [= <-]|by intros [[= <-] _]|done|].
    intros [[= <-] ?]. done.
  - destruct Hlast as [-> ->]. rewrite decide_False; [split; [done|by intros [[=] _]]|]. by intros [? _].
Qed.

(** ** What the book answers *)

Definition book_ok (b : QuoteConversionBook) : Prop :=
  forall pair a, bk_projections b !! pair = Some a ->
    alias_pair a = pair /\ is_Some (bk_workers b !! alias_canonical a) /\ bk_workers b !! pair = None.

(** A book that was built, and refreshed by its workers since. *)
Inductive book_runs : QuoteConversionBook -> Prop :=
| book_new workers aliases b : NewQuoteConversionBookWithAliases workers aliases = Ok b -> book_runs b
| book_refresh b pair answer now : book_runs b -> book_runs (Book_Refresh pair answer now b).

Lemma book_runs_ok b : book_runs b -> book_ok b.
Proof using Type.
  induction 1 as [workers aliases b Hnew|b pair answer now _ IH].
  - unfold NewQuoteConversionBookWithAliases in Hnew. apply bind_Ok in Hnew as (known & _ & Hnew).
    apply bind_Ok in Hnew as (projections & Hp & [= <-]). unfold book_ok. cbn.
    eapply (foldM_inv (add_alias known) (fun m => forall pair a, m !! pair = Some a ->
      alias_pair a = pair /\ is_Some (known !! alias_canonical a) /\ known !! pair = None)); [by intros pair a ?%lookup_empty_Some| |exact Hp].
    intros m a m' _ Hm Hadd. unfold add_alias in Hadd. destruct (decide _) as [|Hok] in Hadd; [done|].
    destruct (m !! alias_pair a); [done|]. injection Hadd as <-. intros pair a' Ha. apply lookup_insert_Some in Ha as [[<- <-]|[_ Ha]]; [|by apply Hm].
    split; [done|]. unfold alias_incomplete in Hok. split.
    + destruct (known !! alias_canonical a); [by eexists|tauto].
    + destruct (known !! alias_pair a); [|done]. exfalso. apply Hok. do 10 right. done.
  - intros pair' a Ha. destruct (IH pair' a Ha) as (? & Hc & Hn). split; [done|]. cbn. split.
    + rewrite lookup_alter_is_Some. done.
    + by apply lookup_alter_None.
Qed.

Lemma CurrentAt_no_panic at_ w : no_panic (CurrentAt at_ w).
Proof using Type. unfold CurrentAt. destruct (wk_err w); no_panic_auto. Qed.

Lemma project_no_panic a input s : no_panic (project a input s).
Proof using Type.
  unfold project. apply no_panic_bind; [apply ToAssetQuantity_no_panic|intros ? _].
  apply no_panic_bind; [apply ToTokenAmount_no_panic|intros ? _]. apply no_panic_bind; [apply ToAssetQuantity_no_panic|intros ? _].
  apply no_panic_bind; [apply ToTokenAmount_no_panic|intros ? _]. unfold NewQuoteConversionSnapshot. no_panic_auto.
Qed.

Lemma available_Some {A} (r : res A) a : available r = Ok (Some a) -> r = Ok a.
Proof using Type. destruct r as [x|e|w]; [by intros [= ->]|done|done]. Qed.
Lemma available_no_panic {A} (r : res A) : no_panic r -> no_panic (available r).
Proof using Type. intros H why. destruct r as [a|e|w]; [done|done|]. by destruct (H w). Qed.

(** [amount] is what [canonical], an amount of [from], is worth in units of [to],
    rounded down. *)
Definition projected (canonical amount : TokenAmount) (from to : Token) : Prop :=
  amount_token canonical = Token_ID from /\ amount_token amount = Token_ID to /\
  is_floor (Units amount) (worth canonical from * SetInt (decimalFactor (Token_Decimals to)))%Qc.

Lemma projected_inv canonical from to quantity amount :
  ToAssetQuantity canonical from = Ok quantity -> ToTokenAmount quantity to = Ok amount -> projected canonical amount from to.
Proof using Type.
  intros Hq Ha. apply ToAssetQuantity_inv in Hq as (Ht & _ & ->). split; [done|].
  pose proof Ha as Hfloor. apply ToTokenAmount_is_floor in Hfloor as [_ Hfloor]. split; [|exact Hfloor].
  unfold ToTokenAmount in Ha. do 2 (destruct (decide _); [done|]). by apply NewTokenAmount_inv in Ha as (_ & ? & _).
Qed.

(** Over every run of its workers a book answers without a panic.  A direct
    conversion is the current snapshot of its worker.  A projected one has the
    tokens of the alias and the provider and validity of the current canonical
    snapshot, and both its amounts are worth the canonical ones rounded down to a
    unit of the alias's tokens. *)
Theorem Book_Snapshot_projects b input output at_ :
  book_runs b ->
  no_panic (Book_Snapshot b input output at_) /\
  forall s, Book_Snapshot b input output at_ = Ok (Some s) ->
    (exists w, bk_workers b !! (input, output) = Some w /\ CurrentAt at_ w = Ok s) \/
    (exists alias w c, bk_projections b !! (input, output) = Some alias /\ bk_workers b !! alias_canonical alias = Some w /\
       CurrentAt at_ w = Ok c /\ amount_token (qc_Input s) = input /\ amount_token (qc_Output s) = output /\
       projected (wc_Input (wk_config w)) (qc_Input s) (al_CanonicalInput alias) (al_Input alias) /\
       projected (qc_Output c) (qc_Output s) (al_CanonicalOutput alias) (al_Output alias) /\
       qc_Provider s = qc_Provider c /\ qc_ReceivedAt s = qc_ReceivedAt c /\ qc_ExpiresAt s = qc_ExpiresAt c).
Proof using Type.
  intros Hb%book_runs_ok. unfold Book_Snapshot. destruct (bk_workers b !! (input, output)) as [w|] eqn:Hw.
  { split; [apply available_no_panic, CurrentAt_no_panic|]. intros s Hs. apply available_Some in Hs. left. exists w. split; [reflexivity|exact Hs]. }
  destruct (bk_projections b !! (input, output)) as [alias|] eqn:Ha; [|split; [done|intros s Hs; discriminate Hs]].
  destruct (Hb _ _ Ha) as (Hpair & [w Hcanonical] & _). rewrite Hcanonical. split.
  { apply available_no_panic, no_panic_bind; [apply CurrentAt_no_panic|intros c _; apply project_no_panic]. }
  intros s Hs%available_Some. apply bind_Ok in Hs as (c & Hc & Hs). right. exists alias, w, c. unfold project in Hs.
  apply bind_Ok in Hs as (iq & Hiq & Hs). apply bind_Ok in Hs as (pi & Hpi & Hs).
  apply bind_Ok in Hs as (oq & Hoq & Hs). apply bind_Ok in Hs as (po & Hpo & Hs). destruct (decide _); [done|].
  apply NewQuoteConversionSnapshot_inv in Hs as (_ & _ & _ & Hprov & Hin & Hout & Hr & He).
  pose proof (projected_inv _ _ _ _ _ Hiq Hpi) as Hpin. pose proof (projected_inv _ _ _ _ _ Hoq Hpo) as Hpout.
  rewrite Hin, Hout. injection Hpair as Hi Ho. do 3 (split; [done|]).
  split; [by rewrite <- Hi; apply Hpin|]. split; [by rewrite <- Ho; apply Hpout|]. done.
Qed.
End conversions.

(** ** Witnesses *)

Module CostingWitness.
Definition hash (_ : string) : Digest := "hash".
Definition text (_ : error) : string := "".
Definition token (id : TokenID) (decimals : N) : Token := mkToken id "USD" "base" decimals id.
(** A bridged dollar with two decimals on one chain, none on the other. *)
Definition wide : Token := token "usdce" 2.
Definition usdc : Token := token "usdc" 2.
Definition coarse : Token := token "usdce-far" 0.
Definition usdc_far : Token := token "usdc-far" 2.
Definition amount (t : TokenID) (n : Z) : TokenAmount := mkTokenAmount t (Some n).
Definition config : WorkerConfig := mkWorkerConfig (Some "provider") (amount "usdce" 190) "usdc" 5 0 10 true true true.
Definition fresh : QuoteConversionWorker := mkWorker config conversion_zero None.
Definition alias : QuoteConversionAlias := mkQuoteConversionAlias coarse usdc_far wide usdc.
Definition book : QuoteConversionBook :=
  default (mkBook ∅ ∅) (res_opt (NewQuoteConversionBookWithAliases [Some fresh] [alias])).
Definition history : list (res TokenAmount * Time) := [(Err (Errorf "offline"), 3); (Ok (amount "usdc" 190), 5)].
Definition worker : QuoteConversionWorker :=
  (Refresh hash text (Ok (amount "usdc" 190)) 5 (Refresh hash text (Err (Errorf "offline")) 3 fresh).2).2.
Definition answered : QuoteConversionBook := Book_Refresh hash text ("usdce", "usdc") (Ok (amount "usdc" 190)) 5 book.

Lemma latest_witness : exists s, CurrentAt 15 worker = Ok s /\ qc_ExpiresAt s = 15 /\ CurrentAt 16 worker <> Ok s.
Proof.
  assert (refreshed hash text config history worker) as Hw.
  { apply (refreshed_step hash text config [(Err (Errorf "offline"), 3)] _ (Ok (amount "usdc" 190)) 5); [|done].
    apply (refreshed_step hash text config [] fresh (Err (Errorf "offline")) 3); [|done]. by apply refreshed_new. }
  destruct (refreshed_snapshot hash config (amount "usdc" 190) 5) as [s|e|why] eqn:Hs; [|discriminate Hs..].
  assert (last_refresh hash config history = Some (Ok s)) as Hl by (rewrite <- Hs; reflexivity).
  assert (qc_ExpiresAt s = 15) as He by (injection Hs as <-; reflexivity).
  exists s. split; [apply (CurrentAt_latest hash text config history worker 15 s Hw); split; [exact Hl|lia]|].
  split; [exact He|]. intros Hlate. apply (CurrentAt_latest hash text config history worker 16 s Hw) in Hlate as [_ Hle]. lia.
Defined.

Lemma projects_witness :
  exists s, Book_Snapshot hash answered "usdce-far" "usdc-far" 7 = Ok (Some s) /\
    amount_token (qc_Input s) = "usdce-far" /\ Units (qc_Input s) = 1 /\ Units (qc_Output s) = 190.
Proof.
  assert (book_runs hash text answered) as Hb by (apply book_refresh, (book_new hash text [Some fresh] [alias]); reflexivity).
  destruct (Book_Snapshot_projects hash text answered "usdce-far" "usdc-far" 7 Hb) as [_ H].
  destruct (Book_Snapshot hash answered "usdce-far" "usdc-far" 7) as [[s|]|e|why] eqn:Hs; [|vm_compute in Hs; discriminate Hs..].
  exists s. split; [reflexivity|]. destruct (H s eq_refl) as [(w & Hw & _)|(a & w & c & _ & _ & _ & Hi & _)]; [discriminate Hw|].
  split; [exact Hi|]. vm_compute in Hs. injection Hs as <-. split; reflexivity.
Defined.

(** Both amounts are rounded down, so the rate the alias implies can exceed the
    canonical one: 1.90 dollars for 1.90 is projected to 1.90 for 1. *)
Example projected_rate_overstated :
  match CurrentAt 7 (default fresh (bk_workers answered !! ("usdce", "usdc"))), Book_Snapshot hash answered "usdce-far" "usdc-far" 7 with
  | Ok c, Ok (Some s) =>
      (worth (qc_Output c) usdc / worth (qc_Input c) wide < worth (qc_Output s) usdc_far / worth (qc_Input s) coarse)%Qc
  | _, _ => False
  end.
Proof. vm_compute. reflexivity. Qed.
End CostingWitness.
