(* ===== verification/ConstantProduct.v ===== *)
(** * Constant-product pools
    (src/adapters/market/constantproduct/state.go, reducer.go, quoter.go)

    Reserve updates, the snapshots they reduce to, and the exact-input and
    exact-output quotes.  [as_snapshot] and [as_update] are Go's type assertions
    on the payload interfaces; [sha256] is Go's hash. *)
From S2P Require Import Prelude Amount Quote Registry Pools.
Local Open Scope Z_scope.

Definition basisPoints : Z := 10000.
Definition snapshotSchemaVersion : Z := 1.

(** ** State *)

Record ReserveUpdate := mkReserveUpdate {
  ru_base : option Z; ru_quote : option Z; ru_feeBPS : Z }.

Definition NewReserveUpdate (baseReserve quoteReserve : option Z) (feeBPS : Z) : res ReserveUpdate :=
  match baseReserve, quoteReserve with
  | Some b, Some q =>
      if decide (Z.sgn b <= 0 \/ Z.sgn q <= 0) then Err (Errorf "reserves must be positive") else
      if decide (10000 <= feeBPS) then Err (Errorf "fee must be below 10000 basis points")
      else Ok (mkReserveUpdate (Some b) (Some q) feeBPS)
  | _, _ => Err (Errorf "reserves must be positive")
  end.

(** The accessors of a nil [*big.Int] return a fresh zero. *)
Definition ReserveUpdate_BaseReserve (u : ReserveUpdate) : Z := default 0 (ru_base u).
Definition ReserveUpdate_QuoteReserve (u : ReserveUpdate) : Z := default 0 (ru_quote u).

Definition ReserveUpdate_validate (u : ReserveUpdate) : res unit :=
  if decide (Z.sgn (ReserveUpdate_BaseReserve u) <= 0 \/ Z.sgn (ReserveUpdate_QuoteReserve u) <= 0 \/
             10000 <= ru_feeBPS u)
  then Err (Errorf "invalid reserve update") else Ok tt.

Record Snapshot := mkSnapshot {
  cp_schemaVersion : Z; cp_base : option Z; cp_quote : option Z; cp_feeBPS : Z }.

Definition BaseReserve (s : Snapshot) : Z := default 0 (cp_base s).
Definition QuoteReserve (s : Snapshot) : Z := default 0 (cp_quote s).

(** ** Reducer *)

Section reducer.
Context {E : Type} (as_update : E -> option ReserveUpdate) (sha256 : string -> Digest).

(** [fmt.Sprintf("%d|%s|%s|%d", ...)]. *)
Definition canonical (state : Snapshot) : string :=
  pretty (cp_schemaVersion state) +:+ "|" +:+ pretty (BaseReserve state) +:+ "|" +:+
  pretty (QuoteReserve state) +:+ "|" +:+ pretty (cp_feeBPS state).

Definition Reduce (ctx_Err : option error) (data : E) : res (Snapshot * Digest) :=
  match ctx_Err with
  | Some e => Err e
  | None =>
      match as_update data with
      | None => Err (Errorf "unsupported constant-product event payload %T")
      | Some update =>
          _ ← ReserveUpdate_validate update;
          let state := mkSnapshot snapshotSchemaVersion (Some (ReserveUpdate_BaseReserve update))
            (Some (ReserveUpdate_QuoteReserve update)) (ru_feeBPS update) in
          Ok (state, sha256 (canonical state))
      end
  end.
End reducer.

(** ** Quoter *)

Record Quoter := mkQuoter { qt_id : SourceID; qt_market : Market }.

Definition NewQuoter (id : SourceID) (candidate : Market) : res Quoter :=
  if decide (id = "" \/ Market_ID candidate = "" \/ Market_BaseToken candidate = "" \/
             Market_QuoteToken candidate = "")
  then Err (Errorf "source and complete market are required") else Ok (mkQuoter id candidate).

Definition reserves (q : Quoter) (state : Snapshot) (tokenIn tokenOut : TokenID) : res (Z * Z) :=
  if decide (tokenIn = Market_QuoteToken (qt_market q) /\ tokenOut = Market_BaseToken (qt_market q))
  then Ok (QuoteReserve state, BaseReserve state)
  else if decide (tokenIn = Market_BaseToken (qt_market q) /\ tokenOut = Market_QuoteToken (qt_market q))
  then Ok (BaseReserve state, QuoteReserve state)
  else Err (Errorf "unsupported token direction %q -> %q").

(** The two formulas. *)
Definition exact_input (reserveIn reserveOut feeBPS amountIn : Z) : Z :=
  let amountInWithFee := amountIn * (basisPoints - feeBPS) in
  Z.quot (amountInWithFee * reserveOut) (reserveIn * basisPoints + amountInWithFee).

Definition exact_output (reserveIn reserveOut feeBPS amountOut : Z) : Z :=
  Z.quot (reserveIn * amountOut * basisPoints) ((reserveOut - amountOut) * (basisPoints - feeBPS)) + 1.

Definition pool_fee (feeBPS amountIn : Z) : Z := Z.quot (amountIn * feeBPS) basisPoints.

Section quoter.
Context {D : Type} (as_snapshot : D -> option Snapshot) (q : Quoter) (ctx_Err : option error).

Definition incompatible {A} : res A := Err (Errorf "incompatible constant-product snapshot %T").

(** [input.Snapshot.Data().(Snapshot)] with the schema check. *)
Definition pool_state (snapshot : MarketSnapshot D) : res Snapshot :=
  match snap_data snapshot ≫= as_snapshot with
  | Some state => if decide (cp_schemaVersion state <> snapshotSchemaVersion) then incompatible else Ok state
  | None => incompatible
  end.

Definition Quote (input : QuoteInput D) : res Quote :=
  match ctx_Err with
  | Some e => Err e
  | None =>
      let metadata := snap_metadata (in_Snapshot input) in
      if decide (md_Market metadata <> Market_ID (qt_market q))
      then Err (Errorf "snapshot belongs to market %q, expected %q") else
      state ← pool_state (in_Snapshot input);
      if decide (amount_token (in_AmountIn input) <> in_TokenIn input \/ IsZero (in_AmountIn input))
      then Err (Errorf "positive input amount must match input token") else
      '(reserveIn, reserveOut) ← reserves q state (in_TokenIn input) (in_TokenOut input);
      let amountIn := Units (in_AmountIn input) in
      let amountOutUnits := exact_input reserveIn reserveOut (cp_feeBPS state) amountIn in
      if decide (Z.sgn amountOutUnits <= 0) then Err ErrQuoteOutputRoundsToZero else
      amountOut ← NewTokenAmount (in_TokenOut input) (Some amountOutUnits);
      pool_quote (qt_id q) (Market_ID (qt_market q)) metadata (in_Purpose input) QuoteModeExactInput
        (in_QuotedAt input) (in_TokenIn input) (in_AmountIn input) amountOut (pool_fee (cp_feeBPS state) amountIn)
  end.

Definition QuoteExactOutput (input : ExactOutputInput D) : res Quote.Quote :=
  match ctx_Err with
  | Some e => Err e
  | None =>
      let metadata := snap_metadata (out_Snapshot input) in
      if decide (md_Market metadata <> Market_ID (qt_market q))
      then Err (Errorf "snapshot belongs to market %q, expected %q") else
      state ← pool_state (out_Snapshot input);
      if decide (amount_token (out_AmountOut input) <> out_TokenOut input \/ IsZero (out_AmountOut input))
      then Err (Errorf "positive output amount must match output token") else
      '(reserveIn, reserveOut) ← reserves q state (out_TokenIn input) (out_TokenOut input);
      let amountOut := Units (out_AmountOut input) in
      if decide (reserveOut <= amountOut) then Err (Errorf "exact output exhausts constant-product reserve") else
      let amountInUnits := exact_output reserveIn reserveOut (cp_feeBPS state) amountOut in
      amountIn ← NewTokenAmount (out_TokenIn input) (Some amountInUnits);
      pool_quote (qt_id q) (Market_ID (qt_market q)) metadata (out_Purpose input) QuoteModeExactOutput
        (out_QuotedAt input) (out_TokenIn input) amountIn (out_AmountOut input)
        (pool_fee (cp_feeBPS state) amountInUnits)
  end.
End quoter.

(** ** The formulas *)

Section formulas.
Context (reserveIn reserveOut feeBPS : Z).
Hypothesis (Hin : 0 < reserveIn) (Hout : 0 < reserveOut) (Hfee : 0 <= feeBPS < basisPoints).

(** The reserves after a trade, the input counted net of the fee and scaled. *)
Definition kept (amountIn amountOut : Z) : Z :=
  (reserveIn * basisPoints + amountIn * (basisPoints - feeBPS)) * (reserveOut - amountOut).

(** The output is the most the pool can pay without lowering its product. *)
Lemma exact_input_max amountIn k :
  0 < amountIn ->
  k <= exact_input reserveIn reserveOut feeBPS amountIn <-> reserveIn * reserveOut * basisPoints <= kept amountIn k.
Proof using Hin Hout Hfee.
  intros Ha. unfold exact_input, kept, basisPoints in *. cbv zeta.
  pose proof (Zquot_bounds (amountIn * (10000 - feeBPS) * reserveOut)
    (reserveIn * 10000 + amountIn * (10000 - feeBPS)) ltac:(nia) ltac:(nia)) as Hq.
  set (out := Z.quot _ _) in *. set (net := amountIn * (10000 - feeBPS)) in *. split; nia.
Qed.

Lemma exact_input_lt amountIn :
  0 < amountIn -> 0 <= exact_input reserveIn reserveOut feeBPS amountIn < reserveOut.
Proof using Hin Hout Hfee.
  intros Ha. split.
  - apply exact_input_max; [done|]. unfold kept, basisPoints in *. nia.
  - assert (~ reserveOut <= exact_input reserveIn reserveOut feeBPS amountIn); [|lia].
    rewrite exact_input_max by done. unfold kept, basisPoints in *. nia.
Qed.

(** Paying the quoted input for an output obtains it, and no input more than one
    unit lower does. *)
Lemma exact_output_covers amountOut :
  0 < amountOut < reserveOut ->
  let amountIn := exact_output reserveIn reserveOut feeBPS amountOut in
  0 < amountIn /\ amountOut <= exact_input reserveIn reserveOut feeBPS amountIn /\
  forall less, 0 < less -> amountOut <= exact_input reserveIn reserveOut feeBPS less -> amountIn <= less + 1.
Proof using Hin Hout Hfee.
  intros Ho. cbv zeta. unfold exact_output, basisPoints in *.
  pose proof (Zquot_bounds (reserveIn * amountOut * 10000) ((reserveOut - amountOut) * (10000 - feeBPS))
    ltac:(nia) ltac:(nia)) as Hq.
  set (q := Z.quot _ _) in *. assert (0 <= q) by nia. split; [lia|]. split.
  - apply exact_input_max; [lia|]. unfold kept, basisPoints. nia.
  - intros less Hless. rewrite exact_input_max by done. unfold kept, basisPoints. intros Hk.
    assert (q <= less); [|lia]. nia.
Qed.
End formulas.

(** ** The quotes *)

Definition pool_ok (s : Snapshot) : Prop :=
  cp_schemaVersion s = snapshotSchemaVersion /\ 0 < BaseReserve s /\ 0 < QuoteReserve s /\
  0 <= cp_feeBPS s < basisPoints.

(** The fee of an update is a [uint16]. *)
Lemma Reduce_pool_ok {E} (as_update : E -> option ReserveUpdate) sha256 data update state digest :
  as_update data = Some update -> 0 <= ru_feeBPS update ->
  Reduce as_update sha256 None data = Ok (state, digest) -> pool_ok state.
Proof.
  intros Hu Hf. unfold Reduce. rewrite Hu. intros H. apply bind_Ok in H as ([] & Hv & H). injection H as <- _.
  unfold ReserveUpdate_validate in Hv. destruct (decide _) as [|Hbad] in Hv; [done|].
  unfold pool_ok, BaseReserve, QuoteReserve, basisPoints. cbn.
  destruct (Z.sgn_spec (ReserveUpdate_BaseReserve update)), (Z.sgn_spec (ReserveUpdate_QuoteReserve update)); lia.
Qed.

Section quotes.
Context {D : Type} (as_snapshot : D -> option Snapshot) (q : Quoter).
Abbreviation quote_of := (Quote as_snapshot q None).

Lemma reserves_positive state tin tout rin rout :
  pool_ok state -> reserves q state tin tout = Ok (rin, rout) -> 0 < rin /\ 0 < rout.
Proof. intros (_ & ? & ? & _). unfold reserves. do 2 (destruct (decide _); [intros [= <- <-]; lia|]). done. Qed.

Lemma sgn_pos_iff n : ~ Z.sgn n <= 0 <-> 0 < n.
Proof. destruct (Z.sgn_spec n); lia. Qed.

(** What a quote computed, and when there is one. *)
Lemma Quote_iff input quote state :
  pool_state as_snapshot (in_Snapshot input) = Ok state -> pool_ok state -> 0 <= Units (in_AmountIn input) ->
  let metadata := snap_metadata (in_Snapshot input) in
  quote_of input = Ok quote <->
  exists rin rout, md_Market metadata = Market_ID (qt_market q) /\
    reserves q state (in_TokenIn input) (in_TokenOut input) = Ok (rin, rout) /\
    amount_token (in_AmountIn input) = in_TokenIn input /\ 0 < Units (in_AmountIn input) /\
    in_TokenIn input <> "" /\ in_TokenOut input <> "" /\
    let out := exact_input rin rout (cp_feeBPS state) (Units (in_AmountIn input)) in
    0 < out /\ quotable (qt_id q) (Market_ID (qt_market q)) metadata (in_Purpose input) (in_QuotedAt input) /\
    quote = mkQuote (qt_id q) (Market_ID (qt_market q)) (md_Version metadata) (md_StateHash metadata)
      (mkSourcePosition "" 0) "" (in_Purpose input) QuoteModeExactInput QuoteQualityExact (in_AmountIn input)
      (mkTokenAmount (in_TokenOut input) (Some out)) (in_QuotedAt input)
      [mkQuoteFee "liquidity_provider" QuoteFeeCost
         (mkTokenAmount (in_TokenIn input) (Some (pool_fee (cp_feeBPS state) (Units (in_AmountIn input))))) true].
Proof.
  intros Hst Hok Hnn. cbv zeta. unfold Quote.
  assert (0 <= pool_fee (cp_feeBPS state) (Units (in_AmountIn input))) as Hpf.
  { apply Zquot_nonneg; [|done]. destruct Hok as (_ & _ & _ & ? & _). nia. }
  split.
  - intros H. destruct (decide _) as [|Hm] in H; [done|]. apply dec_stable in Hm. rewrite Hst in H.
    cbn [mbind res_bind] in H. destruct (decide _) as [|Ham] in H; [done|]. rewrite IsZero_iff in Ham.
    apply bind_Ok in H as ([rin rout] & Hr & H). cbv zeta in H. destruct (decide _) as [|Hpos] in H; [done|].
    apply sgn_pos_iff in Hpos. apply bind_Ok in H as (ao & Hao & H). apply NewTokenAmount_inv in Hao as (Hwf & Ht & Hu).
    destruct ao as [t u]. cbn in Ht, Hu. subst t u. apply pool_quote_iff in H; [|by left].
    destruct H as (Hqb & Htin & _ & _ & Htout & ->). cbn in Htout. exists rin, rout. split; [done|]. split; [done|].
    apply Decidable.not_or in Ham as [Ha1 Ha2]. apply dec_stable in Ha1. split_and!; try done; try apply Hqb; lia.
  - intros (rin & rout & Hm & Hr & Ht & Hpos & Hti & Hto & Hout & Hq & ->).
    rewrite decide_False by tauto. rewrite Hst. cbn [mbind res_bind].
    rewrite decide_False by (rewrite IsZero_iff; intros [?|?]; [done|lia]). rewrite Hr. cbn [mbind res_bind].
    rewrite decide_False by (by apply sgn_pos_iff). rewrite NewTokenAmount_Ok by (done || lia).
    cbn [mbind res_bind]. apply pool_quote_iff; [by left|]. rewrite Ht. split_and!; try done; apply Hq.
Qed.

(** An exact-input quote from a reduced snapshot answers its request, cannot
    drain the pool and never lowers the product of its reserves; it pays out the
    largest amount that keeps the product with the input counted net of the fee. *)
Theorem Quote_keeps_product (input : QuoteInput D) (quote : Quote.Quote) (state : Snapshot) :
  pool_state as_snapshot (in_Snapshot input) = Ok state -> pool_ok state -> 0 <= Units (in_AmountIn input) ->
  quote_of input = Ok quote ->
  answers_request input quote /\
  exists rin rout, reserves q state (in_TokenIn input) (in_TokenOut input) = Ok (rin, rout) /\
    Units (q_AmountOut quote) < rout /\
    rin * rout <= (rin + Units (in_AmountIn input)) * (rout - Units (q_AmountOut quote)) /\
    forall k, k <= Units (q_AmountOut quote) <->
      rin * rout * basisPoints <= kept rin rout (cp_feeBPS state) (Units (in_AmountIn input)) k.
Proof.
  intros Hst Hok Hnn H. apply (Quote_iff input quote state Hst Hok Hnn) in H.
  destruct H as (rin & rout & Hm & Hr & Ht & Hpos & Hti & Hto & Hout & Hq & ->).
  destruct (reserves_positive _ _ _ _ _ Hok Hr) as [Hin Hro]. destruct Hok as (_ & _ & _ & Hf).
  split; [by split_and!|]. exists rin, rout. split; [done|]. cbn [q_AmountOut Units amount_units].
  pose proof (exact_input_max rin rout (cp_feeBPS state) Hin Hro Hf (Units (in_AmountIn input))) as Hmax.
  pose proof (exact_input_lt rin rout (cp_feeBPS state) Hin Hro Hf (Units (in_AmountIn input)) Hpos) as Hlt.
  split; [lia|]. split; [|intros k; by apply Hmax].
  pose proof (proj1 (Hmax _ Hpos) (Z.le_refl _)) as Hk. unfold kept, basisPoints in *.
  set (out := exact_input _ _ _ _) in *. nia.
Qed.

(** Exact-output and exact-input quotes agree: the input quoted for an output
    buys at least that output when quoted back on the same snapshot, and every
    smaller input that would also cover it is smaller by at most one unit. *)
Theorem QuoteExactOutput_round_trip (input : ExactOutputInput D) (quote : Quote.Quote) (state : Snapshot) :
  pool_state as_snapshot (out_Snapshot input) = Ok state -> pool_ok state -> 0 < Units (out_AmountOut input) ->
  QuoteExactOutput as_snapshot q None input = Ok quote ->
  let back amountIn := mkQuoteInput (out_Snapshot input) (out_TokenIn input) (out_TokenOut input) amountIn
                         (out_Purpose input) (out_QuotedAt input) in
  amount_token (q_AmountIn quote) = out_TokenIn input /\
  (exists quote', quote_of (back (q_AmountIn quote)) = Ok quote' /\
     Units (out_AmountOut input) <= Units (q_AmountOut quote')) /\
  forall less quote', 0 <= Units less -> quote_of (back less) = Ok quote' ->
    Units (out_AmountOut input) <= Units (q_AmountOut quote') -> Units (q_AmountIn quote) <= Units less + 1.
Proof.
  intros Hst Hok Hpos H back. unfold QuoteExactOutput in H. rewrite Hst in H.
  destruct (decide _) as [|Hm] in H; [done|]. apply dec_stable in Hm. cbn [mbind res_bind] in H.
  destruct (decide _) as [|Ham] in H; [done|]. apply bind_Ok in H as ([rin rout] & Hr & H). cbv zeta in H.
  destruct (decide _) as [|Hlt] in H; [done|]. apply bind_Ok in H as (ai & Hai & H).
  apply NewTokenAmount_inv in Hai as (Hwf & Ht & Hu). destruct ai as [t u]. cbn in Ht, Hu. subst t u.
  apply pool_quote_iff in H; [|by right]. destruct H as (Hq & Htin & _ & _ & Htout & ->). cbn [q_AmountIn].
  destruct (reserves_positive _ _ _ _ _ Hok Hr) as [Hin Hro]. pose proof Hok as (_ & _ & _ & Hf).
  destruct (exact_output_covers rin rout (cp_feeBPS state) Hin Hro Hf (Units (out_AmountOut input)) ltac:(lia))
    as (Hpin & Hcov & Hmin).
  split; [done|]. assert (out_TokenOut input <> "") as Hto.
  { intros He. apply Decidable.not_or in Ham as [Ha _]. apply dec_stable in Ha. congruence. }
  split.
  - eexists. split.
    + refine (proj2 (Quote_iff (back _) _ state Hst Hok _) _); [cbn; lia|].
      exists rin, rout. cbn. split_and!; try done; try apply Hq. lia.
    + cbn. done.
  - intros less quote' Hnn Hback Hout. apply (Quote_iff (back less) _ state Hst Hok) in Hback; [|done].
    destruct Hback as (rin' & rout' & _ & Hr' & _ & Hp & _ & _ & _ & _ & ->). cbn in Hr', Hp, Hout.
    rewrite Hr in Hr'. injection Hr' as <- <-. cbn. by apply Hmin.
Qed.

(** The quoter keeps the contract of a quote source. *)
#[export] Instance constant_product_source : SoundSource D quote_of (fun _ => True).
Proof.
  split.
  - intros input quote H. unfold Quote in H. destruct (decide _) as [|Hm] in H; [done|]. apply dec_stable in Hm.
    apply bind_Ok in H as (state & Hst & H). destruct (decide _) as [|Ham] in H; [done|].
    apply bind_Ok in H as ([rin rout] & Hr & H). cbv zeta in H. destruct (decide _) as [|Hpos] in H; [done|].
    apply sgn_pos_iff in Hpos. apply bind_Ok in H as (ao & Hao & H). apply NewTokenAmount_inv in Hao as (_ & Ht & Hu).
    destruct ao as [t u]. cbn in Ht, Hu. subst t u. apply pool_quote_iff in H; [|by left].
    destruct H as (_ & _ & _ & _ & _ & ->). by split_and!.
  - intros input _. unfold Quote, pool_state, incompatible, reserves. no_panic_auto.
Qed.
End quotes.

Module ConstantProductWitness.
Definition pair_market : Market := mkMarket "m" "pair" "base" "path" "eth" "usdc".
Definition quoter : Quoter := mkQuoter "src" pair_market.
Definition state : Snapshot := mkSnapshot 1 (Some 1000) (Some 2000000) 30.
Definition metadata : SnapshotMetadata :=
  mkSnapshotMetadata "m" "src" 7 (mkSourcePosition "" 0) (mkSourceReference "" "") "" 0 false 1 1 HealthHealthy "" 1 "h".
Definition snapshot : MarketSnapshot Snapshot := mkMarketSnapshot metadata (Some state).
Definition sale : QuoteInput Snapshot :=
  mkQuoteInput snapshot "eth" "usdc" (mkTokenAmount "eth" (Some 10)) "research" 5.
Definition purchase : ExactOutputInput Snapshot :=
  mkExactOutputInput snapshot "usdc" "eth" (mkTokenAmount "eth" (Some 10)) "research" 5.
Definition quote_zero : Quote.Quote :=
  mkQuote "" "" 0 "" (mkSourcePosition "" 0) "" "" "" "" TokenAmount_zero TokenAmount_zero 0 [].
Definition sold : Quote.Quote := default quote_zero (res_opt (Quote Some quoter None sale)).
Definition bought : Quote.Quote := default quote_zero (res_opt (QuoteExactOutput Some quoter None purchase)).

Lemma state_ok : pool_ok state.
Proof. unfold pool_ok, snapshotSchemaVersion, basisPoints. cbn. lia. Qed.

Lemma product_witness : Units (q_AmountOut sold) = 19743 /\ answers_request sale sold.
Proof.
  split; [vm_compute; reflexivity|].
  apply (Quote_keeps_product Some quoter sale sold state); [reflexivity|apply state_ok|cbn; lia|].
  vm_compute. reflexivity.
Defined.

Lemma exact_output_witness :
  Units (q_AmountIn bought) = 20263 /\ amount_token (q_AmountIn bought) = "usdc".
Proof.
  split; [vm_compute; reflexivity|].
  apply (QuoteExactOutput_round_trip Some quoter purchase bought state); [reflexivity|apply state_ok|cbn; lia|].
  vm_compute. reflexivity.
Defined.
End ConstantProductWitness.
