(* ===== verification/LiquidityCurve.v ===== *)
(** * Piecewise-linear liquidity curves (src/adapters/market/liquiditycurve/curve.go)

    The integer engine shared by the concentrated-liquidity adapters: quotes of
    an exact input and of an exact output over ordered segments, with a fee on
    the gross input rounded against the trader.  A [*big.Int] of a segment may
    be nil; a [uint64] rate is a [Z]. *)
From S2P Require Import Prelude Amount Quote Pools.
Local Open Scope Z_scope.

Definition BasisPoints : Z := 10000.
Definition FeeRatePrecision : Z := 1000000000.

Record Segment := mkSegment { sg_In : option Z; sg_Out : option Z; sg_FeeRate : Z }.

(** Remaining amount, the other side's total, and the fee. *)
Record Progress := mkProgress { pg_remaining : Z; pg_total : Z; pg_fee : Z }.

Definition segment_reserves (s : Segment) : res (Z * Z) :=
  match sg_In s, sg_Out s with
  | Some i, Some o =>
      if decide (Z.sgn i <= 0 \/ Z.sgn o <= 0) then Err (Errorf "segment reserves must be positive") else Ok (i, o)
  | _, _ => Err (Errorf "segment reserves must be positive")
  end.

Definition segment_rate (s : Segment) (feeRate : Z) : Z :=
  if decide (sg_FeeRate s <> 0) then sg_FeeRate s else feeRate.

(** [(x * precision + (netFactor - 1)) / netFactor]. *)
Definition gross_for (net netFactor : Z) : Z := Z.quot (net * FeeRatePrecision + (netFactor - 1)) netFactor.

(** One segment of an exact input; [None] is the [break]. *)
Definition input_segment (feeRate : Z) (p : Progress) (s : Segment) : res (option Progress) :=
  if decide (Z.sgn (pg_remaining p) = 0) then Ok None else
  '(segIn, segOut) ← segment_reserves s;
  let rate := segment_rate s feeRate in
  if decide (FeeRatePrecision <= rate) then Err (Errorf "segment fee is invalid") else
  let netFactor := FeeRatePrecision - rate in
  let afterFee := Z.quot (pg_remaining p * netFactor) FeeRatePrecision in
  if decide (Z.sgn afterFee = 0) then Ok None else
  let '(gross, available) :=
    if decide (segIn < afterFee) then (gross_for segIn netFactor, segIn) else (pg_remaining p, afterFee) in
  let segmentOutput := Z.quot (available * segOut) segIn in
  if decide (Z.sgn segmentOutput = 0) then Err ErrQuoteOutputRoundsToZero else
  Ok (Some (mkProgress (pg_remaining p - gross) (pg_total p + segmentOutput) (pg_fee p + (gross - available)))).

Definition output_segment (feeRate : Z) (p : Progress) (s : Segment) : res (option Progress) :=
  if decide (Z.sgn (pg_remaining p) = 0) then Ok None else
  '(segIn, segOut) ← segment_reserves s;
  let available := if decide (segOut < pg_remaining p) then segOut else pg_remaining p in
  let afterFee := Z.quot (available * segIn + (segOut - 1)) segOut in
  let rate := segment_rate s feeRate in
  if decide (FeeRatePrecision <= rate) then Err (Errorf "segment fee is invalid") else
  let gross := gross_for afterFee (FeeRatePrecision - rate) in
  Ok (Some (mkProgress (pg_remaining p - available) (pg_total p + gross) (pg_fee p + (gross - afterFee)))).

(** The loop over the segments with its [break]. *)
Fixpoint walk (step : Progress -> Segment -> res (option Progress)) (p : Progress) (segments : list Segment) :
    res Progress :=
  match segments with
  | [] => Ok p
  | s :: segments =>
      next ← step p s;
      match next with None => Ok p | Some p' => walk step p' segments end
  end.

Definition curve_quote (step : Z -> Progress -> Segment -> res (option Progress)) (segments : list Segment)
    (amount : option Z) (feeRate : Z) : res (Z * Z) :=
  match amount with
  | None => Err (Errorf "amount must be positive and fee valid")
  | Some amount =>
      if decide (Z.sgn amount <= 0 \/ FeeRatePrecision <= feeRate)
      then Err (Errorf "amount must be positive and fee valid") else
      p ← walk (step feeRate) (mkProgress amount 0 0) segments;
      if decide (0 < Z.sgn (pg_remaining p)) then Err (Errorf "insufficient curve liquidity")
      else Ok (pg_total p, pg_fee p)
  end.

Definition ExactInputRate (segments : list Segment) (amount : option Z) (feeRate : Z) : res (Z * Z) :=
  curve_quote input_segment segments amount feeRate.
Definition ExactOutputRate (segments : list Segment) (amountOut : option Z) (feeRate : Z) : res (Z * Z) :=
  curve_quote output_segment segments amountOut feeRate.

(** [uint64(feeBPS) * FeeRatePrecision / BasisPoints]: no product overflows. *)
Definition rate_of_bps (feeBPS : Z) : Z := Z.quot (uint64 (feeBPS * FeeRatePrecision)) BasisPoints.
Definition ExactInput (segments : list Segment) (amount : option Z) (feeBPS : Z) : res (Z * Z) :=
  ExactInputRate segments amount (rate_of_bps feeBPS).
Definition ExactOutput (segments : list Segment) (amountOut : option Z) (feeBPS : Z) : res (Z * Z) :=
  ExactOutputRate segments amountOut (rate_of_bps feeBPS).

(** ** Rounding *)

Lemma gross_for_bounds net netFactor :
  0 <= net -> 0 < netFactor ->
  net * FeeRatePrecision <= gross_for net netFactor * netFactor < net * FeeRatePrecision + netFactor.
Proof.
  intros Hn Hf. unfold gross_for, FeeRatePrecision.
  pose proof (Zquot_bounds (net * 1000000000 + (netFactor - 1)) netFactor ltac:(nia) Hf) as Hq. nia.
Qed.

(** The net of the smallest gross input that reaches it is itself. *)
Lemma net_of_gross net netFactor :
  0 <= net -> 0 < netFactor <= FeeRatePrecision ->
  Z.quot (gross_for net netFactor * netFactor) FeeRatePrecision = net.
Proof.
  intros Hn Hf. pose proof (gross_for_bounds net netFactor Hn ltac:(lia)) as Hg.
  assert (0 <= gross_for net netFactor * netFactor) as Hnn by (unfold FeeRatePrecision in *; nia).
  pose proof (Zquot_bounds (gross_for net netFactor * netFactor) FeeRatePrecision Hnn ltac:(done)) as Hq.
  unfold FeeRatePrecision in *. nia.
Qed.

Lemma ceil_output available segIn segOut :
  0 <= available -> 0 < segIn -> 0 < segOut ->
  let afterFee := Z.quot (available * segIn + (segOut - 1)) segOut in
  available * segIn <= afterFee * segOut < available * segIn + segOut.
Proof.
  intros. cbv zeta. pose proof (Zquot_bounds (available * segIn + (segOut - 1)) segOut ltac:(nia) ltac:(lia)). nia.
Qed.

(** ** Round trip *)

Section round_trip.
Context (feeRate : Z).
Hypothesis (Hrate : 0 <= feeRate < FeeRatePrecision).

Definition rate_of (s : Segment) : Z := segment_rate s feeRate.

(** Rates are [uint64]s that grow along the curve. *)
Definition rates_ok (segments : list Segment) : Prop :=
  Forall (fun s => 0 <= sg_FeeRate s) segments /\ Sorted (fun s t => rate_of s <= rate_of t) segments.

Lemma walk_output_spent (segments : list Segment) p p' :
  walk (output_segment feeRate) p segments = Ok p' -> pg_remaining p = 0 -> p' = p.
Proof using.
  intros H H0. destruct segments as [|s segments]; cbn in H; [by injection H as <-|].
  unfold output_segment in H. rewrite decide_True in H by (by rewrite H0). by injection H as <-.
Qed.

(** What a step of the exact output does to a positive remainder. *)
Lemma output_step s p :
  0 < pg_remaining p -> 0 <= sg_FeeRate s ->
  forall next, output_segment feeRate p s = Ok next ->
  exists segIn segOut available afterFee gross,
    segment_reserves s = Ok (segIn, segOut) /\ 0 < segIn /\ 0 < segOut /\ 0 <= rate_of s < FeeRatePrecision /\
    available = Z.min segOut (pg_remaining p) /\
    available * segIn <= afterFee * segOut < available * segIn + segOut /\
    gross = gross_for afterFee (FeeRatePrecision - rate_of s) /\ 0 < afterFee /\
    next = Some (mkProgress (pg_remaining p - available) (pg_total p + gross) (pg_fee p + (gross - afterFee))).
Proof using Hrate.
  intros Hp Hs next H. unfold output_segment in H. destruct (decide _) as [Hz|_] in H; [destruct (Z.sgn_spec (pg_remaining p)); lia|].
  apply bind_Ok in H as ([segIn segOut] & Hres & H). cbv zeta in H.
  destruct (decide (FeeRatePrecision <= _)) as [|Hr] in H; [done|]. injection H as <-.
  assert (0 < segIn /\ 0 < segOut) as [Hi Ho].
  { unfold segment_reserves in Hres. destruct (sg_In s), (sg_Out s); try done.
    destruct (decide _) as [|Hsg] in Hres; [done|]. injection Hres as <- <-.
    destruct (Z.sgn_spec z), (Z.sgn_spec z0); lia. }
  set (available := if decide (segOut < pg_remaining p) then segOut else pg_remaining p).
  assert (available = Z.min segOut (pg_remaining p)) as Hav by (unfold available; case_decide; lia).
  pose proof (ceil_output available segIn segOut ltac:(lia) Hi Ho) as Hc. cbv zeta in Hc.
  set (net := Z.quot (available * segIn + (segOut - 1)) segOut) in *.
  exists segIn, segOut, available, net, (gross_for net (FeeRatePrecision - rate_of s)).
  assert (0 <= rate_of s < FeeRatePrecision) as Hr' by (unfold rate_of, segment_rate in *; case_decide; lia).
  assert (0 < net) as Hnet by (assert (0 < available * segIn) by nia; apply Z.nle_gt; nia).
  split_and!; try done; lia.
Qed.

Lemma walk_output_grows segments p p' :
  Forall (fun s => 0 <= sg_FeeRate s) segments -> 0 <= pg_remaining p ->
  walk (output_segment feeRate) p segments = Ok p' -> pg_total p <= pg_total p' /\ 0 <= pg_remaining p'.
Proof using Hrate.
  intros Hs. revert p. induction Hs as [|s segments Hs _ IH]; intros p Hp H; cbn in H; [by injection H as <-|].
  destruct (decide (pg_remaining p = 0)) as [H0|H0].
  { unfold output_segment in H. rewrite decide_True in H by (by rewrite H0). by injection H as <-. }
  apply bind_Ok in H as (next & Hstep & H).
  destruct (output_step s p ltac:(lia) Hs next Hstep) as (segIn & segOut & av & net & gross & _ & Hi & Ho & Hr & -> & Hn & -> & Hpos & ->).
  apply IH in H; [|cbn; lia]. cbn in H.
  pose proof (gross_for_bounds net (FeeRatePrecision - rate_of s) ltac:(lia) ltac:(lia)).
  unfold FeeRatePrecision in *. nia.
Qed.

(** Spending the gross amount of a segment's net yields at least the output
    asked of it, and spending more than the segment takes consumes it whole. *)
Lemma input_last s segIn segOut available afterFee o f :
  segment_reserves s = Ok (segIn, segOut) -> 0 < segIn -> 0 < segOut -> 0 <= rate_of s < FeeRatePrecision ->
  0 < available <= segOut -> available * segIn <= afterFee * segOut < available * segIn + segOut ->
  let gross := gross_for afterFee (FeeRatePrecision - rate_of s) in
  exists out, input_segment feeRate (mkProgress gross o f) s = Ok (Some (mkProgress 0 (o + out) (f + (gross - afterFee)))) /\
    available <= out.
Proof using Hrate.
  intros Hres Hi Ho Hr Hav Hc gross. assert (0 < afterFee <= segIn) as Hnet by nia.
  pose proof (gross_for_bounds afterFee (FeeRatePrecision - rate_of s) ltac:(lia) ltac:(lia)) as Hg.
  assert (0 < gross) as Hgp by (unfold gross, FeeRatePrecision in *; nia).
  exists (Z.quot (afterFee * segOut) segIn). unfold input_segment. cbn [pg_remaining pg_total pg_fee].
  pose proof (Zquot_bounds (afterFee * segOut) segIn ltac:(nia) Hi) as Hq.
  rewrite decide_False by (destruct (Z.sgn_spec gross); lia). rewrite Hres. cbn [mbind res_bind]. cbv zeta.
  fold (rate_of s). rewrite decide_False by lia.
  unfold gross. rewrite net_of_gross by lia. fold gross.
  rewrite decide_False by (destruct (Z.sgn_spec afterFee); lia). rewrite decide_False by lia.
  rewrite decide_False by (destruct (Z.sgn_spec (Z.quot (afterFee * segOut) segIn)); nia).
  rewrite Z.sub_diag. split; [done|nia].
Qed.

Lemma input_whole s segIn segOut extra o f :
  segment_reserves s = Ok (segIn, segOut) -> 0 < segIn -> 0 < segOut -> 0 <= rate_of s < FeeRatePrecision ->
  FeeRatePrecision <= extra * (FeeRatePrecision - rate_of s) ->
  let gross := gross_for segIn (FeeRatePrecision - rate_of s) in
  input_segment feeRate (mkProgress (gross + extra) o f) s =
    Ok (Some (mkProgress extra (o + segOut) (f + (gross - segIn)))).
Proof using Hrate.
  intros Hres Hi Ho Hr Hx gross.
  pose proof (gross_for_bounds segIn (FeeRatePrecision - rate_of s) ltac:(lia) ltac:(lia)) as Hg.
  assert (0 < gross /\ 0 < extra) as [Hgp Hxp] by (unfold gross, FeeRatePrecision in *; nia).
  unfold input_segment. cbn [pg_remaining pg_total pg_fee].
  rewrite decide_False by (destruct (Z.sgn_spec (gross + extra)); lia). rewrite Hres. cbn [mbind res_bind]. cbv zeta.
  fold (rate_of s). rewrite decide_False by lia.
  pose proof (Zquot_bounds ((gross + extra) * (FeeRatePrecision - rate_of s)) FeeRatePrecision ltac:(nia) ltac:(done)) as Hq.
  assert (segIn < Z.quot ((gross + extra) * (FeeRatePrecision - rate_of s)) FeeRatePrecision) as Hcut.
  { unfold gross, FeeRatePrecision in *. nia. }
  rewrite decide_False by (destruct (Z.sgn_spec (Z.quot ((gross + extra) * (FeeRatePrecision - rate_of s)) FeeRatePrecision)); lia).
  rewrite decide_True by done. fold gross. replace (segIn * segOut) with (segOut * segIn) by lia.
  rewrite Z.quot_mul by lia. rewrite decide_False by (destruct (Z.sgn_spec segOut); lia).
  do 3 f_equal. lia.
Qed.

Lemma walk_spent step segments p : (forall s, step p s = Ok None) -> walk step p segments = Ok p.
Proof using Type. intros H. destruct segments; cbn; [done|by rewrite H]. Qed.

Lemma curve_covers segments :
  rates_ok segments ->
  forall p p', walk (output_segment feeRate) p segments = Ok p' -> 0 < pg_remaining p -> pg_remaining p' = 0 ->
  (forall s, head segments = Some s -> FeeRatePrecision <= (pg_total p' - pg_total p) * (FeeRatePrecision - rate_of s)) /\
  forall o f, exists out,
    walk (input_segment feeRate) (mkProgress (pg_total p' - pg_total p) o f) segments =
      Ok (mkProgress 0 (o + out) (f + (pg_fee p' - pg_fee p))) /\ pg_remaining p <= out.
Proof using Hrate.
  intros [Hs Hsorted]. induction segments as [|s segments IH]; intros p p' H Hp Hp'; cbn in H.
  { injection H as <-. lia. }
  apply Forall_cons in Hs as [Hs Hss]. apply bind_Ok in H as (next & Hstep & H).
  destruct (output_step s p Hp Hs next Hstep)
    as (segIn & segOut & av & net & gross & Hres & Hi & Ho & Hr & Hav & Hc & Hgross & Hpos & ->).
  pose proof (gross_for_bounds net (FeeRatePrecision - rate_of s) ltac:(lia) ltac:(lia)) as Hg. rewrite <- Hgross in Hg.
  pose proof H as Hgrow. apply walk_output_grows in Hgrow as [Hgrow _]; [|done|cbn; lia]. cbn in Hgrow.
  split; [intros ? [= <-]; unfold FeeRatePrecision in *; nia|]. intros o f. cbn [walk].
  destruct (decide (av = pg_remaining p)) as [Heq|Hne].
  - apply walk_output_spent in H; [|cbn; lia]. subst p'. cbn [pg_total pg_fee].
    destruct (input_last s segIn segOut av net o f Hres Hi Ho Hr ltac:(lia) Hc) as (out & Hin & Hout). rewrite <- Hgross in Hin.
    exists out. split; [|lia]. replace (pg_total p + gross - pg_total p) with gross by lia. rewrite Hin. cbn [mbind res_bind].
    replace (pg_fee p + (gross - net) - pg_fee p) with (gross - net) by lia.
    by apply walk_spent.
  - assert (av = segOut /\ segOut < pg_remaining p) as [-> Hlt] by lia. assert (net = segIn) as -> by nia.
    destruct segments as [|s2 segments]; [cbn in H; injection H as <-; cbn in Hp'; lia|].
    assert (Hso := Hsorted). apply Sorted_inv in Hso as [Hso Hhd]. apply HdRel_inv in Hhd.
    destruct (IH Hss Hso _ p' H) as [Hhead Hrest]; [cbn; lia|done|]. specialize (Hhead s2 eq_refl). cbn in Hhead.
    pose proof (input_whole s segIn segOut (pg_total p' - (pg_total p + gross)) o f Hres Hi Ho Hr ltac:(nia)) as Hin.
    rewrite <- Hgross in Hin. replace (pg_total p' - pg_total p) with (gross + (pg_total p' - (pg_total p + gross))) by lia.
    rewrite Hin. cbn [mbind res_bind].
    destruct (Hrest (o + segOut) (f + (gross - segIn))) as (out & Hw & Hout). cbn [pg_total pg_fee pg_remaining] in Hw, Hout.
    exists (segOut + out). split; [|lia]. rewrite Hw. do 2 f_equal; lia.
Qed.
End round_trip.

(** When the fee rates do not fall along the curve, paying the input that
    [ExactOutputRate] quotes for an output yields at least that output, and
    [ExactInputRate] charges the same fee. *)
Theorem ExactOutputRate_covered (segments : list Segment) amountOut feeRate input fee :
  0 <= feeRate -> rates_ok feeRate segments ->
  ExactOutputRate segments (Some amountOut) feeRate = Ok (input, fee) ->
  exists output, ExactInputRate segments (Some input) feeRate = Ok (output, fee) /\ amountOut <= output.
Proof.
  intros Hf Hok H. unfold ExactOutputRate, ExactInputRate, curve_quote in *.
  destruct (decide _) as [|Hpos] in H; [done|]. apply bind_Ok in H as (p' & Hw & H).
  destruct (decide _) as [|Hrem] in H; [done|]. injection H as <- <-.
  assert (0 < amountOut) as Ha by (destruct (Z.sgn_spec amountOut); lia).
  assert (0 <= pg_remaining p') as Hge
    by (apply walk_output_grows in Hw as [_ Hge]; [done|lia|apply Hok|cbn; lia]).
  assert (pg_remaining p' = 0) as H0 by (destruct (Z.sgn_spec (pg_remaining p')); lia).
  destruct (curve_covers feeRate ltac:(lia) segments Hok _ p' Hw ltac:(done) H0) as [Hhead Hin].
  cbn [pg_total pg_fee pg_remaining] in *. rewrite !Z.sub_0_r in *.
  assert (0 < pg_total p') as Hg.
  { destruct segments as [|s segments]; [cbn in Hw; injection Hw as <-; cbn in H0; lia|].
    specialize (Hhead s eq_refl). unfold FeeRatePrecision in *.
    assert (rate_of feeRate s < 1000000000); [|nia]. cbn in Hw. apply bind_Ok in Hw as (next & Hstep & _).
    apply output_step in Hstep; [|unfold FeeRatePrecision; lia|done|by destruct Hok as [Hok _]; inversion Hok].
    destruct Hstep as (? & ? & ? & ? & ? & _ & _ & _ & Hr & _). unfold FeeRatePrecision in Hr. lia. }
  destruct (Hin 0 0) as (out & Hw' & Hout). exists out. rewrite decide_False by (destruct (Z.sgn_spec (pg_total p')); lia).
  rewrite Hw'. cbn -[decide]. rewrite decide_False by done. by rewrite !Z.add_0_l.
Qed.

Definition sample_curve : list Segment :=
  [mkSegment (Some 1000) (Some 999) 3000000; mkSegment (Some 1000) (Some 970) 5000000].

Lemma covered_witness :
  (0 <= 0 /\ rates_ok 0 sample_curve /\ ExactOutputRate sample_curve (Some 1500) 0 = Ok (1524, 7)) /\
  exists output, ExactInputRate sample_curve (Some 1524) 0 = Ok (output, 7) /\ 1500 <= output.
Proof.
  assert (rates_ok 0 sample_curve) as Hok.
  { split; [repeat constructor; cbn; lia|]. repeat constructor. unfold rate_of. vm_compute. congruence. }
  assert (ExactOutputRate sample_curve (Some 1500) 0 = Ok (1524, 7)) as Hq by (by vm_compute).
  split; [done|]. exact (ExactOutputRate_covered sample_curve 1500 0 1524 7 ltac:(lia) Hok Hq).
Defined.

(** A curve whose rates fall is not inverted: an output of 11 is quoted at 21,
    which buys only 10. *)
Lemma falling_rates_not_inverted :
  let segments := [mkSegment (Some 10) (Some 10) 500000000; mkSegment (Some 10) (Some 10) 0] in
  ExactOutputRate segments (Some 11) 0 = Ok (21, 10) /\ ExactInputRate segments (Some 21) 0 = Ok (10, 11).
Proof. by vm_compute. Qed.
