(* ===== verification/MeteoraDLMM.v ===== *)
(** * Meteora dynamic liquidity pools
    (src/adapters/market/meteora/dlmm/state.go, protocol_quote.go, quoter.go)

    A pool of Solana whose liquidity sits in bins of one price each: market-making
    reserves, and in pools that support them limit orders behind the reserves.  The
    snapshot and its reducer, the fee that depends on the recent volatility, the
    quotes over the bins for an exact input or an exact output, the accounts a swap
    needs, and the quoter.  [MeteoraQuotes] holds the theorems. *)
From S2P Require Import Prelude Amount Quote Registry Pools.
From S2P Require LiquidityCurve.
Local Open Scope Z_scope.

(** [int64] and [uint32] arithmetic. *)
Definition int64 (x : Z) : Z := (x + 2 ^ 63) mod 2 ^ 64 - 2 ^ 63.
Definition uint32 (x : Z) : Z := x mod 2 ^ 32.

Definition snapshotSchemaVersion : Z := 2.
Definition priceScaleBits : Z := 64.
Definition meteoraPriceScale : Z := Z.shiftl 1 priceScaleBits.
Definition meteoraFeePrecision : Z := 1000000000.
Definition meteoraMaxUint64 : Z := Z.shiftl 1 64 - 1.
Definition binArrayCount : Z := 70.

(** ** Bins *)

Record Bin := mkBin {
  bin_id : Z; bin_reserveX : option Z; bin_reserveY : option Z; bin_priceX64 : option Z; bin_openOrderAmount : option Z;
  bin_processedOrderRemainingAmount : option Z; bin_limitOrderAskSide : bool }.

Definition newBinWithProtocolLiquidity (id : Z) (reserveX reserveY priceX64 openOrderAmount processedOrderRemainingAmount : option Z)
    (limitOrderAskSide : bool) : res Bin :=
  match reserveX, reserveY, priceX64, openOrderAmount, processedOrderRemainingAmount with
  | Some x, Some y, Some price, Some open, Some processed =>
      if decide (Z.sgn x < 0 \/ Z.sgn y < 0 \/ Z.sgn price < 0 \/ Z.sgn open < 0 \/ Z.sgn processed < 0)
      then Err (Errorf "bin liquidity and price must be valid") else
      if decide (Z.sgn price <= 0 \/ (Z.sgn x = 0 /\ Z.sgn y = 0 /\ Z.sgn open = 0 /\ Z.sgn processed = 0))
      then Err (Errorf "bin liquidity and price must be valid") else
      Ok (mkBin id reserveX reserveY priceX64 openOrderAmount processedOrderRemainingAmount limitOrderAskSide)
  | _, _, _, _, _ => Err (Errorf "bin liquidity and price must be valid")
  end.

(** [big.Int.Quo] panics on a zero divisor: a bin without [reserveX] has no price here. *)
Definition NewBin (id : Z) (reserveX reserveY : option Z) : res Bin :=
  match reserveX, reserveY with
  | Some x, Some y =>
      if decide (Z.sgn x < 0 \/ Z.sgn y < 0 \/ (Z.sgn x = 0 /\ Z.sgn y = 0))
      then Err (Errorf "bin reserves must be non-negative and not both zero") else
      if decide (x = 0) then Panic "division by zero" else
      let price := Z.quot (Z.shiftl y priceScaleBits) x in
      if decide (Z.sgn price <= 0) then Err (Errorf "bin price rounds to zero") else
      newBinWithProtocolLiquidity id reserveX reserveY (Some price) (Some 0) (Some 0) false
  | _, _ => Err (Errorf "bin reserves must be non-negative and not both zero")
  end.

Definition NewBinWithPrice (id : Z) (reserveX reserveY priceX64 : option Z) : res Bin :=
  newBinWithProtocolLiquidity id reserveX reserveY priceX64 (Some 0) (Some 0) false.

Definition NewBinWithProtocolLiquidity (id : Z) (reserveX reserveY priceX64 openOrderAmount processedOrderRemainingAmount : option Z)
    (limitOrderAskSide : bool) : res Bin :=
  newBinWithProtocolLiquidity id reserveX reserveY priceX64 openOrderAmount processedOrderRemainingAmount limitOrderAskSide.

(** ** State *)

Record StateUpdate := mkStateUpdate {
  activeID : Z; binStep : Z; feeRate : Z; fixedFee : bool; baseFactor : Z; filterPeriod : Z; decayPeriod : Z; reductionFactor : Z;
  protocolShare : Z; baseFeePower : Z; functionType : Z; collectFeeMode : Z; legacyLO : bool; variableControl : Z; maxVolatility : Z;
  volatilityAcc : Z; volatilityRef : Z; indexReference : Z; lastUpdateTime : Z; bins : list Bin }.

(** The other fields of a snapshot are those of an update. *)
Record Snapshot := mkSnapshot { schemaVersion : Z; state : StateUpdate }.

Record StaticParameters := mkStaticParameters {
  BaseFactor : Z; FilterPeriod : Z; DecayPeriod : Z; ReductionFactor : Z; VariableControl : Z; MaxVolatility : Z; ProtocolShare : Z;
  BaseFeePower : Z; FunctionType : Z; CollectFeeMode : Z; LegacyLimitOrders : bool }.

Record VariableParameters := mkVariableParameters {
  VolatilityAccumulator : Z; VolatilityReference : Z; IndexReference : Z; LastUpdateTimestamp : Z }.

(** One pass of the loop over the bins; the loop variable is the previous identifier. *)
Definition validate_bin (previous : Z) (bin : Bin) : res Z :=
  match bin_reserveX bin, bin_reserveY bin, bin_priceX64 bin, bin_openOrderAmount bin, bin_processedOrderRemainingAmount bin with
  | Some x, Some y, Some price, Some open, Some processed =>
      if decide (bin_id bin <= previous \/ Z.sgn x < 0 \/ Z.sgn y < 0 \/ Z.sgn open < 0 \/ Z.sgn processed < 0 \/ Z.sgn price <= 0 \/
                 (Z.sgn x = 0 /\ Z.sgn y = 0 /\ Z.sgn open = 0 /\ Z.sgn processed = 0))
      then Err (Errorf "invalid or unsorted Meteora bin %d") else Ok (bin_id bin)
  | _, _, _, _, _ => Err (Errorf "invalid or unsorted Meteora bin %d")
  end.

Definition validate (snapshot : Snapshot) : res unit :=
  let s := state snapshot in
  if decide (schemaVersion snapshot <> snapshotSchemaVersion \/ binStep s = 0 \/ LiquidityCurve.FeeRatePrecision <= feeRate s \/ bins s = [] \/
             (fixedFee s = false /\ 0 < maxVolatility s /\ 0 < variableControl s /\ baseFactor s = 0))
  then Err (Errorf "invalid Meteora DLMM state") else
  _ ← foldM validate_bin (- 2 ^ 31) (bins s);
  Ok tt.

(** ** The fee *)

Definition ceilDiv (numerator denominator : Z) : Z :=
  if decide (Z.sgn numerator = 0) then 0 else Z.quot (denominator - 1 + numerator) denominator.

Definition absInt64 (value : Z) : Z := if decide (value < 0) then - value else value.

(** The base fee and the part that grows with the square of the volatility, capped at a
    tenth. *)
Definition dynamicFeeRate (activeID binID binStep baseFactor baseFeePower variableControl maxVolatility volatilityRef : Z) : Z :=
  let delta := absInt64 (activeID - binID) in
  let volatility := Z.min (uint64 (volatilityRef + uint64 (delta * 10000))) maxVolatility in
  let baseValue := baseFactor * binStep * 10 * 10 ^ baseFeePower in
  let variableNumerator := variableControl * binStep * binStep * volatility * volatility in
  let total := baseValue + ceilDiv variableNumerator 100000000000 in
  if decide (100000000 < total) then 100000000 else uint64 total.

Record quoteVariables := mkQuoteVariables { qv_volatilityReference : Z; qv_indexReference : Z }.

Definition variablesAt (s : StateUpdate) (timestamp : Z) : res quoteVariables :=
  if fixedFee s then Ok (mkQuoteVariables (volatilityRef s) (indexReference s)) else
  let elapsed := int64 (timestamp - lastUpdateTime s) in
  if decide (elapsed < 0) then Err (Errorf "quote timestamp predates Meteora state") else
  if decide (elapsed < filterPeriod s) then Ok (mkQuoteVariables (volatilityRef s) (indexReference s)) else
  Ok (mkQuoteVariables
        (if decide (elapsed < decayPeriod s) then uint32 (Z.quot (uint64 (volatilityAcc s * reductionFactor s)) 10000) else 0)
        (activeID s)).

Definition feeRateAtBin (s : StateUpdate) (id : Z) (variables : quoteVariables) : Z :=
  if decide (fixedFee s = true \/ variableControl s = 0 \/ maxVolatility s = 0) then feeRate s else
  dynamicFeeRate (qv_indexReference variables) id (binStep s) (baseFactor s) (baseFeePower s) (variableControl s) (maxVolatility s)
    (qv_volatilityReference variables).

Definition FeeRateForBin (s : StateUpdate) (id : Z) : Z :=
  if decide (fixedFee s = true \/ variableControl s = 0 \/ maxVolatility s = 0) then feeRate s else
  dynamicFeeRate (indexReference s) id (binStep s) (baseFactor s) (baseFeePower s) (variableControl s) (maxVolatility s) (volatilityRef s).

Definition FeeBPS (s : StateUpdate) : Z := Z.quot (uint64 (uint64 (feeRate s * 10000) + LiquidityCurve.FeeRatePrecision - 1)) LiquidityCurve.FeeRatePrecision mod 2 ^ 16.

Definition feeOnInput (s : StateUpdate) (swapForY : bool) : bool :=
  if decide (collectFeeMode s = 1) then negb swapForY else true.

Definition supportsLimitOrders (s : StateUpdate) : bool :=
  bool_decide (functionType s = 2 \/ (functionType s = 0 /\ legacyLO s = true)).

(** ** Updates *)

Definition fixed_state (activeID binStep feeRate : Z) (bins : list Bin) : StateUpdate :=
  mkStateUpdate activeID binStep feeRate true 0 0 0 0 0 0 0 0 false 0 0 0 0 0 0 bins.

Definition NewStateUpdateWithFeeRate (activeID binStep feeRate : Z) (bins : list Bin) : res StateUpdate :=
  let update := fixed_state activeID binStep feeRate bins in
  _ ← validate (mkSnapshot snapshotSchemaVersion update);
  Ok update.

Definition NewStateUpdate (activeID binStep feeBPS : Z) (bins : list Bin) : res StateUpdate :=
  NewStateUpdateWithFeeRate activeID binStep (Z.quot (uint64 (feeBPS * LiquidityCurve.FeeRatePrecision)) 10000) bins.

Definition NewProtocolStateUpdate (activeID binStep : Z) (parameters : StaticParameters) (variable : VariableParameters)
    (bins : list Bin) : res StateUpdate :=
  let rate := dynamicFeeRate (IndexReference variable) activeID binStep (BaseFactor parameters) (BaseFeePower parameters)
                (VariableControl parameters) (MaxVolatility parameters) (VolatilityReference variable) in
  let update := mkStateUpdate activeID binStep rate false (BaseFactor parameters) (FilterPeriod parameters) (DecayPeriod parameters)
                  (ReductionFactor parameters) (ProtocolShare parameters) (BaseFeePower parameters) (FunctionType parameters)
                  (CollectFeeMode parameters) (LegacyLimitOrders parameters) (VariableControl parameters) (MaxVolatility parameters)
                  (VolatilityAccumulator variable) (VolatilityReference variable) (IndexReference variable)
                  (LastUpdateTimestamp variable) bins in
  _ ← validate (mkSnapshot snapshotSchemaVersion update);
  Ok update.

Definition NewDynamicStateUpdate (activeID binStep baseFactor baseFeePower variableControl maxVolatility volatilityRef indexReference : Z)
    (bins : list Bin) : res StateUpdate :=
  NewProtocolStateUpdate activeID binStep
    (mkStaticParameters baseFactor 0 0 0 variableControl maxVolatility 0 baseFeePower 0 0 false)
    (mkVariableParameters volatilityRef volatilityRef indexReference 0) bins.

Inductive MeteoraEvent :=
| StateEvent (update : StateUpdate)
| SwapUpdate (activeID : Z) (bins : list Bin)
| LiquidityUpdate (id : Z) (deltaX deltaY : option Z).

Definition NewSwapUpdate (activeID : Z) (bins : list Bin) : res MeteoraEvent :=
  if decide (bins = []) then Err (Errorf "swap update requires changed bins") else Ok (SwapUpdate activeID bins).

Definition NewLiquidityUpdate (id : Z) (deltaX deltaY : option Z) : res MeteoraEvent :=
  match deltaX, deltaY with
  | Some _, Some _ => Ok (LiquidityUpdate id deltaX deltaY)
  | _, _ => Err (Errorf "liquidity deltas are required")
  end.

(** ** Reducer *)

Definition with_bins (s : StateUpdate) (active : Z) (updated : list Bin) : StateUpdate :=
  mkStateUpdate active (binStep s) (feeRate s) (fixedFee s) (baseFactor s) (filterPeriod s) (decayPeriod s) (reductionFactor s)
    (protocolShare s) (baseFeePower s) (functionType s) (collectFeeMode s) (legacyLO s) (variableControl s) (maxVolatility s)
    (volatilityAcc s) (volatilityRef s) (indexReference s) (lastUpdateTime s) updated.

(** [sort.Slice] by identifier: the identifiers of the sorted bins are distinct. *)
Definition bin_le (a b : Bin) : Prop := bin_id a <= bin_id b.
#[global] Instance bin_le_dec : RelDecision bin_le := ltac:(unfold bin_le, RelDecision; intros; apply _).

Definition by_id (bins : list Bin) (m : gmap Z Bin) : gmap Z Bin := foldl (fun m bin => <[bin_id bin := bin]> m) m bins.
Definition mergeBins (base updates : list Bin) : list Bin := merge_sort bin_le (snd <$> map_to_list (by_id updates (by_id base ∅))).

(** One pass of the loop of a liquidity update: the bins so far and whether one matched. *)
Definition add_liquidity (id : Z) (deltaX deltaY : option Z) (st : list Bin * bool) (bin : Bin) : res (list Bin * bool) :=
  let '(done, found) := st in
  if decide (bin_id bin <> id) then Ok (done ++ [bin], found) else
  x ← deref (bin_reserveX bin);
  dx ← deref deltaX;
  y ← deref (bin_reserveY bin);
  dy ← deref deltaY;
  Ok (done ++ [mkBin (bin_id bin) (Some (x + dx)) (Some (y + dy)) (bin_priceX64 bin) (bin_openOrderAmount bin)
                 (bin_processedOrderRemainingAmount bin) (bin_limitOrderAskSide bin)], true).

Definition print_bool (b : bool) : string := if b then "true" else "false".

Definition canonical_bin (bin : Bin) : string :=
  "|" +:+ pretty (bin_id bin) +:+ ":" +:+ pretty_int (bin_reserveX bin) +:+ ":" +:+ pretty_int (bin_reserveY bin) +:+ ":" +:+
  pretty_int (bin_priceX64 bin) +:+ ":" +:+ pretty_int (bin_openOrderAmount bin) +:+ ":" +:+
  pretty_int (bin_processedOrderRemainingAmount bin) +:+ ":" +:+ print_bool (bin_limitOrderAskSide bin).

(** The text [hashState] hashes. *)
Definition canonical (snapshot : Snapshot) : string :=
  let s := state snapshot in
  pretty (schemaVersion snapshot) +:+ "|" +:+ pretty (activeID s) +:+ "|" +:+ pretty (binStep s) +:+ "|" +:+ pretty (feeRate s) +:+ "|" +:+
  print_bool (fixedFee s) +:+ "|" +:+ pretty (baseFactor s) +:+ "|" +:+ pretty (filterPeriod s) +:+ "|" +:+ pretty (decayPeriod s) +:+ "|" +:+
  pretty (reductionFactor s) +:+ "|" +:+ pretty (protocolShare s) +:+ "|" +:+ pretty (baseFeePower s) +:+ "|" +:+
  pretty (functionType s) +:+ "|" +:+ pretty (collectFeeMode s) +:+ "|" +:+ print_bool (legacyLO s) +:+ "|" +:+
  pretty (variableControl s) +:+ "|" +:+ pretty (maxVolatility s) +:+ "|" +:+ pretty (volatilityAcc s) +:+ "|" +:+
  pretty (volatilityRef s) +:+ "|" +:+ pretty (indexReference s) +:+ "|" +:+ pretty (lastUpdateTime s) +:+
  foldr (fun bin text => canonical_bin bin +:+ text) "" (bins s).

(** [as_snapshot] and [as_event] are the type assertions on the payload interfaces and
    [inject] the conversion of a [Snapshot] to its interface. *)
Section reducer.
Context {D E : Type} (as_snapshot : D -> option Snapshot) (inject : Snapshot -> D).
Context (as_event : E -> option MeteoraEvent) (sha256 : string -> Digest) (ctx_Err : option error).

Definition hashState (s : Snapshot) : Digest := sha256 (canonical s).

Definition require (previous : option D) : res Snapshot :=
  match previous ≫= as_snapshot with
  | Some s =>
      if decide (schemaVersion s <> snapshotSchemaVersion) then Err (Errorf "meteora update requires a compatible snapshot") else Ok s
  | None => Err (Errorf "meteora update requires a compatible snapshot")
  end.

Definition reduced (previous : option D) (event : MeteoraEvent) : res Snapshot :=
  match event with
  | StateEvent update => Ok (mkSnapshot snapshotSchemaVersion update)
  | SwapUpdate active updated =>
      current ← require previous;
      Ok (mkSnapshot (schemaVersion current) (with_bins (state current) active (mergeBins (bins (state current)) updated)))
  | LiquidityUpdate id deltaX deltaY =>
      current ← require previous;
      '(updated, found) ← foldM (add_liquidity id deltaX deltaY) ([], false) (bins (state current));
      if found : bool then Ok (mkSnapshot (schemaVersion current) (with_bins (state current) (activeID (state current)) updated))
      else Err (Errorf "meteora liquidity update references unknown bin %d")
  end.

Definition Reduce (previous : option D) (event : E) : res (option D * Digest) :=
  match ctx_Err with
  | Some e => Err e
  | None =>
      match as_event event with
      | None => Err (Errorf "unsupported meteora DLMM event %T")
      | Some update =>
          next ← reduced previous update;
          _ ← validate next;
          Ok (Some (inject next), hashState next)
      end
  end.
End reducer.

(** ** Filling a bin *)

Record fillResult := mkFill { fill_in : Z; fill_out : Z; fill_left : Z }.
Record binQuoteResult := mkBinQuote { bq_in : Z; bq_out : Z; bq_fee : Z }.

Definition amountOutForInput (amountIn price : Z) (swapForY : bool) : Z :=
  if swapForY then Z.quot (price * amountIn) meteoraPriceScale else Z.quot (amountIn * meteoraPriceScale) price.

Definition amountInForOutput (amountOut price : Z) (swapForY : bool) : Z :=
  if swapForY then ceilDiv (amountOut * meteoraPriceScale) price else ceilDiv (amountOut * price) meteoraPriceScale.

Definition feeFromIncludedAmount (amount rate : Z) : Z :=
  if decide (rate = 0 \/ Z.sgn amount = 0) then 0 else ceilDiv (amount * rate) meteoraFeePrecision.

Definition feeFromExcludedAmount (amount rate : Z) : Z :=
  if decide (rate = 0 \/ Z.sgn amount = 0) then 0 else ceilDiv (amount * rate) (meteoraFeePrecision - rate).

(** The reserves of the output token, and behind them the limit orders of its side. *)
Definition liquidityLayers (bin : Bin) (swapForY supportLimitOrders : bool) : list (option Z) :=
  (if swapForY then bin_reserveY bin else bin_reserveX bin) ::
  (if supportLimitOrders && ((swapForY && negb (bin_limitOrderAskSide bin)) || (negb swapForY && bin_limitOrderAskSide bin))
   then [bin_processedOrderRemainingAmount bin; bin_openOrderAmount bin] else []).

(** It returns the maximum as soon as the sum passes it. *)
Fixpoint max_layers (total : Z) (layers : list (option Z)) : res Z :=
  match layers with
  | [] => Ok total
  | layer :: layers =>
      amount ← deref layer;
      if decide (meteoraMaxUint64 < total + amount) then Ok meteoraMaxUint64 else max_layers (total + amount) layers
  end.

Definition maxAmountOut (bin : Bin) (swapForY supportLimitOrders : bool) : res Z :=
  max_layers 0 (liquidityLayers bin swapForY supportLimitOrders).

Definition fillLayer (amountIn : Z) (maxAmountOut price : option Z) (swapForY : bool) : res fillResult :=
  available ← deref maxAmountOut;
  if decide (Z.sgn available = 0) then Ok (mkFill 0 0 amountIn) else
  price ← deref price;
  let maxAmountIn := amountInForOutput available price swapForY in
  if decide (maxAmountIn <= amountIn) then Ok (mkFill maxAmountIn available (amountIn - maxAmountIn)) else
  let amountOut := amountOutForInput amountIn price swapForY in
  if decide (Z.sgn amountOut = 0) then Err ErrQuoteOutputRoundsToZero else Ok (mkFill amountIn amountOut 0).

(** The layers in turn, until nothing remains of the input. *)
Definition fill_step (price : option Z) (swapForY : bool) (fill : fillResult) (layer : option Z) : res fillResult :=
  if decide (Z.sgn (fill_left fill) = 0) then Ok fill else
  f ← fillLayer (fill_left fill) layer price swapForY;
  Ok (mkFill (fill_in fill + fill_in f) (fill_out fill + fill_out f) (fill_left f)).

Definition exactInFill (bin : Bin) (amountIn : Z) (swapForY supportLimitOrders : bool) : res fillResult :=
  foldM (fill_step (bin_priceX64 bin) swapForY) (mkFill 0 0 amountIn) (liquidityLayers bin swapForY supportLimitOrders).

(** What remains to be paid out and the input so far. *)
Definition output_step (price : option Z) (swapForY : bool) (st : Z * Z) (layer : option Z) : res (Z * Z) :=
  let '(remaining, totalIn) := st in
  if decide (Z.sgn remaining = 0) then Ok st else
  available ← deref layer;
  price ← deref price;
  let consumedOut := Z.min remaining available in
  Ok (remaining - consumedOut, totalIn + amountInForOutput consumedOut price swapForY).

Definition inputForLayeredOutput (bin : Bin) (amountOut : Z) (swapForY supportLimitOrders : bool) : res Z :=
  '(remaining, totalIn) ← foldM (output_step (bin_priceX64 bin) swapForY) (amountOut, 0) (liquidityLayers bin swapForY supportLimitOrders);
  if decide (0 < Z.sgn remaining) then Err (Errorf "insufficient bin liquidity") else Ok totalIn.

Definition quoteExactInAtBin (bin : Bin) (amountIn : Z) (swapForY supportLimitOrders feeOnInput : bool) (feeRate : Z) : res binQuoteResult :=
  let inputFee := if feeOnInput then feeFromIncludedAmount amountIn feeRate else 0 in
  let excludedFeeInput := amountIn - inputFee in
  if decide (Z.sgn excludedFeeInput <= 0) then Ok (mkBinQuote 0 0 0) else
  fill ← exactInFill bin excludedFeeInput swapForY supportLimitOrders;
  let '(includedFeeInput, tradingFee) :=
    if decide (0 < Z.sgn (fill_left fill)) then
      if feeOnInput then let fee := feeFromExcludedAmount (fill_in fill) feeRate in (fill_in fill + fee, fee)
      else (fill_in fill, inputFee)
    else (amountIn, inputFee) in
  if feeOnInput then Ok (mkBinQuote includedFeeInput (fill_out fill) tradingFee) else
  let outputFee := feeFromIncludedAmount (fill_out fill) feeRate in
  Ok (mkBinQuote includedFeeInput (fill_out fill - outputFee) outputFee).

Definition quoteExactOutAtBin (bin : Bin) (requestedOut : Z) (swapForY supportLimitOrders feeOnInput : bool) (feeRate : Z) : res binQuoteResult :=
  let includedFeeOutput := if feeOnInput then requestedOut else requestedOut + feeFromExcludedAmount requestedOut feeRate in
  available ← maxAmountOut bin swapForY supportLimitOrders;
  if decide (available <= includedFeeOutput) then quoteExactInAtBin bin meteoraMaxUint64 swapForY supportLimitOrders feeOnInput feeRate else
  excludedFeeInput ← inputForLayeredOutput bin includedFeeOutput swapForY supportLimitOrders;
  let includedFeeInput := if feeOnInput then excludedFeeInput + feeFromExcludedAmount excludedFeeInput feeRate else excludedFeeInput in
  result ← quoteExactInAtBin bin includedFeeInput swapForY supportLimitOrders feeOnInput feeRate;
  if decide (bq_out result < requestedOut) then Err (Errorf "exact-output rounding produced insufficient output")
  else Ok (mkBinQuote (bq_in result) requestedOut (bq_fee result)).

(** ** The route over the bins *)

(** From the active bin downwards for the Y token and upwards for the X token. *)
Definition routeBins (s : StateUpdate) (swapForY : bool) : list Bin :=
  if swapForY then filter (fun bin => bin_id bin <= activeID s) (rev (bins s)) else filter (fun bin => activeID s <= bin_id bin) (bins s).

Record protocolQuoteResult := mkProtocolQuote { pq_in : Z; pq_out : Z; pq_fee : Z }.

Definition validProtocolAmount (amount : option Z) : bool :=
  match amount with Some x => bool_decide (0 < Z.sgn x /\ x <= meteoraMaxUint64) | None => false end.

(** The loop variables: what remains of the request, the other side and the fees. *)
Record quoteLoop := mkQuoteLoop { ql_remaining : Z; ql_total : Z; ql_fee : Z }.

Section route.
Context (s : StateUpdate) (swapForY : bool) (variables : quoteVariables).

Definition at_bin (bin : Bin) (amount : Z) : res binQuoteResult :=
  quoteExactInAtBin bin amount swapForY (supportsLimitOrders s) (feeOnInput s swapForY) (feeRateAtBin s (bin_id bin) variables).

(** A pass of the loop of [quoteExactIn]. *)
Definition exact_in_step (l : quoteLoop) (bin : Bin) : res quoteLoop :=
  if decide (Z.sgn (ql_remaining l) = 0) then Ok l else
  available ← maxAmountOut bin swapForY (supportsLimitOrders s);
  if decide (Z.sgn available = 0) then Ok l else
  result ← wrap "quote Meteora bin %d: %w" (at_bin bin (ql_remaining l));
  if decide (Z.sgn (bq_in result) = 0) then Ok l else
  let totalOut := ql_total l + bq_out result in
  let totalFee := ql_fee l + bq_fee result in
  if decide (meteoraMaxUint64 < totalOut \/ meteoraMaxUint64 < totalFee) then Err (Errorf "meteora exact-input quote overflows u64")
  else Ok (mkQuoteLoop (ql_remaining l - bq_in result) totalOut totalFee).

(** A pass of the loop of [quoteExactOut]. *)
Definition exact_out_step (l : quoteLoop) (bin : Bin) : res quoteLoop :=
  if decide (Z.sgn (ql_remaining l) = 0) then Ok l else
  available ← maxAmountOut bin swapForY (supportsLimitOrders s);
  if decide (Z.sgn available = 0) then Ok l else
  result ← wrap "quote Meteora bin %d: %w"
    (quoteExactOutAtBin bin (ql_remaining l) swapForY (supportsLimitOrders s) (feeOnInput s swapForY) (feeRateAtBin s (bin_id bin) variables));
  if decide (Z.sgn (bq_out result) = 0) then Ok l else
  let totalIn := ql_total l + bq_in result in
  let totalFee := ql_fee l + bq_fee result in
  if decide (meteoraMaxUint64 < totalIn \/ meteoraMaxUint64 < totalFee) then Err (Errorf "meteora exact-output quote overflows u64")
  else Ok (mkQuoteLoop (ql_remaining l - bq_out result) totalIn totalFee).

(** [floorDiv(int64(bin.id), binArrayCount)] *)
Definition floorDiv (value divisor : Z) : Z :=
  if decide (Z.rem value divisor < 0) then Z.quot value divisor - 1 else Z.quot value divisor.

(** A pass of the loop of [RequiredBinArrayIndexes]: what remains of the input and the
    indexes in the order they were seen. *)
Definition array_step (st : Z * list Z) (bin : Bin) : res (Z * list Z) :=
  let '(remaining, indexes) := st in
  if decide (Z.sgn remaining = 0) then Ok st else
  available ← maxAmountOut bin swapForY (supportsLimitOrders s);
  if decide (Z.sgn available = 0) then Ok st else
  quoted ← at_bin bin remaining;
  if decide (Z.sgn (bq_in quoted) = 0) then Ok st else
  let index := floorDiv (bin_id bin) binArrayCount in
  Ok (remaining - bq_in quoted, if decide (index ∈ indexes) then indexes else indexes ++ [index]).
End route.

Definition quoteExactIn (s : StateUpdate) (amountIn : option Z) (swapForY : bool) (timestamp : Z) : res protocolQuoteResult :=
  if negb (validProtocolAmount amountIn) then Err (Errorf "meteora exact-input amount must fit u64") else
  amount ← deref amountIn;
  variables ← variablesAt s timestamp;
  l ← foldM (exact_in_step s swapForY variables) (mkQuoteLoop amount 0 0) (routeBins s swapForY);
  if decide (0 < Z.sgn (ql_remaining l)) then Err (Errorf "insufficient Meteora DLMM liquidity") else
  if decide (Z.sgn (ql_total l) = 0) then Err ErrQuoteOutputRoundsToZero else Ok (mkProtocolQuote amount (ql_total l) (ql_fee l)).

Definition RequiredBinArrayIndexes (s : StateUpdate) (amountIn : option Z) (swapForY : bool) (timestamp : Z) : res (list Z) :=
  if negb (validProtocolAmount amountIn) then Err (Errorf "meteora exact-input amount must fit u64") else
  amount ← deref amountIn;
  variables ← variablesAt s timestamp;
  '(remaining, indexes) ← foldM (array_step s swapForY variables) (amount, []) (routeBins s swapForY);
  if decide (0 < Z.sgn remaining) then Err (Errorf "insufficient Meteora DLMM liquidity") else Ok indexes.

Definition quoteExactOut (s : StateUpdate) (amountOut : option Z) (swapForY : bool) (timestamp : Z) : res protocolQuoteResult :=
  if negb (validProtocolAmount amountOut) then Err (Errorf "meteora exact-output amount must fit u64") else
  amount ← deref amountOut;
  variables ← variablesAt s timestamp;
  l ← foldM (exact_out_step s swapForY variables) (mkQuoteLoop amount 0 0) (routeBins s swapForY);
  if decide (0 < Z.sgn (ql_remaining l)) then Err (Errorf "insufficient Meteora DLMM liquidity") else
  Ok (mkProtocolQuote (ql_total l) amount (ql_fee l)).

(** ** Quoter *)

Record Quoter := mkQuoter { qt_id : SourceID; qt_market : Market; qt_tokenX : TokenID; qt_tokenY : TokenID }.

Definition matches (candidate : Market) (first second : TokenID) : Prop :=
  (Market_BaseToken candidate = first /\ Market_QuoteToken candidate = second) \/
  (Market_BaseToken candidate = second /\ Market_QuoteToken candidate = first).
#[global] Instance matches_dec c t0 t1 : Decision (matches c t0 t1) := ltac:(unfold matches; apply _).

Definition NewQuoter (id : SourceID) (candidate : Market) (tokenX tokenY : TokenID) : res Quoter :=
  if decide (id = "" \/ Market_ID candidate = "" \/ tokenX = "" \/ tokenY = "" \/ tokenX = tokenY \/ ~ matches candidate tokenX tokenY)
  then Err (Errorf "source, market, and Meteora token endpoints are required") else Ok (mkQuoter id candidate tokenX tokenY).

(** The latest of the times; [now] is the clock, read when there is none. *)
Definition later_time (latest candidate : Time) : Time :=
  if decide (~ Time_IsZero candidate /\ (Time_IsZero latest \/ Time_After candidate latest)) then candidate else latest.
Definition quoteTime (now quotedAt : Time) (stateTimes : list Time) : Time :=
  let latest := foldl later_time quotedAt stateTimes in
  if decide (Time_IsZero latest) then now else latest.

(** [time.Unix(seconds, 0)] and [t.Unix()]. *)
Definition time_Unix (seconds : Z) : Time := seconds * 10 ^ 9 + unix_epoch.
Definition Unix (t : Time) : Z := (t - unix_epoch) / 10 ^ 9.

Definition stateUpdateTime (s : StateUpdate) : Time := if decide (lastUpdateTime s <= 0) then 0 else time_Unix (lastUpdateTime s).

Section quoter.
Context {D : Type} (as_snapshot : D -> option Snapshot) (q : Quoter) (now : Time) (ctx_Err : option error).

Definition pool_state (snapshot : MarketSnapshot D) : res StateUpdate :=
  if decide (md_Market (snap_metadata snapshot) <> Market_ID (qt_market q))
  then Err (Errorf "snapshot belongs to market %q, expected %q") else
  match snap_data snapshot ≫= as_snapshot with
  | Some s =>
      if decide (schemaVersion s <> snapshotSchemaVersion) then Err (Errorf "incompatible meteora DLMM snapshot %T") else Ok (state s)
  | None => Err (Errorf "incompatible meteora DLMM snapshot %T")
  end.

Definition direction (tokenIn tokenOut : TokenID) : res bool :=
  if decide ((tokenIn <> qt_tokenX q /\ tokenIn <> qt_tokenY q) \/ (tokenOut <> qt_tokenX q /\ tokenOut <> qt_tokenY q) \/ tokenIn = tokenOut)
  then Err (Errorf "unsupported Meteora token direction") else Ok (bool_decide (tokenIn = qt_tokenX q)).

Definition result (snapshot : MarketSnapshot D) (purpose mode : string) (quotedAt : Time) (amountIn : TokenAmount) (outputToken : TokenID)
    (outputUnits : Z) (feeToken : TokenID) (feeUnits : Z) : res Quote :=
  amountOut ← NewTokenAmount outputToken (Some outputUnits);
  pool_quote (qt_id q) (Market_ID (qt_market q)) (snap_metadata snapshot) purpose mode quotedAt feeToken amountIn amountOut feeUnits.

Definition Quote (input : QuoteInput D) : res Quote :=
  match ctx_Err with
  | Some e => Err e
  | None =>
      s ← pool_state (in_Snapshot input);
      swapForY ← direction (in_TokenIn input) (in_TokenOut input);
      let quotedAt := quoteTime now (in_QuotedAt input) [md_AppliedAt (snap_metadata (in_Snapshot input)); stateUpdateTime s] in
      protocolResult ← quoteExactIn s (Some (Units (in_AmountIn input))) swapForY (Unix quotedAt);
      let feeToken := if feeOnInput s swapForY then in_TokenIn input else in_TokenOut input in
      result (in_Snapshot input) (in_Purpose input) QuoteModeExactInput quotedAt (in_AmountIn input) (in_TokenOut input)
        (pq_out protocolResult) feeToken (pq_fee protocolResult)
  end.

Definition QuoteExactOutput (input : ExactOutputInput D) : res Quote.Quote :=
  match ctx_Err with
  | Some e => Err e
  | None =>
      s ← pool_state (out_Snapshot input);
      swapForY ← direction (out_TokenIn input) (out_TokenOut input);
      let quotedAt := quoteTime now (out_QuotedAt input) [md_AppliedAt (snap_metadata (out_Snapshot input)); stateUpdateTime s] in
      protocolResult ← quoteExactOut s (Some (Units (out_AmountOut input))) swapForY (Unix quotedAt);
      amount ← NewTokenAmount (out_TokenIn input) (Some (pq_in protocolResult));
      let feeToken := if feeOnInput s swapForY then out_TokenIn input else out_TokenOut input in
      result (out_Snapshot input) (out_Purpose input) QuoteModeExactOutput quotedAt amount (out_TokenOut input)
        (Units (out_AmountOut input)) feeToken (pq_fee protocolResult)
  end.
End quoter.

(** A bin that holds only the Y token cannot be built from its reserves. *)
Example one_sided_bin_panics : NewBin 7 (Some 0) (Some 5) = Panic "division by zero".
Proof. reflexivity. Qed.
