(* ===== verification/MeteoraDecoder.v ===== *)
(** * Accounts of a Meteora DLMM pool (src/adapters/market/meteora/dlmm/solana.go)

    The decoder reads the state of a pool from the bytes of its pair account and of its
    bin arrays, at first from the network and then from batches of account changes.
    The network reads are stateful operations on an arbitrary world; the map of the bin
    arrays is ranged over in any order.  Theorems: a bin array is read back exactly as
    it is laid out and no account makes the parser panic; what a batch publishes is the
    state of the pair with the bins of all the arrays in strict order, whatever order
    the map is ranged over in. *)
From S2P Require Import Prelude Pools Bytes Base58 MeteoraDLMM.
Local Open Scope Z_scope.

Definition lbPairDiscriminator : list Z := [33; 11; 49; 98; 181; 101; 177; 13].
Definition binArrayDiscriminator : list Z := [92; 142; 92; 220; 5; 148; 70; 181].
Definition meteoraProgram : string := "LBUZKhRxPF3XUpBCjp4YzTKgLccjZhTSDM9YuVaPwxo".
Definition binArraySeed : list Z := [98; 105; 110; 95; 97; 114; 114; 97; 121].
Definition binSize : nat := 144.
Definition binArraySize : nat := 10136.
Definition binsPerArray : nat := 70.

Definition littleEndianInt (value : list Z) : Z := LittleEndian value.
Definition equalBytes (left right : list Z) : bool := bool_decide (left = right).
Definition allZero (value : list Z) : bool := forallb (Z.eqb 0) value.
Definition floorDiv (value divisor : Z) : Z := if decide (Z.rem value divisor < 0) then Z.quot value divisor - 1 else Z.quot value divisor.
Definition int64Bytes (value : Z) : list Z := le 8 (uint64 value).

(** A number of [n] bytes at an offset. *)
Definition number (data : list Z) (offset n : nat) : res Z := value ← slice data offset (offset + n); Ok (LittleEndian value).

(** ** The pair account *)

Definition is_pair (data : list Z) : bool := bool_decide (904 <= length data)%nat && equalBytes (take 8 data) lbPairDiscriminator.

Definition stateFromData (data : list Z) (bins : list Bin) : res StateUpdate :=
  if negb (is_pair data) then Err (Errorf "invalid DLMM lb pair account data") else
  activeID ← number data 76 4;
  binStep ← number data 80 2;
  baseFactor ← number data 8 2; filterPeriod ← number data 10 2; decayPeriod ← number data 12 2; reductionFactor ← number data 14 2;
  variableControl ← number data 16 4; maxVolatility ← number data 20 4; protocolShare ← number data 32 2;
  baseFeePower ← byte_at data 34; functionType ← byte_at data 35; collectFeeMode ← byte_at data 36;
  reserved ← slice data 264 296; reserved' ← slice data 408 440;
  volatilityAccumulator ← number data 40 4; volatilityReference ← number data 44 4; indexReference ← number data 48 4; timestamp ← number data 56 8;
  NewProtocolStateUpdate (int32 activeID) binStep
    (mkStaticParameters baseFactor filterPeriod decayPeriod reductionFactor variableControl maxVolatility protocolShare baseFeePower functionType
       collectFeeMode (allZero reserved && allZero reserved'))
    (mkVariableParameters volatilityAccumulator volatilityReference (int32 indexReference) (int64 timestamp)) bins.

(** ** Bin arrays *)

(** One pass of the loop, over the bin in slot [i]; the loop ends at the seventieth
    bin that is kept. *)
Definition bin_slot (data : list Z) (index : Z) (result : list Bin) (i : nat) : res (list Bin) :=
  if decide (binsPerArray <= length result)%nat then Ok result else
  let offset := (56 + i * binSize)%nat in
  x ← number data offset 8; y ← number data (offset + 8) 8;
  price ← number data (offset + 16) 16;
  openOrder ← number data (offset + 112) 8; processed ← number data (offset + 128) 8;
  if decide (Z.sgn x = 0 /\ Z.sgn y = 0 /\ Z.sgn openOrder = 0 /\ Z.sgn processed = 0) then Ok result else
  ask ← byte_at data (offset + 140);
  bin ← NewBinWithProtocolLiquidity (int32 (int64 (int64 (index * binArrayCount) + Z.of_nat i))) (Some x) (Some y) (Some price) (Some openOrder) (Some processed)
          (bool_decide (ask <> 0));
  Ok (result ++ [bin]).

Definition parseBinArray (data : list Z) (expectedIndex : Z) (pool : list Z) : res (list Bin) :=
  if decide (length data < binArraySize)%nat then Err (Errorf "invalid DLMM bin array account data") else
  if negb (equalBytes (take 8 data) binArrayDiscriminator) then Err (Errorf "invalid DLMM bin array account data") else
  index ← (index ← number data 8 8; Ok (int64 index));
  if decide (index <> expectedIndex) then Err (Errorf "DLMM bin array identity mismatch") else
  owner ← slice data 24 56;
  if negb (equalBytes owner pool) then Err (Errorf "DLMM bin array identity mismatch") else
  foldM (bin_slot data index) [] (seq 0 ((length data - 56) / binSize)).

(** ** The decoder *)

Record Account := mkAccount { ac_Owner : string; ac_Data : list Z }.
Record AccountChange := mkAccountChange { ch_Account : string; ch_Program : bool; ch_Data : list Z }.

Record Decoder := mkDecoder { de_Pool : string; de_poolData : list Z; de_arrays : gmap Z (list Bin) }.

Definition NewDecoder (pool : string) : res Decoder :=
  if decide (pool = "") then Err (Errorf "dlmm pool account is required") else Ok (mkDecoder pool [] ∅).

Definition AccountSubscriptions (d : Decoder) : list string := [de_Pool d].

Section decoder.
Context {order : RangeOrder Z}.

(** The sort has bins with distinct identifiers when the arrays are those of one pool. *)
Definition flattenBinArrays (arrays : gmap Z (list Bin)) : list Bin := merge_sort bin_le (concat (range arrays).*2).

(** A change of the pair or of a bin array; what was taken in stays, whatever fails. *)
Definition take_change (change : AccountChange) : ST Decoder unit := fun d =>
  if decide (ch_Account change = de_Pool d /\ ch_Program change = false) then
    if negb (is_pair (ch_Data change)) then (Err (Errorf "invalid DLMM lb pair account data"), d)
    else (Ok tt, mkDecoder (de_Pool d) (ch_Data change) (de_arrays d))
  else if decide (ch_Program change = false \/ length (ch_Data change) = 0%nat) then (Ok tt, d)
  else if decide (length (ch_Data change) < binArraySize)%nat then (Err (Errorf "invalid DLMM bin array account data"), d)
  else
  match (index ← (index ← number (ch_Data change) 8 8; Ok (int64 index));
         pool ← DecodePublicKey (de_Pool d);
         bins ← parseBinArray (ch_Data change) index pool; Ok (index, bins)) with
  | Ok (index, bins) => (Ok tt, mkDecoder (de_Pool d) (de_poolData d) (<[index := bins]> (de_arrays d)))
  | Err e => (Err e, d)
  | Panic why => (Panic why, d)
  end.

(** Nothing is published before the pair is known. *)
Definition DecodeAccountBatch (changes : list AccountChange) : ST Decoder (list StateUpdate) :=
  _ ← for_each take_change changes;
  d ← get;
  if decide (length (de_poolData d) = 0%nat) then mret [] else
  update ← lift (stateFromData (de_poolData d) (flattenBinArrays (de_arrays d)));
  mret [update].
End decoder.

Section bootstrap.
Context {W : Type} (sha256 : list Z -> list Z) (on_curve : list Z -> bool).

(** The capability to read accounts, which is an optional interface. *)
Record AccountReader := mkAccountReader { rd_ReadAccount : string -> ST W Account; rd_ReadMultipleAccounts : list string -> ST W (list Account) }.

(** The bits of a word of the bitmap. *)
Definition word_indexes (word : nat) (bits : Z) : list Z :=
  (fun bit => Z.of_nat (word * 64 + bit) - 512) <$> filter (fun bit => Z.testbit bits (Z.of_nat bit) = true) (seq 0 64).

Definition bitmap_word (data : list Z) (indexes : list Z) (word : nat) : res (list Z) :=
  bits ← number data (584 + word * 8) 8; Ok (indexes ++ word_indexes word bits).

(** The arrays in use and that of the active bin, in order and once each. *)
Definition ordered_indexes (data : list Z) : res (list Z) :=
  activeID ← number data 76 4;
  indexes ← foldM (bitmap_word data) [] (seq 0 16);
  Ok (merge_sort Z.le (remove_dups (indexes ++ [floorDiv (int32 activeID) binArrayCount]))).

Definition array_address (pool program : list Z) (addresses : list string) (index : Z) : res (list string) :=
  '(address, _) ← FindProgramAddress sha256 on_curve [binArraySeed; pool; int64Bytes index] program;
  Ok (addresses ++ [EncodePublicKey address]).

(** An account that does not exist has no data and is passed over. *)
Definition read_array (pool : list Z) (st : gmap Z (list Bin) * list Bin) (entry : Z * Account) : res (gmap Z (list Bin) * list Bin) :=
  if decide (length (ac_Data entry.2) = 0%nat) then Ok st else
  parsed ← parseBinArray (ac_Data entry.2) entry.1 pool;
  Ok (<[entry.1 := parsed]> st.1, st.2 ++ parsed).

Definition decode (reader : AccountReader) (data : list Z) : ST (W * Decoder) StateUpdate := fun '(w, d) =>
  let request :=
    if negb (is_pair data) then Err (Errorf "invalid DLMM lb pair account data") else
    pool ← DecodePublicKey (de_Pool d);
    program ← DecodePublicKey meteoraProgram;
    ordered ← ordered_indexes data;
    addresses ← foldM (array_address pool program) [] ordered;
    Ok (pool, ordered, addresses) in
  match request with
  | Ok (pool, ordered, addresses) =>
      let '(answer, w') := rd_ReadMultipleAccounts reader addresses w in
      let outcome :=
        accounts ← answer;
        if decide (length accounts <> length ordered) then Err (Errorf "DLMM bin array response length mismatch") else
        '(arrays, bins) ← foldM (read_array pool) (∅, []) (zip ordered accounts);
        update ← stateFromData data bins;
        Ok (arrays, update) in
      match outcome with
      | Ok (arrays, update) => (Ok update, (w', mkDecoder (de_Pool d) data arrays))
      | Err e => (Err e, (w', d))
      | Panic why => (Panic why, (w', d))
      end
  | Err e => (Err e, (w, d))
  | Panic why => (Panic why, (w, d))
  end.

Definition Bootstrap (network : option AccountReader) : ST (W * Decoder) StateUpdate := fun '(w, d) =>
  match network with
  | None => (Err (Errorf "solana network does not expose account reads"), (w, d))
  | Some reader =>
      match rd_ReadAccount reader (de_Pool d) w with
      | (Ok account, w') => decode reader (ac_Data account) (w', d)
      | (Err e, w') => (Err e, (w', d))
      | (Panic why, w') => (Panic why, (w', d))
      end
  end.
End bootstrap.

(** ** The layout of a bin array *)

(** A slot of 144 bytes; the bytes between its numbers are not read. *)
Record Slot := mkSlot {
  sl_X : Z; sl_Y : Z; sl_Price : Z; sl_pad1 : list Z; sl_Open : Z; sl_pad2 : list Z; sl_Processed : Z; sl_pad3 : list Z; sl_Ask : Z; sl_pad4 : list Z }.

Definition sl_used (s : Slot) : bool := bool_decide (~ (sl_X s = 0 /\ sl_Y s = 0 /\ sl_Open s = 0 /\ sl_Processed s = 0)).

Definition slot_ok (s : Slot) : Prop :=
  (0 <= sl_X s < 2 ^ 64 /\ 0 <= sl_Y s < 2 ^ 64 /\ 0 <= sl_Price s < 2 ^ 128 /\ 0 <= sl_Open s < 2 ^ 64 /\ 0 <= sl_Processed s < 2 ^ 64) /\
  (length (sl_pad1 s) = 80 /\ length (sl_pad2 s) = 8 /\ length (sl_pad3 s) = 4 /\ length (sl_pad4 s) = 3)%nat /\
  (sl_used s = true -> 0 < sl_Price s).

Definition slot_bytes (s : Slot) : list Z :=
  le 8 (sl_X s) ++ le 8 (sl_Y s) ++ le 16 (sl_Price s) ++ sl_pad1 s ++ le 8 (sl_Open s) ++ sl_pad2 s ++ le 8 (sl_Processed s) ++ sl_pad3 s ++
  [sl_Ask s] ++ sl_pad4 s.

Definition slot_bin (id : Z) (s : Slot) : list Bin :=
  if sl_used s
  then [mkBin id (Some (sl_X s)) (Some (sl_Y s)) (Some (sl_Price s)) (Some (sl_Open s)) (Some (sl_Processed s)) (bool_decide (sl_Ask s <> 0))]
  else [].

(** The bins of the slots, of consecutive identifiers. *)
Fixpoint laid_bins (id : Z) (slots : list Slot) : list Bin :=
  match slots with [] => [] | s :: slots => slot_bin id s ++ laid_bins (id + 1) slots end.

Definition bin_account (index : Z) (reserved owner : list Z) (slots : list Slot) (post : list Z) : list Z :=
  binArrayDiscriminator ++ le 8 (uint64 index) ++ reserved ++ owner ++ concat (slot_bytes <$> slots) ++ post.

Lemma bin_slot_length s : slot_ok s -> length (slot_bytes s) = binSize.
Proof. intros (_ & (H1 & H2 & H3 & H4) & _). unfold slot_bytes. by rewrite !length_app, !le_length, H1, H2, H3, H4. Qed.

Lemma bin_slots_length slots : Forall slot_ok slots -> length (concat (slot_bytes <$> slots)) = (length slots * binSize)%nat.
Proof. induction 1 as [|s slots Hs _ IH]; [done|]. cbn [fmap list_fmap concat length]. rewrite length_app, IH, (bin_slot_length s Hs). done. Qed.

Lemma number_at pre n x post offset : 0 <= x < 256 ^ Z.of_nat n -> offset = length pre -> number (pre ++ le n x ++ post) offset n = Ok x.
Proof.
  intros Hx ->. unfold number. rewrite slice_skip by lia. rewrite slice_here by (rewrite ?le_length; lia). cbn [mbind res_bind]. by rewrite (LittleEndian_le n x Hx).
Qed.

(** The numbers of a slot, wherever it lies. *)
Lemma slot_reads pre s post : slot_ok s -> let data := pre ++ slot_bytes s ++ post in let offset := length pre in
  number data offset 8 = Ok (sl_X s) /\ number data (offset + 8) 8 = Ok (sl_Y s) /\ number data (offset + 16) 16 = Ok (sl_Price s) /\
  number data (offset + 112) 8 = Ok (sl_Open s) /\ number data (offset + 128) 8 = Ok (sl_Processed s) /\
  byte_at data (offset + 140) = Ok (sl_Ask s).
Proof.
  intros ((Hx & Hy & Hp & Ho & Hr) & (H1 & H2 & H3 & _) & _) data offset. unfold data, offset, slot_bytes. rewrite <- !app_assoc. split_and!.
  - by apply number_at.
  - rewrite app_assoc. apply number_at; [done|]. by rewrite length_app, le_length.
  - rewrite 2!app_assoc. apply number_at; [done|]. rewrite !length_app, !le_length. lia.
  - rewrite 4!app_assoc. apply number_at; [done|]. rewrite !length_app, !le_length, H1. lia.
  - rewrite 6!app_assoc. apply number_at; [done|]. rewrite !length_app, !le_length, H1, H2. lia.
  - rewrite 8!app_assoc. rewrite byte_skip by (rewrite !length_app, !le_length, H1, H2, H3; lia).
    apply byte_here. rewrite !length_app, !le_length, H1, H2, H3. lia.
Qed.

Lemma sl_used_false s : sl_used s = false <-> sl_X s = 0 /\ sl_Y s = 0 /\ sl_Open s = 0 /\ sl_Processed s = 0.
Proof. unfold sl_used. rewrite bool_decide_eq_false. split; [apply dec_stable|tauto]. Qed.

Lemma int64_small x : - 2 ^ 63 <= x < 2 ^ 63 -> int64 x = x.
Proof. intros Hx. unfold int64. rewrite Z.mod_small; lia. Qed.

Lemma int64_uint64 x : - 2 ^ 63 <= x < 2 ^ 63 -> int64 (uint64 x) = x.
Proof. intros Hx. unfold uint64, int64. rewrite Zplus_mod_idemp_l, Z.mod_small; lia. Qed.

Lemma int32_small x : - 2 ^ 31 <= x < 2 ^ 31 -> int32 x = x.
Proof. intros Hx. unfold int32. rewrite Z.mod_small; lia. Qed.

(** One pass reads the bin of its slot. *)
Lemma bin_slot_reads pre s post index result i : slot_ok s -> length pre = (56 + i * binSize)%nat -> (length result < binsPerArray)%nat ->
  - 2 ^ 31 <= index * binArrayCount + Z.of_nat i < 2 ^ 31 -> - 2 ^ 31 <= index * binArrayCount < 2 ^ 31 ->
  bin_slot (pre ++ slot_bytes s ++ post) index result i = Ok (result ++ slot_bin (index * binArrayCount + Z.of_nat i) s).
Proof.
  intros Hs Hpre Hres Hid Hindex. unfold bin_slot. rewrite decide_False by lia. cbv zeta.
  destruct (slot_reads pre s post Hs) as (Hx & Hy & Hp & Ho & Hr & Ha). cbv zeta in *. rewrite Hpre in *.
  rewrite Hx, Hy, Hp, Ho, Hr. cbn [mbind res_bind]. destruct Hs as ((Bx & By & Bp & Bo & Br) & _ & Hprice). unfold slot_bin.
  destruct (sl_used s) eqn:Hu.
  - assert (~ (sl_X s = 0 /\ sl_Y s = 0 /\ sl_Open s = 0 /\ sl_Processed s = 0)) as Hnz by (by rewrite <- sl_used_false, Hu).
    specialize (Hprice eq_refl). rewrite decide_False by (rewrite !Z.sgn_null_iff; done). rewrite Ha. cbn [mbind res_bind].
    unfold NewBinWithProtocolLiquidity, newBinWithProtocolLiquidity.
    rewrite decide_False by lia. rewrite decide_False by (rewrite !Z.sgn_null_iff; intros [?|?]; [lia|done]).
    cbn [mbind res_bind]. rewrite !int64_small by (rewrite ?int64_small; lia). rewrite int32_small by lia. done.
  - apply sl_used_false in Hu as (-> & -> & -> & ->). rewrite decide_True by done. by rewrite app_nil_r.
Qed.

Lemma slot_bin_length id s : (length (slot_bin id s) <= 1)%nat.
Proof. unfold slot_bin. destruct (sl_used s); cbn; lia. Qed.

Lemma bin_slots_read data index post : forall slots pre result i, Forall slot_ok slots -> data = pre ++ concat (slot_bytes <$> slots) ++ post ->
  length pre = (56 + i * binSize)%nat -> (length result <= i)%nat -> (i + length slots <= binsPerArray)%nat ->
  - 2 ^ 31 <= index * binArrayCount -> index * binArrayCount + Z.of_nat binsPerArray <= 2 ^ 31 ->
  foldM (bin_slot data index) result (seq i (length slots)) = Ok (result ++ laid_bins (index * binArrayCount + Z.of_nat i) slots).
Proof.
  intros slots. induction slots as [|s slots IH]; intros pre result i Hall Hdata Hpre Hres Hi Hlo Hhi; cbn [length seq foldM laid_bins]; [by rewrite app_nil_r|].
  apply Forall_cons in Hall as [Hs Hall]. cbn [fmap list_fmap concat] in Hdata. rewrite <- app_assoc in Hdata. cbn [length] in Hi.
  rewrite Hdata at 1. rewrite (bin_slot_reads pre s _ index result i Hs Hpre) by lia. cbn [mbind res_bind].
  pose proof (slot_bin_length (index * binArrayCount + Z.of_nat i) s) as Hone.
  rewrite (IH (pre ++ slot_bytes s)).
  - rewrite <- app_assoc. do 4 f_equal. lia.
  - done.
  - rewrite Hdata. by rewrite <- app_assoc.
  - rewrite length_app, (bin_slot_length s Hs), Hpre. unfold binSize. lia.
  - rewrite length_app. lia.
  - lia.
  - done.
  - done.
Qed.

(** ** No account makes the parser panic *)

Lemma number_no_panic data offset n : (offset + n <= length data)%nat -> no_panic (number data offset n).
Proof. intros Hl. unfold number. destruct (slice_Ok data offset (offset + n)) as (v & -> & _); [lia|]. by intros why. Qed.

Lemma newBin_no_panic id x y p o r side : no_panic (NewBinWithProtocolLiquidity id x y p o r side).
Proof. unfold NewBinWithProtocolLiquidity, newBinWithProtocolLiquidity. no_panic_auto. Qed.

Lemma bin_slot_no_panic data index result i : (56 + i * binSize + binSize <= length data)%nat -> no_panic (bin_slot data index result i).
Proof.
  intros Hl. unfold bin_slot. destruct (decide _); [done|]. cbv zeta. unfold binSize in *.
  repeat (apply no_panic_bind; [apply number_no_panic; lia|intros ? _]). destruct (decide _); [done|].
  apply no_panic_bind; [apply byte_at_no_panic; lia|]. intros ask _. apply no_panic_bind; [apply newBin_no_panic|]. intros; done.
Qed.

Lemma parseBinArray_no_panic data expected pool : no_panic (parseBinArray data expected pool).
Proof.
  unfold parseBinArray. destruct (decide _) as [|Hl]; [done|]. destruct (negb _); [done|].
  assert (56 <= length data)%nat as Hmin by (assert (binArraySize = (56 + 70 * 144)%nat) as Hsize by (vm_compute; reflexivity); lia).
  apply no_panic_bind; [apply no_panic_bind; [apply number_no_panic; lia|intros; done]|]. intros index _. destruct (decide _); [done|].
  destruct (slice_Ok data 24 56) as (owner & -> & _); [lia|]. cbn [mbind res_bind]. destruct (negb _); [done|].
  apply no_panic_foldM. intros result i Hi%list_elem_of_In%in_seq. apply bin_slot_no_panic.
  pose proof (Nat.Div0.mul_div_le (length data - 56) binSize). unfold binSize in *. nia.
Qed.

Lemma stateFromData_no_panic data bins : no_panic (stateFromData data bins).
Proof.
  unfold stateFromData. destruct (negb _) eqn:Hp; [done|]. apply negb_false_iff, andb_true_iff in Hp as [Hl%bool_decide_eq_true _].
  repeat first [ apply no_panic_bind; [apply number_no_panic; lia|intros ? _] | apply no_panic_bind; [apply byte_at_no_panic; lia|intros ? _]
               | apply no_panic_bind; [match goal with |- no_panic (slice _ ?a ?b) => destruct (slice_Ok data a b) as (v & -> & _); [lia|by intros why] end|intros ? _] ].
  unfold NewProtocolStateUpdate, validate. cbv zeta. apply no_panic_bind; [|intros; done]. destruct (decide _); [done|].
  apply no_panic_bind; [|intros; done]. apply no_panic_foldM. intros previous bin _. unfold validate_bin. no_panic_auto.
Qed.

(** The bin arrays of a pool are read back as they are laid out.  From an account of
    the layout the parser reads exactly the bins that hold liquidity or orders, each at
    the identifier of its slot, whatever the other bytes hold; an array of another pool
    or of another index is an error; and no bytes at all make it panic. *)
Theorem bin_array_round_trip index reserved owner slots post :
  - 2 ^ 31 <= index * binArrayCount -> index * binArrayCount + Z.of_nat binsPerArray <= 2 ^ 31 ->
  Forall slot_ok slots -> length slots = binsPerArray -> length reserved = 8%nat -> length owner = 32%nat -> (length post < binSize)%nat ->
  (forall expected pool,
     parseBinArray (bin_account index reserved owner slots post) expected pool =
       if decide (expected = index /\ pool = owner) then Ok (laid_bins (index * binArrayCount) slots) else Err (Errorf "DLMM bin array identity mismatch")) /\
  (forall data expected pool, no_panic (parseBinArray data expected pool)).
Proof.
  intros Hlo Hhi Hslots Hcount Hres Hown Hpost. split; [|apply parseBinArray_no_panic]. intros expected pool.
  set (data := bin_account index reserved owner slots post).
  assert (length data = 56 + binsPerArray * binSize + length post)%nat as Hlen.
  { unfold data, bin_account. rewrite !length_app, le_length, (bin_slots_length slots Hslots), Hcount, Hres, Hown. unfold binArrayDiscriminator. cbn [length]. lia. }
  assert (binArraySize = (56 + binsPerArray * binSize)%nat) as Hsize by (vm_compute; reflexivity).
  unfold parseBinArray. rewrite decide_False by lia.
  assert (equalBytes (take 8 data) binArrayDiscriminator = true) as -> by (by apply bool_decide_eq_true). cbn [negb].
  assert (number data 8 8 = Ok (uint64 index)) as ->.
  { unfold data, bin_account. apply number_at; [apply Z.mod_pos_bound; lia|done]. }
  cbn [mbind res_bind]. unfold binArrayCount in Hlo, Hhi. rewrite int64_uint64 by (unfold binsPerArray in *; lia).
  destruct (decide (index <> expected)) as [Hne|He]; [rewrite decide_False by (intros [-> _]; by apply Hne); done|]. apply dec_stable in He as <-.
  assert (slice data 24 56 = Ok owner) as ->.
  { unfold data, bin_account. rewrite 2!app_assoc. rewrite slice_skip by (rewrite !length_app, le_length, Hres; cbn; lia).
    rewrite !length_app, le_length, Hres. apply slice_here; [done|]. by rewrite Hown. }
  cbn [mbind res_bind]. unfold equalBytes. destruct (decide (owner = pool)) as [<-|Hne].
  - rewrite bool_decide_true by done. cbn [negb]. rewrite decide_True by done.
    replace ((length data - 56) / binSize)%nat with (length slots).
    + rewrite (bin_slots_read data index post slots (binArrayDiscriminator ++ le 8 (uint64 index) ++ reserved ++ owner));
        [cbn [app]; by rewrite Z.add_0_r|done|unfold data, bin_account; by rewrite <- !app_assoc|by rewrite !length_app, le_length, Hres, Hown|cbn; lia|lia|done|done].
    + rewrite Hlen, Hcount. replace (56 + binsPerArray * binSize + length post - 56)%nat with (length post + binsPerArray * binSize)%nat by lia.
      by rewrite Nat.div_add, Nat.div_small by done.
  - rewrite bool_decide_false by done. cbn [negb]. rewrite decide_False by (intros [_ ->]; by apply Hne). done.
Qed.

(** ** What the batches publish *)

Lemma base58_no_panic value : no_panic (decodeBase58 value).
Proof. unfold decodeBase58. destruct (decide _); [done|]. apply no_panic_bind; [|intros; done]. apply no_panic_foldM. intros result c _. unfold base58_step. by destruct (index_of c). Qed.

Lemma key_no_panic value : no_panic (DecodePublicKey value).
Proof. unfold DecodePublicKey. apply no_panic_bind; [apply base58_no_panic|]. intros decoded _. by destruct (decide _). Qed.

(** The pair account is one, and every array was read from an account of the pool at
    that index. *)
Definition sourced (d : Decoder) : Prop :=
  (de_poolData d = [] \/ is_pair (de_poolData d) = true) /\
  map_Forall (fun index bins => exists data pool, DecodePublicKey (de_Pool d) = Ok pool /\ parseBinArray data index pool = Ok bins) (de_arrays d).

Definition id_lt (a b : Bin) : Prop := bin_id a < bin_id b.

Lemma take_change_sourced change d : sourced d -> Post (take_change change) d (fun r d' => sourced d' /\ no_panic r /\ de_Pool d' = de_Pool d).
Proof.
  intros [Hp Ha]. unfold Post, take_change. destruct (decide _).
  { destruct (negb _) eqn:Hn; [done|]. apply negb_false_iff in Hn. split; [|done]. split; [by right|done]. }
  destruct (decide _); [done|]. destruct (decide _) as [|Hl]; [done|].
  assert (no_panic (index ← (index ← number (ch_Data change) 8 8; Ok (int64 index)); pool ← DecodePublicKey (de_Pool d);
    bins ← parseBinArray (ch_Data change) index pool; Ok (index, bins))) as Hnp.
  { apply no_panic_bind; [apply no_panic_bind; [apply number_no_panic|intros; done]|].
    - assert (binArraySize = (56 + binsPerArray * binSize)%nat) as Hsize by (vm_compute; reflexivity). lia.
    - intros index _. apply no_panic_bind; [apply key_no_panic|]. intros pool _. apply no_panic_bind; [apply parseBinArray_no_panic|]. intros; done. }
  destruct (mbind _ _) as [[index bins]|e|why] eqn:Hc; [|done|by exfalso; eapply Hnp]. split; [|done]. split; [done|].
  apply bind_Ok in Hc as (k & _ & Hc). apply bind_Ok in Hc as (pool & Hpool & Hc). apply bind_Ok in Hc as (parsed & Hparse & [= <- <-]).
  cbn [de_arrays de_Pool]. apply map_Forall_insert_2; [by exists (ch_Data change), pool|done].
Qed.

Lemma changes_sourced changes : forall d, sourced d -> Post (for_each take_change changes) d (fun r d' => sourced d' /\ no_panic r /\ de_Pool d' = de_Pool d).
Proof.
  induction changes as [|change changes IH]; intros d Hd; [done|]. pose proof (take_change_sourced change d Hd) as H. unfold Post in *. cbn [for_each].
  destruct (take_change change d) as [[[]|e|why] d1]; destruct H as (H1 & H2 & H3); [|done|by exfalso; eapply H2].
  specialize (IH d1 H1). destruct (for_each _ _ _) as [r d2]. by rewrite <- H3.
Qed.

(** The bins that pass the validation of a state are in the order of their identifiers. *)
Lemma validated_sorted bins : forall previous last, foldM validate_bin previous bins = Ok last ->
  StronglySorted id_lt bins /\ Forall (fun bin => previous < bin_id bin) bins.
Proof.
  induction bins as [|bin bins IH]; intros previous last; cbn [foldM]; [split; constructor|]. intros (id & Hv & Hr)%bind_Ok.
  assert (previous < bin_id bin /\ id = bin_id bin) as [Hlt ->] by (unfold validate_bin in Hv; res_inv; lia).
  apply IH in Hr as [Hs Hall]. split; [by constructor|]. constructor; [done|]. eapply Forall_impl; [exact Hall|]. cbn. lia.
Qed.

Lemma NewProtocolStateUpdate_bins active step parameters variable bins0 u : NewProtocolStateUpdate active step parameters variable bins0 = Ok u ->
  bins u = bins0 /\ StronglySorted id_lt bins0.
Proof.
  unfold NewProtocolStateUpdate. cbv zeta. intros (? & Hv & [= <-])%bind_Ok. split; [done|]. unfold validate in Hv. cbn [state bins] in Hv.
  destruct (decide _); [done|]. apply bind_Ok in Hv as (last & Hv & _). by apply validated_sorted in Hv as [? _].
Qed.

Lemma stateFromData_bins data bins0 u : stateFromData data bins0 = Ok u -> bins u = bins0 /\ StronglySorted id_lt bins0.
Proof.
  unfold stateFromData. intros H. destruct (negb _); [done|].
  repeat match type of H with mbind _ _ = _ => apply bind_Ok in H as (? & _ & H) end. by eapply NewProtocolStateUpdate_bins.
Qed.

(** A list in strict order is the sorted list of its elements. *)
Lemma sorted_unique (l k : list Bin) : StronglySorted id_lt (merge_sort bin_le l) -> l ≡ₚ k -> merge_sort bin_le k = merge_sort bin_le l.
Proof.
  intros Hl Hlk. apply (StronglySorted_unique_strong bin_le).
  - intros x y Hx Hy Hxy Hyx. rewrite merge_sort_Permutation, <- Hlk, <- (merge_sort_Permutation bin_le l) in Hx.
    assert (bin_id x = bin_id y) as He by (unfold bin_le in *; lia).
    assert (forall b, b ∈ merge_sort bin_le l -> bin_id b = bin_id y -> b = y) as Hone; [|by apply Hone].
    clear -Hl Hy. intros b Hb Heq. revert Hl Hb Hy. generalize (merge_sort bin_le l). induction 1 as [|a m Hm IH Ha]; [by intros []%not_elem_of_nil|].
    rewrite Forall_forall in Ha. rewrite !elem_of_cons. intros [->|Hb] [->|Hy]; [done|apply Ha in Hy; unfold id_lt in Hy; lia|apply Ha in Hb; unfold id_lt in Hb; lia|auto].
  - apply StronglySorted_merge_sort; unfold bin_le; [intros a b c; lia|intros a b; lia].
  - clear -Hl. induction Hl as [|a m Hm IH Ha]; constructor; [done|]. eapply Forall_impl; [exact Ha|]. unfold id_lt, bin_le. intros b. lia.
  - by rewrite !merge_sort_Permutation.
Qed.

(** What the batches publish.  Whatever a batch holds, the decoder does not panic, and
    what it keeps, also when a change fails, is a pair account and for every index an
    array that was read from an account of the pool at that index.  What it publishes is
    the state of that pair with the bins of all those arrays, each once and in strict
    order; it does not depend on the order in which the map of arrays is ranged over. *)
Theorem DecodeAccountBatch_publishes (o1 o2 : RangeOrder Z) changes d : sourced d ->
  let '(r, d') := DecodeAccountBatch (order := o1) changes d in
  sourced d' /\ no_panic r /\
  forall updates, r = Ok updates ->
    (updates = [] /\ de_poolData d' = [] \/
     exists u, updates = [u] /\ stateFromData (de_poolData d') (bins u) = Ok u /\ StronglySorted id_lt (bins u) /\
       bins u ≡ₚ concat (map_to_list (de_arrays d')).*2) /\
    DecodeAccountBatch (order := o2) changes d = (r, d').
Proof.
  intros Hd. pose proof (changes_sourced changes d Hd) as H. unfold Post in H. unfold DecodeAccountBatch, mbind, st_bind, get, mret, st_ret, lift.
  destruct (for_each _ _ _) as [[[]|e|why] d1]; destruct H as (H1 & H2 & H3); [|by split_and!|by exfalso; eapply H2].
  destruct (decide _) as [Hz|Hz].
  { split_and!; [done|done|]. intros updates [= <-]. split; [left; split; [done|by apply nil_length_inv]|done]. }
  destruct (stateFromData (de_poolData d1) (flattenBinArrays (order := o1) (de_arrays d1))) as [u|e|why] eqn:Hu; [|by split_and!|by exfalso; eapply stateFromData_no_panic].
  split_and!; [done|done|]. intros updates [= <-]. pose proof (stateFromData_bins _ _ _ Hu) as [Hbins Hsort].
  assert (flattenBinArrays (order := o2) (de_arrays d1) = flattenBinArrays (order := o1) (de_arrays d1)) as ->.
  { apply sorted_unique; [done|]. by rewrite !range_perm. }
  rewrite Hu. split; [right|done]. exists u. rewrite Hbins. split_and!; [done|done|done|]. unfold flattenBinArrays. by rewrite merge_sort_Permutation, range_perm.
Qed.

(** ** Witnesses: a pool with two bins in use *)

Module MeteoraDecoderWitness.
Definition slot (x y price : Z) : Slot := mkSlot x y price (replicate 80 9) 0 (replicate 8 9) 0 (replicate 4 9) 1 (replicate 3 9).
Definition slots : list Slot := [slot 5 0 (2 ^ 64); slot 0 0 0; slot 0 7 (2 ^ 65)] ++ replicate 67 (slot 0 0 0).
Definition reserved : list Z := replicate 8 3.
Definition owner : list Z := replicate 32 1.

Lemma bin_array_witness :
  parseBinArray (bin_account (-2) reserved owner slots []) (-2) owner =
    Ok [mkBin (-140) (Some 5) (Some 0) (Some (2 ^ 64)) (Some 0) (Some 0) true; mkBin (-138) (Some 0) (Some 7) (Some (2 ^ 65)) (Some 0) (Some 0) true].
Proof.
  assert (Forall slot_ok slots) as Hslots.
  { assert (Forall slot_ok (replicate 67 (slot 0 0 0))) as Hr by (apply Forall_replicate; split_and!; try done; cbn; lia).
    unfold slots. rewrite Forall_app. split; [|exact Hr]. repeat (apply Forall_cons; split; [split_and!; try done; cbn; lia|]). done. }
  rewrite (proj1 (bin_array_round_trip (-2) reserved owner slots [] ltac:(vm_compute; discriminate) ltac:(vm_compute; discriminate) Hslots
    ltac:(vm_compute; reflexivity) eq_refl eq_refl ltac:(vm_compute; lia)) (-2) owner).
  vm_compute. reflexivity.
Defined.

Definition pair_account : list Z :=
  lbPairDiscriminator ++ le 2 1000 ++ replicate 70 0 ++ le 2 10 ++ replicate 900 0.
Definition owner_key : string := EncodePublicKey owner.
Definition batch : list AccountChange := [mkAccountChange owner_key true (bin_account (-2) reserved owner slots []); mkAccountChange owner_key false pair_account].
Definition reversed : RangeOrder Z := {| range := fun A m => reverse (map_to_list m); range_perm := fun A m => reverse_Permutation (map_to_list m) |}.

Lemma decoded_batch_witness :
  (exists u d', DecodeAccountBatch (order := reversed) batch (mkDecoder owner_key [] ∅) = (Ok [u], d') /\ length (bins u) = 2%nat).
Proof.
  assert (exists u d', DecodeAccountBatch (order := range_map_to_list Z) batch (mkDecoder owner_key [] ∅) = (Ok [u], d') /\ length (bins u) = 2%nat)
    as (u & d' & Hrun & Hl) by (eexists _, _; split; vm_compute; reflexivity).
  assert (sourced (mkDecoder owner_key [] ∅)) as Hd by (split; [by left|apply map_Forall_empty]).
  pose proof (DecodeAccountBatch_publishes (range_map_to_list Z) reversed batch _ Hd) as H. rewrite Hrun in H.
  exists u, d'. split; [|exact Hl]. destruct H as (_ & _ & H). exact (proj2 (H [u] eq_refl)).
Defined.
End MeteoraDecoderWitness.
