(* ===== verification/MeteoraQuotes.v ===== *)
(** * Meteora quotes are sound (src/adapters/market/meteora/dlmm/protocol_quote.go)

    A fill of a bin never pays more than its price and its liquidity allow and charges
    at least the fee rate.  A quote for an exact input is a route of such fills, and
    the accounts [RequiredBinArrayIndexes] lists are those of that route.  An exact
    output is covered by the input it is quoted at when the pool charges its fee on
    the input, at a rate of at most one half, and no bin holds more than 64 bits. *)
From S2P Require Import Prelude Amount Quote Registry Pools MeteoraDLMM.
Local Open Scope Z_scope.

(** ** Rounded division and fees *)

Lemma ceilDiv_le n d k : 0 <= n -> 0 < d -> ceilDiv n d <= k <-> n <= k * d.
Proof.
  intros Hn Hd. unfold ceilDiv. destruct (decide _) as [H0|H0].
  - assert (n = 0) as -> by (destruct (Z.sgn_spec n); lia). nia.
  - pose proof (Zquot_bounds (d - 1 + n) d ltac:(lia) ltac:(lia)). nia.
Qed.

Lemma ceilDiv_nonneg n d : 0 <= n -> 0 < d -> 0 <= ceilDiv n d.
Proof. intros Hn Hd. pose proof (proj1 (ceilDiv_le n d (ceilDiv n d) Hn Hd) ltac:(lia)). nia. Qed.

Lemma ceilDiv_0 d : ceilDiv 0 d = 0.
Proof. done. Qed.

Section fees.
Context (rate : Z) (Hrate : 0 <= rate < meteoraFeePrecision).

Lemma feeIn_le a k : 0 <= a -> feeFromIncludedAmount a rate <= k <-> a * rate <= k * meteoraFeePrecision.
Proof using Hrate.
  intros Ha. unfold feeFromIncludedAmount. destruct (decide _) as [H0|_]; [|apply ceilDiv_le; [nia|done]].
  assert (a * rate = 0) as -> by (destruct H0 as [->|H0]; [lia|destruct (Z.sgn_spec a); nia]). unfold meteoraFeePrecision. lia.
Qed.

Lemma feeEx_le x k : 0 <= x -> feeFromExcludedAmount x rate <= k <-> x * rate <= k * (meteoraFeePrecision - rate).
Proof using Hrate.
  intros Hx. unfold feeFromExcludedAmount. destruct (decide _) as [H0|_]; [|apply ceilDiv_le; [nia|lia]].
  assert (x * rate = 0) as -> by (destruct H0 as [->|H0]; [lia|destruct (Z.sgn_spec x); nia]). nia.
Qed.

Lemma feeIn_nonneg a : 0 <= a -> 0 <= feeFromIncludedAmount a rate.
Proof using Hrate. intros Ha. pose proof (proj1 (feeIn_le a _ Ha) (Z.le_refl _)). unfold meteoraFeePrecision in *. nia. Qed.

Lemma feeEx_nonneg x : 0 <= x -> 0 <= feeFromExcludedAmount x rate.
Proof using Hrate. intros Hx. pose proof (proj1 (feeEx_le x _ Hx) (Z.le_refl _)). nia. Qed.

Lemma feeIn_at_most a : 0 <= a -> feeFromIncludedAmount a rate <= a.
Proof using Hrate. intros Ha. apply feeIn_le; [done|]. nia. Qed.

(** What is left of an amount once its fee is taken out. *)
Definition net (a : Z) : Z := a - feeFromIncludedAmount a rate.

(** An amount and its fee fit an input exactly when the amount fits its net part. *)
Lemma fits_iff x a : 0 <= x -> 0 <= a -> x <= net a <-> x * meteoraFeePrecision <= a * (meteoraFeePrecision - rate).
Proof using Hrate.
  intros Hx Ha. unfold net. assert (feeFromIncludedAmount a rate <= a - x <-> a * rate <= (a - x) * meteoraFeePrecision) as H by by apply feeIn_le.
  split; intros; [apply proj1 in H; specialize (H ltac:(lia)); nia|]. enough (feeFromIncludedAmount a rate <= a - x) by lia. apply H. nia.
Qed.

Lemma gross_iff x a : 0 <= x -> 0 <= a -> x + feeFromExcludedAmount x rate <= a <-> x * meteoraFeePrecision <= a * (meteoraFeePrecision - rate).
Proof using Hrate.
  intros Hx Ha. assert (feeFromExcludedAmount x rate <= a - x <-> x * rate <= (a - x) * (meteoraFeePrecision - rate)) as H by by apply feeEx_le.
  split; intros; [apply proj1 in H; specialize (H ltac:(lia)); nia|]. enough (feeFromExcludedAmount x rate <= a - x) by lia. apply H. nia.
Qed.

Lemma fits_gross x a : 0 <= x -> 0 <= a -> x + feeFromExcludedAmount x rate <= a <-> x <= net a.
Proof using Hrate. intros Hx Ha. by rewrite fits_iff, gross_iff. Qed.

(** An amount is the net part of itself with its fee. *)
Lemma net_gross x : 0 <= x -> net (x + feeFromExcludedAmount x rate) = x.
Proof using Hrate.
  intros Hx. pose proof (feeEx_nonneg x Hx) as Hf. set (a := x + feeFromExcludedAmount x rate).
  assert (x <= net a) as H1 by (apply fits_gross; unfold a; lia).
  destruct (decide (x + 1 <= net a)) as [H2|]; [|lia]. exfalso.
  apply (proj2 (fits_gross (x + 1) a ltac:(lia) ltac:(unfold a; lia))) in H2.
  pose proof (proj1 (feeEx_le (x + 1) _ ltac:(lia)) (Z.le_refl _)) as H3.
  assert (feeFromExcludedAmount x rate <= feeFromExcludedAmount (x + 1) rate) by (apply feeEx_le; [done|nia]). unfold a in H2. lia.
Qed.

(** Two units more are more than one, after a fee of at most one half. *)
Lemma net_more x k : 0 <= x -> 2 * rate <= meteoraFeePrecision -> 2 <= k \/ (rate = 0 /\ 1 <= k) ->
  x < net (x + feeFromExcludedAmount x rate + k).
Proof using Hrate.
  intros Hx Hhalf Hk. pose proof (feeEx_nonneg x Hx). enough (x + 1 <= net (x + feeFromExcludedAmount x rate + k)) by lia.
  apply fits_iff; [lia..|].
  pose proof (proj1 (gross_iff x (x + feeFromExcludedAmount x rate) Hx ltac:(lia)) (Z.le_refl _)).
  set (g := x + feeFromExcludedAmount x rate) in *. destruct Hk as [Hk|[-> Hk]]; nia.
Qed.
End fees.

(** ** Filling the layers of a bin *)

Section fill.
Context (p : Z) (Hp : 0 < p) (swapForY : bool).

(** An output is worth at most an input at the price of the bin. *)
Definition worth (out a : Z) : Prop :=
  if swapForY then out * meteoraPriceScale <= a * p else out * p <= a * meteoraPriceScale.

Lemma scale_pos : 0 < meteoraPriceScale.
Proof using Type. done. Qed.

Lemma bin_cost_le l a : 0 <= l -> amountInForOutput l p swapForY <= a <-> worth l a.
Proof using Hp.
  pose proof scale_pos. intros Hl. unfold amountInForOutput, worth. destruct swapForY; rewrite ceilDiv_le by nia; done.
Qed.

Lemma bin_cost_worth l : 0 <= l -> worth l (amountInForOutput l p swapForY).
Proof using Hp. intros Hl. by apply bin_cost_le. Qed.

Lemma bin_cost_nonneg l : 0 <= l -> 0 <= amountInForOutput l p swapForY.
Proof using Hp. pose proof scale_pos. intros Hl. unfold amountInForOutput. destruct swapForY; apply ceilDiv_nonneg; nia. Qed.

Lemma bin_cost_pos l : 0 < l -> 0 < amountInForOutput l p swapForY.
Proof using Hp.
  pose proof scale_pos. intros Hl. destruct (Z_lt_le_dec 0 (amountInForOutput l p swapForY)) as [|H0]; [done|]. exfalso.
  apply bin_cost_le in H0; [|lia]. unfold worth in H0. destruct swapForY; nia.
Qed.

Lemma bin_cost_mono l k : 0 <= l <= k -> amountInForOutput l p swapForY <= amountInForOutput k p swapForY.
Proof using Hp.
  pose proof scale_pos. intros Hl. apply bin_cost_le; [lia|]. pose proof (bin_cost_worth k ltac:(lia)) as Hw. unfold worth in *. destruct swapForY; nia.
Qed.

Lemma le_out a k : 0 <= a -> k <= amountOutForInput a p swapForY <-> worth k a.
Proof using Hp.
  pose proof scale_pos. intros Ha. unfold amountOutForInput, worth. destruct swapForY.
  - pose proof (Zquot_bounds (p * a) meteoraPriceScale ltac:(nia) ltac:(lia)). split; nia.
  - pose proof (Zquot_bounds (a * meteoraPriceScale) p ltac:(nia) ltac:(lia)). split; nia.
Qed.

Lemma worth_0 a : 0 <= a -> worth 0 a.
Proof using Hp. pose proof scale_pos. intros Ha. unfold worth. destruct swapForY; nia. Qed.

Lemma worth_add x a y b : worth x a -> worth y b -> worth (x + y) (a + b).
Proof using Type. clear Hp. unfold worth. destruct swapForY; lia. Qed.

Lemma worth_weaken x a y b : y <= x -> a <= b -> worth x a -> worth y b.
Proof using Hp. pose proof scale_pos. unfold worth. destruct swapForY; nia. Qed.

(** What all layers together cost. *)
Definition total_cost (ls : list Z) : Z := Zsum ((fun l => amountInForOutput l p swapForY) <$> ls).

Lemma total_cost_cons l ls : total_cost (l :: ls) = amountInForOutput l p swapForY + total_cost ls.
Proof using Type. unfold total_cost. by rewrite fmap_cons, Zsum_cons. Qed.

Lemma total_cost_nonneg ls : Forall (fun l => 0 <= l) ls -> 0 <= total_cost ls.
Proof using Hp.
  induction 1 as [|l ls Hl _ IH]; [done|]. rewrite total_cost_cons. pose proof (bin_cost_nonneg l Hl). lia.
Qed.

Lemma total_cost_pos ls : Forall (fun l => 0 <= l) ls -> 0 < Zsum ls -> 0 < total_cost ls.
Proof using Hp.
  induction 1 as [|l ls Hl Hls IH]; [rewrite Zsum_nil; lia|]. rewrite total_cost_cons, Zsum_cons. intros Hs.
  pose proof (bin_cost_nonneg l Hl). pose proof (total_cost_nonneg ls Hls). destruct (decide (0 < l)) as [Hpos|]; [pose proof (bin_cost_pos l Hpos)|]; lia.
Qed.

Lemma total_cost_worth ls : Forall (fun l => 0 <= l) ls -> worth (Zsum ls) (total_cost ls).
Proof using Hp.
  induction 1 as [|l ls Hl Hls IH]; [by apply worth_0|]. rewrite total_cost_cons, Zsum_cons. apply worth_add; [by apply bin_cost_worth|done].
Qed.

(** Nothing is filled once nothing remains. *)
Lemma fill_done ls f : fill_left f = 0 -> foldM (fill_step (Some p) swapForY) f (Some <$> ls) = Ok f.
Proof using Type.
  clear Hp. intros Hf. induction ls as [|l ls IH]; [done|]. cbn [fmap list_fmap foldM].
  assert (fill_step (Some p) swapForY f (Some l) = Ok f) as -> by (unfold fill_step; by rewrite Hf). exact IH.
Qed.

Lemma fill_step_layer f l : fill_left f <> 0 -> fill_step (Some p) swapForY f (Some l) =
  (g ← fillLayer (fill_left f) (Some l) (Some p) swapForY; Ok (mkFill (fill_in f + fill_in g) (fill_out f + fill_out g) (fill_left g))).
Proof using Type. clear Hp. intros Hf. unfold fill_step. by rewrite decide_False by (destruct (Z.sgn_spec (fill_left f)); lia). Qed.

(** An input takes all layers it can pay for, or ends in one of them. *)
Lemma fill_layers ls : Forall (fun l => 0 <= l) ls -> forall f, 0 <= fill_left f ->
  let filled := foldM (fill_step (Some p) swapForY) f (Some <$> ls) in
  (total_cost ls <= fill_left f ->
     filled = Ok (mkFill (fill_in f + total_cost ls) (fill_out f + Zsum ls) (fill_left f - total_cost ls))) /\
  (fill_left f < total_cost ls -> filled = Err ErrQuoteOutputRoundsToZero \/
     exists out, filled = Ok (mkFill (fill_in f + fill_left f) (fill_out f + out) 0) /\ 0 <= out <= Zsum ls /\ worth out (fill_left f) /\
       (0 < fill_left f -> 0 < out)).
Proof using Hp.
  induction 1 as [|l ls Hl Hls IH]; intros f Hf; cbn [fmap list_fmap foldM].
  { change (total_cost []) with 0. rewrite Zsum_nil, !Z.add_0_r, Z.sub_0_r. split; [|lia]. intros _. by destruct f. }
  assert (Hsum : 0 <= Zsum ls) by by apply Zsum_nonneg. pose proof (total_cost_nonneg ls Hls) as HC. pose proof (bin_cost_nonneg l Hl) as Hc.
  destruct (decide (fill_left f = 0)) as [Hz|Hz].
  { pose proof (fill_done (l :: ls) f Hz) as Hd. cbn [fmap list_fmap foldM] in Hd. rewrite Hd, Hz.
    assert (Hall : Forall (fun l => 0 <= l) (l :: ls)) by by constructor. split; intros H.
    - assert (total_cost (l :: ls) = 0 /\ Zsum (l :: ls) = 0) as [-> ->].
      { pose proof (total_cost_nonneg _ Hall). pose proof (Zsum_nonneg _ Hall).
        destruct (decide (0 < Zsum (l :: ls))) as [Hs|]; [pose proof (total_cost_pos _ Hall Hs)|]; lia. }
      destruct f; cbn in *. do 2 f_equal; lia.
    - right. exists 0. split; [destruct f; cbn in *; do 2 f_equal; lia|]. split; [by split; [|apply Zsum_nonneg]|]. split; [by apply worth_0|lia]. }
  rewrite total_cost_cons, Zsum_cons. rewrite fill_step_layer by done.
  assert (0 < fill_left f) as Hpos by (destruct (Z.sgn_spec (fill_left f)); lia). unfold fillLayer. cbn [deref mbind res_bind].
  destruct (decide (Z.sgn l = 0)) as [Hlz|Hlz].
  { assert (l = 0) as -> by (destruct (Z.sgn_spec l); lia). cbn [mbind res_bind fill_in fill_out fill_left].
    assert (amountInForOutput 0 p swapForY = 0) as -> by (by destruct swapForY). rewrite !Z.add_0_r. exact (IH (mkFill (fill_in f) (fill_out f) (fill_left f)) Hf). }
  cbn [deref mbind res_bind]. destruct (decide (amountInForOutput l p swapForY <= fill_left f)) as [Hle|Hgt]; cbn [mbind res_bind fill_in fill_out fill_left].
  - destruct (IH (mkFill (fill_in f + amountInForOutput l p swapForY) (fill_out f + l) (fill_left f - amountInForOutput l p swapForY))) as [IH1 IH2]; [cbn; lia|].
    cbn [fill_in fill_out fill_left] in IH1, IH2. split.
    + intros H. rewrite IH1 by lia. do 2 f_equal; lia.
    + intros H. destruct (IH2 ltac:(lia)) as [|(out & Hout & Hb & Hw & _)]; [by left|]. right. exists (l + out). rewrite Hout.
      split; [do 2 f_equal; lia|]. split; [lia|]. split; [|destruct (Z.sgn_spec l); lia].
      pose proof (worth_add _ _ _ _ (bin_cost_worth l Hl) Hw) as Hw'. eapply worth_weaken; [| |exact Hw']; lia.
  - set (out := amountOutForInput (fill_left f) p swapForY). split; [lia|]. intros _.
    assert (Hw : worth out (fill_left f)) by (by apply le_out). assert (0 <= out) as Hout by (apply le_out, worth_0; lia).
    destruct (decide (Z.sgn out = 0)) as [Ho|Ho]; [by left|]. right. exists out. cbn [mbind res_bind fill_in fill_out fill_left].
    destruct (IH (mkFill (fill_in f + fill_left f) (fill_out f + out) 0)) as [IH1 IH2]; [cbn; lia|]. cbn [fill_in fill_out fill_left] in IH1, IH2.
    assert (out <= l) as Hol. { destruct (Z_le_gt_dec out l) as [|Hbig]; [done|]. exfalso. apply Hgt. apply bin_cost_le; [done|]. eapply worth_weaken; [|apply Z.le_refl|exact Hw]; lia. }
    split; [|split; [lia|split; [done|destruct (Z.sgn_spec out); lia]]].
    rewrite fill_done by done. done.
Qed.
End fill.

(** ** Valid bins *)

Definition amount_ok (v : option Z) : Prop := exists x, v = Some x /\ 0 <= x.

Record bin_ok (bin : Bin) : Prop := {
  bo_price : exists p, bin_priceX64 bin = Some p /\ 0 < p;
  bo_amounts : amount_ok (bin_reserveX bin) /\ amount_ok (bin_reserveY bin) /\ amount_ok (bin_openOrderAmount bin) /\
    amount_ok (bin_processedOrderRemainingAmount bin) }.

Lemma validate_bin_ok previous bin id : validate_bin previous bin = Ok id -> bin_ok bin.
Proof.
  unfold validate_bin. intros H. destruct (bin_reserveX bin) as [x|] eqn:Hx, (bin_reserveY bin) as [y|] eqn:Hy, (bin_priceX64 bin) as [p|] eqn:Hp,
    (bin_openOrderAmount bin) as [o|] eqn:Ho, (bin_processedOrderRemainingAmount bin) as [r|] eqn:Hr; try done.
  destruct (decide _) as [|Hd] in H; [done|]. destruct (Z.sgn_spec x), (Z.sgn_spec y), (Z.sgn_spec p), (Z.sgn_spec o), (Z.sgn_spec r); try lia.
  all: split; [exists p; split; [done|lia]|]; split; [by exists x; split; [|lia]|]; split; [by exists y; split; [|lia]|]; split; [by exists o; split; [|lia]|by exists r; split; [|lia]].
Qed.

Lemma validate_bins_ok bins : forall previous last, foldM validate_bin previous bins = Ok last -> Forall bin_ok bins.
Proof.
  induction bins as [|b bins IH]; intros previous last H; [constructor|]. cbn [foldM] in H. apply bind_Ok in H as (id & Hb & H).
  constructor; [by eapply validate_bin_ok|by eapply IH].
Qed.

(** The amounts a bin can pay out. *)
Definition layers (bin : Bin) (swapForY limits : bool) : list Z := default 0 <$> liquidityLayers bin swapForY limits.

Lemma layers_ok bin swapForY limits : bin_ok bin ->
  liquidityLayers bin swapForY limits = Some <$> layers bin swapForY limits /\ Forall (fun l => 0 <= l) (layers bin swapForY limits).
Proof.
  intros [_ ((x & Hx & ?) & (y & Hy & ?) & (o & Ho & ?) & (r & Hr & ?))]. unfold layers, liquidityLayers. rewrite Hx, Hy, Ho, Hr.
  destruct swapForY, (limits && _); cbn; (split; [done|]); repeat constructor; done.
Qed.

Definition liquidity (bin : Bin) (swapForY limits : bool) : Z := Zsum (layers bin swapForY limits).

Lemma max_layers_min ls : Forall (fun l => 0 <= l) ls -> forall total, total <= meteoraMaxUint64 ->
  max_layers total (Some <$> ls) = Ok (Z.min meteoraMaxUint64 (total + Zsum ls)).
Proof.
  induction 1 as [|l ls Hl Hls IH]; intros total Ht; cbn [fmap list_fmap max_layers]; [rewrite Zsum_nil; f_equal; lia|].
  cbn [deref mbind res_bind]. pose proof (Zsum_nonneg ls Hls). rewrite Zsum_cons. destruct (decide _); [f_equal; lia|]. rewrite IH by lia. f_equal. lia.
Qed.

Lemma maxAmountOut_min bin swapForY limits : bin_ok bin ->
  maxAmountOut bin swapForY limits = Ok (Z.min meteoraMaxUint64 (liquidity bin swapForY limits)).
Proof.
  intros [Heq Hl]%(layers_ok bin swapForY limits). unfold maxAmountOut. by rewrite Heq, max_layers_min by done.
Qed.

(** ** A quote at a bin *)

Section bin.
Context (bin : Bin) (p : Z) (Hprice : bin_priceX64 bin = Some p) (Hp : 0 < p) (Hbin : bin_ok bin).
Context (swapForY limits onInput : bool) (rate : Z) (Hrate : 0 <= rate < meteoraFeePrecision).

Definition all_cost : Z := total_cost p swapForY (layers bin swapForY limits).
Definition all_out : Z := liquidity bin swapForY limits.

Lemma all_out_nonneg : 0 <= all_out.
Proof using Hbin. apply Zsum_nonneg, layers_ok, Hbin. Qed.

Lemma all_cost_nonneg : 0 <= all_cost.
Proof using Hbin Hp. apply total_cost_nonneg, layers_ok, Hbin. done. Qed.

Lemma all_cost_pos : 0 < all_out -> 0 < all_cost.
Proof using Hbin Hp. apply total_cost_pos; [done|]. apply layers_ok, Hbin. Qed.

Lemma exactInFill_cases a : 0 <= a ->
  (all_cost <= a -> exactInFill bin a swapForY limits = Ok (mkFill all_cost all_out (a - all_cost))) /\
  (a < all_cost -> exactInFill bin a swapForY limits = Err ErrQuoteOutputRoundsToZero \/
     exists out, exactInFill bin a swapForY limits = Ok (mkFill a out 0) /\ 0 <= out <= all_out /\ worth p swapForY out a /\ (0 < a -> 0 < out)).
Proof using Hbin Hp Hprice.
  intros Ha. destruct (layers_ok bin swapForY limits Hbin) as [Heq Hls]. unfold exactInFill. rewrite Heq, Hprice.
  destruct (fill_layers p Hp swapForY _ Hls (mkFill 0 0 a) Ha) as [H1 H2]. cbn [fill_in fill_out fill_left] in H1, H2. split.
  - intros H. by rewrite H1 by done.
  - intros H. destruct (H2 H) as [->|(out & -> & ?)]; [by left|right; by exists out].
Qed.

(** What is left of the input for the bin. *)
Definition net_input (a : Z) : Z := if onInput then net rate a else a.
Definition gross_input (x : Z) : Z := if onInput then x + feeFromExcludedAmount x rate else x.
Definition net_output (out : Z) : Z := if onInput then out else net rate out.

Definition input_fee (a : Z) : Z := if onInput then feeFromIncludedAmount a rate else 0.

(** The fee that is reported with an input [a] and a gross output [out]. *)
Definition fee_reported (fee out : Z) : Z := if onInput then fee else feeFromIncludedAmount out rate.

(** An input that is not used up takes the whole bin; one that is takes what it can
    pay for. *)
Inductive bin_cases (a : Z) : res binQuoteResult -> Prop :=
| bin_nothing : net_input a <= 0 -> bin_cases a (Ok (mkBinQuote 0 0 0))
| bin_rounds : 0 < net_input a < all_cost -> bin_cases a (Err ErrQuoteOutputRoundsToZero)
| bin_all : 0 < net_input a -> all_cost < net_input a ->
    bin_cases a (Ok (mkBinQuote (gross_input all_cost) (net_output all_out) (fee_reported (feeFromExcludedAmount all_cost rate) all_out)))
| bin_exact out : 0 < net_input a <= all_cost -> 0 <= out <= all_out -> worth p swapForY out (net_input a) ->
    (net_input a = all_cost -> out = all_out) -> (0 < all_out -> 0 < out) ->
    bin_cases a (Ok (mkBinQuote a (net_output out) (fee_reported (feeFromIncludedAmount a rate) out))).

Lemma at_bin_cases a : 0 <= a -> bin_cases a (quoteExactInAtBin bin a swapForY limits onInput rate).
Proof using Hbin Hp Hprice.
  intros Ha. unfold quoteExactInAtBin. cbv zeta.
  assert (a - (if onInput then feeFromIncludedAmount a rate else 0) = net_input a) as -> by (unfold net_input, net; destruct onInput; lia).
  destruct (decide _) as [Hz|Hz]; [apply bin_nothing; destruct (Z.sgn_spec (net_input a)); lia|].
  assert (Hn : 0 < net_input a) by (destruct (Z.sgn_spec (net_input a)); lia).
  destruct (exactInFill_cases (net_input a) ltac:(lia)) as [H1 H2]. destruct (Z_le_gt_dec all_cost (net_input a)) as [Hle|Hgt].
  - rewrite (H1 Hle). cbn [mbind res_bind fill_in fill_out fill_left]. destruct (decide _) as [Hl|Hl].
    + assert (all_cost < net_input a) as Hlt by (destruct (Z.sgn_spec (net_input a - all_cost)); lia).
      pose proof (bin_all a Hn Hlt) as Hc. unfold gross_input, net_output, fee_reported, net in Hc. destruct onInput; exact Hc.
    + assert (net_input a = all_cost) as Heq by (destruct (Z.sgn_spec (net_input a - all_cost)); lia).
      assert (Hw : worth p swapForY all_out (net_input a)) by (rewrite Heq; apply total_cost_worth; [done|apply layers_ok, Hbin]).
      pose proof (bin_exact a all_out ltac:(lia) ltac:(pose proof all_out_nonneg; lia) Hw ltac:(done) ltac:(done)) as Hc.
      unfold gross_input, net_output, fee_reported, net in Hc. destruct onInput; exact Hc.
  - destruct (H2 ltac:(lia)) as [->|(out & -> & Hb & Hw & Hpos)]; [apply bin_rounds; lia|]. cbn [mbind res_bind fill_in fill_out fill_left].
    rewrite decide_False by done. pose proof (bin_exact a out ltac:(lia) Hb Hw ltac:(lia) ltac:(auto)) as Hc.
    unfold gross_input, net_output, fee_reported, net in Hc. destruct onInput; exact Hc.
Qed.
End bin.

(** ** Fair fills *)

(** What goes to the bin of a fill and what comes out of it, without the fee. *)
Definition to_bin (onInput : bool) (q : binQuoteResult) : Z := if onInput then bq_in q - bq_fee q else bq_in q.
Definition from_bin (onInput : bool) (q : binQuoteResult) : Z := if onInput then bq_out q else bq_out q + bq_fee q.

(** A fill pays at most what the price of the bin and its liquidity allow, and charges
    at least the rate, of what it takes or of what it pays. *)
Record fair_fill (swapForY onInput limits : bool) (rate : Z) (bin : Bin) (q : binQuoteResult) : Prop := {
  ff_amounts : 0 <= bq_in q /\ 0 <= bq_out q /\ 0 <= bq_fee q;
  ff_price : worth (default 0 (bin_priceX64 bin)) swapForY (from_bin onInput q) (to_bin onInput q);
  ff_liquidity : from_bin onInput q <= liquidity bin swapForY limits;
  ff_fee : (if onInput then bq_in q else from_bin onInput q) * rate <= bq_fee q * meteoraFeePrecision }.

Lemma at_bin_fair bin swapForY limits onInput rate a q : bin_ok bin -> 0 <= rate < meteoraFeePrecision -> 0 <= a ->
  quoteExactInAtBin bin a swapForY limits onInput rate = Ok q -> fair_fill swapForY onInput limits rate bin q /\ bq_in q <= a.
Proof.
  intros Hbin Hrate Ha Hq. destruct (bo_price bin Hbin) as (p & Hprice & Hp).
  pose proof (at_bin_cases bin p Hprice Hp Hbin swapForY limits onInput rate a Ha) as Hcases. rewrite Hq in Hcases.
  pose proof (all_out_nonneg bin Hbin swapForY limits) as HT. pose proof (all_cost_nonneg bin p Hp Hbin swapForY limits) as HC.
  pose proof (total_cost_worth p Hp swapForY _ (proj2 (layers_ok bin swapForY limits Hbin))) as Hw.
  assert (Hfe : forall x, 0 <= x -> x * rate <= feeFromExcludedAmount x rate * (meteoraFeePrecision - rate)) by (intros x Hx; by apply feeEx_le).
  assert (Hfi : forall x, 0 <= x -> 0 <= feeFromIncludedAmount x rate <= x /\ x * rate <= feeFromIncludedAmount x rate * meteoraFeePrecision)
    by (intros x Hx; split; [split; [by apply feeIn_nonneg|by apply feeIn_at_most]|by apply feeIn_le]).
  inversion Hcases as [Hn|?|Hn Hlt|out [Hn Hle] Hout Hworth Hall Hpos]; subst q; clear Hcases Hq;
    unfold net_input, gross_input, net_output, fee_reported, net in *.
  - split; [|done]. destruct onInput; split; cbn; rewrite ?Hprice; cbn; try lia; try exact HT; by apply worth_0.
  - destruct onInput; cbn in *.
    + pose proof (Hfe _ HC). pose proof (feeEx_nonneg rate Hrate _ HC). split.
      * split; cbn; rewrite ?Hprice; cbn; [lia| |unfold all_out; lia|lia]. replace (_ + _ - _) with (all_cost bin p swapForY limits) by lia. exact Hw.
      * apply fits_gross; [done..|]. unfold net. lia.
    + pose proof (Hfi _ HT). split; [|lia]. split; cbn; rewrite ?Hprice; cbn; [lia| |unfold all_out in *; lia|].
      * replace (_ - _ + _) with (all_out bin swapForY limits) by lia. exact Hw.
      * replace (_ - _ + _) with (all_out bin swapForY limits) by lia. lia.
  - destruct onInput; cbn in *.
    + pose proof (Hfi a Ha). split; [|done]. split; cbn; rewrite ?Hprice; cbn; [lia|exact Hworth|unfold all_out in *; lia|lia].
    + pose proof (Hfi out ltac:(lia)). split; [|done]. split; cbn; rewrite ?Hprice; cbn; [lia| |unfold all_out in *; lia|].
      * replace (_ - _ + _) with out by lia. exact Hworth.
      * replace (_ - _ + _) with out by lia. lia.
Qed.

Lemma at_bin_no_panic bin swapForY limits onInput rate a : bin_ok bin -> 0 <= a ->
  no_panic (quoteExactInAtBin bin a swapForY limits onInput rate).
Proof.
  intros Hbin Ha. destruct (bo_price bin Hbin) as (p & Hprice & Hp).
  destruct (at_bin_cases bin p Hprice Hp Hbin swapForY limits onInput rate a Ha); first [apply no_panic_Ok|apply no_panic_Err].
Qed.

(** ** The state of a pool *)

(** The fields of unsigned types. *)
Record state_typed (s : StateUpdate) : Prop := {
  ty_feeRate : 0 <= feeRate s; ty_binStep : 0 <= binStep s; ty_baseFactor : 0 <= baseFactor s; ty_baseFeePower : 0 <= baseFeePower s;
  ty_variableControl : 0 <= variableControl s; ty_maxVolatility : 0 <= maxVolatility s }.

Record pool_ok (s : StateUpdate) : Prop := {
  po_bins : Forall bin_ok (bins s);
  po_feeRate : feeRate s < meteoraFeePrecision;
  po_binStep : binStep s <> 0;
  po_baseFactor : fixedFee s = false -> variableControl s <> 0 -> maxVolatility s <> 0 -> state_typed s -> 0 < baseFactor s }.

Lemma validate_pool s : validate (mkSnapshot snapshotSchemaVersion s) = Ok tt -> pool_ok s.
Proof.
  unfold validate. cbn [schemaVersion state]. destruct (decide _) as [|Hd]; [done|]. intros (last & Hbins & _)%bind_Ok.
  unfold LiquidityCurve.FeeRatePrecision in Hd. split.
  - by eapply validate_bins_ok.
  - unfold meteoraFeePrecision. lia.
  - intros H. apply Hd. by right; left.
  - intros Hf Hc Hm [? ? ? ? ? ?]. destruct (decide (baseFactor s = 0)) as [Hz|]; [|lia]. exfalso. apply Hd. do 4 right. split; [done|]. lia.
Qed.

(** The fee rate of a bin: the fixed rate, or one that is positive and at most a tenth. *)
Lemma feeRateAtBin_cases s id variables : pool_ok s -> state_typed s ->
  0 <= feeRateAtBin s id variables < meteoraFeePrecision /\
  (2 * feeRate s <= meteoraFeePrecision -> 2 * feeRateAtBin s id variables <= meteoraFeePrecision) /\
  ((forall id', feeRateAtBin s id' variables = 0) \/ forall id', 0 < feeRateAtBin s id' variables).
Proof.
  intros Hok Hty. pose proof Hty as [Hf Hb _ Hp Hc Hm]. pose proof Hok as [_ HfF Hb0 Hbf]. unfold feeRateAtBin. destruct (decide _) as [Hd|Hd].
  - split; [done|]. split; [done|]. destruct (decide (feeRate s = 0)) as [->|]; [by left|right; intros _; lia].
  - assert (Hdyn : forall id', 0 < dynamicFeeRate (qv_indexReference variables) id' (binStep s) (baseFactor s) (baseFeePower s) (variableControl s)
      (maxVolatility s) (qv_volatilityReference variables) <= 100000000).
    { intros id'. unfold dynamicFeeRate. cbv zeta. set (v := Z.min _ _). assert (0 < baseFactor s) as Hbf0.
      { apply Hbf; [destruct (fixedFee s); [exfalso; apply Hd; by left|done]|intros H; apply Hd; by right; left|intros H; apply Hd; by do 2 right|done]. }
      assert (0 < baseFactor s * binStep s * 10 * 10 ^ baseFeePower s) as Hbase by (apply Z.mul_pos_pos; [nia|by apply Z.pow_pos_nonneg]).
      assert (0 <= variableControl s * binStep s * binStep s * v * v) as Hn.
      { replace (_ * v * v) with ((variableControl s * (binStep s * binStep s)) * (v * v)) by ring.
        apply Z.mul_nonneg_nonneg; [apply Z.mul_nonneg_nonneg; [done|nia]|nia]. }
      pose proof (ceilDiv_nonneg _ 100000000000 Hn ltac:(done)). destruct (decide _); [lia|]. unfold uint64. rewrite Z.mod_small by lia. lia. }
    split; [specialize (Hdyn id); unfold meteoraFeePrecision; lia|]. split; [intros _; specialize (Hdyn id); unfold meteoraFeePrecision; lia|].
    right. intros id'. apply Hdyn.
Qed.

(** ** The route of a quote *)

Definition over (f : binQuoteResult -> Z) (fills : list (Bin * binQuoteResult)) : Z := Zsum ((fun x => f x.2) <$> fills).

Lemma over_cons f x fills : over f (x :: fills) = f x.2 + over f fills.
Proof. unfold over. by rewrite fmap_cons, Zsum_cons. Qed.

(** The arrays of the bins of a route, in the order they are met. *)
Definition array_of (bin : Bin) : Z := floorDiv (bin_id bin) binArrayCount.
Definition see (indexes : list Z) (index : Z) : list Z := if decide (index ∈ indexes) then indexes else indexes ++ [index].
Definition arrays_met (indexes : list Z) (fills : list (Bin * binQuoteResult)) : list Z := foldl see indexes ((fun x => array_of x.1) <$> fills).

Lemma arrays_met_spec fills : forall indexes, NoDup indexes ->
  NoDup (arrays_met indexes fills) /\ forall i, i ∈ arrays_met indexes fills <-> i ∈ indexes \/ exists fill, fill ∈ fills /\ array_of fill.1 = i.
Proof.
  induction fills as [|fill fills IH]; intros indexes Hnd; cbn.
  - split; [done|]. intros i. split; [by left|]. intros [|(f & Hf & _)]; [done|by apply not_elem_of_nil in Hf].
  - assert (NoDup (see indexes (array_of fill.1)) /\ forall i, i ∈ see indexes (array_of fill.1) <-> i ∈ indexes \/ array_of fill.1 = i) as [Hnd' Hsee].
    { unfold see. destruct (decide _) as [Hin|Hin]; [split; [done|]; intros i; split; [by left|intros [|<-]; done]|]. split.
      - apply NoDup_app. split; [done|]. split; [|apply NoDup_singleton]. intros i Hi ->%list_elem_of_singleton. done.
      - intros i. rewrite elem_of_app, list_elem_of_singleton. naive_solver. }
    destruct (IH _ Hnd') as [H1 H2]. split; [done|]. intros i. unfold arrays_met in H2. rewrite H2, Hsee. setoid_rewrite elem_of_cons. naive_solver.
Qed.

Section route.
Context (s : StateUpdate) (swapForY : bool) (variables : quoteVariables) (Hok : pool_ok s) (Hty : state_typed s).

Definition fair (x : Bin * binQuoteResult) : Prop :=
  fair_fill swapForY (feeOnInput s swapForY) (supportsLimitOrders s) (feeRateAtBin s (bin_id x.1) variables) x.1 x.2.

Lemma at_bin_ok bin a q : bin_ok bin -> 0 <= a -> at_bin s swapForY variables bin a = Ok q -> fair (bin, q) /\ 0 <= bq_in q <= a.
Proof using Hok Hty.
  intros Hbin Ha Hq. unfold at_bin in Hq. apply at_bin_fair in Hq as [Hf Hle]; [|done|by apply feeRateAtBin_cases|done].
  split; [done|]. destruct Hf as [(Hi & _) _ _ _]. lia.
Qed.

Lemma route_fills route : Forall bin_ok route -> forall l l' indexes, 0 <= ql_remaining l ->
  foldM (exact_in_step s swapForY variables) l route = Ok l' ->
  exists fills, fills.*1 `sublist_of` route /\ Forall fair fills /\ Forall (fun x => 0 < bq_in x.2) fills /\ 0 <= ql_remaining l' /\
    ql_remaining l' = ql_remaining l - over bq_in fills /\ ql_total l' = ql_total l + over bq_out fills /\ ql_fee l' = ql_fee l + over bq_fee fills /\
    foldM (array_step s swapForY variables) (ql_remaining l, indexes) route = Ok (ql_remaining l', arrays_met indexes fills).
Proof using Hok Hty.
  induction 1 as [|bin route Hbin _ IH]; intros l l' indexes Hr H; cbn [foldM] in *.
  { injection H as <-. exists []. unfold over. cbn. rewrite Zsum_nil, !Z.add_0_r, Z.sub_0_r. repeat split; try done; constructor. }
  apply bind_Ok in H as (l1 & H1 & H).
  assert (Hskip : l1 = l -> array_step s swapForY variables (ql_remaining l, indexes) bin = Ok (ql_remaining l, indexes) -> exists fills,
    fills.*1 `sublist_of` bin :: route /\ Forall fair fills /\ Forall (fun x => 0 < bq_in x.2) fills /\ 0 <= ql_remaining l' /\
    ql_remaining l' = ql_remaining l - over bq_in fills /\ ql_total l' = ql_total l + over bq_out fills /\ ql_fee l' = ql_fee l + over bq_fee fills /\
    (st ← array_step s swapForY variables (ql_remaining l, indexes) bin; foldM (array_step s swapForY variables) st route) =
      Ok (ql_remaining l', arrays_met indexes fills)).
  { intros -> ->. destruct (IH l l' indexes Hr H) as (fills & Hsub & ?). exists fills. split; [by constructor|done]. }
  unfold exact_in_step in H1. unfold array_step in Hskip |- *.
  destruct (decide (Z.sgn (ql_remaining l) = 0)) as [|Hz]; [injection H1 as <-; by apply Hskip|].
  rewrite maxAmountOut_min in * by done. cbn [mbind res_bind] in *. destruct (decide _) as [|Ha]; [injection H1 as <-; by apply Hskip|].
  apply bind_Ok in H1 as (q & Hq%wrap_Ok & H1). rewrite Hq in *. cbn [mbind res_bind] in *.
  destruct (decide (Z.sgn (bq_in q) = 0)) as [|Hi]; [injection H1 as <-; by apply Hskip|]. destruct (decide _) in H1; [done|]. injection H1 as <-.
  destruct (at_bin_ok bin (ql_remaining l) q Hbin Hr Hq) as [Hfair Hin].
  destruct (IH (mkQuoteLoop (ql_remaining l - bq_in q) (ql_total l + bq_out q) (ql_fee l + bq_fee q)) l' (see indexes (array_of bin)) ltac:(cbn; lia) H) as (fills & Hsub & Hall & Hpos & Hr' & Hrem & Htot & Hfee & Harr). cbn [ql_remaining ql_total ql_fee] in *.
  exists ((bin, q) :: fills). rewrite !over_cons. cbn [snd]. repeat apply conj; try lia.
  - cbn. by constructor.
  - by constructor.
  - constructor; [cbn; destruct (Z.sgn_spec (bq_in q)); lia|done].
  - exact Harr.
Qed.
End route.

(** ** An exact output is covered by its input *)

Section layered_output.
Context (p : Z) (Hp : 0 < p) (swapForY : bool).

(** What the layers cost for an output they hold. *)
Lemma output_layers ls : Forall (fun l => 0 <= l) ls -> forall x acc, 0 <= x <= Zsum ls ->
  exists cost, foldM (output_step (Some p) swapForY) (x, acc) (Some <$> ls) = Ok (0, acc + cost) /\
    0 <= cost <= total_cost p swapForY ls /\ (0 < x -> 0 < cost).
Proof using Hp.
  induction 1 as [|l ls Hl Hls IH]; intros x acc Hx; cbn [fmap list_fmap foldM].
  { rewrite Zsum_nil in Hx. assert (x = 0) as -> by lia. exists 0. rewrite Z.add_0_r. change (total_cost p swapForY []) with 0. split; [done|lia]. }
  rewrite Zsum_cons in Hx. rewrite total_cost_cons. pose proof (Zsum_nonneg ls Hls).
  pose proof (bin_cost_nonneg p Hp swapForY l Hl). pose proof (total_cost_nonneg p Hp swapForY ls Hls).
  destruct (decide (x = 0)) as [->|Hz].
  - assert (output_step (Some p) swapForY (0, acc) (Some l) = Ok (0, acc)) as -> by done. cbn [mbind res_bind].
    destruct (IH 0 acc ltac:(lia)) as (cost & Hc & Hb & _). exists cost. split; [done|lia].
  - set (part := Z.min x l). assert (output_step (Some p) swapForY (x, acc) (Some l) = Ok (x - part, acc + amountInForOutput part p swapForY)) as ->
      by (unfold output_step; by rewrite decide_False by (destruct (Z.sgn_spec x); lia)).
    cbn [mbind res_bind]. destruct (IH (x - part) (acc + amountInForOutput part p swapForY) ltac:(lia)) as (cost & Hc & Hb & Hc0).
    exists (amountInForOutput part p swapForY + cost). rewrite Hc.
    pose proof (bin_cost_mono p Hp swapForY part l ltac:(lia)). pose proof (bin_cost_nonneg p Hp swapForY part ltac:(lia)).
    split; [do 2 f_equal; lia|]. split; [lia|]. intros _. destruct (decide (0 < part)) as [Hm|]; [pose proof (bin_cost_pos p Hp swapForY _ Hm)|]; lia.
Qed.
End layered_output.

Section covering.
Context (s : StateUpdate) (swapForY : bool) (variables : quoteVariables) (Hok : pool_ok s) (Hty : state_typed s).
Context (Honinput : feeOnInput s swapForY = true) (Hhalf : 2 * feeRate s <= meteoraFeePrecision).

(** The bins of the pool hold at most what a token account can. *)
Definition bin_fits (bin : Bin) : Prop := liquidity bin swapForY (supportsLimitOrders s) <= meteoraMaxUint64.

(** A step of the exact-output loop at a bin with liquidity.  It takes everything the
    bin has, or spends all inputs there are, or ends in the bin; in each case the
    same fill follows from the inputs that are left for it. *)
Inductive output_fill (bin : Bin) (requested : Z) (q : binQuoteResult) : Prop :=
| takes_all : bq_out q <= requested ->
    (forall rest, 0 <= rest -> (feeRateAtBin s (bin_id bin) variables = 0 \/ rest <> 1) -> at_bin s swapForY variables bin (bq_in q + rest) = Ok q) ->
    output_fill bin requested q
| spends_all : bq_out q <= requested -> bq_in q = meteoraMaxUint64 -> at_bin s swapForY variables bin (bq_in q) = Ok q -> output_fill bin requested q
| ends q' : bq_out q = requested -> requested <= bq_out q' -> bq_in q' = bq_in q -> bq_fee q' = bq_fee q ->
    at_bin s swapForY variables bin (bq_in q) = Ok q' -> output_fill bin requested q.

Lemma output_fill_cases bin requested q : bin_ok bin -> bin_fits bin -> 0 < liquidity bin swapForY (supportsLimitOrders s) -> 0 < requested ->
  quoteExactOutAtBin bin requested swapForY (supportsLimitOrders s) (feeOnInput s swapForY) (feeRateAtBin s (bin_id bin) variables) = Ok q ->
  output_fill bin requested q /\ 0 < bq_out q /\ 0 < bq_in q /\ (0 < feeRateAtBin s (bin_id bin) variables -> 2 <= bq_in q).
Proof using Hok Hty Honinput Hhalf.
  intros Hbin Hfits Hliq Hreq Hq. destruct (feeRateAtBin_cases s (bin_id bin) variables Hok Hty) as (Hrate & Hhalf' & _). specialize (Hhalf' Hhalf).
  set (rate := feeRateAtBin s (bin_id bin) variables) in *. set (limits := supportsLimitOrders s) in *.
  destruct (bo_price bin Hbin) as (p & Hprice & Hp).
  pose proof (all_cost_pos bin p Hp Hbin swapForY limits Hliq) as HC. pose proof (feeEx_nonneg rate Hrate _ (Z.lt_le_incl _ _ HC)) as Hfe.
  assert (Htwo : forall x, 0 < x -> 0 < rate -> 1 <= feeFromExcludedAmount x rate).
  { intros x Hx Hr. destruct (Z_le_gt_dec 1 (feeFromExcludedAmount x rate)) as [|H0]; [done|]. exfalso.
    pose proof (proj1 (feeEx_le rate Hrate x 0 ltac:(lia)) ltac:(lia)). nia. }
  assert (Hcases : forall a, 0 <= a -> bin_cases bin p swapForY limits true rate a (at_bin s swapForY variables bin a)).
  { intros a Ha. unfold at_bin. rewrite Honinput. by apply at_bin_cases. }
  unfold quoteExactOutAtBin in Hq. rewrite Honinput, maxAmountOut_min in Hq by done. cbn [mbind res_bind] in Hq.
  unfold bin_fits in Hfits. fold limits in Hfits. rewrite Z.min_r in Hq by done. destruct (decide _) as [Hfull|Hpart] in Hq.
  - assert (at_bin s swapForY variables bin meteoraMaxUint64 = Ok q) as Hat by (unfold at_bin; by rewrite Honinput).
    pose proof (Hcases meteoraMaxUint64 ltac:(done)) as Hc. rewrite Hat in Hc.
    inversion Hc as [Hn|?|Hn Hlt|out [Hn Hle] Hout Hworth Hall Hpos]; subst q; cbn [bq_in bq_out bq_fee].
    + exfalso. unfold net_input, net in Hn. pose proof (proj1 (feeIn_le rate Hrate meteoraMaxUint64 (meteoraMaxUint64 - 1) ltac:(done))) as Hx.
      assert (feeFromIncludedAmount meteoraMaxUint64 rate <= meteoraMaxUint64 - 1); [|lia]. apply feeIn_le; [done..|].
      change meteoraMaxUint64 with 18446744073709551615 in *. unfold meteoraFeePrecision in *. nia.
    + unfold gross_input, net_output, all_out in *. split; [|split; [done|split; [lia|intros Hr; pose proof (Htwo _ HC Hr); lia]]].
      apply takes_all; [done|]. intros rest Hrest Hone. cbn [bq_in].
      pose proof (Hcases (all_cost bin p swapForY limits + feeFromExcludedAmount (all_cost bin p swapForY limits) rate + rest) ltac:(lia)) as Hc'.
      destruct (decide (rest = 0)) as [->|Hr0].
      * rewrite Z.add_0_r in *. assert (Hnet : net_input true rate (all_cost bin p swapForY limits + feeFromExcludedAmount (all_cost bin p swapForY limits) rate) = all_cost bin p swapForY limits)
          by (apply net_gross; [done|lia]).
        inversion Hc' as [Hn'|Hn'|Hn' Hlt'|out Hn' Hout' Hw' Hall' Hpos' Heq]; rewrite Hnet in *; try lia.
        rewrite (Hall' eq_refl). do 2 f_equal. unfold fee_reported. unfold net_input, net in Hnet. lia.
      * assert (Hnet : all_cost bin p swapForY limits < net_input true rate (all_cost bin p swapForY limits + feeFromExcludedAmount (all_cost bin p swapForY limits) rate + rest))
          by (apply net_more; [done|lia|done|lia]).
        inversion Hc' as [Hn'|Hn'|Hn' Hlt'|out Hn' Hout' Hw' Hall' Hpos' Heq]; try lia. done.
    + split; [|split; [by apply Hpos|split; [done|done]]]. apply spends_all; [|done|done]. cbn. unfold all_out in Hout. lia.
  - destruct (layers_ok bin swapForY limits Hbin) as [Hlayers Hls]. unfold inputForLayeredOutput in Hq. rewrite Hlayers, Hprice in Hq.
    destruct (output_layers p Hp swapForY _ Hls requested 0 ltac:(unfold liquidity in *; lia)) as (cost & Hcost & Hb & Hc0). specialize (Hc0 Hreq).
    rewrite Hcost in Hq. cbn [mbind res_bind] in Hq. rewrite decide_False in Hq by done. cbn [mbind res_bind] in Hq.
    apply bind_Ok in Hq as (q' & Hq' & Hq). destruct (decide _) as [|Hge] in Hq; [done|]. injection Hq as <-. cbn [bq_out bq_in].
    assert (Hat : at_bin s swapForY variables bin (cost + feeFromExcludedAmount cost rate) = Ok q') by (unfold at_bin; by rewrite Honinput).
    pose proof (feeEx_nonneg rate Hrate cost ltac:(lia)) as Hfc. pose proof (Hcases (cost + feeFromExcludedAmount cost rate) ltac:(lia)) as Hc.
    assert (Hnet : net_input true rate (cost + feeFromExcludedAmount cost rate) = cost) by (apply net_gross; [done|lia]).
    assert (bq_in q' = cost + feeFromExcludedAmount cost rate) as Hin.
    { rewrite Hat in Hc. inversion Hc as [Hn|?|Hn Hlt|out Hn Hout Hworth Hall Hpos]; subst q'; cbn; unfold all_cost in *; rewrite ?Hnet in *; lia. }
    split; [|split; [done|split; [lia|intros Hr; pose proof (Htwo cost Hc0 Hr); lia]]].
    apply (ends _ _ _ q'); cbn; try done; [lia|]. by rewrite Hin.
Qed.

Lemma max_pos : 0 < meteoraMaxUint64.
Proof using Type. done. Qed.

(** A pass of the exact-output loop does nothing or fills a bin. *)
Inductive out_pass (l : quoteLoop) (bin : Bin) : quoteLoop -> Prop :=
| pass_done : ql_remaining l = 0 -> out_pass l bin l
| pass_empty : ql_remaining l <> 0 -> liquidity bin swapForY (supportsLimitOrders s) = 0 -> out_pass l bin l
| pass_fill q : 0 < ql_remaining l -> 0 < liquidity bin swapForY (supportsLimitOrders s) -> output_fill bin (ql_remaining l) q ->
    0 < bq_out q -> 0 < bq_in q -> (0 < feeRateAtBin s (bin_id bin) variables -> 2 <= bq_in q) ->
    ql_total l + bq_in q <= meteoraMaxUint64 ->
    out_pass l bin (mkQuoteLoop (ql_remaining l - bq_out q) (ql_total l + bq_in q) (ql_fee l + bq_fee q)).

Lemma exact_out_pass l bin l' : bin_ok bin -> bin_fits bin -> 0 <= ql_remaining l ->
  exact_out_step s swapForY variables l bin = Ok l' -> out_pass l bin l' /\ 0 <= ql_remaining l'.
Proof using Hok Hty Honinput Hhalf.
  intros Hbin Hfits Hr H. unfold exact_out_step in H. destruct (decide _) as [Hz|Hz] in H.
  { injection H as <-. split; [apply pass_done; destruct (Z.sgn_spec (ql_remaining l)); lia|done]. }
  rewrite maxAmountOut_min in H by done. cbn [mbind res_bind] in H. pose proof Hfits as Hfit. unfold bin_fits in Hfit. rewrite Z.min_r in H by done.
  pose proof (all_out_nonneg bin Hbin swapForY (supportsLimitOrders s)) as Hnn. unfold all_out in Hnn.
  destruct (decide _) as [Hl|Hl] in H; [injection H as <-; split; [apply pass_empty|done]; [destruct (Z.sgn_spec (ql_remaining l)); lia|by apply Z.sgn_null_iff]|].
  apply bind_Ok in H as (q & Hq%wrap_Ok & H). assert (0 < ql_remaining l) as Hpos by (destruct (Z.sgn_spec (ql_remaining l)); lia).
  assert (0 < liquidity bin swapForY (supportsLimitOrders s)) as Hliq by (destruct (Z.sgn_spec (liquidity bin swapForY (supportsLimitOrders s))); lia).
  destruct (output_fill_cases bin (ql_remaining l) q Hbin Hfits Hliq Hpos Hq) as (Hfill & Ho & Hi & H2).
  rewrite decide_False in H by (destruct (Z.sgn_spec (bq_out q)); lia). destruct (decide _) in H; [done|]. injection H as <-. cbn.
  split; [by apply pass_fill; try done; lia|]. destruct Hfill; lia.
Qed.

(** What a run of the loop adds to the input. *)
Lemma exact_out_total route : Forall bin_ok route -> Forall bin_fits route -> forall l l', 0 <= ql_remaining l ->
  foldM (exact_out_step s swapForY variables) l route = Ok l' ->
  0 <= ql_remaining l' /\ ql_total l <= ql_total l' /\ (ql_total l' = ql_total l -> l' = l) /\
  ((forall id, 0 < feeRateAtBin s id variables) -> ql_total l' - ql_total l <> 1) /\ (ql_total l' <= meteoraMaxUint64 \/ l' = l).
Proof using Hok Hty Honinput Hhalf.
  induction 1 as [|bin route Hbin Hroute IH]; intros Hfits l l' Hr H; cbn [foldM] in H.
  { injection H as <-. split; [done|]. split; [lia|]. split; [done|]. split; [lia|by right]. }
  apply Forall_cons in Hfits as [Hfit Hfits]. apply bind_Ok in H as (l1 & H1 & H).
  destruct (exact_out_pass l bin l1 Hbin Hfit Hr H1) as [Hpass Hr1]. destruct (IH Hfits l1 l' Hr1 H) as (Hr' & Hle & Heq & Hone & Hmax).
  split; [done|]. inversion Hpass as [|?|q Hpos Hliq Hfill Ho Hi H2 Hm]; subst l1; [done..|]. cbn [ql_total] in *.
  split; [lia|]. split; [lia|]. split; [intros Hrates; specialize (H2 (Hrates (bin_id bin))); lia|]. left. destruct Hmax as [| ->]; [done|exact Hm].
Qed.

Definition ErrOverflow : error := Errorf "meteora exact-input quote overflows u64".

(** The exact-input loop takes the fill it is offered. *)
Lemma exact_in_fill l bin q : bin_ok bin -> 0 < ql_remaining l -> 0 < liquidity bin swapForY (supportsLimitOrders s) ->
  at_bin s swapForY variables bin (ql_remaining l) = Ok q -> 0 < bq_in q ->
  exact_in_step s swapForY variables l bin =
    Ok (mkQuoteLoop (ql_remaining l - bq_in q) (ql_total l + bq_out q) (ql_fee l + bq_fee q)) \/
  exact_in_step s swapForY variables l bin = Err ErrOverflow.
Proof using Type.
  clear Hok Hty Honinput Hhalf. intros Hbin Hr Hl Hat Hi. unfold exact_in_step. rewrite decide_False by (destruct (Z.sgn_spec (ql_remaining l)); lia).
  rewrite maxAmountOut_min by done. cbn [mbind res_bind]. pose proof max_pos.
  rewrite decide_False by (intros ?%Z.sgn_null_iff; lia).
  rewrite Hat. cbn [wrap mbind res_bind]. rewrite decide_False by (destruct (Z.sgn_spec (bq_in q)); lia). destruct (decide _); [by right|by left].
Qed.

Lemma exact_in_done route l : ql_remaining l = 0 -> foldM (exact_in_step s swapForY variables) l route = Ok l.
Proof using Type.
  clear. intros H0. induction route as [|bin route IH]; [done|]. cbn [foldM].
  assert (exact_in_step s swapForY variables l bin = Ok l) as -> by (unfold exact_in_step; by rewrite H0). exact IH.
Qed.

Lemma exact_out_done route l : ql_remaining l = 0 -> foldM (exact_out_step s swapForY variables) l route = Ok l.
Proof using Type.
  clear. intros H0. induction route as [|bin route IH]; [done|]. cbn [foldM].
  assert (exact_out_step s swapForY variables l bin = Ok l) as -> by (unfold exact_out_step; by rewrite H0). exact IH.
Qed.

Lemma exact_in_empty l bin : bin_ok bin -> liquidity bin swapForY (supportsLimitOrders s) = 0 -> exact_in_step s swapForY variables l bin = Ok l.
Proof using Type.
  clear. intros Hbin H0. unfold exact_in_step. destruct (decide _); [done|]. rewrite maxAmountOut_min, H0 by done. done.
Qed.

Lemma route_covers route : Forall bin_ok route -> Forall bin_fits route -> forall lo lo' li, 0 <= ql_remaining lo -> 0 <= ql_total lo ->
  foldM (exact_out_step s swapForY variables) lo route = Ok lo' -> ql_remaining lo' <= 0 -> ql_remaining li = ql_total lo' - ql_total lo ->
  (exists li', foldM (exact_in_step s swapForY variables) li route = Ok li' /\ ql_remaining li' = 0 /\
     ql_total li + ql_remaining lo <= ql_total li') \/
  foldM (exact_in_step s swapForY variables) li route = Err ErrOverflow.
Proof using Hok Hty Honinput Hhalf.
  induction 1 as [|bin route Hbin Hroute IH]; intros Hfits lo lo' li Hr Ht H Hend Hli.
  { injection H as <-. left. exists li. split; [done|]. lia. }
  destruct (decide (ql_remaining lo = 0)) as [Hz|Hnz].
  { rewrite exact_out_done in H by done. injection H as <-. left. exists li. rewrite exact_in_done by lia. split; [done|lia]. }
  cbn [foldM] in *. apply Forall_cons in Hfits as [Hfit Hfits]. apply bind_Ok in H as (l1 & H1 & H).
  destruct (exact_out_pass lo bin l1 Hbin Hfit Hr H1) as [Hpass Hr1].
  destruct (exact_out_total route Hroute Hfits l1 lo' Hr1 H) as (Hr' & Hle & Hsame & Hone & Hmax).
  inversion Hpass as [Hz|_ Hempty|q Hpos Hliq Hfill Ho Hi H2 Hm]; subst l1; [done| |].
  { rewrite exact_in_empty by done. cbn [mbind res_bind]. by apply (IH Hfits lo lo'). }
  cbn [ql_total ql_remaining] in *. set (rest := ql_total lo' - (ql_total lo + bq_in q)) in *.
  assert (exists q', at_bin s swapForY variables bin (ql_remaining li) = Ok q' /\ bq_in q' = bq_in q /\ bq_out q <= bq_out q') as (q' & Hat & Hin & Hout).
  { replace (ql_remaining li) with (bq_in q + rest) by lia. destruct Hfill as [_ Hall|_ Hmx Hat|q' Heq Hge Hin _ Hat].
    - exists q. split; [|done]. apply Hall; [lia|]. destruct (feeRateAtBin_cases s (bin_id bin) variables Hok Hty) as (_ & _ & [Hz|Hp]); [by left|by right; apply Hone].
    - exists q. split; [|done]. assert (rest = 0) as ->; [|by rewrite Z.add_0_r]. destruct Hmax as [|Heq]; [lia|]. unfold rest. rewrite Heq. cbn. lia.
    - exists q'. split; [|split; [done|lia]]. assert (rest = 0) as ->; [|by rewrite Z.add_0_r].
      rewrite exact_out_done in H by (cbn; lia). injection H as <-. unfold rest. cbn. lia. }
  assert (0 < ql_remaining li) as Hli0 by lia.
  destruct (exact_in_fill li bin q' Hbin Hli0 Hliq Hat ltac:(lia)) as [-> | ->]; [|by right]. cbn [mbind res_bind].
  destruct (IH Hfits (mkQuoteLoop (ql_remaining lo - bq_out q) (ql_total lo + bq_in q) (ql_fee lo + bq_fee q)) lo' (mkQuoteLoop (ql_remaining li - bq_in q') (ql_total li + bq_out q') (ql_fee li + bq_fee q')) Hr1 ltac:(cbn; lia) H Hend ltac:(cbn; lia))
    as [(li' & Hli' & Hz & Hbuys)|Herr]; [left|by right].
  exists li'. split; [done|]. split; [done|]. cbn in Hbuys. lia.
Qed.
End covering.

(** ** Quotes *)

Lemma routeBins_incl s swapForY P : Forall P (bins s) -> Forall P (routeBins s swapForY).
Proof.
  intros H. apply Forall_forall. intros bin Hbin. apply (proj1 (Forall_forall _ _) H). unfold routeBins in Hbin.
  destruct swapForY; apply list_elem_of_filter in Hbin as [_ Hbin]; [|done]. by apply list_elem_of_In, in_rev, list_elem_of_In.
Qed.

Lemma quoteExactIn_run s amount swapForY timestamp : validProtocolAmount (Some amount) = true ->
  quoteExactIn s (Some amount) swapForY timestamp =
    variables ← variablesAt s timestamp;
    l ← foldM (exact_in_step s swapForY variables) (mkQuoteLoop amount 0 0) (routeBins s swapForY);
    if decide (0 < Z.sgn (ql_remaining l)) then Err (Errorf "insufficient Meteora DLMM liquidity") else
    if decide (Z.sgn (ql_total l) = 0) then Err ErrQuoteOutputRoundsToZero else Ok (mkProtocolQuote amount (ql_total l) (ql_fee l)).
Proof. intros H. unfold quoteExactIn. by rewrite H. Qed.

(** A Meteora quote for an exact input is a route of fair fills.  It goes through bins
    of the snapshot in the order of their prices, from the active one on; each fill
    pays at most what its bin holds and its price allows and is charged at least the
    fee rate of the bin at that time; together they take exactly the input, pay the
    output and carry the fee that are reported.  The array accounts that
    [RequiredBinArrayIndexes] lists for the same input are those of the bins on this
    route, each once. *)
Theorem quoteExactIn_route s amount swapForY timestamp quote :
  validate (mkSnapshot snapshotSchemaVersion s) = Ok tt -> state_typed s -> quoteExactIn s (Some amount) swapForY timestamp = Ok quote ->
  exists variables fills indexes, variablesAt s timestamp = Ok variables /\ fills.*1 `sublist_of` routeBins s swapForY /\
    Forall (fair s swapForY variables) fills /\ pq_in quote = amount /\ amount = over bq_in fills /\ pq_out quote = over bq_out fills /\
    0 < pq_out quote /\ pq_fee quote = over bq_fee fills /\
    RequiredBinArrayIndexes s (Some amount) swapForY timestamp = Ok indexes /\ NoDup indexes /\
    forall index, index ∈ indexes <-> exists fill, fill ∈ fills /\ array_of fill.1 = index.
Proof.
  intros Hok%validate_pool Hty Hq. destruct (validProtocolAmount (Some amount)) eqn:Hv; [|unfold quoteExactIn in Hq; by rewrite Hv in Hq].
  assert (0 < amount) as Ha by (apply bool_decide_eq_true in Hv; destruct (Z.sgn_spec amount); lia).
  rewrite quoteExactIn_run in Hq by done. apply bind_Ok in Hq as (variables & Hvar & (l & Hl & Hq)%bind_Ok).
  destruct (decide _) as [|Hrem] in Hq; [done|]. destruct (decide _) as [|Htot] in Hq; [done|]. injection Hq as <-.
  destruct (route_fills s swapForY variables Hok Hty _ (routeBins_incl s swapForY _ (po_bins s Hok)) (mkQuoteLoop amount 0 0) l [] ltac:(cbn; lia) Hl)
    as (fills & Hsub & Hfair & Hpos & Hr & Hin & Hout & Hfee & Harr). cbn [ql_remaining ql_total ql_fee] in *.
  assert (0 <= over bq_out fills) as Hnn.
  { apply Zsum_nonneg, Forall_fmap, (Forall_impl _ _ _ Hfair). intros x [(_ & ? & _) _ _ _]. done. }
  destruct (arrays_met_spec fills [] (NoDup_nil_2)) as [Hnd Hidx].
  exists variables, fills, (arrays_met [] fills). cbn [pq_in pq_out pq_fee]. split; [done|]. split; [done|]. split; [done|]. split; [done|].
  split; [destruct (Z.sgn_spec (ql_remaining l)); lia|]. split; [lia|]. split; [destruct (Z.sgn_spec (ql_total l)); lia|]. split; [lia|].
  split; [|split; [done|intros i; rewrite Hidx; split; [by intros [?%not_elem_of_nil|]|by right]]].
  unfold RequiredBinArrayIndexes. rewrite Hv. cbn [negb deref mbind res_bind]. rewrite Hvar. cbn [mbind res_bind]. rewrite Harr. cbn [mbind res_bind].
  by rewrite decide_False.
Qed.

(** C35.The two quotes of a Meteora pool agree when it charges its fee on the input, its
    fee rate is at most one half and no bin holds more than 64 bits: the input quoted
    for an exact output, quoted as an exact input on the same snapshot at the same time,
    buys at least that output, over every bin and layer of limit orders and with every
    rounding; the only alternative is the reported overflow of the output.  A pool that
    charges its fee on the output does not have this property
    ([MeteoraWitness.output_fee_not_covered]). *)
Theorem quoteExactOut_covered s amount swapForY timestamp quote :
  validate (mkSnapshot snapshotSchemaVersion s) = Ok tt -> state_typed s -> feeOnInput s swapForY = true ->
  2 * feeRate s <= meteoraFeePrecision -> Forall (bin_fits s swapForY) (bins s) ->
  quoteExactOut s (Some amount) swapForY timestamp = Ok quote ->
  (exists quote', quoteExactIn s (Some (pq_in quote)) swapForY timestamp = Ok quote' /\ amount <= pq_out quote') \/
  quoteExactIn s (Some (pq_in quote)) swapForY timestamp = Err ErrOverflow.
Proof.
  intros Hok%validate_pool Hty Hon Hhalf Hfits Hq. unfold quoteExactOut in Hq.
  destruct (validProtocolAmount (Some amount)) eqn:Hv; [|done]. cbn [negb deref mbind res_bind] in Hq.
  assert (0 < amount) as Ha by (apply bool_decide_eq_true in Hv; destruct (Z.sgn_spec amount); lia).
  apply bind_Ok in Hq as (variables & Hvar & (l & Hl & Hq)%bind_Ok). destruct (decide _) as [|Hrem] in Hq; [done|]. injection Hq as <-. cbn [pq_in].
  pose proof (routeBins_incl s swapForY _ (po_bins s Hok)) as Hbins. pose proof (routeBins_incl s swapForY _ Hfits) as Hfit.
  destruct (exact_out_total s swapForY variables Hok Hty Hon Hhalf _ Hbins Hfit (mkQuoteLoop amount 0 0) l ltac:(cbn; lia) Hl) as (Hr & Hle & Hsame & _ & Hmax).
  cbn [ql_remaining ql_total] in *. assert (ql_remaining l <= 0) as Hend by (destruct (Z.sgn_spec (ql_remaining l)); lia).
  assert (0 < ql_total l) as Hpos. { destruct (decide (ql_total l = 0)) as [H0|]; [|lia]. rewrite (Hsame H0) in Hend. cbn in Hend. lia. }
  assert (validProtocolAmount (Some (ql_total l)) = true) as Hvi.
  { apply bool_decide_eq_true. split; [destruct (Z.sgn_spec (ql_total l)); lia|]. destruct Hmax as [|Heq]; [done|]. rewrite Heq in Hpos. cbn in Hpos. lia. }
  rewrite quoteExactIn_run, Hvar by done. cbn [mbind res_bind].
  destruct (route_covers s swapForY variables Hok Hty Hon Hhalf _ Hbins Hfit (mkQuoteLoop amount 0 0) l (mkQuoteLoop (ql_total l) 0 0) ltac:(cbn; lia) ltac:(done) Hl Hend ltac:(cbn; lia))
    as [(l' & -> & Hz & Hbuys)| ->]; [left|by right]. cbn [mbind res_bind ql_total ql_remaining] in *.
  rewrite Hz. cbn [Z.sgn]. rewrite decide_False by done. rewrite decide_False by (destruct (Z.sgn_spec (ql_total l')); lia).
  eexists. split; [done|]. cbn. lia.
Qed.

(** ** Quotes always answer *)

Lemma exactInFill_no_panic bin a swapForY limits : bin_ok bin -> no_panic (exactInFill bin a swapForY limits).
Proof.
  intros Hbin. destruct (bo_price bin Hbin) as (p & Hprice & _), (layers_ok bin swapForY limits Hbin) as [Heq _].
  unfold exactInFill. rewrite Heq, Hprice. apply no_panic_foldM. intros f layer (l & -> & _)%list_elem_of_fmap.
  unfold fill_step, fillLayer. cbn [deref mbind res_bind]. no_panic_auto.
Qed.

Lemma quoteExactInAtBin_no_panic bin a swapForY limits onInput rate : bin_ok bin -> no_panic (quoteExactInAtBin bin a swapForY limits onInput rate).
Proof.
  intros Hbin. unfold quoteExactInAtBin. cbv zeta. destruct (decide _); [apply no_panic_Ok|].
  apply no_panic_bind; [by apply exactInFill_no_panic|]. intros fill _. destruct (decide _), onInput; apply no_panic_Ok.
Qed.

Lemma inputForLayeredOutput_no_panic bin a swapForY limits : bin_ok bin -> no_panic (inputForLayeredOutput bin a swapForY limits).
Proof.
  intros Hbin. destruct (bo_price bin Hbin) as (p & Hprice & _), (layers_ok bin swapForY limits Hbin) as [Heq _].
  unfold inputForLayeredOutput. rewrite Heq, Hprice. apply no_panic_bind; [|intros [? ?] _; no_panic_auto].
  apply no_panic_foldM. intros [x acc] layer (l & -> & _)%list_elem_of_fmap. unfold output_step. cbn [deref mbind res_bind]. no_panic_auto.
Qed.

Lemma quoteExactOutAtBin_no_panic bin a swapForY limits onInput rate : bin_ok bin -> no_panic (quoteExactOutAtBin bin a swapForY limits onInput rate).
Proof.
  intros Hbin. unfold quoteExactOutAtBin. cbv zeta. rewrite maxAmountOut_min by done. cbn [mbind res_bind].
  destruct (decide _); [by apply quoteExactInAtBin_no_panic|]. apply no_panic_bind; [by apply inputForLayeredOutput_no_panic|]. intros x _.
  apply no_panic_bind; [by apply quoteExactInAtBin_no_panic|]. intros q _. no_panic_auto.
Qed.

Lemma variablesAt_no_panic s timestamp : no_panic (variablesAt s timestamp).
Proof. unfold variablesAt. no_panic_auto. Qed.

(** The quotes of a validated Meteora snapshot and the list of its accounts are always
    answered: no nil amount or price is read, whatever is asked for. *)
Theorem meteora_answers s amount swapForY timestamp :
  validate (mkSnapshot snapshotSchemaVersion s) = Ok tt ->
  no_panic (quoteExactIn s amount swapForY timestamp) /\ no_panic (quoteExactOut s amount swapForY timestamp) /\
  no_panic (RequiredBinArrayIndexes s amount swapForY timestamp).
Proof.
  intros Hok%validate_pool. pose proof (routeBins_incl s swapForY _ (po_bins s Hok)) as Hbins.
  unfold quoteExactIn, quoteExactOut, RequiredBinArrayIndexes. destruct amount as [amount|]; [|cbn; repeat split; apply no_panic_Err].
  destruct (validProtocolAmount (Some amount)); cbn [negb deref mbind res_bind]; [|repeat split; apply no_panic_Err].
  split; [|split]; (apply no_panic_bind; [apply variablesAt_no_panic|]; intros variables _; apply no_panic_bind;
    [apply no_panic_foldM; intros l bin Hbin; apply (proj1 (Forall_forall _ _) Hbins) in Hbin|intros ? _; no_panic_auto]).
  - unfold exact_in_step. destruct (decide _); [apply no_panic_Ok|]. rewrite maxAmountOut_min by done. cbn [mbind res_bind].
    destruct (decide _); [apply no_panic_Ok|]. apply no_panic_bind; [by apply no_panic_wrap, quoteExactInAtBin_no_panic|intros q _; no_panic_auto].
  - unfold exact_out_step. destruct (decide _); [apply no_panic_Ok|]. rewrite maxAmountOut_min by done. cbn [mbind res_bind].
    destruct (decide _); [apply no_panic_Ok|]. apply no_panic_bind; [by apply no_panic_wrap, quoteExactOutAtBin_no_panic|intros q _; no_panic_auto].
  - destruct l as [remaining indexes]. unfold array_step. destruct (decide _); [apply no_panic_Ok|]. rewrite maxAmountOut_min by done. cbn [mbind res_bind].
    destruct (decide _); [apply no_panic_Ok|]. apply no_panic_bind; [by apply quoteExactInAtBin_no_panic|intros q _; no_panic_auto].
Qed.

(** A pool with a limit order behind the active bin and another array below it. *)
Module MeteoraWitness.
Definition witness_bin (id x y price open : Z) (ask : bool) : Bin := mkBin id (Some x) (Some y) (Some price) (Some open) (Some 0) ask.
Definition witness_pool (mode : Z) (bins : list Bin) : StateUpdate :=
  mkStateUpdate 0 25 0 false 10000 30 600 5000 0 0 2 mode false 30000 350000 20000 20000 0 1000 bins.
Definition pool : StateUpdate := witness_pool 0
  [witness_bin (-71) 0 900000 18400000000000000000 0 false; witness_bin 0 500000 1000 18446744073709551616 20000 false;
   witness_bin 1 700000 0 18492860933568825490 0 true].

Lemma meteora_route_witness : exists variables fills indexes, variablesAt pool 1010 = Ok variables /\ fills.*1 `sublist_of` routeBins pool true /\
  Forall (fair pool true variables) fills /\ 61177 = 61177 /\ 61177 = over bq_in fills /\ 60000 = over bq_out fills /\
  0 < 60000 /\ 1077 = over bq_fee fills /\ RequiredBinArrayIndexes pool (Some 61177) true 1010 = Ok indexes /\ NoDup indexes /\
  forall index, index ∈ indexes <-> exists fill, fill ∈ fills /\ array_of fill.1 = index.
Proof.
  assert (validate (mkSnapshot snapshotSchemaVersion pool) = Ok tt) as Hok by (vm_compute; reflexivity).
  assert (state_typed pool) as Hty by (split; vm_compute; discriminate).
  assert (quoteExactIn pool (Some 61177) true 1010 = Ok (mkProtocolQuote 61177 60000 1077)) as Hq by (vm_compute; reflexivity).
  exact (quoteExactIn_route pool 61177 true 1010 (mkProtocolQuote 61177 60000 1077) Hok Hty Hq).
Defined.

Lemma meteora_covered_witness : (exists quote, quoteExactIn pool (Some 61177) true 1010 = Ok quote /\ 60000 <= pq_out quote) \/
  quoteExactIn pool (Some 61177) true 1010 = Err ErrOverflow.
Proof.
  assert (validate (mkSnapshot snapshotSchemaVersion pool) = Ok tt) as Hok by (vm_compute; reflexivity).
  assert (state_typed pool) as Hty by (split; vm_compute; discriminate).
  assert (feeOnInput pool true = true) as Hon by reflexivity.
  assert (2 * feeRate pool <= meteoraFeePrecision) as Hhalf by (vm_compute; discriminate).
  assert (Forall (bin_fits pool true) (bins pool)) as Hfits by (repeat constructor; vm_compute; discriminate).
  assert (quoteExactOut pool (Some 60000) true 1010 = Ok (mkProtocolQuote 61177 60000 1077)) as Hq by (vm_compute; reflexivity).
  exact (quoteExactOut_covered pool 60000 true 1010 (mkProtocolQuote 61177 60000 1077) Hok Hty Hon Hhalf Hfits Hq).
Defined.

Lemma meteora_answers_witness : no_panic (quoteExactIn pool (Some 5) true 0) /\ no_panic (quoteExactOut pool (Some 5) true 0) /\
  no_panic (RequiredBinArrayIndexes pool (Some 5) true 0).
Proof. apply (meteora_answers pool (Some 5) true 0). vm_compute. reflexivity. Defined.

(** With the fee on the output the two quotes do not agree: a bin whose whole output is
    eaten by the fee is skipped when an output is asked for, but an input pays for it. *)
Definition dusty : StateUpdate := witness_pool 1
  [witness_bin (-1) 0 1000000 18428315757951600 0 false; witness_bin 0 0 1 18446744073709551 0 false].
Example output_fee_not_covered : validate (mkSnapshot snapshotSchemaVersion dusty) = Ok tt /\
  quoteExactOut dusty (Some 100) true 1010 = Ok (mkProtocolQuote 101102 100 1) /\
  quoteExactIn dusty (Some 101102) true 1010 = Ok (mkProtocolQuote 101102 99 2).
Proof. split_and!; vm_compute; reflexivity. Qed.
End MeteoraWitness.
