(* ===== verification/UniswapV3.v ===== *)
(** * Uniswap V3 pools
    (src/adapters/market/uniswapv3/state.go, math.go, reducer.go, quoter.go)

    The snapshot of a concentrated-liquidity pool, the events that reduce to it
    and the local exact-input quote.  Proofs are in [UniswapSwap] (the quote)
    and [UniswapLiquidity] (the reducer).  A [*big.Int] that may be nil is an
    [option Z] and dereferencing nil panics; the [int32] conversions of values
    that fit are the identity. *)
From S2P Require Import Prelude Amount Quote Registry Pools.
Local Open Scope Z_scope.

(** ** Constants *)

Definition MinTick : Z := -887272.
Definition MaxTick : Z := 887272.
Definition maxTickSpacing : Z := 16383.
Definition feeDenominator : Z := 1000000.
Definition snapshotSchemaVersion : Z := 2.

Definition q32 : Z := 2 ^ 32.
Definition q96 : Z := 2 ^ 96.
Definition q128 : Z := 2 ^ 128.
Definition maxUint256 : Z := 2 ^ 256 - 1.
Definition maxUint128 : Z := 2 ^ 128 - 1.
Definition maxInt128 : Z := 2 ^ 127 - 1.
Definition minInt128 : Z := - 2 ^ 127.
Definition minSqrtRatio : Z := 4295128739.
Definition maxSqrtRatio : Z := 1461446703485210103287273052203988822378723970342.

Definition tickFactors : list Z := [
  0xfffcb933bd6fad37aa2d162d1a594001; 0xfff97272373d413259a46990580e213a;
  0xfff2e50f5f656932ef12357cf3c7fdcc; 0xffe5caca7e10e4e61c3624eaa0941cd0;
  0xffcb9843d60f6159c9db58835c926644; 0xff973b41fa98c081472e6896dfb254c0;
  0xff2ea16466c96a3843ec78b326b52861; 0xfe5dee046a99a2a811c461f1969c3053;
  0xfcbe86c7900a88aedcffc83b479aa3a4; 0xf987a7253ac413176f2b074cf7815e54;
  0xf3392b0822b70005940c7a398e4b70f3; 0xe7159475a2c29b7443b29c7fa6e889d9;
  0xd097f3bdfd2022b8845ad8f792aa5825; 0xa9f746462d870fdf8a65dc1f90e061e5;
  0x70d869a156d2a1b890bb3df62baf32f7; 0x31be135f97d08fd981231505542fcfa6;
  0x9aa508b5b7a84e1c677de54f3e99bc9; 0x5d6af8dedb81196699c329225ee604;
  0x2216e584f5fa1ea926041bedfe98; 0x48a170391f7dc42444e8fa2 ].

(** ** Tick prices *)

(** One pass of the loop over the factors of the bits of [absTick]. *)
Definition apply_factor (absTick : Z) (ratio : Z) (bit_factor : nat * Z) : Z :=
  let '(bit, factor) := bit_factor in
  if decide (Z.land absTick (Z.shiftl 1 (Z.of_nat bit)) <> 0) then Z.shiftr (ratio * factor) 128 else ratio.

Definition indexed_factors : list (nat * Z) := zip (seq 0 20) tickFactors.

Definition SqrtRatioAtTick (tick : Z) : res Z :=
  if decide (tick < MinTick \/ MaxTick < tick) then Err (Errorf "tick %d outside Uniswap V3 bounds") else
  let absTick := if decide (tick < 0) then - tick else tick in
  let ratio := foldl (apply_factor absTick) q128 indexed_factors in
  let ratio := if decide (0 < tick) then Z.quot maxUint256 ratio else ratio in
  let result := Z.quot ratio q32 in
  Ok (if decide (Z.sgn (Z.rem ratio q32) <> 0) then result + 1 else result).

(** ** State *)

Definition ErrInsufficientTickCoverage : error := Sentinel "ErrInsufficientTickCoverage".

Record TickCoverage := mkTickCoverage { tc_full : bool; tc_minWord : Z; tc_maxWord : Z }.

Definition FullTickCoverage : TickCoverage := mkTickCoverage true 0 0.

Definition NewTickCoverage (minWord maxWord : Z) : res TickCoverage :=
  if decide (maxWord < minWord) then Err (Errorf "minimum tick word exceeds maximum")
  else Ok (mkTickCoverage false minWord maxWord).

Definition Contains (c : TickCoverage) (word : Z) : Prop :=
  tc_full c = true \/ tc_minWord c <= word /\ word <= tc_maxWord c.
#[global] Instance Contains_dec c word : Decision (Contains c word) := ltac:(unfold Contains; apply _).

Record Tick := mkTick { tick_index : Z; tick_gross : option Z; tick_net : option Z }.

Definition NewTick (index : Z) (liquidityGross liquidityNet : option Z) : res Tick :=
  match liquidityGross, liquidityNet with
  | Some gross, Some net =>
      if decide (Z.sgn gross <= 0)
      then Err (Errorf "tick liquidity gross must be positive and net must be present") else
      if decide (gross < Z.abs net) then Err (Errorf "tick liquidity net exceeds gross") else
      if decide (maxUint128 < gross \/ maxInt128 < net \/ net < minInt128)
      then Err (Errorf "tick liquidity exceeds Uniswap V3 integer bounds")
      else Ok (mkTick index (Some gross) (Some net))
  | _, _ => Err (Errorf "tick liquidity gross must be positive and net must be present")
  end.

Record Snapshot := mkSnapshot {
  us_schemaVersion : Z; us_sqrtPriceX96 : option Z; us_tick : Z; us_liquidity : option Z;
  us_feePips : Z; us_tickSpacing : Z; us_ticks : list Tick; us_coverage : TickCoverage }.

(** [int64] division rounded down.  [spacing] is positive in a valid state; Go
    panics on a zero divisor, which the callers below write out. *)
Definition floorDiv (value divisor : Z) : Z :=
  let quotient := Z.quot value divisor in
  if decide (value < 0 /\ Z.rem value divisor <> 0) then quotient - 1 else quotient.

(** The bitmap word of a tick. *)
Definition tick_word (spacing tick : Z) : Z := floorDiv (floorDiv tick spacing) 256.

Definition validateTickPrice (tick sqrtPriceX96 : Z) : res unit :=
  lower ← SqrtRatioAtTick tick;
  upper ← SqrtRatioAtTick (tick + 1);
  if decide (sqrtPriceX96 < lower \/ upper < sqrtPriceX96)
  then Err (Errorf "sqrt price is inconsistent with tick %d") else Ok tt.

(** One pass of the loop over the initialized ticks; the loop variable is the
    previous index. *)
Definition validate_tick (s : Snapshot) (previous : Z) (initialized : Tick) : res Z :=
  let index := tick_index initialized in
  if decide (index <= previous \/ index < MinTick \/ MaxTick < index \/ Z.rem index (us_tickSpacing s) <> 0)
  then Err (Errorf "invalid or unsorted initialized tick %d") else
  if decide (~ Contains (us_coverage s) (tick_word (us_tickSpacing s) index))
  then Err (Errorf "initialized tick %d is outside declared coverage") else
  _ ← NewTick index (tick_gross initialized) (tick_net initialized);
  Ok index.

Definition validate (s : Snapshot) : res unit :=
  match us_sqrtPriceX96 s, us_liquidity s with
  | Some price, Some liquidity =>
      if decide (us_schemaVersion s <> snapshotSchemaVersion) then Err (Errorf "incomplete Uniswap V3 state") else
      if decide (us_tick s < MinTick \/ MaxTick <= us_tick s \/ us_tickSpacing s <= 0 \/
                 maxTickSpacing < us_tickSpacing s \/ feeDenominator <= us_feePips s)
      then Err (Errorf "invalid Uniswap V3 tick, spacing, or fee") else
      if decide (price <= minSqrtRatio \/ maxSqrtRatio <= price \/ Z.sgn liquidity < 0)
      then Err (Errorf "invalid Uniswap V3 price or liquidity") else
      if decide (maxUint128 < liquidity) then Err (Errorf "active liquidity exceeds uint128") else
      _ ← validateTickPrice (us_tick s) price;
      if decide (tc_full (us_coverage s) = false /\ tc_maxWord (us_coverage s) < tc_minWord (us_coverage s))
      then Err (Errorf "invalid Uniswap V3 tick coverage") else
      _ ← foldM (validate_tick s) (MinTick - 1) (us_ticks s);
      Ok tt
  | _, _ => Err (Errorf "incomplete Uniswap V3 state")
  end.

(** [sort.Slice] by index.  It is not stable, but a list with two ticks of the
    same index is rejected in whatever order they end up. *)
Definition tick_le (t u : Tick) : Prop := tick_index t <= tick_index u.
#[global] Instance tick_le_dec : RelDecision tick_le := ltac:(unfold tick_le, RelDecision; intros; apply _).
Definition normalizedTicks (ticks : list Tick) : list Tick := merge_sort tick_le ticks.

(** ** Updates *)

Record StateUpdate := mkStateUpdate {
  su_sqrtPriceX96 : option Z; su_tick : Z; su_liquidity : option Z; su_feePips : Z;
  su_tickSpacing : Z; su_ticks : list Tick; su_coverage : TickCoverage }.

Definition snapshot_of (u : StateUpdate) : Snapshot :=
  mkSnapshot snapshotSchemaVersion (su_sqrtPriceX96 u) (su_tick u) (su_liquidity u) (su_feePips u)
    (su_tickSpacing u) (su_ticks u) (su_coverage u).

Definition NewCoveredStateUpdate (sqrtPriceX96 : option Z) (tick : Z) (liquidity : option Z)
    (feePips tickSpacing : Z) (ticks : list Tick) (coverage : TickCoverage) : res StateUpdate :=
  let update := mkStateUpdate sqrtPriceX96 tick liquidity feePips tickSpacing (normalizedTicks ticks) coverage in
  _ ← validate (snapshot_of update);
  Ok update.

Definition NewStateUpdate (sqrtPriceX96 : option Z) (tick : Z) (liquidity : option Z)
    (feePips tickSpacing : Z) (ticks : list Tick) : res StateUpdate :=
  NewCoveredStateUpdate sqrtPriceX96 tick liquidity feePips tickSpacing ticks FullTickCoverage.

Inductive PoolUpdate :=
| InitializeUpdate (sqrtPriceX96 : option Z) (tick : Z)
| SwapUpdate (sqrtPriceX96 : option Z) (tick : Z) (liquidity : option Z)
| LiquidityUpdate (lower upper : Z) (delta : option Z)
| FeeUpdate (feePips : Z).

Definition NewSwapUpdate (sqrtPriceX96 : option Z) (tick : Z) (liquidity : option Z) : res PoolUpdate :=
  match sqrtPriceX96, liquidity with
  | Some price, Some l =>
      if decide (Z.sgn l < 0 \/ tick < MinTick \/ MaxTick <= tick)
      then Err (Errorf "invalid Uniswap V3 swap state") else
      if decide (price <= minSqrtRatio \/ maxSqrtRatio <= price)
      then Err (Errorf "sqrt price is outside Uniswap V3 bounds") else
      _ ← validateTickPrice tick price;
      Ok (SwapUpdate (Some price) tick (Some l))
  | _, _ => Err (Errorf "invalid Uniswap V3 swap state")
  end.

Definition NewFeeUpdate (feePips : Z) : res PoolUpdate :=
  if decide (feeDenominator <= feePips) then Err (Errorf "invalid Uniswap V3 fee") else Ok (FeeUpdate feePips).

Definition NewLiquidityUpdate (lower upper : Z) (delta : option Z) : res PoolUpdate :=
  match delta with
  | Some _ =>
      if decide (upper <= lower \/ lower < MinTick \/ MaxTick < upper)
      then Err (Errorf "invalid Uniswap V3 liquidity update") else Ok (LiquidityUpdate lower upper delta)
  | None => Err (Errorf "invalid Uniswap V3 liquidity update")
  end.

Definition NewInitializeUpdate (sqrtPriceX96 : option Z) (tick : Z) : res PoolUpdate :=
  match sqrtPriceX96 with
  | None => Err (Errorf "uniswap V3 initialization price is required")
  | Some price => _ ← validateTickPrice tick price; Ok (InitializeUpdate (Some price) tick)
  end.

(** The payloads of the package.  The [updates] of a block are only filled by
    [NewBlockUpdate], with the four kinds of [PoolUpdate]. *)
Inductive UniswapEvent :=
| StateEvent (update : StateUpdate)
| PoolEvent (update : PoolUpdate)
| BlockUpdate (updates : list PoolUpdate).

Section block.
Context {E : Type} (as_event : E -> option UniswapEvent).

Definition block_step (result : list PoolUpdate) (update : E) : res (list PoolUpdate) :=
  match as_event update with
  | Some (PoolEvent u) => Ok (result ++ [u])
  | Some (BlockUpdate us) => Ok (result ++ us)
  | _ => Err (Errorf "unsupported Uniswap V3 block update %T")
  end.

Definition NewBlockUpdate (updates : list E) : res UniswapEvent :=
  if decide (updates = []) then Err (Errorf "uniswap V3 block update requires events") else
  result ← foldM block_step [] updates;
  Ok (BlockUpdate result).
End block.

(** ** Swap steps *)

Definition amount0Delta (a b liquidity : Z) (roundUp : bool) : Z :=
  let '(a, b) := if decide (b < a) then (b, a) else (a, b) in
  let numerator := Z.shiftl liquidity 96 in
  let delta := b - a in
  if roundUp then divRoundingUp (mulDivRoundingUp numerator delta b) a
  else Z.quot (mulDiv numerator delta b) a.

Definition amount1Delta (a b liquidity : Z) (roundUp : bool) : Z :=
  let '(a, b) := if decide (b < a) then (b, a) else (a, b) in
  let delta := b - a in
  if roundUp then mulDivRoundingUp liquidity delta q96 else mulDiv liquidity delta q96.

Definition nextSqrtPriceFromInput (current liquidity amount : Z) (zeroForOne : bool) : Z :=
  if decide (Z.sgn amount = 0) then current else
  if zeroForOne then
    let numerator := Z.shiftl liquidity 96 in
    mulDivRoundingUp numerator current (numerator + amount * current)
  else current + mulDiv amount q96 liquidity.

Record swapStep := mkSwapStep { st_sqrtPrice : Z; st_amountIn : Z; st_amountOut : Z; st_fee : Z }.

Definition computeSwapStep (current target liquidity remaining feePips : Z) : res swapStep :=
  if decide (Z.sgn current <= 0 \/ Z.sgn target <= 0 \/ Z.sgn liquidity <= 0 \/ Z.sgn remaining <= 0 \/
             feeDenominator <= feePips)
  then Err (Errorf "invalid Uniswap V3 swap step") else
  let zeroForOne := bool_decide (target <= current) in
  let feeComplement := feeDenominator - feePips in
  let lessFee := mulDiv remaining feeComplement feeDenominator in
  let required := if zeroForOne then amount0Delta target current liquidity true
                  else amount1Delta current target liquidity true in
  let reachesTarget := bool_decide (required <= lessFee) in
  let next := if reachesTarget then target else nextSqrtPriceFromInput current liquidity lessFee zeroForOne in
  let '(amountIn, amountOut) :=
    if zeroForOne then (amount0Delta next current liquidity true, amount1Delta next current liquidity false)
    else (amount1Delta current next liquidity true, amount0Delta current next liquidity false) in
  let fee := if reachesTarget then mulDivRoundingUp amountIn feePips feeComplement else remaining - amountIn in
  Ok (mkSwapStep next amountIn amountOut fee).

(** ** Traversal of the ticks *)

(** [sort.Search]: the invariant of the search is [i <= answer <= j]; each pass
    halves [j - i], and [n] passes are enough. *)
Fixpoint search_go (fuel : nat) (f : nat -> bool) (i j : nat) : nat :=
  match fuel with
  | O => i
  | S fuel =>
      if decide (i < j)%nat then
        let h := ((i + j) / 2)%nat in
        if f h then search_go fuel f i h else search_go fuel f (h + 1)%nat j
      else i
  end.
Definition sort_Search (n : nat) (f : nat -> bool) : nat := search_go n f 0 n.

Definition tick_at (ticks : list Tick) (i : nat) : Z := default 0 (tick_index <$> ticks !! i).

Definition nextInitializedTickWithinOneWord (ticks : list Tick) (current spacing : Z) (zeroForOne : bool) :
    Z * bool :=
  let compressed := floorDiv current spacing in
  if zeroForOne then
    let wordStart := floorDiv compressed 256 * 256 in
    let found := sort_Search (length ticks) (fun i => bool_decide (compressed * spacing < tick_at ticks i)) in
    match found with
    | S index =>
        if decide (wordStart * spacing <= tick_at ticks index) then (tick_at ticks index, true)
        else (wordStart * spacing, false)
    | O => (wordStart * spacing, false)
    end
  else
    let start := compressed + 1 in
    let wordStart := floorDiv start 256 * 256 in
    let wordEnd := wordStart + 255 in
    let index := sort_Search (length ticks) (fun i => bool_decide (start * spacing <= tick_at ticks i)) in
    if decide ((index < length ticks)%nat /\ tick_at ticks index <= wordEnd * spacing)
    then (tick_at ticks index, true) else (wordEnd * spacing, false).

Definition findTick (ticks : list Tick) (index : Z) : res Tick :=
  match ticks !! sort_Search (length ticks) (fun i => bool_decide (index <= tick_at ticks i)) with
  | Some tick => Ok tick
  | None => Panic "index out of range"
  end.

Definition traversalWord (current spacing : Z) (zeroForOne : bool) : Z :=
  let compressed := floorDiv current spacing in
  floorDiv (if zeroForOne then compressed else compressed + 1) 256.

(** ** The exact-input quote *)

Record swapResult := mkSwapResult { sr_amountOut : Z; sr_fee : Z; sr_ticksCrossed : Z }.

(** The local variables of the loop. *)
Record SwapState := mkSwapState {
  ss_remaining : Z; ss_output : Z; ss_fees : Z; ss_ticksCrossed : Z;
  ss_sqrtPrice : Z; ss_currentTick : Z; ss_liquidity : option Z }.

Section exact_input.
Context (state : Snapshot) (zeroForOne : bool).

Definition price_limit : Z := if zeroForOne then minSqrtRatio + 1 else maxSqrtRatio - 1.

(** The loop condition. *)
Definition swapping (s : SwapState) : Prop := 0 < Z.sgn (ss_remaining s) /\ ss_sqrtPrice s <> price_limit.
#[global] Instance swapping_dec s : Decision (swapping s) := ltac:(unfold swapping; apply _).

Definition clamp_tick (tick : Z) : Z :=
  let tick := if decide (tick < MinTick) then MinTick else tick in
  if decide (MaxTick < tick) then MaxTick else tick.

(** Crossing an initialized tick. *)
Definition cross_tick (nextTick liquidity : Z) : res Z :=
  tick ← findTick (us_ticks state) nextTick;
  net ← deref (tick_net tick);
  let liquidity := liquidity + (if zeroForOne then - net else net) in
  if decide (Z.sgn liquidity < 0 \/ maxUint128 < liquidity)
  then Err (Errorf "tick %d produces invalid active liquidity") else Ok liquidity.

(** What follows the step when it stops at the price of [nextTick]. *)
Definition land_on_tick (nextTick nextPrice : Z) (initialized : bool) (s : SwapState) (liquidity : Z) :
    res SwapState :=
  if decide (ss_sqrtPrice s = nextPrice) then
    liquidity' ← (if initialized then cross_tick nextTick liquidity else Ok liquidity);
    Ok (mkSwapState (ss_remaining s) (ss_output s) (ss_fees s)
          (if initialized then ss_ticksCrossed s + 1 else ss_ticksCrossed s) (ss_sqrtPrice s)
          (if zeroForOne then nextTick - 1 else nextTick) (Some liquidity'))
  else Ok s.

Definition swap_iteration (s : SwapState) : res SwapState :=
  liquidity ← deref (ss_liquidity s);
  if decide (Z.sgn liquidity <= 0) then Err (Errorf "no active Uniswap V3 liquidity") else
  if decide (~ Contains (us_coverage state) (traversalWord (ss_currentTick s) (us_tickSpacing state) zeroForOne))
  then Err (Wrapf "%w: word %d" ErrInsufficientTickCoverage) else
  let '(nextTick, initialized) :=
    nextInitializedTickWithinOneWord (us_ticks state) (ss_currentTick s) (us_tickSpacing state) zeroForOne in
  let nextTick := clamp_tick nextTick in
  nextPrice ← SqrtRatioAtTick nextTick;
  let target :=
    if decide ((zeroForOne = true /\ nextPrice < price_limit) \/ (zeroForOne = false /\ price_limit < nextPrice))
    then price_limit else nextPrice in
  step ← computeSwapStep (ss_sqrtPrice s) target liquidity (ss_remaining s) (us_feePips state);
  land_on_tick nextTick nextPrice initialized
    (mkSwapState (ss_remaining s - (st_amountIn step + st_fee step)) (ss_output s + st_amountOut step)
       (ss_fees s + st_fee step) (ss_ticksCrossed s) (st_sqrtPrice step) (ss_currentTick s) (Some liquidity))
    liquidity.

(** The loop: [steps] counts up to [maxSteps], which is the fuel. *)
Fixpoint swap_loop (fuel : nat) (s : SwapState) : res SwapState :=
  if decide (swapping s) then
    match fuel with
    | O => Err (Errorf "uniswap V3 quote exceeded tick traversal bound")
    | S fuel => s' ← swap_iteration s; swap_loop fuel s'
    end
  else Ok s.

Definition maxSteps : Z :=
  Z.quot (MaxTick - MinTick) (us_tickSpacing state * 256) + Z.of_nat (length (us_ticks state)) + 4.

Definition quoteExactInput (amountIn : option Z) : res swapResult :=
  match amountIn with
  | None => Err (Errorf "amount in must fit uint256 and be positive")
  | Some amountIn =>
      if decide (Z.sgn amountIn <= 0 \/ maxUint256 < amountIn)
      then Err (Errorf "amount in must fit uint256 and be positive") else
      if decide (us_tickSpacing state = 0) then Panic "integer divide by zero" else
      price ← deref (us_sqrtPriceX96 state);
      final ← swap_loop (Z.to_nat (maxSteps + 1))
        (mkSwapState amountIn 0 0 0 price (us_tick state) (us_liquidity state));
      if decide (Z.sgn (ss_remaining final) <> 0)
      then Err (Errorf "price limit reached before consuming exact input") else
      if decide (Z.sgn (ss_output final) <= 0) then Err ErrQuoteOutputRoundsToZero
      else Ok (mkSwapResult (ss_output final) (ss_fees final) (ss_ticksCrossed final))
  end.
End exact_input.

(** [uniswapv3.ValidateExactInputCoverage]. *)
Definition ValidateExactInputCoverage (update : StateUpdate) (zeroForOne : bool) (amountIn : option Z) : res unit :=
  match amountIn with
  | Some a =>
      if decide (Z.sgn a <= 0) then Err (Errorf "positive exact-input amount is required") else
      _ ← quoteExactInput (snapshot_of update) zeroForOne amountIn;
      Ok tt
  | None => Err (Errorf "positive exact-input amount is required")
  end.

(** ** Reducer *)

Definition updateBoundary (ticks : gmap Z Tick) (index : Z) (grossDelta netDelta : Z) : res (gmap Z Tick) :=
  '(gross, net) ← match ticks !! index with
                  | Some current => g ← deref (tick_gross current); n ← deref (tick_net current); Ok (g, n)
                  | None => Ok (0, 0)
                  end;
  let gross := if decide (0 < Z.sgn grossDelta) then gross + grossDelta else gross - Z.abs grossDelta in
  if decide (Z.sgn gross < 0) then Err (Errorf "liquidity burn exceeds tick %d gross liquidity") else
  let net := net + netDelta in
  if decide (Z.sgn gross = 0) then
    if decide (Z.sgn net <> 0) then Err (Errorf "cleared tick %d retains net liquidity")
    else Ok (delete index ticks)
  else
    updated ← NewTick index (Some gross) (Some net);
    Ok (<[index := updated]> ticks).

Definition boundaryCovered (state : Snapshot) (tick : Z) : Prop :=
  tc_full (us_coverage state) = true \/ Contains (us_coverage state) (tick_word (us_tickSpacing state) tick).
#[global] Instance boundaryCovered_dec state tick : Decision (boundaryCovered state tick) :=
  ltac:(unfold boundaryCovered; apply _).

(** The ticks as a map by index, later entries first. *)
Definition tick_map (ticks : list Tick) : gmap Z Tick :=
  foldl (fun m t => <[tick_index t := t]> m) ∅ ticks.

Definition with_ticks (s : Snapshot) (liquidity : option Z) (ticks : list Tick) : Snapshot :=
  mkSnapshot (us_schemaVersion s) (us_sqrtPriceX96 s) (us_tick s) liquidity (us_feePips s) (us_tickSpacing s)
    ticks (us_coverage s).

Definition with_price (s : Snapshot) (sqrtPriceX96 : option Z) (tick : Z) (liquidity : option Z) : Snapshot :=
  mkSnapshot (us_schemaVersion s) sqrtPriceX96 tick liquidity (us_feePips s) (us_tickSpacing s) (us_ticks s)
    (us_coverage s).

Definition with_fee (s : Snapshot) (feePips : Z) : Snapshot :=
  mkSnapshot (us_schemaVersion s) (us_sqrtPriceX96 s) (us_tick s) (us_liquidity s) feePips (us_tickSpacing s)
    (us_ticks s) (us_coverage s).

Section reducer.
Context {order : RangeOrder Z}.

Definition applyLiquidity (state : Snapshot) (lower upper : Z) (delta : option Z) : res Snapshot :=
  if decide (us_tickSpacing state = 0) then Panic "integer divide by zero" else
  if decide (Z.rem lower (us_tickSpacing state) <> 0 \/ Z.rem upper (us_tickSpacing state) <> 0)
  then Err (Errorf "liquidity range is not aligned to tick spacing") else
  let ticks := tick_map (us_ticks state) in
  ticks ← (if decide (boundaryCovered state lower)
           then delta ← deref delta; updateBoundary ticks lower delta delta else Ok ticks);
  ticks ← (if decide (boundaryCovered state upper)
           then delta ← deref delta; updateBoundary ticks upper delta (- delta) else Ok ticks);
  let ticks := normalizedTicks (range ticks).*2 in
  if decide (lower <= us_tick state /\ us_tick state < upper) then
    liquidity ← deref (us_liquidity state);
    delta ← deref delta;
    let liquidity := liquidity + delta in
    if decide (Z.sgn liquidity < 0 \/ maxUint128 < liquidity)
    then Err (Errorf "liquidity update produces invalid active liquidity")
    else Ok (with_ticks state (Some liquidity) ticks)
  else Ok (with_ticks state (us_liquidity state) ticks).

Definition canonical_tick (t : Tick) : string :=
  "|" +:+ pretty (tick_index t) +:+ ":" +:+ pretty_int (tick_gross t) +:+ ":" +:+ pretty_int (tick_net t).

(** The text [hashState] hashes. *)
Definition canonical (s : Snapshot) : string :=
  pretty (us_schemaVersion s) +:+ "|" +:+ pretty_int (us_sqrtPriceX96 s) +:+ "|" +:+ pretty (us_tick s) +:+ "|" +:+
  pretty_int (us_liquidity s) +:+ "|" +:+ pretty (us_feePips s) +:+ "|" +:+ pretty (us_tickSpacing s) +:+ "|" +:+
  (if tc_full (us_coverage s) then "true" else "false") +:+ "|" +:+ pretty (tc_minWord (us_coverage s)) +:+ "|" +:+
  pretty (tc_maxWord (us_coverage s)) +:+ foldr (fun t text => canonical_tick t +:+ text) "" (us_ticks s).

(** [as_snapshot] and [as_event] are the type assertions on the payload
    interfaces and [inject] the conversion of a [Snapshot] to its interface. *)
Context {D E : Type} (as_snapshot : D -> option Snapshot) (inject : Snapshot -> D).
Context (as_event : E -> option UniswapEvent) (sha256 : string -> Digest) (ctx_Err : option error).

Definition hashState (s : Snapshot) : Digest := sha256 (canonical s).

Definition requireSnapshot (previous : option D) : res Snapshot :=
  match previous ≫= as_snapshot with
  | Some state =>
      if decide (us_schemaVersion state <> snapshotSchemaVersion)
      then Err (Errorf "uniswap V3 update requires a compatible prior snapshot") else Ok state
  | None => Err (Errorf "uniswap V3 update requires a compatible prior snapshot")
  end.

Definition apply_update (current : Snapshot) (update : PoolUpdate) : res Snapshot :=
  match update with
  | SwapUpdate price tick liquidity => Ok (with_price current price tick liquidity)
  | FeeUpdate feePips => Ok (with_fee current feePips)
  | LiquidityUpdate lower upper delta => applyLiquidity current lower upper delta
  | InitializeUpdate price tick => Ok (with_price current price tick (Some 0))
  end.

(** The end of a reduction. *)
Definition accept (next : Snapshot) : res (option D * Digest) :=
  _ ← validate next;
  Ok (Some (inject next), hashState next).

Definition reduce_pool (previous : option D) (update : PoolUpdate) : res (option D * Digest) :=
  match ctx_Err with
  | Some e => Err e
  | None => current ← requireSnapshot previous; next ← apply_update current update; accept next
  end.

Definition zero_digest : Digest := "".

(** [Reducer.Reduce]; an empty block returns the previous data unread. *)
Definition Reduce (previous : option D) (event : E) : res (option D * Digest) :=
  match ctx_Err with
  | Some e => Err e
  | None =>
      match as_event event with
      | Some (StateEvent update) => accept (snapshot_of update)
      | Some (PoolEvent update) => reduce_pool previous update
      | Some (BlockUpdate updates) =>
          foldM (fun '(current, _) update => reduce_pool current update) (previous, zero_digest) updates
      | None => Err (Errorf "unsupported Uniswap V3 event payload %T")
      end
  end.
End reducer.

(** ** Quoter *)

Record Quoter := mkQuoter { qt_id : SourceID; qt_market : Market; qt_token0 : TokenID; qt_token1 : TokenID }.

Definition matchesEndpoints (candidate : Market) (token0 token1 : TokenID) : Prop :=
  (Market_BaseToken candidate = token0 /\ Market_QuoteToken candidate = token1) \/
  (Market_BaseToken candidate = token1 /\ Market_QuoteToken candidate = token0).
#[global] Instance matchesEndpoints_dec c t0 t1 : Decision (matchesEndpoints c t0 t1) :=
  ltac:(unfold matchesEndpoints; apply _).

Definition NewQuoter (id : SourceID) (candidate : Market) (token0 token1 : TokenID) : res Quoter :=
  if decide (id = "" \/ Market_ID candidate = "" \/ token0 = "" \/ token1 = "" \/ token0 = token1)
  then Err (Errorf "source, market, and distinct pool tokens are required") else
  if decide (~ matchesEndpoints candidate token0 token1)
  then Err (Errorf "uniswap V3 pool tokens do not match market endpoints")
  else Ok (mkQuoter id candidate token0 token1).

Section quoter.
Context {D : Type} (as_snapshot : D -> option Snapshot) (q : Quoter) (ctx_Err : option error).

Definition incompatible {A} : res A := Err (Errorf "incompatible Uniswap V3 snapshot %T").

Definition pool_state (snapshot : MarketSnapshot D) : res Snapshot :=
  match snap_data snapshot ≫= as_snapshot with
  | Some state => if decide (us_schemaVersion state <> snapshotSchemaVersion) then incompatible else Ok state
  | None => incompatible
  end.

Definition direction (tokenIn tokenOut : TokenID) : res bool :=
  if decide (tokenIn = qt_token0 q /\ tokenOut = qt_token1 q) then Ok true else
  if decide (tokenIn = qt_token1 q /\ tokenOut = qt_token0 q) then Ok false
  else Err (Errorf "unsupported token direction %q -> %q").

Definition Quote (input : QuoteInput D) : res Quote :=
  match ctx_Err with
  | Some e => Err e
  | None =>
      let metadata := snap_metadata (in_Snapshot input) in
      if decide (md_Market metadata <> Market_ID (qt_market q))
      then Err (Errorf "snapshot belongs to market %q, expected %q") else
      state ← pool_state (in_Snapshot input);
      if decide (amount_token (in_AmountIn input) <> in_TokenIn input \/ IsZero (in_AmountIn input))
      then Err (Errorf "positive input amount must match input token") else
      zeroForOne ← direction (in_TokenIn input) (in_TokenOut input);
      result ← quoteExactInput state zeroForOne (Some (Units (in_AmountIn input)));
      amountOut ← NewTokenAmount (in_TokenOut input) (Some (sr_amountOut result));
      pool_quote (qt_id q) (Market_ID (qt_market q)) metadata (in_Purpose input) QuoteModeExactInput
        (in_QuotedAt input) (in_TokenIn input) (in_AmountIn input) amountOut (sr_fee result)
  end.
End quoter.

(** ** Valid snapshots *)

Lemma floorDiv_div v d : 0 < d -> floorDiv v d = v / d.
Proof.
  intros Hd. unfold floorDiv. cbv zeta. pose proof (Z.quot_rem v d ltac:(lia)) as Hq.
  assert (0 <= v -> 0 <= Z.rem v d < d) as Hp by (intros; apply Z.rem_bound_pos; lia).
  assert (v <= 0 -> - d < Z.rem v d <= 0) as Hn.
  { intros. pose proof (Z.rem_opp_l v d). pose proof (Z.rem_bound_pos (- v) d). rewrite Z.rem_opp_l in * by lia. lia. }
  case_decide as Hc.
  - apply (Z.div_unique_pos v d _ (Z.rem v d + d)); lia.
  - destruct (Z.lt_ge_cases v 0).
    + apply (Z.div_unique_pos v d _ (Z.rem v d)); lia.
    + apply (Z.div_unique_pos v d _ (Z.rem v d)); lia.
Qed.

Definition tick_lt (t u : Tick) : Prop := tick_index t < tick_index u.

Record tick_ok (s : Snapshot) (t : Tick) : Prop := {
  tick_range : MinTick <= tick_index t <= MaxTick;
  tick_aligned : Z.rem (tick_index t) (us_tickSpacing s) = 0;
  tick_covered : Contains (us_coverage s) (tick_word (us_tickSpacing s) (tick_index t));
  tick_liquidity : exists gross net, tick_gross t = Some gross /\ tick_net t = Some net /\
    0 < gross <= maxUint128 /\ Z.abs net <= gross /\ minInt128 <= net <= maxInt128 }.

Record snapshot_ok (s : Snapshot) : Prop := {
  ok_schema : us_schemaVersion s = snapshotSchemaVersion;
  ok_price : exists price, us_sqrtPriceX96 s = Some price /\ minSqrtRatio < price < maxSqrtRatio /\
    validateTickPrice (us_tick s) price = Ok tt;
  ok_liquidity : exists liquidity, us_liquidity s = Some liquidity /\ 0 <= liquidity <= maxUint128;
  ok_tick : MinTick <= us_tick s < MaxTick;
  ok_spacing : 0 < us_tickSpacing s <= maxTickSpacing;
  ok_fee : us_feePips s < feeDenominator;
  ok_coverage : tc_full (us_coverage s) = true \/ tc_minWord (us_coverage s) <= tc_maxWord (us_coverage s);
  ok_sorted : StronglySorted tick_lt (us_ticks s);
  ok_ticks : Forall (tick_ok s) (us_ticks s) }.

Lemma NewTick_iff index gross net t :
  NewTick index gross net = Ok t <->
  exists g n, gross = Some g /\ net = Some n /\ t = mkTick index (Some g) (Some n) /\
    0 < g <= maxUint128 /\ Z.abs n <= g /\ minInt128 <= n <= maxInt128.
Proof.
  unfold NewTick. split.
  - destruct gross as [g|], net as [n|]; try done. intros H. res_inv. subst t. exists g, n.
    pose proof (Z.sgn_spec g). split_and!; try done; lia.
  - intros (g & n & -> & -> & -> & Hg & Hn & Hb). rewrite decide_False by (destruct (Z.sgn_spec g); lia).
    by rewrite !decide_False by lia.
Qed.

Lemma validate_tick_iff s previous t index :
  validate_tick s previous t = Ok index <-> index = tick_index t /\ previous < tick_index t /\ tick_ok s t.
Proof.
  unfold validate_tick. cbv zeta. split.
  - intros H. destruct (decide _) as [|H1] in H; [done|]. destruct (decide _) as [|H2] in H; [done|].
    apply bind_Ok in H as (t' & Ht & H). injection H as <-.
    apply NewTick_iff in Ht as (g & n & Hg & Hn & _ & Hb). apply dec_stable in H2.
    split_and!; [done|lia|]. split; [lia|lia|done|]. by exists g, n.
  - intros (-> & Hp & [Hr Ha Hc (g & n & Hg & Hn & Hb)]).
    rewrite decide_False by lia. rewrite decide_False by tauto.
    rewrite (proj2 (NewTick_iff _ _ _ (mkTick (tick_index t) (Some g) (Some n)))); [done|]. by exists g, n.
Qed.

Lemma validate_ticks_iff s previous ticks :
  (exists last, foldM (validate_tick s) previous ticks = Ok last) <->
  Forall (fun t => previous < tick_index t) ticks /\ StronglySorted tick_lt ticks /\ Forall (tick_ok s) ticks.
Proof.
  revert previous. induction ticks as [|t ticks IH]; intros previous; cbn [foldM].
  { split; [|by eexists]. intros _. split_and!; constructor. }
  split.
  - intros (last & H). apply bind_Ok in H as (index & Ht & H). apply validate_tick_iff in Ht as (-> & Hp & Hok).
    destruct (proj1 (IH (tick_index t))) as (Hall & Hs & Ho); [by eexists|]. split; [|split; by constructor].
    constructor; [done|]. eapply Forall_impl; [exact Hall|]. cbn. lia.
  - intros (Hall & Hs & Ho). apply Forall_cons in Hall as [Hp Hall]. apply Forall_cons in Ho as [Ht Ho].
    apply StronglySorted_inv in Hs as [Hs Hlt].
    rewrite (proj2 (validate_tick_iff s previous t (tick_index t))) by done. cbn [mbind res_bind]. by apply IH.
Qed.

(** Validation decides the well-formedness of a snapshot. *)
Lemma validate_iff s : validate s = Ok tt <-> snapshot_ok s.
Proof.
  unfold validate. split.
  - destruct (us_sqrtPriceX96 s) as [price|] eqn:Hprice; [|done]. destruct (us_liquidity s) as [l|] eqn:Hl; [|done].
    intros H. repeat (destruct (decide _) as [|?Hd] in H; [done|]). apply bind_Ok in H as ([] & Htp & H).
    destruct (decide _) as [|Hcov] in H; [done|]. apply bind_Ok in H as (last & Hticks & _).
    destruct (proj1 (validate_ticks_iff s (MinTick - 1) (us_ticks s))) as (_ & Hs & Ho); [by eexists|].
    pose proof (Z.sgn_spec l). apply dec_stable in Hd. split; [done| | |lia|lia|lia| |done|done].
    + exists price. split_and!; [done|lia|lia|done].
    + exists l. split; [done|lia].
    + destruct (tc_full (us_coverage s)); [by left|right]. lia.
  - intros [Hsch (price & -> & Hp & Htp) (l & -> & Hl) Ht Hsp Hf Hcov Hs Ho].
    pose proof (Z.sgn_spec l).
    rewrite decide_False by tauto. rewrite decide_False by lia. rewrite decide_False by lia.
    rewrite decide_False by lia. rewrite Htp. cbn [mbind res_bind].
    rewrite decide_False by (intros [Hff ?]; rewrite Hff in Hcov; destruct Hcov; [done|lia]).
    destruct (proj2 (validate_ticks_iff s (MinTick - 1) (us_ticks s))) as [last ->]; [|done].
    split; [|done]. eapply Forall_impl; [exact Ho|]. intros t [Hr _ _ _]. lia.
Qed.
