(* ===== verification/UniswapSwap.v ===== *)
(** * Uniswap V3 quotes are sound
    (src/adapters/market/uniswapv3/math.go)

    A swap step moves the price towards its target without passing it, spends at
    most what remains, rounds every amount against the trader and charges at
    least the pool fee; the quote is a path of such steps that spends exactly
    the input.  The traversal of a valid snapshot stays within its step bound
    and finds every tick it crosses. *)
From S2P Require Import Prelude Amount Quote Registry Pools UniswapV3.
Local Open Scope Z_scope.

(** ** Rounded amounts *)

Section deltas.
Context (a b liquidity : Z).
Hypothesis (Ha : 0 < a) (Hab : a <= b) (HL : 0 <= liquidity).

Lemma amount0_up_le k :
  amount0Delta a b liquidity true <= k <-> liquidity * q96 * (b - a) <= k * a * b.
Proof using Ha Hab HL.
  unfold amount0Delta. rewrite decide_False by lia. rewrite Z.shiftl_mul_pow2 by lia. fold q96.
  assert (0 <= liquidity * q96 * (b - a)) as Hn by (unfold q96; nia).
  rewrite divRoundingUp_le; [|apply divRoundingUp_nonneg; lia|done].
  unfold mulDivRoundingUp. rewrite divRoundingUp_le by lia. lia.
Qed.

Lemma amount0_down_le k :
  k <= amount0Delta a b liquidity false -> k * a * b <= liquidity * q96 * (b - a).
Proof using Ha Hab HL.
  unfold amount0Delta. rewrite decide_False by lia. rewrite Z.shiftl_mul_pow2 by lia. fold q96.
  assert (0 <= liquidity * q96) as Hn by (unfold q96; nia). intros Hk.
  pose proof (mulDiv_bounds (liquidity * q96) (b - a) b Hn ltac:(lia) ltac:(lia)) as Hm.
  pose proof (mulDiv_nonneg (liquidity * q96) (b - a) b Hn ltac:(lia) ltac:(lia)) as Hp.
  pose proof (Zquot_bounds _ a Hp Ha) as Hq. set (m := mulDiv _ _ _) in *.
  assert (k * a <= m) by nia. nia.
Qed.

Lemma amount1_up_le k :
  amount1Delta a b liquidity true <= k <-> liquidity * (b - a) <= k * q96.
Proof using Ha Hab HL.
  unfold amount1Delta. rewrite decide_False by lia. unfold mulDivRoundingUp. apply divRoundingUp_le; [nia|done].
Qed.

Lemma amount1_down_le k :
  k <= amount1Delta a b liquidity false -> k * q96 <= liquidity * (b - a).
Proof using Ha Hab HL.
  unfold amount1Delta. rewrite decide_False by lia. apply mulDiv_le; [lia..|done].
Qed.

Lemma amounts_nonneg up : 0 <= amount0Delta a b liquidity up /\ 0 <= amount1Delta a b liquidity up.
Proof using Ha Hab HL.
  assert (0 <= liquidity * q96) as Hn by (unfold q96; nia).
  unfold amount0Delta, amount1Delta. rewrite !decide_False by lia. rewrite Z.shiftl_mul_pow2 by lia. fold q96.
  destruct up; split.
  - apply divRoundingUp_nonneg; [apply divRoundingUp_nonneg; [nia|lia]|done].
  - apply divRoundingUp_nonneg; [nia|done].
  - apply Zquot_nonneg; [apply mulDiv_nonneg; lia|done].
  - apply mulDiv_nonneg; [lia..|done].
Qed.
End deltas.

(** ** The next price *)

(** The price an input that falls short of the target moves to: it does not pass
    the target, and the input covers the move. *)
Lemma next_price_down current target liquidity amount :
  0 < target <= current -> 0 < liquidity -> 0 <= amount < amount0Delta target current liquidity true ->
  let next := nextSqrtPriceFromInput current liquidity amount true in
  target <= next <= current /\ amount0Delta next current liquidity true <= amount.
Proof.
  intros Ht HL [Ha Hlt] next. assert (0 < liquidity * q96) as HN by (unfold q96; nia).
  assert (0 < next <= current /\ liquidity * q96 * (current - next) <= amount * next * current) as [Hn Hcov].
  { unfold next, nextSqrtPriceFromInput. case_decide as Hz; [apply Z.sgn_null_iff in Hz; nia|].
    rewrite Z.shiftl_mul_pow2 by lia. fold q96. set (N := liquidity * q96) in *.
    assert (0 < N + amount * current) as Hd by nia.
    pose proof (mulDivRoundingUp_bounds N current (N + amount * current) ltac:(lia) ltac:(lia) Hd) as Hb.
    set (n := mulDivRoundingUp _ _ _) in *. assert (0 < n) by nia. assert (n <= current) by nia. split; nia. }
  split; [|apply amount0_up_le; lia]. split; [|lia]. apply Z.nlt_ge. intros Hlow.
  apply (Z.lt_irrefl amount). eapply Z.lt_le_trans; [exact Hlt|]. apply amount0_up_le; [lia..|].
  assert (0 <= liquidity * q96 * (target - next)) by (apply Z.mul_nonneg_nonneg; lia).
  assert (0 <= amount * current * (target - next)) by (apply Z.mul_nonneg_nonneg; [apply Z.mul_nonneg_nonneg|]; lia). lia.
Qed.

Lemma next_price_up current target liquidity amount :
  0 < current < target -> 0 < liquidity -> 0 <= amount < amount1Delta current target liquidity true ->
  let next := nextSqrtPriceFromInput current liquidity amount false in
  current <= next <= target /\ amount1Delta current next liquidity true <= amount.
Proof.
  intros Ht HL [Ha Hlt] next.
  assert (current <= next /\ liquidity * (next - current) <= amount * q96) as [Hn Hcov].
  { unfold next, nextSqrtPriceFromInput. case_decide as Hz; [apply Z.sgn_null_iff in Hz; unfold q96; nia|].
    pose proof (mulDiv_bounds amount q96 liquidity Ha ltac:(done) HL).
    pose proof (mulDiv_nonneg amount q96 liquidity Ha ltac:(done) HL). set (m := mulDiv _ _ _) in *.
    split; [lia|]. replace (current + m - current) with m by lia. lia. }
  split; [|apply amount1_up_le; lia]. split; [done|]. apply Z.nlt_ge. intros Hhigh.
  apply (Z.lt_irrefl amount). eapply Z.lt_le_trans; [exact Hlt|]. apply amount1_up_le; [lia..|].
  assert (0 <= liquidity * (next - target)) by (apply Z.mul_nonneg_nonneg; lia). lia.
Qed.

(** ** One step *)

(** A step from [price] in liquidity [L] rounds against the trader: the curve
    asks for no more than the input charged and would pay no less than the output
    given, and the fee is at least its share of the gross input. *)
Record fair_step (feePips price L : Z) (step : swapStep) : Prop := {
  fair_nonneg : 0 <= st_amountIn step /\ 0 <= st_amountOut step /\ 0 <= st_fee step;
  fair_fee : (st_amountIn step + st_fee step) * feePips <= st_fee step * feeDenominator;
  fair_amounts :
    (st_sqrtPrice step <= price /\
     L * q96 * (price - st_sqrtPrice step) <= st_amountIn step * st_sqrtPrice step * price /\
     st_amountOut step * q96 <= L * (price - st_sqrtPrice step)) \/
    (price <= st_sqrtPrice step /\
     L * (st_sqrtPrice step - price) <= st_amountIn step * q96 /\
     st_amountOut step * price * st_sqrtPrice step <= L * q96 * (st_sqrtPrice step - price)) }.

Definition between (x y z : Z) : Prop := (x <= y /\ y <= z) \/ (z <= y /\ y <= x).

(** The fee of a step that reaches its target, and of one that does not. *)
Lemma step_fee_reached feePips remaining amountIn :
  0 <= feePips < feeDenominator -> 0 <= amountIn ->
  amountIn <= mulDiv remaining (feeDenominator - feePips) feeDenominator -> 0 < remaining ->
  let fee := mulDivRoundingUp amountIn feePips (feeDenominator - feePips) in
  0 <= fee /\ amountIn + fee <= remaining /\ (amountIn + fee) * feePips <= fee * feeDenominator.
Proof.
  intros Hf Ha Hle Hr fee. apply mulDiv_le in Hle; [|lia..|done].
  pose proof (mulDivRoundingUp_bounds amountIn feePips (feeDenominator - feePips) Ha ltac:(lia) ltac:(lia)) as Hb.
  fold fee in Hb. assert (fee <= remaining - amountIn) as Hfee.
  { unfold fee, mulDivRoundingUp. apply divRoundingUp_le; nia. }
  unfold feeDenominator in *. nia.
Qed.

Lemma step_fee_short feePips remaining amountIn :
  0 <= feePips < feeDenominator -> 0 <= amountIn ->
  amountIn <= mulDiv remaining (feeDenominator - feePips) feeDenominator -> 0 < remaining ->
  0 <= remaining - amountIn /\ remaining * feePips <= (remaining - amountIn) * feeDenominator.
Proof.
  intros Hf Ha Hle Hr. apply mulDiv_le in Hle; [|lia..|done]. unfold feeDenominator in *. nia.
Qed.

(** The end of a step, whichever way the price moved. *)
Lemma step_finish current target next liquidity remaining feePips amountIn amountOut (reached : bool) :
  0 <= feePips < feeDenominator -> 0 < remaining -> 0 <= amountIn -> 0 <= amountOut ->
  amountIn <= mulDiv remaining (feeDenominator - feePips) feeDenominator ->
  (reached = true -> next = target) -> between current next target ->
  let fee := if reached then mulDivRoundingUp amountIn feePips (feeDenominator - feePips) else remaining - amountIn in
  ((next <= current /\ liquidity * q96 * (current - next) <= amountIn * next * current /\
    amountOut * q96 <= liquidity * (current - next)) \/
   (current <= next /\ liquidity * (next - current) <= amountIn * q96 /\
    amountOut * current * next <= liquidity * q96 * (next - current))) ->
  between current next target /\ amountIn + fee <= remaining /\
  (next = target \/ amountIn + fee = remaining) /\
  fair_step feePips current liquidity (mkSwapStep next amountIn amountOut fee).
Proof.
  intros Hf Hr Hin Hout Hle Hreach Hb fee Hfair. split; [done|]. destruct reached.
  - destruct (step_fee_reached feePips remaining amountIn Hf Hin Hle Hr) as (H1 & H2 & H3).
    split; [done|]. split; [left; by apply Hreach|]. by split.
  - destruct (step_fee_short feePips remaining amountIn Hf Hin Hle Hr) as (H1 & H2). unfold fee.
    replace (amountIn + (remaining - amountIn)) with remaining by lia. split; [done|]. split; [by right|].
    split; cbn; [done| |done]. by replace (amountIn + (remaining - amountIn)) with remaining by lia.
Qed.

Lemma computeSwapStep_fair current target liquidity remaining feePips step :
  0 <= feePips ->
  computeSwapStep current target liquidity remaining feePips = Ok step ->
  between current (st_sqrtPrice step) target /\
  st_amountIn step + st_fee step <= remaining /\
  (st_sqrtPrice step = target \/ st_amountIn step + st_fee step = remaining) /\
  fair_step feePips current liquidity step.
Proof.
  intros Hf H. unfold computeSwapStep in H. destruct (decide _) as [|Hg] in H; [done|].
  assert (0 < current /\ 0 < target /\ 0 < liquidity /\ 0 < remaining /\ feePips < feeDenominator)
    as (Hc & Ht & HL & Hr & Hfp) by (rewrite <- !Z.sgn_pos_iff; lia).
  cbv zeta in H. set (lessFee := mulDiv remaining _ _) in H.
  assert (0 <= lessFee) as Hless by (apply mulDiv_nonneg; [lia..|done]).
  case_bool_decide as Hdir.
  - set (next := if bool_decide _ then _ else _) in H.
    assert (target <= next <= current /\ amount0Delta next current liquidity true <= lessFee /\
            (bool_decide (amount0Delta target current liquidity true <= lessFee) = true -> next = target))
      as (Hn & Hin & Hreach).
    { unfold next. case_bool_decide as Hb; [split_and!; [lia..|done|done]|].
      destruct (next_price_down current target liquidity lessFee) as [? ?]; [lia..|]. done. }
    assert (0 < next) as Hnp by lia. clearbody next. injection H as <-.
    destruct (amounts_nonneg next current liquidity Hnp ltac:(lia) ltac:(lia) true) as [Hin0 _].
    destruct (amounts_nonneg next current liquidity Hnp ltac:(lia) ltac:(lia) false) as [_ Hout0].
    apply (step_finish current target next liquidity remaining feePips); try done; [right; lia|].
    left. split; [lia|]. split; [apply amount0_up_le; lia|apply amount1_down_le; lia].
  - set (next := if bool_decide _ then _ else _) in H.
    assert (current <= next <= target /\ amount1Delta current next liquidity true <= lessFee /\
            (bool_decide (amount1Delta current target liquidity true <= lessFee) = true -> next = target))
      as (Hn & Hin & Hreach).
    { unfold next. case_bool_decide as Hb; [split_and!; [lia..|done|done]|].
      destruct (next_price_up current target liquidity lessFee) as [? ?]; [lia..|]. done. }
    clearbody next. injection H as <-.
    destruct (amounts_nonneg current next liquidity Hc ltac:(lia) ltac:(lia) true) as [_ Hin0].
    destruct (amounts_nonneg current next liquidity Hc ltac:(lia) ltac:(lia) false) as [Hout0 _].
    apply (step_finish current target next liquidity remaining feePips); try done; [left; lia|].
    right. split; [lia|]. split; [apply amount1_up_le; lia|apply amount0_down_le; lia].
Qed.

(** On positive prices, liquidity and input a swap step never fails.  It does
    not move the price past its target, spends at most the remaining input and all
    of it unless the target is reached, takes at least the pool fee of what it
    spends, and rounds both amounts against the trader. *)
Theorem computeSwapStep_sound current target liquidity remaining feePips :
  0 < current -> 0 < target -> 0 < liquidity -> 0 < remaining -> 0 <= feePips < feeDenominator ->
  exists step, computeSwapStep current target liquidity remaining feePips = Ok step /\
    between current (st_sqrtPrice step) target /\
    st_amountIn step + st_fee step <= remaining /\
    (st_sqrtPrice step = target \/ st_amountIn step + st_fee step = remaining) /\
    fair_step feePips current liquidity step.
Proof.
  intros Hc Ht HL Hr Hf. destruct (computeSwapStep current target liquidity remaining feePips) as [step|e|w] eqn:H.
  - exists step. split; [done|]. by apply computeSwapStep_fair with (1 := proj1 Hf).
  - exfalso. revert H. unfold computeSwapStep. rewrite decide_False by (rewrite !Z.sgn_nonpos; unfold feeDenominator in *; lia). cbv zeta. by case_bool_decide.
  - exfalso. revert H. unfold computeSwapStep. case_decide; [done|]. cbv zeta. by case_bool_decide.
Qed.

(** ** The quote as a path of steps *)

(** The steps with the liquidity each was taken in, from a starting price. *)
Fixpoint fair_path (feePips price : Z) (steps : list (Z * swapStep)) : Prop :=
  match steps with
  | [] => True
  | (L, step) :: steps => 0 < L /\ fair_step feePips price L step /\ fair_path feePips (st_sqrtPrice step) steps
  end.

Definition spent (steps : list (Z * swapStep)) : Z := Zsum ((fun p => st_amountIn p.2) <$> steps).
Definition paid (steps : list (Z * swapStep)) : Z := Zsum ((fun p => st_amountOut p.2) <$> steps).
Definition charged (steps : list (Z * swapStep)) : Z := Zsum ((fun p => st_fee p.2) <$> steps).

Lemma fair_path_totals feePips price steps :
  fair_path feePips price steps ->
  0 <= spent steps /\ 0 <= paid steps /\ 0 <= charged steps /\
  (spent steps + charged steps) * feePips <= charged steps * feeDenominator.
Proof.
  unfold spent, paid, charged. revert price. induction steps as [|[L step] steps IH]; intros price H.
  { rewrite !fmap_nil, !Zsum_nil. lia. }
  destruct H as (_ & [Hn Hf _] & H). apply IH in H. rewrite !fmap_cons, !Zsum_cons. cbn [snd]. lia.
Qed.

Section path.
Context (state : Snapshot) (zeroForOne : bool).
Hypothesis Hfee : 0 <= us_feePips state.

Lemma land_on_tick_inv nextTick nextPrice initialized s liquidity s' :
  land_on_tick state zeroForOne nextTick nextPrice initialized s liquidity = Ok s' ->
  ss_remaining s' = ss_remaining s /\ ss_output s' = ss_output s /\ ss_fees s' = ss_fees s /\
  ss_sqrtPrice s' = ss_sqrtPrice s /\
  ((ss_sqrtPrice s = nextPrice /\ ss_currentTick s' = (if zeroForOne then nextTick - 1 else nextTick)) \/
   (ss_sqrtPrice s <> nextPrice /\ s' = s)).
Proof using.
  unfold land_on_tick. destruct (decide _) as [Hp|Hp].
  - intros H. apply bind_Ok in H as (l & _ & H). injection H as <-. split_and!; try done. by left.
  - intros [= <-]. split_and!; try done. by right.
Qed.

(** One pass of the loop takes one step. *)
Lemma swap_iteration_step s s' :
  swap_iteration state zeroForOne s = Ok s' ->
  exists L step, 0 < L /\ fair_step (us_feePips state) (ss_sqrtPrice s) L step /\
    ss_remaining s' = ss_remaining s - (st_amountIn step + st_fee step) /\ 0 <= ss_remaining s' /\
    ss_output s' = ss_output s + st_amountOut step /\ ss_fees s' = ss_fees s + st_fee step /\
    ss_sqrtPrice s' = st_sqrtPrice step.
Proof using Hfee.
  intros H. unfold swap_iteration in H. apply bind_Ok in H as (L & _ & H).
  destruct (decide _) as [|HL] in H; [done|]. destruct (decide _) as [|_] in H; [done|].
  destruct (nextInitializedTickWithinOneWord _ _ _ _) as [nextTick initialized].
  apply bind_Ok in H as (nextPrice & _ & H). apply bind_Ok in H as (step & Hstep & H).
  apply computeSwapStep_fair in Hstep as (_ & Hle & _ & Hfair); [|done].
  apply land_on_tick_inv in H as (H1 & H2 & H3 & H4 & _). cbn in H1, H2, H3, H4.
  exists L, step. split_and!; try done; try lia.
Qed.

Lemma swap_loop_path fuel s s' :
  swap_loop state zeroForOne fuel s = Ok s' -> 0 <= ss_remaining s ->
  exists steps, fair_path (us_feePips state) (ss_sqrtPrice s) steps /\
    ss_remaining s' = ss_remaining s - (spent steps + charged steps) /\ 0 <= ss_remaining s' /\
    ss_output s' = ss_output s + paid steps /\ ss_fees s' = ss_fees s + charged steps.
Proof using Hfee.
  revert s. induction fuel as [|fuel IH]; intros s H Hr; cbn [swap_loop] in H; destruct (decide _) in H; try done.
  2: apply bind_Ok in H as (s1 & Hstep & H).
  1, 3: injection H as <-; exists []; unfold spent, paid, charged; rewrite !fmap_nil, !Zsum_nil; split_and!; [done|lia..].
  apply swap_iteration_step in Hstep as (L & step & HL & Hfair & Hrem & Hpos & Hout & Hfees & Hprice).
  apply IH in H as (steps & Hpath & H1 & H2 & H3 & H4); [|done]. rewrite Hprice in Hpath.
  exists ((L, step) :: steps). unfold spent, paid, charged in *. rewrite !fmap_cons, !Zsum_cons. cbn [snd].
  split_and!; [done..|lia|done|lia|lia].
Qed.

(** C24. A quote is a path of fair steps from the snapshot's price that spends
    exactly the input: what it pays out and the fee it reports are the totals of
    the steps, and the fee is at least the pool's share of the whole input. *)
Theorem quoteExactInput_sound amountIn price result :
  us_sqrtPriceX96 state = Some price ->
  quoteExactInput state zeroForOne (Some amountIn) = Ok result ->
  0 < sr_amountOut result /\ 0 <= sr_fee result <= amountIn /\
  amountIn * us_feePips state <= sr_fee result * feeDenominator /\
  exists steps, fair_path (us_feePips state) price steps /\ spent steps + charged steps = amountIn /\
    paid steps = sr_amountOut result /\ charged steps = sr_fee result.
Proof using Hfee.
  intros Hprice H. unfold quoteExactInput in H. rewrite Hprice in H. destruct (decide _) as [|Hpos] in H; [done|].
  destruct (decide (us_tickSpacing _ = 0)) in H; [done|]. cbn [deref mbind res_bind] in H. apply bind_Ok in H as (final & Hloop & H).
  destruct (decide (Z.sgn _ <> 0)) as [|Hrem] in H; [done|].
  destruct (decide (Z.sgn _ <= 0)) as [|Hout] in H; [done|]. injection H as <-.
  apply dec_stable, Z.sgn_null_iff in Hrem. apply swap_loop_path in Hloop; [|cbn; destruct (Z.sgn_spec amountIn); lia].
  destruct Hloop as (steps & Hpath & H1 & H2 & H3 & H4). cbn in *.
  destruct (fair_path_totals _ _ _ Hpath) as (Ht1 & Ht2 & Ht3 & Ht4).
  split; [destruct (Z.sgn_spec (ss_output final)); lia|]. split; [lia|]. split; [rewrite H4; cbn; nia|].
  exists steps. split_and!; [done|lia..].
Qed.
End path.
