(* ===== verification/UniswapTraversal.v ===== *)
(** * The tick traversal of a Uniswap V3 quote
    (src/adapters/market/uniswapv3/math.go)

    [sort.Search] on the sorted ticks of a valid snapshot, the next tick within a
    bitmap word, and the count of words and ticks that a quote can still visit,
    which each pass lowers: a quote on a valid snapshot never panics and never
    exhausts its step bound. *)
From S2P Require Import Prelude Amount Quote Registry Pools UniswapV3 UniswapSwap.
Local Open Scope Z_scope.

(** ** Binary search *)

Section search.
Context (n : nat) (f : nat -> bool).
Hypothesis Hmono : forall i j, (i <= j < n)%nat -> f i = true -> f j = true.

Definition boundary (r : nat) : Prop :=
  (r <= n)%nat /\ (forall i, (i < r)%nat -> f i = false) /\ ((r < n)%nat -> f r = true).

Lemma search_go_spec fuel i j :
  (i <= j <= n)%nat -> (j - i <= fuel)%nat ->
  (forall k, (k < i)%nat -> f k = false) -> ((j < n)%nat -> f j = true) -> boundary (search_go fuel f i j).
Proof using Hmono.
  revert i j. induction fuel as [|fuel IH]; intros i j Hij Hfuel Hlow Hhigh; cbn [search_go].
  { assert (i = j) as -> by lia. split; [lia|done]. }
  destruct (decide (i < j)%nat) as [Hlt|Hge]; cbv zeta.
  2: { assert (i = j) as -> by lia. split; [lia|done]. }
  pose proof (Nat.div_mod (i + j) 2 ltac:(lia)) as Hd. pose proof (Nat.mod_upper_bound (i + j) 2 ltac:(lia)) as Hm.
  set (h := ((i + j) / 2)%nat) in *. destruct (f h) eqn:Hh.
  - apply IH; [lia|lia|done|done].
  - apply IH; [lia|lia| |done]. intros k Hk. destruct (f k) eqn:Hfk; [|done].
    rewrite <- Hh, <- (Hmono k h); [done|lia|done].
Qed.

(** The search returns the first index at which the predicate holds. *)
Lemma sort_Search_spec : boundary (sort_Search n f).
Proof using Hmono. apply search_go_spec; lia || (intros; lia). Qed.
End search.

(** ** Sorted ticks *)

Section ticks.
Context (ticks : list Tick).
Hypothesis Hsorted : StronglySorted tick_lt ticks.

Lemma tick_at_lookup i t : ticks !! i = Some t -> tick_at ticks i = tick_index t.
Proof using. intros H. unfold tick_at. by rewrite H. Qed.

Lemma tick_at_lt i j : (i < j < length ticks)%nat -> tick_at ticks i < tick_at ticks j.
Proof using Hsorted.
  intros Hij. destruct (lookup_lt_is_Some_2 ticks i) as [t Ht]; [lia|]. destruct (lookup_lt_is_Some_2 ticks j) as [u Hu]; [lia|].
  rewrite (tick_at_lookup i t Ht), (tick_at_lookup j u Hu). clear -Hsorted Ht Hu Hij. destruct Hij as [Hij _].
  revert i j Ht Hu Hij. induction Hsorted as [|v l Hl IH Hall]; intros [|i] [|j] Ht Hu Hij; try done; try lia; cbn in Ht, Hu.
  - injection Ht as <-. rewrite Forall_forall in Hall. apply Hall. by eapply list_elem_of_lookup_2.
  - apply (IH Hl i j); [done|done|lia].
Qed.

Lemma tick_at_le i j : (i <= j < length ticks)%nat -> tick_at ticks i <= tick_at ticks j.
Proof using Hsorted.
  intros Hij. destruct (decide (i = j)) as [->|]; [lia|]. pose proof (tick_at_lt i j ltac:(lia)). lia.
Qed.

Lemma search_ticks (p : Z -> bool) :
  (forall x y, x <= y -> p x = true -> p y = true) ->
  boundary (length ticks) (fun i => p (tick_at ticks i)) (sort_Search (length ticks) (fun i => p (tick_at ticks i))).
Proof using Hsorted.
  intros Hp. apply sort_Search_spec. intros i j Hij. apply Hp. by apply tick_at_le.
Qed.

Lemma findTick_elem t : t ∈ ticks -> findTick ticks (tick_index t) = Ok t.
Proof using Hsorted.
  intros Hin. apply list_elem_of_lookup in Hin as [k Hk]. unfold findTick.
  destruct (search_ticks (fun x => bool_decide (tick_index t <= x))) as (Hle & Hlow & Hhigh).
  { intros x y Hxy. rewrite !bool_decide_eq_true. lia. }
  set (r := sort_Search _ _) in *. pose proof (tick_at_lookup k t Hk) as Hat. apply lookup_lt_Some in Hk as Hkl.
  assert (r = k) as ->; [|by rewrite Hk].
  destruct (lt_eq_lt_dec r k) as [[Hrk|]|Hkr]; [|done|].
  - specialize (Hhigh ltac:(lia)). apply bool_decide_eq_true in Hhigh. pose proof (tick_at_lt r k ltac:(lia)). lia.
  - specialize (Hlow k Hkr). apply bool_decide_eq_false in Hlow. lia.
Qed.

Lemma tick_at_elem i : (i < length ticks)%nat -> exists t, t ∈ ticks /\ tick_index t = tick_at ticks i.
Proof using.
  intros Hi. destruct (lookup_lt_is_Some_2 ticks i Hi) as [t Ht]. exists t.
  split; [by eapply list_elem_of_lookup_2|]. by rewrite (tick_at_lookup i t Ht).
Qed.

(** What the next tick is: an initialized tick, or the end of the bitmap word of
    the current tick, in the direction of the swap. *)
Lemma next_tick_spec current spacing (zeroForOne : bool) next initialized :
  0 < spacing ->
  nextInitializedTickWithinOneWord ticks current spacing zeroForOne = (next, initialized) ->
  (if zeroForOne then next <= current else current < next) /\
  if initialized then exists t, t ∈ ticks /\ tick_index t = next
  else if zeroForOne then next = current / spacing / 256 * 256 * spacing
  else next = ((current / spacing + 1) / 256 * 256 + 255) * spacing.
Proof using Hsorted.
  intros Hsp H. unfold nextInitializedTickWithinOneWord in H. rewrite !floorDiv_div in H by lia.
  cbv zeta in H. pose proof (Z.mul_div_le current spacing Hsp) as Hc1. pose proof (Z.mul_succ_div_gt current spacing Hsp) as Hc2.
  set (c := current / spacing) in *. destruct zeroForOne.
  - pose proof (Z.mul_div_le c 256 ltac:(lia)) as Hw. set (w := c / 256) in *.
    assert (w * 256 * spacing <= current) as Hws by nia.
    destruct (search_ticks (fun x => bool_decide (c * spacing < x))) as (Hle & Hlow & _).
    { intros x y Hxy. rewrite !bool_decide_eq_true. lia. }
    destruct (sort_Search _ _) as [|index]; [by injection H as <- <-|].
    specialize (Hlow index ltac:(lia)). apply bool_decide_eq_false in Hlow.
    destruct (decide _) in H; injection H as <- <-; [|done]. split; [lia|]. apply tick_at_elem. lia.
  - pose proof (Z.mul_succ_div_gt (c + 1) 256 ltac:(lia)) as Hw. set (w := (c + 1) / 256) in *.
    assert (current < (w * 256 + 255) * spacing) as Hws by nia.
    destruct (search_ticks (fun x => bool_decide ((c + 1) * spacing <= x))) as (Hle & _ & Hhigh).
    { intros x y Hxy. rewrite !bool_decide_eq_true. lia. }
    destruct (decide _) as [[Hlen Hend]|] in H; injection H as <- <-; [|done].
    specialize (Hhigh Hlen). apply bool_decide_eq_true in Hhigh. split; [nia|]. by apply tick_at_elem.
Qed.

(** No initialized tick is passed over on the way. *)
Lemma next_tick_gap current spacing (zeroForOne : bool) next initialized t :
  0 < spacing -> Z.rem (tick_index t) spacing = 0 -> t ∈ ticks ->
  nextInitializedTickWithinOneWord ticks current spacing zeroForOne = (next, initialized) ->
  (if zeroForOne then tick_index t <= current -> tick_index t <= next else current < tick_index t -> next <= tick_index t) /\
  (initialized = false -> tick_index t <> next).
Proof using Hsorted.
  intros Hsp Hal Ht H. pose proof (next_tick_spec current spacing zeroForOne next initialized Hsp H) as [Hdir _].
  unfold nextInitializedTickWithinOneWord in H. rewrite !floorDiv_div in H by lia. cbv zeta in H.
  apply Z.rem_divide in Hal as [m Hm]; [|lia]. apply list_elem_of_lookup in Ht as [k Hk].
  pose proof (tick_at_lookup k t Hk) as Hat. apply lookup_lt_Some in Hk.
  pose proof (Z.mul_div_le current spacing Hsp) as Hc1. pose proof (Z.mul_succ_div_gt current spacing Hsp) as Hc2.
  set (c := current / spacing) in *. destruct zeroForOne.
  - enough (tick_index t <= current -> tick_index t <= next /\ (initialized = false -> tick_index t <> next)) as Hall.
    { split; [intros; by apply Hall|]. intros Hi Heq. exact (proj2 (Hall ltac:(lia)) Hi Heq). }
    intros Hle. assert (m <= c) as Hmc by (apply Z.div_le_lower_bound; lia).
    assert (tick_index t <= c * spacing) as Hcs by (rewrite Hm; apply Z.mul_le_mono_nonneg_r; lia).
    destruct (search_ticks (fun x => bool_decide (c * spacing < x))) as (_ & _ & Hhigh).
    { intros x y Hxy. rewrite !bool_decide_eq_true. lia. }
    set (r := sort_Search _ _) in *. assert (k < r)%nat as Hkr.
    { apply Nat.nle_gt. intros Hrk. specialize (Hhigh ltac:(lia)). apply bool_decide_eq_true in Hhigh.
      pose proof (tick_at_le r k ltac:(lia)). lia. }
    destruct (search_ticks (fun x => bool_decide (c * spacing < x))) as (Hrn & _ & _).
    { intros x y Hxy. rewrite !bool_decide_eq_true. lia. }
    fold r in Hrn. destruct r as [|index]; [lia|]. pose proof (tick_at_le k index ltac:(lia)).
    destruct (decide _) in H; injection H as <- <-; [|split; [lia|intros _; lia]]. split; [lia|done].
  - enough (current < tick_index t -> next <= tick_index t /\ (initialized = false -> tick_index t <> next)) as Hall.
    { split; [intros; by apply Hall|]. intros Hi Heq. exact (proj2 (Hall ltac:(lia)) Hi Heq). }
    intros Hgt. assert (c < m) as Hmc by (apply Z.div_lt_upper_bound; lia).
    assert ((c + 1) * spacing <= tick_index t) as Hcs by (rewrite Hm; apply Z.mul_le_mono_nonneg_r; lia).
    destruct (search_ticks (fun x => bool_decide ((c + 1) * spacing <= x))) as (Hrn & Hlow & _).
    { intros x y Hxy. rewrite !bool_decide_eq_true. lia. }
    set (r := sort_Search _ _) in *. assert (r <= k)%nat as Hkr.
    { apply Nat.nlt_ge. intros Hrk. specialize (Hlow k Hrk). apply bool_decide_eq_false in Hlow. lia. }
    pose proof (tick_at_le r k ltac:(lia)).
    destruct (decide _) as [[_ ?]|Hno] in H; injection H as <- <-; [split; [lia|done]|]. split; [|intros _]; lia.
Qed.

(** ** What is left to visit *)

Definition ticks_below (x : Z) : Z := Z.of_nat (length (filter (fun t => tick_index t <= x) ticks)).
Definition ticks_above (x : Z) : Z := Z.of_nat (length (filter (fun t => x < tick_index t) ticks)).

Lemma ticks_below_mono x y : x <= y -> ticks_below x <= ticks_below y.
Proof using.
  intros Hxy. unfold ticks_below. apply inj_le. clear Hsorted. induction ticks as [|t l IH]; [done|].
  rewrite !filter_cons. repeat case_decide; cbn; lia.
Qed.

Lemma ticks_above_mono x y : x <= y -> ticks_above y <= ticks_above x.
Proof using.
  intros Hxy. unfold ticks_above. apply inj_le. clear Hsorted. induction ticks as [|t l IH]; [done|].
  rewrite !filter_cons. repeat case_decide; cbn; lia.
Qed.

Lemma ticks_below_pass t x : t ∈ ticks -> tick_index t <= x -> ticks_below (tick_index t - 1) < ticks_below x.
Proof using.
  intros Hin Hx. pose proof (ticks_below_mono (tick_index t) x Hx) as Hm.
  enough (ticks_below (tick_index t - 1) < ticks_below (tick_index t)) by lia. clear Hm Hx Hsorted.
  unfold ticks_below. apply inj_lt. revert Hin. induction ticks as [|u l IH]; [by intros ?%elem_of_nil|].
  intros Hin. rewrite !filter_cons. apply elem_of_cons in Hin as [->|Hin].
  - rewrite (decide_False (P := tick_index u <= tick_index u - 1)), (decide_True (P := tick_index u <= tick_index u)) by lia. cbn.
    clear IH. apply Nat.lt_succ_r. induction l as [|v l IH]; [done|]. rewrite !filter_cons. repeat case_decide; cbn; lia.
  - specialize (IH Hin). repeat case_decide; cbn; lia.
Qed.

Lemma ticks_above_pass t x : t ∈ ticks -> x < tick_index t -> ticks_above (tick_index t) < ticks_above x.
Proof using.
  intros Hin Hx. pose proof (ticks_above_mono x (tick_index t - 1) ltac:(lia)) as Hm.
  enough (ticks_above (tick_index t) < ticks_above (tick_index t - 1)) by lia. clear Hm Hx Hsorted.
  unfold ticks_above. apply inj_lt. revert Hin. induction ticks as [|u l IH]; [by intros ?%elem_of_nil|].
  intros Hin. rewrite !filter_cons. apply elem_of_cons in Hin as [->|Hin].
  - rewrite (decide_False (P := tick_index u < tick_index u)), (decide_True (P := tick_index u - 1 < tick_index u)) by lia. cbn.
    clear IH. apply Nat.lt_succ_r. induction l as [|v l IH]; [done|]. rewrite !filter_cons. repeat case_decide; cbn; lia.
  - specialize (IH Hin). repeat case_decide; cbn; lia.
Qed.

Lemma ticks_counts x : 0 <= ticks_below x <= Z.of_nat (length ticks) /\ 0 <= ticks_above x <= Z.of_nat (length ticks).
Proof using.
  unfold ticks_below, ticks_above. split; (split; [lia|]); apply inj_le, length_filter.
Qed.
End ticks.

(** ** The bound *)

Definition bound_error : error := Errorf "uniswap V3 quote exceeded tick traversal bound".

(** A call that neither panics nor reports the exhausted bound. *)
Definition tame {A} (m : res A) : Prop :=
  match m with Ok _ => True | Err e => e <> bound_error | Panic _ => False end.

Lemma tame_bind {A B} (m : res A) (f : A -> res B) :
  tame m -> (forall a, m = Ok a -> tame (f a)) -> tame (m ≫= f).
Proof. destruct m as [a|e|w]; cbn; intros Hm Hf; [by apply Hf|done..]. Qed.

Section bound.
Context (state : Snapshot) (zeroForOne : bool).
Hypothesis Hok : snapshot_ok state.

Abbreviation spacing := (us_tickSpacing state).
Abbreviation ticks := (us_ticks state).

Lemma spacing_pos : 0 < spacing.
Proof using Hok. apply Hok. Qed.

(** The words and ticks still ahead of the current tick. *)
Definition steps_left (current : Z) : Z :=
  if zeroForOne then current / spacing / 256 - MinTick / spacing / 256 + ticks_below ticks current
  else MaxTick / spacing / 256 + 1 - (current / spacing + 1) / 256 + ticks_above ticks current.

Lemma steps_left_nonneg current : MinTick <= current <= MaxTick -> 0 <= steps_left current.
Proof using Hok.
  intros Hc. pose proof spacing_pos as Hsp. unfold steps_left. destruct (ticks_counts ticks current) as [Hb Ha].
  destruct zeroForOne.
  - assert (MinTick / spacing / 256 <= current / spacing / 256); [|lia].
    apply Z.div_le_mono; [lia|]. apply Z.div_le_mono; lia.
  - assert ((current / spacing + 1) / 256 <= MaxTick / spacing / 256 + 1); [|lia].
    replace (MaxTick / spacing / 256 + 1) with ((MaxTick / spacing + 1 * 256) / 256) by (rewrite Z.div_add; lia).
    apply Z.div_le_mono; [lia|]. assert (current / spacing <= MaxTick / spacing) by (apply Z.div_le_mono; lia). lia.
Qed.

Lemma steps_left_start current : MinTick <= current <= MaxTick -> steps_left current <= maxSteps state - 2.
Proof using Hok.
  intros Hc. pose proof spacing_pos as Hsp. unfold steps_left, maxSteps. destruct (ticks_counts ticks current) as [Hb Ha].
  rewrite Z.quot_div_nonneg by (unfold MinTick, MaxTick; lia).
  assert (forall a b, a <= b -> b / spacing / 256 - a / spacing / 256 <= (b - a) / (spacing * 256) + 1) as Hdiff.
  { intros a b Hab. rewrite !Z.div_div by lia. set (d := spacing * 256).
    pose proof (Z.mul_div_le b d ltac:(lia)). pose proof (Z.mul_succ_div_gt a d ltac:(lia)).
    pose proof (Z.mul_succ_div_gt (b - a) d ltac:(lia)). nia. }
  assert (forall a b, a <= b -> a / spacing / 256 <= b / spacing / 256) as Hmono.
  { intros a b Hab. apply Z.div_le_mono; [lia|]. by apply Z.div_le_mono; [lia|]. }
  destruct zeroForOne.
  - pose proof (Hdiff MinTick MaxTick ltac:(done)). pose proof (Hmono current MaxTick ltac:(lia)). lia.
  - pose proof (Hdiff MinTick MaxTick ltac:(done)). pose proof (Hmono MinTick current ltac:(lia)).
    assert (current / spacing / 256 <= (current / spacing + 1) / 256) by (apply Z.div_le_mono; lia). lia.
Qed.

Lemma tick_in_range t : t ∈ ticks -> MinTick <= tick_index t <= MaxTick.
Proof using Hok. intros Ht. destruct Hok as [_ _ _ _ _ _ _ _ Hall]. rewrite Forall_forall in Hall. by apply Hall. Qed.

Lemma clamp_tick_cases next :
  clamp_tick next = next \/ (next < MinTick /\ clamp_tick next = MinTick) \/ (MaxTick < next /\ clamp_tick next = MaxTick).
Proof using.
  unfold clamp_tick. cbv zeta. destruct (decide (next < MinTick)); [|case_decide; auto].
  rewrite decide_False by done. auto.
Qed.

(** Landing on the next tick lowers what is left. *)
Lemma steps_left_falls current next initialized :
  MinTick <= current <= MaxTick ->
  nextInitializedTickWithinOneWord ticks current spacing zeroForOne = (next, initialized) ->
  (if zeroForOne then MinTick < clamp_tick next else clamp_tick next < MaxTick) ->
  let current' := if zeroForOne then clamp_tick next - 1 else clamp_tick next in
  MinTick <= current' <= MaxTick /\ steps_left current' < steps_left current.
Proof using Hok.
  intros Hc Hnext Hin. pose proof spacing_pos as Hsp. destruct Hok as [_ _ _ _ _ _ _ Hsorted _].
  destruct (next_tick_spec ticks Hsorted _ _ _ _ _ Hsp Hnext) as [Hdir Hwhat].
  assert (clamp_tick next = next) as Hcl.
  { destruct (clamp_tick_cases next) as [?|[[? Hcl]|[? Hcl]]]; [done|rewrite Hcl in Hin..]; destruct zeroForOne; lia. }
  rewrite Hcl in *. unfold steps_left. destruct zeroForOne; cbv zeta.
  - split; [lia|]. assert ((next - 1) / spacing / 256 <= current / spacing / 256) as Hw.
    { apply Z.div_le_mono; [lia|]. apply Z.div_le_mono; lia. }
    destruct initialized.
    + destruct Hwhat as (t & Ht & <-). pose proof (ticks_below_pass ticks t current Ht ltac:(lia)). lia.
    + pose proof (ticks_below_mono ticks (next - 1) current ltac:(lia)).
      assert ((next - 1) / spacing / 256 < current / spacing / 256); [|lia].
      apply Z.div_lt_upper_bound; [lia|]. apply Z.div_lt_upper_bound; lia.
  - split; [lia|]. assert ((current / spacing + 1) / 256 <= (next / spacing + 1) / 256) as Hw.
    { apply Z.div_le_mono; [lia|]. assert (current / spacing <= next / spacing) by (apply Z.div_le_mono; lia). lia. }
    destruct initialized.
    + destruct Hwhat as (t & Ht & <-). pose proof (ticks_above_pass ticks t current Ht ltac:(lia)). lia.
    + pose proof (ticks_above_mono ticks current next ltac:(lia)).
      assert ((current / spacing + 1) / 256 < (next / spacing + 1) / 256); [|lia].
      rewrite Hwhat, Z.div_mul by lia. set (w := (current / spacing + 1) / 256).
      replace (w * 256 + 255 + 1) with ((w + 1) * 256) by lia. rewrite Z.div_mul by lia. lia.
Qed.

(** ** One pass *)

Lemma clamp_tick_range next : MinTick <= clamp_tick next <= MaxTick.
Proof using. unfold clamp_tick, MinTick, MaxTick. cbv zeta. repeat case_decide; lia. Qed.

Lemma SqrtRatioAtTick_tame tick : tame (SqrtRatioAtTick tick).
Proof using. unfold SqrtRatioAtTick. case_decide; [done|]. cbv zeta. done. Qed.

Lemma computeSwapStep_tame current target liquidity remaining feePips :
  tame (computeSwapStep current target liquidity remaining feePips).
Proof using. unfold computeSwapStep. case_decide; [done|]. cbv zeta. by case_bool_decide. Qed.

Lemma cross_tick_tame t liquidity : t ∈ ticks -> tame (cross_tick state zeroForOne (tick_index t) liquidity).
Proof using Hok.
  intros Ht. destruct Hok as [_ _ _ _ _ _ _ Hsorted Hall]. unfold cross_tick. rewrite findTick_elem by done.
  rewrite Forall_forall in Hall. destruct (Hall t Ht) as [_ _ _ (g & n & _ & Hn & _)]. cbn. rewrite Hn. cbn. by case_decide.
Qed.

Lemma SqrtRatio_MinTick : SqrtRatioAtTick MinTick = Ok minSqrtRatio.
Proof using. vm_compute. reflexivity. Qed.
Lemma SqrtRatio_MaxTick : SqrtRatioAtTick MaxTick = Ok maxSqrtRatio.
Proof using. vm_compute. reflexivity. Qed.

(** What the loop keeps while it runs. *)
Definition traversing (s : SwapState) : Prop :=
  is_Some (ss_liquidity s) /\ (swapping zeroForOne s -> MinTick <= ss_currentTick s <= MaxTick).

(** A step that leaves input and does not stop at the price limit has reached
    the price of the next tick. *)
Lemma step_lands nextTick nextPrice s step :
  0 <= us_feePips state -> SqrtRatioAtTick nextTick = Ok nextPrice -> MinTick <= nextTick <= MaxTick ->
  let target := if decide ((zeroForOne = true /\ nextPrice < price_limit zeroForOne) \/
                           (zeroForOne = false /\ price_limit zeroForOne < nextPrice))
                then price_limit zeroForOne else nextPrice in
  forall liquidity, computeSwapStep (ss_sqrtPrice s) target liquidity (ss_remaining s) (us_feePips state) = Ok step ->
  0 < ss_remaining s - (st_amountIn step + st_fee step) -> st_sqrtPrice step <> price_limit zeroForOne ->
  st_sqrtPrice step = nextPrice /\ if zeroForOne then MinTick < nextTick else nextTick < MaxTick.
Proof using.
  intros Hf Hprice Hrange target liquidity Hstep Hrem Hlim.
  apply computeSwapStep_fair in Hstep as (_ & _ & Hreach & _); [|done].
  destruct Hreach as [Hreach|]; [|lia]. unfold target in Hreach. destruct (decide _) as [|Hno] in Hreach; [done|].
  split; [done|]. destruct zeroForOne.
  - destruct (decide (nextTick = MinTick)) as [->|]; [|lia]. exfalso. apply Hno. left. split; [done|].
    rewrite SqrtRatio_MinTick in Hprice. injection Hprice as <-. apply Z.lt_succ_diag_r.
  - destruct (decide (nextTick = MaxTick)) as [->|]; [|lia]. exfalso. apply Hno. right. split; [done|].
    rewrite SqrtRatio_MaxTick in Hprice. injection Hprice as <-. apply Z.lt_pred_l.
Qed.

Lemma iteration_tame s : traversing s -> tame (swap_iteration state zeroForOne s).
Proof using Hok.
  intros [[l Hl] Hcur]. unfold swap_iteration. rewrite Hl. cbn [deref mbind res_bind].
  case_decide; [done|]. case_decide; [done|].
  destruct (nextInitializedTickWithinOneWord _ _ _ _) as [next initialized] eqn:Hnext.
  apply tame_bind; [apply SqrtRatioAtTick_tame|intros nextPrice Hprice]. cbv zeta.
  apply tame_bind; [apply computeSwapStep_tame|intros step Hstep].
  unfold land_on_tick. destruct (decide (ss_sqrtPrice _ = nextPrice)); [|done]. apply tame_bind; [|by intros]. destruct initialized; [|done].
  pose proof (spacing_pos) as Hsp. pose proof Hok as [_ _ _ _ _ _ _ Hsorted _].
  destruct (next_tick_spec ticks Hsorted _ _ _ _ _ Hsp Hnext) as [_ (t & Ht & <-)].
  replace (clamp_tick (tick_index t)) with (tick_index t); [by apply cross_tick_tame|].
  pose proof (tick_in_range t Ht). unfold clamp_tick. cbv zeta. repeat case_decide; lia.
Qed.

(** A pass after which the loop goes on has landed on the next tick. *)
Lemma iteration_lands s s' :
  0 <= us_feePips state -> swap_iteration state zeroForOne s = Ok s' -> swapping zeroForOne s' ->
  exists next initialized l l', ss_liquidity s = Some l /\ ss_liquidity s' = Some l' /\
    nextInitializedTickWithinOneWord ticks (ss_currentTick s) spacing zeroForOne = (next, initialized) /\
    (if zeroForOne then MinTick < clamp_tick next else clamp_tick next < MaxTick) /\
    ss_currentTick s' = (if zeroForOne then clamp_tick next - 1 else clamp_tick next) /\
    if initialized then cross_tick state zeroForOne (clamp_tick next) l = Ok l' else l' = l.
Proof using.
  intros Hf H [Hpos Hlim]. unfold swap_iteration in H. apply bind_Ok in H as (l & Hl & H).
  destruct (ss_liquidity s) as [l0|] eqn:Hl0; [|done]. injection Hl as ->.
  destruct (decide _) as [|HL] in H; [done|]. destruct (decide _) as [|_] in H; [done|].
  destruct (nextInitializedTickWithinOneWord _ _ _ _) as [next initialized] eqn:Hnext.
  apply bind_Ok in H as (nextPrice & Hprice & H). apply bind_Ok in H as (step & Hstep & H). cbv zeta in H.
  pose proof (land_on_tick_inv _ _ _ _ _ _ _ _ H) as (Hrem & _ & _ & Hp & _). cbn [ss_remaining ss_sqrtPrice] in *.
  rewrite Hrem in Hpos. rewrite Hp in Hlim.
  assert (0 < ss_remaining s - (st_amountIn step + st_fee step)) as Hpos'
    by (destruct (Z.sgn_spec (ss_remaining s - (st_amountIn step + st_fee step))); lia).
  destruct (step_lands _ _ s step Hf Hprice (clamp_tick_range _) _ Hstep Hpos' Hlim) as [Hat Hin].
  unfold land_on_tick in H. cbn [ss_sqrtPrice] in H. rewrite decide_True in H by done.
  apply bind_Ok in H as (l' & Hl' & H). injection H as <-. exists next, initialized, l, l'.
  split_and!; try done. destruct initialized; [done|]. by injection Hl'.
Qed.

Lemma iteration_progress s s' :
  0 <= us_feePips state -> traversing s -> swapping zeroForOne s -> swap_iteration state zeroForOne s = Ok s' ->
  traversing s' /\ (swapping zeroForOne s' -> steps_left (ss_currentTick s') < steps_left (ss_currentTick s)).
Proof using Hok.
  intros Hf [_ Hcur] Hsw H. specialize (Hcur Hsw).
  assert (swapping zeroForOne s' -> MinTick <= ss_currentTick s' <= MaxTick /\
    steps_left (ss_currentTick s') < steps_left (ss_currentTick s)) as Hs'.
  { intros Hsw'. destruct (iteration_lands s s' Hf H Hsw') as (next & init & l & l' & _ & _ & Hnext & Hin & -> & _).
    by apply (steps_left_falls _ next init). }
  split; [split; [|apply Hs']|apply Hs']. unfold swap_iteration in H. apply bind_Ok in H as (l & _ & H).
  destruct (decide _) in H; [done|]. destruct (decide _) in H; [done|].
  destruct (nextInitializedTickWithinOneWord _ _ _ _). do 2 apply bind_Ok in H as (? & _ & H). unfold land_on_tick in H.
  destruct (decide _) in H; [apply bind_Ok in H as (? & _ & H)|]; injection H as <-; by eexists.
Qed.

Lemma swap_loop_tame fuel s :
  0 <= us_feePips state -> traversing s -> (swapping zeroForOne s -> steps_left (ss_currentTick s) < Z.of_nat fuel) ->
  tame (swap_loop state zeroForOne fuel s).
Proof using Hok.
  intros Hf. revert s. induction fuel as [|fuel IH]; intros s Hs Hleft; cbn [swap_loop]; (case_decide as Hsw; [|done]).
  - exfalso. pose proof (steps_left_nonneg _ (proj2 Hs Hsw)). specialize (Hleft Hsw). lia.
  - apply tame_bind; [by apply iteration_tame|]. intros s' Hstep.
    destruct (iteration_progress s s' Hf Hs Hsw Hstep) as [Hs' Hfall]. apply IH; [done|].
    intros Hsw'. specialize (Hfall Hsw'). specialize (Hleft Hsw). lia.
Qed.

Lemma quoteExactInput_tame amountIn :
  0 <= us_feePips state -> tame (quoteExactInput state zeroForOne amountIn).
Proof using Hok.
  intros Hf. unfold quoteExactInput. destruct amountIn as [amountIn|]; [|done]. case_decide; [done|].
  pose proof spacing_pos as Hsp. rewrite decide_False by lia.
  destruct Hok as [_ (price & -> & _) (l & Hl & _) Htick _ _ _ _ _]. cbn [deref mbind res_bind].
  apply tame_bind; [|intros; by repeat case_decide].
  apply swap_loop_tame; [done| |].
  - split; [by rewrite Hl; eexists|]. cbn. lia.
  - intros _. cbn. pose proof (steps_left_start (us_tick state) ltac:(lia)).
    pose proof (steps_left_nonneg (us_tick state) ltac:(lia)). lia.
Qed.
End bound.

(** C25. A quote on a snapshot that passed validation terminates within its step
    bound, whatever the direction and the amount: it ends in a value or in an
    error that is not the exhausted bound, and it never panics. *)
Theorem quoteExactInput_terminates state zeroForOne amountIn :
  validate state = Ok tt -> 0 <= us_feePips state -> tame (quoteExactInput state zeroForOne amountIn).
Proof. intros Hv Hf. apply quoteExactInput_tame; [by apply validate_iff|done]. Qed.

(** ** The quote source *)

Lemma quoteExactInput_positive state zeroForOne amountIn result :
  quoteExactInput state zeroForOne amountIn = Ok result -> 0 < sr_amountOut result.
Proof.
  unfold quoteExactInput. intros H. destruct amountIn as [a|]; [|done]. destruct (decide _) in H; [done|].
  destruct (decide (_ = 0)) in H; [done|]. apply bind_Ok in H as (p & _ & H). apply bind_Ok in H as (final & _ & H).
  destruct (decide _) in H; [done|]. destruct (decide _) as [|Ho] in H; [done|]. injection H as <-.
  cbn. destruct (Z.sgn_spec (ss_output final)); lia.
Qed.

Section source.
Context {D : Type} (as_snapshot : D -> option Snapshot) (q : Quoter).

(** Inputs whose snapshot, if it is of this package, is valid. *)
Definition valid_input (input : QuoteInput D) : Prop :=
  forall state, pool_state as_snapshot (in_Snapshot input) = Ok state ->
    snapshot_ok state /\ 0 <= us_feePips state.

#[export] Instance uniswap_v3_source : SoundSource D (Quote as_snapshot q None) valid_input.
Proof.
  split.
  - intros input quote H. unfold Quote in H. destruct (decide _) as [|Hm] in H; [done|]. apply dec_stable in Hm.
    apply bind_Ok in H as (state & _ & H). destruct (decide _) as [|_] in H; [done|].
    apply bind_Ok in H as (z & _ & H). apply bind_Ok in H as (result & Hres & H).
    apply quoteExactInput_positive in Hres. apply bind_Ok in H as (ao & Hao & H).
    apply NewTokenAmount_inv in Hao as (_ & Ht & Hu). destruct ao as [t u]. cbn in Ht, Hu. subst t u.
    apply pool_quote_iff in H; [|by left]. destruct H as (_ & _ & _ & _ & _ & ->). by split_and!.
  - intros input Hwf. unfold Quote. case_decide; [done|].
    apply no_panic_bind; [unfold pool_state, incompatible; no_panic_auto|intros state Hst]. case_decide; [done|].
    apply no_panic_bind; [unfold direction; no_panic_auto|intros z _].
    apply no_panic_bind; [|intros; no_panic_auto]. destruct (Hwf state Hst) as [Hok Hf].
    pose proof (quoteExactInput_tame state z Hok (Some (Units (in_AmountIn input))) Hf) as Ht.
    intros why Hp. by rewrite Hp in Ht.
Qed.
End source.

Module UniswapWitness.
Definition pool_ticks : list Tick :=
  [mkTick (-600) (Some (10 ^ 18)) (Some (10 ^ 18)); mkTick 600 (Some (10 ^ 18)) (Some (- 10 ^ 18))].
Definition pool : Snapshot := mkSnapshot 2 (Some (2 ^ 96)) 0 (Some (10 ^ 18)) 3000 60 pool_ticks FullTickCoverage.
Definition sold : swapResult := mkSwapResult 996006981039903 3000000000000 0.

Lemma step_witness : exists step, computeSwapStep (2 ^ 96) (2 ^ 95) (10 ^ 18) (10 ^ 15) 3000 = Ok step /\
  between (2 ^ 96) (st_sqrtPrice step) (2 ^ 95).
Proof.
  destruct (computeSwapStep_sound (2 ^ 96) (2 ^ 95) (10 ^ 18) (10 ^ 15) 3000) as (step & H & Hb & _);
    [done..|vm_compute; split; congruence|]. by exists step.
Defined.

Lemma quote_witness : quoteExactInput pool true (Some (10 ^ 15)) = Ok sold /\ 10 ^ 15 * 3000 <= sr_fee sold * feeDenominator.
Proof.
  assert (quoteExactInput pool true (Some (10 ^ 15)) = Ok sold) as Hq by (vm_compute; reflexivity).
  split; [exact Hq|].
  exact (proj1 (proj2 (proj2 (quoteExactInput_sound pool true ltac:(cbn; lia) (10 ^ 15) (2 ^ 96) sold eq_refl Hq)))).
Defined.

Lemma terminates_witness : validate pool = Ok tt /\ tame (quoteExactInput pool false (Some (10 ^ 30))).
Proof.
  assert (validate pool = Ok tt) as Hv by (vm_compute; reflexivity).
  split; [exact Hv|]. apply quoteExactInput_terminates; [exact Hv|cbn; lia].
Defined.
End UniswapWitness.
