(* ===== verification/UniswapLiquidity.v ===== *)
(** * Liquidity of a Uniswap V3 pool
    (src/adapters/market/uniswapv3/reducer.go)

    The reducer only returns valid snapshots.  Minting or burning liquidity in a
    range shifts the net liquidity of exactly the ticks of the range and the
    active liquidity with it, so that the active liquidity stays the sum of the
    net liquidity below the current tick, and the opposite update restores the
    snapshot.  A quote keeps that sum at every tick it crosses. *)
From S2P Require Import Prelude Amount Quote Registry Pools UniswapV3 UniswapSwap UniswapTraversal.
Local Open Scope Z_scope.

(** ** Ticks as a map *)

(** Every tick is stored under its index. *)
Definition keyed (m : gmap Z Tick) : Prop := forall i t, m !! i = Some t -> tick_index t = i.

Lemma tick_map_snoc l t : tick_map (l ++ [t]) = <[tick_index t := t]> (tick_map l).
Proof. unfold tick_map. by rewrite foldl_snoc. Qed.

Lemma tick_map_elem l i t : tick_map l !! i = Some t -> t ∈ l /\ tick_index t = i.
Proof.
  revert t. induction l as [|u l IH] using rev_ind; intros t H; [done|]. rewrite tick_map_snoc in H.
  apply lookup_insert_Some in H as [[<- <-]|[_ H]]; [split; [set_solver|done]|].
  destruct (IH t H). split; [set_solver|done].
Qed.

Lemma keyed_tick_map l : keyed (tick_map l).
Proof. intros i t H. by apply tick_map_elem in H as [_ ?]. Qed.

Lemma tick_map_list l : StronglySorted tick_lt l -> (map_to_list (tick_map l)).*2 ≡ₚ l.
Proof.
  induction l as [|t l IH] using rev_ind; intros Hs; [done|]. apply StronglySorted_app in Hs as (Hlt & Hs & _).
  rewrite tick_map_snoc, map_to_list_insert.
  - rewrite fmap_cons. cbn [snd]. rewrite (IH Hs). apply Permutation_cons_append.
  - apply eq_None_not_Some. intros [u Hu]. apply tick_map_elem in Hu as [Hu Heq].
    specialize (Hlt u t Hu ltac:(set_solver)). unfold tick_lt in Hlt. lia.
Qed.

#[global] Instance tick_le_total : Total tick_le.
Proof. intros t u. unfold tick_le. lia. Qed.
#[global] Instance tick_le_trans : Transitive tick_le.
Proof. intros t u v. unfold tick_le. lia. Qed.

Lemma sorted_tick_le l : StronglySorted tick_lt l -> StronglySorted tick_le l.
Proof.
  induction 1 as [|t l Hs IH Hall]; constructor; [done|].
  eapply Forall_impl; [exact Hall|]. unfold tick_lt, tick_le. lia.
Qed.

Lemma sorted_tick_inj l t u : StronglySorted tick_lt l -> t ∈ l -> u ∈ l -> tick_index t = tick_index u -> t = u.
Proof.
  induction 1 as [|v l Hs IH Hall]; [by intros ?%elem_of_nil|]. rewrite Forall_forall in Hall. unfold tick_lt in Hall.
  intros Ht Hu Heq. apply elem_of_cons in Ht as [->|Ht], Hu as [->|Hu]; [done| | |by apply IH].
  - specialize (Hall u Hu). lia.
  - specialize (Hall t Ht). lia.
Qed.

Section ranges.
Context {order : RangeOrder Z}.

Lemma range_values (m : gmap Z Tick) : (range m).*2 ≡ₚ (map_to_list m).*2.
Proof. by rewrite range_perm. Qed.

(** Rebuilding the tick list from the map sorts it, whatever the range order. *)
Lemma normalized_range l : StronglySorted tick_lt l -> normalizedTicks (range (tick_map l)).*2 = l.
Proof.
  intros Hs. apply (StronglySorted_unique_strong tick_le).
  - intros t u Ht Hu H1 H2. apply (sorted_tick_inj l); [done| |done|unfold tick_le in *; lia].
    unfold normalizedTicks in Ht. rewrite merge_sort_Permutation, range_values, tick_map_list in Ht by done. done.
  - apply StronglySorted_merge_sort; apply _.
  - by apply sorted_tick_le.
  - unfold normalizedTicks. by rewrite merge_sort_Permutation, range_values, tick_map_list.
Qed.

Lemma tick_map_normalized (m : gmap Z Tick) : keyed m -> tick_map (normalizedTicks (range m).*2) = m.
Proof.
  intros Hk. assert (normalizedTicks (range m).*2 ≡ₚ (map_to_list m).*2) as Hp.
  { unfold normalizedTicks. by rewrite merge_sort_Permutation, range_values. }
  assert (forall l, (forall t, t ∈ l -> m !! tick_index t = Some t) -> forall i t,
    t ∈ l -> tick_index t = i -> tick_map l !! i = Some t) as Hall.
  { intros l. induction l as [|u l IH] using rev_ind; intros Hl i t Ht Hi; [by apply elem_of_nil in Ht|].
    rewrite tick_map_snoc. destruct (decide (tick_index u = i)) as [Hui|Hui].
    - assert (t = u) as ->; [|by subst i; rewrite lookup_insert_eq].
      pose proof (Hl t Ht) as H1. pose proof (Hl u ltac:(set_solver)) as H2. rewrite Hi in H1. rewrite Hui in H2. congruence.
    - rewrite lookup_insert_ne by done. apply IH; [intros; apply Hl; set_solver| |done].
      apply elem_of_app in Ht as [Ht|Ht]; [done|]. apply list_elem_of_singleton in Ht as ->. done. }
  assert (forall t, t ∈ normalizedTicks (range m).*2 <-> m !! tick_index t = Some t) as Hin.
  { intros t. rewrite Hp, list_elem_of_fmap. split.
    - intros ([i u] & -> & Hu). apply elem_of_map_to_list in Hu. cbn. by rewrite (Hk i u Hu).
    - intros Ht. exists (tick_index t, t). by rewrite elem_of_map_to_list. }
  apply map_eq. intros i. destruct (tick_map _ !! i) as [t|] eqn:Ht.
  - apply tick_map_elem in Ht as [Ht <-]. by apply Hin in Ht.
  - destruct (m !! i) as [t|] eqn:Hm; [|done]. rewrite <- Ht. pose proof (Hk i t Hm) as Hi.
    apply Hall; [intros u Hu; by apply Hin| |done]. apply Hin. by rewrite Hi.
Qed.
End ranges.

(** ** One boundary *)

Definition set_tick (index : Z) (t : option Tick) (m : gmap Z Tick) : gmap Z Tick := partial_alter (fun _ => t) index m.

Lemma set_tick_set index t u m : set_tick index t (set_tick index u m) = set_tick index t m.
Proof. apply map_eq. intros i. unfold set_tick. rewrite !lookup_partial_alter. by case_decide. Qed.
Lemma set_tick_comm i j t u m : i <> j -> set_tick i t (set_tick j u m) = set_tick j u (set_tick i t m).
Proof. intros. by apply partial_alter_partial_alter_ne. Qed.
Lemma set_tick_id index m : set_tick index (m !! index) m = m.
Proof. apply map_eq. intros i. unfold set_tick. rewrite lookup_partial_alter. case_decide; by subst. Qed.
Lemma lookup_set_tick i j t m : set_tick i t m !! j = if decide (i = j) then t else m !! j.
Proof. apply lookup_partial_alter. Qed.

(** A tick that [NewTick] made. *)
Definition tick_wf (index : Z) (t : Tick) : Prop :=
  exists g n, t = mkTick index (Some g) (Some n) /\ 0 < g <= maxUint128 /\ Z.abs n <= g /\ minInt128 <= n <= maxInt128.
Definition map_wf (m : gmap Z Tick) : Prop := forall i t, m !! i = Some t -> tick_wf i t.

Lemma map_wf_keyed m : map_wf m -> keyed m.
Proof. intros Hm i t Ht. by destruct (Hm i t Ht) as (g & n & -> & _). Qed.

Definition gross_of (t : option Tick) : Z := default 0 (t ≫= tick_gross).
Definition net_of (t : option Tick) : Z := default 0 (t ≫= tick_net).

(** What an update leaves at a boundary: gross and net liquidity move by the
    deltas, and a tick without gross liquidity is cleared. *)
Definition boundary_update (index : Z) (current : option Tick) (grossDelta netDelta : Z) (t : option Tick) : Prop :=
  let gross := gross_of current + grossDelta in
  let net := net_of current + netDelta in
  (gross = 0 /\ net = 0 /\ t = None) \/
  (t = Some (mkTick index (Some gross) (Some net)) /\ tick_wf index (mkTick index (Some gross) (Some net))).

Lemma updateBoundary_iff m index grossDelta netDelta m' :
  map_wf m ->
  updateBoundary m index grossDelta netDelta = Ok m' <->
  exists t, boundary_update index (m !! index) grossDelta netDelta t /\ m' = set_tick index t m.
Proof.
  intros Hm. unfold updateBoundary, boundary_update. cbv zeta.
  assert (exists g n, gross_of (m !! index) = g /\ net_of (m !! index) = n /\
    match m !! index with
    | Some current => g ← deref (tick_gross current); n ← deref (tick_net current); Ok (g, n)
    | None => Ok (0, 0)
    end = Ok (g, n)) as (g & n & -> & -> & ->).
  { destruct (m !! index) as [t|] eqn:Ht; [|by exists 0, 0]. destruct (Hm index t Ht) as (g & n & -> & _). by exists g, n. }
  cbn [mbind res_bind].
  replace (if decide (0 < Z.sgn grossDelta) then g + grossDelta else g - Z.abs grossDelta) with (g + grossDelta)
    by (case_decide; destruct (Z.sgn_spec grossDelta); lia).
  pose proof (Z.sgn_spec (g + grossDelta)) as Hg. pose proof (Z.sgn_spec (n + netDelta)) as Hn. split.
  - intros H. destruct (decide _) as [|H1] in H; [done|]. destruct (decide _) as [H2|H2] in H.
    + destruct (decide _) as [|H3] in H; [done|]. injection H as <-. exists None. split; [|done]. left. split_and!; [lia..|done].
    + apply bind_Ok in H as (t & Ht & H). injection H as <-. apply NewTick_iff in Ht as (? & ? & [= <-] & [= <-] & -> & Hb).
      eexists. split; [|done]. right. split; [done|]. by eexists _, _.
  - intros (t & [(H1 & H2 & ->)|(-> & g' & n' & [= <- <-] & Hb)] & ->).
    + by rewrite decide_False, decide_True, decide_False by lia.
    + rewrite !decide_False by lia. rewrite (proj2 (NewTick_iff _ _ _ (mkTick index (Some (g + grossDelta)) (Some (n + netDelta))))); [done|].
      by eexists _, _.
Qed.

Lemma map_wf_set m index t : map_wf m -> (forall u, t = Some u -> tick_wf index u) -> map_wf (set_tick index t m).
Proof. intros Hm Ht i u. rewrite lookup_set_tick. case_decide as Hi; [subst i; apply Ht|apply Hm]. Qed.

Lemma boundary_update_wf index current g n t :
  boundary_update index current g n t -> forall u, t = Some u -> tick_wf index u.
Proof. intros [(_ & _ & ->)|(-> & Hwf)] u; [done|]. by intros [= <-]. Qed.

(** The opposite update restores the boundary. *)
Lemma boundary_update_inverse index current g n t :
  (forall u, current = Some u -> tick_wf index u) ->
  boundary_update index current g n t -> boundary_update index t (- g) (- n) current.
Proof.
  intros Hc H. unfold boundary_update in *. cbv zeta in *.
  assert (gross_of t = gross_of current + g /\ net_of t = net_of current + n) as [-> ->].
  { destruct H as [(-> & -> & ->)|(-> & _)]; done. }
  replace (gross_of current + g + - g) with (gross_of current) by lia.
  replace (net_of current + n + - n) with (net_of current) by lia.
  destruct current as [u|]; [right|by left]. destruct (Hc u eq_refl) as (g' & n' & -> & Hb). split; [done|]. by exists g', n'.
Qed.

(** ** Mint and burn *)

Lemma snapshot_map_wf s : snapshot_ok s -> map_wf (tick_map (us_ticks s)).
Proof.
  intros Hok i t Ht. apply tick_map_elem in Ht as [Ht <-]. destruct Hok as [_ _ _ _ _ _ _ _ Hall].
  rewrite Forall_forall in Hall. destruct (Hall t Ht) as [_ _ _ (g & n & Hg & Hn & Hb)].
  exists g, n. split; [|done]. destruct t as [index gross net]. cbn in *. by subst.
Qed.

Section liquidity.
Context {order : RangeOrder Z}.

(** One boundary of a range, skipped when the snapshot does not cover it. *)
Definition covered_update (s : Snapshot) (index grossDelta netDelta : Z) (m m' : gmap Z Tick) : Prop :=
  if decide (boundaryCovered s index)
  then exists t, boundary_update index (m !! index) grossDelta netDelta t /\ m' = set_tick index t m
  else m' = m.

Definition active_delta (s : Snapshot) (lower upper delta : Z) : Z :=
  if decide (lower <= us_tick s /\ us_tick s < upper) then delta else 0.

Lemma covered_update_iff s index grossDelta netDelta m m' (delta : option Z) (f : Z -> Z) :
  map_wf m -> (exists d, delta = Some d /\ grossDelta = d /\ netDelta = f d) ->
  (if decide (boundaryCovered s index) then delta ← deref delta; updateBoundary m index delta (f delta) else Ok m) = Ok m' <->
  covered_update s index grossDelta netDelta m m'.
Proof using.
  intros Hm (d & -> & -> & ->). unfold covered_update. case_decide; cbn [deref mbind res_bind].
  - by apply updateBoundary_iff.
  - split; [by intros [= ->]|by intros ->].
Qed.

Lemma covered_update_wf s index g n m m' : map_wf m -> covered_update s index g n m m' -> map_wf m'.
Proof using.
  intros Hm. unfold covered_update. case_decide; [|by intros ->].
  intros (t & Ht & ->). apply map_wf_set; [done|]. by eapply boundary_update_wf.
Qed.

(** What a liquidity update does to a valid snapshot. *)
Lemma applyLiquidity_iff s lower upper delta liquidity s' :
  snapshot_ok s -> us_liquidity s = Some liquidity ->
  applyLiquidity s lower upper (Some delta) = Ok s' <->
  Z.rem lower (us_tickSpacing s) = 0 /\ Z.rem upper (us_tickSpacing s) = 0 /\
  0 <= liquidity + active_delta s lower upper delta <= maxUint128 /\
  exists m1 m2, covered_update s lower delta delta (tick_map (us_ticks s)) m1 /\
    covered_update s upper delta (- delta) m1 m2 /\
    s' = with_ticks s (Some (liquidity + active_delta s lower upper delta)) (normalizedTicks (range m2).*2).
Proof using.
  intros Hok Hl. pose proof (snapshot_map_wf s Hok) as Hm. destruct Hok as [_ _ (l & Hl' & Hlb) _ Hsp _ _ _ _].
  rewrite Hl in Hl'. injection Hl' as <-.
  unfold applyLiquidity. rewrite decide_False by lia. cbv zeta. split.
  - intros H. destruct (decide (_ \/ _)) as [|Hal] in H; [done|]. apply bind_Ok in H as (m1 & H1 & H). apply bind_Ok in H as (m2 & H2 & H).
    apply (covered_update_iff s lower delta delta _ _ (Some delta) (fun d => d) Hm) in H1; [|by exists delta].
    pose proof (covered_update_wf _ _ _ _ _ _ Hm H1) as Hm1.
    apply (covered_update_iff s upper delta (- delta) _ _ (Some delta) Z.opp Hm1) in H2; [|by exists delta].
    split; [lia|]. split; [lia|]. unfold active_delta. destruct (decide (_ /\ _)) in H |- *.
    + rewrite Hl in H. cbn [deref mbind res_bind] in H. destruct (decide (_ \/ _)) as [|Hb] in H; [done|].
      injection H as <-. split; [|by exists m1, m2]. destruct (Z.sgn_spec (liquidity + delta)); lia.
    + injection H as <-. rewrite Hl, Z.add_0_r. split; [done|]. by exists m1, m2.
  - intros (Ha1 & Ha2 & Hb & m1 & m2 & H1 & H2 & ->). rewrite decide_False by tauto.
    pose proof (covered_update_wf _ _ _ _ _ _ Hm H1) as Hm1.
    apply (covered_update_iff s lower delta delta _ m1 (Some delta) (fun d => d) Hm) in H1; [|by exists delta].
    apply (covered_update_iff s upper delta (- delta) _ m2 (Some delta) Z.opp Hm1) in H2; [|by exists delta].
    cbv beta in H1. rewrite H1. cbn [mbind res_bind]. rewrite H2.
    cbn [mbind res_bind]. unfold active_delta in *. rewrite Hl. destruct (decide (lower <= _ /\ _)).
    + cbn [deref mbind res_bind]. by rewrite decide_False by (destruct (Z.sgn_spec (liquidity + delta)); lia).
    + by rewrite Z.add_0_r.
Qed.

Lemma covered_update_with s liquidity ticks index g n m m' :
  covered_update (with_ticks s liquidity ticks) index g n m m' <-> covered_update s index g n m m'.
Proof using.
  unfold covered_update. assert (boundaryCovered (with_ticks s liquidity ticks) index <-> boundaryCovered s index) by done.
  repeat case_decide; tauto.
Qed.

(** The opposite updates of two distinct boundaries restore the map. *)
Lemma covered_updates_inverse s lower upper delta m m1 m2 :
  map_wf m -> lower <> upper ->
  covered_update s lower delta delta m m1 -> covered_update s upper delta (- delta) m1 m2 ->
  exists n1, covered_update s lower (- delta) (- delta) m2 n1 /\ covered_update s upper (- delta) (- - delta) n1 m.
Proof using.
  intros Hm Hne H1 H2. unfold covered_update in *.
  assert (forall i u, m !! i = Some u -> tick_wf i u) as Hwf by (intros; by apply Hm).
  destruct (decide (boundaryCovered s lower)) as [_|_].
  - destruct H1 as (t & Ht & ->). apply boundary_update_inverse in Ht; [|by apply Hwf].
    exists (set_tick lower (m !! lower) m2). destruct (decide _) as [_|_].
    + destruct H2 as (u & Hu & ->). rewrite lookup_set_tick, decide_False in Hu by done.
      apply boundary_update_inverse in Hu; [|by apply Hwf]. split.
      * exists (m !! lower). rewrite !lookup_set_tick, decide_False, decide_True by done. done.
      * exists (m !! upper). rewrite (set_tick_comm lower upper), set_tick_set, set_tick_id by done.
        rewrite lookup_set_tick, decide_True by done. by rewrite set_tick_set, set_tick_id.
    + subst m2. split; [|by rewrite set_tick_set, set_tick_id].
      exists (m !! lower). by rewrite lookup_set_tick, decide_True by done.
  - subst m1. exists m2. split; [done|]. destruct (decide _) as [_|_]; [|done]. destruct H2 as (u & Hu & ->).
    apply boundary_update_inverse in Hu; [|by apply Hwf]. exists (m !! upper).
    by rewrite lookup_set_tick, decide_True, set_tick_set, set_tick_id.
Qed.

Lemma applyLiquidity_inverse s lower upper delta s' :
  snapshot_ok s -> lower < upper -> applyLiquidity s lower upper (Some delta) = Ok s' -> snapshot_ok s' ->
  applyLiquidity s' lower upper (Some (- delta)) = Ok s.
Proof using.
  intros Hok Hlu H Hok'. pose proof (snapshot_map_wf s Hok) as Hm.
  pose proof Hok as [_ _ (l & Hl & Hlb) _ _ _ _ Hsorted _].
  apply (applyLiquidity_iff s lower upper delta l s' Hok Hl) in H as (Ha1 & Ha2 & Hb & m1 & m2 & H1 & H2 & ->).
  pose proof (covered_update_wf _ _ _ _ _ _ Hm H1) as Hm1. pose proof (covered_update_wf _ _ _ _ _ _ Hm1 H2) as Hm2.
  eapply applyLiquidity_iff; [done|done|]. cbn [us_tickSpacing with_ticks us_ticks].
  assert (active_delta (with_ticks s (Some (l + active_delta s lower upper delta)) (normalizedTicks (range m2).*2)) lower upper (- delta)
          = - active_delta s lower upper delta) as -> by (unfold active_delta; cbn [us_tick with_ticks]; case_decide; lia).
  replace (l + active_delta s lower upper delta + - active_delta s lower upper delta) with l by lia.
  split_and!; [done..|lia|lia|]. rewrite (tick_map_normalized m2) by (by apply map_wf_keyed).
  destruct (covered_updates_inverse s lower upper delta _ _ _ Hm ltac:(lia) H1 H2) as (n1 & Hn1 & Hn2).
  exists n1, (tick_map (us_ticks s)). rewrite !covered_update_with. split; [done|]. split; [done|]. rewrite normalized_range by done.
  destruct s. cbn in Hl. by subst.
Qed.

(** ** The active liquidity *)

(** The net liquidity of a tick if it is at or below [x], and its total: what is
    active at tick [x] when the ticks are all known. *)
Definition net_upto (x : Z) (t : Tick) : Z := if decide (tick_index t <= x) then default 0 (tick_net t) else 0.
Definition net_below (ticks : list Tick) (x : Z) : Z := Zsum (net_upto x <$> ticks).
Definition net_at (x index : Z) (t : option Tick) : Z := if decide (index <= x) then net_of t else 0.

#[global] Instance net_below_perm : Proper ((≡ₚ) ==> (=) ==> (=)) net_below.
Proof using. intros l k Hlk x ? <-. unfold net_below. by rewrite Hlk. Qed.

Lemma net_below_map_set m index t x :
  map_wf m -> (forall u, t = Some u -> tick_wf index u) ->
  net_below (map_to_list (set_tick index t m)).*2 x =
  net_below (map_to_list m).*2 x - net_at x index (m !! index) + net_at x index t.
Proof using.
  intros Hm Ht. assert (forall o m, m !! index = None -> (forall u, o = Some u -> tick_wf index u) ->
    net_below (map_to_list (set_tick index o m)).*2 x = net_below (map_to_list m).*2 x + net_at x index o) as Hnew.
  { intros o m' Hn Ho. unfold net_at, net_of. destruct o as [u|].
    - change (set_tick index (Some u) m') with (<[index := u]> m'). rewrite map_to_list_insert by done.
      unfold net_below. rewrite !fmap_cons, Zsum_cons. unfold net_upto at 1. cbn [snd].
      destruct (Ho u eq_refl) as (g & n & -> & _). cbn. case_decide; lia.
    - pose proof (set_tick_id index m') as Hid. rewrite Hn in Hid. rewrite Hid. case_decide; cbn; lia. }
  pose proof (Hnew (m !! index) (set_tick index None m)) as H1. rewrite set_tick_set, set_tick_id in H1.
  pose proof (Hnew t (set_tick index None m)) as H2. rewrite set_tick_set in H2.
  rewrite lookup_set_tick, decide_True in H1, H2 by done. specialize (H1 eq_refl (Hm index)). specialize (H2 eq_refl Ht). lia.
Qed.

Lemma net_at_update x index current g n t :
  boundary_update index current g n t -> net_at x index t = net_at x index current + (if decide (index <= x) then n else 0).
Proof using.
  unfold net_at, boundary_update. cbv zeta. intros H. case_decide; [|lia].
  by destruct H as [(_ & H & ->)|(-> & _)].
Qed.

Lemma covered_update_net s index g n m m' x :
  map_wf m -> boundaryCovered s index -> covered_update s index g n m m' ->
  net_below (map_to_list m').*2 x = net_below (map_to_list m).*2 x + (if decide (index <= x) then n else 0).
Proof using.
  intros Hm Hc. unfold covered_update. rewrite decide_True by done. intros (t & Ht & ->).
  rewrite net_below_map_set; [|done|by eapply boundary_update_wf]. rewrite (net_at_update x _ _ _ _ _ Ht). lia.
Qed.

(** Minting into a covered range adds its amount to the net liquidity below every
    tick of the range and to no other. *)
Lemma applyLiquidity_net s lower upper delta s' x :
  snapshot_ok s -> lower < upper -> boundaryCovered s lower -> boundaryCovered s upper ->
  applyLiquidity s lower upper (Some delta) = Ok s' ->
  net_below (us_ticks s') x = net_below (us_ticks s) x + (if decide (lower <= x /\ x < upper) then delta else 0) /\
  exists l, us_liquidity s = Some l /\ us_liquidity s' = Some (l + active_delta s lower upper delta) /\ us_tick s' = us_tick s.
Proof using.
  intros Hok Hlu Hc1 Hc2 H. pose proof (snapshot_map_wf s Hok) as Hm.
  pose proof Hok as [_ _ (l & Hl & Hlb) _ _ _ _ Hsorted _].
  apply (applyLiquidity_iff s lower upper delta l s' Hok Hl) in H as (_ & _ & _ & m1 & m2 & H1 & H2 & ->).
  cbn [us_ticks us_liquidity us_tick with_ticks]. split; [|by exists l].
  pose proof (covered_update_wf _ _ _ _ _ _ Hm H1) as Hm1.
  apply (covered_update_net _ _ _ _ _ _ x Hm Hc1) in H1. apply (covered_update_net _ _ _ _ _ _ x Hm1 Hc2) in H2.
  unfold normalizedTicks. rewrite merge_sort_Permutation, range_values.
  rewrite <- (tick_map_list (us_ticks s) Hsorted). rewrite H2, H1. repeat case_decide; lia.
Qed.

(** The active liquidity is the net liquidity at or below the current tick. *)
Definition active_consistent (s : Snapshot) : Prop := us_liquidity s = Some (net_below (us_ticks s) (us_tick s)).
End liquidity.

(** ** The reducer *)

Section reducer.
Context {order : RangeOrder Z} {D E : Type} (as_snapshot : D -> option Snapshot) (inject : Snapshot -> D).
Context (as_event : E -> option UniswapEvent) (sha256 : string -> Digest).
Hypothesis Hinject : forall s, as_snapshot (inject s) = Some s.

Abbreviation reduce := (Reduce as_snapshot inject as_event sha256 None).

(** What an accepted reduction returns. *)
Definition accepted (data : option D) (digest : Digest) : Prop :=
  exists s, data = Some (inject s) /\ snapshot_ok s /\ digest = hashState sha256 s.

Lemma accept_iff next data digest :
  accept inject sha256 next = Ok (data, digest) <->
  snapshot_ok next /\ data = Some (inject next) /\ digest = hashState sha256 next.
Proof using.
  unfold accept. rewrite <- validate_iff. destruct (validate next) as [[]|e|w]; cbn; [|naive_solver..].
  split; [by intros [= <- <-]|by intros (_ & -> & ->)].
Qed.

Lemma reduce_pool_accepted previous update data digest :
  reduce_pool as_snapshot inject sha256 None previous update = Ok (data, digest) -> accepted data digest.
Proof using.
  unfold reduce_pool. intros H. apply bind_Ok in H as (current & _ & H). apply bind_Ok in H as (next & _ & H).
  apply accept_iff in H as (Hok & -> & ->). by exists next.
Qed.

Lemma Reduce_accepted previous event data digest :
  reduce previous event = Ok (data, digest) ->
  accepted data digest \/ (as_event event = Some (BlockUpdate []) /\ data = previous).
Proof using.
  unfold Reduce. destruct (as_event event) as [[update|update|updates]|] eqn:He; [| | |done].
  - intros H. apply accept_iff in H as (Hok & -> & ->). left. by eexists.
  - intros H. left. by eapply reduce_pool_accepted.
  - destruct updates as [|u updates]; [by intros [= <- <-]; right|]. intros H. left.
    revert H. rewrite <- (app_nil_r (u :: updates)) at 1. revert previous. generalize zero_digest.
    induction updates as [|v updates IH] in u |- *; intros h previous H; cbn in H.
    + apply bind_Ok in H as ([d h'] & Hr & H). injection H as <- <-. by eapply reduce_pool_accepted.
    + apply bind_Ok in H as ([d h'] & _ & H). by eapply (IH v h' d).
Qed.

(** C27. Every snapshot the reducer returns is well formed and comes with the hash
    of its canonical text; only a block without updates passes the previous data
    on unread. *)
Theorem Reduce_valid previous event data digest :
  reduce previous event = Ok (data, digest) ->
  accepted data digest \/ (as_event event = Some (BlockUpdate []) /\ data = previous).
Proof using. apply Reduce_accepted. Qed.

Lemma reduce_liquidity s lower upper delta event data digest :
  as_event event = Some (PoolEvent (LiquidityUpdate lower upper (Some delta))) -> snapshot_ok s ->
  reduce (Some (inject s)) event = Ok (data, digest) <->
  exists s', applyLiquidity s lower upper (Some delta) = Ok s' /\ snapshot_ok s' /\
    data = Some (inject s') /\ digest = hashState sha256 s'.
Proof using Hinject.
  intros He Hok. unfold Reduce, reduce_pool, requireSnapshot. rewrite He. cbn. rewrite Hinject. destruct Hok as [-> _ _ _ _ _ _ _ _].
  rewrite decide_False by (by intros []). cbn. rewrite bind_Ok. split.
  - intros (s' & Happ & H). apply accept_iff in H as (? & -> & ->). by exists s'.
  - intros (s' & Happ & ? & -> & ->). exists s'. split; [done|]. by apply accept_iff.
Qed.

(** C26. Burning what was minted over a range (or minting what was burned) takes the
    reducer back to the very same snapshot and hash. *)
Theorem Reduce_mint_burn s lower upper delta mint burn data digest :
  snapshot_ok s -> lower < upper ->
  as_event mint = Some (PoolEvent (LiquidityUpdate lower upper (Some delta))) ->
  as_event burn = Some (PoolEvent (LiquidityUpdate lower upper (Some (- delta)))) ->
  reduce (Some (inject s)) mint = Ok (data, digest) ->
  reduce data burn = Ok (Some (inject s), hashState sha256 s).
Proof using Hinject.
  intros Hok Hlu Hmint Hburn H. apply (reduce_liquidity s lower upper delta) in H as (s' & Happ & Hok' & -> & _); [|done..].
  apply (reduce_liquidity s' lower upper (- delta) burn); [done..|]. exists s. split; [|done]. by apply applyLiquidity_inverse.
Qed.

(** On a pool whose ticks are all known a mint or a burn moves the net liquidity
    of exactly the ticks of its range, and the active liquidity stays the net
    liquidity below the current tick. *)
Theorem Reduce_keeps_active s lower upper delta event data digest :
  snapshot_ok s -> active_consistent s -> tc_full (us_coverage s) = true -> lower < upper ->
  as_event event = Some (PoolEvent (LiquidityUpdate lower upper (Some delta))) ->
  reduce (Some (inject s)) event = Ok (data, digest) ->
  exists s', data = Some (inject s') /\ active_consistent s' /\
    forall x, net_below (us_ticks s') x = net_below (us_ticks s) x + (if decide (lower <= x /\ x < upper) then delta else 0).
Proof using Hinject.
  intros Hok Hcons Hfull Hlu He H. apply (reduce_liquidity s lower upper delta) in H as (s' & Happ & _ & -> & _); [|done..].
  assert (forall i, boundaryCovered s i) as Hcov by (intros i; by left).
  exists s'. split; [done|].
  pose proof (fun x => applyLiquidity_net s lower upper delta s' x Hok Hlu (Hcov _) (Hcov _) Happ) as Hnet.
  split; [|intros x; apply Hnet]. unfold active_consistent in *. destruct (Hnet (us_tick s)) as [Hx (l & Hl & -> & ->)].
  rewrite Hx. rewrite Hcons in Hl. injection Hl as <-. done.
Qed.
End reducer.

(** ** The liquidity a quote trades in *)

(** The net liquidity of the tick at one index. *)
Definition net_index (ticks : list Tick) (index : Z) : Z :=
  Zsum ((fun t => if decide (tick_index t = index) then default 0 (tick_net t) else 0) <$> ticks).

Lemma net_index_none ticks index : (forall t, t ∈ ticks -> tick_index t <> index) -> net_index ticks index = 0.
Proof.
  unfold net_index. induction ticks as [|u l IH]; intros H; [done|]. rewrite fmap_cons, Zsum_cons.
  rewrite IH by set_solver. rewrite decide_False by (apply H; set_solver). lia.
Qed.

Lemma net_index_elem ticks t : StronglySorted tick_lt ticks -> t ∈ ticks -> net_index ticks (tick_index t) = default 0 (tick_net t).
Proof.
  unfold net_index. induction 1 as [|u l Hs IH Hall]; [by intros ?%elem_of_nil|]. rewrite fmap_cons, Zsum_cons.
  rewrite Forall_forall in Hall. unfold tick_lt in Hall. intros [->|Ht]%elem_of_cons.
  - rewrite decide_True by done. fold (net_index l (tick_index u)). rewrite net_index_none; [lia|].
    intros v Hv. specialize (Hall v Hv). lia.
  - rewrite IH by done. specialize (Hall t Ht). rewrite decide_False by lia. lia.
Qed.

(** Two positions between which only the tick at [index] lies. *)
Lemma net_below_shift ticks x y index :
  (forall t, t ∈ ticks -> net_upto y t = net_upto x t + (if decide (tick_index t = index) then default 0 (tick_net t) else 0)) ->
  net_below ticks y = net_below ticks x + net_index ticks index.
Proof.
  unfold net_below, net_index. induction ticks as [|u l IH]; intros H; [done|]. rewrite !fmap_cons, !Zsum_cons.
  rewrite (H u) by set_solver. rewrite IH by set_solver. lia.
Qed.

Section active.
Context (state : Snapshot) (zeroForOne : bool).
Hypothesis (Hok : snapshot_ok state) (Hfee : 0 <= us_feePips state).
Abbreviation ticks := (us_ticks state).

(** Moving to the next tick passes only that tick. *)
Lemma net_below_next current next initialized :
  nextInitializedTickWithinOneWord ticks current (us_tickSpacing state) zeroForOne = (next, initialized) ->
  (if zeroForOne then next <= current else current < next) ->
  if zeroForOne then net_below ticks current = net_below ticks (next - 1) + net_index ticks next
  else net_below ticks next = net_below ticks current + net_index ticks next.
Proof using Hok.
  intros Hnext Hdir. pose proof (spacing_pos state Hok) as Hsp. destruct Hok as [_ _ _ _ _ _ _ Hsorted Hall].
  rewrite Forall_forall in Hall.
  assert (forall t, t ∈ ticks -> (if zeroForOne then tick_index t <= current -> tick_index t <= next
    else current < tick_index t -> next <= tick_index t)) as Hgap.
  { intros t Ht. destruct (Hall t Ht) as [_ Hal _ _]. by apply (next_tick_gap ticks Hsorted current _ zeroForOne next initialized t Hsp Hal Ht). }
  destruct zeroForOne; apply net_below_shift; intros t Ht; specialize (Hgap t Ht); unfold net_upto; repeat case_decide; lia.
Qed.

Lemma net_index_next current next initialized :
  nextInitializedTickWithinOneWord ticks current (us_tickSpacing state) zeroForOne = (next, initialized) ->
  if initialized then exists t, t ∈ ticks /\ tick_index t = next /\ net_index ticks next = default 0 (tick_net t)
  else net_index ticks next = 0.
Proof using Hok.
  intros Hnext. pose proof (spacing_pos state Hok) as Hsp. pose proof Hok as [_ _ _ _ _ _ _ Hsorted Hall].
  rewrite Forall_forall in Hall. destruct initialized.
  - destruct (next_tick_spec ticks Hsorted _ _ _ _ _ Hsp Hnext) as [_ (t & Ht & <-)].
    exists t. split_and!; [done..|]. by apply net_index_elem.
  - apply net_index_none. intros t Ht. destruct (Hall t Ht) as [_ Hal _ _].
    by apply (next_tick_gap ticks Hsorted _ _ _ _ _ t Hsp Hal Ht Hnext).
Qed.

Lemma cross_tick_net t l l' :
  t ∈ ticks -> cross_tick state zeroForOne (tick_index t) l = Ok l' ->
  l' = if zeroForOne then l - default 0 (tick_net t) else l + default 0 (tick_net t).
Proof using Hok.
  intros Ht H. destruct Hok as [_ _ _ _ _ _ _ Hsorted _]. unfold cross_tick in H. rewrite findTick_elem in H by done.
  cbn [mbind res_bind] in H. destruct (tick_net t) as [n|]; [|done]. cbn [deref mbind res_bind default] in *.
  destruct (decide _) in H; [done|]. injection H as <-. cbn. destruct zeroForOne; lia.
Qed.

(** The states the loop of a quote goes through. *)
Inductive visits (start : SwapState) : SwapState -> Prop :=
| visits_start : visits start start
| visits_step s s' : visits start s -> swapping zeroForOne s -> swap_iteration state zeroForOne s = Ok s' -> visits start s'.

Definition quote_start (amountIn price : Z) : SwapState :=
  mkSwapState amountIn 0 0 0 price (us_tick state) (us_liquidity state).

(** On a pool whose active liquidity is the net liquidity below its tick, a
    quote trades every step of its path in the liquidity that is active at the
    tick it has reached: crossing ticks follows the net liquidity exactly and
    passes no initialized tick over. *)
Theorem quote_keeps_active amountIn price s :
  active_consistent state -> visits (quote_start amountIn price) s -> swapping zeroForOne s ->
  ss_liquidity s = Some (net_below ticks (ss_currentTick s)) /\ MinTick <= ss_currentTick s <= MaxTick.
Proof using Hok Hfee.
  intros Hcons. induction 1 as [|s s' Hvisit IH Hsw Hstep]; intros Hsw'.
  { split; [done|]. destruct Hok as [_ _ _ Ht _ _ _ _ _]. cbn. lia. }
  destruct (IH Hsw) as [Hl Hcur].
  destruct (iteration_lands state zeroForOne s s' Hfee Hstep Hsw') as (next & init & l & l' & Hl0 & -> & Hnext & Hin & -> & Hcross).
  rewrite Hl in Hl0. injection Hl0 as <-.
  pose proof (spacing_pos state Hok) as Hsp. pose proof Hok as [_ _ _ _ _ _ _ Hsorted _].
  destruct (next_tick_spec ticks Hsorted _ _ _ _ _ Hsp Hnext) as [Hdir _].
  destruct (steps_left_falls state zeroForOne Hok _ next init Hcur Hnext Hin) as [Hrange _].
  assert (clamp_tick next = next) as Hcl.
  { destruct (clamp_tick_cases next) as [?|[[? Hc]|[? Hc]]]; [done|rewrite Hc in Hin..]; destruct zeroForOne; lia. }
  rewrite Hcl in *. pose proof (net_below_next _ next init Hnext Hdir) as Hshift. pose proof (net_index_next _ next init Hnext) as Hidx.
  split; [|done]. destruct init.
  - destruct Hidx as (t & Ht & <- & Hn). apply (cross_tick_net t) in Hcross; [|done]. destruct zeroForOne; f_equal; lia.
  - destruct zeroForOne; f_equal; lia.
Qed.
End active.

Module LiquidityWitness.
Import UniswapWitness.
#[local] Existing Instance range_map_to_list.
Definition mint : UniswapEvent := PoolEvent (LiquidityUpdate (-600) 1200 (Some 7)).
Definition burn : UniswapEvent := PoolEvent (LiquidityUpdate (-600) 1200 (Some (-7))).
Definition hash (s : string) : Digest := "h".
Definition minted : option Snapshot * Digest := default (None, "") (res_opt (Reduce Some id Some hash None (Some pool) mint)).

Lemma pool_ok : snapshot_ok pool.
Proof. apply validate_iff. vm_compute. reflexivity. Qed.

Lemma mint_ok : Reduce Some id Some hash None (Some pool) mint = Ok minted.
Proof. vm_compute. reflexivity. Qed.

Lemma valid_witness : exists s, minted.1 = Some s /\ snapshot_ok s.
Proof.
  destruct (Reduce_valid Some id Some hash (Some pool) mint minted.1 minted.2 mint_ok) as [(s & Hs & Hok & _)|[He _]].
  - exists s. exact (conj Hs Hok).
  - discriminate He.
Defined.

Lemma mint_burn_witness : Reduce Some id Some hash None minted.1 burn = Ok (Some pool, hash (canonical pool)).
Proof.
  apply (Reduce_mint_burn Some id Some hash (fun s => eq_refl) pool (-600) 1200 7 mint burn minted.1 minted.2);
    [apply pool_ok|lia|reflexivity|reflexivity|apply mint_ok].
Defined.

Lemma active_witness : active_consistent pool /\ exists s, minted.1 = Some s /\ active_consistent s.
Proof.
  assert (active_consistent pool) as Hc by (vm_compute; reflexivity). split; [exact Hc|].
  destruct (Reduce_keeps_active Some id Some hash (fun s => eq_refl) pool (-600) 1200 7 mint minted.1 minted.2
    pool_ok Hc eq_refl ltac:(lia) eq_refl mint_ok) as (s & Hs & Hcons & _). exists s. exact (conj Hs Hcons).
Defined.

Lemma trade_witness :
  ss_liquidity (quote_start pool (10 ^ 15) (2 ^ 96)) = Some (net_below (us_ticks pool) 0) /\ MinTick <= 0 <= MaxTick.
Proof.
  apply (quote_keeps_active pool true pool_ok ltac:(cbn; lia) (10 ^ 15) (2 ^ 96) (quote_start pool (10 ^ 15) (2 ^ 96)));
    [vm_compute; reflexivity|apply visits_start|split; [done|vm_compute; congruence]].
Defined.
End LiquidityWitness.
