(* ===== verification/MarketState.v ===== *)
(** * Market mirrors
    (src/core/marketstate/mirror.go, src/ports/feed/feed.go,
    src/adapters/feed/sourceorder/policy.go)

    A mirror turns the events of one market into a sequence of immutable
    snapshots.  The protocol's reducer and the ordering policy are its
    parameters: the reducer through the class [Reducer] (Uniswap V3 is an
    instance), the policy as a function with the two of the code.  Theorems: a
    mirror publishes well-formed snapshots under strictly increasing versions,
    whatever mixture of events, resets, health updates and failures it sees; a
    validated event is accepted; a monotonic policy never lets a position go back. *)
From Stdlib Require Import Sorted.
From S2P Require Import Prelude Amount Quote.
Local Open Scope Z_scope.

(** ** Feed contracts *)

Definition ApplyDispositionApplied : string := "applied".
Definition ApplyDispositionIgnoredStale : string := "ignored_stale".

(** The zero [MarketSnapshot]. *)
Definition SnapshotMetadata_zero : SnapshotMetadata :=
  mkSnapshotMetadata "" "" 0 (mkSourcePosition "" 0) (mkSourceReference "" "") "" 0 false 0 0 "" "" 0 "".
Definition MarketSnapshot_zero {D} : MarketSnapshot D := mkMarketSnapshot SnapshotMetadata_zero None.

Record ApplyResult (D : Type) := mkApplyResult {
  ar_Disposition : string; ar_Reason : string; ar_Snapshot : MarketSnapshot D }.
Arguments mkApplyResult {D}.
Arguments ar_Disposition {D}. Arguments ar_Reason {D}. Arguments ar_Snapshot {D}.

Definition ApplyResult_Validate {D} (r : ApplyResult D) : res unit :=
  if decide (ar_Disposition r <> ApplyDispositionApplied /\ ar_Disposition r <> ApplyDispositionIgnoredStale)
  then Err (Errorf "invalid apply disposition %q") else
  if decide (snap_Version (ar_Snapshot r) = 0) then Err (Errorf "apply result requires a snapshot") else
  if decide (ar_Disposition r = ApplyDispositionIgnoredStale /\ ar_Reason r = "")
  then Err (Errorf "ignored event requires a reason") else
  if decide (ar_Disposition r = ApplyDispositionApplied /\ ar_Reason r <> "")
  then Err (Errorf "applied event cannot have an ignore reason") else Ok tt.

Record HealthUpdate := mkHealthUpdate { hu_Health : string; hu_Reason : string; hu_ObservedAt : Time }.

Definition HealthUpdate_Validate (u : HealthUpdate) : res unit :=
  if decide (hu_Health u <> HealthHealthy /\ hu_Health u <> HealthDegraded)
  then Err (Errorf "invalid feed health %q") else
  if decide (Time_IsZero (hu_ObservedAt u)) then Err (Errorf "feed health timestamp is required") else
  if decide (hu_Health u = HealthDegraded /\ hu_Reason u = "")
  then Err (Errorf "degraded feed health requires a reason") else
  if decide (hu_Health u = HealthHealthy /\ hu_Reason u <> "")
  then Err (Errorf "healthy feed health cannot have a reason") else Ok tt.

(** A health and its reason agree. *)
Definition health_ok (health reason : string) : Prop :=
  (health = HealthHealthy /\ reason = "") \/ (health = HealthDegraded /\ reason <> "").

Lemma HealthUpdate_Validate_Ok u x :
  HealthUpdate_Validate u = Ok x -> health_ok (hu_Health u) (hu_Reason u) /\ hu_ObservedAt u <> 0.
Proof.
  unfold HealthUpdate_Validate, Time_IsZero, health_ok. intros H. res_inv. split; [|done].
  destruct (decide (hu_Health u = HealthHealthy)), (decide (hu_Health u = HealthDegraded)),
    (decide (hu_Reason u = "")); naive_solver.
Qed.

(** ** Ordering policies: the reason an event is stale, if it is *)

Definition BlockPositionKind : string := "block".

Record Monotonic := mkMonotonic { mono_kind : string; mono_fallbackTimestamp : bool }.

Definition Monotonic_Stale {E} (p : Monotonic) (current : SnapshotMetadata) (incoming : MarketEvent E) : option string :=
  if decide (mono_kind p <> "" /\ pos_Kind (ev_Position incoming) = mono_kind p /\
             pos_Kind (md_EventPosition current) = mono_kind p) then
    if decide (pos_Value (ev_Position incoming) < pos_Value (md_EventPosition current))
    then Some ("older_" +:+ mono_kind p) else None
  else if decide (mono_fallbackTimestamp p = true /\ ev_SourceTimeKnown incoming = true /\ md_SourceTimeKnown current = true) then
    if decide (Time_Before (ev_SourceTime incoming) (md_SourceTime current))
    then Some "older_source_timestamp" else None
  else None.

Definition Arrival_Stale {E} (current : SnapshotMetadata) (incoming : MarketEvent E) : option string := None.

(** ** Reducers *)

(** What the reducer of a protocol promises: the states it returns have a kind
    and satisfy [data_ok], provided the previous one does. *)
Class Reducer (D E : Type) `{SnapshotData D} := {
  reduce : option error -> option D -> option E -> res (option D * Digest);
  data_ok : D -> Prop;
  reduce_ok : forall ctx_Err previous event d digest,
    (forall p, previous = Some p -> data_ok p) -> reduce ctx_Err previous event = Ok (Some d, digest) ->
    data_ok d /\ SnapshotKind d <> "" }.

(** ** The mirror *)

Record Mirror (D : Type) := mkMirror {
  mr_market : MarketID; mr_source : SourceID; mr_version : Z; mr_current : MarketSnapshot D;
  mr_hasState : bool; mr_health : string; mr_healthReason : string; mr_healthChangedAt : Time }.
Arguments mkMirror {D}.
Arguments mr_market {D}. Arguments mr_source {D}. Arguments mr_version {D}. Arguments mr_current {D}.
Arguments mr_hasState {D}. Arguments mr_health {D}. Arguments mr_healthReason {D}. Arguments mr_healthChangedAt {D}.

Section mirror.
Context {D E W : Type} `{!SnapshotData D, !Reducer D E}.
Context (Stale : SnapshotMetadata -> MarketEvent E -> option string).
Context (clock : W -> Time * W) (ctx_Err : option error).

Abbreviation State := (Mirror D * W)%type (only parsing).

(** The receiver, and the clock outside it. *)
Definition receiver : ST State (Mirror D) := fun s => (Ok s.1, s).
Definition set_receiver (m : Mirror D) : ST State unit := fun s => (Ok tt, (m, s.2)).
Definition read_clock : ST State Time := fun '(m, w) => let '(time, w') := clock w in (Ok time, (m, w')).
Definition check_ctx : ST State unit := fun s => (match ctx_Err with Some e => Err e | None => Ok tt end, s).

(** [NewMirror]: whether the reducer, the orderer and the clock are given. *)
Definition NewMirror (given : bool) (marketID : MarketID) (source : SourceID) : ST W (Mirror D) :=
  fun w =>
    if decide (marketID = "" \/ source = "" \/ given = false)
    then (Err (Errorf "market, source, reducer, orderer, and clock are required"), w) else
    let '(time, w') := clock w in
    (Ok (mkMirror marketID source 0 MarketSnapshot_zero false HealthHealthy "" time), w').

(** The event is stale with respect to the state the mirror has. *)
Definition stale_reason (m : Mirror D) (event : MarketEvent E) : option string :=
  if mr_hasState m then Stale (snap_metadata (mr_current m)) event else None.

Definition ignored (m : Mirror D) (reason : string) : ApplyResult D :=
  mkApplyResult ApplyDispositionIgnoredStale reason (mr_current m).

(** What is written before the snapshot is built. *)
Definition advance (m : Mirror D) (appliedAt : Time) : Mirror D :=
  mkMirror (mr_market m) (mr_source m) (uint64 (mr_version m + 1)) (mr_current m) (mr_hasState m) HealthHealthy ""
    (if decide (mr_health m <> HealthHealthy \/ Time_IsZero (mr_healthChangedAt m)) then appliedAt else mr_healthChangedAt m).

Definition event_metadata (m : Mirror D) (event : MarketEvent E) (appliedAt : Time) (stateHash : Digest) : SnapshotMetadata :=
  mkSnapshotMetadata (mr_market m) (mr_source m) (mr_version m) (ev_Position event) (ev_Reference event)
    (ev_Finality event) (ev_SourceTime event) (ev_SourceTimeKnown event) (ev_ReceivedAt event) appliedAt
    (mr_health m) (mr_healthReason m) (mr_healthChangedAt m) stateHash.

Definition publish (m : Mirror D) (snapshot : MarketSnapshot D) : Mirror D :=
  mkMirror (mr_market m) (mr_source m) (mr_version m) snapshot true (mr_health m) (mr_healthReason m) (mr_healthChangedAt m).

Definition applyLocked (event : MarketEvent E) (reset : bool) : ST State (ApplyResult D) :=
  m ← receiver;
  match (if reset then None else stale_reason m event) with
  | Some reason => mret (ignored m reason)
  | None =>
      let previous := if mr_hasState m && negb reset then snap_data (mr_current m) else None in
      '(data, stateHash) ← lift (reduce ctx_Err previous (ev_Data event));
      appliedAt ← read_clock;
      let m := advance m appliedAt in
      _ ← set_receiver m;
      snapshot ← lift (NewMarketSnapshot (event_metadata m event appliedAt stateHash) data);
      _ ← set_receiver (publish m snapshot);
      mret (mkApplyResult ApplyDispositionApplied "" snapshot)
  end.

Definition Apply (event : MarketEvent E) : ST State (ApplyResult D) :=
  _ ← check_ctx;
  m ← receiver;
  if decide (ev_Market event <> mr_market m \/ ev_Source event <> mr_source m)
  then fail "event market/source does not match mirror" else
  match stale_reason m event with
  | Some reason => mret (ignored m reason)
  | None => applyLocked event false
  end.

Definition Reset (event : MarketEvent E) : ST State (ApplyResult D) :=
  _ ← check_ctx;
  m ← receiver;
  if decide (ev_Market event <> mr_market m \/ ev_Source event <> mr_source m)
  then fail "event market/source does not match mirror" else applyLocked event true.

Definition Current (m : Mirror D) : MarketSnapshot D * bool := (mr_current m, mr_hasState m).

Definition set_health (m : Mirror D) (u : HealthUpdate) : Mirror D :=
  mkMirror (mr_market m) (mr_source m) (mr_version m) (mr_current m) (mr_hasState m)
    (hu_Health u) (hu_Reason u) (hu_ObservedAt u).

Definition health_metadata (md : SnapshotMetadata) (u : HealthUpdate) : SnapshotMetadata :=
  mkSnapshotMetadata (md_Market md) (md_Source md) (md_Version md) (md_EventPosition md) (md_EventReference md)
    (md_Finality md) (md_SourceTime md) (md_SourceTimeKnown md) (md_ReceivedAt md) (md_AppliedAt md)
    (hu_Health u) (hu_Reason u) (hu_ObservedAt u) (md_StateHash md).

Definition SetHealth (update : HealthUpdate) : ST State unit :=
  _ ← check_ctx;
  _ ← lift (HealthUpdate_Validate update);
  m ← receiver;
  if decide (mr_health m = hu_Health update /\ mr_healthReason m = hu_Reason update) then mret tt else
  let m := set_health m update in
  _ ← set_receiver m;
  if mr_hasState m then
    snapshot ← lift (NewMarketSnapshot (health_metadata (snap_metadata (mr_current m)) update) (snap_data (mr_current m)));
    set_receiver (publish m snapshot)
  else mret tt.

(** ** What a call does *)

(** The call of the reducer. *)
Definition reduced (reset : bool) (event : MarketEvent E) (m : Mirror D) : res (option D * Digest) :=
  reduce ctx_Err (if mr_hasState m && negb reset then snap_data (mr_current m) else None) (ev_Data event).

(** The receiver before and after a call that applies or resets. *)
Inductive stepped (reset : bool) (event : MarketEvent E) (m : Mirror D) : res (ApplyResult D) -> Mirror D -> Prop :=
| stepped_ignored reason :
    reset = false -> stale_reason m event = Some reason -> stepped reset event m (Ok (ignored m reason)) m
| stepped_failed r : (forall x, r <> Ok x) -> stepped reset event m r m
| stepped_refused t data stateHash e :
    (exists w, (clock w).1 = t) -> reduced reset event m = Ok (data, stateHash) ->
    NewMarketSnapshot (event_metadata (advance m t) event t stateHash) data = Err e ->
    stepped reset event m (Err e) (advance m t)
| stepped_applied t data stateHash snapshot :
    (exists w, (clock w).1 = t) -> (reset = false -> stale_reason m event = None) ->
    ev_Market event = mr_market m -> ev_Source event = mr_source m -> reduced reset event m = Ok (data, stateHash) ->
    NewMarketSnapshot (event_metadata (advance m t) event t stateHash) data = Ok snapshot ->
    stepped reset event m (Ok (mkApplyResult ApplyDispositionApplied "" snapshot)) (publish (advance m t) snapshot).

Lemma read_clock_run (m : Mirror D) w : exists t w', read_clock (m, w) = (Ok t, (m, w')) /\ clock w = (t, w').
Proof using. unfold read_clock. destruct (clock w) as [t w'] eqn:Hc. by exists t, w'. Qed.

Lemma NewMarketSnapshot_no_panic (md : SnapshotMetadata) (data : option D) : no_panic (NewMarketSnapshot md data).
Proof using. unfold NewMarketSnapshot. no_panic_auto. Qed.

Lemma applyLocked_stepped event reset m w :
  ev_Market event = mr_market m -> ev_Source event = mr_source m ->
  let '(r, (m', _)) := applyLocked event reset (m, w) in stepped reset event m r m'.
Proof using.
  intros Hm Hs. unfold applyLocked. rewrite (st_bind_run _ _ (m, w) m (m, w)) by done.
  destruct (if reset then None else stale_reason m event) as [reason|] eqn:Hstale.
  { destruct reset; [done|]. by apply stepped_ignored. }
  assert (reset = false -> stale_reason m event = None) as Hfresh by (by intros ->).
  cbv zeta. unfold mbind at 1, st_bind, lift at 1.
  destruct (reduce ctx_Err _ _) as [[data stateHash]|e|why] eqn:Hr; [|by apply stepped_failed..].
  destruct (read_clock_run m w) as (t & w1 & Hclock & Hat).
  assert (exists w, (clock w).1 = t) as Ht by (exists w; by rewrite Hat).
  rewrite (st_bind_run _ _ _ _ _ Hclock), (st_bind_run _ _ _ tt (advance m t, w1)) by done.
  unfold mbind at 1, st_bind, lift at 1.
  destruct (NewMarketSnapshot _ data) as [snapshot|e|why] eqn:Hn.
  - by eapply stepped_applied.
  - by eapply stepped_refused.
  - by apply NewMarketSnapshot_no_panic in Hn.
Qed.

Lemma check_ctx_run (s : State) :
  (ctx_Err = None /\ check_ctx s = (Ok tt, s)) \/ (exists e, ctx_Err = Some e /\ check_ctx s = (Err e, s)).
Proof using. unfold check_ctx. destruct ctx_Err as [e|]; [right; by exists e|by left]. Qed.

Lemma Apply_stepped event m w : let '(r, (m', _)) := Apply event (m, w) in stepped false event m r m'.
Proof using.
  unfold Apply. destruct (check_ctx_run (m, w)) as [[_ Hc]|(e & _ & Hc)].
  - rewrite (st_bind_run _ _ _ _ _ Hc), (st_bind_run _ _ (m, w) m (m, w)) by done.
    case_decide as Hd; [by apply stepped_failed|]. apply Decidable.not_or in Hd as [Hm Hs]. apply dec_stable in Hm, Hs.
    destruct (stale_reason m event) as [reason|] eqn:Hstale; [by apply stepped_ignored|by apply applyLocked_stepped].
  - unfold mbind, st_bind. rewrite Hc. by apply stepped_failed.
Qed.

Lemma Reset_stepped event m w : let '(r, (m', _)) := Reset event (m, w) in stepped true event m r m'.
Proof using.
  unfold Reset. destruct (check_ctx_run (m, w)) as [[_ Hc]|(e & _ & Hc)].
  - rewrite (st_bind_run _ _ _ _ _ Hc), (st_bind_run _ _ (m, w) m (m, w)) by done.
    case_decide as Hd; [by apply stepped_failed|]. apply Decidable.not_or in Hd as [Hm Hs]. apply dec_stable in Hm, Hs.
    by apply applyLocked_stepped.
  - unfold mbind, st_bind. rewrite Hc. by apply stepped_failed.
Qed.

(** A snapshot as the mirror publishes it. *)
Definition snapshot_of_market (market : MarketID) (source : SourceID) (s : MarketSnapshot D) : Prop :=
  metadata_ok (snap_metadata s) /\ md_Market (snap_metadata s) = market /\ md_Source (snap_metadata s) = source /\
  exists d, snap_data s = Some d /\ data_ok d /\ SnapshotKind d <> "".

Record mirror_ok (m : Mirror D) : Prop := {
  mo_market : mr_market m <> "";
  mo_source : mr_source m <> "";
  mo_health : health_ok (mr_health m) (mr_healthReason m);
  mo_current : mr_hasState m = true -> snapshot_of_market (mr_market m) (mr_source m) (mr_current m) }.

(** The health of the published snapshot is the mirror's. *)
Definition in_sync (m : Mirror D) : Prop :=
  mr_hasState m = true ->
  md_Health (snap_metadata (mr_current m)) = mr_health m /\ md_HealthReason (snap_metadata (mr_current m)) = mr_healthReason m /\
  md_HealthChangedAt (snap_metadata (mr_current m)) = mr_healthChangedAt m.

Lemma advance_ok m t : mirror_ok m -> mirror_ok (advance m t).
Proof using. intros [Hm Hs _ Hc]. split; cbn; [done|done|by left|done]. Qed.

Lemma previous_ok m reset :
  mirror_ok m -> forall p, (if mr_hasState m && negb reset then snap_data (mr_current m) else None) = Some p -> data_ok p.
Proof using.
  intros Hok p. destruct (mr_hasState m) eqn:Hst; [|done]. destruct reset; [done|]. cbn.
  destruct (mo_current m Hok Hst) as (_ & _ & _ & d & Hd & Hdok & _). rewrite Hd. by intros [= <-].
Qed.

Lemma stepped_ok reset event m r m' : mirror_ok m -> stepped reset event m r m' -> mirror_ok m'.
Proof using.
  intros Hok [reason _ _|r0 _|t data stateHash e _ _ _|t data stateHash snapshot _ _ Hm Hs Hr Hn]; [done|done|by apply advance_ok|].
  pose proof (advance_ok m t Hok) as [Hm' Hs' Hh _]. split; [done|done|done|]. intros _.
  apply NewMarketSnapshot_inv in Hn as (-> & Hmd & d & -> & Hk).
  destruct (reduce_ok _ _ _ _ _ (previous_ok m reset Hok) Hr) as [Hd _].
  split; [done|]. split; [done|]. split; [done|]. by exists d.
Qed.

(** Only an applied event changes what the mirror publishes. *)
Lemma stepped_published reset event m r m' :
  stepped reset event m r m' ->
  mr_market m' = mr_market m /\ mr_source m' = mr_source m /\
  ((exists snapshot, r = Ok (mkApplyResult ApplyDispositionApplied "" snapshot) /\ mr_current m' = snapshot /\ mr_hasState m' = true) \/
   (mr_current m' = mr_current m /\ mr_hasState m' = mr_hasState m /\
    forall x, r = Ok x -> ar_Disposition x = ApplyDispositionIgnoredStale)).
Proof using.
  intros [reason _ _|r0 Hr|t data stateHash e _ _ _|t data stateHash snapshot _ _ _ _ _ _]; (split; [done|]); (split; [done|]).
  - right. split; [done|]. split; [done|]. by intros x [= <-].
  - right. split; [done|]. split; [done|]. intros x ->. by destruct (Hr x).
  - by right.
  - left. by exists snapshot.
Qed.

Lemma health_metadata_ok md u :
  metadata_ok md -> health_ok (hu_Health u) (hu_Reason u) -> hu_ObservedAt u <> 0 -> metadata_ok (health_metadata md u).
Proof using.
  intros (H1 & H2 & H3 & H4 & H5 & H6 & H7 & _ & _) Hh Ht.
  exact (conj H1 (conj H2 (conj H3 (conj H4 (conj H5 (conj H6 (conj H7 (conj Ht Hh)))))))).
Qed.

(** [SetHealth] publishes a valid update, or does nothing. *)
Lemma SetHealth_run update m w :
  mirror_ok m ->
  let '(r, (m', _)) := SetHealth update (m, w) in
  m' = m \/
  (r = Ok tt /\ health_ok (hu_Health update) (hu_Reason update) /\ hu_ObservedAt update <> 0 /\
   m' = if mr_hasState m
        then publish (set_health m update)
               (mkMarketSnapshot (health_metadata (snap_metadata (mr_current m)) update) (snap_data (mr_current m)))
        else set_health m update).
Proof using.
  intros Hok. unfold SetHealth. destruct (check_ctx_run (m, w)) as [[_ Hc]|(e & _ & Hc)];
    [|unfold mbind, st_bind; rewrite Hc; by left].
  rewrite (st_bind_run _ _ _ _ _ Hc). unfold mbind at 1, st_bind, lift at 1.
  destruct (HealthUpdate_Validate update) as [[]|e|why] eqn:Hv; [|by left..].
  apply HealthUpdate_Validate_Ok in Hv as [Hh Ht]. rewrite (st_bind_run _ _ (m, w) m (m, w)) by done.
  case_decide; [by left|]. cbv zeta. rewrite (st_bind_run _ _ (m, w) tt (set_health m update, w)) by done.
  change (mr_hasState (set_health m update)) with (mr_hasState m).
  destruct (mr_hasState m) eqn:Hst; [|by right]. destruct (mo_current m Hok Hst) as (Hmd & _ & _ & d & Hd & _ & Hk).
  unfold mbind, st_bind, lift. cbn [mr_current set_health]. rewrite Hd, NewMarketSnapshot_Ok; [by right| |done].
  by apply health_metadata_ok.
Qed.

Lemma SetHealth_ok update m w : mirror_ok m -> mirror_ok (SetHealth update (m, w)).2.1.
Proof using.
  intros Hok. pose proof (SetHealth_run update m w Hok) as H. destruct (SetHealth update (m, w)) as [r [m' w']]. cbn.
  destruct H as [->|(_ & Hh & Ht & ->)]; [done|]. destruct Hok as [Hm Hs Hh0 Hcur]. destruct (mr_hasState m) eqn:Hst.
  - split; [done|done|done|]. intros _. destruct (Hcur eq_refl) as (Hmd & Hcm & Hcs & Hd).
    exact (conj (health_metadata_ok _ _ Hmd Hh Ht) (conj Hcm (conj Hcs Hd))).
  - by split; cbn; rewrite ?Hst.
Qed.

Lemma SetHealth_in_sync update m w : mirror_ok m -> in_sync m -> in_sync (SetHealth update (m, w)).2.1.
Proof using.
  intros Hok Hsync. pose proof (SetHealth_run update m w Hok) as H. destruct (SetHealth update (m, w)) as [r [m' w']]. cbn.
  destruct H as [->|(_ & _ & _ & ->)]; [done|]. destruct (mr_hasState m) eqn:Hst; [by intros _|]. intros Hst'. cbn in Hst'. congruence.
Qed.

Lemma SetHealth_version update m w :
  mirror_ok m ->
  let m' := (SetHealth update (m, w)).2.1 in
  mr_version m' = mr_version m /\ mr_hasState m' = mr_hasState m /\ snap_Version (mr_current m') = snap_Version (mr_current m).
Proof using.
  intros Hok. pose proof (SetHealth_run update m w Hok) as H. destruct (SetHealth update (m, w)) as [r [m' w']]. cbn.
  destruct H as [->|(_ & _ & _ & ->)]; [done|]. by destruct (mr_hasState m) eqn:Hst.
Qed.
End mirror.

(** ** The life of a mirror *)

Section lifecycle.
Context {D E W : Type} `{!SnapshotData D, !Reducer D E}.
Context (Stale : SnapshotMetadata -> MarketEvent E -> option string) (clock : W -> Time * W).

(** The version a call published. *)
Definition published_version (r : res (ApplyResult D)) : list Z :=
  match r with
  | Ok x => if decide (ar_Disposition x = ApplyDispositionApplied) then [snap_Version (ar_Snapshot x)] else []
  | _ => []
  end.

(** A mirror after [n] calls, with the versions it published, the latest first.
    Every call has its own context and what happens outside between two calls is
    arbitrary. *)
Inductive mirrored : nat -> list Z -> Mirror D -> Prop :=
| mirrored_new given marketID source w m w' : NewMirror clock given marketID source w = (Ok m, w') -> mirrored 0 [] m
| mirrored_apply n versions m ctx_Err event w r m' w' :
    mirrored n versions m -> Apply Stale clock ctx_Err event (m, w) = (r, (m', w')) ->
    mirrored (S n) (published_version r ++ versions) m'
| mirrored_reset n versions m ctx_Err event w r m' w' :
    mirrored n versions m -> Reset Stale clock ctx_Err event (m, w) = (r, (m', w')) ->
    mirrored (S n) (published_version r ++ versions) m'
| mirrored_health n versions m ctx_Err update w r m' w' :
    mirrored n versions m -> SetHealth (W := W) ctx_Err update (m, w) = (r, (m', w')) ->
    mirrored (S n) versions m'.

Lemma NewMirror_ok given marketID source w m w' :
  NewMirror clock given marketID source w = (Ok m, w') ->
  mirror_ok (E := E) m /\ mr_hasState m = false /\ mr_version m = 0.
Proof using.
  unfold NewMirror. case_decide as Hd; [done|]. destruct (clock w) as [t w1]. intros [= <- <-].
  apply Decidable.not_or in Hd as [Hm Hd]. apply Decidable.not_or in Hd as [Hs _].
  split; [|done]. split; cbn; [done|done|by left|done].
Qed.

(** The counter bounds the versions, which fall from the latest. *)
Definition versions_ok (n : nat) (versions : list Z) (m : Mirror D) : Prop :=
  0 <= mr_version m <= Z.of_nat n /\ Forall (fun v => v <= mr_version m) versions /\ StronglySorted Z.gt versions /\
  head versions = if mr_hasState m then Some (snap_Version (mr_current m)) else None.

Lemma stepped_versions ctx_Err reset event n versions m r m' :
  Z.of_nat (S n) < 2 ^ 64 -> stepped Stale clock ctx_Err reset event m r m' -> versions_ok n versions m ->
  versions_ok (S n) (published_version r ++ versions) m'.
Proof using.
  intros Hn Hstep (Hv & Hall & Hsorted & Hhead).
  assert (uint64 (mr_version m + 1) = mr_version m + 1) as Hnext by (apply Z.mod_small; lia).
  assert (forall t, versions_ok (S n) versions (advance m t)) as Hadv.
  { intros t. unfold versions_ok. cbn [mr_version advance]. rewrite Hnext. split; [lia|]. split; [|done].
    eapply Forall_impl; [exact Hall|]. cbn. lia. }
  destruct Hstep as [reason _ _|r0 Hr|t data stateHash e _ _ _|t data stateHash snapshot _ _ _ _ _ Hsnap]; cbn [published_version].
  - cbn. split; [lia|done].
  - replace (published_version r0) with (@nil Z) by (destruct r0 as [x|e|why]; [by destruct (Hr x)|done..]).
    cbn. split; [lia|done].
  - apply Hadv.
  - cbn [ar_Disposition ar_Snapshot]. rewrite decide_True by done. apply NewMarketSnapshot_inv in Hsnap as (-> & _ & _).
    unfold snap_Version. cbn [snap_metadata event_metadata md_Version advance mr_version]. rewrite Hnext.
    unfold versions_ok. cbn [publish advance mr_version mr_hasState mr_current]. rewrite Hnext. split; [lia|].
    split; [constructor; [lia|eapply Forall_impl; [exact Hall|]; cbn; lia]|]. split; [|cbn; by rewrite Hnext].
    constructor; [done|]. eapply Forall_impl; [exact Hall|]. cbn. lia.
Qed.

Lemma mirrored_ok n versions m : mirrored n versions m -> mirror_ok (E := E) m.
Proof using.
  induction 1 as [given k src w m w' Hnew|n vs m c ev w r m' w' _ IH Hrun|n vs m c ev w r m' w' _ IH Hrun|n vs m c u w r m' w' _ IH Hrun].
  - by eapply NewMirror_ok.
  - pose proof (Apply_stepped Stale clock c ev m w) as H. rewrite Hrun in H. by eapply stepped_ok.
  - pose proof (Reset_stepped Stale clock c ev m w) as H. rewrite Hrun in H. by eapply stepped_ok.
  - pose proof (SetHealth_ok (W := W) c u m w IH) as H. by rewrite Hrun in H.
Qed.

Lemma mirrored_versions n versions m : mirrored n versions m -> Z.of_nat n < 2 ^ 64 -> versions_ok n versions m.
Proof using.
  intros Hm Hn. induction Hm as [given k src w m w' Hnew|n vs m c ev w r m' w' Hm IH Hrun|n vs m c ev w r m' w' Hm IH Hrun|n vs m c u w r m' w' Hm IH Hrun].
  - apply NewMirror_ok in Hnew as (_ & Hst & Hv). unfold versions_ok. rewrite Hst, Hv. split; [lia|]. repeat constructor.
  - pose proof (Apply_stepped Stale clock c ev m w) as H. rewrite Hrun in H. eapply stepped_versions; [done..|apply IH; lia].
  - pose proof (Reset_stepped Stale clock c ev m w) as H. rewrite Hrun in H. eapply stepped_versions; [done..|apply IH; lia].
  - pose proof (SetHealth_version (W := W) c u m w (mirrored_ok _ _ _ Hm)) as H. rewrite Hrun in H. destruct H as (Hv & Hst & Hc).
    unfold versions_ok. cbn [fst snd] in *. rewrite Hv, Hst, Hc. destruct (IH ltac:(lia)) as (? & ? & ? & ?). split; [lia|done].
Qed.

(** C28. After any calls on a mirror, successful or not, the snapshot it holds is a
    well-formed one of its market with data its reducer vouches for, and the versions
    it published are strictly increasing, the last one being the version of the
    snapshot it holds: a reset never reuses a version.  The counter is a [uint64],
    so this is for fewer than [2^64] calls. *)
Theorem mirror_versions n versions m :
  mirrored n versions m -> Z.of_nat n < 2 ^ 64 ->
  StronglySorted Z.gt versions /\
  (mr_hasState m = false -> versions = []) /\
  (mr_hasState m = true ->
     snapshot_of_market (mr_market m) (mr_source m) (mr_current m) /\ head versions = Some (snap_Version (mr_current m))).
Proof using.
  intros Hm Hn. pose proof (mirrored_ok _ _ _ Hm) as Hok. destruct (mirrored_versions _ _ _ Hm Hn) as (_ & _ & Hs & Hh).
  split; [done|]. split; intros Hst; rewrite Hst in Hh; [by destruct versions|]. split; [by apply (mo_current m Hok)|done].
Qed.

(** ** Accepting an event *)

Lemma event_metadata_ok `{!EventData E} (m : Mirror D) event t stateHash :
  mirror_ok (E := E) m -> NewMarketEvent event = Ok event -> t <> 0 -> mr_version m + 1 < 2 ^ 64 -> 0 <= mr_version m ->
  metadata_ok (event_metadata (advance m t) event t stateHash).
Proof using.
  intros [Hm Hs _ _] He Ht Hv Hv0. unfold NewMarketEvent in He. res_inv.
  rewrite SourcePosition_Validate_Ok in Hx. rewrite SourceReference_Validate_Ok in Hx0. unfold Time_IsZero in *.
  split; [done|]. split; [done|]. split; [cbn; unfold uint64; rewrite Z.mod_small; lia|].
  split; [done|]. split; [done|]. split; [done|]. split; [done|]. split; [cbn; case_decide; tauto|by left].
Qed.

(** A mirror whose published health is its own takes a validated event of its
    market either without changing anything, the event being stale or refused by the
    reducer, or by publishing the data of the reducer as a healthy snapshot under the
    next version and the position of the event; both ways its published health stays
    its own. *)
Theorem Apply_validated `{!EventData E} ctx_Err event m w r m' w' :
  mirror_ok (E := E) m -> in_sync m -> 0 <= mr_version m -> mr_version m + 1 < 2 ^ 64 ->
  NewMarketEvent event = Ok event ->
  (forall s, (clock s).1 <> 0) ->
  (forall previous digest, reduce ctx_Err previous (ev_Data event) <> Ok (None, digest)) ->
  Apply Stale clock ctx_Err event (m, w) = (r, (m', w')) ->
  in_sync m' /\
  ((m' = m /\ forall x, r = Ok x -> exists reason, stale_reason Stale m event = Some reason /\ x = ignored m reason) \/
   exists d digest, r = Ok (mkApplyResult ApplyDispositionApplied "" (mr_current m')) /\
     reduce ctx_Err (if mr_hasState m then snap_data (mr_current m) else None) (ev_Data event) = Ok (Some d, digest) /\
     mr_hasState m' = true /\ snap_data (mr_current m') = Some d /\
     snap_Version (mr_current m') = mr_version m + 1 /\ mr_health m' = HealthHealthy /\
     md_EventPosition (snap_metadata (mr_current m')) = ev_Position event /\
     md_StateHash (snap_metadata (mr_current m')) = digest).
Proof using.
  intros Hok Hsync Hv0 Hv He Hclock Hdata Hrun.
  pose proof (Apply_stepped Stale clock ctx_Err event m w) as Hstep. rewrite Hrun in Hstep.
  destruct Hstep as [reason _ Hstale|r0 Hr|t data digest e [s <-] Hr Hn|t data digest snapshot [s <-] _ _ _ Hr Hn].
  - split; [done|]. left. split; [done|]. intros x [= <-]. by exists reason.
  - split; [done|]. left. split; [done|]. intros x ->. by destruct (Hr x).
  - exfalso. unfold reduced in Hr. destruct data as [d|]; [|by eapply Hdata].
    destruct (reduce_ok _ _ _ _ _ (previous_ok m false Hok) Hr) as [_ Hk].
    by rewrite (NewMarketSnapshot_Ok _ _ (event_metadata_ok m event _ digest Hok He (Hclock s) Hv Hv0) Hk) in Hn.
  - unfold reduced in Hr. rewrite andb_true_r in Hr. destruct data as [d|]; [|by edestruct Hdata].
    apply NewMarketSnapshot_inv in Hn as (-> & _ & _). split; [by intros _|]. right.
    exists d, digest. repeat (split; [done|]). split; [|done]. cbn. apply Z.mod_small. lia.
Qed.
End lifecycle.

(** ** Ordering *)

Section ordering.
Context {D E W : Type} `{!SnapshotData D, !Reducer D E}.
Context (p : Monotonic) (clock : W -> Time * W) (ctx_Err : option error).

(** The events of a feed applied in turn; a feed drops the results. *)
Definition apply_all (events : list (MarketEvent E)) (s : Mirror D * W) : Mirror D * W :=
  foldl (fun s event => (Apply (Monotonic_Stale p) clock ctx_Err event s).2) s events.

(** An applied event becomes the position of the mirror. *)
Lemma Apply_position event m w :
  let m' := (Apply (Monotonic_Stale p) clock ctx_Err event (m, w)).2.1 in
  (mr_current m' = mr_current m /\ mr_hasState m' = mr_hasState m) \/
  (stale_reason (Monotonic_Stale p) m event = None /\ mr_hasState m' = true /\
   md_EventPosition (snap_metadata (mr_current m')) = ev_Position event /\
   md_SourceTime (snap_metadata (mr_current m')) = ev_SourceTime event /\
   md_SourceTimeKnown (snap_metadata (mr_current m')) = ev_SourceTimeKnown event).
Proof using.
  pose proof (Apply_stepped (Monotonic_Stale p) clock ctx_Err event m w) as Hstep.
  destruct (Apply _ _ _ _ _) as [r [m' w']]. cbn.
  destruct Hstep as [reason _ _|r0 _|t data stateHash e _ _ _|t data stateHash snapshot _ Hst _ _ _ Hn]; [by left..|].
  right. apply NewMarketSnapshot_inv in Hn as (-> & _ & _). by rewrite Hst.
Qed.

(** Under a monotonic policy a feed never moves a mirror back: while the events
    are positioned by the kind the policy orders, the position of the snapshot only
    grows; while they are not but carry their time, and the policy falls back to it,
    the source time only grows. *)
Theorem monotonic_never_back events m w :
  mr_hasState m = true ->
  let before := snap_metadata (mr_current m) in
  let after := snap_metadata (mr_current (apply_all events (m, w)).1) in
  (mono_kind p <> "" -> pos_Kind (md_EventPosition before) = mono_kind p ->
   Forall (fun event => pos_Kind (ev_Position event) = mono_kind p) events ->
   pos_Kind (md_EventPosition after) = mono_kind p /\
   pos_Value (md_EventPosition before) <= pos_Value (md_EventPosition after)) /\
  (mono_fallbackTimestamp p = true -> md_SourceTimeKnown before = true ->
   Forall (fun event => ev_SourceTimeKnown event = true /\ (mono_kind p = "" \/ pos_Kind (ev_Position event) <> mono_kind p)) events ->
   md_SourceTimeKnown after = true /\ md_SourceTime before <= md_SourceTime after).
Proof using.
  revert m w. induction events as [|event events IH]; intros m w Hst; [by split|]. cbv zeta. unfold apply_all. cbn [foldl].
  fold (apply_all events (Apply (Monotonic_Stale p) clock ctx_Err event (m, w)).2).
  pose proof (Apply_position event m w) as Hpos. destruct (Apply _ _ _ _ _) as [r [m1 w1]]. cbn [fst snd] in *.
  destruct Hpos as [[Hc Hst1]|(Hstale & Hst1 & Hp & Ht & Hk)].
  - rewrite <- Hst1 in Hst. destruct (IH m1 w1 Hst) as [IHp IHt]. rewrite Hc in IHp, IHt.
    split; intros ? ? Hall; apply Forall_cons in Hall as [_ Hall]; auto.
  - destruct (IH m1 w1 Hst1) as [IHp IHt]. rewrite Hp in IHp. rewrite Ht, Hk in IHt.
    unfold stale_reason, Monotonic_Stale in Hstale. rewrite Hst in Hstale.
    split; intros Hcond Hbefore [Hev Hall]%Forall_cons.
    + destruct (IHp Hcond Hev Hall) as [? ?]. split; [done|]. rewrite decide_True in Hstale by done.
      destruct (decide _) as [|Hle] in Hstale; [done|lia].
    + destruct Hev as [Hknown Hkind]. destruct (IHt Hcond Hknown Hall) as [? ?]. split; [done|].
      rewrite decide_False, decide_True in Hstale by tauto.
      destruct (decide _) as [|Hle] in Hstale; [done|]. unfold Time_Before in Hle. lia.
Qed.
End ordering.
