(* ===== verification/RouteMirror.v ===== *)
(** * Route mirrors (src/core/marketstate/route.go)

    A route mirror composes the mirrors of the pools of a route into one snapshot.
    It is proved against the interface [FeedMirror] of its children (the interface
    of src/ports/feed/feed.go) and its laws; the mirror of MarketState and the route
    mirror itself are instances, so routes nest.  Theorem: a call that
    applied something leaves the route with the current snapshots of all its
    children and their health, or without state when a child has none. *)
From S2P Require Import Prelude Amount Quote MarketState.
Local Open Scope Z_scope.

(** ** The interface of the children *)

Class FeedMirror (C W D E : Type) `{SnapshotData D} := {
  fm_MarketID : C -> MarketID;
  fm_Apply : option error -> MarketEvent E -> ST (C * W) (ApplyResult D);
  fm_Reset : option error -> MarketEvent E -> ST (C * W) (ApplyResult D);
  fm_SetHealth : option error -> HealthUpdate -> ST (C * W) unit;
  fm_Current : C -> MarketSnapshot D * bool;
  fm_Health : C -> string }.

(** The type of the mirror determines its interface. *)
#[export] Hint Mode SnapshotData ! : typeclass_instances.
#[export] Hint Mode FeedMirror ! - - - - : typeclass_instances.

(** [keeps ok m Q]: a call of [m] on a mirror that is [ok] leaves it so, under the
    same identity, and a value it returns satisfies [Q]. *)
Definition keeps {C W A} (ok : C -> Prop) (identity : C -> MarketID) (m : ST (C * W) A) (Q : A -> Prop) : Prop :=
  forall c w, ok c -> let '(r, (c', _)) := m (c, w) in
    ok c' /\ identity c' = identity c /\ match r with Ok a => Q a | _ => True end.

Class FeedMirrorLaws (C W D E : Type) `{FeedMirror C W D E} := {
  fm_ok : C -> Prop;
  fm_Apply_ok ctx event : keeps fm_ok fm_MarketID (fm_Apply ctx event) (fun x => metadata_ok (snap_metadata (ar_Snapshot x)));
  fm_Reset_ok ctx event : keeps fm_ok fm_MarketID (fm_Reset ctx event) (fun x => metadata_ok (snap_metadata (ar_Snapshot x)));
  fm_SetHealth_ok ctx update : keeps fm_ok fm_MarketID (fm_SetHealth ctx update) (fun _ => True);
  fm_Current_ok c s : fm_ok c -> fm_Current c = (s, true) -> metadata_ok (snap_metadata s) /\ snap_Market s = fm_MarketID c }.

(** ** The mirror of one market *)

Section mirror.
Context {D E W : Type} `{!SnapshotData D, !Reducer D E}.
Context (Stale : SnapshotMetadata -> MarketEvent E -> option string) (clock : W -> Time * W).

#[export] Instance mirror_feed : FeedMirror (Mirror D) W D E := {|
  fm_MarketID := mr_market; fm_Apply := Apply Stale clock; fm_Reset := Reset Stale clock;
  fm_SetHealth := SetHealth; fm_Current := Current; fm_Health := mr_health |}.

Lemma stepped_result ctx reset event (m : Mirror D) r m' :
  mirror_ok (E := E) m -> stepped Stale clock ctx reset event m r m' ->
  match r with Ok x => metadata_ok (snap_metadata (ar_Snapshot x)) | _ => True end.
Proof.
  intros Hok [reason _ Hstale|r0 Hr|t data stateHash e _ _ _|t data stateHash snapshot _ _ _ _ _ Hn]; cbn; try done.
  - unfold stale_reason in Hstale. destruct (mr_hasState m) eqn:Hst; [|done]. by destruct (mo_current m Hok Hst).
  - destruct r0 as [x|e|why]; [by destruct (Hr x)|done..].
  - by apply NewMarketSnapshot_inv in Hn as (-> & ? & _).
Qed.

#[export] Instance mirror_feed_laws : FeedMirrorLaws (Mirror D) W D E.
Proof.
  refine {| fm_ok := mirror_ok |}.
  - intros ctx event m w Hok. pose proof (Apply_stepped Stale clock ctx event m w) as Hs. cbn.
    destruct (Apply _ _ _ _ _) as [r [m' w']]. split; [by eapply stepped_ok|].
    split; [by eapply stepped_published|by eapply stepped_result].
  - intros ctx event m w Hok. pose proof (Reset_stepped Stale clock ctx event m w) as Hs. cbn.
    destruct (Reset _ _ _ _ _) as [r [m' w']]. split; [by eapply stepped_ok|].
    split; [by eapply stepped_published|by eapply stepped_result].
  - intros ctx update m w Hok. pose proof (SetHealth_ok (W := W) ctx update m w Hok) as Hok'.
    pose proof (SetHealth_run (W := W) ctx update m w Hok) as Hrun. cbn.
    destruct (SetHealth _ _ _) as [r [m' w']]. split; [done|]. split; [|by destruct r].
    destruct Hrun as [->|(_ & _ & _ & ->)]; [done|by destruct (mr_hasState m)].
  - intros m s Hok Hc. cbn in Hc. unfold Current in Hc. injection Hc as <- Hst.
    destruct (mo_current m Hok Hst) as (? & ? & _). done.
Defined.
End mirror.

(** ** The route mirror *)

(** The payload of a route's results: a child's, or a bundle. *)
Inductive RouteData (D : Type) : Type :=
| ChildData (data : D)
| BundleData (bundle : SnapshotBundle D).
Arguments ChildData {D} data.
Arguments BundleData {D} bundle.

#[export] Instance RouteData_kind {D} `{SnapshotData D} : SnapshotData (RouteData D) := fun data =>
  match data with ChildData d => SnapshotKind d | BundleData _ => "market_snapshot_bundle/v1" end.

Definition child_snapshot {D} (s : MarketSnapshot D) : MarketSnapshot (RouteData D) :=
  mkMarketSnapshot (snap_metadata s) (ChildData <$> snap_data s).
Definition child_result {D} (x : ApplyResult D) : ApplyResult (RouteData D) :=
  mkApplyResult (ar_Disposition x) (ar_Reason x) (child_snapshot (ar_Snapshot x)).

Record RouteMirror (C D : Type) := mkRouteMirror {
  rt_route : MarketID; rt_source : SourceID; rt_children : gmap MarketID C; rt_order : list MarketID;
  rt_version : Z; rt_current : MarketSnapshot (RouteData D); rt_hasState : bool; rt_health : string }.
Arguments mkRouteMirror {C D}.
Arguments rt_route {C D}. Arguments rt_source {C D}. Arguments rt_children {C D}. Arguments rt_order {C D}.
Arguments rt_version {C D}. Arguments rt_current {C D}. Arguments rt_hasState {C D}. Arguments rt_health {C D}.

Definition set_children {C D} (r : RouteMirror C D) (children : gmap MarketID C) : RouteMirror C D :=
  mkRouteMirror (rt_route r) (rt_source r) children (rt_order r) (rt_version r) (rt_current r) (rt_hasState r) (rt_health r).

Section route.
Context {C W D E : Type} `{FeedMirror C W D E} `{!RangeOrder MarketID}.
Context (clock : W -> Time * W) (sha256 : string -> Digest) (ctx_Err : option error).

Abbreviation State := (RouteMirror C D * W)%type (only parsing).

Definition route_receiver : ST State (RouteMirror C D) := fun s => (Ok s.1, s).
Definition set_route (r : RouteMirror C D) : ST State unit := fun s => (Ok tt, (r, s.2)).
Definition route_clock : ST State Time := fun '(r, w) => let '(time, w') := clock w in (Ok time, (r, w')).

(** A call on a child, which the route owns. *)
Definition child_call {A} (id : MarketID) (m : ST (C * W) A) : ST State A := fun '(r, w) =>
  match rt_children r !! id with
  | None => (Panic "nil child mirror", (r, w))
  | Some c => let '(x, (c', w')) := m (c, w) in (x, (set_children r (<[id := c']> (rt_children r)), w'))
  end.

(** [NewRouteMirror]: a child may be nil; [given] is whether the clock is set. *)
Definition add_child (acc : gmap MarketID C * list MarketID) (child : option C) : res (gmap MarketID C * list MarketID) :=
  match child with
  | None => Err (Errorf "route child mirror is required")
  | Some c =>
      if decide (fm_MarketID c = "") then Err (Errorf "route child mirror is required") else
      if decide (is_Some (acc.1 !! fm_MarketID c)) then Err (Errorf "duplicate route child %q") else
      Ok (<[fm_MarketID c := c]> acc.1, acc.2 ++ [fm_MarketID c])
  end.

Definition NewRouteMirror (given : bool) (route : MarketID) (source : SourceID) (children : list (option C)) :
    res (RouteMirror C D) :=
  if decide (route = "" \/ source = "" \/ children = [] \/ given = false)
  then Err (Errorf "route, source, children, and clock are required") else
  '(byID, order) ← foldM add_child (∅, []) children;
  Ok (mkRouteMirror route source byID order 0 MarketSnapshot_zero false HealthHealthy).

(** The loop that collects the snapshots; [Ok None] is its early return. *)
Fixpoint current_snapshots (children : gmap MarketID C) (order : list MarketID) : res (option (list (MarketSnapshot D))) :=
  match order with
  | [] => Ok (Some [])
  | id :: order =>
      match children !! id with
      | None => Panic "nil child mirror"
      | Some c =>
          let '(snapshot, ok) := fm_Current c in
          if negb ok then Ok None else
          rest ← current_snapshots children order;
          Ok (option_map (cons snapshot) rest)
      end
  end.

Definition degraded_child (children : gmap MarketID C) (id : MarketID) : bool :=
  match children !! id with Some c => bool_decide (fm_Health c = HealthDegraded) | None => false end.
Definition route_degraded (children : gmap MarketID C) (order : list MarketID) : bool :=
  existsb (degraded_child children) order.

Definition route_advance (r : RouteMirror C D) (health : string) : RouteMirror C D :=
  mkRouteMirror (rt_route r) (rt_source r) (rt_children r) (rt_order r) (uint64 (rt_version r + 1)) (rt_current r)
    (rt_hasState r) health.

Definition route_metadata (r : RouteMirror C D) (md : SnapshotMetadata) (at_ : Time) (reason : string) (hash : Digest) :
    SnapshotMetadata :=
  mkSnapshotMetadata (rt_route r) (rt_source r) (rt_version r) (md_EventPosition md) (md_EventReference md)
    (md_Finality md) (md_SourceTime md) (md_SourceTimeKnown md) (md_ReceivedAt md) at_
    (rt_health r) reason at_ hash.

Definition route_publish (r : RouteMirror C D) (snapshot : MarketSnapshot (RouteData D)) : RouteMirror C D :=
  mkRouteMirror (rt_route r) (rt_source r) (rt_children r) (rt_order r) (rt_version r) snapshot true (rt_health r).
Definition route_forget (r : RouteMirror C D) : RouteMirror C D :=
  mkRouteMirror (rt_route r) (rt_source r) (rt_children r) (rt_order r) (rt_version r) (rt_current r) false (rt_health r).

Definition rebuildLocked (at_ : Time) (trigger : option (MarketSnapshot (RouteData D))) : ST State unit :=
  r ← route_receiver;
  found ← lift (current_snapshots (rt_children r) (rt_order r));
  match found with
  | None => set_route (route_forget r)
  | Some snapshots =>
      bundle ← lift (NewSnapshotBundle sha256 (rt_route r) snapshots);
      let degraded := route_degraded (rt_children r) (rt_order r) in
      let r := route_advance r (if degraded then HealthDegraded else HealthHealthy) in
      _ ← set_route r;
      metadata ← lift (match trigger with
                       | Some t => Ok (snap_metadata t)
                       | None => match last snapshots with Some s => Ok (snap_metadata s) | None => Panic "index out of range" end
                       end);
      snapshot ← lift (NewMarketSnapshot
        (route_metadata r metadata at_ (if degraded then "route_child_degraded" else "") (bundle_hash bundle))
        (Some (BundleData bundle)));
      set_route (route_publish r snapshot)
  end.

Definition Child (r : RouteMirror C D) (id : MarketID) : option C := rt_children r !! id.

Definition route_apply (event : MarketEvent E) (reset : bool) : ST State (ApplyResult (RouteData D)) :=
  r ← route_receiver;
  match Child r (ev_Market event) with
  | None => fail "event market %q is not a route child"
  | Some _ =>
      result ← child_call (ev_Market event) (if reset then fm_Reset ctx_Err event else fm_Apply ctx_Err event);
      let result := child_result result in
      if decide (ar_Disposition result = ApplyDispositionIgnoredStale) then mret result else
      now ← route_clock;
      _ ← rebuildLocked now (Some (ar_Snapshot result));
      mret result
  end.

Definition batch_step (reference : SourceReference) (b : ApplyResult (RouteData D) * bool) (event : MarketEvent E) :
    ST State (ApplyResult (RouteData D) * bool) :=
  if decide (SourceReference_Known reference /\ ev_Reference event <> reference)
  then fail "route event batch mixes source references" else
  r ← route_receiver;
  match Child r (ev_Market event) with
  | None => fail "event market %q is not a route child"
  | Some _ =>
      result ← wrapST "apply route batch event %d: %w" (child_call (ev_Market event) (fm_Apply ctx_Err event));
      mret (child_result result, if decide (ar_Disposition result = ApplyDispositionApplied) then true else b.2)
  end.

Definition ApplyResult_zero : ApplyResult (RouteData D) := mkApplyResult "" "" MarketSnapshot_zero.

Definition ApplyBatch (events : list (MarketEvent E)) : ST State (ApplyResult (RouteData D)) :=
  match events with
  | [] => fail "route event batch cannot be empty"
  | first :: _ =>
      '(last, applied) ← foldST (batch_step (ev_Reference first)) (ApplyResult_zero, false) events;
      if negb applied then mret last else
      now ← route_clock;
      _ ← rebuildLocked now (Some (ar_Snapshot last));
      r ← route_receiver;
      mret (mkApplyResult ApplyDispositionApplied "" (rt_current r))
  end.

Definition SetChildHealth (childID : MarketID) (update : HealthUpdate) : ST State unit :=
  r ← route_receiver;
  match Child r childID with
  | None => fail "unknown route child %q"
  | Some _ =>
      _ ← child_call childID (fm_SetHealth ctx_Err update);
      r ← route_receiver;
      if rt_hasState r then rebuildLocked (hu_ObservedAt update) None else mret tt
  end.

Definition RouteSetHealth (update : HealthUpdate) : ST State unit :=
  _ ← lift (HealthUpdate_Validate update);
  r ← route_receiver;
  _ ← for_each (fun p => wrapST "set health for %s: %w" (child_call p.1 (fm_SetHealth ctx_Err update))) (range (rt_children r));
  r ← route_receiver;
  if rt_hasState r then rebuildLocked (hu_ObservedAt update) None else mret tt.

Definition RouteApply (event : MarketEvent E) : ST State (ApplyResult (RouteData D)) := route_apply event false.
Definition RouteReset (event : MarketEvent E) : ST State (ApplyResult (RouteData D)) := route_apply event true.
Definition RouteCurrent (r : RouteMirror C D) : MarketSnapshot (RouteData D) * bool := (rt_current r, rt_hasState r).
End route.

(** ** Proofs *)

Section route_facts.
Context {C W D E : Type} `{FeedMirror C W D E} `{!FeedMirrorLaws C W D E} `{!RangeOrder MarketID}.
Context (clock : W -> Time * W) (sha256 : string -> Digest) (ctx_Err : option error).
Abbreviation State := (RouteMirror C D * W)%type (only parsing).
Implicit Types (r : RouteMirror C D) (s : State).

(** The identity of the route, which no call changes. *)
Context (identity : MarketID).

Record route_ok r : Prop := {
  ro_route : rt_route r = identity;
  ro_named : identity <> "";
  ro_source : rt_source r <> "";
  ro_some : rt_order r <> [];
  ro_NoDup : NoDup (rt_order r);
  ro_dom : forall id, id ∈ rt_order r <-> is_Some (rt_children r !! id);
  ro_child : forall id c, rt_children r !! id = Some c -> fm_ok c /\ fm_MarketID c = id;
  ro_current : rt_hasState r = true ->
    metadata_ok (snap_metadata (rt_current r)) /\ md_Market (snap_metadata (rt_current r)) = identity }.

(** The route carries the current snapshots of its children, in order, and is
    degraded exactly when a child is; or a child has no state and neither has the
    route. *)
Definition composed r : Prop :=
  if rt_hasState r then
    exists bundle, snap_data (rt_current r) = Some (BundleData bundle) /\
      Forall2 (fun id snapshot => exists c, rt_children r !! id = Some c /\ fm_Current c = (snapshot, true))
        (rt_order r) (bundle_snapshots bundle) /\
      md_StateHash (snap_metadata (rt_current r)) = bundle_hash bundle /\
      snap_Version (rt_current r) = rt_version r /\
      md_Health (snap_metadata (rt_current r)) = rt_health r /\
      (rt_health r = HealthDegraded <->
       exists id c, id ∈ rt_order r /\ rt_children r !! id = Some c /\ fm_Health c = HealthDegraded)
  else exists id c, rt_children r !! id = Some c /\ (fm_Current c).2 = false.

(** A call keeps the route well formed; its value and the state after satisfy [Q]. *)
Definition run_ok {A} s (m : ST State A) (Q : A -> State -> Prop) : Prop :=
  let '(x, s') := m s in route_ok s'.1 /\ forall a, x = Ok a -> Q a s'.

Lemma run_ok_bind {A B} s (m : ST State A) (f : A -> ST State B) Q R :
  run_ok s m Q -> (forall a s', route_ok s'.1 -> Q a s' -> run_ok s' (f a) R) -> run_ok s (m ≫= f) R.
Proof using.
  unfold run_ok, mbind, st_bind. destruct (m s) as [[a|e|why] s']; intros [Hok HQ] Hf; [|by split..].
  exact (Hf a s' Hok (HQ a eq_refl)).
Qed.

Lemma run_ok_ret {A} s (a : A) (Q : A -> State -> Prop) : route_ok s.1 -> Q a s -> run_ok s (mret a) Q.
Proof using. intros Hok HQ. split; [done|]. by intros a' [= <-]. Qed.

Lemma run_ok_fail {A} s format (Q : A -> State -> Prop) : route_ok s.1 -> run_ok s (fail format) Q.
Proof using. by split. Qed.

Lemma run_ok_lift {A} s (m : res A) (Q : A -> State -> Prop) :
  route_ok s.1 -> (forall a, m = Ok a -> Q a s) -> run_ok s (lift m) Q.
Proof using. by split. Qed.

Lemma run_ok_receiver s : route_ok s.1 -> run_ok s route_receiver (fun r s' => r = s.1 /\ s' = s).
Proof using. intros Hok. split; [done|]. by intros a [= <-]. Qed.

Lemma run_ok_clock s : route_ok s.1 -> run_ok s (route_clock clock) (fun _ s' => s'.1 = s.1).
Proof using. destruct s as [r w]. cbn. unfold run_ok. cbn. by destruct (clock w). Qed.

Lemma run_ok_wrap {A} s format (m : ST State A) Q : run_ok s m Q -> run_ok s (wrapST format m) Q.
Proof using.
  unfold run_ok, wrapST. destruct (m s) as [[a|e|why] s']; intros [Hok HQ]; (split; [done|]); [|by intros..].
  intros a' [= <-]. by apply HQ.
Qed.

(** A child call changes its child alone. *)
Lemma run_ok_child {A} s id (m : ST (C * W) A) (Q : A -> Prop) :
  route_ok s.1 -> keeps fm_ok fm_MarketID m Q ->
  run_ok s (child_call id m) (fun a s' => Q a /\ rt_version s'.1 = rt_version s.1 /\ rt_hasState s'.1 = rt_hasState s.1).
Proof using.
  intros Hok Hm. destruct s as [r w]. cbn [fst] in *. unfold run_ok, child_call. destruct (rt_children r !! id) as [c|] eqn:Hc; [|by split].
  destruct (ro_child r Hok id c Hc) as [Hcok Hid]. specialize (Hm c w Hcok).
  destruct (m (c, w)) as [x [c' w']]. destruct Hm as (Hcok' & Hid' & Hx). split; [|by intros a ->].
  destruct Hok as [H1 H1' H2 H3 H4 H5 H6 H7]. split; cbn [fst set_children rt_route rt_source rt_order rt_children rt_hasState rt_current]; try done.
  - intros id'. rewrite H5. destruct (decide (id = id')) as [<-|Hne].
    + rewrite lookup_insert_eq, Hc. split; by eexists.
    + by rewrite lookup_insert_ne.
  - intros id' c0 Hlk. apply lookup_insert_Some in Hlk as [[<- <-]|[_ Hlk]]; [by rewrite Hid'|by apply H6].
Qed.

Lemma current_snapshots_run r :
  route_ok r ->
  exists found, current_snapshots (rt_children r) (rt_order r) = Ok found /\
    match found with
    | Some snapshots =>
        Forall2 (fun id snapshot => exists c, rt_children r !! id = Some c /\ fm_Current c = (snapshot, true))
          (rt_order r) snapshots
    | None => exists id c, rt_children r !! id = Some c /\ (fm_Current c).2 = false
    end.
Proof using.
  intros Hok. assert (forall id, id ∈ rt_order r -> is_Some (rt_children r !! id)) as Hdom by (intros id; by apply (ro_dom r Hok)).
  revert Hdom. generalize (rt_order r). induction l as [|id order IH]; intros Hdom; [exists (Some []); by split|].
  cbn [current_snapshots]. destruct (Hdom id (list_elem_of_here id order)) as [c Hc]. rewrite Hc. destruct (fm_Current c) as [snapshot [|]] eqn:Hcur.
  - destruct IH as (found & -> & Hf); [intros id' Hin; apply Hdom; by right|].
    destruct found as [snapshots|]; cbn; [|by exists None]. exists (Some (snapshot :: snapshots)). split; [done|].
    constructor; [|done]. by exists c.
  - cbn. exists None. split; [done|]. exists id, c. by rewrite Hcur.
Qed.

Lemma bundle_of_snapshots route (snapshots : list (MarketSnapshot D)) bundle :
  NewSnapshotBundle sha256 route snapshots = Ok bundle -> bundle_snapshots bundle = snapshots.
Proof using. unfold NewSnapshotBundle. intros Hb. res_inv. by subst. Qed.

Lemma route_degraded_iff (children : gmap MarketID C) order :
  route_degraded children order = true <->
  exists id c, id ∈ order /\ children !! id = Some c /\ fm_Health c = HealthDegraded.
Proof using.
  unfold route_degraded. rewrite existsb_exists. unfold degraded_child. split.
  - intros (id & Hin & Hd). destruct (children !! id) as [c|] eqn:Hc; [|done]. apply bool_decide_eq_true in Hd.
    exists id, c. split; [by apply list_elem_of_In|done].
  - intros (id & c & Hin & Hc & Hd). exists id. split; [by apply list_elem_of_In|]. rewrite Hc. by apply bool_decide_eq_true.
Qed.

Lemma rebuildLocked_ok s at_ trigger :
  route_ok s.1 ->
  run_ok s (rebuildLocked sha256 at_ trigger)
    (fun _ s' => composed s'.1 /\ (rt_hasState s'.1 = true -> rt_version s'.1 = uint64 (rt_version s.1 + 1))).
Proof using.
  intros Hok. unfold rebuildLocked. eapply run_ok_bind; [by apply run_ok_receiver|]. intros r s' _ [-> ->].
  destruct (current_snapshots_run s.1 Hok) as (found & Hfound & Hspec). rewrite Hfound.
  eapply run_ok_bind; [apply run_ok_lift with (Q := fun a s' => a = found /\ s' = s); [done|by intros a [= <-]]|].
  intros a s' _ [-> ->]. destruct Hok as [H1 H1' H2 H3 H4 H5 H6 H7]. destruct found as [snapshots|]; [|by split; [split|]].
  eapply run_ok_bind; [apply run_ok_lift with (Q := fun b s' => bundle_snapshots b = snapshots /\ s' = s); [by split|]|].
  { intros b Hb. by apply bundle_of_snapshots in Hb. }
  cbv zeta. intros bundle s' _ [Hb ->]. set (degraded := route_degraded _ _). set (health := if degraded then _ else _).
  set (r' := route_advance s.1 health). assert (route_ok r') as Hok' by by split.
  eapply run_ok_bind with (Q := fun _ s' => s' = (r', s.2)); [by split; [|intros]|].
  intros _ s' _ ->. eapply run_ok_bind with (Q := fun _ s' => s' = (r', s.2)); [by apply run_ok_lift; [|]|].
  intros metadata s' _ ->.
  eapply run_ok_bind with (Q := fun snapshot s' => s' = (r', s.2) /\
    metadata_ok (snap_metadata snapshot) /\ md_Market (snap_metadata snapshot) = rt_route r' /\
    snap_data snapshot = Some (BundleData bundle) /\ md_StateHash (snap_metadata snapshot) = bundle_hash bundle /\
    snap_Version snapshot = rt_version r' /\ md_Health (snap_metadata snapshot) = rt_health r').
  { apply run_ok_lift; [done|]. intros snapshot Hn. by apply NewMarketSnapshot_inv in Hn as (-> & Hmd & _). }
  intros snapshot s' _ (-> & Hmd & Hmk & Hdata & Hhash & Hver & Hhealth). split; [destruct Hok'; split; try done; intros _; split; [done|]; etransitivity; [exact Hmk|exact H1]|].
  intros _ _. split; [|done]. exists bundle. rewrite Hb. repeat (split; [done|]).
  cbn. unfold health. rewrite <- route_degraded_iff. fold degraded. by destruct degraded.
Qed.

Definition collected (before : list (option C)) (acc : gmap MarketID C * list MarketID) : Prop :=
  length acc.2 = length before /\ NoDup acc.2 /\ (forall id, id ∈ acc.2 <-> is_Some (acc.1 !! id)) /\
  (forall id c, acc.1 !! id = Some c -> fm_ok c /\ fm_MarketID c = id).

Lemma add_child_collected before acc child acc' :
  (forall c, child = Some c -> fm_ok c) -> collected before acc -> add_child acc child = Ok acc' ->
  collected (before ++ [child]) acc'.
Proof using.
  intros Hchild (Hlen & HN & Hdom & Hok). destruct child as [c|]; [|done]. cbn [add_child].
  destruct (decide _); [done|]. destruct (decide _) as [|Hfresh]; [done|]. intros [= <-]. unfold collected. cbn [fst snd].
  split; [rewrite !length_app, Hlen; done|]. split.
  { apply NoDup_app. split; [done|]. split; [|apply NoDup_singleton]. intros id Hin ->%list_elem_of_singleton.
    by apply Hfresh, Hdom. }
  split.
  - intros id. rewrite elem_of_app, list_elem_of_singleton, Hdom.
    destruct (decide (fm_MarketID c = id)) as [<-|Hne]; [rewrite lookup_insert_eq; split; [by eexists|by right]|].
    rewrite lookup_insert_ne by done. split; [by intros [? | ->]|by left].
  - intros id c' [[<- <-]|[_ Hlk]]%lookup_insert_Some; [split; [by apply Hchild|done]|by apply Hok].
Qed.

(** A route made of well-formed mirrors is well formed. *)
Lemma NewRouteMirror_ok given source (children : list (option C)) r :
  (forall c, Some c ∈ children -> fm_ok c) -> NewRouteMirror given identity source children = Ok r ->
  route_ok r /\ rt_hasState r = false.
Proof using.
  clear clock sha256 ctx_Err. intros Hchildren. unfold NewRouteMirror. case_decide as Hd; [done|]. intros Hr. apply bind_Ok in Hr as ([byID order] & Hadd & [= <-]).
  apply (foldM_inv_prefix add_child collected) in Hadd as (Hlen & HN & Hdom & Hok).
  - cbn [fst snd] in *. split; [|done]. split; cbn; try done; try tauto. intros ->. destruct children; [tauto|done].
  - split; [done|]. split; [constructor|]. split; [|done]. intros id. cbn. rewrite lookup_empty. split; [set_solver|by intros [? ?]].
  - intros before child after acc acc' -> Hacc. apply add_child_collected; [|done]. intros c ->. apply Hchildren. set_solver.
Qed.

Lemma route_apply_ok s event reset :
  route_ok s.1 ->
  run_ok s (route_apply clock sha256 ctx_Err event reset)
    (fun x s' => metadata_ok (snap_metadata (ar_Snapshot x)) /\
       (ar_Disposition x = ApplyDispositionIgnoredStale \/
        (composed s'.1 /\ (rt_hasState s'.1 = true -> rt_version s'.1 = uint64 (rt_version s.1 + 1))))).
Proof using.
  intros Hok. unfold route_apply. eapply run_ok_bind; [by apply run_ok_receiver|]. intros r s' _ [-> ->].
  destruct (Child s.1 (ev_Market event)) as [c|]; [|by apply run_ok_fail].
  eapply run_ok_bind; [eapply run_ok_child; [done|destruct reset; [apply fm_Reset_ok|apply fm_Apply_ok]]|].
  cbv beta. intros x s1 Hok1 (Hmd & Hv & _). cbv zeta. case_decide as Hd; [by apply run_ok_ret; [|split; [|left]]|].
  eapply run_ok_bind; [by apply run_ok_clock|]. intros at_ s2 Hok2 Hs2.
  eapply run_ok_bind; [by apply rebuildLocked_ok|]. intros _ s3 Hok3 [Hcomp Hver].
  apply run_ok_ret; [done|]. split; [done|]. right. rewrite <- Hv, <- Hs2. by split.
Qed.

Lemma run_ok_foldST {A B} (f : B -> A -> ST State B) (Q : B -> State -> Prop) b l s :
  route_ok s.1 -> Q b s -> (forall b a s, route_ok s.1 -> Q b s -> run_ok s (f b a) Q) -> run_ok s (foldST f b l) Q.
Proof using.
  intros Hok HQ Hf. revert b s Hok HQ. induction l as [|a l IH]; intros b s Hok HQ; [by apply run_ok_ret|].
  unfold run_ok. cbn. pose proof (Hf b a s Hok HQ) as Hone. unfold run_ok in Hone.
  destruct (f b a s) as [[b'|e|why] s']; destruct Hone as [Hok' HQ']; [|by split..].
  by apply IH; [|apply HQ'].
Qed.

Lemma ApplyBatch_ok s events :
  route_ok s.1 ->
  run_ok s (ApplyBatch clock sha256 ctx_Err events)
    (fun x s' => ar_Disposition x <> ApplyDispositionApplied \/
       (composed s'.1 /\ ar_Snapshot x = rt_current s'.1 /\
        (rt_hasState s'.1 = true -> rt_version s'.1 = uint64 (rt_version s.1 + 1)))).
Proof using.
  intros Hok. unfold ApplyBatch. destruct events as [|first events]; [by apply run_ok_fail|].
  eapply run_ok_bind with (Q := fun b s' => (b.2 = false -> ar_Disposition b.1 <> ApplyDispositionApplied) /\
    rt_version s'.1 = rt_version s.1).
  { apply run_ok_foldST; [done|by split|]. intros b event s1 Hok1 [_ Hv1]. unfold batch_step.
    case_decide; [by apply run_ok_fail|]. eapply run_ok_bind; [by apply run_ok_receiver|]. intros r s2 _ [-> ->].
    destruct (Child s1.1 (ev_Market event)) as [c|]; [|by apply run_ok_fail].
    eapply run_ok_bind; [eapply run_ok_wrap, run_ok_child; [done|apply fm_Apply_ok]|]. cbv beta.
    intros x s2 Hok2 (_ & Hv2 & _). apply run_ok_ret; [done|]. cbn. split; [by case_decide|congruence]. }
  intros [lastx applied] s1 Hok1 [Hlast Hv1]. destruct applied; cbn [negb]; [|apply run_ok_ret; [done|left; by apply Hlast]].
  eapply run_ok_bind; [by apply run_ok_clock|]. intros at_ s2 Hok2 Hs2.
  eapply run_ok_bind; [by apply rebuildLocked_ok|]. intros _ s3 Hok3 [Hcomp Hver].
  eapply run_ok_bind; [by apply run_ok_receiver|]. intros r s4 _ [-> ->].
  apply run_ok_ret; [done|]. right. rewrite <- Hv1, <- Hs2. by split.
Qed.

(** The end of a health update. *)
Lemma health_rebuild_ok s at_ :
  route_ok s.1 ->
  run_ok s (r ← route_receiver; if rt_hasState r then rebuildLocked sha256 at_ None else mret tt)
    (fun _ s' => rt_hasState s.1 = true -> composed s'.1).
Proof using.
  intros Hok. eapply run_ok_bind; [by apply run_ok_receiver|]. intros r s' _ [-> ->].
  destruct (rt_hasState s.1) eqn:Hst; [|by apply run_ok_ret].
  pose proof (rebuildLocked_ok s at_ None Hok) as Hr. unfold run_ok in *. destruct (rebuildLocked _ _ _ _) as [x s'].
  destruct Hr as [? HQ]. split; [done|]. intros [] Hx _. by apply (HQ tt).
Qed.

Lemma SetChildHealth_ok s id update :
  route_ok s.1 ->
  run_ok s (SetChildHealth sha256 ctx_Err id update) (fun _ s' => rt_hasState s.1 = true -> composed s'.1).
Proof using.
  intros Hok. unfold SetChildHealth. eapply run_ok_bind; [by apply run_ok_receiver|]. intros r s' _ [-> ->].
  destruct (Child s.1 id) as [c|]; [|by apply run_ok_fail].
  eapply run_ok_bind; [eapply run_ok_child; [done|apply fm_SetHealth_ok]|]. cbv beta. intros _ s1 Hok1 (_ & _ & <-).
  by apply health_rebuild_ok.
Qed.

Lemma run_ok_for_each {A} (f : A -> ST State unit) (Q : State -> Prop) l s :
  route_ok s.1 -> Q s -> (forall a s, route_ok s.1 -> Q s -> run_ok s (f a) (fun _ => Q)) ->
  run_ok s (for_each f l) (fun _ => Q).
Proof using.
  intros Hok HQ Hf. revert s Hok HQ. induction l as [|a l IH]; intros s Hok HQ; [by apply run_ok_ret|].
  unfold run_ok. cbn. pose proof (Hf a s Hok HQ) as Hone. unfold run_ok in Hone.
  destruct (f a s) as [[[]|e|why] s']; destruct Hone as [Hok' HQ']; [|by split..].
  by apply IH; [|apply (HQ' tt)].
Qed.

Lemma RouteSetHealth_ok s update :
  route_ok s.1 -> run_ok s (RouteSetHealth sha256 ctx_Err update) (fun _ s' => rt_hasState s.1 = true -> composed s'.1).
Proof using.
  intros Hok. unfold RouteSetHealth.
  eapply run_ok_bind with (Q := fun _ s' => s' = s); [by apply run_ok_lift; [|intros]|]. intros _ s' _ ->.
  eapply run_ok_bind; [by apply run_ok_receiver|]. intros r s' _ [-> ->].
  eapply run_ok_bind; [apply run_ok_for_each with (Q := fun s' => rt_hasState s'.1 = rt_hasState s.1); [done|done|]|].
  - intros [id c] s1 Hok1 Hst1. cbn [fst]. apply run_ok_wrap. rewrite <- Hst1.
    pose proof (run_ok_child s1 id _ _ Hok1 (fm_SetHealth_ok ctx_Err update)) as Hc. unfold run_ok in *.
    destruct (child_call _ _ _) as [x s2]. destruct Hc as [? HQ]. split; [done|]. intros [] Hx. by apply (HQ tt).
  - cbv beta. intros _ s1 Hok1 <-. by apply health_rebuild_ok.
Qed.

(** C29. Over children that keep their contract, every call on a well-formed route
    leaves it well formed, and one that applied something leaves it composed: it
    carries the current snapshots of all its children in order, is degraded exactly
    when one of them is, and moved to the next version; or a child has no state yet
    and the route has none.  A health update composes a route that has state. *)
Theorem route_composes r w :
  route_ok r ->
  (forall event reset x r' w',
     route_apply clock sha256 ctx_Err event reset (r, w) = (x, (r', w')) ->
     route_ok r' /\ forall result, x = Ok result -> ar_Disposition result <> ApplyDispositionIgnoredStale ->
       composed r' /\ (rt_hasState r' = true -> rt_version r' = uint64 (rt_version r + 1))) /\
  (forall events x r' w',
     ApplyBatch clock sha256 ctx_Err events (r, w) = (x, (r', w')) ->
     route_ok r' /\ forall result, x = Ok result -> ar_Disposition result = ApplyDispositionApplied ->
       composed r' /\ ar_Snapshot result = rt_current r' /\
       (rt_hasState r' = true -> rt_version r' = uint64 (rt_version r + 1))) /\
  (forall id update x r' w',
     SetChildHealth sha256 ctx_Err id update (r, w) = (x, (r', w')) ->
     route_ok r' /\ (x = Ok tt -> rt_hasState r = true -> composed r')) /\
  (forall update x r' w',
     RouteSetHealth sha256 ctx_Err update (r, w) = (x, (r', w')) ->
     route_ok r' /\ (x = Ok tt -> rt_hasState r = true -> composed r')).
Proof using.
  intros Hok. split; [|split; [|split]].
  - intros event reset x r' w' Hrun. pose proof (route_apply_ok (r, w) event reset Hok) as H1. unfold run_ok in H1.
    rewrite Hrun in H1. destruct H1 as [Hok' HQ]. split; [done|]. intros result Hx Hd. by destruct (HQ result Hx) as [_ [?|?]].
  - intros events x r' w' Hrun. pose proof (ApplyBatch_ok (r, w) events Hok) as H1. unfold run_ok in H1.
    rewrite Hrun in H1. destruct H1 as [Hok' HQ]. split; [done|]. intros result Hx Hd. by destruct (HQ result Hx).
  - intros id update x r' w' Hrun. pose proof (SetChildHealth_ok (r, w) id update Hok) as H1. unfold run_ok in H1.
    rewrite Hrun in H1. destruct H1 as [Hok' HQ]. split; [done|]. by apply (HQ tt).
  - intros update x r' w' Hrun. pose proof (RouteSetHealth_ok (r, w) update Hok) as H1. unfold run_ok in H1.
    rewrite Hrun in H1. destruct H1 as [Hok' HQ]. split; [done|]. by apply (HQ tt).
Qed.
End route_facts.

(** A route is a mirror, so routes nest. *)
Section nested.
Context {C W D E : Type} `{FeedMirror C W D E} `{!FeedMirrorLaws C W D E} `{!RangeOrder MarketID}.
Context (clock : W -> Time * W) (sha256 : string -> Digest).

#[export] Instance route_feed : FeedMirror (RouteMirror C D) W (RouteData D) E := {|
  fm_MarketID := rt_route; fm_Apply ctx_Err := RouteApply clock sha256 ctx_Err; fm_Reset ctx_Err := RouteReset clock sha256 ctx_Err;
  fm_SetHealth := RouteSetHealth sha256; fm_Current := RouteCurrent; fm_Health := rt_health |}.

Lemma run_ok_keeps {A} (m : ST (RouteMirror C D * W) A) (Q : A -> Prop) :
  (forall identity s, route_ok identity s.1 -> run_ok identity s m (fun a _ => Q a)) ->
  keeps (fun r => route_ok (rt_route r) r) rt_route m Q.
Proof using.
  intros Hm r w Hok. specialize (Hm (rt_route r) (r, w) Hok). unfold run_ok in Hm.
  destruct (m (r, w)) as [x [r' w']]. destruct Hm as [Hok' HQ]. cbn [fst] in Hok'. pose proof (ro_route _ _ Hok') as Hid.
  rewrite Hid. split; [done|]. split; [done|]. destruct x as [a|e|why]; [by apply HQ|done..].
Qed.

Lemma run_ok_weaken {A} identity s (m : ST (RouteMirror C D * W) A) (Q R : A -> RouteMirror C D * W -> Prop) :
  run_ok identity s m Q -> (forall a s', Q a s' -> R a s') -> run_ok identity s m R.
Proof using. unfold run_ok. destruct (m s) as [x s']. intros [? HQ] HR. split; [done|]. auto. Qed.

#[export] Instance route_feed_laws : FeedMirrorLaws (RouteMirror C D) W (RouteData D) E.
Proof using FeedMirrorLaws0.
  refine {| fm_ok := fun r : RouteMirror C D => route_ok (rt_route r) r |}.
  - intros ctx event. apply run_ok_keeps. intros identity s Hok.
    eapply run_ok_weaken; [by apply route_apply_ok|]. by intros a s' [? _].
  - intros ctx event. apply run_ok_keeps. intros identity s Hok.
    eapply run_ok_weaken; [by apply route_apply_ok|]. by intros a s' [? _].
  - intros ctx update. apply run_ok_keeps. intros identity s Hok.
    eapply run_ok_weaken; [by apply RouteSetHealth_ok|done].
  - intros r s Hok Hc. cbn in Hc. unfold RouteCurrent in Hc. injection Hc as <- Hst.
    by apply (ro_current _ _ Hok).
Defined.
End nested.
