(* ===== verification/RouteQuote.v ===== *)
(** * Quotes along a route
    (src/adapters/quote/route/source.go, src/runtime/crosschain/routes.go)

    A route source asks the pools of a route one after the other: forwards for an exact
    input, backwards for an exact output, in either direction of the market.  It keeps
    the answers of its hops and its own in two caches, and the trace of the last call.
    A hop's source is a function of its input, as everywhere else.  The cache locks make
    each access atomic; a call is one step.  Durations are left out.

    Theorems: in a history of calls of one mode a quote is a chain of answers that the
    hops gave for the states asked about; and an exact output asked after an exact input
    may be answered with the input of another request, since the two share the cache of
    the hops.  [NewRoute] composes the source with a route mirror, whose snapshots have
    every hop. *)
From S2P Require Import Prelude Amount Quote Registry Pools MarketState RouteMirror.
Local Open Scope Z_scope.

Record HopSource (D : Type) := mkHopSource {
  hs_Quote : QuoteInput D -> res Quote; hs_QuoteExactOutput : option (ExactOutputInput D -> res Quote) }.
Arguments mkHopSource {D}. Arguments hs_Quote {D}. Arguments hs_QuoteExactOutput {D}.

Record Hop (D : Type) := mkHop { hp_Market : MarketID; hp_In : TokenID; hp_Out : TokenID; hp_Source : option (HopSource D) }.
Arguments mkHop {D}. Arguments hp_Market {D}. Arguments hp_In {D}. Arguments hp_Out {D}. Arguments hp_Source {D}.

Record hopKey := mkHopKey { hk_market : MarketID; hk_version : Z; hk_hash : Digest; hk_in : TokenID; hk_out : TokenID; hk_amount : string }.
#[export] Instance hopKey_eq_dec : EqDecision hopKey.
Proof. solve_decision. Defined.
#[export] Instance hopKey_countable : Countable hopKey :=
  inj_countable' (fun k => (hk_market k, hk_version k, hk_hash k, hk_in k, hk_out k, hk_amount k))
    (fun '(m, v, h, i, o, a) => mkHopKey m v h i o a) ltac:(by intros []).

Record routeKey := mkRouteKey { rk_version : Z; rk_hash : Digest; rk_in : TokenID; rk_out : TokenID; rk_amount : string; rk_mode : string }.
#[export] Instance routeKey_eq_dec : EqDecision routeKey.
Proof. solve_decision. Defined.
#[export] Instance routeKey_countable : Countable routeKey :=
  inj_countable' (fun k => (rk_version k, rk_hash k, rk_in k, rk_out k, rk_amount k, rk_mode k))
    (fun '(v, h, i, o, a, m) => mkRouteKey v h i o a m) ltac:(by intros []).

Record HopTiming := mkHopTiming { ht_Market : MarketID; ht_Cached : bool; ht_AmountIn : string; ht_AmountOut : string }.
Record Timing := mkTiming { tm_Cached : bool; tm_Hops : list HopTiming }.
Definition Timing_zero : Timing := mkTiming false [].
Record routeCacheEntry := mkRouteCacheEntry { ce_quote : Quote; ce_hops : list HopTiming }.

Record Source (D : Type) := mkSource {
  so_id : SourceID; so_market : Market; so_hops : list (Hop D); so_cache : bool;
  so_hopCache : gmap hopKey Quote; so_routeCache : gmap routeKey routeCacheEntry; so_lastTiming : Timing }.
Arguments mkSource {D}. Arguments so_id {D}. Arguments so_market {D}. Arguments so_hops {D}. Arguments so_cache {D}.
Arguments so_hopCache {D}. Arguments so_routeCache {D}. Arguments so_lastTiming {D}.

Section source.
Context {D : Type}.

(** ** Construction *)

(** One pass of the loop over the hops: the position and the output of the hop before. *)
Definition check_hop (state : nat * TokenID) (hop : Hop D) : res (nat * TokenID) :=
  let '(index, previous) := state in
  if decide (hp_Market hop = "" \/ hp_In hop = "" \/ hp_Out hop = "" \/ hp_In hop = hp_Out hop) then Err (Errorf "route hop %d is incomplete") else
  match hp_Source hop with
  | None => Err (Errorf "route hop %d is incomplete")
  | Some _ =>
      if decide (hp_In hop <> previous /\ index = 0%nat) then Err (Errorf "route first hop input does not match market base token") else
      if decide ((0 < index)%nat /\ hp_In hop <> previous) then Err (Errorf "route hops are discontinuous at %d") else
      Ok (S index, hp_Out hop)
  end.

Definition newSource (id : SourceID) (candidate : Market) (hops : list (Hop D)) (cache : bool) : res (Source D) :=
  if decide (id = "" \/ Market_ID candidate = "" \/ hops = []) then Err (Errorf "route source, market, and hops are required") else
  '(_, previous) ← foldM check_hop (0%nat, Market_BaseToken candidate) hops;
  if decide (previous <> Market_QuoteToken candidate) then Err (Errorf "route final hop output does not match market quote token") else
  Ok (mkSource id candidate hops cache ∅ ∅ Timing_zero).

Definition New (id : SourceID) (candidate : Market) (hops : list (Hop D)) : res (Source D) := newSource id candidate hops true.
Definition NewUncached (id : SourceID) (candidate : Market) (hops : list (Hop D)) : res (Source D) := newSource id candidate hops false.

(** ** Directions *)

Definition reverseFor (market : Market) (tokenIn tokenOut : TokenID) : res bool :=
  if decide (tokenIn = Market_BaseToken market /\ tokenOut = Market_QuoteToken market) then Ok false else
  if decide (tokenIn = Market_QuoteToken market /\ tokenOut = Market_BaseToken market) then Ok true else
  Err (Errorf "route does not support token direction %q -> %q").

Definition flip_hop (hop : Hop D) : Hop D := mkHop (hp_Market hop) (hp_Out hop) (hp_In hop) (hp_Source hop).

Definition hopAt (hops : list (Hop D)) (index : nat) (reverse : bool) : res (Hop D) :=
  if negb reverse then match hops !! index with Some hop => Ok hop | None => Panic "index out of range" end
  else match hops !! (length hops - 1 - index)%nat with Some hop => Ok (flip_hop hop) | None => Panic "index out of range" end.

Definition child (bundle : SnapshotBundle D) (id : MarketID) : option (MarketSnapshot D) :=
  snd <$> list_find (fun snapshot => snap_Market snapshot = id) (bundle_snapshots bundle).

(** ** The caches and the trace of a call *)

Abbreviation State := (Source D * Timing)%type (only parsing).

Definition key_of (hop : Hop D) (snapshot : MarketSnapshot D) (amount : TokenAmount) : hopKey :=
  mkHopKey (hp_Market hop) (snap_Version snapshot) (md_StateHash (snap_metadata snapshot)) (hp_In hop) (hp_Out hop) (TokenAmount_String amount).

Definition keep_hop (key : hopKey) (result : Quote) (s : Source D) : Source D :=
  if so_cache s
  then mkSource (so_id s) (so_market s) (so_hops s) (so_cache s) (<[key := result]> (so_hopCache s)) (so_routeCache s) (so_lastTiming s)
  else s.

Definition keep_route (key : routeKey) (entry : routeCacheEntry) (s : Source D) : Source D :=
  if so_cache s
  then mkSource (so_id s) (so_market s) (so_hops s) (so_cache s) (so_hopCache s) (<[key := entry]> (so_routeCache s)) (so_lastTiming s)
  else s.

Definition setTiming (value : Timing) (s : Source D) : Source D :=
  mkSource (so_id s) (so_market s) (so_hops s) (so_cache s) (so_hopCache s) (so_routeCache s) value.

Definition LastTiming (s : Source D) : Timing := so_lastTiming s.

Definition hop_timing (hop : Hop D) (cached : bool) (result : Quote) : HopTiming :=
  mkHopTiming (hp_Market hop) cached (TokenAmount_String (q_AmountIn result)) (TokenAmount_String (q_AmountOut result)).

Definition note_hop (timing : HopTiming) (t : Timing) : Timing := mkTiming (tm_Cached t) (tm_Hops t ++ [timing]).

(** The answer of a hop, from the cache or from its source. *)
Definition hop_answer (hop : Hop D) (key : hopKey) (compute : res Quote) : ST State Quote := fun '(s, t) =>
  match (if so_cache s then so_hopCache s !! key else None) with
  | Some result => (Ok result, (s, note_hop (hop_timing hop true result) t))
  | None =>
      match wrap "quote route hop %d: %w" compute with
      | Ok result => (Ok result, (keep_hop key result s, note_hop (hop_timing hop false result) t))
      | Err e => (Err e, (s, t))
      | Panic why => (Panic why, (s, t))
      end
  end.

Definition cached_timing (timing : HopTiming) : HopTiming := mkHopTiming (ht_Market timing) true (ht_AmountIn timing) (ht_AmountOut timing).

(** The answer of the route, from the cache or from [compute]. *)
Definition route_answer (key : routeKey) (compute : ST State Quote) : ST State Quote := fun '(s, t) =>
  match (if so_cache s then so_routeCache s !! key else None) with
  | Some entry => (Ok (ce_quote entry), (s, mkTiming true (cached_timing <$> ce_hops entry)))
  | None =>
      match compute (s, t) with
      | (Ok result, (s', t')) => (Ok result, (keep_route key (mkRouteCacheEntry result (tm_Hops t')) s', t'))
      | other => other
      end
  end.

(** The deferred function keeps the trace of the call, however it ends. *)
Definition with_timing (m : ST State Quote) : ST (Source D) Quote := fun s =>
  let '(r, (s', timing)) := m (s, Timing_zero) in (r, setTiming timing s').

(** ** Exact inputs *)

(** One pass of the loop: the first answer and the amount so far. *)
Definition input_hop (input : QuoteInput (RouteData D)) (bundle : SnapshotBundle D) (reverse : bool) (st : option Quote * TokenAmount) (index : nat) :
    ST State (option Quote * TokenAmount) :=
  '(s, _) ← get;
  hop ← lift (hopAt (so_hops s) index reverse);
  match child bundle (hp_Market hop) with
  | None => fail "route snapshot is missing hop %q"
  | Some snapshot =>
      if decide (amount_token st.2 <> hp_In hop) then fail "route amount token mismatch at hop %d" else
      result ← hop_answer hop (key_of hop snapshot st.2)
        (match hp_Source hop with
         | None => Panic "nil hop source"
         | Some source => hs_Quote source (mkQuoteInput snapshot (hp_In hop) (hp_Out hop) st.2 (in_Purpose input) (in_QuotedAt input))
         end);
      mret (if decide (index = 0%nat) then Some result else st.1, q_AmountOut result)
  end.

Definition first_fees (first : option Quote) : list QuoteFee := match first with Some q => q_fees q | None => [] end.

(** The quote of the route between two amounts. *)
Definition route_quote (s : Source D) (metadata : SnapshotMetadata) (purpose mode : string) (amountIn amountOut : TokenAmount) (quotedAt : Time)
    (fees : list QuoteFee) : res Quote :=
  NewQuote (mkQuote (so_id s) (Market_ID (so_market s)) (md_Version metadata) (md_StateHash metadata) (mkSourcePosition "" 0) ""
    purpose mode "" amountIn amountOut quotedAt []) fees.

Definition input_route (input : QuoteInput (RouteData D)) (bundle : SnapshotBundle D) (reverse : bool) : ST State Quote :=
  '(s, _) ← get;
  '(first, current) ← foldST (input_hop input bundle reverse) (None, in_AmountIn input) (seq 0 (length (so_hops s)));
  lift (route_quote s (snap_metadata (in_Snapshot input)) (in_Purpose input) QuoteModeExactInput (in_AmountIn input) current (in_QuotedAt input) (first_fees first)).

Definition quote_input (ctx_Err : option error) (input : QuoteInput (RouteData D)) : ST State Quote :=
  match ctx_Err with
  | Some e => lift (Err e)
  | None =>
      '(s, _) ← get;
      if decide (snap_Market (in_Snapshot input) <> Market_ID (so_market s)) then fail "snapshot belongs to market %q, expected %q" else
      reverse ← lift (reverseFor (so_market s) (in_TokenIn input) (in_TokenOut input));
      match snap_data (in_Snapshot input) with
      | Some (BundleData bundle) =>
          let metadata := snap_metadata (in_Snapshot input) in
          route_answer (mkRouteKey (md_Version metadata) (md_StateHash metadata) (in_TokenIn input) (in_TokenOut input) (TokenAmount_String (in_AmountIn input))
            QuoteModeExactInput) (input_route input bundle reverse)
      | _ => fail "route quote requires a snapshot bundle"
      end
  end.

Definition Source_Quote (ctx_Err : option error) (input : QuoteInput (RouteData D)) : ST (Source D) Quote := with_timing (quote_input ctx_Err input).

(** ** Exact outputs *)

Definition output_hop (input : ExactOutputInput (RouteData D)) (bundle : SnapshotBundle D) (reverse : bool) (st : option Quote * TokenAmount) (index : nat) :
    ST State (option Quote * TokenAmount) :=
  '(s, _) ← get;
  hop ← lift (hopAt (so_hops s) index reverse);
  match source ← hp_Source hop; hs_QuoteExactOutput source with
  | None => fail "route hop %d does not support exact output"
  | Some quote =>
      match child bundle (hp_Market hop) with
      | None => fail "route snapshot is missing hop %q"
      | Some snapshot =>
          result ← hop_answer hop (key_of hop snapshot st.2)
            (quote (mkExactOutputInput snapshot (hp_In hop) (hp_Out hop) st.2 (out_Purpose input) (out_QuotedAt input)));
          mret (if decide (index = (length (so_hops s) - 1)%nat) then Some result else st.1, q_AmountIn result)
      end
  end.

Definition output_route (input : ExactOutputInput (RouteData D)) (bundle : SnapshotBundle D) (reverse_ : bool) : ST State Quote :=
  '(s, _) ← get;
  '(final, current) ← foldST (output_hop input bundle reverse_) (None, out_AmountOut input) (reverse (seq 0 (length (so_hops s))));
  lift (route_quote s (snap_metadata (out_Snapshot input)) (out_Purpose input) QuoteModeExactOutput current (out_AmountOut input) (out_QuotedAt input) (first_fees final)).

(** The market of the snapshot is not looked at here. *)
Definition quote_output (ctx_Err : option error) (input : ExactOutputInput (RouteData D)) : ST State Quote :=
  match ctx_Err with
  | Some e => lift (Err e)
  | None =>
      '(s, _) ← get;
      reverse ← lift (reverseFor (so_market s) (out_TokenIn input) (out_TokenOut input));
      match snap_data (out_Snapshot input) with
      | Some (BundleData bundle) =>
          let metadata := snap_metadata (out_Snapshot input) in
          route_answer (mkRouteKey (md_Version metadata) (md_StateHash metadata) (out_TokenIn input) (out_TokenOut input)
            (TokenAmount_String (out_AmountOut input)) QuoteModeExactOutput) (output_route input bundle reverse)
      | _ => fail "route quote requires a snapshot bundle"
      end
  end.

Definition Source_QuoteExactOutput (ctx_Err : option error) (input : ExactOutputInput (RouteData D)) : ST (Source D) Quote :=
  with_timing (quote_output ctx_Err input).
End source.

(** ** Routes (routes.go) *)

Section routes.
Context {C W D E : Type} `{FeedMirror C W D E} `{!RangeOrder MarketID}.
Context (clock : W -> Time * W) (sha256 : string -> Digest) (ctx_Err : option error).

Record RouteChild := mkRouteChild { rc_Market : Market; rc_Mirror : option C; rc_Source : option (HopSource D) }.
Record Route := mkRoute { ro_Market : Market; ro_Mirror : RouteMirror C D; ro_Source : Source D }.

Definition collect_child (acc : list (option C) * list (Hop D)) (child : RouteChild) : res (list (option C) * list (Hop D)) :=
  match rc_Mirror child, rc_Source child with
  | Some mirror, Some source =>
      if decide (Market_ID (rc_Market child) = "") then Err (Errorf "route child is incomplete") else
      Ok (acc.1 ++ [Some mirror], acc.2 ++ [mkHop (Market_ID (rc_Market child)) (Market_BaseToken (rc_Market child)) (Market_QuoteToken (rc_Market child)) (Some source)])
  | _, _ => Err (Errorf "route child is incomplete")
  end.

(** [given] is whether the clock is set. *)
Definition NewRoute (given : bool) (candidate : Market) (sourceID : SourceID) (children : list RouteChild) : res Route :=
  if decide (Market_ID candidate = "" \/ sourceID = "" \/ children = [] \/ given = false)
  then Err (Errorf "route candidate, source, children, and clock are required") else
  '(mirrors, hops) ← foldM collect_child ([], []) children;
  mirror ← NewRouteMirror given (Market_ID candidate) sourceID mirrors;
  source ← New (sourceID +:+ "/local") candidate hops;
  Ok (mkRoute candidate mirror source).

(** The methods of a route are those of its mirror. *)
Definition on_mirror {A} (m : ST (RouteMirror C D * W) A) : ST (Route * W) A :=
  zoom (fun s => (ro_Mirror s.1, s.2)) (fun m s => (mkRoute (ro_Market s.1) m.1 (ro_Source s.1), m.2)) m.

Definition Route_Apply (event : MarketEvent E) : ST (Route * W) (ApplyResult (RouteData D)) := on_mirror (RouteApply clock sha256 ctx_Err event).
Definition Route_Reset (event : MarketEvent E) : ST (Route * W) (ApplyResult (RouteData D)) := on_mirror (RouteReset clock sha256 ctx_Err event).
Definition Route_ApplyBatch (events : list (MarketEvent E)) : ST (Route * W) (ApplyResult (RouteData D)) := on_mirror (ApplyBatch clock sha256 ctx_Err events).
Definition Route_SetChildHealth (id : MarketID) (update : HealthUpdate) : ST (Route * W) unit := on_mirror (SetChildHealth sha256 ctx_Err id update).
Definition Route_Snapshot (r : Route) : MarketSnapshot (RouteData D) * bool := RouteCurrent (ro_Mirror r).
End routes.

(** ** What the caches hold *)

Section history.
Context {D : Type}.

(** The amounts a hop starts from and ends in, by the mode of the call. *)
Definition next_amount (mode : string) (answer : Quote) : TokenAmount :=
  if decide (mode = QuoteModeExactInput) then q_AmountOut answer else q_AmountIn answer.

Definition same_state {T} (a b : MarketSnapshot T) : Prop :=
  snap_Version a = snap_Version b /\ md_StateHash (snap_metadata a) = md_StateHash (snap_metadata b).

(** The source of a hop gave an answer for a state and an amount. *)
Definition gave (mode : string) (hop : Hop D) (snapshot : MarketSnapshot D) (amount : TokenAmount) (answer : Quote) : Prop :=
  exists source, hp_Source hop = Some source /\
  (mode = QuoteModeExactInput /\
   (exists i, hs_Quote source i = Ok answer /\ same_state (in_Snapshot i) snapshot /\ snap_Market (in_Snapshot i) = hp_Market hop /\
      in_TokenIn i = hp_In hop /\ in_TokenOut i = hp_Out hop /\ Units (in_AmountIn i) = Units amount) \/
   mode = QuoteModeExactOutput /\
   (exists quote o, hs_QuoteExactOutput source = Some quote /\ quote o = Ok answer /\ same_state (out_Snapshot o) snapshot /\ snap_Market (out_Snapshot o) = hp_Market hop /\
      out_TokenIn o = hp_In hop /\ out_TokenOut o = hp_Out hop /\ Units (out_AmountOut o) = Units amount)).

(** A chain of such answers over the hops in the order they are asked. *)
Inductive chain (mode : string) (bundle : SnapshotBundle D) : list (Hop D) -> TokenAmount -> TokenAmount -> Prop :=
| chain_nil a : chain mode bundle [] a a
| chain_cons hop hops snapshot a answer b :
    child bundle (hp_Market hop) = Some snapshot -> gave mode hop snapshot a answer ->
    chain mode bundle hops (next_amount mode answer) b -> chain mode bundle (hop :: hops) a b.

Lemma chain_snoc mode bundle hops hop snapshot a b answer :
  chain mode bundle hops a b -> child bundle (hp_Market hop) = Some snapshot -> gave mode hop snapshot b answer ->
  chain mode bundle (hops ++ [hop]) a (next_amount mode answer).
Proof.
  intros Hc Hs Hg. induction Hc as [a|h hs s a r b Hch Hga _ IH]; cbn [app]; [eapply chain_cons; [done|done|constructor]|].
  eapply chain_cons; [done|done|]. by apply IH.
Qed.

Section sound.
Context (s0 : Source D) (mode : string).
Context (Hmode : mode = QuoteModeExactInput \/ mode = QuoteModeExactOutput).
Context (Hmarkets : NoDup (hp_Market <$> so_hops s0)).
Context (Hdistinct : Forall (fun hop => hp_In hop <> hp_Out hop) (so_hops s0)).

(** A hop of the route, in one of its directions. *)
Definition directed (hop : Hop D) : Prop := hop ∈ so_hops s0 \/ hop ∈ flip_hop <$> so_hops s0.

Lemma directed_unique h k : directed h -> directed k -> hp_Market h = hp_Market k -> hp_In h = hp_In k -> h = k.
Proof using Hmarkets Hdistinct.
  assert (forall x y, x ∈ so_hops s0 -> y ∈ so_hops s0 -> hp_Market x = hp_Market y -> x = y) as Hone.
  { intros x y [i Hi]%list_elem_of_lookup [j Hj]%list_elem_of_lookup He. assert (i = j) as ->; [|congruence].
    eapply (NoDup_lookup (hp_Market <$> so_hops s0)); [done| |]; rewrite list_lookup_fmap; [by rewrite Hi|]. rewrite Hj. cbn. by rewrite He. }
  rewrite Forall_forall in Hdistinct.
  intros [Hh|(x & -> & Hx)%list_elem_of_fmap] [Hk|(y & -> & Hy)%list_elem_of_fmap] Hm Hin; cbn in *.
  - by apply Hone.
  - rewrite (Hone h y) in Hin by done. exfalso. by apply (Hdistinct y).
  - rewrite (Hone x k) in Hin by done. exfalso. by apply (Hdistinct k).
  - by rewrite (Hone x y).
Qed.

Definition path (rev_ : bool) : list (Hop D) := if rev_ then reverse (flip_hop <$> so_hops s0) else so_hops s0.

Lemma path_length rev_ : length (path rev_) = length (so_hops s0).
Proof using. unfold path. destruct rev_; [by rewrite length_reverse, length_fmap|done]. Qed.

Lemma hopAt_path index rev_ hop : (index < length (so_hops s0))%nat -> hopAt (so_hops s0) index rev_ = Ok hop -> path rev_ !! index = Some hop.
Proof using.
  intros Hi. unfold hopAt, path. destruct rev_; cbn [negb].
  - rewrite reverse_lookup by (by rewrite length_fmap). rewrite length_fmap, list_lookup_fmap.
    replace (length (so_hops s0) - S index)%nat with (length (so_hops s0) - 1 - index)%nat by lia. destruct (_ !! _); [|done]. by intros [= <-].
  - destruct (_ !! _); [|done]. by intros [= <-].
Qed.

Lemma path_directed index rev_ hop : path rev_ !! index = Some hop -> directed hop.
Proof using.
  unfold path, directed. intros Hl%list_elem_of_lookup_2. destruct rev_; [right; by rewrite elem_of_reverse in Hl|by left].
Qed.

Lemma gave_state hop snapshot snapshot' amount amount' answer :
  gave mode hop snapshot amount answer -> same_state snapshot snapshot' -> Units amount = Units amount' -> gave mode hop snapshot' amount' answer.
Proof using.
  intros (source & Hs & H) [Hv Hh] Hu. exists source. split; [done|].
  destruct H as [(Hm & i & H1 & [H2 H2'] & H3 & H4 & H5 & H6)|(Hm & quote & o & H0 & H1 & [H2 H2'] & H3 & H4 & H5 & H6)]; [left|right]; (split; [done|]).
  - exists i. split_and!; [done|split; congruence|congruence..].
  - exists quote, o. split_and!; [done|done|split; congruence|congruence..].
Qed.

(** The quote of a route for a key. *)
Definition routed (key : routeKey) (q : Quote) : Prop :=
  exists rev_ snapshot bundle, reverseFor (so_market s0) (rk_in key) (rk_out key) = Ok rev_ /\
  snap_Version snapshot = rk_version key /\ md_StateHash (snap_metadata snapshot) = rk_hash key /\ snap_data snapshot = Some (BundleData bundle) /\
  TokenAmount_String (if decide (mode = QuoteModeExactInput) then q_AmountIn q else q_AmountOut q) = rk_amount key /\
  chain mode bundle (if decide (mode = QuoteModeExactInput) then path rev_ else reverse (path rev_))
    (if decide (mode = QuoteModeExactInput) then q_AmountIn q else q_AmountOut q) (next_amount mode q) /\
  q_Source q = so_id s0 /\ q_Market q = Market_ID (so_market s0) /\ q_SnapshotVersion q = rk_version key /\ q_SnapshotHash q = rk_hash key.

Record sound (s : Source D) : Prop := {
  sd_id : so_id s = so_id s0; sd_market : so_market s = so_market s0; sd_hops : so_hops s = so_hops s0;
  sd_hop : forall key answer, so_hopCache s !! key = Some answer -> exists hop snapshot amount,
    directed hop /\ key = key_of hop snapshot amount /\ gave mode hop snapshot amount answer;
  sd_route : forall key entry, so_routeCache s !! key = Some entry -> rk_mode key = mode /\ routed key (ce_quote entry) }.

Definition Post_sound {A} (m : ST (Source D * Timing) A) (Q : A -> Prop) : Prop :=
  forall s t, sound s -> Post m (s, t) (fun r st => sound st.1 /\ forall a, r = Ok a -> Q a).

Lemma hop_answer_sound hop snapshot amount compute : directed hop ->
  (forall r, compute = Ok r -> gave mode hop snapshot amount r) ->
  Post_sound (hop_answer hop (key_of hop snapshot amount) compute) (gave mode hop snapshot amount).
Proof using Hmarkets Hdistinct.
  intros Hd Hc s t Hs. unfold Post, hop_answer. destruct (if so_cache s then _ else None) as [r|] eqn:Hhit.
  - split; [done|]. intros a [= <-]. destruct (so_cache s); [|done].
    destruct (sd_hop s Hs _ _ Hhit) as (hop' & snapshot' & amount' & Hd' & Hk & Hg).
    injection Hk as Hm Hv Hh Hi Ho Ha. apply pretty_Z_inj in Ha. rewrite (directed_unique hop hop') in * by done.
    by eapply gave_state.
  - destruct (wrap _ compute) as [r|e|why] eqn:Hw; [|done..]. apply wrap_Ok in Hw. split; [|intros a [= <-]; by apply Hc].
    destruct Hs as [H1 H2 H3 H4 H5]. cbn [fst]. unfold keep_hop. destruct (so_cache s); split; cbn; try done.
    intros key answer [[<- <-]|[_ Hk]]%lookup_insert_Some; [|by apply H4]. exists hop, snapshot, amount. split_and!; [done|done|by apply Hc].
Qed.

Lemma child_market (bundle : SnapshotBundle D) id snapshot : child bundle id = Some snapshot -> snap_Market snapshot = id.
Proof using. unfold child. intros Hc. apply fmap_Some in Hc as ([i x] & Hf & ->). apply list_find_Some in Hf as (_ & Hx & _). exact Hx. Qed.

(** A loop over the hops that keeps the caches sound extends the chain by each of them. *)
Lemma loop_sound bundle (step : option Quote * TokenAmount -> nat -> ST (Source D * Timing) (option Quote * TokenAmount)) (hops : list (Hop D)) (indexes : list nat) amount :
  (forall st k index, indexes !! k = Some index -> Post_sound (step st index) (fun st' => exists hop snapshot answer,
     hops !! k = Some hop /\ child bundle (hp_Market hop) = Some snapshot /\ gave mode hop snapshot st.2 answer /\ st'.2 = next_amount mode answer)) ->
  forall rest k st, indexes = take k indexes ++ rest -> (k <= length indexes)%nat -> chain mode bundle (take k hops) amount st.2 ->
  Post_sound (foldST step st rest) (fun st' => chain mode bundle (take (length indexes) hops) amount st'.2).
Proof using.
  intros Hstep rest. induction rest as [|index rest IH]; intros k st Hi Hk Hc s t Hs; cbn [foldST].
  - split; [done|]. intros a [= <-]. rewrite app_nil_r in Hi. apply (f_equal length) in Hi. rewrite length_take in Hi. by replace (length indexes) with k by lia.
  - assert (indexes !! k = Some index) as Hl.
    { rewrite Hi at 1. rewrite lookup_app_r by (rewrite length_take; lia). rewrite length_take. by replace (k - k `min` length indexes)%nat with 0%nat by lia. }
    pose proof (Hstep st k index Hl s t Hs) as H1. unfold Post in *. destruct (step st index (s, t)) as [[st'|e|why] [s1 t1]]; destruct H1 as [H1 H2]; cbn [fst] in *; [|done..].
    destruct (H2 st' eq_refl) as (hop & snapshot & answer & Hh & Hch & Hg & Hn).
    apply (IH (S k)); [|apply lookup_lt_Some in Hl; lia| |done].
    + rewrite Hi at 1. rewrite (take_S_r _ _ _ Hl). by rewrite <- app_assoc.
    + rewrite (take_S_r _ _ _ Hh), Hn. by eapply chain_snoc.
Qed.

Lemma route_answer_sound key compute : rk_mode key = mode ->
  Post_sound compute (routed key) -> Post_sound (route_answer key compute) (routed key).
Proof using.
  intros Hk Hc s t Hs. unfold Post, route_answer. destruct (if so_cache s then _ else None) as [entry|] eqn:Hhit.
  - split; [done|]. intros a [= <-]. destruct (so_cache s); [|done]. by apply (sd_route s Hs) in Hhit as [_ ?].
  - specialize (Hc s t Hs). unfold Post in Hc. destruct (compute (s, t)) as [[r|e|why] [s1 t1]]; destruct Hc as [Hs1 Hr]; cbn [fst] in *; [|done..].
    split; [|done]. destruct Hs1 as [H1 H2 H3 H4 H5]. unfold keep_route. destruct (so_cache s1); split; cbn; try done.
    intros key' entry [[<- <-]|[_ Hk']]%lookup_insert_Some; [|by apply H5]. split; [done|]. by apply Hr.
Qed.

Lemma route_quote_fields (s : Source D) metadata purpose m a b at_ fees q : route_quote s metadata purpose m a b at_ fees = Ok q ->
  q_Source q = so_id s /\ q_Market q = Market_ID (so_market s) /\ q_SnapshotVersion q = md_Version metadata /\ q_SnapshotHash q = md_StateHash metadata /\
  q_AmountIn q = a /\ q_AmountOut q = b.
Proof using. unfold route_quote, NewQuote. intros H. res_inv. by subst. Qed.

Lemma Post_sound_bind {A B} (m : ST (Source D * Timing) A) (f : A -> ST (Source D * Timing) B) Q R :
  Post_sound m Q -> (forall a, Q a -> Post_sound (f a) R) -> Post_sound (m ≫= f) R.
Proof using.
  intros Hm Hf s t Hs. specialize (Hm s t Hs). unfold Post, mbind, st_bind in *. destruct (m (s, t)) as [[a|e|why] [s1 t1]]; destruct Hm as [H1 H2]; [|done..].
  by apply Hf; [apply H2|].
Qed.

Lemma Post_sound_get : Post_sound get (fun st => sound st.1).
Proof using. intros s t Hs. split; [done|]. by intros a [= <-]. Qed.

Lemma Post_sound_lift {A} (m : res A) (Q : A -> Prop) : (forall a, m = Ok a -> Q a) -> Post_sound (lift m) Q.
Proof using. intros HQ s t Hs. split; [done|exact HQ]. Qed.

Lemma Post_sound_fail {A} why (Q : A -> Prop) : Post_sound (fail why) Q.
Proof using. intros s t Hs. by split. Qed.

Lemma Post_sound_mret {A} (a : A) (Q : A -> Prop) : Q a -> Post_sound (mret a) Q.
Proof using. intros HQ s t Hs. split; [done|]. by intros ? [= <-]. Qed.

(** What a pass of either loop does. *)
Definition visits (rev_ : bool) (bundle : SnapshotBundle D) (index : nat) (st st' : option Quote * TokenAmount) : Prop :=
  exists hop snapshot answer, path rev_ !! index = Some hop /\ child bundle (hp_Market hop) = Some snapshot /\
    gave mode hop snapshot st.2 answer /\ st'.2 = next_amount mode answer.

Lemma input_hop_sound input bundle rev_ st index : mode = QuoteModeExactInput -> (index < length (so_hops s0))%nat ->
  Post_sound (input_hop input bundle rev_ st index) (visits rev_ bundle index st).
Proof using Hmarkets Hdistinct.
  intros Hm Hi. unfold input_hop. apply Post_sound_bind with (Q := fun x => sound x.1); [apply Post_sound_get|]. intros [s t] Hs. cbn [fst] in Hs.
  rewrite (sd_hops s Hs). apply Post_sound_bind with (Q := fun hop => path rev_ !! index = Some hop); [apply Post_sound_lift; intros hop; by apply hopAt_path|].
  intros hop Hhop. destruct (child bundle (hp_Market hop)) as [snapshot|] eqn:Hc; [|apply Post_sound_fail]. destruct (decide _); [apply Post_sound_fail|].
  eapply Post_sound_bind; [apply hop_answer_sound|].
  - by eapply path_directed.
  - intros r Hr. destruct (hp_Source hop) as [source|] eqn:Hsrc; [|done]. exists source. split; [done|]. left. split; [done|].
    eexists. split; [exact Hr|]. cbn. by rewrite (child_market _ _ _ Hc).
  - intros answer Hg. apply Post_sound_mret. exists hop, snapshot, answer. split_and!; try done. cbn. unfold next_amount. by rewrite decide_True.
Qed.

Lemma output_hop_sound input bundle rev_ st index : mode = QuoteModeExactOutput -> (index < length (so_hops s0))%nat ->
  Post_sound (output_hop input bundle rev_ st index) (visits rev_ bundle index st).
Proof using Hmarkets Hdistinct.
  intros Hm Hi. unfold output_hop. apply Post_sound_bind with (Q := fun x => sound x.1); [apply Post_sound_get|]. intros [s t] Hs. cbn [fst] in Hs.
  rewrite (sd_hops s Hs). apply Post_sound_bind with (Q := fun hop => path rev_ !! index = Some hop); [apply Post_sound_lift; intros hop; by apply hopAt_path|].
  intros hop Hhop. destruct (hp_Source hop) as [source|] eqn:Hsrc; [|apply Post_sound_fail]. cbn [mbind option_bind].
  destruct (hs_QuoteExactOutput source) as [quote|] eqn:Hq; [|apply Post_sound_fail].
  destruct (child bundle (hp_Market hop)) as [snapshot|] eqn:Hc; [|apply Post_sound_fail].
  eapply Post_sound_bind; [apply hop_answer_sound|].
  - by eapply path_directed.
  - intros r Hr. exists source. split; [done|]. right. split; [done|]. exists quote. eexists. split; [done|]. split; [exact Hr|]. cbn. by rewrite (child_market _ _ _ Hc).
  - intros answer Hg. apply Post_sound_mret. exists hop, snapshot, answer. split_and!; try done. cbn. unfold next_amount. by rewrite decide_False by (rewrite Hm; done).
Qed.

Lemma quote_input_sound ctx input : mode = QuoteModeExactInput ->
  Post_sound (quote_input ctx input) (routed (mkRouteKey (snap_Version (in_Snapshot input)) (md_StateHash (snap_metadata (in_Snapshot input)))
    (in_TokenIn input) (in_TokenOut input) (TokenAmount_String (in_AmountIn input)) QuoteModeExactInput)).
Proof using Hmarkets Hdistinct.
  intros Hm. unfold quote_input. destruct ctx as [e|]; [apply Post_sound_lift; done|].
  apply Post_sound_bind with (Q := fun x => sound x.1); [apply Post_sound_get|]. intros [s t] Hs. cbn [fst] in Hs. rewrite (sd_market s Hs).
  destruct (decide _); [apply Post_sound_fail|].
  apply Post_sound_bind with (Q := fun r => reverseFor (so_market s0) (in_TokenIn input) (in_TokenOut input) = Ok r); [by apply Post_sound_lift|]. intros rev_ Hrev.
  destruct (snap_data (in_Snapshot input)) as [[data|bundle]|] eqn:Hdata; [apply Post_sound_fail| |apply Post_sound_fail]. cbv zeta.
  apply route_answer_sound; [done|]. unfold input_route.
  apply Post_sound_bind with (Q := fun x => sound x.1); [apply Post_sound_get|]. intros [s1 t1] Hs1. cbn [fst] in Hs1. rewrite (sd_hops s1 Hs1).
  eapply Post_sound_bind.
  - apply (loop_sound bundle _ (path rev_) (seq 0 (length (so_hops s0))) (in_AmountIn input)) with (k := 0%nat); [|done|lia|constructor].
    intros st k index [-> Hk]%lookup_seq. cbn [Nat.add]. by apply input_hop_sound.
  - intros [first current] Hc. cbn [snd] in Hc. rewrite length_seq, <- (path_length rev_), firstn_all in Hc.
    apply Post_sound_lift. intros q Hq. apply route_quote_fields in Hq as (H1 & H2 & H3 & H4 & H5 & H6).
    exists rev_, (in_Snapshot input), bundle. cbn. unfold next_amount. rewrite !(decide_True (P := mode = _)) by done. rewrite !H5, !H6.
    rewrite (sd_id s1 Hs1) in H1. rewrite (sd_market s1 Hs1) in H2. by split_and!.
Qed.

Lemma quote_output_sound ctx input : mode = QuoteModeExactOutput ->
  Post_sound (quote_output ctx input) (routed (mkRouteKey (snap_Version (out_Snapshot input)) (md_StateHash (snap_metadata (out_Snapshot input)))
    (out_TokenIn input) (out_TokenOut input) (TokenAmount_String (out_AmountOut input)) QuoteModeExactOutput)).
Proof using Hmarkets Hdistinct.
  intros Hm. unfold quote_output. destruct ctx as [e|]; [apply Post_sound_lift; done|].
  apply Post_sound_bind with (Q := fun x => sound x.1); [apply Post_sound_get|]. intros [s t] Hs. cbn [fst] in Hs. rewrite (sd_market s Hs).
  apply Post_sound_bind with (Q := fun r => reverseFor (so_market s0) (out_TokenIn input) (out_TokenOut input) = Ok r); [by apply Post_sound_lift|]. intros rev_ Hrev.
  destruct (snap_data (out_Snapshot input)) as [[data|bundle]|] eqn:Hdata; [apply Post_sound_fail| |apply Post_sound_fail]. cbv zeta.
  apply route_answer_sound; [done|]. unfold output_route.
  apply Post_sound_bind with (Q := fun x => sound x.1); [apply Post_sound_get|]. intros [s1 t1] Hs1. cbn [fst] in Hs1. rewrite (sd_hops s1 Hs1).
  set (n := length (so_hops s0)). eapply Post_sound_bind.
  - apply (loop_sound bundle _ (reverse (path rev_)) (reverse (seq 0 n)) (out_AmountOut input)) with (k := 0%nat); [|done|lia|constructor].
    intros st k index Hk. pose proof (lookup_lt_Some _ _ _ Hk) as Hlt. rewrite length_reverse, length_seq in Hlt.
    rewrite reverse_lookup in Hk by (by rewrite length_seq). rewrite length_seq in Hk. apply lookup_seq in Hk as [-> _]. cbn [Nat.add].
    intros s2 t2 Hs2. pose proof (output_hop_sound input bundle rev_ st (n - S k) Hm ltac:(lia) s2 t2 Hs2) as H. unfold Post in *.
    destruct (output_hop _ _ _ _ _ _) as [r st']. destruct H as [H Hr]. split; [done|]. intros a Ha. destruct (Hr a Ha) as (hop & snapshot & answer & Hh & ?).
    exists hop, snapshot, answer. split; [|done]. rewrite reverse_lookup by (rewrite path_length; done). by rewrite path_length.
  - intros [final current] Hc. cbn [snd] in Hc. rewrite length_reverse, length_seq in Hc. unfold n in Hc.
    rewrite <- (path_length rev_), <- (length_reverse (path rev_)), firstn_all in Hc.
    apply Post_sound_lift. intros q Hq. apply route_quote_fields in Hq as (H1 & H2 & H3 & H4 & H5 & H6).
    exists rev_, (out_Snapshot input), bundle. cbn. unfold next_amount. rewrite !(decide_False (P := mode = _)) by (rewrite Hm; done). rewrite !H5, !H6.
    rewrite (sd_id s1 Hs1) in H1. rewrite (sd_market s1 Hs1) in H2. by split_and!.
Qed.

Lemma sound_timing s t : sound s -> sound (setTiming t s).
Proof using. by intros []. Qed.

Lemma with_timing_sound m (Q : Quote -> Prop) s : Post_sound m Q -> sound s -> Post (with_timing m) s (fun r s' => sound s' /\ forall q, r = Ok q -> Q q).
Proof using.
  intros Hm Hs. specialize (Hm s Timing_zero Hs). unfold Post, with_timing in *. destruct (m _) as [r [s' t']]. destruct Hm as [H1 H2]. split; [by apply sound_timing|done].
Qed.
End sound.

(** Calls of one mode on a new source. *)
Inductive history (mode : string) (s0 : Source D) : Source D -> Prop :=
| hi_new : history mode s0 s0
| hi_input ctx input s : mode = QuoteModeExactInput -> history mode s0 s -> history mode s0 (Source_Quote ctx input s).2
| hi_output ctx input s : mode = QuoteModeExactOutput -> history mode s0 s -> history mode s0 (Source_QuoteExactOutput ctx input s).2.

Lemma check_hops_distinct (hops : list (Hop D)) : forall state state', foldM check_hop state hops = Ok state' -> Forall (fun hop => hp_In hop <> hp_Out hop) hops.
Proof using.
  induction hops as [|hop hops IH]; intros state state'; cbn [foldM]; [constructor|]. intros (st & Hc & Hr)%bind_Ok. constructor; [|by eapply IH].
  unfold check_hop in Hc. destruct state as [index previous]. res_inv. tauto.
Qed.

Lemma newSource_fields id candidate (hops : list (Hop D)) cache s : newSource id candidate hops cache = Ok s ->
  s = mkSource id candidate hops cache ∅ ∅ Timing_zero /\ Forall (fun hop => hp_In hop <> hp_Out hop) hops.
Proof using.
  unfold newSource. intros H. destruct (decide _); [done|]. apply bind_Ok in H as ([index previous] & Hc & H). destruct (decide _); [done|]. injection H as <-.
  split; [done|]. by eapply check_hops_distinct.
Qed.

Lemma new_sound id candidate hops cache s0 mode : newSource id candidate hops cache = Ok s0 -> sound s0 mode s0.
Proof using. intros [-> _]%newSource_fields. by split; cbn; intros *; rewrite ?lookup_empty. Qed.

Lemma history_sound mode s0 s : NoDup (hp_Market <$> so_hops s0) -> Forall (fun hop => hp_In hop <> hp_Out hop) (so_hops s0) -> sound s0 mode s0 ->
  history mode s0 s -> sound s0 mode s.
Proof using.
  intros Hm Hd H0. induction 1 as [|ctx input s Hmode _ IH|ctx input s Hmode _ IH]; [done| |].
  - pose proof (with_timing_sound s0 mode _ _ s (quote_input_sound s0 mode Hm Hd ctx input Hmode) IH) as H. unfold Post in H. unfold Source_Quote.
    by destruct (with_timing _ s) as [r s']; destruct H.
  - pose proof (with_timing_sound s0 mode _ _ s (quote_output_sound s0 mode Hm Hd ctx input Hmode) IH) as H. unfold Post in H. unfold Source_QuoteExactOutput.
    by destruct (with_timing _ s) as [r s']; destruct H.
Qed.
End history.

(** A quote is a chain of answers.  Whatever was quoted before in the same mode, on any
    snapshots and in both directions, a quote that a route returns names the snapshot
    asked about, starts or ends in the amount asked for, and its other amount is reached
    by a chain over the hops in their order, in which every hop gave its answer for the
    amount the one before it ended in, on a snapshot of the version and hash of the one
    asked about. *)
Theorem route_quotes_chain {D : Type} id candidate (hops : list (Hop D)) cache s0 s :
  newSource id candidate hops cache = Ok s0 -> NoDup (hp_Market <$> hops) ->
  (history QuoteModeExactInput s0 s -> forall ctx input q s', Source_Quote ctx input s = (Ok q, s') ->
     exists reverse_ snapshot bundle, reverseFor candidate (in_TokenIn input) (in_TokenOut input) = Ok reverse_ /\
       same_state snapshot (in_Snapshot input) /\ snap_data snapshot = Some (BundleData bundle) /\
       Units (q_AmountIn q) = Units (in_AmountIn input) /\
       chain QuoteModeExactInput bundle (path s0 reverse_) (q_AmountIn q) (q_AmountOut q) /\
       q_Source q = id /\ q_Market q = Market_ID candidate /\
       q_SnapshotVersion q = snap_Version (in_Snapshot input) /\ q_SnapshotHash q = md_StateHash (snap_metadata (in_Snapshot input))) /\
  (history QuoteModeExactOutput s0 s -> forall ctx input q s', Source_QuoteExactOutput ctx input s = (Ok q, s') ->
     exists reverse_ snapshot bundle, reverseFor candidate (out_TokenIn input) (out_TokenOut input) = Ok reverse_ /\
       same_state snapshot (out_Snapshot input) /\ snap_data snapshot = Some (BundleData bundle) /\
       Units (q_AmountOut q) = Units (out_AmountOut input) /\
       chain QuoteModeExactOutput bundle (reverse (path s0 reverse_)) (q_AmountOut q) (q_AmountIn q) /\
       q_Source q = id /\ q_Market q = Market_ID candidate /\
       q_SnapshotVersion q = snap_Version (out_Snapshot input) /\ q_SnapshotHash q = md_StateHash (snap_metadata (out_Snapshot input))).
Proof.
  intros Hn HN. pose proof (newSource_fields _ _ _ _ _ Hn) as [Hs0 Hd]. assert (so_hops s0 = hops /\ so_market s0 = candidate /\ so_id s0 = id) as (Hh & Hma & Hid) by by subst s0.
  split; intros Hhist ctx input q s' Hq.
  - pose proof (history_sound _ s0 s ltac:(by rewrite Hh) ltac:(by rewrite Hh) (new_sound _ _ _ _ _ _ Hn) Hhist) as Hs.
    pose proof (with_timing_sound s0 _ _ _ s (quote_input_sound s0 _ ltac:(by rewrite Hh) ltac:(by rewrite Hh) ctx input eq_refl) Hs) as H.
    unfold Post in H. unfold Source_Quote in Hq. rewrite Hq in H. destruct H as [_ H]. destruct (H q eq_refl) as (rev_ & snapshot & bundle & H1 & H2 & H3 & H4 & H5 & H6 & H7 & H8 & H9 & H10).
    rewrite Hma in H1, H8. rewrite Hid in H7. cbn in H5. apply pretty_Z_inj in H5. by exists rev_, snapshot, bundle.
  - pose proof (history_sound _ s0 s ltac:(by rewrite Hh) ltac:(by rewrite Hh) (new_sound _ _ _ _ _ _ Hn) Hhist) as Hs.
    pose proof (with_timing_sound s0 _ _ _ s (quote_output_sound s0 _ ltac:(by rewrite Hh) ltac:(by rewrite Hh) ctx input eq_refl) Hs) as H.
    unfold Post in H. unfold Source_QuoteExactOutput in Hq. rewrite Hq in H. destruct H as [_ H]. destruct (H q eq_refl) as (rev_ & snapshot & bundle & H1 & H2 & H3 & H4 & H5 & H6 & H7 & H8 & H9 & H10).
    rewrite Hma in H1, H8. rewrite Hid in H7. cbn in H5. apply pretty_Z_inj in H5. by exists rev_, snapshot, bundle.
Qed.

(** ** Routes and their mirrors *)

Section composition.
Context {C W D E : Type} `{FeedMirror C W D E} `{!FeedMirrorLaws C W D E} `{!RangeOrder MarketID}.

Lemma collect_children (children : list (RouteChild (C := C) (D := D))) : forall acc acc', foldM collect_child acc children = Ok acc' ->
  acc'.1 = acc.1 ++ (rc_Mirror <$> children) /\ hp_Market <$> acc'.2 = (hp_Market <$> acc.2) ++ ((fun child => Market_ID (rc_Market child)) <$> children) /\
  Forall (fun child => is_Some (rc_Mirror child)) children.
Proof using.
  clear. induction children as [|child children IH]; intros acc acc'; cbn [foldM]; [intros [= <-]; rewrite !app_nil_r; split_and!; [done|done|constructor]|].
  intros (acc1 & Hc & Hr)%bind_Ok. apply IH in Hr as (H1 & H2 & H3). unfold collect_child in Hc.
  destruct (rc_Mirror child) as [mirror|] eqn:Hm; [|done]. destruct (rc_Source child) as [source|]; [|done]. destruct (decide _); [done|]. injection Hc as <-.
  rewrite H1, H2, !fmap_cons, Hm. cbn [fst snd]. rewrite fmap_app, <- !app_assoc. split_and!; [done|done|by constructor].
Qed.

Lemma add_children (cs : list C) : forall acc acc', foldM add_child acc (Some <$> cs) = Ok acc' -> acc'.2 = acc.2 ++ (fm_MarketID <$> cs).
Proof using.
  induction cs as [|c cs IH]; intros acc acc'; cbn [foldM fmap list_fmap]; [intros [= <-]; by rewrite app_nil_r|].
  intros (acc1 & Hc & Hr)%bind_Ok. apply IH in Hr as ->. cbn [add_child] in Hc. destruct (decide _); [done|]. destruct (decide _); [done|]. injection Hc as <-.
  cbn [snd]. by rewrite <- app_assoc.
Qed.

Lemma child_found (P : MarketID -> MarketSnapshot D -> Prop) (bundle : SnapshotBundle D) ids id :
  Forall2 (fun id snapshot => snap_Market snapshot = id /\ P id snapshot) ids (bundle_snapshots bundle) -> id ∈ ids ->
  exists snapshot, child bundle id = Some snapshot /\ P id snapshot.
Proof using.
  clear. unfold child. generalize (bundle_snapshots bundle). intros l Hl. induction Hl as [|i x ids l [Hx HP] _ IH]; [by intros ?%not_elem_of_nil|].
  intros Hid. cbn [list_find]. destruct (decide _) as [He|Hne].
  - exists x. split; [done|]. by rewrite <- He, Hx.
  - apply elem_of_cons in Hid as [->|Hid]; [done|]. destruct (IH Hid) as (snapshot & Hs & HP'). exists snapshot. split; [|done].
    apply fmap_Some in Hs as ([j y] & -> & ->). done.
Qed.

(** A route source finds its hops in the snapshots of its mirror: a route whose mirrors
    carry the markets they were configured for has distinct hops, in the order of the
    mirror's children, and in every snapshot that the mirror composes each hop has the
    current snapshot of its pool. *)
Theorem NewRoute_composes given candidate sourceID (children : list (RouteChild (C := C) (D := D))) r :
  (forall child mirror, child ∈ children -> rc_Mirror child = Some mirror -> fm_ok mirror /\ fm_MarketID mirror = Market_ID (rc_Market child)) ->
  NewRoute given candidate sourceID children = Ok r ->
  rt_order (ro_Mirror r) = hp_Market <$> so_hops (ro_Source r) /\ NoDup (hp_Market <$> so_hops (ro_Source r)) /\ route_ok (Market_ID candidate) (ro_Mirror r) /\
  forall m bundle hop, route_ok (Market_ID candidate) m -> composed m -> rt_order m = rt_order (ro_Mirror r) -> rt_hasState m = true ->
    snap_data (rt_current m) = Some (BundleData bundle) -> hop ∈ so_hops (ro_Source r) ->
    exists c snapshot, rt_children m !! hp_Market hop = Some c /\ fm_Current c = (snapshot, true) /\ child bundle (hp_Market hop) = Some snapshot.
Proof using.
  intros Hchildren Hr. unfold NewRoute in Hr. destruct (decide _); [done|]. apply bind_Ok in Hr as ([mirrors hops] & Hc & Hr). apply bind_Ok in Hr as (mirror & Hm & Hr).
  apply bind_Ok in Hr as (source & Hs & [= <-]). apply collect_children in Hc as (H1 & H2 & H3). cbn [fst snd app fmap list_fmap] in H1, H2. cbn [ro_Mirror ro_Source].
  pose proof (newSource_fields _ _ _ _ _ Hs) as [-> _]. cbn [so_hops].
  assert (exists cs, mirrors = Some <$> cs /\ fm_MarketID <$> cs = (fun child => Market_ID (rc_Market child)) <$> children) as (cs & Hcs & Hids).
  { clear -H1 H3 Hchildren. subst mirrors. induction children as [|child children IH]; [by exists []|]. apply Forall_cons in H3 as [[c Hc] H3].
    destruct IH as (cs & H4 & H5); [intros; eapply Hchildren; [by right|done]|done|]. exists (c :: cs). rewrite !fmap_cons, Hc, H4, H5. split; [done|].
    f_equal. apply (Hchildren child); [by left|done]. }
  assert (route_ok (Market_ID candidate) mirror) as Hok.
  { eapply NewRouteMirror_ok; [|exact Hm]. rewrite H1. intros c (child & Hc & Hin)%list_elem_of_fmap. by eapply Hchildren. }
  assert (rt_order mirror = hp_Market <$> hops) as Horder.
  { unfold NewRouteMirror in Hm. destruct (decide _); [done|]. apply bind_Ok in Hm as ([byID order] & Hadd & [= <-]). rewrite Hcs in Hadd.
    apply add_children in Hadd. cbn [snd app] in Hadd. cbn [rt_order]. by rewrite H2, Hadd. }
  split_and!; [done|rewrite <- Horder; apply Hok|done|]. intros m bundle hop Hmok Hcomp Hord Hst Hdata Hhop.
  unfold composed in Hcomp. rewrite Hst in Hcomp. destruct Hcomp as (bundle' & Hb & Hall & _). rewrite Hdata in Hb. injection Hb as <-.
  destruct (child_found (fun id snapshot => exists c, rt_children m !! id = Some c /\ fm_Current c = (snapshot, true)) bundle (rt_order m) (hp_Market hop)) as (snapshot & Hf & c & Hcm & Hcur).
  - eapply Forall2_impl; [exact Hall|]. intros id snapshot (c & Hcm & Hcur). split; [|by exists c]. destruct (ro_child _ _ Hmok id c Hcm) as [Hcok Hid].
    destruct (fm_Current_ok c snapshot Hcok Hcur) as [_ ->]. done.
  - rewrite Hord, Horder. apply list_elem_of_fmap. by exists hop.
  - by exists c, snapshot.
Qed.
End composition.

(** ** Witnesses: a route over two pools of constant rates *)

Module RouteQuoteWitness.
(** A pool that pays [n] units for every [d]. *)
Definition rate_quote (snapshot : MarketSnapshot unit) (purpose mode : string) (a b : TokenAmount) (at_ : Time) : res Quote :=
  NewQuote (mkQuote "pool" (snap_Market snapshot) (snap_Version snapshot) (md_StateHash (snap_metadata snapshot)) (mkSourcePosition "" 0) "" purpose mode "" a b at_ []) [].
Definition rate_source (n d : Z) : HopSource unit := mkHopSource
  (fun i => rate_quote (in_Snapshot i) (in_Purpose i) QuoteModeExactInput (in_AmountIn i) (mkTokenAmount (in_TokenOut i) (Some (Units (in_AmountIn i) * n / d))) (in_QuotedAt i))
  (Some (fun o => rate_quote (out_Snapshot o) (out_Purpose o) QuoteModeExactOutput (mkTokenAmount (out_TokenIn o) (Some ((Units (out_AmountOut o) * d + n - 1) / n)))
     (out_AmountOut o) (out_QuotedAt o))).

Definition metadata (id : MarketID) (version : Z) (hash : Digest) : SnapshotMetadata :=
  mkSnapshotMetadata id "feed" version (mkSourcePosition "block" 1) (mkSourceReference "" "") "preconfirmed" 0 false 1 1 HealthHealthy "" 1 hash.
Definition pool (id : MarketID) : MarketSnapshot unit := mkMarketSnapshot (metadata id 1 "h") (Some tt).
Definition snapshot : MarketSnapshot (RouteData unit) :=
  mkMarketSnapshot (metadata "route" 7 "r") (Some (BundleData (mkSnapshotBundle "route" [pool "eth/usdc"; pool "usdc/usdt"] 1 "r"))).

Definition candidate : Market := mkMarket "route" "pair" "optimism" "path" "eth" "usdt".
Definition hops : list (Hop unit) := [mkHop "eth/usdc" "eth" "usdc" (Some (rate_source 3 1)); mkHop "usdc/usdt" "usdc" "usdt" (Some (rate_source 2 3))].
Definition sell (units : Z) : QuoteInput (RouteData unit) := mkQuoteInput snapshot "eth" "usdt" (mkTokenAmount "eth" (Some units)) "research" 5.
Definition fresh : Source unit := mkSource "route/local" candidate hops true ∅ ∅ Timing_zero.
Definition asked : Source unit := (Source_Quote None (sell 10) fresh).2.

(** The second quote for ten units comes from the cache; its chain is that of the hops. *)
Lemma route_chain_witness : exists q s' reverse_ snapshot' bundle, Source_Quote None (sell 10) asked = (Ok q, s') /\ tm_Cached (LastTiming s') = true /\
  Units (q_AmountOut q) = 20 /\ same_state snapshot' snapshot /\ snap_data snapshot' = Some (BundleData bundle) /\
  chain QuoteModeExactInput bundle (path fresh reverse_) (q_AmountIn q) (q_AmountOut q).
Proof.
  assert (newSource "route/local" candidate hops true = Ok fresh) as Hn by (vm_compute; reflexivity).
  assert (NoDup (hp_Market <$> hops)) as HN by (apply (bool_decide_unpack _); vm_compute; exact I).
  assert (history QuoteModeExactInput fresh asked) as Hh by (apply hi_input; [reflexivity|apply hi_new]).
  assert (match Source_Quote None (sell 10) asked with (Ok q, s') => tm_Cached (LastTiming s') = true /\ Units (q_AmountOut q) = 20 | _ => False end) as H
    by (vm_compute; split; reflexivity).
  destruct (Source_Quote None (sell 10) asked) as [[q|e|why] s'] eqn:Hq; [|destruct H|destruct H]. destruct H as [Ht Hu].
  destruct (proj1 (route_quotes_chain "route/local" candidate hops true fresh asked Hn HN) Hh None (sell 10) q s' Hq) as (rev_ & snapshot' & bundle & _ & Hs & Hd & _ & Hc & _).
  exists q, s', rev_, snapshot', bundle. exact (conj eq_refl (conj Ht (conj Hu (conj Hs (conj Hd Hc))))).
Defined.

End RouteQuoteWitness.

(** The caches of the two modes are shared: a route of one pool that pays two units for
    three asks 45 units for an output of 30, but only 30 after it was asked what an
    input of 30 units yields, although those yield 20. *)
Theorem exact_output_after_input :
  let market := mkMarket "route" "pair" "optimism" "path" "usdc" "usdt" in
  let source := mkSource "route/local" market [mkHop "usdc/usdt" "usdc" "usdt" (Some (RouteQuoteWitness.rate_source 2 3))] true ∅ ∅ Timing_zero in
  let input := mkQuoteInput RouteQuoteWitness.snapshot "usdc" "usdt" (mkTokenAmount "usdc" (Some 30)) "research" 5 in
  let output := mkExactOutputInput RouteQuoteWitness.snapshot "usdc" "usdt" (mkTokenAmount "usdt" (Some 30)) "research" 5 in
  let '(sold, asked) := Source_Quote None input source in
  match sold, (Source_QuoteExactOutput None output source).1, (Source_QuoteExactOutput None output asked).1 with
  | Ok sold, Ok before, Ok after =>
      Units (q_AmountOut sold) = 20 /\ Units (q_AmountIn before) = 45 /\
      Units (q_AmountIn after) = 30 /\ Units (q_AmountOut after) = 30
  | _, _, _ => False
  end.
Proof. vm_compute. repeat split. Qed.
