(* ===== verification/UniswapMirror.v ===== *)
(** * A Uniswap V3 market end to end
    (src/adapters/market/uniswapv3 under src/core/marketstate)

    The Uniswap V3 reducer keeps the contract of the mirror, so that a quote on what
    the mirror publishes is always answered; the mirror, in turn, is a child of a
    route.  The witnesses of the mirror and of the route are a pool fed by two
    events. *)
From Stdlib Require Import Sorted.
From S2P Require Import Prelude Amount Quote Registry Pools UniswapV3 UniswapSwap UniswapTraversal UniswapLiquidity MarketState RouteMirror.
Local Open Scope Z_scope.

#[export] Instance Snapshot_kind : SnapshotData Snapshot := fun _ => "uniswap_v3/v1".

#[export] Instance UniswapEvent_kind : EventData UniswapEvent := fun event =>
  match event with
  | StateEvent _ => "uniswap_v3/state/v1"
  | PoolEvent (SwapUpdate _ _ _) => "uniswap_v3/swap/v1"
  | PoolEvent (FeeUpdate _) => "uniswap_v3/fee/v1"
  | PoolEvent (LiquidityUpdate _ _ _) => "uniswap_v3/liquidity/v1"
  | PoolEvent (InitializeUpdate _ _) => "uniswap_v3/initialize/v1"
  | BlockUpdate _ => "uniswap_v3/block/v1"
  end.

Section market.
Context {order : RangeOrder Z} (sha256 : string -> Digest).

#[export, refine] Instance uniswap_reducer : Reducer Snapshot UniswapEvent := {|
  reduce ctx_Err := Reduce Some id (id : option UniswapEvent -> option UniswapEvent) sha256 ctx_Err;
  data_ok := snapshot_ok |}.
Proof using order sha256.
  intros [e|] previous event d digest Hprev H; [done|]. apply Reduce_accepted in H as [(s & [= <-] & Hok & _)|[_ <-]].
  - done.
  - split; [by apply Hprev|done].
Defined.

Context {W : Type} (Stale : SnapshotMetadata -> MarketEvent UniswapEvent -> option string) (clock : W -> Time * W).

(** C30. Whatever a feed of a Uniswap V3 pool does, a quote on the snapshot of its mirror
    never panics, and an answer is for the amount asked, on the last version the
    mirror published. *)
Theorem mirror_quotes_answer n versions m quoter input :
  mirrored Stale clock n versions m -> Z.of_nat n < 2 ^ 64 -> mr_hasState m = true ->
  in_Snapshot input = mr_current m ->
  (forall state, snap_data (mr_current m) = Some state -> 0 <= us_feePips state) ->
  no_panic (UniswapV3.Quote Some quoter None input) /\
  forall quote, UniswapV3.Quote Some quoter None input = Ok quote ->
    answers_request input quote /\ head versions = Some (q_SnapshotVersion quote).
Proof using.
  intros Hm Hn Hst Hin Hfee. destruct (mo_current m (mirrored_ok _ _ _ _ _ Hm) Hst) as (_ & _ & _ & d & Hd & Hok & _).
  destruct (mirrored_versions _ _ _ _ _ Hm Hn) as (_ & _ & _ & Hhead). rewrite Hst in Hhead.
  destruct (uniswap_v3_source Some quoter) as [Hanswers Hpanic]. split.
  - apply Hpanic. intros state Hs. rewrite Hin in Hs. unfold pool_state in Hs. rewrite Hd in Hs. cbn in Hs.
    destruct (decide _) in Hs; [done|]. injection Hs as <-. by split; [|apply Hfee].
  - intros quote Hq. pose proof (Hanswers input quote Hq) as Ha. split; [done|]. rewrite Hhead. f_equal.
    unfold answers_request in Ha. rewrite Hin in Ha. symmetry. unfold snap_Version. tauto.
Qed.
End market.

Module UniswapMirrorWitness.
Import UniswapWitness.
#[local] Existing Instance range_map_to_list.
#[local] Existing Instance uniswap_reducer.
Definition hash (s : string) : Digest := "h".
#[local] Existing Instance mirror_feed.
Definition clock (w : unit) : Time * unit := (9, w).
Definition blocks : Monotonic := mkMonotonic BlockPositionKind false.
Definition Stale : SnapshotMetadata -> MarketEvent UniswapEvent -> option string := Monotonic_Stale blocks.
#[local] Instance reducer : Reducer Snapshot UniswapEvent := uniswap_reducer hash.

Definition event (block : Z) (receivedAt : Time) (data : UniswapEvent) : MarketEvent UniswapEvent :=
  mkMarketEvent "pool" "rpc" (mkSourcePosition "block" block) (mkSourceReference "tx" "0x1") "latest" 0 false receivedAt
    false (Some data).
Definition bootstrap : MarketEvent UniswapEvent :=
  event 100 5 (StateEvent (mkStateUpdate (us_sqrtPriceX96 pool) (us_tick pool) (us_liquidity pool) (us_feePips pool)
    (us_tickSpacing pool) (us_ticks pool) (us_coverage pool))).
Definition raised_fee : MarketEvent UniswapEvent := event 101 6 (PoolEvent (FeeUpdate 500)).
Definition reorged : MarketEvent UniswapEvent := event 99 7 (PoolEvent (FeeUpdate 100)).

Definition no_mirror : Mirror Snapshot := mkMirror "" "" 0 MarketSnapshot_zero false "" "" 0.
Definition fresh : Mirror Snapshot := default no_mirror (res_opt (NewMirror clock true "pool" "rpc" tt).1).
Definition apply (e : MarketEvent UniswapEvent) (m : Mirror Snapshot) : res (ApplyResult Snapshot) * (Mirror Snapshot * unit) :=
  Apply Stale clock None e (m, tt).
Definition booted : Mirror Snapshot := (apply bootstrap fresh).2.1.
Definition running : Mirror Snapshot := (apply raised_fee booted).2.1.

Lemma booted_mirrored : mirrored Stale clock 1 [1] booted.
Proof.
  assert (published_version (apply bootstrap fresh).1 = [1]) as H1 by (vm_compute; reflexivity).
  change [1] with ([1] ++ []). rewrite <- H1.
  eapply (mirrored_apply Stale clock 0 [] fresh None bootstrap tt _ booted tt); [|vm_compute; reflexivity].
  eapply (mirrored_new Stale clock true "pool" "rpc" tt fresh tt). reflexivity.
Qed.

Lemma booted_ok : mirror_ok (E := UniswapEvent) booted.
Proof. exact (mirrored_ok Stale clock 1 [1] booted booted_mirrored). Qed.

Lemma versions_mirrored : mirrored Stale clock 2 [2; 1] running.
Proof.
  assert (published_version (apply raised_fee booted).1 = [2]) as H2 by (vm_compute; reflexivity).
  change [2; 1] with ([2] ++ [1]). rewrite <- H2.
  eapply (mirrored_apply Stale clock 1 _ booted None raised_fee tt _ running tt); [exact booted_mirrored|vm_compute; reflexivity].
Qed.

Lemma versions_witness : StronglySorted Z.gt [2; 1] /\ head [2; 1] = Some (snap_Version (mr_current running)).
Proof.
  assert (mr_hasState running = true) as Hst by (vm_compute; reflexivity).
  destruct (mirror_versions Stale clock 2 [2; 1] running versions_mirrored ltac:(vm_compute; reflexivity)) as (Hs & _ & Hc).
  exact (conj Hs (proj2 (Hc Hst))).
Defined.

Lemma validated_witness : snap_Version (mr_current running) = 2 /\ in_sync running.
Proof.
  assert (mr_hasState booted = true /\ mr_version booted = 1) as [Hst Hv] by (vm_compute; done).
  destruct (Apply_validated Stale clock None raised_fee booted tt (apply raised_fee booted).1 running tt) as [Hs Hcase].
  - exact booted_ok.
  - intros _. vm_compute. exact (conj eq_refl (conj eq_refl eq_refl)).
  - lia.
  - lia.
  - vm_compute. reflexivity.
  - intros []. discriminate.
  - intros previous digest Hr. apply Reduce_accepted in Hr as [(d & [=] & _)|[[=] _]].
  - vm_compute. reflexivity.
  - split; [|exact Hs]. destruct Hcase as [[Heq _]|(d & digest & _ & _ & _ & _ & Hver & _)]; [|rewrite Hver, Hv; reflexivity].
    exfalso. apply (f_equal mr_version) in Heq. vm_compute in Heq. discriminate Heq.
Defined.

Lemma order_witness :
  pos_Value (md_EventPosition (snap_metadata (mr_current booted))) <=
  pos_Value (md_EventPosition (snap_metadata (mr_current (apply_all blocks clock None [raised_fee; reorged] (booted, tt)).1))).
Proof.
  assert (mr_hasState booted = true) as Hst by (vm_compute; reflexivity).
  apply (proj1 (monotonic_never_back blocks clock None [raised_fee; reorged] booted tt Hst)).
  - discriminate.
  - vm_compute. reflexivity.
  - repeat constructor.
Defined.

(** A quote on the running mirror. *)
Definition weth_usdc : Market := mkMarket "pool" "pair" "ethereum" "path" "WETH" "USDC".
Definition quoter : Quoter := mkQuoter "uniswap" weth_usdc "WETH" "USDC".
Definition request : QuoteInput Snapshot :=
  mkQuoteInput (mr_current running) "WETH" "USDC" (mkTokenAmount "WETH" (Some (10 ^ 15))) "sizing" 11.

Lemma answered_witness : no_panic (UniswapV3.Quote Some quoter None request).
Proof.
  refine (proj1 (mirror_quotes_answer hash Stale clock 2 [2; 1] running quoter request versions_mirrored _ _ eq_refl _)).
  - reflexivity.
  - vm_compute. reflexivity.
  - intros state Hs. vm_compute in Hs. injection Hs as <-. vm_compute. discriminate.
Defined.

(** A route of the pool and of a second one without state yet. *)
Definition second : Mirror Snapshot := mkMirror "pool2" "rpc" 0 MarketSnapshot_zero false HealthHealthy "" 9.
Definition no_route : RouteMirror (Mirror Snapshot) Snapshot :=
  mkRouteMirror "" "" ∅ [] 0 MarketSnapshot_zero false "".
#[local] Instance feed : FeedMirror (Mirror Snapshot) unit Snapshot UniswapEvent := mirror_feed Stale clock.
#[local] Instance feed_laws : FeedMirrorLaws (Mirror Snapshot) unit Snapshot UniswapEvent := mirror_feed_laws Stale clock.
Definition one : RouteMirror (Mirror Snapshot) Snapshot :=
  default no_route (res_opt (NewRouteMirror true "route" "composer" [Some booted])).
Definition two : RouteMirror (Mirror Snapshot) Snapshot :=
  default no_route (res_opt (NewRouteMirror true "route" "composer" [Some fresh; Some second])).
Definition batch (r : RouteMirror (Mirror Snapshot) Snapshot) (events : list (MarketEvent UniswapEvent)) :=
  ApplyBatch clock hash None events (r, tt).

Lemma only_child {C} (a c : C) : Some c ∈ [Some a] -> c = a.
Proof. intros Hc%list_elem_of_singleton. by injection Hc. Qed.

Lemma route_witness : rt_hasState (batch one [raised_fee]).2.1 = true /\ composed (batch one [raised_fee]).2.1.
Proof.
  assert (NewRouteMirror true "route" "composer" [Some booted] = Ok one) as Hone by (vm_compute; reflexivity).
  destruct (NewRouteMirror_ok "route" true "composer" [Some booted] one) as [Hroute _]; [|exact Hone|].
  { intros c Hc. rewrite (only_child booted c Hc). exact booted_ok. }
  split; [vm_compute; reflexivity|].
  destruct (route_composes clock hash None "route" one tt Hroute) as (_ & Hbatch & _).
  destruct (Hbatch [raised_fee] (batch one [raised_fee]).1 (batch one [raised_fee]).2.1 (batch one [raised_fee]).2.2) as [_ Hdone];
    [vm_compute; reflexivity|].
  destruct (batch one [raised_fee]).1 as [result|e|why] eqn:Hr; [|vm_compute in Hr; discriminate Hr..].
  destruct (Hdone result eq_refl) as [Hc _]; [|exact Hc].
  assert (ar_Disposition <$> res_opt (batch one [raised_fee]).1 = Some ApplyDispositionApplied) as Hd by (vm_compute; reflexivity).
  rewrite Hr in Hd. cbn in Hd. injection Hd as Hd. exact Hd.
Defined.

(** The batch of a route that a sibling leaves without state is reported applied,
    with the zero snapshot. *)
Example batch_without_sibling :
  (batch two [bootstrap]).1 = Ok (mkApplyResult ApplyDispositionApplied "" MarketSnapshot_zero) /\
  ApplyResult_Validate (D := RouteData Snapshot) (mkApplyResult ApplyDispositionApplied "" MarketSnapshot_zero) =
    Err (Errorf "apply result requires a snapshot").
Proof. vm_compute. done. Qed.

(** An event whose snapshot is refused makes a degraded mirror healthy while the
    snapshot it publishes stays degraded, and the next healthy update is dropped. *)
Definition degraded : Mirror Snapshot :=
  (SetHealth (W := unit) None (mkHealthUpdate HealthDegraded "websocket_disconnected" 8) (booted, tt)).2.1.
Definition refused : Mirror Snapshot := (apply (event 102 0 (PoolEvent (FeeUpdate 500))) degraded).2.1.

Example refused_event_out_of_sync :
  let healthy := (SetHealth (W := unit) None (mkHealthUpdate HealthHealthy "" 10) (refused, tt)).2.1 in
  mr_health refused = HealthHealthy /\ md_Health (snap_metadata (mr_current refused)) = HealthDegraded /\
  md_Health (snap_metadata (mr_current healthy)) = HealthDegraded.
Proof. vm_compute. done. Qed.
End UniswapMirrorWitness.
