(* ===== verification/Sizing.v ===== *)
(** * Sizing policies (src/core/sizing/grid.go, range.go, exact_output.go)

    Sorted grids of sizes, evenly spaced ranges, and the search for the smallest
    input that covers an output.  A quote source (src/ports/quote/quote.go) is
    the interface [QuoteSource]; its answers to one request are fixed. *)
From Stdlib Require Import QArith Qcanon.
From S2P Require Import Prelude Amount Quote Pools.
Local Open Scope Z_scope.

(** ** Grids *)

Record Grid := mkGrid { grid_values : list AssetQuantity }.

(** [copyValues[i].Cmp(copyValues[j]) < 0] sorts by value; [sort.Slice] need not
    be stable, but equal values are rejected right after. *)
Definition quantity_le (a b : AssetQuantity) : Prop := (Rat a <= Rat b)%Qc.
#[export] Instance quantity_le_dec : RelDecision quantity_le.
Proof. intros a b. unfold quantity_le. apply _. Defined.

Fixpoint adjacent_duplicate (l : list AssetQuantity) : bool :=
  match l with
  | a :: (b :: _) as rest => bool_decide (Rat_Cmp (Rat a) (Rat b) = 0) || adjacent_duplicate rest
  | _ => false
  end.

Definition NewGrid (values : list AssetQuantity) : res Grid :=
  match values with
  | [] => Err (Errorf "sizing grid cannot be empty")
  | first :: _ =>
      let asset := quantity_asset first in
      if decide (asset = "") then Err (Errorf "sizing values require an asset") else
      if decide (Exists (fun value => quantity_asset value <> asset \/ AssetQuantity_Sign value <= 0) values)
      then Err (Errorf "sizing values must be positive quantities of asset %q") else
      let copyValues := merge_sort quantity_le values in
      if adjacent_duplicate copyValues then Err (Errorf "sizing grid contains duplicate value %s")
      else Ok (mkGrid copyValues)
  end.

Definition Grid_Asset (g : Grid) : AssetID :=
  match grid_values g with [] => "" | value :: _ => quantity_asset value end.

(** [Values] returns a fresh copy of the slice. *)
Definition Grid_Values (g : Grid) : list AssetQuantity := grid_values g.

(** ** Ranges *)

Definition range_step (minimum maximum : AssetQuantity) (samples : Z) : Qc :=
  ((Rat maximum - Rat minimum) / SetInt (samples - 1))%Qc.

Definition range_value (minimum : AssetQuantity) (step : Qc) (index : Z) : Qc :=
  (Rat minimum + step * SetInt index)%Qc.

Definition NewLinearRange (minimum maximum : AssetQuantity) (samples : Z) : res Grid :=
  if decide (quantity_asset minimum = "" \/ quantity_asset minimum <> quantity_asset maximum \/
             AssetQuantity_Sign minimum <= 0 \/ samples < 2)
  then Err (Errorf "linear range requires one asset, positive bounds, and at least two samples") else
  match AssetQuantity_Cmp minimum maximum with
  | Ok comparison =>
      if decide (0 <= comparison) then Err (Errorf "linear range maximum must exceed minimum") else
      let step := range_step minimum maximum samples in
      values ← foldM (fun values index =>
                 value ← NewAssetQuantity (quantity_asset minimum) (Some (range_value minimum step index));
                 Ok (values ++ [value])) [] (seqZ 0 samples);
      NewGrid values
  | Err _ => Err (Errorf "linear range maximum must exceed minimum")
  | Panic why => Panic why
  end.

(** ** Exact output *)

Section exact_output.
Context {D : Type}.

(** [quote.Source], and [quote.ExactOutputSource] where the source has it. *)
Class QuoteSource := {
  Source_Quote : QuoteInput D -> res Quote;
  Source_QuoteExactOutput : option (ExactOutputInput D -> res Quote) }.

Record ExactOutputRequest := mkExactOutputRequest {
  eo_Snapshot : MarketSnapshot D; eo_TokenIn : TokenID; eo_TokenOut : TokenID;
  eo_TargetOut : TokenAmount; eo_InitialHigh : TokenAmount;
  eo_Purpose : string; eo_QuotedAt : Time }.

Section source.
Context (source : QuoteSource) (request : ExactOutputRequest).

(** The closure [quoteAt]. *)
Definition quoteAt (units : Z) : res Quote :=
  amount ← NewTokenAmount (eo_TokenIn request) (Some units);
  candidate ← Source_Quote (mkQuoteInput (eo_Snapshot request) (eo_TokenIn request) (eo_TokenOut request)
                              amount (eo_Purpose request) (eo_QuotedAt request));
  if decide (amount_token (q_AmountIn candidate) <> eo_TokenIn request \/
             Units (q_AmountIn candidate) <> units \/
             amount_token (q_AmountOut candidate) <> eo_TokenOut request \/
             q_Mode candidate <> QuoteModeExactInput)
  then Err (Errorf "quote source returned inconsistent exact-output evidence")
  else Ok candidate.

Definition out_units (q : Quote) : Z := Units (q_AmountOut q).

Definition BitLen (z : Z) : Z := if decide (z = 0) then 0 else Z.log2 (Z.abs z) + 1.

(** Doubling [high] until its output covers the target.  A positive [high] of
    [n] bits passes 256 bits after at most [257 - n] doublings. *)
Fixpoint raise_high (fuel : nat) (target low high : Z) (highQuote : Quote) : res (Z * Z * Quote) :=
  if decide (target <= out_units highQuote) then Ok (low, high, highQuote) else
  match fuel with
  | O => Panic "fuel"
  | S fuel =>
      let low := high in
      let high := Z.shiftl high 1 in
      if decide (256 < BitLen high) then Err (Errorf "exact-output sizing exceeds uint256 input") else
      highQuote ← quoteAt high;
      raise_high fuel target low high highQuote
  end.

(** The binary search; every round at least halves the interval. *)
Fixpoint narrow (fuel : nat) (target low high : Z) (highQuote : Quote) : res Quote :=
  if decide (high - low <= 1) then Ok highQuote else
  match fuel with
  | O => Panic "fuel"
  | S fuel =>
      let middle := Z.shiftr (low + high) 1 in
      candidate ← quoteAt middle;
      if decide (target <= out_units candidate)
      then narrow fuel target low middle candidate
      else narrow fuel target middle high highQuote
  end.

Definition narrow_fuel (low high : Z) : nat := S (Z.to_nat (Z.log2_up (high - low))).

Definition search_minimum : res Quote :=
  let target := Units (eo_TargetOut request) in
  let high := Units (eo_InitialHigh request) in
  highQuote ← quoteAt high;
  '(low, high, highQuote) ← raise_high 257 target 0 high highQuote;
  narrow (narrow_fuel low high) target low high highQuote.

(** A nil source is the absence of an instance. *)
Definition MinimumInputForOutput : res Quote :=
  if decide (eo_TokenIn request = "" \/ eo_TokenOut request = "" \/
             eo_TokenIn request = eo_TokenOut request \/
             amount_token (eo_TargetOut request) <> eo_TokenOut request \/
             IsZero (eo_TargetOut request) \/
             amount_token (eo_InitialHigh request) <> eo_TokenIn request \/
             IsZero (eo_InitialHigh request) \/ eo_Purpose request = "" \/
             Time_IsZero (eo_QuotedAt request))
  then Err (Errorf "invalid exact-output sizing request") else
  match Source_QuoteExactOutput with
  | Some native =>
      candidate ← native (mkExactOutputInput (eo_Snapshot request) (eo_TokenIn request) (eo_TokenOut request)
                            (eo_TargetOut request) (eo_Purpose request) (eo_QuotedAt request));
      if decide (amount_token (q_AmountIn candidate) <> eo_TokenIn request \/
                 IsZero (q_AmountIn candidate) \/
                 amount_token (q_AmountOut candidate) <> eo_TokenOut request \/
                 Units (q_AmountOut candidate) <> Units (eo_TargetOut request) \/
                 q_Mode candidate <> QuoteModeExactOutput)
      then Err (Errorf "native source returned inconsistent exact-output evidence")
      else Ok candidate
  | None => search_minimum
  end.
End source.
End exact_output.
Arguments QuoteSource : clear implicits.
Arguments ExactOutputRequest : clear implicits.

(** ** The exact-output search finds the smallest input *)

Section exact_output_spec.
Context {D : Type} (source : QuoteSource D) (request : ExactOutputRequest D).
Hypothesis Htotal : forall input, no_panic (Source_Quote input).

(** [x] covers the target with [q], and one unit less does not. *)
Definition smallest_step (x : Z) (q : Quote) : Prop :=
  0 < x /\ quoteAt source request x = Ok q /\ Units (eo_TargetOut request) <= out_units q /\
  (x = 1 \/ exists q', quoteAt source request (x - 1) = Ok q' /\ out_units q' < Units (eo_TargetOut request)).

Definition below_target (low : Z) : Prop :=
  low = 0 \/ exists q, quoteAt source request low = Ok q /\ out_units q < Units (eo_TargetOut request).

Lemma quoteAt_no_panic x : no_panic (quoteAt source request x).
Proof using Htotal.
  unfold quoteAt, NewTokenAmount. no_panic_auto.
Qed.

Lemma BitLen_le z n : 0 < z -> 0 <= n -> ~ n < BitLen z -> z < 2 ^ n.
Proof using Type.
  intros Hz Hn. unfold BitLen. rewrite decide_False by lia. rewrite Z.abs_eq by lia. intros Hl.
  destruct (Z.log2_spec z Hz) as [_ Hlt]. eapply Z.lt_le_trans; [exact Hlt|].
  apply Z.pow_le_mono_r; lia.
Qed.

Lemma raise_high_spec fuel low high hq :
  let target := Units (eo_TargetOut request) in
  0 <= low < high -> 2 ^ (257 - Z.of_nat fuel) <= high -> (fuel = 0%nat -> high < 2 ^ 256) ->
  (fuel <= 257)%nat -> quoteAt source request high = Ok hq -> below_target low ->
  match raise_high source request fuel target low high hq with
  | Ok (low', high', hq') => 0 <= low' < high' /\ quoteAt source request high' = Ok hq' /\
      target <= out_units hq' /\ below_target low'
  | Err _ => True
  | Panic _ => False
  end.
Proof using Htotal.
  intros target. revert low high hq.
  induction fuel as [|fuel IH]; intros low high hq Hlow Hhigh Hsmall Hfuel Hq Hbelow; cbn [raise_high].
  - destruct (decide (target <= out_units hq)) as [Hle|Hgt]; [done|].
    specialize (Hsmall eq_refl). change (257 - Z.of_nat 0) with (256 + 1) in Hhigh.
    rewrite Z.pow_add_r in Hhigh by lia. lia.
  - destruct (decide (target <= out_units hq)) as [Hle|Hgt]; [done|].
    destruct (decide (256 < BitLen (Z.shiftl high 1))) as [|Hlen]; [done|].
    rewrite Z.shiftl_mul_pow2, Z.pow_1_r in * by lia.
    destruct (quoteAt source request (high * 2)) as [q|e|w] eqn:Hq'; cbn [mbind res_bind]; [|done|].
    2:{ by destruct (quoteAt_no_panic (high * 2) w). }
    apply IH; [lia| | |lia|done|].
    + replace (257 - Z.of_nat fuel) with (257 - Z.of_nat (S fuel) + 1) by lia.
      rewrite Z.pow_add_r by lia. lia.
    + intros _. apply BitLen_le; [lia|lia|done].
    + right. exists hq. split; [done|]. fold target. lia.
Qed.

Lemma narrow_spec fuel low high hq :
  let target := Units (eo_TargetOut request) in
  0 <= low < high -> high - low <= 2 ^ Z.of_nat fuel -> quoteAt source request high = Ok hq ->
  target <= out_units hq -> below_target low ->
  match narrow source request fuel target low high hq with
  | Ok q => exists x, smallest_step x q
  | Err _ => True
  | Panic _ => False
  end.
Proof using Htotal.
  intros target. revert low high hq.
  induction fuel as [|fuel IH]; intros low high hq Hlow Hd Hq Hcov Hbelow; cbn [narrow].
  all: destruct (decide (high - low <= 1)) as [Hone|Hbig].
  1,3: exists high; split_and!; [lia|done..|]; destruct Hbelow as [H0|Hb];
    [left; lia|right; by replace (high - 1) with low by lia].
  - change (2 ^ Z.of_nat 0) with 1 in Hd. lia.
  - set (middle := Z.shiftr (low + high) 1).
    assert (low + high = 2 * middle + (low + high) mod 2 /\ 0 <= (low + high) mod 2 < 2) as [Hmid Hmod].
    { unfold middle. rewrite Z.shiftr_div_pow2 by lia. change (2 ^ 1) with 2.
      pose proof (Z.div_mod (low + high) 2 ltac:(lia)). pose proof (Z.mod_pos_bound (low + high) 2 ltac:(lia)). lia. }
    rewrite Nat2Z.inj_succ, Z.pow_succ_r in Hd by lia.
    destruct (quoteAt source request middle) as [q|e|w] eqn:Hq'; cbn [mbind res_bind]; [|done|].
    2:{ by destruct (quoteAt_no_panic middle w). }
    destruct (decide (target <= out_units q)) as [Hle|Hgt].
    + apply IH; [lia|lia|done..].
    + apply IH; [lia|lia|done|done|]. right. exists q. split; [done|]. fold target. lia.
Qed.

Lemma search_minimum_spec :
  0 < Units (eo_InitialHigh request) ->
  match search_minimum source request with
  | Ok q => exists x, smallest_step x q
  | Err _ => True
  | Panic _ => False
  end.
Proof using Htotal.
  intros Hpos. unfold search_minimum. cbn zeta.
  destruct (quoteAt source request (Units (eo_InitialHigh request))) as [hq|e|w] eqn:Hq; cbn [mbind res_bind]; [|done|].
  2:{ by destruct (quoteAt_no_panic (Units (eo_InitialHigh request)) w). }
  pose proof (raise_high_spec 257 0 (Units (eo_InitialHigh request)) hq ltac:(lia) ltac:(cbn; lia) ltac:(done)
    ltac:(lia) Hq ltac:(by left)) as H.
  destruct (raise_high _ _ _ _ _ _ _) as [[[low high] hq']|e|w]; [|done..].
  destruct H as (Hlh & Hq' & Hcov & Hbelow). apply narrow_spec; [done| |done..].
  unfold narrow_fuel. rewrite Nat2Z.inj_succ, Z2Nat.id by apply Z.log2_up_nonneg.
  destruct (decide (high - low = 1)) as [->|]; [by vm_compute|].
  pose proof (Z.log2_up_spec (high - low) ltac:(lia)) as [_ Hle]. etrans; [exact Hle|].
  apply Z.pow_le_mono_r; lia.
Qed.
End exact_output_spec.

(** Larger inputs are never quoted less. *)
Definition monotone_quotes {D} (source : QuoteSource D) (request : ExactOutputRequest D) : Prop :=
  forall x y q q', 0 < x <= y -> quoteAt source request x = Ok q -> quoteAt source request y = Ok q' ->
    out_units q <= out_units q'.

(** The exact-output search ends without panicking.  What it returns covers
    the target, and either is a single unit or one unit less would not cover it;
    over quotes that grow with the input no smaller input covers the target. *)
Theorem MinimumInputForOutput_smallest {D} (source : QuoteSource D)
    (request : ExactOutputRequest D) :
  (forall input, no_panic (Source_Quote input)) -> Source_QuoteExactOutput = None ->
  0 <= Units (eo_InitialHigh request) ->
  no_panic (MinimumInputForOutput source request) /\
  forall q, MinimumInputForOutput source request = Ok q ->
    exists x, smallest_step source request x q /\ Units (q_AmountIn q) = x /\
      (monotone_quotes source request -> forall y q', 0 < y < x -> quoteAt source request y = Ok q' ->
         out_units q' < Units (eo_TargetOut request)).
Proof.
  intros Htotal Hnone Hpos. unfold MinimumInputForOutput. rewrite Hnone.
  destruct (decide _) as [|Hok]; [done|].
  assert (0 < Units (eo_InitialHigh request)) as Hhigh.
  { unfold IsZero in Hok. rewrite Z.sgn_null_iff in Hok. lia. }
  pose proof (search_minimum_spec source request Htotal Hhigh) as H.
  destruct (search_minimum source request) as [q|e|w]; [|done..]. split; [done|]. intros q' [= <-].
  destruct H as (x & Hx & Hq & Hcov & Hbelow). exists x. split_and!; [by split_and!| |].
  - unfold quoteAt in Hq. res_inv. subst. destruct (decide (Units (q_AmountIn q) = x)); [done|tauto].
  - intros Hmono y q' Hy Hq'. destruct Hbelow as [->|(q1 & Hq1 & Hlt)]; [lia|].
    specialize (Hmono y (x - 1) q' q1 ltac:(lia) Hq' Hq1). lia.
Qed.

(** ** Grids and ranges *)

Definition quantity_lt (a b : AssetQuantity) : Prop := (Rat a < Rat b)%Qc.

#[export] Instance quantity_le_total : Total quantity_le.
Proof. intros a b. unfold quantity_le. apply (total Qcle). Qed.
#[export] Instance quantity_le_trans : Transitive quantity_le.
Proof. intros a b c. unfold quantity_le. apply Qcle_trans. Qed.

Lemma adjacent_distinct l :
  StronglySorted quantity_le l -> adjacent_duplicate l = false -> StronglySorted quantity_lt l.
Proof.
  induction 1 as [|a l Hl IH Ha]; [constructor|]. destruct l as [|b l]; [intros _; by repeat constructor|].
  cbn [adjacent_duplicate]. rewrite orb_false_iff, bool_decide_eq_false, Rat_Cmp_0. intros [Hab Hrest].
  constructor; [by apply IH|]. apply Forall_cons in Ha as [Hle _].
  assert (quantity_lt a b) as Hlt by (by apply Qcle_lt_or_eq in Hle as [?|?]).
  constructor; [done|]. apply StronglySorted_inv in Hl as [_ Hb].
  eapply Forall_impl; [exact Hb|]. intros c Hc. by eapply Qclt_le_trans.
Qed.

Lemma distinct_adjacent l : NoDup (Rat <$> l) -> adjacent_duplicate l = false.
Proof.
  induction l as [|a [|b l] IH]; [done..|]. rewrite !fmap_cons. intros [Hin Hnd]%NoDup_cons.
  cbn [adjacent_duplicate]. rewrite orb_false_iff, bool_decide_eq_false, Rat_Cmp_0. split; [|by apply IH].
  intros He. apply Hin. rewrite He. by left.
Qed.

Lemma strictly_sorted_NoDup l : StronglySorted quantity_lt l -> NoDup (Rat <$> l).
Proof.
  induction 1 as [|a l Hl IH Ha]; [constructor|]. rewrite fmap_cons. constructor; [|done].
  intros (b & Hb & Hin)%list_elem_of_fmap. rewrite Forall_forall in Ha. specialize (Ha b Hin).
  unfold quantity_lt in Ha. rewrite Hb in Ha. by apply Qclt_not_eq in Ha.
Qed.

(** Sizes a grid can hold. *)
Definition sizes_ok (asset : AssetID) (values : list AssetQuantity) : Prop :=
  asset <> "" /\ values <> [] /\
  Forall (fun value => quantity_asset value = asset /\ 0 < AssetQuantity_Sign value) values.

Lemma sizes_ok_iff values first rest :
  values = first :: rest ->
  sizes_ok (quantity_asset first) values <-> quantity_asset first <> "" /\
    ~ Exists (fun value => quantity_asset value <> quantity_asset first \/ AssetQuantity_Sign value <= 0) values.
Proof.
  intros ->. unfold sizes_ok. rewrite <- Forall_Exists_neg. split.
  - intros (? & _ & H). split; [done|]. eapply Forall_impl; [exact H|]. cbn. intros v [? ?] [?|?]; [done|lia].
  - intros [? H]. split_and!; [done..|]. eapply Forall_impl; [exact H|]. cbn. intros v Hv.
    destruct (decide (quantity_asset v = quantity_asset first)); [split; [done|]|tauto].
    destruct (decide (AssetQuantity_Sign v <= 0)); [tauto|lia].
Qed.

(** NewGrid accepts exactly the non-empty lists of distinct positive
    quantities of one asset, and sorts them strictly. *)
Theorem NewGrid_iff (values : list AssetQuantity) (g : Grid) :
  NewGrid values = Ok g <->
  (exists asset, sizes_ok asset values) /\ NoDup (Rat <$> values) /\
  grid_values g = merge_sort quantity_le values /\ StronglySorted quantity_lt (grid_values g).
Proof.
  unfold NewGrid. destruct values as [|first rest] eqn:Hvalues.
  { split; [done|]. by intros [(asset & _ & ? & _) _]. }
  rewrite <- Hvalues. pose proof (sizes_ok_iff values first rest Hvalues) as Hsizes.
  pose proof (StronglySorted_merge_sort quantity_le values) as Hsort. split.
  - destruct (decide (quantity_asset first = "")) as [|Ha]; [done|].
    destruct (decide (Exists _ values)) as [|Hex]; [done|].
    destruct (adjacent_duplicate (merge_sort quantity_le values)) eqn:Hdup; [done|]. intros [= <-].
    pose proof (adjacent_distinct _ Hsort Hdup) as Hstrict. cbn.
    split_and!; [|by rewrite <- (merge_sort_Permutation quantity_le values); apply strictly_sorted_NoDup|done..].
    exists (quantity_asset first). by apply Hsizes.
  - intros [(asset & Hok) (Hnd & Hg & _)].
    assert (sizes_ok (quantity_asset first) values) as Hf.
    { destruct Hok as (? & ? & Hall). rewrite Hvalues in Hall. pose proof Hall as [[<- _] _]%Forall_cons.
      by rewrite Hvalues. }
    apply Hsizes in Hf as [Ha Hex]. rewrite decide_False, decide_False by done.
    rewrite distinct_adjacent by by rewrite merge_sort_Permutation. destruct g. cbn in Hg. by rewrite Hg.
Qed.

Section range_spec.
Context (minimum maximum : AssetQuantity) (samples : Z).
Hypothesis Hlt : (Rat minimum < Rat maximum)%Qc.
Hypothesis Hsamples : 2 <= samples.

Let step := range_step minimum maximum samples.

Lemma step_mul : (step * SetInt (samples - 1))%Qc = (Rat maximum - Rat minimum)%Qc.
Proof using Hsamples.
  unfold step, range_step. rewrite Qcmult_comm. apply Qcmult_div_r, SetInt_nonzero. lia.
Qed.

Lemma step_pos : (0 < step)%Qc.
Proof using Hlt Hsamples.
  apply Qclt_nge. intros Hle.
  assert (step * SetInt (samples - 1) <= 0 * SetInt (samples - 1))%Qc as H.
  { apply Qcmult_le_compat_r; [done|]. apply Qclt_le_weak, SetInt_pos. lia. }
  rewrite step_mul, Qcmult_0_l in H. apply (Qclt_not_le _ _ Hlt).
  apply Qcle_minus_iff in H. rewrite Qcle_minus_iff.
  replace (Rat minimum + - Rat maximum)%Qc with (0 + - (Rat maximum - Rat minimum))%Qc; [done|ring].
Qed.

Lemma range_value_lt i j : i < j -> (range_value minimum step i < range_value minimum step j)%Qc.
Proof using Hlt Hsamples.
  intros Hij. unfold range_value. apply Qcplus_lt_mono_l. rewrite (Qcmult_comm step), (Qcmult_comm step).
  apply Qcmult_lt_compat_r; [apply step_pos|by apply SetInt_lt].
Qed.

Definition range_values : list AssetQuantity :=
  (fun index => mkAssetQuantity (quantity_asset minimum) (Some (range_value minimum step index))) <$>
    seqZ 0 samples.

Lemma range_values_sorted (n : Z) (k : nat) :
  StronglySorted quantity_lt
    ((fun index => mkAssetQuantity (quantity_asset minimum) (Some (range_value minimum step index)))
       <$> seqZ n (Z.of_nat k)).
Proof using Hlt Hsamples.
  revert n. induction k as [|k IH]; intros n; [constructor|].
  rewrite seqZ_cons by lia. rewrite fmap_cons.
  replace (Z.pred (Z.of_nat (S k))) with (Z.of_nat k) by lia. constructor; [apply IH|].
  apply Forall_fmap, Forall_forall. intros i Hi%elem_of_seqZ. cbn. apply range_value_lt. lia.
Qed.

Lemma merge_sort_sorted l : StronglySorted quantity_lt l -> merge_sort quantity_le l = l.
Proof using Type.
  intros Hl. apply (StronglySorted_unique_strong quantity_le).
  - intros x y Hx Hy Hxy Hyx. rewrite merge_sort_Permutation in Hx.
    assert (Rat x = Rat y) as He by by apply Qcle_antisym.
    apply strictly_sorted_NoDup in Hl.
    apply list_elem_of_lookup in Hx as [i Hi]. apply list_elem_of_lookup in Hy as [j Hj].
    assert (i = j) as ->; [|congruence].
    eapply (NoDup_lookup (Rat <$> l)); [done| |]; rewrite list_lookup_fmap; [by rewrite Hi|].
    rewrite Hj. cbn. by rewrite He.
  - apply StronglySorted_merge_sort; apply _.
  - clear -Hl. induction Hl as [|a l Hl IH Ha]; constructor; [done|].
    eapply Forall_impl; [exact Ha|]. intros b Hb. by apply Qclt_le_weak.
  - apply merge_sort_Permutation.
Qed.

Lemma range_loop l acc :
  quantity_asset minimum <> "" ->
  foldM (fun values index =>
    value ← NewAssetQuantity (quantity_asset minimum) (Some (range_value minimum step index));
    Ok (values ++ [value])) acc l =
  Ok (acc ++ ((fun index => mkAssetQuantity (quantity_asset minimum) (Some (range_value minimum step index))) <$> l)).
Proof using Type.
  intros Ha. revert acc. induction l as [|i l IH]; intros acc; cbn [foldM]; [by rewrite app_nil_r|].
  rewrite NewAssetQuantity_Ok by done. cbn [mbind res_bind]. rewrite IH.
  by rewrite fmap_cons, <- app_assoc.
Qed.

Lemma range_values_sizes :
  quantity_asset minimum <> "" -> 0 < AssetQuantity_Sign minimum ->
  sizes_ok (quantity_asset minimum) range_values.
Proof using Hlt Hsamples.
  intros Ha Hpos. unfold range_values. split_and!; [done| |].
  - rewrite seqZ_cons by lia. done.
  - apply Forall_fmap, Forall_forall. intros i Hi%elem_of_seqZ. cbn. split; [done|].
    unfold AssetQuantity_Sign in *. cbn. rewrite sgn_pos in Hpos |- *. apply Qc_pos_iff. apply Qc_pos_iff in Hpos.
    eapply Qclt_le_trans; [exact Hpos|]. destruct (decide (i = 0)) as [->|].
    + unfold range_value. replace (Rat minimum + step * SetInt 0)%Qc with (Rat minimum); [apply Qcle_refl|].
      change (SetInt 0) with (Q2Qc 0). ring.
    + transitivity (range_value minimum step 0); [|apply Qclt_le_weak, range_value_lt; lia].
      unfold range_value. replace (Rat minimum + step * SetInt 0)%Qc with (Rat minimum); [done|].
      change (SetInt 0) with (Q2Qc 0). ring.
Qed.
End range_spec.

(** What a linear range needs. *)
Definition range_guard (minimum maximum : AssetQuantity) (samples : Z) : Prop :=
  quantity_asset minimum <> "" /\ quantity_asset minimum = quantity_asset maximum /\
  0 < AssetQuantity_Sign minimum /\ 2 <= samples /\ (Rat minimum < Rat maximum)%Qc.

(** NewLinearRange succeeds exactly on positive increasing bounds of one
    asset and at least two samples, and then returns exactly that many values,
    evenly spaced from the minimum to the maximum, both included. *)
Theorem NewLinearRange_iff (minimum maximum : AssetQuantity) (samples : Z) (g : Grid) :
  NewLinearRange minimum maximum samples = Ok g <->
  range_guard minimum maximum samples /\ grid_values g = range_values minimum maximum samples /\
  (Rat <$> (grid_values g !! 0%nat)) = Some (Rat minimum) /\ (Rat <$> last (grid_values g)) = Some (Rat maximum).
Proof.
  assert (range_guard minimum maximum samples -> NewLinearRange minimum maximum samples =
    Ok (mkGrid (range_values minimum maximum samples))) as Hok.
  { intros (Ha & Hm & Hpos & Hs & Hlt). unfold NewLinearRange.
    rewrite decide_False by (intros [?|[?|[?|?]]]; try done; lia).
    unfold AssetQuantity_Cmp. rewrite decide_False by tauto.
    rewrite decide_False by (apply Rat_Cmp_lt in Hlt; lia). cbn zeta.
    rewrite range_loop by done. cbn [mbind res_bind app]. fold (range_values minimum maximum samples).
    assert (StronglySorted quantity_lt (range_values minimum maximum samples)) as Hsort.
    { pose proof (range_values_sorted minimum maximum samples Hlt Hs 0 (Z.to_nat samples)) as H.
      by rewrite Z2Nat.id in H by lia. }
    pose proof (range_values_sizes minimum maximum samples Hlt Hs Ha Hpos) as Hsz.
    apply NewGrid_iff. cbn. split_and!; [by eexists|by apply strictly_sorted_NoDup|by rewrite merge_sort_sorted|done]. }
  split.
  - intros H. assert (range_guard minimum maximum samples) as Hg.
    { unfold NewLinearRange in H. destruct (decide _) as [|Hc] in H; [done|].
      unfold AssetQuantity_Cmp in H. destruct (decide _) in H; [done|]. destruct (decide _) as [|Hcmp] in H; [done|].
      unfold range_guard. destruct (decide (quantity_asset minimum = quantity_asset maximum)); [|tauto].
      split_and!; try tauto; try lia. apply Rat_Cmp_lt. lia. }
    rewrite (Hok Hg) in H. injection H as <-. split; [done|]. cbn. destruct Hg as (_ & _ & _ & Hs & _).
    unfold range_values. split; [done|]. rewrite seqZ_cons by lia. split.
    + cbn. f_equal. unfold range_value. change (SetInt 0) with (Q2Qc 0). ring.
    + rewrite <- seqZ_cons by lia. rewrite last_lookup, length_fmap, length_seqZ, list_lookup_fmap.
      rewrite (lookup_seqZ_lt 0 samples) by lia. cbn. f_equal. unfold range_value.
      replace (0 + Z.of_nat (Nat.pred (Z.to_nat samples))) with (samples - 1) by lia.
      rewrite step_mul by done. ring.
  - intros (Hg & Hv & _). rewrite (Hok Hg). destruct g. cbn in Hv. by rewrite Hv.
Qed.

Module SizingWitness.
(** A source that pays one unit for three, in a fixed envelope. *)
Definition paid (input : QuoteInput unit) : res Quote :=
  Ok (mkQuote "s" "m" 1 "" (mkSourcePosition "" 0) "" (in_Purpose input) QuoteModeExactInput "q"
        (in_AmountIn input)
        (mkTokenAmount (in_TokenOut input) (Some (Z.quot (Units (in_AmountIn input)) 3)))
        (in_QuotedAt input) []).
Definition source : QuoteSource unit := {| Source_Quote := paid; Source_QuoteExactOutput := None |}.
Definition snapshot : MarketSnapshot unit :=
  mkMarketSnapshot (mkSnapshotMetadata "m" "src" 7 (mkSourcePosition "" 0) (mkSourceReference "" "") "" 0 false 1 1
    HealthHealthy "" 1 "h") (Some tt).
Definition request : ExactOutputRequest unit :=
  mkExactOutputRequest snapshot "usdc" "weth" (mkTokenAmount "weth" (Some 7)) (mkTokenAmount "usdc" (Some 2)) "size" 1.

Lemma smallest_witness :
  exists q, MinimumInputForOutput source request = Ok q /\ Units (q_AmountIn q) = 21 /\
    exists x, smallest_step source request x q.
Proof.
  destruct (MinimumInputForOutput source request) as [q|e|w] eqn:Hq; [|vm_compute in Hq; discriminate..].
  exists q. destruct (MinimumInputForOutput_smallest source request (fun input w => ltac:(discriminate))
    eq_refl ltac:(vm_compute; discriminate)) as [_ H].
  destruct (H q Hq) as (x & Hx & _ & _).
  split; [reflexivity|]. split; [vm_compute in Hq; injection Hq as <-; vm_compute; reflexivity|]. by exists x.
Defined.
End SizingWitness.
