(* ===== verification/QuoteCache.v ===== *)
(** * The quote cache of the strategies (src/core/strategy/quote_cache.go)

    A strategy asks its sources through a cache that keeps, per market, the quotes
    of the latest state it has seen.  [Quoting] is what the strategies use: exact
    inputs and exact outputs on a market.  The cached implementation answers from
    the cache and moves a cached quote to the snapshot asked about ([rebind]); the
    direct one asks the source every time.  Theorem: over sources whose answers are
    a function of the market state, every call sequence on the cached implementation
    gets the answers of the direct one.

    The cache lock makes each call atomic; the traces of the calls (durations, hops)
    are left out. *)
From S2P Require Import Prelude Amount Quote Registry Pools Sizing.
Local Open Scope Z_scope.

(** ** Sources and what the strategies ask of them *)

(** A quote source with the optional interfaces it may implement:
    [FreshSource], [CachePolicy] and [ExactOutputSource]. *)
Record MarketSource (D : Type) := mkMarketSource {
  ms_ID : SourceID; ms_Quote : QuoteInput D -> res Quote; ms_QuoteFresh : option (QuoteInput D -> res Quote);
  ms_CacheQuotes : option bool; ms_QuoteExactOutput : option (ExactOutputInput D -> res Quote) }.
Arguments mkMarketSource {D}. Arguments ms_ID {D}. Arguments ms_Quote {D}. Arguments ms_QuoteFresh {D}.
Arguments ms_CacheQuotes {D}. Arguments ms_QuoteExactOutput {D}.

Definition sizing_source {D} (source : MarketSource D) : QuoteSource D :=
  {| Source_Quote := ms_Quote source; Source_QuoteExactOutput := ms_QuoteExactOutput source |}.

Class Quoting (D S : Type) := {
  exactInput : MarketID -> QuoteInput D -> ST S Quote;
  exactOutput : MarketID -> ExactOutputRequest D -> ST S Quote }.
#[global] Hint Mode Quoting - ! : typeclass_instances.

(** ** The cache *)

Record quoteCacheKey := mkQuoteCacheKey {
  qk_source : SourceID; qk_market : MarketID; qk_mode : string; qk_tokenIn : TokenID; qk_tokenOut : TokenID;
  qk_amount : string; qk_purpose : string }.
#[export] Instance quoteCacheKey_eq_dec : EqDecision quoteCacheKey.
Proof. solve_decision. Defined.
#[export] Instance quoteCacheKey_countable : Countable quoteCacheKey :=
  inj_countable' (fun k => (qk_source k, qk_market k, qk_mode k, qk_tokenIn k, qk_tokenOut k, qk_amount k, qk_purpose k))
    (fun '(s, m, o, i, u, a, p) => mkQuoteCacheKey s m o i u a p) ltac:(by intros []).

Record cachedMarketQuotes := mkCachedMarketQuotes { cm_stateHash : Digest; cm_quotes : gmap quoteCacheKey Quote }.
Abbreviation quoteCache := (gmap MarketID cachedMarketQuotes) (only parsing).
Definition newQuoteCache : quoteCache := ∅.

(** [Fees] copies; the quote is rebuilt for the new snapshot. *)
Definition rebind (cached : Quote) (metadata : SnapshotMetadata) (quotedAt : Time) : res Quote :=
  NewQuote (mkQuote (q_Source cached) (q_Market cached) (md_Version metadata) (md_StateHash metadata) (q_SourcePosition cached)
    (q_ResponseHash cached) (q_Purpose cached) (q_Mode cached) (q_Quality cached) (q_AmountIn cached) (q_AmountOut cached)
    quotedAt []) (q_fees cached).

(** The cached quotes of a market at a state: those of another state are dropped. *)
Definition market_state (metadata : SnapshotMetadata) : ST quoteCache cachedMarketQuotes := fun c =>
  let fresh := mkCachedMarketQuotes (md_StateHash metadata) ∅ in
  match c !! md_Market metadata with
  | Some state => if decide (cm_stateHash state = md_StateHash metadata) then (Ok state, c)
                  else (Ok fresh, <[md_Market metadata := fresh]> c)
  | None => (Ok fresh, <[md_Market metadata := fresh]> c)
  end.

(** [state.quotes] is the map the cache holds. *)
Definition remember (marketID : MarketID) (key : quoteCacheKey) (quote : Quote) : ST quoteCache unit :=
  modify (alter (fun state => mkCachedMarketQuotes (cm_stateHash state) (<[key := quote]> (cm_quotes state))) marketID).

Definition getOrCompute {D} (ctx_Err : option error) (metadata : SnapshotMetadata) (source : MarketSource D)
    (mode tokenIn tokenOut : string) (amount : TokenAmount) (purpose : string) (quotedAt : Time) (compute : res Quote) :
    ST quoteCache Quote :=
  match ctx_Err with
  | Some e => lift (Err e)
  | None =>
      let key := mkQuoteCacheKey (ms_ID source) (md_Market metadata) mode tokenIn tokenOut (TokenAmount_String amount) purpose in
      if decide (ms_CacheQuotes source = Some false) then lift compute else
      state ← market_state metadata;
      match cm_quotes state !! key with
      | Some cached => lift (rebind cached metadata quotedAt)
      | None =>
          quote ← lift compute;
          _ ← remember (md_Market metadata) key quote;
          mret quote
      end
  end.

Section quoting.
Context {D : Type} (ctx_Err : option error) (sources : gmap MarketID (MarketSource D)) (refresh : bool).

(** A market without a source is a nil interface, whose [ID] is asked for the trace. *)
Definition cached_input (marketID : MarketID) (request : QuoteInput D) : ST quoteCache Quote :=
  match sources !! marketID with
  | None => lift (Panic "nil quote source")
  | Some source =>
      match ms_QuoteFresh source, refresh with
      | Some fresh, true => lift (fresh request)
      | _, _ =>
          getOrCompute ctx_Err (snap_metadata (in_Snapshot request)) source QuoteModeExactInput (in_TokenIn request)
            (in_TokenOut request) (in_AmountIn request) (in_Purpose request) (in_QuotedAt request) (ms_Quote source request)
      end
  end.

Definition cached_output (marketID : MarketID) (request : ExactOutputRequest D) : ST quoteCache Quote :=
  match sources !! marketID with
  | None => lift (Panic "nil quote source")
  | Some source =>
      getOrCompute ctx_Err (snap_metadata (eo_Snapshot request)) source QuoteModeExactOutput (eo_TokenIn request)
        (eo_TokenOut request) (eo_TargetOut request) (eo_Purpose request) (eo_QuotedAt request)
        (MinimumInputForOutput (sizing_source source) request)
  end.

Definition cached : Quoting D quoteCache := {| exactInput := cached_input; exactOutput := cached_output |}.

(** *** The same without a cache *)

Definition answer (asked : res Quote) : ST unit Quote := match ctx_Err with Some e => lift (Err e) | None => lift asked end.

Definition direct_input (marketID : MarketID) (request : QuoteInput D) : ST unit Quote :=
  match sources !! marketID with
  | None => lift (Panic "nil quote source")
  | Some source =>
      match ms_QuoteFresh source, refresh with
      | Some fresh, true => lift (fresh request)
      | _, _ => answer (ms_Quote source request)
      end
  end.

Definition direct_output (marketID : MarketID) (request : ExactOutputRequest D) : ST unit Quote :=
  match sources !! marketID with
  | None => lift (Panic "nil quote source")
  | Some source => answer (MinimumInputForOutput (sizing_source source) request)
  end.

Definition direct : Quoting D unit := {| exactInput := direct_input; exactOutput := direct_output |}.
End quoting.

(** ** Quotes that can be moved to another snapshot of the same state *)

Definition current (metadata : SnapshotMetadata) (quotedAt : Time) : Prop := md_Version metadata <> 0 /\ quotedAt <> 0.

Definition same_state (m m' : SnapshotMetadata) : Prop := md_Market m = md_Market m' /\ md_StateHash m = md_StateHash m'.

Definition movable (q : Quote) : Prop :=
  forall metadata quotedAt, current metadata quotedAt ->
    exists q', rebind q metadata quotedAt = Ok q' /\ q_AmountIn q' = q_AmountIn q /\ q_AmountOut q' = q_AmountOut q /\ q_Mode q' = q_Mode q.

(** Every quote a constructor returned is. *)
Lemma NewQuote_movable quote fees q : NewQuote quote fees = Ok q -> movable q.
Proof.
  intros Hq metadata quotedAt [Hv Ht]. unfold rebind. unfold NewQuote in Hq. destruct (decide _) as [|Hid] in Hq; [done|].
  apply bind_Ok in Hq as ([] & Hp & Hq). destruct (decide _) as [|Hm] in Hq; [done|].
  destruct (decide (_ /\ _ /\ _)) as [|Hquality] in Hq; [done|]. destruct (decide _) as [|Ha] in Hq; [done|].
  apply bind_Ok in Hq as ([] & Hf & [= <-]). unfold NewQuote. cbn [q_Source q_Market q_SnapshotVersion q_SourcePosition q_Purpose
    q_QuotedAt q_Mode q_Quality q_AmountIn q_AmountOut with_quality q_fees].
  rewrite decide_False by tauto. rewrite Hp. cbn [mbind res_bind]. rewrite decide_False by (unfold Time_IsZero in *; tauto).
  set (quality := if decide (q_Quality quote = "") then QuoteQualityExact else q_Quality quote) in *.
  assert (quality <> "") as Hne by (unfold quality; by destruct (decide (q_Quality quote = ""))).
  rewrite (decide_False (P := quality = "")) by done. rewrite decide_False by tauto. rewrite decide_False by tauto.
  rewrite Hf. cbn [mbind res_bind]. by eexists.
Qed.

Definition moved (r : res Quote) (metadata : SnapshotMetadata) (quotedAt : Time) : res Quote :=
  q ← r; rebind q metadata quotedAt.

Definition move_input {D} (i : QuoteInput D) (snapshot : MarketSnapshot D) (quotedAt : Time) : QuoteInput D :=
  mkQuoteInput snapshot (in_TokenIn i) (in_TokenOut i) (in_AmountIn i) (in_Purpose i) quotedAt.
Definition move_output_input {D} (i : ExactOutputInput D) (snapshot : MarketSnapshot D) (quotedAt : Time) : ExactOutputInput D :=
  mkExactOutputInput snapshot (out_TokenIn i) (out_TokenOut i) (out_AmountOut i) (out_Purpose i) quotedAt.
Definition move_request {D} (r : ExactOutputRequest D) (snapshot : MarketSnapshot D) (quotedAt : Time) : ExactOutputRequest D :=
  mkExactOutputRequest snapshot (eo_TokenIn r) (eo_TokenOut r) (eo_TargetOut r) (eo_InitialHigh r) (eo_Purpose r) quotedAt.

(** ** Sources whose answers depend on the market state alone

    At two current snapshots of one state the source gives the same answer, up to
    the snapshot it is bound to; its quotes are built by [NewQuote]. *)
Class StateDetermined {D : Type} (source : MarketSource D) : Prop := {
  sd_built : forall i q, ms_Quote source i = Ok q -> movable q;
  sd_quote : forall i snapshot quotedAt,
    same_state (snap_metadata (in_Snapshot i)) (snap_metadata snapshot) ->
    current (snap_metadata (in_Snapshot i)) (in_QuotedAt i) -> current (snap_metadata snapshot) quotedAt ->
    ms_Quote source (move_input i snapshot quotedAt) = moved (ms_Quote source i) (snap_metadata snapshot) quotedAt;
  sd_native : forall native, ms_QuoteExactOutput source = Some native -> forall i q, native i = Ok q -> movable q;
  sd_output : forall native, ms_QuoteExactOutput source = Some native -> forall i snapshot quotedAt,
    same_state (snap_metadata (out_Snapshot i)) (snap_metadata snapshot) ->
    current (snap_metadata (out_Snapshot i)) (out_QuotedAt i) -> current (snap_metadata snapshot) quotedAt ->
    native (move_output_input i snapshot quotedAt) = moved (native i) (snap_metadata snapshot) quotedAt }.

Section determined.
Context {D : Type} (source : MarketSource D) {Hsd : StateDetermined source}.
Context (request : ExactOutputRequest D) (snapshot : MarketSnapshot D) (quotedAt : Time).
Context (Hstate : same_state (snap_metadata (eo_Snapshot request)) (snap_metadata snapshot)).
Context (Hfrom : current (snap_metadata (eo_Snapshot request)) (eo_QuotedAt request)) (Hto : current (snap_metadata snapshot) quotedAt).
Let src := sizing_source source.
Let request' := move_request request snapshot quotedAt.
Let metadata := snap_metadata snapshot.

(** [q'] is [q] at the new snapshot. *)
Definition moves (q q' : Quote) : Prop :=
  rebind q metadata quotedAt = Ok q' /\ q_AmountIn q' = q_AmountIn q /\ q_AmountOut q' = q_AmountOut q /\ q_Mode q' = q_Mode q.

Lemma movable_moves q : movable q -> exists q', moves q q'.
Proof using Hto. intros H. destruct (H metadata quotedAt Hto) as (q' & Hq'). by exists q'. Qed.

(** Two searches in step. *)
Definition in_step (r r' : res Quote) : Prop :=
  match r, r' with
  | Ok q, Ok q' => moves q q'
  | Err e, Err e' => e = e'
  | Panic why, Panic why' => why = why'
  | _, _ => False
  end.

Lemma in_step_moved r : (forall q, r = Ok q -> movable q) -> in_step r (moved r metadata quotedAt).
Proof using Hto.
  intros Hm. destruct r as [q|e|why]; [|done..]. destruct (movable_moves q (Hm q eq_refl)) as (q' & Hq').
  unfold moved. cbn [mbind res_bind]. by rewrite (proj1 Hq').
Qed.

Lemma in_step_rebind r r' : in_step r r' -> r' = moved r metadata quotedAt.
Proof using Type. destruct r, r'; cbn; try done; [by intros [-> _]|by intros ->|by intros ->]. Qed.

Lemma quoteAt_in_step units : in_step (quoteAt src request units) (quoteAt src request' units).
Proof using Hsd Hstate Hfrom Hto.
  unfold quoteAt. cbn [eo_TokenIn eo_TokenOut eo_Snapshot eo_Purpose eo_QuotedAt request' move_request Source_Quote src sizing_source].
  destruct (NewTokenAmount _ _) as [amount|e|why]; cbn [mbind res_bind]; [|done..].
  set (i := mkQuoteInput (eo_Snapshot request) (eo_TokenIn request) (eo_TokenOut request) amount (eo_Purpose request) (eo_QuotedAt request)).
  change (mkQuoteInput snapshot _ _ amount _ quotedAt) with (move_input i snapshot quotedAt).
  rewrite sd_quote by done. pose proof (in_step_moved (ms_Quote source i) (sd_built i)) as Hs.
  destruct (ms_Quote source i) as [q|e|why], (moved _ _ _) as [q'|e'|why'] eqn:Hm; try done.
  cbn [mbind res_bind]. destruct Hs as (Hr & Hi & Ho & Hmode). rewrite Hi, Ho, Hmode. by destruct (decide _).
Qed.

Lemma in_step_bind r r' (f f' : Quote -> res Quote) :
  in_step r r' -> (forall q q', moves q q' -> in_step (f q) (f' q')) -> in_step (r ≫= f) (r' ≫= f').
Proof using Type. intros Hr Hf. destruct r, r'; cbn in *; try done. by apply Hf. Qed.

Lemma narrow_in_step fuel target low high q q' :
  moves q q' -> in_step (narrow src request fuel target low high q) (narrow src request' fuel target low high q').
Proof using Hsd Hstate Hfrom Hto.
  revert low high q q'. induction fuel as [|fuel IH]; intros low high q q' Hq; cbn [narrow]; destruct (decide _); try done.
  apply in_step_bind; [apply quoteAt_in_step|]. intros c c' Hc. unfold out_units. rewrite (proj1 (proj2 (proj2 Hc))).
  destruct (decide _); by apply IH.
Qed.

Lemma raise_high_in_step fuel target low high q q' (k k' : Z * Z * Quote -> res Quote) :
  moves q q' -> (forall low high q q', moves q q' -> in_step (k (low, high, q)) (k' (low, high, q'))) ->
  in_step (raise_high src request fuel target low high q ≫= k) (raise_high src request' fuel target low high q' ≫= k').
Proof using Hsd Hstate Hfrom Hto.
  intros Hq Hk. revert low high q q' Hq. induction fuel as [|fuel IH]; intros low high q q' Hq; cbn [raise_high];
    unfold out_units; rewrite (proj1 (proj2 (proj2 Hq))); destruct (decide _); [by apply Hk|done|by apply Hk|].
  destruct (decide (256 < _)); [done|].
  pose proof (quoteAt_in_step (Z.shiftl high 1)) as Hs.
  destruct (quoteAt src request _) as [c|e|why], (quoteAt src request' _) as [c'|e'|why']; try done. by apply IH.
Qed.

(** The exact-output search inherits the determinism of the source. *)
Lemma MinimumInputForOutput_determined :
  MinimumInputForOutput src request' = moved (MinimumInputForOutput src request) metadata quotedAt /\
  forall q, MinimumInputForOutput src request = Ok q -> exists q', moves q q'.
Proof using Hsd Hstate Hfrom Hto.
  enough (in_step (MinimumInputForOutput src request) (MinimumInputForOutput src request')) as H.
  { split; [by apply in_step_rebind|]. intros q Hq. rewrite Hq in H.
    destruct (MinimumInputForOutput src request') as [q'|e|why]; [by exists q'|done..]. }
  unfold MinimumInputForOutput. cbn [eo_TokenIn eo_TokenOut eo_TargetOut eo_InitialHigh eo_Purpose eo_QuotedAt request' move_request eo_Snapshot
    Source_QuoteExactOutput src sizing_source].
  destruct Hfrom as [_ Ht], Hto as [_ Ht']. unfold Time_IsZero.
  destruct (decide _) as [Hbad|Hok]; [rewrite decide_True by tauto; done|]. rewrite decide_False by tauto.
  destruct (ms_QuoteExactOutput source) as [native|] eqn:Hn.
  - set (i := mkExactOutputInput (eo_Snapshot request) (eo_TokenIn request) (eo_TokenOut request) (eo_TargetOut request)
      (eo_Purpose request) (eo_QuotedAt request)).
    change (mkExactOutputInput snapshot _ _ _ _ quotedAt) with (move_output_input i snapshot quotedAt).
    rewrite (sd_output native Hn) by done. pose proof (in_step_moved (native i) (sd_native native Hn i)) as Hs.
    apply in_step_bind; [exact Hs|]. intros q q' Hq. destruct Hq as (Hr & Hi & Ho & Hm). rewrite Hi, Ho, Hm. by destruct (decide _).
  - unfold search_minimum. cbn [eo_TargetOut eo_InitialHigh request' move_request].
    apply in_step_bind; [apply quoteAt_in_step|]. intros q q' Hq. apply raise_high_in_step; [done|].
    intros low high c c' Hc. by apply narrow_in_step.
Qed.
End determined.

(** ** The cache is transparent *)

Section transparent.
Context {D : Type} (ctx_Err : option error) (sources : gmap MarketID (MarketSource D)) (refresh : bool).
(** Where the exact-output searches of the client start. *)
Context (high : TokenID -> TokenAmount).

(** Sources that let the strategy cache their quotes depend on the state alone. *)
Hypothesis Hsources : forall marketID source, sources !! marketID = Some source ->
  ms_CacheQuotes source = Some false \/ StateDetermined source.

Definition input_key (source : MarketSource D) (i : QuoteInput D) : quoteCacheKey :=
  mkQuoteCacheKey (ms_ID source) (md_Market (snap_metadata (in_Snapshot i))) QuoteModeExactInput (in_TokenIn i) (in_TokenOut i)
    (TokenAmount_String (in_AmountIn i)) (in_Purpose i).
Definition output_key (source : MarketSource D) (r : ExactOutputRequest D) : quoteCacheKey :=
  mkQuoteCacheKey (ms_ID source) (md_Market (snap_metadata (eo_Snapshot r))) QuoteModeExactOutput (eo_TokenIn r) (eo_TokenOut r)
    (TokenAmount_String (eo_TargetOut r)) (eo_Purpose r).

(** The requests a strategy makes on a market. *)
Definition valid_input (marketID : MarketID) (i : QuoteInput D) : Prop :=
  md_Market (snap_metadata (in_Snapshot i)) = marketID /\ current (snap_metadata (in_Snapshot i)) (in_QuotedAt i) /\
  amount_wf (in_AmountIn i) /\ amount_token (in_AmountIn i) = in_TokenIn i.
Definition valid_output (marketID : MarketID) (r : ExactOutputRequest D) : Prop :=
  md_Market (snap_metadata (eo_Snapshot r)) = marketID /\ current (snap_metadata (eo_Snapshot r)) (eo_QuotedAt r) /\
  amount_wf (eo_TargetOut r) /\ amount_token (eo_TargetOut r) = eo_TokenOut r /\ eo_InitialHigh r = high (eo_TokenIn r).

(** A cached quote answers some earlier request at the state it is filed under. *)
Inductive entry (k : quoteCacheKey) (h : Digest) (q : Quote) : Prop :=
| entry_input source i :
    sources !! qk_market k = Some source -> k = input_key source i -> valid_input (qk_market k) i -> StateDetermined source ->
    md_StateHash (snap_metadata (in_Snapshot i)) = h -> ms_Quote source i = Ok q -> entry k h q
| entry_output source r :
    sources !! qk_market k = Some source -> k = output_key source r -> valid_output (qk_market k) r -> StateDetermined source ->
    md_StateHash (snap_metadata (eo_Snapshot r)) = h -> MinimumInputForOutput (sizing_source source) r = Ok q -> entry k h q.

Definition cache_sound (c : quoteCache) : Prop :=
  forall m state, c !! m = Some state -> forall k q, cm_quotes state !! k = Some q -> qk_market k = m /\ entry k (cm_stateHash state) q.

Lemma newQuoteCache_sound : cache_sound newQuoteCache.
Proof using Type. unfold newQuoteCache. by intros m state ?%lookup_empty_Some. Qed.

(** Looking a market up and filing a quote keep the cache sound. *)
Lemma market_state_sound metadata c :
  cache_sound c ->
  let '(r, c') := market_state metadata c in
  exists state, r = Ok state /\ cache_sound c' /\ cm_stateHash state = md_StateHash metadata /\ c' !! md_Market metadata = Some state.
Proof using Type.
  intros Hc. unfold market_state. set (fresh := mkCachedMarketQuotes (md_StateHash metadata) ∅).
  assert (cache_sound (<[md_Market metadata := fresh]> c)) as Hfresh.
  { intros m state Hm. apply lookup_insert_Some in Hm as [[<- <-]|[_ Hm]]; [by intros k q Hq; cbn in Hq; apply lookup_empty_Some in Hq|by apply Hc]. }
  destruct (c !! md_Market metadata) as [state|] eqn:Hm; [destruct (decide _) as [Hh|]|].
  - by exists state.
  - exists fresh. split_and!; [done..|apply lookup_insert_eq].
  - exists fresh. split_and!; [done..|apply lookup_insert_eq].
Qed.

Lemma remember_sound m k q c state :
  cache_sound c -> c !! m = Some state -> qk_market k = m -> entry k (cm_stateHash state) q ->
  cache_sound (remember m k q c).2.
Proof using Type.
  intros Hc Hm Hk He m' state' Hm'. cbn in Hm'. destruct (decide (m' = m)) as [->|Hne].
  - rewrite lookup_alter_eq, Hm in Hm'. injection Hm' as <-. intros k' q' Hq. cbn in *.
    apply lookup_insert_Some in Hq as [[<- <-]|[_ Hq]]; [done|by apply (Hc m state Hm)].
  - rewrite lookup_alter_ne in Hm' by done. by apply Hc.
Qed.

Lemma getOrCompute_mimics metadata (source : MarketSource D) mode tokenIn tokenOut amount purpose quotedAt compute :
  let k := mkQuoteCacheKey (ms_ID source) (md_Market metadata) mode tokenIn tokenOut (TokenAmount_String amount) purpose in
  (ms_CacheQuotes source <> Some false ->
     (forall q, entry k (md_StateHash metadata) q -> rebind q metadata quotedAt = compute) /\
     (forall q, compute = Ok q -> entry k (md_StateHash metadata) q)) ->
  Mimics cache_sound (getOrCompute ctx_Err metadata source mode tokenIn tokenOut amount purpose quotedAt compute) (answer ctx_Err compute).
Proof using Type.
  intros k Hk. unfold getOrCompute, answer. destruct ctx_Err as [e|]; [apply Mimics_lift|]. fold k.
  destruct (decide _) as [|Hcached]; [apply Mimics_lift|]. destruct (Hk Hcached) as [Hhit Hmiss].
  intros c Hc. pose proof (market_state_sound metadata c Hc) as Hs. destruct (market_state metadata c) as [r c1] eqn:Hr.
  destruct Hs as (state & -> & Hc1 & Hh & Hm). rewrite (st_bind_run _ _ c state c1 Hr).
  destruct (cm_quotes state !! k) as [q|] eqn:Hq.
  - destruct (Hc1 _ _ Hm k q Hq) as [_ He]. rewrite Hh in He. cbn. split; [done|by apply Hhit].
  - destruct compute as [q|e|why]; cbn; [|done..]. split; [|done].
    apply (remember_sound _ k q c1 state Hc1 Hm eq_refl). rewrite Hh. by apply Hmiss.
Qed.

Lemma amount_string_inj a b :
  amount_wf a -> amount_wf b -> amount_token a = amount_token b -> TokenAmount_String a = TokenAmount_String b -> a = b.
Proof using Type.
  intros Ha Hb Ht Hs. apply amount_ext; [done..|]. unfold TokenAmount_String in Hs.
  pose proof (SetString10_pretty _ (amount_wf_Units a Ha)) as H1. rewrite Hs, (SetString10_pretty _ (amount_wf_Units b Hb)) in H1.
  by injection H1.
Qed.

Lemma moved_ok r q metadata quotedAt : r = Ok q -> rebind q metadata quotedAt = moved r metadata quotedAt.
Proof using Type. by intros ->. Qed.

Lemma cached_input_mimics marketID i :
  valid_input marketID i ->
  Mimics cache_sound (cached_input ctx_Err sources refresh marketID i) (direct_input ctx_Err sources refresh marketID i).
Proof using Hsources.
  intros Hv. unfold cached_input, direct_input. destruct (sources !! marketID) as [source|] eqn:Hsrc; [|apply Mimics_lift].
  destruct (ms_QuoteFresh source) as [fresh|]; [destruct refresh; [apply Mimics_lift|]|];
    (apply getOrCompute_mimics; intros Hc; destruct (Hsources _ _ Hsrc) as [|Hsd]; [done|];
     pose proof Hv as (Hm & Hcur & Hwf & Ht); fold (input_key source i); split;
     [intros q He; inversion He as [s i' Hs Hk (Hm' & Hcur' & Hwf' & Ht') _ Hh Hq|s r _ Hk]; [|discriminate Hk];
      cbn [qk_market input_key] in Hs; rewrite Hm, Hsrc in Hs; injection Hs as <-;
      injection Hk as Hkm Hki Hko Hka Hkp;
      assert (i = move_input i' (in_Snapshot i) (in_QuotedAt i)) as Hi
        by (destruct i, i'; unfold move_input; cbn in *; f_equal; [done..|apply amount_string_inj; congruence|done]);
      rewrite Hi at 3; rewrite sd_quote by (done || split; congruence); by apply moved_ok
     |intros q Hq; eapply entry_input; cbn [qk_market input_key]; rewrite ?Hm; done]).
Qed.

Lemma cached_output_mimics marketID r :
  valid_output marketID r ->
  Mimics cache_sound (cached_output ctx_Err sources marketID r) (direct_output ctx_Err sources marketID r).
Proof using Hsources.
  intros Hv. unfold cached_output, direct_output. destruct (sources !! marketID) as [source|] eqn:Hsrc; [|apply Mimics_lift].
  apply getOrCompute_mimics. intros Hc. destruct (Hsources _ _ Hsrc) as [|Hsd]; [done|].
  pose proof Hv as (Hm & Hcur & Hwf & Ht & Hhigh). fold (output_key source r). split.
  - intros q He. inversion He as [s i' _ Hk|s r' Hs Hk (Hm' & Hcur' & Hwf' & Ht' & Hhigh') _ Hh Hq]; [discriminate Hk|].
    cbn [qk_market output_key] in Hs. rewrite Hm, Hsrc in Hs. injection Hs as <-. injection Hk as Hkm Hki Hko Hka Hkp.
    assert (r = move_request r' (eo_Snapshot r) (eo_QuotedAt r)) as Hr.
    { destruct r, r'; unfold move_request; cbn in *. f_equal; [done..|apply amount_string_inj; congruence|congruence|done]. }
    rewrite Hr at 3. rewrite (proj1 (MinimumInputForOutput_determined source r' (eo_Snapshot r) (eo_QuotedAt r)
      ltac:(split; congruence) Hcur' Hcur)). by apply moved_ok.
  - intros q Hq. eapply entry_output; cbn [qk_market output_key]; rewrite ?Hm; done.
Qed.
End transparent.

(** ** A local source is determined by the state

    A quote built from a state alone is the same quote at every snapshot of it. *)
Definition bound (q : Quote) (metadata : SnapshotMetadata) (quotedAt : Time) : Quote :=
  mkQuote (q_Source q) (q_Market q) (md_Version metadata) (md_StateHash metadata) (q_SourcePosition q) (q_ResponseHash q)
    (q_Purpose q) (q_Mode q) (q_Quality q) (q_AmountIn q) (q_AmountOut q) quotedAt [].

Lemma NewQuote_moved q fees m t m' t' :
  current m t -> current m' t' -> moved (NewQuote (bound q m t) fees) m' t' = NewQuote (bound q m' t') fees.
Proof.
  intros [Hv Ht] [Hv' Ht']. unfold moved, NewQuote at 1 2. cbn [bound q_Source q_Market q_SnapshotVersion q_SourcePosition q_Purpose q_QuotedAt
    q_Mode q_Quality q_AmountIn q_AmountOut].
  destruct (decide (q_Source q = "" \/ _ \/ md_Version m = 0)) as [Hb|Hid];
    [by rewrite (decide_True (P := q_Source q = "" \/ q_Market q = "" \/ md_Version m' = 0)) by tauto|].
  rewrite (decide_False (P := q_Source q = "" \/ q_Market q = "" \/ md_Version m' = 0)) by tauto.
  destruct (SourcePosition_Validate (q_SourcePosition q)) as [[]|e|why] eqn:Hp; cbn [wrap mbind res_bind]; [|done..].
  unfold Time_IsZero. destruct (decide (q_Purpose q = "" \/ t = 0 \/ _)) as [Hb|Hm];
    [by rewrite (decide_True (P := q_Purpose q = "" \/ t' = 0 \/ _)) by tauto|].
  rewrite (decide_False (P := q_Purpose q = "" \/ t' = 0 \/ _)) by tauto.
  set (quality := if decide (q_Quality q = "") then QuoteQualityExact else q_Quality q).
  assert (quality <> "") as Hne by (unfold quality; by destruct (decide (q_Quality q = ""))).
  destruct (decide (quality <> QuoteQualityExact /\ _)) as [|Hq]; [done|]. destruct (decide (amount_token _ = "" \/ _)) as [|Ha]; [done|].
  destruct (foldM _ tt fees) as [[]|e|why] eqn:Hf; cbn [mbind res_bind]; [|done..].
  unfold rebind, NewQuote. cbn [with_quality bound q_Source q_Market q_SnapshotVersion q_SourcePosition q_Purpose q_QuotedAt
    q_Mode q_Quality q_AmountIn q_AmountOut q_fees].
  rewrite decide_False by tauto. rewrite Hp. cbn [wrap mbind res_bind]. unfold Time_IsZero. rewrite decide_False by tauto.
  rewrite (decide_False (P := quality = "")) by done. rewrite decide_False by tauto. rewrite decide_False by tauto. rewrite Hf. done.
Qed.

(** Sources that answer from tokens, amount and purpose alone at any snapshot. *)
Lemma local_source_determined {D} (source : MarketSource D) (raw : QuoteInput D -> res (Quote * list QuoteFee)) :
  (forall i, ms_Quote source i = ('(q, fees) ← raw i; NewQuote (bound q (snap_metadata (in_Snapshot i)) (in_QuotedAt i)) fees)) ->
  (forall i snapshot t, same_state (snap_metadata (in_Snapshot i)) (snap_metadata snapshot) -> raw (move_input i snapshot t) = raw i) ->
  ms_QuoteExactOutput source = None -> StateDetermined source.
Proof.
  intros Hq Hraw Hnone. split; [| |congruence..].
  - intros i q. rewrite Hq. intros ([q0 fees] & _ & H)%bind_Ok. by eapply NewQuote_movable.
  - intros i snapshot t Hs Hc Hc'. rewrite !Hq, Hraw by done. destruct (raw i) as [[q fees]|e|why]; [|done..]. cbn [mbind res_bind].
    cbn [in_Snapshot in_QuotedAt move_input]. symmetry. by apply NewQuote_moved.
Qed.
