(* ===== verification/TwoMarket.v ===== *)
(** * The two-market strategy (src/core/strategy/two_market.go)

    For each direction of a setup the strategy quotes a grid of sizes, buying on one
    market and selling what it bought on the other, and classifies the best result.
    It is written over the [Quoting] interface, so the same program runs on the
    cache (QuoteCache) and directly on the sources.  A probe of a few sizes may
    choose one direction beforehand.

    Theorems: the candidates are valued exactly and spend at most their size; the
    selected candidate is a best one among those that reach their threshold, and the
    classification says what it achieves; the probe selects a direction only on a
    strict majority of comparable samples; the cache does not change any result.

    The two direction goroutines are run one after the other: their only shared
    state is the cache, which the last theorem shows to be transparent.  Durations
    and the traces of quotes and probes are left out. *)
From Stdlib Require Import QArith Qcanon.
From S2P Require Import Prelude Amount Quote Registry Arbitrage Pools Sizing QuoteCache.
Local Open Scope Z_scope.

Definition QuotePurposeResearchDiscovery : string := "research_discovery".
Definition ClassificationNoSpread : string := "no_spread".
Definition ClassificationObservedSpread : string := "observed_spread".

Record TwoMarket := mkTwoMarket {
  tm_id : StrategyID; tm_setup : ArbitrageSetup; tm_registry : Registry; tm_grid : Grid; tm_threshold : AssetQuantity;
  tm_thresholdFixed : AssetQuantity; tm_thresholdBPS : Z; tm_sizingAsset : AssetID; tm_discoverySamples : Z }.

Definition SizingAssetBase : string := "base".
Definition SizingAssetQuote : string := "quote".

Definition sizing_asset (known : Pair) (basis : string) : res AssetID :=
  let basis := if decide (basis = "") then SizingAssetQuote else basis in
  if decide (basis = SizingAssetBase) then Ok (Pair_BaseAsset known) else
  if decide (basis = SizingAssetQuote) then Ok (Pair_QuoteAsset known) else Err (Errorf "unsupported sizing asset %q").

(** [given]: the configuration has a clock; [sources] are the markets it has sources for. *)
Definition NewTwoMarket (id : StrategyID) (setup : ArbitrageSetup) (registry : option Registry) (sources : gset MarketID) (grid : Grid)
    (threshold thresholdFixed : AssetQuantity) (thresholdBPS : Z) (given : bool) (basis : string) (samples : Z) : res TwoMarket :=
  match registry with
  | None => Err (Errorf "strategy ID, registry, and clock are required")
  | Some registry =>
      if decide (id = "" \/ given = false) then Err (Errorf "strategy ID, registry, and clock are required") else
      if decide (length (setup_markets setup) <> 2%nat) then Err (Errorf "two-market strategy requires exactly two markets") else
      match reg_pairs registry !! setup_pair setup with
      | None => Err (Errorf "setup references unknown pair %q")
      | Some known =>
          sizingAsset ← sizing_asset known basis;
          if decide (Grid_Asset grid <> sizingAsset) then Err (Errorf "sizing grid must use %s asset %q") else
          if decide (samples <> 0 /\ samples < 3) then Err (Errorf "direction discovery requires at least three samples") else
          if decide (Z.of_nat (length (grid_values grid)) < samples)
          then Err (Errorf "direction discovery samples exceed sizing grid") else
          if decide (quantity_asset threshold <> Pair_QuoteAsset known \/ AssetQuantity_Sign threshold < 0)
          then Err (Errorf "non-negative threshold must use quote asset %q") else
          if decide (0 < thresholdBPS /\ (10000 < thresholdBPS \/ quantity_asset thresholdFixed <> Pair_QuoteAsset known \/
                                          AssetQuantity_Sign thresholdFixed <= 0 \/ AssetQuantity_Sign threshold <> 0))
          then Err (Errorf "percentage threshold requires a positive quote-asset floor, 1..10000 BPS, and zero legacy threshold") else
          if decide (Exists (fun marketID => marketID ∉ sources) (setup_markets setup))
          then Err (Errorf "quote source is required for market %q")
          else Ok (mkTwoMarket id setup registry grid threshold thresholdFixed thresholdBPS sizingAsset samples)
      end
  end.

Definition greater (left right : AssetQuantity) : bool :=
  match AssetQuantity_Cmp left right with Ok comparison => bool_decide (0 < comparison) | _ => false end.
Definition greaterOrEqual (left right : AssetQuantity) : bool :=
  match AssetQuantity_Cmp left right with Ok comparison => bool_decide (0 <= comparison) | _ => false end.

Definition hasUnmodeledFee (quote : Quote) : bool := existsb (fun fee => negb (fee_includedInAmounts fee)) (q_fees quote).

(** *** Thresholds *)

Definition percentage_units (input : Z) (bps : Z) : Z :=
  let numerator := input * bps in
  Z.quot numerator 10000 + (if decide (Z.modulo numerator 10000 <> 0) then 1 else 0).

Definition candidateThreshold (s : TwoMarket) (input : AssetQuantity) (quote : Token) : res (AssetQuantity * AssetQuantity * AssetQuantity) :=
  zero ← NewAssetQuantity (quantity_asset input) (Some (Q2Qc 0));
  if decide (tm_thresholdBPS s = 0) then Ok (tm_threshold s, zero, tm_threshold s) else
  inputUnits ← ToTokenAmount input quote;
  percentageToken ← NewTokenAmount (Token_ID quote) (Some (percentage_units (Units inputUnits) (tm_thresholdBPS s)));
  percentage ← ToAssetQuantity percentageToken quote;
  Ok (tm_thresholdFixed s, percentage, if greater percentage (tm_thresholdFixed s) then percentage else tm_thresholdFixed s).

Definition with_thresholds (c : Candidate) (fixed percentage effective : AssetQuantity) : Candidate :=
  mkCandidate (cd_Size c) (cd_Input c) (cd_Output c) (cd_GrossPnL c) (cd_Cost c) (cd_NetPnL c) fixed percentage effective
    (cd_BuyQuote c) (cd_SellQuote c) (cd_Valuation c) (cd_QuoteConversion c).

Definition new_candidate (size input output gross : AssetQuantity) (cost : CostSnapshot) (net : AssetQuantity) (buy sell : Quote) : Candidate :=
  mkCandidate size input output gross cost net AssetQuantity_zero AssetQuantity_zero AssetQuantity_zero buy sell None None.

Definition Token_zero : Token := mkToken "" "" "" 0 "".
Definition token_or_zero (registry : Registry) (id : TokenID) : Token := default Token_zero (reg_tokens registry !! id).

(** What a result achieves, and why. *)
Definition classification (gross net threshold : AssetQuantity) : string * string :=
  if decide (AssetQuantity_Sign gross <= 0) then (ClassificationNoSpread, "no_positive_gross_profit") else
  if decide (AssetQuantity_Sign net <= 0) then (ClassificationObservedSpread, "costs_exceed_gross_profit") else
  if negb (greaterOrEqual net threshold) then (ClassificationEconomic, "below_profit_threshold")
  else (ClassificationPolicyQualified, "profit_threshold_met").

(** [x, err := f(); err != nil || bad(x)]. *)
Definition checked {A} (r : res A) (bad : A -> bool) (format : string) : res A :=
  match r with
  | Ok a => if bad a then Err (Errorf format) else Ok a
  | Err _ => Err (Errorf format)
  | Panic why => Panic why
  end.

(** The tokens of a direction. *)
Record directionTokens := mkDirectionTokens { dt_buyBase : Token; dt_buyQuote : Token; dt_sellBase : Token; dt_sellQuote : Token }.

Section strategy.
Context {D S : Type} {quoting : Quoting D S} (error_text : error -> string) (ctx_Err : option error).
(** The clock at the end of a direction. *)
Context (finished : Direction -> Time).
Context (s : TwoMarket).

(** *** One candidate *)

(** A failed quote is reported with its leg, an unmodelled fee by name. *)
Definition priced (quote : res Quote) (failed unmodeled : string) : res Quote :=
  match quote with
  | Err e => Err (Wrapf failed e)
  | Panic why => Panic why
  | Ok q => if hasUnmodeledFee q then Err (Errorf unmodeled) else Ok q
  end.

Definition buy_input (evaluation : Evaluation D) (buySnapshot : MarketSnapshot D) (t : directionTokens) (buyInput : TokenAmount) : QuoteInput D :=
  mkQuoteInput buySnapshot (Token_ID (dt_buyQuote t)) (Token_ID (dt_buyBase t)) buyInput QuotePurposeResearchDiscovery (ev_startedAt evaluation).
Definition sell_input (evaluation : Evaluation D) (sellSnapshot : MarketSnapshot D) (t : directionTokens) (sellInput : TokenAmount) : QuoteInput D :=
  mkQuoteInput sellSnapshot (Token_ID (dt_sellBase t)) (Token_ID (dt_sellQuote t)) sellInput QuotePurposeResearchDiscovery (ev_startedAt evaluation).

Definition quoteSizedCandidate (evaluation : Evaluation D) (direction : Direction) (buySnapshot sellSnapshot : MarketSnapshot D)
    (t : directionTokens) (budget : AssetQuantity) : ST S Candidate :=
  buyInput ← lift (checked (ToTokenAmount budget (dt_buyQuote t)) (fun a => bool_decide (IsZero a)) "size_rounds_to_zero");
  bought ← try (exactInput (BuyMarket direction) (buy_input evaluation buySnapshot t buyInput));
  buy ← lift (priced bought "buy_quote_failed: %w" "buy_quote_has_unmodeled_fee");
  baseReceived ← lift (checked (ToAssetQuantity (q_AmountOut buy) (dt_buyBase t)) (fun q => bool_decide (AssetQuantity_Sign q <= 0)) "buy_output_invalid");
  sellInput ← lift (checked (ToTokenAmount baseReceived (dt_sellBase t)) (fun a => bool_decide (IsZero a)) "sell_input_rounds_to_zero");
  sold ← try (exactInput (SellMarket direction) (sell_input evaluation sellSnapshot t sellInput));
  sell ← lift (priced sold "sell_quote_failed: %w" "sell_quote_has_unmodeled_fee");
  output ← lift (checked (ToAssetQuantity (q_AmountOut sell) (dt_sellQuote t)) (fun _ => false) "sell_output_invalid");
  let input := or_zero (ToAssetQuantity buyInput (dt_buyQuote t)) in
  let gross := or_zero (AssetQuantity_Sub output input) in
  let net := or_zero (AssetQuantity_Sub gross (cost_Amount (ev_cost evaluation))) in
  mret (new_candidate budget input output gross (ev_cost evaluation) net buy sell).

Definition initialHigh (quote : Token) : TokenAmount :=
  amount_or_zero (NewTokenAmount (Token_ID quote) (Some (decimalFactor (Token_Decimals quote)))).

Definition buy_output (evaluation : Evaluation D) (buySnapshot : MarketSnapshot D) (t : directionTokens) (targetBase : TokenAmount) :
    ExactOutputRequest D :=
  mkExactOutputRequest buySnapshot (Token_ID (dt_buyQuote t)) (Token_ID (dt_buyBase t)) targetBase (initialHigh (dt_buyQuote t))
    QuotePurposeResearchDiscovery (ev_startedAt evaluation).

Definition baseSizedCandidate (evaluation : Evaluation D) (direction : Direction) (buySnapshot sellSnapshot : MarketSnapshot D)
    (t : directionTokens) (size : AssetQuantity) : ST S Candidate :=
  targetBase ← lift (checked (ToTokenAmount size (dt_buyBase t)) (fun a => bool_decide (IsZero a)) "size_rounds_to_zero");
  let actualSize := or_zero (ToAssetQuantity targetBase (dt_buyBase t)) in
  bought ← try (exactOutput (BuyMarket direction) (buy_output evaluation buySnapshot t targetBase));
  buy ← lift (priced bought "buy_quote_failed: %w" "buy_quote_has_unmodeled_fee");
  actualInput ← lift (checked (ToAssetQuantity (q_AmountIn buy) (dt_buyQuote t)) (fun _ => false) "buy_input_invalid");
  sellInput ← lift (checked (ToTokenAmount actualSize (dt_sellBase t)) (fun a => bool_decide (IsZero a)) "sell_input_rounds_to_zero");
  sold ← try (exactInput (SellMarket direction) (sell_input evaluation sellSnapshot t sellInput));
  sell ← lift (priced sold "sell_quote_failed: %w" "sell_quote_has_unmodeled_fee");
  output ← lift (checked (ToAssetQuantity (q_AmountOut sell) (dt_sellQuote t)) (fun _ => false) "sell_output_invalid");
  let gross := or_zero (AssetQuantity_Sub output actualInput) in
  let net := or_zero (AssetQuantity_Sub gross (cost_Amount (ev_cost evaluation))) in
  mret (new_candidate actualSize actualInput output gross (ev_cost evaluation) net buy sell).

Definition candidate (evaluation : Evaluation D) (direction : Direction) (buySnapshot sellSnapshot : MarketSnapshot D)
    (t : directionTokens) (size : AssetQuantity) : ST S Candidate :=
  if decide (tm_sizingAsset s = Token_Asset (dt_buyQuote t))
  then quoteSizedCandidate evaluation direction buySnapshot sellSnapshot t size
  else baseSizedCandidate evaluation direction buySnapshot sellSnapshot t size.

(** *** One direction *)

Definition Trigger_zero : TriggerMetadata := mkTriggerMetadata "" "" (mkSourcePosition "" 0) (mkSourceReference "" "") 0.

(** An opportunity with its candidates, classification and reasons. *)
Definition new_opportunity (evaluation : Evaluation D) (direction : Direction) (classification : string)
    (snapshots : list SnapshotMetadata) (candidates : list Candidate) (selected : Z) (threshold : AssetQuantity) (reasons : list string) :
    Opportunity :=
  mkOpportunity (ev_id evaluation) (ev_run evaluation) (ev_configHash evaluation) (tm_id s) direction classification snapshots candidates
    selected threshold reasons (default Trigger_zero (ev_trigger evaluation)) (bool_decide (ev_trigger evaluation <> None))
    (ev_triggeredAt evaluation) (ev_startedAt evaluation) (finished direction).

Definition unclassifiable (evaluation : Evaluation D) (direction : Direction) (snapshots : list SnapshotMetadata)
    (candidates : list Candidate) (reasons : list string) : Opportunity :=
  new_opportunity evaluation direction ClassificationUnclassifiable snapshots candidates (-1) (tm_threshold s) reasons.

Definition classify (c : Candidate) : string * string :=
  classification (cd_GrossPnL c) (cd_NetPnL c) (cd_EffectiveThreshold c).

Record sizingState := mkSizingState {
  ss_candidates : list Candidate; ss_reasons : list string; ss_bestOverall : Z; ss_bestQualified : Z }.

(** [best < 0 || greater(candidate.NetPnL, candidates[best].NetPnL)]. *)
Definition beats (candidates : list Candidate) (best : Z) (c : Candidate) : res bool :=
  if decide (best < 0) then Ok true else
  match candidates !! Z.to_nat best with
  | None => Panic "index out of range"
  | Some b => Ok (greater (cd_NetPnL c) (cd_NetPnL b))
  end.

Definition add_candidate (state : sizingState) (c : Candidate) : res sizingState :=
  let candidates := ss_candidates state ++ [c] in
  let index := Z.of_nat (length (ss_candidates state)) in
  overall ← beats candidates (ss_bestOverall state) c;
  qualified ← (if greaterOrEqual (cd_NetPnL c) (cd_EffectiveThreshold c)
               then beats candidates (ss_bestQualified state) c else Ok false);
  Ok (mkSizingState candidates (ss_reasons state) (if overall : bool then index else ss_bestOverall state)
        (if qualified : bool then index else ss_bestQualified state)).

Definition add_reason (state : sizingState) (reason : string) : sizingState :=
  mkSizingState (ss_candidates state) (ss_reasons state ++ [reason]) (ss_bestOverall state) (ss_bestQualified state).

Definition try_size (evaluation : Evaluation D) (direction : Direction) (buySnapshot sellSnapshot : MarketSnapshot D) (t : directionTokens)
    (state : sizingState) (size : AssetQuantity) : ST S sizingState :=
  outcome ← try (candidate evaluation direction buySnapshot sellSnapshot t size);
  match outcome with
  | Panic why => lift (Panic why)
  | Err e => mret (add_reason state (error_text e))
  | Ok c =>
      match candidateThreshold s (cd_Input c) (dt_buyQuote t) with
      | Panic why => lift (Panic why)
      | Err e => mret (add_reason state ("threshold_failed: " +:+ error_text e))
      | Ok (fixed, percentage, effective) => lift (add_candidate state (with_thresholds c fixed percentage effective))
      end
  end.

(** What the sizes lead to. *)
Definition conclude_direction (evaluation : Evaluation D) (direction : Direction) (snapshots : list SnapshotMetadata)
    (state : sizingState) : res Opportunity :=
  let selectedIndex := if decide (0 <= ss_bestQualified state) then ss_bestQualified state else ss_bestOverall state in
  if decide (selectedIndex < 0) then
    Ok (unclassifiable evaluation direction snapshots (ss_candidates state)
          (if decide (ss_reasons state = []) then ["no_valid_size"] else ss_reasons state))
  else
    match ss_candidates state !! Z.to_nat selectedIndex with
    | None => Panic "index out of range"
    | Some selected =>
        Ok (new_opportunity evaluation direction (classify selected).1 snapshots (ss_candidates state) selectedIndex
              (cd_EffectiveThreshold selected) [(classify selected).2])
    end.

Definition direction_tokens (buyMarket sellMarket : Market) : directionTokens :=
  mkDirectionTokens (token_or_zero (tm_registry s) (Market_BaseToken buyMarket)) (token_or_zero (tm_registry s) (Market_QuoteToken buyMarket))
    (token_or_zero (tm_registry s) (Market_BaseToken sellMarket)) (token_or_zero (tm_registry s) (Market_QuoteToken sellMarket)).

(** The snapshots and tokens of a direction, or why it cannot be evaluated. *)
Definition direction_inputs (evaluation : Evaluation D) (direction : Direction) :
    Opportunity + (MarketSnapshot D * MarketSnapshot D * directionTokens) :=
  match Evaluation_Snapshot evaluation (BuyMarket direction), Evaluation_Snapshot evaluation (SellMarket direction) with
  | Some buySnapshot, Some sellSnapshot =>
      let snapshots := [snap_metadata buySnapshot; snap_metadata sellSnapshot] in
      if decide (md_Health (snap_metadata buySnapshot) <> HealthHealthy \/ md_Health (snap_metadata sellSnapshot) <> HealthHealthy)
      then inl (unclassifiable evaluation direction snapshots [] ["degraded_market_snapshot"]) else
      match reg_markets (tm_registry s) !! BuyMarket direction, reg_markets (tm_registry s) !! SellMarket direction with
      | Some buyMarket, Some sellMarket => inr (buySnapshot, sellSnapshot, direction_tokens buyMarket sellMarket)
      | _, _ => inl (unclassifiable evaluation direction snapshots [] ["unknown_market"])
      end
  | _, _ => inl (unclassifiable evaluation direction [] [] ["missing_market_snapshot"])
  end.

Definition evaluateDirection (evaluation : Evaluation D) (direction : Direction) : ST S Opportunity :=
  match direction_inputs evaluation direction with
  | inl opportunity => mret opportunity
  | inr (buySnapshot, sellSnapshot, t) =>
      state ← foldST (try_size evaluation direction buySnapshot sellSnapshot t) (mkSizingState [] [] (-1) (-1)) (Grid_Values (tm_grid s));
      lift (conclude_direction evaluation direction [snap_metadata buySnapshot; snap_metadata sellSnapshot] state)
  end.

(** *** Choosing a direction beforehand *)

(** One probe: the base asset bought with the size, if the market answers. *)
Definition probe (evaluation : Evaluation D) (marketID : MarketID) (snapshot : MarketSnapshot D) (tokenIn tokenOut : Token)
    (size : AssetQuantity) : ST S (option AssetQuantity) :=
  match ToTokenAmount size tokenIn with
  | Panic why => lift (Panic why)
  | Err _ => mret None
  | Ok amount =>
      if decide (IsZero amount) then mret None else
      outcome ← try (exactInput marketID (mkQuoteInput snapshot (Token_ID tokenIn) (Token_ID tokenOut) amount
                                            QuotePurposeResearchDiscovery (ev_startedAt evaluation)));
      match outcome with
      | Panic why => lift (Panic why)
      | Err _ => match ctx_Err with Some e => lift (Err e) | None => mret None end
      | Ok quote => mret (res_opt (ToAssetQuantity (q_AmountOut quote) tokenOut))
      end
  end.

(** Two outputs in the same asset that differ; true when the first is greater. *)
Definition comparable (a b : option AssetQuantity) : option bool :=
  match a, b with
  | Some a, Some b =>
      if decide (quantity_asset a = quantity_asset b) then
        match AssetQuantity_Cmp a b with
        | Ok comparison => if decide (comparison <> 0) then Some (bool_decide (0 < comparison)) else None
        | _ => None
        end
      else None
  | _, _ => None
  end.

Record tally := mkTally { ta_valid : Z; ta_winsA : Z; ta_winsB : Z }.

(** The markets, snapshots and tokens that are probed. *)
Record probeSide := mkProbeSide { ps_Market : MarketID; ps_Snapshot : MarketSnapshot D; ps_Quote : Token; ps_Base : Token }.

Definition sample (evaluation : Evaluation D) (a b : probeSide) (wins : tally) (index : nat) : ST S tally :=
  match ctx_Err with
  | Some e => lift (Err e)
  | None =>
      let values := Grid_Values (tm_grid s) in
      if decide (tm_discoverySamples s = 1) then lift (Panic "integer divide by zero") else
      match values !! Z.to_nat (Z.quot (Z.of_nat index * (Z.of_nat (length values) - 1)) (tm_discoverySamples s - 1)) with
      | None => lift (Panic "index out of range")
      | Some size =>
          outputA ← probe evaluation (ps_Market a) (ps_Snapshot a) (ps_Quote a) (ps_Base a) size;
          outputB ← probe evaluation (ps_Market b) (ps_Snapshot b) (ps_Quote b) (ps_Base b) size;
          mret (match comparable outputA outputB with
                | None => wins
                | Some true => mkTally (ta_valid wins + 1) (ta_winsA wins + 1) (ta_winsB wins)
                | Some false => mkTally (ta_valid wins + 1) (ta_winsA wins) (ta_winsB wins + 1)
                end)
      end
  end.

Definition Majority : string := "majority".

(** What the probe needs, or the decision it falls back with. *)
Definition probe_sides (evaluation : Evaluation D) : string + (probeSide * probeSide) :=
  match setup_directions (tm_setup s) with
  | [first; _] =>
      match reg_markets (tm_registry s) !! BuyMarket first, reg_markets (tm_registry s) !! SellMarket first with
      | Some marketA, Some marketB =>
          match Evaluation_Snapshot evaluation (Market_ID marketA), Evaluation_Snapshot evaluation (Market_ID marketB) with
          | Some snapshotA, Some snapshotB =>
              match reg_tokens (tm_registry s) !! Market_QuoteToken marketA, reg_tokens (tm_registry s) !! Market_QuoteToken marketB,
                    reg_tokens (tm_registry s) !! Market_BaseToken marketA, reg_tokens (tm_registry s) !! Market_BaseToken marketB with
              | Some quoteA, Some quoteB, Some baseA, Some baseB =>
                  if decide (tm_sizingAsset s <> Token_Asset quoteA \/ tm_sizingAsset s <> Token_Asset quoteB)
                  then inl "unsupported_sizing_asset"
                  else inr (mkProbeSide (Market_ID marketA) snapshotA quoteA baseA, mkProbeSide (Market_ID marketB) snapshotB quoteB baseB)
              | _, _, _, _ => inl "unknown_token"
              end
          | _, _ => inl "missing_snapshot"
          end
      | _, _ => inl "unknown_market"
      end
  | _ => inl "unsupported_setup"
  end.

Definition decide_direction (a b : MarketID) (wins : tally) : option Direction * string :=
  if decide (ta_valid wins = tm_discoverySamples s /\ Z.quot (ta_valid wins) 2 < ta_winsA wins) then (Some (mkDirection a b), Majority) else
  if decide (ta_valid wins = tm_discoverySamples s /\ Z.quot (ta_valid wins) 2 < ta_winsB wins) then (Some (mkDirection b a), Majority)
  else (None, "uncertain_fallback_both").

Definition discoverDirection (evaluation : Evaluation D) : ST S (option Direction * string) :=
  match probe_sides evaluation with
  | inl decision => mret (None, decision)
  | inr (a, b) =>
      wins ← foldST (sample evaluation a b) (mkTally 0 0 0) (seq 0 (Z.to_nat (tm_discoverySamples s)));
      mret (decide_direction (ps_Market a) (ps_Market b) wins)
  end.

(** *** An evaluation *)

Definition check_ctx : ST S unit := match ctx_Err with Some e => lift (Err e) | None => mret tt end.

Definition evaluate_next (evaluation : Evaluation D) (opportunities : list Opportunity) (direction : Direction) : ST S (list Opportunity) :=
  opportunity ← evaluateDirection evaluation direction;
  mret (opportunities ++ [opportunity]).
Definition evaluate_directions (evaluation : Evaluation D) (directions : list Direction) : ST S (list Opportunity) :=
  foldST (evaluate_next evaluation) [] directions.

Definition TwoMarket_Evaluate (evaluation : Evaluation D) : ST S (list Opportunity) :=
  if decide (ev_strategy evaluation <> tm_id s) then fail "evaluation targets strategy %q, expected %q" else
  if decide (quantity_asset (cost_Amount (ev_cost evaluation)) <> quantity_asset (tm_threshold s))
  then fail "cost asset does not match strategy quote asset" else
  directions ← (if decide (0 < tm_discoverySamples s) then
                  '(selected, _) ← discoverDirection evaluation;
                  mret (match selected with Some direction => [direction] | None => setup_directions (tm_setup s) end)
                else mret (setup_directions (tm_setup s)));
  _ ← check_ctx;
  opportunities ← evaluate_directions evaluation directions;
  _ ← check_ctx;
  mret opportunities.

(** One direction at one size, never resized. *)
Definition EvaluatePinned (evaluation : Evaluation D) (direction : Direction) (size : AssetQuantity) : ST S Opportunity :=
  if decide (ev_strategy evaluation <> tm_id s) then fail "evaluation targets strategy %q, expected %q" else
  if decide (quantity_asset size <> tm_sizingAsset s \/ tm_sizingAsset s = "") then fail "pinned size must use sizing asset %q" else
  if decide (direction ∉ setup_directions (tm_setup s)) then fail "pinned direction is not part of the setup" else
  match direction_inputs evaluation direction with
  | inl opportunity => mret opportunity
  | inr (buySnapshot, sellSnapshot, t) =>
      let snapshots := [snap_metadata buySnapshot; snap_metadata sellSnapshot] in
      if decide (tm_sizingAsset s <> Token_Asset (dt_buyQuote t)) then fail "pinned tracking currently requires quote-asset sizing" else
      outcome ← try (quoteSizedCandidate evaluation direction buySnapshot sellSnapshot t size);
      match outcome with
      | Panic why => lift (Panic why)
      | Err e => mret (unclassifiable evaluation direction snapshots [] [error_text e])
      | Ok c =>
          '(fixed, percentage, effective) ← lift (candidateThreshold s (cd_Input c) (dt_buyQuote t));
          let c := with_thresholds c fixed percentage effective in
          mret (new_opportunity evaluation direction (classify c).1 snapshots [c] 0 effective [(classify c).2])
      end
  end.
End strategy.

(** ** Candidates are valued exactly *)

Lemma try_Ok {S A} (m : ST S A) st r st' : try m st = (Ok r, st') -> m st = (r, st') /\ no_panic r.
Proof. unfold try. destruct (m st) as [[a|e|why] s']; intros [= <- <-]; split; try done; by intros w. Qed.

Lemma priced_Ok quote failed unmodeled q : priced quote failed unmodeled = Ok q -> quote = Ok q /\ hasUnmodeledFee q = false.
Proof. unfold priced. destruct quote as [q'|e|why]; [|done..]. destruct (hasUnmodeledFee q') eqn:Hf; [done|]. by intros [= ->]. Qed.

Lemma checked_Ok {A} (r : res A) bad format a : checked r bad format = Ok a -> r = Ok a /\ bad a = false.
Proof. unfold checked. destruct r as [x|e|why]; [|done..]. destruct (bad x) eqn:Hb; [done|]. by intros [= ->]. Qed.

(** The sources answer the requests they get. *)
Class Answers {D S : Type} (quoting : Quoting D S) : Prop := {
  input_answered : forall marketID (i : QuoteInput D) (st : S) q st', exactInput marketID i st = (Ok q, st') -> answers_request i q;
  output_answered : forall marketID (r : ExactOutputRequest D) (st : S) q st', exactOutput marketID r st = (Ok q, st') ->
    amount_token (q_AmountIn q) = eo_TokenIn r /\ Units (eo_TargetOut r) <= Units (q_AmountOut q) }.

(** A direction whose two markets quote in the asset of the costs. *)
Definition one_economy {D} (evaluation : Evaluation D) (t : directionTokens) : Prop :=
  Token_Asset (dt_buyQuote t) = quantity_asset (cost_Amount (ev_cost evaluation)) /\
  Token_Asset (dt_sellQuote t) = quantity_asset (cost_Amount (ev_cost evaluation)).

(** The greatest positive amount of a token that is worth at most [v]. *)
Record rounds_down (v : Qc) (token : Token) (a : TokenAmount) : Prop := {
  rd_token : amount_token a = Token_ID token;
  rd_positive : 0 < Units a;
  rd_floor : is_floor (Units a) (v * SetInt (decimalFactor (Token_Decimals token)))%Qc }.

Lemma rounds_down_Ok q token a : ToTokenAmount q token = Ok a -> bool_decide (IsZero a) = false -> rounds_down (Rat q) token a.
Proof.
  intros (Hwf & Ht & Hf)%ToTokenAmount_floor Hz%bool_decide_eq_false. apply amount_wf_Units in Hwf. unfold IsZero in Hz.
  rewrite Z.sgn_null_iff in Hz. split; [done|lia|done].
Qed.

Section valuation.
Context {D S : Type} {quoting : Quoting D S} (s : TwoMarket) (evaluation : Evaluation D) (direction : Direction).
Context (buySnapshot sellSnapshot : MarketSnapshot D) (t : directionTokens).

(** A size in the quote asset is spent to the unit on the buying market, and what
    it buys is sold to the unit. *)
Record quote_sized (size : AssetQuantity) (buy sell : Quote) (actual : AssetQuantity) : Prop := {
  qs_size : actual = size;
  qs_spent : rounds_down (Rat size) (dt_buyQuote t) (q_AmountIn buy);
  qs_bought : exists (st st' : S), exactInput (BuyMarket direction) (buy_input evaluation buySnapshot t (q_AmountIn buy)) st = (Ok buy, st');
  qs_token : amount_token (q_AmountOut buy) = Token_ID (dt_buyBase t);
  qs_sold : rounds_down (worth (q_AmountOut buy) (dt_buyBase t)) (dt_sellBase t) (q_AmountIn sell) }.

(** A size in the base asset is asked for to the unit on the buying market, which
    delivers it at least, and sold to the unit. *)
Record base_sized (size : AssetQuantity) (buy sell : Quote) (actual : AssetQuantity) (target : TokenAmount) : Prop := {
  bs_target : rounds_down (Rat size) (dt_buyBase t) target;
  bs_size : actual = mkAssetQuantity (Token_Asset (dt_buyBase t)) (Some (worth target (dt_buyBase t)));
  bs_bought : exists (st st' : S), exactOutput (BuyMarket direction) (buy_output evaluation buySnapshot t target) st = (Ok buy, st');
  bs_delivered : Units target <= Units (q_AmountOut buy);
  bs_sold : rounds_down (worth target (dt_buyBase t)) (dt_sellBase t) (q_AmountIn sell) }.

(** What a candidate says of its two quotes. *)
Record candidate_valued (size : AssetQuantity) (c : Candidate) : Prop := {
  cv_sized : if decide (tm_sizingAsset s = Token_Asset (dt_buyQuote t))
             then quote_sized size (cd_BuyQuote c) (cd_SellQuote c) (cd_Size c)
             else exists target, base_sized size (cd_BuyQuote c) (cd_SellQuote c) (cd_Size c) target;
  cv_quoted : exists (st st' : S), exactInput (SellMarket direction) (sell_input evaluation sellSnapshot t (q_AmountIn (cd_SellQuote c))) st
                             = (Ok (cd_SellQuote c), st');
  cv_tokens : amount_token (q_AmountIn (cd_BuyQuote c)) = Token_ID (dt_buyQuote t) /\
    amount_token (q_AmountOut (cd_SellQuote c)) = Token_ID (dt_sellQuote t);
  cv_fees : hasUnmodeledFee (cd_BuyQuote c) = false /\ hasUnmodeledFee (cd_SellQuote c) = false;
  cv_input : cd_Input c = mkAssetQuantity (Token_Asset (dt_buyQuote t)) (Some (worth (q_AmountIn (cd_BuyQuote c)) (dt_buyQuote t)));
  cv_output : cd_Output c = mkAssetQuantity (Token_Asset (dt_sellQuote t)) (Some (worth (q_AmountOut (cd_SellQuote c)) (dt_sellQuote t)));
  cv_cost : cd_Cost c = ev_cost evaluation;
  cv_sold : (worth (q_AmountIn (cd_SellQuote c)) (dt_sellBase t) <= worth (q_AmountOut (cd_BuyQuote c)) (dt_buyBase t))%Qc;
  cv_profit : if decide (one_economy evaluation t) then
      quantity_asset (cd_NetPnL c) = quantity_asset (cost_Amount (ev_cost evaluation)) /\
      Rat (cd_GrossPnL c) = (Rat (cd_Output c) - Rat (cd_Input c))%Qc /\
      Rat (cd_NetPnL c) = (Rat (cd_GrossPnL c) - Rat (cost_Amount (cd_Cost c)))%Qc
    else cd_NetPnL c = AssetQuantity_zero }.
End valuation.

Lemma worth_mono a b token : Units a <= Units b -> (worth a token <= worth b token)%Qc.
Proof.
  intros H. pose proof (SetInt_pos _ (decimalFactor_pos (Token_Decimals token))) as Hd.
  apply Qcmult_lt_0_le_reg_r with (SetInt (decimalFactor (Token_Decimals token))); [done|]. unfold worth.
  rewrite !SetFrac_mul by apply decimalFactor_pos. by apply SetInt_le.
Qed.

Lemma ToTokenAmount_worth q token a : ToTokenAmount q token = Ok a -> (worth a token <= Rat q)%Qc.
Proof.
  intros H. apply ToTokenAmount_is_floor in H as [_ [H _]].
  pose proof (SetInt_pos _ (decimalFactor_pos (Token_Decimals token))) as Hd.
  apply Qcmult_lt_0_le_reg_r with (SetInt (decimalFactor (Token_Decimals token))); [done|]. unfold worth.
  by rewrite SetFrac_mul by apply decimalFactor_pos.
Qed.

Lemma worth_pos a token : (0 < worth a token)%Qc -> 0 < Units a.
Proof.
  intros H. destruct (Z_lt_le_dec 0 (Units a)) as [|Hle]; [done|]. exfalso. apply Qclt_not_le in H. apply H.
  pose proof (SetInt_pos _ (decimalFactor_pos (Token_Decimals token))) as Hd.
  apply Qcmult_lt_0_le_reg_r with (SetInt (decimalFactor (Token_Decimals token))); [done|]. unfold worth.
  rewrite SetFrac_mul by apply decimalFactor_pos. rewrite Qcmult_0_l. by apply (SetInt_le _ 0).
Qed.

(** The profit of an input and an output at a cost. *)
Lemma profit_exact {D} (evaluation : Evaluation D) t (x y : Qc) :
  Token_Asset (dt_buyQuote t) <> "" -> Token_Asset (dt_sellQuote t) <> "" ->
  let input := mkAssetQuantity (Token_Asset (dt_buyQuote t)) (Some x) in
  let output := mkAssetQuantity (Token_Asset (dt_sellQuote t)) (Some y) in
  let gross := or_zero (AssetQuantity_Sub output input) in
  let net := or_zero (AssetQuantity_Sub gross (cost_Amount (ev_cost evaluation))) in
  if decide (one_economy evaluation t) then
    quantity_asset net = quantity_asset (cost_Amount (ev_cost evaluation)) /\
    Rat gross = (Rat output - Rat input)%Qc /\ Rat net = (Rat gross - Rat (cost_Amount (ev_cost evaluation)))%Qc
  else net = AssetQuantity_zero.
Proof.
  intros Hb Hs. cbv zeta. rewrite !or_zero_Sub. cbn [quantity_asset]. unfold one_economy. set (cost := cost_Amount (ev_cost evaluation)).
  destruct (decide (Token_Asset (dt_buyQuote t) = quantity_asset cost /\ _)) as [[H1 H2]|Hne].
  - rewrite (decide_True (P := Token_Asset (dt_sellQuote t) = Token_Asset (dt_buyQuote t) /\ _)) by (split; congruence).
    cbn [quantity_asset]. by rewrite decide_True.
  - destruct (decide (Token_Asset (dt_sellQuote t) = Token_Asset (dt_buyQuote t) /\ _)) as [[He _]|Hd]; cbn [quantity_asset AssetQuantity_zero].
    + rewrite decide_False; [done|]. intros [Hc _]. apply Hne. split; congruence.
    + by rewrite decide_False by tauto.
Qed.

(** An amount made from a quantity converts back. *)
Lemma ToTokenAmount_back q token a :
  quantity_asset q <> "" -> ToTokenAmount q token = Ok a ->
  ToAssetQuantity a token = Ok (mkAssetQuantity (Token_Asset token) (Some (worth a token))) /\ Token_Asset token <> "".
Proof.
  intros Hq H. unfold ToTokenAmount in H. destruct (decide _) as [|Ha] in H; [done|]. apply dec_stable in Ha.
  destruct (decide _); [done|]. apply NewTokenAmount_inv in H as (_ & Ht & _). unfold ToAssetQuantity, NewAssetQuantity.
  rewrite decide_False by (rewrite Ht; intros []; done). rewrite decide_False by congruence. split; [done|congruence].
Qed.

Section candidates.
Context {D S : Type} {quoting : Quoting D S} {Hanswers : Answers quoting} (s : TwoMarket).
Context (evaluation : Evaluation D) (direction : Direction) (buySnapshot sellSnapshot : MarketSnapshot D) (t : directionTokens).

Lemma quoteSizedCandidate_valued budget (st : S) c st' :
  quantity_asset budget <> "" ->
  quoteSizedCandidate evaluation direction buySnapshot sellSnapshot t budget st = (Ok c, st') ->
  tm_sizingAsset s = Token_Asset (dt_buyQuote t) ->
  candidate_valued (quoting := quoting) s evaluation direction buySnapshot sellSnapshot t budget c.
Proof using Hanswers.
  unfold quoteSizedCandidate. intros Hasset H Hbasis. apply st_bind_Ok in H as (buyInput & s1 & [= Hin <-] & H).
  apply st_bind_Ok in H as (bought & s2 & Hb & H). apply try_Ok in Hb as [Hb _].
  apply st_bind_Ok in H as (buy & s3 & [= Hbuy <-] & H). apply priced_Ok in Hbuy as [-> Hbf].
  apply st_bind_Ok in H as (base & s4 & [= Hbase <-] & H). apply st_bind_Ok in H as (sellInput & s5 & [= Hsell <-] & H).
  apply st_bind_Ok in H as (sold & s6 & Hs & H). apply try_Ok in Hs as [Hs _].
  apply st_bind_Ok in H as (sell & s7 & [= Hsl <-] & H). apply priced_Ok in Hsl as [-> Hsf].
  apply st_bind_Ok in H as (output & s8 & [= Hout <-] & H). injection H as <- <-.
  apply checked_Ok in Hin as [Hin Hnz], Hbase as [Hbase _], Hsell as [Hsell Hsnz], Hout as [Hout _].
  pose proof Hb as (Hbin & Hbtok & _)%input_answered. pose proof Hs as (Hsin & Hstok & _)%input_answered. cbn in Hbin, Hbtok, Hsin, Hstok.
  apply ToAssetQuantity_inv in Hbase as (_ & _ & ->), Hout as (_ & Hsa & ->).
  destruct (ToTokenAmount_back _ _ _ Hasset Hin) as [Hinput Hba].
  rewrite Hinput. cbn [or_zero res_opt default].
  pose proof (profit_exact evaluation t (worth buyInput (dt_buyQuote t)) (worth (q_AmountOut sell) (dt_sellQuote t)) Hba Hsa) as Hp.
  pose proof (rounds_down_Ok _ _ _ Hin Hnz) as Hspent. pose proof (rounds_down_Ok _ _ _ Hsell Hsnz) as Hsold.
  apply ToTokenAmount_worth in Hsell. rewrite <- Hbin in Hb, Hspent. rewrite <- Hsin in Hs, Hsell, Hsold.
  split; cbn [new_candidate cd_Size cd_BuyQuote cd_SellQuote cd_Input cd_Output cd_Cost cd_GrossPnL cd_NetPnL]; try done; try by rewrite Hbin.
  - rewrite decide_True by done. split; try done. by eexists _, _.
  - by eexists _, _.
  - split; [|done]. apply Hspent.
Qed.

Lemma baseSizedCandidate_valued size (st : S) c st' :
  tm_sizingAsset s <> Token_Asset (dt_buyQuote t) -> quantity_asset size <> "" ->
  baseSizedCandidate evaluation direction buySnapshot sellSnapshot t size st = (Ok c, st') ->
  candidate_valued (quoting := quoting) s evaluation direction buySnapshot sellSnapshot t size c.
Proof using Hanswers.
  unfold baseSizedCandidate. intros Hbasis Hasset H. apply st_bind_Ok in H as (target & s1 & [= Ht <-] & H).
  apply st_bind_Ok in H as (bought & s2 & Hb & H). apply try_Ok in Hb as [Hb _].
  apply st_bind_Ok in H as (buy & s3 & [= Hbuy <-] & H). apply priced_Ok in Hbuy as [-> Hbf].
  apply st_bind_Ok in H as (input & s4 & [= Hinput <-] & H). apply st_bind_Ok in H as (sellInput & s5 & [= Hsell <-] & H).
  apply st_bind_Ok in H as (sold & s6 & Hs & H). apply try_Ok in Hs as [Hs _].
  apply st_bind_Ok in H as (sell & s7 & [= Hsl <-] & H). apply priced_Ok in Hsl as [-> Hsf].
  apply st_bind_Ok in H as (output & s8 & [= Hout <-] & H). injection H as <- <-.
  apply checked_Ok in Ht as [Ht Hnz], Hinput as [Hinput _], Hsell as [Hsell Hsnz], Hout as [Hout _].
  pose proof Hb as (Hbtok & Hbout)%output_answered. pose proof Hs as (Hsin & Hstok & _)%input_answered. cbn in Hbtok, Hbout, Hsin, Hstok.
  apply ToAssetQuantity_inv in Hinput as (_ & Hba & ->), Hout as (_ & Hsa & ->).
  destruct (ToTokenAmount_back _ _ _ Hasset Ht) as [Hactual _]. rewrite Hactual in *. cbn [or_zero res_opt default] in *.
  pose proof (profit_exact evaluation t (worth (q_AmountIn buy) (dt_buyQuote t)) (worth (q_AmountOut sell) (dt_sellQuote t)) Hba Hsa) as Hp.
  pose proof (rounds_down_Ok _ _ _ Ht Hnz) as Htarget. pose proof (rounds_down_Ok _ _ _ Hsell Hsnz) as Hsold.
  apply ToTokenAmount_worth in Hsell. cbn [Rat quantity_value] in Hsell, Hsold. rewrite <- Hsin in Hs, Hsell, Hsold.
  split; cbn [new_candidate cd_Size cd_BuyQuote cd_SellQuote cd_Input cd_Output cd_Cost cd_GrossPnL cd_NetPnL]; try done.
  - rewrite decide_False by done. exists target. split; try done. by eexists _, _.
  - by eexists _, _.
  - eapply Qcle_trans; [exact Hsell|]. by apply worth_mono.
Qed.

Lemma candidate_is_valued size (st : S) c st' :
  quantity_asset size <> "" -> candidate s evaluation direction buySnapshot sellSnapshot t size st = (Ok c, st') ->
  candidate_valued (quoting := quoting) s evaluation direction buySnapshot sellSnapshot t size c.
Proof using Hanswers.
  unfold candidate. intros Hasset. destruct (decide _); intros H; [by apply quoteSizedCandidate_valued in H|by apply baseSizedCandidate_valued in H].
Qed.
End candidates.

(** ** The selected candidate is a best one *)

Definition net (c : Candidate) : Qc := Rat (cd_NetPnL c).
Definition qualified (c : Candidate) : Prop := greaterOrEqual (cd_NetPnL c) (cd_EffectiveThreshold c) = true.
Definition prefers (i : nat) (best : Candidate) (j : nat) (c : Candidate) : Prop :=
  (net c <= net best)%Qc /\ (net c = net best -> (i <= j)%nat).

Lemma greater_same a b : quantity_asset a = quantity_asset b -> greater a b = true <-> (Rat b < Rat a)%Qc.
Proof. intros Ha. unfold greater, AssetQuantity_Cmp. rewrite decide_False by (intros []; done). by rewrite bool_decide_eq_true, Rat_Cmp_pos. Qed.

Lemma greaterOrEqual_iff a b : greaterOrEqual a b = true <-> quantity_asset a = quantity_asset b /\ (Rat b <= Rat a)%Qc.
Proof.
  unfold greaterOrEqual, AssetQuantity_Cmp. destruct (decide (_ <> _)) as [Hne|He].
  - split; [done|]. by intros [? _].
  - apply dec_stable in He. rewrite bool_decide_eq_true, Rat_Cmp_nonneg. tauto.
Qed.

(** The candidates of one direction share the asset of their result. *)
Definition in_asset (asset : AssetID) (l : list Candidate) : Prop := Forall (fun c => quantity_asset (cd_NetPnL c) = asset) l.

(** One comparison keeps the best of the candidates that satisfy [P]. *)
Lemma beats_best asset (P : Candidate -> Prop) l best c :
  in_asset asset l -> quantity_asset (cd_NetPnL c) = asset -> best_index P prefers l best -> P c ->
  exists b, beats (l ++ [c]) best c = Ok b /\ best_index P prefers (l ++ [c]) (if b : bool then Z.of_nat (length l) else best).
Proof.
  intros Hl Hc Hbest HP. unfold beats. destruct (decide (best < 0)) as [Hneg|Hpos].
  - exists true. split; [done|]. destruct Hbest as [[_ Hall]|(i & ? & -> & _)]; [|lia].
    apply best_index_new; [done|split; [apply Qcle_refl|lia]|]. intros j b Hj Hb. rewrite Forall_lookup in Hall. by destruct (Hall _ _ Hj).
  - pose proof Hbest as [[-> _]|(i & a & -> & Hi & _ & Hmax)]; [lia|]. rewrite Nat2Z.id, (lookup_app_l_Some l _ i a) by done. eexists. split; [done|].
    assert (quantity_asset (cd_NetPnL c) = quantity_asset (cd_NetPnL a)) as Hsame.
    { rewrite Hc. symmetry. by eapply (Forall_lookup_1 _ _ _ _ Hl). }
    destruct (greater _ _) eqn:Hg; [apply greater_same in Hg; [|done]|].
    + apply best_index_new; [done|split; [apply Qcle_refl|lia]|]. intros j b Hj Hb. destruct (Hmax j b Hj Hb) as [Hle _].
      assert (net b < net c)%Qc as Hlt by (by apply Qcle_lt_trans with (net a)). split; [by apply Qclt_le_weak|].
      intros He. rewrite He in Hlt. by apply Qclt_not_eq in Hlt.
    + apply best_index_keep with a; [done| |done]. apply lookup_lt_Some in Hi. split; [|lia].
      apply Qcnot_lt_le. intros Hlt. apply not_true_iff_false in Hg. apply Hg. by apply greater_same.
Qed.

Record sizing_ok (asset : AssetID) (state : sizingState) : Prop := {
  so_asset : in_asset asset (ss_candidates state);
  so_overall : best_index (fun _ => True) prefers (ss_candidates state) (ss_bestOverall state);
  so_qualified : best_index qualified prefers (ss_candidates state) (ss_bestQualified state) }.

Lemma add_candidate_ok asset state c :
  sizing_ok asset state -> quantity_asset (cd_NetPnL c) = asset ->
  exists state', add_candidate state c = Ok state' /\ sizing_ok asset state' /\ ss_candidates state' = ss_candidates state ++ [c].
Proof.
  intros [Ha Ho Hq] Hc. unfold add_candidate.
  destruct (beats_best asset _ _ _ c Ha Hc Ho I) as (b & -> & Ho'). cbn [mbind res_bind].
  assert (in_asset asset (ss_candidates state ++ [c])) as Ha' by (apply Forall_app; by split; [|constructor]).
  destruct (greaterOrEqual _ _) eqn:Hg.
  - destruct (beats_best asset qualified _ _ c Ha Hc Hq Hg) as (b' & -> & Hq'). cbn [mbind res_bind]. eexists. split; [done|]. by split.
  - cbn [mbind res_bind]. eexists. split; [done|]. split; [split; cbn; [done..|]|done].
    apply best_index_skip; [|done]. unfold qualified. by rewrite Hg.
Qed.

(** What the outcome of a direction says. *)
Definition well_selected (o : Opportunity) : Prop :=
  (op_SelectedIndex o = -1 /\ op_Candidates o = [] /\ op_Classification o = ClassificationUnclassifiable) \/
  exists i selected, op_SelectedIndex o = Z.of_nat i /\ op_Candidates o !! i = Some selected /\
    op_Threshold o = cd_EffectiveThreshold selected /\ op_Classification o = (classify selected).1 /\ op_Reasons o = [(classify selected).2] /\
    (qualified selected \/ Forall (fun c => ~ qualified c) (op_Candidates o)) /\
    (forall c, c ∈ op_Candidates o -> qualified selected -> qualified c -> (net c <= net selected)%Qc) /\
    (forall c, c ∈ op_Candidates o -> ~ qualified selected -> (net c <= net selected)%Qc).

Lemma best_index_max (P : Candidate -> Prop) l i selected :
  best_index P prefers l (Z.of_nat i) -> l !! i = Some selected -> P selected /\ forall c, c ∈ l -> P c -> (net c <= net selected)%Qc.
Proof.
  intros [[Hneg _]|(i' & a & Heq & Hi & Ha & Hmax)] Hsel; [lia|]. apply Nat2Z.inj in Heq as <-. simplify_eq.
  split; [done|]. intros c [j Hj]%list_elem_of_lookup_1 Hc. by apply (Hmax j c).
Qed.

Lemma conclude_direction_ok {D} finished s (evaluation : Evaluation D) direction snapshots asset state :
  sizing_ok asset state ->
  exists o, conclude_direction finished s evaluation direction snapshots state = Ok o /\ well_selected o /\
    op_Candidates o = ss_candidates state /\ op_Direction o = direction.
Proof.
  intros [_ Ho Hq]. unfold conclude_direction. cbv zeta. destruct (decide (0 <= ss_bestQualified state)) as [Hpos|Hneg].
  - pose proof Hq as [[? _]|(i & a & Heq & Hi & Ha & Hmax)]; [lia|]. rewrite Heq in *. rewrite (decide_False (P := Z.of_nat i < 0)) by lia.
    rewrite Nat2Z.id, Hi. eexists. split; [done|]. split; [|done]. right. exists i, a. do 5 (split; [done|]).
    destruct (best_index_max _ _ _ _ Hq Hi) as [_ Hbest]. split; [by left|]. split; [by intros c Hc _; apply Hbest|done].
  - assert (Forall (fun c => ~ qualified c) (ss_candidates state)) as Hnone by (destruct Hq as [[_ ?]|(i & ? & ? & _)]; [done|lia]).
    destruct (decide (ss_bestOverall state < 0)) as [Hn|Hp].
    + eexists. split; [done|]. split; [|done]. left. split; [done|]. split; [|done]. cbn.
      destruct Ho as [[_ Hall]|(i & ? & ? & _)]; [|lia]. destruct (ss_candidates state) as [|c l]; [done|].
      by apply Forall_cons in Hall as [[] _].
    + pose proof Ho as [[? _]|(i & a & Heq & Hi & Ha & Hmax)]; [lia|]. rewrite Heq in *. rewrite Nat2Z.id, Hi.
      eexists. split; [done|]. split; [|done]. right. exists i, a. do 5 (split; [done|]).
      destruct (best_index_max _ _ _ _ Ho Hi) as [_ Hbest]. split; [by right|]. split; [|by intros c Hc _; apply Hbest].
      intros c Hc _ Hqc. rewrite Forall_forall in Hnone. by destruct (Hnone c Hc).
Qed.

Lemma foldST_inv {S A B} (f : B -> A -> ST S B) (I : B -> Prop) b l st b' st' :
  I b -> (forall b a st b' st', a ∈ l -> I b -> f b a st = (Ok b', st') -> I b') -> foldST f b l st = (Ok b', st') -> I b'.
Proof.
  revert b st. induction l as [|a l IH]; intros b st Hb Hf H; cbn [foldST] in H; [by injection H as <- _|].
  destruct (f b a st) as [[b1|e|why] st1] eqn:Ha; [|done..].
  apply (IH b1 st1); [by apply (Hf b a st b1 st1); [left| |]| |done]. intros b2 a2 s2 b3 s3 Hin. apply Hf. by right.
Qed.

Section selects.
Context {D S : Type} {quoting : Quoting D S} {Hanswers : Answers quoting} (error_text : error -> string) (finished : Direction -> Time).
Context (s : TwoMarket) (evaluation : Evaluation D).
Hypothesis Hgrid : Forall (fun v => quantity_asset v <> "") (Grid_Values (tm_grid s)).

(** A direction that can be quoted: both markets are known and have a healthy
    snapshot in the evaluation, and the tokens are theirs. *)
Record tradable (direction : Direction) (buySnapshot sellSnapshot : MarketSnapshot D) (t : directionTokens) : Prop := {
  tr_buy : Evaluation_Snapshot evaluation (BuyMarket direction) = Some buySnapshot;
  tr_sell : Evaluation_Snapshot evaluation (SellMarket direction) = Some sellSnapshot;
  tr_healthy : md_Health (snap_metadata buySnapshot) = HealthHealthy /\ md_Health (snap_metadata sellSnapshot) = HealthHealthy;
  tr_tokens : exists buyMarket sellMarket,
    reg_markets (tm_registry s) !! BuyMarket direction = Some buyMarket /\ reg_markets (tm_registry s) !! SellMarket direction = Some sellMarket /\
    dt_buyBase t = default Token_zero (reg_tokens (tm_registry s) !! Market_BaseToken buyMarket) /\
    dt_buyQuote t = default Token_zero (reg_tokens (tm_registry s) !! Market_QuoteToken buyMarket) /\
    dt_sellBase t = default Token_zero (reg_tokens (tm_registry s) !! Market_BaseToken sellMarket) /\
    dt_sellQuote t = default Token_zero (reg_tokens (tm_registry s) !! Market_QuoteToken sellMarket) }.

(** What became of a size of the grid: a candidate valued at it, with its
    thresholds, or none because it could not be quoted or given thresholds. *)
Definition tried (direction : Direction) (buySnapshot sellSnapshot : MarketSnapshot D) (t : directionTokens) (size : AssetQuantity)
    (outcome : option Candidate) : Prop :=
  match outcome with
  | Some c => candidate_valued (quoting := quoting) s evaluation direction buySnapshot sellSnapshot t size c /\
      candidateThreshold s (cd_Input c) (dt_buyQuote t) = Ok (cd_FixedThreshold c, cd_PercentageThreshold c, cd_EffectiveThreshold c)
  | None => exists (st st' : S),
      (exists e, candidate s evaluation direction buySnapshot sellSnapshot t size st = (Err e, st')) \/
      (exists c e, candidate s evaluation direction buySnapshot sellSnapshot t size st = (Ok c, st') /\
         candidateThreshold s (cd_Input c) (dt_buyQuote t) = Err e)
  end.

Definition result_asset (t : directionTokens) : AssetID :=
  if decide (one_economy evaluation t) then quantity_asset (cost_Amount (ev_cost evaluation)) else "".

(** The sizes tried so far and what became of them. *)
Definition sizes_ok (direction : Direction) (buySnapshot sellSnapshot : MarketSnapshot D) (t : directionTokens)
    (sizes : list AssetQuantity) (state : sizingState) : Prop :=
  sizing_ok (result_asset t) state /\
  exists outcomes, Forall2 (tried direction buySnapshot sellSnapshot t) sizes outcomes /\ ss_candidates state = omap id outcomes.

Lemma try_size_ok direction buySnapshot sellSnapshot t sizes state size (st : S) state' st' :
  quantity_asset size <> "" -> sizes_ok direction buySnapshot sellSnapshot t sizes state ->
  try_size error_text s evaluation direction buySnapshot sellSnapshot t state size st = (Ok state', st') ->
  sizes_ok direction buySnapshot sellSnapshot t (sizes ++ [size]) state'.
Proof using Hanswers.
  intros Hsize [Hok (outcomes & Hall & Hcs)] H. unfold try_size in H. apply st_bind_Ok in H as (outcome & s1 & Hc & H).
  apply try_Ok in Hc as [Hc _].
  assert (forall reason, tried direction buySnapshot sellSnapshot t size None ->
    sizes_ok direction buySnapshot sellSnapshot t (sizes ++ [size]) (add_reason state reason)) as Hnone.
  { intros reason Hn. split; [destruct Hok; by split|]. exists (outcomes ++ [None]). split; [apply Forall2_app; [done|by constructor]|].
    cbn. by rewrite omap_app, Hcs, app_nil_r. }
  destruct outcome as [c|e|why]; [|injection H as <- _; apply Hnone; exists st, s1; left; by exists e|done].
  destruct (candidateThreshold s (cd_Input c) (dt_buyQuote t)) as [[[fixed percentage] effective]|e|why] eqn:Ht;
    [|injection H as <- _; apply Hnone; exists st, s1; right; by exists c, e|done].
  apply candidate_is_valued in Hc; [|done]. set (c' := with_thresholds c fixed percentage effective) in *.
  assert (candidate_valued (quoting := quoting) s evaluation direction buySnapshot sellSnapshot t size c') as Hc' by (destruct Hc; by split).
  destruct (add_candidate_ok (result_asset t) state c' Hok) as (state1 & Hadd & Hok1 & Hcs1).
  { unfold result_asset. pose proof (cv_profit _ _ _ _ _ _ _ _ Hc') as Hp. destruct (decide _); [apply Hp|by rewrite Hp]. }
  rewrite Hadd in H. injection H as <- _. split; [done|]. exists (outcomes ++ [Some c']).
  split; [apply Forall2_app; [done|by constructor]|]. by rewrite Hcs1, Hcs, omap_app.
Qed.

Lemma try_sizes_ok direction buySnapshot sellSnapshot t tried_sizes sizes state (st : S) state' st' :
  Forall (fun v => quantity_asset v <> "") sizes -> sizes_ok direction buySnapshot sellSnapshot t tried_sizes state ->
  foldST (try_size error_text s evaluation direction buySnapshot sellSnapshot t) state sizes st = (Ok state', st') ->
  sizes_ok direction buySnapshot sellSnapshot t (tried_sizes ++ sizes) state'.
Proof using Hanswers.
  revert tried_sizes state st. induction sizes as [|size sizes IH]; intros done_sizes state st Hne Hok H; cbn [foldST] in H.
  { injection H as <- _. by rewrite app_nil_r. }
  apply Forall_cons in Hne as [Hsize Hne].
  destruct (try_size error_text s evaluation direction buySnapshot sellSnapshot t state size st) as [[state1|e|why] st1] eqn:Hs; [|done..].
  apply (IH (done_sizes ++ [size])) in H; [by rewrite <- app_assoc in H|done|]. by eapply try_size_ok.
Qed.

(** What an opportunity says of its direction: without tradable markets there are
    no candidates; with them, every size of the grid was tried, in order, and the
    candidates are those that could be valued. *)
Definition opportunity_ok (o : Opportunity) : Prop :=
  well_selected o /\
  ((op_Candidates o = [] /\ forall buySnapshot sellSnapshot t, ~ tradable (op_Direction o) buySnapshot sellSnapshot t) \/
   exists buySnapshot sellSnapshot t outcomes, tradable (op_Direction o) buySnapshot sellSnapshot t /\
     Forall2 (tried (op_Direction o) buySnapshot sellSnapshot t) (Grid_Values (tm_grid s)) outcomes /\ op_Candidates o = omap id outcomes).

Lemma direction_inputs_tradable direction :
  match direction_inputs finished s evaluation direction with
  | inl o => exists snapshots reasons, o = unclassifiable finished s evaluation direction snapshots [] reasons /\
      forall buySnapshot sellSnapshot t, ~ tradable direction buySnapshot sellSnapshot t
  | inr (buySnapshot, sellSnapshot, t) => tradable direction buySnapshot sellSnapshot t
  end.
Proof using.
  unfold direction_inputs.
  destruct (Evaluation_Snapshot evaluation (BuyMarket direction)) as [b|] eqn:Hb; [|eexists _, _; split; [done|by intros ??? []; congruence]].
  destruct (Evaluation_Snapshot evaluation (SellMarket direction)) as [l|] eqn:Hl; [|eexists _, _; split; [done|by intros ??? []; congruence]].
  cbv zeta. destruct (decide _) as [Hd|Hd].
  { eexists _, _; split; [done|]. intros b' l' t' [H1 H2 [H3 H4] _]. simplify_eq. by destruct Hd. }
  destruct (reg_markets (tm_registry s) !! BuyMarket direction) as [bm|] eqn:Hbm;
    [|eexists _, _; split; [done|intros ??? [_ _ _ (? & ? & ? & _)]; congruence]].
  destruct (reg_markets (tm_registry s) !! SellMarket direction) as [sm|] eqn:Hsm;
    [|eexists _, _; split; [done|intros ??? [_ _ _ (? & ? & _ & ? & _)]; congruence]].
  apply Decidable.not_or in Hd as [Hd1%dec_stable Hd2%dec_stable]. split; [done..|]. by exists bm, sm.
Qed.

Lemma evaluateDirection_ok direction (st : S) o st' :
  evaluateDirection error_text finished s evaluation direction st = (Ok o, st') -> op_Direction o = direction /\ opportunity_ok o.
Proof using Hanswers Hgrid.
  unfold evaluateDirection. intros H. pose proof (direction_inputs_tradable direction) as Hin.
  destruct (direction_inputs finished s evaluation direction) as [o'|[[buySnapshot sellSnapshot] t]].
  - injection H as -> _. destruct Hin as (snapshots & reasons & -> & Hno). split; [done|]. split; [by left|]. by left.
  - apply st_bind_Ok in H as (state & s1 & Hfold & H).
    apply (try_sizes_ok _ _ _ _ []) in Hfold as [Hok (outcomes & Hall & Hcs)]; [|done|].
    + destruct (conclude_direction_ok finished s evaluation direction [snap_metadata buySnapshot; snap_metadata sellSnapshot] _ _ Hok)
        as (o' & Hc & Hw & Hcs' & Hd). rewrite Hc in H. injection H as <- _. split; [done|]. split; [done|]. right. rewrite Hd, Hcs'.
      by exists buySnapshot, sellSnapshot, t, outcomes.
    + split; [split; [constructor|apply best_index_nil..]|]. exists []. split; [constructor|done].
Qed.

Lemma evaluate_directions_ok directions opportunities (st : S) opportunities' st' :
  Forall opportunity_ok opportunities ->
  foldST (evaluate_next error_text finished s evaluation) opportunities directions st = (Ok opportunities', st') ->
  op_Direction <$> opportunities' = (op_Direction <$> opportunities) ++ directions /\ Forall opportunity_ok opportunities'.
Proof using Hanswers Hgrid.
  revert opportunities st. induction directions as [|d directions IH]; intros acc st Hall H; cbn [foldST] in H.
  { injection H as <- _. by rewrite app_nil_r. }
  destruct (evaluate_next error_text finished s evaluation acc d st) as [[acc1|e|why] st1] eqn:Hstep; [|done..].
  apply st_bind_Ok in Hstep as (o & s1 & Ho & [= <- <-]). apply evaluateDirection_ok in Ho as [Hd Hok].
  apply IH in H as [-> H]; [|apply Forall_app; split; [done|by constructor]]. split; [|done].
  by rewrite fmap_app, <- app_assoc, <- Hd.
Qed.
End selects.

(** C19.Every opportunity of an evaluation is about one direction of the setup, or
    about the single direction the probe selected.  When both markets of its
    direction are known and healthy, every size of the grid was tried in order, and
    its candidates are the sizes that could be quoted.  A candidate is valued at the
    quotes of its direction's two markets in those markets' own tokens: the size
    rounded down to a unit is what the buying market is paid (or, sized in the base
    asset, asked for), the base bought (or the size asked for) rounded down to a unit
    is what the selling market is paid, the input and the output are worth what was
    quoted, and the result is output less input less cost.  The selected candidate is
    one that reaches its threshold if any does, and has the greatest result among its
    like; the classification and the reason are its own; without a candidate the
    opportunity is unclassifiable. *)
Theorem TwoMarket_Evaluate_selects {D S : Type} {quoting : Quoting D S} {Hanswers : Answers quoting} (error_text : error -> string)
    (ctx_Err : option error) (finished : Direction -> Time) (s : TwoMarket) (evaluation : Evaluation D) (st : S) opportunities st' :
  Forall (fun v => quantity_asset v <> "") (Grid_Values (tm_grid s)) ->
  TwoMarket_Evaluate error_text ctx_Err finished s evaluation st = (Ok opportunities, st') ->
  (op_Direction <$> opportunities = setup_directions (tm_setup s) \/
   (0 < tm_discoverySamples s /\ exists d, op_Direction <$> opportunities = [d])) /\
  Forall (opportunity_ok (quoting := quoting) s evaluation) opportunities.
Proof.
  intros Hgrid H. unfold TwoMarket_Evaluate in H. do 2 (destruct (decide _) in H; [done|]).
  apply st_bind_Ok in H as (directions & s1 & Hd & H). apply st_bind_Ok in H as ([] & s2 & _ & H).
  apply st_bind_Ok in H as (os & s3 & Hos & H). apply st_bind_Ok in H as ([] & s4 & _ & H). injection H as <- _.
  apply (evaluate_directions_ok error_text finished s evaluation Hgrid) in Hos as [Hmap Hall]; [|constructor]. cbn in Hmap.
  split; [|done]. rewrite Hmap. destruct (decide (0 < tm_discoverySamples s)) as [Hpos|].
  - apply st_bind_Ok in Hd as ([selected decision] & s5 & _ & Hd). injection Hd as <- _. destruct selected as [d|]; [|by left].
    right. split; [done|]. by exists d.
  - left. by injection Hd as <- _.
Qed.

(** ** The cache does not change a result *)

Lemma Mimics_bind_lift {S A B} (I : S -> Prop) (r : res A) (f : A -> ST S B) f' :
  (forall a, r = Ok a -> Mimics I (f a) (f' a)) -> Mimics I (lift r ≫= f) (lift r ≫= f').
Proof.
  intros Hf s Hs. unfold lift, mbind, st_bind. destruct r as [a|e|why]; [|done..]. by apply Hf.
Qed.

Section transparent.
Context {D : Type} (error_text : error -> string) (ctx_Err : option error) (finished : Direction -> Time).
Context (sources : gmap MarketID (MarketSource D)) (refresh : bool) (s : TwoMarket).
Hypothesis Hsources : forall marketID source, sources !! marketID = Some source ->
  ms_CacheQuotes source = Some false \/ StateDetermined source.
(** Tokens are filed under their identifiers, as [NewRegistry] files them. *)
Definition tokens_keyed : Prop := map_Forall (fun id token => Token_ID token = id /\ id <> "") (reg_tokens (tm_registry s)).
Hypothesis Hregistry : tokens_keyed.

Definition search_start (id : TokenID) : TokenAmount := initialHigh (token_or_zero (tm_registry s) id).
Abbreviation sound := (cache_sound sources search_start).
Abbreviation on_cache := (cached ctx_Err sources refresh).
Abbreviation on_sources := (direct ctx_Err sources refresh).

(** The fixed snapshots and the start of an evaluation are set. *)
Definition evaluation_current (evaluation : Evaluation D) : Prop :=
  Forall (fun snapshot => md_Version (snap_metadata snapshot) <> 0) (ev_snapshots evaluation) /\ ev_startedAt evaluation <> 0.

Lemma token_or_zero_known id : token_or_zero (tm_registry s) (Token_ID (token_or_zero (tm_registry s) id)) = token_or_zero (tm_registry s) id.
Proof using Hregistry.
  unfold token_or_zero. destruct (reg_tokens (tm_registry s) !! id) as [t|] eqn:Hid; cbn.
  - destruct (Hregistry _ _ Hid) as [-> _]. by rewrite Hid.
  - destruct (reg_tokens (tm_registry s) !! "") as [t|] eqn:H0; [|done]. by destruct (Hregistry _ _ H0) as [_ []].
Qed.

Section one_evaluation.
Context (evaluation : Evaluation D) (Hcurrent : evaluation_current evaluation).

Lemma snapshot_current id snapshot :
  Evaluation_Snapshot evaluation id = Some snapshot ->
  md_Market (snap_metadata snapshot) = id /\ current (snap_metadata snapshot) (ev_startedAt evaluation).
Proof using Hcurrent.
  unfold Evaluation_Snapshot. intros H. apply fmap_Some in H as ([i x] & Hfind & ->). apply list_find_Some in Hfind as (Hl & Hm & _).
  destruct Hcurrent as [Hall Ht]. split; [done|]. split; [by apply (Forall_lookup_1 _ _ _ _ Hall Hl)|done].
Qed.

Lemma ToTokenAmount_valid q token a : ToTokenAmount q token = Ok a -> amount_wf a /\ amount_token a = Token_ID token.
Proof using Type. intros H. by apply ToTokenAmount_floor in H as (? & ? & _). Qed.

Lemma input_mimics id snapshot tokenIn tokenOut amount q token purpose :
  Evaluation_Snapshot evaluation id = Some snapshot -> ToTokenAmount q token = Ok amount -> tokenIn = Token_ID token ->
  Mimics sound (try (exactInput (Quoting := on_cache) id (mkQuoteInput snapshot tokenIn tokenOut amount purpose (ev_startedAt evaluation))))
               (try (exactInput (Quoting := on_sources) id (mkQuoteInput snapshot tokenIn tokenOut amount purpose (ev_startedAt evaluation)))).
Proof using Hcurrent Hsources.
  intros Hs Ha ->. apply Mimics_try, cached_input_mimics; [done|]. destruct (snapshot_current _ _ Hs) as [Hm Hc].
  destruct (ToTokenAmount_valid _ _ _ Ha) as [Hwf Ht]. done.
Qed.

Section one_direction.
Context (direction : Direction) (buySnapshot sellSnapshot : MarketSnapshot D) (buyMarket sellMarket : Market).
Context (Hbuy : Evaluation_Snapshot evaluation (BuyMarket direction) = Some buySnapshot).
Context (Hsell : Evaluation_Snapshot evaluation (SellMarket direction) = Some sellSnapshot).
Let t := direction_tokens s buyMarket sellMarket.

Lemma quoteSizedCandidate_mimics size :
  Mimics sound (quoteSizedCandidate (quoting := on_cache) evaluation direction buySnapshot sellSnapshot t size)
               (quoteSizedCandidate (quoting := on_sources) evaluation direction buySnapshot sellSnapshot t size).
Proof using Hcurrent Hsources Hbuy Hsell.
  unfold quoteSizedCandidate. apply Mimics_bind_lift. intros buyInput Hin. apply checked_Ok in Hin as [Hin _].
  apply Mimics_bind; [by eapply input_mimics|]. intros bought. apply Mimics_bind; [apply Mimics_lift|]. intros buy.
  apply Mimics_bind; [apply Mimics_lift|]. intros base. apply Mimics_bind_lift. intros sellInput Hsi. apply checked_Ok in Hsi as [Hsi _].
  apply Mimics_bind; [by eapply input_mimics|]. intros sold. apply Mimics_bind; [apply Mimics_lift|]. intros sell.
  apply Mimics_bind; [apply Mimics_lift|]. intros output. apply Mimics_ret.
Qed.

Lemma baseSizedCandidate_mimics size :
  Mimics sound (baseSizedCandidate (quoting := on_cache) evaluation direction buySnapshot sellSnapshot t size)
               (baseSizedCandidate (quoting := on_sources) evaluation direction buySnapshot sellSnapshot t size).
Proof using Hcurrent Hsources Hregistry Hbuy Hsell.
  unfold baseSizedCandidate. apply Mimics_bind_lift. intros target Ht. apply checked_Ok in Ht as [Ht _].
  apply Mimics_bind.
  { apply Mimics_try, cached_output_mimics; [done|]. destruct (snapshot_current _ _ Hbuy) as [Hm Hc].
    destruct (ToTokenAmount_valid _ _ _ Ht) as [Hwf Htok]. do 4 (split; [done|]). unfold search_start. cbn. by rewrite token_or_zero_known. }
  intros bought. apply Mimics_bind; [apply Mimics_lift|]. intros buy. apply Mimics_bind; [apply Mimics_lift|]. intros input.
  apply Mimics_bind_lift. intros sellInput Hsi. apply checked_Ok in Hsi as [Hsi _].
  apply Mimics_bind; [by eapply input_mimics|]. intros sold. apply Mimics_bind; [apply Mimics_lift|]. intros sell.
  apply Mimics_bind; [apply Mimics_lift|]. intros output. apply Mimics_ret.
Qed.

Lemma try_size_mimics state size :
  Mimics sound (try_size (quoting := on_cache) error_text s evaluation direction buySnapshot sellSnapshot t state size)
               (try_size (quoting := on_sources) error_text s evaluation direction buySnapshot sellSnapshot t state size).
Proof using Hcurrent Hsources Hregistry Hbuy Hsell.
  unfold try_size. apply Mimics_bind.
  { apply Mimics_try. unfold candidate. destruct (decide _); [apply quoteSizedCandidate_mimics|apply baseSizedCandidate_mimics]. }
  intros outcome. mimics.
Qed.
End one_direction.

Lemma evaluateDirection_mimics direction :
  Mimics sound (evaluateDirection (quoting := on_cache) error_text finished s evaluation direction)
               (evaluateDirection (quoting := on_sources) error_text finished s evaluation direction).
Proof using Hcurrent Hsources Hregistry.
  unfold evaluateDirection, direction_inputs.
  destruct (Evaluation_Snapshot evaluation (BuyMarket direction)) as [b|] eqn:Hb; [|apply Mimics_ret].
  destruct (Evaluation_Snapshot evaluation (SellMarket direction)) as [l|] eqn:Hl; [|apply Mimics_ret].
  cbv zeta. destruct (decide _); [apply Mimics_ret|].
  destruct (reg_markets (tm_registry s) !! BuyMarket direction) as [bm|]; [|apply Mimics_ret].
  destruct (reg_markets (tm_registry s) !! SellMarket direction) as [sm|]; [|apply Mimics_ret].
  apply Mimics_bind; [|intros; apply Mimics_lift]. apply Mimics_foldST. intros. by apply try_size_mimics.
Qed.

Lemma probe_mimics id snapshot tokenIn tokenOut size :
  Evaluation_Snapshot evaluation id = Some snapshot ->
  Mimics sound (probe (quoting := on_cache) ctx_Err evaluation id snapshot tokenIn tokenOut size)
               (probe (quoting := on_sources) ctx_Err evaluation id snapshot tokenIn tokenOut size).
Proof using Hcurrent Hsources.
  intros Hs. unfold probe. destruct (ToTokenAmount size tokenIn) as [amount|e|why] eqn:Ha; [|apply Mimics_ret|apply Mimics_lift].
  destruct (decide _); [apply Mimics_ret|]. apply Mimics_bind; [by eapply input_mimics|]. intros outcome. mimics.
Qed.

Lemma discoverDirection_mimics :
  Mimics sound (discoverDirection (quoting := on_cache) ctx_Err s evaluation)
               (discoverDirection (quoting := on_sources) ctx_Err s evaluation).
Proof using Hcurrent Hsources.
  unfold discoverDirection. destruct (probe_sides s evaluation) as [decision|[a b]] eqn:Hsides; [apply Mimics_ret|].
  assert (Evaluation_Snapshot evaluation (ps_Market a) = Some (ps_Snapshot a) /\ Evaluation_Snapshot evaluation (ps_Market b) = Some (ps_Snapshot b))
    as [Ha Hb].
  { unfold probe_sides in Hsides. repeat (case_match; try discriminate Hsides). injection Hsides as <- <-. done. }
  apply Mimics_bind; [|intros; apply Mimics_ret]. apply Mimics_foldST. intros wins index _. unfold sample.
  pose proof probe_mimics as Hprobe.
  destruct ctx_Err as [e|]; [apply Mimics_lift|]. cbv zeta. destruct (decide _); [apply Mimics_lift|].
  destruct (Grid_Values _ !! _) as [size|]; [|apply Mimics_lift].
  apply Mimics_bind; [by apply Hprobe|]. intros oa. apply Mimics_bind; [by apply Hprobe|]. intros ob. apply Mimics_ret.
Qed.

Lemma TwoMarket_Evaluate_mimics :
  Mimics sound (TwoMarket_Evaluate (quoting := on_cache) error_text ctx_Err finished s evaluation)
               (TwoMarket_Evaluate (quoting := on_sources) error_text ctx_Err finished s evaluation).
Proof using Hcurrent Hsources Hregistry.
  unfold TwoMarket_Evaluate. destruct (decide _); [apply Mimics_fail|]. destruct (decide _); [apply Mimics_fail|].
  assert (Mimics sound (check_ctx ctx_Err) (check_ctx ctx_Err)) as Hctx.
  { unfold check_ctx. destruct ctx_Err; [apply Mimics_lift|apply Mimics_ret]. }
  apply Mimics_bind.
  { destruct (decide _); [|apply Mimics_ret]. apply Mimics_bind; [apply discoverDirection_mimics|]. intros [selected decision]. apply Mimics_ret. }
  intros directions. apply Mimics_bind; [exact Hctx|]. intros []. apply Mimics_bind.
  { apply Mimics_foldST. intros opportunities d _. apply Mimics_bind; [apply evaluateDirection_mimics|]. intros. apply Mimics_ret. }
  intros os. apply Mimics_bind; [exact Hctx|]. intros []. apply Mimics_ret.
Qed.

Lemma EvaluatePinned_mimics direction size :
  Mimics sound (EvaluatePinned (quoting := on_cache) error_text finished s evaluation direction size)
               (EvaluatePinned (quoting := on_sources) error_text finished s evaluation direction size).
Proof using Hcurrent Hsources.
  unfold EvaluatePinned, direction_inputs. do 3 (destruct (decide _); [apply Mimics_fail|]).
  destruct (Evaluation_Snapshot evaluation (BuyMarket direction)) as [b|] eqn:Hb; [|apply Mimics_ret].
  destruct (Evaluation_Snapshot evaluation (SellMarket direction)) as [l|] eqn:Hl; [|apply Mimics_ret].
  cbv zeta. destruct (decide _); [apply Mimics_ret|].
  destruct (reg_markets (tm_registry s) !! BuyMarket direction) as [bm|]; [|apply Mimics_ret].
  destruct (reg_markets (tm_registry s) !! SellMarket direction) as [sm|]; [|apply Mimics_ret].
  destruct (decide _); [apply Mimics_fail|]. apply Mimics_bind; [by apply Mimics_try, quoteSizedCandidate_mimics|].
  intros outcome. mimics.
Qed.
End one_evaluation.

(** *** Any sequence of calls *)

Inductive strategy_call := CallEvaluate (evaluation : Evaluation D) | CallPinned (evaluation : Evaluation D) (direction : Direction) (size : AssetQuantity).

Definition call_evaluation (call : strategy_call) : Evaluation D :=
  match call with CallEvaluate evaluation | CallPinned evaluation _ _ => evaluation end.

Definition run_call {S} {quoting : Quoting D S} (call : strategy_call) : ST S (list Opportunity) :=
  match call with
  | CallEvaluate evaluation => TwoMarket_Evaluate error_text ctx_Err finished s evaluation
  | CallPinned evaluation direction size =>
      opportunity ← EvaluatePinned error_text finished s evaluation direction size; mret [opportunity]
  end.

Definition run_next {S} {quoting : Quoting D S} (outcomes : list (res (list Opportunity))) (call : strategy_call) :
    ST S (list (res (list Opportunity))) :=
  outcome ← try (run_call call); mret (outcomes ++ [outcome]).

(** The outcomes of calls made one after the other on one cache. *)
Definition run_calls {S} {quoting : Quoting D S} (calls : list strategy_call) (st : S) : res (list (res (list Opportunity))) :=
  (foldST run_next [] calls st).1.

(** C20.The quote cache is invisible: over sources whose quotes depend on the state
    of their market alone, a strategy that runs any sequence of evaluations, pinned
    ones included, on its cache gets from every one of them what it would get by
    asking its sources each time, errors included. *)
Theorem TwoMarket_cache_transparent (calls : list strategy_call) :
  Forall (fun call => evaluation_current (call_evaluation call)) calls ->
  run_calls (quoting := on_cache) calls newQuoteCache = run_calls (quoting := on_sources) calls tt.
Proof using Hsources Hregistry.
  intros Hcalls.
  assert (Mimics sound (foldST (run_next (quoting := on_cache)) [] calls) (foldST (run_next (quoting := on_sources)) [] calls)) as H.
  { apply Mimics_foldST. intros outcomes call Hcall. rewrite Forall_forall in Hcalls. specialize (Hcalls _ Hcall).
    apply Mimics_bind; [apply Mimics_try|intros; apply Mimics_ret].
    destruct call as [evaluation|evaluation direction size]; [by apply TwoMarket_Evaluate_mimics|].
    apply Mimics_bind; [by apply EvaluatePinned_mimics|intros; apply Mimics_ret]. }
  specialize (H newQuoteCache (newQuoteCache_sound _ _)). unfold run_calls.
  destruct (foldST (run_next (quoting := on_cache)) [] calls newQuoteCache) as [r c]. by destruct H as [_ ->].
Qed.
End transparent.

(** ** The probe needs a strict majority *)

Section majority.
Context {D S : Type} {quoting : Quoting D S} (ctx_Err : option error) (s : TwoMarket) (evaluation : Evaluation D).

Definition count (l : list (option bool)) (b : bool) : Z := Z.of_nat (length (filter (fun o => o = Some b) l)).

(** One sample: both markets were asked for the base they sell for its size. *)
Definition sampled (a b : probeSide) (index : nat) (outcome : option bool) : Prop :=
  exists size (st : S) oa st1 ob st2,
    Grid_Values (tm_grid s) !! Z.to_nat (Z.quot (Z.of_nat index * (Z.of_nat (length (Grid_Values (tm_grid s))) - 1)) (tm_discoverySamples s - 1)) = Some size /\
    probe ctx_Err evaluation (ps_Market a) (ps_Snapshot a) (ps_Quote a) (ps_Base a) size st = (Ok oa, st1) /\
    probe ctx_Err evaluation (ps_Market b) (ps_Snapshot b) (ps_Quote b) (ps_Base b) size st1 = (Ok ob, st2) /\
    outcome = comparable oa ob.

(** The tally of the samples so far. *)
Definition tallied (a b : probeSide) (indices : list nat) (wins : tally) : Prop :=
  exists outcomes, Forall2 (sampled a b) indices outcomes /\
    ta_winsA wins = count outcomes true /\ ta_winsB wins = count outcomes false /\
    ta_valid wins = ta_winsA wins + ta_winsB wins.

Lemma count_snoc l o b : count (l ++ [o]) b = count l b + (if decide (o = Some b) then 1 else 0).
Proof using. unfold count. rewrite filter_app, length_app, filter_cons, filter_nil. destruct (decide _); cbn; lia. Qed.

Lemma sample_tallied a b indices wins index (st : S) wins' st' :
  tallied a b indices wins -> sample ctx_Err s evaluation a b wins index st = (Ok wins', st') -> tallied a b (indices ++ [index]) wins'.
Proof using.
  intros (outcomes & Hall & HA & HB & Hv) H. unfold sample in H. destruct ctx_Err as [e|] eqn:Hctx; [done|]. cbv zeta in H.
  destruct (decide _) in H; [done|]. destruct (Grid_Values (tm_grid s) !! _) as [size|] eqn:Hsize; [|done].
  apply st_bind_Ok in H as (oa & s1 & Ha & H). apply st_bind_Ok in H as (ob & s2 & Hb & H). injection H as <- _.
  exists (outcomes ++ [comparable oa ob]). split.
  { apply Forall2_app; [done|]. constructor; [|constructor]. exists size, st, oa, s1, ob, s2. by rewrite Hctx. }
  rewrite !count_snoc. destruct (comparable oa ob) as [[|]|]; cbn; repeat (destruct (decide _); try done); lia.
Qed.

Lemma count_bound l : count l true + count l false <= Z.of_nat (length l) /\
  (count l true + count l false = Z.of_nat (length l) -> Forall is_Some l).
Proof using.
  induction l as [|o l [IH1 IH2]]; [split; [done|by constructor]|]. unfold count in *. rewrite !filter_cons. destruct o as [[|]|]; cbn.
  - rewrite decide_True, decide_False by done. cbn. split; [lia|]. intros H. constructor; [by eexists|]. apply IH2. lia.
  - rewrite decide_False, decide_True by done. cbn. split; [lia|]. intros H. constructor; [by eexists|]. apply IH2. lia.
  - rewrite !decide_False by done. split; [lia|]. intros H. lia.
Qed.

(** The probe restricts an evaluation to one direction only when every sample
    could be compared and that direction's market sold strictly more base than the
    other in more than half of them. *)
Theorem discoverDirection_majority (st : S) d why st' :
  discoverDirection ctx_Err s evaluation st = (Ok (Some d, why), st') ->
  exists a b outcomes, probe_sides s evaluation = inr (a, b) /\
    Forall2 (sampled a b) (seq 0 (Z.to_nat (tm_discoverySamples s))) outcomes /\ Forall is_Some outcomes /\
    ((d = mkDirection (ps_Market a) (ps_Market b) /\ Z.of_nat (length outcomes) < 2 * count outcomes true) \/
     (d = mkDirection (ps_Market b) (ps_Market a) /\ Z.of_nat (length outcomes) < 2 * count outcomes false)).
Proof using.
  unfold discoverDirection. destruct (probe_sides s evaluation) as [decision|[a b]]; [done|]. intros H.
  apply st_bind_Ok in H as (wins & s1 & Hfold & H). injection H as Hd _.
  assert (tallied a b (seq 0 (Z.to_nat (tm_discoverySamples s))) wins) as (outcomes & Hall & HA & HB & Hv).
  { revert Hfold. generalize (seq 0 (Z.to_nat (tm_discoverySamples s))). intros l.
    enough (forall pre w0 st0, tallied a b pre w0 -> foldST (sample ctx_Err s evaluation a b) w0 l st0 = (Ok wins, s1) -> tallied a b (pre ++ l) wins)
      as Hgen by (intros Hf; apply (Hgen [] _ _) in Hf; [done|]; exists []; by split; [constructor|]).
    induction l as [|i l IH]; intros pre w0 st0 H0 Hf; cbn [foldST] in Hf; [injection Hf as <- _; by rewrite app_nil_r|].
    destruct (sample ctx_Err s evaluation a b w0 i st0) as [[w1|e|w] st1] eqn:Hs; [|done..].
    apply (IH (pre ++ [i])) in Hf; [by rewrite <- app_assoc in Hf|]. by eapply sample_tallied. }
  exists a, b, outcomes. split; [done|]. split; [done|]. pose proof (Forall2_length _ _ _ Hall) as Hlen. rewrite length_seq in Hlen.
  destruct (count_bound outcomes) as [Hle Hsome]. unfold decide_direction in Hd.
  assert (0 <= count outcomes true /\ 0 <= count outcomes false) as [Ht Hf] by (unfold count; lia).
  destruct (decide (_ /\ _)) as [[H1 H2]|_] in Hd; [|destruct (decide (_ /\ _)) as [[H1 H2]|_] in Hd; [|done]]; injection Hd as <- _;
    (split; [apply Hsome; lia|]); [left|right]; (split; [done|]);
    pose proof (Z.quot_rem' (ta_valid wins) 2) as Hqr; pose proof (Z.rem_bound_pos (ta_valid wins) 2 ltac:(lia) ltac:(lia)); lia.
Qed.
End majority.

(** ** Thresholds *)

(** With a percentage the threshold of a candidate is the greater of the fixed one
    and the percentage of its input, rounded up to a unit of the quote token. *)
Theorem candidateThreshold_rounds_up (s : TwoMarket) input quote fixed percentage effective :
  0 < tm_thresholdBPS s -> quantity_asset (tm_thresholdFixed s) = quantity_asset input ->
  candidateThreshold s input quote = Ok (fixed, percentage, effective) ->
  exists units spent, ToTokenAmount input quote = Ok spent /\ percentage = mkAssetQuantity (Token_Asset quote)
      (Some (worth (mkTokenAmount (Token_ID quote) (Some units)) quote)) /\
    10000 * (units - 1) < Units spent * tm_thresholdBPS s <= 10000 * units /\
    fixed = tm_thresholdFixed s /\ (Rat fixed <= Rat effective)%Qc /\ (Rat percentage <= Rat effective)%Qc /\
    (effective = fixed \/ effective = percentage).
Proof.
  intros Hbps Hasset H. unfold candidateThreshold in H. apply bind_Ok in H as (zero & _ & H). rewrite decide_False in H by lia.
  apply bind_Ok in H as (spent & Hs & H). apply bind_Ok in H as (token & Ht & H). apply bind_Ok in H as (pct & Hp & H).
  injection H as <- <- <-. pose proof (ToTokenAmount_is_floor _ _ _ Hs) as [Hspent _].
  apply NewTokenAmount_inv in Ht as (Hwf & Htok & Hu). apply ToAssetQuantity_inv in Hp as (_ & _ & ->).
  exists (percentage_units (Units spent) (tm_thresholdBPS s)), spent. split; [done|].
  assert (mkTokenAmount (Token_ID quote) (Some (percentage_units (Units spent) (tm_thresholdBPS s))) = token) as ->.
  { destruct token as [tok u]. cbn in Htok, Hu. by subst. }
  split; [done|]. split.
  { unfold percentage_units. set (n := Units spent * tm_thresholdBPS s). assert (0 <= n) by (unfold n; nia).
    rewrite Z.quot_div_nonneg by lia. pose proof (Z.div_mod n 10000 ltac:(lia)). pose proof (Z.mod_pos_bound n 10000 ltac:(lia)).
    destruct (decide _); lia. }
  split; [done|]. assert (quantity_asset (mkAssetQuantity (Token_Asset quote) (Some (worth token quote))) = quantity_asset (tm_thresholdFixed s)) as Hsame.
  { cbn. rewrite Hasset. unfold ToTokenAmount in Hs. destruct (decide (_ <> _)) as [|He] in Hs; [done|]. by apply dec_stable in He. }
  destruct (greater _ _) eqn:Hg.
  - apply greater_same in Hg; [|done]. split; [by apply Qclt_le_weak|]. split; [apply Qcle_refl|by right].
  - split; [apply Qcle_refl|]. split; [|by left]. apply Qcnot_lt_le. intros Hlt. apply (greater_same _ _ Hsame) in Hlt. congruence.
Qed.

(** ** Witnesses *)

Module TwoMarketWitness.
Definition usdc : Token := mkToken "usdc" "USD" "base" 6 "USDC".
Definition weth : Token := mkToken "weth" "ETH" "base" 6 "WETH".
Definition pool (id : MarketID) : Market := mkMarket id "ETH/USD" "base" "path" "weth" "usdc".
Definition registry : Registry :=
  set_markets (set_tokens Registry_empty (<["usdc" := usdc]> {[ "weth" := weth ]})) (<["m1" := pool "m1"]> {[ "m2" := pool "m2" ]}).
Definition usd (n : Z) : AssetQuantity := mkAssetQuantity "USD" (Some (SetInt n)).
Definition setup : ArbitrageSetup := mkArbitrageSetup "setup" "ETH/USD" ["m1"; "m2"] (directions_of ["m1"; "m2"]).
(** Three sizes, a probe of all three, and a threshold of one per mille of the input, one dollar at least. *)
Definition strategy : TwoMarket :=
  mkTwoMarket "two" setup registry (mkGrid [usd 2000; usd 4000; usd 6000]) (usd 0) (usd 1) 10 "USD" 3.

(** A pool with a fixed price: [num / den] units of its base token per dollar unit. *)
Definition fixed_out (num den : Z) (i : QuoteInput bool) : Z :=
  if decide (in_TokenIn i = "usdc") then Z.quot (Units (in_AmountIn i) * num) den else Z.quot (Units (in_AmountIn i) * den) num.
Definition fixed_raw (id : SourceID) (num den : Z) (i : QuoteInput bool) : res (Quote * list QuoteFee) :=
  if decide (fixed_out num den i <= 0) then Err (Errorf "rounds to zero") else
  Ok (mkQuote id (md_Market (snap_metadata (in_Snapshot i))) 0 "" (mkSourcePosition "" 0) "" (in_Purpose i) QuoteModeExactInput ""
        (in_AmountIn i) (mkTokenAmount (in_TokenOut i) (Some (fixed_out num den i))) 0 [], []).
Definition fixed_quote (id : SourceID) (num den : Z) (i : QuoteInput bool) : res Quote :=
  '(q, fees) ← fixed_raw id num den i; NewQuote (bound q (snap_metadata (in_Snapshot i)) (in_QuotedAt i)) fees.
Definition refuses (_ : ExactOutputInput bool) : res Quote := Err (Errorf "no exact output").
Definition fixed_source (id : SourceID) (num den : Z) : MarketSource bool :=
  mkMarketSource id (fixed_quote id num den) None None (Some refuses).
(** Ether costs 2000 on the first market and 2040 on the second. *)
Definition sources : gmap MarketID (MarketSource bool) := <["m1" := fixed_source "s1" 1 2000]> {[ "m2" := fixed_source "s2" 1 2040 ]}.

Lemma sources_fixed marketID source : sources !! marketID = Some source -> exists id num den, source = fixed_source id num den.
Proof.
  unfold sources. intros [[_ <-]|[_ [_ <-]%lookup_singleton_Some]]%lookup_insert_Some; by eexists _, _, _.
Qed.

Lemma fixed_determined id num den : StateDetermined (fixed_source id num den).
Proof.
  destruct (local_source_determined (mkMarketSource id (fixed_quote id num den) None None None) (fixed_raw id num den)
    (fun i => eq_refl)) as [H1 H2 _ _]; [|done|].
  - intros i snapshot t [Hm _]. unfold fixed_raw, fixed_out. cbn. by rewrite Hm.
  - split; [exact H1|exact H2|by intros native [= <-] i q|by intros native [= <-] i snapshot t].
Qed.

Lemma sources_determined marketID source : sources !! marketID = Some source -> ms_CacheQuotes source = Some false \/ StateDetermined source.
Proof. intros (id & num & den & ->)%sources_fixed. right. apply fixed_determined. Qed.

Lemma fixed_answers id num den i q : fixed_quote id num den i = Ok q -> answers_request i q.
Proof.
  unfold fixed_quote, fixed_raw. destruct (decide _) as [|Hpos]; [done|]. cbn [mbind res_bind].
  intros H%NewQuote_inv. destruct H as [_ (quality & -> & _)]. unfold answers_request. cbn. split_and!; try done. lia.
Qed.

#[local] Instance direct_answers : Answers (direct None sources false).
Proof.
  split.
  - intros marketID i [] q []. cbn. unfold direct_input. destruct (sources !! marketID) as [source|] eqn:Hs; [|done].
    apply sources_fixed in Hs as (id & num & den & ->). intros [= H]. by eapply fixed_answers.
  - intros marketID r [] q []. cbn. unfold direct_output. destruct (sources !! marketID) as [source|] eqn:Hs; [|done].
    apply sources_fixed in Hs as (id & num & den & ->). intros [= H]. unfold MinimumInputForOutput in H. by destruct (decide _) in H.
Qed.

Definition snapshot (id : MarketID) (version : Z) : MarketSnapshot bool :=
  mkMarketSnapshot (mkSnapshotMetadata id "rpc" version (mkSourcePosition "" 0) (mkSourceReference "" "") "" 0 false 1 1
    HealthHealthy "" 1 "state") (Some true).
Definition cost : CostSnapshot := mkCostSnapshot "cost" (usd 3) 1.
Definition evaluation (version : Z) : Evaluation bool :=
  mkEvaluation "e" "run" "two" "hash" [snapshot "m1" version; snapshot "m2" version] cost ∅ ∅ None 3 4.
Definition text (_ : error) : string := "error".
Definition outcome : res (list Opportunity) * unit :=
  TwoMarket_Evaluate (quoting := direct None sources false) text None (fun _ => 9) strategy (evaluation 1) tt.

Lemma selects_witness :
  exists o, outcome = (Ok [o], tt) /\ op_SelectedIndex o = 2 /\ op_Classification o = ClassificationPolicyQualified /\
    opportunity_ok (quoting := direct None sources false) strategy (evaluation 1) o.
Proof.
  assert (Forall (fun v => quantity_asset v <> "") (Grid_Values (tm_grid strategy))) as Hgrid by (repeat constructor; discriminate).
  assert (match outcome.1 with Ok [o] => bool_decide (op_SelectedIndex o = 2 /\ op_Classification o = ClassificationPolicyQualified)
          | _ => false end = true) as Hrun by (vm_compute; reflexivity).
  destruct outcome as [[[|o [|o' l]]|e|why] []] eqn:Hout; [discriminate Hrun| |discriminate Hrun..]. cbn in Hrun.
  apply bool_decide_eq_true in Hrun as [Hi Hc]. exists o. split; [reflexivity|]. split; [exact Hi|]. split; [exact Hc|].
  destruct (TwoMarket_Evaluate_selects (quoting := direct None sources false) text None (fun _ => 9) strategy (evaluation 1) tt [o] tt Hgrid Hout)
    as [_ Hall]. apply Forall_cons in Hall as [Hok _]. exact Hok.
Defined.

Definition calls : list (strategy_call (D := bool)) :=
  [CallEvaluate (evaluation 1); CallEvaluate (evaluation 2); CallPinned (evaluation 3) (mkDirection "m2" "m1") (usd 4000)].

Lemma transparent_witness :
  run_calls text None (fun _ => 9) strategy (quoting := cached None sources false) calls newQuoteCache
  = run_calls text None (fun _ => 9) strategy (quoting := direct None sources false) calls tt.
Proof.
  apply (TwoMarket_cache_transparent text None (fun _ => 9) sources false strategy sources_determined).
  - intros id token Hid. cbn in Hid. apply lookup_insert_Some in Hid as [[<- <-]|[_ Hid]]; [split; [reflexivity|discriminate]|].
    apply lookup_singleton_Some in Hid as [<- <-]. split; [reflexivity|discriminate].
  - repeat constructor; discriminate.
Defined.

(** The second evaluation is answered from the cache: it files no new quote. *)
Definition after (version : Z) (c : gmap MarketID cachedMarketQuotes) : gmap MarketID cachedMarketQuotes :=
  (TwoMarket_Evaluate (quoting := cached None sources false) text None (fun _ => 9) strategy (evaluation version) c).2.
Definition filed (c : gmap MarketID cachedMarketQuotes) : list nat :=
  (fun id => match c !! id with Some state => size (cm_quotes state) | None => 0%nat end) <$> ["m1"; "m2"].
Example second_evaluation_cached : filed (after 1 newQuoteCache) = filed (after 2 (after 1 newQuoteCache)).
Proof. vm_compute. reflexivity. Qed.

Lemma majority_witness :
  exists why, (discoverDirection (quoting := direct None sources false) None strategy (evaluation 1) tt).1 = Ok (Some (mkDirection "m1" "m2"), why) /\
    exists a b outcomes, probe_sides strategy (evaluation 1) = inr (a, b) /\
      Forall2 (sampled (quoting := direct None sources false) None strategy (evaluation 1) a b) (seq 0 3) outcomes.
Proof.
  destruct (discoverDirection (quoting := direct None sources false) None strategy (evaluation 1) tt) as [[[d why]|e|w] []] eqn:Hrun;
    [|vm_compute in Hrun; discriminate Hrun..].
  assert (d = Some (mkDirection "m1" "m2")) as -> by (vm_compute in Hrun; congruence). exists why. split; [reflexivity|].
  destruct (discoverDirection_majority (quoting := direct None sources false) None strategy (evaluation 1) tt _ _ tt Hrun)
    as (a & b & outcomes & Hs & Hall & _). exists a, b, outcomes. split; [exact Hs|exact Hall].
Defined.
End TwoMarketWitness.
