(* ===== verification/BestBuy.v ===== *)
(** * The complete round trips (src/core/strategy/best_buy_opposite_sell.go)

    Both directions buy for a fixed notional and sell what was bought; the direction
    with the greatest output is selected.  The two directions run concurrently and
    share nothing but their sources, which answer a request by the number of the
    attempt; [ctx_Err] is asked at the moments the code asks for it.  Delays and
    traces are left out.

    Theorems: a quote is the first success within the attempts; a round trip is
    valued from its two quotes, never above what it really gains; the selected
    direction is exactly the one whose complete round trip has the strictly greater
    output. *)
From Stdlib Require Import QArith Qcanon.
From S2P Require Import Prelude Amount Quote Registry Arbitrage Pools TwoMarket.
Local Open Scope Z_scope.

(** What a source answers to the attempts at a request during one evaluation. *)
Abbreviation AttemptSource D := (nat -> QuoteInput D -> res Quote).

Record BestBuyOppositeSell (D : Type) := mkBestBuyOppositeSell {
  bb_id : StrategyID; bb_setup : ArbitrageSetup; bb_registry : Registry; bb_sources : gmap MarketID (AttemptSource D);
  bb_notional : AssetQuantity; bb_threshold : AssetQuantity; bb_retries : nat }.
Arguments mkBestBuyOppositeSell {D}. Arguments bb_id {D}. Arguments bb_setup {D}. Arguments bb_registry {D}.
Arguments bb_sources {D}. Arguments bb_notional {D}. Arguments bb_threshold {D}. Arguments bb_retries {D}.

(** When the context is asked. *)
Inductive moment (D : Type) :=
| Asked (input : QuoteInput D) (attempt : nat)
| Waited (input : QuoteInput D) (attempt : nat)
| Compared.
Arguments Asked {D}. Arguments Waited {D}. Arguments Compared {D}.

Section strategy.
Context {D : Type}.

Definition add_source (sources acc : gmap MarketID (AttemptSource D)) (marketID : MarketID) : res (gmap MarketID (AttemptSource D)) :=
  match sources !! marketID with
  | None => Err (Errorf "quote source is required for market %q")
  | Some source => Ok (<[marketID := source]> acc)
  end.

(** [clock]: the configuration has a clock. *)
Definition NewBestBuyOppositeSell (id : StrategyID) (setup : ArbitrageSetup) (registry : option Registry)
    (sources : gmap MarketID (AttemptSource D)) (notional threshold : AssetQuantity) (clock : bool) (retries : Z) :
    res (BestBuyOppositeSell D) :=
  match registry with
  | None => Err (Errorf "best-buy strategy requires id, two-market setup, registry, and clock")
  | Some registry =>
      if decide (id = "" \/ clock = false \/ length (setup_markets setup) <> 2%nat)
      then Err (Errorf "best-buy strategy requires id, two-market setup, registry, and clock") else
      match reg_pairs registry !! setup_pair setup with
      | None => Err (Errorf "best-buy notional and threshold must use the positive quote asset")
      | Some known =>
          if decide (quantity_asset notional <> Pair_QuoteAsset known \/ AssetQuantity_Sign notional <= 0 \/
                     quantity_asset threshold <> Pair_QuoteAsset known \/ AssetQuantity_Sign threshold < 0)
          then Err (Errorf "best-buy notional and threshold must use the positive quote asset") else
          if decide (retries < 0 \/ 1 < retries) then Err (Errorf "best-buy strategy supports at most one retry") else
          quoted ← foldM (add_source sources) ∅ (setup_markets setup);
          Ok (mkBestBuyOppositeSell id setup registry quoted notional threshold (Z.to_nat retries))
      end
  end.

Context (ctx_Err : moment D -> option error).
(** The HTTP status an error carries, if [errors.As] finds one. *)
Context (HTTPStatusCode : error -> option Z).
(** The clock at the end of a direction, and after the comparison. *)
Context (finished compared : Direction -> Time).
Context (s : BestBuyOppositeSell D).

(** ** Quotes with a retry *)

Definition transientQuoteError (e : error) : bool :=
  if errors_Is e "context canceled" then false else
  match HTTPStatusCode e with
  | None => true
  | Some code => bool_decide (code = 408 \/ code = 425 \/ code = 429 \/ 500 <= code)
  end.

(** The attempts from number [attempt] on, [fuel] of them after it. *)
Fixpoint quote_attempts (source : AttemptSource D) (input : QuoteInput D) (fuel attempt : nat) : res Quote :=
  match source attempt input with
  | Ok quote => Ok quote
  | Panic why => Panic why
  | Err last =>
      match fuel with
      | O => Err last
      | Datatypes.S fuel =>
          if decide (ctx_Err (Asked input attempt) <> None \/ transientQuoteError last = false) then Err last else
          match ctx_Err (Waited input attempt) with
          | Some cancelled => Err cancelled
          | None => quote_attempts source input fuel (Datatypes.S attempt)
          end
      end
  end.

(** A market without a source is a nil interface. *)
Definition timedQuote (marketID : MarketID) (input : QuoteInput D) : res Quote :=
  match bb_sources s !! marketID with
  | None => Panic "nil quote source"
  | Some source => quote_attempts source input (bb_retries s) 0
  end.

(** ** A round trip *)

Definition given {A} (o : option A) (reason : string) : res A := match o with Some a => Ok a | None => Err (Errorf reason) end.

Definition trip_tokens (direction : Direction) : res directionTokens :=
  buyMarket ← given (reg_markets (bb_registry s) !! BuyMarket direction) "market_definition_missing";
  sellMarket ← given (reg_markets (bb_registry s) !! SellMarket direction) "market_definition_missing";
  buyBase ← given (reg_tokens (bb_registry s) !! Market_BaseToken buyMarket) "token_definition_missing";
  buyQuote ← given (reg_tokens (bb_registry s) !! Market_QuoteToken buyMarket) "token_definition_missing";
  sellBase ← given (reg_tokens (bb_registry s) !! Market_BaseToken sellMarket) "token_definition_missing";
  sellQuote ← given (reg_tokens (bb_registry s) !! Market_QuoteToken sellMarket) "token_definition_missing";
  Ok (mkDirectionTokens buyBase buyQuote sellBase sellQuote).

Definition healthy (snapshot : option (MarketSnapshot D)) : option (MarketSnapshot D) :=
  match snapshot with
  | Some s => if decide (md_Health (snap_metadata s) = HealthHealthy) then Some s else None
  | None => None
  end.

(** The candidate of a direction; the text of an error is the reason. *)
Definition round_trip (evaluation : Evaluation D) (direction : Direction) : res Candidate :=
  t ← trip_tokens direction;
  buySnapshot ← given (healthy (Evaluation_Snapshot evaluation (BuyMarket direction))) "degraded_or_missing_market_snapshot";
  sellSnapshot ← given (healthy (Evaluation_Snapshot evaluation (SellMarket direction))) "degraded_or_missing_market_snapshot";
  buyInput ← checked (ToTokenAmount (bb_notional s) (dt_buyQuote t)) (fun a => bool_decide (IsZero a)) "buy_input_rounds_to_zero";
  buy ← checked (timedQuote (BuyMarket direction) (buy_input evaluation buySnapshot t buyInput)) (fun _ => false) "buy_quote_unavailable";
  bought ← checked (ToAssetQuantity (q_AmountOut buy) (dt_buyBase t)) (fun _ => false) "buy_output_invalid";
  sellInput ← checked (ToTokenAmount bought (dt_sellBase t)) (fun a => bool_decide (IsZero a)) "sell_input_rounds_to_zero";
  sell ← checked (timedQuote (SellMarket direction) (sell_input evaluation sellSnapshot t sellInput)) (fun _ => false) "sell_quote_unavailable";
  output ← checked (ToAssetQuantity (q_AmountOut sell) (dt_sellQuote t)) (fun _ => false) "sell_output_invalid";
  let cost := CostFor evaluation direction in
  let gross := or_zero (AssetQuantity_Sub output (bb_notional s)) in
  let net := or_zero (AssetQuantity_Sub gross (cost_Amount cost)) in
  Ok (new_candidate (bb_notional s) (bb_notional s) output gross cost net buy sell).

(** An opportunity with its candidates, selection, classification and reasons. *)
Definition trip_opportunity (evaluation : Evaluation D) (direction : Direction) (candidates : list Candidate) (selected : Z)
    (classification : string) (reasons : list string) : Opportunity :=
  mkOpportunity (ev_id evaluation) (ev_run evaluation) (ev_configHash evaluation) (bb_id s) direction classification
    (snap_metadata <$> omap (Evaluation_Snapshot evaluation) [BuyMarket direction; SellMarket direction]) candidates
    selected (bb_threshold s) reasons (default Trigger_zero (ev_trigger evaluation)) (bool_decide (ev_trigger evaluation <> None))
    (ev_triggeredAt evaluation) (ev_startedAt evaluation) (finished direction).

Definition reason (e : error) : string := match e with Errorf format => format | _ => "" end.

Definition evaluateDirection (evaluation : Evaluation D) (direction : Direction) : res Opportunity :=
  match round_trip evaluation direction with
  | Panic why => Panic why
  | Err e => Ok (trip_opportunity evaluation direction [] (-1) ClassificationUnclassifiable [reason e])
  | Ok c =>
      let outcome := classification (cd_GrossPnL c) (cd_NetPnL c) (bb_threshold s) in
      Ok (trip_opportunity evaluation direction [c] 0 outcome.1 [outcome.2])
  end.

(** ** The comparison *)

Definition reject (o : Opportunity) (classification reason : string) : Opportunity :=
  mkOpportunity (op_Evaluation o) (op_Run o) (op_ConfigHash o) (op_Strategy o) (op_Direction o) classification (op_Snapshots o)
    (op_Candidates o) (-1) (op_Threshold o) [reason] (op_Trigger o) (op_HasTrigger o) (op_TriggeredAt o) (op_StartedAt o)
    (compared (op_Direction o)).

Definition incomplete (o : Opportunity) : Prop :=
  op_SelectedIndex o < 0 \/ Z.of_nat (length (op_Candidates o)) <= op_SelectedIndex o.
#[export] Instance incomplete_dec o : Decision (incomplete o) := ltac:(unfold incomplete; apply _).

Definition reject_selected (o : Opportunity) : Opportunity :=
  if decide (0 <= op_SelectedIndex o) then reject o ClassificationUnclassifiable "round_trip_comparison_incomplete" else o.

Definition selected_candidate (o : Opportunity) : res Candidate :=
  match op_Candidates o !! Z.to_nat (op_SelectedIndex o) with Some c => Ok c | None => Panic "index out of range" end.

Definition compare_trips (opportunities : list Opportunity) : res (list Opportunity) :=
  if decide (Exists incomplete opportunities) then Ok (reject_selected <$> opportunities) else
  match opportunities with
  | first :: second :: rest =>
      left ← selected_candidate first;
      right ← selected_candidate second;
      match AssetQuantity_Cmp (cd_Output left) (cd_Output right) with
      | Panic why => Panic why
      | Err _ => Ok ((fun o => reject o ClassificationUnclassifiable "round_trip_outputs_incomparable") <$> opportunities)
      | Ok comparison =>
          if decide (comparison = 0) then Ok ((fun o => reject o ClassificationNoSpread "equal_round_trip_output") <$> opportunities) else
          if decide (comparison < 0) then Ok (reject first ClassificationNoSpread "lower_round_trip_output" :: second :: rest)
          else Ok (first :: reject second ClassificationNoSpread "lower_round_trip_output" :: rest)
      end
  | _ => Panic "index out of range"
  end.

Definition cost_asset (evaluation : Evaluation D) (_ : unit) (direction : Direction) : res unit :=
  if decide (quantity_asset (cost_Amount (CostFor evaluation direction)) <> quantity_asset (bb_threshold s))
  then Err (Errorf "cost asset does not match strategy quote asset") else Ok tt.

Definition evaluate_trip (evaluation : Evaluation D) (opportunities : list Opportunity) (direction : Direction) : res (list Opportunity) :=
  opportunity ← evaluateDirection evaluation direction;
  Ok (opportunities ++ [opportunity]).

Definition BestBuy_Evaluate (evaluation : Evaluation D) : res (list Opportunity) :=
  if decide (ev_strategy evaluation <> bb_id s) then Err (Errorf "evaluation targets strategy %q, expected %q") else
  _ ← foldM (cost_asset evaluation) tt (setup_directions (bb_setup s));
  opportunities ← foldM (evaluate_trip evaluation) [] (setup_directions (bb_setup s));
  match ctx_Err Compared with
  | Some e => Err e
  | None => compare_trips opportunities
  end.

(** ** Quotes *)

(** The attempts up to [n] failed with transient errors while the context lived. *)
Definition retried (source : AttemptSource D) (input : QuoteInput D) (n : nat) : Prop :=
  forall k, (k < n)%nat -> ctx_Err (Asked input k) = None /\ ctx_Err (Waited input k) = None /\
    exists e, source k input = Err e /\ transientQuoteError e = true.

Lemma quote_attempts_Ok source input fuel attempt q :
  retried source input attempt ->
  quote_attempts source input fuel attempt = Ok q ->
  exists n, (n <= attempt + fuel)%nat /\ source n input = Ok q /\ retried source input n.
Proof using Type.
  revert attempt. induction fuel as [|fuel IH]; intros attempt Hr; cbn [quote_attempts];
    destruct (source attempt input) as [q'|e|why] eqn:Ha; try done; try (intros [= <-]; exists attempt; split; [lia|done]).
  destruct (decide _) as [|Hgo]; [done|]. destruct (ctx_Err (Waited input attempt)) as [c|] eqn:Hw; [done|].
  intros H. apply IH in H as (n & ? & H).
  - exists n. split; [lia|done].
  - intros k Hk. destruct (decide (k = attempt)) as [->|]; [|apply Hr; lia].
    apply Decidable.not_or in Hgo as [Hc Ht]. split; [by destruct (ctx_Err (Asked input attempt)) as [c|]; [destruct Hc|]|].
    split; [done|]. exists e. split; [done|]. by destruct (transientQuoteError e).
Qed.

(** A quote is the source's first success; every attempt before it failed with a
    transient error while the context was alive. *)
Lemma timedQuote_first marketID input q :
  timedQuote marketID input = Ok q ->
  exists source n, bb_sources s !! marketID = Some source /\ (n <= bb_retries s)%nat /\ source n input = Ok q /\ retried source input n.
Proof using Type.
  unfold timedQuote. destruct (bb_sources s !! marketID) as [source|]; [|done]. intros H.
  apply quote_attempts_Ok in H as (n & ? & ? & ?); [|intros k Hk; lia]. exists source, n. split; [done|]. split; [lia|done].
Qed.

(** ** What a round trip says *)

Definition sources_answer : Prop :=
  forall marketID source attempt input q, bb_sources s !! marketID = Some source -> source attempt input = Ok q -> answers_request input q.

Lemma timedQuote_answers marketID input q : sources_answer -> timedQuote marketID input = Ok q -> answers_request input q.
Proof using Type. intros Hs (source & n & Hm & _ & Hq & _)%timedQuote_first. by eapply Hs. Qed.

Record trip_valued (evaluation : Evaluation D) (direction : Direction) (t : directionTokens) (c : Candidate) : Prop := {
  tv_tokens : trip_tokens direction = Ok t;
  tv_input : cd_Input c = bb_notional s /\ (worth (q_AmountIn (cd_BuyQuote c)) (dt_buyQuote t) <= Rat (bb_notional s))%Qc;
  tv_sold : 0 < Units (q_AmountIn (cd_SellQuote c)) /\
    (worth (q_AmountIn (cd_SellQuote c)) (dt_sellBase t) <= worth (q_AmountOut (cd_BuyQuote c)) (dt_buyBase t))%Qc;
  tv_output : cd_Output c = mkAssetQuantity (Token_Asset (dt_sellQuote t)) (Some (worth (q_AmountOut (cd_SellQuote c)) (dt_sellQuote t)));
  tv_cost : cd_Cost c = CostFor evaluation direction;
  tv_profit : Token_Asset (dt_sellQuote t) = quantity_asset (bb_notional s) ->
    quantity_asset (cost_Amount (cd_Cost c)) = quantity_asset (bb_notional s) ->
    Rat (cd_GrossPnL c) = (Rat (cd_Output c) - Rat (bb_notional s))%Qc /\
    Rat (cd_NetPnL c) = (Rat (cd_GrossPnL c) - Rat (cost_Amount (cd_Cost c)))%Qc }.

Lemma round_trip_valued evaluation direction c :
  sources_answer -> quantity_asset (bb_notional s) <> "" -> round_trip evaluation direction = Ok c ->
  exists t, trip_valued evaluation direction t c.
Proof using Type.
  intros Hs Hn H. unfold round_trip in H. apply bind_Ok in H as (t & Ht & H). exists t.
  apply bind_Ok in H as (buySnapshot & _ & H). apply bind_Ok in H as (sellSnapshot & _ & H).
  apply bind_Ok in H as (buyInput & Hin & H). apply bind_Ok in H as (buy & Hb & H). apply bind_Ok in H as (bought & Hbase & H).
  apply bind_Ok in H as (sellInput & Hsell & H). apply bind_Ok in H as (sell & Hq & H). apply bind_Ok in H as (output & Hout & H).
  apply checked_Ok in Hin as [Hin _], Hb as [Hb _], Hbase as [Hbase _], Hsell as [Hsell Hnz], Hq as [Hq _], Hout as [Hout _].
  apply timedQuote_answers in Hb as [Hbin _], Hq as [Hsin _]; [|done..]. cbn in Hbin, Hsin.
  apply ToAssetQuantity_inv in Hbase as (_ & _ & ->), Hout as (_ & _ & ->). injection H as <-.
  split; cbn [new_candidate cd_BuyQuote cd_SellQuote cd_Input cd_Output cd_Cost cd_GrossPnL cd_NetPnL]; try done.
  - rewrite Hbin. split; [done|]. by apply ToTokenAmount_worth in Hin.
  - rewrite Hsin. split; [apply (rounds_down_Ok _ _ _ Hsell Hnz)|]. by apply ToTokenAmount_worth in Hsell.
  - intros Ha Hc. rewrite !or_zero_Sub. cbn [quantity_asset].
    rewrite (decide_True (P := Token_Asset (dt_sellQuote t) = _ /\ _)) by (split; congruence). cbn [quantity_asset].
    by rewrite decide_True by (split; congruence).
Qed.

(** ** The comparison *)

(** How an evaluation of two directions ends, by the two round trips. *)
Definition wins (evaluation : Evaluation D) (direction other : Direction) (c : Candidate) : Prop :=
  round_trip evaluation direction = Ok c /\ exists c', round_trip evaluation other = Ok c' /\
    quantity_asset (cd_Output c) = quantity_asset (cd_Output c') /\ (Rat (cd_Output c') < Rat (cd_Output c))%Qc.

Lemma evaluateDirection_cases evaluation direction o :
  evaluateDirection evaluation direction = Ok o ->
  op_Direction o = direction /\
  ((exists c, round_trip evaluation direction = Ok c /\ op_Candidates o = [c] /\ op_SelectedIndex o = 0 /\
      op_Classification o = (classification (cd_GrossPnL c) (cd_NetPnL c) (bb_threshold s)).1) \/
   (exists e, round_trip evaluation direction = Err e) /\ op_Candidates o = [] /\ op_SelectedIndex o = -1).
Proof using Type.
  unfold evaluateDirection. destruct (round_trip evaluation direction) as [c|e|why]; [|..]; intros H; [..|done];
    injection H as <-; (split; [done|]); [left|right]; eauto.
Qed.

(** The selection of an opportunity. *)
Definition selects (o : Opportunity) (c : Candidate) : Prop :=
  0 <= op_SelectedIndex o /\ op_Candidates o !! Z.to_nat (op_SelectedIndex o) = Some c /\
  op_Classification o = (classification (cd_GrossPnL c) (cd_NetPnL c) (bb_threshold s)).1.

Lemma selects_reject o why text c : ~ selects (reject o why text) c.
Proof using Type. intros [Hsel _]. cbn in Hsel. lia. Qed.

Lemma selects_one o c c' :
  op_Candidates o = [c] -> op_SelectedIndex o = 0 -> op_Classification o = (classification (cd_GrossPnL c) (cd_NetPnL c) (bb_threshold s)).1 ->
  selects o c' <-> c' = c.
Proof using Type.
  intros Hc Hi Ho. unfold selects. rewrite Hc, Hi, Ho. cbn. split; [by intros (_ & [= ->] & _)|]. intros ->. split; [lia|done].
Qed.

Lemma incomplete_one o c : op_Candidates o = [c] -> op_SelectedIndex o = 0 -> ~ incomplete o.
Proof using Type. unfold incomplete. intros -> ->. cbn. lia. Qed.

Lemma selected_one o c : op_Candidates o = [c] -> op_SelectedIndex o = 0 -> selected_candidate o = Ok c.
Proof using Type. unfold selected_candidate. by intros -> ->. Qed.

Lemma reject_selected_none o c : op_SelectedIndex o = 0 \/ op_SelectedIndex o = -1 -> ~ selects (reject_selected o) c.
Proof using Type.
  intros H. unfold reject_selected. destruct (decide _) as [|Hn]; [apply selects_reject|]. intros [? _]. lia.
Qed.

(** What the comparison of two opportunities leaves. *)
Definition outcome_of (evaluation : Evaluation D) (d1 d2 : Direction) (opportunities : list Opportunity) : Prop :=
  op_Direction <$> opportunities = [d1; d2] /\
  forall o, o ∈ opportunities -> forall c,
    selects o c <-> (op_Direction o = d1 /\ wins evaluation d1 d2 c) \/ (op_Direction o = d2 /\ wins evaluation d2 d1 c).

Lemma outcome_of_pair evaluation d1 d2 o1 o2 :
  d1 <> d2 -> op_Direction o1 = d1 -> op_Direction o2 = d2 ->
  (forall c, selects o1 c <-> wins evaluation d1 d2 c) -> (forall c, selects o2 c <-> wins evaluation d2 d1 c) ->
  outcome_of evaluation d1 d2 [o1; o2].
Proof using Type.
  intros Hne H1 H2 Hs1 Hs2. split; [by rewrite <- H1, <- H2|]. intros o Ho c.
  apply elem_of_cons in Ho as [->|Ho]; [|apply list_elem_of_singleton in Ho as ->].
  - specialize (Hs1 c). rewrite H1. clear Hs2. split; [intros H; left; split; [done|by apply Hs1]|]. by intros [[_ ?%Hs1]|[? _]].
  - specialize (Hs2 c). rewrite H2. clear Hs1. split; [intros H; right; split; [done|by apply Hs2]|]. by intros [[He _]|[_ ?%Hs2]].
Qed.

Lemma compare_two evaluation d1 d2 o1 o2 opportunities :
  d1 <> d2 -> evaluateDirection evaluation d1 = Ok o1 -> evaluateDirection evaluation d2 = Ok o2 ->
  compare_trips [o1; o2] = Ok opportunities -> outcome_of evaluation d1 d2 opportunities.
Proof using Type.
  intros Hne H1 H2. apply evaluateDirection_cases in H1 as [Hd1 H1], H2 as [Hd2 H2]. unfold compare_trips.
  destruct H1 as [(c1 & Hr1 & Hc1 & Hi1 & Hk1)|([e1 Hr1] & Hc1 & Hi1)], H2 as [(c2 & Hr2 & Hc2 & Hi2 & Hk2)|([e2 Hr2] & Hc2 & Hi2)].
  2-4: rewrite decide_True by (rewrite ?Exists_cons, Exists_nil; unfold incomplete; rewrite ?Hi1, ?Hi2; lia); intros [= <-];
    apply outcome_of_pair; try done; try (unfold reject_selected; destruct (decide _); done);
    intros c; (split; [intros Hs; exfalso; revert Hs; apply reject_selected_none; lia|]);
    unfold wins; rewrite Hr1, Hr2; intros [? (? & ? & _)]; done.
  rewrite decide_False.
  2: { rewrite !Exists_cons, Exists_nil. intros [H|[H|[]]]; revert H; by eapply incomplete_one. }
  rewrite (selected_one o1 c1), (selected_one o2 c2) by done. cbn [mbind res_bind].
  assert (forall c, wins evaluation d1 d2 c <-> c = c1 /\ quantity_asset (cd_Output c1) = quantity_asset (cd_Output c2) /\
    (Rat (cd_Output c2) < Rat (cd_Output c1))%Qc) as Hw1 by (intros c; unfold wins; rewrite Hr1, Hr2; naive_solver).
  assert (forall c, wins evaluation d2 d1 c <-> c = c2 /\ quantity_asset (cd_Output c2) = quantity_asset (cd_Output c1) /\
    (Rat (cd_Output c1) < Rat (cd_Output c2))%Qc) as Hw2 by (intros c; unfold wins; rewrite Hr1, Hr2; naive_solver).
  pose proof (fun c => selects_one o1 c1 c Hc1 Hi1 Hk1) as Hs1. pose proof (fun c => selects_one o2 c2 c Hc2 Hi2 Hk2) as Hs2.
  pose proof selects_reject as Hrej. unfold AssetQuantity_Cmp.
  pose proof (Rat_Cmp_pos (Rat (cd_Output c1)) (Rat (cd_Output c2))) as Hp. pose proof (Rat_Cmp_nonneg (Rat (cd_Output c1)) (Rat (cd_Output c2))) as Hq.
  set (cmp := Rat_Cmp _ _) in *.
  assert ((Rat (cd_Output c1) < Rat (cd_Output c2))%Qc <-> cmp < 0) as Hlt.
  { rewrite <- Z.nle_gt, Hq. split; [apply Qclt_not_le|apply Qcnot_le_lt]. }
  assert (forall o why text c (Q : Prop), ~ Q -> selects (reject o why text) c <-> Q) as Hno by (intros ????? Hn; split; [by intros ?%Hrej|done]).
  destruct (decide (quantity_asset _ <> _)) as [Ha|Ha]; [|apply dec_stable in Ha; destruct (decide (cmp = 0)); [|destruct (decide (cmp < 0))]];
    intros [= <-]; apply outcome_of_pair; try done; intros c; rewrite ?Hw1, ?Hw2, ?Hs1, ?Hs2, ?Hlt, <- ?Hp.
  - apply Hno. by intros (_ & ? & _).
  - apply Hno. intros (_ & He & _). by apply Ha.
  - apply Hno. intros (_ & _ & ?). lia.
  - apply Hno. intros (_ & _ & ?). lia.
  - apply Hno. intros (_ & _ & ?). lia.
  - split; [by intros ->|by intros [-> _]].
  - split; [intros ->; split; [done|]; split; [done|lia]|by intros [-> _]].
  - apply Hno. intros (_ & _ & ?). lia.
Qed.

(** On a setup of two directions the evaluation answers with both, in order, and
    selects a candidate of a direction exactly when both complete round trips
    succeeded and that candidate is worth strictly more than the other; its
    classification is that of its own result.  With sources that answer what they
    are asked, such a candidate spends at most the notional, sells no more base than
    it bought, and its result is the sale less the notional less the direction's
    cost. *)
Theorem BestBuy_selects_best evaluation d1 d2 opportunities :
  setup_directions (bb_setup s) = [d1; d2] -> d1 <> d2 -> sources_answer -> quantity_asset (bb_notional s) <> "" ->
  BestBuy_Evaluate evaluation = Ok opportunities ->
  outcome_of evaluation d1 d2 opportunities /\
  (forall o c, o ∈ opportunities -> selects o c -> exists t, trip_valued evaluation (op_Direction o) t c).
Proof using Type.
  intros Hd Hne Hs Hn H. unfold BestBuy_Evaluate in H. destruct (decide _); [done|]. apply bind_Ok in H as (_ & _ & H).
  rewrite Hd in H. cbn [foldM] in H. unfold evaluate_trip in H.
  apply bind_Ok in H as (os & Hos & H). apply bind_Ok in Hos as (os1 & H1 & Hos). apply bind_Ok in H1 as (o1 & H1 & [= <-]).
  apply bind_Ok in Hos as (os2 & H2 & [= <-]). apply bind_Ok in H2 as (o2 & H2 & [= <-]).
  destruct (ctx_Err Compared); [done|]. apply (compare_two evaluation d1 d2 o1 o2) in H as Hout; [|done..]. split; [done|].
  intros o c Ho Hsel. apply (proj2 Hout o Ho) in Hsel as [[-> Hw]|[-> Hw]]; destruct Hw as [Hw _]; by eapply round_trip_valued.
Qed.
End strategy.

(** ** A concrete evaluation *)

Module BestBuyWitness.
Import TwoMarketWitness.

(** The second market fails once with a status that is worth a retry. *)
Definition flaky (n : nat) (i : QuoteInput bool) : res Quote :=
  match n with O => Err (Errorf "503") | _ => fixed_quote "s2" 1 2040 i end.
Definition status (e : error) : option Z := match e with Errorf "503" => Some 503 | _ => None end.
Definition best_buy : BestBuyOppositeSell bool :=
  mkBestBuyOppositeSell "two" setup registry (<["m1" := fun _ => fixed_quote "s1" 1 2000]> {[ "m2" := flaky ]}) (usd 2000) (usd 1) 1.
Definition impatient : BestBuyOppositeSell bool :=
  mkBestBuyOppositeSell "two" setup registry (bb_sources best_buy) (usd 2000) (usd 1) 0.
Definition run (s : BestBuyOppositeSell bool) : res (list Opportunity) :=
  BestBuy_Evaluate (fun _ => None) status (fun _ => 9) (fun _ => 10) s (evaluation 1).

(** Without the retry the comparison is incomplete. *)
Example no_retry_incomplete :
  (fmap (M := list) (fun o => (op_SelectedIndex o, op_Reasons o))) <$> res_opt (run impatient) =
  Some [(-1, ["sell_quote_unavailable"]); (-1, ["buy_quote_unavailable"])].
Proof. vm_compute. reflexivity. Qed.

Lemma best_buy_answers : sources_answer best_buy.
Proof.
  intros marketID source attempt i q Hs Hq. cbn in Hs. apply lookup_insert_Some in Hs as [[_ <-]|[_ [_ <-]%lookup_singleton_Some]].
  - by eapply fixed_answers.
  - destruct attempt; [done|]. by eapply fixed_answers.
Qed.

Lemma best_buy_witness :
  exists o1 o2 t c, run best_buy = Ok [o1; o2] /\ op_SelectedIndex o2 = -1 /\ selects best_buy o1 c /\
    op_Classification o1 = ClassificationPolicyQualified /\
    trip_valued best_buy (evaluation 1) (op_Direction o1) t c.
Proof.
  assert (match run best_buy with
          | Ok [o1; o2] => bool_decide (op_SelectedIndex o1 = 0 /\ op_SelectedIndex o2 = -1 /\ length (op_Candidates o1) = 1%nat /\
              op_Classification o1 = ClassificationPolicyQualified /\
              (fun c => (classification (cd_GrossPnL c) (cd_NetPnL c) (bb_threshold best_buy)).1) <$> op_Candidates o1 !! 0%nat = Some (op_Classification o1))
          | _ => false end = true) as Hrun by (vm_compute; reflexivity).
  destruct (run best_buy) as [[|o1 [|o2 [|o3 l]]]|e|why] eqn:Hout; [discriminate Hrun..| |discriminate Hrun|discriminate Hrun|discriminate Hrun].
  apply bool_decide_eq_true in Hrun as (H1 & H2 & Hlen & Hp & Hk). destruct (op_Candidates o1) as [|c [|c' l]] eqn:Hc; [discriminate Hlen| |discriminate Hlen].
  assert (selects best_buy o1 c) as Hsel.
  { split; [rewrite H1; discriminate|]. rewrite H1, Hc. split; [reflexivity|]. injection Hk as Hk. symmetry. exact Hk. }
  destruct (BestBuy_selects_best (fun _ => None) status (fun _ => 9) (fun _ => 10) best_buy (evaluation 1)
    (mkDirection "m1" "m2") (mkDirection "m2" "m1") [o1; o2]) as [_ Hv];
    [reflexivity|discriminate|apply best_buy_answers|discriminate|exact Hout|].
  destruct (Hv o1 c) as [t Ht]; [left|exact Hsel|]. exists o1, o2, t, c. split; [reflexivity|]. split; [exact H2|]. split; [exact Hsel|].
  split; [exact Hp|exact Ht].
Defined.
End BestBuyWitness.
