(* ===== verification/Prefunded.v ===== *)
(** * The prefunded strategy (src/core/strategy/prefunded_parallel.go)

    Both legs are funded beforehand, so every direction is valued by the live
    evaluator at several notionals, against one valuation of the base asset.  The
    state is the strategy's valuation cache.  The goroutines of the directions and
    sizes share nothing that changes, so they are run in order; [now] gives the clock
    at each of its readings.  Timings and the error callback are left out.

    Theorems: every candidate is the live evaluator's exact valuation at one of the
    notionals; a direction selects the best eligible candidate, a worthwhile one if
    there is any, and the evaluation keeps the selection of the best direction only;
    a revaluation keeps the inputs and is exact. *)
From Stdlib Require Import QArith Qcanon.
From S2P Require Import Prelude Amount Quote Registry Arbitrage Pools LiveEvaluator TwoMarket BestBuy.
Local Open Scope Z_scope.

Record PrefundedParallel (D : Type) := mkPrefundedParallel {
  pp_id : StrategyID; pp_setup : ArbitrageSetup; pp_registry : Registry;
  pp_sources : gmap MarketID (QuoteInput D -> res Quote); pp_notionals : list AssetQuantity;
  pp_legacyThreshold : AssetQuantity; pp_directionalThresholds : gmap Direction AssetQuantity;
  pp_thresholdFixed : AssetQuantity; pp_thresholdBPS : Z; pp_valuationMarket : MarketID;
  pp_live : LiveEvaluator D; pp_requireQuoteConversion : bool;
  pp_candidateEligible : option (Direction -> Candidate -> bool);
  pp_candidateCost : option (Direction -> AssetQuantity -> Time -> option CostSnapshot) }.
Arguments mkPrefundedParallel {D}. Arguments pp_id {D}. Arguments pp_setup {D}. Arguments pp_registry {D}.
Arguments pp_sources {D}. Arguments pp_notionals {D}. Arguments pp_legacyThreshold {D}. Arguments pp_directionalThresholds {D}.
Arguments pp_thresholdFixed {D}. Arguments pp_thresholdBPS {D}. Arguments pp_valuationMarket {D}. Arguments pp_live {D}.
Arguments pp_requireQuoteConversion {D}. Arguments pp_candidateEligible {D}. Arguments pp_candidateCost {D}.

(** The readings of the clock. *)
Inductive reading :=
| ValuationChecked | ValuationRechecked | ValuationQuoted | ValuationObserved | ValuationTaken
| LiveQuoted (d : Direction) (notional : AssetQuantity) | LiveNow (d : Direction) (notional : AssetQuantity)
| SizeFinished (d : Direction) (notional : AssetQuantity) | SizesFinished (d : Direction) | Revalued
| Unclassified (d : Direction) | Observed (d : Direction).

Definition quantityGreater (left right : AssetQuantity) : bool :=
  match AssetQuantity_Cmp left right with Ok comparison => bool_decide (0 < comparison) | _ => false end.

(** *** Construction *)

Definition increasing_quote (quoteAsset : AssetID) (previous : option AssetQuantity) (notional : AssetQuantity) :
    res (option AssetQuantity) :=
  if decide (quantity_asset notional <> quoteAsset \/ AssetQuantity_Sign notional <= 0 \/
             (p ← previous; Some (quantityGreater notional p)) = Some false)
  then Err (Errorf "prefunded parallel notionals must be strictly increasing quote quantities") else Ok (Some notional).

Definition directional_invalid (quoteAsset : AssetID) (entry : Direction * AssetQuantity) : Prop :=
  BuyMarket entry.1 = SellMarket entry.1 \/ quantity_asset entry.2 <> quoteAsset \/ AssetQuantity_Sign entry.2 < 0.
#[export] Instance directional_invalid_dec quoteAsset entry : Decision (directional_invalid quoteAsset entry) :=
  ltac:(unfold directional_invalid; apply _).

Section strategy.
Context {D : Type}.

(** [clock]: the configuration has a clock. *)
Definition NewPrefundedParallel (id : StrategyID) (setup : ArbitrageSetup) (registry : option Registry)
    (sources : gmap MarketID (QuoteInput D -> res Quote)) (notional : AssetQuantity) (notionals : list AssetQuantity)
    (threshold : AssetQuantity) (directional : gmap Direction AssetQuantity) (thresholdFixed : AssetQuantity) (thresholdBPS : Z)
    (valuationMarket : MarketID) (clock requireQuoteConversion : bool)
    (candidateEligible : option (Direction -> Candidate -> bool))
    (candidateCost : option (Direction -> AssetQuantity -> Time -> option CostSnapshot)) :
    res (PrefundedParallel D * BaseValuationCache) :=
  let incomplete := Err (Errorf "prefunded parallel strategy requires id, two markets, valuation market, registry, and clock") in
  match registry with
  | None => incomplete
  | Some known =>
      if decide (id = "" \/ clock = false \/ length (setup_markets setup) <> 2%nat \/ valuationMarket = "") then incomplete else
      let notionals := if decide (notionals = [] /\ 0 < AssetQuantity_Sign notional) then [notional] else notionals in
      match reg_pairs known !! setup_pair setup with
      | None => Err (Errorf "prefunded parallel notional and thresholds must use the quote asset")
      | Some assets =>
          let quoteAsset := Pair_QuoteAsset assets in
          if decide (notionals = [] \/ quantity_asset threshold <> quoteAsset \/ AssetQuantity_Sign threshold < 0)
          then Err (Errorf "prefunded parallel notional and thresholds must use the quote asset") else
          _ ← foldM (increasing_quote quoteAsset) None notionals;
          if decide (10000 < thresholdBPS \/ (0 < thresholdBPS /\
                     (quantity_asset thresholdFixed <> quoteAsset \/ AssetQuantity_Sign thresholdFixed <= 0)))
          then Err (Errorf "prefunded parallel percentage threshold is invalid") else
          if decide (Exists (directional_invalid quoteAsset) (map_to_list directional))
          then Err (Errorf "prefunded parallel directional threshold is invalid") else
          cache ← NewBaseValuationCache (Pair_BaseAsset assets) quoteAsset;
          live ← NewLiveEvaluator setup registry sources clock;
          match sources !! valuationMarket with
          | None => Err (Errorf "valuation market has no quote source")
          | Some _ =>
              Ok (mkPrefundedParallel id setup known sources notionals threshold directional thresholdFixed thresholdBPS valuationMarket
                    live requireQuoteConversion candidateEligible candidateCost, cache)
          end
      end
  end.

Context `{!RangeOrder string} (now : reading -> Time) (ctx_Err : option error).
(** Whether [errors.As] finds a rate limit in an error. *)
Context (RateLimited : error -> bool).
Context (s : PrefundedParallel D).

(** *** The valuation *)

Definition taken (at_ : reading) : ST BaseValuationCache ValuationSnapshot :=
  c ← get; lift (Valuation_Snapshot c (now at_)).

Definition valuation_quote (input : QuoteInput D) : res Quote :=
  match pp_sources s !! pp_valuationMarket s with
  | None => Panic "nil quote source"
  | Some source => source input
  end.

(** The valuation market is asked for the largest notional. *)
Definition warm (evaluation : Evaluation D) : ST BaseValuationCache ValuationSnapshot :=
  match reg_markets (pp_registry s) !! pp_valuationMarket s with
  | None => fail "valuation market missing"
  | Some configured =>
      let base := token_or_zero (pp_registry s) (Market_BaseToken configured) in
      let quoteToken := token_or_zero (pp_registry s) (Market_QuoteToken configured) in
      match healthy (Evaluation_Snapshot evaluation (pp_valuationMarket s)) with
      | None => fail "valuation snapshot unavailable"
      | Some marketSnapshot =>
          match last (pp_notionals s) with
          | None => lift (Panic "index out of range")
          | Some largest =>
              input ← lift (ToTokenAmount largest quoteToken);
              quoted ← lift (valuation_quote (mkQuoteInput marketSnapshot (Token_ID quoteToken) (Token_ID base) input
                                                QuotePurposeResearchDiscovery (now ValuationQuoted)));
              _ ← Valuation_Observe (pp_valuationMarket s) quoted quoteToken base (now ValuationObserved);
              taken ValuationTaken
          end
      end
  end.

Definition on_error {S A} (m : ST S A) (otherwise : ST S A) : ST S A :=
  outcome ← try m;
  match outcome with Err _ => otherwise | _ => lift outcome end.

Definition valuation (evaluation : Evaluation D) : ST BaseValuationCache ValuationSnapshot :=
  on_error (taken ValuationChecked) (on_error (taken ValuationRechecked) (warm evaluation)).

(** *** One notional of one direction *)

Definition threshold (direction : Direction) (input : AssetQuantity) : res (AssetQuantity * AssetQuantity * AssetQuantity) :=
  let zero := or_zero (NewAssetQuantity (quantity_asset input) (Some (Q2Qc 0))) in
  match pp_directionalThresholds s !! direction with
  | Some threshold => Ok (threshold, zero, threshold)
  | None =>
      if decide (pp_thresholdBPS s = 0) then Ok (pp_legacyThreshold s, zero, pp_legacyThreshold s) else
      percentage ← NewAssetQuantity (quantity_asset input) (Some (Rat input * SetInt (pp_thresholdBPS s) / SetInt 10000)%Qc);
      Ok (pp_thresholdFixed s, percentage, if quantityGreater percentage (pp_thresholdFixed s) then percentage else pp_thresholdFixed s)
  end.

Definition conversion (evaluation : Evaluation D) (direction : Direction) : res (option QuoteConversionSnapshot) :=
  match reg_markets (pp_registry s) !! BuyMarket direction, reg_markets (pp_registry s) !! SellMarket direction with
  | Some buy, Some sell =>
      if decide (Market_QuoteToken buy = Market_QuoteToken sell \/ pp_requireQuoteConversion s = false) then Ok None else
      match QuoteConversion evaluation (Market_QuoteToken sell) (Market_QuoteToken buy) with
      | Some snapshot =>
          if decide (conversion_ValidAt snapshot (ev_startedAt evaluation)) then Ok (Some snapshot)
          else Err (Errorf "quote conversion %s -> %s is unavailable")
      | None => Err (Errorf "quote conversion %s -> %s is unavailable")
      end
  | _, _ => Err (Errorf "quote conversion markets are unavailable")
  end.

Definition prefundedQuoteFailure (e : error) : string :=
  if RateLimited e then "remote_rate_limited" else "provider_or_quote_unavailable".

(** Limits that no cost and no exposure reaches. *)
Definition huge (asset : AssetID) : AssetQuantity := or_zero (NewAssetQuantity asset (Some (SetInt (10 ^ 30)))).
Definition huge_base (valuation : ValuationSnapshot) (hugeCost : AssetQuantity) : AssetQuantity :=
  or_zero (NewAssetQuantity (val_base valuation) (Some (Rat hugeCost))).

(** The snapshots of the setup's markets, in its order. *)
Definition setup_snapshots (evaluation : Evaluation D) : list (MarketID * MarketSnapshot D) :=
  omap (fun id => snapshot ← Evaluation_Snapshot evaluation id; Some (id, snapshot)) (setup_markets (pp_setup s)).

Definition live_request (evaluation : Evaluation D) (direction : Direction) (notional : AssetQuantity) (valuation : ValuationSnapshot)
    (cost effective : AssetQuantity) (conversion : option QuoteConversionSnapshot) : LiveEvaluationRequest D :=
  mkLiveEvaluationRequest (ev_id evaluation +:+ "/" +:+ BuyMarket direction) direction (list_to_map (setup_snapshots evaluation))
    notional valuation cost effective (huge (quantity_asset cost)) (huge_base valuation (huge (quantity_asset cost)))
    (ev_triggeredAt evaluation) conversion.

Definition live_candidate (notional : AssetQuantity) (cost : CostSnapshot) (fixed percentage effective : AssetQuantity)
    (valuation : ValuationSnapshot) (conversion : option QuoteConversionSnapshot) (live : LiveOpportunity) : Candidate :=
  mkCandidate notional notional (or_zero (AssetQuantity_Add notional (lo_GrossPnL live))) (lo_GrossPnL live) cost (lo_NetPnL live)
    fixed percentage effective (lo_BuyQuote live) (lo_SellQuote live) (Some valuation) conversion.

Definition candidate_cost (evaluation : Evaluation D) (direction : Direction) (notional : AssetQuantity) : option CostSnapshot :=
  match pp_candidateCost s with
  | None => Some (CostFor evaluation direction)
  | Some cost => cost direction notional (ev_startedAt evaluation)
  end.

(** The candidate of one size; the text of an error is the reason. *)
Definition sized (evaluation : Evaluation D) (direction : Direction) (notional : AssetQuantity) (valuation : ValuationSnapshot) : res Candidate :=
  cost ← given (candidate_cost evaluation direction notional) "cost_cache_stale";
  '(fixed, percentage, effective) ← checked (threshold direction notional) (fun _ => false) "threshold_invalid";
  conversion ← checked (conversion evaluation direction) (fun _ => false) "quote_conversion_unavailable";
  match Live_Evaluate (pp_live s) (now (LiveQuoted direction notional)) (now (LiveNow direction notional))
          (live_request evaluation direction notional valuation (cost_Amount cost) effective conversion) with
  | Panic why => Panic why
  | Err e => Err (Errorf (prefundedQuoteFailure e))
  | Ok live => Ok (live_candidate notional cost fixed percentage effective valuation conversion live)
  end.

Definition sized_opportunity (evaluation : Evaluation D) (direction : Direction) (notional : AssetQuantity) (candidates : list Candidate)
    (selected : Z) (threshold : AssetQuantity) (classification : string) (reasons : list string) : Opportunity :=
  mkOpportunity (ev_id evaluation) (ev_run evaluation) (ev_configHash evaluation) (pp_id s) direction classification
    ((fun entry => snap_metadata entry.2) <$> setup_snapshots evaluation) candidates selected threshold reasons
    (default Trigger_zero (ev_trigger evaluation)) (bool_decide (ev_trigger evaluation <> None))
    (ev_triggeredAt evaluation) (ev_startedAt evaluation) (now (SizeFinished direction notional)).

Definition evaluateDirection (evaluation : Evaluation D) (direction : Direction) (notional : AssetQuantity) (valuation : ValuationSnapshot) :
    res Opportunity :=
  match sized evaluation direction notional valuation with
  | Panic why => Panic why
  | Err e => Ok (sized_opportunity evaluation direction notional [] (-1) AssetQuantity_zero ClassificationUnclassifiable [reason e])
  | Ok c =>
      let outcome := classify c in
      Ok (sized_opportunity evaluation direction notional [c] 0 (cd_EffectiveThreshold c) outcome.1 [outcome.2])
  end.

(** *** The sizes of one direction *)

Definition with_outcome (o : Opportunity) (candidates : list Candidate) (selected : Z) (threshold : AssetQuantity) (classification : string)
    (reasons : list string) (finishedAt : Time) : Opportunity :=
  mkOpportunity (op_Evaluation o) (op_Run o) (op_ConfigHash o) (op_Strategy o) (op_Direction o) classification (op_Snapshots o)
    candidates selected threshold reasons (op_Trigger o) (op_HasTrigger o) (op_TriggeredAt o) (op_StartedAt o) finishedAt.

Definition Opportunity_zero : Opportunity :=
  mkOpportunity "" "" "" "" (mkDirection "" "") "" [] [] 0 AssetQuantity_zero [] Trigger_zero false 0 0 0.

(** [var combined arbitrage.Opportunity; combined.SelectedIndex = -1]. *)
Definition no_selection (o : Opportunity) : Opportunity :=
  with_outcome o [] (-1) (op_Threshold o) (op_Classification o) (op_Reasons o) (op_FinishedAt o).

Record sizesState := mkSizesState { sz_combined : Opportunity; sz_bestQualified : Z; sz_capacityRejected : bool }.

Definition is_eligible (direction : Direction) (c : Candidate) : bool :=
  match pp_candidateEligible s with None => true | Some eligible => eligible direction c end.

Definition worthwhile (c : Candidate) : bool :=
  greaterOrEqual (cd_NetPnL c) (cd_EffectiveThreshold c) && bool_decide (0 < AssetQuantity_Sign (cd_NetPnL c)).

Definition set_candidates (o : Opportunity) (candidates : list Candidate) (selected : Z) : Opportunity :=
  with_outcome o candidates selected (op_Threshold o) (op_Classification o) (op_Reasons o) (op_FinishedAt o).

(** The candidate of a size joins the others. *)
Definition add_size (direction : Direction) (st : sizesState) (c : Candidate) : res sizesState :=
  let combined := sz_combined st in
  let index := Z.of_nat (length (op_Candidates combined)) in
  let candidates := op_Candidates combined ++ [c] in
  if negb (is_eligible direction c)
  then Ok (mkSizesState (set_candidates combined candidates (op_SelectedIndex combined)) (sz_bestQualified st) true) else
  overall ← beats candidates (op_SelectedIndex combined) c;
  let selected := if overall : bool then index else op_SelectedIndex combined in
  qualified ← (if worthwhile c then beats candidates (sz_bestQualified st) c else Ok false);
  Ok (mkSizesState (set_candidates combined candidates selected)
        (if qualified : bool then index else sz_bestQualified st) (sz_capacityRejected st)).

Definition combine_size (direction : Direction) (st : sizesState) (opportunity : Opportunity) : res sizesState :=
  let combined := if decide (op_Evaluation (sz_combined st) = "") then no_selection opportunity else sz_combined st in
  let st := mkSizesState combined (sz_bestQualified st) (sz_capacityRejected st) in
  match op_Candidates opportunity with
  | [] =>
      Ok (mkSizesState (with_outcome combined (op_Candidates combined) (op_SelectedIndex combined) (op_Threshold combined)
                          (op_Classification combined)
                          (if decide (op_Reasons combined = []) then op_Reasons opportunity else op_Reasons combined)
                          (op_FinishedAt combined))
            (sz_bestQualified st) (sz_capacityRejected st))
  | c :: _ => add_size direction st c
  end.

Definition conclude_sizes (direction : Direction) (st : sizesState) : res Opportunity :=
  let combined := sz_combined st in
  let finishedAt := now (SizesFinished direction) in
  if decide (op_SelectedIndex combined < 0) then
    Ok (with_outcome combined (op_Candidates combined) (op_SelectedIndex combined) (op_Threshold combined) ClassificationUnclassifiable
          (if sz_capacityRejected st then ["insufficient_local_balance"] else op_Reasons combined) finishedAt)
  else
    let index := if decide (0 <= sz_bestQualified st) then sz_bestQualified st else op_SelectedIndex combined in
    match op_Candidates combined !! Z.to_nat index with
    | None => Panic "index out of range"
    | Some selected =>
        Ok (with_outcome combined (op_Candidates combined) index (cd_EffectiveThreshold selected) (classify selected).1
              [(classify selected).2] finishedAt)
    end.

Definition evaluate_size (evaluation : Evaluation D) (direction : Direction) (valuation : ValuationSnapshot) (results : list Opportunity)
    (notional : AssetQuantity) : res (list Opportunity) :=
  result ← evaluateDirection evaluation direction notional valuation;
  Ok (results ++ [result]).

(** All sizes end before any is looked at; a cancelled context looks at none. *)
Definition evaluateDirectionSizes (evaluation : Evaluation D) (direction : Direction) (valuation : ValuationSnapshot) : res Opportunity :=
  results ← foldM (evaluate_size evaluation direction valuation) [] (pp_notionals s);
  st ← foldM (combine_size direction) (mkSizesState (no_selection Opportunity_zero) (-1) false)
         (match ctx_Err with Some _ => [] | None => results end);
  conclude_sizes direction st.

(** *** An evaluation *)

(** Errors of the cache are dropped. *)
Definition observe_one (o : Opportunity) : ST BaseValuationCache unit :=
  if decide (op_Candidates o = []) then mret tt else
  if decide (incomplete o) then mret tt else
  match op_Candidates o !! Z.to_nat (op_SelectedIndex o), reg_markets (pp_registry s) !! BuyMarket (op_Direction o) with
  | Some c, Some configured =>
      match reg_tokens (pp_registry s) !! Market_BaseToken configured, reg_tokens (pp_registry s) !! Market_QuoteToken configured with
      | Some base, Some quoteToken =>
          ignore (Valuation_Observe (BuyMarket (op_Direction o)) (cd_BuyQuote c) quoteToken base (now (Observed (op_Direction o))))
      | _, _ => mret tt
      end
  | _, _ => mret tt
  end.

Definition observe (opportunities : list Opportunity) : ST BaseValuationCache unit :=
  foldST (fun _ o => observe_one o) tt opportunities.

Definition unclassifiable (evaluation : Evaluation D) (why : string) : list Opportunity :=
  (fun direction =>
     mkOpportunity (ev_id evaluation) (ev_run evaluation) (ev_configHash evaluation) (pp_id s) direction ClassificationUnclassifiable
       [] [] (-1) AssetQuantity_zero [why] Trigger_zero false (ev_triggeredAt evaluation) (ev_startedAt evaluation)
       (now (Unclassified direction))) <$> setup_directions (pp_setup s).

(** The selection of the directions before keeps the best one. *)
Definition better (results : list Opportunity) (best : Z) (entry : nat * Opportunity) : res Z :=
  let '(index, o) := entry in
  if decide (op_SelectedIndex o < 0) then Ok best else
  c ← selected_candidate o;
  if decide (best < 0) then Ok (Z.of_nat index) else
  match results !! Z.to_nat best with
  | None => Panic "index out of range"
  | Some b =>
      bestCandidate ← selected_candidate b;
      Ok (if quantityGreater (cd_NetPnL c) (cd_NetPnL bestCandidate) then Z.of_nat index else best)
  end.

Definition demote (best : Z) (index : nat) (o : Opportunity) : Opportunity :=
  if decide (Z.of_nat index <> best /\ 0 <= op_SelectedIndex o)
  then with_outcome o (op_Candidates o) (-1) (op_Threshold o) ClassificationNoSpread ["lower_prefunded_net_pnl"] (op_FinishedAt o) else o.

Definition keep_best (results : list Opportunity) : res (list Opportunity) :=
  best ← foldM (better results) (-1) (imap pair results);
  Ok (imap (demote best) results).

Definition evaluate_sizes (evaluation : Evaluation D) (valuation : ValuationSnapshot) (results : list Opportunity) (direction : Direction) :
    res (list Opportunity) :=
  result ← evaluateDirectionSizes evaluation direction valuation;
  Ok (results ++ [result]).

Definition Prefunded_Evaluate (evaluation : Evaluation D) : ST BaseValuationCache (list Opportunity) :=
  if decide (ev_strategy evaluation <> pp_id s) then fail "evaluation targets strategy %q, expected %q" else
  valued ← try (valuation evaluation);
  match valued with
  | Panic why => lift (Panic why)
  | Err _ => mret (unclassifiable evaluation "valuation_unavailable")
  | Ok valuation =>
      results ← lift (foldM (evaluate_sizes evaluation valuation) [] (setup_directions (pp_setup s)));
      match ctx_Err with
      | Some e => lift (Err e)
      | None => _ ← observe results; lift (keep_best results)
      end
  end.

Definition EvaluatePinned (evaluation : Evaluation D) (direction : Direction) (size : AssetQuantity) : ST BaseValuationCache Opportunity :=
  match pp_notionals s with
  | [] => lift (Panic "index out of range")
  | notional :: _ =>
      if decide (quantity_asset size <> quantity_asset notional \/ AssetQuantity_Sign size <= 0)
      then fail "prefunded pinned size must use the configured quote asset" else
      valued ← try (valuation evaluation);
      match valued with
      | Panic why => lift (Panic why)
      | Err _ =>
          match unclassifiable evaluation "valuation_unavailable" with
          | [] => lift (Panic "index out of range")
          | o :: _ => mret o
          end
      | Ok valuation =>
          opportunity ← lift (evaluateDirection evaluation direction size valuation);
          _ ← observe [opportunity];
          mret opportunity
      end
  end.

(** *** Revaluation *)

Definition revalue_request (direction : Direction) (candidate : Candidate) (valuation : ValuationSnapshot)
    (snapshots : gmap MarketID (MarketSnapshot D)) (at_ : Time) : LiveEvaluationRequest D :=
  let hugeCost := huge (quantity_asset (cost_Amount (cd_Cost candidate))) in
  mkLiveEvaluationRequest "research-validation" direction snapshots (cd_Input candidate) valuation (cost_Amount (cd_Cost candidate))
    (cd_EffectiveThreshold candidate) hugeCost (huge_base valuation hugeCost) at_ (cd_QuoteConversion candidate).

Definition RevalueCandidate (direction : Direction) (candidate : Candidate) (buy sell : Quote)
    (snapshots : gmap MarketID (MarketSnapshot D)) (at_ : Time) : res Candidate :=
  match cd_Valuation candidate with
  | None => Err (Errorf "prefunded candidate valuation is missing")
  | Some valuation =>
      valued ← Value (pp_live s) (now Revalued) (revalue_request direction candidate valuation snapshots at_) buy sell at_;
      output ← AssetQuantity_Add (cd_Input candidate) (lo_GrossPnL valued);
      Ok (mkCandidate (cd_Size candidate) (cd_Input candidate) output (lo_GrossPnL valued) (cd_Cost candidate) (lo_NetPnL valued)
            (cd_FixedThreshold candidate) (cd_PercentageThreshold candidate) (cd_EffectiveThreshold candidate) buy sell
            (cd_Valuation candidate) (cd_QuoteConversion candidate))
  end.

(** ** Candidates are the live evaluator's valuations *)

Lemma quantityGreater_greater : quantityGreater = greater.
Proof using Type. reflexivity. Qed.

(** The result of a request at two quotes. *)
Record exact_result (request : LiveEvaluationRequest D) (buy sell : Quote) (gross net : AssetQuantity) : Prop := {
  er_exact : exists tokens price, live_tokens (pp_live s) (lr_Direction request) = Ok tokens /\
    val_price (lr_Valuation request) = Some price /\
    Rat gross = (quote_delta request tokens buy sell + base_delta tokens buy sell * price)%Qc;
  er_net : Rat net = (Rat gross - Rat (lr_Cost request))%Qc;
  er_assets : quantity_asset gross = val_quote (lr_Valuation request) /\ quantity_asset net = val_quote (lr_Valuation request) /\
    quantity_asset (lr_Notional request) = val_quote (lr_Valuation request) /\ val_quote (lr_Valuation request) <> "" }.

Lemma Value_exact_result at_ request buy sell validatedAt o :
  Value (pp_live s) at_ request buy sell validatedAt = Ok o ->
  exact_result request buy sell (lo_GrossPnL o) (lo_NetPnL o) /\ lo_BuyQuote o = buy /\ lo_SellQuote o = sell.
Proof using Type.
  intros H. apply Value_valued in H as (tokens & price & Ht & [_ Hp Ha Hb Hv (block & gross & Ho & Hg & _)]). subst o. cbn.
  split; [|done]. split; cbn; [by exists tokens, price|done|]. do 2 (split; [done|]).
  destruct (assets_consistent request tokens Ha) as (_ & Hc & _). split.
  - unfold assets_inconsistent in Ha. apply Decidable.not_or in Ha as [Hn Ha]. apply Decidable.not_or in Ha as [Hn2 Ha].
    apply dec_stable in Hn, Hn2. congruence.
  - unfold LiveOpportunity_Validate in Hv. do 2 (destruct (decide _) in Hv; [done|]). destruct (decide _) as [|Hex] in Hv; [done|].
    unfold live_quantities in Hex. rewrite Exists_cons in Hex. cbn in Hex. by apply Decidable.not_or in Hex as [? _].
Qed.

Record prefunded_valued (evaluation : Evaluation D) (direction : Direction) (valuation : ValuationSnapshot) (notional : AssetQuantity)
    (c : Candidate) : Prop := {
  pv_inputs : cd_Size c = notional /\ cd_Input c = notional;
  pv_cost : candidate_cost evaluation direction notional = Some (cd_Cost c);
  pv_thresholds : threshold direction notional = Ok (cd_FixedThreshold c, cd_PercentageThreshold c, cd_EffectiveThreshold c);
  pv_conversion : conversion evaluation direction = Ok (cd_QuoteConversion c);
  pv_valuation : cd_Valuation c = Some valuation;
  pv_result : exact_result (live_request evaluation direction notional valuation (cost_Amount (cd_Cost c)) (cd_EffectiveThreshold c)
      (cd_QuoteConversion c)) (cd_BuyQuote c) (cd_SellQuote c) (cd_GrossPnL c) (cd_NetPnL c);
  pv_output : Rat (cd_Output c) = (Rat notional + Rat (cd_GrossPnL c))%Qc }.

Lemma sized_valued evaluation direction notional valuation c :
  sized evaluation direction notional valuation = Ok c -> prefunded_valued evaluation direction valuation notional c.
Proof using Type.
  unfold sized. intros H. apply bind_Ok in H as (cost & Hcost & H).
  unfold given in Hcost. destruct (candidate_cost _ _ _) as [cost'|] eqn:Hc; [|done]. injection Hcost as ->.
  apply bind_Ok in H as ([[fixed percentage] effective] & Ht & H). apply checked_Ok in Ht as [Ht _].
  apply bind_Ok in H as (conv & Hconv & H). apply checked_Ok in Hconv as [Hconv _].
  destruct (Live_Evaluate _ _ _ _) as [live|e|why] eqn:Hl; [|done..]. injection H as <-.
  apply Live_Evaluate_Value in Hl as (_ & buy & sell & _ & _ & _ & Hv). apply Value_exact_result in Hv as (Hr & <- & <-).
  split; cbn; try done. destruct (er_assets _ _ _ _ _ Hr) as (Hg & _ & Hn & Hne). cbn in Hg, Hn, Hne.
  unfold AssetQuantity_Add, NewAssetQuantity. rewrite decide_False by (rewrite Hg, Hn; intros []; done).
  by rewrite decide_False by congruence.
Qed.

(** A revaluation at two validated quotes keeps the size, the input, the cost,
    the thresholds and the valuation of the candidate; its gross result is exactly
    the quote delta plus the base delta at the candidate's valuation price, its net
    result is the gross less the cost, and its output the input plus the gross.
    Quotes for other amounts than the fixed inputs are refused. *)
Theorem RevalueCandidate_exact direction candidate buy sell snapshots at_ c :
  RevalueCandidate direction candidate buy sell snapshots at_ = Ok c ->
  exists valuation fixed, cd_Valuation candidate = Some valuation /\
    let request := revalue_request direction candidate valuation snapshots at_ in
    exact_result request buy sell (cd_GrossPnL c) (cd_NetPnL c) /\
    Rat (cd_Output c) = (Rat (cd_Input candidate) + Rat (cd_GrossPnL c))%Qc /\
    inputs (pp_live s) request = Ok fixed /\
    Units (q_AmountIn buy) = Units (li_buyInput fixed) /\ Units (q_AmountIn sell) = Units (li_sellInput fixed) /\
    cd_BuyQuote c = buy /\ cd_SellQuote c = sell /\ cd_Size c = cd_Size candidate /\ cd_Input c = cd_Input candidate /\
    cd_Cost c = cd_Cost candidate /\ cd_EffectiveThreshold c = cd_EffectiveThreshold candidate /\ cd_Valuation c = Some valuation.
Proof using Type.
  unfold RevalueCandidate. destruct (cd_Valuation candidate) as [valuation|] eqn:Hval; [|done]. intros H.
  apply bind_Ok in H as (live & Hv & H). apply bind_Ok in H as (output & Hout & [= <-]).
  apply Value_exact_result in Hv as Hr. destruct Hr as (Hr & _ & _).
  apply Value_valued in Hv as (tokens & price & _ & [(fixed & Hf & _ & _ & Hb & _ & Hs) _ _ _ _ _]).
  exists valuation, fixed. split; [done|]. cbv zeta. cbn. split; [done|]. apply AssetQuantity_Add_inv in Hout as (_ & _ & ->).
  done.
Qed.

(** ** The best size of a direction *)

Definition worthy (direction : Direction) (c : Candidate) : Prop := is_eligible direction c = true /\ worthwhile c = true.

Record sizes_ok (direction : Direction) (asset : AssetID) (st : sizesState) : Prop := {
  zo_asset : in_asset asset (op_Candidates (sz_combined st));
  zo_overall : best_index (fun c => is_eligible direction c = true) prefers (op_Candidates (sz_combined st)) (op_SelectedIndex (sz_combined st));
  zo_qualified : best_index (worthy direction) prefers (op_Candidates (sz_combined st)) (sz_bestQualified st) }.

Lemma add_size_ok direction asset st c :
  sizes_ok direction asset st -> quantity_asset (cd_NetPnL c) = asset ->
  exists st', add_size direction st c = Ok st' /\ sizes_ok direction asset st' /\
    op_Candidates (sz_combined st') = op_Candidates (sz_combined st) ++ [c] /\ op_Evaluation (sz_combined st') = op_Evaluation (sz_combined st) /\
    op_Direction (sz_combined st') = op_Direction (sz_combined st).
Proof using Type.
  intros [Ha Ho Hq] Hc. unfold add_size. cbv zeta.
  assert (in_asset asset (op_Candidates (sz_combined st) ++ [c])) as Ha' by (apply Forall_app; by split; [|constructor]).
  destruct (is_eligible direction c) eqn:He; cbn [negb].
  2: { eexists. split; [done|]. split; [|done]. split; cbn; [done|..]; apply best_index_skip; try done; [by rewrite He|].
       unfold worthy. rewrite He. by intros []. }
  destruct (beats_best asset _ _ _ c Ha Hc Ho He) as (b & -> & Ho'). cbn [mbind res_bind].
  destruct (worthwhile c) eqn:Hw.
  - destruct (beats_best asset (worthy direction) _ _ c Ha Hc Hq (conj He Hw)) as (b' & -> & Hq'). cbn [mbind res_bind]. eexists. split; [done|].
    by split.
  - cbn [mbind res_bind]. eexists. split; [done|]. split; [|done]. split; cbn; [done..|].
    apply best_index_skip; [|done]. unfold worthy. rewrite Hw. by intros [].
Qed.

(** The opportunity of one size. *)
Definition sized_result (evaluation : Evaluation D) (direction : Direction) (valuation : ValuationSnapshot) (o : Opportunity) : Prop :=
  op_Evaluation o = ev_id evaluation /\ op_Direction o = direction /\
  (op_Candidates o = [] \/ exists notional c, notional ∈ pp_notionals s /\ op_Candidates o = [c] /\
     prefunded_valued evaluation direction valuation notional c).

(** The state before the first size, or after some. *)
Definition sizes_state (evaluation : Evaluation D) (direction : Direction) (valuation : ValuationSnapshot) (st : sizesState) : Prop :=
  sizes_ok direction (val_quote valuation) st /\
  Forall (fun c => exists notional, notional ∈ pp_notionals s /\ prefunded_valued evaluation direction valuation notional c)
    (op_Candidates (sz_combined st)) /\
  (op_Evaluation (sz_combined st) = "" -> op_Candidates (sz_combined st) = [] /\ sz_bestQualified st = -1) /\
  (op_Evaluation (sz_combined st) <> "" -> op_Direction (sz_combined st) = direction).

Lemma sizes_ok_nil direction asset st :
  op_Candidates (sz_combined st) = [] -> op_SelectedIndex (sz_combined st) = -1 -> sz_bestQualified st = -1 -> sizes_ok direction asset st.
Proof using Type. intros Hc Hs Hb. split; rewrite Hc, ?Hs, ?Hb; [constructor|apply best_index_nil..]. Qed.

Lemma combine_size_ok evaluation direction valuation st o st' :
  ev_id evaluation <> "" -> sizes_state evaluation direction valuation st -> sized_result evaluation direction valuation o ->
  combine_size direction st o = Ok st' -> sizes_state evaluation direction valuation st' /\ op_Evaluation (sz_combined st') <> "".
Proof using Type.
  intros Hid (Hok & Hall & Hzero & Hdir) (Hev & Hd & Hc). unfold combine_size. cbv zeta.
  set (combined := if decide (op_Evaluation (sz_combined st) = "") then no_selection o else sz_combined st).
  set (st1 := mkSizesState combined (sz_bestQualified st) (sz_capacityRejected st)).
  assert (sizes_ok direction (val_quote valuation) st1 /\ op_Candidates combined = op_Candidates (sz_combined st) /\
    op_Evaluation combined <> "" /\ op_Direction combined = direction) as (Hok1 & Hcs & Hne & Hd1).
  { unfold st1, combined. destruct (decide _) as [He|He]; [|by destruct st; auto]. destruct (Hzero He) as [-> Hb].
    split; [by apply sizes_ok_nil|]. split; [done|]. split; [|done]. cbn. by rewrite Hev. }
  destruct Hc as [->|(notional & c & Hn & -> & Hv)].
  - intros [= <-]. split; [|done]. split; [by destruct Hok1|]. split; [cbn; by rewrite Hcs|]. cbn. by split.
  - intros H. destruct (add_size_ok direction (val_quote valuation) st1 c Hok1) as (st2 & Hadd & Hok2 & Hc2 & He2 & Hd2).
    { apply (er_assets _ _ _ _ _ (pv_result _ _ _ _ _ Hv)). }
    rewrite Hadd in H. injection H as <-. rewrite He2. cbn in *. split; [|done]. split; [done|]. rewrite Hc2, He2, Hd2. cbn. rewrite Hcs. split.
    + apply Forall_app. split; [done|]. constructor; [by exists notional|constructor].
    + by split.
Qed.

(** What the combined opportunity of a direction says. *)
Definition best_size (direction : Direction) (o : Opportunity) : Prop :=
  (op_SelectedIndex o = -1 /\ op_Classification o = ClassificationUnclassifiable /\
   Forall (fun c => is_eligible direction c = false) (op_Candidates o)) \/
  exists i selected, op_SelectedIndex o = Z.of_nat i /\ op_Candidates o !! i = Some selected /\ is_eligible direction selected = true /\
    op_Threshold o = cd_EffectiveThreshold selected /\ op_Classification o = (classify selected).1 /\
    (forall c, c ∈ op_Candidates o -> worthy direction c -> worthwhile selected = true /\ (net c <= net selected)%Qc) /\
    (worthwhile selected = false -> forall c, c ∈ op_Candidates o -> is_eligible direction c = true -> (net c <= net selected)%Qc).

Lemma conclude_sizes_ok direction asset st o :
  sizes_ok direction asset st -> conclude_sizes direction st = Ok o ->
  best_size direction o /\ op_Candidates o = op_Candidates (sz_combined st) /\ op_Direction o = op_Direction (sz_combined st).
Proof using Type.
  intros [_ Ho Hq]. unfold conclude_sizes. cbv zeta. destruct (decide (op_SelectedIndex _ < 0)) as [Hn|Hp].
  - intros [= <-]. split; [|done]. left. cbn. destruct Ho as [[Hneg Hall]|(i & a & Hi & _)]; [|lia]. split; [done|]. split; [done|].
    eapply Forall_impl; [exact Hall|]. intros c. apply not_true_is_false.
  - assert (forall index selected, op_Candidates (sz_combined st) !! Z.to_nat index = Some selected -> 0 <= index ->
      is_eligible direction selected = true ->
      (forall c, c ∈ op_Candidates (sz_combined st) -> worthy direction c -> worthwhile selected = true /\ (net c <= net selected)%Qc) ->
      (worthwhile selected = false -> forall c, c ∈ op_Candidates (sz_combined st) -> is_eligible direction c = true -> (net c <= net selected)%Qc) ->
      best_size direction (with_outcome (sz_combined st) (op_Candidates (sz_combined st)) index (cd_EffectiveThreshold selected)
        (classify selected).1 [(classify selected).2] (now (SizesFinished direction)))) as Hsel.
    { intros index selected Hl Hi He Hw Hb. right. exists (Z.to_nat index), selected. cbn. rewrite Z2Nat.id by done. done. }
    destruct (decide (0 <= sz_bestQualified st)) as [Hw|Hw].
    + pose proof Hq as [[? _]|(i & a & Heq & Hi & [Ha1 Ha2] & _)]; [lia|]. rewrite Heq in *.
      rewrite Nat2Z.id, Hi. intros [= <-]. split; [|done]. apply Hsel; [by rewrite Nat2Z.id|lia|done| |by rewrite Ha2].
      intros c Hc Hcw. split; [done|]. by apply (best_index_max _ _ _ _ Hq Hi).
    + pose proof Ho as [[? _]|(i & a & Heq & Hi & Ha & _)]; [lia|]. rewrite Heq in *. rewrite Nat2Z.id, Hi.
      assert (Forall (fun c => ~ worthy direction c) (op_Candidates (sz_combined st))) as Hnone by (destruct Hq as [[_ ?]|(j & ? & ? & _)]; [done|lia]).
      intros [= <-]. split; [|done]. apply Hsel; [by rewrite Nat2Z.id|lia|done|..].
      * intros c Hc Hcw. rewrite Forall_forall in Hnone. by destruct (Hnone c Hc).
      * intros _ c Hc He. by apply (best_index_max _ _ _ _ Ho Hi).
Qed.

Definition valued_candidates (evaluation : Evaluation D) (direction : Direction) (valuation : ValuationSnapshot) (o : Opportunity) : Prop :=
  Forall (fun c => exists notional, notional ∈ pp_notionals s /\ prefunded_valued evaluation direction valuation notional c) (op_Candidates o).

Lemma evaluateDirection_result evaluation direction notional valuation o :
  notional ∈ pp_notionals s -> evaluateDirection evaluation direction notional valuation = Ok o ->
  sized_result evaluation direction valuation o.
Proof using Type.
  intros Hn. unfold evaluateDirection. destruct (sized _ _ _ _) as [c|e|why] eqn:Hs; intros [= <-]; (split; [done|]; split; [done|]); [right|by left].
  exists notional, c. split; [done|]. split; [done|]. by apply sized_valued.
Qed.

Lemma combine_sizes_ok evaluation direction valuation results st st' :
  ev_id evaluation <> "" -> Forall (sized_result evaluation direction valuation) results ->
  sizes_state evaluation direction valuation st -> foldM (combine_size direction) st results = Ok st' ->
  sizes_state evaluation direction valuation st' /\ (results <> [] -> op_Evaluation (sz_combined st') <> "").
Proof using Type.
  intros Hid. revert st. induction results as [|o results IH]; intros st Hall Hst; cbn [foldM]; [by intros [= <-]|].
  intros H. apply bind_Ok in H as (st1 & H1 & H). apply Forall_cons in Hall as [Ho Hall].
  destruct (combine_size_ok evaluation direction valuation st o st1 Hid Hst Ho H1) as [Hst1 Hne].
  destruct (IH st1 Hall Hst1 H) as [Hst' Hne']. split; [done|]. intros _. destruct results; [by injection H as <-|by apply Hne'].
Qed.

Definition direction_best (evaluation : Evaluation D) (valuation : ValuationSnapshot) (direction : Direction) (o : Opportunity) : Prop :=
  op_Direction o = direction /\ best_size direction o /\ valued_candidates evaluation direction valuation o.

Lemma evaluateDirectionSizes_ok evaluation direction valuation o :
  ev_id evaluation <> "" -> pp_notionals s <> [] -> ctx_Err = None ->
  evaluateDirectionSizes evaluation direction valuation = Ok o -> direction_best evaluation valuation direction o.
Proof using Type.
  intros Hid Hn Hctx H. unfold evaluateDirectionSizes in H. rewrite Hctx in H. apply bind_Ok in H as (results & Hr & H).
  apply (collect_ok (fun notional => evaluateDirection evaluation direction notional valuation)
    (fun _ o => sized_result evaluation direction valuation o)) in Hr as (new & -> & Hnew);
    [|intros a b Ha; by apply evaluateDirection_result].
  apply bind_Ok in H as (st & Hst & H). cbn [app] in Hst.
  assert (Forall (sized_result evaluation direction valuation) new) as Hall by (clear -Hnew; induction Hnew; by constructor).
  apply (combine_sizes_ok evaluation direction valuation) in Hst as [(Hok & Hv & _ & Hd) Hne]; [|done..|].
  - destruct (conclude_sizes_ok direction _ _ _ Hok H) as (Hb & Hc & Hdo). split; [|split; [done|]].
    + rewrite Hdo. apply Hd, Hne. intros ->. apply Forall2_length in Hnew. by destruct (pp_notionals s).
    + unfold valued_candidates. by rewrite Hc.
  - split; [by apply sizes_ok_nil|]. split; [constructor|]. by split.
Qed.

(** ** The best direction *)

(** The candidate an opportunity has selected. *)
Definition chosen (o : Opportunity) (c : Candidate) : Prop :=
  0 <= op_SelectedIndex o /\ op_Candidates o !! Z.to_nat (op_SelectedIndex o) = Some c.

Lemma chosen_candidate o c : chosen o c -> selected_candidate o = Ok c.
Proof using Type. intros [_ H]. unfold selected_candidate. by rewrite H. Qed.

Lemma chosen_inj o c c' : chosen o c -> chosen o c' -> c = c'.
Proof using Type. intros [_ H] [_ H']. congruence. Qed.

(** A list of opportunities whose selections share an asset. *)
Definition comparable_selections (asset : AssetID) (results : list Opportunity) : Prop :=
  Forall (fun o => op_SelectedIndex o < 0 \/ exists c, chosen o c /\ quantity_asset (cd_NetPnL c) = asset) results.

Definition selects_some (entry : nat * Opportunity) : Prop := 0 <= op_SelectedIndex entry.2.
Definition not_better (_ : nat) (a : nat * Opportunity) (_ : nat) (b : nat * Opportunity) : Prop :=
  forall ca cb, chosen a.2 ca -> chosen b.2 cb -> (net cb <= net ca)%Qc.

Lemma better_step asset results before o best :
  comparable_selections asset results -> before ++ [(length before, o)] `prefix_of` imap pair results ->
  best_index selects_some not_better before best ->
  exists best', better results best (length before, o) = Ok best' /\ best_index selects_some not_better (before ++ [(length before, o)]) best'.
Proof using Type.
  intros Hcmp [rest Hpre] Hbest. rewrite <- app_assoc in Hpre. cbn [app] in Hpre.
  assert (forall i e, (before ++ [(length before, o)]) !! i = Some e -> results !! i = Some e.2 /\ e.1 = i) as Hlook.
  { intros i e Hi. assert (imap pair results !! i = Some e) as Hl.
    { rewrite Hpre. change (before ++ (length before, o) :: rest) with (before ++ [(length before, o)] ++ rest).
      rewrite app_assoc. by apply lookup_app_l_Some. }
    rewrite list_lookup_imap in Hl. destruct (results !! i) as [o'|]; [|done]. by injection Hl as <-. }
  assert (forall c c', quantity_asset (cd_NetPnL c) = asset -> quantity_asset (cd_NetPnL c') = asset ->
    quantityGreater (cd_NetPnL c) (cd_NetPnL c') = true <-> (net c' < net c)%Qc) as Hgt.
  { intros c c' H1 H2. rewrite quantityGreater_greater. apply greater_same. congruence. }
  unfold comparable_selections in Hcmp. rewrite Forall_lookup in Hcmp.
  unfold better. destruct (Hlook (length before) (length before, o)) as [Ho _]; [by apply list_lookup_middle|]. cbn in Ho.
  destruct (decide (op_SelectedIndex o < 0)) as [Hn|Hp].
  { exists best. split; [done|]. apply best_index_skip; [unfold selects_some; cbn; lia|done]. }
  destruct (Hcmp _ _ Ho) as [?|(c & Hc & Hca)]; [lia|]. rewrite (chosen_candidate o c Hc). cbn [mbind res_bind].
  assert (not_better (length before) (length before, o) (length before) (length before, o)) as Hself.
  { intros ca cb Ha Hb. cbn in *. rewrite (chosen_inj o ca cb) by done. apply Qcle_refl. }
  destruct (decide (best < 0)) as [Hneg|Hpos].
  - eexists. split; [done|]. destruct Hbest as [[_ Hall]|(i & ? & -> & _)]; [|lia]. apply best_index_new; [unfold selects_some; cbn; lia|done|].
    intros j b Hj Hb. rewrite Forall_lookup in Hall. by destruct (Hall _ _ Hj).
  - pose proof Hbest as [[-> _]|(i & a & -> & Hi & Ha & Hmax)]; [lia|]. rewrite Nat2Z.id.
    destruct (Hlook i a) as [Hra _]; [by apply lookup_app_l_Some|]. rewrite Hra.
    destruct (Hcmp _ _ Hra) as [?|(ca & Hca' & Haa)]; [unfold selects_some in Ha; lia|]. rewrite (chosen_candidate a.2 ca Hca'). cbn [mbind res_bind].
    eexists. split; [done|]. destruct (quantityGreater _ _) eqn:Hg.
    + apply Hgt in Hg; [|done..]. apply best_index_new; [unfold selects_some; cbn; lia|done|].
      intros j b Hj Hb cb1 cb2 Hc1 Hc2. cbn in Hc1. rewrite (chosen_inj o cb1 c) by done. apply Qcle_trans with (net ca).
      * by apply (Hmax j b Hj Hb ca cb2).
      * by apply Qclt_le_weak.
    + apply best_index_keep with a; [done| |done]. intros c1 c2 H1 H2. cbn in H2. rewrite (chosen_inj a.2 c1 ca), (chosen_inj o c2 c) by done.
      apply Qcnot_lt_le. intros Hlt. apply not_true_iff_false in Hg. apply Hg. by apply Hgt.
Qed.

Lemma keep_best_ok asset results :
  comparable_selections asset results ->
  exists best, keep_best results = Ok (imap (demote best) results) /\
    (best = -1 /\ Forall (fun o => op_SelectedIndex o < 0) results \/
     exists i o c, best = Z.of_nat i /\ results !! i = Some o /\ chosen o c /\
       forall o' c', o' ∈ results -> chosen o' c' -> (net c' <= net c)%Qc).
Proof using Type.
  intros Hcmp. unfold keep_best.
  assert (forall after before best, imap pair results = before ++ after -> best_index selects_some not_better before best ->
    exists best', foldM (better results) best after = Ok best' /\ best_index selects_some not_better (before ++ after) best') as Hfold.
  { induction after as [|[index o] after IH]; intros before best Heq Hb; cbn [foldM]; [exists best; by rewrite app_nil_r|].
    assert (index = length before) as ->.
    { assert (imap pair results !! length before = Some (index, o)) as Hl by (rewrite Heq; by apply list_lookup_middle).
      rewrite list_lookup_imap in Hl. destruct (results !! length before); [|done]. by injection Hl as <- _. }
    destruct (better_step asset results before o best Hcmp) as (best1 & -> & Hb1); [by exists after; rewrite <- app_assoc|done|].
    cbn [mbind res_bind]. destruct (IH (before ++ [(length before, o)]) best1) as (best' & -> & Hb'); [by rewrite <- app_assoc|done|].
    exists best'. split; [done|]. by rewrite <- app_assoc in Hb'. }
  destruct (Hfold (imap pair results) [] (-1)) as (best & -> & Hbest); [done|apply best_index_nil|]. cbn [mbind res_bind app] in *.
  exists best. split; [done|]. destruct Hbest as [[-> Hall]|(i & e & -> & Hi & He & Hmax)].
  - left. split; [done|]. apply Forall_lookup. intros i o Ho. rewrite Forall_lookup in Hall.
    apply Z.nle_gt. apply (Hall i (i, o)). by rewrite list_lookup_imap, Ho.
  - right. rewrite list_lookup_imap in Hi. destruct (results !! i) as [o|] eqn:Ho; [|done]. injection Hi as <-.
    unfold comparable_selections in Hcmp. rewrite Forall_lookup in Hcmp. unfold selects_some in He. cbn in He.
    destruct (Hcmp i o Ho) as [?|(c & Hc & _)]; [lia|]. exists i, o, c. split; [done|]. split; [done|]. split; [done|].
    intros o' c' [j Hj]%list_elem_of_lookup_1 Hc'. apply (Hmax j (j, o')); [by rewrite list_lookup_imap, Hj| |done..].
    unfold selects_some. cbn. by destruct Hc'.
Qed.

Lemma direction_best_comparable evaluation valuation d o :
  direction_best evaluation valuation d o ->
  op_SelectedIndex o < 0 \/ exists c, chosen o c /\ quantity_asset (cd_NetPnL c) = val_quote valuation.
Proof using Type.
  intros (_ & [[-> _]|(i & c & Hi & Hc & _)] & Hv); [by left|]. right. exists c. split; [split; rewrite Hi, ?Nat2Z.id; [lia|done]|].
  unfold valued_candidates in Hv. rewrite Forall_lookup in Hv. destruct (Hv i c Hc) as (n & _ & Hval).
  apply (er_assets _ _ _ _ _ (pv_result _ _ _ _ _ Hval)).
Qed.

(** A candidate that competes for its direction: it is worthwhile, or none is. *)
Definition competes (o : Opportunity) (c : Candidate) : Prop :=
  c ∈ op_Candidates o /\ is_eligible (op_Direction o) c = true /\
  (worthwhile c = true \/ forall c', c' ∈ op_Candidates o -> ~ worthy (op_Direction o) c').

Lemma best_size_competes o c :
  best_size (op_Direction o) o -> competes o c -> exists selected, chosen o selected /\ (net c <= net selected)%Qc.
Proof using Type.
  intros [(_ & _ & Hnone)|(i & selected & Hi & Hs & He & _ & _ & Hw & Hb)] (Hc & Hce & Hor).
  { rewrite Forall_forall in Hnone. by rewrite (Hnone c Hc) in Hce. }
  exists selected. split; [split; rewrite Hi, ?Nat2Z.id; [lia|done]|]. destruct Hor as [Hcw|Hno].
  - by apply (Hw c Hc).
  - apply Hb; [|done..]. apply not_true_is_false. intros Hsw. apply (Hno selected); [by eapply list_elem_of_lookup_2|done].
Qed.

(** The selections of an evaluation. *)
Record best_direction (evaluation : Evaluation D) (valuation : ValuationSnapshot) (opportunities : list Opportunity) : Prop := {
  bd_directions : op_Direction <$> opportunities = setup_directions (pp_setup s);
  bd_valued : Forall (fun o => valued_candidates evaluation (op_Direction o) valuation o) opportunities;
  bd_chosen : forall o c, o ∈ opportunities -> chosen o c ->
    is_eligible (op_Direction o) c = true /\ op_Threshold o = cd_EffectiveThreshold c /\ op_Classification o = (classify c).1 /\
    forall o' c', o' ∈ opportunities -> competes o' c' -> (net c' <= net c)%Qc;
  bd_single : forall i j o o', opportunities !! i = Some o -> opportunities !! j = Some o' ->
    0 <= op_SelectedIndex o -> 0 <= op_SelectedIndex o' -> i = j;
  bd_some : Forall (fun o => op_SelectedIndex o < 0) opportunities -> forall o c, o ∈ opportunities -> ~ competes o c }.

Lemma demote_cases best i o :
  (demote best i o = o /\ (Z.of_nat i = best \/ op_SelectedIndex o < 0)) \/
  (op_SelectedIndex (demote best i o) = -1 /\ op_Candidates (demote best i o) = op_Candidates o /\
   op_Direction (demote best i o) = op_Direction o).
Proof using Type. unfold demote. destruct (decide _) as [|Hn]; [by right|]. left. split; [done|]. lia. Qed.

Lemma keep_best_best evaluation valuation results opportunities :
  Forall2 (direction_best evaluation valuation) (setup_directions (pp_setup s)) results ->
  keep_best results = Ok opportunities -> best_direction evaluation valuation opportunities.
Proof using Type.
  intros Hres Hkeep.
  assert (Forall (fun o => direction_best evaluation valuation (op_Direction o) o) results) as Hall.
  { clear Hkeep. induction Hres as [|d o ds os Ho _ IH]; constructor; [|done]. destruct Ho as (<- & Ho). by split. }
  rewrite Forall_lookup in Hall.
  destruct (keep_best_ok (val_quote valuation) results) as (best & Hk & Hbest).
  { apply Forall_lookup. intros i o Ho. by eapply direction_best_comparable, Hall. }
  rewrite Hkeep in Hk. injection Hk as ->.
  assert (forall i o, imap (demote best) results !! i = Some o -> exists r, results !! i = Some r /\ o = demote best i r /\
    op_Direction o = op_Direction r /\ op_Candidates o = op_Candidates r) as Hlook.
  { intros i o Ho. rewrite list_lookup_imap in Ho. destruct (results !! i) as [r|]; [|done]. injection Ho as <-. exists r. do 2 (split; [done|]).
    destruct (demote_cases best i r) as [[-> _]|(_ & -> & ->)]; done. }
  assert (forall i o c, imap (demote best) results !! i = Some o -> competes o c ->
    exists r selected, results !! i = Some r /\ chosen r selected /\ (net c <= net selected)%Qc) as Hcomp.
  { intros i o c Ho Hc. destruct (Hlook i o Ho) as (r & Hr & _ & Hd & Hcs). destruct (Hall i r Hr) as (_ & Hb & _).
    destruct (best_size_competes r c Hb) as (selected & Hs & Hle); [unfold competes in *; by rewrite <- Hd, <- Hcs|]. by exists r, selected. }
  assert (forall i o, imap (demote best) results !! i = Some o -> 0 <= op_SelectedIndex o -> results !! i = Some o /\ Z.of_nat i = best) as Hsel.
  { intros i o Ho Hs. destruct (Hlook i o Ho) as (r & Hr & -> & _). destruct (demote_cases best i r) as [[He Hor]|(He & _)]; [|lia].
    rewrite He in *. split; [done|]. destruct Hor; [done|lia]. }
  split.
  - assert (op_Direction <$> results = setup_directions (pp_setup s)) as <-.
    { clear -Hres. induction Hres as [|d o ds os Ho _ IH]; [done|]. rewrite fmap_cons, IH. by destruct Ho as [-> _]. }
    apply list_eq. intros i. rewrite !list_lookup_fmap, list_lookup_imap. destruct (results !! i) as [o|]; [|done]. cbn. f_equal.
    destruct (demote_cases best i o) as [[-> _]|(_ & _ & ->)]; done.
  - apply Forall_lookup. intros i o Ho. destruct (Hlook i o Ho) as (r & Hr & _ & Hd & Hcs). destruct (Hall i r Hr) as (_ & _ & Hv).
    unfold valued_candidates in *. by rewrite Hd, Hcs.
  - intros o c [i Ho]%list_elem_of_lookup_1 Hc. destruct (Hsel i o Ho) as [Hr Hi]; [apply Hc|].
    destruct (Hall i o Hr) as (_ & [(Hneg & _)|(k & selected & Hk & Hks & He & Ht & Hcl & _)] & _); [destruct Hc; lia|].
    assert (selected = c) as -> by (destruct Hc as [_ Hc]; rewrite Hk, Nat2Z.id in Hc; congruence). do 3 (split; [done|]).
    intros o' c' [j Ho']%list_elem_of_lookup_1 Hc'. destruct (Hcomp j o' c' Ho' Hc') as (r' & s' & Hr' & Hs' & Hle).
    destruct Hbest as [[-> _]|(k' & ob & cb & Hkb & Hob & Hcb & Hmax)]; [lia|]. assert (k' = i) as -> by lia. rewrite Hr in Hob. injection Hob as <-.
    rewrite (chosen_inj o cb c) in * by done. apply Qcle_trans with (net s'); [done|]. apply (Hmax r'); [by eapply list_elem_of_lookup_2|done].
  - intros i j o o' Ho Ho' Hs Hs'. apply Hsel in Ho as [_ Ho]; [|done]. apply Hsel in Ho' as [_ Ho']; [|done]. lia.
  - intros Hnone o c [i Ho]%list_elem_of_lookup_1 Hc. destruct (Hcomp i o c Ho Hc) as (r & selected & Hr & [Hs _] & _).
    destruct Hbest as [[_ Hneg]|(k & ob & cb & -> & Hob & [Hcb _] & _)].
    + rewrite Forall_lookup in Hneg. specialize (Hneg i r Hr). cbn in Hneg. lia.
    + rewrite Forall_lookup in Hnone. specialize (Hnone k ob). rewrite list_lookup_imap, Hob in Hnone. cbn in Hnone.
      destruct (demote_cases (Z.of_nat k) k ob) as [[He _]|(He & _)]; [rewrite He in Hnone; specialize (Hnone eq_refl); lia|].
      unfold demote in He. rewrite decide_False in He by (intros []; done). lia.
Qed.

(** Unless the base asset cannot be valued, which makes every direction
    unclassifiable, an evaluation answers with one opportunity per direction of the
    setup.  Every candidate is the live evaluator's exact result at one of the
    notionals, with that size's cost and thresholds.  At most one opportunity keeps a
    selection: an eligible candidate, classified by its own result, that no
    competing candidate of any direction exceeds; and if there is no selection, no
    candidate competes in any direction. *)
Theorem Prefunded_Evaluate_selects evaluation c opportunities c' :
  ev_id evaluation <> "" -> pp_notionals s <> [] ->
  Prefunded_Evaluate evaluation c = (Ok opportunities, c') ->
  opportunities = unclassifiable evaluation "valuation_unavailable" \/
  exists taken c1, valuation evaluation c = (Ok taken, c1) /\ best_direction evaluation taken opportunities.
Proof using Type.
  intros Hid Hn. unfold Prefunded_Evaluate. destruct (decide _); [done|]. intros H.
  apply st_bind_Ok in H as (valued & c1 & Hval & H). apply try_Ok in Hval as [Hval _].
  destruct valued as [v|e|why]; [|injection H as <- _; by left|done]. right. exists v, c1. split; [done|].
  apply st_bind_Ok in H as (results & c2 & [= Hr <-] & H).
  destruct ctx_Err as [e|] eqn:Hctx; [done|]. apply st_bind_Ok in H as (u & c3 & _ & [= Hk _]).
  apply (collect_ok (fun d => evaluateDirectionSizes evaluation d v) (direction_best evaluation v)) in Hr as (new & -> & Hnew).
  - by apply keep_best_best with new.
  - intros d o _. by apply evaluateDirectionSizes_ok.
Qed.
End strategy.

(** ** A concrete evaluation *)

Module PrefundedWitness.
Import TwoMarketWitness.
#[local] Instance order : RangeOrder string := range_map_to_list string.

Definition quotes : gmap MarketID (QuoteInput bool -> res Quote) :=
  <["m1" := fixed_quote "s1" 1 2000]> {[ "m2" := fixed_quote "s2" 1 2040 ]}.
Definition live : LiveEvaluator bool := mkLiveEvaluator setup registry quotes.
(** The smaller size is not covered by the local balance. *)
Definition covered (_ : Direction) (c : Candidate) : bool := bool_decide (cd_Size c <> usd 2000).
Definition prefunded : PrefundedParallel bool :=
  mkPrefundedParallel "two" setup registry quotes [usd 2000; usd 4000] (usd 1) ∅ (usd 0) 0 "m1" live false (Some covered) None.
Definition cold : BaseValuationCache := mkBaseValuationCache "ETH" "USD" 0 ∅.
Definition clock (_ : reading) : Time := 9.
Definition run (e : Evaluation bool) : res (list Opportunity) * BaseValuationCache :=
  Prefunded_Evaluate clock None (fun _ => false) prefunded e cold.
Definition outcome : res (list Opportunity) * BaseValuationCache := run (evaluation 1).

(** The larger size is selected, and its price is learnt. *)
Lemma prefunded_strategy_witness :
  exists o1 o2 c taken, outcome.1 = Ok [o1; o2] /\ chosen o1 c /\ cd_Size c = usd 4000 /\ op_SelectedIndex o2 = -1 /\
    op_Classification o1 = ClassificationPolicyQualified /\
    best_direction prefunded (evaluation 1) taken [o1; o2].
Proof.
  assert (match outcome.1 with
          | Ok [o1; o2] => bool_decide (op_SelectedIndex o1 = 1 /\ op_SelectedIndex o2 = -1 /\ length (op_Candidates o1) = 2%nat /\
              cd_Size <$> op_Candidates o1 !! 1%nat = Some (usd 4000) /\ op_Classification o1 = ClassificationPolicyQualified /\
              op_Reasons o1 <> ["valuation_unavailable"])
          | _ => false end = true) as Hrun by (vm_compute; reflexivity).
  destruct outcome as [[[|o1 [|o2 [|o3 l]]]|e|why] c'] eqn:Hout; [discriminate Hrun..| |discriminate Hrun|discriminate Hrun|discriminate Hrun].
  apply bool_decide_eq_true in Hrun as (H1 & H2 & Hlen & Hsize & Hp & Hwhy).
  destruct (op_Candidates o1 !! 1%nat) as [c|] eqn:Hc; [|discriminate Hsize]. injection Hsize as Hsize.
  destruct (Prefunded_Evaluate_selects clock None (fun _ => false) prefunded (evaluation 1) cold [o1; o2] c') as [He|(taken & c1 & _ & Hb)];
    [discriminate|discriminate|exact Hout| |].
  - exfalso. apply Hwhy. injection He as -> _. reflexivity.
  - exists o1, o2, c, taken. split; [reflexivity|]. split; [split; rewrite H1; [discriminate|exact Hc]|]. split; [exact Hsize|].
    split; [exact H2|]. split; [exact Hp|exact Hb].
Defined.

(** When the base asset cannot be valued, a pinned evaluation answers with the
    first direction of the setup instead of the one it was asked for. *)
Definition degraded (id : MarketID) : MarketSnapshot bool :=
  mkMarketSnapshot (mkSnapshotMetadata id "rpc" 1 (mkSourcePosition "" 0) (mkSourceReference "" "") "" 0 false 1 1
    HealthDegraded "stale" 1 "state") (Some true).
Definition blind : Evaluation bool := mkEvaluation "e" "run" "two" "hash" [degraded "m1"; snapshot "m2" 1] cost ∅ ∅ None 3 4.
Example pinned_other_direction :
  op_Direction <$> res_opt (EvaluatePinned clock (fun _ => false) prefunded blind (mkDirection "m2" "m1") (usd 4000) cold).1 =
  Some (mkDirection "m1" "m2").
Proof. vm_compute. reflexivity. Qed.

Definition first_candidate : res Candidate :=
  match outcome.1 with Ok (o :: _) => selected_candidate o | _ => Err (Errorf "no candidate") end.
Definition snapshots : gmap MarketID (MarketSnapshot bool) := <["m1" := snapshot "m1" 2]> {[ "m2" := snapshot "m2" 2 ]}.
Definition revalued : res Candidate :=
  c ← first_candidate; RevalueCandidate clock prefunded (mkDirection "m1" "m2") c (cd_BuyQuote c) (cd_SellQuote c) snapshots 12.

(** The same quotes give the same result. *)
Lemma revalue_witness :
  exists candidate c, first_candidate = Ok candidate /\ cd_NetPnL c = cd_NetPnL candidate /\ cd_BuyQuote c = cd_BuyQuote candidate /\
    (exists valuation, exact_result prefunded (revalue_request (mkDirection "m1" "m2") candidate valuation snapshots 12)
       (cd_BuyQuote candidate) (cd_SellQuote candidate) (cd_GrossPnL c) (cd_NetPnL c)).
Proof.
  assert (match first_candidate, revalued with
          | Ok candidate, Ok c => bool_decide (cd_NetPnL c = cd_NetPnL candidate)
          | _, _ => false end = true) as Hrun by (vm_compute; reflexivity).
  unfold revalued in Hrun. destruct first_candidate as [candidate|e|why]; [|discriminate Hrun..]. cbn [mbind res_bind] in Hrun.
  destruct (RevalueCandidate clock prefunded (mkDirection "m1" "m2") candidate (cd_BuyQuote candidate) (cd_SellQuote candidate) snapshots 12)
    as [c|e|why] eqn:Hr; [|discriminate Hrun..]. apply bool_decide_eq_true in Hrun.
  destruct (RevalueCandidate_exact clock prefunded (mkDirection "m1" "m2") candidate (cd_BuyQuote candidate) (cd_SellQuote candidate)
    snapshots 12 c Hr) as (valuation & fixed & _ & Hres & _ & _ & _ & _ & Hb & _).
  exists candidate, c. split; [reflexivity|]. split; [exact Hrun|]. split; [exact Hb|]. exists valuation. exact Hres.
Defined.
End PrefundedWitness.
