(* ===== verification/Split.v ===== *)
(** * The split optimizer (src/core/sizing/split.go)

    Integer allocation of an input over direct curves and a two-stage branch.
    Curves are immutable exact-input functions supplied by the caller
    ([Quote]); memoisation, the evaluation cache and the counters are explicit
    state, so the theorems hold of the program with its caches.  A cancelled
    context makes [ctx.Err] return an error; within one call it is the fixed
    parameter [ctx_Err]. *)
From S2P Require Import Prelude Amount Quote.

(** [Quote] returns a possibly nil integer or an error; a nil function is
    [None]. *)
Record SplitCurve := mkSplitCurve {
  curve_ID : string; curve_Quote : option (Z -> res (option Z)) }.

Record SplitAllocation := mkSplitAllocation {
  sa_CurveID : string; sa_AmountIn : Z; sa_AmountOut : Z }.

Record SplitMetrics := mkSplitMetrics {
  m_CurveEvaluations : Z; m_CurveCacheHits : Z; m_ObjectiveEvaluations : Z;
  m_ObjectiveCacheHits : Z; m_SecondStageSolves : Z; m_CoordinateSweeps : Z }.

Record TwoStageSplitRequest := mkTwoStageSplitRequest {
  rq_TotalInput : option Z; rq_Direct : list SplitCurve; rq_FirstStage : list SplitCurve;
  rq_SecondStage : list SplitCurve; rq_MaxSweeps : Z; rq_MaxStarts : Z;
  rq_Neighborhood : Z; rq_ExhaustiveLimit : Z }.

Record TwoStageSplitResult := mkTwoStageSplitResult {
  rs_Direct : list SplitAllocation; rs_FirstStage : list SplitAllocation;
  rs_SecondStage : list SplitAllocation; rs_TotalInput : Z; rs_IntermediateOut : Z;
  rs_TotalOutput : Z; rs_InputResolution : Z; rs_GridDivisions : Z;
  rs_GridVerified : bool; rs_PairwiseOptimal : bool; rs_GloballyVerified : bool;
  rs_Metrics : SplitMetrics }.

(** ** Memoised curves *)

Record memoCurve := mkMemoCurve {
  mc_id : string; mc_quote : Z -> res (option Z); mc_cached : bool }.

(** The mutable part of a curve, kept by curve identity. *)
Record memo := mkMemo { memo_cache : gmap string Z; memo_calls : Z; memo_hits : Z }.
Definition memo_empty : memo := mkMemo ∅ 0 0.
Abbreviation memos := (gmap string memo) (only parsing).
Definition memo_of (s : memos) (c : memoCurve) : memo := default memo_empty (s !! mc_id c).

Definition memo_hit (c : memoCurve) (s : memos) : memos :=
  let m := memo_of s c in
  <[mc_id c := mkMemo (memo_cache m) (memo_calls m) (memo_hits m + 1)]> s.
Definition memo_store (c : memoCurve) (key : string) (value : Z) (s : memos) : memos :=
  let m := memo_of s c in
  <[mc_id c := mkMemo (if mc_cached c then <[key := value]> (memo_cache m) else memo_cache m)
                 (memo_calls m + 1) (memo_hits m)]> s.

(** [copyCurves[i].ID < copyCurves[j].ID]. *)
Definition curve_le (a b : SplitCurve) : Prop := String.le (curve_ID a) (curve_ID b).
#[export] Instance curve_le_dec : RelDecision curve_le.
Proof. intros a b. unfold curve_le. apply _. Defined.

Fixpoint newCurves_loop (copyCurves : list SplitCurve) (cacheEnabled : bool) : res (list memoCurve) :=
  match copyCurves with
  | [] => Ok []
  | curve :: rest =>
      match curve_Quote curve with
      | None => Err (Errorf "curve %d requires ID and quote function")
      | Some quote =>
          if blank (curve_ID curve)
          then Err (Errorf "curve %d requires ID and quote function") else
          curves ← newCurves_loop rest cacheEnabled;
          Ok (mkMemoCurve (curve_ID curve) quote cacheEnabled :: curves)
      end
  end.

Definition newCurves (configured : list SplitCurve) (cacheEnabled : bool) : res (list memoCurve) :=
  newCurves_loop (merge_sort curve_le configured) cacheEnabled.

Definition newMemoCurves (configured : list SplitCurve) : res (list memoCurve) :=
  newCurves configured true.
Definition newUncachedCurves (configured : list SplitCurve) : res (list memoCurve) :=
  newCurves configured false.

Definition uniqueCurveIDs (groups : list (list memoCurve)) : res unit :=
  _ ← foldM (fun (seen : gset string) curve =>
        if decide (mc_id curve ∈ seen) then Err (Errorf "duplicate split curve ID %q")
        else Ok ({[ mc_id curve ]} ∪ seen)) ∅ (concat groups);
  Ok tt.

(** [c.quote] and its error handling: an output that rounds to zero is zero. *)
Definition quote_value (c : memoCurve) (amount : Z) : res Z :=
  match mc_quote c amount with
  | Panic why => Panic why
  | Err e => if errors_Is e "ErrQuoteOutputRoundsToZero" then Ok 0
             else Err (Wrapf "quote curve %q: %w" e)
  | Ok None => Err (Errorf "curve %q returned invalid output")
  | Ok (Some value) =>
      if decide (Z.sgn value < 0) then Err (Errorf "curve %q returned invalid output")
      else Ok value
  end.

Definition curve_at (c : memoCurve) (amount : Z) : ST memos Z :=
  if decide (Z.sgn amount < 0) then fail "curve %q received invalid input" else
  if decide (Z.sgn amount = 0) then mret 0 else
  let key := pretty amount in
  s ← get;
  match (if mc_cached c then memo_cache (memo_of s c) !! key else None) with
  | Some value => _ ← modify (memo_hit c); mret value
  | None =>
      value ← lift (quote_value c amount);
      _ ← modify (memo_store c key value);
      mret value
  end.

(** ** Allocations *)

Definition allocationKey (allocation : list Z) : string :=
  match allocation with
  | [] => ""
  | amount :: rest => foldl (fun s a => s +:+ "," +:+ pretty a) (pretty amount) rest
  end.

Definition allocationConserves (allocation : list Z) (total : Z) : Prop :=
  Forall (fun amount => 0 <= amount) allocation /\ Zsum allocation = total.
#[export] Instance allocationConserves_dec a t : Decision (allocationConserves a t) :=
  ltac:(unfold allocationConserves; apply _).

Definition zeroAllocation (count : nat) : list Z := replicate count 0.

Definition allocatedPositive (allocation : list Z) : Prop := Exists (fun a => 0 < Z.sgn a) allocation.
#[export] Instance allocatedPositive_dec a : Decision (allocatedPositive a) :=
  ltac:(unfold allocatedPositive; apply _).

Record coordinateSettings := mkCoordinateSettings {
  st_maxSweeps : nat; st_maxStarts : nat; st_neighborhood : Z; st_exhaustiveLimit : Z }.

Record coordinateResult := mkCoordinateResult {
  cr_allocation : list Z; cr_value : Z; cr_sweeps : Z; cr_evaluations : Z;
  cr_cacheHits : Z; cr_pairwiseOptimal : bool; cr_exhaustive : bool }.

Record stagePlan := mkStagePlan {
  sp_allocations : list Z; sp_output : Z; sp_sweeps : Z; sp_exhaustive : bool }.

Fixpoint compositionCount_loop (total combinations limit : Z) (indices : list Z) : bool :=
  match indices with
  | [] => true
  | index :: rest =>
      let combinations := Z.quot (combinations * (total + index)) index in
      if decide (limit < combinations) then false
      else compositionCount_loop total combinations limit rest
  end.

Definition compositionCountAtMost (total : Z) (count : nat) (limit : Z) : bool :=
  if decide (Z.sgn total < 0 \/ (count < 1)%nat) then false else
  if decide (count = 1%nat) then bool_decide (1 <= limit) else
  compositionCount_loop total 1 limit (seqZ 1 (Z.of_nat count - 1)).

Section optimizer.
Context (ctx_Err : option error).

Definition check_ctx {S} : ST S unit :=
  match ctx_Err with None => mret tt | Some e => lift (Err e) end.

(** ** The evaluation cache of [coordinateOptimize] *)

Record evals := mkEvals { ev_cache : gmap string Z; ev_evaluations : Z; ev_cacheHits : Z }.

Section coordinate.
Context {S : Type} (total : Z) (objective : list Z -> ST S Z).

(** The closure [evaluate]: the objective behind the cache. *)
Definition evaluate (allocation : list Z) : ST (evals * S) Z :=
  _ ← check_ctx;
  let key := allocationKey allocation in
  s ← get;
  match ev_cache s.1 !! key with
  | Some value =>
      _ ← modify (fun s => (mkEvals (ev_cache s.1) (ev_evaluations s.1) (ev_cacheHits s.1 + 1), s.2));
      mret value
  | None =>
      if decide (~ allocationConserves allocation total)
      then fail "candidate allocation does not conserve input" else
      value ← zoom snd (fun t s => (s.1, t)) (objective allocation);
      if decide (Z.sgn value < 0) then fail "split objective returned invalid output" else
      _ ← modify (fun s => (mkEvals (<[key := value]> (ev_cache s.1)) (ev_evaluations s.1 + 1)
                              (ev_cacheHits s.1), s.2));
      mret value
  end.
End coordinate.

Section search.
Context {S : Type} (eval : list Z -> ST S Z).

(** [at] of [maximizePair]: the base with the pair replaced. *)
Definition pair_candidate (base : list Z) (l r : nat) (total value : Z) : list Z :=
  <[r := total - value]> (<[l := value]> base).
Definition pair_at (base : list Z) (l r : nat) (total value : Z) : ST S Z :=
  eval (pair_candidate base l r total value).

(** The binary search; the interval at least halves, so the bit length of
    [total] is enough fuel ([bisect_fuel_enough]). *)
Fixpoint bisect (fuel : nat) (base : list Z) (l r : nat) (total low high : Z) : ST S Z :=
  if decide (high <= low) then mret low else
  match fuel with
  | O => lift (Panic "fuel")
  | Datatypes.S fuel =>
      _ ← check_ctx;
      let middle := Z.shiftr (low + high) 1 in
      let next := middle + 1 in
      middleValue ← pair_at base l r total middle;
      nextValue ← pair_at base l r total next;
      if decide (middleValue <= nextValue)
      then bisect fuel base l r total next high
      else bisect fuel base l r total low middle
  end.

Definition bisect_fuel (total : Z) : nat := Datatypes.S (Z.to_nat (Z.log2_up (total + 1))).

Definition maximizePair (base : list Z) (l r : nat) (total neighborhood : Z) : ST S (Z * Z) :=
  best ← bisect (bisect_fuel total) base l r total 0 total;
  bestValue ← pair_at base l r total best;
  let start := Z.max 0 (best - neighborhood) in
  let end_ := Z.min total (best + neighborhood) in
  foldST (fun '(best, bestValue) candidate =>
    value ← pair_at base l r total candidate;
    if decide (bestValue < value \/ value = bestValue /\ candidate < best)
    then mret (candidate, value) else mret (best, bestValue))
    (best, bestValue) (seqZ start (end_ - start + 1)).

(** [walk]: [prefix] holds the entries already written, [count] the positions
    left; the best allocation and value so far are the loop variables. *)
Definition better (value : Z) (allocation : list Z) (best : option (list Z * Z)) : Prop :=
  match best with
  | None => True
  | Some (bestAllocation, bestValue) =>
      bestValue < value \/
      value = bestValue /\ String.ltb (allocationKey allocation) (allocationKey bestAllocation) = true
  end.
#[export] Instance better_dec v a b : Decision (better v a b).
Proof. destruct b as [[? ?]|]; cbn; apply _. Defined.

Fixpoint walk (count : nat) (prefix : list Z) (remaining : Z) (best : option (list Z * Z)) :
    ST S (option (list Z * Z)) :=
  _ ← check_ctx;
  match count with
  | O | 1%nat =>
      let allocation := prefix ++ [remaining] in
      value ← eval allocation;
      if decide (better value allocation best) then mret (Some (allocation, value)) else mret best
  | Datatypes.S count =>
      foldST (fun best value => walk count (prefix ++ [value]) (remaining - value) best)
        best (seqZ 0 (remaining + 1))
  end.

Definition exhaustiveCoordinates (total : Z) (count : nat) : ST S (list Z * Z) :=
  if decide (2 ^ 63 <= total) then fail "exhaustive split total exceeds int64" else
  best ← walk count [] total None;
  match best with
  | Some best => mret best
  | None => mret ([], 0)
  end.

(** ** Starting points *)

Definition add_start (state : gset string * list (list Z)) (candidate : list Z) :
    gset string * list (list Z) :=
  let key := allocationKey candidate in
  if decide (key ∈ state.1) then state else ({[ key ]} ∪ state.1, state.2 ++ [candidate]).

(** All pairs [left < right < count] in the order of the nested loops. *)
Definition index_pairs (count : nat) : list (nat * nat) :=
  l ← seq 0 count; (fun r => (l, r)) <$> seq (Datatypes.S l) (count - Datatypes.S l).

Definition equal_start (total : Z) (count : nat) : list Z :=
  let share := Z.quot total (Z.of_nat count) in
  let remainder := Z.rem total (Z.of_nat count) in
  (fun index => share + if decide (Z.of_nat index < remainder) then 1 else 0) <$> seq 0 count.

Definition coordinateStarts (total : Z) (count : nat) : list (list Z) :=
  let single := (fun index => <[index := total]> (zeroAllocation count)) <$> seq 0 count in
  let halves := (fun '(l, r) =>
      let half := Z.shiftr total 1 in
      <[r := total - half]> (<[l := half]> (zeroAllocation count))) <$> index_pairs count in
  (foldl add_start (∅, []) (single ++ [equal_start total count] ++ halves)).2.

(** ** Pairwise improvement *)

(** The order of [sort.Slice]: larger values first, then smaller keys. *)
Definition ranked_le (x y : list Z * Z) : Prop :=
  y.2 < x.2 \/ x.2 = y.2 /\ String.le (allocationKey x.1) (allocationKey y.1).
#[export] Instance ranked_le_dec : RelDecision ranked_le.
Proof. intros x y. unfold ranked_le. apply _. Defined.

Definition sweep_state : Type := list Z * Z * bool.

Definition sweep_pair (neighborhood : Z) (st : sweep_state) (p : nat * nat) : ST S sweep_state :=
  let '(allocation, current, improved) := st in
  let '(l, r) := p in
  match allocation !! l, allocation !! r with
  | Some leftAmount, Some rightAmount =>
      let pairTotal := leftAmount + rightAmount in
      found ← maximizePair allocation l r pairTotal neighborhood;
      if decide (current < found.2)
      then mret (pair_candidate allocation l r pairTotal found.1, found.2, true)
      else mret (allocation, current, improved)
  | _, _ => lift (Panic "index out of range")
  end.

(** Sweeps until one improves nothing; [maxSweeps] of them at most. *)
Fixpoint sweeps (maxSweeps : nat) (count : nat) (neighborhood : Z) (allocation : list Z)
    (current done_ : Z) : ST S (list Z * Z * Z) :=
  match maxSweeps with
  | O => fail "split solver did not converge after %d sweeps"
  | Datatypes.S maxSweeps =>
      st ← foldST (sweep_pair neighborhood) (allocation, current, false) (index_pairs count);
      let '(allocation, current, improved) := st in
      if improved : bool
      then sweeps maxSweeps count neighborhood allocation current (done_ + 1)
      else mret (allocation, current, done_ + 1)
  end.

Definition improve_start (count : nat) (settings : coordinateSettings)
    (state : option (list Z * Z) * Z) (start : list Z * Z) : ST S (option (list Z * Z) * Z) :=
  let '(best, totalSweeps) := state in
  current ← eval start.1;
  found ← sweeps (st_maxSweeps settings) count (st_neighborhood settings) start.1 current 0;
  let '(allocation, current, swept) := found in
  mret (if decide (better current allocation best) then Some (allocation, current) else best,
        totalSweeps + swept).

Record searchResult := mkSearchResult {
  sr_allocation : list Z; sr_value : Z; sr_sweeps : Z; sr_exhaustive : bool }.

Definition rank_starts (starts : list (list Z)) : ST S (list (list Z * Z)) :=
  foldST (fun ranked start => value ← eval start; mret (ranked ++ [(start, value)])) [] starts.

(** The body of [coordinateOptimize] after its argument check. *)
Definition coordinateSearch (total : Z) (count : nat) (settings : coordinateSettings) :
    ST S searchResult :=
  if decide (count = 1%nat) then
    current ← eval [total];
    mret (mkSearchResult [total] current 1 true)
  else if compositionCountAtMost total count (st_exhaustiveLimit settings) then
    found ← exhaustiveCoordinates total count;
    mret (mkSearchResult found.1 found.2 1 true)
  else if decide (count = 2%nat) then
    found ← maximizePair [0; total] 0 1 total (st_neighborhood settings);
    mret (mkSearchResult [found.1; total - found.1] found.2 1 false)
  else
    ranked ← rank_starts (coordinateStarts total count);
    let ranked := take (st_maxStarts settings) (merge_sort ranked_le ranked) in
    state ← foldST (improve_start count settings) (None, 0) ranked;
    match state with
    | (Some (bestAllocation, bestValue), totalSweeps) =>
        mret (mkSearchResult bestAllocation bestValue totalSweeps false)
    | (None, _) => lift (Panic "nil allocation")
    end.
End search.

(** [coordinateOptimize]: the search over a fresh evaluation cache. *)
Definition coordinateOptimize {S} (total : Z) (count : nat) (objective : list Z -> ST S Z)
    (settings : coordinateSettings) : ST S coordinateResult :=
  if decide ((count < 1)%nat \/ Z.sgn total < 0) then fail "invalid coordinate optimization" else
  fun s =>
    match coordinateSearch (evaluate total objective) total count settings (mkEvals ∅ 0 0, s) with
    | (Ok r, (e, s')) =>
        (Ok (mkCoordinateResult (sr_allocation r) (sr_value r) (sr_sweeps r)
               (ev_evaluations e) (ev_cacheHits e) true (sr_exhaustive r)), s')
    | (Err err, (_, s')) => (Err err, s')
    | (Panic why, (_, s')) => (Panic why, s')
    end.

(** ** Independent curves *)

Definition independent_objective (curves : list memoCurve) (allocation : list Z) : ST memos Z :=
  foldST (fun output '(c, amount) => value ← curve_at c amount; mret (output + value))
    0 (zip curves allocation).

Definition optimizeIndependent (total : Z) (curves : list memoCurve)
    (settings : coordinateSettings) : ST memos stagePlan :=
  if decide (curves = []) then
    if decide (Z.sgn total = 0) then mret (mkStagePlan [] 0 0 false)
    else fail "positive amount has no output curves"
  else
    result ← coordinateOptimize total (length curves) (independent_objective curves) settings;
    mret (mkStagePlan (cr_allocation result) (cr_value result) (cr_sweeps result)
            (cr_exhaustive result)).

Definition materializeAllocations (curves : list memoCurve) (amounts : list Z) :
    ST memos (list SplitAllocation) :=
  foldST (fun result '(c, amount) =>
    output ← curve_at c amount; mret (result ++ [mkSplitAllocation (mc_id c) amount output]))
    [] (zip curves amounts).

(** ** The two-stage optimizer *)

(** What the closures of [OptimizeTwoStageSplit] share. *)
Record opt_state := mkOptState {
  os_memos : memos; os_secondCache : gmap string stagePlan; os_secondSolves : Z;
  os_secondSweeps : Z; os_allSecondGloballyVerified : bool }.

Definition on_memos {A} (m : ST memos A) : ST opt_state A :=
  zoom os_memos (fun t s => mkOptState t (os_secondCache s) (os_secondSolves s)
                   (os_secondSweeps s) (os_allSecondGloballyVerified s)) m.

Definition optimizeSecond (second : list memoCurve) (settings : coordinateSettings) (total : Z) :
    ST opt_state stagePlan :=
  if decide (Z.sgn total = 0)
  then mret (mkStagePlan (zeroAllocation (length second)) 0 0 true) else
  let key := pretty total in
  s ← get;
  match os_secondCache s !! key with
  | Some cached => mret cached
  | None =>
      plan ← wrapST "optimize second-stage split: %w"
               (on_memos (optimizeIndependent total second settings));
      _ ← modify (fun s => mkOptState (os_memos s) (<[key := plan]> (os_secondCache s))
                             (os_secondSolves s + 1) (os_secondSweeps s + sp_sweeps plan)
                             (if sp_exhaustive plan then os_allSecondGloballyVerified s else false));
      mret plan
  end.

Record flowEvaluation := mkFlowEvaluation {
  fe_output : Z; fe_directOut : Z; fe_intermediate : Z; fe_second : stagePlan }.

Definition evaluateFlow (direct first second : list memoCurve) (settings : coordinateSettings)
    (allocation : list Z) : ST opt_state flowEvaluation :=
  directOut ← on_memos (independent_objective direct (take (length direct) allocation));
  intermediate ← on_memos (independent_objective first (drop (length direct) allocation));
  secondPlan ← optimizeSecond second settings intermediate;
  mret (mkFlowEvaluation (directOut + sp_output secondPlan) directOut intermediate secondPlan).

(** The dust test before the direct-only fallback. *)
Definition dust_branch (direct : list memoCurve) (allocation : list Z) (evidence : flowEvaluation) :
    Prop :=
  direct <> [] /\
  ((0 < Z.sgn (fe_intermediate evidence) /\ Z.sgn (sp_output (fe_second evidence)) = 0) \/
   (allocatedPositive (drop (length direct) allocation) /\ Z.sgn (fe_intermediate evidence) = 0)).
#[export] Instance dust_branch_dec d a e : Decision (dust_branch d a e).
Proof. unfold dust_branch. apply and_dec; apply _. Defined.

Definition default_limit (v d : Z) : Z := if decide (v = 0) then d else v.

Definition curve_counters (curves : list memoCurve) (s : memos) : Z * Z :=
  foldl (fun '(calls, hits) c =>
    let m := memo_of s c in (calls + memo_calls m, hits + memo_hits m)) (0, 0) curves.

Definition OptimizeTwoStage_run (total : Z) (direct first second : list memoCurve)
    (settings : coordinateSettings) : ST opt_state TwoStageSplitResult :=
  let inputCurves := direct ++ first in
  outer ← wrapST "optimize input split: %w"
    (coordinateOptimize total (length inputCurves)
       (fun allocation => evidence ← evaluateFlow direct first second settings allocation;
                          mret (fe_output evidence)) settings);
  evidence ← evaluateFlow direct first second settings (cr_allocation outer);
  final ← (if decide (dust_branch direct (cr_allocation outer) evidence) then
      directPlan ← wrapST "optimize direct-only fallback: %w"
        (on_memos (optimizeIndependent total direct settings));
      let allocation := sp_allocations directPlan ++ zeroAllocation (length first) in
      evidence ← evaluateFlow direct first second settings allocation;
      mret (allocation, evidence)
    else mret (cr_allocation outer, evidence));
  let '(allocation, evidence) := final in
  directAllocations ← on_memos (materializeAllocations direct (take (length direct) allocation));
  firstAllocations ← on_memos (materializeAllocations first (drop (length direct) allocation));
  secondAllocations ← on_memos (materializeAllocations second (sp_allocations (fe_second evidence)));
  s ← get;
  let '(calls, hits) := curve_counters (direct ++ first ++ second) (os_memos s) in
  mret (mkTwoStageSplitResult directAllocations firstAllocations secondAllocations total
          (fe_intermediate evidence) (fe_output evidence) 1 0 false
          (cr_pairwiseOptimal outer)
          (cr_exhaustive outer && os_allSecondGloballyVerified s)
          (mkSplitMetrics calls hits (cr_evaluations outer) (cr_cacheHits outer)
             (os_secondSolves s) (cr_sweeps outer + os_secondSweeps s))).

Definition OptimizeTwoStageSplit (request : TwoStageSplitRequest) : res TwoStageSplitResult :=
  match ctx_Err with
  | Some e => Err e
  | None =>
  match rq_TotalInput request with
  | None => Err (Errorf "positive total split input is required")
  | Some total =>
  if decide (Z.sgn total <= 0) then Err (Errorf "positive total split input is required") else
  if decide (rq_Direct request = [] /\ rq_FirstStage request = [])
  then Err (Errorf "at least one direct or first-stage curve is required") else
  if decide (bool_decide (rq_FirstStage request = []) <> bool_decide (rq_SecondStage request = []))
  then Err (Errorf "both stages of the intermediate branch are required") else
  let maxSweeps := default_limit (rq_MaxSweeps request) 64 in
  let maxStarts := default_limit (rq_MaxStarts request) 3 in
  let neighborhood := default_limit (rq_Neighborhood request) 32 in
  let exhaustiveLimit := default_limit (rq_ExhaustiveLimit request) 10000 in
  if decide (maxSweeps < 1 \/ 1024 < maxSweeps \/ maxStarts < 1 \/ 128 < maxStarts \/
             neighborhood < 1 \/ 4096 < neighborhood \/
             exhaustiveLimit < 1 \/ 10000000 < exhaustiveLimit)
  then Err (Errorf "invalid split solver limits") else
  direct ← wrap "direct curves: %w" (newMemoCurves (rq_Direct request));
  first ← wrap "first-stage curves: %w" (newMemoCurves (rq_FirstStage request));
  second ← wrap "second-stage curves: %w" (newMemoCurves (rq_SecondStage request));
  _ ← uniqueCurveIDs [direct; first; second];
  (OptimizeTwoStage_run total direct first second
     (mkCoordinateSettings (Z.to_nat maxSweeps) (Z.to_nat maxStarts) neighborhood exhaustiveLimit)
     (mkOptState ∅ ∅ 0 0 true)).1
  end end.
End optimizer.
