(* ===== verification/SplitCurves.v ===== *)
(** * Curves and allocations of the split optimizers: shared lemmas

    Allocation keys are injective, memoised curves return what their quote
    function returns, and [newCurves]/[uniqueCurveIDs] build curves with
    distinct non-blank identities. *)
From S2P Require Import Prelude Amount Quote Split.

(** ** Allocation keys are injective *)

Lemma key_foldl s (rest : list Z) :
  foldl (fun s a => s +:+ "," +:+ pretty a) s rest =
  s +:+ foldr (fun a t => "," +:+ pretty a +:+ t) "" rest.
Proof.
  revert s. induction rest as [|a rest IH]; intros s; cbn [foldl foldr].
  - by rewrite string_app_nil_r.
  - rewrite IH. by rewrite !string_app_assoc.
Qed.

Lemma key_cons a b (rest : list Z) : allocationKey (a :: b :: rest) = pretty a +:+ "," +:+ allocationKey (b :: rest).
Proof. unfold allocationKey. rewrite !key_foldl. cbn [foldr]. done. Qed.

Lemma pretty_Z_nonempty (z : Z) : pretty z <> "".
Proof.
  assert (pretty 0%Z <> "") by done. intros H0.
  assert (forall x s, s <> "" -> pretty_N_go x s <> "") as Hgo.
  { intros x. induction (N.lt_wf_0 x) as [x _ IH]; intros s Hs.
    destruct (decide (x = 0%N)) as [->|Hx]; [by rewrite pretty_N_go_0|].
    rewrite pretty_N_go_step by lia. apply IH; [apply N.div_lt; lia|done]. }
  assert (forall p, pretty (N.pos p) <> "") as Hp.
  { intros p. unfold pretty, pretty_N. case_decide; [done|].
    rewrite pretty_N_go_step by lia. by apply Hgo. }
  destruct z as [|p|p]; [done|by apply (Hp p)|done].
Qed.

Lemma allocationKey_inj a b : allocationKey a = allocationKey b -> a = b.
Proof.
  revert b. induction a as [|x [|x' a] IH]; intros [|y [|y' b]] H; try done.
  - by destruct (pretty_Z_nonempty y).
  - rewrite key_cons in H. by destruct (pretty y).
  - by destruct (pretty_Z_nonempty x).
  - cbn in H. f_equal. by apply (inj pretty).
  - rewrite key_cons in H. by apply comma_free_not_app in H; [|apply comma_free_pretty].
  - rewrite key_cons in H. by destruct (pretty x).
  - rewrite key_cons in H. symmetry in H.
    by apply comma_free_not_app in H; [|apply comma_free_pretty].
  - rewrite !key_cons in H. apply comma_free_split in H as [Hx H]; [|apply comma_free_pretty..].
    f_equal; [by apply (inj pretty)|by apply IH].
Qed.

(** ** Memoised curves compute their quote *)

(** What one pool returns for an input, without its cache. *)
Definition curve_value (c : memoCurve) (amount : Z) : res Z :=
  if decide (Z.sgn amount < 0) then Err (Errorf "curve %q received invalid input") else
  if decide (Z.sgn amount = 0) then Ok 0 else quote_value c amount.

Definition curves_value (curves : list memoCurve) (amounts : list Z) : res Z :=
  foldM (fun output '(c, amount) => value ← curve_value c amount; Ok (output + value))
    0 (zip curves amounts).

Section memo_spec.
Context (cs : list memoCurve).

(** Distinct identities, and quote functions that do not panic. *)
Record curves_ok : Prop := {
  co_ids : NoDup (mc_id <$> cs);
  co_quotes : forall c x, c ∈ cs -> no_panic (mc_quote c x) }.

(** Every cached output is the quote's. *)
Definition memos_ok (s : memos) : Prop :=
  forall c key v, c ∈ cs -> memo_cache (memo_of s c) !! key = Some v ->
    exists x, key = pretty x /\ 0 < x /\ quote_value c x = Ok v.

Lemma quote_value_no_panic c x : no_panic (mc_quote c x) -> no_panic (quote_value c x).
Proof.
  intros H. unfold quote_value. destruct (mc_quote c x) eqn:Hq; [|no_panic_auto|by destruct (H why)].
  no_panic_auto.
Qed.

Lemma quote_value_nonneg c x v : quote_value c x = Ok v -> 0 <= v.
Proof. unfold quote_value. intros H. res_inv; subst; [|lia]. destruct v; cbn in *; lia. Qed.

Lemma curve_value_nonneg c x v : curve_value c x = Ok v -> 0 <= v.
Proof.
  unfold curve_value. repeat case_decide; [done|by intros [= <-]|apply quote_value_nonneg].
Qed.

Lemma same_id c c' : curves_ok -> c ∈ cs -> c' ∈ cs -> mc_id c = mc_id c' -> c = c'.
Proof.
  intros [Hnd _] Hc Hc' Hid.
  apply list_elem_of_lookup in Hc as [i Hi]. apply list_elem_of_lookup in Hc' as [j Hj].
  assert (i = j) as ->; [|congruence].
  eapply (NoDup_lookup (mc_id <$> cs)); [done| |]; rewrite list_lookup_fmap.
  - by rewrite Hi.
  - rewrite Hj. cbn. by rewrite Hid.
Qed.

Lemma memo_of_insert c c' m s :
  memo_of (<[mc_id c := m]> s) c' = if decide (mc_id c = mc_id c') then m else memo_of s c'.
Proof.
  unfold memo_of. case_decide as H; [by rewrite H, lookup_insert_eq|].
  by rewrite lookup_insert_ne.
Qed.

Lemma memo_hit_ok c s : memos_ok s -> memos_ok (memo_hit c s).
Proof.
  intros Hs c' key v Hc'. unfold memo_hit. rewrite memo_of_insert.
  case_decide as Hid; [|by apply Hs]. cbn. intros Hv. apply (Hs c'); [done|].
  unfold memo_of in *. by rewrite <- Hid.
Qed.

Lemma memo_store_ok c x v s :
  curves_ok -> c ∈ cs -> 0 < x -> quote_value c x = Ok v -> memos_ok s ->
  memos_ok (memo_store c (pretty x) v s).
Proof.
  intros Hcs Hc Hx Hv Hs c' key w Hc'. unfold memo_store. rewrite memo_of_insert.
  case_decide as Hid; [|by apply Hs]. apply (same_id c c') in Hid as <-; [|done..]. cbn.
  destruct (mc_cached c); [|by apply Hs]. destruct (decide (pretty x = key)) as [<-|Hne].
  - rewrite lookup_insert_eq. intros [= <-]. by exists x.
  - rewrite lookup_insert_ne by done. by apply Hs.
Qed.

Lemma curve_at_spec c x :
  curves_ok -> c ∈ cs -> Spec memos_ok (curve_at c x) (fun v => curve_value c x = Ok v).
Proof.
  intros Hcs Hc. unfold curve_at, curve_value.
  destruct (decide (Z.sgn x < 0)) as [?|Hneg]; [apply Spec_fail|].
  destruct (decide (Z.sgn x = 0)) as [?|Hz]; [by apply Spec_ret|].
  assert (0 < x) by (destruct x; cbn in *; lia).
  eapply Spec_bind; [apply (Spec_get memos_ok (fun s => memos_ok s)); done|]. intros s Hs.
  destruct (if mc_cached c then _ else None) as [v|] eqn:Hlook.
  - eapply Spec_bind; [apply (Spec_modify _ _ (fun _ => True)); [apply memo_hit_ok|done]|].
    intros _ _. apply Spec_ret. destruct (mc_cached c); [|done].
    destruct (Hs c _ _ Hc Hlook) as (y & Hy & _ & Hv). by apply (inj pretty) in Hy as ->.
  - eapply Spec_bind; [apply (Spec_lift _ _ (fun v => quote_value c x = Ok v))|].
    + by apply quote_value_no_panic, (co_quotes Hcs).
    + done.
    + intros v Hv. eapply Spec_bind; [|intros _ _; by apply Spec_ret].
      apply (Spec_modify _ _ (fun _ => True)); [|done]. intros s' Hs'. by apply memo_store_ok.
Qed.

Lemma independent_objective_spec curves amounts :
  curves_ok -> curves ⊆ cs ->
  Spec memos_ok (independent_objective curves amounts) (fun v => curves_value curves amounts = Ok v).
Proof.
  intros Hcs Hsub. unfold independent_objective, curves_value.
  apply (Spec_foldST _ _ (fun before b => foldM _ 0 before = Ok b)); [done|].
  intros before [c x] after b Hzip Hb.
  assert (c ∈ cs) as Hc.
  { apply Hsub. assert ((c, x) ∈ zip curves amounts) as Hin by (rewrite Hzip; set_solver).
    by apply elem_of_zip_l in Hin. }
  eapply Spec_bind; [by apply curve_at_spec|]. intros v Hv. apply Spec_ret.
  rewrite foldM_app, Hb. cbn. rewrite Hv. done.
Qed.

(** The amounts of a materialised allocation. *)
Definition materialized (curves : list memoCurve) (amounts : list Z) (l : list SplitAllocation) : Prop :=
  Forall2 (fun '(c, x) a => sa_CurveID a = mc_id c /\ sa_AmountIn a = x /\
             curve_value c x = Ok (sa_AmountOut a)) (zip curves amounts) l.

Lemma materialize_spec curves amounts :
  curves_ok -> curves ⊆ cs ->
  Spec memos_ok (materializeAllocations curves amounts) (materialized curves amounts).
Proof.
  intros Hcs Hsub. unfold materializeAllocations, materialized.
  apply (Spec_foldST _ _ (fun before l => Forall2 _ before l)); [constructor|].
  intros before [c x] after l Hzip Hl.
  assert (c ∈ cs) as Hc.
  { apply Hsub. assert ((c, x) ∈ zip curves amounts) as Hin by (rewrite Hzip; set_solver).
    by apply elem_of_zip_l in Hin. }
  eapply Spec_bind; [by apply curve_at_spec|]. intros v Hv. apply Spec_ret.
  apply Forall2_app; [done|]. by constructor.
Qed.
End memo_spec.

(** *** Building the curves *)

Definition quotes_total (curves : list SplitCurve) : Prop :=
  forall c q x, c ∈ curves -> curve_Quote c = Some q -> no_panic (q x).

Lemma newCurves_loop_Ok curves enabled cs :
  newCurves_loop curves enabled = Ok cs ->
  forall c, c ∈ cs -> exists sc, sc ∈ curves /\ mc_id c = curve_ID sc /\ curve_Quote sc = Some (mc_quote c) /\
    blank (mc_id c) = false.
Proof.
  revert cs. induction curves as [|sc curves IH]; intros cs; cbn [newCurves_loop].
  - intros [= <-] c Hc. by apply elem_of_nil in Hc.
  - intros H c Hc. res_inv. subst cs. apply elem_of_cons in Hc as [->|Hc].
    + exists sc. split_and!; [by left|done|done|]. cbn. by destruct (blank _).
    + destruct (IH _ Hx c Hc) as (sc' & ? & ? & ? & ?). exists sc'. split_and!; [by right|done..].
Qed.

Lemma newCurves_quotes curves enabled cs c x :
  quotes_total curves -> newCurves curves enabled = Ok cs -> c ∈ cs -> no_panic (mc_quote c x).
Proof.
  intros Hq Hn Hc. destruct (newCurves_loop_Ok _ _ _ Hn c Hc) as (sc & Hsc & _ & Hquote & _).
  rewrite merge_sort_Permutation in Hsc. by apply (Hq sc _ x Hsc).
Qed.

Lemma newCurves_loop_no_panic curves enabled : no_panic (newCurves_loop curves enabled).
Proof. induction curves as [|c curves IH]; cbn [newCurves_loop]; no_panic_auto. Qed.

Lemma uniqueCurveIDs_Ok groups u : uniqueCurveIDs groups = Ok u -> NoDup (mc_id <$> concat groups).
Proof.
  unfold uniqueCurveIDs. intros H. res_inv. revert Hx.
  assert (forall l (seen seen' : gset string), foldM (fun (seen : gset string) curve =>
      if decide (mc_id curve ∈ seen) then Err (Errorf "duplicate split curve ID %q")
      else Ok ({[ mc_id curve ]} ∪ seen)) seen l = Ok seen' ->
    NoDup (mc_id <$> l) /\ forall i, i ∈ mc_id <$> l -> i ∉ seen) as Hgen.
  { induction l as [|c l IH]; intros seen seen'; cbn [foldM].
    - intros _. split; [constructor|]. intros i Hi. by apply elem_of_nil in Hi.
    - rewrite bind_Ok. intros (s1 & H1 & H2). res_inv. subst s1. apply IH in H2 as [Hnd Hseen].
      rewrite fmap_cons. split.
      + constructor; [|done]. intros Hin. apply (Hseen _ Hin). set_solver.
      + intros i [->|Hi]%elem_of_cons; [done|]. specialize (Hseen i Hi). set_solver. }
  intros Hx. by apply Hgen in Hx as [Hnd _].
Qed.

