(* ===== verification/SplitSearch.v ===== *)
(** * The split optimizer is correct (src/core/sizing/split.go)

    The searches of [Split] end, return allocations of the whole input and
    report exhaustiveness truthfully; the caches do not change any result. *)
From S2P Require Import Prelude Amount Quote Split SplitCurves.

(** ** The evaluation cache is transparent *)

Section evaluate_spec.
Context {S : Type} (I : S -> Prop) (ctx_Err : option error).
Context (total : Z) (objective : list Z -> ST S Z) (obj : list Z -> Z -> Prop).
Context (Hobj : forall a, allocationConserves a total -> Spec I (objective a) (obj a)).

Lemma check_ctx_spec {T} (K : T -> Prop) : Spec K (check_ctx ctx_Err) (fun _ => True).
Proof. unfold check_ctx. destruct ctx_Err; [by apply Spec_lift|by apply Spec_ret]. Qed.

(** The value of an allocation that conserves the input. *)
Definition alloc_value (a : list Z) (v : Z) : Prop :=
  allocationConserves a total /\ obj a v /\ 0 <= v.

Definition evals_ok (e : evals) : Prop :=
  forall key v, ev_cache e !! key = Some v -> exists a, key = allocationKey a /\ alloc_value a v.

Definition cache_inv (s : evals * S) : Prop := evals_ok s.1 /\ I s.2.

Lemma evaluate_spec a : Spec cache_inv (evaluate ctx_Err total objective a) (alloc_value a).
Proof using Hobj.
  unfold evaluate. eapply Spec_bind; [apply check_ctx_spec|]. intros _ _.
  eapply Spec_bind; [by apply (Spec_get cache_inv (fun s => cache_inv s))|]. intros s [Hs HI].
  destruct (ev_cache s.1 !! allocationKey a) as [v|] eqn:Hlook.
  - eapply Spec_bind; [apply (Spec_modify _ _ (fun _ => True)); [|done]|].
    + intros t [Ht HIt]. by split.
    + intros _ _. apply Spec_ret. destruct (Hs _ _ Hlook) as (b & Hb & Hv).
      by apply allocationKey_inj in Hb as <-.
  - destruct (decide (~ allocationConserves a total)) as [?|Hc]; [apply Spec_fail|].
    apply dec_stable in Hc.
    eapply (Spec_bind _ _ _ (obj a)).
    { apply (Spec_zoom I); [by apply Hobj|by intros t [_ ?]|by intros t i [? _] ?]. }
    intros v Hv. destruct (decide (Z.sgn v < 0)) as [?|Hneg]; [apply Spec_fail|].
    assert (alloc_value a v) as Hav by (split_and!; [done|done|destruct v; cbn in *; lia]).
    eapply Spec_bind; [apply (Spec_modify _ _ (fun _ => True)); [|done]|].
    + intros t [Ht HIt]. split; [|done]. intros key w. cbn.
      destruct (decide (allocationKey a = key)) as [<-|Hne].
      * rewrite lookup_insert_eq. intros [= <-]. by exists a.
      * rewrite lookup_insert_ne by done. by apply Ht.
    + intros _ _. by apply Spec_ret.
Qed.
End evaluate_spec.

(** ** The searches *)

Section search_spec.
Context {S : Type} (I : S -> Prop) (ctx_Err : option error).
Context (eval : list Z -> ST S Z) (val : list Z -> Z -> Prop).
Context (Heval : forall a, Spec I (eval a) (val a)).
Context (Hfun : forall a v w, val a v -> val a w -> v = w).

Section pair.
Context (base : list Z) (l r : nat) (total : Z).
Abbreviation at_ := (fun x => val (pair_candidate base l r total x)) (only parsing).

Lemma pair_at_spec x : Spec I (pair_at eval base l r total x) (at_ x).
Proof using Heval. apply Heval. Qed.

(** [x] is a local maximum of the pair in [0, total]. *)
Definition rises_to (x : Z) : Prop :=
  x = 0 \/ exists v w, at_ (x - 1) v /\ at_ x w /\ v <= w.
Definition falls_after (x : Z) : Prop :=
  x = total \/ exists v w, at_ x v /\ at_ (x + 1) w /\ w < v.

Lemma bisect_spec fuel low high :
  0 <= low <= high -> high <= total -> rises_to low -> falls_after high ->
  high - low < 2 ^ Z.of_nat fuel ->
  Spec I (bisect ctx_Err eval fuel base l r total low high)
    (fun x => low <= x <= high /\ rises_to x /\ falls_after x).
Proof using Heval.
  revert low high. induction fuel as [|fuel IH]; intros low high Hlow Hhigh Hrise Hfall Hfuel; cbn [bisect].
  - rewrite decide_True by (change (2 ^ Z.of_nat 0) with 1 in Hfuel; lia). apply Spec_ret.
    assert (low = high) as -> by (change (2 ^ Z.of_nat 0) with 1 in Hfuel; lia). auto with lia.
  - destruct (decide (high <= low)) as [?|Hlt].
    { apply Spec_ret. assert (low = high) as -> by lia. auto with lia. }
    rewrite Nat2Z.inj_succ, Z.pow_succ_r in Hfuel by lia.
    rewrite Z.shiftr_div_pow2 by lia. change (2 ^ 1) with 2.
    pose proof (Z.div_mod (low + high) 2 ltac:(lia)) as Hdiv.
    pose proof (Z.mod_pos_bound (low + high) 2 ltac:(lia)) as Hmod.
    set (middle := (low + high) / 2) in *.
    eapply Spec_bind; [apply check_ctx_spec|]. intros _ _.
    eapply Spec_bind; [apply pair_at_spec|]. intros mv Hmv.
    eapply Spec_bind; [apply pair_at_spec|]. intros nv Hnv.
    destruct (decide (mv <= nv)) as [Hle|Hgt].
    + eapply Spec_weaken; [apply IH; try lia; [|done]|].
      * right. exists mv, nv. replace (middle + 1 - 1) with middle by lia. done.
      * intros x (? & ? & ?). split_and!; [lia|lia|done..].
    + eapply Spec_weaken; [apply IH; try lia; [done|]|].
      * right. exists mv, nv. split_and!; [done..|lia].
      * intros x (? & ? & ?). split_and!; [lia|lia|done..].
Qed.

Lemma bisect_fuel_enough : 0 <= total -> total - 0 < 2 ^ Z.of_nat (bisect_fuel total).
Proof.
  intros Ht. unfold bisect_fuel. rewrite Nat2Z.inj_succ, Z2Nat.id by apply Z.log2_up_nonneg.
  pose proof (Z.log2_up_spec (total + 1)) as H.
  destruct (decide (total = 0)) as [->|Hne].
  { change (Z.log2_up (0 + 1)) with 0. lia. }
  specialize (H ltac:(lia)). rewrite Z.pow_succ_r by apply Z.log2_up_nonneg. lia.
Qed.

(** What [maximizePair] returns around the local maximum [x0] it bisects to. *)
Definition pair_optimum (neighborhood x0 : Z) (found : Z * Z) : Prop :=
  0 <= found.1 <= total /\ at_ found.1 found.2 /\
  0 <= x0 <= total /\ rises_to x0 /\ falls_after x0 /\
  (forall x, 0 <= x <= total -> Z.abs (x - x0) <= neighborhood ->
     exists v, at_ x v /\ v <= found.2 /\ (v = found.2 -> found.1 <= x)) /\
  exists v0, at_ x0 v0 /\ v0 <= found.2.

Lemma maximizePair_spec neighborhood :
  0 <= total -> 0 <= neighborhood ->
  Spec I (maximizePair ctx_Err eval base l r total neighborhood)
    (fun found => exists x0, pair_optimum neighborhood x0 found).
Proof using Heval Hfun.
  intros Ht Hn. unfold maximizePair.
  eapply Spec_bind; [apply bisect_spec; try lia; [by left|by left|by apply bisect_fuel_enough]|].
  intros x0 (Hx0 & Hrise & Hfall).
  eapply Spec_bind; [apply pair_at_spec|]. intros v0 Hv0. cbn beta zeta.
  set (start := Z.max 0 (x0 - neighborhood)). set (stop := Z.min total (x0 + neighborhood)).
  eapply Spec_weaken.
  { apply (Spec_foldST _ _ (fun before found =>
      0 <= found.1 <= total /\ at_ found.1 found.2 /\ v0 <= found.2 /\
      forall x, x ∈ before -> exists v, at_ x v /\ v <= found.2 /\ (v = found.2 -> found.1 <= x))).
    - cbn. split_and!; try done; try lia. intros x Hx. by apply elem_of_nil in Hx.
    - intros before c after [best bv] Hseq (Hb & Hbv & Hv & Hall). cbn in Hb, Hbv, Hv, Hall.
      assert (start <= c <= stop) as Hc.
      { assert (c ∈ seqZ start (stop - start + 1)) as Hin by (rewrite Hseq; set_solver).
        apply elem_of_seqZ in Hin. lia. }
      eapply Spec_bind; [apply pair_at_spec|]. intros w Hw.
      destruct (decide _) as [Hbetter|Hworse]; apply Spec_ret; cbn.
      + split_and!; [lia|lia|done|lia|]. intros x [Hx|Hx]%elem_of_app.
        * destruct (Hall x Hx) as (v & Hvx & Hle & Heq). exists v. split_and!; [done|lia|].
          intros ->. destruct Hbetter as [?|[? ?]]; [lia|]. specialize (Heq ltac:(lia)). lia.
        * apply list_elem_of_singleton in Hx as ->. exists w. split_and!; [done|lia|lia].
      + split_and!; [lia|lia|done|lia|]. intros x [Hx|Hx]%elem_of_app.
        * by apply Hall.
        * apply list_elem_of_singleton in Hx as ->. exists w.
          split_and!; [done|lia|]. intros ->. destruct (decide (c < best)); [tauto|lia]. }
  intros found (Hb & Hbv & Hv & Hall). exists x0. split_and!; try done; try lia.
  - intros x Hx Hdist. apply Hall. apply elem_of_seqZ. unfold start, stop. lia.
  - by exists v0.
Qed.
End pair.

(** *** The exhaustive walk *)

Definition best_ok (n : nat) (best : option (list Z * Z)) : Prop :=
  match best with None => True | Some (a, v) => val a v /\ length a = n end.
Definition at_least (v : Z) (best : option (list Z * Z)) : Prop :=
  exists a w, best = Some (a, w) /\ v <= w.
Definition best_le (best best' : option (list Z * Z)) : Prop :=
  forall a v, best = Some (a, v) -> at_least v best'.
(** Every composition of [remaining] behind [prefix] is dominated by [best]. *)
Definition covered (count : nat) (prefix : list Z) (remaining : Z) (best : option (list Z * Z)) : Prop :=
  forall l, length l = count -> Forall (fun x => 0 <= x) l -> Zsum l = remaining ->
    exists v, val (prefix ++ l) v /\ at_least v best.

Lemma best_le_refl b : best_le b b.
Proof. intros a v ->. exists a, v. split; [done|lia]. Qed.
Lemma at_least_le v b b' : at_least v b -> best_le b b' -> at_least v b'.
Proof.
  intros (a & w & Hb & Hvw) Hle. destruct (Hle a w Hb) as (a' & w' & ? & ?).
  exists a', w'. split; [done|lia].
Qed.
Lemma best_le_trans b1 b2 b3 : best_le b1 b2 -> best_le b2 b3 -> best_le b1 b3.
Proof. intros H12 H23 a v Hb. eapply at_least_le; [by eapply H12|done]. Qed.

Lemma walk_leaf prefix remaining best n :
  best_ok n best -> n = (length prefix + 1)%nat ->
  Spec I (value ← eval (prefix ++ [remaining]);
          if decide (better value (prefix ++ [remaining]) best)
          then mret (Some (prefix ++ [remaining], value)) else mret best)
    (fun best' => best_ok n best' /\ best_le best best' /\ covered 1 prefix remaining best').
Proof using Heval.
  intros Hbest Hn. eapply Spec_bind; [apply Heval|]. intros v Hv.
  assert (forall best', at_least v best' -> covered 1 prefix remaining best') as Hcov.
  { intros best' Hb l Hl Hnn Hsum. destruct l as [|x [|? ?]]; try done.
    rewrite Zsum_cons, Zsum_nil in Hsum. replace x with remaining by lia. by exists v. }
  destruct (decide _) as [Hb|Hb]; apply Spec_ret.
  - split_and!.
    + split; [done|]. rewrite length_app. cbn. lia.
    + intros a w ->. cbn in Hb. exists (prefix ++ [remaining]), v. split; [done|]. lia.
    + apply Hcov. eexists _, v. split; [done|lia].
  - split_and!; [done|apply best_le_refl|]. apply Hcov.
    destruct best as [[a w]|]; [|by destruct Hb]. exists a, w. split; [done|]. cbn in Hb. lia.
Qed.

Lemma walk_spec count prefix remaining best :
  best_ok (length prefix + Datatypes.S count) best -> 0 <= remaining ->
  Spec I (walk ctx_Err eval (Datatypes.S count) prefix remaining best)
    (fun best' => best_ok (length prefix + Datatypes.S count) best' /\ best_le best best' /\
       covered (Datatypes.S count) prefix remaining best').
Proof using Heval Hfun.
  revert prefix remaining best. induction count as [|count IH]; intros prefix remaining best Hbest Hrem.
  - cbn [walk]. eapply Spec_bind; [apply check_ctx_spec|]. intros _ _. by apply walk_leaf.
  - change (walk ctx_Err eval (Datatypes.S (Datatypes.S count)) prefix remaining best) with
      (_ ← check_ctx ctx_Err; foldST (fun best value =>
         walk ctx_Err eval (Datatypes.S count) (prefix ++ [value]) (remaining - value) best)
         best (seqZ 0 (remaining + 1))).
    eapply Spec_bind; [apply check_ctx_spec|]. intros _ _.
    eapply Spec_weaken.
    { apply (Spec_foldST _ _ (fun before best' =>
        best_ok (length prefix + Datatypes.S (Datatypes.S count)) best' /\ best_le best best' /\
        forall x, x ∈ before -> covered (Datatypes.S count) (prefix ++ [x]) (remaining - x) best')).
      - split_and!; [done|apply best_le_refl|]. intros x Hx. by apply elem_of_nil in Hx.
      - intros before x after b Hseq (Hb & Hle & Hcov).
        assert (0 <= x <= remaining) as Hx.
        { assert (x ∈ seqZ 0 (remaining + 1)) as Hin by (rewrite Hseq; set_solver).
          apply elem_of_seqZ in Hin. lia. }
        eapply Spec_weaken; [apply IH; [|lia]|].
        + rewrite length_app. cbn [length]. by replace (length prefix + 1 + Datatypes.S count)%nat
            with (length prefix + Datatypes.S (Datatypes.S count))%nat by lia.
        + rewrite length_app. cbn [length]. intros b' (Hb' & Hle' & Hcov').
          split_and!.
          * by replace (length prefix + Datatypes.S (Datatypes.S count))%nat
              with (length prefix + 1 + Datatypes.S count)%nat by lia.
          * by eapply best_le_trans.
          * intros y [Hy|Hy]%elem_of_app.
            -- intros l Hl Hnn Hsum. destruct (Hcov y Hy l Hl Hnn Hsum) as (v & ? & ?).
               exists v. split; [done|]. by eapply at_least_le.
            -- apply list_elem_of_singleton in Hy as ->. exact Hcov'. }
    intros best' (Hb & Hle & Hcov). split_and!; [done..|].
    intros [|x l] Hl Hnn Hsum; [done|]. inversion Hnn as [|? ? Hx Hnn']; subst.
    rewrite Zsum_cons in *. pose proof (Zsum_nonneg l Hnn').
    destruct (Hcov x) with (l := l) as (v & Hv & Hle'); [apply elem_of_seqZ; lia|by injection Hl|done|lia|].
    exists v. by rewrite <- app_assoc in Hv.
Qed.

(** *** The pairwise search *)

Lemma sweep_pair_spec count neighborhood a current improved p :
  0 <= neighborhood -> length a = count -> val a current -> Forall (fun x => 0 <= x) a ->
  (forall b v, val b v -> Forall (fun x => 0 <= x) b) ->
  (p.1 < count)%nat -> (p.2 < count)%nat ->
  Spec I (sweep_pair ctx_Err eval neighborhood (a, current, improved) p)
    (fun st => length st.1.1 = count /\ val st.1.1 st.1.2 /\ current <= st.1.2).
Proof using Heval Hfun.
  intros Hn Hlen Hval Hnn Hvalnn Hl Hr. destruct p as [l r]. cbn in Hl, Hr. cbn [sweep_pair].
  destruct (lookup_lt_is_Some_2 a l) as [x Hx]; [lia|].
  destruct (lookup_lt_is_Some_2 a r) as [y Hy]; [lia|]. rewrite Hx, Hy.
  rewrite Forall_lookup in Hnn. pose proof (Hnn _ _ Hx). pose proof (Hnn _ _ Hy).
  eapply Spec_bind; [apply maximizePair_spec; lia|]. intros [b v] (x0 & Hb & Hbv & _).
  cbn in *. destruct (decide _) as [Hlt|Hge]; apply Spec_ret; cbn.
  - split_and!; [|done|lia]. unfold pair_candidate. by rewrite !length_insert.
  - split_and!; [done..|lia].
Qed.

Lemma index_pairs_lt count p : p ∈ index_pairs count -> (p.1 < count)%nat /\ (p.2 < count)%nat.
Proof.
  unfold index_pairs. intros (l & Hp & Hl)%list_elem_of_bind.
  apply list_elem_of_fmap in Hp as (r & -> & Hr). apply elem_of_seq in Hl, Hr. cbn. lia.
Qed.

Lemma sweeps_spec fuel count neighborhood a current n :
  0 <= neighborhood -> length a = count -> val a current ->
  (forall b v, val b v -> Forall (fun x => 0 <= x) b) ->
  Spec I (sweeps ctx_Err eval fuel count neighborhood a current n)
    (fun st => length st.1.1 = count /\ val st.1.1 st.1.2 /\ current <= st.1.2).
Proof using Heval Hfun.
  intros Hn. revert a current n.
  induction fuel as [|fuel IH]; intros a current n Hlen Hval Hvalnn; cbn [sweeps]; [apply Spec_fail|].
  eapply Spec_bind.
  { apply (Spec_foldST _ _ (fun _ st => length st.1.1 = count /\ val st.1.1 st.1.2 /\ current <= st.1.2)).
    - split_and!; [done..|cbn; lia].
    - intros before p after [[b v] improved] Hp (Hb & Hv & Hle). cbn in Hb, Hv, Hle.
      destruct (index_pairs_lt count p) as [? ?]; [rewrite Hp; set_solver|].
      eapply Spec_weaken; [apply (sweep_pair_spec count); try done; by eapply Hvalnn|].
      intros st (? & ? & ?). split_and!; [done..|lia]. }
  intros [[b v] [|]] (Hb & Hv & Hle); cbn in Hb, Hv, Hle.
  - eapply Spec_weaken; [by apply IH|]. intros st (? & ? & ?). split_and!; [done..|lia].
  - apply Spec_ret. done.
Qed.

(** *** Starting points and the whole search *)

Lemma rank_starts_spec starts :
  Spec I (rank_starts eval starts)
    (fun ranked => Forall2 (fun s p => p.1 = s /\ val s p.2) starts ranked).
Proof using Heval.
  unfold rank_starts. apply (Spec_foldST _ _ (fun before ranked => Forall2 _ before ranked));
    [constructor|].
  intros before s after ranked _ Hr. eapply Spec_bind; [apply Heval|]. intros v Hv. apply Spec_ret.
  apply Forall2_app; [done|]. by constructor.
Qed.

Lemma improve_start_spec count settings best swept start :
  0 <= st_neighborhood settings -> length start.1 = count -> val start.1 start.2 ->
  (forall b v, val b v -> Forall (fun x => 0 <= x) b) -> best_ok count best ->
  Spec I (improve_start ctx_Err eval count settings (best, swept) start)
    (fun st => best_ok count st.1 /\ best_le best st.1 /\ at_least start.2 st.1).
Proof using Heval Hfun.
  intros Hn Hlen Hval Hvalnn Hbest. unfold improve_start.
  eapply Spec_bind; [apply Heval|]. intros current Hcur.
  rewrite (Hfun _ _ _ Hval Hcur). 
  eapply Spec_bind; [by apply sweeps_spec|].
  intros [[a v] n] (Ha & Hv & Hle). cbn in Ha, Hv, Hle. apply Spec_ret. cbn.
  destruct (decide (better v a best)) as [Hb|Hb].
  - split_and!; [done| |].
    + intros b w ->. cbn in Hb. exists a, v. split; [done|lia].
    + exists a, v. done.
  - split_and!; [done|apply best_le_refl|].
    destruct best as [[b w]|]; [|by destruct Hb]. exists b, w. cbn in Hb. split; [done|lia].
Qed.

Definition search_ok (total : Z) (count : nat) (r : searchResult) : Prop :=
  length (sr_allocation r) = count /\ val (sr_allocation r) (sr_value r) /\
  (sr_exhaustive r = true ->
     forall l, length l = count -> Forall (fun x => 0 <= x) l -> Zsum l = total ->
       exists v, val l v /\ v <= sr_value r) /\
  (sr_exhaustive r = false -> (3 <= count)%nat ->
     forall s, s ∈ coordinateStarts total count -> exists v, val s v /\ v <= sr_value r).
End search_spec.

Lemma pair_candidate_length base l r total x :
  length (pair_candidate base l r total x) = length base.
Proof. unfold pair_candidate. by rewrite !length_insert. Qed.

#[export] Instance string_le_trans : Transitive String.le.
Proof. apply _. Qed.

#[export] Instance ranked_le_trans : Transitive ranked_le.
Proof.
  intros x y z [H1|[H1 K1]] [H2|[H2 K2]]; unfold ranked_le; [left; lia..|right].
  split; [lia|]. by etrans.
Qed.

#[export] Instance ranked_le_total : Total ranked_le.
Proof.
  intros x y. unfold ranked_le. destruct (Z.lt_trichotomy x.2 y.2) as [?|[?|?]]; [by right; left| |by left; left].
  destruct (total String.le (allocationKey x.1) (allocationKey y.1)); [left|right]; right; done.
Qed.

(** The first ranked start has the largest value. *)
Lemma sort_head (l : list (list Z * Z)) :
  match merge_sort ranked_le l with
  | [] => l = []
  | x :: _ => forall y, y ∈ l -> y.2 <= x.2
  end.
Proof.
  pose proof (merge_sort_Permutation ranked_le l) as Hp.
  pose proof (StronglySorted_merge_sort ranked_le l) as Hs.
  destruct (merge_sort ranked_le l) as [|x r]; [by apply Permutation_nil_l in Hp|].
  intros y Hy. rewrite <- Hp in Hy. apply StronglySorted_inv in Hs as [_ Hall].
  apply elem_of_cons in Hy as [->|Hy]; [lia|].
  rewrite Forall_forall in Hall. destruct (Hall y Hy) as [?|[? _]]; lia.
Qed.

Lemma add_start_elem st candidate s :
  s ∈ (add_start st candidate).2 -> s ∈ st.2 \/ s = candidate.
Proof. unfold add_start. case_decide; cbn; set_solver. Qed.

Lemma fold_add_start_elem l st s :
  s ∈ (foldl add_start st l).2 -> s ∈ st.2 \/ s ∈ l.
Proof.
  revert st. induction l as [|c l IH]; intros st; cbn; [auto|].
  intros [H|H]%IH; [|set_solver]. apply add_start_elem in H. set_solver.
Qed.

Lemma add_start_mono st l s : s ∈ st.2 -> s ∈ (foldl add_start st l).2.
Proof.
  revert st. induction l as [|c l IH]; intros st Hs; cbn; [done|]. apply IH.
  unfold add_start. case_decide; cbn; [done|set_solver].
Qed.

Lemma coordinateStarts_length total count s : s ∈ coordinateStarts total count -> length s = count.
Proof.
  unfold coordinateStarts. intros [H|H]%fold_add_start_elem; [by apply elem_of_nil in H|].
  apply elem_of_app in H as [H|H]; [|apply elem_of_app in H as [H|H]].
  - apply list_elem_of_fmap in H as (i & -> & _). unfold zeroAllocation.
    by rewrite length_insert, length_replicate.
  - apply list_elem_of_singleton in H as ->. unfold equal_start. by rewrite length_fmap, length_seq.
  - apply list_elem_of_fmap in H as ([l r] & -> & _). unfold zeroAllocation.
    by rewrite !length_insert, length_replicate.
Qed.

Lemma coordinateStarts_nonempty total count : (1 <= count)%nat -> coordinateStarts total count <> [].
Proof.
  intros Hc Hnil. unfold coordinateStarts in Hnil.
  destruct count as [|count]; [lia|]. cbn [seq fmap list_fmap app foldl] in Hnil.
  match type of Hnil with (foldl _ ?st ?l).2 = _ =>
    assert (<[O := total]> (zeroAllocation (Datatypes.S count)) ∈ (foldl add_start st l).2) as H end.
  { apply add_start_mono. unfold add_start. cbn. set_solver. }
  rewrite Hnil in H. by apply elem_of_nil in H.
Qed.

Lemma ranked_values (val : list Z -> Z -> Prop) starts ranked :
  Forall2 (fun s (p : list Z * Z) => p.1 = s /\ val s p.2) starts ranked ->
  (forall p, p ∈ ranked -> p.1 ∈ starts /\ val p.1 p.2) /\
  (forall s, s ∈ starts -> exists p, p ∈ ranked /\ p.1 = s).
Proof.
  induction 1 as [|s p starts ranked [Hp Hv] _ [IH1 IH2]].
  - split; intros x Hx; by apply elem_of_nil in Hx.
  - split.
    + intros q [->|Hq]%elem_of_cons; [rewrite Hp; set_solver|]. destruct (IH1 q Hq). set_solver.
    + intros x [->|Hx]%elem_of_cons; [exists p; set_solver|]. destruct (IH2 x Hx) as (q & ? & ?).
      exists q. set_solver.
Qed.

Section coordinate_spec.
Context {S : Type} (I : S -> Prop) (ctx_Err : option error).
Context (eval : list Z -> ST S Z) (val : list Z -> Z -> Prop).
Context (Heval : forall a, Spec I (eval a) (val a)).
Context (Hfun : forall a v w, val a v -> val a w -> v = w).
Context (Hnonneg : forall a v, val a v -> Forall (fun x => 0 <= x) a).

Lemma exhaustive_spec total count :
  0 <= total -> (1 <= count)%nat ->
  Spec I (exhaustiveCoordinates ctx_Err eval total count)
    (fun found => length found.1 = count /\ val found.1 found.2 /\
       forall l, length l = count -> Forall (fun x => 0 <= x) l -> Zsum l = total ->
         exists v, val l v /\ v <= found.2).
Proof using Heval Hfun.
  intros Ht Hc. unfold exhaustiveCoordinates. destruct (decide _); [apply Spec_fail|].
  destruct count as [|count]; [lia|].
  eapply Spec_bind; [apply (walk_spec I ctx_Err eval val Heval Hfun count [] total None); done|].
  intros best (Hok & _ & Hcov).
  assert (exists v, at_least v best) as (v & a & w & -> & _).
  { destruct (Hcov (replicate count 0 ++ [total])) as (v & _ & Hv); [| | |by exists v].
    - rewrite length_app, length_replicate. cbn. lia.
    - apply Forall_app. split; [by apply Forall_replicate|by constructor].
    - rewrite Zsum_app, Zsum_cons, Zsum_nil, Zsum_replicate_0. lia. }
  apply Spec_ret. destruct Hok as [Hval Hlen]. split_and!; [done..|].
  intros l Hl Hnn Hsum. destruct (Hcov l Hl Hnn Hsum) as (u & Hu & a' & w' & Heq & Hle).
  simplify_eq. by exists u.
Qed.

Definition search_best (before : list (list Z * Z)) (st : option (list Z * Z) * Z) (count : nat) : Prop :=
  best_ok val count st.1 /\ forall p, p ∈ before -> at_least p.2 st.1.

Lemma improve_starts_spec count settings (ranked : list (list Z * Z)) :
  0 <= st_neighborhood settings ->
  (forall p, p ∈ ranked -> length p.1 = count /\ val p.1 p.2) ->
  Spec I (foldST (improve_start ctx_Err eval count settings) (None, 0) ranked)
    (fun st => search_best ranked st count).
Proof using Heval Hfun Hnonneg.
  intros Hn Hr. apply (Spec_foldST _ _ (fun before st => search_best before st count)).
  - split; [done|]. intros p Hp. by apply elem_of_nil in Hp.
  - intros before p after [best swept] Hl [Hb Hall].
    destruct (Hr p) as [Hlen Hval]; [rewrite Hl; set_solver|].
    eapply Spec_weaken; [by apply (improve_start_spec I ctx_Err eval val Heval Hfun)|].
    intros st (Hok & Hle & Hat). split; [done|]. intros q [Hq|Hq]%elem_of_app.
    + eapply at_least_le; [by apply Hall|done].
    + by apply list_elem_of_singleton in Hq as ->.
Qed.

Lemma coordinateSearch_spec total count settings :
  0 <= total -> (1 <= count)%nat -> 0 <= st_neighborhood settings ->
  (1 <= st_maxStarts settings)%nat ->
  Spec I (coordinateSearch ctx_Err eval total count settings) (search_ok val total count).
Proof using Heval Hfun Hnonneg.
  intros Ht Hc Hn Hstarts. unfold coordinateSearch, search_ok.
  destruct (decide (count = 1%nat)) as [->|Hone].
  { eapply Spec_bind; [apply Heval|]. intros v Hv. apply Spec_ret. cbn.
    split_and!; [done..| |done]. intros _ [|x [|? ?]] Hl _ Hsum; try done.
    rewrite Zsum_cons, Zsum_nil, Z.add_0_r in Hsum. subst x. by exists v. }
  destruct (compositionCountAtMost _ _ _).
  { eapply Spec_bind; [by apply exhaustive_spec|]. intros [a v] (Hlen & Hv & Hall).
    apply Spec_ret. cbn in *. split_and!; [done..|by intros _|done]. }
  destruct (decide (count = 2%nat)) as [->|Htwo].
  { eapply Spec_bind; [by apply (maximizePair_spec I ctx_Err eval val Heval Hfun)|].
    intros [b v] (x0 & _ & Hv & _). apply Spec_ret. cbn in *. split_and!; [done..|lia]. }
  eapply Spec_bind; [by apply (rank_starts_spec I eval val Heval)|]. intros ranked Hranked.
  destruct (ranked_values _ _ _ Hranked) as [Hr1 Hr2].
  pose proof (sort_head ranked) as Hhead.
  assert (forall p, p ∈ take (st_maxStarts settings) (merge_sort ranked_le ranked) ->
    length p.1 = count /\ val p.1 p.2) as Htake.
  { intros p Hp. apply subseteq_take in Hp.
    rewrite merge_sort_Permutation in Hp. destruct (Hr1 p Hp) as [Hs Hv].
    split; [by eapply coordinateStarts_length|done]. }
  eapply Spec_bind; [by apply improve_starts_spec|]. intros [best swept] [Hok Hall]. cbn in Hok, Hall.
  assert (exists s, s ∈ coordinateStarts total count) as [s0 Hs0].
  { pose proof (coordinateStarts_nonempty total count Hc).
    destruct (coordinateStarts total count) as [|s ss]; [done|]. exists s. set_solver. }
  destruct (Hr2 s0 Hs0) as (p0 & Hp0 & _).
  destruct (merge_sort ranked_le ranked) as [|top rest]; [by rewrite Hhead in Hp0; apply elem_of_nil in Hp0|].
  destruct (st_maxStarts settings) as [|n]; [lia|]. cbn [take] in Hall.
  destruct (Hall top ltac:(set_solver)) as (a & v & -> & Htop).
  apply Spec_ret. cbn. destruct Hok as [Hval Hlen]. split_and!; [done..|].
  intros _ _ s Hs. destruct (Hr2 s Hs) as (p & Hp & <-). exists p.2.
  destruct (Hr1 p Hp) as [_ Hv]. split; [done|]. specialize (Hhead p Hp). lia.
Qed.
End coordinate_spec.

(** ** [coordinateOptimize] over a fresh cache *)

Section optimize_spec.
Context {S : Type} (I : S -> Prop) (ctx_Err : option error).
Context (total : Z) (objective : list Z -> ST S Z) (obj : list Z -> Z -> Prop).
Context (Hobj : forall a, allocationConserves a total -> Spec I (objective a) (obj a)).
Context (Hobjfun : forall a v w, obj a v -> obj a w -> v = w).

Definition settings_ok (settings : coordinateSettings) : Prop :=
  0 <= st_neighborhood settings /\ (1 <= st_maxStarts settings)%nat.

(** The result of an optimisation over [count] curves. *)
Definition optimized (count : nat) (r : coordinateResult) : Prop :=
  search_ok (alloc_value total obj) total count
    (mkSearchResult (cr_allocation r) (cr_value r) (cr_sweeps r) (cr_exhaustive r)).

Lemma coordinateOptimize_spec count settings :
  settings_ok settings ->
  Spec I (coordinateOptimize ctx_Err total count objective settings) (optimized count).
Proof using Hobj Hobjfun.
  intros [Hn Hstarts]. unfold coordinateOptimize. destruct (decide _) as [?|Hargs]; [apply Spec_fail|].
  intros s Hs.
  pose proof (coordinateSearch_spec (cache_inv I total obj) ctx_Err
    (evaluate ctx_Err total objective) (alloc_value total obj)
    (evaluate_spec I ctx_Err total objective obj Hobj)) as Hsearch.
  specialize (Hsearch ltac:(intros a v w (_ & H1 & _) (_ & H2 & _); by eapply Hobjfun)).
  specialize (Hsearch ltac:(intros a v ((H & _) & _); exact H) total count settings).
  specialize (Hsearch ltac:(destruct total; cbn in *; lia) ltac:(lia) Hn Hstarts (mkEvals ∅ 0 0, s)).
  destruct (coordinateSearch _ _ _ _ _ _) as [[r|e|w] [ev s']].
  - destruct Hsearch as [[_ HI] Hok]; [split; [intros key v; cbn; by rewrite lookup_empty|done]|].
    split; [done|]. exact Hok.
  - destruct Hsearch as [[_ HI] _]; [split; [intros key v; cbn; by rewrite lookup_empty|done]|].
    done.
  - destruct Hsearch as [_ []]; split; [intros key v; cbn; by rewrite lookup_empty|done].
Qed.
End optimize_spec.

(** ** Caches do not change the result *)

Section transparent.
Context {S : Type} (I : S -> Prop) (ctx_Err : option error).
Context (eval : list Z -> ST S Z) (eval' : list Z -> ST unit Z).
Context (Heval : forall a, Mimics I (eval a) (eval' a)).
#[local] Hint Resolve Heval : mimics.

Lemma check_ctx_mimics : Mimics I (check_ctx ctx_Err) (check_ctx ctx_Err).
Proof. unfold check_ctx. mimics. Qed.
#[local] Hint Resolve check_ctx_mimics : mimics.

Lemma pair_at_mimics base l r total x :
  Mimics I (pair_at eval base l r total x) (pair_at eval' base l r total x).
Proof using Heval. apply Heval. Qed.
#[local] Hint Resolve pair_at_mimics : mimics.

Lemma bisect_mimics fuel base l r total low high :
  Mimics I (bisect ctx_Err eval fuel base l r total low high)
           (bisect ctx_Err eval' fuel base l r total low high).
Proof using Heval.
  revert low high. induction fuel as [|fuel IH]; intros low high; cbn [bisect]; mimics.
Qed.
#[local] Hint Resolve bisect_mimics : mimics.

Lemma maximizePair_mimics base l r total n :
  Mimics I (maximizePair ctx_Err eval base l r total n) (maximizePair ctx_Err eval' base l r total n).
Proof using Heval. unfold maximizePair. mimics. Qed.
#[local] Hint Resolve maximizePair_mimics : mimics.

Lemma walk_mimics count prefix remaining best :
  Mimics I (walk ctx_Err eval count prefix remaining best) (walk ctx_Err eval' count prefix remaining best).
Proof using Heval.
  revert prefix remaining best. induction count as [|count IH]; intros prefix remaining best.
  - cbn [walk]. mimics.
  - destruct count as [|count]; [cbn [walk]; mimics|].
    change (Mimics I
      (_ ← check_ctx ctx_Err; foldST (fun best value =>
         walk ctx_Err eval (Datatypes.S count) (prefix ++ [value]) (remaining - value) best)
         best (seqZ 0 (remaining + 1)))
      (_ ← check_ctx ctx_Err; foldST (fun best value =>
         walk ctx_Err eval' (Datatypes.S count) (prefix ++ [value]) (remaining - value) best)
         best (seqZ 0 (remaining + 1)))). mimics.
Qed.
#[local] Hint Resolve walk_mimics : mimics.

Lemma exhaustive_mimics total count :
  Mimics I (exhaustiveCoordinates ctx_Err eval total count) (exhaustiveCoordinates ctx_Err eval' total count).
Proof using Heval. unfold exhaustiveCoordinates. mimics. Qed.
#[local] Hint Resolve exhaustive_mimics : mimics.

Lemma sweep_pair_mimics n st p :
  Mimics I (sweep_pair ctx_Err eval n st p) (sweep_pair ctx_Err eval' n st p).
Proof using Heval. destruct st as [[a c] b], p as [l r]. cbn [sweep_pair]. mimics. Qed.
#[local] Hint Resolve sweep_pair_mimics : mimics.

Lemma sweeps_mimics fuel count n a c d :
  Mimics I (sweeps ctx_Err eval fuel count n a c d) (sweeps ctx_Err eval' fuel count n a c d).
Proof using Heval.
  revert a c d. induction fuel as [|fuel IH]; intros a c d; cbn [sweeps]; mimics.
Qed.
#[local] Hint Resolve sweeps_mimics : mimics.

Lemma coordinateSearch_mimics total count settings :
  Mimics I (coordinateSearch ctx_Err eval total count settings)
           (coordinateSearch ctx_Err eval' total count settings).
Proof using Heval.
  unfold coordinateSearch, rank_starts, improve_start. mimics.
Qed.
End transparent.

(** ** The optimizer without its caches *)

Section pure.
Context (ctx_Err : option error).

Definition pure_evaluate (total : Z) (objective : list Z -> res Z) (a : list Z) : ST unit Z :=
  _ ← check_ctx ctx_Err;
  if decide (~ allocationConserves a total)
  then fail "candidate allocation does not conserve input" else
  value ← lift (objective a);
  if decide (Z.sgn value < 0) then fail "split objective returned invalid output" else mret value.

(** The plan an independent optimisation finds. *)
Definition plan_of (total : Z) (curves : list memoCurve) (settings : coordinateSettings) : res stagePlan :=
  if decide (curves = []) then
    if decide (Z.sgn total = 0) then Ok (mkStagePlan [] 0 0 false)
    else Err (Errorf "positive amount has no output curves")
  else if decide ((length curves < 1)%nat \/ Z.sgn total < 0)
  then Err (Errorf "invalid coordinate optimization") else
  r ← (coordinateSearch ctx_Err (pure_evaluate total (curves_value curves)) total
         (length curves) settings tt).1;
  Ok (mkStagePlan (sr_allocation r) (sr_value r) (sr_sweeps r) (sr_exhaustive r)).

Definition second_plan (second : list memoCurve) (settings : coordinateSettings) (total : Z) : res stagePlan :=
  if decide (Z.sgn total = 0)
  then Ok (mkStagePlan (zeroAllocation (length second)) 0 0 true)
  else wrap "optimize second-stage split: %w" (plan_of total second settings).

Definition flow_of (direct first second : list memoCurve) (settings : coordinateSettings)
    (a : list Z) : res flowEvaluation :=
  directOut ← curves_value direct (take (length direct) a);
  intermediate ← curves_value first (drop (length direct) a);
  plan ← second_plan second settings intermediate;
  Ok (mkFlowEvaluation (directOut + sp_output plan) directOut intermediate plan).

Section evaluate_mimics.
Context {S : Type} (I : S -> Prop) (total : Z) (objective : list Z -> ST S Z) (obj : list Z -> res Z).
Context (Hobj : forall a, Mimics I (objective a) (lift (obj a))).

Definition evals_pure (s : evals * S) : Prop :=
  (forall key v, ev_cache s.1 !! key = Some v -> exists a, key = allocationKey a /\
     allocationConserves a total /\ obj a = Ok v /\ 0 <= v) /\ I s.2.

Lemma evaluate_mimics a :
  Mimics evals_pure (evaluate ctx_Err total objective a) (pure_evaluate total obj a).
Proof using Hobj.
  intros [e s] [He HI]. unfold evaluate, pure_evaluate, check_ctx. destruct ctx_Err as [err|]; [done|].
  unfold mbind, st_bind, mret, st_ret, get, lift, fail, modify. cbn [fst snd].
  destruct (ev_cache e !! allocationKey a) as [v|] eqn:Hlook.
  - destruct (He _ _ Hlook) as (b & Hb & Hc & Hv & Hpos). apply allocationKey_inj in Hb as <-.
    rewrite decide_False by tauto. rewrite Hv. rewrite decide_False by (destruct v; cbn in *; lia).
    done.
  - destruct (decide (~ allocationConserves a total)) as [?|Hc]; [done|]. apply dec_stable in Hc.
    unfold zoom. cbn [snd fst]. pose proof (Hobj a s HI) as Ho.
    destruct (objective a s) as [r s']. destruct Ho as [HI' ->]. cbn [lift fst].
    destruct (obj a) as [v|err|w] eqn:Hv; [|done..]. destruct (decide _) as [?|Hneg]; [done|].
    split; [|done]. split; [|done]. cbn. intros key u. 
    destruct (decide (allocationKey a = key)) as [<-|Hne].
    + rewrite lookup_insert_eq. intros [= <-]. exists a. split_and!; try done.
      destruct v; cbn in *; lia.
    + rewrite lookup_insert_ne by done. apply He.
Qed.

(** What the caller reads of a result, without the counters. *)
Definition search_of (r : coordinateResult) : searchResult :=
  mkSearchResult (cr_allocation r) (cr_value r) (cr_sweeps r) (cr_exhaustive r).

Lemma coordinateOptimize_mimics count settings {B} (f : searchResult -> B) :
  Mimics I (r ← coordinateOptimize ctx_Err total count objective settings; mret (f (search_of r)))
    (if decide ((count < 1)%nat \/ Z.sgn total < 0) then fail "invalid coordinate optimization" else
     r ← coordinateSearch ctx_Err (pure_evaluate total obj) total count settings; mret (f r)).
Proof using Hobj.
  unfold coordinateOptimize. destruct (decide _); [by intros s Hs|]. intros s Hs.
  pose proof (coordinateSearch_mimics evals_pure ctx_Err _ _ evaluate_mimics total count settings
    (mkEvals ∅ 0 0, s)) as Hm.
  specialize (Hm ltac:(split; [intros key v; cbn; by rewrite lookup_empty|done])).
  unfold mbind, st_bind. rewrite (unit_state (coordinateSearch _ _ _ _ _)).
  destruct (coordinateSearch _ (evaluate _ _ _) _ _ _ _) as [r [e s']]. destruct Hm as [[_ HI] ->].
  destruct (coordinateSearch _ (pure_evaluate _ _) _ _ _ _).1 as [r|err|w]; [|done..].
  split; [done|]. by destruct r.
Qed.
End evaluate_mimics.

(** *** Curves and plans *)

Section plans.
Context (cs : list memoCurve) (Hcs : curves_ok cs).

Lemma curve_at_mimics c x : c ∈ cs -> Mimics (memos_ok cs) (curve_at c x) (lift (curve_value c x)).
Proof using Hcs.
  intros Hc s Hs. unfold curve_at, curve_value.
  destruct (decide (Z.sgn x < 0)) as [?|Hneg]; [done|].
  destruct (decide (Z.sgn x = 0)) as [?|Hz]; [done|].
  assert (0 < x) by (destruct x; cbn in *; lia).
  unfold mbind, st_bind, mret, st_ret, get, lift, modify. cbn [fst snd].
  destruct (if mc_cached c then _ else None) as [v|] eqn:Hlook.
  - split; [by apply memo_hit_ok|]. destruct (mc_cached c); [|done].
    destruct (Hs c _ _ Hc Hlook) as (y & Hy & _ & Hv). by apply (inj pretty) in Hy as ->.
  - destruct (quote_value c x) as [v|e|w] eqn:Hq; [|done..]. split; [|done]. by apply memo_store_ok.
Qed.

Lemma foldST_lift {A B} (f : B -> A -> res B) b l :
  foldST (fun b a => lift (f b a)) b l tt = lift (foldM f b l) tt.
Proof.
  revert b. induction l as [|a l IH]; intros b; [done|]. cbn. unfold lift at 1.
  destruct (f b a); [|done..]. apply IH.
Qed.

Lemma Mimics_ext {S A} (I : S -> Prop) (m : ST S A) m1 m2 : m1 tt = m2 tt -> Mimics I m m1 -> Mimics I m m2.
Proof. intros He Hm s Hs. specialize (Hm s Hs). destruct (m s). by rewrite <- He. Qed.

Lemma independent_objective_mimics curves a :
  curves ⊆ cs -> Mimics (memos_ok cs) (independent_objective curves a) (lift (curves_value curves a)).
Proof using Hcs.
  intros Hsub. unfold independent_objective, curves_value.
  eapply Mimics_ext; [by apply foldST_lift|]. apply Mimics_foldST. intros out [c x] Hin.
  apply elem_of_zip_l in Hin.
  apply (Mimics_ext _ _ (v ← lift (curve_value c x); mret (out + v))).
  { unfold mbind, st_bind, lift, mret, st_ret. cbn. by destruct (curve_value c x). }
  apply Mimics_bind; [by apply curve_at_mimics, Hsub|intros v; apply Mimics_ret].
Qed.

Lemma optimizeIndependent_mimics total curves settings :
  curves ⊆ cs ->
  Mimics (memos_ok cs) (optimizeIndependent ctx_Err total curves settings)
    (lift (plan_of total curves settings)).
Proof using Hcs.
  intros Hsub. unfold optimizeIndependent, plan_of. destruct (decide (curves = [])); [mimics|].
  pose proof (coordinateOptimize_mimics (memos_ok cs) total (independent_objective curves)
    (curves_value curves) (fun a => independent_objective_mimics curves a Hsub) (length curves) settings
    (fun r => mkStagePlan (sr_allocation r) (sr_value r) (sr_sweeps r) (sr_exhaustive r))) as Hm.
  eapply Mimics_ext; [|exact Hm]. destruct (decide _); [done|].
  unfold mbind, st_bind, lift, mret, st_ret. rewrite unit_state.
  by destruct (coordinateSearch _ _ _ _ _ _).1.
Qed.
End plans.
End pure.

Section two_stage.
Context (ctx_Err : option error) (direct first second : list memoCurve).
Context (settings : coordinateSettings) (Hset : settings_ok settings).
Abbreviation cs := (direct ++ first ++ second) (only parsing).
Context (Hcs : curves_ok cs).

(** Memos agree with their curves, cached plans are the plans found without
    the cache, and the verified flag covers every cached plan. *)
Record opt_ok (s : opt_state) : Prop := {
  oo_memos : memos_ok cs (os_memos s);
  oo_plans : forall key p, os_secondCache s !! key = Some p ->
    exists t, key = pretty t /\ Z.sgn t <> 0 /\ second_plan ctx_Err second settings t = Ok p }.

Lemma on_memos_mimics {A} (m : ST memos A) m' :
  Mimics (memos_ok cs) m m' -> Mimics opt_ok (on_memos m) m'.
Proof.
  intros Hm. apply (Mimics_zoom (memos_ok cs)); [done|by intros s []|].
  intros s t [H1 H2] Ht. by split.
Qed.

Lemma sub_direct : direct ⊆ cs.
Proof. intros c Hc. rewrite !elem_of_app. by left. Qed.
Lemma sub_first : first ⊆ cs.
Proof. intros c Hc. rewrite !elem_of_app. by right; left. Qed.
Lemma sub_second : second ⊆ cs.
Proof. intros c Hc. rewrite !elem_of_app. by right; right. Qed.

Lemma optimizeSecond_mimics t :
  Mimics opt_ok (optimizeSecond ctx_Err second settings t) (lift (second_plan ctx_Err second settings t)).
Proof using Hcs.
  intros s Hs. unfold optimizeSecond, second_plan. destruct (decide (Z.sgn t = 0)) as [?|Hz]; [done|].
  unfold mbind, st_bind, get. cbn [fst snd].
  destruct (os_secondCache s !! pretty t) as [p|] eqn:Hlook.
  - destruct (oo_plans s Hs _ _ Hlook) as (u & Hu & _ & Hp). apply (inj pretty) in Hu as <-.
    unfold second_plan in Hp. rewrite decide_False in Hp by done. unfold lift. by rewrite Hp.
  - pose proof (Mimics_wrapST opt_ok "optimize second-stage split: %w" _ _
      (on_memos_mimics _ _ (optimizeIndependent_mimics ctx_Err cs Hcs t second settings sub_second)) s Hs) as Hm.
    destruct (wrapST _ _ s) as [r s']. destruct Hm as [Hs' ->].
    change ((wrapST "optimize second-stage split: %w" (lift (plan_of ctx_Err t second settings))) tt).1
      with (wrap "optimize second-stage split: %w" (plan_of ctx_Err t second settings)).
    unfold lift. cbn [fst]. destruct (wrap _ _) as [p|e|w] eqn:Hp; [|done..].
    split; [|done]. split; [apply Hs'|]. cbn. intros key q.
    destruct (decide (pretty t = key)) as [<-|Hne].
    + rewrite lookup_insert_eq. intros [= <-]. exists t. split_and!; [done..|].
      unfold second_plan. by rewrite decide_False.
    + rewrite lookup_insert_ne by done. apply (oo_plans s' Hs').
Qed.

Lemma evaluateFlow_mimics a :
  Mimics opt_ok (evaluateFlow ctx_Err direct first second settings a)
    (lift (flow_of ctx_Err direct first second settings a)).
Proof using Hcs.
  unfold evaluateFlow, flow_of.
  apply (Mimics_ext _ _ (directOut ← lift (curves_value direct (take (length direct) a));
    intermediate ← lift (curves_value first (drop (length direct) a));
    plan ← lift (second_plan ctx_Err second settings intermediate);
    mret (mkFlowEvaluation (directOut + sp_output plan) directOut intermediate plan))).
  { unfold mbind, st_bind, lift, mret, st_ret. cbn.
    destruct (curves_value direct _); [|done..]. cbn. destruct (curves_value first _); [|done..].
    cbn. by destruct (second_plan _ _ _). }
  apply Mimics_bind; [|intros d; apply Mimics_bind; [|intros m; apply Mimics_bind]].
  - apply on_memos_mimics, (independent_objective_mimics cs Hcs), sub_direct.
  - apply on_memos_mimics, (independent_objective_mimics cs Hcs), sub_first.
  - apply optimizeSecond_mimics.
  - intros p. apply Mimics_ret.
Qed.

(** The same facts without state: plans conserve what they divide. *)
Lemma curve_value_no_panic c x : c ∈ cs -> no_panic (curve_value c x).
Proof using Hcs.
  intros Hc. unfold curve_value. no_panic_auto. by apply quote_value_no_panic, (co_quotes cs Hcs).
Qed.

Lemma curves_value_no_panic curves a : curves ⊆ cs -> no_panic (curves_value curves a).
Proof using Hcs.
  intros Hsub. unfold curves_value. apply no_panic_foldM. intros out [c x] Hin.
  apply elem_of_zip_l in Hin. apply no_panic_bind; [|done]. by apply curve_value_no_panic, Hsub.
Qed.

Definition plan_ok (curves : list memoCurve) (total : Z) (p : stagePlan) : Prop :=
  length (sp_allocations p) = length curves /\ allocationConserves (sp_allocations p) total /\
  curves_value curves (sp_allocations p) = Ok (sp_output p) /\ 0 <= sp_output p /\
  (sp_exhaustive p = true -> forall l, length l = length curves -> allocationConserves l total ->
     exists v, curves_value curves l = Ok v /\ v <= sp_output p).

Lemma pure_evaluate_spec total obj a :
  (forall b, no_panic (obj b)) ->
  Spec (fun _ => True) (pure_evaluate ctx_Err total obj a)
    (alloc_value total (fun b v => obj b = Ok v) a).
Proof.
  intros Hp. unfold pure_evaluate. eapply Spec_bind; [apply check_ctx_spec|]. intros _ _.
  destruct (decide _) as [?|Hc]; [apply Spec_fail|]. apply dec_stable in Hc.
  eapply Spec_bind; [by apply (Spec_lift _ _ (fun v => obj a = Ok v))|]. intros v Hv.
  destruct (decide _); [apply Spec_fail|]. apply Spec_ret.
  split_and!; [done..|]. destruct v; cbn in *; lia.
Qed.

Lemma plan_of_spec total curves :
  curves ⊆ cs -> no_panic (plan_of ctx_Err total curves settings) /\
  forall p, plan_of ctx_Err total curves settings = Ok p -> plan_ok curves total p.
Proof using Hcs Hset.
  intros Hsub. unfold plan_of. destruct (decide (curves = [])) as [->|Hne].
  { destruct (decide _) as [Hz|]; [|done]. split; [done|]. intros p [= <-].
    apply Z.sgn_null_iff in Hz as ->. by split_and!. }
  destruct (decide _) as [|Hargs]; [done|]. destruct Hset as [Hn Hstarts].
  pose proof (coordinateSearch_spec (fun _ => True) ctx_Err
    (pure_evaluate ctx_Err total (curves_value curves))
    (alloc_value total (fun b v => curves_value curves b = Ok v))
    (fun a => pure_evaluate_spec total (curves_value curves) a
       (fun b => curves_value_no_panic curves b Hsub))) as Hs.
  specialize (Hs ltac:(intros a v w (_ & H1 & _) (_ & H2 & _); congruence)).
  specialize (Hs ltac:(intros a v ((H & _) & _); exact H) total (length curves) settings).
  specialize (Hs ltac:(destruct total; cbn in *; lia) ltac:(lia) Hn Hstarts tt I).
  destruct (coordinateSearch _ _ _ _ _ tt) as [r []]. destruct Hs as [_ Hs].
  destruct r as [r|e|w]; [|done..]. split; [done|]. intros p [= <-].
  destruct Hs as (Hlen & (Hcons & Hval & Hpos) & Hex & _).
  split_and!; try done. cbn. intros He l Hl [Hnn Hsum].
  destruct (Hex He l Hl Hnn Hsum) as (v & (_ & Hv & _) & Hle). by exists v.
Qed.

Lemma zero_plan : curves_value second (zeroAllocation (length second)) = Ok 0.
Proof.
  unfold curves_value, zeroAllocation. clear. induction second as [|c l IH]; [done|].
  cbn [length replicate zip zip_with foldM]. unfold curve_value at 1. cbn. exact IH.
Qed.

Lemma second_plan_spec t :
  no_panic (second_plan ctx_Err second settings t) /\
  forall p, second_plan ctx_Err second settings t = Ok p -> plan_ok second t p.
Proof using Hcs Hset.
  unfold second_plan. destruct (plan_of_spec t second sub_second) as [Hp Hok].
  destruct (decide (Z.sgn t = 0)) as [Hz|Hz].
  - split; [done|]. intros p [= <-]. apply Z.sgn_null_iff in Hz as ->.
    assert (allocationConserves (zeroAllocation (length second)) 0) as Hc.
    { split; [by apply Forall_replicate|apply Zsum_replicate_0]. }
    split_and!; cbn; try done; [apply length_replicate|apply zero_plan|].
    intros _ l Hl [Hnn Hsum]. exists 0. split; [|lia].
    assert (l = zeroAllocation (length second)) as ->; [|apply zero_plan].
    apply list_eq_same_length with (length l);
      [unfold zeroAllocation; by rewrite length_replicate|done|].
    intros i x y Hi Hx Hy. unfold zeroAllocation in Hy. apply lookup_replicate in Hy as [-> _].
    pose proof (Zsum_elem_le l x Hnn) as Hle. apply list_elem_of_lookup_2 in Hx as Hin.
    rewrite Forall_forall in Hnn. specialize (Hnn x Hin). specialize (Hle Hin). lia.
  - split; [by apply no_panic_wrap|]. intros p Hw. apply wrap_Ok in Hw. by apply Hok.
Qed.

Lemma flow_of_no_panic a : no_panic (flow_of ctx_Err direct first second settings a).
Proof using Hcs Hset.
  unfold flow_of. repeat (apply no_panic_bind; [|intros ? ?]); try done.
  - apply curves_value_no_panic, sub_direct.
  - apply curves_value_no_panic, sub_first.
  - apply second_plan_spec.
Qed.

(** *** The whole run *)

Definition flow_ok (a : list Z) (e : flowEvaluation) : Prop :=
  curves_value direct (take (length direct) a) = Ok (fe_directOut e) /\
  curves_value first (drop (length direct) a) = Ok (fe_intermediate e) /\
  plan_ok second (fe_intermediate e) (fe_second e) /\
  fe_output e = fe_directOut e + sp_output (fe_second e).

Lemma flow_of_Ok a e : flow_of ctx_Err direct first second settings a = Ok e -> flow_ok a e.
Proof using Hcs Hset.
  unfold flow_of. intros H. res_inv. subst e. split_and!; try done.
  by apply (second_plan_spec x0).
Qed.

Lemma evaluateFlow_spec a :
  Spec opt_ok (evaluateFlow ctx_Err direct first second settings a)
    (fun e => flow_of ctx_Err direct first second settings a = Ok e).
Proof using Hcs Hset.
  apply (Mimics_Spec _ _ _ (evaluateFlow_mimics a)). apply flow_of_no_panic.
Qed.

Lemma on_memos_spec {A} (m : ST memos A) Q : Spec (memos_ok cs) m Q -> Spec opt_ok (on_memos m) Q.
Proof.
  intros Hm. apply (Spec_zoom (memos_ok cs)); [done|by intros s []|].
  intros s t [H1 H2] Ht. by split.
Qed.

Definition run_ok (total : Z) (r : TwoStageSplitResult) : Prop :=
  exists a e, length a = length (direct ++ first) /\ allocationConserves a total /\ flow_ok a e /\
    materialized direct (take (length direct) a) (rs_Direct r) /\
    materialized first (drop (length direct) a) (rs_FirstStage r) /\
    materialized second (sp_allocations (fe_second e)) (rs_SecondStage r) /\
    rs_TotalInput r = total /\ rs_IntermediateOut r = fe_intermediate e /\
    rs_TotalOutput r = fe_output e /\ rs_InputResolution r = 1.

Lemma optimizeIndependent_spec total curves :
  curves ⊆ cs ->
  Spec (memos_ok cs) (optimizeIndependent ctx_Err total curves settings) (plan_ok curves total).
Proof using Hcs Hset.
  intros Hsub. destruct (plan_of_spec total curves Hsub) as [Hp Hok].
  eapply Spec_weaken;
    [apply (Mimics_Spec _ _ _ (optimizeIndependent_mimics ctx_Err cs Hcs total curves settings Hsub)); exact Hp|].
  intros p Hplan. by apply Hok.
Qed.

Lemma run_spec total :
  Spec opt_ok (OptimizeTwoStage_run ctx_Err total direct first second settings) (run_ok total).
Proof using Hcs Hset.
  unfold OptimizeTwoStage_run.
  eapply Spec_bind.
  { apply Spec_wrapST. apply (coordinateOptimize_spec opt_ok ctx_Err total _
      (fun a v => exists e, flow_of ctx_Err direct first second settings a = Ok e /\ fe_output e = v)).
    - intros a _. eapply Spec_bind; [apply evaluateFlow_spec|]. intros e He. apply Spec_ret. by exists e.
    - intros a v w (e1 & H1 & <-) (e2 & H2 & <-). congruence.
    - exact Hset. }
  intros outer (Hlen & (Hcons & _) & _). cbn in Hlen, Hcons.
  eapply Spec_bind; [apply evaluateFlow_spec|]. intros ev Hev. cbn beta.
  eapply (Spec_bind _ _ _ (fun final : list Z * flowEvaluation =>
    length final.1 = length (direct ++ first) /\ allocationConserves final.1 total /\ flow_ok final.1 final.2)).
  { destruct (decide _).
    - eapply Spec_bind; [by apply Spec_wrapST, on_memos_spec, optimizeIndependent_spec, sub_direct|].
      intros plan (Hpl & [Hnn Hsum] & _). eapply Spec_bind; [apply evaluateFlow_spec|].
      intros ev' Hev'. apply Spec_ret. split_and!; [|split|by apply flow_of_Ok].
      + cbn. unfold zeroAllocation. by rewrite !length_app, length_replicate, Hpl.
      + cbn. apply Forall_app. split; [done|]. by apply Forall_replicate.
      + cbn. unfold zeroAllocation. rewrite Zsum_app, Zsum_replicate_0. lia.
    - apply Spec_ret. split_and!; [done|apply Hcons|by apply flow_of_Ok]. }
  intros [a e] (Ha & Hconsa & Hflow). cbn in Ha, Hconsa, Hflow.
  eapply Spec_bind; [apply on_memos_spec, (materialize_spec cs); [done|apply sub_direct]|]. intros d Hd.
  eapply Spec_bind; [apply on_memos_spec, (materialize_spec cs); [done|apply sub_first]|]. intros f Hf.
  eapply Spec_bind; [apply on_memos_spec, (materialize_spec cs); [done|apply sub_second]|]. intros g Hg.
  eapply Spec_bind; [by apply (Spec_get opt_ok (fun _ => True))|]. intros s _.
  destruct (curve_counters _ _) as [calls hits]. apply Spec_ret.
  exists a, e. split_and!; done.
Qed.
End two_stage.

(** Sums of a materialised allocation. *)
Lemma materialized_sums curves amounts l :
  length amounts = length curves -> materialized curves amounts l ->
  Zsum (sa_AmountIn <$> l) = Zsum amounts /\
  curves_value curves amounts = Ok (Zsum (sa_AmountOut <$> l)).
Proof.
  unfold materialized, curves_value.
  assert (forall n, length amounts = length curves ->
    Forall2 (fun '(c, x) a => sa_CurveID a = mc_id c /\ sa_AmountIn a = x /\
             curve_value c x = Ok (sa_AmountOut a)) (zip curves amounts) l ->
    Zsum (sa_AmountIn <$> l) = Zsum amounts /\
    foldM (fun output '(c, amount) => value ← curve_value c amount; Ok (output + value)) n
      (zip curves amounts) = Ok (n + Zsum (sa_AmountOut <$> l))) as Hgen;
    [|intros H1 H2; exact (Hgen 0 H1 H2)].
  intros n Hlen H. revert n amounts Hlen H. revert l.
  induction curves as [|c curves IH]; intros l n amounts Hlen H; destruct amounts as [|x amounts]; try done.
  - apply Forall2_nil_inv_l in H as ->. cbn. rewrite !Zsum_nil, Z.add_0_r. done.
  - cbn [zip zip_with] in H. apply Forall2_cons_inv_l in H as (a & l' & (_ & Hx & Hv) & H & ->).
    cbn [zip zip_with foldM fmap list_fmap]. rewrite Hv. cbn [mbind res_bind].
    destruct (IH l' (n + sa_AmountOut a) amounts ltac:(by injection Hlen) H) as [H1 H2].
    rewrite !Zsum_cons, H1, Hx. split; [done|]. etrans; [exact H2|]. f_equal. lia.
Qed.

Lemma take_drop_sum n (a : list Z) : Zsum (take n a) + Zsum (drop n a) = Zsum a.
Proof. rewrite <- Zsum_app. by rewrite take_drop. Qed.

(** What a caller can rely on: every entry is a non-negative input with the
    output its curve quotes for it, and the flow balances at each stage. *)
Record split_sound (quote_of : SplitAllocation -> Prop) (total : Z) (r : TwoStageSplitResult) : Prop := {
  ss_entries : forall a, a ∈ rs_Direct r ++ rs_FirstStage r ++ rs_SecondStage r ->
    0 <= sa_AmountIn a /\ 0 <= sa_AmountOut a /\ quote_of a;
  ss_total : rs_TotalInput r = total;
  ss_input : Zsum (sa_AmountIn <$> rs_Direct r) + Zsum (sa_AmountIn <$> rs_FirstStage r) = total;
  ss_intermediate : Zsum (sa_AmountOut <$> rs_FirstStage r) = rs_IntermediateOut r;
  ss_second : Zsum (sa_AmountIn <$> rs_SecondStage r) = rs_IntermediateOut r;
  ss_output : rs_TotalOutput r =
    Zsum (sa_AmountOut <$> rs_Direct r) + Zsum (sa_AmountOut <$> rs_SecondStage r) }.

Lemma run_ok_sound direct first second total r :
  run_ok direct first second total r ->
  split_sound (fun a => exists c, c ∈ direct ++ first ++ second /\ sa_CurveID a = mc_id c /\
                 curve_value c (sa_AmountIn a) = Ok (sa_AmountOut a)) total r.
Proof.
  intros (a & e & Hlen & [Hnn Hsum] & (Hd & Hf & Hplan & Hout) & Md & Mf & Ms & Ht & Hi & Ho & _).
  rewrite length_app in Hlen.
  assert (length (take (length direct) a) = length direct) as Ld by (rewrite length_take; lia).
  assert (length (drop (length direct) a) = length first) as Lf by (rewrite length_drop; lia).
  destruct Hplan as (Ls & [Hsnn Hssum] & Hsv & _).
  destruct (materialized_sums _ _ _ Ld Md) as [Id Od]. destruct (materialized_sums _ _ _ Lf Mf) as [If Of].
  destruct (materialized_sums _ _ _ Ls Ms) as [Is Os].
  rewrite Od in Hd. rewrite Of in Hf. rewrite Os in Hsv.
  injection Hd as Hd. injection Hf as Hf. injection Hsv as Hsv.
  split.
  - assert (forall curves amounts l x, materialized curves amounts l -> Forall (fun y => 0 <= y) amounts ->
      x ∈ l -> 0 <= sa_AmountIn x /\ 0 <= sa_AmountOut x /\ exists c, c ∈ curves /\
        sa_CurveID x = mc_id c /\ curve_value c (sa_AmountIn x) = Ok (sa_AmountOut x)) as Hent.
    { intros curves amounts l x Hm Hpos Hx. apply list_elem_of_lookup in Hx as [k Hk].
      destruct (Forall2_lookup_r _ _ _ _ _ Hm Hk) as ([c y] & Hz & Hid & <- & Hv).
      apply list_elem_of_lookup_2 in Hz.
      pose proof (elem_of_zip_l _ _ _ _ Hz) as Hc. pose proof (elem_of_zip_r _ _ _ _ Hz) as Hy.
      rewrite Forall_forall in Hpos. split_and!; [by apply Hpos|by eapply curve_value_nonneg|].
      by exists c. }
    intros x. rewrite !elem_of_app. intros [Hx|[Hx|Hx]].
    + destruct (Hent _ _ _ _ Md (Forall_take _ _ _ Hnn) Hx) as (? & ? & c & ? & ? & ?).
      split_and!; [done..|]. exists c. rewrite !elem_of_app. auto.
    + destruct (Hent _ _ _ _ Mf (Forall_drop _ _ _ Hnn) Hx) as (? & ? & c & ? & ? & ?).
      split_and!; [done..|]. exists c. rewrite !elem_of_app. auto.
    + destruct (Hent _ _ _ _ Ms Hsnn Hx) as (? & ? & c & ? & ? & ?).
      split_and!; [done..|]. exists c. rewrite !elem_of_app. auto.
  - done.
  - rewrite Id, If. by rewrite take_drop_sum.
  - congruence.
  - rewrite Is. congruence.
  - rewrite Ho, Hout. congruence.
Qed.

Definition request_quotes_total (request : TwoStageSplitRequest) : Prop :=
  quotes_total (rq_Direct request) /\ quotes_total (rq_FirstStage request) /\
  quotes_total (rq_SecondStage request).

(** What a run of the optimizer returns, with the curves it built. *)
Definition two_stage_ok (request : TwoStageSplitRequest) (r : TwoStageSplitResult) : Prop :=
  exists total direct first second,
    rq_TotalInput request = Some total /\ 0 < total /\
    newMemoCurves (rq_Direct request) = Ok direct /\ newMemoCurves (rq_FirstStage request) = Ok first /\
    newMemoCurves (rq_SecondStage request) = Ok second /\ curves_ok (direct ++ first ++ second) /\
    run_ok direct first second total r.

Lemma OptimizeTwoStageSplit_spec (ctx_Err : option error) (request : TwoStageSplitRequest) :
  request_quotes_total request ->
  match OptimizeTwoStageSplit ctx_Err request with
  | Panic _ => False | Err _ => True | Ok r => two_stage_ok request r
  end.
Proof.
  intros (Hq1 & Hq2 & Hq3).
  unfold two_stage_ok, OptimizeTwoStageSplit. destruct ctx_Err as [e|]; [done|].
  destruct (rq_TotalInput request) as [total|]; [|done].
  destruct (decide (Z.sgn total <= 0)) as [|Hpos]; [done|]. repeat (destruct (decide _) as [|?Hd]; [done|]).
  destruct (newMemoCurves (rq_Direct request)) as [d|e|w] eqn:Hdir; cbn [wrap mbind res_bind]; [|done|].
  2:{ by destruct (newCurves_loop_no_panic (merge_sort curve_le (rq_Direct request)) true w). }
  destruct (newMemoCurves (rq_FirstStage request)) as [f|e|w] eqn:Hfst; cbn [wrap mbind res_bind]; [|done|].
  2:{ by destruct (newCurves_loop_no_panic (merge_sort curve_le (rq_FirstStage request)) true w). }
  destruct (newMemoCurves (rq_SecondStage request)) as [s|e|w] eqn:Hsnd; cbn [wrap mbind res_bind]; [|done|].
  2:{ by destruct (newCurves_loop_no_panic (merge_sort curve_le (rq_SecondStage request)) true w). }
  destruct (uniqueCurveIDs [d; f; s]) as [u|e|w] eqn:Hids; cbn [mbind res_bind]; [|done|].
  2:{ assert (no_panic (uniqueCurveIDs [d; f; s])) as Hnp by (unfold uniqueCurveIDs; no_panic_auto).
      by destruct (Hnp w). }
  apply uniqueCurveIDs_Ok in Hids. cbn [concat] in Hids. rewrite app_nil_r in Hids.
  assert (curves_ok (d ++ f ++ s)) as Hcs.
  { split; [done|]. intros c x. rewrite !elem_of_app.
    intros [Hc|[Hc|Hc]]; [exact (newCurves_quotes _ _ _ c x Hq1 Hdir Hc)
      |exact (newCurves_quotes _ _ _ c x Hq2 Hfst Hc)|exact (newCurves_quotes _ _ _ c x Hq3 Hsnd Hc)]. }
  match goal with |- context [OptimizeTwoStage_run None total d f s ?st] => set (settings := st) end.
  assert (settings_ok settings) as Hset.
  { unfold settings, settings_ok. cbn [st_neighborhood st_maxStarts]. split; lia. }
  pose proof (run_spec None d f s settings Hset Hcs total (mkOptState ∅ ∅ 0 0 true)) as Hrun.
  specialize (Hrun ltac:(split; cbn; [intros c key v _; unfold memo_of; rewrite lookup_empty; cbn;
    by rewrite lookup_empty|intros key p; by rewrite lookup_empty])).
  destruct (OptimizeTwoStage_run _ _ _ _ _ _ _) as [[r|e|w] st]; cbn [fst]; [|done|].
  - destruct Hrun as [_ Hrun]. exists total, d, f, s. split_and!; try done.
    destruct (Z.sgn_spec total); lia.
  - by destruct Hrun.
Qed.

(** OptimizeTwoStageSplit never panics (in particular its searches end within
    their fuel), and the allocation it returns is executable arithmetic: the
    direct and first-stage inputs add up to the whole input, the second stage
    consumes exactly what the first one produces, every output is the one the
    curve itself quotes for that input, and the claimed total is their sum. *)
Theorem OptimizeTwoStageSplit_sound (ctx_Err : option error) (request : TwoStageSplitRequest) :
  request_quotes_total request ->
  no_panic (OptimizeTwoStageSplit ctx_Err request) /\
  forall r, OptimizeTwoStageSplit ctx_Err request = Ok r ->
  exists total direct first second,
    rq_TotalInput request = Some total /\ 0 < total /\
    newMemoCurves (rq_Direct request) = Ok direct /\ newMemoCurves (rq_FirstStage request) = Ok first /\
    newMemoCurves (rq_SecondStage request) = Ok second /\
    split_sound (fun a => exists c, c ∈ direct ++ first ++ second /\ sa_CurveID a = mc_id c /\
                   curve_value c (sa_AmountIn a) = Ok (sa_AmountOut a)) total r.
Proof.
  intros Hq. pose proof (OptimizeTwoStageSplit_spec ctx_Err request Hq) as H.
  destruct (OptimizeTwoStageSplit ctx_Err request) as [r|e|w]; [|done..]. split; [done|].
  intros r' [= <-]. destruct H as (total & d & f & s & ? & ? & ? & ? & ? & ? & Hrun).
  exists total, d, f, s. split_and!; try done. by apply run_ok_sound.
Qed.

(** ** How many allocations an exhaustive search visits *)

Fixpoint compositions (count total : nat) : list (list Z) :=
  match count with
  | O => if decide (total = 0%nat) then [[]] else []
  | S count => x ← seq 0 (S total); cons (Z.of_nat x) <$> compositions count (total - x)
  end.

(** Compositions into [i + 1] parts, by Pascal's rule. *)
Fixpoint composition_number (i n : nat) : Z :=
  match i with
  | O => 1
  | S i => (fix go n := match n with O => 1 | S n' => go n' + composition_number i n end) n
  end.

Lemma composition_number_0 i : composition_number i 0 = 1.
Proof. by destruct i. Qed.

Lemma composition_number_S i n :
  composition_number (S i) (S n) = composition_number (S i) n + composition_number i (S n).
Proof. done. Qed.

Lemma composition_number_pos i n : 1 <= composition_number i n.
Proof.
  revert n. induction i as [|i IH]; intros n; [done|].
  induction n as [|n IHn]; [done|]. rewrite composition_number_S. specialize (IH (S n)). lia.
Qed.

(** The two product rules that make the loop's divisions exact. *)
Lemma composition_number_product i n :
  (Z.of_nat (S i)) * composition_number (S i) n = (Z.of_nat n + Z.of_nat (S i)) * composition_number i n /\
  (Z.of_nat (S n) + Z.of_nat i) * composition_number i n = Z.of_nat (S n) * composition_number i (S n).
Proof.
  revert n. induction i as [|i IH].
  - intros n. split; [|cbn; lia]. induction n as [|n IHn]; [done|].
    rewrite composition_number_S. cbn [composition_number] in *. lia.
  - assert (forall n, (Z.of_nat (S n) + Z.of_nat (S i)) * composition_number (S i) n =
      Z.of_nat (S n) * composition_number (S i) (S n)) as HB.
    { intros n. rewrite composition_number_S. destruct (IH n) as [HA HB0]. nia. }
    intros n. split; [|apply HB]. induction n as [|n IHn].
    + rewrite !composition_number_0. lia.
    + rewrite composition_number_S. specialize (HB n). rewrite Z.mul_add_distr_l, IHn. nia.
Qed.

Lemma compositionCount_loop_spec n limit k i :
  compositionCount_loop (Z.of_nat n) (composition_number i n) limit (seqZ (Z.of_nat (S i)) (Z.of_nat k)) =
  bool_decide (k = 0%nat \/ composition_number (i + k) n <= limit).
Proof.
  revert i. induction k as [|k IH]; intros i.
  - cbn. symmetry. by apply bool_decide_eq_true_2; left.
  - rewrite seqZ_cons by lia. cbn [compositionCount_loop].
    replace (Z.quot (composition_number i n * (Z.of_nat n + Z.of_nat (S i))) (Z.of_nat (S i)))
      with (composition_number (S i) n).
    2:{ destruct (composition_number_product i n) as [HA _].
        rewrite (Z.mul_comm (composition_number i n)), <- HA, Z.mul_comm, Z.quot_mul; lia. }
    replace (Z.succ (Z.of_nat (S i))) with (Z.of_nat (S (S i))) by lia.
    replace (Z.pred (Z.of_nat (S k))) with (Z.of_nat k) by lia.
    assert (forall j, composition_number (S i) n <= composition_number (S i + j) n) as Hmono.
    { induction j as [|j IHj]; [rewrite Nat.add_0_r; lia|].
      replace (S i + S j)%nat with (S (S i + j)) by lia. etrans; [exact IHj|].
      destruct n as [|m]; [by rewrite !composition_number_0|].
      rewrite composition_number_S. pose proof (composition_number_pos (S (S i + j)) m). lia. }
    destruct (decide (limit < composition_number (S i) n)) as [Hlim|Hlim].
    + symmetry. apply bool_decide_eq_false_2. intros [?|Hle]; [done|].
      specialize (Hmono k). replace (i + S k)%nat with (S i + k)%nat in Hle by lia. lia.
    + rewrite IH. apply bool_decide_ext. replace (i + S k)%nat with (S i + k)%nat by lia.
      split; [|intros [?|?]; [done|by right]]. intros [->|?]; [right|by right].
      rewrite Nat.add_0_r. lia.
Qed.

Lemma compositions_length_sum (g : nat -> nat) n :
  sum_list_with (fun x => g (S n - x)%nat) (seq 0 (S (S n))) =
  (g (S n) + sum_list_with (fun x => g (n - x)%nat) (seq 0 (S n)))%nat.
Proof.
  rewrite <- cons_seq. cbn [sum_list_with]. rewrite Nat.sub_0_r. f_equal.
  rewrite <- fmap_S_seq. generalize (seq 0 (S n)). intros l.
  induction l as [|x l IH]; [done|]. rewrite fmap_cons. cbn [sum_list_with]. by rewrite IH.
Qed.

Lemma length_list_bind {A B} (f : A -> list B) l :
  length (l ≫= f) = sum_list_with (fun x => length (f x)) l.
Proof.
  induction l as [|a l IH]; [done|]. rewrite bind_cons, length_app. cbn [sum_list_with]. by rewrite IH.
Qed.

Lemma compositions_length_S count n :
  length (compositions (S count) n) = sum_list_with (fun x => length (compositions count (n - x))) (seq 0 (S n)).
Proof.
  cbn [compositions]. rewrite length_list_bind.
  generalize (seq 0 (S n)). intros l. induction l as [|x l IH]; [done|].
  cbn [sum_list_with]. by rewrite length_fmap, IH.
Qed.

Lemma compositions_length_step count n :
  length (compositions (S count) (S n)) = (length (compositions count (S n)) + length (compositions (S count) n))%nat.
Proof. rewrite !compositions_length_S. apply (compositions_length_sum (fun m => length (compositions count m))). Qed.

Lemma compositions_length_0 count : length (compositions count 0) = 1%nat.
Proof.
  induction count as [|count IH]; [done|]. rewrite compositions_length_S. cbn. by rewrite IH.
Qed.

Lemma compositions_length i n :
  Z.of_nat (length (compositions (S i) n)) = composition_number i n.
Proof.
  revert n. induction i as [|i IH]; intros n; (induction n as [|n IHn];
    [by rewrite compositions_length_0, composition_number_0|]); rewrite compositions_length_step.
  - change (composition_number 0 (S n)) with 1. change (composition_number 0 n) with 1 in IHn.
    change (length (compositions 0 (S n))) with 0%nat. lia.
  - rewrite composition_number_S, <- IHn, <- IH. lia.
Qed.

Lemma compositions_spec count n l :
  l ∈ compositions count n <->
  length l = count /\ Forall (fun x => 0 <= x) l /\ Zsum l = Z.of_nat n.
Proof.
  revert n l. induction count as [|count IH]; intros n l; cbn [compositions].
  - case_decide as Hn.
    + rewrite list_elem_of_singleton. split; [intros ->; subst; split_and!; [done|constructor|done]|].
      intros (Hl & _). by destruct l.
    + rewrite elem_of_nil. split; [done|]. intros (Hl & _ & Hs). destruct l; [|done]. rewrite Zsum_nil in Hs. lia.
  - rewrite list_elem_of_bind. split.
    + intros (x & Hl & Hx%elem_of_seq). apply list_elem_of_fmap in Hl as (t & -> & Ht).
      apply IH in Ht as (Ht & Hnn & Hs). rewrite Zsum_cons, Hs. cbn [length].
      split_and!; [lia|constructor; [lia|done]|lia].
    + intros (Hl & Hnn & Hs). destruct l as [|x l]; [done|]. inversion Hnn as [|? ? Hx Hnn']; subst.
      rewrite Zsum_cons in Hs. pose proof (Zsum_nonneg l Hnn').
      exists (Z.to_nat x). split; [|apply elem_of_seq; lia].
      apply list_elem_of_fmap. exists l. split; [f_equal; lia|].
      apply IH. split_and!; [by injection Hl|done|lia].
Qed.

(** compositionCountAtMost decides, in bounded intermediate work, whether the
    number of ways to divide the total between the curves is at most the
    exhaustive limit. *)
Theorem compositionCountAtMost_spec (total : Z) (count : nat) (limit : Z) :
  0 <= total -> (1 <= count)%nat ->
  compositionCountAtMost total count limit =
  bool_decide (Z.of_nat (length (compositions count (Z.to_nat total))) <= limit).
Proof.
  intros Ht Hc. unfold compositionCountAtMost.
  rewrite decide_False by (pose proof (Z.sgn_nonneg total); lia).
  destruct count as [|i]; [lia|]. rewrite compositions_length.
  destruct (decide (S i = 1%nat)) as [H1|H1].
  - by replace i with 0%nat by lia.
  - pose proof (compositionCount_loop_spec (Z.to_nat total) limit i 0) as H.
    rewrite Z2Nat.id in H by done. cbn [composition_number] in H.
    replace (Z.of_nat (S i) - 1) with (Z.of_nat i) by lia. etrans; [exact H|]. apply bool_decide_ext.
    cbn. split; [intros [?|?]; [lia|done]|by right].
Qed.

(** ** The searches from the outside *)

(** The split over independent curves returns an allocation of the whole
    input with non-negative parts whose value is what the curves quote for it;
    when it reports an exhaustive search, no other allocation is worth more. *)
Theorem optimizeIndependent_sound (ctx_Err : option error) (total : Z) (curves : list memoCurve)
    (settings : coordinateSettings) :
  curves_ok curves -> settings_ok settings ->
  no_panic (optimizeIndependent ctx_Err total curves settings ∅).1 /\
  forall p, (optimizeIndependent ctx_Err total curves settings ∅).1 = Ok p -> plan_ok curves total p.
Proof.
  intros Hcs Hset.
  assert (curves_ok (curves ++ [] ++ [])) as Hcs' by by rewrite app_nil_r.
  pose proof (optimizeIndependent_spec ctx_Err curves [] [] settings Hset Hcs' total curves
    (sub_direct curves [] []) ∅) as H.
  specialize (H ltac:(intros c key v _; unfold memo_of; rewrite lookup_empty; cbn; by rewrite lookup_empty)).
  destruct (optimizeIndependent _ _ _ _ _) as [[p|e|w] s]; cbn in *; destruct H as [_ H]; [|done..].
  split; [done|]. by intros q [= <-].
Qed.

(** Memoisation is transparent: with any cache of values its curves really
    quote, the optimizer returns exactly what the cache-free search returns. *)
Theorem optimizeIndependent_cache_transparent (ctx_Err : option error) (total : Z)
    (curves : list memoCurve) (settings : coordinateSettings) (s : memos) :
  curves_ok curves -> memos_ok curves s ->
  (optimizeIndependent ctx_Err total curves settings s).1 = plan_of ctx_Err total curves settings /\
  memos_ok curves (optimizeIndependent ctx_Err total curves settings s).2.
Proof.
  intros Hcs Hs.
  pose proof (optimizeIndependent_mimics ctx_Err curves Hcs total curves settings (reflexivity _) s Hs) as H.
  destruct (optimizeIndependent _ _ _ _ _) as [r s']. by destruct H as [? ->].
Qed.

(** On a pair value that rises to a peak and then falls, maximizePair finds
    the global maximum of the pair, by bisection. *)
Theorem maximizePair_global {S} (I : S -> Prop) (ctx_Err : option error)
    (eval : list Z -> ST S Z) (value : list Z -> Z) (base : list Z) (l r : nat)
    (total neighborhood peak : Z) :
  let f := fun x => value (pair_candidate base l r total x) in
  0 <= total -> 0 <= neighborhood -> 0 <= peak <= total ->
  (forall a, Spec I (eval a) (fun v => v = value a)) ->
  (forall x, 0 <= x < peak -> f x <= f (x + 1)) ->
  (forall x, peak <= x < total -> f (x + 1) < f x) ->
  Spec I (maximizePair ctx_Err eval base l r total neighborhood)
    (fun found => 0 <= found.1 <= total /\ found.2 = f found.1 /\
       forall x, 0 <= x <= total -> f x <= found.2).
Proof.
  intros f Ht Hn Hpeak Heval Hrise Hfall.
  eapply Spec_weaken.
  { apply (maximizePair_spec I ctx_Err eval (fun a v => v = value a) Heval); [|done..]. congruence. }
  intros found (x0 & Hb & Hv & Hx0 & Hr & Hf & _ & v0 & -> & Hge). split_and!; [lia|lia|exact Hv|].
  assert (x0 = peak) as ->.
  { destruct (Z.lt_trichotomy x0 peak) as [Hlt|[?|Hgt]]; [|done|]; exfalso.
    - destruct Hf as [?|(v & w & -> & -> & Hvw)]; [lia|]. specialize (Hrise x0 ltac:(lia)).
      unfold f in Hrise. lia.
    - destruct Hr as [?|(v & w & -> & -> & Hvw)]; [lia|]. specialize (Hfall (x0 - 1) ltac:(lia)).
      unfold f in Hfall. replace (x0 - 1 + 1) with x0 in Hfall by lia. lia. }
  assert (forall n x, 0 <= n -> x = peak - n -> 0 <= x -> f x <= f peak) as Hleft.
  { intros n x Hn0. revert x. pattern n. apply natlike_ind; [|clear n Hn0; intros n Hn0 IH|done].
    - intros x -> _. by rewrite Z.sub_0_r.
    - intros x Hx Hx0'. specialize (Hrise x ltac:(lia)). specialize (IH (x + 1) ltac:(lia) ltac:(lia)). lia. }
  assert (forall n x, 0 <= n -> x = peak + n -> x <= total -> f x <= f peak) as Hright.
  { intros n x Hn0. revert x. pattern n. apply natlike_ind; [|clear n Hn0; intros n Hn0 IH|done].
    - intros x -> _. by rewrite Z.add_0_r.
    - intros x Hx Hx0'. specialize (Hfall (x - 1) ltac:(lia)). specialize (IH (x - 1) ltac:(lia) ltac:(lia)).
      replace (x - 1 + 1) with x in Hfall by lia. lia. }
  intros x Hx. etrans; [|exact Hge]. destruct (Z.le_ge_cases x peak).
  - by apply (Hleft (peak - x)); lia.
  - by apply (Hright (x - peak)); lia.
Qed.

(** ** Witnesses *)

Module SplitOptimizerWitness.
Definition pool (a b : Z) (x : Z) : res (option Z) := Ok (Some (Z.quot (b * x) (a + x))).
Definition curve (id : string) (a b : Z) : SplitCurve := mkSplitCurve id (Some (pool a b)).
Definition request : TwoStageSplitRequest :=
  mkTwoStageSplitRequest (Some 12) [curve "a" 1000 2000] [curve "c" 3000 3000] [curve "d" 2000 4100]
    0 0 0 0.

Lemma request_total : request_quotes_total request.
Proof.
  split_and!; intros c q x Hc Hq; cbn in Hc; apply list_elem_of_singleton in Hc as ->;
    injection Hq as <-; done.
Qed.

Lemma two_stage_witness :
  no_panic (OptimizeTwoStageSplit None request) /\ is_ok (OptimizeTwoStageSplit None request) = true.
Proof.
  split; [|vm_compute; reflexivity].
  exact (proj1 (OptimizeTwoStageSplit_sound None request request_total)).
Defined.

Definition memo_curve (id : string) (a b : Z) : memoCurve := mkMemoCurve id (pool a b) true.
Definition curves : list memoCurve := [memo_curve "a" 100 200; memo_curve "b" 50 120].
Definition settings : coordinateSettings := mkCoordinateSettings 8 3 4 100.

Lemma curves_fine : curves_ok curves.
Proof.
  split.
  - apply NoDup_cons. split; [|apply NoDup_singleton].
    intros H. apply list_elem_of_singleton in H. discriminate H.
  - intros c x [->|Hc]%elem_of_cons; [done|]. by apply list_elem_of_singleton in Hc as ->.
Qed.

Lemma settings_fine : settings_ok settings.
Proof. split; cbn; lia. Qed.

Lemma independent_witness : plan_ok curves 20 (mkStagePlan [10; 10] 38 1 true).
Proof.
  apply (proj2 (optimizeIndependent_sound None 20 curves settings curves_fine settings_fine)).
  vm_compute. reflexivity.
Defined.

Lemma cache_witness :
  (optimizeIndependent None 20 curves settings ∅).1 = plan_of None 20 curves settings.
Proof.
  refine (proj1 (optimizeIndependent_cache_transparent None 20 curves settings ∅ curves_fine _)).
  intros c key v _. unfold memo_of. rewrite lookup_empty. cbn. by rewrite lookup_empty.
Defined.

Lemma count_witness : compositionCountAtMost 20 3 231 = true /\ compositionCountAtMost 20 3 230 = false.
Proof.
  split; rewrite (compositionCountAtMost_spec 20 3) by lia; vm_compute; reflexivity.
Defined.

Definition peak_value (a : list Z) : Z := - (default 0 (a !! 0%nat) - 3) ^ 2.
Definition peak_search := maximizePair None (fun a => mret (peak_value a) : ST unit Z) [0; 10] 0 1 10 2.

Lemma maximizePair_witness :
  Spec (fun _ => True) peak_search
    (fun found => 0 <= found.1 <= 10 /\ found.2 = peak_value (pair_candidate [0; 10] 0 1 10 found.1) /\
       forall x, 0 <= x <= 10 -> peak_value (pair_candidate [0; 10] 0 1 10 x) <= found.2) /\
  (peak_search tt).1 = Ok (3, 0).
Proof.
  split; [|vm_compute; reflexivity].
  apply (maximizePair_global (fun _ : unit => True) None _ peak_value [0; 10] 0 1 10 2 3); try lia.
  - intros a []. by split.
  - intros x Hx. cbn. unfold peak_value; cbn. unfold id. nia.
  - intros x Hx. cbn. unfold peak_value; cbn. unfold id. nia.
Defined.
End SplitOptimizerWitness.

