(* ===== verification/RouteBuild.v ===== *)
(** * From an optimizer result to an executable route
    (src/core/sizing/execution_allocation.go)

    [BuildRouteAllocation] turns the optimizer's integer result into the
    allocation forest of [Allocation], dropping the entries that receive no
    input.  The integers of a [TwoStageSplitResult] come from the optimizers and
    are never nil, so the nil checks of the source have no counterpart. *)
From S2P Require Import Prelude Amount Quote Allocation Split SplitCurves SplitSearch.

Definition directGroupID : string := "direct".
Definition firstGroupID : string := "intermediate_input".
Definition secondGroupID : string := "intermediate_output".

Definition executionBranches (allocations : list SplitAllocation) : list RouteBranch :=
  (fun a => mkRouteBranch (sa_CurveID a) (Some (sa_AmountIn a)) (Some (sa_AmountOut a))) <$>
    filter (fun a => Z.sgn (sa_AmountIn a) <> 0) allocations.

Definition direct_groups (result : TwoStageSplitResult) (inputToken outputToken : TokenID) :
    list RouteGroup :=
  let branches := executionBranches (rs_Direct result) in
  if decide (0 < length branches)%nat
  then [mkRouteGroup directGroupID "" inputToken outputToken branches] else [].

Definition intermediate_groups (result : TwoStageSplitResult)
    (inputToken intermediateToken outputToken : TokenID) : res (list RouteGroup) :=
  let first := executionBranches (rs_FirstStage result) in
  let second := executionBranches (rs_SecondStage result) in
  if decide (0 < length first \/ 0 < length second)%nat then
    if decide (intermediateToken = "" \/ intermediateToken = inputToken \/
               intermediateToken = outputToken \/ length first = 0%nat \/ length second = 0%nat)
    then Err (Errorf "execution allocation has an incomplete intermediate branch")
    else Ok [mkRouteGroup firstGroupID "" inputToken intermediateToken first;
             mkRouteGroup secondGroupID firstGroupID intermediateToken outputToken second]
  else Ok [].

Definition BuildRouteAllocation (result : TwoStageSplitResult)
    (inputToken intermediateToken outputToken : TokenID) : res RouteAllocation :=
  if decide (inputToken = "" \/ outputToken = "" \/ inputToken = outputToken)
  then Err (Errorf "execution allocation endpoints and result are required") else
  input ← NewTokenAmount inputToken (Some (rs_TotalInput result));
  output ← NewTokenAmount outputToken (Some (rs_TotalOutput result));
  groups ← intermediate_groups result inputToken intermediateToken outputToken;
  let allocation := mkRouteAllocation input output
    (direct_groups result inputToken outputToken ++ groups) in
  _ ← RouteAllocation_Validate allocation;
  Ok allocation.

(** ** Branches of a stage *)

(** A stage's entries: non-negative, at distinct named curves. *)
Record stage_ok (l : list SplitAllocation) : Prop := {
  so_ids : NoDup (sa_CurveID <$> l);
  so_named : forall a, a ∈ l -> sa_CurveID a <> "";
  so_nonneg : forall a, a ∈ l -> 0 <= sa_AmountIn a /\ 0 <= sa_AmountOut a;
  so_zero : forall a, a ∈ l -> sa_AmountIn a = 0 -> sa_AmountOut a = 0 }.

(** Every entry that receives input produces output. *)
Definition dust_free (l : list SplitAllocation) : Prop :=
  Forall (fun a => 0 < sa_AmountIn a -> 0 < sa_AmountOut a) l.

Lemma sumExpectedOutput_gen branches n :
  foldl (fun total b => match br_ExpectedOutput b with Some v => total + v | None => total end) n branches =
  n + Zsum ((fun b => default 0 (br_ExpectedOutput b)) <$> branches).
Proof.
  revert n. induction branches as [|b bs IH]; intros n; cbn [foldl]; [cbn; rewrite Zsum_nil; lia|].
  rewrite IH, fmap_cons, Zsum_cons. destruct (br_ExpectedOutput b); cbn; unfold id; lia.
Qed.

Lemma executionBranches_cons a l :
  executionBranches (a :: l) =
  (if decide (Z.sgn (sa_AmountIn a) <> 0)
   then [mkRouteBranch (sa_CurveID a) (Some (sa_AmountIn a)) (Some (sa_AmountOut a))] else [])
  ++ executionBranches l.
Proof.
  unfold executionBranches. rewrite filter_cons. by destruct (decide _).
Qed.

Lemma executionBranches_sums l :
  (forall a, a ∈ l -> sa_AmountIn a = 0 -> sa_AmountOut a = 0) ->
  Zsum (branch_planned <$> executionBranches l) = Zsum (sa_AmountIn <$> l) /\
  sumExpectedOutput (executionBranches l) = Zsum (sa_AmountOut <$> l).
Proof.
  unfold sumExpectedOutput. rewrite sumExpectedOutput_gen, Z.add_0_l.
  induction l as [|a l IH]; intros Hz; [done|]. rewrite executionBranches_cons, !fmap_app, !Zsum_app.
  destruct (IH (fun b Hb => Hz b (list_elem_of_further _ _ _ Hb))) as [-> ->].
  rewrite !fmap_cons, !Zsum_cons. specialize (Hz a ltac:(by left)).
  case_decide as H; cbn; rewrite ?Zsum_cons, ?Zsum_nil; unfold branch_planned; cbn; unfold id; [lia|].
  assert (sa_AmountIn a = 0) as H0 by (destruct (Z.sgn_spec (sa_AmountIn a)); lia).
  rewrite Hz by done. lia.
Qed.

Lemma executionBranches_elem l b :
  b ∈ executionBranches l -> exists a, a ∈ l /\ sa_AmountIn a <> 0 /\ br_Market b = sa_CurveID a /\
    br_PlannedInput b = Some (sa_AmountIn a) /\ br_ExpectedOutput b = Some (sa_AmountOut a).
Proof.
  unfold executionBranches. intros (a & -> & Ha)%list_elem_of_fmap.
  apply list_elem_of_filter in Ha as [Ha Hl]. exists a. split_and!; try done. intros H0. by rewrite H0 in Ha.
Qed.

Lemma executionBranches_markets l :
  NoDup (sa_CurveID <$> l) -> NoDup (br_Market <$> executionBranches l).
Proof.
  induction l as [|a l IH]; [constructor|]. rewrite fmap_cons. intros [Ha Hl]%NoDup_cons.
  rewrite executionBranches_cons, fmap_app. case_decide; [|by apply IH].
  cbn. apply NoDup_cons. split; [|by apply IH]. intros (b & Hid & Hb)%list_elem_of_fmap.
  apply executionBranches_elem in Hb as (a' & Ha' & _ & Hm & _). apply Ha. rewrite Hid, Hm.
  by apply list_elem_of_fmap_2.
Qed.

Lemma stage_branches l :
  stage_ok l -> dust_free l ->
  Forall branch_ok (executionBranches l) /\ NoDup (br_Market <$> executionBranches l).
Proof.
  intros Hl Hd. split; [|apply executionBranches_markets, so_ids, Hl].
  apply Forall_forall. unfold branch_ok. intros b (a & Ha & Hne & -> & -> & ->)%executionBranches_elem.
  destruct (so_nonneg _ Hl a Ha) as [H0 _]. split; [by apply so_named with l|].
  exists (sa_AmountIn a), (sa_AmountOut a). split_and!; [done|done|lia|].
  unfold dust_free in Hd. rewrite Forall_forall in Hd. apply Hd; [done|lia].
Qed.

Lemma executionBranches_nil l :
  stage_ok l -> dust_free l ->
  executionBranches l = [] <-> Zsum (sa_AmountOut <$> l) = 0.
Proof.
  intros Hl Hd. destruct (executionBranches_sums l (so_zero _ Hl)) as [_ <-].
  split; [by intros ->|]. intros Hs. destruct (stage_branches l Hl Hd) as [Hok _].
  destruct (executionBranches l) as [|b bs]; [done|exfalso].
  unfold sumExpectedOutput in Hs. rewrite sumExpectedOutput_gen in Hs.
  rewrite fmap_cons, Zsum_cons in Hs. apply Forall_cons in Hok as [(_ & _ & e & _ & He & _ & Hpos) Hok].
  cbn beta in Hs. rewrite He in Hs. change (default 0 (Some e)) with e in Hs.
  assert (0 <= Zsum ((fun b => default 0 (br_ExpectedOutput b)) <$> bs)); [|lia].
  apply Zsum_nonneg, Forall_fmap. eapply Forall_impl; [exact Hok|].
  intros b' (_ & _ & e' & _ & He' & _ & Hpos'). cbn. rewrite He'. cbn. unfold id. lia.
Qed.

Lemma executionBranches_nil_in l :
  stage_ok l -> executionBranches l = [] <-> Zsum (sa_AmountIn <$> l) = 0.
Proof.
  intros Hl. destruct (executionBranches_sums l (so_zero _ Hl)) as [<- _]. split; [by intros ->|].
  intros Hs. destruct (executionBranches l) as [|b bs] eqn:He; [done|exfalso].
  assert (forall b, b ∈ executionBranches l -> 0 < branch_planned b) as Hpos.
  { intros b' (a & Ha & Hne & _ & Hp & _)%executionBranches_elem. unfold branch_planned. rewrite Hp. cbn.
    unfold id. destruct (so_nonneg _ Hl a Ha). lia. }
  rewrite He in Hpos. rewrite fmap_cons, Zsum_cons in Hs. pose proof (Hpos b ltac:(by left)).
  assert (0 <= Zsum (branch_planned <$> bs)); [|lia].
  apply Zsum_nonneg, Forall_fmap, Forall_forall. intros b' Hb'. cbn. specialize (Hpos b' ltac:(by right)). lia.
Qed.

(** A validated allocation has only well-formed branches. *)
Lemma Validate_branches_ok a g :
  RouteAllocation_Validate a = Ok tt -> g ∈ ra_Groups a -> Forall branch_ok (grp_Branches g).
Proof.
  intros [_ H]%Validate_sound Hg. apply list_elem_of_split in Hg as (l1 & l2 & Hl).
  by destruct (ac_groups a H l1 g l2 Hl) as (_ & _ & _ & _ & _ & Hb & _).
Qed.

(** ** Building succeeds exactly on dust-free results *)

Definition result_entries (r : TwoStageSplitResult) : list SplitAllocation :=
  rs_Direct r ++ rs_FirstStage r ++ rs_SecondStage r.

Definition route_tokens (inputToken intermediateToken outputToken : TokenID) : Prop :=
  inputToken <> "" /\ outputToken <> "" /\ inputToken <> outputToken /\
  intermediateToken <> "" /\ intermediateToken <> inputToken /\ intermediateToken <> outputToken.

(** Decides membership and consumption in a list of groups with known names. *)
Ltac group_list :=
  unfold consumers, terminal_output, root_input, directGroupID, firstGroupID, secondGroupID in *;
  repeat (progress (rewrite ?filter_cons, ?filter_nil in *; cbn in *; repeat case_decide; try done));
  unfold planned, expected, Units in *; cbn in *; rewrite ?Zsum_cons, ?Zsum_nil in *.

Section build.
Context (quote_of : SplitAllocation -> Prop) (total : Z) (r : TwoStageSplitResult).
Context (inp mid out : TokenID).
Hypothesis Hsound : split_sound quote_of total r.
Hypothesis Htotal : 0 < total.
Hypothesis Htokens : route_tokens inp mid out.
Hypothesis Hdirect : stage_ok (rs_Direct r).
Hypothesis Hfirst : stage_ok (rs_FirstStage r).
Hypothesis Hsecond : stage_ok (rs_SecondStage r).

Lemma stage_sum_nonneg l : stage_ok l -> 0 <= Zsum (sa_AmountIn <$> l) /\ 0 <= Zsum (sa_AmountOut <$> l).
Proof using Type.
  intros Hl. split; apply Zsum_nonneg, Forall_fmap, Forall_forall; intros a Ha; cbn;
    destruct (so_nonneg _ Hl a Ha); lia.
Qed.

Lemma build_dust_free a :
  BuildRouteAllocation r inp mid out = Ok a ->
  dust_free (result_entries r) /\ ra_Input a = mkTokenAmount inp (Some total) /\
  ra_ExpectedOutput a = mkTokenAmount out (Some (rs_TotalOutput r)).
Proof using Hsound Htokens.
  unfold BuildRouteAllocation, result_entries. intros H. res_inv. subst a. cbn.
  destruct x2.
  assert (forall l, (executionBranches l = [] \/ exists g, g ∈ direct_groups r inp out ++ x1 /\
            grp_Branches g = executionBranches l) -> dust_free l) as Hstage.
  { intros l Hl. apply Forall_forall. intros a Ha Hpos.
    assert (mkRouteBranch (sa_CurveID a) (Some (sa_AmountIn a)) (Some (sa_AmountOut a)) ∈
            executionBranches l) as Hb.
    { unfold executionBranches. apply list_elem_of_fmap. exists a. split; [done|].
      apply list_elem_of_filter. split; [|done]. destruct (Z.sgn_spec (sa_AmountIn a)); lia. }
    destruct Hl as [Hnil|(g & Hg & Hbr)]; [rewrite Hnil in Hb; by apply elem_of_nil in Hb|].
    pose proof (Validate_branches_ok _ g Hx2 Hg) as Hok. rewrite Forall_forall in Hok.
    rewrite Hbr in Hok. destruct (Hok _ Hb) as (_ & p & e & _ & [= <-] & _ & ?). done. }
  apply NewTokenAmount_inv in Hx as (_ & Ht1 & Hu1), Hx0 as (_ & Ht2 & Hu2).
  split; [|split].
  - apply Forall_app; split; [|apply Forall_app; split]; apply Hstage.
    + unfold direct_groups. case_decide as Hl; [right|left; by destruct (executionBranches _); cbn in Hl; try lia].
      eexists. split; [by left|done].
    + unfold intermediate_groups in Hx1. case_decide as Hl.
      * res_inv. subst x1. right. eexists. split; [apply elem_of_app; right; by left|done].
      * left. destruct (executionBranches (rs_FirstStage r)); [done|cbn in Hl; lia].
    + unfold intermediate_groups in Hx1. case_decide as Hl.
      * res_inv. subst x1. right. eexists. split; [apply elem_of_app; right; by right; left|done].
      * left. destruct (executionBranches (rs_SecondStage r)); [done|cbn in Hl; lia].
  - destruct x. cbn in *. subst. f_equal. rewrite <- (ss_total _ _ _ Hsound). done.
  - destruct x0. cbn in *. by subst.
Qed.

Lemma stage_nonempty l : executionBranches l <> [] -> (0 < length (executionBranches l))%nat.
Proof using Type. destruct (executionBranches l); [done|cbn; lia]. Qed.

(** A dust-free result is positive at the end of each stage that has input. *)
Lemma dust_free_output :
  dust_free (result_entries r) -> 0 < rs_TotalOutput r /\
  (executionBranches (rs_FirstStage r) = [] <-> executionBranches (rs_SecondStage r) = []).
Proof using Hsound Htotal Hdirect Hfirst Hsecond.
  unfold result_entries, dust_free. rewrite !Forall_app. intros (Hd & Hf & Hs).
  destruct (stage_sum_nonneg _ Hdirect), (stage_sum_nonneg _ Hfirst), (stage_sum_nonneg _ Hsecond).
  pose proof (executionBranches_nil _ Hfirst Hf) as E1. pose proof (executionBranches_nil_in _ Hsecond) as E2.
  pose proof (executionBranches_nil_in _ Hfirst) as E3. pose proof (executionBranches_nil _ Hsecond Hs) as E4.
  pose proof (executionBranches_nil_in _ Hdirect) as E5. pose proof (executionBranches_nil _ Hdirect Hd) as E6.
  rewrite (ss_intermediate _ _ _ Hsound) in E1. rewrite (ss_second _ _ _ Hsound) in E2.
  pose proof (ss_input _ _ _ Hsound). rewrite (ss_output _ _ _ Hsound).
  split; [|by rewrite E1, E2]. clear -H H0 H1 H2 H3 H4 E1 E2 E3 E4 E5 E6 H5 Htotal.
  assert (Zsum (sa_AmountOut <$> rs_Direct r) = 0 -> Zsum (sa_AmountIn <$> rs_Direct r) = 0) by tauto.
  assert (Zsum (sa_AmountOut <$> rs_SecondStage r) = 0 -> Zsum (sa_AmountIn <$> rs_FirstStage r) = 0) by tauto.
  lia.
Qed.

Lemma direct_groups_cases :
  (executionBranches (rs_Direct r) = [] /\ direct_groups r inp out = []) \/
  (executionBranches (rs_Direct r) <> [] /\
   direct_groups r inp out = [mkRouteGroup directGroupID "" inp out (executionBranches (rs_Direct r))]).
Proof using Type.
  unfold direct_groups. destruct (executionBranches (rs_Direct r)) as [|b bs]; [by left|].
  right. by rewrite decide_True by (cbn; lia).
Qed.

Lemma intermediate_groups_cases :
  dust_free (result_entries r) ->
  (executionBranches (rs_FirstStage r) = [] /\ executionBranches (rs_SecondStage r) = [] /\
   intermediate_groups r inp mid out = Ok []) \/
  (executionBranches (rs_FirstStage r) <> [] /\ executionBranches (rs_SecondStage r) <> [] /\
   intermediate_groups r inp mid out =
     Ok [mkRouteGroup firstGroupID "" inp mid (executionBranches (rs_FirstStage r));
         mkRouteGroup secondGroupID firstGroupID mid out (executionBranches (rs_SecondStage r))]).
Proof using Hsound Htotal Hdirect Hfirst Hsecond Htokens.
  intros Hd. destruct (dust_free_output Hd) as [_ Hiff]. unfold intermediate_groups.
  destruct (executionBranches (rs_FirstStage r)) as [|b bs];
    destruct (executionBranches (rs_SecondStage r)) as [|c cs].
  - left. by rewrite decide_False by (cbn; lia).
  - by destruct Hiff as [? _]; discriminate (H eq_refl).
  - by destruct Hiff as [_ ?]; discriminate (H eq_refl).
  - right. rewrite decide_True by (cbn; lia). rewrite decide_False; [done|].
    destruct Htokens as (? & ? & ? & ? & ? & ?). cbn. intros [?|[?|[?|[?|?]]]]; done.
Qed.

Lemma build_complete :
  dust_free (result_entries r) -> exists a, BuildRouteAllocation r inp mid out = Ok a.
Proof using Hsound Htotal Hdirect Hfirst Hsecond Htokens.
  intros Hdf. destruct (dust_free_output Hdf) as [Hout _].
  destruct Htokens as (Hi & Ho & Hio & Hm & Hmi & Hmo).
  unfold BuildRouteAllocation. rewrite decide_False by tauto.
  rewrite (ss_total _ _ _ Hsound), !NewTokenAmount_Ok by (done || lia). cbn [mbind res_bind].
  pose proof Hdf as Hdf'. unfold result_entries, dust_free in Hdf'. rewrite !Forall_app in Hdf'.
  destruct Hdf' as (Hd & Hf & Hs).
  destruct (stage_branches _ Hdirect Hd) as [Bd Nd]. destruct (stage_branches _ Hfirst Hf) as [Bf Nf].
  destruct (stage_branches _ Hsecond Hs) as [Bs Ns].
  destruct (executionBranches_sums _ (so_zero _ Hdirect)) as [Id Od].
  destruct (executionBranches_sums _ (so_zero _ Hfirst)) as [If Of].
  destruct (executionBranches_sums _ (so_zero _ Hsecond)) as [Is Os].
  pose proof (ss_input _ _ _ Hsound) as Sin. pose proof (ss_intermediate _ _ _ Hsound) as Smid.
  pose proof (ss_second _ _ _ Hsound) as Ssec. pose proof (ss_output _ _ _ Hsound) as Sout.
  rewrite <- Id, <- If in Sin. rewrite <- Of in Smid. rewrite <- Is in Ssec. rewrite <- Od, <- Os in Sout.
  clear Id Od If Of Is Os Hd Hf Hs.
  destruct direct_groups_cases as [[E1 ->]|[E1 ->]],
    (intermediate_groups_cases Hdf) as [(E2 & E3 & ->)|(E2 & E3 & ->)]; cbn [mbind res_bind app].
  all: match goal with |- context [RouteAllocation_Validate ?a] =>
         assert (RouteAllocation_Validate a = Ok tt) as ->; [|by eexists] end.
  all: rewrite ?E1, ?E2, ?E3 in *; cbn [fmap list_fmap] in *;
    change (sumExpectedOutput []) with 0 in *; rewrite ?Zsum_nil in *.
  all: apply Validate_complete; [unfold endpoints_ok, Units; cbn; split_and!; try done; lia|].
  - exfalso. lia.
  - split; cbn.
    + by apply (bool_decide_eq_true_1 (NoDup _)).
    + intros [|? [|? [|? ?]]] g after H; simplify_eq/=; split_and!; try done; [by left|right].
      split; [done|]. eexists. split_and!; [by left|done..|]. unfold planned, expected. cbn [grp_Branches]. congruence.
    + intros id Hid. group_list; congruence || lia.
    + intros g [->|[->|?%elem_of_nil]%elem_of_cons]%elem_of_cons; [|done|done].
      group_list.
    + group_list. lia.
    + group_list. lia.
    + group_list. lia.
  - split; cbn.
    + by apply (bool_decide_eq_true_1 (NoDup _)).
    + intros [|? [|? ?]] g after H; simplify_eq/=; split_and!; try done. by left.
    + intros id Hid. group_list; congruence || lia.
    + intros g [->|?%elem_of_nil]%elem_of_cons; done.
    + group_list; lia.
    + group_list; lia.
    + group_list; lia.
  - split; cbn.
    + by apply (bool_decide_eq_true_1 (NoDup _)).
    + intros [|? [|? [|? [|? ?]]]] g after H; simplify_eq/=; split_and!; try done; [by left|by left|right].
      split; [done|]. eexists. split_and!; [by right; left|done..|].
      unfold planned, expected. cbn [grp_Branches]. congruence.
    + intros id Hid. group_list; congruence || lia.
    + intros g [->|[->|[->|?%elem_of_nil]%elem_of_cons]%elem_of_cons]%elem_of_cons; [done| |done|done].
      group_list.
    + group_list. lia.
    + group_list. lia.
    + group_list. lia.
Qed.
End build.

(** ** The optimizer's results are built *)

Lemma materialized_ids curves amounts l :
  length amounts = length curves -> materialized curves amounts l -> sa_CurveID <$> l = mc_id <$> curves.
Proof.
  unfold materialized. revert amounts l.
  induction curves as [|c curves IH]; intros [|x amounts] l Hlen H; try done.
  - by apply Forall2_nil_inv_l in H as ->.
  - cbn [zip zip_with] in H. apply Forall2_cons_inv_l in H as (a & l' & (Hid & _) & H & ->).
    rewrite !fmap_cons, Hid. f_equal. apply (IH amounts); [by injection Hlen|done].
Qed.

Lemma materialized_stage curves amounts l :
  length amounts = length curves -> materialized curves amounts l ->
  NoDup (mc_id <$> curves) -> (forall c, c ∈ curves -> mc_id c <> "") -> Forall (fun x => 0 <= x) amounts ->
  stage_ok l.
Proof.
  intros Hlen Hm Hnd Hne Hpos. pose proof (materialized_ids _ _ _ Hlen Hm) as Hids.
  assert (forall a, a ∈ l -> 0 <= sa_AmountIn a /\ exists c, c ∈ curves /\ sa_CurveID a = mc_id c /\
    curve_value c (sa_AmountIn a) = Ok (sa_AmountOut a)) as Hent.
  { intros a Ha. apply list_elem_of_lookup in Ha as [k Hk].
    destruct (Forall2_lookup_r _ _ _ _ _ Hm Hk) as ([c y] & Hz & Hid & <- & Hv).
    apply list_elem_of_lookup_2 in Hz. rewrite Forall_forall in Hpos.
    split; [apply Hpos; by eapply elem_of_zip_r|]. exists c. by apply elem_of_zip_l in Hz. }
  split.
  - by rewrite Hids.
  - intros a (_ & c & Hc & -> & _)%Hent. by apply Hne.
  - intros a (H0 & c & _ & _ & Hv)%Hent. split; [done|by eapply curve_value_nonneg].
  - intros a (_ & c & _ & _ & Hv)%Hent Hz. unfold curve_value in Hv. rewrite Hz in Hv. by injection Hv.
Qed.

Lemma newCurves_named curves enabled cs c : newCurves curves enabled = Ok cs -> c ∈ cs -> mc_id c <> "".
Proof. intros Hn Hc He. destruct (newCurves_loop_Ok _ _ _ Hn c Hc) as (sc & _ & _ & _ & Hb). by rewrite He in Hb. Qed.

Lemma two_stage_stages request r :
  two_stage_ok request r -> stage_ok (rs_Direct r) /\ stage_ok (rs_FirstStage r) /\ stage_ok (rs_SecondStage r).
Proof.
  intros (total & d & f & s & _ & _ & Hd & Hf & Hs & [Hnd _] & a & e & Hlen & [Hnn _] & (_ & _ & Hplan & _)
    & Md & Mf & Ms & _).
  destruct Hplan as (Ls & [Hsnn _] & _). rewrite length_app in Hlen.
  rewrite !fmap_app in Hnd. apply NoDup_app in Hnd as (Nd & _ & Hnd). apply NoDup_app in Hnd as (Nf & _ & Ns).
  split_and!; (eapply materialized_stage; [|eassumption|done|intros c Hc; first
    [exact (newCurves_named _ true _ c Hd Hc)|exact (newCurves_named _ true _ c Hf Hc)
    |exact (newCurves_named _ true _ c Hs Hc)]|]).
  - rewrite length_take. lia.
  - by apply Forall_take.
  - rewrite length_drop. lia.
  - by apply Forall_drop.
  - done.
  - done.
Qed.

(** C21. From optimizer to execution: whatever OptimizeTwoStageSplit returns,
    BuildRouteAllocation turns it into a validated route allocation for the whole
    input and the claimed output exactly when no entry that receives input
    quotes a zero output. *)
Theorem optimized_route_executable (ctx_Err : option error) (request : TwoStageSplitRequest)
    (r : TwoStageSplitResult) (inputToken intermediateToken outputToken : TokenID) :
  request_quotes_total request -> OptimizeTwoStageSplit ctx_Err request = Ok r ->
  route_tokens inputToken intermediateToken outputToken ->
  (dust_free (result_entries r) <->
   exists a, BuildRouteAllocation r inputToken intermediateToken outputToken = Ok a) /\
  (forall a, BuildRouteAllocation r inputToken intermediateToken outputToken = Ok a ->
     rq_TotalInput request = amount_units (ra_Input a) /\ amount_token (ra_Input a) = inputToken /\
     ra_ExpectedOutput a = mkTokenAmount outputToken (Some (rs_TotalOutput r)) /\
     RouteAllocation_Validate a = Ok tt).
Proof.
  intros Hq Hr Htok. pose proof (OptimizeTwoStageSplit_spec ctx_Err request Hq) as H. rewrite Hr in H.
  destruct (two_stage_stages _ _ H) as (Sd & Sf & Ss).
  destruct H as (total & d & f & s & Htot & Hpos & _ & _ & _ & _ & Hrun). apply run_ok_sound in Hrun.
  split; [split|].
  - by eapply build_complete.
  - intros [a Ha]. by destruct (build_dust_free _ _ _ _ _ _ Hrun Htok a Ha) as [? _].
  - intros a Ha. destruct (build_dust_free _ _ _ _ _ _ Hrun Htok a Ha) as (_ & Hin & Hout).
    rewrite Hin, Htot. split_and!; [done..|]. unfold BuildRouteAllocation in Ha. res_inv. subst a. by destruct x2.
Qed.

Module RouteBuildWitness.
(** Two pools; the second one rounds a dust input down to nothing. *)
Definition deep (x : Z) : res (option Z) := Ok (Some (Z.quot (1000 * x) (1000 + x))).
Definition shallow (x : Z) : res (option Z) := Ok (Some (Z.quot x 8)).
Definition request (total : Z) : TwoStageSplitRequest :=
  mkTwoStageSplitRequest (Some total) [mkSplitCurve "a" (Some deep); mkSplitCurve "b" (Some shallow)] [] []
    0 0 0 0.

Lemma route_request_total total : request_quotes_total (request total).
Proof.
  split_and!; intros c q x Hc Hq; cbn in Hc; [|by apply elem_of_nil in Hc..].
  apply elem_of_cons in Hc as [->|Hc]; [by injection Hq as <-|].
  apply list_elem_of_singleton in Hc as ->. by injection Hq as <-.
Qed.

Definition result (total : Z) : TwoStageSplitResult :=
  match OptimizeTwoStageSplit None (request total) with
  | Ok r => r
  | _ => mkTwoStageSplitResult [] [] [] 0 0 0 0 0 false false false (mkSplitMetrics 0 0 0 0 0 0)
  end.
Definition entries (total : Z) := (fun a => (sa_AmountIn a, sa_AmountOut a)) <$> rs_Direct (result total).

(** The fallback of OptimizeTwoStageSplit does not cover direct curves: of two
    allocations worth the same it returns the one that sends one unit to a curve
    quoting zero, which BuildRouteAllocation rejects, although the whole input on
    the first curve is worth as much. *)
Example direct_dust_not_executable :
  is_ok (OptimizeTwoStageSplit None (request 33)) = true /\
  entries 33 = [(32, 31); (1, 0)] /\ deep 33 = Ok (Some 31) /\
  rs_TotalOutput (result 33) = 31 /\
  BuildRouteAllocation (result 33) "usdc" "dai" "weth" =
    Err (Errorf "route allocation group %q branch %d is invalid").
Proof. vm_compute. split_and!; reflexivity. Qed.

Lemma executable_witness :
  exists a, BuildRouteAllocation (result 20) "usdc" "dai" "weth" = Ok a.
Proof.
  apply (optimized_route_executable None (request 20) (result 20) "usdc" "dai" "weth" (route_request_total 20)).
  - vm_compute. reflexivity.
  - repeat split; discriminate.
  - unfold dust_free. vm_compute. repeat constructor; discriminate.
Defined.
End RouteBuildWitness.
