(* ===== verification/GridSplit.v ===== *)
(** * The grid split optimizer (src/core/sizing/grid_split.go)

    Bounded-cost dynamic programming over an integer grid of the input.  Curves
    are not memoised here; the shared state is their call counters.  The input
    splits are evaluated by concurrent workers: [schedule] is the order in which
    the jobs of the channel are carried out.  Between jobs only the counters are
    shared, and their increments commute. *)
From S2P Require Import Prelude Amount Quote Split SplitCurves.

Record GridTwoStageSplitRequest := mkGridTwoStageSplitRequest {
  gr_TotalInput : option Z; gr_Direct : list SplitCurve; gr_FirstStage : list SplitCurve;
  gr_SecondStage : list SplitCurve; gr_Divisions : Z }.

(** The zero value of a Go [gridPlan] ([valid] false, nil output) is [None]; the
    code builds every other plan with an output and [valid] true. *)
Record gridPlan := mkGridPlan { gp_amounts : list Z; gp_output : Z }.

(** Likewise a [gridFlow] without an output is [None]. *)
Record gridFlow := mkGridFlow {
  gf_direct : gridPlan; gf_first : gridPlan; gf_second : gridPlan;
  gf_intermediate : Z; gf_output : Z }.

Record evaluatedGridFlow := mkEvaluatedGridFlow {
  eg_flow : option gridFlow; eg_secondSolved : bool; eg_secondExact : bool;
  eg_err : option error }.

#[export] Instance gridPlan_eq_dec : EqDecision gridPlan.
Proof. solve_decision. Defined.
#[export] Instance gridFlow_eq_dec : EqDecision gridFlow.
Proof. solve_decision. Defined.

Definition effectiveGridDivisions (total requested : Z) : Z :=
  if decide ((- 2 ^ 63 <= total < 2 ^ 63) /\ total < requested) then total else requested.

(** [allocationKey a < allocationKey b]. *)
Definition key_lt (a b : list Z) : Prop := String.ltb (allocationKey a) (allocationKey b) = true.

Definition betterGridPlan (candidate : gridPlan) (current : option gridPlan) : Prop :=
  match current with
  | None => True
  | Some current =>
      gp_output current < gp_output candidate \/
      (gp_output candidate = gp_output current /\ key_lt (gp_amounts candidate) (gp_amounts current))
  end.
#[export] Instance betterGridPlan_dec p c : Decision (betterGridPlan p c).
Proof. destruct c; cbn; unfold key_lt; apply _. Defined.

Definition flow_key (f : gridFlow) : list Z := gp_amounts (gf_direct f) ++ gp_amounts (gf_first f).

Definition betterGridFlow (candidate current : option gridFlow) : Prop :=
  match candidate, current with
  | None, _ => False
  | Some _, None => True
  | Some candidate, Some current =>
      gf_output current < gf_output candidate \/
      (gf_output candidate = gf_output current /\ key_lt (flow_key candidate) (flow_key current))
  end.
#[export] Instance betterGridFlow_dec p c : Decision (betterGridFlow p c).
Proof. destruct p, c; cbn; unfold key_lt; apply _. Defined.

Definition keep_better (best : option gridPlan) (candidate : gridPlan) : option gridPlan :=
  if decide (betterGridPlan candidate best) then Some candidate else best.

(** ** The dynamic programme

    A row holds the amount and the quote of a curve at every number of units.
    Tables have [divisions + 1] entries, so every index is in range. *)
Definition grid_candidate (previous : list (option gridPlan)) (row : list (Z * Z))
    (totalUnits : nat) (best : option gridPlan) (curveUnits : nat) : option gridPlan :=
  match previous !! (totalUnits - curveUnits)%nat, row !! curveUnits with
  | Some (Some prefix), Some (amount, quote) =>
      keep_better best (mkGridPlan (gp_amounts prefix ++ [amount]) (gp_output prefix + quote))
  | _, _ => best
  end.

Definition grid_cell (previous : list (option gridPlan)) (row : list (Z * Z)) (totalUnits : nat) :
    option gridPlan :=
  foldl (grid_candidate previous row totalUnits) None (seq 0 (S totalUnits)).

Definition grid_step (divisions : nat) (previous : list (option gridPlan)) (row : list (Z * Z)) :
    list (option gridPlan) :=
  grid_cell previous row <$> seq 0 (S divisions).

Definition grid_start (divisions : nat) : list (option gridPlan) :=
  Some (mkGridPlan [] 0) :: replicate divisions None.

Definition grid_dp (divisions : nat) (rows : list (list (Z * Z))) : list (option gridPlan) :=
  foldl (grid_step divisions) (grid_start divisions) rows.

(** One row: the quotes of [curve], with [extra] added to every amount. *)
Definition grid_quote (quantum extra : Z) (curve : memoCurve) (row : list (Z * Z)) (units : nat) :
    ST memos (list (Z * Z)) :=
  let amount := quantum * Z.of_nat units + extra in
  output ← curve_at curve amount;
  mret (row ++ [(amount, output)]).

Definition grid_row (quantum extra : Z) (divisions : nat) (curve : memoCurve) :
    ST memos (list (Z * Z)) :=
  foldST (grid_quote quantum extra curve) [] (seq 0 (S divisions)).

Definition gridFamilyPlans (quantum : Z) (divisions : nat) (curves : list memoCurve) :
    ST memos (list (option gridPlan)) :=
  if decide (curves = []) then mret (grid_start divisions) else
  rows ← foldST (fun rows curve => row ← grid_row quantum 0 divisions curve; mret (rows ++ [row]))
           [] curves;
  mret (grid_dp divisions rows).

(** [remainderRecipient] is -1 for none. *)
Definition recipient_extra (remainder : option Z) (remainderRecipient : Z) (curveIndex : nat) : Z :=
  match remainder with
  | Some remainder => if decide (Z.of_nat curveIndex = remainderRecipient) then remainder else 0
  | None => 0
  end.

Definition gridFamilyPlansWithRemainder (quantum : Z) (remainder : option Z) (divisions : nat)
    (curves : list memoCurve) (remainderRecipient : Z) : ST memos (list (option gridPlan)) :=
  if decide (curves = []) then mret (grid_start divisions) else
  rows ← foldST (fun rows '(curveIndex, curve) =>
            row ← grid_row quantum (recipient_extra remainder remainderRecipient curveIndex)
                    divisions curve;
            mret (rows ++ [row]))
           [] (zip (seq 0 (length curves)) curves);
  mret (grid_dp divisions rows).

(** ** The best plan of a family of curves *)

Definition pair_split (quantum remainder : Z) (divisions : nat) (c0 c1 : memoCurve) (recipient : Z)
    (best : option gridPlan) (leftUnits : nat) : ST memos (option gridPlan) :=
  let left_ := quantum * Z.of_nat leftUnits + (if decide (recipient = 0) then remainder else 0) in
  let right_ := quantum * Z.of_nat (divisions - leftUnits) +
                (if decide (recipient = 1) then remainder else 0) in
  leftOutput ← curve_at c0 left_;
  rightOutput ← curve_at c1 right_;
  mret (keep_better best (mkGridPlan [left_; right_] (leftOutput + rightOutput))).

Definition family_recipient (quantum remainder : Z) (divisions : nat) (curves : list memoCurve)
    (best : option gridPlan) (recipient : nat) : ST memos (option gridPlan) :=
  plans ← gridFamilyPlansWithRemainder quantum (Some remainder) divisions curves (Z.of_nat recipient);
  match plans !! divisions with
  | Some (Some plan) => mret (keep_better best plan)
  | _ => mret best
  end.

Definition gridFamilyBestWithRemainder (quantum remainder : Z) (divisions : nat)
    (curves : list memoCurve) : ST memos (option gridPlan) :=
  match curves with
  | [] => fail "positive amount has no grid curves"
  | [c0] =>
      let amount := quantum * Z.of_nat divisions + remainder in
      output ← curve_at c0 amount;
      mret (Some (mkGridPlan [amount] output))
  | [c0; c1] =>
      let recipients := if decide (0 < Z.sgn remainder) then [0; 1] else [-1] in
      foldST (fun best recipient =>
          foldST (pair_split quantum remainder divisions c0 c1 recipient) best (seq 0 (S divisions)))
        None recipients
  | _ =>
      if decide (Z.sgn remainder = 0) then
        plans ← gridFamilyPlansWithRemainder quantum None divisions curves (-1);
        mret (plans !! divisions ≫= id)
      else
        foldST (family_recipient quantum remainder divisions curves) None (seq 0 (length curves))
  end.

Definition gridFamilyBest (total divisions : Z) (curves : list memoCurve) :
    ST memos (option gridPlan * bool) :=
  if decide (Z.sgn total = 0)
  then mret (Some (mkGridPlan (zeroAllocation (length curves)) 0), true) else
  let effective := effectiveGridDivisions total divisions in
  let quantum := Z.quot total effective in
  let remainder := Z.rem total effective in
  best ← gridFamilyBestWithRemainder quantum remainder (Z.to_nat effective) curves;
  mret (best, bool_decide (quantum = 1)).

Definition sumGridOutputs (curves : list memoCurve) (amounts : list Z) : ST memos Z :=
  foldST (fun output '(c, amount) => quoted ← curve_at c amount; mret (output + quoted))
    0 (zip curves amounts).

(** ** The optimizer *)

(** The closure [evaluate]: a flow, whether the second stage was solved, and
    whether exactly. *)
Definition grid_evaluate (second : list memoCurve) (divisions : Z)
    (directPlan firstPlan : option gridPlan) : ST memos (option gridFlow * bool * bool) :=
  match directPlan, firstPlan with
  | Some directPlan, Some firstPlan =>
      let intermediate := gp_output firstPlan in
      if decide (0 < Z.sgn intermediate) then
        '(secondPlan, secondExact) ← gridFamilyBest intermediate divisions second;
        match secondPlan with
        | Some secondPlan =>
            mret (Some (mkGridFlow directPlan firstPlan secondPlan intermediate
                          (gp_output directPlan + gp_output secondPlan)), true, secondExact)
        | None => lift (Panic "nil output")
        end
      else
        mret (Some (mkGridFlow directPlan firstPlan (mkGridPlan (zeroAllocation (length second)) 0)
                      intermediate (gp_output directPlan + 0)), false, true)
  | _, _ => mret (None, false, true)
  end.

(** A worker carries out one job and keeps its error with its slot. *)
Definition run_job (second : list memoCurve) (divisions : Z)
    (directPlans firstPlans : list (option gridPlan)) (effective : nat)
    (evaluated : list evaluatedGridFlow) (firstUnits : nat) : ST memos (list evaluatedGridFlow) :=
  fun s =>
    match grid_evaluate second divisions (directPlans !! (effective - firstUnits)%nat ≫= id)
            (firstPlans !! firstUnits ≫= id) s with
    | (Ok (flow, secondSolved, secondExact), s') =>
        (Ok (<[firstUnits := mkEvaluatedGridFlow flow secondSolved secondExact None]> evaluated), s')
    | (Err e, s') =>
        (Ok (<[firstUnits := mkEvaluatedGridFlow None false false (Some e)]> evaluated), s')
    | (Panic why, s') => (Panic why, s')
    end.

(** The variables of the closing loops. *)
Record gridScan := mkGridScan {
  gs_best : option gridFlow; gs_objectiveEvaluations : Z; gs_secondSolves : Z;
  gs_allSecondExact : bool }.

Definition scan_flow (scan : gridScan) (flow : option gridFlow) (secondSolved secondExact : bool) :
    gridScan :=
  mkGridScan (if decide (betterGridFlow flow (gs_best scan)) then flow else gs_best scan)
    (gs_objectiveEvaluations scan + 1)
    (if secondSolved then gs_secondSolves scan + 1 else gs_secondSolves scan)
    (if secondExact then gs_allSecondExact scan else false).

Definition scan_evaluated (scan : gridScan) (current : evaluatedGridFlow) : res gridScan :=
  match eg_err current with
  | Some e => Err (Wrapf "evaluate grid flow: %w" e)
  | None =>
      match eg_flow current with
      | None => Ok scan
      | Some flow => Ok (scan_flow scan (Some flow) (eg_secondSolved current) (eg_secondExact current))
      end
  end.

(** [candidate.amounts[index].Add(candidate.amounts[index], remainder)]. *)
Definition add_at (index : nat) (remainder : Z) (amounts : list Z) : list Z :=
  alter (fun x => x + remainder) index amounts.

Definition try_direct (direct second : list memoCurve) (divisions remainder : Z)
    (baseDirect baseFirst : gridPlan) (scan : gridScan) (index : nat) : ST memos gridScan :=
  let amounts := add_at index remainder (gp_amounts baseDirect) in
  output ← sumGridOutputs direct amounts;
  '(candidate, secondSolved, secondExact) ←
    grid_evaluate second divisions (Some (mkGridPlan amounts output)) (Some baseFirst);
  mret (scan_flow scan candidate secondSolved secondExact).

Definition try_first (first second : list memoCurve) (divisions remainder : Z)
    (baseDirect baseFirst : gridPlan) (scan : gridScan) (index : nat) : ST memos gridScan :=
  let amounts := add_at index remainder (gp_amounts baseFirst) in
  output ← sumGridOutputs first amounts;
  '(candidate, secondSolved, secondExact) ←
    grid_evaluate second divisions (Some baseDirect) (Some (mkGridPlan amounts output));
  mret (scan_flow scan candidate secondSolved secondExact).

Definition grid_remainder (direct first second : list memoCurve) (divisions remainder : Z)
    (best : gridFlow) (scan : gridScan) : ST memos gridScan :=
  if decide (0 < Z.sgn remainder) then
    scan ← foldST (try_direct direct second divisions remainder (gf_direct best) (gf_first best))
             scan (seq 0 (length direct));
    foldST (try_first first second divisions remainder (gf_direct best) (gf_first best))
      scan (seq 0 (length first))
  else mret scan.

Section schedule.
(** The order in which the workers carry out the jobs [0 .. effective]. *)
Context (schedule : nat -> list nat).

Definition grid_search (total divisions : Z) (direct first second : list memoCurve) :
    ST memos (gridScan * Z) :=
  let effective := effectiveGridDivisions total divisions in
  let units := Z.to_nat effective in
  let quantum := Z.quot total effective in
  let remainder := Z.rem total effective in
  directPlans ← wrapST "optimize direct grid: %w" (gridFamilyPlans quantum units direct);
  firstPlans ← wrapST "optimize first-stage grid: %w" (gridFamilyPlans quantum units first);
  evaluated ← foldST (run_job second divisions directPlans firstPlans units)
                (replicate (S units) (mkEvaluatedGridFlow None false false None)) (schedule units);
  scan ← lift (foldM scan_evaluated (mkGridScan None 0 0 true) evaluated);
  match gs_best scan with
  | None => fail "grid split found no feasible allocation"
  | Some best =>
      scan ← grid_remainder direct first second divisions remainder best scan;
      mret (scan, effective)
  end.

Definition grid_run (total divisions : Z) (direct first second : list memoCurve) :
    ST memos TwoStageSplitResult :=
  '(scan, effective) ← grid_search total divisions direct first second;
  match gs_best scan with
  | None => fail "grid split found no feasible allocation"
  | Some best =>
      let quantum := Z.quot total effective in
      let remainder := Z.rem total effective in
      directAllocations ← materializeAllocations direct (gp_amounts (gf_direct best));
      firstAllocations ← materializeAllocations first (gp_amounts (gf_first best));
      secondAllocations ← materializeAllocations second (gp_amounts (gf_second best));
      s ← get;
      let '(calls, hits) := curve_counters (direct ++ first ++ second) s in
      mret (mkTwoStageSplitResult directAllocations firstAllocations secondAllocations total
              (gf_intermediate best) (gf_output best) quantum effective
              (bool_decide (Z.sgn remainder = 0)) false
              (bool_decide (quantum = 1) && gs_allSecondExact scan)
              (mkSplitMetrics calls hits (gs_objectiveEvaluations scan) 0 (gs_secondSolves scan) 0))
  end.

Definition OptimizeTwoStageSplitGrid (ctx_Err : option error) (request : GridTwoStageSplitRequest) :
    res TwoStageSplitResult :=
  match ctx_Err with
  | Some e => Err e
  | None =>
  match gr_TotalInput request with
  | None => Err (Errorf "positive total grid split input is required")
  | Some total =>
  if decide (Z.sgn total <= 0)
  then Err (Errorf "positive total grid split input is required") else
  if decide (gr_Direct request = [] /\ gr_FirstStage request = [])
  then Err (Errorf "at least one direct or first-stage grid curve is required") else
  if decide (bool_decide (gr_FirstStage request = []) <> bool_decide (gr_SecondStage request = []))
  then Err (Errorf "both grid stages of the intermediate branch are required") else
  let divisions := if decide (gr_Divisions request = 0) then 32 else gr_Divisions request in
  if decide (divisions < 2 \/ 1024 < divisions)
  then Err (Errorf "grid divisions must be between 2 and 1024") else
  direct ← wrap "direct grid curves: %w" (newUncachedCurves (gr_Direct request));
  first ← wrap "first-stage grid curves: %w" (newUncachedCurves (gr_FirstStage request));
  second ← wrap "second-stage grid curves: %w" (newUncachedCurves (gr_SecondStage request));
  _ ← uniqueCurveIDs [direct; first; second];
  (grid_run total divisions direct first second ∅).1
  end end.
End schedule.

(** One worker takes the jobs in the order they are sent. *)
Definition in_order (effective : nat) : list nat := seq 0 (S effective).
