(* ===== verification/GridSearch.v ===== *)
(** * The grid split optimizer is correct (src/core/sizing/grid_split.go)

    The dynamic programme of [GridSplit] is optimal over its grid, the optimizer
    returns allocations of the whole input, and the order in which the workers
    carry out the jobs does not matter. *)
From S2P Require Import Prelude Amount Quote Split SplitCurves SplitSearch GridSplit.

(** ** The dynamic programme *)

(** [selects rows us p]: the plan [p] takes [us] units of the curves of [rows]. *)
Inductive selects : list (list (Z * Z)) -> list nat -> gridPlan -> Prop :=
  | selects_nil : selects [] [] (mkGridPlan [] 0)
  | selects_snoc rows us p row units amount quote :
      selects rows us p -> row !! units = Some (amount, quote) ->
      selects (rows ++ [row]) (us ++ [units])
        (mkGridPlan (gp_amounts p ++ [amount]) (gp_output p + quote)).

(** The best plan over all ways to spend [u] units. *)
Definition best_plan (rows : list (list (Z * Z))) (u : nat) (cell : option gridPlan) : Prop :=
  (forall p, cell = Some p -> exists us, sum_list us = u /\ selects rows us p) /\
  (forall us p, selects rows us p -> sum_list us = u ->
     exists best, cell = Some best /\ gp_output p <= gp_output best).

Lemma selects_snoc_inv rows row us p :
  selects (rows ++ [row]) us p ->
  exists us' units p' amount quote, us = us' ++ [units] /\ selects rows us' p' /\
    row !! units = Some (amount, quote) /\
    p = mkGridPlan (gp_amounts p' ++ [amount]) (gp_output p' + quote).
Proof.
  intros H. inversion H as [He|rows' us' p' row' units amount quote Hs Hrow He]; [by destruct rows|].
  apply app_inj_tail in He as [-> ->]. by exists us', units, p', amount, quote.
Qed.

Lemma keep_better_spec best p :
  exists q, keep_better best p = Some q /\ gp_output p <= gp_output q /\ (q = p \/ best = Some q) /\
    (forall b, best = Some b -> gp_output b <= gp_output q).
Proof.
  unfold keep_better. destruct (decide (betterGridPlan p best)) as [Hb|Hb].
  - exists p. split_and!; [done|lia|by left|]. intros b ->. cbn in Hb. lia.
  - destruct best as [b|]; [|by destruct Hb]. cbn in Hb. exists b.
    split_and!; [done|lia|by right|]. intros b' [= <-]. lia.
Qed.

Lemma sum_list_snoc us n : sum_list (us ++ [n]) = (sum_list us + n)%nat.
Proof. rewrite sum_list_with_app. cbn. lia. Qed.

Section cell.
Context (previous : list (option gridPlan)) (row : list (Z * Z)) (rows : list (list (Z * Z))) (u : nat).
Hypothesis Hprev : forall v, (v <= u)%nat -> exists cell, previous !! v = Some cell /\ best_plan rows v cell.
Hypothesis Hrow : (u < length row)%nat.

(** After the units in [ks]: the best plan that gives the curve one of them. *)
Definition cell_best (ks : list nat) (cell : option gridPlan) : Prop :=
  (forall p, cell = Some p -> exists us, sum_list us = u /\ selects (rows ++ [row]) us p) /\
  (forall us k p, k ∈ ks -> selects (rows ++ [row]) (us ++ [k]) p -> (sum_list us + k)%nat = u ->
     exists best, cell = Some best /\ gp_output p <= gp_output best).

Lemma grid_candidate_best ks best k :
  (k <= u)%nat -> cell_best ks best -> cell_best (ks ++ [k]) (grid_candidate previous row u best k).
Proof using Hprev Hrow.
  intros Hk [Hsel Hmax]. destruct (Hprev (u - k)%nat ltac:(lia)) as (cell & Hc & Hcsel & Hcmax).
  destruct (lookup_lt_is_Some_2 row k ltac:(lia)) as [[amount quote] Hr].
  unfold grid_candidate. rewrite Hc, Hr.
  assert (forall us p, selects (rows ++ [row]) (us ++ [k]) p -> (sum_list us + k)%nat = u ->
    exists prefix, cell = Some prefix /\ gp_output p <= gp_output prefix + quote) as Hlast.
  { intros us p Hs Hu. apply selects_snoc_inv in Hs as (us' & k' & p' & a' & q' & He & Hs' & Hr' & ->).
    apply app_inj_tail in He as [-> ->]. rewrite Hr in Hr'. injection Hr' as <- <-.
    destruct (Hcmax us' p' Hs' ltac:(lia)) as (b & -> & Hb). exists b. cbn. split; [done|lia]. }
  destruct cell as [prefix|].
  - set (candidate := mkGridPlan _ _).
    destruct (keep_better_spec best candidate) as (q & Hq & Hge & Hor & Hbest). split.
    + intros p Hp. rewrite Hq in Hp. injection Hp as <-. destruct Hor as [->|Hor]; [|by apply Hsel].
      destruct (Hcsel prefix eq_refl) as (us & Hus & Hs). exists (us ++ [k]).
      rewrite sum_list_snoc. split; [lia|]. by eapply selects_snoc.
    + intros us k' p Hin Hs Hu. exists q. split; [done|].
      apply elem_of_app in Hin as [Hin|Hin].
      * destruct (Hmax us k' p Hin Hs Hu) as (b & Hb & ?). specialize (Hbest b Hb). lia.
      * apply list_elem_of_singleton in Hin as ->. destruct (Hlast us p Hs Hu) as (b & [= <-] & ?).
        cbn in Hge. lia.
  - split; [done|]. intros us k' p Hin Hs Hu. apply elem_of_app in Hin as [Hin|Hin].
    + by apply (Hmax us k').
    + apply list_elem_of_singleton in Hin as ->. by destruct (Hlast us p Hs Hu) as (b & ? & _).
Qed.

Lemma grid_cell_best : best_plan (rows ++ [row]) u (grid_cell previous row u).
Proof using Hprev Hrow.
  assert (forall ks rest best, seq 0 (S u) = ks ++ rest -> cell_best ks best ->
    cell_best (seq 0 (S u)) (foldl (grid_candidate previous row u) best rest)) as Hgen.
  { intros ks rest. revert ks. induction rest as [|k rest IH]; intros ks best Hseq Hb; cbn [foldl].
    - by rewrite Hseq, app_nil_r.
    - apply (IH (ks ++ [k])); [by rewrite <- app_assoc|]. apply grid_candidate_best; [|done].
      assert (k ∈ seq 0 (S u)) as Hin by (rewrite Hseq; apply elem_of_app; right; by left).
      apply elem_of_seq in Hin. lia. }
  destruct (Hgen [] (seq 0 (S u)) None eq_refl) as [Hsel Hmax].
  { split; [done|]. intros us k p Hin. by apply elem_of_nil in Hin. }
  split; [done|]. intros us p Hs Hu. pose proof Hs as Hs0.
  apply selects_snoc_inv in Hs as (us' & k & p' & a & q & -> & _ & _ & _). rewrite sum_list_snoc in Hu.
  apply (Hmax us' k p); [|done..]. apply elem_of_seq. lia.
Qed.
End cell.

(** Every cell of the final table holds the best plan for its units. *)
Lemma grid_dp_best divisions rows u :
  Forall (fun row => (divisions < length row)%nat) rows -> (u <= divisions)%nat ->
  exists cell, grid_dp divisions rows !! u = Some cell /\ best_plan rows u cell.
Proof.
  unfold grid_dp. revert u. induction rows as [|row rows IH] using rev_ind; intros u Hrows Hu.
  - cbn [foldl]. unfold grid_start. destruct u as [|u].
    + eexists. split; [done|]. split.
      * intros p [= <-]. exists []. split; [done|constructor].
      * intros us p Hs _. inversion Hs as [|rows us' p' row k a q _ _ He]; subst; [by eexists|].
        by destruct rows.
    + exists None. split; [apply lookup_replicate; split; [done|lia]|]. split; [done|].
      intros us p Hs Hsum. inversion Hs as [|rows us' p' row k a q _ _ He]; subst; [done|by destruct rows].
  - apply Forall_app in Hrows as [Hrows Hrow]. rewrite Forall_singleton in Hrow.
    rewrite foldl_snoc. unfold grid_step at 1. eexists. split.
    + rewrite list_lookup_fmap, lookup_seq_lt by lia. done.
    + apply grid_cell_best; [|lia]. intros v Hv. apply IH; [done|lia].
Qed.

(** With at least one curve every number of units can be spent. *)
Lemma selects_exists divisions rows u :
  Forall (fun row => (divisions < length row)%nat) rows -> rows <> [] -> (u <= divisions)%nat ->
  exists us p, selects rows us p /\ sum_list us = u.
Proof.
  intros Hrows Hne Hu. destruct rows as [|row rows _] using rev_ind; [done|]. clear Hne.
  apply Forall_app in Hrows as [Hrows Hrow]. rewrite Forall_singleton in Hrow.
  assert (exists us p, selects rows us p /\ sum_list us = 0%nat) as (us & p & Hs & H0).
  { clear Hrow row. induction rows as [|row rows IH] using rev_ind; [exists [], (mkGridPlan [] 0); split; [constructor|done]|].
    apply Forall_app in Hrows as [Hrows Hrow]. rewrite Forall_singleton in Hrow.
    destruct (IH Hrows) as (us & p & Hs & H0).
    destruct (lookup_lt_is_Some_2 row 0%nat ltac:(lia)) as [[a q] Hr].
    exists (us ++ [0%nat]). eexists. split; [by eapply selects_snoc|]. rewrite sum_list_snoc. lia. }
  destruct (lookup_lt_is_Some_2 row u ltac:(lia)) as [[a q] Hr].
  exists (us ++ [u]). eexists. split; [by eapply selects_snoc|]. rewrite sum_list_snoc. lia.
Qed.

(** ** Plans as allocations *)

(** The amounts of [us] units of [quantum], with [extra i] added for curve [i]. *)
Definition amounts_of (quantum : Z) (extra : nat -> Z) (us : list nat) : list Z :=
  imap (fun i units => quantum * Z.of_nat units + extra i) us.

Lemma amounts_of_snoc quantum extra us units :
  amounts_of quantum extra (us ++ [units]) =
  amounts_of quantum extra us ++ [quantum * Z.of_nat units + extra (length us)].
Proof. unfold amounts_of. rewrite imap_app. cbn. by rewrite Nat.add_0_r. Qed.

Lemma amounts_of_length quantum extra us : length (amounts_of quantum extra us) = length us.
Proof. apply length_imap. Qed.

Lemma amounts_of_ext quantum extra extra' us :
  (forall i, (i < length us)%nat -> extra i = extra' i) ->
  amounts_of quantum extra us = amounts_of quantum extra' us.
Proof. intros He. apply imap_ext. intros i x Hi. rewrite He; [done|by eapply lookup_lt_Some]. Qed.

(** Recipient [r] gets the remainder. *)
Definition extra_at (r : nat) (remainder : Z) (i : nat) : Z := if decide (i = r) then remainder else 0.

Lemma amounts_of_sum_0 quantum us :
  Zsum (amounts_of quantum (fun _ => 0) us) = quantum * Z.of_nat (sum_list us).
Proof.
  induction us as [|u us IH] using rev_ind; [cbn; rewrite Zsum_nil; lia|].
  rewrite amounts_of_snoc, Zsum_app, Zsum_cons, Zsum_nil, IH, sum_list_snoc. lia.
Qed.

Lemma amounts_of_sum quantum r remainder us :
  (r < length us)%nat ->
  Zsum (amounts_of quantum (extra_at r remainder) us) = quantum * Z.of_nat (sum_list us) + remainder.
Proof.
  induction us as [|u us IH] using rev_ind; [cbn; lia|].
  rewrite amounts_of_snoc, Zsum_app, Zsum_cons, Zsum_nil, sum_list_snoc, length_app. cbn [length].
  intros Hr. unfold extra_at at 2. case_decide as He.
  - rewrite (amounts_of_ext _ _ (fun _ => 0)), amounts_of_sum_0; [lia|].
    intros i Hi. unfold extra_at. by rewrite decide_False by lia.
  - rewrite IH by lia. lia.
Qed.

Lemma amounts_of_nonneg quantum extra us :
  0 <= quantum -> (forall i, 0 <= extra i) -> Forall (fun x => 0 <= x) (amounts_of quantum extra us).
Proof.
  intros Hq He. apply Forall_lookup. intros i x Hx. unfold amounts_of in Hx.
  rewrite list_lookup_imap in Hx. destruct (us !! i); [|done]. injection Hx as <-. specialize (He i). nia.
Qed.

Section best_of.
Context (curves : list memoCurve).

(** The best of the allocations in [P], if there is one. *)
Definition best_of (P : list Z -> Prop) (best : option gridPlan) : Prop :=
  (forall p, best = Some p -> P (gp_amounts p) /\ curves_value curves (gp_amounts p) = Ok (gp_output p)) /\
  (forall a, P a -> exists p v, best = Some p /\ curves_value curves a = Ok v /\ v <= gp_output p).

Lemma best_of_ext P Q best : (forall a, P a <-> Q a) -> best_of P best -> best_of Q best.
Proof. intros HPQ [H1 H2]. split; [intros p Hp; rewrite <- HPQ; by apply H1|intros a Ha; apply H2; by apply HPQ]. Qed.

Lemma best_of_none : best_of (fun _ => False) None.
Proof. done. Qed.

Lemma best_of_single a v : curves_value curves a = Ok v -> best_of (fun b => b = a) (Some (mkGridPlan a v)).
Proof.
  intros Hv. split; [by intros p [= <-]|]. intros b ->. exists (mkGridPlan a v), v. split_and!; [done..|cbn; lia].
Qed.

Lemma best_of_or P Q best p :
  best_of P best -> best_of Q (Some p) -> best_of (fun a => P a \/ Q a) (keep_better best p).
Proof.
  intros [HP1 HP2] [HQ1 HQ2]. destruct (keep_better_spec best p) as (q & -> & Hge & Hor & Hbest). split.
  - intros p' [= <-]. destruct Hor as [->|Hor]; [destruct (HQ1 p eq_refl)|destruct (HP1 q Hor)]; auto.
  - intros a [Ha|Ha].
    + destruct (HP2 a Ha) as (b & v & Hb & Hv & Hle). exists q, v. split_and!; [done..|].
      specialize (Hbest b Hb). lia.
    + destruct (HQ2 a Ha) as (b & v & [= <-] & Hv & Hle). exists q, v. split_and!; [done..|lia].
Qed.

Lemma best_of_or_none P Q best :
  best_of P best -> best_of Q None -> best_of (fun a => P a \/ Q a) best.
Proof.
  intros [HP1 HP2] [_ HQ2]. split.
  - intros p Hp. destruct (HP1 p Hp). auto.
  - intros a [Ha|Ha]; [by apply HP2|]. by destruct (HQ2 a Ha) as (p & v & ? & _).
Qed.
End best_of.

(** The allocations of [u] units with fixed extras. *)
Definition spends (curves : list memoCurve) (quantum : Z) (extra : nat -> Z) (u : nat) (a : list Z) : Prop :=
  exists us, length us = length curves /\ sum_list us = u /\ a = amounts_of quantum extra us.

(** The grid of a family of curves: the remainder goes to any one curve. *)
Definition family (curves : list memoCurve) (quantum remainder : Z) (u : nat) (a : list Z) : Prop :=
  exists r, (r < length curves)%nat /\ spends curves quantum (extra_at r remainder) u a.

Section rows.
Context (quantum : Z) (extra : nat -> Z) (divisions : nat).

Definition row_of (extra : Z) (c : memoCurve) (row : list (Z * Z)) : Prop :=
  length row = S divisions /\
  forall (k : nat) amount quote, row !! k = Some (amount, quote) ->
    amount = quantum * Z.of_nat k + extra /\ curve_value c amount = Ok quote.

Definition rows_of (curves : list memoCurve) (rows : list (list (Z * Z))) : Prop :=
  length rows = length curves /\
  forall i c row, curves !! i = Some c -> rows !! i = Some row -> row_of (extra i) c row.

Lemma rows_of_nil rows : rows_of [] rows -> rows = [].
Proof using Type. intros [Hl _]. by destruct rows. Qed.

Lemma rows_of_snoc curves c rows row :
  rows_of (curves ++ [c]) (rows ++ [row]) <-> rows_of curves rows /\ row_of (extra (length curves)) c row.
Proof using Type.
  unfold rows_of. rewrite !length_app. cbn [length]. split.
  - intros [Hl H]. assert (length rows = length curves) as Hlen by lia. split_and!; [done| |].
    + intros i c' row' Hc Hr. apply H; by apply lookup_app_l_Some.
    + apply H; [by apply list_lookup_middle|]. apply list_lookup_middle. lia.
  - intros [[Hl H] Hrow]. split; [lia|]. intros i c' row' Hc Hr.
    apply lookup_app_Some in Hc as [Hc|[Hi Hc]].
    + apply (H i); [done|]. rewrite lookup_app_l in Hr; [done|]. apply lookup_lt_Some in Hc. lia.
    + apply list_lookup_singleton_Some in Hc as [Hi0 <-]. assert (i = length curves) as -> by lia.
      rewrite lookup_app_r in Hr by lia. apply list_lookup_singleton_Some in Hr as [_ <-]. done.
Qed.

Lemma curves_value_snoc curves c amounts x v w :
  length amounts = length curves -> curves_value curves amounts = Ok v -> curve_value c x = Ok w ->
  curves_value (curves ++ [c]) (amounts ++ [x]) = Ok (v + w).
Proof using Type.
  intros Hl Hv Hw. unfold curves_value in *. rewrite zip_with_app by done. rewrite foldM_app, Hv.
  cbn. by rewrite Hw.
Qed.

Lemma selects_value curves rows us p :
  rows_of curves rows -> selects rows us p ->
  length us = length curves /\ gp_amounts p = amounts_of quantum extra us /\
  curves_value curves (gp_amounts p) = Ok (gp_output p).
Proof using Type.
  revert rows us p. induction curves as [|c curves IH] using rev_ind; intros rows us p Hrows Hs.
  - apply rows_of_nil in Hrows as ->. inversion Hs as [|r us' p' row k a q _ _ He]; subst; [done|by destruct r].
  - destruct rows as [|row rows _] using rev_ind.
    { destruct Hrows as [Hl _]. rewrite length_app in Hl. cbn in Hl. lia. }
    apply rows_of_snoc in Hrows as [Hrows [_ Hrow]].
    apply selects_snoc_inv in Hs as (us' & k & p' & a & q & -> & Hs & Hr & ->).
    destruct (IH _ _ _ Hrows Hs) as (Hl & Ha & Hv). destruct (Hrow k a q Hr) as [-> Hq].
    rewrite !length_app. cbn. split_and!; [lia| |].
    + by rewrite amounts_of_snoc, Ha, Hl.
    + apply curves_value_snoc; [|done..]. by rewrite Ha, amounts_of_length.
Qed.

Lemma value_selects curves rows us :
  rows_of curves rows -> length us = length curves -> (sum_list us <= divisions)%nat ->
  exists p, selects rows us p.
Proof using Type.
  revert rows us. induction curves as [|c curves IH] using rev_ind; intros rows us Hrows Hl Hsum.
  - apply rows_of_nil in Hrows as ->. destruct us; [|done]. eexists. constructor.
  - destruct rows as [|row rows _] using rev_ind.
    { destruct Hrows as [Hlr _]. rewrite length_app in Hlr. cbn in Hlr. lia. }
    apply rows_of_snoc in Hrows as [Hrows [Hlen Hrow]].
    destruct us as [|k us _] using rev_ind; [rewrite length_app in Hl; cbn in Hl; lia|].
    rewrite !length_app in Hl. cbn in Hl. rewrite sum_list_snoc in Hsum.
    destruct (IH rows us Hrows ltac:(lia) ltac:(lia)) as [p Hs].
    destruct (lookup_lt_is_Some_2 row k ltac:(lia)) as [[a q] Hr].
    eexists. by eapply selects_snoc.
Qed.

Lemma grid_dp_spends curves rows u :
  rows_of curves rows -> (u <= divisions)%nat ->
  exists cell, grid_dp divisions rows !! u = Some cell /\ best_of curves (spends curves quantum extra u) cell.
Proof using Type.
  intros Hrows Hu. destruct (grid_dp_best divisions rows u) as (cell & Hc & Hsel & Hmax); [|done|].
  { apply Forall_lookup. intros i row Hr. destruct Hrows as [Hl Hrows].
    destruct (lookup_lt_is_Some_2 curves i) as [c Hc]; [rewrite <- Hl; by eapply lookup_lt_Some|].
    destruct (Hrows i c row Hc Hr) as [-> _]. lia. }
  exists cell. split; [done|]. split.
  - intros p ->. destruct (Hsel p eq_refl) as (us & Hsum & Hs).
    destruct (selects_value _ _ _ _ Hrows Hs) as (Hl & Ha & Hv). split; [|done]. by exists us.
  - intros a (us & Hl & Hsum & ->). destruct (value_selects curves rows us Hrows Hl ltac:(lia)) as [p Hs].
    destruct (selects_value _ _ _ _ Hrows Hs) as (_ & Ha & Hv).
    destruct (Hmax us p Hs Hsum) as (b & -> & Hb). exists b, (gp_output p). by rewrite <- Ha.
Qed.
End rows.

(** ** The best plan of a family *)

Section family_spec.
Context (cs : list memoCurve) (Hcs : curves_ok cs).

Lemma grid_row_spec quantum extra divisions c :
  c ∈ cs -> Spec (memos_ok cs) (grid_row quantum extra divisions c) (row_of quantum divisions extra c).
Proof using Hcs.
  intros Hc. unfold grid_row.
  eapply Spec_weaken.
  { apply (Spec_foldST _ _ (fun before row => length row = length before /\
      forall (k : nat) amount quote, row !! k = Some (amount, quote) ->
        exists units, before !! k = Some units /\ amount = quantum * Z.of_nat units + extra /\
          curve_value c amount = Ok quote)).
    - done.
    - intros before units after row _ [Hl Hrow]. unfold grid_quote. cbn zeta.
      eapply Spec_bind; [by apply curve_at_spec|]. intros v Hv. apply Spec_ret.
      rewrite !length_app, Hl. split; [done|]. intros k a q Hk.
      apply lookup_app_Some in Hk as [Hk|[Hk1 Hk2]].
      + destruct (Hrow k a q Hk) as (u & Hu & ?). exists u. split; [by apply lookup_app_l_Some|done].
      + apply list_lookup_singleton_Some in Hk2 as [Hk0 [= <- <-]]. exists units. split_and!; [|done..].
        apply list_lookup_middle. lia. }
  intros row [Hl Hrow]. rewrite length_seq in Hl. split; [done|]. intros k a q Hk.
  destruct (Hrow k a q Hk) as (u & Hu & -> & Hq). apply lookup_seq in Hu as [-> _]. done.
Qed.

Lemma gridFamilyPlans_spec quantum divisions curves u :
  curves ⊆ cs -> (u <= divisions)%nat ->
  Spec (memos_ok cs) (gridFamilyPlans quantum divisions curves)
    (fun plans => exists cell, plans !! u = Some cell /\
       best_of curves (spends curves quantum (fun _ => 0) u) cell).
Proof using Hcs.
  intros Hsub Hu. unfold gridFamilyPlans. destruct (decide (curves = [])) as [->|Hne].
  - apply Spec_ret. by apply (grid_dp_spends quantum (fun _ => 0) divisions [] []).
  - eapply Spec_bind; [|intros rows Hrows; apply Spec_ret;
      by apply (grid_dp_spends quantum (fun _ => 0) divisions curves rows)].
    apply (Spec_foldST _ _ (fun before rows => rows_of quantum (fun _ => 0) divisions before rows)); [done|].
    intros before c after rows Hl Hrows.
    eapply Spec_bind; [apply grid_row_spec; apply Hsub; rewrite Hl; apply elem_of_app; right; by left|].
    intros row Hrow. apply Spec_ret. by apply rows_of_snoc.
Qed.

Lemma gridFamilyPlansWithRemainder_spec quantum remainder divisions curves recipient u :
  curves ⊆ cs -> (u <= divisions)%nat ->
  Spec (memos_ok cs) (gridFamilyPlansWithRemainder quantum remainder divisions curves recipient)
    (fun plans => exists cell, plans !! u = Some cell /\
       best_of curves (spends curves quantum (recipient_extra remainder recipient) u) cell).
Proof using Hcs.
  set (extra := recipient_extra remainder recipient).
  intros Hsub Hu. unfold gridFamilyPlansWithRemainder. destruct (decide (curves = [])) as [->|Hne].
  - apply Spec_ret. by apply (grid_dp_spends quantum extra divisions [] []).
  - eapply Spec_bind; [|intros rows Hrows; apply Spec_ret;
      by apply (grid_dp_spends quantum extra divisions curves rows)].
    eapply Spec_weaken.
    { apply (Spec_foldST _ _ (fun before rows => rows_of quantum extra divisions (snd <$> before) rows)); [done|].
      intros before [i c] after rows Hl Hrows.
      assert (i = length before /\ c ∈ curves) as [-> Hc].
      { assert (zip (seq 0 (length curves)) curves !! length before = Some (i, c)) as Hz
          by (rewrite Hl; by apply list_lookup_middle).
        apply lookup_zip_Some in Hz as [Hi Hc]. apply lookup_seq in Hi as [-> _].
        split; [done|by eapply list_elem_of_lookup_2]. }
      eapply Spec_bind; [apply grid_row_spec; by apply Hsub|].
      intros row Hrow. apply Spec_ret. rewrite fmap_app. apply rows_of_snoc. by rewrite length_fmap. }
    intros rows Hrows. rewrite snd_zip in Hrows; [done|]. by rewrite length_seq.
Qed.

(** One pair of inputs of the two-curve case. *)
Definition pair_amounts (quantum remainder : Z) (divisions : nat) (recipient : Z) (k : nat) : list Z :=
  [quantum * Z.of_nat k + (if decide (recipient = 0) then remainder else 0);
   quantum * Z.of_nat (divisions - k) + (if decide (recipient = 1) then remainder else 0)].

Lemma pair_split_spec quantum remainder divisions c0 c1 recipient best k P :
  c0 ∈ cs -> c1 ∈ cs -> best_of [c0; c1] P best ->
  Spec (memos_ok cs) (pair_split quantum remainder divisions c0 c1 recipient best k)
    (best_of [c0; c1] (fun a => P a \/ a = pair_amounts quantum remainder divisions recipient k)).
Proof using Hcs.
  intros H0 H1 HP. unfold pair_split. cbn zeta.
  eapply Spec_bind; [by apply curve_at_spec|]. intros v0 Hv0.
  eapply Spec_bind; [by apply curve_at_spec|]. intros v1 Hv1. apply Spec_ret.
  apply best_of_or; [done|]. apply best_of_single. unfold curves_value. cbn.
  rewrite Hv0. cbn. by rewrite Hv1.
Qed.

Lemma pair_best_spec quantum remainder divisions c0 c1 recipients :
  c0 ∈ cs -> c1 ∈ cs ->
  Spec (memos_ok cs)
    (foldST (fun best recipient =>
       foldST (pair_split quantum remainder divisions c0 c1 recipient) best (seq 0 (S divisions)))
       None recipients)
    (best_of [c0; c1] (fun a => exists recipient k, recipient ∈ recipients /\ (k <= divisions)%nat /\
       a = pair_amounts quantum remainder divisions recipient k)).
Proof using Hcs.
  intros H0 H1.
  apply (Spec_foldST _ _ (fun before => best_of [c0; c1] (fun a => exists recipient k,
    recipient ∈ before /\ (k <= divisions)%nat /\
    a = pair_amounts quantum remainder divisions recipient k))).
  - eapply best_of_ext; [|apply best_of_none]. intros a. split; [done|].
    by intros (r & k & Hr%elem_of_nil & _).
  - intros before recipient after best _ Hbest.
    eapply Spec_weaken; [apply (Spec_foldST _ _ (fun ks => best_of [c0; c1] (fun a =>
        (exists recipient k, recipient ∈ before /\ (k <= divisions)%nat /\
           a = pair_amounts quantum remainder divisions recipient k) \/
        exists k, k ∈ ks /\ a = pair_amounts quantum remainder divisions recipient k)))|].
    + eapply best_of_ext; [|exact Hbest]. intros a. split; [by left|].
      intros [?|(k & Hk%elem_of_nil & _)]; done.
    + intros ks k ks' b _ Hb. eapply Spec_weaken; [by apply pair_split_spec|].
      intros b' Hb'. eapply best_of_ext; [|exact Hb']. intros a. cbn. setoid_rewrite elem_of_app.
      setoid_rewrite list_elem_of_singleton. naive_solver.
    + intros b Hb. eapply best_of_ext; [|exact Hb]. intros a. cbn beta. setoid_rewrite elem_of_app.
      setoid_rewrite list_elem_of_singleton. setoid_rewrite elem_of_seq.
      split; [intros [?|(k & Hk & ->)]; [naive_solver|]|].
      * exists recipient, k. split_and!; [by right|lia|done].
      * intros (r & k & [Hr| ->] & Hk & ->); [left; eauto|right]. exists k. split; [lia|done].
Qed.

Lemma extra_at_pair quantum remainder divisions k r :
  (k <= divisions)%nat ->
  pair_amounts quantum remainder divisions (Z.of_nat r) k =
  amounts_of quantum (extra_at r remainder) [k; (divisions - k)%nat].
Proof using Type.
  intros Hk. unfold pair_amounts, amounts_of, extra_at. cbn.
  destruct r as [|[|r]]; cbn; repeat case_decide; try lia; done.
Qed.

(** With two curves the loops visit the whole grid of the family. *)
Lemma pair_family c0 c1 quantum remainder divisions a :
  0 <= remainder ->
  (exists recipient k, recipient ∈ (if decide (0 < Z.sgn remainder) then [0; 1] else [-1]) /\
     (k <= divisions)%nat /\ a = pair_amounts quantum remainder divisions recipient k) <->
  family [c0; c1] quantum remainder divisions a.
Proof using Type.
  intros Hr. unfold family, spends. cbn [length]. split.
  - intros (recipient & k & Hin & Hk & ->). destruct (decide (0 < Z.sgn remainder)) as [Hpos|Hz].
    + apply elem_of_cons in Hin as [->|Hin]; [exists 0%nat|apply list_elem_of_singleton in Hin as ->; exists 1%nat];
        (split; [lia|]); exists [k; (divisions - k)%nat]; cbn [length sum_list]; (split_and!; [done|cbn; lia|]);
        by rewrite <- extra_at_pair.
    + apply list_elem_of_singleton in Hin as ->. assert (remainder = 0) as -> by (destruct (Z.sgn_spec remainder); lia).
      exists 0%nat. split; [lia|]. exists [k; (divisions - k)%nat]. split_and!; [done|cbn; lia|].
      rewrite <- extra_at_pair by done. done.
  - intros (r & Hr2 & us & Hl & Hsum & ->). destruct us as [|k [|k' [|? ?]]]; try done. cbn in Hsum.
    assert (k' = (divisions - k)%nat) as -> by lia. rewrite <- extra_at_pair by lia.
    destruct (decide (0 < Z.sgn remainder)) as [Hpos|Hz].
    + exists (Z.of_nat r), k. split_and!; [|lia|done]. destruct r as [|[|r]]; [by left|by right; left|lia].
    + exists (-1), k. split_and!; [by left|lia|]. assert (remainder = 0) as -> by (destruct (Z.sgn_spec remainder); lia).
      unfold pair_amounts. by repeat case_decide.
Qed.

Lemma family_best_spec quantum remainder divisions curves :
  curves ⊆ cs -> 0 <= remainder ->
  Spec (memos_ok cs) (gridFamilyBestWithRemainder quantum remainder divisions curves)
    (best_of curves (family curves quantum remainder divisions)).
Proof using Hcs.
  intros Hsub Hr.
  destruct curves as [|c0 [|c1 [|c2 curves]]]; cbn [gridFamilyBestWithRemainder]; [apply Spec_fail| | |].
  - eapply Spec_bind; [apply curve_at_spec; [done|apply Hsub; by left]|]. intros v Hv. apply Spec_ret.
    eapply best_of_ext; [|apply best_of_single; unfold curves_value; cbn; by rewrite Hv]. intros a.
    unfold family, spends. cbn [length]. split.
    + intros ->. exists 0%nat. split; [lia|]. exists [divisions]. split_and!; [done|cbn; lia|done].
    + intros (r & Hr1 & us & Hl & Hsum & ->). destruct us as [|k [|? ?]]; try done. cbn in Hsum.
      assert (r = 0%nat) as -> by lia. assert (k = divisions) as -> by lia. done.
  - eapply Spec_weaken; [apply pair_best_spec; apply Hsub; [by left|by right; left]|].
    intros best Hb. eapply best_of_ext; [|exact Hb]. intros a. by apply pair_family.
  - set (all := c0 :: c1 :: c2 :: curves) in *. destruct (decide (Z.sgn remainder = 0)) as [H0|Hpos].
    + apply Z.sgn_null_iff in H0 as ->.
      eapply Spec_bind; [by apply (gridFamilyPlansWithRemainder_spec _ _ _ _ _ divisions)|].
      intros plans (cell & -> & Hb). apply Spec_ret. cbn. eapply best_of_ext; [|exact Hb]. intros a.
      unfold family, spends. split.
      * intros (us & Hl & Hsum & ->). exists 0%nat. split; [unfold all; cbn; lia|]. exists us. split_and!; [done..|].
        apply amounts_of_ext. intros i _. unfold extra_at. cbn. by case_decide.
      * intros (r & _ & us & Hl & Hsum & ->). exists us. split_and!; [done..|].
        apply amounts_of_ext. intros i _. unfold extra_at. cbn. by case_decide.
    + eapply Spec_weaken; [apply (Spec_foldST _ _ (fun before => best_of all (fun a =>
        exists r, r ∈ before /\ spends all quantum (extra_at r remainder) divisions a)))|].
      * eapply best_of_ext; [|apply best_of_none]. intros a. split; [done|]. by intros (r & ?%elem_of_nil & _).
      * intros before r after best _ Hbest. unfold family_recipient.
        eapply Spec_bind; [by apply (gridFamilyPlansWithRemainder_spec _ _ _ _ _ divisions)|].
        intros plans (cell & -> & Hb).
        assert (best_of all (spends all quantum (extra_at r remainder) divisions) cell) as Hb'.
        { eapply best_of_ext; [|exact Hb]. intros a. unfold spends.
          assert (forall us, amounts_of quantum (recipient_extra (Some remainder) (Z.of_nat r)) us =
            amounts_of quantum (extra_at r remainder) us) as He; [|by setoid_rewrite He].
          intros us. apply amounts_of_ext. intros i _. unfold recipient_extra, extra_at.
          repeat case_decide; lia. }
        clear Hb. destruct cell as [p|]; apply Spec_ret.
        -- eapply best_of_ext; [|by apply best_of_or]. intros a. cbn beta. setoid_rewrite elem_of_app.
           setoid_rewrite list_elem_of_singleton. naive_solver.
        -- eapply best_of_ext; [|by apply best_of_or_none]. intros a. cbn beta. setoid_rewrite elem_of_app.
           setoid_rewrite list_elem_of_singleton. naive_solver.
      * intros best Hb. eapply best_of_ext; [|exact Hb]. intros a. cbn beta. unfold family.
        setoid_rewrite elem_of_seq. split; intros (r & ? & ?); exists r; (split; [lia|done]).
Qed.

(** What [gridFamilyBest] promises of the plan it returns for [total]. *)
Definition grid_best (curves : list memoCurve) (total divisions : Z) (p : gridPlan) : Prop :=
  length (gp_amounts p) = length curves /\ allocationConserves (gp_amounts p) total /\
  curves_value curves (gp_amounts p) = Ok (gp_output p) /\
  forall a v, let effective := effectiveGridDivisions total divisions in
    total <> 0 -> family curves (Z.quot total effective) (Z.rem total effective) (Z.to_nat effective) a ->
    curves_value curves a = Ok v -> v <= gp_output p.

Lemma effective_bounds total divisions :
  0 < total -> 2 <= divisions ->
  let effective := effectiveGridDivisions total divisions in
  0 < effective /\ 0 <= Z.quot total effective /\ 0 <= Z.rem total effective /\
  Z.quot total effective * effective + Z.rem total effective = total.
Proof using Type.
  intros Ht Hd. unfold effectiveGridDivisions. cbn zeta.
  assert (0 < (if decide ((- 2 ^ 63 <= total < 2 ^ 63) /\ total < divisions) then total else divisions)) as He
    by (case_decide; lia).
  set (e := if decide _ then total else divisions) in *.
  pose proof (Z.rem_bound_pos total e ltac:(lia) He). pose proof (Z.quot_pos total e ltac:(lia) He).
  pose proof (Z.quot_rem total e ltac:(lia)). lia.
Qed.

Lemma family_conserves curves quantum remainder units total a :
  0 <= quantum -> 0 <= remainder -> quantum * Z.of_nat units + remainder = total ->
  family curves quantum remainder units a -> length a = length curves /\ allocationConserves a total.
Proof using Type.
  intros Hq Hr Ht (r & Hlt & us & Hl & Hsum & ->). rewrite amounts_of_length. split; [done|]. split.
  - apply amounts_of_nonneg; [done|]. intros i. unfold extra_at. case_decide; lia.
  - rewrite amounts_of_sum by lia. by rewrite Hsum.
Qed.

Lemma family_nonempty curves quantum remainder units :
  curves <> [] -> exists a, family curves quantum remainder units a.
Proof using Type.
  intros Hne. destruct curves as [|c curves]; [done|]. eexists. exists 0%nat. split; [cbn; lia|].
  exists (units :: replicate (length curves) 0%nat). split_and!; [cbn; by rewrite length_replicate| |done].
  cbn. induction (length curves); cbn in *; lia.
Qed.

Lemma curves_value_zero curves : curves_value curves (zeroAllocation (length curves)) = Ok 0.
Proof using Type.
  unfold curves_value, zeroAllocation. induction curves as [|c curves IH]; [done|]. cbn. exact IH.
Qed.

Lemma gridFamilyBest_spec total divisions curves :
  curves ⊆ cs -> 0 <= total -> 2 <= divisions ->
  Spec (memos_ok cs) (gridFamilyBest total divisions curves)
    (fun r => exists p, r.1 = Some p /\ grid_best curves total divisions p).
Proof using Hcs.
  intros Hsub Ht Hd. unfold gridFamilyBest. destruct (decide (Z.sgn total = 0)) as [H0|Hpos].
  - apply Z.sgn_null_iff in H0 as ->. apply Spec_ret. eexists. split; [done|]. cbn.
    split_and!; [apply length_replicate| |apply curves_value_zero|by intros a v e Hne].
    split; [by apply Forall_replicate|apply Zsum_replicate_0].
  - cbn zeta. assert (0 < total) as Hp by (rewrite Z.sgn_null_iff in Hpos; lia).
    destruct (effective_bounds total divisions Hp Hd) as (He & Hq & Hr & Heq).
    set (effective := effectiveGridDivisions total divisions) in *.
    destruct (decide (curves = [])) as [->|Hne]; [eapply Spec_bind; [apply (Spec_fail _ _ (fun _ => False))|done]|].
    eapply Spec_bind; [by apply family_best_spec|]. intros best [Hin Hmax]. apply Spec_ret. cbn [fst].
    destruct (family_nonempty curves (Z.quot total effective) (Z.rem total effective) (Z.to_nat effective) Hne)
      as [a0 Ha0].
    destruct (Hmax a0 Ha0) as (p & _ & -> & _). exists p. split; [done|].
    destruct (Hin p eq_refl) as [Hfam Hv].
    destruct (family_conserves curves _ _ (Z.to_nat effective) total _ Hq Hr ltac:(rewrite Z2Nat.id; lia) Hfam) as [Hl Hcons].
    split_and!; [done..|]. intros a v e _ Ha Hav. destruct (Hmax a Ha) as (p' & v' & [= <-] & Hv' & Hle).
    congruence.
Qed.
End family_spec.

(** ** Flows *)

Definition plan_value (curves : list memoCurve) (p : gridPlan) : Prop :=
  length (gp_amounts p) = length curves /\ Forall (fun x => 0 <= x) (gp_amounts p) /\
  curves_value curves (gp_amounts p) = Ok (gp_output p).

Lemma curves_value_nonneg curves amounts v : curves_value curves amounts = Ok v -> 0 <= v.
Proof.
  unfold curves_value. apply (foldM_inv _ (fun v => 0 <= v)); [lia|].
  intros s [c x] s' _ Hs. rewrite bind_Ok. intros (w & Hw%curve_value_nonneg & [= <-]). lia.
Qed.

Section flow_spec.
Context (direct first second : list memoCurve) (divisions : Z).
Context (cs : list memoCurve) (Hcs : curves_ok cs).
Hypothesis Hd : direct ⊆ cs.
Hypothesis Hf : first ⊆ cs.
Hypothesis Hs : second ⊆ cs.
Hypothesis Hdiv : 2 <= divisions.

(** A flow: its plans' outputs are quotes, the second stage spends exactly the
    intermediate output and is best on its grid. *)
Record flow_sound (f : gridFlow) : Prop := {
  fs_direct : plan_value direct (gf_direct f);
  fs_first : plan_value first (gf_first f);
  fs_intermediate : gf_intermediate f = gp_output (gf_first f);
  fs_second : grid_best second (gf_intermediate f) divisions (gf_second f);
  fs_output : gf_output f = gp_output (gf_direct f) + gp_output (gf_second f) }.

Definition flow_spent (f : gridFlow) : Z := Zsum (flow_key f).

Lemma grid_evaluate_spec d f :
  plan_value direct d -> plan_value first f ->
  Spec (memos_ok cs) (grid_evaluate second divisions (Some d) (Some f))
    (fun r => exists flow, r.1.1 = Some flow /\ flow_sound flow /\ gf_direct flow = d /\ gf_first flow = f).
Proof using Hcs Hs Hdiv.
  intros Hpd Hpf. unfold grid_evaluate. pose proof Hpf as (_ & _ & Hv). apply curves_value_nonneg in Hv.
  destruct (decide (0 < Z.sgn (gp_output f))) as [Hpos|Hz].
  - eapply Spec_bind; [by apply gridFamilyBest_spec|]. intros [plan exact] (p & Hp & Hbest). cbn in Hp. subst plan.
    apply Spec_ret. eexists. split; [done|]. split_and!; [by split|done..].
  - apply Spec_ret. eexists. split; [done|]. assert (gp_output f = 0) as H0 by (destruct (Z.sgn_spec (gp_output f)); lia).
    split_and!; [|done..]. split; cbn; try done. rewrite H0. split_and!; cbn.
    + apply length_replicate.
    + split; [by apply Forall_replicate|apply Zsum_replicate_0].
    + apply curves_value_zero.
    + by intros a v e Hne.
Qed.

(** A slot of the results: what it holds is a sound flow that spends [units]
    grid units. *)
Definition slot_sound (spent : Z) (slot : evaluatedGridFlow) : Prop :=
  forall flow, eg_flow slot = Some flow -> flow_sound flow /\ flow_spent flow = spent.

Lemma spends_plan curves quantum u p :
  0 <= quantum -> best_of curves (spends curves quantum (fun _ => 0) u) (Some p) ->
  plan_value curves p /\ Zsum (gp_amounts p) = quantum * Z.of_nat u.
Proof using Type.
  intros Hq [Hin _]. destruct (Hin p eq_refl) as [(us & Hl & Hsum & Ha) Hv]. split.
  - split_and!; [by rewrite Ha, amounts_of_length| |done]. rewrite Ha. by apply amounts_of_nonneg.
  - by rewrite Ha, amounts_of_sum_0, Hsum.
Qed.

Definition plans_ok (curves : list memoCurve) (quantum : Z) (units : nat) (plans : list (option gridPlan)) : Prop :=
  forall u, (u <= units)%nat -> exists cell, plans !! u = Some cell /\
    best_of curves (spends curves quantum (fun _ => 0) u) cell.

Lemma gridFamilyPlans_all quantum units curves :
  curves ⊆ cs -> Spec (memos_ok cs) (gridFamilyPlans quantum units curves) (plans_ok curves quantum units).
Proof using Hcs.
  intros Hsub s Hms. pose proof (fun u Hu => gridFamilyPlans_spec cs Hcs quantum units curves u Hsub Hu s Hms) as H.
  destruct (gridFamilyPlans quantum units curves s) as [[plans|e|w] s'].
  - split; [by apply (H 0%nat); lia|]. intros u Hu. by apply H.
  - split; [by apply (H 0%nat); lia|done].
  - by destruct (H 0%nat ltac:(lia)) as [_ []].
Qed.

Lemma run_job_spec quantum units directPlans firstPlans evaluated i :
  0 <= quantum -> plans_ok direct quantum units directPlans -> plans_ok first quantum units firstPlans ->
  (i <= units)%nat -> Forall (slot_sound (quantum * Z.of_nat units)) evaluated ->
  Spec (memos_ok cs) (run_job second divisions directPlans firstPlans units evaluated i)
    (Forall (slot_sound (quantum * Z.of_nat units))).
Proof using Hcs Hs Hdiv.
  intros Hq Hdp Hfp Hi Hev s Hms. unfold run_job.
  destruct (Hdp (units - i)%nat ltac:(lia)) as (dcell & -> & Hdc).
  destruct (Hfp i Hi) as (fcell & -> & Hfc). cbn [mbind option_bind id].
  assert (Spec (memos_ok cs) (grid_evaluate second divisions dcell fcell)
    (fun r => forall flow, r.1.1 = Some flow -> flow_sound flow /\ flow_spent flow = quantum * Z.of_nat units)) as H.
  { destruct dcell as [d|]; [|by apply Spec_ret]. destruct fcell as [f|]; [|by apply Spec_ret].
    destruct (spends_plan _ _ _ _ Hq Hdc) as [Pd Sd]. destruct (spends_plan _ _ _ _ Hq Hfc) as [Pf Sf].
    eapply Spec_weaken; [by apply grid_evaluate_spec|]. intros r (flow & -> & Hflow & <- & <-) fl [= <-].
    split; [done|]. unfold flow_spent, flow_key. rewrite Zsum_app, Sd, Sf.
    rewrite Nat2Z.inj_sub by lia. lia. }
  specialize (H s Hms). destruct (grid_evaluate _ _ _ _ s) as [[[[flow sv] ex]|e|w] s']; destruct H as [Hms' H].
  - split; [done|]. apply Forall_insert; [done|]. intros fl Hfl. by apply H.
  - split; [done|]. apply Forall_insert; [done|]. by intros fl.
  - done.
Qed.

(** The scan: the best flow, if any, satisfies what every flow satisfies. *)
Definition scan_sound (P : gridFlow -> Prop) (scan : gridScan) : Prop :=
  forall flow, gs_best scan = Some flow -> P flow.

Lemma scan_flow_sound P scan flow a b :
  scan_sound P scan -> (forall f, flow = Some f -> P f) -> scan_sound P (scan_flow scan flow a b).
Proof using Type.
  intros Hscan Hflow f. unfold scan_flow. cbn. case_decide; [by apply Hflow|by apply Hscan].
Qed.

Lemma scan_all_sound spent evaluated scan :
  Forall (slot_sound spent) evaluated ->
  foldM scan_evaluated (mkGridScan None 0 0 true) evaluated = Ok scan ->
  scan_sound (fun f => flow_sound f /\ flow_spent f = spent) scan.
Proof using Type.
  intros Hev. apply (foldM_inv _ (scan_sound _)); [by intros f|].
  intros s slot s' Hin Hsc. unfold scan_evaluated. rewrite Forall_forall in Hev. specialize (Hev slot Hin).
  destruct (eg_err slot); [done|]. destruct (eg_flow slot) as [f|] eqn:Hflow; intros [= <-]; [|done].
  apply scan_flow_sound; [done|]. intros f' [= <-]. by apply Hev.
Qed.

(** ** The remainder *)

Lemma add_at_length i r l : length (add_at i r l) = length l.
Proof using Type. apply length_alter. Qed.

Lemma add_at_sum i r l : (i < length l)%nat -> Zsum (add_at i r l) = Zsum l + r.
Proof using Type.
  revert i. induction l as [|x l IH]; intros [|i] Hi; cbn [length] in Hi; [lia..| |]; unfold add_at; cbn.
  - rewrite !Zsum_cons. lia.
  - rewrite !Zsum_cons. change (alter (fun x => x + r) i l) with (add_at i r l). rewrite IH by lia. lia.
Qed.

Lemma add_at_nonneg i r l : 0 <= r -> Forall (fun x => 0 <= x) l -> Forall (fun x => 0 <= x) (add_at i r l).
Proof using Type.
  intros Hr Hl. unfold add_at. apply Forall_alter; [done|]. intros x Hx. cbn.
  rewrite Forall_lookup in Hl. specialize (Hl i x Hx). cbn in Hl. lia.
Qed.

Lemma sumGridOutputs_spec curves amounts :
  curves ⊆ cs -> Spec (memos_ok cs) (sumGridOutputs curves amounts) (fun v => curves_value curves amounts = Ok v).
Proof using Hcs. apply independent_objective_spec, Hcs. Qed.

(** A flow that spends the whole input, or the grid part of it. *)
Definition flow_final (grid remainder : Z) (f : gridFlow) : Prop :=
  flow_sound f /\ (flow_spent f = grid \/ flow_spent f = grid + remainder).

Lemma grid_remainder_spec grid remainder best scan :
  flow_sound best -> flow_spent best = grid -> scan_sound (flow_final grid remainder) scan ->
  Spec (memos_ok cs) (grid_remainder direct first second divisions remainder best scan)
    (scan_sound (flow_final grid remainder)).
Proof using Hcs Hs Hdiv Hd Hf.
  intros Hbest Hspent Hscan. unfold grid_remainder. destruct (decide (0 < Z.sgn remainder)) as [Hpos|]; [|by apply Spec_ret].
  assert (0 <= remainder) as Hr by (destruct (Z.sgn_spec remainder); lia).
  destruct (fs_direct best Hbest) as (Ld & Nd & Vd). destruct (fs_first best Hbest) as (Lf & Nf & Vf).
  eapply Spec_bind; [|intros scan' Hscan'].
  - apply (Spec_foldST _ _ (fun _ => scan_sound (flow_final grid remainder))); [done|].
    intros before i after sc Hseq Hsc. unfold try_direct. cbn zeta.
    assert (i < length direct)%nat as Hi.
    { assert (i ∈ seq 0 (length direct)) as H by (rewrite Hseq; apply elem_of_app; right; by left).
      apply elem_of_seq in H. lia. }
    eapply Spec_bind; [by apply sumGridOutputs_spec|]. intros output Hout.
    eapply Spec_bind; [apply grid_evaluate_spec; [|done]|].
    + split_and!; cbn; [by rewrite add_at_length|by apply add_at_nonneg|done].
    + intros [[flow a] b] (fl & Hfl & Hsound & Hgd & Hgf). cbn in Hfl. subst flow. apply Spec_ret.
      apply scan_flow_sound; [done|]. intros f [= <-]. split; [done|right].
      rewrite <- Hspent. unfold flow_spent, flow_key. rewrite Hgd, Hgf. cbn.
      rewrite !Zsum_app, add_at_sum by lia. lia.
  - apply (Spec_foldST _ _ (fun _ => scan_sound (flow_final grid remainder))); [done|].
    intros before i after sc Hseq Hsc. unfold try_first. cbn zeta.
    assert (i < length first)%nat as Hi.
    { assert (i ∈ seq 0 (length first)) as H by (rewrite Hseq; apply elem_of_app; right; by left).
      apply elem_of_seq in H. lia. }
    eapply Spec_bind; [by apply sumGridOutputs_spec|]. intros output Hout.
    eapply Spec_bind; [apply grid_evaluate_spec; [done|]|].
    + split_and!; cbn; [by rewrite add_at_length|by apply add_at_nonneg|done].
    + intros [[flow a] b] (fl & Hfl & Hsound & Hgd & Hgf). cbn in Hfl. subst flow. apply Spec_ret.
      apply scan_flow_sound; [done|]. intros f [= <-]. split; [done|right].
      rewrite <- Hspent. unfold flow_spent, flow_key. rewrite Hgd, Hgf. cbn.
      rewrite !Zsum_app, add_at_sum by lia. lia.
Qed.

(** ** Optimality of the search *)

(** [scan] is at least as good as the output [v]. *)
Definition scan_reaches (v : Z) (scan : gridScan) : Prop :=
  exists best, gs_best scan = Some best /\ v <= gf_output best.

Lemma scan_flow_reaches scan flow a b v : scan_reaches v scan -> scan_reaches v (scan_flow scan flow a b).
Proof using Type.
  intros (best & Hb & Hv). unfold scan_reaches, scan_flow. cbn. case_decide as Hbetter; [|by eexists].
  rewrite Hb in Hbetter. destruct flow as [f|]; [|done]. exists f. split; [done|]. cbn in Hbetter. lia.
Qed.

Lemma scan_flow_new scan f a b : scan_reaches (gf_output f) (scan_flow scan (Some f) a b).
Proof using Type.
  unfold scan_reaches, scan_flow. cbn. case_decide as Hbetter; [exists f; split; [done|lia]|].
  destruct (gs_best scan) as [best|]; [|by destruct Hbetter]. exists best. split; [done|]. cbn in Hbetter. lia.
Qed.

Lemma scan_all_reaches evaluated scan0 scan :
  foldM scan_evaluated scan0 evaluated = Ok scan ->
  (forall v, scan_reaches v scan0 -> scan_reaches v scan) /\
  forall slot, slot ∈ evaluated -> eg_err slot = None /\
    forall flow, eg_flow slot = Some flow -> scan_reaches (gf_output flow) scan.
Proof using Type.
  revert scan0. induction evaluated as [|slot evaluated IH]; intros scan0; cbn [foldM].
  - intros [= <-]. split; [done|]. by intros slot ?%elem_of_nil.
  - rewrite bind_Ok. intros (s1 & H1 & H2). apply IH in H2 as [Hmono Hall]. unfold scan_evaluated in H1.
    destruct (eg_err slot) eqn:Herr; [done|]. destruct (eg_flow slot) as [f|] eqn:Hflow; injection H1 as <-.
    + split; [intros v Hv; by apply Hmono, scan_flow_reaches|].
      intros sl [->|Hsl]%elem_of_cons; [|by apply Hall]. split; [done|]. rewrite Hflow. intros f' [= <-].
      apply Hmono, scan_flow_new.
    + split; [done|]. intros sl [->|Hsl]%elem_of_cons; [|by apply Hall]. split; [done|]. by rewrite Hflow.
Qed.

Lemma grid_remainder_reaches remainder best scan v :
  flow_sound best -> scan_reaches v scan ->
  Spec (memos_ok cs) (grid_remainder direct first second divisions remainder best scan) (scan_reaches v).
Proof using Hcs Hs Hdiv Hd Hf.
  intros Hbest Hscan. unfold grid_remainder. destruct (decide (0 < Z.sgn remainder)) as [Hpos|]; [|by apply Spec_ret].
  assert (0 <= remainder) as Hr by (destruct (Z.sgn_spec remainder); lia).
  destruct (fs_direct best Hbest) as (Ld & Nd & Vd). destruct (fs_first best Hbest) as (Lf & Nf & Vf).
  eapply Spec_bind; [|intros scan' Hscan'].
  - apply (Spec_foldST _ _ (fun _ => scan_reaches v)); [done|].
    intros before i after sc _ Hsc. unfold try_direct. cbn zeta.
    eapply Spec_bind; [by apply sumGridOutputs_spec|]. intros output Hout.
    eapply Spec_bind; [apply grid_evaluate_spec; [|done]|].
    + split_and!; cbn; [by rewrite add_at_length|by apply add_at_nonneg|done].
    + intros [[flow a] b] _. by apply Spec_ret, scan_flow_reaches.
  - apply (Spec_foldST _ _ (fun _ => scan_reaches v)); [done|].
    intros before i after sc _ Hsc. unfold try_first. cbn zeta.
    eapply Spec_bind; [by apply sumGridOutputs_spec|]. intros output Hout.
    eapply Spec_bind; [apply grid_evaluate_spec; [done|]|].
    + split_and!; cbn; [by rewrite add_at_length|by apply add_at_nonneg|done].
    + intros [[flow a] b] _. by apply Spec_ret, scan_flow_reaches.
Qed.

(** After job [i] slot [i] holds its error, or the flow of its plans. *)
Definition slot_filled (directPlans firstPlans : list (option gridPlan)) (units i : nat)
    (evaluated : list evaluatedGridFlow) : Prop :=
  exists slot, evaluated !! i = Some slot /\ (eg_err slot = None ->
    forall d f, directPlans !! (units - i)%nat = Some (Some d) -> firstPlans !! i = Some (Some f) ->
    exists flow, eg_flow slot = Some flow /\ flow_sound flow /\ gf_direct flow = d /\ gf_first flow = f).

Lemma run_job_fills quantum directPlans firstPlans units evaluated i :
  0 <= quantum -> plans_ok direct quantum units directPlans -> plans_ok first quantum units firstPlans ->
  (i <= units)%nat -> length evaluated = S units ->
  Spec (memos_ok cs) (run_job second divisions directPlans firstPlans units evaluated i)
    (fun evaluated' => length evaluated' = S units /\
       slot_filled directPlans firstPlans units i evaluated' /\
       forall j, slot_filled directPlans firstPlans units j evaluated ->
                 slot_filled directPlans firstPlans units j evaluated').
Proof using Hcs Hs Hdiv.
  intros Hq Hdp Hfp Hi Hlen s Hms. unfold run_job.
  destruct (Hdp (units - i)%nat ltac:(lia)) as (dcell & Hd1 & Hdc).
  destruct (Hfp i Hi) as (fcell & Hf1 & Hfc). rewrite Hd1, Hf1. cbn [mbind option_bind id].
  assert (Spec (memos_ok cs) (grid_evaluate second divisions dcell fcell)
    (fun r => forall d f, dcell = Some d -> fcell = Some f -> exists flow, r.1.1 = Some flow /\ flow_sound flow /\
       gf_direct flow = d /\ gf_first flow = f)) as H.
  { destruct dcell as [d|]; [|by apply Spec_ret]. destruct fcell as [f|]; [|by apply Spec_ret].
    destruct (spends_plan _ _ _ _ Hq Hdc) as [Pd _]. destruct (spends_plan _ _ _ _ Hq Hfc) as [Pf _].
    eapply Spec_weaken; [by apply grid_evaluate_spec|]. by intros r Hr d' f' [= <-] [= <-]. }
  assert (forall slot, (eg_err slot = None -> forall d f, dcell = Some d -> fcell = Some f ->
      exists flow, eg_flow slot = Some flow /\ flow_sound flow /\ gf_direct flow = d /\ gf_first flow = f) ->
    length (<[i := slot]> evaluated) = S units /\
    slot_filled directPlans firstPlans units i (<[i := slot]> evaluated) /\
    forall j, slot_filled directPlans firstPlans units j evaluated ->
              slot_filled directPlans firstPlans units j (<[i := slot]> evaluated)) as Hput.
  { intros slot Hslot. split; [by rewrite length_insert|].
    assert (slot_filled directPlans firstPlans units i (<[i := slot]> evaluated)) as Hfill.
    { exists slot. split; [apply list_lookup_insert_eq; lia|]. intros Herr d f Hd' Hf'.
      rewrite Hd1 in Hd'. rewrite Hf1 in Hf'. by apply Hslot; [|congruence..]. }
    split; [done|]. intros j Hj. destruct (decide (j = i)) as [->|Hne]; [done|].
    destruct Hj as (sl & Hsl & Hfl). exists sl. by rewrite list_lookup_insert_ne. }
  specialize (H s Hms). destruct (grid_evaluate _ _ _ _ s) as [[[[flow sv] ex]|e|w] s']; destruct H as [Hms' H].
  - split; [done|]. apply Hput. cbn. intros _. apply H.
  - split; [done|]. by apply Hput.
  - done.
Qed.
End flow_spec.

(** ** The whole run *)

(** The jobs are the numbers of first-stage units, each carried out once. *)
Definition schedules (schedule : nat -> list nat) : Prop :=
  forall n, schedule n ≡ₚ seq 0 (S n).

(** What the grid optimizer promises: as for [split_sound], but the input may
    miss the remainder that is not a multiple of the grid. *)
Record grid_sound (quote_of : SplitAllocation -> Prop) (total : Z) (r : TwoStageSplitResult) : Prop := {
  gs_entries : forall a, a ∈ rs_Direct r ++ rs_FirstStage r ++ rs_SecondStage r ->
    0 <= sa_AmountIn a /\ 0 <= sa_AmountOut a /\ quote_of a;
  gs_total : rs_TotalInput r = total;
  gs_divisions : 0 < rs_GridDivisions r;
  gs_input : let spent := Zsum (sa_AmountIn <$> rs_Direct r) + Zsum (sa_AmountIn <$> rs_FirstStage r) in
    spent = total \/
    (spent = total - Z.rem total (rs_GridDivisions r) /\ rs_GridVerified r = false);
  gs_intermediate : Zsum (sa_AmountOut <$> rs_FirstStage r) = rs_IntermediateOut r;
  gs_second : Zsum (sa_AmountIn <$> rs_SecondStage r) = rs_IntermediateOut r;
  gs_output : rs_TotalOutput r =
    Zsum (sa_AmountOut <$> rs_Direct r) + Zsum (sa_AmountOut <$> rs_SecondStage r) }.

Lemma materialized_entries curves amounts l x :
  materialized curves amounts l -> Forall (fun y => 0 <= y) amounts -> x ∈ l ->
  0 <= sa_AmountIn x /\ 0 <= sa_AmountOut x /\ exists c, c ∈ curves /\ sa_CurveID x = mc_id c /\
    curve_value c (sa_AmountIn x) = Ok (sa_AmountOut x).
Proof.
  intros Hm Hpos Hx. apply list_elem_of_lookup in Hx as [k Hk].
  destruct (Forall2_lookup_r _ _ _ _ _ Hm Hk) as ([c y] & Hz & Hid & <- & Hv).
  apply list_elem_of_lookup_2 in Hz.
  pose proof (elem_of_zip_l _ _ _ _ Hz) as Hc. pose proof (elem_of_zip_r _ _ _ _ Hz) as Hy.
  rewrite Forall_forall in Hpos. split_and!; [by apply Hpos|by eapply curve_value_nonneg|]. by exists c.
Qed.

Definition quotes_entry (curves : list memoCurve) (a : SplitAllocation) : Prop :=
  exists c, c ∈ curves /\ sa_CurveID a = mc_id c /\ curve_value c (sa_AmountIn a) = Ok (sa_AmountOut a).

Lemma quotes_entry_sub curves curves' a : curves ⊆ curves' -> quotes_entry curves a -> quotes_entry curves' a.
Proof. intros Hsub (c & Hc & ?). exists c. split; [by apply Hsub|done]. Qed.

Section run_spec.
Context (schedule : nat -> list nat) (Hsch : schedules schedule).
Context (direct first second : list memoCurve) (total divisions : Z).
Hypothesis Hcs : curves_ok (direct ++ first ++ second).
Hypothesis Htotal : 0 < total.
Hypothesis Hdiv : 2 <= divisions.

Let cs := direct ++ first ++ second.
Let effective := effectiveGridDivisions total divisions.

Lemma sub_stages : direct ⊆ cs /\ first ⊆ cs /\ second ⊆ cs.
Proof using Type. unfold cs. split_and!; intros c Hc; rewrite !elem_of_app; auto. Qed.

Lemma grid_search_spec :
  Spec (memos_ok cs) (grid_search schedule total divisions direct first second)
    (fun r => r.2 = effective /\
       scan_sound (flow_final direct first second divisions (total - Z.rem total effective)
                     (Z.rem total effective)) r.1).
Proof using Hcs Htotal Hdiv Hsch.
  destruct sub_stages as (Hd & Hf & Hs).
  destruct (effective_bounds total divisions Htotal Hdiv) as (He & Hq & Hr & Heq).
  unfold grid_search. cbn zeta. fold effective in He, Hq, Hr, Heq |- *.
  eapply Spec_bind; [by apply Spec_wrapST, (gridFamilyPlans_all cs Hcs)|]. intros directPlans Hdp.
  eapply Spec_bind; [by apply Spec_wrapST, (gridFamilyPlans_all cs Hcs)|]. intros firstPlans Hfp.
  eapply Spec_bind.
  { apply (Spec_foldST _ _ (fun _ => Forall (slot_sound direct first second divisions
      (Z.quot total effective * Z.of_nat (Z.to_nat effective))))).
    - apply Forall_replicate. by intros flow.
    - intros before i after evaluated Hseq Hev.
      apply (run_job_spec direct first second divisions cs Hcs Hs Hdiv); try done.
      assert (i ∈ schedule (Z.to_nat effective)) as Hi by (rewrite Hseq; apply elem_of_app; right; by left).
      rewrite (Hsch (Z.to_nat effective)) in Hi. apply elem_of_seq in Hi. lia. }
  intros evaluated Hev. rewrite Z2Nat.id in Hev by lia.
  eapply Spec_bind.
  { apply (Spec_lift _ _ (fun scan => foldM scan_evaluated (mkGridScan None 0 0 true) evaluated = Ok scan)); [|done].
    apply no_panic_foldM. intros sc slot _. unfold scan_evaluated. destruct (eg_err slot); [done|].
    by destruct (eg_flow slot). }
  intros scan Hscan. apply (scan_all_sound direct first second divisions _ _ _ Hev) in Hscan.
  destruct (gs_best scan) as [best|] eqn:Hbest; [|apply Spec_fail].
  destruct (Hscan best Hbest) as [Hsound Hspent].
  eapply Spec_bind; [|intros scan' Hscan'; by apply Spec_ret].
  apply (grid_remainder_spec direct first second divisions cs); try done; [lia|].
  intros flow Hflow. destruct (Hscan flow Hflow) as [Hfl Hsp]. split; [done|left]. lia.
Qed.

(** Every way to spend the grid units of the input is matched: with any direct
    allocation, and a first-stage allocation replaced by the one that yields the
    most for its units, whose output is spent on the grid of the second stage. *)
Definition matched (r : gridScan) : Prop :=
  let quantum := Z.quot total effective in
  forall k a b, (k <= Z.to_nat effective)%nat ->
    spends direct quantum (fun _ => 0) (Z.to_nat effective - k) a ->
    spends first quantum (fun _ => 0) k b ->
    exists va vb plan vs, curves_value direct a = Ok va /\ curves_value first b = Ok vb /\
      vb <= gp_output plan /\ best_of first (spends first quantum (fun _ => 0) k) (Some plan) /\
      grid_best second (gp_output plan) divisions vs /\ scan_reaches (va + gp_output vs) r.

Lemma grid_search_optimal :
  Spec (memos_ok cs) (grid_search schedule total divisions direct first second) (fun r => matched r.1).
Proof using Hcs Htotal Hdiv Hsch.
  destruct sub_stages as (Hd & Hf & Hs).
  destruct (effective_bounds total divisions Htotal Hdiv) as (He & Hq & Hr & Heq).
  unfold grid_search, matched. cbn zeta. fold effective in He, Hq, Hr, Heq |- *.
  set (units := Z.to_nat effective). set (quantum := Z.quot total effective) in *.
  eapply Spec_bind; [by apply Spec_wrapST, (gridFamilyPlans_all cs Hcs quantum units)|]. intros directPlans Hdp.
  eapply Spec_bind; [by apply Spec_wrapST, (gridFamilyPlans_all cs Hcs quantum units)|]. intros firstPlans Hfp.
  eapply Spec_bind.
  { apply (Spec_foldST _ _ (fun before evaluated => length evaluated = S units /\
      Forall (slot_sound direct first second divisions (quantum * Z.of_nat units)) evaluated /\
      forall i, i ∈ before -> slot_filled direct first second divisions directPlans firstPlans units i evaluated)).
    - split_and!; [by rewrite length_replicate|by apply Forall_replicate; intros flow|]. by intros i ?%elem_of_nil.
    - intros before i after evaluated Hseq (Hlen & Hev & Hfill).
      assert (i <= units)%nat as Hi.
      { assert (i ∈ schedule units) as Hi by (rewrite Hseq; apply elem_of_app; right; by left).
        rewrite (Hsch units) in Hi. apply elem_of_seq in Hi. lia. }
      intros s Hms.
      pose proof (run_job_spec direct first second divisions cs Hcs Hs Hdiv quantum units directPlans firstPlans
        evaluated i Hq Hdp Hfp Hi Hev s Hms) as H1.
      pose proof (run_job_fills direct first second divisions cs Hcs Hs Hdiv quantum directPlans firstPlans units
        evaluated i Hq Hdp Hfp Hi Hlen s Hms) as H2.
      destruct (run_job _ _ _ _ _ _ _ s) as [[ev'|e|w] s']; [|by destruct H1..].
      destruct H1 as [Hms' H1]. destruct H2 as [_ (Hlen' & Hnew & Hold)]. split; [done|]. split_and!; [done..|].
      intros j [Hj|Hj]%elem_of_app; [by apply Hold, Hfill|]. by apply list_elem_of_singleton in Hj as ->. }
  intros evaluated (Hlen & Hev & Hfill).
  eapply Spec_bind.
  { apply (Spec_lift _ _ (fun scan => foldM scan_evaluated (mkGridScan None 0 0 true) evaluated = Ok scan)); [|done].
    apply no_panic_foldM. intros sc slot _. unfold scan_evaluated. destruct (eg_err slot); [done|].
    by destruct (eg_flow slot). }
  intros scan Hscan. destruct (scan_all_reaches _ _ _ Hscan) as [_ Hreach].
  apply (scan_all_sound direct first second divisions _ _ _ Hev) in Hscan.
  destruct (gs_best scan) as [best|] eqn:Hbest; [|apply Spec_fail]. destruct (Hscan best Hbest) as [Hsound _].
  intros s Hms.
  assert (forall v, scan_reaches v scan -> Spec (memos_ok cs)
    (grid_remainder direct first second divisions (Z.rem total effective) best scan) (scan_reaches v)) as Hrem
    by (intros v Hv; by apply (grid_remainder_reaches direct first second divisions cs)).
  assert (scan_reaches (gf_output best) scan) as Hself by (exists best; split; [done|lia]).
  pose proof (Hrem _ Hself s Hms) as Hrun. unfold mbind, st_bind.
  destruct (grid_remainder _ _ _ _ _ _ _ s) as [[scan'|e|w] s'] eqn:Heqr; [|by destruct Hrun..].
  destruct Hrun as [Hms' _]. split; [done|].
  assert (forall v, scan_reaches v scan -> scan_reaches v scan') as Hkeep.
  { intros v Hv. specialize (Hrem v Hv s Hms). rewrite Heqr in Hrem. by destruct Hrem. }
  cbn [fst]. intros k a b Hk Ha Hb.
  destruct (Hdp (units - k)%nat ltac:(lia)) as (dcell & Hd1 & Hdc).
  destruct (Hfp k Hk) as (fcell & Hf1 & Hfc).
  destruct Hdc as [Hdin Hdmax]. destruct (Hdmax a Ha) as (d & va & -> & Hva & Hled).
  pose proof Hfc as [_ Hfmax]. destruct (Hfmax b Hb) as (f & vb & -> & Hvb & Hlef).
  destruct (Hfill k) as (slot & Hslot & Hflow).
  { rewrite (Hsch units). apply elem_of_seq. lia. }
  apply list_elem_of_lookup_2 in Hslot. destruct (Hreach slot Hslot) as [Herr Hre].
  destruct (Hflow Herr d f Hd1 Hf1) as (flow & Hfl & Hfs & Hgd & Hgf).
  exists va, vb, f, (gf_second flow). split_and!; [done..| |].
  - pose proof (fs_second _ _ _ _ _ Hfs) as Hsec. by rewrite (fs_intermediate _ _ _ _ _ Hfs), Hgf in Hsec.
  - apply Hkeep. destruct (Hre flow Hfl) as (bst & Hb1 & Hb2). exists bst. split; [done|].
    rewrite (fs_output _ _ _ _ _ Hfs), Hgd in Hb2. lia.
Qed.

Lemma grid_run_spec :
  Spec (memos_ok cs) (grid_run schedule total divisions direct first second)
    (grid_sound (quotes_entry cs) total).
Proof using Hcs Htotal Hdiv Hsch.
  destruct sub_stages as (Hd & Hf & Hs). unfold grid_run.
  destruct (effective_bounds total divisions Htotal Hdiv) as (He & _). fold effective in He.
  eapply Spec_bind; [apply grid_search_spec|]. intros [scan eff] [Heff Hscan]. cbn [fst snd] in Heff, Hscan. subst eff.
  destruct (gs_best scan) as [best|] eqn:Hbest; [|apply Spec_fail]. cbn zeta.
  destruct (Hscan best Hbest) as [[(Ld & Nd & Vd) (Lf & Nf & Vf) Hmid (Ls & [Ns Ss] & Vs & _) Hout] Hspent].
  eapply Spec_bind; [by apply (materialize_spec cs)|]. intros da Hda.
  eapply Spec_bind; [by apply (materialize_spec cs)|]. intros fa Hfa.
  eapply Spec_bind; [by apply (materialize_spec cs)|]. intros sa Hsa.
  eapply Spec_bind; [apply (Spec_get _ (fun _ => True)); done|]. intros s _.
  destruct (curve_counters _ s) as [calls hits]. apply Spec_ret.
  destruct (materialized_sums _ _ _ Ld Hda) as [Id Od]. destruct (materialized_sums _ _ _ Lf Hfa) as [If Of].
  destruct (materialized_sums _ _ _ Ls Hsa) as [Is Os].
  rewrite Vd in Od. rewrite Vf in Of. rewrite Vs in Os. injection Od as Od. injection Of as Of. injection Os as Os.
  split; cbn [rs_Direct rs_FirstStage rs_SecondStage rs_TotalInput rs_GridDivisions rs_GridVerified
              rs_IntermediateOut rs_TotalOutput].
  - intros x. rewrite !elem_of_app. intros [Hx|[Hx|Hx]].
    + destruct (materialized_entries _ _ _ _ Hda Nd Hx) as (? & ? & ?). split_and!; [done..|].
      by apply (quotes_entry_sub direct).
    + destruct (materialized_entries _ _ _ _ Hfa Nf Hx) as (? & ? & ?). split_and!; [done..|].
      by apply (quotes_entry_sub first).
    + destruct (materialized_entries _ _ _ _ Hsa Ns Hx) as (? & ? & ?). split_and!; [done..|].
      by apply (quotes_entry_sub second).
  - done.
  - done.
  - cbn zeta. rewrite Id, If. unfold flow_spent, flow_key in Hspent. rewrite Zsum_app in Hspent.
    destruct (decide (Z.rem total effective = 0)) as [H0|Hne]; [left; lia|].
    destruct Hspent as [Hspent|Hspent]; [right|left; lia]. split; [done|].
    apply bool_decide_eq_false_2. by rewrite Z.sgn_null_iff.
  - congruence.
  - rewrite Is. congruence.
  - rewrite Hout. congruence.
Qed.

(** The run keeps the value of the search. *)
Definition grid_optimal (r : TwoStageSplitResult) : Prop :=
  rs_GridDivisions r = effective /\ rs_InputResolution r = Z.quot total effective /\
  forall k a b, (k <= Z.to_nat effective)%nat ->
    spends direct (rs_InputResolution r) (fun _ => 0) (Z.to_nat effective - k) a ->
    spends first (rs_InputResolution r) (fun _ => 0) k b ->
    exists va vb plan vs, curves_value direct a = Ok va /\ curves_value first b = Ok vb /\
      vb <= gp_output plan /\ best_of first (spends first (rs_InputResolution r) (fun _ => 0) k) (Some plan) /\
      grid_best second (gp_output plan) divisions vs /\ va + gp_output vs <= rs_TotalOutput r.

Lemma grid_run_optimal :
  Spec (memos_ok cs) (grid_run schedule total divisions direct first second) grid_optimal.
Proof using Hcs Htotal Hdiv Hsch.
  destruct sub_stages as (Hd & Hf & Hs). unfold grid_run.
  assert (Spec (memos_ok cs) (grid_search schedule total divisions direct first second)
    (fun r => r.2 = effective /\ matched r.1)) as Hboth.
  { intros s Hms. pose proof (grid_search_spec s Hms) as H1. pose proof (grid_search_optimal s Hms) as H2.
    destruct (grid_search _ _ _ _ _ _ s) as [[[sc e]|e|w] s']; naive_solver. }
  eapply Spec_bind; [exact Hboth|]. intros [scan eff] [Heff Hm]. cbn [fst snd] in Heff, Hm. subst eff.
  destruct (gs_best scan) as [best|] eqn:Hbest; [|apply Spec_fail]. cbn zeta.
  eapply Spec_bind; [by apply (materialize_spec cs)|]. intros da _.
  eapply Spec_bind; [by apply (materialize_spec cs)|]. intros fa _.
  eapply Spec_bind; [by apply (materialize_spec cs)|]. intros sa _.
  eapply Spec_bind; [apply (Spec_get _ (fun _ => True)); done|]. intros s _.
  destruct (curve_counters _ s) as [calls hits]. apply Spec_ret. split_and!; [done..|].
  cbn [rs_InputResolution rs_TotalOutput]. intros k a b Hk Ha Hb.
  destruct (Hm k a b Hk Ha Hb) as (va & vb & plan & vs & ? & ? & ? & ? & ? & bst & Hbst & Hle).
  rewrite Hbest in Hbst. injection Hbst as <-. by exists va, vb, plan, vs.
Qed.
End run_spec.

Definition grid_request_total (request : GridTwoStageSplitRequest) : Prop :=
  quotes_total (gr_Direct request) /\ quotes_total (gr_FirstStage request) /\
  quotes_total (gr_SecondStage request).

(** The curves and the grid of a successful run, and what holds of its result. *)
Definition grid_outcome (request : GridTwoStageSplitRequest)
    (Q : list memoCurve -> list memoCurve -> list memoCurve -> Z -> Z -> TwoStageSplitResult -> Prop)
    (r : TwoStageSplitResult) : Prop :=
  exists total divisions direct first second,
    gr_TotalInput request = Some total /\ 0 < total /\
    newUncachedCurves (gr_Direct request) = Ok direct /\
    newUncachedCurves (gr_FirstStage request) = Ok first /\
    newUncachedCurves (gr_SecondStage request) = Ok second /\
    Q direct first second total divisions r.

Lemma grid_entry schedule ctx_Err request Q :
  grid_request_total request ->
  (forall d f s total divisions, curves_ok (d ++ f ++ s) -> 0 < total -> 2 <= divisions ->
     Spec (memos_ok (d ++ f ++ s)) (grid_run schedule total divisions d f s) (Q d f s total divisions)) ->
  match OptimizeTwoStageSplitGrid schedule ctx_Err request with
  | Panic _ => False | Err _ => True | Ok r => grid_outcome request Q r
  end.
Proof.
  intros (Hq1 & Hq2 & Hq3) Hq.
  unfold OptimizeTwoStageSplitGrid, grid_outcome. destruct ctx_Err as [e|]; [done|].
  destruct (gr_TotalInput request) as [total|]; [|done].
  destruct (decide (Z.sgn total <= 0)) as [|Hpos]; [done|]. repeat (destruct (decide _) as [|?Hd]; [done|]).
  destruct (newUncachedCurves (gr_Direct request)) as [d|e|w] eqn:Hdir; cbn [wrap mbind res_bind]; [|done|].
  2:{ by destruct (newCurves_loop_no_panic (merge_sort curve_le (gr_Direct request)) false w). }
  destruct (newUncachedCurves (gr_FirstStage request)) as [f|e|w] eqn:Hfst; cbn [wrap mbind res_bind]; [|done|].
  2:{ by destruct (newCurves_loop_no_panic (merge_sort curve_le (gr_FirstStage request)) false w). }
  destruct (newUncachedCurves (gr_SecondStage request)) as [s|e|w] eqn:Hsnd; cbn [wrap mbind res_bind]; [|done|].
  2:{ by destruct (newCurves_loop_no_panic (merge_sort curve_le (gr_SecondStage request)) false w). }
  destruct (uniqueCurveIDs [d; f; s]) as [u|e|w] eqn:Hids; cbn [mbind res_bind]; [|done|].
  2:{ assert (no_panic (uniqueCurveIDs [d; f; s])) as Hnp by (unfold uniqueCurveIDs; no_panic_auto).
      by destruct (Hnp w). }
  apply uniqueCurveIDs_Ok in Hids. cbn [concat] in Hids. rewrite app_nil_r in Hids.
  assert (curves_ok (d ++ f ++ s)) as Hcs.
  { split; [done|]. intros c x. rewrite !elem_of_app.
    intros [Hc|[Hc|Hc]]; [exact (newCurves_quotes _ _ _ c x Hq1 Hdir Hc)
      |exact (newCurves_quotes _ _ _ c x Hq2 Hfst Hc)|exact (newCurves_quotes _ _ _ c x Hq3 Hsnd Hc)]. }
  set (divisions := if decide (gr_Divisions request = 0) then 32 else gr_Divisions request) in *.
  pose proof (Hq d f s total divisions Hcs ltac:(destruct (Z.sgn_spec total); lia) ltac:(lia) ∅) as Hrun.
  specialize (Hrun ltac:(intros c key v _; unfold memo_of; rewrite lookup_empty; cbn; by rewrite lookup_empty)).
  destruct (grid_run _ _ _ _ _ _ _) as [[r|e|w] st]; cbn [fst]; [|done|by destruct Hrun].
  exists total, divisions, d, f, s. split_and!; try done; [destruct (Z.sgn_spec total); lia|].
  by destruct Hrun.
Qed.

(** The grid optimizer never panics, however its workers are scheduled, and
    its result is sound: the flow balances at each stage, every output is what
    the curve quotes, the claimed total is their sum, and the input is spent
    whole, except that a part smaller than the grid may be left over, and then
    the result does not claim to be verified on the grid. *)
Theorem OptimizeTwoStageSplitGrid_sound (schedule : nat -> list nat) (ctx_Err : option error)
    (request : GridTwoStageSplitRequest) :
  schedules schedule -> grid_request_total request ->
  no_panic (OptimizeTwoStageSplitGrid schedule ctx_Err request) /\
  forall r, OptimizeTwoStageSplitGrid schedule ctx_Err request = Ok r ->
    grid_outcome request (fun direct first second total _ =>
      grid_sound (quotes_entry (direct ++ first ++ second)) total) r.
Proof.
  intros Hsch Hreq.
  pose proof (grid_entry schedule ctx_Err request _ Hreq
    (fun d f s total divisions Hcs Ht Hd => grid_run_spec schedule Hsch d f s total divisions Hcs Ht Hd)) as H.
  destruct (OptimizeTwoStageSplitGrid _ _ _) as [r|e|w]; [|done..]. split; [done|]. by intros r' [= <-].
Qed.

(** C22. The grid optimizer is optimal on its grid over the direct allocations and
    over the first-stage allocations that yield the most for their units: its
    claimed output is at least that of every such combination, whose
    intermediate output is spent best on the grid of the second stage. *)
Theorem OptimizeTwoStageSplitGrid_optimal (schedule : nat -> list nat) (ctx_Err : option error)
    (request : GridTwoStageSplitRequest) (r : TwoStageSplitResult) :
  schedules schedule -> grid_request_total request ->
  OptimizeTwoStageSplitGrid schedule ctx_Err request = Ok r ->
  grid_outcome request grid_optimal r.
Proof.
  intros Hsch Hreq Hr.
  pose proof (grid_entry schedule ctx_Err request _ Hreq
    (fun d f s total divisions Hcs Ht Hd => grid_run_optimal schedule Hsch d f s total divisions Hcs Ht Hd)) as H.
  by rewrite Hr in H.
Qed.

Module GridWitness.
Definition pool (x : Z) : res (option Z) := Ok (Some (Z.quot (1000 * x) (10 + x))).
Definition request (total : Z) : GridTwoStageSplitRequest :=
  mkGridTwoStageSplitRequest (Some total) [mkSplitCurve "a" (Some pool); mkSplitCurve "b" (Some pool)] [] [] 4.
Definition no_result : TwoStageSplitResult :=
  mkTwoStageSplitResult [] [] [] 0 0 0 0 0 false false false (mkSplitMetrics 0 0 0 0 0 0).
Definition result_of (request : GridTwoStageSplitRequest) : TwoStageSplitResult :=
  match OptimizeTwoStageSplitGrid in_order None request with Ok r => r | _ => no_result end.
Definition entries (l : list SplitAllocation) := (fun a => (sa_AmountIn a, sa_AmountOut a)) <$> l.

Lemma in_order_schedules : schedules in_order.
Proof. intros n. reflexivity. Qed.

Lemma grid_request_ok total : grid_request_total (request total).
Proof.
  split_and!; intros c q x Hc Hq; cbn in Hc; [|by apply elem_of_nil in Hc..].
  apply elem_of_cons in Hc as [->|Hc]; [by injection Hq as <-|].
  apply list_elem_of_singleton in Hc as ->. by injection Hq as <-.
Qed.

Lemma grid_sound_witness :
  no_panic (OptimizeTwoStageSplitGrid in_order None (request 8)) /\
  grid_outcome (request 8) (fun direct first second total _ =>
    grid_sound (quotes_entry (direct ++ first ++ second)) total) (result_of (request 8)).
Proof.
  destruct (OptimizeTwoStageSplitGrid_sound in_order None (request 8) in_order_schedules (grid_request_ok 8)) as [H1 H2].
  split; [exact H1|]. apply H2. vm_compute. reflexivity.
Defined.

Lemma grid_optimal_witness :
  grid_outcome (request 8) grid_optimal (result_of (request 8)).
Proof.
  apply (OptimizeTwoStageSplitGrid_optimal in_order None (request 8) _ in_order_schedules (grid_request_ok 8)).
  vm_compute. reflexivity.
Defined.

(** A total between the divisions and twice the divisions has quantum one and a
    remainder that goes to one curve as a lump: the result claims to be verified
    globally, but the even split is worth more. *)
Example globally_verified_not_optimal :
  rs_GloballyVerified (result_of (request 7)) = true /\
  entries (rs_Direct (result_of (request 7))) = [(2, 166); (5, 333)] /\
  rs_TotalOutput (result_of (request 7)) = 499 /\
  pool 3 = Ok (Some 230) /\ pool 4 = Ok (Some 285).
Proof. vm_compute. split_and!; reflexivity. Qed.

(** On a curve that is flat at the end of the grid the flow without the
    remainder is kept, and one input unit is never allocated. *)
Definition flat_request : GridTwoStageSplitRequest :=
  mkGridTwoStageSplitRequest (Some 33) [mkSplitCurve "a" (Some (fun x => Ok (Some (Z.min x 20))))] [] [] 32.
Example remainder_not_allocated :
  rs_TotalInput (result_of flat_request) = 33 /\
  entries (rs_Direct (result_of flat_request)) = [(32, 20)].
Proof. vm_compute. split; reflexivity. Qed.

(** A smaller intermediate output can fit the grid of the second stage better:
    the result claims to be verified on the grid, but sending half of the input
    to each first-stage curve yields 9, whose split (1, 8) is worth more. *)
Definition step (at_ low high : Z) (x : Z) : res (option Z) := Ok (Some (if decide (at_ <= x) then high else low)).
Definition staged_request : GridTwoStageSplitRequest :=
  mkGridTwoStageSplitRequest (Some 10)
    [] [mkSplitCurve "a" (Some (step 1 0 0)); mkSplitCurve "b" (Some (step 10 9 10))]
    [mkSplitCurve "c" (Some (step 1 0 50)); mkSplitCurve "d" (Some (step 8 0 1000))] 2.
Example grid_verified_not_optimal :
  rs_GridVerified (result_of staged_request) = true /\
  rs_TotalOutput (result_of staged_request) = 1000 /\
  step 10 9 10 5 = Ok (Some 9) /\ step 1 0 50 1 = Ok (Some 50) /\ step 8 0 1000 8 = Ok (Some 1000).
Proof. vm_compute. split_and!; reflexivity. Qed.
End GridWitness.
