(* ===== verification/GridSchedule.v ===== *)
(** * The order of the grid workers does not matter (src/core/sizing/grid_split.go)

    The jobs of [OptimizeTwoStageSplitGrid] share the call counters of the
    curves.  Every call of an uncached curve returns a value that does not depend
    on the counters and adds to them; additions commute, so every schedule of the
    jobs gives the same result, metrics included. *)
From S2P Require Import Prelude Amount Quote Split SplitCurves SplitSearch GridSplit GridSearch.

(** [c.calls++]. *)
Definition bump (id : string) (s : memos) : memos :=
  let m := default memo_empty (s !! id) in
  <[id := mkMemo (memo_cache m) (memo_calls m + 1) (memo_hits m)]> s.
Definition bump_all (ids : list string) (s : memos) : memos := foldl (fun s id => bump id s) s ids.

Lemma bump_comm a b s : bump a (bump b s) = bump b (bump a s).
Proof.
  unfold bump. destruct (decide (a = b)) as [->|Hne]; [done|].
  rewrite !lookup_insert_ne by done. by rewrite insert_insert_ne.
Qed.

Lemma bump_all_cons a ids s : bump_all (a :: ids) s = bump_all ids (bump a s).
Proof. done. Qed.

Lemma bump_all_bump ids a s : bump_all ids (bump a s) = bump a (bump_all ids s).
Proof.
  revert s. induction ids as [|b ids IH]; intros s; [done|]. by rewrite !bump_all_cons, bump_comm, IH.
Qed.

Lemma bump_all_comm ids ids' s : bump_all ids (bump_all ids' s) = bump_all ids' (bump_all ids s).
Proof.
  revert s. induction ids' as [|b ids' IH]; intros s; [done|]. by rewrite !bump_all_cons, IH, bump_all_bump.
Qed.

Lemma bump_all_app ids ids' s : bump_all (ids ++ ids') s = bump_all ids' (bump_all ids s).
Proof. unfold bump_all. by rewrite foldl_app. Qed.

(** A call whose outcome does not depend on the counters and that only adds to
    them. *)
Definition Counts {A} (m : ST memos A) : Prop := exists r ids, forall s, m s = (r, bump_all ids s).

Lemma Counts_ret {A} (a : A) : Counts (mret a).
Proof. by exists (Ok a), []. Qed.
Lemma Counts_fail {A} fmt : Counts (fail (A := A) fmt).
Proof. by exists (Err (Errorf fmt)), []. Qed.
Lemma Counts_lift {A} (m : res A) : Counts (lift m).
Proof. by exists m, []. Qed.

Lemma Counts_bind {A B} (m : ST memos A) (f : A -> ST memos B) :
  Counts m -> (forall a, Counts (f a)) -> Counts (m ≫= f).
Proof.
  intros (r & ids & Hm) Hf. unfold mbind, st_bind. destruct r as [a|e|w].
  - destruct (Hf a) as (r' & ids' & Ha). exists r', (ids ++ ids'). intros s. by rewrite Hm, Ha, bump_all_app.
  - exists (Err e), ids. intros s. by rewrite Hm.
  - exists (Panic w), ids. intros s. by rewrite Hm.
Qed.

Lemma Counts_foldST {A B} (f : B -> A -> ST memos B) b l :
  (forall b a, a ∈ l -> Counts (f b a)) -> Counts (foldST f b l).
Proof.
  revert b. induction l as [|a l IH]; intros b Hf; [by exists (Ok b), []|].
  destruct (Hf b a ltac:(by left)) as (r & ids & Ha).
  destruct r as [b'|e|w]; [|exists (Err e), ids; intros s; cbn; by rewrite Ha
                           |exists (Panic w), ids; intros s; cbn; by rewrite Ha].
  destruct (IH b') as (r' & ids' & Hb); [intros; apply Hf; by right|].
  exists r', (ids ++ ids'). intros s. cbn [foldST]. by rewrite Ha, Hb, bump_all_app.
Qed.

Create HintDb counts discriminated.
#[export] Hint Resolve Counts_ret Counts_fail Counts_lift : counts.
Ltac counts_step :=
  match goal with
  | |- Counts (mbind _ _) => apply Counts_bind; [|intros ?]
  | |- Counts (foldST _ _ _) => apply Counts_foldST; intros ? ? ?
  | |- Counts (if decide ?P then _ else _) => destruct (decide P)
  | |- Counts (match ?x with _ => _ end) => destruct x
  | |- Counts ((match ?x with _ => _ end) _) => destruct x
  end.
Ltac counts := repeat (counts_step; cbn beta iota zeta); eauto with counts.

Section counts.
Context (cs : list memoCurve).
Hypothesis Huncached : forall c, c ∈ cs -> mc_cached c = false.

Lemma curve_at_counts c x : c ∈ cs -> Counts (curve_at c x).
Proof using Huncached.
  intros Hc. specialize (Huncached c Hc). unfold curve_at.
  destruct (decide (Z.sgn x < 0)); [apply Counts_fail|]. destruct (decide (Z.sgn x = 0)); [apply Counts_ret|].
  destruct (quote_value c x) as [v|e|w] eqn:Hv.
  - exists (Ok v), [mc_id c]. intros s. unfold mbind, st_bind, get, lift, modify, mret, st_ret.
    rewrite Huncached. cbn. unfold memo_store, memo_of, bump. by rewrite Huncached.
  - exists (Err e), []. intros s. unfold mbind, st_bind, get, lift. by rewrite Huncached.
  - exists (Panic w), []. intros s. unfold mbind, st_bind, get, lift. by rewrite Huncached.
Qed.

Lemma grid_row_counts quantum extra divisions c : c ∈ cs -> Counts (grid_row quantum extra divisions c).
Proof using Huncached.
  intros Hc. unfold grid_row, grid_quote. counts. by apply curve_at_counts.
Qed.

Lemma plans_counts quantum remainder divisions curves recipient :
  curves ⊆ cs -> Counts (gridFamilyPlansWithRemainder quantum remainder divisions curves recipient).
Proof using Huncached.
  intros Hsub. unfold gridFamilyPlansWithRemainder. counts.
  apply grid_row_counts, Hsub. by eapply elem_of_zip_r.
Qed.

Lemma gridFamilyBest_counts total divisions curves :
  curves ⊆ cs -> Counts (gridFamilyBest total divisions curves).
Proof using Huncached.
  intros Hsub. unfold gridFamilyBest. case_decide; [apply Counts_ret|].
  cbn zeta. apply Counts_bind; [|intros; apply Counts_ret].
  destruct curves as [|c0 [|c1 [|c2 curves]]]; cbn [gridFamilyBestWithRemainder]; [apply Counts_fail| | |].
  - apply Counts_bind; [|intros; apply Counts_ret]. apply curve_at_counts, Hsub. by left.
  - apply Counts_foldST. intros b r _. apply Counts_foldST. intros b' k _. unfold pair_split. counts.
    + apply curve_at_counts, Hsub. by left.
    + apply curve_at_counts, Hsub. by right; left.
  - case_decide.
    + apply Counts_bind; [by apply plans_counts|intros; apply Counts_ret].
    + apply Counts_foldST. intros b r _. unfold family_recipient.
      apply Counts_bind; [by apply plans_counts|intros plans]. counts.
Qed.

Lemma grid_evaluate_counts second divisions d f :
  second ⊆ cs -> Counts (grid_evaluate second divisions d f).
Proof using Huncached.
  intros Hsub. unfold grid_evaluate. destruct d as [d|]; [|apply Counts_ret].
  destruct f as [f|]; [|apply Counts_ret]. case_decide; [|apply Counts_ret].
  apply Counts_bind; [by apply gridFamilyBest_counts|]. intros [[p|] e]; [apply Counts_ret|apply Counts_lift].
Qed.

(** A job that does not panic fills its slot with a value of its own. *)
Lemma run_job_slot second divisions directPlans firstPlans units i :
  second ⊆ cs ->
  (forall w, (grid_evaluate second divisions (directPlans !! (units - i)%nat ≫= id)
     (firstPlans !! i ≫= id) ∅).1 <> Panic w) ->
  exists slot ids, forall evaluated s, run_job second divisions directPlans firstPlans units evaluated i s =
    (Ok (<[i := slot]> evaluated), bump_all ids s).
Proof using Huncached.
  intros Hsub Hnp. unfold run_job.
  destruct (grid_evaluate_counts second divisions (directPlans !! (units - i)%nat ≫= id)
    (firstPlans !! i ≫= id) Hsub) as (r & ids & Hr).
  rewrite Hr in Hnp. cbn in Hnp. destruct r as [[[flow a] b]|e|w].
  - eexists _, ids. intros evaluated s. rewrite Hr. done.
  - eexists _, ids. intros evaluated s. rewrite Hr. done.
  - by destruct (Hnp w).
Qed.

Lemma run_jobs_perm second divisions directPlans firstPlans units l k :
  second ⊆ cs -> l ≡ₚ k ->
  (forall i w, i ∈ l -> (grid_evaluate second divisions (directPlans !! (units - i)%nat ≫= id)
     (firstPlans !! i ≫= id) ∅).1 <> Panic w) ->
  forall evaluated s,
    foldST (run_job second divisions directPlans firstPlans units) evaluated l s =
    foldST (run_job second divisions directPlans firstPlans units) evaluated k s.
Proof using Huncached.
  intros Hsub Hperm Hnp. apply foldST_perm; [done|]. intros x y b s Hx Hy.
  destruct (run_job_slot second divisions directPlans firstPlans units x Hsub (fun w => Hnp x w Hx)) as (sx & ix & Ex).
  destruct (run_job_slot second divisions directPlans firstPlans units y Hsub (fun w => Hnp y w Hy)) as (sy & iy & Ey).
  unfold mbind, st_bind. rewrite (Ex b s), (Ey b s). cbn beta iota. rewrite Ex, Ey, bump_all_comm. f_equal. f_equal.
  destruct (decide (x = y)) as [->|Hne]; [|by apply list_insert_insert_ne].
  pose proof (Ex b s) as E. rewrite Ey in E. injection E as E _. by rewrite !list_insert_insert_eq.
Qed.
End counts.

(** Two continuations that agree on what a call can return. *)
Lemma bind_agree {S A B} (I : S -> Prop) (m : ST S A) (f g : A -> ST S B) Q s :
  Spec I m Q -> I s -> (forall a s', Q a -> I s' -> f a s' = g a s') -> (m ≫= f) s = (m ≫= g) s.
Proof.
  intros Hm Hs Hfg. specialize (Hm s Hs). unfold mbind, st_bind.
  destruct (m s) as [[a|e|w] s']; destruct Hm as [Hs' HQ]; [by apply Hfg|done..].
Qed.

Section search.
Context (sch1 sch2 : nat -> list nat) (H1 : schedules sch1) (H2 : schedules sch2).
Context (direct first second : list memoCurve) (total divisions : Z).
Hypothesis Hcs : curves_ok (direct ++ first ++ second).
Hypothesis Huncached : forall c, c ∈ direct ++ first ++ second -> mc_cached c = false.
Hypothesis Htotal : 0 < total.
Hypothesis Hdiv : 2 <= divisions.

Lemma job_no_panic quantum units directPlans firstPlans i w :
  0 <= quantum -> plans_ok direct quantum units directPlans -> plans_ok first quantum units firstPlans ->
  (i <= units)%nat ->
  (grid_evaluate second divisions (directPlans !! (units - i)%nat ≫= id) (firstPlans !! i ≫= id) ∅).1 <> Panic w.
Proof using Hcs Hdiv.
  intros Hq Hdp Hfp Hi.
  destruct (Hdp (units - i)%nat ltac:(lia)) as (dcell & -> & Hdc).
  destruct (Hfp i Hi) as (fcell & -> & Hfc). cbn [mbind option_bind id].
  destruct dcell as [d|]; [|done]. destruct fcell as [f|]; [|done].
  destruct (spends_plan _ _ _ _ Hq Hdc) as [Pd _]. destruct (spends_plan _ _ _ _ Hq Hfc) as [Pf _].
  pose proof (grid_evaluate_spec direct first second divisions _ Hcs
    (proj2 (proj2 (sub_stages direct first second))) Hdiv d f Pd Pf ∅) as H.
  specialize (H ltac:(intros c key v _; unfold memo_of; rewrite lookup_empty; cbn; by rewrite lookup_empty)).
  destruct (grid_evaluate _ _ _ _ _) as [[r|e|w'] s]; [done|done|by destruct H].
Qed.

Lemma grid_search_schedule s :
  memos_ok (direct ++ first ++ second) s ->
  grid_search sch1 total divisions direct first second s = grid_search sch2 total divisions direct first second s.
Proof using All.
  intros Hs. destruct (sub_stages direct first second) as (Sd & Sf & Ss).
  destruct (effective_bounds total divisions Htotal Hdiv) as (He & Hq & _ & _).
  unfold grid_search. cbn zeta.
  eapply bind_agree; [by apply Spec_wrapST, (gridFamilyPlans_all _ Hcs)|done|]. intros dp s1 Hdp Hs1.
  eapply bind_agree; [by apply Spec_wrapST, (gridFamilyPlans_all _ Hcs)|done|]. intros fp s2 Hfp Hs2.
  unfold mbind at 1 3, st_bind at 1 3. rewrite (run_jobs_perm _ Huncached second divisions dp fp _
    (sch1 (Z.to_nat (effectiveGridDivisions total divisions)))
    (sch2 (Z.to_nat (effectiveGridDivisions total divisions))) Ss); [done| |].
  - etrans; [apply H1|symmetry; apply H2].
  - intros i w Hi. rewrite (H1 _) in Hi. apply elem_of_seq in Hi. eapply job_no_panic; [exact Hq|done..|lia].
Qed.

Lemma grid_run_schedule s :
  memos_ok (direct ++ first ++ second) s ->
  grid_run sch1 total divisions direct first second s = grid_run sch2 total divisions direct first second s.
Proof using All.
  intros Hs. unfold grid_run. unfold mbind at 1 5, st_bind at 1 5. by rewrite grid_search_schedule.
Qed.
End search.

Lemma newCurves_uncached curves cs c : newUncachedCurves curves = Ok cs -> c ∈ cs -> mc_cached c = false.
Proof.
  unfold newUncachedCurves, newCurves. generalize (merge_sort curve_le curves). clear curves. intros curves.
  revert cs. induction curves as [|sc curves IH]; intros cs; cbn [newCurves_loop].
  - intros [= <-] Hc. by apply elem_of_nil in Hc.
  - intros H Hc. res_inv. subst cs. apply elem_of_cons in Hc as [->|Hc]; [done|by eapply IH].
Qed.

(** C23. Concurrency of the grid optimizer: whatever order the workers carry out
    the jobs in, the result is the same, the allocations and every metric. *)
Theorem grid_schedule_irrelevant (sch1 sch2 : nat -> list nat) (ctx_Err : option error)
    (request : GridTwoStageSplitRequest) :
  schedules sch1 -> schedules sch2 -> grid_request_total request ->
  OptimizeTwoStageSplitGrid sch1 ctx_Err request = OptimizeTwoStageSplitGrid sch2 ctx_Err request.
Proof.
  intros H1 H2 (Hq1 & Hq2 & Hq3). unfold OptimizeTwoStageSplitGrid. destruct ctx_Err as [e|]; [done|].
  destruct (gr_TotalInput request) as [total|]; [|done].
  destruct (decide (Z.sgn total <= 0)) as [|Hpos]; [done|]. repeat (destruct (decide _) as [|?Hd]; [done|]).
  destruct (newUncachedCurves (gr_Direct request)) as [d|e|w] eqn:Hdir; cbn [wrap mbind res_bind]; [|done..].
  destruct (newUncachedCurves (gr_FirstStage request)) as [f|e|w] eqn:Hfst; cbn [wrap mbind res_bind]; [|done..].
  destruct (newUncachedCurves (gr_SecondStage request)) as [s|e|w] eqn:Hsnd; cbn [wrap mbind res_bind]; [|done..].
  destruct (uniqueCurveIDs [d; f; s]) as [u|e|w] eqn:Hids; cbn [mbind res_bind]; [|done..].
  apply uniqueCurveIDs_Ok in Hids. cbn [concat] in Hids. rewrite app_nil_r in Hids.
  f_equal. apply grid_run_schedule; [done|done| | | | |].
  - split; [done|]. intros c x. rewrite !elem_of_app.
    intros [Hc|[Hc|Hc]]; [exact (newCurves_quotes _ _ _ c x Hq1 Hdir Hc)
      |exact (newCurves_quotes _ _ _ c x Hq2 Hfst Hc)|exact (newCurves_quotes _ _ _ c x Hq3 Hsnd Hc)].
  - intros c. rewrite !elem_of_app. intros [Hc|[Hc|Hc]];
      [exact (newCurves_uncached _ _ _ Hdir Hc)|exact (newCurves_uncached _ _ _ Hfst Hc)|exact (newCurves_uncached _ _ _ Hsnd Hc)].
  - destruct (Z.sgn_spec total); lia.
  - lia.
  - intros c key v _; unfold memo_of; rewrite lookup_empty; cbn; by rewrite lookup_empty.
Qed.

Module GridScheduleWitness.
(** Two workers that take the jobs from both ends. *)
Definition backwards (effective : nat) : list nat := rev (seq 0 (S effective)).

Lemma backwards_schedules : schedules backwards.
Proof. intros n. unfold backwards. symmetry. apply Permutation_rev. Qed.

Lemma schedule_witness :
  OptimizeTwoStageSplitGrid backwards None (GridWitness.request 7) =
  OptimizeTwoStageSplitGrid in_order None (GridWitness.request 7).
Proof.
  apply (grid_schedule_irrelevant backwards in_order None (GridWitness.request 7)).
  - exact backwards_schedules.
  - exact GridWitness.in_order_schedules.
  - exact (GridWitness.grid_request_ok 7).
Defined.
End GridScheduleWitness.
